(* ===== verification/_CoqProject ===== *)
-Q . S2P
Prelude.v
RingBuffer.v
Algodefs.v
Int128.v
Hashmap.v
BinaryHeap.v
EventQueue.v
Queue.v
LinkedList.v
Hashset.v
HashsetMap.v
StrPool.v
Vector.v
ElemsHash.v
ObjIndex.v
Ipc2.v
SerialBuffer.v
Sessions.v
Contention.v
SessionTable.v
Base64.v
Num.v
IpRange.v
Shmem.v
ItemState.v
ValueCache.v
JsonText.v
JsonParser.v
JsonBuild.v
JsonRead.v
Asn1.v
Csnmp.v
SnmpPoll.v
SnmpRules.v
SnmpWalk.v
SnmpSafe.v
Calendar.v
Macro.v
Interval.v
Scheduler.v
SchedSearch.v
NextCheck.v
IntervalText.v
IntervalPrint.v
Scan.v
Double.v
Variant.v
Token.v
Utf8.v
EvalCalc.v
EvalParse.v
EvalFunc.v
EvalExec.v
EvalTree.v
EvalText.v
EvalLex.v
EvalShunt.v
EvalSerial.v
EvalMisc.v
EvalTrigger.v
EvalMeaning.v
EvalError.v
PreprocItem.v
Preproc.v
PreprocCache.v
PreprocRun.v
Prometheus.v
PromCache.v
PromText.v
PromJson.v
