(* ===== verification/Prelude.v ===== *)
(** * Verification of the core libraries of Glaber

    Glaber is a monitoring server in C, a fork of Zabbix.  Pollers ask devices
    for values, preprocessing turns them into item values, the state library
    keeps the last values of each item in shared memory, trigger expressions
    are evaluated over them, and history goes to a database.  The processes
    share memory and exchange data through queues in it.  All of them rest on
    a set of containers and helper libraries, and the state of the server is
    kept in these containers; this development models the libraries and proves
    them correct.  Paths below are relative to the root of the repository.

    ** Files and what they model

    - [Prelude]: outcome monad, fixed-width integers, arrays, shared lemmas
      and tactics.
    - [Hashset] (src/libs/zbxalgo/hashset.c): chained hash set with growth,
      iterator and removal.  [HashsetMap] states, as the class [Keyed], what
      the clients rely on and gives them the set as a finite map.  Clients:
      [StrPool] (src/libs/zbxalgo/strpool.c, reference counted strings),
      [Sessions] and [Contention]
      (src/zabbix_server/glb_poller/poller_sessions.c, poller_contention.c),
      [ElemsHash] (src/libs/zbxalgo/elems_hash.c, the tables of the state
      library), on which [ObjIndex] (src/libs/zbxalgo/obj_index.c, a relation
      between ids in two tables of vectors) is built.
    - [Hashmap] (src/libs/zbxalgo/hashmap.c): map from 64-bit keys to array
      positions.  Its class [KeyIndex] is what [BinaryHeap]
      (src/libs/zbxalgo/binaryheap.c) requires of a key index; [EventQueue]
      (src/libs/zbxalgo/event_queue.c) is a timed queue on the heap.
    - [Shmem] (src/libs/zbxshmem/memalloc.c): the allocator of the shared
      memory segments in which the caches live, over the words of a segment.
    - [RingBuffer] (src/libs/zbxalgo/ring_buffer.c): the circular buffer of
      the values of an item, with the search by time and resizing.
    - [ItemState] and [ValueCache] (src/libs/glb_state/glb_state_items.c): the
      cached values and the state of an item, and the functions of the item
      cache, which run the callbacks of [ItemState] on the elements of an
      [ElemsHash] whose values are in a [RingBuffer].
    - [Ipc2] (src/libs/zbxipcservice/glb_ipc2.c): message queues between
      processes in shared memory; [SerialBuffer]
      (src/libs/zbxipcservice/glb_serial_buffer.c): the relocatable blocks
      that are sent through them.
    - [LinkedList], [Queue], [Vector] (src/libs/zbxalgo/linked_list.c,
      queue.c, include/zbxalgo.h): lists over a shared store, the circular
      pointer queue, the growable arrays.
    - [Algodefs], [Int128] (src/libs/zbxalgo/algodefs.c, int128.c): primes,
      square root, hash functions; 128-bit arithmetic.
    - [JsonText], [JsonParser], [JsonBuild], [JsonRead] (src/libs/zbxjson/json.c,
      json_parser.c, jsonobj.c): strings of JSON texts, the parser with the
      grammar it accepts, the builder of texts in a growing buffer, and
      reading a text in place.
    - [Asn1] and [Csnmp] (src/zabbix_server/glb_poller/asn1.c, csnmp.c): the
      packets of the SNMP poller, encoded and decoded in memory.
    - [SnmpPoll] (src/zabbix_server/glb_poller/snmp.c, snmp_get.c,
      snmp_walk.c, snmp_util.c, and what they use of glb_poller.c and
      poller_async_io.c): the poller of SNMP items, a state machine driven by
      timers, answers and the resolver.  It uses the packets of [Csnmp], the
      builder of [JsonBuild] and, through the class [SessionTable] (file
      [SessionTable]), the sessions of [Sessions].  Its theory is in
      [SnmpRules] (rules for callbacks, requests, answers), [SnmpWalk] (walks)
      and [SnmpSafe] (the invariant and the properties).
    - [Base64], [Num], [IpRange] (src/libs/zbxcrypto/base64.c, zbxnum/num.c,
      zbxip/iprange.c): text encodings, number fields, IP ranges.
    - [Calendar] (src/libs/zbxtime/time.c): dates and the arithmetic on broken
      down time; [Macro] (src/libs/zbxexpr/macro.c): user macros; [Interval]
      and [Scheduler] (src/libs/zbxexpr/interval.c): the texts of update
      intervals, and from them the time of the next check of an item.  Their
      theory is in [SchedSearch] (the search for a scheduled time),
      [NextCheck] (next checks), [IntervalText] (the texts accepted) and
      [IntervalPrint] (the texts printed and read back).
    - [Scan] and [Token] (src/libs/zbxexpr/expr.c, function.c, host.c,
      token.c): scanners of item keys, numbers, functions and macro tokens;
      [Double] and [Variant] (src/libs/zbxnum/num.c, zbxvariant/variant.c):
      floating point numbers with their texts, and values of several types;
      [Utf8] (src/libs/zbxstr/str.c): texts in UTF-8.
    - Expressions (src/libs/zbxeval): [EvalParse] is the parser of parse.c,
      [EvalExec] the stack machine and [EvalFunc] the functions of execute.c,
      [EvalCalc] the statistics of calc.c, [EvalSerial] and [EvalMisc] the
      serialisation and the operations on tokens of misc.c.  [EvalTrigger]
      (src/libs/zbxcacheconfig/dbsync.c, dbconfig.c,
      src/libs/zbxserver/expression.c) joins them to the way of a trigger
      expression from its row in the database to the value of the trigger.
      The specification is the tree of tokens of [EvalTree] and the syntax of
      [EvalText]; [EvalLex] proves the tokens, [EvalShunt] the parser,
      [EvalMeaning] the whole way for expressions that are parsed and
      [EvalError] for those that are not.
    - Preprocessing (src/libs/zbxpreproc,
      src/zabbix_server/preprocessor/glb_preproc_worker.c): [PreprocItem] has
      what the steps do to a value (item_preproc.c), [Preproc] the loop over
      the steps of an item with error handlers, histories and the cache of
      dependent items (pp_execute.c, pp_history.c, pp_error.c, pp_cache.c,
      pp_execute_throttle.c, pp_execute_dispatch.c), and the worker that sends
      the results on.  The libraries of the steps are the record [engines].
      [PreprocCache] is the theory of the cache, [PreprocRun] that of the steps
      that keep a history.
    - Prometheus texts (src/libs/zbxprometheus/zbxprometheus.c): [Prometheus]
      has the rows, the filters, the requests, the cache with its indexes and
      the conversion to JSON with the builder of [JsonBuild]; [PromCache]
      proves the cache, [PromText] has the grammar of the texts, [PromJson]
      proves the conversion.

    ** How code is translated

    Every C function is a function of the same name on an explicit state, a
    record with the fields of the structure.  It returns in [res]: [Halt] says
    how the code fails (see below).  Integers are [Z], with the wrap-around
    written out ([u32], [u64], [i32]) where the code can reach it.  An array
    is a list whose accesses are checked; a pointer into memory that other
    parts can see is an address into a finite map ([LinkedList], [Ipc2]) or
    the address field of an entry ([Hashset], [StrPool]).  Code that is
    passed in (hash and comparison functions, callbacks) is a parameter, and
    so is what the environment decides: results of an allocator that may
    fail, the contents of fresh memory, the clock, random numbers.  Locks are
    flags where the code can take one twice ([EventQueue], [StrPool]) and
    otherwise make an operation one step.

    Structural recursion follows the data where the loop does.  Other loops
    take fuel, and their operations pass a bound that the theorems show to be
    enough: the number of slots or entries for the tables, the size of the
    buffer for the search by time, the number of elements for the heap, 64
    shifts for a division, the number of items of a block, the number of words
    of a segment for its free lists, three steps for a character of a JSON
    text (a value, its brackets and its elements), the bytes of a packet, the
    months from 1970 to 2037 for a scheduled day ([month_fuel]), the seconds of
    a year for a flexible delay, the characters of an expression and one more
    for its tokens, eight turns for the six bytes of a compact integer.  Loops
    that wait for the environment (memory in [Ipc2], a free id in [Sessions]) take the
    list of what the environment does; the theorems say that they return as
    soon as it lets them.

    The SNMP poller threads one state, the [world] of items, sessions and
    what has left the poller, through a state and error monad; its externals
    (Net-SNMP, the network) are a record, with what the code relies on in
    [externals_ok]; [enabled] says which events are covered, and examples show
    what the code does with the others.  Its proofs run the code with weakest preconditions
    ([wp]) over [focus], which says what a callback did to its item.

    ** What the theorems show

    - Containers: each operation returns (no invalid access, no endless loop)
      on a well-formed state, keeps it well formed, and has the effect of an
      operation on a list, a multiset or a finite map: [hashset_search_insert],
      [hashset_remove_copy], [hashset_traversal], [hashmap_refines_map],
      [binary_heap_min_correct] and the other heap theorems,
      [list_refines_sequence], [list_iterator_correct],
      [queue_ptr_refines_fifo], [vector_search_correct],
      [vector_setdiff_correct], [vector_update_correct].
    - Shared memory: allocation, reallocation and freeing act on the blocks
      of the users as they promise ([shmem_malloc_correct],
      [shmem_realloc_correct], [shmem_free_correct]), fail only when no chunk
      is big enough, and keep the segment well formed; [shmem_layout] says
      what a well-formed segment gives its users; [shmem_create_correct],
      [shmem_clear_correct], [shmem_stats_correct].
    - The item cache: [item_add_value_correct], [cache_fetch_count_correct],
      [cache_fetch_time_correct] for one item; [item_cache_read_back] and
      [item_cache_safe] for the composed cache; [item_cache_housekeep].
    - Value buffers: [tsbuff_add_to_head_correct],
      [tsbuff_find_time_idx_correct], [tsbuff_resize_correct], and
      [tsbuff_history_invariant] for all sequences of operations.
    - Clients of the containers: [strpool_counts_references],
      [strpool_interns], the [elems_hash] and [obj_index] theorems,
      [poller_sessions_correct], [contention_accounting],
      [event_queue_process_due], [event_queue_process_bounded].
    - Messages: over all interleavings of sends (of chunks without items too)
      and receives [ipc2_fifo] and [ipc2_receive_next]; [ipc2_send_correct] is the
      refinement of the abstract queues; [serial_buffer_roundtrip] for the
      blocks.
    - JSON: [json_validate_correct] says that the parser accepts the texts of
      a grammar, given as an inductive relation between values and texts, and
      no others; [jsonobj_open_correct] that it builds the tree of the value;
      [json_build_correct] that the builder always holds a text of what was
      built (doubles are given by the text printf makes of them);
      [json_read_correct] what is read from a text, with the class
      [Scanner] for the two loops that pass over values;
      [json_string_roundtrip] and [json_build_read_roundtrip] join them.  [user_macro_roundtrip] is the
      round trip of user macros.
    - SNMP: for messages within the limits of [message_ok]
      [snmp_send_correct] says that a packet is sent as the nested
      encoding of its message, [snmp_packet_roundtrip] how it is read back,
      [snmp_dec_pdu_ends] that decoding ends on any bytes and
      [asn1_elements_within_limit] that the decoders of the elements stay
      below their limit; [asn1_oid_order] orders the identifiers.
    - The SNMP poller: [snmp_poller_safe] is the invariant over all sequences
      of [enabled] events, [snmp_polls_end] that each poll ends when the answers
      are well formed ([good_answer]), [snmp_get_exchange] the request and the
      answer of a GET item, [snmp_walk_answer] which variables of an answer a
      walk records, why it leaves a subtree and what follows, and
      [snmp_walk_result] what it passes on.
    - Next checks: [scheduled_check_earliest] says that the search finds the
      first second that matches a scheduling interval, and
      [item_nextcheck_correct] that the calculation ends and the next check of
      an item is the first one due, up to a guard of 30 seconds, for a time zone
      whose offset does not change in the time looked at ([steady]; localtime
      and mktime are the parameter [zone]) and scheduling intervals that match
      in this time ([schedulable]).
      [interval_roundtrip] reads every written update interval back,
      [validation_agrees] compares validation and parser on all texts,
      [interval_preproc_wf] is the type of what is parsed.
    - Expressions: [written_expression_parsed] says that the parser gives the
      postfix code of the tree a written expression stands for,
      [stack_machine_value] that the stack machine computes the value of a
      tree, for all rules, callbacks and functions of libm,
      [expression_roundtrip] that the tokens survive the cache.
      [trigger_expression_means] composes them: the result of a trigger
      expression is its meaning, by recursion over its syntax.
      [unparsable_expression] is the same for texts that are rejected.
    - Preprocessing: [cache_transparent] says that the worker with the cache
      of dependent items does what one without it does, on all metrics, when no
      dependent item has a JSON path that looks into the index of the parsed
      object, whose state is part of the model;
      [throttled_values] which values of an item are dropped as repeated,
      [counter_changes] what is sent for a counter, [aggregated_values] what
      is sent for a period.
    - Prometheus: [prometheus_queries] says that a text is parsed into the
      rows it was written from, and that requests are answered by the rows that
      match, with the cache too when no row names a label twice;
      [prometheus_json] that a text with HELP and TYPE comments is converted to
      the JSON text of its rows that match, with the type and the help of each
      metric.
    - Arithmetic and text: [uint128_div], [uint128_add_mul],
      [next_prime_smallest], [isqrt32_correct], [base64_roundtrip],
      [n_range_correct], [iprange_enumerates], [iprange_mask_correct],
      [iprange_volume_correct].
    - Where the code does not do what it means to, the theorem states what it
      does: [tsbuff_single_slot_overflow], [tsbuff_upsize_offset_loss],
      [hashset_oom_leaves_null_slots], [elems_hash_process_correct],
      [elems_hash_update_correct], [elems_hash_mass_delete_correct],
      [contention_housekeep], [iprange_parse_overflow],
      [shmem_min_size_too_small], and the examples [error_not_updated],
      [retyped_state_unknown], [fetch_count_limited_by_buffer],
      [fetch_time_leaves_gap], [fetch_time_past_period],
      [blank_array_counts_one], [long_name_hides_members],
      [brackets_open_white], [point_without_digits], [nul_truncates],
      [open_ignores_rest], [wire_int_same], [high_type],
      [negative_int_shifts_by_width], [grows_by_one_step],
      [string_length_wraps], [sequence_not_limited], [command_str_overread],
      [some_answers_unmatched], [long_identifier_overflows],
      [short_address_overread], [missing_texts_exchanged],
      [identifiers_unsupported], [end_of_mib_reported],
      [monthly_item_never_polled], [unprintable_text], [late_resolver],
      [large_double_cut], [infinite_double_invalid], [never_checked],
      [empty_chunk_received], [queue_size_stale], [shared_receiver_mixes], [clean_keeps_header],
      [grow_len_overflow], [get_delay_wraps], [nosort_ref_not_deleted],
      [wday_step_ignored], [search_after_2038], [nearest_not_least],
      [wrong_interval_quoted], [long_flexible_delay], [regex_context_changes],
      [compare_not_transitive], [infinite_buckets], [stray_close_accepted],
      [stray_comma_accepted], [compound_minus], [constant_of_function],
      [usermacro_missed], [dependent_without_steps], [change_after_drop],
      [sum_of_integers], [dispatch_params], [negative_multiplier],
      [malformed_row], [label_line_break], [label_twice], [trailing_blanks];
      the second half of [unparsable_expression].

    ** What is not modelled

    Log output, calls that only free memory, the reader-writer locks of
    elems_hash.c, the linear algebra of prediction.c, database and network
    I/O, third-party libraries, the process loops of the server, agent and
    proxy, the other pollers (agent, ping, scripts), and the web interface; of
    the item cache, loading, dumping and answering as JSON; of the JSON
    library the conversion of numbers and JSON path; of expressions, the values of
    macros, which come from the configuration cache, and the evaluation of
    history functions, whose results are the parameter [ifuncs] of
    [EvalTrigger]; of preprocessing, the libraries of the steps (regular
    expressions, XML, scripts, JSON path, CSV, SNMP texts) and the
    queue of pp_queue.c, which no process uses.  The trend function cache (src/libs/zbxtrends/cache.c) is
    not enabled by the server.  Next in order would be the CSV step
    (item_preproc.c), JSON path, the IP address helpers
    (src/libs/zbxip/ip.c) and the history functions
    (src/libs/zbxserver/evalfunc.c). *)
From stdpp Require Import prelude list gmap.
From Stdlib Require Import ZArith Lia.
#[local] Open Scope Z_scope.

(** ** Return codes of the C code (include/zbxcommon.h) *)

Definition SUCCEED : Z := 0.
Definition FAIL : Z := -1.

(** ** Outcome of a C computation

    [Ret a]: the code returned.  [Halt h]: it did not: [ExitFailure] is a
    call of [exit()]/[HALT_HERE], [AssertFail] an [assert(0)], [BadAccess] a
    NULL, dangling or out-of-bounds access, [DivByZero] an integer division
    by zero, [Undefined] a shift by the width of the integer or more,
    [Deadlock] a lock taken twice by its owner, and [OutOfFuel] a loop of the
    model that was not given enough iterations (the termination theorems
    show that it does not happen with the fuel the operations pass). *)

Inductive halt := ExitFailure | AssertFail | BadAccess | DivByZero | Undefined | Deadlock | OutOfFuel.

Inductive res (A : Type) :=
  | Ret (a : A)
  | Halt (h : halt).
Arguments Ret {A} a.
Arguments Halt {A} h.

#[export] Instance halt_eq_dec : EqDecision halt.
Proof. solve_decision. Defined.

#[export] Instance res_mret : MRet res := fun A a => Ret a.
#[export] Instance res_mbind : MBind res := fun A B f m =>
  match m with Ret a => f a | Halt h => Halt h end.

Definition of_opt {A} (h : halt) (o : option A) : res A :=
  match o with Some a => Ret a | None => Halt h end.

Definition returns {A} (m : res A) : Prop := exists a, m = Ret a.

Lemma bind_Ret {A B} (m : res A) (f : A -> res B) b :
  m ≫= f = Ret b <-> exists a, m = Ret a /\ f a = Ret b.
Proof.
  destruct m; simpl; split.
  - eauto.
  - intros (a' & [= ->] & ?); auto.
  - discriminate.
  - intros (a' & ? & ?); discriminate.
Qed.

Lemma of_opt_Ret {A} h (o : option A) a : of_opt h o = Ret a <-> o = Some a.
Proof. destruct o; simpl; split; intros; simplify_eq; auto. Qed.

(** ** Machine integers *)

Definition u8 (x : Z) : Z := x mod 2 ^ 8.
Definition u32 (x : Z) : Z := x mod 2 ^ 32.
Definition u64 (x : Z) : Z := x mod 2 ^ 64.

(** Conversion to [int]. *)
Definition i32 (x : Z) : Z := (x + 2 ^ 31) mod 2 ^ 32 - 2 ^ 31.

Lemma i32_small x : - 2 ^ 31 <= x < 2 ^ 31 -> i32 x = x.
Proof. intros; unfold i32; rewrite Z.mod_small; lia. Qed.

Lemma i32_i32_add x y : i32 (i32 x + y) = i32 (x + y).
Proof.
  unfold i32. f_equal.
  replace ((x + 2 ^ 31) mod 2 ^ 32 - 2 ^ 31 + y + 2 ^ 31) with ((x + 2 ^ 31) mod 2 ^ 32 + y) by ring.
  rewrite Zplus_mod_idemp_l. f_equal. ring.
Qed.

Lemma i32_i32 x : i32 (i32 x) = i32 x.
Proof. pose proof (i32_i32_add x 0) as H. by rewrite !Z.add_0_r in H. Qed.

Lemma u64_small x : 0 <= x < 2 ^ 64 -> u64 x = x.
Proof. intros; apply Z.mod_small; lia. Qed.

Lemma u32_small x : 0 <= x < 2 ^ 32 -> u32 x = x.
Proof. intros; apply Z.mod_small; lia. Qed.

Lemma u64_range x : 0 <= u64 x < 2 ^ 64.
Proof. apply Z.mod_pos_bound; lia. Qed.

Lemma u64_u64 x : u64 (u64 x) = u64 x.
Proof. apply Z.mod_mod. lia. Qed.

Lemma u64_add_l x y : u64 (u64 x + y) = u64 (x + y).
Proof. apply Zplus_mod_idemp_l. Qed.

Lemma u64_add_r x y : u64 (x + u64 y) = u64 (x + y).
Proof. apply Zplus_mod_idemp_r. Qed.

Lemma u32_range x : 0 <= u32 x < 2 ^ 32.
Proof. apply Z.mod_pos_bound; lia. Qed.

(** Words without common bits. *)
Lemma lor_add k a b : 0 <= k -> 0 <= a < 2 ^ k -> (2 ^ k | b) -> Z.lor a b = a + b.
Proof.
  intros Hk Ha [c ->]. assert (Hl : Z.land a (c * 2 ^ k) = 0).
  { apply Z.bits_inj'. intros n Hn. rewrite Z.land_spec, Z.bits_0. destruct (Z.ltb_spec n k).
    - rewrite Z.mul_pow2_bits_low by lia. apply andb_false_r.
    - destruct (decide (a = 0)) as [->|]; [by rewrite Z.bits_0|]. rewrite (Z.bits_above_log2 a n); [done|lia|].
      apply Z.log2_lt_pow2; [lia|]. apply (Z.lt_le_trans _ (2 ^ k)); [lia|apply Z.pow_le_mono_r; lia]. }
  rewrite <- Z.lxor_lor by done. symmetry. by apply Z.add_nocarry_lxor.
Qed.

(** [ZBX_RETURN_IF_NOT_EQUAL(a, b); return 0;] *)
Definition cmp (a b : Z) : Z :=
  if a <? b then -1 else if a >? b then 1 else 0.

Lemma cmp_0 a b : cmp a b = 0 <-> a = b.
Proof. unfold cmp; repeat case_match; lia. Qed.

Lemma cmp_le a b : cmp a b <= 0 <-> a <= b.
Proof. unfold cmp; repeat case_match; lia. Qed.

(** ** Arrays: lists indexed by C [int] values *)

Definition zget {A} (l : list A) (i : Z) : option A :=
  if i <? 0 then None else l !! Z.to_nat i.

Definition zset {A} (l : list A) (i : Z) (x : A) : list A :=
  if i <? 0 then l else <[Z.to_nat i := x]> l.

Definition zlen {A} (l : list A) : Z := Z.of_nat (length l).

Lemma zlen_app {A} (l1 l2 : list A) : zlen (l1 ++ l2) = zlen l1 + zlen l2.
Proof. unfold zlen. rewrite length_app. lia. Qed.

Lemma zlen_nonneg {A} (l : list A) : 0 <= zlen l.
Proof. unfold zlen. lia. Qed.

Lemma zlen_pos {A} (l : list A) : l <> [] -> 0 < zlen l.
Proof. destruct l; [done|]. unfold zlen. simpl. lia. Qed.

Lemma zlen_cons {A} (x : A) l : zlen (x :: l) = 1 + zlen l.
Proof. unfold zlen. simpl. lia. Qed.

Lemma to_nat_zlen {A} (l : list A) : Z.to_nat (zlen l) = length l.
Proof. unfold zlen. lia. Qed.

Lemma zlen_nil {A} : zlen (@nil A) = 0.
Proof. done. Qed.

Lemma zlen_replicate {A} n (x : A) : zlen (replicate n x) = Z.of_nat n.
Proof. unfold zlen. by rewrite length_replicate. Qed.

Lemma zget_Some {A} (l : list A) i x :
  zget l i = Some x <-> 0 <= i /\ l !! Z.to_nat i = Some x.
Proof. unfold zget; case_match; split; intros; simplify_eq; [lia|split; [lia|done]|naive_solver]. Qed.

Lemma zget_middle {A} (p : list A) x r : zget (p ++ x :: r) (zlen p) = Some x.
Proof. apply zget_Some. rewrite to_nat_zlen. split; [apply zlen_nonneg | by apply list_lookup_middle]. Qed.

Lemma zget_range {A} (l : list A) i x : zget l i = Some x -> 0 <= i < zlen l.
Proof. intros [? H%lookup_lt_Some]%zget_Some; unfold zlen; lia. Qed.

Lemma zget_is_Some {A} (l : list A) i : 0 <= i < zlen l -> is_Some (zget l i).
Proof.
  intros; unfold zget, zlen in *; case_match; [lia|].
  apply lookup_lt_is_Some; lia.
Qed.

Lemma zlen_zset {A} (l : list A) i x : zlen (zset l i x) = zlen l.
Proof. unfold zlen, zset; case_match; rewrite ?length_insert; done. Qed.

Lemma zget_zset_eq {A} (l : list A) i x :
  0 <= i < zlen l -> zget (zset l i x) i = Some x.
Proof.
  unfold zlen; intros; unfold zget, zset.
  destruct (Z.ltb_spec i 0); [lia|]. apply list_lookup_insert_eq; lia.
Qed.

Lemma zget_zset_ne {A} (l : list A) i j x :
  i <> j -> zget (zset l i x) j = zget l j.
Proof.
  intros; unfold zget, zset.
  destruct (Z.ltb_spec i 0), (Z.ltb_spec j 0); try done.
  apply list_lookup_insert_ne; lia.
Qed.

Lemma zget_zset {A} (l : list A) i j x :
  0 <= i < zlen l ->
  zget (zset l i x) j = if bool_decide (i = j) then Some x else zget l j.
Proof. intros; case_bool_decide; subst; auto using zget_zset_eq, zget_zset_ne. Qed.

(** [a[i] = a[n - 1]; n--;] on an array of [n] elements. *)
Definition swap_remove {A} (l : list A) (i : nat) : list A :=
  match last l with Some e => take (length l - 1) (<[i := e]> l) | None => l end.

Lemma swap_remove_perm {A} (l : list A) i e : l !! i = Some e -> l ≡ₚ e :: swap_remove l i.
Proof.
  unfold swap_remove. intros Hi.
  destruct (last l) as [z|] eqn:Hl; [|apply last_None in Hl; by subst].
  apply last_Some in Hl as [l' ->]. rewrite length_app. simpl.
  replace (length l' + 1 - 1)%nat with (length l') by lia.
  pose proof (lookup_lt_Some _ _ _ Hi) as Hlt. rewrite length_app in Hlt. simpl in Hlt.
  destruct (decide (i < length l')%nat).
  - rewrite lookup_app_l in Hi by done. rewrite insert_app_l by done.
    rewrite take_app_length' by (by rewrite length_insert).
    rewrite insert_take_drop by done. rewrite <- (take_drop_middle l' i e Hi) at 1.
    rewrite <- app_assoc. simpl. rewrite <- Permutation_middle. constructor.
    apply Permutation_app_head. by rewrite Permutation_app_comm.
  - assert (i = length l') as -> by lia.
    rewrite lookup_app_r, Nat.sub_diag in Hi by done. simplify_eq/=.
    rewrite insert_app_r_alt, Nat.sub_diag by done. simpl.
    rewrite take_app_length. by rewrite Permutation_app_comm.
Qed.

Lemma swap_remove_length {A} (l : list A) i : length (swap_remove l i) = (length l - 1)%nat.
Proof.
  unfold swap_remove. destruct (last l) eqn:E; [|apply last_None in E; by subst].
  rewrite length_take, length_insert. lia.
Qed.

Lemma swap_remove_lookup {A} (l : list A) i j :
  (i < length l)%nat -> (j < length l - 1)%nat ->
  swap_remove l i !! j = if decide (i = j) then last l else l !! j.
Proof.
  intros Hi Hj. unfold swap_remove. destruct (last l) eqn:E; [|apply last_None in E; subst; simpl in *; lia].
  rewrite lookup_take_lt by lia. rewrite list_lookup_insert. repeat case_decide; naive_solver lia.
Qed.

(** ** Filters *)

Lemma filter_all {A} (P : A -> Prop) `{forall x, Decision (P x)} (l : list A) :
  (forall x, x ∈ l -> P x) -> filter P l = l.
Proof.
  intros Hl. induction l as [|x l IH]; [done|]. rewrite filter_cons_True by (apply Hl; by left).
  f_equal. apply IH. intros. apply Hl. by right.
Qed.

Lemma filter_none {A} (P : A -> Prop) `{forall x, Decision (P x)} (l : list A) :
  (forall x, x ∈ l -> ~ P x) -> filter P l = [].
Proof.
  intros Hl. induction l as [|x l IH]; [done|]. rewrite filter_cons_False by (apply Hl; by left).
  apply IH. intros. apply Hl. by right.
Qed.

Lemma filter_ext_in {A} (P Q : A -> Prop) `{forall x, Decision (P x), forall x, Decision (Q x)} (l : list A) :
  (forall x, x ∈ l -> P x <-> Q x) -> filter P l = filter Q l.
Proof.
  intros Hl. induction l as [|x l IH]; [done|]. pose proof (Hl x ltac:(by left)) as Hx.
  rewrite !filter_cons. rewrite IH by (intros; apply Hl; by right). repeat case_decide; tauto.
Qed.

(** ** Lists of chains *)

Lemma concat_split {A} (ls : list (list A)) i c :
  ls !! i = Some c -> exists r, concat ls ≡ₚ c ++ r /\ forall c', concat (<[i := c']> ls) ≡ₚ c' ++ r.
Proof.
  intros Hi. exists (concat (take i ls) ++ concat (drop (S i) ls)).
  pose proof (lookup_lt_Some _ _ _ Hi). split; [|intros c'].
  - rewrite <- (take_drop_middle _ _ _ Hi) at 1. rewrite concat_app. simpl.
    rewrite !(Permutation_app_comm c), (assoc_L (++)). by rewrite <- (assoc_L (++)), Permutation_app_comm, <- !(assoc_L (++)).
  - rewrite insert_take_drop by done. rewrite concat_app. simpl.
    rewrite (Permutation_app_comm c'), (assoc_L (++)). by rewrite Permutation_app_comm.
Qed.

Lemma fmap_concat {A B} (f : A -> B) (ls : list (list A)) : concat ((fun c : list A => f <$> c) <$> ls) = f <$> concat ls.
Proof. induction ls as [|c ls IH]; [done|]. rewrite fmap_cons. cbn [concat]. by rewrite IH, fmap_app. Qed.

Lemma elem_of_concat {A} (ls : list (list A)) x : x ∈ concat ls <-> exists i c, ls !! i = Some c /\ x ∈ c.
Proof.
  rewrite list_elem_of_In, in_concat. split.
  - intros (c & Hc & Hx). apply list_elem_of_In, list_elem_of_lookup in Hc as [i Hi]. exists i, c.
    by rewrite list_elem_of_In.
  - intros (i & c & Hi & Hx). exists c. rewrite <- !list_elem_of_In. split; [by eapply list_elem_of_lookup_2|done].
Qed.

Create HintDb arrays.
Create Rewrite HintDb zsimp.
#[export] Hint Rewrite @zlen_zset @zlen_app @zlen_cons @zlen_nil @zlen_replicate @to_nat_zlen : zsimp.
#[export] Hint Resolve zget_zset_eq zget_zset_ne zget_is_Some : arrays.

(** ** Tactics *)

(** Inverts a run of the [res] monad that returned. *)
Ltac inv_ret :=
  repeat match goal with
  | H : mbind _ _ = Ret _ |- _ => apply bind_Ret in H as (? & ? & H)
  | H : of_opt _ _ = Ret _ |- _ => apply of_opt_Ret in H
  | H : mret _ = Ret _ |- _ => injection H as ?
  | H : Ret _ = Ret _ |- _ => injection H as ?
  | H : Halt _ = Ret _ |- _ => discriminate H
  end.

(** Boolean comparisons in the context become arithmetic facts. *)
Ltac unbool :=
  repeat match goal with
  | H : (_ <? _) = true |- _ => apply Z.ltb_lt in H
  | H : (_ <? _) = false |- _ => apply Z.ltb_ge in H
  | H : (_ <=? _) = true |- _ => apply Z.leb_le in H
  | H : (_ <=? _) = false |- _ => apply Z.leb_gt in H
  | H : (_ >? _) = true |- _ => apply Z.gtb_lt in H
  | H : (_ >? _) = false |- _ => rewrite Z.gtb_ltb in H; apply Z.ltb_ge in H
  | H : (_ =? _) = true |- _ => apply Z.eqb_eq in H
  | H : (_ =? _) = false |- _ => apply Z.eqb_neq in H
  | H : andb _ _ = true |- _ => apply andb_true_iff in H as [? ?]
  | H : orb _ _ = false |- _ => apply orb_false_iff in H as [? ?]
  | H : negb _ = true |- _ => apply negb_true_iff in H
  | H : negb _ = false |- _ => apply negb_false_iff in H
  end.

(** Lengths of lists built with [++] and [::], as linear arithmetic. *)
Ltac zlen_pose l :=
  is_var l; lazymatch goal with H : 0 <= zlen l |- _ => fail | _ => pose proof (zlen_nonneg l) end.

Ltac lens :=
  autorewrite with zsimp in *;
  repeat match goal with
  | |- context [zlen ?l] => zlen_pose l
  | _ : context [zlen ?l] |- _ => zlen_pose l
  end;
  try lia.

(** [lia] with division and remainder. *)
Ltac dlia := intros; Z.div_mod_to_equations; lia.

(** ** Loops

    A loop whose body [f] goes on with a new state or ends with a result, run
    for at most [2 ^ n] turns. *)

Fixpoint iter_until {A R} (n : nat) (f : A -> A + R) (s : A) : A + R :=
  match n with
  | O => f s
  | S n => match iter_until n f s with inl s' => iter_until n f s' | inr r => inr r end
  end.

Definition loop_until {A R} (n : nat) (f : A -> A + R) (s : A) : res R :=
  match iter_until n f s with inl _ => Halt OutOfFuel | inr r => Ret r end.

(** A loop with an invariant and a variant ends, and its last turn starts in
    a state with the invariant. *)
Lemma iter_until_ok {A R} (f : A -> A + R) (I : A -> Prop) (mu : A -> Z) n s :
  (forall s s', I s -> f s = inl s' -> I s' /\ 0 <= mu s' < mu s) -> I s -> 0 <= mu s ->
  match iter_until n f s with
  | inl s' => I s' /\ 0 <= mu s' <= mu s - 2 ^ Z.of_nat n
  | inr r => exists s', I s' /\ f s' = inr r
  end.
Proof.
  intros Hf. revert s. induction n as [|n IH]; intros s Hs Hm; cbn [iter_until].
  - destruct (f s) as [s'|r] eqn:E; [|eauto]. destruct (Hf s s' Hs E). change (2 ^ Z.of_nat 0) with 1. split; [done|lia].
  - specialize (IH s Hs Hm) as H1. destruct (iter_until n f s) as [s1|r]; [|done]. destruct H1 as [Hs1 Hm1].
    specialize (IH s1 Hs1 ltac:(lia)) as H2. destruct (iter_until n f s1) as [s2|r]; [|done].
    rewrite Nat2Z.inj_succ, Z.pow_succ_r by lia. destruct H2. split; [done|lia].
Qed.

Lemma loop_until_ok {A R} (f : A -> A + R) (I : A -> Prop) (mu : A -> Z) n s :
  (forall s s', I s -> f s = inl s' -> I s' /\ 0 <= mu s' < mu s) -> I s -> 0 <= mu s < 2 ^ Z.of_nat n ->
  exists r s', loop_until n f s = Ret r /\ I s' /\ f s' = inr r.
Proof.
  intros Hf Hs Hm. pose proof (iter_until_ok f I mu n s Hf Hs ltac:(lia)) as H. unfold loop_until.
  destruct (iter_until n f s) as [s'|r]; [lia|]. destruct H as (s' & ? & ?). eauto.
Qed.

(** ** Blocks of bytes

    [memcpy] from and to a block; a range that is not inside the block is a
    bad access. *)

Definition load_bytes (b : list Z) (off n : Z) : res (list Z) :=
  if (0 <=? off) && (0 <=? n) && (off + n <=? zlen b) then Ret (take (Z.to_nat n) (drop (Z.to_nat off) b)) else Halt BadAccess.

Definition store_bytes (b : list Z) (off : Z) (l : list Z) : res (list Z) :=
  if (0 <=? off) && (off + zlen l <=? zlen b) then
    Ret (take (Z.to_nat off) b ++ l ++ drop (Z.to_nat (off + zlen l)) b)
  else Halt BadAccess.

Lemma load_ok (a l r : list Z) off n : off = zlen a -> n = zlen l -> load_bytes (a ++ l ++ r) off n = Ret l.
Proof.
  intros -> ->. unfold load_bytes. pose proof (zlen_nonneg a). pose proof (zlen_nonneg l). pose proof (zlen_nonneg r).
  rewrite !zlen_app. replace ((0 <=? zlen a) && (0 <=? zlen l) && (zlen a + zlen l <=? zlen a + (zlen l + zlen r))) with true
    by (symmetry; rewrite !andb_true_iff, !Z.leb_le; lia).
  by rewrite !to_nat_zlen, drop_app_length, take_app_length.
Qed.

Lemma store_bytes_ok (a l r text : list Z) off : off = zlen a -> zlen l = zlen text -> store_bytes (a ++ l ++ r) off text = Ret (a ++ text ++ r).
Proof.
  intros -> Hl. unfold store_bytes. pose proof (zlen_nonneg a). pose proof (zlen_nonneg l). pose proof (zlen_nonneg r).
  rewrite !zlen_app. replace ((0 <=? zlen a) && (zlen a + zlen text <=? zlen a + (zlen l + zlen r))) with true
    by (symmetry; rewrite !andb_true_iff, !Z.leb_le; lia).
  rewrite to_nat_zlen, take_app_length. do 3 f_equal. rewrite <- Hl, <- zlen_app, to_nat_zlen, app_assoc. by rewrite drop_app_length.
Qed.
