(* ===== verification/RingBuffer.v ===== *)
(** * Time-series ring buffer (src/libs/zbxalgo/ring_buffer.c)

    The circular buffer in which the value cache keeps the values of an item,
    oldest value at [tail], newest at [head].  An array element is its
    leading [time] field and the rest of its [item_size] bytes, which only
    the callers interpret ([payload], [zero] for cleared memory).  The
    functions that return an element pointer return its array index.

    The first part translates the C functions.  [contents] then reads the
    buffer as the list of its elements from the oldest to the newest, and the
    theorems state every operation on that list. *)
From stdpp Require Import prelude list.
From Stdlib Require Import ZArith Lia.
From S2P Require Import Prelude.
#[local] Open Scope Z_scope.

Definition GLB_TSBUFF_MAX_SZIE : Z := 1000000.
Definition ZBX_JAN_2038 : Z := 2145916800.

Record ts_item (V : Type) := TsItem { time : Z; payload : V }.
Arguments TsItem {V} _ _.
Arguments time {V} _.
Arguments payload {V} _.

Record tsbuff (V : Type) := TsBuff {
  ts_size : Z; ts_count : Z; ts_item_size : Z;
  ts_data : list (ts_item V); ts_head : Z; ts_tail : Z }.
Arguments TsBuff {V} _ _ _ _ _ _.
Arguments ts_size {V} _.
Arguments ts_count {V} _.
Arguments ts_item_size {V} _.
Arguments ts_data {V} _.
Arguments ts_head {V} _.
Arguments ts_tail {V} _.

Section model.
Context {V : Type} (zero : V).
#[local] Abbreviation item := (ts_item V).
#[local] Abbreviation buff := (tsbuff V).

(** Field assignments. *)
Definition set_count (b : buff) x := TsBuff (ts_size b) x (ts_item_size b) (ts_data b) (ts_head b) (ts_tail b).
Definition set_data (b : buff) (x : list item) : buff := TsBuff (ts_size b) (ts_count b) (ts_item_size b) x (ts_head b) (ts_tail b).
Definition set_head (b : buff) x := TsBuff (ts_size b) (ts_count b) (ts_item_size b) (ts_data b) x (ts_tail b).
Definition set_tail (b : buff) x := TsBuff (ts_size b) (ts_count b) (ts_item_size b) (ts_data b) (ts_head b) x.

Definition BUFF_IDX (b : buff) (new_idx : Z) : Z := Z.rem (new_idx + ts_size b) (ts_size b).

Definition glb_tsbuff_index (b : buff) (index : Z) : Z := BUFF_IDX b index.

Definition glb_tsbuff_get_size (b : buff) : Z := ts_size b.
Definition glb_tsbuff_get_count (b : buff) : Z := ts_count b.

Definition glb_tsbuff_is_full (b : buff) : Z :=
  if ts_count b =? ts_size b then SUCCEED else FAIL.

(** Zeroed memory for [n] elements. *)
Definition zeroed (n : Z) : list item := replicate (Z.to_nat n) (TsItem 0 zero).

(** [malloc_null]: the allocator passed is NULL; [mem]: it gives memory. *)
Definition glb_tsbuff_init (b : buff) (size item_size : Z) (malloc_null mem : bool) : res (Z * buff) :=
  if (size =? 0) || (item_size =? 0) || malloc_null then Ret (FAIL, b)
  else if mem then Ret (SUCCEED, TsBuff (i32 size) 0 item_size (zeroed size) (-1) (-1))
  else Halt ExitFailure.

Definition glb_tsbuff_destroy (b : buff) : res unit :=
  if 0 <? ts_count b then Halt AssertFail else Ret tt.

Definition glb_tsbuff_get_value_ptr (b : buff) (idx : Z) : res Z :=
  if (idx <? 0) || (glb_tsbuff_get_size b <=? idx) then Halt AssertFail else Ret idx.

(** Reading the element behind a returned pointer. *)
Definition deref (b : buff) (p : Z) : res item := of_opt BadAccess (zget (ts_data b) p).

Definition glb_tsbuff_get_value_head (b : buff) : res Z := glb_tsbuff_get_value_ptr b (ts_head b).

Definition glb_tsbuff_get_value_tail (b : buff) : res (option Z) :=
  if glb_tsbuff_get_count b =? 0 then Ret None
  else p ← glb_tsbuff_get_value_ptr b (ts_tail b); Ret (Some p).

Definition glb_tsbuf_get_oldest_time (b : buff) : res Z :=
  if -1 <? ts_tail b then
    p ← glb_tsbuff_get_value_ptr b (ts_tail b);
    v ← deref b p;
    Ret (time v)
  else Ret 0.

Definition glb_tsbuff_get_time_tail (b : buff) : res Z :=
  if glb_tsbuff_get_count b =? 0 then Ret (-1)
  else p ← glb_tsbuff_get_value_ptr b (ts_tail b);
       v ← deref b p;
       Ret (time v).

Definition glb_tsbuff_get_time_head (b : buff) : res Z :=
  if glb_tsbuff_get_count b =? 0 then Ret (-1)
  else p ← glb_tsbuff_get_value_ptr b (ts_head b);
       v ← deref b p;
       Ret (time v).

Definition glb_tsbuff_free_tail (b : buff) : Z * buff :=
  if ts_count b =? 0 then (FAIL, b)
  else
    let b := set_count b (ts_count b - 1) in
    if ts_count b =? 0 then (SUCCEED, set_head (set_tail b (-1)) (-1))
    else (SUCCEED, set_tail b (BUFF_IDX b (ts_tail b + 1))).

(** [val->time = time] through the pointer [p]. *)
Definition write_time (b : buff) (p t : Z) : res buff :=
  v ← deref b p;
  Ret (set_data b (zset (ts_data b) p (TsItem t (payload v)))).

Definition glb_tsbuff_add_to_head (b : buff) (t : Z) : res (option Z * buff) :=
  new_head ←
    (if 0 <? glb_tsbuff_get_count b then
       old_time ← glb_tsbuff_get_time_head b;
       if negb (old_time =? ZBX_JAN_2038) && (t <? old_time) then Ret None
       else Ret (Some (BUFF_IDX b (ts_head b + 1)))
     else Ret (Some 0));
  match new_head with
  | None => Ret (None, b)
  | Some new_head =>
      if (new_head =? ts_tail b) && (1 <? glb_tsbuff_get_size b) then Ret (None, b)
      else
        let b := set_head b new_head in
        val ← glb_tsbuff_get_value_ptr b (ts_head b);
        b ← write_time b val t;
        let b := set_count b (ts_count b + 1) in
        let b := if ts_count b =? 1 then set_tail b (ts_head b) else b in
        Ret (Some val, b)
  end.

Definition glb_tsbuff_add_to_tail (b : buff) (t : Z) : res (option Z * buff) :=
  reject ←
    (if 0 <? glb_tsbuff_get_count b then
       old_time ← glb_tsbuff_get_time_tail b;
       Ret ((0 <? old_time) && (old_time <? t))
     else Ret false);
  if reject : bool then Ret (None, b)
  else
    let finish (b : buff) :=
      val ← glb_tsbuff_get_value_ptr b (ts_tail b);
      b ← write_time b val t;
      Ret (Some val, set_count b (ts_count b + 1)) in
    if 0 <? ts_count b then
      let new_tail := BUFF_IDX b (ts_tail b - 1) in
      if new_tail =? ts_head b then Ret (None, b)
      else finish (set_tail b new_tail)
    else finish (set_tail (set_head b 0) 0).

(** The loop of [glb_tsbuff_find_time_idx]. *)
Fixpoint find_loop (fuel : nat) (b : buff) (tm_sec tail_idx head_idx : Z) : res Z :=
  match fuel with
  | O => Halt OutOfFuel
  | S fuel =>
      let guess_idx :=
        if head_idx <? tail_idx then Z.quot (tail_idx + head_idx + ts_size b) 2
        else BUFF_IDX b (Z.quot (tail_idx + head_idx) 2 + ts_size b) in
      pg ← glb_tsbuff_get_value_ptr b (BUFF_IDX b guess_idx);
      guess_val ← deref b pg;
      ph ← glb_tsbuff_get_value_ptr b head_idx;
      head_val ← deref b ph;
      if tm_sec =? time guess_val then Ret (BUFF_IDX b guess_idx)
      else if tm_sec =? time head_val then Ret head_idx
      else if BUFF_IDX b guess_idx =? tail_idx then Ret tail_idx
      else if time guess_val <? tm_sec then
        if BUFF_IDX b (guess_idx + 1) =? head_idx then Ret (BUFF_IDX b guess_idx)
        else find_loop fuel b tm_sec (BUFF_IDX b guess_idx) head_idx
      else
        if BUFF_IDX b (guess_idx - 1) =? tail_idx then Ret tail_idx
        else find_loop fuel b tm_sec tail_idx (BUFF_IDX b guess_idx)
  end.

Definition glb_tsbuff_find_time_idx (b : buff) (tm_sec : Z) : res Z :=
  if glb_tsbuff_get_count b =? 0 then Ret FAIL
  else
    head_time ← glb_tsbuff_get_time_head b;
    tail_time ← glb_tsbuff_get_time_tail b;
    if (tm_sec <? tail_time) || (head_time <? tm_sec) then Ret FAIL
    else find_loop (S (Z.to_nat (ts_count b))) b tm_sec (ts_tail b) (ts_head b).

(** [memcpy] of [n] elements of [src] from index [from] to index [to] of [dst]. *)
Definition copy_items (dst src : list item) (to from n : Z) : list item :=
  take (Z.to_nat to) dst ++ take (Z.to_nat n) (drop (Z.to_nat from) src) ++
  drop (Z.to_nat (to + n)) dst.

Definition tsbuff_upsize (b : buff) (new_size : Z) (mem : bool) : res (Z * buff) :=
  if negb mem then Ret (FAIL, b)
  else
    let new_data := zeroed new_size in
    r ← (if -1 <? ts_head b then
           if ts_tail b <=? ts_head b then
             Ret (set_data b (copy_items new_data (ts_data b) 0 0 (ts_count b)))
           else
             first_segment ← glb_tsbuff_get_value_tail b;
             from ← of_opt BadAccess first_segment;
             let first_size := ts_size b - ts_tail b in
             let last_size := ts_head b + 1 in
             let d := copy_items new_data (ts_data b) 0 from first_size in
             let d := copy_items d (ts_data b) first_size 0 last_size in
             Ret (set_head (set_tail (set_data b d) 0) (ts_count b - 1))
         else Ret (set_data b new_data));
    Ret (new_size, TsBuff new_size (ts_count r) (ts_item_size r) (ts_data r) (ts_head r) (ts_tail r)).

(** The loop that releases the dropped values: the indexes passed to
    [val_free_func], in order. *)
Fixpoint free_loop (fuel : nat) (b : buff) (i stop : Z) : res (list Z) :=
  match fuel with
  | O => Halt OutOfFuel
  | S fuel =>
      if BUFF_IDX b i =? stop then Ret []
      else
        p ← glb_tsbuff_get_value_ptr b i;
        ps ← free_loop fuel b (i + 1) stop;
        Ret (p :: ps)
  end.

(** The loop that copies the kept values: the elements copied, in order. *)
Fixpoint copy_loop (fuel : nat) (b : buff) (i stop : Z) : res (list item) :=
  match fuel with
  | O => Halt OutOfFuel
  | S fuel =>
      if i =? stop then Ret []
      else
        p ← glb_tsbuff_get_value_ptr b i;
        v ← deref b p;
        vs ← copy_loop fuel b (BUFF_IDX b (i + 1)) stop;
        Ret (v :: vs)
  end.

(** Returns the C result, the buffer and the released indexes.  The new array
    is not cleared; [uninit] stands for its bytes past the copied ones. *)
Definition tsbuff_downsize (b : buff) (new_size : Z) (mem val_free : bool) (uninit : list item)
  : res (Z * buff * list Z) :=
  if negb mem then Ret (FAIL, b, [])
  else
    let first := BUFF_IDX b (ts_head b - new_size + 1) in
    freed ← (if val_free then free_loop (S (Z.to_nat (ts_size b))) b (ts_tail b) first else Ret []);
    kept ← copy_loop (S (Z.to_nat (ts_size b))) b first (BUFF_IDX b (ts_head b + 1));
    let j := zlen kept in
    Ret (j, TsBuff new_size j (ts_item_size b) (kept ++ drop (length kept) uninit) (j - 1) 0, freed).

Definition glb_tsbuff_resize (b : buff) (new_size : Z) (mem val_free : bool) (uninit : list item)
  : res (Z * buff * list Z) :=
  if (GLB_TSBUFF_MAX_SZIE <? new_size) || (new_size <? 1) || (new_size =? ts_size b) then Ret (FAIL, b, [])
  else if new_size <? ts_size b then tsbuff_downsize b new_size mem val_free uninit
  else '(r, b) ← tsbuff_upsize b new_size mem; Ret (r, b, []).

Definition glb_tsbuff_check_has_enough_count_data_idx (b : buff) (need_count head_idx : Z) : Z :=
  if need_count =? 0 then FAIL
  else if head_idx <? ts_tail b then
    if ts_tail b <=? head_idx + ts_size b - need_count + 1 then SUCCEED else FAIL
  else if ts_tail b <=? head_idx - need_count + 1 then SUCCEED else FAIL.

Definition glb_tsbuff_check_has_enough_count_data_time (b : buff) (need_count t : Z) : res Z :=
  if t <? 0 then Ret FAIL else
  head_time ← glb_tsbuff_get_time_head b;
  tail_time ← glb_tsbuff_get_time_tail b;
  if (head_time <? t) || (t <? tail_time) || (need_count =? 0) then Ret FAIL
  else
    idx ← glb_tsbuff_find_time_idx b t;
    Ret (glb_tsbuff_check_has_enough_count_data_idx b need_count idx).

Definition glb_tsbuff_get_head_idx (b : buff) : Z := ts_head b.
Definition glb_tsbuff_get_tail_idx (b : buff) : Z := ts_tail b.

End model.

(** ** Abstraction and invariant *)

Section theory.
Context {V : Type} (zero : V).
#[local] Abbreviation item := (ts_item V).
#[local] Abbreviation buff := (tsbuff V).
Implicit Types b : buff.

(** Array index of the element at distance [p] from the oldest one. *)
Definition slot b (p : Z) : Z := (ts_tail b + p) mod ts_size b.

(** The elements from the oldest to the newest. *)
Definition contents b : list item :=
  (fun k => default (TsItem 0 zero) (zget (ts_data b) (slot b (Z.of_nat k)))) <$>
    seq 0 (Z.to_nat (ts_count b)).

Record ts_wf b : Prop := {
  wf_size : 1 <= ts_size b;
  wf_data : zlen (ts_data b) = ts_size b;
  wf_count : 0 <= ts_count b <= ts_size b;
  wf_empty : ts_count b = 0 -> ts_head b = -1 /\ ts_tail b = -1;
  wf_live : 0 < ts_count b ->
    0 <= ts_tail b < ts_size b /\ ts_head b = slot b (ts_count b - 1) }.

(** Times do not decrease from the oldest to the newest element. *)
Definition ts_sorted (l : list item) : Prop :=
  forall i j x y, (i <= j)%nat -> l !! i = Some x -> l !! j = Some y -> time x <= time y.

Lemma mod_wrap x n : 0 <= x < 2 * n -> x mod n = if x <? n then x else x - n.
Proof.
  intros; case_match; unbool; [apply Z.mod_small; lia|].
  symmetry; apply (Z.mod_unique_pos x n 1); lia.
Qed.

Lemma BUFF_IDX_mod b i : 0 < ts_size b -> - ts_size b <= i -> BUFF_IDX b i = i mod ts_size b.
Proof.
  intros; unfold BUFF_IDX. rewrite Z.rem_mod_nonneg by lia.
  replace (i + ts_size b) with (i + 1 * ts_size b) by lia. apply Z.mod_add; lia.
Qed.

Lemma BUFF_IDX_range b i : 0 < ts_size b -> - ts_size b <= i -> 0 <= BUFF_IDX b i < ts_size b.
Proof. intros; rewrite BUFF_IDX_mod by lia. apply Z.mod_pos_bound; lia. Qed.

Lemma slot_range b p : 0 < ts_size b -> 0 <= slot b p < ts_size b.
Proof. intros; apply Z.mod_pos_bound; lia. Qed.

Lemma slot_wrap b p :
  0 <= ts_tail b < ts_size b -> 0 <= p <= ts_size b ->
  slot b p = if ts_tail b + p <? ts_size b then ts_tail b + p else ts_tail b + p - ts_size b.
Proof. intros; apply mod_wrap; lia. Qed.

Lemma BUFF_IDX_slot b p q :
  0 <= ts_tail b < ts_size b -> - ts_size b <= ts_tail b + p + q -> 0 <= ts_tail b + p ->
  - ts_size b <= slot b p + q -> BUFF_IDX b (slot b p + q) = slot b (p + q).
Proof.
  intros; rewrite BUFF_IDX_mod by lia. unfold slot.
  rewrite Zplus_mod_idemp_l. f_equal; lia.
Qed.

Lemma slot_inj b p q :
  0 <= ts_tail b < ts_size b -> 0 <= p < ts_size b -> 0 <= q < ts_size b ->
  slot b p = slot b q -> p = q.
Proof. intros ???. rewrite !slot_wrap by lia. repeat case_match; unbool; lia. Qed.

Lemma contents_length b : length (contents b) = Z.to_nat (ts_count b).
Proof. unfold contents; by rewrite length_fmap, length_seq. Qed.

Lemma contents_lookup b k :
  ts_wf b -> Z.of_nat k < ts_count b ->
  contents b !! k = zget (ts_data b) (slot b (Z.of_nat k)).
Proof.
  intros W ?. unfold contents. rewrite list_lookup_fmap, lookup_seq_lt by lia. simpl.
  destruct (zget_is_Some (ts_data b) (slot b (Z.of_nat k))) as [x Hx].
  - rewrite (wf_data _ W). apply slot_range. pose proof (wf_size _ W); lia.
  - by rewrite Hx.
Qed.

Lemma contents_nil b : ts_count b = 0 -> contents b = [].
Proof. intros E; unfold contents; by rewrite E. Qed.

(** The element at logical position [p]. *)
Lemma contents_at b p :
  ts_wf b -> 0 <= p < ts_count b ->
  exists x, contents b !! Z.to_nat p = Some x /\ zget (ts_data b) (slot b p) = Some x.
Proof.
  intros W ?. destruct (zget_is_Some (ts_data b) (slot b p)) as [x Hx].
  { rewrite (wf_data _ W). apply slot_range. pose proof (wf_size _ W); lia. }
  exists x; split; [|done]. rewrite contents_lookup by (auto; lia).
  by rewrite Z2Nat.id by lia.
Qed.

(** Two buffers have related contents when their slots are related. *)
Lemma contents_ext b l :
  ts_wf b -> zlen l = ts_count b ->
  (forall p, 0 <= p < ts_count b -> zget (ts_data b) (slot b p) = l !! Z.to_nat p) ->
  contents b = l.
Proof.
  intros W Hl Hp. apply list_eq; intros k. unfold zlen in Hl.
  destruct (decide (Z.of_nat k < ts_count b)).
  - rewrite contents_lookup by auto. rewrite Hp by lia. by rewrite Nat2Z.id.
  - rewrite !lookup_ge_None_2; [done|lia|rewrite contents_length; lia].
Qed.

Lemma get_value_ptr_ok b i : 0 <= i < ts_size b -> glb_tsbuff_get_value_ptr b i = Ret i.
Proof.
  intros; unfold glb_tsbuff_get_value_ptr, glb_tsbuff_get_size.
  destruct (Z.ltb_spec i 0), (Z.leb_spec (ts_size b) i); simpl; auto; lia.
Qed.

Lemma deref_slot b p x :
  ts_wf b -> 0 <= p < ts_count b -> contents b !! Z.to_nat p = Some x ->
  deref b (slot b p) = Ret x.
Proof.
  intros W ? H. destruct (contents_at b p W) as (y & H1 & H2); [lia|].
  unfold deref. rewrite H2. simplify_eq. done.
Qed.

Lemma slot_0 b : 0 <= ts_tail b < ts_size b -> slot b 0 = ts_tail b.
Proof. intros; unfold slot. rewrite Z.add_0_r. apply Z.mod_small; lia. Qed.

Lemma time_head_spec b x :
  ts_wf b -> last (contents b) = Some x -> glb_tsbuff_get_time_head b = Ret (time x).
Proof.
  intros W Hl. rewrite last_lookup, contents_length in Hl.
  assert (0 < ts_count b).
  { destruct (decide (ts_count b = 0)) as [E|]; [|destruct W; lia].
    by rewrite contents_nil in Hl. }
  destruct (wf_live _ W) as [Ht Hh]; [lia|].
  unfold glb_tsbuff_get_time_head, glb_tsbuff_get_count.
  destruct (Z.eqb_spec (ts_count b) 0); [lia|].
  rewrite get_value_ptr_ok; [|rewrite Hh; apply slot_range; lia]. simpl.
  rewrite Hh, (deref_slot _ _ x); auto; [lia|].
  by replace (Z.to_nat (ts_count b - 1)) with (pred (Z.to_nat (ts_count b))) by lia.
Qed.

Lemma time_tail_spec b x l :
  ts_wf b -> contents b = x :: l -> glb_tsbuff_get_time_tail b = Ret (time x).
Proof.
  intros W Hl.
  assert (0 < ts_count b).
  { destruct (decide (ts_count b = 0)) as [E|]; [|destruct W; lia].
    by rewrite contents_nil in Hl. }
  destruct (wf_live _ W) as [Ht Hh]; [lia|].
  unfold glb_tsbuff_get_time_tail, glb_tsbuff_get_count.
  destruct (Z.eqb_spec (ts_count b) 0); [lia|].
  rewrite get_value_ptr_ok by lia. simpl.
  rewrite <- (slot_0 b), (deref_slot _ _ x); auto; [lia|]. by rewrite Hl.
Qed.

Lemma contents_nonempty b : ts_wf b -> 0 < ts_count b -> exists x l, contents b = x :: l.
Proof.
  intros W ?. destruct (contents b) eqn:E; [|eauto].
  apply (f_equal length) in E. rewrite contents_length in E. simpl in E; lia.
Qed.

Lemma contents_last b : ts_wf b -> 0 < ts_count b -> exists x, last (contents b) = Some x.
Proof.
  intros W H. destruct (contents_nonempty b W H) as (x & l & ->).
  apply last_is_Some. done.
Qed.

(** ** Removing the oldest element *)

Lemma free_tail_ok b :
  ts_wf b ->
  ts_wf (glb_tsbuff_free_tail b).2 /\
  contents (glb_tsbuff_free_tail b).2 = tail (contents b) /\
  (glb_tsbuff_free_tail b).1 = (if ts_count b =? 0 then FAIL else SUCCEED).
Proof.
  intros W. pose proof (wf_size _ W). pose proof (wf_count _ W). unfold glb_tsbuff_free_tail.
  destruct (Z.eqb_spec (ts_count b) 0) as [E|E]; simpl.
  { rewrite contents_nil by done. auto. }
  destruct (wf_live _ W) as [Ht Hh]; [lia|].
  destruct (Z.eqb_spec (ts_count b - 1) 0) as [E'|E']; simpl.
  - split_and!; [|rewrite (contents_nil (set_head _ _))|done].
    + split; simpl; try lia. apply W.
    + destruct (contents b) as [|x [|y l]] eqn:C; try done.
      apply (f_equal length) in C. rewrite contents_length in C. simpl in C; lia.
    + done.
  - set (b' := set_tail _ _).
    assert (Hs : forall p, 0 <= p -> slot b' p = slot b (1 + p)).
    { intros p ?. unfold b', slot; simpl. rewrite BUFF_IDX_mod by (simpl; lia). simpl.
      rewrite Zplus_mod_idemp_l. f_equal; lia. }
    assert (W' : ts_wf b').
    { split; simpl; try lia; [apply W|]. intros _. split; [apply (BUFF_IDX_range (set_count b _)); simpl; lia|].
      rewrite Hs by lia. rewrite Hh. f_equal; lia. }
    split_and!; [done| |done]. apply contents_ext; [done| |].
    + pose proof (contents_length b) as L. unfold zlen. destruct (contents b); simpl in *; lia.
    + intros p Hp. simpl in Hp. rewrite Hs by lia.
      destruct (contents_at b (1 + p) W) as (x & Hx & Hx'); [lia|].
      simpl. rewrite Hx'. symmetry. rewrite lookup_tail.
      by replace (S (Z.to_nat p)) with (Z.to_nat (1 + p)) by lia.
Qed.

(** ** Adding the newest element *)

(** The order check of [glb_tsbuff_add_to_head]. *)
Definition head_refused b (t : Z) : Prop :=
  exists x, last (contents b) = Some x /\ time x <> ZBX_JAN_2038 /\ t < time x.

Lemma add_to_head_refused b t :
  ts_wf b -> 1 < ts_size b -> ts_count b = ts_size b \/ head_refused b t ->
  glb_tsbuff_add_to_head b t = Ret (None, b).
Proof.
  intros W Hsz Hr. unfold glb_tsbuff_add_to_head, glb_tsbuff_get_count, glb_tsbuff_get_size.
  assert (0 < ts_count b) as Hc.
  { destruct Hr as [?|(x & Hx & _)]; [lia|].
    destruct (decide (ts_count b = 0)) as [E|]; [|destruct W; lia]. by rewrite contents_nil in Hx. }
  destruct (contents_last b W Hc) as [x Hx].
  destruct (Z.ltb_spec 0 (ts_count b)); [|lia]. rewrite (time_head_spec b x) by done. simpl.
  destruct (negb (time x =? ZBX_JAN_2038) && (t <? time x)) eqn:E; simpl; [done|].
  destruct Hr as [Hfull|(y & Hy & ? & ?)].
  - destruct (wf_live _ W) as [Ht Hh]; [lia|].
    rewrite Hh, BUFF_IDX_slot by (pose proof (slot_range b (ts_count b - 1)); lia).
    replace (slot b (ts_count b - 1 + 1)) with (ts_tail b).
    { rewrite Z.eqb_refl. by destruct (Z.ltb_spec 1 (ts_size b)); [|lia]. }
    rewrite slot_wrap by lia. case_match; unbool; lia.
  - simplify_eq. destruct (Z.eqb_spec (time y) ZBX_JAN_2038), (Z.ltb_spec t (time y)); try done; lia.
Qed.

(** Writing the time of one array element. *)
Lemma write_time_ok b p t :
  zlen (ts_data b) = ts_size b -> 0 <= p < ts_size b ->
  exists v, write_time b p t = Ret (set_data b (zset (ts_data b) p (TsItem t v))).
Proof.
  intros Hd Hp. unfold write_time, deref.
  destruct (zget_is_Some (ts_data b) p) as [x Hx]; [lia|]. rewrite Hx. simpl. eauto.
Qed.

Lemma add_to_head_added b t :
  ts_wf b -> ts_count b < ts_size b -> ~ head_refused b t ->
  exists b' v, glb_tsbuff_add_to_head b t = Ret (Some (ts_head b'), b') /\
    ts_wf b' /\ contents b' = contents b ++ [TsItem t v] /\ ts_size b' = ts_size b.
Proof.
  intros W Hlt Hr. pose proof (wf_size _ W) as Hsz. pose proof (wf_count _ W) as Hcn.
  unfold glb_tsbuff_add_to_head, glb_tsbuff_get_count, glb_tsbuff_get_size.
  destruct (Z.ltb_spec 0 (ts_count b)) as [Hc|Hc].
  - destruct (contents_last b W Hc) as [x Hx]. rewrite (time_head_spec b x) by done. simpl.
    destruct (negb (time x =? ZBX_JAN_2038) && (t <? time x)) eqn:E; simpl.
    { unbool. destruct Hr. exists x. auto. }
    destruct (wf_live _ W) as [Ht Hh]; [lia|].
    rewrite Hh, BUFF_IDX_slot by (pose proof (slot_range b (ts_count b - 1)); lia).
    replace (ts_count b - 1 + 1) with (ts_count b) by lia.
    destruct (Z.eqb_spec (slot b (ts_count b)) (ts_tail b)) as [Es|Es].
    { rewrite <- (slot_0 b) in Es by done. apply slot_inj in Es; lia. }
    simpl. set (q := slot b (ts_count b)). assert (0 <= q < ts_size b) by (apply slot_range; lia).
    rewrite get_value_ptr_ok by (simpl; lia). simpl.
    destruct (write_time_ok (set_head b q) q t) as [v Hv]; [apply W|simpl; lia|]. rewrite Hv. simpl.
    destruct (Z.eqb_spec (ts_count b + 1) 1); [lia|].
    set (b' := set_count _ _). exists b', v; split; [reflexivity|].
    assert (W' : ts_wf b').
    { split; simpl; try lia; [by rewrite zlen_zset, (wf_data _ W)|].
      intros _; split; [lia|]. unfold q, slot; simpl. f_equal; lia. }
    split_and!; [done| |done]. apply contents_ext; [done|simpl|simpl].
    + unfold zlen. rewrite length_app, contents_length. simpl. lia.
    + intros p Hp. change (slot _ p) with (slot b p). rewrite zget_zset by (rewrite (wf_data _ W); lia).
      case_bool_decide as Eq.
      * apply slot_inj in Eq; [|lia..]. subst p.
        rewrite lookup_app_r; rewrite contents_length; [|lia]. by rewrite Nat.sub_diag.
      * assert (p <> ts_count b) by (intros ->; done).
        destruct (contents_at b p W) as (y & Hy & Hy'); [lia|]. rewrite Hy'.
        rewrite lookup_app_l; [done|]. rewrite contents_length; lia.
  - destruct (wf_empty _ W) as [Hh Ht]; [lia|]. simpl. rewrite Ht. simpl.
    rewrite get_value_ptr_ok by (simpl; lia). simpl.
    destruct (write_time_ok (set_head b 0) 0 t) as [v Hv]; [apply W|simpl; lia|]. rewrite Hv. simpl.
    destruct (Z.eqb_spec (ts_count b + 1) 1); [|lia].
    set (b' := set_tail _ _). exists b', v; split; [reflexivity|].
    assert (W' : ts_wf b').
    { split; simpl; try lia; [by rewrite zlen_zset, (wf_data _ W)|].
      intros _; split; [lia|]. unfold slot; simpl. replace (ts_count b + 1 - 1) with 0 by lia.
      by rewrite Z.mod_0_l by lia. }
    split_and!; [done| |done]. rewrite (contents_nil b) by lia. apply contents_ext; [done|simpl|simpl].
    + unfold zlen; simpl. lia.
    + intros p Hp. assert (p = 0) as -> by lia. unfold slot; simpl. rewrite Z.mod_0_l by lia.
      rewrite zget_zset_eq by (rewrite (wf_data _ W); lia). done.
Qed.

(** ** Adding an element older than all others *)

(** The order check of [glb_tsbuff_add_to_tail]. *)
Definition tail_refused b (t : Z) : Prop :=
  exists x l, contents b = x :: l /\ 0 < time x < t.

Lemma slot_pred b :
  0 <= ts_tail b < ts_size b -> BUFF_IDX b (ts_tail b - 1) = slot b (ts_size b - 1).
Proof.
  intros. rewrite BUFF_IDX_mod by lia. unfold slot.
  replace (ts_tail b + (ts_size b - 1)) with (ts_tail b - 1 + 1 * ts_size b) by lia.
  by rewrite Z.mod_add by lia.
Qed.

Lemma add_to_tail_refused b t :
  ts_wf b -> ts_count b = ts_size b \/ tail_refused b t ->
  glb_tsbuff_add_to_tail b t = Ret (None, b).
Proof.
  intros W Hr. pose proof (wf_size _ W). unfold glb_tsbuff_add_to_tail, glb_tsbuff_get_count.
  assert (0 < ts_count b) as Hc.
  { destruct Hr as [?|(x & l & Hx & _)]; [lia|].
    destruct (decide (ts_count b = 0)) as [E|]; [|destruct W; lia]. by rewrite contents_nil in Hx. }
  destruct (contents_nonempty b W Hc) as (x & l & Hx).
  destruct (Z.ltb_spec 0 (ts_count b)); [|lia]. rewrite (time_tail_spec b x l) by done. simpl.
  destruct ((0 <? time x) && (time x <? t)) eqn:E; simpl; [done|].
  destruct Hr as [Hfull|(y & l' & Hy & ?)].
  - destruct (wf_live _ W) as [Ht Hh]; [lia|]. rewrite slot_pred, Hh, Hfull by done.
    by rewrite Z.eqb_refl.
  - assert (x = y) as <- by congruence.
    destruct (Z.ltb_spec 0 (time x)), (Z.ltb_spec (time x) t); try done; lia.
Qed.

Lemma add_to_tail_added b t :
  ts_wf b -> ts_count b < ts_size b -> ~ tail_refused b t ->
  exists b' v, glb_tsbuff_add_to_tail b t = Ret (Some (ts_tail b'), b') /\
    ts_wf b' /\ contents b' = TsItem t v :: contents b /\ ts_size b' = ts_size b.
Proof.
  intros W Hlt Hr. pose proof (wf_size _ W) as Hsz. pose proof (wf_count _ W) as Hcn.
  unfold glb_tsbuff_add_to_tail, glb_tsbuff_get_count.
  destruct (Z.ltb_spec 0 (ts_count b)) as [Hc|Hc].
  - destruct (contents_nonempty b W Hc) as (x & l & Hx). rewrite (time_tail_spec b x l) by done. simpl.
    destruct ((0 <? time x) && (time x <? t)) eqn:E; simpl.
    { unbool. destruct Hr. exists x, l. auto. }
    destruct (wf_live _ W) as [Ht Hh]; [lia|]. rewrite slot_pred by done.
    destruct (Z.eqb_spec (slot b (ts_size b - 1)) (ts_head b)) as [Es|Es].
    { rewrite Hh in Es. apply slot_inj in Es; lia. }
    set (q := slot b (ts_size b - 1)). assert (0 <= q < ts_size b) by (apply slot_range; lia).
    rewrite get_value_ptr_ok by (simpl; lia). simpl.
    destruct (write_time_ok (set_tail b q) q t) as [v Hv]; [apply W|simpl; lia|]. rewrite Hv. simpl.
    set (b' := set_count _ _). exists b', v; split; [reflexivity|].
    assert (Hs : forall p, 1 <= p -> slot b' p = slot b (p - 1)).
    { intros p ?. unfold b', slot, q, slot; simpl. rewrite Zplus_mod_idemp_l.
      replace (ts_tail b + (ts_size b - 1) + p) with (ts_tail b + (p - 1) + 1 * ts_size b) by lia.
      apply Z.mod_add; lia. }
    assert (W' : ts_wf b').
    { split; simpl; try lia; [by rewrite zlen_zset, (wf_data _ W)|].
      intros _; split; [lia|]. rewrite Hs by lia. rewrite Hh. f_equal; lia. }
    split_and!; [done| |done]. apply contents_ext; [done|simpl|simpl].
    + unfold zlen; simpl. rewrite contents_length. lia.
    + intros p Hp. destruct (decide (p = 0)) as [->|].
      { rewrite (slot_0 b') by (simpl; lia). simpl. by rewrite zget_zset_eq by (rewrite (wf_data _ W); lia). }
      rewrite Hs by lia. rewrite zget_zset_ne.
      * destruct (contents_at b (p - 1) W) as (y & Hy & Hy'); [lia|]. rewrite Hy'.
        by replace (Z.to_nat p) with (S (Z.to_nat (p - 1))) by lia.
      * intros Eq. apply slot_inj in Eq; lia.
  - destruct (wf_empty _ W) as [Hh Ht]; [lia|]. simpl. rewrite get_value_ptr_ok by (simpl; lia). simpl.
    destruct (write_time_ok (set_tail (set_head b 0) 0) 0 t) as [v Hv]; [apply W|simpl; lia|].
    rewrite Hv. simpl.
    set (b' := set_count _ _). exists b', v; split; [reflexivity|].
    assert (W' : ts_wf b').
    { split; simpl; try lia; [by rewrite zlen_zset, (wf_data _ W)|].
      intros _; split; [lia|]. unfold slot; simpl. replace (ts_count b + 1 - 1) with 0 by lia.
      by rewrite Z.mod_0_l by lia. }
    split_and!; [done| |done]. rewrite (contents_nil b) by lia. apply contents_ext; [done|simpl|simpl].
    + unfold zlen; simpl. lia.
    + intros p Hp. assert (p = 0) as -> by lia. unfold slot; simpl. rewrite Z.mod_0_l by lia.
      rewrite zget_zset_eq by (rewrite (wf_data _ W); lia). done.
Qed.

(** ** Searching by time *)

Definition time_at b (p : Z) : Z := default 0 (time <$> contents b !! Z.to_nat p).

Definition guess b (tail_idx head_idx : Z) : Z :=
  if head_idx <? tail_idx then Z.quot (tail_idx + head_idx + ts_size b) 2
  else BUFF_IDX b (Z.quot (tail_idx + head_idx) 2 + ts_size b).

(** The guess is the middle of the searched range, up to the wrap-around. *)
Lemma guess_cong b lo hi :
  0 <= ts_tail b < ts_size b -> 0 <= lo <= hi -> hi < ts_size b ->
  0 <= guess b (slot b lo) (slot b hi) /\
  exists k, guess b (slot b lo) (slot b hi) = ts_tail b + (lo + hi) / 2 + k * ts_size b.
Proof.
  intros Ht Hl Hh. unfold guess. rewrite !(slot_wrap b) by lia.
  assert (lo <= (lo + hi) / 2) by (apply Z.div_le_lower_bound; lia).
  assert (Hq : forall x k, 0 <= x -> x = 2 * k + (lo + hi) -> Z.quot x 2 = k + (lo + hi) / 2).
  { intros x k ? ->. rewrite Z.quot_div_nonneg by lia. rewrite Z.mul_comm, Z.div_add_l; lia. }
  assert (Hb : forall x, 0 <= x -> 0 <= BUFF_IDX b x /\ exists k, BUFF_IDX b x = x + k * ts_size b).
  { intros x ?. split; [apply BUFF_IDX_range; lia|]. rewrite BUFF_IDX_mod by lia.
    exists (- (x / ts_size b)). rewrite Z.mod_eq; lia. }
  destruct (Z.ltb_spec (ts_tail b + lo) (ts_size b)), (Z.ltb_spec (ts_tail b + hi) (ts_size b)); try lia;
    match goal with |- context [?x <? ?y] => destruct (Z.ltb_spec x y) end; try lia.
  - rewrite (Hq _ (ts_tail b)) by lia.
    destruct (Hb (ts_tail b + (lo + hi) / 2 + ts_size b)) as [? [k Hk]]; [lia|]. rewrite Hk in *.
    split; [lia|]. exists (k + 1); lia.
  - rewrite (Hq _ (ts_tail b)) by lia. split; [lia|]. exists 0; lia.
  - rewrite (Hq _ (ts_tail b - ts_size b)) by lia.
    destruct (Hb (ts_tail b - ts_size b + (lo + hi) / 2 + ts_size b)) as [? [k Hk]]; [lia|]. rewrite Hk in *.
    split; [lia|]. exists k; lia.
Qed.

Lemma guess_mid b lo hi d :
  0 <= ts_tail b < ts_size b -> 0 <= lo <= hi -> hi < ts_size b -> -1 <= d ->
  BUFF_IDX b (guess b (slot b lo) (slot b hi) + d) = slot b ((lo + hi) / 2 + d).
Proof.
  intros. destruct (guess_cong b lo hi) as [? [k Hk]]; [lia..|].
  rewrite BUFF_IDX_mod by lia. rewrite Hk. unfold slot.
  replace (ts_tail b + (lo + hi) / 2 + k * ts_size b + d)
    with (ts_tail b + ((lo + hi) / 2 + d) + k * ts_size b) by lia.
  apply Z.mod_add; lia.
Qed.

(** One iteration, on logical positions. *)
Lemma find_loop_step fuel b tm lo hi :
  ts_wf b -> 0 <= lo <= hi -> hi < ts_count b ->
  let mid := (lo + hi) / 2 in
  find_loop (S fuel) b tm (slot b lo) (slot b hi) =
    if tm =? time_at b mid then Ret (slot b mid)
    else if tm =? time_at b hi then Ret (slot b hi)
    else if mid =? lo then Ret (slot b lo)
    else if time_at b mid <? tm then
      if mid + 1 =? hi then Ret (slot b mid) else find_loop fuel b tm (slot b mid) (slot b hi)
    else if mid - 1 =? lo then Ret (slot b lo) else find_loop fuel b tm (slot b lo) (slot b mid).
Proof.
  intros W Hl Hh mid. destruct (wf_live _ W) as [Ht Hhd]; [lia|]. pose proof (wf_count _ W).
  assert (lo <= mid <= hi).
  { split; [apply Z.div_le_lower_bound|apply Z.div_le_upper_bound]; lia. }
  cbn [find_loop]. fold (guess b (slot b lo) (slot b hi)).
  pose proof (guess_mid b lo hi 0) as G. rewrite Z.add_0_r, Z.add_0_r in G.
  rewrite G by lia. fold mid.
  change (guess b (slot b lo) (slot b hi) - 1) with (guess b (slot b lo) (slot b hi) + -1).
  rewrite (guess_mid b lo hi 1), (guess_mid b lo hi (-1)) by lia. fold mid.
  change (mid + -1) with (mid - 1).
  rewrite !get_value_ptr_ok by (apply slot_range; lia). simpl.
  destruct (contents_at b mid W) as (x & Hx & _); [lia|].
  destruct (contents_at b hi W) as (y & Hy & _); [lia|].
  rewrite (deref_slot b mid x), (deref_slot b hi y) by (auto; lia). simpl.
  unfold time_at. rewrite Hx, Hy. simpl.
  assert (Heq : forall p q, 0 <= p < ts_size b -> 0 <= q < ts_size b ->
    (slot b p =? slot b q) = (p =? q)).
  { intros p q ??. destruct (Z.eqb_spec p q) as [->|]; [apply Z.eqb_refl|].
    apply Z.eqb_neq. intros E%slot_inj; lia. }
  rewrite (Heq mid lo) by lia.
  destruct (tm =? time x), (tm =? time y); auto. destruct (Z.eqb_spec mid lo); [done|].
  assert (mid < hi). { assert (lo < hi) by lia. apply Z.div_lt_upper_bound; lia. }
  by rewrite !Heq by lia.
Qed.

#[local] Arguments find_loop : simpl never.

(** What the search promises about the position it returns. *)
Definition at_or_before b (tm p : Z) : Prop :=
  time_at b p = tm \/ (p + 1 < ts_count b /\ time_at b p < tm < time_at b (p + 1)).

Lemma find_loop_ok fuel b tm lo hi :
  ts_wf b -> 0 <= lo <= hi -> hi < ts_count b ->
  time_at b lo <= tm <= time_at b hi -> hi - lo < Z.of_nat fuel ->
  exists p, find_loop fuel b tm (slot b lo) (slot b hi) = Ret (slot b p) /\
    lo <= p <= hi /\ at_or_before b tm p.
Proof.
  revert lo hi. induction fuel as [|fuel IH]; intros lo hi W Hl Hh Ht Hf; [lia|].
  rewrite find_loop_step by done. cbv zeta. set (mid := (lo + hi) / 2).
  assert (lo <= mid <= hi /\ (lo < hi -> mid < hi)).
  { split; [split; [apply Z.div_le_lower_bound|apply Z.div_le_upper_bound]; lia|].
    intros; apply Z.div_lt_upper_bound; lia. }
  destruct (Z.eqb_spec tm (time_at b mid)).
  { exists mid. split_and!; [done|lia..|left; done]. }
  destruct (Z.eqb_spec tm (time_at b hi)).
  { exists hi. split_and!; [done|lia..|left; done]. }
  assert (lo < hi). { destruct (decide (lo = hi)) as [->|]; lia. }
  destruct (Z.eqb_spec mid lo) as [E|].
  { assert (hi = lo + 1).
    { unfold mid in E. pose proof (Z.mul_succ_div_gt (lo + hi) 2). lia. }
    exists lo. split_and!; [done|lia..|]. right. rewrite E in *. subst hi. lia. }
  destruct (Z.ltb_spec (time_at b mid) tm).
  - destruct (Z.eqb_spec (mid + 1) hi) as [E|].
    { exists mid. split_and!; [done|lia..|]. right. rewrite E. lia. }
    destruct (IH mid hi) as (p & -> & ? & ?); [done|lia..|]. exists p. split_and!; [done|lia..|done].
  - destruct (Z.eqb_spec (mid - 1) lo) as [E|].
    { exists lo. split_and!; [done|lia..|]. 
      destruct (decide (time_at b lo = tm)); [by left|right].
      replace (lo + 1) with mid by lia. lia. }
    destruct (IH lo mid) as (p & -> & ? & ?); [done|lia..|]. exists p. split_and!; [done|lia..|done].
Qed.

Lemma time_at_last b x :
  last (contents b) = Some x -> time_at b (ts_count b - 1) = time x.
Proof.
  intros H. rewrite last_lookup, contents_length in H. unfold time_at.
  replace (Z.to_nat (ts_count b - 1)) with (pred (Z.to_nat (ts_count b))) by lia. by rewrite H.
Qed.

Lemma time_at_first b x l : contents b = x :: l -> time_at b 0 = time x.
Proof. intros H. unfold time_at. by rewrite H. Qed.

Lemma find_time_idx_ok b tm :
  ts_wf b -> 0 < ts_count b -> time_at b 0 <= tm <= time_at b (ts_count b - 1) ->
  exists p, glb_tsbuff_find_time_idx b tm = Ret (slot b p) /\
    0 <= p < ts_count b /\ at_or_before b tm p.
Proof.
  intros W Hc Ht. unfold glb_tsbuff_find_time_idx, glb_tsbuff_get_count.
  destruct (contents_last b W Hc) as [x Hx]. destruct (contents_nonempty b W Hc) as (y & l & Hy).
  destruct (Z.eqb_spec (ts_count b) 0); [lia|].
  rewrite (time_head_spec b x), (time_tail_spec b y l) by done. simpl.
  rewrite (time_at_last b x), (time_at_first b y l) in Ht by done.
  destruct (Z.ltb_spec tm (time y)), (Z.ltb_spec (time x) tm); simpl; try lia.
  destruct (wf_live _ W Hc) as [Htl Hh].
  rewrite Hh, <- (slot_0 b) by done.
  destruct (find_loop_ok (S (Z.to_nat (ts_count b))) b tm 0 (ts_count b - 1)) as (p & Hp & ? & ?);
    [done|lia..| |lia|].
  { rewrite (time_at_last b x), (time_at_first b y l) by done. lia. }
  exists p. rewrite Hp. split_and!; [done|lia..|done].
Qed.

Lemma find_time_idx_outside b tm :
  ts_wf b -> ts_count b = 0 \/ tm < time_at b 0 \/ time_at b (ts_count b - 1) < tm ->
  glb_tsbuff_find_time_idx b tm = Ret FAIL.
Proof.
  intros W Ht. unfold glb_tsbuff_find_time_idx, glb_tsbuff_get_count.
  destruct (Z.eqb_spec (ts_count b) 0); [done|]. pose proof (wf_count _ W).
  assert (0 < ts_count b) as Hc by lia.
  destruct (contents_last b W Hc) as [x Hx]. destruct (contents_nonempty b W Hc) as (y & l & Hy).
  rewrite (time_head_spec b x), (time_tail_spec b y l) by done. simpl.
  rewrite (time_at_last b x), (time_at_first b y l) in Ht by done.
  destruct (Z.ltb_spec tm (time y)), (Z.ltb_spec (time x) tm); simpl; try done; lia.
Qed.

(** In a sorted buffer everything newer than the position found is later. *)
Lemma at_or_before_sorted b tm p :
  ts_sorted (contents b) -> 0 <= p -> at_or_before b tm p ->
  time_at b p = tm \/
  (time_at b p < tm /\ forall q, p < q < ts_count b -> tm < time_at b q).
Proof.
  intros S Hp [?|[Hc Ht]]; [by left|right]. split; [lia|]. intros q Hq.
  unfold time_at in *. pose proof (contents_length b) as L.
  destruct (lookup_lt_is_Some_2 (contents b) (Z.to_nat (p + 1))) as [x Hx]; [lia|].
  destruct (lookup_lt_is_Some_2 (contents b) (Z.to_nat q)) as [y Hy]; [lia|].
  rewrite Hx in Ht. rewrite Hy. simpl in *.
  assert (time x <= time y) by (eapply S; [|exact Hx|exact Hy]; lia). lia.
Qed.

(** ** Enough values at or before a position *)

Lemma enough_count_ok b need p :
  ts_wf b -> 0 <= p < ts_count b ->
  glb_tsbuff_check_has_enough_count_data_idx b need (slot b p) =
    if (need =? 0) || (p + 1 <? need) then FAIL else SUCCEED.
Proof.
  intros W Hp. destruct (wf_live _ W) as [Ht _]; [lia|]. pose proof (wf_count _ W).
  unfold glb_tsbuff_check_has_enough_count_data_idx. rewrite slot_wrap by lia.
  destruct (Z.eqb_spec need 0); [done|]. simpl.
  repeat case_match; unbool; try done; lia.
Qed.

(** ** Resizing *)

Lemma copy_items_lookup (dst src : list item) (to from n : Z) i :
  0 <= to -> 0 <= from -> 0 <= n -> to + n <= zlen dst -> from + n <= zlen src ->
  copy_items dst src to from n !! i =
    if decide (to <= Z.of_nat i < to + n) then src !! Z.to_nat (Z.of_nat i - to + from) else dst !! i.
Proof.
  unfold zlen, copy_items. intros. case_decide.
  - rewrite lookup_app_r; rewrite length_take; [|lia].
    rewrite lookup_app_l by (rewrite length_take, length_drop; lia).
    rewrite lookup_take_lt, lookup_drop by lia. f_equal; lia.
  - destruct (decide (Z.of_nat i < to)).
    + rewrite lookup_app_l by (rewrite length_take; lia). apply lookup_take_lt; lia.
    + rewrite lookup_app_r; rewrite length_take; [|lia].
      rewrite lookup_app_r; rewrite length_take, length_drop; [|lia].
      rewrite lookup_drop. f_equal; lia.
Qed.

Lemma copy_items_zget (dst src : list item) (to from n i : Z) :
  0 <= to -> 0 <= from -> 0 <= n -> to + n <= zlen dst -> from + n <= zlen src -> to <= i < to + n ->
  zget (copy_items dst src to from n) i = zget src (i - to + from).
Proof.
  intros. unfold zget. destruct (Z.ltb_spec i 0), (Z.ltb_spec (i - to + from) 0); try lia.
  rewrite copy_items_lookup by lia. rewrite decide_True by lia. f_equal; lia.
Qed.

Lemma copy_items_zget_out (dst src : list item) (to from n i : Z) :
  0 <= to -> 0 <= from -> 0 <= n -> to + n <= zlen dst -> from + n <= zlen src -> 0 <= i ->
  i < to \/ to + n <= i ->
  zget (copy_items dst src to from n) i = zget dst i.
Proof.
  intros. unfold zget. destruct (Z.ltb_spec i 0); [lia|].
  rewrite copy_items_lookup by lia. by rewrite decide_False by lia.
Qed.

Lemma copy_items_zlen (dst src : list item) (to from n : Z) :
  0 <= to -> 0 <= from -> 0 <= n -> to + n <= zlen dst -> from + n <= zlen src ->
  zlen (copy_items dst src to from n) = zlen dst.
Proof.
  unfold zlen, copy_items; intros. rewrite !length_app, !length_take, !length_drop. lia.
Qed.

Lemma zeroed_zlen n : 0 <= n -> zlen (zeroed zero n) = n.
Proof. intros; unfold zlen, zeroed. rewrite length_replicate; lia. Qed.

(** The elements fill a prefix of the array, or wrap around its end. *)
Definition upsizable b : Prop := ts_count b = 0 \/ ts_tail b = 0 \/ ts_head b < ts_tail b.

Lemma full_upsizable b : ts_wf b -> ts_count b = ts_size b -> upsizable b.
Proof.
  intros W F. pose proof (wf_size _ W). destruct (wf_live _ W) as [Ht Hh]; [lia|].
  unfold upsizable. rewrite Hh, slot_wrap by lia. case_match; unbool; lia.
Qed.

Lemma contents_transfer b b' :
  ts_wf b -> ts_wf b' -> ts_count b' = ts_count b ->
  (forall p, 0 <= p < ts_count b -> zget (ts_data b') (slot b' p) = zget (ts_data b) (slot b p)) ->
  contents b' = contents b.
Proof.
  intros W W' Hc Hp. apply contents_ext; [done| |].
  - unfold zlen. rewrite contents_length. pose proof (wf_count _ W). lia.
  - rewrite Hc. intros p ?. rewrite Hp by done.
    by destruct (contents_at b p W) as (x & -> & ?).
Qed.

Lemma upsize_flat b new_size :
  ts_wf b -> ts_size b < new_size -> 0 < ts_count b -> ts_tail b = 0 ->
  exists b', tsbuff_upsize zero b new_size true = Ret (new_size, b') /\
    ts_wf b' /\ contents b' = contents b /\ ts_size b' = new_size.
Proof.
  intros W Hn Hpos U. pose proof (wf_count _ W) as Hc. pose proof (wf_data _ W) as Hd.
  unfold tsbuff_upsize. simpl. destruct (wf_live _ W) as [Ht Hh]; [lia|]. rewrite slot_wrap, U in Hh by lia.
  assert (ts_head b = ts_count b - 1) as Hh' by (case_match; unbool; lia). rewrite Hh', U.
  destruct (Z.ltb_spec (-1) (ts_count b - 1)), (Z.leb_spec 0 (ts_count b - 1)); try lia. simpl.
  eexists; split; [reflexivity|]. set (b' := TsBuff _ _ _ _ _ _).
  assert (Hs : forall p, 0 <= p < ts_count b -> slot b' p = p /\ slot b p = p).
  { intros p ?. rewrite !slot_wrap by (simpl; lia). simpl. rewrite U.
    destruct (Z.ltb_spec (0 + p) new_size), (Z.ltb_spec (0 + p) (ts_size b)); lia. }
  assert (W' : ts_wf b').
  { split; simpl; try lia.
    - rewrite copy_items_zlen; rewrite ?zeroed_zlen; lia.
    - intros _. split; [lia|]. by rewrite (proj1 (Hs (ts_count b - 1) ltac:(lia))). }
  split_and!; [done| |done]. apply contents_transfer; [done..|]. simpl. intros p Hp.
  destruct (Hs p Hp) as [-> ->]. rewrite copy_items_zget; rewrite ?zeroed_zlen; try lia. f_equal; lia.
Qed.

Lemma upsize_wrapped b new_size :
  ts_wf b -> ts_size b < new_size -> 0 < ts_count b -> ts_head b < ts_tail b ->
  exists b', tsbuff_upsize zero b new_size true = Ret (new_size, b') /\
    ts_wf b' /\ contents b' = contents b /\ ts_size b' = new_size.
Proof.
  intros W Hn Hpos U. pose proof (wf_count _ W) as Hc. pose proof (wf_data _ W) as Hd.
  unfold tsbuff_upsize, glb_tsbuff_get_value_tail, glb_tsbuff_get_count. simpl.
  destruct (wf_live _ W) as [Ht Hh]; [lia|].
  assert (0 <= ts_head b) by (rewrite Hh; apply slot_range; lia). rewrite slot_wrap in Hh by lia.
  destruct (Z.ltb_spec (-1) (ts_head b)), (Z.leb_spec (ts_tail b) (ts_head b)); try lia.
  destruct (Z.eqb_spec (ts_count b) 0); [lia|]. rewrite get_value_ptr_ok by lia. simpl.
  destruct (Z.ltb_spec (ts_tail b + (ts_count b - 1)) (ts_size b)) as [|Hw]; [lia|].
  eexists; split; [reflexivity|]. set (b' := TsBuff _ _ _ _ _ _).
  assert (L1 : zlen (copy_items (zeroed zero new_size) (ts_data b) 0 (ts_tail b) (ts_size b - ts_tail b)) = new_size).
  { rewrite copy_items_zlen; rewrite ?zeroed_zlen; lia. }
  assert (Hs : forall p, 0 <= p < ts_count b -> slot b' p = p).
  { intros p ?. rewrite slot_wrap by (simpl; lia). simpl. case_match; unbool; lia. }
  assert (W' : ts_wf b').
  { split; simpl; try lia.
    - rewrite copy_items_zlen; lia.
    - intros _. split; [lia|]. rewrite Hs; lia. }
  split_and!; [done| |done]. apply contents_transfer; [done..|]. simpl. intros p Hp.
  rewrite (Hs p Hp), (slot_wrap b) by lia. case_match; unbool.
  - rewrite copy_items_zget_out by lia. rewrite copy_items_zget; rewrite ?zeroed_zlen; try lia. f_equal; lia.
  - rewrite copy_items_zget by lia. f_equal; lia.
Qed.

Lemma upsize_ok b new_size :
  ts_wf b -> ts_size b < new_size -> upsizable b ->
  exists b', tsbuff_upsize zero b new_size true = Ret (new_size, b') /\
    ts_wf b' /\ contents b' = contents b /\ ts_size b' = new_size.
Proof.
  intros W Hn U. pose proof (wf_size _ W). pose proof (wf_count _ W).
  destruct (decide (ts_count b = 0)) as [E|E].
  - unfold tsbuff_upsize. simpl. destruct (wf_empty _ W E) as [Eh Et]. rewrite Eh. simpl.
    eexists; split; [done|]. split_and!; [|by rewrite !contents_nil by done|done].
    split; simpl; try lia. apply zeroed_zlen; lia.
  - destruct U as [?|[?|?]]; [lia|apply upsize_flat; (done || lia)|apply upsize_wrapped; (done || lia)].
Qed.

Lemma copy_loop_ok fuel b lim p :
  ts_wf b -> 0 < lim < ts_size b -> 0 <= p <= ts_count b -> ts_count b - lim <= p ->
  ts_count b - p < Z.of_nat fuel -> 0 < ts_count b ->
  copy_loop fuel b (slot b p) (slot b (ts_count b)) = Ret (drop (Z.to_nat p) (contents b)).
Proof.
  intros W Hlim. pose proof (wf_count _ W) as Hc. revert p.
  induction fuel as [|fuel IH]; intros p Hp Hl Hf Hpos; [lia|]. simpl.
  destruct (wf_live _ W) as [Ht _]; [lia|].
  destruct (Z.eqb_spec (slot b p) (slot b (ts_count b))) as [E|E].
  - assert (p = ts_count b) as ->.
    { revert E. rewrite !slot_wrap by lia. repeat case_match; unbool; lia. }
    rewrite drop_ge; [done|]. rewrite contents_length; lia.
  - assert (p <> ts_count b) by (intros ->; done).
    rewrite get_value_ptr_ok by (apply slot_range; lia). simpl.
    destruct (contents_at b p W) as (x & Hx & _); [lia|].
    rewrite (deref_slot b p x) by (auto; lia). simpl.
    rewrite BUFF_IDX_slot by (pose proof (slot_range b p); lia). rewrite IH by lia. simpl.
    f_equal. rewrite (drop_S _ x (Z.to_nat p)) by done.
    by replace (Z.to_nat (p + 1)) with (S (Z.to_nat p)) by lia.
Qed.

Lemma free_loop_ok fuel b p stop :
  ts_wf b -> 0 < ts_count b -> 0 <= p <= stop -> stop < ts_count b -> stop - p < Z.of_nat fuel ->
  free_loop fuel b (ts_tail b + p) (slot b stop) =
    if ts_tail b + stop <=? ts_size b then Ret (seqZ (ts_tail b + p) (stop - p)) else
    if p =? stop then Ret [] else Halt AssertFail.
Proof.
  intros W Hpos. pose proof (wf_count _ W) as Hc. destruct (wf_live _ W) as [Ht _]; [lia|]. revert p.
  induction fuel as [|fuel IH]; intros p Hp Hs Hf; [lia|]. simpl.
  rewrite BUFF_IDX_mod by lia. change ((ts_tail b + p) mod ts_size b) with (slot b p).
  destruct (Z.eqb_spec (slot b p) (slot b stop)) as [E|E].
  { apply slot_inj in E; [|lia..]. subst p. rewrite Z.eqb_refl, Z.sub_diag. by case_match. }
  assert (p <> stop) by (intros ->; done).
  destruct (Z.eqb_spec p stop); [done|].
  destruct (decide (ts_tail b + p < ts_size b)).
  - rewrite get_value_ptr_ok by lia. simpl.
    replace (ts_tail b + p + 1) with (ts_tail b + (p + 1)) by lia. rewrite IH by lia.
    destruct (Z.leb_spec (ts_tail b + stop) (ts_size b)); simpl.
    + f_equal. rewrite (seqZ_cons _ (stop - p)) by lia. do 2 f_equal; lia.
    + destruct (Z.eqb_spec (p + 1) stop); [lia|]. done.
  - destruct (Z.leb_spec (ts_tail b + stop) (ts_size b)); [lia|].
    unfold glb_tsbuff_get_value_ptr, glb_tsbuff_get_size.
    destruct (Z.ltb_spec (ts_tail b + p) 0), (Z.leb_spec (ts_size b) (ts_tail b + p)); simpl; try done; lia.
Qed.

#[local] Arguments free_loop : simpl never.
#[local] Arguments copy_loop : simpl never.

(** Index of the first value that [tsbuff_downsize] keeps. *)
Lemma downsize_first b n :
  ts_wf b -> 0 < n < ts_size b -> n <= ts_count b ->
  BUFF_IDX b (ts_head b - n + 1) = slot b (ts_count b - n) /\
  BUFF_IDX b (ts_head b + 1) = slot b (ts_count b).
Proof.
  intros W Hn Hc. destruct (wf_live _ W) as [Ht Hh]; [lia|]. rewrite Hh.
  pose proof (slot_range b (ts_count b - 1)).
  replace (slot b (ts_count b - 1) - n + 1) with (slot b (ts_count b - 1) + (1 - n)) by lia.
  rewrite !BUFF_IDX_slot by lia. split; f_equal; lia.
Qed.

(** With at least [new_size] elements the newest ones are kept; the loop that
    frees the others succeeds when they do not wrap around. *)
Lemma downsize_ok b n val_free uninit :
  ts_wf b -> 0 < n < ts_size b -> n <= ts_count b -> zlen uninit = n ->
  val_free = false \/ ts_tail b + (ts_count b - n) <= ts_size b ->
  exists b', tsbuff_downsize b n true val_free uninit =
      Ret (n, b', if val_free then seqZ (ts_tail b) (ts_count b - n) else []) /\
    ts_wf b' /\ contents b' = drop (Z.to_nat (ts_count b - n)) (contents b) /\ ts_size b' = n.
Proof.
  intros W Hn Hc Hu Hf. pose proof (wf_count _ W). unfold tsbuff_downsize. simpl.
  destruct (downsize_first b n W Hn Hc) as [-> ->].
  assert ((if val_free then free_loop (S (Z.to_nat (ts_size b))) b (ts_tail b) (slot b (ts_count b - n)) else Ret [])
    = Ret (if val_free then seqZ (ts_tail b) (ts_count b - n) else [])) as ->.
  { destruct val_free; [|done]. destruct Hf as [?|?]; [done|].
    rewrite <- (Z.add_0_r (ts_tail b)) at 1. rewrite free_loop_ok by (auto; lia).
    destruct (Z.leb_spec (ts_tail b + (ts_count b - n)) (ts_size b)); [|lia].
    do 2 f_equal; lia. }
  simpl. rewrite (copy_loop_ok _ b n) by (auto; lia). simpl.
  set (kept := drop _ _).
  assert (Lk : length kept = Z.to_nat n). { unfold kept. rewrite length_drop, contents_length. lia. }
  assert (Zk : zlen kept = n) by (unfold zlen; lia). rewrite Zk.
  eexists; split; [reflexivity|]. set (b' := TsBuff _ _ _ _ _ _).
  assert (Hs : forall p, 0 <= p < n -> slot b' p = p).
  { intros p ?. rewrite slot_wrap by (simpl; lia). simpl. case_match; unbool; lia. }
  assert (W' : ts_wf b').
  { split; simpl; try lia.
    - unfold zlen in *. rewrite length_app, length_drop. lia.
    - intros _. split; [lia|]. rewrite Hs; lia. }
  split_and!; [done| |done]. apply contents_ext; [done|done|]. simpl. intros p Hp.
  rewrite (Hs p Hp). unfold zget. destruct (Z.ltb_spec p 0); [lia|]. apply lookup_app_l. lia.
Qed.

(** ** Order of the times *)

Lemma ts_sorted_tail (l : list item) : ts_sorted l -> ts_sorted (tail l).
Proof.
  intros S i j x y Hij Hx Hy. destruct l as [|z l]; [done|].
  apply (S (Datatypes.S i) (Datatypes.S j)); [lia|done..].
Qed.

Lemma ts_sorted_drop n (l : list item) : ts_sorted l -> ts_sorted (drop n l).
Proof. intros S i j x y Hij. rewrite !lookup_drop. apply S. lia. Qed.

Lemma ts_sorted_snoc (l : list item) x :
  ts_sorted l -> (forall y, last l = Some y -> time y <= time x) -> ts_sorted (l ++ [x]).
Proof.
  intros S Hl i j y z Hij Hy Hz.
  apply lookup_app_Some in Hy as [Hy|[Hi Hy]]; apply lookup_app_Some in Hz as [Hz|[Hj Hz]].
  - by apply (S i j).
  - apply list_lookup_singleton_Some in Hz as [? <-].
    pose proof (lookup_lt_Some _ _ _ Hy).
    destruct (last l) as [w|] eqn:E; [|by apply last_None in E; subst; simpl in *; lia].
    etransitivity; [|by apply Hl]. rewrite last_lookup in E. eapply (S i); [|done..]. lia.
  - apply lookup_lt_Some in Hz. lia.
  - apply list_lookup_singleton_Some in Hy as [? <-].
    by apply list_lookup_singleton_Some in Hz as [? <-].
Qed.

Lemma ts_sorted_cons (l : list item) x :
  ts_sorted l -> (forall y, head l = Some y -> time x <= time y) -> ts_sorted (x :: l).
Proof.
  intros S Hl [|i] [|j] y z Hij Hy Hz; simpl in *; simplify_eq; try lia.
  - destruct l as [|w l]; [done|]. etransitivity; [by apply Hl|].
    by apply (S 0%nat j); [lia|..].
  - by apply (S i j); [lia|..].
Qed.

#[export] Instance head_refused_dec b t : Decision (head_refused b t).
Proof.
  unfold head_refused. destruct (last (contents b)) as [x|] eqn:E.
  - destruct (decide (time x <> ZBX_JAN_2038 /\ t < time x)) as [[? ?]|N].
    + left; eauto.
    + right. intros (y & [= <-] & ?). naive_solver.
  - right. intros (y & ? & _). done.
Defined.

#[export] Instance tail_refused_dec b t : Decision (tail_refused b t).
Proof.
  unfold tail_refused. destruct (contents b) as [|x l] eqn:E.
  - right. intros (y & l & ? & _). done.
  - destruct (decide (0 < time x < t)) as [?|N]; [left; eauto|].
    right. intros (y & l' & [= <- <-] & ?). done.
Defined.

End theory.

(** ** Properties *)

Section properties.
Context {V : Type} (zero : V).
#[local] Abbreviation buff := (tsbuff V).
Implicit Types b : buff.

(** [glb_tsbuff_add_to_head] on a buffer of more than one slot either
    refuses the value and leaves the buffer alone, exactly when the buffer is
    full or the value is older than the newest one (whose time is not the
    2038 marker), or appends it as the newest element; it keeps the buffer
    well-formed. *)
Theorem tsbuff_add_to_head_correct b t :
  ts_wf b -> 1 < ts_size b ->
  exists r b', glb_tsbuff_add_to_head b t = Ret (r, b') /\ ts_wf b' /\
    ((r = None /\ b' = b /\ (ts_count b = ts_size b \/ head_refused zero b t)) \/
     (r = Some (ts_head b') /\ ts_count b < ts_size b /\ ~ head_refused zero b t /\
      exists v, contents zero b' = contents zero b ++ [TsItem t v])).
Proof.
  intros W Hs. pose proof (wf_count _ W).
  destruct (decide (ts_count b = ts_size b \/ head_refused zero b t)) as [Hr|Hr].
  - exists None, b. rewrite (add_to_head_refused zero) by done. split_and!; auto.
  - destruct (add_to_head_added zero b t) as (b' & v & Ha & W' & Hc & _); [done|lia|tauto|].
    exists (Some (ts_head b')), b'. split_and!; [done..|right]. split_and!; [done|lia|tauto|eauto].
Qed.

(** [glb_tsbuff_add_to_tail] refuses exactly when the buffer is full or the
    value is newer than the (positive) oldest time, and otherwise puts the
    value before all others; it keeps the buffer well-formed. *)
Theorem tsbuff_add_to_tail_correct b t :
  ts_wf b ->
  exists r b', glb_tsbuff_add_to_tail b t = Ret (r, b') /\ ts_wf b' /\
    ((r = None /\ b' = b /\ (ts_count b = ts_size b \/ tail_refused zero b t)) \/
     (r = Some (ts_tail b') /\ ts_count b < ts_size b /\ ~ tail_refused zero b t /\
      exists v, contents zero b' = TsItem t v :: contents zero b)).
Proof.
  intros W. pose proof (wf_count _ W).
  destruct (decide (ts_count b = ts_size b \/ tail_refused zero b t)) as [Hr|Hr].
  - exists None, b. rewrite (add_to_tail_refused zero) by done. split_and!; auto.
  - destruct (add_to_tail_added zero b t) as (b' & v & Ha & W' & Hc & _); [done|lia|tauto|].
    exists (Some (ts_tail b')), b'. split_and!; [done..|right]. split_and!; [done|lia|tauto|eauto].
Qed.

(** On a well-formed buffer with times in order, the search
    [glb_tsbuff_find_time_idx] always terminates within its bounds; it fails
    exactly when the time is outside the stored range, and otherwise returns
    the index of a value with that time or of the newest value before it. *)
Theorem tsbuff_find_time_idx_correct b tm :
  ts_wf b -> ts_sorted (contents zero b) ->
  (glb_tsbuff_find_time_idx b tm = Ret FAIL /\
   (ts_count b = 0 \/ tm < time_at zero b 0 \/ time_at zero b (ts_count b - 1) < tm)) \/
  (exists p, glb_tsbuff_find_time_idx b tm = Ret (slot b p) /\ 0 <= p < ts_count b /\
     (time_at zero b p = tm \/
      (time_at zero b p < tm /\ forall q, p < q < ts_count b -> tm < time_at zero b q))).
Proof.
  intros W S. pose proof (wf_count _ W).
  destruct (decide (ts_count b = 0 \/ tm < time_at zero b 0 \/ time_at zero b (ts_count b - 1) < tm)).
  - left. split; [|done]. by apply (find_time_idx_outside zero).
  - right. destruct (find_time_idx_ok zero b tm) as (p & Hp & ? & Ha); [done|lia..|].
    exists p. split_and!; [done|lia..|]. apply at_or_before_sorted; [done|lia|done].
Qed.

(** [glb_tsbuff_check_has_enough_count_data_time] succeeds, for a time
    within the stored range, exactly when at least [need_count] (not zero)
    values are stored at or before the position found for that time. *)
Theorem tsbuff_enough_count_correct b need t :
  ts_wf b -> 0 < ts_count b -> 0 <= t ->
  time_at zero b 0 <= t <= time_at zero b (ts_count b - 1) ->
  exists p, 0 <= p < ts_count b /\ at_or_before zero b t p /\
    glb_tsbuff_check_has_enough_count_data_time b need t =
      Ret (if (need =? 0) || (p + 1 <? need) then FAIL else SUCCEED).
Proof.
  intros W Hc H0 Ht. destruct (find_time_idx_ok zero b t W Hc Ht) as (p & Hp & Hr & Ha).
  exists p. split_and!; [lia..|done|].
  destruct (contents_last zero b W Hc) as [x Hx]. destruct (contents_nonempty zero b W Hc) as (y & l & Hy).
  rewrite (time_at_last zero b x), (time_at_first zero b y l) in Ht by done.
  unfold glb_tsbuff_check_has_enough_count_data_time.
  rewrite (time_head_spec zero b x), (time_tail_spec zero b y l), Hp by done. simpl.
  destruct (Z.ltb_spec t 0), (Z.ltb_spec (time x) t), (Z.ltb_spec t (time y)); try lia. simpl.
  rewrite (enough_count_ok b need p W Hr). by destruct (need =? 0).
Qed.

(** [glb_tsbuff_resize] to a larger size keeps all values when the buffer
    is full (the only case in which the value cache grows it), empty, starts
    at the beginning of the array or wraps around; to a smaller size not above
    the number of values it keeps exactly the newest ones.  The buffer stays
    well-formed. *)
Theorem tsbuff_resize_correct b n uninit :
  ts_wf b -> 1 <= n <= GLB_TSBUFF_MAX_SZIE -> n <> ts_size b -> zlen uninit = n ->
  (ts_size b < n -> upsizable b \/ ts_count b = ts_size b) -> (n < ts_size b -> n <= ts_count b) ->
  exists b', glb_tsbuff_resize zero b n true false uninit = Ret (n, b', []) /\
    ts_wf b' /\ ts_size b' = n /\
    contents zero b' = (if n <? ts_size b then drop (Z.to_nat (ts_count b - n)) (contents zero b)
                        else contents zero b).
Proof.
  intros W Hn Hne Hu Hup Hdn. unfold glb_tsbuff_resize.
  destruct (Z.ltb_spec GLB_TSBUFF_MAX_SZIE n), (Z.ltb_spec n 1), (Z.eqb_spec n (ts_size b)); try lia. simpl.
  destruct (Z.ltb_spec n (ts_size b)).
  - destruct (downsize_ok zero b n false uninit) as (b' & -> & ? & ? & ?); [done|lia|lia|done|by left|].
    eauto.
  - destruct (upsize_ok zero b n) as (b' & -> & ? & ? & ?); [done|lia| |].
    + destruct Hup as [?|?]; [lia|done|]. by apply full_upsizable.
    + simpl. eauto.
Qed.

End properties.

(** ** Histories *)

(** The operations the value cache performs on a buffer: values are added at
    either end with times between 1 and the 2038 marker, the oldest value is
    dropped, a full buffer grows and a buffer shrinks to at most the number of
    its values.  A one-slot buffer receives a new head only when it is empty. *)
Inductive ts_step {V} (zero : V) : tsbuff V -> tsbuff V -> Prop :=
  | step_add_head b t r b' :
      1 < ts_size b \/ ts_count b = 0 -> 0 < t < ZBX_JAN_2038 ->
      glb_tsbuff_add_to_head b t = Ret (r, b') -> ts_step zero b b'
  | step_add_tail b t r b' :
      0 < t < ZBX_JAN_2038 -> glb_tsbuff_add_to_tail b t = Ret (r, b') -> ts_step zero b b'
  | step_free_tail b : ts_step zero b (glb_tsbuff_free_tail b).2
  | step_grow b n u r b' fr :
      ts_count b = ts_size b -> ts_size b < n -> zlen u = n ->
      glb_tsbuff_resize zero b n true false u = Ret (r, b', fr) -> ts_step zero b b'
  | step_shrink b n u r b' fr :
      n <= ts_count b -> n < ts_size b -> zlen u = n ->
      glb_tsbuff_resize zero b n true false u = Ret (r, b', fr) -> ts_step zero b b'.

Section histories.
Context {V : Type} (zero : V).
Implicit Types b : tsbuff V.

Definition in_range (x : ts_item V) : Prop := 0 < time x < ZBX_JAN_2038.

Record ts_inv b : Prop := {
  inv_wf : ts_wf b;
  inv_sorted : ts_sorted (contents zero b);
  inv_range : Forall in_range (contents zero b) }.

Lemma inv_add_head b t r b' :
  ts_inv b -> 1 < ts_size b \/ ts_count b = 0 -> 0 < t < ZBX_JAN_2038 ->
  glb_tsbuff_add_to_head b t = Ret (r, b') -> ts_inv b'.
Proof.
  intros [W S R] Hs Ht E. pose proof (wf_count _ W). pose proof (wf_size _ W).
  destruct (decide (ts_count b = ts_size b \/ head_refused zero b t)) as [Hr|Hr].
  { rewrite (add_to_head_refused zero) in E; [by simplify_eq|done| |done].
    destruct Hs as [?|Hs]; [done|]. destruct Hr as [?|(x & Hx & _)]; [lia|].
    by rewrite contents_nil in Hx. }
  destruct (add_to_head_added zero b t) as (b1 & v & E1 & W1 & C1 & _); [done|lia|tauto|].
  rewrite E1 in E. simplify_eq. split; [done| |]; rewrite C1.
  - apply ts_sorted_snoc; [done|]. intros y Hy. simpl. destruct (decide (time y <= t)); [done|].
    destruct Hr. right. exists y. split_and!; [done| |lia].
    rewrite last_lookup in Hy. eapply Forall_lookup_1 in R; [|exact Hy]. unfold in_range in R. lia.
  - apply Forall_app. split; [done|]. by constructor.
Qed.

Lemma inv_add_tail b t r b' :
  ts_inv b -> 0 < t < ZBX_JAN_2038 -> glb_tsbuff_add_to_tail b t = Ret (r, b') -> ts_inv b'.
Proof.
  intros [W S R] Ht E. pose proof (wf_count _ W).
  destruct (decide (ts_count b = ts_size b \/ tail_refused zero b t)) as [Hr|Hr].
  { rewrite (add_to_tail_refused zero) in E by done. by simplify_eq. }
  destruct (add_to_tail_added zero b t) as (b1 & v & E1 & W1 & C1 & _); [done|lia|tauto|].
  rewrite E1 in E. simplify_eq. split; [done| |]; rewrite C1.
  - apply ts_sorted_cons; [done|]. intros y Hy. simpl. destruct (decide (t <= time y)); [done|].
    destruct Hr. right. destruct (contents zero b) as [|z l] eqn:C; simplify_eq/=.
    exists y, l. split; [done|]. inversion R; subst. unfold in_range in *. lia.
  - by constructor.
Qed.

Lemma inv_free_tail b : ts_inv b -> ts_inv (glb_tsbuff_free_tail b).2.
Proof.
  intros [W S R]. destruct (free_tail_ok zero b W) as (W' & C & _).
  split; [done| |]; rewrite C; [by apply ts_sorted_tail|].
  destruct R; simpl; [constructor|done].
Qed.

Lemma inv_resize b n u r b' fr :
  ts_inv b -> zlen u = n -> (ts_size b < n /\ ts_count b = ts_size b) \/ (n < ts_size b /\ n <= ts_count b) ->
  glb_tsbuff_resize zero b n true false u = Ret (r, b', fr) -> ts_inv b'.
Proof.
  intros [W S R] Hu Hc E. unfold glb_tsbuff_resize in E.
  destruct ((GLB_TSBUFF_MAX_SZIE <? n) || (n <? 1) || (n =? ts_size b)) eqn:G; [by simplify_eq|].
  apply orb_false_iff in G as [[? ?]%orb_false_iff ?]. unbool.
  destruct (Z.ltb_spec n (ts_size b)).
  - destruct (downsize_ok zero b n false u) as (b1 & E1 & W1 & C1 & _); [done|lia|lia|done|by left|].
    rewrite E1 in E. simplify_eq. split; [done| |]; rewrite C1; [by apply ts_sorted_drop|by apply Forall_drop].
  - destruct Hc as [[? F]|?]; [|lia].
    destruct (upsize_ok zero b n W) as (b1 & E1 & W1 & C1 & _); [lia|by apply full_upsizable|].
    rewrite E1 in E. simplify_eq/=. by split; [done|rewrite C1..].
Qed.

Lemma inv_step b b' : ts_step zero b b' -> ts_inv b -> ts_inv b'.
Proof.
  intros [] I; eauto using inv_add_head, inv_add_tail, inv_free_tail, inv_resize.
Qed.

Lemma inv_init b0 size item_size b :
  0 < size < 2 ^ 31 -> glb_tsbuff_init zero b0 size item_size false true = Ret (SUCCEED, b) -> ts_inv b.
Proof.
  intros Hs E. unfold glb_tsbuff_init in E. destruct (Z.eqb_spec size 0); [lia|].
  simpl in E. destruct (item_size =? 0); simpl in E; [discriminate|]. injection E as <-.
  rewrite i32_small by lia. split.
  - split; simpl; try lia. apply zeroed_zlen; lia.
  - intros i j x y _. by rewrite contents_nil.
  - by rewrite contents_nil.
Qed.

(** From a freshly initialised buffer, every sequence of these operations
    keeps the buffer well-formed and its times in order. *)
Theorem tsbuff_history_invariant b0 size item_size b b' :
  0 < size < 2 ^ 31 -> glb_tsbuff_init zero b0 size item_size false true = Ret (SUCCEED, b) ->
  rtc (ts_step zero) b b' -> ts_wf b' /\ ts_sorted (contents zero b').
Proof.
  intros Hs E H. apply (inv_init _ _ _ _ Hs) in E.
  induction H as [|? ? ? Hstep _ IH]; [by destruct E|eauto using inv_step].
Qed.

(** In a buffer with a single, occupied slot [glb_tsbuff_add_to_head]
    overwrites the slot but still counts the value: the count exceeds the
    size, and the buffer no longer reports itself full. *)
Theorem tsbuff_single_slot_overflow b t :
  ts_wf b -> ts_size b = 1 -> ts_count b = 1 -> ~ head_refused zero b t ->
  exists b', glb_tsbuff_add_to_head b t = Ret (Some 0, b') /\
    ts_size b' = 1 /\ ts_count b' = 2 /\ glb_tsbuff_is_full b' = FAIL.
Proof.
  intros W Hs Hc Hr. destruct (contents_last zero b W) as [x Hx]; [lia|].
  destruct (wf_live _ W) as [Ht Hh]; [lia|]. assert (ts_tail b = 0) as Ht0 by lia.
  unfold glb_tsbuff_add_to_head, glb_tsbuff_get_count, glb_tsbuff_get_size.
  rewrite (time_head_spec zero b x) by done. rewrite Hc. simpl.
  destruct (negb (time x =? ZBX_JAN_2038) && (t <? time x)) eqn:E; simpl.
  { unbool. destruct Hr. exists x. auto. }
  assert (BUFF_IDX b (ts_head b + 1) = 0) as ->.
  { pose proof (BUFF_IDX_range b (ts_head b + 1)). pose proof (slot_range b (ts_count b - 1)). lia. }
  rewrite Ht0, Hs. simpl. rewrite get_value_ptr_ok by (simpl; lia). simpl.
  destruct (write_time_ok (set_head b 0) 0 t) as [v Hv]; [apply W|simpl; lia|]. rewrite Hv. simpl.
  rewrite Hc. simpl. eexists; split; [done|]. unfold glb_tsbuff_is_full. simpl. by rewrite Hs.
Qed.

(** Growing a buffer whose values neither start at the beginning of the
    array nor wrap around loses values: the copy takes the first [count]
    slots, so the newest value of the grown buffer is zeroed memory. *)
Theorem tsbuff_upsize_offset_loss b n :
  ts_wf b -> ts_size b < n -> 0 < ts_count b -> 0 < ts_tail b <= ts_head b ->
  exists b', tsbuff_upsize zero b n true = Ret (n, b') /\
    ts_count b' = ts_count b /\ glb_tsbuff_get_time_head b' = Ret 0.
Proof.
  intros W Hn Hc Ht. destruct (wf_live _ W Hc) as [Ht' Hh]. pose proof (wf_count _ W).
  pose proof (wf_data _ W). rewrite slot_wrap in Hh by lia.
  unfold tsbuff_upsize. simpl.
  destruct (Z.ltb_spec (-1) (ts_head b)), (Z.leb_spec (ts_tail b) (ts_head b)); try lia. simpl.
  eexists; split_and!; [done..|].
  unfold glb_tsbuff_get_time_head, glb_tsbuff_get_count. simpl.
  destruct (Z.eqb_spec (ts_count b) 0); [lia|].
  assert (ts_count b <= ts_head b < ts_size b) by (case_match; unbool; lia).
  rewrite get_value_ptr_ok by (simpl; lia). simpl. unfold deref. simpl.
  rewrite copy_items_zget_out; rewrite ?zeroed_zlen; try lia.
  unfold zget, zeroed. destruct (Z.ltb_spec (ts_head b) 0); [lia|].
  rewrite lookup_replicate_2 by lia. done.
Qed.

End histories.

(** ** Instances *)

(** Three slots, values of times 20 and 30 stored around the end of the array. *)
Definition ex_buff : tsbuff Z := TsBuff 3 2 16 [TsItem 30 0; TsItem 0 0; TsItem 20 0] 0 2.

(** The same with a third value: a full buffer. *)
Definition ex_full : tsbuff Z := TsBuff 3 3 16 [TsItem 30 0; TsItem 40 0; TsItem 20 0] 1 2.

Lemma ex_buff_wf : ts_wf ex_buff.
Proof. split; done. Qed.

Lemma ex_full_wf : ts_wf ex_full.
Proof. split; done. Qed.

Lemma ex_buff_sorted : ts_sorted (contents 0 ex_buff).
Proof.
  change (contents 0 ex_buff) with [TsItem 20 0; TsItem 30 0].
  intros [|[|i]] [|[|j]] x y Hij Hx Hy; simpl in *; simplify_eq; simpl; lia.
Qed.

Lemma tsbuff_add_to_head_witness :
  exists r b', glb_tsbuff_add_to_head ex_buff 40 = Ret (r, b') /\ ts_wf b' /\ r <> None.
Proof.
  destruct (tsbuff_add_to_head_correct 0 ex_buff 40 ex_buff_wf eq_refl) as (r & b' & E & W & D).
  exists r, b'. split_and!; [exact E|exact W|]. intros ->. vm_compute in E. discriminate E.
Defined.

Lemma tsbuff_add_to_tail_witness :
  exists r b', glb_tsbuff_add_to_tail ex_buff 10 = Ret (r, b') /\ ts_wf b' /\ r <> None.
Proof.
  destruct (tsbuff_add_to_tail_correct 0 ex_buff 10 ex_buff_wf) as (r & b' & E & W & D).
  exists r, b'. split_and!; [exact E|exact W|]. intros ->. vm_compute in E. discriminate E.
Defined.

Lemma tsbuff_find_time_idx_witness : exists p, glb_tsbuff_find_time_idx ex_buff 25 = Ret (slot ex_buff p).
Proof.
  destruct (tsbuff_find_time_idx_correct 0 ex_buff 25 ex_buff_wf ex_buff_sorted) as [[E _]|(p & E & _)].
  - vm_compute in E. discriminate E.
  - exists p. exact E.
Defined.

Lemma tsbuff_enough_count_witness :
  exists p, 0 <= p < 2 /\ at_or_before 0 ex_buff 25 p /\
    glb_tsbuff_check_has_enough_count_data_time ex_buff 1 25 =
      Ret (if (1 =? 0) || (p + 1 <? 1) then FAIL else SUCCEED).
Proof. apply (tsbuff_enough_count_correct 0 ex_buff 1 25 ex_buff_wf); vm_compute; try split; congruence. Defined.

Lemma tsbuff_resize_witness :
  exists b', glb_tsbuff_resize 0 ex_full 4 true false (replicate 4 (TsItem 0 0)) = Ret (4, b', []) /\
    ts_wf b' /\ ts_size b' = 4 /\ contents 0 b' = [TsItem 20 0; TsItem 30 0; TsItem 40 0].
Proof.
  apply (tsbuff_resize_correct 0 ex_full 4 (replicate 4 (TsItem 0 0)) ex_full_wf).
  - unfold GLB_TSBUFF_MAX_SZIE. lia.
  - simpl. lia.
  - reflexivity.
  - intros _. right. reflexivity.
  - simpl. lia.
Defined.

Definition ex_init : tsbuff Z := TsBuff 3 0 16 (replicate 3 (TsItem 0 0)) (-1) (-1).

Lemma tsbuff_history_witness :
  exists b', rtc (ts_step 0) ex_init b' /\ ts_wf b' /\ ts_sorted (contents 0 b').
Proof.
  destruct (glb_tsbuff_add_to_head ex_init 7) as [[r b']|] eqn:E; [|vm_compute in E; discriminate E].
  assert (H : rtc (ts_step 0) ex_init b').
  { apply rtc_once. apply (step_add_head 0 ex_init 7 r b'); [left; simpl; lia|unfold ZBX_JAN_2038; lia|exact E]. }
  exists b'. split; [exact H|].
  apply (tsbuff_history_invariant 0 ex_init 3 16 ex_init b'); [lia|reflexivity|exact H].
Defined.

Lemma tsbuff_single_slot_witness :
  exists b', glb_tsbuff_add_to_head (TsBuff 1 1 16 [TsItem 5 0] 0 0) 6 = Ret (Some 0, b') /\
    ts_size b' = 1 /\ ts_count b' = 2 /\ glb_tsbuff_is_full b' = FAIL.
Proof.
  apply (tsbuff_single_slot_overflow 0 (TsBuff 1 1 16 [TsItem 5 0] 0 0) 6); try reflexivity.
  - split; done.
  - intros (x & Hx & _ & Hl). vm_compute in Hx. injection Hx as <-. simpl in Hl. lia.
Defined.

Lemma tsbuff_upsize_offset_witness :
  exists b', tsbuff_upsize 0 (TsBuff 3 2 16 [TsItem 0 0; TsItem 5 0; TsItem 6 0] 2 1) 4 true = Ret (4, b') /\
    ts_count b' = 2 /\ glb_tsbuff_get_time_head b' = Ret 0.
Proof.
  apply (tsbuff_upsize_offset_loss 0 (TsBuff 3 2 16 [TsItem 0 0; TsItem 5 0; TsItem 6 0] 2 1) 4);
    [split; done|simpl; lia..].
Defined.
