(* ===== verification/Algodefs.v ===== *)
(** * Numeric helpers of the algorithm library (src/libs/zbxalgo/algodefs.c)

    Prime search for table sizes, the integer square root, the hash functions
    and the comparison functions of the containers.  Values of type [int] in
    [is_prime] stay below [46340^2], where [i * i] does not overflow. *)
From stdpp Require Import prelude list.
From Stdlib Require Import ZArith Znumtheory Lia.
From S2P Require Import Prelude.
#[local] Open Scope Z_scope.

(** ** Primes *)

(** [for (i = 3; i * i <= n; i += 2) if (n % i == 0) return 0; return 1;] *)
Fixpoint is_prime_loop (fuel : nat) (n i : Z) : Z :=
  match fuel with
  | O => 1
  | S fuel =>
      if i * i <=? n then
        if Z.rem n i =? 0 then 0 else is_prime_loop fuel n (i + 2)
      else 1
  end.

Definition is_prime (n : Z) : Z :=
  if n <=? 1 then 0
  else if n =? 2 then 1
  else if Z.rem n 2 =? 0 then 0
  else is_prime_loop (Z.to_nat (Z.sqrt n)) n 3.

(** [while (!is_prime(n)) n++;], at most [fuel] times; [inr] when the loop
    has not ended by then. *)
Fixpoint next_prime_loop (fuel : positive) (n : Z) : Z + Z :=
  match fuel with
  | xH => if is_prime n =? 0 then inr (n + 1) else inl n
  | xO p => match next_prime_loop p n with
            | inl r => inl r
            | inr n => next_prime_loop p n
            end
  | xI p => if is_prime n =? 0 then
              match next_prime_loop p (n + 1) with
              | inl r => inl r
              | inr n => next_prime_loop p n
              end
            else inl n
  end.

(** Every number below it divides [zfact]. *)
Fixpoint zfact (n : nat) : Z :=
  match n with O => 1 | S m => Z.of_nat n * zfact m end.

Definition next_prime (n : Z) : Z :=
  match next_prime_loop (Z.to_pos (zfact (Z.to_nat n) + 2 + Z.abs n)) n with
  | inl r => r
  | inr r => r
  end.

(** ** Square root *)

Fixpoint isqrt32_loop (k : nat) (value remainder result : Z) : Z :=
  match k with
  | O => result
  | S k =>
      let result := u32 (Z.shiftl result 1) in
      let remainder := u32 (u32 (Z.shiftl remainder 2) + Z.shiftr value 30) in
      let value := u32 (Z.shiftl value 2) in
      let p := Z.lor (u32 (Z.shiftl result 1)) 1 in
      if p <=? remainder then isqrt32_loop k value (u32 (remainder - p)) (Z.lor result 1)
      else isqrt32_loop k value remainder result
  end.

Definition zbx_isqrt32 (value : Z) : Z := isqrt32_loop 16 value 0 0.

(** ** Hash functions; [zbx_hash_t] is 32 bits wide *)

Definition zbx_hash_modfnv (data : list Z) (seed : Z) : Z :=
  let hash := Z.lxor 2166136261 seed in
  let hash := fold_left (fun h c => u32 (Z.lxor h c * 16777619)) data hash in
  let hash := u32 (hash + u32 (Z.shiftl hash 13)) in
  let hash := Z.lxor hash (Z.shiftr hash 7) in
  let hash := u32 (hash + u32 (Z.shiftl hash 3)) in
  let hash := Z.lxor hash (Z.shiftr hash 17) in
  u32 (hash + u32 (Z.shiftl hash 5)).

Definition zbx_hash_splittable64 (value : Z) : Z :=
  let value := Z.lxor value (Z.shiftr value 30) in
  let value := u64 (value * 0xbf58476d1ce4e5b9) in
  let value := Z.lxor value (Z.shiftr value 27) in
  let value := u64 (value * 0x94d049bb133111eb) in
  let value := Z.lxor value (Z.shiftr value 31) in
  u32 (Z.lxor (u32 value) (Z.shiftr value 32)).

(** ** Comparison functions *)

Definition zbx_default_int_compare_func (d1 d2 : Z) : Z := cmp d1 d2.
Definition zbx_default_uint64_compare_func (d1 d2 : Z) : Z := cmp d1 d2.

Definition zbx_default_uint64_pair_compare_func (p1 p2 : Z * Z) : Z :=
  if p1.1 <? p2.1 then -1 else if p1.1 >? p2.1 then 1
  else if p1.2 <? p2.2 then -1 else if p1.2 >? p2.2 then 1 else 0.

(** ** Theory *)

Lemma is_prime_loop_spec fuel n i :
  3 <= i -> Z.odd i = true -> Z.sqrt n < i + 2 * Z.of_nat fuel ->
  is_prime_loop fuel n i = 0 <-> exists d, i <= d /\ Z.odd d = true /\ d * d <= n /\ (d | n).
Proof.
  revert i. induction fuel as [|fuel IH]; intros i Hi Ho Hf; simpl.
  - split; [done|]. intros (d & ? & _ & Hd & _).
    pose proof (Z.sqrt_le_square n d). assert (0 <= n) by nia. lia.
  - destruct (Z.leb_spec (i * i) n) as [Hle|Hgt].
    + destruct (Z.eqb_spec (Z.rem n i) 0) as [E|E].
      * split; [|done]. intros _. exists i. split_and!; [lia|done|done|].
        apply Z.rem_divide; lia.
      * rewrite IH; [|lia|by rewrite Z.odd_add, Ho|lia]. split.
        -- intros (d & ? & ?). exists d. split; [lia|done].
        -- intros (d & Hd & Hod & Hdd & Hdiv). exists d. split_and!; [|done..].
           destruct (decide (d = i)) as [->|]; [by apply Z.rem_divide in Hdiv; lia|].
           assert (d <> i + 1); [|lia]. intros ->. by rewrite Z.odd_add, Ho in Hod.
    + split; [done|]. intros (d & ? & _ & ? & _). nia.
Qed.

(** A number above 1 with no divisor up to its root is prime. *)
Lemma prime_sqrt n :
  1 < n -> (forall d, 1 < d -> d * d <= n -> ~ (d | n)) -> prime n.
Proof.
  intros Hn H. apply prime_alt. split; [done|]. intros d Hd Hdiv.
  destruct (Hdiv) as [q Hq]. destruct (decide (d * d <= n)) as [|Hgt].
  - by apply (H d); [lia|..].
  - apply (H q); [nia|nia|]. exists d. lia.
Qed.

Lemma is_prime_correct_aux n : is_prime n <> 0 <-> prime n.
Proof.
  unfold is_prime. destruct (Z.leb_spec n 1) as [H1|H1].
  { split; [done|]. intros [? _]%prime_alt. lia. }
  destruct (Z.eqb_spec n 2) as [->|H2]. { split; [|done]. intros _. apply prime_alt; split; [done|]. intros d ? [q ?]; nia. }
  destruct (Z.eqb_spec (Z.rem n 2) 0) as [E|E].
  { split; [done|]. intros [_ P]%prime_alt. exfalso. apply (P 2); [lia|]. by apply Z.rem_divide. }
  assert (Ho : Z.odd n = true).
  { rewrite <- Z.negb_even. apply negb_true_iff. destruct (Z.even n) eqn:Ev; [|done].
    apply Z.even_spec in Ev as [k ->]. rewrite Z.mul_comm, Z.rem_mul in E; lia. }
  assert (Z.sqrt n < 3 + 2 * Z.of_nat (Z.to_nat (Z.sqrt n))) by (pose proof (Z.sqrt_nonneg n); lia).
  split.
  - intros Hl. apply prime_sqrt; [lia|]. intros d Hd Hdd Hdiv. apply Hl.
    apply is_prime_loop_spec; [lia|done|done|]. exists d.
    assert (Hod : Z.odd d = true). { destruct Hdiv as [q ->]. rewrite Z.odd_mul in Ho. by destruct (Z.odd q), (Z.odd d). }
    split_and!; [|done..]. destruct (decide (d = 2)) as [->|]; [done|lia].
  - intros [_ P]%prime_alt Hl. apply is_prime_loop_spec in Hl as (d & ? & _ & ? & ?); [|lia|done|done].
    apply (P d); [nia|done].
Qed.

Lemma next_prime_loop_spec fuel n :
  match next_prime_loop fuel n with
  | inl r => n <= r /\ prime r /\ forall k, n <= k < r -> ~ prime k
  | inr m => m = n + Z.pos fuel /\ forall k, n <= k < m -> ~ prime k
  end.
Proof.
  assert (step : forall n, if is_prime n =? 0 then ~ prime n else prime n).
  { intros m. pose proof (is_prime_correct_aux m).
    destruct (Z.eqb_spec (is_prime m) 0); naive_solver. }
  assert (ext : forall n m k : Z, (forall j, n <= j < m -> ~ prime j) -> (forall j, m <= j < k -> ~ prime j) ->
    forall j, n <= j < k -> ~ prime j).
  { intros a m k H1 H2 j Hj. destruct (decide (j < m)); [apply H1|apply H2]; lia. }
  revert n. induction fuel as [p IH|p IH|]; intros n; simpl.
  - specialize (step n). destruct (is_prime n =? 0).
    + assert (H0 : forall j, n <= j < n + 1 -> ~ prime j) by (intros j ?; by replace j with n by lia).
      pose proof (IH (n + 1)) as H1. destruct (next_prime_loop p (n + 1)) as [r|m].
      * destruct H1 as (? & ? & ?). split_and!; [lia|done|by eapply ext].
      * destruct H1 as [-> H1]. pose proof (IH (n + 1 + Z.pos p)) as H2.
        destruct (next_prime_loop p (n + 1 + Z.pos p)) as [r|m].
        -- destruct H2 as (? & ? & ?). split_and!; [lia|done|]. eapply ext; [exact H0|by eapply ext].
        -- destruct H2 as [-> ?]. split; [lia|]. eapply ext; [exact H0|by eapply ext].
    + split_and!; [lia|done|]. intros; lia.
  - pose proof (IH n) as H1. destruct (next_prime_loop p n) as [r|m]; [done|].
    destruct H1 as [-> H1]. pose proof (IH (n + Z.pos p)) as H2.
    destruct (next_prime_loop p (n + Z.pos p)) as [r|m].
    + destruct H2 as (? & ? & ?). split_and!; [lia|done|by eapply ext].
    + destruct H2 as [-> ?]. split; [lia|by eapply ext].
  - specialize (step n). destruct (is_prime n =? 0).
    + split; [done|]. intros k ?. by replace k with n by lia.
    + split_and!; [lia|done|]. intros; lia.
Qed.

Lemma zfact_divide n d : 1 <= d <= Z.of_nat n -> (d | zfact n).
Proof.
  induction n as [|n IH]; intros Hd; [lia|]. cbn [zfact].
  destruct (decide (d = Z.of_nat (S n))) as [->|]; [apply Z.divide_factor_l|].
  apply Z.divide_mul_r, IH. lia.
Qed.

Lemma zfact_pos n : 0 < zfact n.
Proof. induction n as [|n IH]; [done|]. cbn [zfact]. lia. Qed.

Lemma prime_divisor n : 1 < n -> exists p, prime p /\ (p | n).
Proof.
  induction (Z.lt_wf 0 n) as [n _ IH]. intros Hn.
  destruct (prime_dec n) as [P|P]; [exists n; auto using Z.divide_refl|].
  destruct (not_prime_divide n Hn P) as (d & Hd & Hdiv).
  destruct (IH d) as (p & ? & ?); [lia..|]. exists p. split; [done|]. by etransitivity.
Qed.

(** Euclid: some prime lies between [n] and [n! + 1]. *)
Lemma prime_above n : exists p, prime p /\ n <= p <= zfact (Z.to_nat n) + 1.
Proof.
  set (f := zfact (Z.to_nat n)). assert (0 < f) by apply zfact_pos.
  destruct (prime_divisor (f + 1)) as (p & Hp & Hd); [lia|].
  exists p. split; [done|]. split.
  - destruct (decide (n <= p)) as [|Hlt]; [done|]. exfalso.
    assert (1 < p) by (by destruct Hp).
    assert (p | f) by (apply zfact_divide; lia).
    assert (p | 1) as Hp1 by (replace 1 with (f + 1 - f) by lia; by apply Z.divide_sub_r).
    apply Z.divide_1_r_nonneg in Hp1; lia.
  - apply Z.divide_pos_le in Hd; lia.
Qed.

Lemma next_prime_spec n :
  n <= next_prime n /\ prime (next_prime n) /\ forall k, n <= k < next_prime n -> ~ prime k.
Proof.
  unfold next_prime. pose proof (zfact_pos (Z.to_nat n)) as Hf.
  set (fuel := Z.to_pos _). pose proof (next_prime_loop_spec fuel n) as H.
  destruct (next_prime_loop fuel n) as [r|m]; [done|]. destruct H as [-> H].
  destruct (prime_above n) as (p & Hp & ?). exfalso. apply (H p); [|done].
  unfold fuel. rewrite Z2Pos.id by lia. lia.
Qed.

Lemma next_prime_pos n : 1 < next_prime n.
Proof. destruct (next_prime_spec n) as (_ & [? _]%prime_alt & _). done. Qed.

Lemma next_prime_ge n : n <= next_prime n.
Proof. apply next_prime_spec. Qed.

(** ** Integer square root *)

Lemma lor_1_even x : 0 <= x -> Z.lor (2 * x) 1 = 2 * x + 1.
Proof. intros; by destruct x. Qed.

(** With [k] digits of base 4 to go, [result] is the root of the digits read
    so far ([a]) and [remainder] what is left of them; [value] holds the
    remaining digits ([r]) at the top of the word. *)
Lemma isqrt32_loop_spec k i a r rem res :
  Z.of_nat k + i = 16 -> 0 <= i -> 0 <= r < 4 ^ Z.of_nat k ->
  0 <= res -> a = res * res + rem -> 0 <= rem <= 2 * res -> a < 4 ^ i ->
  isqrt32_loop k (r * 4 ^ i) rem res = Z.sqrt (a * 4 ^ Z.of_nat k + r).
Proof.
  revert i a r rem res. induction k as [|k IH]; intros i a r rem res Hk Hi Hr Hres Ha Hrem Hlt.
  { simpl. apply eq_sym, Z.sqrt_unique. change (4 ^ Z.of_nat 0) with 1 in *. lia. }
  cbn [isqrt32_loop]. set (m := 4 ^ Z.of_nat k) in *.
  assert (Hm : 4 ^ Z.of_nat (S k) = 4 * m).
  { rewrite Nat2Z.inj_succ, Z.pow_succ_r by lia. done. }
  rewrite Hm in *. assert (0 < m) by (apply Z.pow_pos_nonneg; lia).
  assert (E30 : m * 4 ^ i = 2 ^ 30).
  { unfold m. rewrite <- Z.pow_add_r by lia. replace (Z.of_nat k + i) with 15 by lia. done. }
  assert (0 < 4 ^ i) by (apply Z.pow_pos_nonneg; lia).
  set (d := r / m). set (r' := r mod m).
  assert (Hrd : r = d * m + r'). { unfold d, r'. rewrite (Z.mul_comm _ m). apply Z.div_mod; lia. }
  assert (0 <= r' < m) by (apply Z.mod_pos_bound; lia).
  assert (0 <= d < 4). { split; [apply Z.div_pos; lia|apply Z.div_lt_upper_bound; lia]. }
  assert (Hi16 : 4 ^ i <= 4 ^ 15) by (apply Z.pow_le_mono_r; lia).
  assert (res < 2 ^ 16) by (change (4 ^ 15) with (2 ^ 30) in *; nia).
  rewrite !Z.shiftl_mul_pow2, Z.shiftr_div_pow2 by lia. change (2 ^ 1) with 2. change (2 ^ 2) with 4.
  assert (r * 4 ^ i / 2 ^ 30 = d) as ->.
  { rewrite <- E30. unfold d. apply Z.div_mul_cancel_r; lia. }
  assert (u32 (r * 4 ^ i * 4) = r' * 4 ^ (i + 1)) as ->.
  { rewrite Z.pow_add_r by lia. unfold u32. rewrite Hrd.
    replace ((d * m + r') * 4 ^ i * 4) with (r' * (4 ^ i * 4 ^ 1) + d * 2 ^ 32).
    - rewrite Z.mod_add by lia. apply Z.mod_small. change (2 ^ 32) with (2 ^ 30 * 4). rewrite <- E30. nia.
    - change (2 ^ 32) with (2 ^ 30 * 4). rewrite <- E30. change (4 ^ 1) with 4. ring. }
  assert (rem < 2 ^ 18) by lia.
  rewrite (u32_small (rem * 4)), (u32_small (rem * 4 + d)), (u32_small (res * 2)), (u32_small (res * 2 * 2)) by lia.
  replace (res * 2 * 2) with (2 * (2 * res)) by ring. rewrite lor_1_even by lia.
  replace (res * 2) with (2 * res) by ring.
  assert (Hpow : 4 ^ (i + 1) = 4 * 4 ^ i) by (rewrite Z.pow_add_r by lia; lia).
  replace (a * (4 * m) + r) with ((4 * a + d) * m + r') by (rewrite Hrd; ring).
  destruct (Z.leb_spec (2 * (2 * res) + 1) (rem * 4 + d)).
  - rewrite u32_small, lor_1_even by lia. apply IH; nia.
  - apply IH; nia.
Qed.

(** ** Hash values fit the type *)

Lemma splittable64_range v : 0 <= zbx_hash_splittable64 v < 2 ^ 32.
Proof. apply u32_range. Qed.

Lemma modfnv_range d seed : 0 <= zbx_hash_modfnv d seed < 2 ^ 32.
Proof. apply u32_range. Qed.

(** ** Comparison functions decide a total order *)

Lemma pair_compare_lex p1 p2 :
  zbx_default_uint64_pair_compare_func p1 p2 = 0 <-> p1 = p2.
Proof.
  destruct p1, p2. unfold zbx_default_uint64_pair_compare_func. simpl.
  repeat case_match; unbool; (split; [intros ?|intros [= -> ->]]); first [lia|done|f_equal; lia].
Qed.

(** ** Properties *)

(** [next_prime n] terminates and returns the smallest prime not below
    [n]; [is_prime] decides primality. *)
Theorem next_prime_smallest n :
  n <= next_prime n /\ is_prime (next_prime n) <> 0 /\
  (forall k, n <= k < next_prime n -> is_prime k = 0) /\
  (forall k, is_prime k <> 0 <-> prime k).
Proof.
  destruct (next_prime_spec n) as (? & ? & H). split_and!; [done| | |apply is_prime_correct_aux].
  - by apply is_prime_correct_aux.
  - intros k Hk. destruct (decide (is_prime k = 0)) as [|N]; [done|].
    by apply is_prime_correct_aux, H in N.
Qed.

(** [zbx_isqrt32] computes the integer part of the square root of every
    32-bit value. *)
Theorem isqrt32_correct v :
  0 <= v < 2 ^ 32 -> zbx_isqrt32 v = Z.sqrt v.
Proof.
  intros Hv. unfold zbx_isqrt32. pose proof (isqrt32_loop_spec 16 0 0 v 0 0) as H.
  rewrite Z.mul_1_r in H. apply H; lia.
Qed.

Lemma isqrt32_witness : zbx_isqrt32 4294967295 = 65535.
Proof. rewrite isqrt32_correct by lia. reflexivity. Defined.
