(* ===== verification/Int128.v ===== *)
(** * 128-bit unsigned integers (src/libs/zbxalgo/int128.c)

    A number is a pair of 64-bit words.  The arithmetic on a word is written
    out modulo 2^64; [value] is the number a pair stands for. *)
From stdpp Require Import prelude.
From Stdlib Require Import ZArith Lia.
From S2P Require Import Prelude.
#[local] Open Scope Z_scope.

Record uint128 := U128 { hi : Z; lo : Z }.

Definition UINT64_BIT_COUNT : Z := 64.
Definition UINT32_BIT_COUNT : Z := 32.
Definition UINT32_BIT_MASK : Z := 0xffffffff.

Definition udec128_128 (base value : uint128) : uint128 :=
  let l := u64 (lo base - lo value) in
  let h := if lo base <? l then u64 (hi base - 1) else hi base in
  U128 (u64 (h - hi value)) l.

Definition ushiftr128 (base : uint128) (bits : Z) : uint128 :=
  if 0 =? bits then base
  else if UINT64_BIT_COUNT <=? bits then U128 0 (Z.shiftr (hi base) (bits - UINT64_BIT_COUNT))
  else U128 (Z.shiftr (hi base) bits)
         (Z.lor (Z.shiftr (lo base) bits) (u64 (Z.shiftl (hi base) (UINT64_BIT_COUNT - bits)))).

Definition ushiftl128 (base : uint128) (bits : Z) : uint128 :=
  if 0 =? bits then base
  else if UINT64_BIT_COUNT <=? bits then U128 (u64 (Z.shiftl (lo base) (bits - UINT64_BIT_COUNT))) 0
  else U128 (Z.lor (u64 (Z.shiftl (hi base) bits)) (Z.shiftr (lo base) (UINT64_BIT_COUNT - bits)))
         (u64 (Z.shiftl (lo base) bits)).

Definition ucmp128_128 (value1 value2 : uint128) : Z :=
  if negb (hi value1 =? hi value2) then if hi value1 <? hi value2 then -1 else 1
  else if lo value1 =? lo value2 then 0
  else if lo value1 <? lo value2 then -1 else 1.

Definition zbx_uinc128_64 (base : uint128) (value : Z) : uint128 :=
  let l := u64 (lo base + value) in
  U128 (if lo base >? l then u64 (hi base + 1) else hi base) l.

Definition zbx_uinc128_128 (base value : uint128) : uint128 :=
  let l := u64 (lo base + lo value) in
  let h := if lo base >? l then u64 (hi base + 1) else hi base in
  U128 (u64 (h + hi value)) l.

Definition umul64_32_shift (base : uint128) (value factor shift : Z) : uint128 :=
  let buffer := U128 0 (u64 (Z.land value UINT32_BIT_MASK * factor)) in
  let base := zbx_uinc128_128 base (ushiftl128 buffer shift) in
  let buffer := U128 0 (u64 (Z.shiftr value UINT32_BIT_COUNT * factor)) in
  zbx_uinc128_128 base (ushiftl128 buffer (UINT32_BIT_COUNT + shift)).

Definition zbx_umul64_64 (value factor : Z) : uint128 :=
  let result := U128 0 0 in
  let result := umul64_32_shift result value (Z.land factor UINT32_BIT_MASK) 0 in
  umul64_32_shift result value (Z.shiftr factor UINT32_BIT_COUNT) UINT32_BIT_COUNT.

(** [while (ucmp128_128(&reminder, &divisor) < 0)] *)
Fixpoint align (fuel : nat) (reminder divisor : uint128) (result_mask : Z) : res (uint128 * Z) :=
  match fuel with
  | O => Halt OutOfFuel
  | S fuel =>
      if ucmp128_128 reminder divisor <? 0
      then align fuel reminder (ushiftr128 divisor 1) (Z.shiftr result_mask 1)
      else Ret (divisor, result_mask)
  end.

(** [while (reminder.hi)].  The mask has 64 bits to move over, and moves in
    each round but the first: 65 rounds with 65 steps are enough. *)
Fixpoint div_loop (fuel : nat) (reminder divisor : uint128) (result_mask result_lo : Z) : res (uint128 * Z) :=
  match fuel with
  | O => Halt OutOfFuel
  | S fuel =>
      if hi reminder =? 0 then Ret (reminder, result_lo)
      else
        '(divisor, result_mask) ← align 65 reminder divisor result_mask;
        div_loop fuel (udec128_128 reminder divisor) divisor result_mask (Z.lor result_lo result_mask)
  end.

(** [a / b] on unsigned words. *)
Definition udiv (a b : Z) : res Z := if b =? 0 then Halt DivByZero else Ret (a / b).

Definition zbx_udiv128_64 (dividend : uint128) (value : Z) : res uint128 :=
  let result_mask := Z.shiftl 1 (UINT64_BIT_COUNT - 1) in
  if 0 =? hi dividend then q ← udiv (lo dividend) value; Ret (U128 0 q)
  else
    '(result_hi, reminder_hi) ←
      (if hi dividend >=? value then
         q ← udiv (hi dividend) value; Ret (q, u64 (hi dividend - u64 (q * value)))
       else Ret (0, hi dividend));
    let divisor := ushiftr128 (U128 value 0) 1 in
    '(reminder, result_lo) ← div_loop 65 (U128 reminder_hi (lo dividend)) divisor result_mask 0;
    q ← udiv (lo reminder) value;
    Ret (U128 result_hi (Z.lor result_lo q)).

(** ** Theory *)

Definition value (x : uint128) : Z := hi x * 2 ^ 64 + lo x.

(** Both words are in range. *)
Definition wf (x : uint128) : Prop := 0 <= hi x < 2 ^ 64 /\ 0 <= lo x < 2 ^ 64.

Lemma u64_cases x : - 2 ^ 64 <= x < 2 * 2 ^ 64 ->
  u64 x = if decide (x < 0) then x + 2 ^ 64 else if decide (x < 2 ^ 64) then x else x - 2 ^ 64.
Proof.
  intros Hx. unfold u64. repeat case_decide.
  - rewrite <- (Z.mod_add x 1) by lia. rewrite Z.mod_small; lia.
  - apply Z.mod_small. lia.
  - rewrite <- (Z.mod_add x (-1)) by lia. rewrite Z.mod_small; lia.
Qed.

Lemma dec_ok a b : wf a -> wf b -> value b <= value a -> wf (udec128_128 a b) /\ value (udec128_128 a b) = value a - value b.
Proof.
  unfold wf, value, udec128_128. destruct a as [ah al], b as [bh bl]. cbn [hi lo]. intros Ha Hb Hle.
  rewrite (u64_cases (al - bl)) by lia. destruct (decide (al - bl < 0)).
  - rewrite (proj2 (Z.ltb_lt _ _)) by lia. rewrite (u64_cases (ah - 1)), (decide_False (P := ah - 1 < 0)), decide_True by lia.
    rewrite u64_cases, (decide_False (P := ah - 1 - bh < 0)), decide_True by lia. lia.
  - rewrite decide_True by lia. rewrite (proj2 (Z.ltb_ge _ _)) by lia.
    rewrite u64_cases, decide_False, decide_True by lia. lia.
Qed.

Lemma inc_ok a b : wf a -> wf b -> wf (zbx_uinc128_128 a b) /\ value (zbx_uinc128_128 a b) = (value a + value b) mod 2 ^ 128.
Proof.
  unfold wf, value, zbx_uinc128_128. destruct a as [ah al], b as [bh bl]. cbn [hi lo]. intros Ha Hb.
  assert (Hh : forall h l c, 0 <= h < 2 ^ 65 -> 0 <= l < 2 ^ 64 -> c = h * 2 ^ 64 + l -> u64 h * 2 ^ 64 + l = c mod 2 ^ 128).
  { intros h l c Hh Hl ->. unfold u64. pose proof (Z.div_mod h (2 ^ 64) ltac:(lia)). pose proof (Z.mod_pos_bound h (2 ^ 64) ltac:(lia)).
    apply (Z.mod_unique_pos _ _ (h / 2 ^ 64)); [lia|]. change (2 ^ 128) with (2 ^ 64 * 2 ^ 64). nia. }
  rewrite (u64_cases (al + bl)), decide_False by lia. rewrite Z.gtb_ltb. destruct (decide (al + bl < 2 ^ 64)).
  - rewrite (proj2 (Z.ltb_ge _ _)) by lia. split; [split; [apply u64_range|lia]|]. apply Hh; lia.
  - rewrite (proj2 (Z.ltb_lt _ _)) by lia. split; [split; [apply u64_range|lia]|]. rewrite u64_add_l. apply Hh; lia.
Qed.

Lemma inc64_ok a v : wf a -> 0 <= v < 2 ^ 64 -> wf (zbx_uinc128_64 a v) /\ value (zbx_uinc128_64 a v) = (value a + v) mod 2 ^ 128.
Proof.
  intros Ha Hv. assert (Hb : wf (U128 0 v)) by (unfold wf; cbn; lia).
  assert (Heq : zbx_uinc128_64 a v = zbx_uinc128_128 a (U128 0 v)).
  { unfold zbx_uinc128_64, zbx_uinc128_128. cbn [hi lo]. f_equal. destruct (_ >? _).
    - by rewrite u64_add_l, Z.add_0_r.
    - destruct Ha. rewrite Z.add_0_r, u64_small; lia. }
  rewrite Heq. destruct (inc_ok a _ Ha Hb) as [Hw ->]. split; [done|]. reflexivity.
Qed.

Lemma shiftr1_ok a : wf a -> wf (ushiftr128 a 1) /\ value (ushiftr128 a 1) = value a / 2.
Proof.
  destruct a as [h l]. change (ushiftr128 (U128 h l) 1) with (U128 (Z.shiftr h 1) (Z.lor (Z.shiftr l 1) (u64 (Z.shiftl h 63)))).
  unfold wf, value. cbn [hi lo]. intros [Hh Hl]. rewrite !Z.shiftr_div_pow2, Z.shiftl_mul_pow2 by lia. change (2 ^ 1) with 2.
  assert (Hu : u64 (h * 2 ^ 63) = (h mod 2) * 2 ^ 63).
  { unfold u64. change (2 ^ 64) with (2 * 2 ^ 63). by rewrite Z.mul_mod_distr_r by lia. }
  pose proof (Z.div_mod h 2 ltac:(lia)). pose proof (Z.mod_pos_bound h 2 ltac:(lia)).
  pose proof (Z.div_mod l 2 ltac:(lia)). pose proof (Z.mod_pos_bound l 2 ltac:(lia)).
  rewrite Hu. rewrite (lor_add 63) by (try lia; exists (h mod 2); done).
  split; [lia|]. apply (Z.div_unique_pos _ _ _ (l mod 2)); [lia|]. lia.
Qed.

Lemma shiftl_ok l bits : 0 <= l < 2 ^ 64 -> 0 <= bits <= 64 ->
  wf (ushiftl128 (U128 0 l) bits) /\ value (ushiftl128 (U128 0 l) bits) = l * 2 ^ bits.
Proof.
  intros Hl Hb. unfold ushiftl128, wf, value, UINT64_BIT_COUNT. cbn [hi lo].
  destruct (Z.eqb_spec 0 bits) as [<-|Hne]; [cbn [hi lo]; lia|]. destruct (Z.leb_spec 64 bits); cbn [hi lo].
  - assert (bits = 64) as -> by lia. change (64 - 64) with 0. rewrite Z.shiftl_0_r, u64_small by lia. lia.
  - rewrite Z.shiftl_0_l, Z.shiftl_mul_pow2, Z.shiftr_div_pow2 by lia. change (u64 0) with 0. rewrite Z.lor_0_l.
    assert (Hp : 2 ^ 64 = 2 ^ (64 - bits) * 2 ^ bits) by (rewrite <- Z.pow_add_r by lia; f_equal; lia).
    assert (0 < 2 ^ (64 - bits)) by (apply Z.pow_pos_nonneg; lia). assert (0 < 2 ^ bits) by (apply Z.pow_pos_nonneg; lia).
    assert (Hu : u64 (l * 2 ^ bits) = (l mod 2 ^ (64 - bits)) * 2 ^ bits).
    { unfold u64. rewrite Hp. by rewrite Z.mul_mod_distr_r by lia. }
    pose proof (Z.div_mod l (2 ^ (64 - bits)) ltac:(lia)). pose proof (Z.mod_pos_bound l (2 ^ (64 - bits)) ltac:(lia)).
    assert (0 <= l / 2 ^ (64 - bits) < 2 ^ 64).
    { split; [apply Z.div_pos; lia|]. apply Z.div_lt_upper_bound; nia. }
    split; [split; [done|apply u64_range]|]. rewrite Hu, Hp. nia.
Qed.

Lemma cmp_ok a b : wf a -> wf b -> (ucmp128_128 a b <? 0) = (value a <? value b).
Proof.
  unfold wf, value, ucmp128_128. destruct a as [ah al], b as [bh bl]. cbn [hi lo]. intros Ha Hb.
  destruct (Z.eqb_spec ah bh); cbn [negb].
  - destruct (Z.eqb_spec al bl); [symmetry; apply Z.ltb_ge; lia|].
    destruct (Z.ltb_spec al bl); symmetry; [apply Z.ltb_lt|apply Z.ltb_ge]; lia.
  - destruct (Z.ltb_spec ah bh); symmetry; [apply Z.ltb_lt|apply Z.ltb_ge]; lia.
Qed.

(** *** Multiplication *)

Lemma low32 x : Z.land x UINT32_BIT_MASK = x mod 2 ^ 32.
Proof. apply (Z.land_ones x 32). lia. Qed.

Lemma mul_step base v f shift :
  wf base -> 0 <= v < 2 ^ 64 -> 0 <= f < 2 ^ 32 -> 0 <= shift <= 32 ->
  value base + v * f * 2 ^ shift < 2 ^ 128 ->
  wf (umul64_32_shift base v f shift) /\ value (umul64_32_shift base v f shift) = value base + v * f * 2 ^ shift.
Proof.
  intros Hb Hv Hf Hs Hmax. unfold umul64_32_shift, UINT32_BIT_COUNT. rewrite low32, Z.shiftr_div_pow2 by lia.
  pose proof (Z.div_mod v (2 ^ 32) ltac:(lia)) as Hdm. pose proof (Z.mod_pos_bound v (2 ^ 32) ltac:(lia)).
  set (vl := v mod 2 ^ 32) in *. set (vh := v / 2 ^ 32) in *. assert (0 <= vh < 2 ^ 32) by lia.
  assert (Hr : forall x, 0 <= x < 2 ^ 32 -> 0 <= x * f < 2 ^ 64) by (intros; nia).
  pose proof (Hr vl ltac:(lia)). pose proof (Hr vh ltac:(lia)). rewrite !u64_small by lia.
  destruct (shiftl_ok (vl * f) shift ltac:(lia) ltac:(lia)) as [Hw1 Hv1].
  destruct (shiftl_ok (vh * f) (32 + shift) ltac:(lia) ltac:(lia)) as [Hw2 Hv2].
  assert (0 < 2 ^ shift) by (apply Z.pow_pos_nonneg; lia).
  assert (Hsum : v * f * 2 ^ shift = vl * f * 2 ^ shift + vh * f * 2 ^ (32 + shift)).
  { rewrite Z.pow_add_r by lia. rewrite Hdm. ring. }
  assert (0 <= value base) by (unfold value, wf in *; lia).
  assert (0 <= vl * f * 2 ^ shift) by nia. assert (0 <= vh * f * 2 ^ (32 + shift)) by (apply Z.mul_nonneg_nonneg; [lia|apply Z.pow_nonneg; lia]).
  destruct (inc_ok base _ Hb Hw1) as [Hw3 Hv3]. rewrite Hv1, Z.mod_small in Hv3 by lia.
  destruct (inc_ok _ _ Hw3 Hw2) as [Hw4 Hv4]. rewrite Hv2, Hv3, Z.mod_small in Hv4 by lia.
  split; [done|]. lia.
Qed.

Lemma mul_ok v f : 0 <= v < 2 ^ 64 -> 0 <= f < 2 ^ 64 -> wf (zbx_umul64_64 v f) /\ value (zbx_umul64_64 v f) = v * f.
Proof.
  intros Hv Hf. unfold zbx_umul64_64, UINT32_BIT_COUNT. rewrite low32, Z.shiftr_div_pow2 by lia.
  pose proof (Z.div_mod f (2 ^ 32) ltac:(lia)) as Hdm. pose proof (Z.mod_pos_bound f (2 ^ 32) ltac:(lia)).
  set (fl := f mod 2 ^ 32) in *. set (fh := f / 2 ^ 32) in *.
  assert (Hsum : v * f = v * fl * 2 ^ 0 + v * fh * 2 ^ 32) by (rewrite Hdm; ring).
  assert (v * f < 2 ^ 128) by (change (2 ^ 128) with (2 ^ 64 * 2 ^ 64); nia). assert (0 <= fh < 2 ^ 32) by lia. assert (0 <= v * fh) by nia.
  destruct (mul_step (U128 0 0) v fl 0) as [Hw1 Hv1]; [unfold wf; cbn [hi lo]; lia|lia|lia|lia|unfold value; cbn [hi lo]; lia|].
  change (value (U128 0 0)) with 0 in Hv1.
  destruct (mul_step _ v fh 32 Hw1) as [Hw2 Hv2]; [lia|lia|lia|rewrite Hv1; lia|]. split; [done|]. rewrite Hv2, Hv1. lia.
Qed.

(** *** Division *)

(** The divisor is [v] shifted as the mask, bit [m]. *)
Lemma align_ok fuel r d v m :
  wf r -> wf d -> 0 <= m -> value d = v * 2 ^ m -> v <= value r -> m < Z.of_nat fuel ->
  exists d' m', align fuel r d (2 ^ m) = Ret (d', 2 ^ m') /\ wf d' /\ 0 <= m' <= m /\ value d' = v * 2 ^ m' /\
    value d' <= value r /\ (m' < m -> value r < 2 * value d') /\ (value d <= value r -> m' = m).
Proof.
  intros Hr Hd Hm Hv Hle Hf. revert d m Hd Hm Hv Hf. induction fuel as [|fuel IH]; intros d m Hd Hm Hv Hf; [lia|].
  cbn [align]. rewrite cmp_ok by done. destruct (Z.ltb_spec (value r) (value d)) as [Hlt|Hge].
  - destruct (decide (m = 0)) as [->|Hne]; [rewrite Z.pow_0_r, Z.mul_1_r in Hv; lia|].
    assert (Hp : 2 ^ m = 2 * 2 ^ (m - 1)) by (rewrite <- Z.pow_succ_r by lia; f_equal; lia).
    destruct (shiftr1_ok d Hd) as [Hw1 Hv1].
    rewrite Z.shiftr_div_pow2 by lia. change (2 ^ 1) with 2.
    assert (Hhalf : value d / 2 = v * 2 ^ (m - 1)).
    { rewrite Hv, Hp. replace (v * (2 * 2 ^ (m - 1))) with (v * 2 ^ (m - 1) * 2) by ring. apply Z.div_mul. lia. }
    replace (2 ^ m / 2) with (2 ^ (m - 1)) by (rewrite Hp, (Z.mul_comm 2), Z.div_mul by lia; done).
    destruct (IH (ushiftr128 d 1) (m - 1)) as (d' & m' & Ha & Hw' & Hm' & Hd' & Hle' & Hlt' & Heq'); [done|lia|lia|lia|].
    exists d', m'. split; [done|]. split; [done|]. split; [lia|]. split; [done|]. split; [done|]. split; [|lia].
    intros _. destruct (decide (m' < m - 1)); [by apply Hlt'|]. assert (m' = m - 1) as -> by lia.
    rewrite Hd'. rewrite Hv, Hp in Hlt. lia.
  - exists d, m. split; [done|]. split; [done|]. split; [lia|]. repeat split; (done || lia).
Qed.

(** The invariant of the division: [q] is the quotient so far, its bits below
    the current one are 0; the current bit may be set when the rest is below
    the divisor. *)
Definition div_inv (v m q rem : Z) : Prop :=
  0 <= q /\ 0 <= rem /\ ((2 ^ (m + 1) | q) /\ rem < 2 * (v * 2 ^ m) \/ (2 ^ m | q) /\ rem < v * 2 ^ m).

(** Rounds that are left. *)
Definition rounds (v m rem : Z) : Z := if decide (rem < v * 2 ^ m) then m else m + 1.

Lemma div_loop_ok fuel r d v m q :
  wf r -> wf d -> 0 <= m < 65 -> 0 < v < 2 ^ 64 -> value d = v * 2 ^ m -> div_inv v m q (value r) ->
  rounds v m (value r) < Z.of_nat fuel ->
  exists r' q' m', div_loop fuel r d (2 ^ m) q = Ret (r', q') /\ wf r' /\ hi r' = 0 /\ 0 <= m' /\
    div_inv v m' q' (value r') /\ q' * v + value r' = q * v + value r.
Proof.
  revert r d m q. induction fuel as [|fuel IH]; intros r d m q Hr Hd Hm Hv Hdv Hinv Hf.
  { exfalso. unfold rounds in Hf. case_decide; lia. }
  cbn [div_loop]. destruct (Z.eqb_spec (hi r) 0) as [E|E].
  { exists r, q, m. split; [done|]. split; [done|]. split; [done|]. split; [lia|]. done. }
  assert (Hbig : 2 ^ 64 <= value r) by (unfold wf, value in *; nia).
  destruct (align_ok 65 r d v m Hr Hd ltac:(lia) Hdv ltac:(lia) ltac:(lia)) as (d' & m' & -> & Hd' & Hm' & Hdv' & Hle & Hlt & Heq).
  cbn [mbind res_mbind]. destruct (dec_ok r d' Hr Hd' Hle) as [Hw Hval].
  destruct Hinv as (Hq & Hrem & Hcase).
  assert (Hp : 0 < 2 ^ m') by (apply Z.pow_pos_nonneg; lia).
  (* the bit [m'] of [q] is free *)
  assert (Hfree : (2 ^ (m' + 1) | q) /\ value r < 2 * (v * 2 ^ m')).
  { destruct (decide (m' < m)) as [Hl|Hl].
    - split; [|rewrite <- Hdv'; by apply Hlt]. assert (Hdiv : (2 ^ (m' + 1) | 2 ^ m)).
      { exists (2 ^ (m - (m' + 1))). rewrite <- Z.pow_add_r by lia. f_equal. lia. }
      destruct Hcase as [[Hq1 _]|[Hq1 _]]; (etrans; [exact Hdiv|]); [|done]. etrans; [|exact Hq1].
      exists 2. rewrite Z.pow_add_r by lia. lia.
    - assert (m' = m) as -> by lia. destruct Hcase as [?|[_ Hc]]; [done|]. rewrite Hdv' in Hle. lia. }
  destruct Hfree as [Hq1 Hr1]. rewrite (Z.lor_comm q), (lor_add (m' + 1)); [|lia|rewrite Z.pow_add_r by lia; lia|done].
  destruct (IH (udec128_128 r d') d' m' (2 ^ m' + q)) as (r' & q' & m2 & Hrun & Hwr & Hhi & Hm2 & Hinv2 & Hsum).
  - done.
  - done.
  - lia.
  - done.
  - done.
  - split; [lia|]. split; [lia|]. right. rewrite Hval, Hdv'. split; [|lia].
    apply Z.divide_add_r; [exists 1; lia|]. etrans; [|exact Hq1]. exists 2. rewrite Z.pow_add_r by lia. lia.
  - unfold rounds in *. rewrite decide_True by lia. rewrite Hdv' in Hle. case_decide as Hc; [|lia].
    destruct (decide (m' = m)) as [->|]; lia.
  - exists r', q', m2. split; [done|]. repeat (split; [done|]). rewrite Hsum, Hval, Hdv'. lia.
Qed.

Lemma div_finish v m q rem : 0 < v -> 0 <= m -> div_inv v m q rem -> Z.lor q (rem / v) = (q * v + rem) / v.
Proof.
  intros Hv Hm (Hq & Hr & Hcase). rewrite Z.add_comm, Z.div_add, Z.add_comm by lia.
  pose proof (Z.div_pos rem v Hr Hv). rewrite Z.lor_comm, (Z.add_comm q).
  destruct Hcase as [[Hd Hlt]|[Hd Hlt]].
  - apply (lor_add (m + 1)); [lia| |done]. split; [lia|]. apply Z.div_lt_upper_bound; [lia|]. rewrite Z.pow_add_r by lia. lia.
  - apply (lor_add m); [lia| |done]. split; [lia|]. apply Z.div_lt_upper_bound; lia.
Qed.

Lemma div_ok a v : wf a -> 0 < v < 2 ^ 64 ->
  exists q, zbx_udiv128_64 a v = Ret q /\ value q = value a / v.
Proof.
  intros Ha Hv. destruct a as [h l]. destruct Ha as [Hh Hl]. cbn [hi lo] in Hh, Hl. unfold zbx_udiv128_64, udiv. cbn [hi lo].
  rewrite (proj2 (Z.eqb_neq v 0)) by lia. destruct (Z.eqb_spec 0 h) as [<-|Hne].
  { eexists. split; [done|]. unfold value. cbn [hi lo]. f_equal. }
  cbn [mbind res_mbind].
  assert (Hhi : (if h >=? v then Ret (h / v, u64 (h - u64 (h / v * v))) else Ret (0, h)) = Ret (h / v, h mod v)).
  { pose proof (Z.div_mod h v ltac:(lia)). pose proof (Z.mod_pos_bound h v ltac:(lia)). rewrite Z.geb_leb. destruct (Z.leb_spec v h).
    - pose proof (Z.mod_le h v ltac:(lia) ltac:(lia)). replace (h / v * v) with (h - h mod v) by lia.
      rewrite (u64_small (h - h mod v)) by lia. rewrite u64_small by lia. do 2 f_equal. lia.
    - by rewrite Z.div_small, Z.mod_small by lia. }
  rewrite Hhi. cbn [mbind res_mbind]. pose proof (Z.mod_pos_bound h v ltac:(lia)) as Hmod. set (rh := h mod v) in *.
  assert (Hwr : wf (U128 rh l)) by (unfold wf; cbn [hi lo]; lia).
  assert (Hwv : wf (U128 v 0)) by (unfold wf; cbn [hi lo]; lia).
  destruct (shiftr1_ok _ Hwv) as [Hwd Hvd].
  assert (Hd : value (ushiftr128 (U128 v 0) 1) = v * 2 ^ 63).
  { rewrite Hvd. unfold value. cbn [hi lo]. rewrite Z.add_0_r. change (2 ^ 64) with (2 ^ 63 * 2). rewrite Z.mul_assoc. apply Z.div_mul. lia. }
  change (Z.shiftl 1 (UINT64_BIT_COUNT - 1)) with (2 ^ 63).
  assert (Hinv : div_inv v 63 0 (value (U128 rh l))).
  { split; [lia|]. unfold value. cbn [hi lo]. split; [lia|]. left. split; [apply Z.divide_0_r|]. nia. }
  destruct (div_loop_ok 65 (U128 rh l) _ v 63 0 Hwr Hwd ltac:(lia) Hv Hd Hinv) as (r' & q' & m' & -> & Hw' & Hh' & Hm' & Hinv' & Hsum).
  { unfold rounds. case_decide; lia. }
  cbn [mbind res_mbind]. eexists. split; [done|].
  assert (Hr' : value r' = lo r') by (unfold value; rewrite Hh'; lia).
  rewrite Hr' in Hinv', Hsum. unfold value. cbn [hi lo]. rewrite (div_finish v m') by (done || lia). rewrite Hsum, Z.mul_0_l, Z.add_0_l.
  unfold value. cbn [hi lo]. pose proof (Z.div_mod h v ltac:(lia)) as Hdm. fold rh in Hdm.
  replace (h * 2 ^ 64 + l) with (rh * 2 ^ 64 + l + h / v * 2 ^ 64 * v) by (rewrite Hdm at 2; ring).
  rewrite Z.div_add by lia. lia.
Qed.

(** ** Properties *)

(** Addition is addition modulo 2^128, and the product of two 64-bit
    numbers, computed from four 32-bit products, is exact. *)
Theorem uint128_add_mul a b v f :
  wf a -> wf b -> 0 <= v < 2 ^ 64 -> 0 <= f < 2 ^ 64 ->
  value (zbx_uinc128_64 a v) = (value a + v) mod 2 ^ 128 /\
  value (zbx_uinc128_128 a b) = (value a + value b) mod 2 ^ 128 /\
  value (zbx_umul64_64 v f) = v * f.
Proof.
  intros Ha Hb Hv Hf. split; [by apply inc64_ok|]. split; [by apply inc_ok|]. by apply mul_ok.
Qed.

(** The shift-and-subtract division by a 64-bit number ends and gives
    the quotient of every 128-bit number; a divisor of 0 is a division by
    zero. *)
Theorem uint128_div a v :
  wf a -> 0 <= v < 2 ^ 64 ->
  if v =? 0 then zbx_udiv128_64 a v = Halt DivByZero
  else exists q, zbx_udiv128_64 a v = Ret q /\ value q = value a / v.
Proof.
  intros Ha Hv. destruct (Z.eqb_spec v 0) as [->|]; [|apply div_ok; [done|lia]].
  unfold zbx_udiv128_64. destruct (0 =? hi a); [done|]. destruct Ha as [[Hh _] _].
  rewrite (proj2 (Z.geb_le (hi a) 0) Hh). done.
Qed.

Lemma uint128_add_mul_witness : value (zbx_umul64_64 (2 ^ 64 - 1) (2 ^ 63 + 5)) = (2 ^ 64 - 1) * (2 ^ 63 + 5).
Proof. apply (uint128_add_mul (U128 0 0) (U128 0 0) (2 ^ 64 - 1) (2 ^ 63 + 5)); [done|done|lia|lia]. Defined.

Lemma uint128_div_witness : exists q, zbx_udiv128_64 (U128 12345 67890) 1000003 = Ret q /\ value q = (12345 * 2 ^ 64 + 67890) / 1000003.
Proof. apply (uint128_div (U128 12345 67890) 1000003); [done|lia]. Defined.
