(* ===== verification/Hashmap.v ===== *)
(** * Hash map from 64-bit keys to ints (src/libs/zbxalgo/hashmap.c)

    A table of slots, each an array of [entries_alloc] entries of which the
    first [entries_num] are in use; [sl_entries] holds those, and [sl_mem]
    says whether the array pointer is not NULL.  The memory functions do not
    fail: the allocators the program passes exit when memory runs out.

    [KeyIndex] is the interface the binary heap relies on; the instance at
    the end is the hash map. *)
From stdpp Require Import prelude list gmap.
From Stdlib Require Import ZArith Lia.
From S2P Require Import Prelude Algodefs.
#[local] Open Scope Z_scope.

(** ** Interface: an index from keys to array positions *)

Class KeyIndex (M : Type) := {
  ki_ok : M -> Prop;
  ki_get : M -> Z -> Z;
  ki_set : M -> Z -> Z -> res M;
  ki_remove : M -> Z -> M;
  ki_clear : M -> M;
  ki_create : Z -> M;
  ki_create_ok n : 0 <= n -> ki_ok (ki_create n);
  ki_get_create n k : 0 <= n -> ki_get (ki_create n) k = FAIL;
  ki_set_ok m k v : ki_ok m -> v <> FAIL -> exists m', ki_set m k v = Ret m' /\ ki_ok m' /\
    forall k', ki_get m' k' = if decide (k = k') then v else ki_get m k';
  ki_remove_ok m k : ki_ok m -> ki_ok (ki_remove m k) /\
    forall k', ki_get (ki_remove m k) k' = if decide (k = k') then FAIL else ki_get m k';
  ki_clear_ok m : ki_ok m -> ki_ok (ki_clear m) /\ forall k, ki_get (ki_clear m) k = FAIL }.

(** ** The hash map *)

Definition ZBX_HASHMAP_DEFAULT_SLOTS : Z := 10.

Record hm_slot := HmSlot { sl_entries : list (Z * Z); sl_alloc : Z; sl_mem : bool }.
Record hashmap := Hashmap { hm_slots : list hm_slot; hm_num_slots : Z; hm_num_data : Z }.

(** A cleared slot. *)
Definition empty_slot : hm_slot := HmSlot [] 0 false.

Section model.
(** [hash_func]; the compare function of the map is
    [zbx_default_uint64_compare_func]. *)
Variable hash_func : Z -> Z.

Definition hashmap_ensure_free_entry (slot : hm_slot) : hm_slot :=
  if negb (sl_mem slot) then HmSlot [] 6 true
  else if zlen (sl_entries slot) =? sl_alloc slot
  then HmSlot (sl_entries slot) (sl_alloc slot * 2) true
  else slot.

Definition zbx_hashmap_init_slots (init_size : Z) : hashmap :=
  if 0 <? init_size then
    let num_slots := next_prime init_size in
    Hashmap (replicate (Z.to_nat num_slots) empty_slot) num_slots 0
  else Hashmap [] 0 0.

Definition zbx_hashmap_create_ext (init_size : Z) : hashmap := zbx_hashmap_init_slots init_size.

Definition zbx_hashmap_create (init_size : Z) : hashmap := zbx_hashmap_create_ext init_size.

Definition zbx_hashmap_destroy (hm : hashmap) : hashmap := Hashmap [] 0 0.

(** First index [i] with an entry of this key, as the [for] loops search it. *)
Fixpoint find_key (l : list (Z * Z)) (key : Z) (i : nat) : option nat :=
  match l with
  | [] => None
  | e :: l => if zbx_default_uint64_compare_func e.1 key =? 0 then Some i else find_key l key (S i)
  end.

Definition slot_idx (num_slots key : Z) : nat := Z.to_nat (hash_func key mod num_slots).

Definition zbx_hashmap_get (hm : hashmap) (key : Z) : Z :=
  if hm_num_slots hm =? 0 then FAIL
  else match hm_slots hm !! slot_idx (hm_num_slots hm) key with
       | None => FAIL
       | Some slot => match find_key (sl_entries slot) key 0 with
                      | Some i => match sl_entries slot !! i with Some e => e.2 | None => FAIL end
                      | None => FAIL
                      end
       end.

(** [slot->entries[slot->entries_num] = e; slot->entries_num++;] *)
Definition push_entry (slot : hm_slot) (e : Z * Z) : res hm_slot :=
  if zlen (sl_entries slot) <? sl_alloc slot
  then Ret (HmSlot (sl_entries slot ++ [e]) (sl_alloc slot) (sl_mem slot))
  else Halt BadAccess.

(** [slot->entries[i] = slot->entries[slot->entries_num - 1]; slot->entries_num--;] *)
Definition drop_entry (slot : hm_slot) (i : nat) : hm_slot :=
  HmSlot (swap_remove (sl_entries slot) i) (sl_alloc slot) (sl_mem slot).

(** The inner loop of the rehashing over the entries of slot [s]. *)
Fixpoint rehash_slot (fuel : nat) (slots : list hm_slot) (inc_slots : Z) (s i : nat) : res (list hm_slot) :=
  match fuel with
  | O => Halt OutOfFuel
  | S fuel =>
      slot ← of_opt BadAccess (slots !! s);
      match sl_entries slot !! i with
      | None => Ret slots
      | Some e =>
          let ns := slot_idx inc_slots e.1 in
          if decide (ns = s) then rehash_slot fuel slots inc_slots s (S i)
          else
            new_slot ← of_opt BadAccess (slots !! ns);
            new_slot ← push_entry (hashmap_ensure_free_entry new_slot) e;
            rehash_slot fuel (<[s := drop_entry slot i]> (<[ns := new_slot]> slots)) inc_slots s i
      end
  end.

Definition slot_size (slots : list hm_slot) (s : nat) : nat :=
  match slots !! s with Some slot => length (sl_entries slot) | None => 0%nat end.

(** The outer loop, over slots [s .. s + n - 1]. *)
Fixpoint rehash (n : nat) (slots : list hm_slot) (inc_slots : Z) (s : nat) : res (list hm_slot) :=
  match n with
  | O => Ret slots
  | S n =>
      slots ← rehash_slot (S (slot_size slots s)) slots inc_slots s 0;
      rehash n slots inc_slots (S s)
  end.

Definition zbx_hashmap_set (hm : hashmap) (key value : Z) : res hashmap :=
  let hm := if hm_num_slots hm =? 0 then zbx_hashmap_init_slots ZBX_HASHMAP_DEFAULT_SLOTS else hm in
  let s := slot_idx (hm_num_slots hm) key in
  slot ← of_opt BadAccess (hm_slots hm !! s);
  match find_key (sl_entries slot) key 0 with
  | Some i =>
      Ret (Hashmap (<[s := HmSlot (<[i := (key, value)]> (sl_entries slot)) (sl_alloc slot) (sl_mem slot)]> (hm_slots hm))
             (hm_num_slots hm) (hm_num_data hm))
  | None =>
      slot ← push_entry (hashmap_ensure_free_entry slot) (key, value);
      let slots := <[s := slot]> (hm_slots hm) in
      let num_data := hm_num_data hm + 1 in
      if Z.quot (hm_num_slots hm * 5) 1 <=? num_data then
        let inc_slots := next_prime (Z.quot (hm_num_slots hm * 3) 2) in
        let slots := slots ++ replicate (Z.to_nat (inc_slots - hm_num_slots hm)) empty_slot in
        slots ← rehash (Z.to_nat (hm_num_slots hm)) slots inc_slots 0;
        Ret (Hashmap slots inc_slots num_data)
      else Ret (Hashmap slots (hm_num_slots hm) num_data)
  end.

Definition zbx_hashmap_remove (hm : hashmap) (key : Z) : hashmap :=
  if hm_num_slots hm =? 0 then hm
  else
    let s := slot_idx (hm_num_slots hm) key in
    match hm_slots hm !! s with
    | None => hm
    | Some slot =>
        match find_key (sl_entries slot) key 0 with
        | Some i => Hashmap (<[s := drop_entry slot i]> (hm_slots hm)) (hm_num_slots hm) (hm_num_data hm - 1)
        | None => hm
        end
    end.

Definition zbx_hashmap_clear (hm : hashmap) : hashmap :=
  Hashmap ((fun slot => HmSlot [] (sl_alloc slot) (sl_mem slot)) <$> hm_slots hm) (hm_num_slots hm) 0.

End model.

(** ** Theory *)

Section theory.
Variable hash_func : Z -> Z.
#[local] Abbreviation slot_idx := (slot_idx hash_func).

Definition all_entries (slots : list hm_slot) : list (Z * Z) := concat (sl_entries <$> slots).

(** The array of a slot has room for its entries. *)
Definition slot_ok (sl : hm_slot) : Prop :=
  (sl_mem sl = true /\ zlen (sl_entries sl) <= sl_alloc sl /\ 6 <= sl_alloc sl) \/
  (sl_mem sl = false /\ sl_entries sl = []).

(** Every entry of slot [i] hashes to [i]. *)
Definition proper (n : Z) (i : nat) (sl : hm_slot) : Prop :=
  forall e, e ∈ sl_entries sl -> slot_idx n e.1 = i.

Record hm_ok (hm : hashmap) : Prop := {
  ok_slots : hm_num_slots hm = zlen (hm_slots hm);
  ok_data : hm_num_data hm = zlen (all_entries (hm_slots hm));
  ok_nodup : NoDup (all_entries (hm_slots hm)).*1;
  ok_slot i sl : hm_slots hm !! i = Some sl -> slot_ok sl;
  ok_proper i sl : hm_slots hm !! i = Some sl -> proper (hm_num_slots hm) i sl }.

Lemma all_entries_split slots i sl :
  slots !! i = Some sl ->
  exists rest, all_entries slots ≡ₚ sl_entries sl ++ rest /\
    forall sl', all_entries (<[i := sl']> slots) ≡ₚ sl_entries sl' ++ rest.
Proof.
  intros Hi. exists (all_entries (take i slots) ++ all_entries (drop (S i) slots)).
  assert (H : forall sl', all_entries (take i slots ++ sl' :: drop (S i) slots) ≡ₚ
    sl_entries sl' ++ all_entries (take i slots) ++ all_entries (drop (S i) slots)).
  { intros sl'. unfold all_entries. rewrite fmap_app, concat_app. simpl. apply Permutation_app_swap_app. }
  split.
  - rewrite <- (take_drop_middle slots i sl Hi) at 1. apply H.
  - intros sl'. rewrite insert_take_drop by (by eapply lookup_lt_Some). apply H.
Qed.

Lemma drop_entry_perm sl i e :
  sl_entries sl !! i = Some e -> sl_entries sl ≡ₚ e :: sl_entries (drop_entry sl i).
Proof. apply swap_remove_perm. Qed.

Lemma drop_entry_ok sl i e : slot_ok sl -> sl_entries sl !! i = Some e -> slot_ok (drop_entry sl i).
Proof.
  intros [(? & ? & ?)|[_ H]] Hi; [|by rewrite H in Hi].
  left. split_and!; try done. apply drop_entry_perm, Permutation_length in Hi. unfold zlen in *.
  simpl in *. lia.
Qed.

Lemma ensure_push_ok sl e :
  slot_ok sl -> exists sl', push_entry (hashmap_ensure_free_entry sl) e = Ret sl' /\ slot_ok sl' /\
    sl_entries sl' = sl_entries sl ++ [e].
Proof.
  intros H. unfold push_entry, hashmap_ensure_free_entry, slot_ok, zlen in *.
  destruct H as [(Hm & H1 & H2)|[Hm H]]; rewrite Hm; simpl.
  - destruct (Z.eqb_spec (Z.of_nat (length (sl_entries sl))) (sl_alloc sl)); simpl.
    + destruct (Z.ltb_spec (Z.of_nat (length (sl_entries sl))) (sl_alloc sl * 2)); [|lia].
      eexists; split_and!; [done|left; simpl; rewrite length_app; simpl; split_and!; (done || lia)|done].
    + destruct (Z.ltb_spec (Z.of_nat (length (sl_entries sl))) (sl_alloc sl)); [|lia].
      eexists; split_and!; [done|left; simpl; rewrite length_app; simpl; split_and!; (done || lia)|done].
  - rewrite H. eexists; split_and!; [done|left; simpl; lia|done].
Qed.

Lemma find_key_Some l k i j :
  find_key l k i = Some j -> exists j' v, j = (i + j')%nat /\ l !! j' = Some (k, v).
Proof.
  revert i. induction l as [|[k' v] l IH]; intros i; simpl; [done|].
  unfold zbx_default_uint64_compare_func. destruct (Z.eqb_spec (cmp k' k) 0) as [E|E].
  - apply cmp_0 in E as ->. intros [= <-]. exists 0%nat, v. split; [lia|done].
  - intros (j' & w & -> & Hj)%IH. exists (S j'), w. split; [lia|done].
Qed.

Lemma find_key_None l k i : find_key l k i = None -> k ∉ l.*1.
Proof.
  revert i. induction l as [|[k' v] l IH]; intros i; simpl; [intros _; apply not_elem_of_nil|].
  unfold zbx_default_uint64_compare_func. destruct (Z.eqb_spec (cmp k' k) 0) as [E|E]; [done|].
  intros H%IH. apply not_elem_of_cons. split; [|done]. intros ->. by rewrite (proj2 (cmp_0 k' k')) in E.
Qed.

Lemma slot_idx_lt n k : 0 < n -> (slot_idx n k < Z.to_nat n)%nat.
Proof. intros. unfold Hashmap.slot_idx. pose proof (Z.mod_pos_bound (hash_func k) n). lia. Qed.

Lemma slot_of hm k :
  hm_ok hm -> hm_num_slots hm <> 0 -> exists sl, hm_slots hm !! slot_idx (hm_num_slots hm) k = Some sl.
Proof.
  intros H Hn. apply lookup_lt_is_Some_2. pose proof (ok_slots _ H) as Hs. unfold zlen in Hs.
  pose proof (slot_idx_lt (hm_num_slots hm) k). lia.
Qed.

(** An entry is in the slot its key hashes to. *)
Lemma entry_slot hm k v :
  hm_ok hm -> (k, v) ∈ all_entries (hm_slots hm) ->
  hm_num_slots hm <> 0 /\
  exists sl, hm_slots hm !! slot_idx (hm_num_slots hm) k = Some sl /\ (k, v) ∈ sl_entries sl.
Proof.
  intros H Hin. unfold all_entries in Hin. apply list_elem_of_In, in_concat in Hin as (l & Hl & Hin).
  apply list_elem_of_In in Hl, Hin. apply list_elem_of_fmap in Hl as (sl & -> & Hl). apply list_elem_of_lookup in Hl as [i Hi].
  pose proof (ok_proper _ H i sl Hi _ Hin) as Hp. simpl in Hp.
  split; [|exists sl; by rewrite Hp].
  apply lookup_lt_Some in Hi. pose proof (ok_slots _ H). unfold zlen in *. lia.
Qed.

Lemma hm_get_in hm k v :
  hm_ok hm -> (k, v) ∈ all_entries (hm_slots hm) -> zbx_hashmap_get hash_func hm k = v.
Proof.
  intros H Hin. destruct (entry_slot hm k v H Hin) as (Hn & sl & Hsl & Hin').
  unfold zbx_hashmap_get. destruct (Z.eqb_spec (hm_num_slots hm) 0); [done|]. rewrite Hsl.
  destruct (find_key (sl_entries sl) k 0) as [j|] eqn:F.
  - apply find_key_Some in F as (j' & w & -> & Hj). simpl. rewrite Hj. simpl.
    destruct (all_entries_split _ _ _ Hsl) as (rest & Hp & _).
    pose proof (ok_nodup _ H) as ND. rewrite Hp, fmap_app in ND. apply NoDup_app in ND as [ND _].
    apply list_elem_of_lookup in Hin' as [j2 Hj2].
    assert (j' = j2) as ->.
    { eapply NoDup_lookup; [exact ND|rewrite list_lookup_fmap, Hj; done|by rewrite list_lookup_fmap, Hj2]. }
    by simplify_eq.
  - apply find_key_None in F. destruct F. apply list_elem_of_fmap. by exists (k, v).
Qed.

Lemma hm_get_notin hm k :
  hm_ok hm -> k ∉ (all_entries (hm_slots hm)).*1 -> zbx_hashmap_get hash_func hm k = FAIL.
Proof.
  intros H Hin. unfold zbx_hashmap_get. destruct (Z.eqb_spec (hm_num_slots hm) 0); [done|].
  destruct (hm_slots hm !! _) as [sl|] eqn:Hsl; [|done].
  destruct (find_key (sl_entries sl) k 0) as [j|] eqn:F; [|done].
  apply find_key_Some in F as (j' & w & -> & Hj). destruct Hin.
  destruct (all_entries_split _ _ _ Hsl) as (rest & Hp & _). rewrite Hp, fmap_app.
  apply elem_of_app. left. apply list_elem_of_fmap. exists (k, w). split; [done|].
  by eapply list_elem_of_lookup_2.
Qed.

(** [zbx_hashmap_get] only depends on the set of entries. *)
Lemma hm_get_perm hm hm' :
  hm_ok hm -> hm_ok hm' -> all_entries (hm_slots hm') ≡ₚ all_entries (hm_slots hm) ->
  forall k, zbx_hashmap_get hash_func hm' k = zbx_hashmap_get hash_func hm k.
Proof.
  intros H H' Hp k. destruct (decide (k ∈ (all_entries (hm_slots hm)).*1)) as [Hin|Hin].
  - apply list_elem_of_fmap in Hin as ([k' v] & -> & Hin). simpl.
    rewrite (hm_get_in hm k' v) by done. apply hm_get_in; [done|]. by rewrite Hp.
  - rewrite (hm_get_notin hm) by done. apply hm_get_notin; [done|]. by rewrite Hp.
Qed.

(** ** Rehashing *)

Definition slots_ok (inc : Z) (slots : list hm_slot) : Prop :=
  0 < inc /\ length slots = Z.to_nat inc /\ forall j sl, slots !! j = Some sl -> slot_ok sl.

Definition proper_on (inc : Z) (P : nat -> Prop) (slots : list hm_slot) : Prop :=
  forall j sl, slots !! j = Some sl -> P j -> proper inc j sl.

Lemma drop_entry_lookup sl i j e :
  sl_entries sl !! i = Some e -> (j < i)%nat -> sl_entries (drop_entry sl i) !! j = sl_entries sl !! j.
Proof.
  intros Hi%lookup_lt_Some Hj. simpl. rewrite swap_remove_lookup by lia. rewrite decide_False by lia. done.
Qed.

(** Moving entry [i] of slot [s] to the slot [ns] it hashes to. *)
Lemma move_entry inc slots s i sl e new_slot new_slot' :
  slots_ok inc slots -> slots !! s = Some sl -> sl_entries sl !! i = Some e ->
  slot_idx inc e.1 <> s -> slots !! slot_idx inc e.1 = Some new_slot ->
  slot_ok new_slot' -> sl_entries new_slot' = sl_entries new_slot ++ [e] ->
  let slots' := <[s := drop_entry sl i]> (<[slot_idx inc e.1 := new_slot']> slots) in
  slots_ok inc slots' /\ all_entries slots' ≡ₚ all_entries slots /\
  forall P, proper_on inc P slots -> proper_on inc P slots'.
Proof.
  intros (Hinc & Hlen & Hok) Hs Hi Hne Hns Hok' He slots'.
  pose proof (lookup_lt_Some _ _ _ Hs). pose proof (lookup_lt_Some _ _ _ Hns).
  assert (Hlk : forall j sl', slots' !! j = Some sl' ->
    (j = s /\ sl' = drop_entry sl i) \/ (j = slot_idx inc e.1 /\ sl' = new_slot') \/ slots !! j = Some sl').
  { intros j sl'. unfold slots'. rewrite !list_lookup_insert, length_insert.
    repeat case_decide; naive_solver. }
  split_and!.
  - split_and!; [done|unfold slots'; by rewrite !length_insert|].
    intros j sl' [[-> ->]|[[-> ->]|Hj]]%Hlk; [by eapply drop_entry_ok; eauto|done|eauto].
  - destruct (all_entries_split _ _ _ Hns) as (r1 & P1 & Q1).
    assert (Hs' : <[slot_idx inc e.1 := new_slot']> slots !! s = Some sl) by (by rewrite list_lookup_insert_ne).
    destruct (all_entries_split _ _ _ Hs') as (r2 & P2 & Q2).
    unfold slots'. rewrite Q2, P1. apply (Permutation_cons_inv (a := e)).
    rewrite app_comm_cons, <- (drop_entry_perm sl i e Hi), <- P2, Q1, He, <- app_assoc. simpl.
    by rewrite <- Permutation_middle.
  - intros P HP j sl' [[-> ->]|[[-> ->]|Hj]]%Hlk Pj x Hx; [| |by eapply HP; eauto].
    + apply (HP s sl Hs Pj). rewrite (drop_entry_perm sl i e Hi). by apply list_elem_of_further.
    + rewrite He in Hx. apply elem_of_app in Hx as [Hx| ->%list_elem_of_singleton]; [|done].
      by apply (HP _ _ Hns Pj).
Qed.

Lemma rehash_slot_ok fuel slots inc s i P sl :
  slots_ok inc slots -> slots !! s = Some sl -> proper_on inc P slots ->
  (forall j e, (j < i)%nat -> sl_entries sl !! j = Some e -> slot_idx inc e.1 = s) ->
  (length (sl_entries sl) - i < fuel)%nat ->
  exists slots', rehash_slot hash_func fuel slots inc s i = Ret slots' /\ slots_ok inc slots' /\
    all_entries slots' ≡ₚ all_entries slots /\ proper_on inc (fun j => P j \/ j = s) slots'.
Proof.
  revert slots i sl. induction fuel as [|fuel IH]; intros slots i sl Hok Hs HP Hi Hf; [lia|].
  simpl. rewrite Hs. simpl. destruct (sl_entries sl !! i) as [e|] eqn:He.
  - pose proof (lookup_lt_Some _ _ _ He). case_decide as Hn.
    + apply (IH slots (S i) sl); [done..| |lia]. intros j e' Hj He'.
      destruct (decide (j = i)) as [->|]; [by simplify_eq|]. apply (Hi j); [lia|done].
    + pose proof Hok as (Hinc & Hlen & Hall).
      destruct (lookup_lt_is_Some_2 slots (slot_idx inc e.1)) as [ns Hns].
      { rewrite Hlen. by apply slot_idx_lt. }
      rewrite Hns. simpl. destruct (ensure_push_ok ns e) as (ns' & -> & Hok' & He'); [by eapply Hall|]. simpl.
      destruct (move_entry inc slots s i sl e ns ns') as (Hok2 & Hp2 & HP2); [done..|].
      edestruct (IH _ i (drop_entry sl i) Hok2) as (sl' & -> & H1 & H2 & H3).
      * rewrite list_lookup_insert_eq; [done|]. rewrite length_insert. by eapply lookup_lt_Some.
      * by apply HP2.
      * intros j e' Hj. rewrite (drop_entry_lookup sl i j e) by done. by apply Hi.
      * apply drop_entry_perm, Permutation_length in He. rewrite length_cons in He. lia.
      * exists sl'. split_and!; [done..|by rewrite H2|done].
  - exists slots. split_and!; [done..|]. intros j sl' Hj [Pj| ->]; [by apply HP|].
    simplify_eq. intros e Hin. apply list_elem_of_lookup in Hin as [n Hn]. apply (Hi n); [|done].
    apply lookup_lt_Some in Hn. apply lookup_ge_None in He. lia.
Qed.

Lemma hm_rehash_ok n slots inc s P :
  slots_ok inc slots -> (s + n <= length slots)%nat -> proper_on inc P slots ->
  exists slots', rehash hash_func n slots inc s = Ret slots' /\ slots_ok inc slots' /\
    all_entries slots' ≡ₚ all_entries slots /\
    proper_on inc (fun j => P j \/ (s <= j < s + n)%nat) slots'.
Proof.
  revert slots s P. induction n as [|n IH]; intros slots s P Hok Hn HP.
  { exists slots. split_and!; [done..|]. intros j sl Hj [?|?]; [by apply HP|lia]. }
  destruct (lookup_lt_is_Some_2 slots s) as [sl Hs]; [lia|].
  cbn [rehash]. unfold slot_size. rewrite Hs.
  destruct (rehash_slot_ok (S (length (sl_entries sl))) slots inc s 0 P sl) as (s1 & -> & H1 & H2 & H3);
    [done..|intros; lia|lia|].
  cbn [mbind res_mbind]. destruct (IH s1 (S s) (fun j => P j \/ j = s) H1) as (s2 & -> & H4 & H5 & H6); [|done|].
  { destruct H1 as (? & -> & _), Hok as (? & <- & _). lia. }
  exists s2. split_and!; [done..|by rewrite H5|]. intros j sl' Hj Hor. apply (H6 j sl' Hj).
  destruct Hor as [?|?]; [by left; left|]. destruct (decide (j = s)); [left; by right|right; lia].
Qed.

(** ** Operations *)

Lemma hm_create_ok n : hm_ok (zbx_hashmap_create n) /\ all_entries (hm_slots (zbx_hashmap_create n)) = [].
Proof.
  unfold zbx_hashmap_create, zbx_hashmap_create_ext, zbx_hashmap_init_slots.
  assert (He : forall m, all_entries (replicate m empty_slot) = []).
  { induction m as [|m IH]; [done|exact IH]. }
  case_match; unbool.
  - simpl. rewrite He. split; [|done]. pose proof (next_prime_pos n).
    split; simpl; rewrite ?He; try done; unfold zlen; rewrite ?length_replicate; [lia|..].
    + constructor.
    + intros i sl [-> _]%lookup_replicate. by right.
    + intros i sl [-> _]%lookup_replicate. intros e Hin. by apply not_elem_of_nil in Hin.
  - split; [|done]. split; simpl; try done. constructor.
Qed.

(** Replacing the entries of the slot of [k]. *)
Lemma update_slot_ok hm k sl sl' rest :
  hm_ok hm -> hm_slots hm !! slot_idx (hm_num_slots hm) k = Some sl ->
  slot_ok sl' -> proper (hm_num_slots hm) (slot_idx (hm_num_slots hm) k) sl' ->
  all_entries (<[slot_idx (hm_num_slots hm) k := sl']> (hm_slots hm)) ≡ₚ rest -> NoDup rest.*1 ->
  hm_ok (Hashmap (<[slot_idx (hm_num_slots hm) k := sl']> (hm_slots hm)) (hm_num_slots hm) (zlen rest)).
Proof.
  intros H Hsl Hok Hpr Hp ND. split; simpl.
  - unfold zlen. rewrite length_insert. apply H.
  - unfold zlen. by rewrite Hp.
  - by rewrite Hp.
  - intros i s. rewrite list_lookup_insert. case_decide; [intros [= <-]; done|]. apply H.
  - intros i s. rewrite list_lookup_insert. case_decide as Hd; [intros [= <-]; by destruct Hd as [<- _]|]. apply H.
Qed.

Lemma set_present hm k v sl i w :
  hm_ok hm -> hm_slots hm !! slot_idx (hm_num_slots hm) k = Some sl -> sl_entries sl !! i = Some (k, w) ->
  let hm' := Hashmap (<[slot_idx (hm_num_slots hm) k :=
      HmSlot (<[i := (k, v)]> (sl_entries sl)) (sl_alloc sl) (sl_mem sl)]> (hm_slots hm))
      (hm_num_slots hm) (hm_num_data hm) in
  hm_ok hm' /\ exists rest, all_entries (hm_slots hm) ≡ₚ (k, w) :: rest /\
    all_entries (hm_slots hm') ≡ₚ (k, v) :: rest.
Proof.
  intros H Hsl Hi hm'. destruct (all_entries_split _ _ _ Hsl) as (r & P1 & P2).
  pose proof (lookup_lt_Some _ _ _ Hi) as Hlt.
  assert (E1 : sl_entries sl ≡ₚ (k, w) :: take i (sl_entries sl) ++ drop (S i) (sl_entries sl)).
  { rewrite <- (take_drop_middle _ _ _ Hi) at 1. by rewrite <- Permutation_middle. }
  assert (E2 : <[i := (k, v)]> (sl_entries sl) ≡ₚ (k, v) :: take i (sl_entries sl) ++ drop (S i) (sl_entries sl)).
  { rewrite insert_take_drop by done. by rewrite <- Permutation_middle. }
  set (r' := (take i (sl_entries sl) ++ drop (S i) (sl_entries sl)) ++ r).
  assert (Q1 : all_entries (hm_slots hm) ≡ₚ (k, w) :: r') by (rewrite P1, E1; done).
  assert (Q2 : all_entries (hm_slots hm') ≡ₚ (k, v) :: r') by (unfold hm'; simpl; rewrite P2; simpl; by rewrite E2).
  split; [|eauto]. unfold hm'. rewrite (ok_data _ H). pose proof (ok_nodup _ H) as ND. rewrite Q1 in ND.
  assert (zlen (all_entries (hm_slots hm)) = zlen ((k, v) :: r')) as -> by (unfold zlen; by rewrite Q1).
  eapply update_slot_ok; [done|exact Hsl| | |exact Q2|done].
  - destruct (ok_slot _ H _ _ Hsl) as [(? & ? & ?)|[_ E]]; [|by rewrite E in Hi].
    left. unfold zlen in *. simpl. rewrite length_insert. done.
  - intros e. simpl. rewrite E2. intros [->|Hin]%elem_of_cons; [done|].
    apply (ok_proper _ H _ _ Hsl). rewrite E1. by apply list_elem_of_further.
Qed.

(** The map a table represents. *)
Definition hm_abs (hm : hashmap) : gmap Z Z := list_to_map (all_entries (hm_slots hm)).

Lemma hm_get_abs hm k : hm_ok hm -> zbx_hashmap_get hash_func hm k = default FAIL (hm_abs hm !! k).
Proof.
  intros H. unfold hm_abs. destruct (list_to_map (all_entries (hm_slots hm)) !! k) as [v|] eqn:E; simpl.
  - apply hm_get_in; [done|]. apply elem_of_list_to_map; [apply H|done].
  - apply hm_get_notin; [done|]. by apply not_elem_of_list_to_map.
Qed.

Lemma hm_abs_size hm : hm_ok hm -> Z.of_nat (size (hm_abs hm)) = hm_num_data hm.
Proof.
  intros H. rewrite (ok_data _ H). unfold zlen, hm_abs. f_equal.
  rewrite <- length_map_to_list, map_to_list_to_map by apply H. done.
Qed.

Lemma hm_abs_cons hm hm' k v rest :
  hm_ok hm' -> all_entries (hm_slots hm') ≡ₚ (k, v) :: rest ->
  delete k (hm_abs hm) = list_to_map rest -> hm_abs hm' = <[k := v]> (hm_abs hm).
Proof.
  intros H Hp Hr. unfold hm_abs. rewrite (list_to_map_proper _ _ (ok_nodup _ H) Hp). simpl.
  rewrite <- Hr. apply insert_delete_eq.
Qed.

Lemma delete_abs hm k w rest :
  hm_ok hm -> all_entries (hm_slots hm) ≡ₚ (k, w) :: rest -> delete k (hm_abs hm) = list_to_map rest.
Proof.
  intros H Hp. unfold hm_abs. pose proof (ok_nodup _ H) as ND.
  rewrite (list_to_map_proper _ _ ND Hp). rewrite Hp in ND. simpl in *.
  apply NoDup_cons in ND as [Hni _]. rewrite delete_insert_id; [done|]. by apply not_elem_of_list_to_map_1.
Qed.

Lemma delete_abs_absent hm k :
  k ∉ (all_entries (hm_slots hm)).*1 -> delete k (hm_abs hm) = list_to_map (all_entries (hm_slots hm)).
Proof. intros Hn. apply delete_id. by apply not_elem_of_list_to_map_1. Qed.

(** A table whose slots were extended and rehashed. *)
Lemma grow_ok hm inc :
  hm_ok hm -> 0 < hm_num_slots hm -> hm_num_slots hm <= inc ->
  exists slots', rehash hash_func (Z.to_nat (hm_num_slots hm))
      (hm_slots hm ++ replicate (Z.to_nat (inc - hm_num_slots hm)) empty_slot) inc 0 = Ret slots' /\
    hm_ok (Hashmap slots' inc (hm_num_data hm)) /\ all_entries slots' ≡ₚ all_entries (hm_slots hm).
Proof.
  intros H Hpos Hinc. pose proof (ok_slots _ H) as Hs. unfold zlen in Hs.
  set (slots := _ ++ _).
  assert (He : all_entries slots = all_entries (hm_slots hm)).
  { unfold slots, all_entries. rewrite fmap_app, concat_app, fmap_replicate. simpl.
    replace (concat (replicate _ _)) with (@nil (Z * Z)); [by rewrite app_nil_r|].
    induction (Z.to_nat (inc - hm_num_slots hm)); [done|]. simpl. done. }
  assert (Hl : length slots = Z.to_nat inc) by (unfold slots; rewrite length_app, length_replicate; lia).
  assert (Hok : slots_ok inc slots).
  { split_and!; [lia|done|]. intros j sl [Hj|[_ [-> _]%lookup_replicate]]%lookup_app_Some;
      [by eapply ok_slot|by right]. }
  destruct (hm_rehash_ok (Z.to_nat (hm_num_slots hm)) slots inc 0 (fun j => (length (hm_slots hm) <= j)%nat) Hok)
    as (slots' & -> & (_ & Hl' & Hall) & Hp & Hpr).
  { lia. }
  { intros j sl [Hj|[_ [-> _]%lookup_replicate]]%lookup_app_Some Hge;
      [apply lookup_lt_Some in Hj; lia|intros e Hin; by apply not_elem_of_nil in Hin]. }
  exists slots'. rewrite Hp, He. split_and!; [done| |done]. split; simpl.
  - unfold zlen. lia.
  - unfold zlen. rewrite Hp, He. apply H.
  - rewrite Hp, He. apply H.
  - apply Hall.
  - intros i sl Hi. apply (Hpr i sl Hi). lia.
Qed.

Lemma set_absent hm k v sl :
  hm_ok hm -> hm_slots hm !! slot_idx (hm_num_slots hm) k = Some sl ->
  k ∉ (all_entries (hm_slots hm)).*1 ->
  exists sl', push_entry (hashmap_ensure_free_entry sl) (k, v) = Ret sl' /\
    let slots := <[slot_idx (hm_num_slots hm) k := sl']> (hm_slots hm) in
    all_entries slots ≡ₚ (k, v) :: all_entries (hm_slots hm) /\
    hm_ok (Hashmap slots (hm_num_slots hm) (hm_num_data hm + 1)).
Proof.
  intros H Hsl Hni. destruct (ensure_push_ok sl (k, v)) as (sl' & -> & Hok & He); [by eapply ok_slot|].
  exists sl'. split; [done|]. destruct (all_entries_split _ _ _ Hsl) as (r & P1 & P2).
  assert (Q : all_entries (<[slot_idx (hm_num_slots hm) k := sl']> (hm_slots hm)) ≡ₚ
    (k, v) :: all_entries (hm_slots hm)).
  { rewrite P2, P1, He, <- app_assoc. simpl. by rewrite <- Permutation_middle. }
  split; [done|]. rewrite (ok_data _ H).
  replace (zlen (all_entries (hm_slots hm)) + 1) with (zlen ((k, v) :: all_entries (hm_slots hm)))
    by (unfold zlen; simpl; lia).
  eapply update_slot_ok; [done|exact Hsl|done| |done|].
  - intros e. rewrite He. intros [Hin| ->%list_elem_of_singleton]%elem_of_app; [by apply (ok_proper _ H _ _ Hsl)|done].
  - simpl. apply NoDup_cons. split; [done|apply H].
Qed.

Lemma slot_key_in hm k sl :
  hm_ok hm -> hm_slots hm !! slot_idx (hm_num_slots hm) k = Some sl ->
  k ∈ (all_entries (hm_slots hm)).*1 -> k ∈ (sl_entries sl).*1.
Proof.
  intros H Hsl Hin. apply list_elem_of_fmap in Hin as ([k' v] & -> & Hin).
  destruct (entry_slot hm k' v H Hin) as (_ & sl2 & Hsl2 & Hin2). simpl in *. simplify_eq.
  apply list_elem_of_fmap. by exists (k', v).
Qed.

Lemma hashmap_set_ok hm k v :
  hm_ok hm -> exists hm', zbx_hashmap_set hash_func hm k v = Ret hm' /\ hm_ok hm' /\
    hm_abs hm' = <[k := v]> (hm_abs hm).
Proof.
  intros H0. unfold zbx_hashmap_set.
  set (hm1 := if _ =? 0 then _ else hm).
  assert (hm_ok hm1 /\ hm_num_slots hm1 <> 0 /\ hm_abs hm1 = hm_abs hm) as (H & Hn & <-).
  { unfold hm1. destruct (Z.eqb_spec (hm_num_slots hm) 0) as [E|E]; [|done].
    destruct (hm_create_ok ZBX_HASHMAP_DEFAULT_SLOTS) as [C1 C2]. split_and!; [exact C1| |].
    - pose proof (next_prime_pos ZBX_HASHMAP_DEFAULT_SLOTS). unfold zbx_hashmap_init_slots.
      cbn [Z.ltb Z.compare ZBX_HASHMAP_DEFAULT_SLOTS hm_num_slots]. lia.
    - unfold hm_abs. unfold zbx_hashmap_create, zbx_hashmap_create_ext in C2. rewrite C2.
      pose proof (ok_slots _ H0) as Hs. unfold zlen in Hs.
      destruct (hm_slots hm) eqn:Es; [done|]. simpl in Hs. lia. }
  clearbody hm1. clear H0 hm. rename hm1 into hm.
  destruct (slot_of hm k H Hn) as [sl Hsl]. rewrite Hsl. simpl.
  destruct (find_key (sl_entries sl) k 0) as [i|] eqn:F.
  - apply find_key_Some in F as (j & w & -> & Hj). simpl.
    destruct (set_present hm k v sl j w H Hsl Hj) as (Hok & rest & P1 & P2).
    eexists; split_and!; [done|exact Hok|]. eapply hm_abs_cons; [exact Hok|exact P2|]. by eapply delete_abs.
  - assert (k ∉ (all_entries (hm_slots hm)).*1) as Hni.
    { intros Hin. apply find_key_None in F. by eapply F, slot_key_in. }
    destruct (set_absent hm k v sl H Hsl Hni) as (sl' & -> & P & Hok). simpl.
    pose proof (ok_slots _ H) as Hs. pose proof (delete_abs_absent hm k Hni) as Hd.
    case_match; unbool.
    + destruct (grow_ok _ (next_prime (Z.quot (hm_num_slots hm * 3) 2)) Hok) as (slots' & E & Hok' & P');
        [simpl; unfold zlen in Hs; lia| |].
      { simpl. etransitivity; [|apply next_prime_ge]. unfold zlen in Hs. rewrite Z.quot_div_nonneg by lia.
        apply Z.div_le_lower_bound; lia. }
      simpl in E. rewrite E. simpl. eexists; split_and!; [done|exact Hok'|].
      eapply hm_abs_cons; [exact Hok'|simpl; rewrite P'; exact P|exact Hd].
    + eexists; split_and!; [done|exact Hok|]. eapply hm_abs_cons; [exact Hok|exact P|exact Hd].
Qed.

Lemma hashmap_remove_ok hm k :
  hm_ok hm -> hm_ok (zbx_hashmap_remove hash_func hm k) /\
    hm_abs (zbx_hashmap_remove hash_func hm k) = delete k (hm_abs hm).
Proof.
  intros H. unfold zbx_hashmap_remove. destruct (Z.eqb_spec (hm_num_slots hm) 0) as [E|Hn].
  { split; [done|]. pose proof (ok_slots _ H) as Hs. unfold zlen in Hs.
    unfold hm_abs. destruct (hm_slots hm); [done|]. simpl in Hs. lia. }
  destruct (slot_of hm k H Hn) as [sl Hsl]. rewrite Hsl.
  destruct (find_key (sl_entries sl) k 0) as [i|] eqn:F.
  - apply find_key_Some in F as (j & w & -> & Hj). simpl.
    destruct (all_entries_split _ _ _ Hsl) as (r & P1 & P2). pose proof (drop_entry_perm sl j (k, w) Hj) as Pd.
    assert (Q1 : all_entries (hm_slots hm) ≡ₚ (k, w) :: sl_entries (drop_entry sl j) ++ r) by (rewrite P1, Pd; done).
    assert (hm_ok (Hashmap (<[slot_idx (hm_num_slots hm) k := drop_entry sl j]> (hm_slots hm))
      (hm_num_slots hm) (hm_num_data hm - 1))) as Hok.
    { rewrite (ok_data _ H). pose proof (ok_nodup _ H) as ND. rewrite Q1 in ND.
      replace (zlen (all_entries (hm_slots hm)) - 1) with (zlen (sl_entries (drop_entry sl j) ++ r)).
      2: { unfold zlen. rewrite Q1, length_cons. lia. }
      eapply update_slot_ok; [done|exact Hsl|eapply drop_entry_ok; [by eapply ok_slot|done]| |apply P2|].
      - intros e Hin. apply (ok_proper _ H _ _ Hsl). rewrite Pd. by apply list_elem_of_further.
      - rewrite fmap_cons in ND. by apply NoDup_cons in ND as [_ ?]. }
    split; [exact Hok|]. rewrite (delete_abs hm k w _ H Q1). unfold hm_abs.
    apply list_to_map_proper; [apply Hok|]. apply P2.
  - split; [done|]. symmetry. apply delete_id. apply not_elem_of_list_to_map_1. intros Hin.
    apply find_key_None in F. by eapply F, slot_key_in.
Qed.

Lemma hashmap_clear_ok hm :
  hm_ok hm -> hm_ok (zbx_hashmap_clear hm) /\ hm_abs (zbx_hashmap_clear hm) = ∅.
Proof.
  intros H. unfold zbx_hashmap_clear, hm_abs. simpl.
  assert (He : all_entries ((fun slot => HmSlot [] (sl_alloc slot) (sl_mem slot)) <$> hm_slots hm) = []).
  { induction (hm_slots hm) as [|sl l IH]; [done|exact IH]. }
  rewrite He. split; [|done]. split; simpl; rewrite ?He; try done.
  - unfold zlen. rewrite length_fmap. apply H.
  - constructor.
  - intros i sl Hi. rewrite list_lookup_fmap in Hi. destruct (hm_slots hm !! i) as [sl0|] eqn:E; simplify_eq/=.
    destruct (ok_slot _ H _ _ E) as [(? & ? & ?)|[? _]]; [left|right]; simpl; unfold zlen; simpl; split_and!; (done || lia).
  - intros i sl Hi e. rewrite list_lookup_fmap in Hi. destruct (hm_slots hm !! i); simplify_eq/=.
    intros Hin. by apply not_elem_of_nil in Hin.
Qed.

End theory.

(** ** Properties *)

(** C37: For any hash function, every operation of the hash map acts on the
    map it represents as the corresponding map operation: get is lookup (FAIL
    for an absent key), set is insertion, including when the table is first
    allocated or grows and is rehashed, remove is deletion, clear empties it;
    [num_data] is the number of keys, and no operation leaves the bounds of
    the slot arrays. *)
Theorem hashmap_refines_map (hash_func : Z -> Z) hm :
  hm_ok hash_func hm ->
  (forall k, zbx_hashmap_get hash_func hm k = default FAIL (hm_abs hm !! k)) /\
  Z.of_nat (size (hm_abs hm)) = hm_num_data hm /\
  (forall k v, exists hm', zbx_hashmap_set hash_func hm k v = Ret hm' /\ hm_ok hash_func hm' /\
     hm_abs hm' = <[k := v]> (hm_abs hm)) /\
  (forall k, hm_ok hash_func (zbx_hashmap_remove hash_func hm k) /\
     hm_abs (zbx_hashmap_remove hash_func hm k) = delete k (hm_abs hm)) /\
  hm_ok hash_func (zbx_hashmap_clear hm) /\ hm_abs (zbx_hashmap_clear hm) = ∅.
Proof.
  intros H. split_and!; intros.
  - by apply hm_get_abs.
  - by eapply hm_abs_size.
  - by apply hashmap_set_ok.
  - by apply hashmap_remove_ok.
  - by apply hashmap_clear_ok.
  - by eapply hashmap_clear_ok.
Qed.

Lemma hashmap_refines_witness :
  exists hm', zbx_hashmap_set zbx_hash_splittable64 (zbx_hashmap_create 0) 7 3 = Ret hm' /\
    hm_ok zbx_hash_splittable64 hm' /\ hm_abs hm' = <[7 := 3]> ∅.
Proof.
  assert (H : hm_ok zbx_hash_splittable64 (zbx_hashmap_create 0)) by apply hm_create_ok.
  apply (hashmap_refines_map zbx_hash_splittable64 (zbx_hashmap_create 0) H).
Defined.

(** ** The hash map is a key index *)

#[export] Program Instance hashmap_index : KeyIndex hashmap := {|
  ki_ok := hm_ok zbx_hash_splittable64;
  ki_get := zbx_hashmap_get zbx_hash_splittable64;
  ki_set := zbx_hashmap_set zbx_hash_splittable64;
  ki_remove := zbx_hashmap_remove zbx_hash_splittable64;
  ki_clear := zbx_hashmap_clear;
  ki_create := zbx_hashmap_create |}.
Next Obligation. intros n _. apply hm_create_ok. Qed.
Next Obligation.
  intros n k _. destruct (hm_create_ok zbx_hash_splittable64 n) as [H E].
  rewrite hm_get_abs by done. unfold hm_abs. by rewrite E.
Qed.
Next Obligation.
  intros m k v H _. destruct (hashmap_set_ok _ m k v H) as (m' & ? & ? & E).
  exists m'. split_and!; [done..|]. intros k'. rewrite !hm_get_abs by done. rewrite E.
  rewrite lookup_insert. by case_decide.
Qed.
Next Obligation.
  intros m k H. destruct (hashmap_remove_ok _ m k H) as [H' E].
  split; [done|]. intros k'. rewrite !hm_get_abs by done. rewrite E.
  rewrite lookup_delete. by case_decide.
Qed.
Next Obligation.
  intros m H. destruct (hashmap_clear_ok _ m H) as [H' E].
  split; [done|]. intros k. rewrite hm_get_abs by done. by rewrite E.
Qed.
