(* ===== verification/BinaryHeap.v ===== *)
(** * Binary heap (src/libs/zbxalgo/binaryheap.c)

    A min-heap of elements with a 64-bit key, ordered by a caller supplied
    comparison, optionally ("direct" option) with an index from keys to array
    positions that allows updating and removing elements by key.  [h_elems]
    are the [elems_num] elements in use, [h_alloc] is the capacity, [h_index]
    the key index when the direct option is set.

    The heap is proved against the [KeyIndex] interface, for every index and
    every comparison that is a total preorder. *)
From stdpp Require Import prelude list.
From Stdlib Require Import ZArith Lia.
From S2P Require Import Prelude Algodefs Hashmap.
#[local] Open Scope Z_scope.

Record elem := Elem { key : Z; data : Z; local_data : Z }.

Record heap (M : Type) := Heap { h_elems : list elem; h_alloc : Z; h_null : bool; h_index : option M }.
Arguments Heap {M} _ _ _ _.
Arguments h_elems {M} _.
Arguments h_alloc {M} _.
Arguments h_null {M} _.
Arguments h_index {M} _.

Section model.
Context {M : Type} `{KeyIndex M}.
(** [heap->compare_func]. *)
Variable compare_func : elem -> elem -> Z.
Implicit Type h : heap M.

Definition set_elems h (l : list elem) : heap M := Heap l (h_alloc h) (h_null h) (h_index h).
Definition set_index h (m : option M) : heap M := Heap (h_elems h) (h_alloc h) (h_null h) m.

(** [if (HAS_DIRECT_OPTION(heap)) zbx_hashmap_set(heap->key_index, k, i);] *)
Definition index_set (m : option M) (k : Z) (i : nat) : res (option M) :=
  match m with
  | None => Ret None
  | Some m => m ← ki_set m k (Z.of_nat i); Ret (Some m)
  end.

Definition swap h (index_1 index_2 : nat) : res (heap M) :=
  a ← of_opt BadAccess (h_elems h !! index_1);
  b ← of_opt BadAccess (h_elems h !! index_2);
  let h := set_elems h (<[index_2 := a]> (<[index_1 := b]> (h_elems h))) in
  m ← index_set (h_index h) (key b) index_1;
  m ← index_set m (key a) index_2;
  Ret (set_index h m).

Definition binary_heap_ensure_free_space h : heap M :=
  if h_null h then Heap [] 32 false (h_index h)
  else if zlen (h_elems h) =? h_alloc h
  then Heap (h_elems h) (Z.max (h_alloc h + 1) (Z.quot (h_alloc h * 3) 2)) false (h_index h)
  else h.

Fixpoint bubble_up (fuel : nat) h (index : nat) : res (heap M * nat) :=
  match fuel with
  | O => if decide (index = 0%nat) then Ret (h, index) else Halt OutOfFuel
  | S fuel =>
      if decide (index = 0%nat) then Ret (h, index)
      else
        let parent := ((index - 1) / 2)%nat in
        p ← of_opt BadAccess (h_elems h !! parent);
        e ← of_opt BadAccess (h_elems h !! index);
        if compare_func p e <=? 0 then Ret (h, index)
        else h ← swap h parent index; bubble_up fuel h parent
  end.

Definition binary_heap_bubble_up h (index : nat) : res (heap M * nat) := bubble_up index h index.

Fixpoint bubble_down (fuel : nat) h (index : nat) : res (heap M * nat) :=
  match fuel with
  | O => Halt OutOfFuel
  | S fuel =>
      let left := (2 * index + 1)%nat in
      let right := (2 * index + 2)%nat in
      let elems_num := length (h_elems h) in
      if decide (elems_num <= left)%nat then Ret (h, index)
      else
        e ← of_opt BadAccess (h_elems h !! index);
        l ← of_opt BadAccess (h_elems h !! left);
        if decide (elems_num <= right)%nat then
          if 0 <? compare_func e l then h ← swap h index left; Ret (h, left) else Ret (h, index)
        else
          r ← of_opt BadAccess (h_elems h !! right);
          if compare_func l r <=? 0 then
            if 0 <? compare_func e l then h ← swap h index left; bubble_down fuel h left
            else Ret (h, index)
          else
            if 0 <? compare_func e r then h ← swap h index right; bubble_down fuel h right
            else Ret (h, index)
  end.

Definition binary_heap_bubble_down h (index : nat) : res (heap M * nat) :=
  bubble_down (S (length (h_elems h))) h index.

Definition zbx_binary_heap_create (direct : bool) : heap M :=
  Heap [] 0 true (if direct then Some (ki_create 512) else None).

Definition zbx_binary_heap_destroy h : heap M := Heap [] 0 true None.

Definition zbx_binary_heap_empty h : Z := if decide (length (h_elems h) = 0%nat) then SUCCEED else FAIL.

Definition zbx_binary_heap_find_min h : res elem :=
  match h_elems h with [] => Halt ExitFailure | e :: _ => Ret e end.

Definition zbx_binary_heap_insert h (e : elem) : res (heap M) :=
  if match h_index h with Some m => negb (ki_get m (key e) =? FAIL) | None => false end
  then Halt ExitFailure
  else
    let h := binary_heap_ensure_free_space h in
    let index := length (h_elems h) in
    if zlen (h_elems h) <? h_alloc h then
      let h := set_elems h (h_elems h ++ [e]) in
      '(h, index) ← binary_heap_bubble_up h index;
      if decide (index = length (h_elems h) - 1)%nat
      then m ← index_set (h_index h) (key e) index; Ret (set_index h m)
      else Ret h
    else Halt BadAccess.

Definition zbx_binary_heap_update_direct h (e : elem) : res (heap M) :=
  match h_index h with
  | None => Halt ExitFailure
  | Some m =>
      let index := ki_get m (key e) in
      if index =? FAIL then Halt ExitFailure
      else
        let index := Z.to_nat index in
        _ ← of_opt BadAccess (h_elems h !! index);
        let h := set_elems h (<[index := e]> (h_elems h)) in
        '(h, i) ← binary_heap_bubble_up h index;
        if decide (index = i) then '(h, _) ← binary_heap_bubble_down h index; Ret h else Ret h
  end.

Definition zbx_binary_heap_remove_min h : res (heap M) :=
  match h_elems h with
  | [] => Halt ExitFailure
  | e :: _ =>
      let h := set_index h ((fun m => ki_remove m (key e)) <$> h_index h) in
      let h := set_elems h (swap_remove (h_elems h) 0) in
      if decide (length (h_elems h) = 0%nat) then Ret h
      else
        '(h, index) ← binary_heap_bubble_down h 0;
        if decide (index = 0%nat) then
          e ← of_opt BadAccess (h_elems h !! index);
          m ← index_set (h_index h) (key e) index;
          Ret (set_index h m)
        else Ret h
  end.

Definition zbx_binary_heap_remove_direct h (k : Z) : res (heap M) :=
  match h_index h with
  | None => Halt ExitFailure
  | Some m =>
      let index := ki_get m k in
      if index =? FAIL then Halt ExitFailure
      else
        let index := Z.to_nat index in
        let h := set_index h (Some (ki_remove m k)) in
        let h := set_elems h (swap_remove (h_elems h) index) in
        if decide (index = length (h_elems h)) then Ret h
        else
          '(h, i) ← binary_heap_bubble_up h index;
          if decide (index = i) then
            '(h, i) ← binary_heap_bubble_down h index;
            if decide (index = i) then
              e ← of_opt BadAccess (h_elems h !! index);
              m ← index_set (h_index h) (key e) index;
              Ret (set_index h m)
            else Ret h
          else Ret h
  end.

Definition zbx_binary_heap_clear h : heap M :=
  Heap [] (h_alloc h) (h_null h) (ki_clear <$> h_index h).

End model.

(** ** Heap order *)

Section order.
Variable compare_func : elem -> elem -> Z.
Definition le (a b : elem) : Prop := compare_func a b <= 0.
Hypothesis le_total : forall a b, le a b \/ le b a.
Hypothesis le_trans : forall a b c, le a b -> le b c -> le a c.

Lemma le_refl a : le a a.
Proof using le_total. destruct (le_total a a); done. Qed.

Lemma gt_le a b : 0 < compare_func a b -> le b a.
Proof using le_total. intros. destruct (le_total a b) as [E|]; [unfold le in E; lia|done]. Qed.

Definition parent (i : nat) : nat := ((i - 1) / 2)%nat.

Lemma parent_lt i : (0 < i)%nat -> (parent i < i)%nat.
Proof using. unfold parent. intros. apply Nat.Div0.div_lt_upper_bound. lia. Qed.

Lemma parent_child i j : (0 < i)%nat -> parent i = j <-> i = (2 * j + 1)%nat \/ i = (2 * j + 2)%nat.
Proof using.
  unfold parent. intros. pose proof (Nat.div_mod_eq (i - 1) 2). pose proof (Nat.mod_upper_bound (i - 1) 2). lia.
Qed.

(** Every edge but those to the children in [E] is in order. *)
Definition ord_except (l : list elem) (E : nat -> Prop) : Prop :=
  forall i p e, (0 < i)%nat -> ~ E i -> l !! parent i = Some p -> l !! i = Some e -> le p e.

Definition heap_ord (l : list elem) : Prop := ord_except l (fun _ => False).

(** The parent of [j] is below the children of [j]. *)
Definition grand (l : list elem) (j : nat) : Prop :=
  forall i p e, (0 < i)%nat -> (0 < j)%nat -> parent i = j ->
    l !! parent j = Some p -> l !! i = Some e -> le p e.

Definition ord_up l j : Prop := ord_except l (fun i => i = j) /\ grand l j.
Definition ord_down l j : Prop := ord_except l (fun i => parent i = j) /\ grand l j.
Definition ord_both l j : Prop := ord_except l (fun i => i = j \/ parent i = j) /\ grand l j.

Definition lswap (l : list elem) (i j : nat) (a b : elem) : list elem := <[j := a]> (<[i := b]> l).

Lemma lswap_lookup l i j a b x :
  l !! i = Some a -> l !! j = Some b ->
  lswap l i j a b !! x = if decide (x = j) then Some a else if decide (x = i) then Some b else l !! x.
Proof using.
  intros Hi%lookup_lt_Some Hj%lookup_lt_Some. unfold lswap.
  rewrite !list_lookup_insert, length_insert. repeat case_decide; naive_solver.
Qed.

Lemma lswap_perm l i j a b : i <> j -> l !! i = Some a -> l !! j = Some b -> lswap l i j a b ≡ₚ l.
Proof using.
  intros _ Hi Hj. unfold lswap. by apply Permutation_insert_swap.
Qed.

Lemma up_step l j p e :
  (0 < j)%nat -> l !! parent j = Some p -> l !! j = Some e -> 0 < compare_func p e ->
  ord_up l j -> ord_up (lswap l (parent j) j p e) (parent j).
Proof using le_total le_trans.
  intros Hj Hp He Hgt%gt_le [Ho Hg]. pose proof (parent_lt j Hj).
  split.
  - intros i p' e' Hi Hne. rewrite !(lswap_lookup l _ _ p e) by done. pose proof (parent_lt i Hi).
    repeat case_decide; subst; intros; simplify_eq; try lia; try done; eauto.
    apply le_trans with p; [done|]. eapply (Ho i); eauto. congruence.
  - intros i p' e' Hi Hq Hpi. rewrite !(lswap_lookup l _ _ p e) by done.
    pose proof (parent_lt i Hi). pose proof (parent_lt (parent j) Hq).
    repeat case_decide; subst; intros; simplify_eq; try lia; eauto.
    apply le_trans with p; [eapply (Ho (parent j)); eauto; simpl; lia|].
    eapply (Ho i); eauto. by rewrite Hpi.
Qed.

Lemma down_step l j c e cv :
  (0 < c)%nat -> parent c = j -> l !! j = Some e -> l !! c = Some cv -> 0 < compare_func e cv ->
  (forall i s, (0 < i)%nat -> parent i = j -> l !! i = Some s -> le cv s) ->
  ord_down l j -> ord_down (lswap l j c e cv) c.
Proof using le_total le_trans.
  intros Hc Hpc He Hcv Hgt%gt_le Hmin [Ho Hg]. pose proof (parent_lt c Hc).
  split.
  - intros i p' e' Hi Hne. rewrite !(lswap_lookup l _ _ e cv) by done. pose proof (parent_lt i Hi).
    repeat case_decide; subst; intros; simplify_eq; try lia; try done; eauto.
  - intros i p' e' Hi Hq Hpi. rewrite !(lswap_lookup l _ _ e cv) by done. pose proof (parent_lt i Hi).
    repeat case_decide; subst; intros; simplify_eq; try lia; eauto.
Qed.

(** An element smaller than its parent may violate the order downwards only
    if it did so before: its children are above its parent. *)
Lemma both_up l j p e :
  (0 < j)%nat -> l !! parent j = Some p -> l !! j = Some e -> 0 < compare_func p e ->
  ord_both l j -> ord_up l j.
Proof using le_total le_trans.
  intros Hj Hp He Hgt%gt_le [Ho Hg]. split; [|done]. intros i p' e' Hi Hne Hp' He'.
  destruct (decide (parent i = j)) as [E|E].
  - rewrite E in Hp'. simplify_eq. apply le_trans with p; [done|]. by eapply (Hg i).
  - eapply (Ho i); eauto. simpl in *. naive_solver.
Qed.

Lemma both_down l j :
  (forall p e, (0 < j)%nat -> l !! parent j = Some p -> l !! j = Some e -> le p e) ->
  ord_both l j -> ord_down l j.
Proof using.
  intros Hle [Ho Hg]. split; [|done]. intros i p e Hi Hne Hp He. simpl in *.
  destruct (decide (i = j)) as [->|]; [by apply Hle|]. eapply (Ho i); eauto. simpl. naive_solver.
Qed.

Lemma heap_ord_edge l i p e :
  heap_ord l -> (0 < i)%nat -> l !! parent i = Some p -> l !! i = Some e -> le p e.
Proof using. intros Ho ???. eapply (Ho i); eauto. Qed.

(** Replacing one element, or the root by the last element. *)
Lemma heap_ord_insert l j x : heap_ord l -> ord_both (<[j := x]> l) j.
Proof using le_trans.
  intros Ho. split.
  - intros i p e Hi Hne. simpl in Hne. rewrite !list_lookup_insert_ne by naive_solver.
    apply (Ho i); [done|tauto].
  - intros i p e Hi Hj Hpi. pose proof (parent_lt i Hi). pose proof (parent_lt j Hj).
    rewrite !list_lookup_insert_ne by lia. intros Hp He.
    destruct (lookup_lt_is_Some_2 l j) as [y Hy]; [apply lookup_lt_Some in He; lia|].
    apply le_trans with y; [by eapply (heap_ord_edge l j)|]. eapply (heap_ord_edge l i); eauto. by rewrite Hpi.
Qed.

Lemma ord_both_take l j n : ord_both l j -> ord_both (take n l) j.
Proof using.
  intros [Ho Hg]. split.
  - intros i p e Hi Hne Hp He. apply lookup_take_Some in Hp as [Hp _], He as [He _]. by eapply (Ho i).
  - intros i p e Hi Hj Hpi Hp He. apply lookup_take_Some in Hp as [Hp _], He as [He _]. by eapply (Hg i).
Qed.

Lemma heap_ord_swap_remove l j : heap_ord l -> ord_both (swap_remove l j) j.
Proof using le_trans.
  intros Ho. unfold swap_remove. destruct (last l) as [x|] eqn:E.
  - by apply ord_both_take, heap_ord_insert.
  - apply last_None in E as ->. split; intros ? ? ? ? ? ?; done.
Qed.

Lemma heap_ord_snoc l x : heap_ord l -> ord_up (l ++ [x]) (length l).
Proof using.
  intros Ho. split.
  - intros i p e Hi Hne Hp He. simpl in Hne. pose proof (parent_lt i Hi).
    pose proof (lookup_lt_Some _ _ _ He) as Hlt. rewrite length_app in Hlt. simpl in Hlt.
    rewrite lookup_app_l in Hp, He by lia. by eapply (heap_ord_edge l i).
  - intros i p e Hi Hj Hpi _ He. pose proof (parent_lt i Hi).
    apply lookup_lt_Some in He. rewrite length_app in He. simpl in He. lia.
Qed.

(** The root of an ordered heap is a minimum. *)
Lemma heap_ord_min l r : heap_ord l -> l !! 0%nat = Some r -> Forall (le r) l.
Proof using le_total le_trans.
  intros Ho Hr. apply Forall_lookup. intros i. induction (lt_wf i) as [i _ IH]. intros e He.
  destruct (decide (i = 0%nat)) as [->|]; [simplify_eq; by apply le_refl|].
  pose proof (parent_lt i ltac:(lia)).
  destruct (lookup_lt_is_Some_2 l (parent i)) as [p Hp]; [apply lookup_lt_Some in He; lia|].
  apply le_trans with p; [by eapply IH|]. by eapply (heap_ord_edge l i); [|lia|..].
Qed.

End order.

(** ** Operations *)

Section theory.
Context {M : Type} `{KeyIndex M}.
Variable compare_func : elem -> elem -> Z.
#[local] Abbreviation le := (le compare_func).
Hypothesis le_total : forall a b, le a b \/ le b a.
Hypothesis le_trans : forall a b c, le a b -> le b c -> le a c.
Implicit Type h : heap M.

(** The index, if there is one, maps the keys at the positions in [P] to
    these positions and unknown keys to FAIL; keys are distinct. *)
Definition idx h (P : nat -> Prop) : Prop :=
  match h_index h with
  | None => True
  | Some m => ki_ok m /\ NoDup (key <$> h_elems h) /\
      (forall i e, h_elems h !! i = Some e -> P i -> ki_get m (key e) = Z.of_nat i) /\
      (forall k, k ∉ key <$> h_elems h -> ki_get m k = FAIL)
  end.

(** Same capacity and option. *)
Definition same h h' : Prop :=
  h_alloc h' = h_alloc h /\ h_null h' = h_null h /\ (h_index h' = None <-> h_index h = None).

Record heap_ok h : Prop := {
  ok_ord : heap_ord compare_func (h_elems h);
  ok_idx : idx h (fun _ => True);
  ok_space : zlen (h_elems h) <= h_alloc h;
  ok_null : h_null h = true -> h_elems h = [] }.

Lemma same_refl h : same h h.
Proof using. done. Qed.

Lemma same_trans h1 h2 h3 : same h1 h2 -> same h2 h3 -> same h1 h3.
Proof using. intros (? & ? & ?) (? & ? & ?). split_and!; [congruence..|tauto]. Qed.

Lemma idx_weaken h (P Q : nat -> Prop) : (forall i, Q i -> P i) -> idx h P -> idx h Q.
Proof using. unfold idx. destruct (h_index h); naive_solver. Qed.

Lemma key_distinct (l : list elem) i j a b :
  NoDup (key <$> l) -> l !! i = Some a -> l !! j = Some b -> key a = key b -> i = j.
Proof using.
  intros ND Ha Hb E. eapply (NoDup_lookup (key <$> l) i j (key a)); [done|..];
    rewrite list_lookup_fmap; rewrite ?Ha, ?Hb; simpl; congruence.
Qed.

(** Setting the index of the element at [i]. *)
Lemma index_set_ok h P i e :
  idx h P -> h_elems h !! i = Some e ->
  exists m, index_set (h_index h) (key e) i = Ret m /\ same h (set_index h m) /\
    idx (set_index h m) (fun x => P x \/ x = i).
Proof using.
  intros Hi He. unfold index_set, idx, same in *. simpl. destruct (h_index h) as [m|]; [|by exists None].
  destruct Hi as (Hok & ND & Hget & Hno).
  destruct (ki_set_ok m (key e) (Z.of_nat i) Hok) as (m' & -> & Hok' & Hg); [unfold FAIL; lia|].
  simpl. exists (Some m'). split_and!; try done.
  - intros j x Hx Pj. rewrite Hg. case_decide as Ek.
    + f_equal. by eapply key_distinct.
    + destruct Pj as [Pj| ->]; [by apply Hget|]. by simplify_eq.
  - intros k Hk. rewrite Hg. case_decide; [|by apply Hno]. subst. destruct Hk.
    apply list_elem_of_fmap. exists e. split; [done|]. by eapply list_elem_of_lookup_2.
Qed.

Lemma idx_perm h l P (f : nat -> Prop) :
  l ≡ₚ h_elems h -> idx h P ->
  (forall i e, l !! i = Some e -> f i -> h_elems h !! i = Some e /\ P i) -> idx (set_elems h l) f.
Proof using.
  unfold idx. simpl. intros Hp. destruct (h_index h) as [m|]; [|done].
  intros (? & ? & Hget & Hno) Hf. split_and!; [done|by rewrite Hp| |].
  - intros i e He Hi. destruct (Hf i e He Hi). by apply Hget.
  - intros k Hk. apply Hno. by rewrite <- Hp.
Qed.

Lemma swap_ok h i j a b P :
  i <> j -> h_elems h !! i = Some a -> h_elems h !! j = Some b -> idx h P ->
  exists h', swap h i j = Ret h' /\ h_elems h' = lswap (h_elems h) i j a b /\ same h h' /\
    idx h' (fun x => P x \/ x = i \/ x = j).
Proof using.
  intros Hne Ha Hb Hi. unfold swap. rewrite Ha, Hb. simpl.
  pose proof (lswap_perm _ _ _ _ _ Hne Ha Hb) as Hp.
  set (h1 := set_elems h (<[j := a]> (<[i := b]> (h_elems h)))).
  assert (Hl : forall x, h_elems h1 !! x = if decide (x = j) then Some a else if decide (x = i) then Some b else h_elems h !! x).
  { intros x. by apply (lswap_lookup (h_elems h) i j). }
  assert (I1 : idx h1 (fun x => P x /\ x <> i /\ x <> j)).
  { eapply idx_perm; [exact Hp|exact Hi|]. intros x e Hx (? & ? & ?).
    change (h_elems h1 !! x = Some e) in Hx. rewrite (Hl x) in Hx. by rewrite !decide_False in Hx by done. }
  assert (E1 : h_elems h1 !! i = Some b) by (rewrite Hl, decide_False, decide_True by done; done).
  assert (E2 : h_elems h1 !! j = Some a) by (rewrite Hl, decide_True by done; done).
  destruct (index_set_ok h1 _ i b I1 E1) as (m1 & Em & S1 & I2).
  change (h_index h1) with (h_index h) in Em. rewrite Em. simpl.
  destruct (index_set_ok (set_index h1 m1) _ j a I2 E2) as (m2 & E & S2 & I3). simpl in E. rewrite E. simpl.
  eexists; split_and!; [done|done|by eapply same_trans; [exact S1|]|].
  eapply idx_weaken; [|exact I3]. intros x. simpl. destruct (decide (x = i)), (decide (x = j)); tauto.
Qed.

(** Result of moving the element at [j], which the index possibly does not
    record unless [Q]: an ordered heap of the same elements, fully recorded if
    the element was moved. *)
Definition bubbled h (j : nat) (Q : Prop) h' (r : nat) : Prop :=
  h_elems h' ≡ₚ h_elems h /\ same h h' /\ heap_ord compare_func (h_elems h') /\
  idx h' (fun x => x <> j \/ Q \/ r <> j) /\ (r = j -> h' = h).

Lemma bubbled_stay h j (Q : Prop) :
  heap_ord compare_func (h_elems h) -> idx h (fun x => x <> j \/ Q) -> bubbled h j Q h j.
Proof using. intros Ho Hi. split_and!; try done. eapply idx_weaken; [|exact Hi]. simpl. tauto. Qed.

Lemma bubbled_trans h h1 h2 j (Q : Prop) k r :
  bubbled h1 k True h2 r -> h_elems h1 ≡ₚ h_elems h -> same h h1 -> r <> j -> bubbled h j Q h2 r.
Proof using.
  intros (P2 & S2 & O2 & I2 & _) P1 S1 Hr. split_and!; [by rewrite P2|by eapply same_trans|done| |done].
  eapply idx_weaken; [|exact I2]. simpl. tauto.
Qed.

Lemma bubble_up_ok fuel h j (Q : Prop) :
  (j <= fuel)%nat -> (j < length (h_elems h))%nat -> ord_up compare_func (h_elems h) j ->
  idx h (fun x => x <> j \/ Q) ->
  exists h' r, bubble_up compare_func fuel h j = Ret (h', r) /\ (r <= j)%nat /\ bubbled h j Q h' r.
Proof using le_total le_trans.
  revert h j Q. induction fuel as [|fuel IH]; intros h j Q Hf Hlt Ho Hi; cbn [bubble_up].
  { assert (j = 0%nat) as -> by lia. exists h, 0%nat. split_and!; [done..|].
    apply bubbled_stay; [|done]. intros i p e ? _. apply (proj1 Ho); lia. }
  case_decide as Hj.
  { subst. exists h, 0%nat. split_and!; [done..|].
    apply bubbled_stay; [|done]. intros i p e ? _. apply (proj1 Ho); lia. }
  change ((j - 1) / 2)%nat with (parent j). pose proof (parent_lt j ltac:(lia)).
  destruct (lookup_lt_is_Some_2 (h_elems h) (parent j)) as [p Hp]; [lia|].
  destruct (lookup_lt_is_Some_2 (h_elems h) j) as [e He]; [lia|]. rewrite Hp, He. simpl.
  destruct (Z.leb_spec (compare_func p e) 0) as [Hle|Hgt].
  - exists h, j. split_and!; [done..|]. apply bubbled_stay; [|done].
    intros i p' e' Hi' _ Hp' He'. destruct (decide (i = j)) as [->|]; [by simplify_eq|].
    by eapply (proj1 Ho i).
  - destruct (swap_ok h (parent j) j p e _ ltac:(lia) Hp He Hi) as (h1 & -> & E1 & S1 & I1). simpl.
    assert (P1 : h_elems h1 ≡ₚ h_elems h) by (rewrite E1; apply lswap_perm; try done; lia).
    destruct (IH h1 (parent j) True) as (h' & r & -> & Hr & B).
    + lia.
    + rewrite P1. lia.
    + rewrite E1. eapply (up_step compare_func le_total le_trans); eauto; lia.
    + eapply idx_weaken; [|exact I1]. intros x _. simpl. destruct (decide (x = j)); tauto.
    + exists h', r. split_and!; [done|lia|]. eapply bubbled_trans; eauto. lia.
Qed.

(** Leaving the element at [j], or swapping it with its child [c]. *)
Lemma down_stay h j (Q : Prop) :
  ord_down compare_func (h_elems h) j -> idx h (fun x => x <> j \/ Q) ->
  (forall i p e, (0 < i)%nat -> parent i = j -> h_elems h !! j = Some p -> h_elems h !! i = Some e -> le p e) ->
  bubbled h j Q h j.
Proof using.
  intros Ho Hi Hle. apply bubbled_stay; [|done]. intros i p e Hi' _ Hp He.
  destruct (decide (parent i = j)) as [E|E]; [eapply Hle; eauto; by rewrite <- E|]. by eapply (proj1 Ho i).
Qed.

Lemma down_swap h j (Q : Prop) c e cv :
  ord_down compare_func (h_elems h) j -> idx h (fun x => x <> j \/ Q) ->
  (0 < c)%nat -> parent c = j -> h_elems h !! j = Some e -> h_elems h !! c = Some cv ->
  0 < compare_func e cv -> (forall i s, (0 < i)%nat -> parent i = j -> h_elems h !! i = Some s -> le cv s) ->
  exists h1, swap h j c = Ret h1 /\ h_elems h1 ≡ₚ h_elems h /\ same h h1 /\
    ord_down compare_func (h_elems h1) c /\ idx h1 (fun x => x <> c \/ True).
Proof using le_total le_trans.
  intros Ho Hi Hc Hpc He Hcv Hgt Hmin. pose proof (parent_lt c Hc).
  destruct (swap_ok h j c e cv _ ltac:(lia) He Hcv Hi) as (h1 & -> & E1 & S1 & I1).
  exists h1. rewrite E1. split_and!; [done|apply lswap_perm; try done; lia|done| |].
  - by apply (down_step compare_func le_total le_trans).
  - eapply idx_weaken; [|exact I1]. intros x _. simpl. destruct (decide (x = j)); tauto.
Qed.

Lemma bubble_down_ok fuel h j (Q : Prop) :
  (length (h_elems h) - j < fuel)%nat -> (j < length (h_elems h))%nat ->
  ord_down compare_func (h_elems h) j -> idx h (fun x => x <> j \/ Q) ->
  exists h' r, bubble_down compare_func fuel h j = Ret (h', r) /\ (j <= r)%nat /\ bubbled h j Q h' r.
Proof using le_total le_trans.
  revert h j Q. induction fuel as [|fuel IH]; intros h j Q Hf Hlt Ho Hi; [lia|].
  cbn [bubble_down]. case_decide as Hl.
  { exists h, j. split_and!; [done..|]. apply down_stay; [done..|].
    intros i p e Hi' Hpi _ He%lookup_lt_Some. apply parent_child in Hpi; [|done]. lia. }
  destruct (lookup_lt_is_Some_2 (h_elems h) j) as [e He]; [lia|].
  destruct (lookup_lt_is_Some_2 (h_elems h) (2 * j + 1)) as [l Hlf]; [lia|].
  rewrite He, Hlf. cbn [mbind res_mbind of_opt]. case_decide as Hr.
  - assert (Hmin : forall i s, (0 < i)%nat -> parent i = j -> h_elems h !! i = Some s -> s = l).
    { intros i s Hi' Hpi Hs. apply parent_child in Hpi as [->| ->]; [congruence| |done].
      apply lookup_lt_Some in Hs. lia. }
    destruct (Z.ltb_spec 0 (compare_func e l)) as [Hgt|Hle].
    + destruct (down_swap h j Q (2 * j + 1) e l) as (h1 & E1 & P1 & S1 & O1 & I1);
        [done|done|lia|by apply parent_child; lia|done|done|done| |].
      { intros i s Hi' Hpi Hs. rewrite (Hmin i s) by done. by apply le_refl. }
      rewrite E1. simpl. exists h1, (2 * j + 1)%nat. split_and!; [done|lia|].
      eapply bubbled_trans; [|exact P1|exact S1|lia]. apply down_stay; [exact O1|exact I1|].
      intros i p' e' Hi' Hpi _ He'%lookup_lt_Some. rewrite P1 in He'.
      apply parent_child in Hpi; [|done]. lia.
    + exists h, j. split_and!; [done..|]. apply down_stay; [done..|]. intros i p e' Hi' Hpi Hp He'.
      rewrite (Hmin i e') by done. by replace p with e by congruence.
  - destruct (lookup_lt_is_Some_2 (h_elems h) (2 * j + 2)) as [r Hrt]; [lia|].
    rewrite Hrt. cbn [mbind res_mbind of_opt].
    assert (step : forall c cv, (c = 2 * j + 1 \/ c = 2 * j + 2)%nat -> h_elems h !! c = Some cv ->
      le cv l -> le cv r ->
      exists h' x, (if 0 <? compare_func e cv then h1 ← swap h j c; bubble_down compare_func fuel h1 c else Ret (h, j))
          = Ret (h', x) /\ (j <= x)%nat /\ bubbled h j Q h' x).
    { intros c cv Hc Hcv Hll Hrr.
      assert (Hmin : forall i s, (0 < i)%nat -> parent i = j -> h_elems h !! i = Some s -> le cv s).
      { intros i s Hi' Hpi Hs. apply parent_child in Hpi as [->| ->]; by simplify_eq. }
      destruct (Z.ltb_spec 0 (compare_func e cv)) as [Hgt|Hle].
      - destruct (down_swap h j Q c e cv) as (h1 & E1 & P1 & S1 & O1 & I1);
          [done|done|lia|apply parent_child; lia|done|done|done|done|]. rewrite E1. simpl.
        destruct (IH h1 c True) as (h' & x & E & Hx & B);
          [rewrite P1; lia|rewrite P1; by eapply lookup_lt_Some|done..|].
        exists h', x. split_and!; [done|lia|]. eapply bubbled_trans; eauto. lia.
      - exists h, j. split_and!; [done..|]. apply down_stay; [done..|]. intros i p e' Hi' Hpi Hp He'.
        replace p with e by congruence. apply le_trans with cv; [done|]. by eapply Hmin. }
    destruct (Z.leb_spec (compare_func l r) 0) as [Hlr|Hlr].
    + apply step; [by left|done|by apply le_refl|done].
    + apply step; [by right|done|by apply gt_le|by apply le_refl].
Qed.

(** The key index of a well-formed heap finds exactly the keys present. *)
Lemma index_get h m k :
  idx h (fun _ => True) -> h_index h = Some m ->
  (ki_get m k = FAIL /\ k ∉ key <$> h_elems h) \/
  (exists i e, h_elems h !! i = Some e /\ key e = k /\ ki_get m k = Z.of_nat i).
Proof using.
  unfold idx. intros Hi E. rewrite E in Hi. destruct Hi as (_ & _ & Hg & Hn).
  destruct (decide (k ∈ key <$> h_elems h)) as [Hin|Hin]; [right|left; auto].
  apply list_elem_of_fmap in Hin as (e & -> & Hin). apply list_elem_of_lookup in Hin as [i Hi].
  exists i, e. auto.
Qed.

Lemma idx_snoc h e :
  idx h (fun _ => True) -> (h_index h <> None -> key e ∉ key <$> h_elems h) ->
  idx (set_elems h (h_elems h ++ [e])) (fun x => x <> length (h_elems h)).
Proof using.
  unfold idx. simpl. destruct (h_index h) as [m|]; [|done]. intros (Hok & ND & Hg & Hn) Hni.
  specialize (Hni ltac:(done)). split_and!; [done| | |].
  - rewrite fmap_app. apply NoDup_app. split_and!; [done| |apply NoDup_singleton].
    intros k Hk ->%list_elem_of_singleton. done.
  - intros i x Hx Hne. apply Hg; [|done]. apply lookup_app_Some in Hx as [Hx|[Hl Hx]]; [done|].
    apply list_lookup_singleton_Some in Hx. lia.
  - intros k Hk. apply Hn. rewrite fmap_app, elem_of_app in Hk. tauto.
Qed.

Lemma idx_replace h i old e :
  idx h (fun _ => True) -> h_elems h !! i = Some old -> key old = key e ->
  idx (set_elems h (<[i := e]> (h_elems h))) (fun x => x <> i \/ True).
Proof using.
  unfold idx. simpl. destruct (h_index h) as [m|]; [|done]. intros (Hok & ND & Hg & Hn) Ho Hk.
  assert (E : key <$> <[i := e]> (h_elems h) = key <$> h_elems h).
  { rewrite list_fmap_insert. apply list_insert_id. rewrite list_lookup_fmap, Ho. simpl. by rewrite Hk. }
  rewrite E. split_and!; try done. intros j x Hx _. rewrite list_lookup_insert in Hx.
  case_decide as D; simplify_eq; [|by apply Hg]. destruct D as [-> _]. rewrite <- Hk. by apply Hg.
Qed.

Lemma idx_swap_remove h i e :
  idx h (fun _ => True) -> h_elems h !! i = Some e ->
  idx (set_elems (set_index h ((fun m => ki_remove m (key e)) <$> h_index h)) (swap_remove (h_elems h) i))
    (fun x => x <> i \/ False).
Proof using.
  unfold idx. simpl. destruct (h_index h) as [m|]; [|done]. simpl. intros (Hok & ND & Hg & Hn) He.
  pose proof (swap_remove_perm _ _ _ He) as Hp. destruct (ki_remove_ok m (key e) Hok) as [Hok' Hg'].
  pose proof ND as ND'. rewrite Hp in ND'. simpl in ND'. apply NoDup_cons in ND' as [Hni ND'].
  split_and!; [done|done| |].
  - intros j x Hx [Hne|[]]. rewrite Hg'. pose proof (lookup_lt_Some _ _ _ Hx) as Hlt.
    rewrite swap_remove_length in Hlt. pose proof (lookup_lt_Some _ _ _ He).
    rewrite swap_remove_lookup in Hx by lia. rewrite decide_False in Hx by congruence.
    rewrite decide_False; [by apply Hg|]. intros Hk. apply Hne. symmetry.
    by apply (key_distinct (h_elems h) i j e x).
  - intros k Hk. rewrite Hg'. case_decide as D; [done|]. apply Hn. rewrite Hp. simpl.
    intros [Hin|Hin]%elem_of_cons; [by apply D|by apply Hk].
Qed.

Lemma ensure_space_ok h :
  heap_ok h -> let h' := binary_heap_ensure_free_space h in
  h_elems h' = h_elems h /\ h_index h' = h_index h /\ zlen (h_elems h) < h_alloc h' /\ h_null h' = false.
Proof using.
  intros [_ _ Hs Hn]. unfold binary_heap_ensure_free_space. destruct (h_null h) eqn:E; simpl.
  - rewrite Hn by done. done.
  - destruct (Z.eqb_spec (zlen (h_elems h)) (h_alloc h)); simpl; split_and!; try done; lia.
Qed.

(** Finishing an operation that left [j] unrecorded unless the element moved. *)
Lemma record_index h1 h2 j r :
  bubbled h1 j False h2 r ->
  zlen (h_elems h1) <= h_alloc h1 -> (h_null h1 = true -> h_elems h1 = []) -> (j < length (h_elems h1))%nat ->
  exists h3, (if decide (r = j) then
      e ← of_opt BadAccess (h_elems h2 !! r); m ← index_set (h_index h2) (key e) r; Ret (set_index h2 m)
    else Ret h2) = Ret h3 /\ heap_ok h3 /\ h_elems h3 ≡ₚ h_elems h1 /\ same h1 h3.
Proof using.
  intros (P & S & O & I & St) Hs Hn Hj. pose proof S as (Sa & Sn & _).
  assert (Hs2 : zlen (h_elems h2) <= h_alloc h2) by (unfold zlen in *; rewrite Sa, P; done).
  assert (Hn2 : h_null h2 = true -> h_elems h2 = []).
  { rewrite Sn. intros E. apply Permutation_nil_r. rewrite <- (Hn E). done. }
  case_decide as D.
  - subst r. rewrite (St eq_refl) in *. destruct (lookup_lt_is_Some_2 (h_elems h1) j) as [e He]; [done|].
    rewrite He. simpl. destruct (index_set_ok h1 _ j e I He) as (m & -> & S3 & I3). simpl.
    eexists; split_and!; [done| |done|done]. split; [done| |done..].
    eapply idx_weaken; [|exact I3]. intros x _. simpl. destruct (decide (x = j)); tauto.
  - exists h2. split_and!; [done| |done|done]. split; [done| |done..].
    eapply idx_weaken; [|exact I]. simpl. tauto.
Qed.

Lemma insert_ok h e :
  heap_ok h -> (h_index h <> None -> key e ∉ key <$> h_elems h) ->
  exists h', zbx_binary_heap_insert compare_func h e = Ret h' /\ heap_ok h' /\
    h_elems h' ≡ₚ e :: h_elems h /\ (h_index h' = None <-> h_index h = None).
Proof using le_total le_trans.
  intros Hok Hni. unfold zbx_binary_heap_insert.
  assert ((match h_index h with Some m => negb (ki_get m (key e) =? FAIL) | None => false end) = false) as ->.
  { destruct (h_index h) as [m|] eqn:E; [|done].
    destruct (index_get h m (key e) (ok_idx _ Hok) E) as [[-> _]|(i & x & Hx & Hk & _)]; [done|].
    destruct Hni; [done|]. apply list_elem_of_fmap. exists x. split; [done|]. by eapply list_elem_of_lookup_2. }
  destruct (ensure_space_ok h Hok) as (E1 & E2 & Hsp & En).
  set (h1 := binary_heap_ensure_free_space h) in *. rewrite E1.
  destruct (Z.ltb_spec (zlen (h_elems h)) (h_alloc h1)); [|lia].
  set (h2 := set_elems h1 (h_elems h ++ [e])). set (n := length (h_elems h)).
  assert (L2 : length (h_elems h2) = S n) by (simpl; rewrite length_app; simpl; lia).
  assert (I2 : idx h2 (fun x => x <> n \/ False)).
  { assert (I1 : idx h1 (fun _ => True)) by (unfold idx; rewrite E1, E2; apply Hok).
    rewrite <- E1, <- E2 in Hni. pose proof (idx_snoc h1 e I1 Hni) as I2. rewrite E1 in I2.
    eapply idx_weaken; [|exact I2]. simpl. tauto. }
  unfold binary_heap_bubble_up.
  destruct (bubble_up_ok n h2 n False) as (h3 & r & -> & Hr & B);
    [done|lia|by apply heap_ord_snoc, Hok|done|]. simpl.
  destruct (record_index h2 h3 n r B) as (h4 & E4 & Hok4 & P4 & S4);
    [unfold zlen in *; rewrite L2; simpl; lia|simpl; congruence|lia|].
  assert (L3 : length (h_elems h3) = S n) by (destruct B as [PB _]; by rewrite PB).
  rewrite L3. replace (S n - 1)%nat with n by lia.
  exists h4. split_and!; [|done|rewrite P4; simpl; by rewrite Permutation_app_comm|].
  - rewrite <- E4. case_decide as D; [|done]. subst r.
    destruct B as (_ & _ & _ & _ & St). rewrite (St eq_refl). simpl. rewrite lookup_app_r by done.
    by rewrite Nat.sub_diag.
  - rewrite <- E2. apply S4.
Qed.

(** Restoring the order around [j] in either direction. *)
Lemma fix_ok h j (Q : Prop) :
  (j < length (h_elems h))%nat -> ord_both compare_func (h_elems h) j -> idx h (fun x => x <> j \/ Q) ->
  exists h1 r1, binary_heap_bubble_up compare_func h j = Ret (h1, r1) /\
    ((r1 <> j /\ bubbled h j Q h1 r1) \/
     (r1 = j /\ h1 = h /\ exists h2 r2, binary_heap_bubble_down compare_func h j = Ret (h2, r2) /\ bubbled h j Q h2 r2)).
Proof using le_total le_trans.
  intros Hj Ho Hi. unfold binary_heap_bubble_up, binary_heap_bubble_down.
  assert (down : (forall p e, (0 < j)%nat -> h_elems h !! parent j = Some p -> h_elems h !! j = Some e -> le p e) ->
    exists h2 r2, bubble_down compare_func (S (length (h_elems h))) h j = Ret (h2, r2) /\ bubbled h j Q h2 r2).
  { intros Hle. destruct (bubble_down_ok (S (length (h_elems h))) h j Q) as (h2 & r2 & E & _ & B);
      [lia|done|by apply both_down|done|]. eauto. }
  destruct j as [|j'].
  { exists h, 0%nat. split; [done|]. right. split_and!; [done..|]. apply down. lia. }
  set (j := S j') in *. pose proof (parent_lt j ltac:(lia)).
  destruct (lookup_lt_is_Some_2 (h_elems h) (parent j)) as [p Hp]; [lia|].
  destruct (lookup_lt_is_Some_2 (h_elems h) j) as [e He]; [lia|].
  destruct (Z.leb_spec (compare_func p e) 0) as [Hle|Hgt].
  - exists h, j. split.
    + unfold j at 1. cbn [bubble_up]. change ((j - 1) / 2)%nat with (parent j). rewrite Hp, He.
      cbn [mbind res_mbind of_opt]. by destruct (Z.leb_spec (compare_func p e) 0); [|lia].
    + right. split_and!; [done..|]. apply down. intros. by simplify_eq.
  - destruct (bubble_up_ok j h j Q) as (h' & r & E & Hr & B);
      [done|done|by eapply both_up; eauto; lia|done|]. exists h', r. split; [exact E|]. left. split; [|exact B].
    intros ->. destruct B as (_ & _ & O & _ & St). rewrite (St eq_refl) in O.
    pose proof (heap_ord_edge compare_func _ j p e O ltac:(lia) Hp He) as Hle. unfold BinaryHeap.le in Hle. lia.
Qed.

Lemma heap_ok_bubbled h1 h2 j r :
  bubbled h1 j True h2 r -> zlen (h_elems h1) <= h_alloc h1 -> (h_null h1 = true -> h_elems h1 = []) ->
  heap_ok h2.
Proof using.
  intros (P & (Sa & Sn & _) & O & I & _) Hs Hn. split; [done| | |].
  - eapply idx_weaken; [|exact I]. simpl. tauto.
  - unfold zlen in *. by rewrite Sa, P.
  - rewrite Sn. intros E. apply Permutation_nil_r. by rewrite <- (Hn E).
Qed.

Lemma update_direct_ok h m e i old :
  heap_ok h -> h_index h = Some m -> h_elems h !! i = Some old -> key old = key e ->
  exists h', zbx_binary_heap_update_direct compare_func h e = Ret h' /\ heap_ok h' /\
    h_elems h' ≡ₚ <[i := e]> (h_elems h) /\ h_index h' <> None.
Proof using le_total le_trans.
  intros Hok Hm Hi Hk. unfold zbx_binary_heap_update_direct. rewrite Hm.
  assert (Hg : ki_get m (key e) = Z.of_nat i).
  { pose proof (ok_idx _ Hok) as I. unfold idx in I. rewrite Hm in I. rewrite <- Hk. by apply I. }
  rewrite Hg. destruct (Z.eqb_spec (Z.of_nat i) FAIL) as [E|_]; [unfold FAIL in E; lia|].
  rewrite Nat2Z.id. rewrite Hi. cbn [mbind res_mbind of_opt].
  set (h1 := set_elems h (<[i := e]> (h_elems h))).
  assert (Hs : zlen (h_elems h1) <= h_alloc h1) by (unfold zlen; simpl; rewrite length_insert; apply Hok).
  assert (Hn : h_null h1 = true -> h_elems h1 = []) by (simpl; intros E; by rewrite (ok_null _ Hok E)).
  assert (fin : forall h' r, bubbled h1 i True h' r ->
    heap_ok h' /\ h_elems h' ≡ₚ <[i := e]> (h_elems h) /\ h_index h' <> None).
  { intros h' r B. split_and!; [by eapply heap_ok_bubbled|apply B|].
    destruct B as (_ & (_ & _ & S) & _). simpl in S. rewrite S, Hm. done. }
  destruct (fix_ok h1 i True) as (h2 & r & -> & [[Hr B]|(-> & -> & h3 & r3 & E3 & B)]);
    [simpl; rewrite length_insert; by eapply lookup_lt_Some|by apply heap_ord_insert, Hok|by eapply idx_replace; [apply Hok|..]| |];
    cbn [mbind res_mbind].
  - rewrite decide_False by congruence. eauto.
  - rewrite decide_True by done. rewrite E3. simpl. eauto.
Qed.

(** Removal of the element at [i]. *)
Lemma removed_ok h i e :
  heap_ok h -> h_elems h !! i = Some e ->
  let h1 := set_elems (set_index h ((fun m => ki_remove m (key e)) <$> h_index h)) (swap_remove (h_elems h) i) in
  zlen (h_elems h1) <= h_alloc h1 /\ (h_null h1 = true -> h_elems h1 = []) /\
  ord_both compare_func (h_elems h1) i /\ idx h1 (fun x => x <> i \/ False) /\
  h_elems h ≡ₚ e :: h_elems h1 /\ (h_index h1 = None <-> h_index h = None).
Proof using le_trans.
  intros Hok He h1. split_and!.
  - pose proof (ok_space _ Hok). unfold zlen in *. simpl. rewrite swap_remove_length. lia.
  - simpl. intros E. by rewrite (ok_null _ Hok E).
  - by apply heap_ord_swap_remove, Hok.
  - by apply idx_swap_remove; [apply Hok|].
  - by apply swap_remove_perm.
  - simpl. by destruct (h_index h).
Qed.

(** A removal that took the last element of the array. *)
Lemma removed_last_ok h1 i :
  zlen (h_elems h1) <= h_alloc h1 -> (h_null h1 = true -> h_elems h1 = []) ->
  ord_both compare_func (h_elems h1) i -> idx h1 (fun x => x <> i \/ False) ->
  (length (h_elems h1) <= i)%nat -> heap_ok h1.
Proof using.
  intros Hs Hn [Ho _] Hi Hl. split; try done.
  - intros j p e Hj _ Hp He. eapply (Ho j); eauto. simpl.
    pose proof (lookup_lt_Some _ _ _ He). pose proof (parent_lt j Hj). lia.
  - unfold idx in *. destruct (h_index h1) as [m|]; [|done]. destruct Hi as (? & ? & Hg & ?).
    split_and!; try done. intros j e He _. apply Hg; [done|]. left. apply lookup_lt_Some in He. lia.
Qed.

Lemma remove_min_ok h e rest :
  heap_ok h -> h_elems h = e :: rest ->
  exists h', zbx_binary_heap_remove_min compare_func h = Ret h' /\ heap_ok h' /\
    e :: h_elems h' ≡ₚ h_elems h /\ (h_index h' = None <-> h_index h = None).
Proof using le_total le_trans.
  intros Hok E. unfold zbx_binary_heap_remove_min.
  assert (He : h_elems h !! 0%nat = Some e) by (by rewrite E).
  destruct (removed_ok h 0 e Hok He) as (Hs & Hn & Ho & Hi & Hp & Hx).
  set (h1 := set_elems _ _) in *. rewrite E.
  change (set_elems (set_index h ((fun m => ki_remove m (key e)) <$> h_index h))
     (swap_remove (h_elems (set_index h ((fun m => ki_remove m (key e)) <$> h_index h))) 0)) with h1.
  cbv zeta. case_decide as D.
  - exists h1. split_and!; [done| |by rewrite <- E, Hp|done]. apply (removed_last_ok h1 0); try done. lia.
  - unfold binary_heap_bubble_down.
    destruct (bubble_down_ok (S (length (h_elems h1))) h1 0 False) as (h2 & r & -> & _ & B);
      [lia|lia|apply both_down; [lia|done]|done|]. cbn [mbind res_mbind].
    destruct (record_index h1 h2 0 r B Hs Hn ltac:(lia)) as (h3 & E3 & Hok3 & P3 & S3).
    exists h3. split_and!; [exact E3|done|by rewrite <- E, P3, Hp|].
    destruct S3 as (_ & _ & S). tauto.
Qed.

Lemma heap_remove_direct_ok h m i e :
  heap_ok h -> h_index h = Some m -> h_elems h !! i = Some e ->
  exists h', zbx_binary_heap_remove_direct compare_func h (key e) = Ret h' /\ heap_ok h' /\
    e :: h_elems h' ≡ₚ h_elems h /\ h_index h' <> None.
Proof using le_total le_trans.
  intros Hok Hm He. unfold zbx_binary_heap_remove_direct. rewrite Hm.
  assert (Hg : ki_get m (key e) = Z.of_nat i).
  { pose proof (ok_idx _ Hok) as I. unfold idx in I. rewrite Hm in I. by apply I. }
  rewrite Hg. destruct (Z.eqb_spec (Z.of_nat i) FAIL) as [E|_]; [unfold FAIL in E; lia|].
  rewrite Nat2Z.id. destruct (removed_ok h i e Hok He) as (Hs & Hn & Ho & Hi & Hp & Hx).
  rewrite Hm in Hs, Hn, Ho, Hi, Hp, Hx. simpl in Hx.
  change (set_elems (set_index h (Some (ki_remove m (key e)))) _) with
    (set_elems (set_index h (Some (ki_remove m (key e)))) (swap_remove (h_elems h) i)).
  cbn [fmap option_fmap option_map] in *. set (h1 := set_elems _ _) in *. cbv zeta.
  assert (Hlt : (i <= length (h_elems h1))%nat).
  { simpl. rewrite swap_remove_length. apply lookup_lt_Some in He. lia. }
  case_decide as D.
  - exists h1. split_and!; [done| |by rewrite Hp|done]. apply (removed_last_ok h1 i); try done. lia.
  - destruct (fix_ok h1 i False) as (h2 & r & -> & [[Hr B]|(-> & -> & h3 & r3 & E3 & B)]); [lia|done|done|..];
      cbn [mbind res_mbind].
    + rewrite decide_False by congruence. destruct (record_index h1 h2 i r B Hs Hn ltac:(lia)) as (h3 & E3 & Hok3 & P3 & S3).
      rewrite decide_False in E3 by done. injection E3 as ->. exists h3. split_and!; [done|done|by rewrite P3, Hp|].
      by intros N%S3.
    + rewrite decide_True by done. rewrite E3. cbn [mbind res_mbind].
      destruct (record_index h1 h3 i r3 B Hs Hn ltac:(lia)) as (h4 & E4 & Hok4 & P4 & S4).
      exists h4. split_and!; [|done|by rewrite P4, Hp|by intros N%S4].
      rewrite <- E4. case_decide; subst; [by rewrite decide_True|by rewrite decide_False].
Qed.


Lemma create_heap_ok direct : heap_ok (zbx_binary_heap_create direct).
Proof using.
  split; [by intros ? | |done|done].
  - unfold idx. destruct direct; simpl; [|done]. split_and!; [by apply ki_create_ok|constructor|done|].
    intros. by apply ki_get_create.
Qed.

Lemma clear_heap_ok h : heap_ok h -> heap_ok (zbx_binary_heap_clear h).
Proof using.
  intros Hok. pose proof (ok_idx _ Hok) as I. unfold idx in I. split; simpl.
  - intros ? ? ? ? ? ?. done.
  - unfold idx. simpl. destruct (h_index h) as [m|]; [|done]. destruct I as (Hm & _).
    destruct (ki_clear_ok m Hm) as [? ?]. split_and!; [done|constructor|done|done].
  - pose proof (ok_space _ Hok). unfold zlen in *. simpl. lia.
  - done.
Qed.

(** One call of the public interface, and a sequence of calls. *)
Inductive op := Insert (e : elem) | UpdateDirect (e : elem) | RemoveMin | RemoveDirect (k : Z) | Clear.

Definition exec h (o : op) : res (heap M) :=
  match o with
  | Insert e => zbx_binary_heap_insert compare_func h e
  | UpdateDirect e => zbx_binary_heap_update_direct compare_func h e
  | RemoveMin => zbx_binary_heap_remove_min compare_func h
  | RemoveDirect k => zbx_binary_heap_remove_direct compare_func h k
  | Clear => Ret (zbx_binary_heap_clear h)
  end.

Fixpoint execs h (os : list op) : res (heap M) :=
  match os with [] => Ret h | o :: os => h ← exec h o; execs h os end.

(** The calls the interface accepts in a state with these keys. *)
Definition accepts h (o : op) : Prop :=
  match o with
  | Insert e => h_index h <> None -> key e ∉ key <$> h_elems h
  | UpdateDirect e => h_index h <> None /\ key e ∈ key <$> h_elems h
  | RemoveMin => h_elems h <> []
  | RemoveDirect k => h_index h <> None /\ k ∈ key <$> h_elems h
  | Clear => True
  end.

Lemma key_lookup h k : k ∈ key <$> h_elems h -> exists i e, h_elems h !! i = Some e /\ key e = k.
Proof using. intros (e & -> & [i Hi]%list_elem_of_lookup)%list_elem_of_fmap. eauto. Qed.

Lemma exec_ok h o : heap_ok h -> accepts h o -> exists h', exec h o = Ret h' /\ heap_ok h'.
Proof using le_total le_trans.
  intros Hok Ha. destruct o as [e|e| |k|]; simpl in *.
  - destruct (insert_ok h e Hok Ha) as (h' & ? & ? & _). eauto.
  - destruct Ha as [Hm (i & old & Hi & Hk)%key_lookup]. destruct (h_index h) as [m|] eqn:E; [|done].
    destruct (update_direct_ok h m e i old Hok E Hi Hk) as (h' & ? & ? & _). eauto.
  - destruct (h_elems h) as [|e l] eqn:E; [done|]. destruct (remove_min_ok h e l Hok E) as (h' & ? & ? & _). eauto.
  - destruct Ha as [Hm (i & e & Hi & <-)%key_lookup]. destruct (h_index h) as [m|] eqn:E; [|done].
    destruct (heap_remove_direct_ok h m i e Hok E Hi) as (h' & ? & ? & _). eauto.
  - eauto using clear_heap_ok.
Qed.

(** A call that is not accepted ends the process. *)
Lemma exec_refused h o : heap_ok h -> ~ accepts h o -> exec h o = Halt ExitFailure.
Proof using.
  intros Hok Ha. pose proof (ok_idx _ Hok) as Hi. destruct o as [e|e| |k|]; simpl in *; [| | | |tauto].
  - unfold zbx_binary_heap_insert. destruct (h_index h) as [m|] eqn:E; [|tauto].
    destruct (index_get h m (key e) Hi E) as [[_ Hn]|(i & x & _ & _ & ->)]; [tauto|].
    destruct (Z.eqb_spec (Z.of_nat i) FAIL) as [F|]; [unfold FAIL in F; lia|done].
  - unfold zbx_binary_heap_update_direct. destruct (h_index h) as [m|] eqn:E; [|done].
    destruct (index_get h m (key e) Hi E) as [[-> _]|(i & x & Hx & Hk & _)]; [done|].
    destruct Ha. split; [done|]. apply list_elem_of_fmap. exists x. split; [done|]. by eapply list_elem_of_lookup_2.
  - unfold zbx_binary_heap_remove_min. destruct (h_elems h); [done|]. destruct Ha. done.
  - unfold zbx_binary_heap_remove_direct. destruct (h_index h) as [m|] eqn:E; [|done].
    destruct (index_get h m k Hi E) as [[-> _]|(i & x & Hx & Hk & _)]; [done|].
    destruct Ha. split; [done|]. apply list_elem_of_fmap. exists x. split; [done|]. by eapply list_elem_of_lookup_2.
Qed.

#[export] Instance accepts_dec h o : Decision (accepts h o).
Proof using. destruct o; simpl; apply _. Defined.

Lemma execs_ok h os : heap_ok h ->
  execs h os = Halt ExitFailure \/ exists h', execs h os = Ret h' /\ heap_ok h'.
Proof using le_total le_trans.
  revert h. induction os as [|o os IH]; intros h Hok; cbn [execs]; [eauto|].
  destruct (decide (accepts h o)) as [Ha|Ha].
  - destruct (exec_ok h o Hok Ha) as (h' & -> & Hok'). by apply IH.
  - left. by rewrite exec_refused.
Qed.

End theory.

(** ** Properties *)

(** Inserting into a well-formed heap an element whose key (with the
    direct option) is new returns, adds exactly that element, and keeps the
    heap order, the exactness of the key index and the array bounds. *)
Theorem binary_heap_insert_correct {M} `{KeyIndex M} (compare_func : elem -> elem -> Z) (h : heap M) e :
  (forall a b, le compare_func a b \/ le compare_func b a) ->
  (forall a b c, le compare_func a b -> le compare_func b c -> le compare_func a c) ->
  heap_ok compare_func h -> (h_index h <> None -> key e ∉ key <$> h_elems h) ->
  exists h', zbx_binary_heap_insert compare_func h e = Ret h' /\ heap_ok compare_func h' /\
    h_elems h' ≡ₚ e :: h_elems h /\ (h_index h' = None <-> h_index h = None).
Proof. intros. by apply insert_ok. Qed.

(** C36: On a non-empty well-formed heap [find_min] returns an element that is
    below all others, and [remove_min] removes exactly that element and
    leaves a well-formed heap; on an empty one both exit. *)
Theorem binary_heap_min_correct {M} `{KeyIndex M} (compare_func : elem -> elem -> Z) (h : heap M) :
  (forall a b, le compare_func a b \/ le compare_func b a) ->
  (forall a b c, le compare_func a b -> le compare_func b c -> le compare_func a c) ->
  heap_ok compare_func h ->
  (h_elems h = [] /\ zbx_binary_heap_find_min h = Halt ExitFailure /\
     zbx_binary_heap_remove_min compare_func h = Halt ExitFailure) \/
  (exists e h', zbx_binary_heap_find_min h = Ret e /\ (forall x, x ∈ h_elems h -> le compare_func e x) /\
     zbx_binary_heap_remove_min compare_func h = Ret h' /\ heap_ok compare_func h' /\
     e :: h_elems h' ≡ₚ h_elems h).
Proof.
  intros Ht Htr Hok. destruct (h_elems h) as [|e l] eqn:E; [left|right].
  - unfold zbx_binary_heap_find_min, zbx_binary_heap_remove_min. by rewrite E.
  - destruct (remove_min_ok compare_func Ht Htr h e l Hok E) as (h' & E1 & Hok' & P & _).
    exists e, h'. unfold zbx_binary_heap_find_min. rewrite E in *. split_and!; try done.
    apply Forall_forall, (heap_ord_min compare_func Ht Htr); [|done]. rewrite <- E. apply Hok.
Qed.

(** With the direct option, updating a present key replaces exactly that
    element and removing it removes exactly that element; both keep the heap
    order and the exactness of the index. *)
Theorem binary_heap_direct_correct {M} `{KeyIndex M} (compare_func : elem -> elem -> Z) (h : heap M) i old :
  (forall a b, le compare_func a b \/ le compare_func b a) ->
  (forall a b c, le compare_func a b -> le compare_func b c -> le compare_func a c) ->
  heap_ok compare_func h -> h_index h <> None -> h_elems h !! i = Some old ->
  (forall e, key e = key old -> exists h', zbx_binary_heap_update_direct compare_func h e = Ret h' /\
     heap_ok compare_func h' /\ h_elems h' ≡ₚ <[i := e]> (h_elems h)) /\
  (exists h', zbx_binary_heap_remove_direct compare_func h (key old) = Ret h' /\
     heap_ok compare_func h' /\ old :: h_elems h' ≡ₚ h_elems h).
Proof.
  intros Ht Htr Hok Hm Hi. destruct (h_index h) as [m|] eqn:E; [|done]. split.
  - intros e Hk. destruct (update_direct_ok compare_func Ht Htr h m e i old) as (h' & ? & ? & ? & _); eauto.
  - destruct (heap_remove_direct_ok compare_func Ht Htr h m i old) as (h' & ? & ? & ? & _); eauto.
Qed.

(** Any sequence of calls on a newly created heap either returns a
    well-formed heap or ends the process with the code's own exit (a
    duplicate key, an absent key, an empty heap, a direct call without the
    option): no call reads or writes out of bounds and every loop ends. *)
Theorem binary_heap_history {M} `{KeyIndex M} (compare_func : elem -> elem -> Z) direct os :
  (forall a b, le compare_func a b \/ le compare_func b a) ->
  (forall a b c, le compare_func a b -> le compare_func b c -> le compare_func a c) ->
  execs compare_func (zbx_binary_heap_create direct) os = Halt ExitFailure \/
  exists h, execs compare_func (zbx_binary_heap_create direct) os = Ret h /\ heap_ok compare_func h.
Proof. intros. apply execs_ok; [done..|]. apply create_heap_ok. Qed.

(** Witnesses: the hash map as key index, elements compared by their keys. *)

Definition key_compare (a b : elem) : Z := cmp (key a) (key b).

Lemma key_compare_total a b : le key_compare a b \/ le key_compare b a.
Proof. unfold le, key_compare. rewrite !cmp_le. lia. Qed.

Lemma key_compare_trans a b c : le key_compare a b -> le key_compare b c -> le key_compare a c.
Proof. unfold le, key_compare. rewrite !cmp_le. lia. Qed.

Definition heap0 : heap hashmap := zbx_binary_heap_create true.

Definition heap1 : heap hashmap :=
  match zbx_binary_heap_insert key_compare heap0 (Elem 4 0 0) with Ret h => h | Halt _ => heap0 end.

Lemma heap0_ok : heap_ok key_compare heap0.
Proof. apply create_heap_ok. Qed.

Lemma heap1_ok : heap_ok key_compare heap1 /\ h_index heap1 <> None /\ h_elems heap1 = [Elem 4 0 0].
Proof.
  assert (key (Elem 4 0 0) ∉ key <$> h_elems heap0) as Hn by apply not_elem_of_nil.
  destruct (insert_ok key_compare key_compare_total key_compare_trans heap0 (Elem 4 0 0) heap0_ok
    (fun _ => Hn)) as (h' & E & Hok & P & Hx).
  unfold heap1. rewrite E. split_and!; [done|by intros N%Hx|]. by apply Permutation_singleton_r.
Qed.

Lemma binary_heap_insert_witness :
  exists h', zbx_binary_heap_insert key_compare heap0 (Elem 4 0 0) = Ret h' /\ heap_ok key_compare h' /\
    h_elems h' ≡ₚ [Elem 4 0 0] /\ (h_index h' = None <-> h_index heap0 = None).
Proof.
  apply (binary_heap_insert_correct key_compare heap0 (Elem 4 0 0) key_compare_total key_compare_trans heap0_ok).
  intros _. apply not_elem_of_nil.
Defined.

Lemma binary_heap_min_witness :
  (h_elems heap1 = [] /\ zbx_binary_heap_find_min heap1 = Halt ExitFailure /\
     zbx_binary_heap_remove_min key_compare heap1 = Halt ExitFailure) \/
  (exists e h', zbx_binary_heap_find_min heap1 = Ret e /\ (forall x, x ∈ h_elems heap1 -> le key_compare e x) /\
     zbx_binary_heap_remove_min key_compare heap1 = Ret h' /\ heap_ok key_compare h' /\
     e :: h_elems h' ≡ₚ h_elems heap1).
Proof.
  exact (binary_heap_min_correct key_compare heap1 key_compare_total key_compare_trans (proj1 heap1_ok)).
Defined.

Lemma binary_heap_direct_witness :
  exists h', zbx_binary_heap_remove_direct key_compare heap1 4 = Ret h' /\
     heap_ok key_compare h' /\ Elem 4 0 0 :: h_elems h' ≡ₚ h_elems heap1.
Proof.
  destruct heap1_ok as (Hok & Hm & E).
  apply (binary_heap_direct_correct key_compare heap1 0 (Elem 4 0 0) key_compare_total key_compare_trans Hok Hm).
  rewrite E. reflexivity.
Defined.

Lemma binary_heap_history_witness :
  execs key_compare heap0 [Insert (Elem 4 0 0); Insert (Elem 2 0 0); RemoveMin] = Halt ExitFailure \/
  exists h, execs key_compare heap0 [Insert (Elem 4 0 0); Insert (Elem 2 0 0); RemoveMin] = Ret h /\
    heap_ok key_compare h.
Proof. apply (binary_heap_history key_compare true _ key_compare_total key_compare_trans). Defined.

Example heap_run :
  (h_elems <$> match execs key_compare heap0 [Insert (Elem 4 0 0); Insert (Elem 2 0 0); Insert (Elem 9 0 0);
    UpdateDirect (Elem 2 7 0); RemoveDirect 4; Insert (Elem 1 0 0); RemoveMin] with Ret h => Some h | Halt _ => None end)
  = Some [Elem 2 7 0; Elem 9 0 0].
Proof. vm_compute. reflexivity. Qed.
