(* ===== verification/EventQueue.v ===== *)
(** * Event queue (src/libs/zbxalgo/event_queue.c)

    A queue of timed events over the binary heap (without the direct option),
    a table of 256 callbacks and, for queues in shared memory, a lock.
    Callback pointers are numbers, 0 is NULL; what a callback does is a
    parameter, since any code may be registered. *)
From stdpp Require Import prelude list.
From Stdlib Require Import ZArith Lia Sorted.
From S2P Require Import Prelude Algodefs Hashmap BinaryHeap.
#[local] Open Scope Z_scope.

Definition MAX_EVENT_CALLBACK_ID : Z := 255.

Record event_queue := EventQueue {
  eq_queue : heap hashmap;
  eq_locks : bool;
  eq_lock : bool;
  eq_callbacks : list Z }.

Definition event_queue_compare_func (e1 e2 : elem) : Z := cmp (key e1) (key e2).

Definition set_queue (q : event_queue) (h : heap hashmap) : event_queue :=
  EventQueue h (eq_locks q) (eq_lock q) (eq_callbacks q).

(** [if (conf->locks) glb_lock_block(&conf->lock);] and its counterpart. *)
Definition lock_block (q : event_queue) : res event_queue :=
  if eq_locks q then
    if eq_lock q then Halt Deadlock else Ret (EventQueue (eq_queue q) true true (eq_callbacks q))
  else Ret q.

Definition lock_unlock (q : event_queue) : event_queue :=
  if eq_locks q then EventQueue (eq_queue q) true false (eq_callbacks q) else q.

(** [mem] is the content of the callback table in the allocated block, which
    the function does not initialise; [shared] says whether memory functions
    were passed. *)
Definition event_queue_init (mem : list Z) (shared : bool) : event_queue :=
  EventQueue (zbx_binary_heap_create false) shared false mem.

Definition event_queue_add_callback (q : event_queue) (callback_id cb_func : Z) : event_queue * Z :=
  if MAX_EVENT_CALLBACK_ID <? callback_id then (q, FAIL)
  else (EventQueue (eq_queue q) (eq_locks q) (eq_lock q) (zset (eq_callbacks q) callback_id cb_func), SUCCEED).

Definition event_queue_destroy (q : event_queue) : event_queue :=
  set_queue q (zbx_binary_heap_destroy (eq_queue q)).

Definition event_queue_add_event (q : event_queue) (msec_time event_id data : Z) : res event_queue :=
  cb ← of_opt BadAccess (zget (eq_callbacks q) event_id);
  if cb =? 0 then Halt ExitFailure
  else h ← zbx_binary_heap_insert event_queue_compare_func (eq_queue q) (Elem msec_time data event_id);
       Ret (set_queue q h).

Definition event_queue_get_events_count (q : event_queue) : Z := zlen (h_elems (eq_queue q)).

Definition event_queue_get_delay (q : event_queue) (now : Z) : res (event_queue * Z) :=
  q ← lock_block q;
  ret ← (if zbx_binary_heap_empty (eq_queue q) =? FAIL
         then min ← zbx_binary_heap_find_min (eq_queue q); Ret (u64 (now - key min))
         else Ret 0);
  Ret (lock_unlock q, ret).

Section process.
(** The state callbacks act on besides the queue, and the call
    [cb_func(conf, msec_time, event_id, data, &conf->memf)]. *)
Context {S : Type}.
Variable call : Z -> event_queue -> Z -> Z -> Z -> S -> res (event_queue * S).
(** [glb_ms_time()] when processing starts. *)
Variable now : Z.

(** The loop; [i] is the number of processed events. *)
Fixpoint process_loop (fuel : nat) (q : event_queue) (max_events i : Z) (s : S) : res (event_queue * Z * S) :=
  if (zbx_binary_heap_empty (eq_queue q) =? FAIL) && ((max_events =? 0) || (i <? max_events)) then
    match fuel with
    | O => Halt OutOfFuel
    | Datatypes.S fuel =>
        q ← lock_block q;
        min ← zbx_binary_heap_find_min (eq_queue q);
        if now <? key min then Ret (lock_unlock q, i, s)
        else
          let event_id := u8 (local_data min) in
          h ← zbx_binary_heap_remove_min event_queue_compare_func (eq_queue q);
          let q := lock_unlock (set_queue q h) in
          cb ← of_opt BadAccess (zget (eq_callbacks q) event_id);
          if cb =? 0 then Halt BadAccess
          else
            '(q, s) ← call cb q (key min) event_id (data min) s;
            process_loop fuel q max_events (i + 1) s
    end
  else Ret (q, i, s).

Definition event_queue_process_events (fuel : nat) (q : event_queue) (max_events : Z) (s : S) :
    res (event_queue * Z * S) := process_loop fuel q max_events 0 s.

End process.

(** ** Theory *)

#[local] Abbreviation ele := (le event_queue_compare_func).

Lemma ele_key a b : ele a b <-> key a <= key b.
Proof. unfold le, event_queue_compare_func. apply cmp_le. Qed.

Lemma ele_total a b : ele a b \/ ele b a.
Proof. rewrite !ele_key. lia. Qed.

Lemma ele_trans a b c : ele a b -> ele b c -> ele a c.
Proof. rewrite !ele_key. lia. Qed.

(** A registered event id. *)
Definition registered (cbs : list Z) (id : Z) : Prop :=
  0 <= id <= MAX_EVENT_CALLBACK_ID /\ exists cb, zget cbs id = Some cb /\ cb <> 0.

Record eq_ok (q : event_queue) : Prop := {
  eqo_heap : heap_ok event_queue_compare_func (eq_queue q);
  eqo_direct : h_index (eq_queue q) = None;
  eqo_lock : eq_lock q = false;
  eqo_events : forall e, e ∈ h_elems (eq_queue q) -> registered (eq_callbacks q) (local_data e) }.

Lemma init_eq_ok mem shared : eq_ok (event_queue_init mem shared).
Proof. split; simpl; [apply create_heap_ok|done|done|]. intros e He. by apply not_elem_of_nil in He. Qed.

(** Taking and releasing the lock around a change of the heap. *)
Lemma lock_section q h :
  eq_lock q = false ->
  exists q1, lock_block q = Ret q1 /\ eq_queue q1 = eq_queue q /\ lock_unlock q1 = q /\
    lock_unlock (set_queue q1 h) = set_queue q h.
Proof.
  intros Hl. unfold lock_block. destruct q as [h0 [] lk cbs]; simpl in *; subst; eexists; split_and!; done.
Qed.

Lemma add_event_ok q t id d :
  eq_ok q -> registered (eq_callbacks q) id ->
  exists q', event_queue_add_event q t id d = Ret q' /\ eq_ok q' /\
    h_elems (eq_queue q') ≡ₚ Elem t d id :: h_elems (eq_queue q) /\ eq_callbacks q' = eq_callbacks q.
Proof.
  intros Hq Hr. pose proof Hr as (_ & cb & Hcb & Hn). unfold event_queue_add_event. rewrite Hcb. simpl.
  destruct (Z.eqb_spec cb 0); [done|].
  destruct (insert_ok event_queue_compare_func ele_total ele_trans (eq_queue q) (Elem t d id) (eqo_heap _ Hq))
    as (h & -> & Hok & P & Hx); [rewrite (eqo_direct _ Hq); done|]. simpl.
  eexists; split_and!; [done| |done|done]. split; simpl; [done|by apply Hx, Hq|apply Hq|].
  intros e. rewrite P. intros [->|He]%elem_of_cons; [done|by apply Hq].
Qed.

Lemma remove_event_ok q e rest h :
  eq_ok q -> h_elems (eq_queue q) = e :: rest ->
  zbx_binary_heap_remove_min event_queue_compare_func (eq_queue q) = Ret h -> eq_ok (set_queue q h).
Proof.
  intros Hq E Hr. destruct (remove_min_ok event_queue_compare_func ele_total ele_trans _ _ _ (eqo_heap _ Hq) E)
    as (h' & E' & Hok & P & Hx). rewrite Hr in E'. injection E' as <-.
  split; simpl; [done|by apply Hx, Hq|apply Hq|].
  intros x Hx'. apply Hq. rewrite <- P. by apply list_elem_of_further.
Qed.

Lemma heap_head_min q e rest x :
  eq_ok q -> h_elems (eq_queue q) = e :: rest -> x ∈ h_elems (eq_queue q) -> key e <= key x.
Proof.
  intros Hq E Hx. apply ele_key.
  pose proof (heap_ord_min event_queue_compare_func ele_total ele_trans _ e (ok_ord _ _ (eqo_heap _ Hq))) as Hm.
  rewrite Forall_forall in Hm. apply Hm; [by rewrite E|done].
Qed.

Lemma empty_FAIL (h : heap hashmap) : (zbx_binary_heap_empty h =? FAIL) = negb (bool_decide (h_elems h = [])).
Proof. unfold zbx_binary_heap_empty. destruct (h_elems h); done. Qed.

Section loop.
Context {S : Type}.
Variable call : Z -> event_queue -> Z -> Z -> Z -> S -> res (event_queue * S).
Variable now : Z.
#[local] Abbreviation loop := (process_loop call now).

(** The dispatch of the first event. *)
Lemma loop_due fuel q max_events i s e rest :
  eq_ok q -> h_elems (eq_queue q) = e :: rest -> key e <= now -> max_events = 0 \/ i < max_events ->
  exists q1 cb, eq_ok q1 /\ e :: h_elems (eq_queue q1) ≡ₚ h_elems (eq_queue q) /\
    eq_callbacks q1 = eq_callbacks q /\ zget (eq_callbacks q) (local_data e) = Some cb /\
    loop (Datatypes.S fuel) q max_events i s =
      '(q', s') ← call cb q1 (key e) (local_data e) (data e) s; loop fuel q' max_events (i + 1) s'.
Proof.
  intros Hq E Hdue Hmax.
  destruct (remove_min_ok event_queue_compare_func ele_total ele_trans _ _ _ (eqo_heap _ Hq) E)
    as (h & Eh & _ & P & _).
  destruct (lock_section q h (eqo_lock _ Hq)) as (q0 & El & Eq0 & _ & Eu).
  destruct (eqo_events _ Hq e) as (Hr & cb & Hcb & Hn); [rewrite E; by left|].
  exists (set_queue q h), cb. split_and!; [by eapply remove_event_ok|done|done|done|].
  cbn [process_loop]. rewrite empty_FAIL, E. simpl.
  replace ((max_events =? 0) || (i <? max_events)) with true.
  2: { destruct (Z.eqb_spec max_events 0), (Z.ltb_spec i max_events); try done. lia. }
  rewrite El. cbn [mbind res_mbind]. rewrite Eq0.
  unfold zbx_binary_heap_find_min. rewrite E. cbn [mbind res_mbind].
  destruct (Z.ltb_spec now (key e)); [lia|]. rewrite Eh. cbn [mbind res_mbind].
  rewrite Eu. cbn [set_queue eq_callbacks]. unfold u8.
  rewrite Z.mod_small by (unfold MAX_EVENT_CALLBACK_ID in Hr; lia). rewrite Hcb. cbn [mbind res_mbind of_opt].
  by destruct (Z.eqb_spec cb 0).
Qed.

(** The ways the loop ends. *)
Lemma loop_end fuel q max_events i s :
  eq_ok q ->
  (h_elems (eq_queue q) = [] \/ ~ (max_events = 0 \/ i < max_events)) ->
  loop fuel q max_events i s = Ret (q, i, s).
Proof.
  intros Hq He. destruct fuel; cbn [process_loop]; rewrite empty_FAIL;
    destruct (bool_decide_reflect (h_elems (eq_queue q) = [])) as [|Hne]; try done; simpl;
    destruct (Z.eqb_spec max_events 0), (Z.ltb_spec i max_events); try done; exfalso; naive_solver.
Qed.

Lemma loop_future fuel q max_events i s e rest :
  eq_ok q -> h_elems (eq_queue q) = e :: rest -> now < key e ->
  loop (Datatypes.S fuel) q max_events i s = Ret (q, i, s).
Proof.
  intros Hq E Hf. cbn [process_loop]. destruct (_ && _); [|done].
  destruct (lock_section q (eq_queue q) (eqo_lock _ Hq)) as (q0 & El & Eq0 & Eu & _).
  rewrite El. cbn [mbind res_mbind]. rewrite Eq0.
  unfold zbx_binary_heap_find_min. rewrite E. cbn [mbind res_mbind].
  destruct (Z.ltb_spec now (key e)); [|lia]. by rewrite Eu.
Qed.

Hypothesis call_ok : forall cb q t id d s, eq_ok q -> exists q' s', call cb q t id d s = Ret (q', s') /\ eq_ok q'.

Lemma loop_bounded fuel q max_events i s :
  eq_ok q -> 0 <= i <= max_events -> 0 < max_events -> max_events - i <= Z.of_nat fuel ->
  exists q' n s', loop fuel q max_events i s = Ret (q', n, s') /\ eq_ok q' /\ i <= n <= max_events /\
    (n < max_events -> forall e, e ∈ h_elems (eq_queue q') -> now < key e).
Proof.
  revert q i s. induction fuel as [|fuel IH]; intros q i s Hq Hi Hpos Hf.
  { exists q, i, s. split_and!; [apply loop_end; [done|lia]|done|lia|lia|lia]. }
  destruct (decide (i = max_events)) as [->|Hnm].
  { exists q, max_events, s. split_and!; [apply loop_end; [done|lia]|done|lia|lia|lia]. }
  destruct (h_elems (eq_queue q)) as [|e rest] eqn:E.
  { exists q, i, s. split_and!; [by apply loop_end; [done|left]|done|lia|lia|]. intros _ e. rewrite E.
    intros He. by apply not_elem_of_nil in He. }
  destruct (decide (now < key e)) as [|Hdue].
  { exists q, i, s. split_and!; [by eapply loop_future|done|lia|lia|]. intros _ x Hx.
    pose proof (heap_head_min q e rest x Hq E Hx). lia. }
  destruct (loop_due fuel q max_events i s e rest Hq E ltac:(lia) ltac:(lia)) as (q1 & cb & Hq1 & _ & _ & _ & ->).
  destruct (call_ok cb q1 (key e) (local_data e) (data e) s Hq1) as (q2 & s2 & -> & Hq2). cbn [mbind res_mbind].
  destruct (IH q2 (i + 1) s2 Hq2 ltac:(lia) Hpos ltac:(lia)) as (q' & n & s' & -> & ? & ? & ?).
  exists q', n, s'. split_and!; try done; lia.
Qed.

End loop.

(** Callbacks that record the event they are called for and schedule the
    events [adds] assigns to it. *)
Fixpoint add_events (q : event_queue) (l : list elem) : res event_queue :=
  match l with
  | [] => Ret q
  | e :: l => q ← event_queue_add_event q (key e) (local_data e) (data e); add_events q l
  end.

Definition scheduler (adds : elem -> list elem) (cb : Z) (q : event_queue) (t id d : Z) (log : list elem) :
    res (event_queue * list elem) :=
  q ← add_events q (adds (Elem t d id)); Ret (q, log ++ [Elem t d id]).

Lemma add_events_ok q l :
  eq_ok q -> (forall e, e ∈ l -> registered (eq_callbacks q) (local_data e)) ->
  exists q', add_events q l = Ret q' /\ eq_ok q' /\
    h_elems (eq_queue q') ≡ₚ l ++ h_elems (eq_queue q) /\ eq_callbacks q' = eq_callbacks q.
Proof.
  revert q. induction l as [|e l IH]; intros q Hq Hl; cbn [add_events]; [by eexists|].
  destruct (add_event_ok q (key e) (local_data e) (data e) Hq) as (q1 & -> & Hq1 & P1 & C1); [apply Hl; by left|].
  cbn [mbind res_mbind].
  destruct (IH q1 Hq1) as (q' & -> & Hq' & P' & C'); [rewrite C1; intros; apply Hl; by right|].
  exists q'. split_and!; [done|done| |congruence]. rewrite P', P1. destruct e. simpl.
  by rewrite <- Permutation_middle.
Qed.

(** Events due at [now]. *)
Definition due (now : Z) (l : list elem) : list elem := filter (fun e => key e <= now) l.
Definition later (now : Z) (l : list elem) : list elem := filter (fun e => now < key e) l.

Lemma due_later_split now l : due now l ++ later now l ≡ₚ l.
Proof.
  unfold due, later. induction l as [|e l IH]; [done|].
  destruct (decide (key e <= now)).
  - rewrite filter_cons_True, filter_cons_False by (done || lia). simpl. by rewrite IH.
  - rewrite filter_cons_False, filter_cons_True by (done || lia). by rewrite <- Permutation_middle, IH.
Qed.

Lemma due_filter now e l :
  (key e <= now -> due now (e :: l) = e :: due now l /\ later now (e :: l) = later now l) /\
  (now < key e -> due now (e :: l) = due now l /\ later now (e :: l) = e :: later now l).
Proof.
  unfold due, later. split; intros.
  - by rewrite filter_cons_True, filter_cons_False by lia.
  - by rewrite filter_cons_False, filter_cons_True by lia.
Qed.

#[export] Instance due_proper now : Proper (Permutation ==> Permutation) (due now).
Proof. intros l l' H. unfold due. by rewrite H. Qed.

#[export] Instance later_proper now : Proper (Permutation ==> Permutation) (later now).
Proof. intros l l' H. unfold later. by rewrite H. Qed.

(** The queue after dispatching [e]: one due event less, the scheduled ones later. *)
Lemma dispatch_sets now e adds l0 l1 l2 :
  key e <= now -> (forall x, x ∈ adds -> now < key x) ->
  e :: l1 ≡ₚ l0 -> l2 ≡ₚ adds ++ l1 ->
  due now l0 ≡ₚ e :: due now l2 /\ later now l2 ≡ₚ later now l0 ++ adds /\
  (forall x, x ∈ due now l2 -> x ∈ l0).
Proof.
  intros He Ha P1 P2. destruct (due_filter now e l1) as [[D L] _]; [done|].
  assert (due now l2 ≡ₚ due now l1) as D2.
  { rewrite P2. unfold due. rewrite filter_app, (filter_none _ adds); [done|]. intros x Hx%Ha. lia. }
  split_and!.
  - by rewrite <- P1, D, D2.
  - rewrite P2, <- P1, L. unfold later. rewrite filter_app, (filter_all _ adds) by done. apply Permutation_app_comm.
  - intros x. rewrite D2. unfold due. rewrite list_elem_of_filter. intros [_ Hx]. rewrite <- P1. by right.
Qed.

Lemma loop_all now adds fuel q i log cbs :
  eq_ok q -> eq_callbacks q = cbs ->
  (forall e x, x ∈ adds e -> now < key x /\ registered cbs (local_data x)) ->
  (length (due now (h_elems (eq_queue q))) < fuel)%nat ->
  exists q' evs, process_loop (scheduler adds) now fuel q 0 i log = Ret (q', i + zlen evs, log ++ evs) /\
    eq_ok q' /\ StronglySorted (fun a b => key a <= key b) evs /\
    evs ≡ₚ due now (h_elems (eq_queue q)) /\
    h_elems (eq_queue q') ≡ₚ later now (h_elems (eq_queue q)) ++ concat (adds <$> evs).
Proof.
  revert q i log. induction fuel as [|fuel IH]; intros q i log Hq Hc Ha Hf; [lia|].
  destruct (h_elems (eq_queue q)) as [|e rest] eqn:E.
  { exists q, []. rewrite loop_end by eauto. rewrite Z.add_0_r, app_nil_r, E. split_and!; try done; constructor. }
  destruct (decide (now < key e)) as [Hfu|Hdue].
  { exists q, []. rewrite (loop_future _ _ _ _ _ _ _ e rest) by done. rewrite Z.add_0_r, app_nil_r.
    assert (Hall : forall x, x ∈ e :: rest -> now < key x).
    { intros x Hx. rewrite <- E in Hx. pose proof (heap_head_min q e rest x Hq E Hx). lia. }
    unfold due, later. rewrite filter_none, filter_all by (intros x Hx%Hall; lia).
    rewrite E. split_and!; [done|done|constructor|done|by rewrite app_nil_r]. }
  destruct (loop_due (scheduler adds) now fuel q 0 i log e rest Hq E ltac:(lia) ltac:(lia))
    as (q1 & cb & Hq1 & P1 & C1 & Hcb & ->).
  destruct (add_events_ok q1 (adds e) Hq1) as (q2 & E2 & Hq2 & P2 & C2);
    [intros x Hx; rewrite C1, Hc; by eapply Ha|].
  assert (scheduler adds cb q1 (key e) (local_data e) (data e) log = Ret (q2, log ++ [e])) as ->.
  { unfold scheduler. replace (Elem (key e) (data e) (local_data e)) with e by (by destruct e). by rewrite E2. }
  cbn [mbind res_mbind].
  destruct (dispatch_sets now e (adds e) (e :: rest) _ _ ltac:(lia) ltac:(by intros x [? _]%Ha) ltac:(rewrite P1, E; done) P2)
    as (D & L & Hin).
  destruct (IH q2 (i + 1) (log ++ [e]) Hq2 ltac:(congruence) Ha) as (q' & evs & -> & Hq' & Hs & Pe & Pl).
  { rewrite D in Hf. simpl in Hf. lia. }
  exists q', (e :: evs). split_and!; [|done| |by rewrite Pe, D|].
  - f_equal. rewrite <- app_assoc. simpl. f_equal. f_equal. unfold zlen. simpl. lia.
  - constructor; [done|]. apply Forall_forall. intros x. rewrite Pe. intros Hx%Hin.
    rewrite <- E in Hx. exact (heap_head_min q e rest x Hq E Hx).
  - rewrite Pl, L. simpl. by rewrite <- app_assoc.
Qed.

(** ** Properties *)

(** C38: [event_queue_process_events] without a limit on a well-formed queue, with
    callbacks that schedule only events after the time processing started and
    of registered kinds (an event that is already due when it is scheduled
    would be dispatched in the same call): it returns, it
    has dispatched exactly the events that were due, in the order of their
    times, and the queue holds the later events and all newly scheduled
    ones. *)
Theorem event_queue_process_due now adds fuel q log :
  eq_ok q ->
  (forall e x, x ∈ adds e -> now < key x /\ registered (eq_callbacks q) (local_data x)) ->
  (length (due now (h_elems (eq_queue q))) < fuel)%nat ->
  exists q' evs, event_queue_process_events (scheduler adds) now fuel q 0 log = Ret (q', zlen evs, log ++ evs) /\
    eq_ok q' /\ StronglySorted (fun a b => key a <= key b) evs /\
    evs ≡ₚ due now (h_elems (eq_queue q)) /\
    h_elems (eq_queue q') ≡ₚ later now (h_elems (eq_queue q)) ++ concat (adds <$> evs).
Proof. intros Hq Ha Hf. by apply (loop_all now adds fuel q 0 log (eq_callbacks q)). Qed.

(** With a limit, whatever the callbacks do that keeps the queue well
    formed (also when they schedule events already due), processing returns
    after at most that many events, with the lock released, and stops short of
    the limit only when no due event is left. *)
Theorem event_queue_process_bounded {S} (call : Z -> event_queue -> Z -> Z -> Z -> S -> res (event_queue * S))
    now fuel q max_events s :
  (forall cb q t id d s, eq_ok q -> exists q' s', call cb q t id d s = Ret (q', s') /\ eq_ok q') ->
  eq_ok q -> 0 < max_events <= Z.of_nat fuel ->
  exists q' n s', event_queue_process_events call now fuel q max_events s = Ret (q', n, s') /\ eq_ok q' /\
    0 <= n <= max_events /\ (n < max_events -> forall e, e ∈ h_elems (eq_queue q') -> now < key e).
Proof. intros Hc Hq Hm. apply loop_bounded; try done; lia. Qed.

(** Witnesses: three events, two of them due; each event is rescheduled 100 ms
    later. *)

Definition queue3 : event_queue :=
  match add_events (event_queue_init (replicate 256 1) true) [Elem 5 50 1; Elem 9 90 2; Elem 3 30 1] with
  | Ret q => q
  | Halt _ => event_queue_init [] false
  end.

Definition reschedule (e : elem) : list elem := [Elem (key e + 100) (data e) 1].

Lemma queue3_ok : eq_ok queue3 /\ h_elems (eq_queue queue3) = [Elem 3 30 1; Elem 9 90 2; Elem 5 50 1] /\
  eq_callbacks queue3 = replicate 256 1.
Proof.
  destruct (add_events_ok (event_queue_init (replicate 256 1) true) [Elem 5 50 1; Elem 9 90 2; Elem 3 30 1])
    as (q' & E & Hq & _ & Hc).
  - apply init_eq_ok.
  - intros e He. apply list_elem_of_In in He. simpl in He.
    destruct He as [<-|[<-|[<-|[]]]]; (split; [unfold MAX_EVENT_CALLBACK_ID; simpl; lia|]; by exists 1).
  - unfold queue3. rewrite E. split_and!; [done| |done].
    vm_compute in E. injection E as <-. reflexivity.
Qed.

Lemma registered_id1 : registered (replicate 256 1) 1.
Proof. split; [unfold MAX_EVENT_CALLBACK_ID; lia|by exists 1]. Qed.

Lemma event_queue_process_due_witness :
  exists q' evs, event_queue_process_events (scheduler (fun _ => [Elem 100 0 1])) 6 10 queue3 0 []
      = Ret (q', zlen evs, evs) /\
    eq_ok q' /\ StronglySorted (fun a b => key a <= key b) evs /\
    evs ≡ₚ due 6 (h_elems (eq_queue queue3)) /\
    h_elems (eq_queue q') ≡ₚ later 6 (h_elems (eq_queue queue3)) ++ concat ((fun _ => [Elem 100 0 1]) <$> evs).
Proof.
  destruct queue3_ok as (Hq & E & Hc).
  apply (event_queue_process_due 6 (fun _ => [Elem 100 0 1]) 10 queue3 [] Hq).
  - intros e x ->%list_elem_of_singleton. rewrite Hc. split; [simpl; lia|exact registered_id1].
  - rewrite E. vm_compute. lia.
Defined.

Lemma event_queue_process_bounded_witness :
  exists q' n s', event_queue_process_events (fun _ q _ _ _ (s : nat) => Ret (q, Datatypes.S s)) 6 1 queue3 1 0%nat
      = Ret (q', n, s') /\ eq_ok q' /\
    0 <= n <= 1 /\ (n < 1 -> forall e, e ∈ h_elems (eq_queue q') -> 6 < key e).
Proof.
  apply (event_queue_process_bounded (fun _ q _ _ _ (s : nat) => Ret (q, Datatypes.S s)) 6 1 queue3 1 0%nat).
  - intros. eauto.
  - apply queue3_ok.
  - lia.
Defined.

Example process_run :
  match event_queue_process_events (scheduler reschedule) 6 10 queue3 0 [] with
  | Ret (q, n, log) => (n, log, event_queue_get_events_count q)
  | Halt _ => (0, [], 0)
  end = (2, [Elem 3 30 1; Elem 5 50 1], 3).
Proof. vm_compute. reflexivity. Qed.

(** An event in the future makes the unsigned delay wrap around. *)
Example get_delay_wraps :
  snd <$> (match event_queue_get_delay queue3 1 with Ret r => Some r | Halt _ => None end) = Some (2 ^ 64 - 2).
Proof. vm_compute. reflexivity. Qed.
