(* ===== verification/Queue.v ===== *)
(** * FIFO queue of pointers (src/libs/zbxalgo/queue.c)

    A circular array with one slot kept free; [values] has [alloc_num]
    slots, the oldest value is at [tail_pos], the next free slot is
    [head_pos].  Pointers are numbers, 0 is NULL.

    [holds q c] says that the queue [q] is well formed and holds the values
    [c], oldest first; the theorems state the operations on [c]. *)
From stdpp Require Import prelude list.
From Stdlib Require Import ZArith Lia.
From S2P Require Import Prelude.
#[local] Open Scope Z_scope.

Record queue_ptr := QueuePtr { q_values : list Z; q_alloc_num : Z; q_head_pos : Z; q_tail_pos : Z }.

Section model.
(** The content of newly allocated slots. *)
Variable junk : Z.

(** [zbx_realloc] of the array to [n] slots. *)
Definition realloc (l : list Z) (n : Z) : list Z :=
  take (Z.to_nat n) l ++ replicate (Z.to_nat n - length l) junk.

(** [memmove] of [n] slots from [l + from] to [l + to]. *)
Definition memmove (l : list Z) (to from n : Z) : res (list Z) :=
  if (0 <=? to) && (0 <=? from) && (0 <=? n) && (to + n <=? zlen l) && (from + n <=? zlen l) then
    Ret (take (Z.to_nat to) l ++ take (Z.to_nat n) (drop (Z.to_nat from) l) ++ drop (Z.to_nat (to + n)) l)
  else Halt BadAccess.

Definition zbx_queue_ptr_values_num (q : queue_ptr) : Z :=
  let values_num := q_head_pos q - q_tail_pos q in
  if values_num <? 0 then values_num + q_alloc_num q else values_num.

Definition zbx_queue_ptr_reserve (q : queue_ptr) (num : Z) : res queue_ptr :=
  let values_num := zbx_queue_ptr_values_num q in
  if values_num + num + 1 <=? q_alloc_num q then Ret q
  else
    let alloc_num := q_alloc_num q + Z.max (num + 1) (Z.quot (q_alloc_num q) 2) in
    let values := realloc (q_values q) alloc_num in
    if q_head_pos q <? q_tail_pos q then
      let resize_num := alloc_num - q_alloc_num q in
      values ← memmove values (q_tail_pos q + resize_num) (q_tail_pos q) (q_alloc_num q - q_tail_pos q);
      Ret (QueuePtr values alloc_num (q_head_pos q) (q_tail_pos q + resize_num))
    else Ret (QueuePtr values alloc_num (q_head_pos q) (q_tail_pos q)).

Definition zbx_queue_ptr_compact (q : queue_ptr) : res queue_ptr :=
  let values_num := zbx_queue_ptr_values_num q in
  let alloc_num := values_num + 1 in
  if alloc_num =? q_alloc_num q then Ret q
  else
    q ← (if negb (q_tail_pos q =? 0) then
           if q_head_pos q <? q_tail_pos q then
             values ← memmove (q_values q) (q_head_pos q + 1) (q_tail_pos q) (q_alloc_num q - q_tail_pos q);
             Ret (QueuePtr values (q_alloc_num q) (q_head_pos q) (q_head_pos q + 1))
           else
             values ← memmove (q_values q) 0 (q_tail_pos q) values_num;
             Ret (QueuePtr values (q_alloc_num q) values_num 0)
         else Ret q);
    Ret (QueuePtr (realloc (q_values q) alloc_num) alloc_num (q_head_pos q) (q_tail_pos q)).

Definition zbx_queue_ptr_create : queue_ptr := QueuePtr [] 0 0 0.

(** [values[i] = v]. *)
Definition store (l : list Z) (i v : Z) : res (list Z) :=
  if (0 <=? i) && (i <? zlen l) then Ret (zset l i v) else Halt BadAccess.

Definition load (l : list Z) (i : Z) : res Z := of_opt BadAccess (zget l i).

Definition zbx_queue_ptr_push (q : queue_ptr) (value : Z) : res queue_ptr :=
  q ← zbx_queue_ptr_reserve q 1;
  values ← store (q_values q) (q_head_pos q) value;
  let head_pos := q_head_pos q + 1 in
  Ret (QueuePtr values (q_alloc_num q) (if head_pos =? q_alloc_num q then 0 else head_pos) (q_tail_pos q)).

Definition zbx_queue_ptr_pop (q : queue_ptr) : res (queue_ptr * Z) :=
  if negb (q_tail_pos q =? q_head_pos q) then
    value ← load (q_values q) (q_tail_pos q);
    let tail_pos := q_tail_pos q + 1 in
    let tail_pos := if tail_pos =? q_alloc_num q then 0 else tail_pos in
    let head_pos := if q_head_pos q =? q_alloc_num q then 0 else q_head_pos q in
    Ret (QueuePtr (q_values q) (q_alloc_num q) head_pos tail_pos, value)
  else Ret (q, 0).

(** [for (i = start; i < stop; i++) if (values[i] == value)]: the first index
    found; [n] is the number of iterations left. *)
Fixpoint find_up (n : nat) (l : list Z) (i value : Z) : res (option Z) :=
  match n with
  | O => Ret None
  | S n => x ← load l i; if x =? value then Ret (Some i) else find_up n l (i + 1) value
  end.

(** [for (i = start; i >= stop; i--) if (values[i] == value)]. *)
Fixpoint find_down (n : nat) (l : list Z) (i value : Z) : res (option Z) :=
  match n with
  | O => Ret None
  | S n => x ← load l i; if x =? value then Ret (Some i) else find_down n l (i - 1) value
  end.

(** [for (; i < stop; i++) values[i] = values[i + 1];], [n] iterations. *)
Fixpoint shift_left (n : nat) (l : list Z) (i : Z) : res (list Z) :=
  match n with
  | O => Ret l
  | S n => x ← load l (i + 1); l ← store l i x; shift_left n l (i + 1)
  end.

(** [for (; i > stop; i--) values[i] = values[i - 1];], [n] iterations. *)
Fixpoint shift_right (n : nat) (l : list Z) (i : Z) : res (list Z) :=
  match n with
  | O => Ret l
  | S n => x ← load l (i - 1); l ← store l i x; shift_right n l (i - 1)
  end.

Definition zbx_queue_ptr_remove_value (q : queue_ptr) (value : Z) : res queue_ptr :=
  if q_tail_pos q =? q_head_pos q then Ret q
  else
    let start_pos := if q_tail_pos q <? q_head_pos q then q_tail_pos q else 0 in
    found ← find_up (Z.to_nat (q_head_pos q - start_pos)) (q_values q) start_pos value;
    match found with
    | Some i =>
        values ← shift_left (Z.to_nat (q_head_pos q - 1 - i)) (q_values q) i;
        Ret (QueuePtr values (q_alloc_num q) (q_head_pos q - 1) (q_tail_pos q))
    | None =>
        if q_tail_pos q <=? q_head_pos q then Ret q
        else
          found ← find_down (Z.to_nat (q_alloc_num q - q_tail_pos q)) (q_values q) (q_alloc_num q - 1) value;
          match found with
          | Some i =>
              values ← shift_right (Z.to_nat (i - q_tail_pos q)) (q_values q) i;
              let tail_pos := q_tail_pos q + 1 in
              Ret (QueuePtr values (q_alloc_num q) (q_head_pos q) (if tail_pos =? q_alloc_num q then 0 else tail_pos))
          | None => Ret q
          end
    end.

End model.

(** ** Theory *)

Inductive holds : queue_ptr -> list Z -> Prop :=
  | holds_null : holds (QueuePtr [] 0 0 0) []
  | holds_linear pre c post :
      post <> [] -> holds (QueuePtr (pre ++ c ++ post) (zlen (pre ++ c ++ post)) (zlen (pre ++ c)) (zlen pre)) c
  | holds_wrapped c2 mid c1 :
      mid <> [] -> c1 <> [] ->
      holds (QueuePtr (c2 ++ mid ++ c1) (zlen (c2 ++ mid ++ c1)) (zlen c2) (zlen (c2 ++ mid))) (c1 ++ c2).

Lemma values_num_holds q c : holds q c -> zbx_queue_ptr_values_num q = zlen c.
Proof.
  intros [|pre c' post Hp|c2 mid c1 Hm Hc]; unfold zbx_queue_ptr_values_num; simpl; rewrite ?zlen_app.
  - done.
  - pose proof (zlen_nonneg c'). destruct (Z.ltb_spec (zlen pre + zlen c' - zlen pre) 0); lia.
  - pose proof (zlen_pos _ Hm). destruct (Z.ltb_spec (zlen c2 - (zlen c2 + zlen mid)) 0); lia.
Qed.

Lemma load_app l1 x l2 : load (l1 ++ x :: l2) (zlen l1) = Ret x.
Proof.
  unfold load, zget. pose proof (zlen_nonneg l1). destruct (Z.ltb_spec (zlen l1) 0); [lia|].
  rewrite to_nat_zlen, lookup_app_r, Nat.sub_diag by done. done.
Qed.

Lemma store_app l1 x l2 v : store (l1 ++ x :: l2) (zlen l1) v = Ret (l1 ++ v :: l2).
Proof.
  unfold store, zset. rewrite zlen_app, zlen_cons. pose proof (zlen_nonneg l1). pose proof (zlen_nonneg l2).
  destruct (Z.leb_spec 0 (zlen l1)), (Z.ltb_spec (zlen l1) (zlen l1 + (1 + zlen l2))), (Z.ltb_spec (zlen l1) 0); try lia.
  simpl. rewrite to_nat_zlen, insert_app_r_alt, Nat.sub_diag by done. done.
Qed.

Section ops.
Variable junk : Z.

Lemma realloc_grow l n : zlen l <= n -> exists k, realloc junk l n = l ++ replicate k junk /\ zlen l + Z.of_nat k = n.
Proof.
  unfold realloc, zlen. intros. exists (Z.to_nat n - length l)%nat. rewrite take_ge by lia. split; [done|lia].
Qed.

Lemma realloc_exact l1 l2 n : n = zlen l1 -> realloc junk (l1 ++ l2) n = l1.
Proof.
  intros ->. unfold realloc. rewrite to_nat_zlen, take_app_length, length_app.
  replace (length l1 - (length l1 + length l2))%nat with 0%nat by lia. apply app_nil_r.
Qed.

(** [memmove] of the block [m], which starts at [from], to position [to]. *)
Lemma memmove_block l pre m post to from n :
  l = pre ++ m ++ post -> from = zlen pre -> n = zlen m -> 0 <= to -> to + n <= zlen l ->
  memmove l to from n = Ret (take (Z.to_nat to) l ++ m ++ drop (Z.to_nat (to + n)) l).
Proof.
  intros -> -> -> H1 H2. pose proof (zlen_nonneg m). pose proof (zlen_nonneg pre). pose proof (zlen_nonneg post).
  unfold memmove. rewrite !zlen_app in *.
  repeat match goal with |- context [?a <=? ?b] => destruct (Z.leb_spec a b); [|lia] end. simpl.
  rewrite !to_nat_zlen, drop_app_length, take_app_length. done.
Qed.

Lemma queue_reserve_ok q c num :
  0 <= num -> holds q c ->
  exists q', zbx_queue_ptr_reserve junk q num = Ret q' /\ holds q' c /\ zlen c + num + 1 <= q_alloc_num q'.
Proof.
  intros Hn Hq. unfold zbx_queue_ptr_reserve. rewrite (values_num_holds q c Hq).
  destruct (Z.leb_spec (zlen c + num + 1) (q_alloc_num q)) as [Hle|Hgt]; [by eexists|].
  set (k := Z.max (num + 1) (Z.quot (q_alloc_num q) 2)).
  assert (Hk : num + 1 <= k) by lia. clearbody k.
  assert (Hlen : zlen (q_values q) = q_alloc_num q) by (by destruct Hq).
  destruct (realloc_grow (q_values q) (q_alloc_num q + k)) as (r & -> & Hr); [lia|].
  assert (r <> 0%nat) as Hr0 by lia.
  destruct Hq as [|pre c post Hp|c2 mid c1 Hm Hc]; simpl in *.
  - eexists; split_and!; [done| |simpl; unfold zlen; simpl; lia].
    replace k with (zlen (replicate r junk)) by (unfold zlen in *; simpl in *; rewrite length_replicate; lia).
    refine (holds_linear [] [] (replicate r junk) _). by destruct r.
  - pose proof (zlen_nonneg c). pose proof (zlen_nonneg pre). pose proof (zlen_nonneg post). rewrite zlen_app. destruct (Z.ltb_spec (zlen pre + zlen c) (zlen pre)); [lia|].
    eexists; split_and!; [done| |simpl; rewrite !zlen_app in *; lia].
    rewrite <- zlen_app, <- Hr.
    replace (zlen (pre ++ c ++ post) + Z.of_nat r) with (zlen (pre ++ c ++ (post ++ replicate r junk)))
      by (rewrite !zlen_app; unfold zlen; rewrite length_replicate; lia).
    rewrite <- !app_assoc. apply holds_linear. by destruct post.
  - pose proof (zlen_pos _ Hm). pose proof (zlen_nonneg c1). pose proof (zlen_nonneg c2). rewrite zlen_app. destruct (Z.ltb_spec (zlen c2) (zlen c2 + zlen mid)); [|lia].
    rewrite (memmove_block _ (c2 ++ mid) c1 (replicate r junk)); [|by rewrite <- !app_assoc|by rewrite zlen_app|
      rewrite !zlen_app; lia|pose proof (zlen_nonneg c2); lia|].
    2: { rewrite !zlen_app, zlen_replicate in *. lia. }
    cbn [mbind res_mbind]. rewrite drop_ge, app_nil_r.
    2: { rewrite !zlen_app in *. rewrite !length_app, length_replicate. unfold zlen in *. lia. }
    set (mid' := take (Z.to_nat (zlen mid + k)) ((mid ++ c1) ++ replicate r junk)).
    assert (Hmid : zlen mid' = zlen mid + k).
    { unfold mid', zlen. rewrite length_take, !length_app, length_replicate. rewrite !zlen_app in *. unfold zlen in *. lia. }
    replace (take (Z.to_nat (zlen c2 + zlen mid + _)) _) with (c2 ++ mid').
    2: { rewrite <- app_assoc. replace (Z.to_nat _) with (length c2 + Z.to_nat (zlen mid + k))%nat
           by (unfold zlen; lia). by rewrite take_app_add. }
    eexists; split_and!; [done| |simpl; rewrite !zlen_app in *; lia].
    replace (zlen (c2 ++ mid ++ c1) + k) with (zlen (c2 ++ mid' ++ c1)) by (rewrite !zlen_app; lia).
    replace (zlen c2 + zlen mid + _) with (zlen (c2 ++ mid')) by (rewrite !zlen_app; lia).
    rewrite <- app_assoc. apply holds_wrapped; [|done]. intros E. rewrite E in Hmid. unfold zlen in Hmid. simpl in Hmid. lia.
Qed.

(** Constructors up to equality of the positions. *)
Lemma linear_eq values alloc h t pre c post :
  values = pre ++ c ++ post -> alloc = zlen values -> h = zlen pre + zlen c -> t = zlen pre -> post <> [] ->
  holds (QueuePtr values alloc h t) c.
Proof. intros -> -> -> -> Hp. rewrite <- zlen_app. by apply holds_linear. Qed.

Lemma wrapped_eq values alloc h t c c2 mid c1 :
  values = c2 ++ mid ++ c1 -> c = c1 ++ c2 -> alloc = zlen values -> h = zlen c2 -> t = zlen c2 + zlen mid ->
  mid <> [] -> c1 <> [] -> holds (QueuePtr values alloc h t) c.
Proof. intros -> -> -> -> -> Hm Hc. rewrite <- zlen_app. by apply holds_wrapped. Qed.

Lemma queue_push_ok q c v :
  holds q c -> exists q', zbx_queue_ptr_push junk q v = Ret q' /\ holds q' (c ++ [v]).
Proof.
  intros Hq. unfold zbx_queue_ptr_push.
  destruct (queue_reserve_ok q c 1 ltac:(lia) Hq) as (q1 & -> & Hq1 & Hal). cbn [mbind res_mbind]. clear Hq q.
  destruct Hq1 as [|pre c post Hp|c2 mid c1 Hm Hc]; simpl in *.
  - unfold zlen in Hal. simpl in Hal. lia.
  - destruct post as [|x post]; [done|]. rewrite app_assoc, store_app. cbn [mbind res_mbind].
    eexists; split; [done|]. rewrite <- app_assoc. destruct (Z.eqb_spec (zlen (pre ++ c) + 1) (zlen ((pre ++ c) ++ x :: post))) as [E|E].
    + assert (post = []) as -> by (destruct post; [done|lens]).
      apply (wrapped_eq _ _ _ _ _ [] pre (c ++ [v])); lens; try done.
      * by rewrite app_nil_r.
      * intros ->. lens.
      * by destruct c.
    + apply (linear_eq _ _ _ _ pre (c ++ [v]) post); lens; try done.
      * by rewrite <- app_assoc.
      * intros ->. lens.
  - destruct mid as [|x mid]; [done|]. rewrite <- app_comm_cons, store_app. cbn [mbind res_mbind].
    eexists; split; [done|]. pose proof (zlen_pos _ Hc).
    destruct (Z.eqb_spec (zlen c2 + 1) (zlen (c2 ++ x :: mid ++ c1))) as [E|E]; [lens|].
    apply (wrapped_eq _ _ _ _ _ (c2 ++ [v]) mid c1); lens; try done.
    + by rewrite <- app_assoc.
    + by rewrite app_assoc.
    + intros ->. lens.
Qed.

Lemma queue_pop_ok q c :
  holds q c ->
  match c with
  | [] => zbx_queue_ptr_pop q = Ret (q, 0)
  | v :: c => exists q', zbx_queue_ptr_pop q = Ret (q', v) /\ holds q' c
  end.
Proof.
  intros Hq. unfold zbx_queue_ptr_pop. destruct Hq as [|pre c post Hp|c2 mid c1 Hm Hc]; simpl in *; [done| |].
  - pose proof (zlen_pos _ Hp). destruct c as [|v c].
    + rewrite app_nil_r. by rewrite Z.eqb_refl.
    + destruct (Z.eqb_spec (zlen pre) (zlen (pre ++ v :: c))) as [E|_]; [lens|].
      simpl. rewrite load_app. cbn [mbind res_mbind].
      destruct (Z.eqb_spec (zlen pre + 1) (zlen (pre ++ v :: c ++ post))); [lens|].
      destruct (Z.eqb_spec (zlen (pre ++ v :: c)) (zlen (pre ++ v :: c ++ post))); [lens|].
      eexists; split; [done|]. apply (linear_eq _ _ _ _ (pre ++ [v]) c post); lens; try done.
      by rewrite <- app_assoc.
  - pose proof (zlen_pos _ Hm). destruct c1 as [|v c1]; [done|]. simpl.
    destruct (Z.eqb_spec (zlen (c2 ++ mid)) (zlen c2)) as [E|_]; [lens|]. simpl.
    rewrite app_assoc, load_app. cbn [mbind res_mbind].
    destruct (Z.eqb_spec (zlen c2) (zlen ((c2 ++ mid) ++ v :: c1))) as [E|_]; [lens|].
    eexists; split; [done|]. destruct (Z.eqb_spec (zlen (c2 ++ mid) + 1) (zlen ((c2 ++ mid) ++ v :: c1))) as [E|E].
    + assert (c1 = []) as -> by (destruct c1; [done|lens]).
      apply (linear_eq _ _ _ _ [] c2 (mid ++ [v])); lens; try done.
      * by rewrite <- app_assoc.
      * by destruct mid.
    + apply (wrapped_eq _ _ _ _ _ c2 (mid ++ [v]) c1); lens; try done.
      * by rewrite <- !app_assoc.
      * by destruct mid.
      * intros ->. lens.
Qed.

Lemma compact_ok q c :
  holds q c -> exists q', zbx_queue_ptr_compact junk q = Ret q' /\ holds q' c /\ q_alloc_num q' = zlen c + 1.
Proof.
  intros Hq. unfold zbx_queue_ptr_compact. rewrite (values_num_holds q c Hq).
  destruct (Z.eqb_spec (zlen c + 1) (q_alloc_num q)) as [E|E]; [by eexists|].
  destruct Hq as [|pre c post Hp|c2 mid c1 Hm Hc]; simpl in *.
  - eexists; split_and!; [done| |done]. by apply (linear_eq _ _ _ _ [] [] [junk]).
  - pose proof (zlen_pos _ Hp). destruct (Z.eqb_spec (zlen pre) 0) as [E0|E0]; simpl.
    + assert (pre = []) as -> by (destruct pre; [done|lens]). destruct post as [|x post]; [done|].
      eexists; split_and!; [done| |done]. simpl.
      assert (realloc junk (c ++ x :: post) (zlen c + 1) = c ++ [x]) as ->.
      { replace (c ++ x :: post) with ((c ++ [x]) ++ post) by (by rewrite <- app_assoc). apply realloc_exact. lens. }
      apply (linear_eq _ _ _ _ [] c [x]); lens; done.
    + destruct (Z.ltb_spec (zlen (pre ++ c)) (zlen pre)); [lens|].
      rewrite (memmove_block _ pre c post) by (done || lens). cbn [mbind res_mbind].
      destruct (drop (Z.to_nat (0 + zlen c)) (pre ++ c ++ post)) as [|y rest] eqn:D.
      { apply (f_equal zlen) in D. unfold zlen in D. rewrite length_drop, !length_app in D. unfold zlen in *.
        simpl in D. lia. }
      eexists; split_and!; [done| |done]. simpl.
      assert (realloc junk (c ++ y :: rest) (zlen c + 1) = c ++ [y]) as ->.
      { replace (c ++ y :: rest) with ((c ++ [y]) ++ rest) by (by rewrite <- app_assoc). apply realloc_exact. lens. }
      apply (linear_eq _ _ _ _ [] c [y]); lens; done.
  - destruct mid as [|x mid]; [done|]. destruct (Z.eqb_spec (zlen (c2 ++ x :: mid)) 0); [lens|]. simpl.
    destruct (Z.ltb_spec (zlen c2) (zlen (c2 ++ x :: mid))); [|lens].
    rewrite (memmove_block _ (c2 ++ x :: mid) c1 []);
      [|by rewrite app_nil_r, <- app_assoc|done|by rewrite !zlen_app, !zlen_cons, zlen_app; lia|lens|].
    2: { lens. }
    cbn [mbind res_mbind]. eexists; split_and!; [done| |done]. simpl.
    replace (take (Z.to_nat (zlen c2 + 1)) (c2 ++ x :: mid ++ c1)) with (c2 ++ [x]).
    2: { replace (Z.to_nat (zlen c2 + 1)) with (length c2 + 1)%nat by (unfold zlen; lia). by rewrite take_app_add. }
    set (tl := drop _ _).
    assert (realloc junk ((c2 ++ [x]) ++ c1 ++ tl) (zlen (c1 ++ c2) + 1) = c2 ++ [x] ++ c1) as ->.
    { replace ((c2 ++ [x]) ++ c1 ++ tl) with ((c2 ++ [x] ++ c1) ++ tl) by (by rewrite <- !app_assoc).
      apply realloc_exact. lens. }
    apply (wrapped_eq _ _ _ _ _ c2 [x] c1); lens; done.
Qed.

End ops.

(** ** Removal by value *)

Lemma find_up_ok c pre post v :
  (find_up (length c) (pre ++ c ++ post) (zlen pre) v = Ret None /\ v ∉ c) \/
  exists a b, c = a ++ v :: b /\ find_up (length c) (pre ++ c ++ post) (zlen pre) v = Ret (Some (zlen pre + zlen a)).
Proof.
  revert pre. induction c as [|x c IH]; intros pre; simpl; [left; split; [done|apply not_elem_of_nil]|].
  rewrite load_app. cbn [mbind res_mbind]. destruct (Z.eqb_spec x v) as [->|Hne].
  - right. exists [], c. split; [done|]. unfold zlen at 3. simpl. by rewrite Z.add_0_r.
  - specialize (IH (pre ++ [x])). rewrite <- app_assoc in IH. simpl in IH.
    replace (zlen (pre ++ [x])) with (zlen pre + 1) in IH by lens.
    destruct IH as [[-> Hn]|(a & b & -> & ->)].
    + left. split; [done|]. intros [?|?]%elem_of_cons; congruence.
    + right. exists (x :: a), b. split; [done|]. f_equal. f_equal. lens.
Qed.

Lemma find_down_ok c pre v :
  (find_down (length c) (pre ++ c) (zlen pre + zlen c - 1) v = Ret None /\ v ∉ c) \/
  exists a b, c = a ++ v :: b /\ find_down (length c) (pre ++ c) (zlen pre + zlen c - 1) v = Ret (Some (zlen pre + zlen a)).
Proof.
  assert (gen : forall post,
    (find_down (length c) (pre ++ c ++ post) (zlen pre + zlen c - 1) v = Ret None /\ v ∉ c) \/
    exists a b, c = a ++ v :: b /\
      find_down (length c) (pre ++ c ++ post) (zlen pre + zlen c - 1) v = Ret (Some (zlen pre + zlen a))).
  { induction c as [|x c IH] using rev_ind; intros post; [left; split; [done|apply not_elem_of_nil]|].
    rewrite length_app. simpl. rewrite Nat.add_1_r. cbn [find_down].
    assert (load (pre ++ (c ++ [x]) ++ post) (zlen pre + zlen (c ++ [x]) - 1) = Ret x) as ->.
    { replace (pre ++ (c ++ [x]) ++ post) with ((pre ++ c) ++ x :: post) by (by rewrite <- !app_assoc).
      replace (zlen pre + zlen (c ++ [x]) - 1) with (zlen (pre ++ c)) by lens. apply load_app. }
    cbn [mbind res_mbind]. destruct (Z.eqb_spec x v) as [->|Hne].
    - right. exists c, []. split; [done|]. f_equal. f_equal. lens.
    - specialize (IH (x :: post)). rewrite <- app_assoc. simpl.
      replace (zlen pre + zlen (c ++ [x]) - 1 - 1) with (zlen pre + zlen c - 1) by lens.
      destruct IH as [[-> Hn]|(a & b & -> & ->)].
      + left. split; [done|]. intros [?|?%list_elem_of_singleton]%elem_of_app; congruence.
      + right. exists a, (b ++ [x]). split; [by rewrite <- app_assoc|done]. }
  specialize (gen []). by rewrite app_nil_r in gen.
Qed.

Lemma shift_left_ok b pre x post :
  exists y, shift_left (length b) (pre ++ x :: b ++ post) (zlen pre) = Ret (pre ++ b ++ y :: post).
Proof.
  revert pre x. induction b as [|z b IH]; intros pre x; simpl; [by exists x|].
  assert (load (pre ++ x :: z :: b ++ post) (zlen pre + 1) = Ret z) as ->.
  { replace (pre ++ x :: z :: b ++ post) with ((pre ++ [x]) ++ z :: b ++ post) by (by rewrite <- app_assoc).
    replace (zlen pre + 1) with (zlen (pre ++ [x])) by lens. apply load_app. }
  cbn [mbind res_mbind]. rewrite store_app. cbn [mbind res_mbind].
  destruct (IH (pre ++ [z]) z) as [y Hy]. exists y. rewrite <- !app_assoc in Hy. simpl in Hy.
  replace (zlen pre + 1) with (zlen (pre ++ [z])) by lens. exact Hy.
Qed.

Lemma shift_right_ok a pre x post :
  exists y, shift_right (length a) (pre ++ a ++ x :: post) (zlen pre + zlen a) = Ret (pre ++ y :: a ++ post).
Proof.
  revert x post. induction a as [|z a IH] using rev_ind; intros x post.
  { exists x. simpl. done. }
  rewrite length_app. simpl. rewrite Nat.add_1_r. cbn [shift_right].
  assert (load (pre ++ (a ++ [z]) ++ x :: post) (zlen pre + zlen (a ++ [z]) - 1) = Ret z) as ->.
  { replace (pre ++ (a ++ [z]) ++ x :: post) with ((pre ++ a) ++ z :: x :: post) by (by rewrite <- !app_assoc).
    replace (zlen pre + zlen (a ++ [z]) - 1) with (zlen (pre ++ a)) by lens. apply load_app. }
  cbn [mbind res_mbind].
  assert (store (pre ++ (a ++ [z]) ++ x :: post) (zlen pre + zlen (a ++ [z])) z = Ret (pre ++ a ++ z :: z :: post)) as ->.
  { replace (pre ++ (a ++ [z]) ++ x :: post) with ((pre ++ a ++ [z]) ++ x :: post) by (by rewrite <- !app_assoc).
    rewrite <- zlen_app, store_app. f_equal. by rewrite <- !app_assoc. }
  cbn [mbind res_mbind]. replace (zlen pre + zlen (a ++ [z]) - 1) with (zlen pre + zlen a) by lens.
  destruct (IH z (z :: post)) as [y Hy]. exists y. rewrite Hy. f_equal. by rewrite <- app_assoc.
Qed.

(** Removing one occurrence of [v]. *)
Definition removed (v : Z) (c c' : list Z) : Prop :=
  ((v ∉ c) /\ c' = c) \/ (exists a b, c = a ++ v :: b /\ c' = a ++ b).

Lemma remove_value_ok q c v :
  holds q c -> exists q' c', zbx_queue_ptr_remove_value q v = Ret q' /\ holds q' c' /\ removed v c c'.
Proof.
  intros Hq. pose proof Hq as Hq0. unfold zbx_queue_ptr_remove_value.
  destruct Hq as [|pre c post Hp|c2 mid c1 Hm Hc]; simpl in *.
  - eexists _, []; split_and!; [done..|]. left. split; [apply not_elem_of_nil|done].
  - pose proof (zlen_pos _ Hp). destruct (Z.eqb_spec (zlen pre) (zlen (pre ++ c))) as [E|E].
    { exists (QueuePtr (pre ++ c ++ post) (zlen (pre ++ c ++ post)) (zlen (pre ++ c)) (zlen pre)), c. split_and!; [done..|]. left.
      assert (c = []) as -> by (destruct c; [done|lens]). split; [apply not_elem_of_nil|done]. }
    destruct (Z.ltb_spec (zlen pre) (zlen (pre ++ c))) as [_|?]; [|lens].
    replace (Z.to_nat (zlen (pre ++ c) - zlen pre)) with (length c) by (unfold zlen; rewrite length_app; lia).
    destruct (find_up_ok c pre post v) as [[-> Hn]|(a & b & -> & ->)]; cbn [mbind res_mbind].
    + destruct (Z.leb_spec (zlen pre) (zlen (pre ++ c))); [|lens].
      eexists _, c; split_and!; [done..|]. by left.
    + destruct (shift_left_ok b (pre ++ a) v post) as [y Hy].
      replace (Z.to_nat _) with (length b) by (unfold zlen; rewrite !length_app; simpl; lia).
      replace (pre ++ (a ++ v :: b) ++ post) with ((pre ++ a) ++ v :: b ++ post) by (by rewrite <- !app_assoc).
      rewrite <- zlen_app, Hy. cbn [mbind res_mbind]. eexists _, (a ++ b); split_and!; [done| |right; eauto].
      apply (linear_eq _ _ _ _ pre (a ++ b) (y :: post)); lens; try done. by rewrite <- !app_assoc.
  - pose proof (zlen_pos _ Hm). destruct (Z.eqb_spec (zlen (c2 ++ mid)) (zlen c2)) as [E|_]; [lens|].
    destruct (Z.ltb_spec (zlen (c2 ++ mid)) (zlen c2)) as [?|_]; [lens|].
    replace (Z.to_nat (zlen c2 - 0)) with (length c2) by (unfold zlen; lia).
    destruct (find_up_ok c2 [] (mid ++ c1) v) as [[F Hn]|(a & b & -> & F)]; change (zlen (@nil Z)) with 0 in F;
      simpl in F; rewrite F; cbn [mbind res_mbind].
    + destruct (Z.leb_spec (zlen (c2 ++ mid)) (zlen c2)) as [?|_]; [lens|].
      replace (Z.to_nat _) with (length c1) by (unfold zlen; rewrite !length_app; lia).
      replace (zlen (c2 ++ mid ++ c1) - 1) with (zlen (c2 ++ mid) + zlen c1 - 1) by lens.
      rewrite app_assoc. destruct (find_down_ok c1 (c2 ++ mid) v) as [[-> Hn1]|(a & b & -> & ->)]; cbn [mbind res_mbind].
      * eexists _, (c1 ++ c2); split_and!; [done|by rewrite <- app_assoc|]. left.
        split; [|done]. intros [?|?]%elem_of_app; done.
      * destruct (shift_right_ok a (c2 ++ mid) v b) as [y Hy].
        replace (Z.to_nat _) with (length a) by (unfold zlen; lia). rewrite Hy. cbn [mbind res_mbind].
        eexists _, ((a ++ b) ++ c2); split_and!; [done| |right; exists a, (b ++ c2); by rewrite <- !app_assoc].
        destruct (Z.eqb_spec (zlen (c2 ++ mid) + 1) (zlen ((c2 ++ mid) ++ a ++ v :: b))) as [E|E].
        -- assert (a = [] /\ b = []) as [-> ->] by (destruct a, b; try done; lens).
           apply (linear_eq _ _ _ _ [] c2 (mid ++ [y])); lens; try done; [by rewrite <- !app_assoc|by destruct mid].
        -- apply (wrapped_eq _ _ _ _ _ c2 (mid ++ [y]) (a ++ b)); lens; try done; [by rewrite <- !app_assoc|by destruct mid|].
           intros [-> ->]%app_eq_nil. lens.
    + destruct (shift_left_ok b a v (mid ++ c1)) as [y Hy].
      replace (Z.to_nat _) with (length b) by (unfold zlen; rewrite !length_app; simpl; lia).
      rewrite <- app_assoc. simpl. change (0 + zlen a) with (zlen a). rewrite Hy. cbn [mbind res_mbind].
      eexists _, (c1 ++ a ++ b); split_and!; [done| |right; exists (c1 ++ a), b; by rewrite <- !app_assoc].
      apply (wrapped_eq _ _ _ _ _ (a ++ b) (y :: mid) c1); lens; try done. by rewrite <- !app_assoc.
Qed.

(** ** Properties *)

(** The circular array implements a FIFO queue: the number of values is
    the length, push appends (also when the array grows, with the values
    wrapped around its end), pop takes the oldest value or returns NULL when
    there is none, remove_value takes out one occurrence and nothing else,
    reserve and compact change only the capacity.  No access leaves the
    array. *)
Theorem queue_ptr_refines_fifo junk q c :
  holds q c ->
  zbx_queue_ptr_values_num q = zlen c /\
  (forall v, exists q', zbx_queue_ptr_push junk q v = Ret q' /\ holds q' (c ++ [v])) /\
  match c with
  | [] => zbx_queue_ptr_pop q = Ret (q, 0)
  | v :: c => exists q', zbx_queue_ptr_pop q = Ret (q', v) /\ holds q' c
  end /\
  (forall v, exists q' c', zbx_queue_ptr_remove_value q v = Ret q' /\ holds q' c' /\ removed v c c') /\
  (forall num, 0 <= num -> exists q', zbx_queue_ptr_reserve junk q num = Ret q' /\ holds q' c /\
     zlen c + num + 1 <= q_alloc_num q') /\
  (exists q', zbx_queue_ptr_compact junk q = Ret q' /\ holds q' c /\ q_alloc_num q' = zlen c + 1).
Proof.
  intros Hq. split_and!.
  - by apply values_num_holds.
  - intros v. by apply queue_push_ok.
  - by apply queue_pop_ok.
  - intros v. by apply remove_value_ok.
  - intros num Hn. by apply queue_reserve_ok.
  - by apply compact_ok.
Qed.

Lemma queue_ptr_refines_witness : exists q', zbx_queue_ptr_push 0 zbx_queue_ptr_create 5 = Ret q' /\ holds q' [5].
Proof. apply (queue_ptr_refines_fifo 0 zbx_queue_ptr_create [] holds_null). Defined.

Definition queue_run : res (queue_ptr * Z) :=
  q ← zbx_queue_ptr_push 0 zbx_queue_ptr_create 5;
  q ← zbx_queue_ptr_push 0 q 6;
  '(q, _) ← zbx_queue_ptr_pop q;
  q ← zbx_queue_ptr_push 0 q 7;
  q ← zbx_queue_ptr_push 0 q 8;
  q ← zbx_queue_ptr_remove_value q 6;
  zbx_queue_ptr_pop q.

Example queue_run_pops_7 : snd <$> (match queue_run with Ret r => Some r | Halt _ => None end) = Some 7.
Proof. vm_compute. reflexivity. Qed.
