(* ===== verification/LinkedList.v ===== *)
(** * Singly linked list (src/libs/zbxalgo/linked_list.c)

    List items live in a shared store, a finite map from addresses (0 is
    NULL) to items; a list is its head and tail pointers, an iterator holds
    pointers into the store.  [malloc] is a parameter that gives an unused
    address; freeing removes the item from the store, so that following a
    dangling pointer is a [BadAccess].

    [list_is m l ns] relates a list in a store to the addresses and values of
    its items in order. *)
From stdpp Require Import prelude list gmap.
From Stdlib Require Import ZArith Lia.
From S2P Require Import Prelude.
#[local] Open Scope Z_scope.

Record list_item := ListItem { it_next : Z; it_data : Z }.
Record zlist := ZList { l_head : Z; l_tail : Z }.
Record list_iterator := ListIterator { i_list : Z; i_current : Z; i_next : Z }.

#[local] Abbreviation store := (gmap Z list_item).

Section model.
Variable malloc : store -> Z.

Definition get (m : store) (p : Z) : res list_item := of_opt BadAccess (if p =? 0 then None else m !! p).

(** [p->next = v]. *)
Definition set_next (m : store) (p v : Z) : res store :=
  it ← get m p; Ret (<[p := ListItem v (it_data it)]> m).

Definition zbx_list_create : zlist := ZList 0 0.

Definition list_create_item (m : store) (value : Z) : store * Z :=
  let p := malloc m in (<[p := ListItem 0 value]> m, p).

Definition zbx_list_insert_after (m : store) (l : zlist) (after value : Z) : res (store * zlist * Z) :=
  let '(m, item) := list_create_item m value in
  let after := if after =? 0 then l_tail l else after in
  '(m, l) ← (if negb (after =? 0) then
               a ← get m after;
               m ← set_next m item (it_next a);
               m ← set_next m after item;
               Ret (m, l)
             else Ret (m, ZList item (l_tail l)));
  let l := if after =? l_tail l then ZList (l_head l) item else l in
  Ret (m, l, item).

Definition zbx_list_append (m : store) (l : zlist) (value : Z) : res (store * zlist * Z) :=
  zbx_list_insert_after m l 0 value.

Definition zbx_list_prepend (m : store) (l : zlist) (value : Z) : res (store * zlist * Z) :=
  let '(m, item) := list_create_item m value in
  m ← set_next m item (l_head l);
  let l := ZList item (l_tail l) in
  let l := if l_tail l =? 0 then ZList (l_head l) item else l in
  Ret (m, l, item).

(** The returned value is [Some] on SUCCEED. *)
Definition zbx_list_pop (m : store) (l : zlist) : res (store * zlist * option Z) :=
  if l_head l =? 0 then Ret (m, l, None)
  else
    let head := l_head l in
    h ← get m head;
    let l := ZList (it_next h) (l_tail l) in
    let m := delete head m in
    let l := if l_head l =? 0 then ZList (l_head l) 0 else l in
    Ret (m, l, Some (it_data h)).

Fixpoint destroy_loop (fuel : nat) (m : store) (l : zlist) : res (store * zlist) :=
  match fuel with
  | O => Halt OutOfFuel
  | S fuel =>
      '(m, l, v) ← zbx_list_pop m l;
      match v with Some _ => destroy_loop fuel m l | None => Ret (m, l) end
  end.

Definition zbx_list_destroy (m : store) (l : zlist) : res (store * zlist) := destroy_loop (S (size m)) m l.

Definition zbx_list_peek (m : store) (l : zlist) : res (option Z) :=
  if negb (l_head l =? 0) then h ← get m (l_head l); Ret (Some (it_data h)) else Ret None.

(** [lp] is the address of the list structure. *)
Definition zbx_list_iterator_init (lp : Z) (l : zlist) : list_iterator := ListIterator lp 0 (l_head l).

Definition zbx_list_iterator_next (m : store) (i : list_iterator) : res (list_iterator * Z) :=
  if negb (i_next i =? 0) then
    n ← get m (i_next i);
    Ret (ListIterator (i_list i) (i_next i) (it_next n), SUCCEED)
  else Ret (i, FAIL).

Definition zbx_list_iterator_peek (m : store) (i : list_iterator) : res (option Z) :=
  if negb (i_current i =? 0) then c ← get m (i_current i); Ret (Some (it_data c)) else Ret None.

Definition zbx_list_iterator_clear (i : list_iterator) : list_iterator := ListIterator 0 0 0.

Definition zbx_list_iterator_equal (i1 i2 : list_iterator) : Z :=
  if (i_list i1 =? i_list i2) && (i_current i1 =? i_current i2) then SUCCEED else FAIL.

Definition zbx_list_iterator_isset (i : list_iterator) : Z := if i_list i =? 0 then FAIL else SUCCEED.

Definition zbx_list_iterator_update (m : store) (i : list_iterator) : res list_iterator :=
  if negb (i_current i =? 0) then c ← get m (i_current i); Ret (ListIterator (i_list i) (i_current i) (it_next c))
  else Ret i.

(** The returned data is [None] for NULL. *)
Definition zbx_list_iterator_remove_next (m : store) (l : zlist) (i : list_iterator) :
    res (store * zlist * list_iterator * option Z) :=
  if (i_current i =? 0) || (i_next i =? 0) then Ret (m, l, i, None)
  else
    let next := i_next i in
    n ← get m next;
    let l := if l_tail l =? next then ZList (l_head l) (i_current i) else l in
    m ← set_next m (i_current i) (it_next n);
    let i := ListIterator (i_list i) (i_current i) (it_next n) in
    Ret (delete next m, l, i, Some (it_data n)).

(** [while (SUCCEED == zbx_list_iterator_next(&i)) zbx_list_iterator_peek(&i, &v);],
    the way the callers walk a list. *)
Fixpoint walk (fuel : nat) (m : store) (i : list_iterator) : res (list Z) :=
  match fuel with
  | O => Halt OutOfFuel
  | S fuel =>
      '(i, ret) ← zbx_list_iterator_next m i;
      if ret =? SUCCEED then
        v ← zbx_list_iterator_peek m i;
        vs ← walk fuel m i;
        Ret (match v with Some v => v :: vs | None => vs end)
      else Ret []
  end.

End model.

(** ** Theory *)

#[local] Abbreviation node := (Z * Z)%type.

(** The items from pointer [a] up to pointer [e]. *)
Fixpoint chain (m : store) (a : Z) (ns : list node) (e : Z) : Prop :=
  match ns with
  | [] => a = e
  | n :: ns => a = n.1 /\ a <> 0 /\ exists nx, m !! a = Some (ListItem nx n.2) /\ chain m nx ns e
  end.

Definition last_addr (ns : list node) : Z := match last ns with Some n => n.1 | None => 0 end.

Record list_is (m : store) (l : zlist) (ns : list node) : Prop := {
  ls_chain : chain m (l_head l) ns 0;
  ls_nodup : NoDup ns.*1;
  ls_tail : l_tail l = last_addr ns }.

Lemma chain_app m a n1 n2 e : chain m a (n1 ++ n2) e <-> exists b, chain m a n1 b /\ chain m b n2 e.
Proof.
  revert a. induction n1 as [|n n1 IH]; intros a; simpl; [naive_solver|]. split.
  - intros (-> & ? & nx & ? & (b & ? & ?)%IH). exists b. naive_solver.
  - intros (b & (-> & ? & nx & ? & ?) & ?). split_and!; [done..|]. exists nx. split; [done|]. apply IH. eauto.
Qed.

Lemma list_chain_frame m m' a ns e : (forall p, p ∈ ns.*1 -> m' !! p = m !! p) -> chain m a ns e -> chain m' a ns e.
Proof.
  revert a. induction ns as [|n ns IH]; intros a Hm; simpl; [done|].
  intros (-> & ? & nx & Hn & Hc). split_and!; [done..|]. exists nx. split; [rewrite Hm; [done|by left]|].
  apply IH; [|done]. intros. apply Hm. by right.
Qed.

Lemma list_chain_dom m a ns e p : chain m a ns e -> p ∈ ns.*1 -> p <> 0 /\ is_Some (m !! p).
Proof.
  revert a. induction ns as [|n ns IH]; intros a; simpl; [intros _ H; by apply not_elem_of_nil in H|].
  intros (-> & ? & nx & Hn & Hc) [->|Hp]%elem_of_cons; [split; [done|by eexists]|by eapply IH].
Qed.

Lemma list_get_Some m p it : p <> 0 -> m !! p = Some it -> get m p = Ret it.
Proof. intros Hp Hm. unfold get. destruct (Z.eqb_spec p 0) as [|_]; [done|]. by rewrite Hm. Qed.

Lemma set_next_Some m p it v : p <> 0 -> m !! p = Some it -> set_next m p v = Ret (<[p := ListItem v (it_data it)]> m).
Proof. intros. unfold set_next. by rewrite (list_get_Some m p it). Qed.

Lemma list_last_addr_snoc ns p d : last_addr (ns ++ [(p, d)]) = p.
Proof. unfold last_addr. by rewrite last_snoc. Qed.

Lemma last_addr_app ns n ns' : last_addr (ns ++ n :: ns') = last_addr (n :: ns').
Proof. unfold last_addr. by rewrite last_app_cons. Qed.

Lemma last_addr_in n ns : last_addr (n :: ns) ∈ (n :: ns).*1.
Proof.
  unfold last_addr. destruct (last (n :: ns)) as [x|] eqn:E.
  - apply list_elem_of_fmap. exists x. split; [done|]. by apply last_Some_elem_of.
  - by apply last_None in E.
Qed.

Section ops.
Variable malloc : store -> Z.
Hypothesis malloc_fresh : forall m, malloc m <> 0 /\ m !! malloc m = None.

(** Stores that agree outside of the items of a list. *)
Definition frame (m m' : store) (ps : list Z) : Prop := forall p, p ∉ ps -> m' !! p = m !! p.

Lemma fresh_not_in m a ns e : chain m a ns e -> malloc m ∉ ns.*1.
Proof.
  intros Hc Hin. destruct (list_chain_dom _ _ _ _ _ Hc Hin) as [_ [x Hx]]. destruct (malloc_fresh m). congruence.
Qed.

(** The insertion of a new item with value [v] after the item [(p, d)]. *)
Lemma link_after m a n1 p d n2 v :
  chain m a (n1 ++ (p, d) :: n2) 0 -> NoDup (n1 ++ (p, d) :: n2).*1 ->
  exists nx m', m !! p = Some (ListItem nx d) /\ p <> 0 /\ p <> malloc m /\
    m' = <[p := ListItem (malloc m) d]> (<[malloc m := ListItem nx v]> m) /\
    chain m' a (n1 ++ (p, d) :: (malloc m, v) :: n2) 0 /\
    NoDup (n1 ++ (p, d) :: (malloc m, v) :: n2).*1.
Proof.
  intros Hc ND. pose proof (fresh_not_in _ _ _ _ Hc) as Hf. destruct (malloc_fresh m) as [Hf0 _].
  assert (Hpf : p <> malloc m).
  { intros E. apply Hf. rewrite <- E, fmap_app. apply elem_of_app. right. by left. }
  apply chain_app in Hc as (b & Hc1 & (-> & Hp & nx & Hnx & Hc2)). simpl in *.
  rewrite fmap_app in *. simpl in *. apply NoDup_app in ND as (ND1 & Hd & [Hp2 ND2]%NoDup_cons).
  rewrite elem_of_app, elem_of_cons in Hf.
  exists nx. eexists. split_and!; [done..| |].
  - apply chain_app. exists p. split.
    + eapply list_chain_frame; [|exact Hc1]. intros q Hq. rewrite !lookup_insert_ne; [done| |].
      * intros <-. tauto.
      * intros <-. apply (Hd p); [done|by left].
    + simpl. split_and!; [done..|]. exists (malloc m). split; [by rewrite lookup_insert_eq|].
      split_and!; [done..|]. exists nx. split; [rewrite lookup_insert_ne, lookup_insert_eq by done; done|].
      eapply list_chain_frame; [|exact Hc2]. intros q Hq. rewrite !lookup_insert_ne; [done| |]; intros <-; tauto.
  - apply NoDup_app. split_and!; [done| |].
    + intros x Hx. rewrite !not_elem_of_cons. split_and!; [|intros ->; tauto|]; intros E; apply (Hd x Hx); subst; [by left|by right].
    + apply NoDup_cons. split; [rewrite not_elem_of_cons; tauto|]. apply NoDup_cons. split; [tauto|done].
Qed.

(** Insertion after an item of the list. *)
Lemma insert_after_ok m l n1 p d n2 v :
  list_is m l (n1 ++ (p, d) :: n2) ->
  exists m' l' q, zbx_list_insert_after malloc m l p v = Ret (m', l', q) /\
    list_is m' l' (n1 ++ (p, d) :: (q, v) :: n2) /\ q = malloc m /\ frame m m' [p; q].
Proof using malloc_fresh.
  intros [Hc ND Ht]. destruct (link_after m _ n1 p d n2 v Hc ND) as (nx & m' & Hp & Hp0 & Hpf & Em' & Hc' & ND').
  destruct (malloc_fresh m) as [Hf0 Hf]. unfold zbx_list_insert_after, list_create_item.
  destruct (Z.eqb_spec p 0) as [|_]; [done|]. destruct (Z.eqb_spec p 0) as [|_]; [done|]. simpl negb. cbv iota.
  rewrite (list_get_Some _ p (ListItem nx d)) by (rewrite ?lookup_insert_ne by done; done). cbn [mbind res_mbind it_next].
  rewrite (set_next_Some _ (malloc m) (ListItem 0 v)) by (rewrite ?lookup_insert_eq; done).
  cbn [mbind res_mbind it_data]. rewrite insert_insert_eq.
  rewrite (set_next_Some _ p (ListItem nx d)) by (rewrite ?lookup_insert_ne by done; done).
  cbn [mbind res_mbind it_data]. rewrite <- Em'.
  eexists _, _, (malloc m). split_and!; [done| |done|].
  - split; [|done|].
    + by destruct (p =? l_tail l).
    + destruct (Z.eqb_spec p (l_tail l)) as [E|E]; cbn [l_tail]; rewrite last_addr_app in *.
      * destruct n2 as [|n n2]; [done|]. exfalso. rewrite Ht in E. rewrite fmap_app in ND. simpl in ND.
        apply NoDup_app in ND as (_ & _ & [Hn _]%NoDup_cons). apply Hn.
        change (p ∈ (n :: n2).*1). rewrite E. apply (last_addr_in n n2).
      * rewrite Ht. destruct n2 as [|n n2]; [done|]. done.
  - intros q Hq. rewrite !not_elem_of_cons in Hq. rewrite Em', !lookup_insert_ne by naive_solver. done.
Qed.

Lemma list_append_ok m l ns v :
  list_is m l ns ->
  exists m' l' q, zbx_list_append malloc m l v = Ret (m', l', q) /\ list_is m' l' (ns ++ [(q, v)]) /\
    q = malloc m /\ frame m m' [l_tail l; q].
Proof using malloc_fresh.
  intros Hl. unfold zbx_list_append. destruct ns as [|x ns] using rev_ind.
  - destruct Hl as [Hc _ Ht]. simpl in Hc. unfold last_addr in Ht. simpl in Ht.
    unfold zbx_list_insert_after, list_create_item. destruct (malloc_fresh m) as [Hf0 Hf].
    rewrite Ht. simpl. eexists _, _, _. split_and!; [done| |done|].
    + split; simpl; [|apply NoDup_singleton|done]. split_and!; [done..|]. exists 0. by rewrite lookup_insert_eq.
    + intros q Hq. rewrite !not_elem_of_cons in Hq. rewrite lookup_insert_ne by naive_solver. done.
  - clear IHns. destruct x as [p d]. pose proof (ls_tail _ _ _ Hl) as Ht. rewrite list_last_addr_snoc in Ht.
    destruct (insert_after_ok m l ns p d [] v Hl) as (m' & l' & q & E & Hl' & Hq & Hf).
    pose proof (ls_chain _ _ _ Hl) as Hc.
    assert (p <> 0) as Hp0.
    { apply (list_chain_dom _ _ _ _ p Hc). rewrite fmap_app. apply elem_of_app. right. by left. }
    exists m', l', q. split_and!; [|by rewrite <- app_assoc|done|by rewrite Ht].
    rewrite <- E. unfold zbx_list_insert_after. change (0 =? 0) with true. cbv iota. rewrite Ht. by rewrite !(proj2 (Z.eqb_neq p 0) Hp0).
Qed.

Lemma prepend_ok m l ns v :
  list_is m l ns ->
  exists m' l' q, zbx_list_prepend malloc m l v = Ret (m', l', q) /\ list_is m' l' ((q, v) :: ns) /\
    q = malloc m /\ frame m m' [q].
Proof using malloc_fresh.
  intros [Hc ND Ht]. pose proof (fresh_not_in _ _ _ _ Hc) as Hf. destruct (malloc_fresh m) as [Hf0 _].
  unfold zbx_list_prepend, list_create_item.
  rewrite (set_next_Some _ (malloc m) (ListItem 0 v)) by (rewrite ?lookup_insert_eq; done).
  cbn [mbind res_mbind it_data]. rewrite insert_insert_eq. eexists _, _, _. split_and!; [done| |done|].
  - split.
    + assert (C : chain (<[malloc m := ListItem (l_head l) v]> m) (malloc m) ((malloc m, v) :: ns) 0).
      { simpl. split_and!; [done..|]. exists (l_head l). split; [by rewrite lookup_insert_eq|].
        eapply list_chain_frame; [|exact Hc]. intros q Hq. rewrite lookup_insert_ne; [done|]. intros <-. done. }
      by case_match.
    + simpl. by apply NoDup_cons.
    + simpl. rewrite Ht. destruct ns as [|n ns]; [done|].
      destruct (Z.eqb_spec (last_addr (n :: ns)) 0) as [E|]; [|done].
      destruct (list_chain_dom _ _ _ _ _ Hc (last_addr_in n ns)). done.
  - intros q Hq. rewrite not_elem_of_cons in Hq. rewrite lookup_insert_ne by naive_solver. done.
Qed.

End ops.

Lemma list_pop_ok m l ns :
  list_is m l ns ->
  match ns with
  | [] => zbx_list_pop m l = Ret (m, l, None)
  | (p, d) :: ns => exists l', zbx_list_pop m l = Ret (delete p m, l', Some d) /\ list_is (delete p m) l' ns
  end.
Proof.
  intros [Hc ND Ht]. unfold zbx_list_pop. destruct ns as [|[p d] ns]; simpl in Hc.
  - by rewrite Hc.
  - destruct Hc as (E & Hp & nx & Hm & Hc). rewrite E in *. destruct (Z.eqb_spec p 0) as [|_]; [done|].
    rewrite (list_get_Some _ p _ Hp Hm). cbn [mbind res_mbind it_next it_data l_head]. simpl in ND.
    apply NoDup_cons in ND as [Hni ND]. eexists; split; [done|].
    assert (Hc' : chain (delete p m) nx ns 0).
    { eapply list_chain_frame; [|exact Hc]. intros q Hq. rewrite lookup_delete_ne; [done|]. by intros <-. }
    split; [by case_match|done|]. destruct ns as [|n ns].
    + simpl in Hc. by rewrite Hc.
    + destruct (Z.eqb_spec nx 0) as [->|]; [by destruct Hc as (? & ? & _)|]. simpl. by rewrite Ht.
Qed.

Lemma peek_ok m l ns : list_is m l ns -> zbx_list_peek m l = Ret (snd <$> head ns).
Proof.
  intros [Hc _ _]. unfold zbx_list_peek. destruct ns as [|[p d] ns]; simpl in Hc; [by rewrite Hc|].
  destruct Hc as (E & Hp & nx & Hm & _). rewrite E in *. destruct (Z.eqb_spec p 0) as [|_]; [done|].
  simpl. by rewrite (list_get_Some _ p _ Hp Hm).
Qed.

(** ** Iterators: [d] has been visited, [r] is to come *)

Definition head_addr (ns : list node) : Z := match ns with n :: _ => n.1 | [] => 0 end.

Definition iter_at (i : list_iterator) (d r : list node) : Prop :=
  i_current i = last_addr d /\ i_next i = head_addr r.

Lemma chain_head m a r : chain m a r 0 -> a = head_addr r.
Proof. destruct r; simpl; [done|naive_solver]. Qed.

Lemma list_split m l d n r :
  list_is m l (d ++ n :: r) ->
  n.1 <> 0 /\ exists nx, m !! n.1 = Some (ListItem nx n.2) /\ chain m nx r 0 /\ nx = head_addr r.
Proof.
  intros [(b & _ & (-> & Hb & nx & Hn & Hr))%chain_app _ _]. split; [done|]. exists nx.
  split_and!; [done..|]. by eapply chain_head.
Qed.

Lemma iterator_init_ok m l lp ns : list_is m l ns -> iter_at (zbx_list_iterator_init lp l) [] ns.
Proof. intros [Hc _ _]. split; simpl; [done|]. by eapply chain_head. Qed.

Lemma iterator_next_ok m l i d r :
  list_is m l (d ++ r) -> iter_at i d r ->
  match r with
  | [] => zbx_list_iterator_next m i = Ret (i, FAIL)
  | n :: r => exists i', zbx_list_iterator_next m i = Ret (i', SUCCEED) /\ iter_at i' (d ++ [n]) r
  end.
Proof.
  intros Hl [Hc Hn]. unfold zbx_list_iterator_next. destruct r as [|[p v] r]; simpl in Hn; rewrite Hn; [done|].
  destruct (list_split m l d (p, v) r Hl) as (Hp & nx & Hm & _ & Hnx). simpl in *.
  destruct (Z.eqb_spec p 0) as [|_]; [done|]. simpl. rewrite (list_get_Some _ p _ Hp Hm). simpl.
  eexists; split; [done|]. split; simpl; [by rewrite list_last_addr_snoc|done].
Qed.

Lemma iterator_peek_ok m l i d r :
  list_is m l (d ++ r) -> iter_at i d r -> zbx_list_iterator_peek m i = Ret (snd <$> last d).
Proof.
  intros Hl [Hc _]. unfold zbx_list_iterator_peek. destruct d as [|[p v] d _] using rev_ind.
  - by rewrite Hc.
  - rewrite list_last_addr_snoc in Hc. rewrite Hc, last_snoc. rewrite <- app_assoc in Hl.
    destruct (list_split m l d (p, v) r Hl) as (Hp & nx & Hm & _). simpl in *.
    destruct (Z.eqb_spec p 0) as [|_]; [done|]. simpl. by rewrite (list_get_Some _ p _ Hp Hm).
Qed.

Lemma list_walk_ok fuel m l i d r :
  list_is m l (d ++ r) -> iter_at i d r -> (length r < fuel)%nat -> walk fuel m i = Ret r.*2.
Proof.
  revert i d r. induction fuel as [|fuel IH]; intros i d r Hl Hi Hf; [lia|]. cbn [walk].
  pose proof (iterator_next_ok m l i d r Hl Hi) as Hn. destruct r as [|n r]; [by rewrite Hn|].
  destruct Hn as (i' & -> & Hi'). cbn [mbind res_mbind]. simpl (_ =? _). cbv iota.
  assert (Hl' : list_is m l ((d ++ [n]) ++ r)) by (by rewrite <- app_assoc).
  rewrite (iterator_peek_ok m l i' _ _ Hl' Hi'), last_snoc. cbn [mbind res_mbind fmap option_fmap option_map].
  rewrite (IH i' _ _ Hl' Hi') by (simpl in Hf; lia). done.
Qed.

Lemma iterator_update_ok m l i d r r0 :
  list_is m l (d ++ r) -> d <> [] -> iter_at i d r0 ->
  exists i', zbx_list_iterator_update m i = Ret i' /\ iter_at i' d r.
Proof.
  intros Hl Hd [Hc _]. destruct d as [|[p v] d _] using rev_ind; [done|].
  rewrite list_last_addr_snoc in Hc. rewrite <- app_assoc in Hl.
  destruct (list_split m l d (p, v) r Hl) as (Hp & nx & Hm & _ & Hnx). simpl in *.
  unfold zbx_list_iterator_update. rewrite Hc. destruct (Z.eqb_spec p 0) as [|_]; [done|]. simpl.
  rewrite (list_get_Some _ p _ Hp Hm). simpl. eexists; split; [done|]. split; simpl; [by rewrite list_last_addr_snoc|done].
Qed.

(** Unlinking the item [(p, v)] after [(c, w)]. *)
Lemma unlink m l d c w p v r :
  list_is m l (d ++ (c, w) :: (p, v) :: r) ->
  exists nx, m !! c = Some (ListItem p w) /\ m !! p = Some (ListItem nx v) /\ c <> 0 /\ p <> 0 /\ nx = head_addr r /\
    list_is (delete p (<[c := ListItem nx w]> m))
      (if l_tail l =? p then ZList (l_head l) c else l) (d ++ (c, w) :: r).
Proof.
  intros [(b & Hd & (-> & Hc0 & nx0 & Hc & (-> & Hp0 & nx & Hp & Hr)))%chain_app ND Ht]. simpl in *.
  exists nx. split_and!; [done..|by eapply chain_head|].
  rewrite !fmap_app in ND. simpl in ND. apply NoDup_app in ND as (ND1 & Hdis & [Hc1 [Hp1 ND2]%NoDup_cons]%NoDup_cons).
  rewrite not_elem_of_cons in Hc1. destruct Hc1 as [Hcp Hcr].
  assert (Hcd : c ∉ d.*1) by (intros Hin; apply (Hdis c Hin); by left).
  assert (Hpd : p ∉ d.*1) by (intros Hin; apply (Hdis p Hin); right; by left).
  split.
  - assert (C : chain (delete p (<[c := ListItem nx w]> m)) (l_head l) (d ++ (c, w) :: r) 0).
    { apply chain_app. exists c. split.
      - eapply list_chain_frame; [|exact Hd]. intros q Hq.
        rewrite lookup_delete_ne, lookup_insert_ne by (intros <-; done). done.
      - simpl. split_and!; [done..|]. exists nx. split; [rewrite lookup_delete_ne by done; by rewrite lookup_insert_eq|].
        eapply list_chain_frame; [|exact Hr]. intros q Hq.
        rewrite lookup_delete_ne, lookup_insert_ne by (intros <-; done). done. }
    by case_match.
  - rewrite fmap_app. simpl. apply NoDup_app. split_and!; [done| |by apply NoDup_cons].
    intros x Hx. rewrite not_elem_of_cons. split; [by intros ->|]. intros Hin. apply (Hdis x Hx). right. by right.
  - rewrite last_addr_app in *. rewrite Ht. destruct r as [|n r].
    + unfold last_addr. simpl. by rewrite Z.eqb_refl.
    + destruct (Z.eqb_spec (last_addr ((c, w) :: (p, v) :: n :: r)) p) as [E|E]; [|done].
      exfalso. apply Hp1. change (p ∈ (n :: r).*1). rewrite <- E. apply (last_addr_in n r).
Qed.

Lemma iterator_remove_next_ok m l i d r :
  list_is m l (d ++ r) -> iter_at i d r ->
  match r with
  | (p, v) :: r' =>
      if decide (d = []) then zbx_list_iterator_remove_next m l i = Ret (m, l, i, None)
      else exists m' l' i', zbx_list_iterator_remove_next m l i = Ret (m', l', i', Some v) /\
        list_is m' l' (d ++ r') /\ iter_at i' d r' /\ frame m m' [last_addr d; p] /\ m' !! p = None
  | [] => zbx_list_iterator_remove_next m l i = Ret (m, l, i, None)
  end.
Proof.
  intros Hl [Hc Hn]. unfold zbx_list_iterator_remove_next. destruct r as [|[p v] r].
  { simpl in Hn. rewrite Hn. by destruct (i_current i =? 0). }
  destruct d as [|[c w] d _] using rev_ind.
  { unfold last_addr in Hc. simpl in Hc. rewrite Hc. done. }
  rewrite decide_False by (by destruct d). rewrite list_last_addr_snoc in *. rewrite <- app_assoc in Hl. simpl in Hn, Hl.
  destruct (unlink m l d c w p v r Hl) as (nx & Hmc & Hmp & Hc0 & Hp0 & Hnx & Hl').
  rewrite Hc, Hn. destruct (Z.eqb_spec c 0), (Z.eqb_spec p 0); try done. cbn [orb].
  rewrite (list_get_Some _ p _ Hp0 Hmp). cbn [mbind res_mbind it_next it_data].
  rewrite (set_next_Some _ c _ _ Hc0 Hmc). cbn [mbind res_mbind it_next it_data].
  eexists _, _, _. split_and!; [done|by rewrite <- app_assoc| | |by rewrite lookup_delete_eq].
  - split; simpl; [by rewrite list_last_addr_snoc|done].
  - intros q Hq. rewrite !not_elem_of_cons in Hq. destruct Hq as (? & ? & _).
    rewrite lookup_delete_ne, lookup_insert_ne by done. done.
Qed.

(** ** Destruction *)

Lemma chain_size m a ns e : chain m a ns e -> NoDup ns.*1 -> (length ns <= size m)%nat.
Proof.
  intros Hc ND. rewrite <- (length_fmap fst ns), <- (size_list_to_set (C:=gset Z) ns.*1 ND), <- size_dom.
  apply subseteq_size. intros p Hp. rewrite elem_of_list_to_set in Hp. apply elem_of_dom. by eapply list_chain_dom.
Qed.

Lemma list_destroy_loop_ok fuel m l ns :
  list_is m l ns -> (length ns < fuel)%nat ->
  exists m' l', destroy_loop fuel m l = Ret (m', l') /\ list_is m' l' [] /\ frame m m' ns.*1 /\
    (forall p, p ∈ ns.*1 -> m' !! p = None).
Proof.
  revert m l ns. induction fuel as [|fuel IH]; intros m l ns Hl Hf; [lia|]. cbn [destroy_loop].
  pose proof (list_pop_ok m l ns Hl) as Hp. destruct ns as [|[p d] ns].
  { rewrite Hp. cbn [mbind res_mbind]. exists m, l. split_and!; [done..|]. intros p Hin. by apply not_elem_of_nil in Hin. }
  destruct Hp as (l1 & -> & Hl1). cbn [mbind res_mbind].
  destruct (IH _ _ _ Hl1) as (m' & l' & -> & Hl' & Hfr & Hno); [simpl in Hf; lia|].
  exists m', l'. pose proof (ls_nodup _ _ _ Hl) as ND. simpl in ND. apply NoDup_cons in ND as [Hni _].
  split_and!; [done..| |].
  - intros q Hq. simpl in Hq. rewrite not_elem_of_cons in Hq. rewrite Hfr by tauto. rewrite lookup_delete_ne; naive_solver.
  - intros q. simpl. intros [->|Hq]%elem_of_cons; [|by apply Hno]. rewrite Hfr by done. apply lookup_delete_eq.
Qed.

(** ** Properties *)

(** Over a store shared with other structures, the list operations
    implement the sequence operations: append, prepend and insertion after an
    item add exactly the new item, pop removes the first one, and nothing
    outside of the list changes. *)
Theorem list_refines_sequence (malloc : gmap Z list_item -> Z) m l ns v :
  (forall m, malloc m <> 0 /\ m !! malloc m = None) -> list_is m l ns ->
  (exists m' l' q, zbx_list_append malloc m l v = Ret (m', l', q) /\ list_is m' l' (ns ++ [(q, v)]) /\
     frame m m' [l_tail l; q]) /\
  (exists m' l' q, zbx_list_prepend malloc m l v = Ret (m', l', q) /\ list_is m' l' ((q, v) :: ns) /\
     frame m m' [q]) /\
  (forall n1 p d n2, ns = n1 ++ (p, d) :: n2 ->
     exists m' l' q, zbx_list_insert_after malloc m l p v = Ret (m', l', q) /\
       list_is m' l' (n1 ++ (p, d) :: (q, v) :: n2) /\ frame m m' [p; q]) /\
  match ns with
  | [] => zbx_list_pop m l = Ret (m, l, None)
  | (p, d) :: ns => exists l', zbx_list_pop m l = Ret (delete p m, l', Some d) /\ list_is (delete p m) l' ns
  end /\
  zbx_list_peek m l = Ret (snd <$> head ns) /\
  (exists m' l', zbx_list_destroy m l = Ret (m', l') /\ list_is m' l' [] /\ frame m m' ns.*1 /\
     (forall p, p ∈ ns.*1 -> m' !! p = None)).
Proof.
  intros Hf Hl. split_and!.
  - destruct (list_append_ok malloc Hf m l ns v Hl) as (m' & l' & q & ? & ? & _ & ?). eauto 10.
  - destruct (prepend_ok malloc Hf m l ns v Hl) as (m' & l' & q & ? & ? & _ & ?). eauto 10.
  - intros n1 p d n2 ->. destruct (insert_after_ok malloc Hf m l n1 p d n2 v Hl) as (m' & l' & q & ? & ? & _ & ?). eauto 10.
  - by apply list_pop_ok.
  - by apply peek_ok.
  - apply list_destroy_loop_ok; [done|]. pose proof (chain_size _ _ _ _ (ls_chain _ _ _ Hl) (ls_nodup _ _ _ Hl)). lia.
Qed.

(** An iterator over a list visits every item once, in order, and the
    walk ends; after an insertion behind the current item the updated
    iterator continues with the new item; removing the next item takes it out
    of the list and the walk continues with the one after it. *)
Theorem list_iterator_correct m l i d r :
  list_is m l (d ++ r) -> iter_at i d r ->
  (forall fuel, (length r < fuel)%nat -> walk fuel m i = Ret r.*2) /\
  zbx_list_iterator_peek m i = Ret (snd <$> last d) /\
  (forall m' l' n, list_is m' l' (d ++ n :: r) -> d <> [] ->
     exists i', zbx_list_iterator_update m' i = Ret i' /\ iter_at i' d (n :: r)) /\
  match r with
  | (p, v) :: r' =>
      if decide (d = []) then zbx_list_iterator_remove_next m l i = Ret (m, l, i, None)
      else exists m' l' i', zbx_list_iterator_remove_next m l i = Ret (m', l', i', Some v) /\
        list_is m' l' (d ++ r') /\ iter_at i' d r' /\ frame m m' [last_addr d; p] /\ m' !! p = None
  | [] => zbx_list_iterator_remove_next m l i = Ret (m, l, i, None)
  end.
Proof.
  intros Hl Hi. split_and!.
  - intros fuel Hf. by eapply list_walk_ok.
  - by eapply iterator_peek_ok.
  - intros m' l' n Hl' Hd. by eapply iterator_update_ok.
  - by apply iterator_remove_next_ok.
Qed.

(** Witnesses: an allocator, and a list of two items. *)
Definition fresh_addr (m : gmap Z list_item) : Z := fresh (dom m ∪ {[0]}).

Lemma fresh_addr_ok m : fresh_addr m <> 0 /\ m !! fresh_addr m = None.
Proof.
  pose proof (is_fresh (dom m ∪ {[0]})) as H. rewrite not_elem_of_union, not_elem_of_singleton in H.
  destruct H as [Hd H0]. split; [done|]. by apply not_elem_of_dom.
Qed.

Definition store2 : gmap Z list_item := {[ 1 := ListItem 2 10; 2 := ListItem 0 20 ]}.

Lemma store2_list : list_is store2 (ZList 1 2) [(1, 10); (2, 20)].
Proof.
  split; [|apply NoDup_cons; split; [|apply NoDup_singleton]|done].
  - repeat (split; [done|]). exists 2. split; [done|]. repeat (split; [done|]). by exists 0.
  - intros H%list_elem_of_singleton. done.
Qed.

Lemma list_refines_witness :
  exists m' l' q, zbx_list_append fresh_addr store2 (ZList 1 2) 30 = Ret (m', l', q) /\
    list_is m' l' ([(1, 10); (2, 20)] ++ [(q, 30)]) /\ frame store2 m' [2; q].
Proof.
  apply (list_refines_sequence fresh_addr store2 (ZList 1 2) [(1, 10); (2, 20)] 30 fresh_addr_ok store2_list).
Defined.

Lemma list_iterator_witness : walk 5 store2 (ListIterator 7 1 2) = Ret [20].
Proof.
  apply (list_iterator_correct store2 (ZList 1 2) (ListIterator 7 1 2) [(1, 10)] [(2, 20)] store2_list).
  - split; reflexivity.
  - simpl. lia.
Defined.

Example list_run :
  match ('(m, l, _) ← zbx_list_append fresh_addr ∅ zbx_list_create 10;
         '(m, l, q) ← zbx_list_append fresh_addr m l 20;
         '(m, l, _) ← zbx_list_prepend fresh_addr m l 5;
         '(m, l, _) ← zbx_list_insert_after fresh_addr m l q 30;
         walk 10 m (zbx_list_iterator_init 7 l)) with
  | Ret vs => Some vs
  | Halt _ => None
  end = Some [5; 10; 20; 30].
Proof. vm_compute. reflexivity. Qed.
