(* ===== verification/Hashset.v ===== *)
(** * Hash set with chained entries (src/libs/zbxalgo/hashset.c)

    A table of slots, each the chain of its entries; an entry has an address
    (its data pointer is what callers hold), the hash and the data.  A chain
    is the list of its entries in the order of the [next] pointers.  Hash and
    comparison functions are parameters, as they are in the code.

    Unlike the hash map, a hash set also lives in shared memory whose
    allocator may fail: the operations that allocate take the outcome of each
    allocation. *)
From stdpp Require Import prelude list.
From Stdlib Require Import ZArith Lia.
From S2P Require Import Prelude Algodefs.
#[local] Open Scope Z_scope.

Definition ZBX_HASHSET_DEFAULT_SLOTS : Z := 10.
Definition ITER_START : Z := -1.
Definition ITER_FINISH : Z := -2.

Record entry (D : Type) := Entry { e_ptr : Z; e_hash : Z; e_data : D }.
Arguments Entry {D} _ _ _.
Arguments e_ptr {D} _.
Arguments e_hash {D} _.
Arguments e_data {D} _.

(** [hs_slots] is [[]] when the slot array is NULL. *)
Record hashset (D : Type) := Hashset { hs_slots : list (list (entry D)); hs_num_slots : Z; hs_num_data : Z }.
Arguments Hashset {D} _ _ _.
Arguments hs_slots {D} _.
Arguments hs_num_slots {D} _.
Arguments hs_num_data {D} _.

(** [it_entry] is an entry address, 0 for NULL. *)
Record iter := Iter { it_slot : Z; it_entry : Z }.

Section model.
Context {D : Type}.
Variable hash_func : D -> Z.
Variable compare_func : D -> D -> Z.
#[local] Abbreviation entry := (entry D).
#[local] Abbreviation hashset := (hashset D).

(** [mem]: the allocation of the slot array succeeds. *)
Definition zbx_hashset_init_slots (mem : bool) (init_size : Z) : hashset * Z :=
  if 0 <? init_size then
    let num_slots := next_prime init_size in
    if mem then (Hashset (replicate (Z.to_nat num_slots) []) num_slots 0, SUCCEED)
    else (Hashset [] num_slots 0, FAIL)
  else (Hashset [] 0 0, SUCCEED).

Definition zbx_hashset_create_ext (mem : bool) (init_size : Z) : hashset := (zbx_hashset_init_slots mem init_size).1.

Definition zbx_hashset_create (init_size : Z) : hashset := zbx_hashset_create_ext true init_size.

(** [prev_entry->next = ...], [hs->slots[slot] = ...]: replacing a chain. *)
Definition set_slots (hs : hashset) (slots : list (list entry)) : hashset :=
  Hashset slots (hs_num_slots hs) (hs_num_data hs).

(** The walk over one chain when the table grows: entries of another slot are
    pushed to the front of that slot's chain, the others stay. *)
Fixpoint move_chain (slots : list (list entry)) (inc_slots : Z) (slot : nat) (chain : list entry) :
    res (list (list entry) * list entry) :=
  match chain with
  | [] => Ret (slots, [])
  | curr_entry :: chain =>
      let new_slot := Z.to_nat (e_hash curr_entry mod inc_slots) in
      if decide (slot = new_slot) then
        '(slots, kept) ← move_chain slots inc_slots slot chain;
        Ret (slots, curr_entry :: kept)
      else
        target ← of_opt BadAccess (slots !! new_slot);
        move_chain (<[new_slot := curr_entry :: target]> slots) inc_slots slot chain
  end.

(** Slots [slot .. slot + n - 1]. *)
Fixpoint rehash (n : nat) (slots : list (list entry)) (inc_slots : Z) (slot : nat) : res (list (list entry)) :=
  match n with
  | O => Ret slots
  | S n =>
      chain ← of_opt BadAccess (slots !! slot);
      '(slots, kept) ← move_chain slots inc_slots slot chain;
      rehash n (<[slot := kept]> slots) inc_slots (S slot)
  end.

(** [2 - CRIT_LOAD_FACTOR] is [2 - 4/5], which is 2 in integer arithmetic. *)
Definition zbx_hashset_reserve (mem : bool) (hs : hashset) (num_slots_req : Z) : res (hashset * Z) :=
  if hs_num_slots hs =? 0 then
    Ret (zbx_hashset_init_slots mem (Z.max ZBX_HASHSET_DEFAULT_SLOTS (num_slots_req * (2 - Z.quot 4 5) + 1)))
  else if Z.quot (hs_num_slots hs * 4) 5 <=? num_slots_req then
    let inc_slots := next_prime (Z.quot (hs_num_slots hs * 3) 2) in
    if mem then
      let slots := hs_slots hs ++ replicate (Z.to_nat (inc_slots - hs_num_slots hs)) [] in
      slots ← rehash (Z.to_nat (hs_num_slots hs)) slots inc_slots 0;
      Ret (Hashset slots inc_slots (hs_num_data hs), SUCCEED)
    else Ret (hs, FAIL)
  else Ret (hs, SUCCEED).

(** [while (NULL != entry)] up to the matching entry. *)
Fixpoint find_entry (hash : Z) (data : D) (chain : list entry) : option entry :=
  match chain with
  | [] => None
  | e :: chain =>
      if (e_hash e =? hash) && (compare_func (e_data e) data =? 0) then Some e else find_entry hash data chain
  end.

Definition slot_of (hs : hashset) (hash : Z) : nat := Z.to_nat (hash mod hs_num_slots hs).

(** [stored] is what the entry holds after copying the bytes from [offset]
    on: [data] when the offset is 0.  [p] is the address of a new entry, [m1]
    and [m2] say whether slots and the entry can be allocated.  The result is
    the entry whose data pointer is returned. *)
Definition zbx_hashset_insert_ext (p : Z) (m1 m2 : bool) (hs : hashset) (data stored : D) :
    res (hashset * option entry) :=
  let '(hs, ok) := if hs_num_slots hs =? 0 then zbx_hashset_init_slots m1 ZBX_HASHSET_DEFAULT_SLOTS
                   else (hs, SUCCEED) in
  if negb (ok =? SUCCEED) then Ret (hs, None)
  else
    let hash := hash_func data in
    chain ← of_opt BadAccess (hs_slots hs !! slot_of hs hash);
    match find_entry hash data chain with
    | Some e => Ret (hs, Some e)
    | None =>
        '(hs, ok) ← zbx_hashset_reserve m1 hs (hs_num_data hs + 1);
        if negb (ok =? SUCCEED) then Ret (hs, None)
        else if m2 then
          let slot := slot_of hs hash in
          chain ← of_opt BadAccess (hs_slots hs !! slot);
          let e := Entry p hash stored in
          Ret (Hashset (<[slot := e :: chain]> (hs_slots hs)) (hs_num_slots hs) (hs_num_data hs + 1), Some e)
        else Ret (hs, None)
    end.

Definition zbx_hashset_insert (p : Z) (m1 m2 : bool) (hs : hashset) (data : D) : res (hashset * option entry) :=
  zbx_hashset_insert_ext p m1 m2 hs data data.

Definition zbx_hashset_search (hs : hashset) (data : D) : res (option entry) :=
  if hs_num_slots hs =? 0 then Ret None
  else
    let hash := hash_func data in
    chain ← of_opt BadAccess (hs_slots hs !! slot_of hs hash);
    Ret (find_entry hash data chain).

(** Unlinks the first entry that satisfies the test. *)
Fixpoint unlink (test : entry -> bool) (chain : list entry) : option (entry * list entry) :=
  match chain with
  | [] => None
  | e :: chain =>
      if test e then Some (e, chain)
      else match unlink test chain with Some (x, c) => Some (x, e :: c) | None => None end
  end.

(** Removal from the chain of [slot]; the freed entry is returned, it is what
    the clean function gets. *)
Definition remove_from (hs : hashset) (slot : nat) (test : entry -> bool) : res (hashset * option entry) :=
  chain ← of_opt BadAccess (hs_slots hs !! slot);
  match unlink test chain with
  | Some (e, chain) => Ret (Hashset (<[slot := chain]> (hs_slots hs)) (hs_num_slots hs) (hs_num_data hs - 1), Some e)
  | None => Ret (hs, None)
  end.

Definition zbx_hashset_remove (hs : hashset) (data : D) : res (hashset * option entry) :=
  if hs_num_slots hs =? 0 then Ret (hs, None)
  else
    let hash := hash_func data in
    remove_from hs (slot_of hs hash) (fun e => (e_hash e =? hash) && (compare_func (e_data e) data =? 0)).

(** [data_entry] is the entry in front of the data pointer. *)
Definition zbx_hashset_remove_direct (hs : hashset) (data_entry : entry) : res (hashset * option entry) :=
  if hs_num_slots hs =? 0 then Ret (hs, None)
  else remove_from hs (slot_of hs (e_hash data_entry)) (fun e => e_ptr e =? e_ptr data_entry).

(** The entries are freed in the order of the table. *)
Definition zbx_hashset_clear (hs : hashset) : hashset * list entry :=
  (Hashset (replicate (length (hs_slots hs)) []) (hs_num_slots hs) 0, concat (hs_slots hs)).

Definition zbx_hashset_destroy (hs : hashset) : hashset * list entry := (Hashset [] 0 0, concat (hs_slots hs)).

(** ** Access through a data pointer *)

(** The entry at address [p]. *)
Fixpoint find_ptr (p : Z) (l : list entry) : option entry :=
  match l with
  | [] => None
  | e :: l => if e_ptr e =? p then Some e else find_ptr p l
  end.

(** Reading and overwriting the data of a live entry. *)
Definition entry_load (hs : hashset) (p : Z) : res D := e ← of_opt BadAccess (find_ptr p (concat (hs_slots hs))); Ret (e_data e).

Definition put (p : Z) (d : D) (e : entry) : entry :=
  if e_ptr e =? p then Entry (e_ptr e) (e_hash e) d else e.

Definition entry_store (hs : hashset) (p : Z) (d : D) : res hashset :=
  _ ← of_opt BadAccess (find_ptr p (concat (hs_slots hs)));
  Ret (Hashset ((fun c : list entry => put p d <$> c) <$> hs_slots hs) (hs_num_slots hs) (hs_num_data hs)).

(** ** Iterators *)

Definition zbx_hashset_iter_reset : iter := Iter ITER_START 0.

(** The entries of the chain after the one at [p]: following [entry->next]. *)
Fixpoint after (p : Z) (chain : list entry) : option (list entry) :=
  match chain with
  | [] => None
  | e :: chain => if e_ptr e =? p then Some chain else after p chain
  end.

(** [while (1) { iter->slot++; ... }], [n] iterations are left to the end of
    the table. *)
Fixpoint next_slot (n : nat) (hs : hashset) (slot : Z) : res (iter * option entry) :=
  match n with
  | O => Halt OutOfFuel
  | S n =>
      let slot := slot + 1 in
      if slot =? hs_num_slots hs then Ret (Iter ITER_FINISH 0, None)
      else
        chain ← of_opt BadAccess (zget (hs_slots hs) slot);
        match chain with
        | e :: _ => Ret (Iter slot (e_ptr e), Some e)
        | [] => next_slot n hs slot
        end
  end.

Definition zbx_hashset_iter_next (hs : hashset) (it : iter) : res (iter * option entry) :=
  if it_slot it =? ITER_FINISH then Ret (it, None)
  else
    rest ← (if negb (it_slot it =? ITER_START) && negb (it_entry it =? 0) then
              chain ← of_opt BadAccess (zget (hs_slots hs) (it_slot it));
              of_opt BadAccess (after (it_entry it) chain)
            else Ret []);
    match rest with
    | e :: _ => Ret (Iter (it_slot it) (e_ptr e), Some e)
    | [] => next_slot (Z.to_nat (hs_num_slots hs - it_slot it)) hs (it_slot it)
    end.

(** The address of the entry before the one at [p]. *)
Fixpoint prev_of (p : Z) (chain : list entry) : option Z :=
  match chain with
  | e :: ((e' :: _) as chain) => if e_ptr e' =? p then Some (e_ptr e) else prev_of p chain
  | _ => None
  end.

Definition zbx_hashset_iter_remove (hs : hashset) (it : iter) : res (hashset * iter) :=
  if (it_slot it =? ITER_START) || (it_slot it =? ITER_FINISH) || (it_entry it =? 0) then Halt ExitFailure
  else
    chain ← of_opt BadAccess (zget (hs_slots hs) (it_slot it));
    '(hs', _) ← remove_from hs (Z.to_nat (it_slot it)) (fun e => e_ptr e =? it_entry it);
    match chain with
    | e :: _ =>
        if e_ptr e =? it_entry it then Ret (hs', Iter (it_slot it - 1) 0)
        else prev ← of_opt BadAccess (prev_of (it_entry it) chain); Ret (hs', Iter (it_slot it) prev)
    | [] => Halt BadAccess
    end.

(** [alloc n] is the address of the [n]-th entry allocated by the copy. *)
Fixpoint copy_chain (alloc : nat -> Z) (n : nat) (chain : list entry) : list entry * nat :=
  match chain with
  | [] => ([], n)
  | e :: chain => let '(c, n') := copy_chain alloc (S n) chain in (Entry (alloc n) (e_hash e) (e_data e) :: c, n')
  end.

Fixpoint copy_slots (alloc : nat -> Z) (n : nat) (slots : list (list entry)) : list (list entry) :=
  match slots with
  | [] => []
  | c :: slots => let '(c, n) := copy_chain alloc n c in c :: copy_slots alloc n slots
  end.

Definition zbx_hashset_copy (alloc : nat -> Z) (src : hashset) : hashset :=
  Hashset (copy_slots alloc 0 (hs_slots src)) (hs_num_slots src) (hs_num_data src).

End model.

(** ** Theory *)

Section theory.
Context {D : Type}.
Variable hash_func : D -> Z.
Variable compare_func : D -> D -> Z.
#[local] Abbreviation entry := (entry D).
#[local] Abbreviation hashset := (hashset D).

(** What the code asks of the hash and comparison functions it is given. *)
Definition same_key (a b : D) : Prop := compare_func a b = 0.
Hypothesis key_equiv : Equivalence same_key.
Hypothesis key_hash : forall a b, same_key a b -> hash_func a = hash_func b.

Definition elements (hs : hashset) : list entry := concat (hs_slots hs).

(** Every entry of slot [i] hashes to it. *)
Definition proper (n : Z) (slots : list (list entry)) (i : nat) : Prop :=
  forall c e, slots !! i = Some c -> e ∈ c -> Z.to_nat (e_hash e mod n) = i.

(** Entries carry their hash, have distinct addresses and distinct keys. *)
Record entries_ok (l : list entry) : Prop := {
  en_hash : forall e, e ∈ l -> e_hash e = hash_func (e_data e);
  en_ptr : NoDup (e_ptr <$> l);
  en_null : forall e, e ∈ l -> e_ptr e <> 0;
  en_key : forall e1 e2, e1 ∈ l -> e2 ∈ l -> same_key (e_data e1) (e_data e2) -> e1 = e2 }.

Record hs_ok (hs : hashset) : Prop := {
  ok_slots : zlen (hs_slots hs) = hs_num_slots hs;
  ok_data : hs_num_data hs = zlen (elements hs);
  ok_proper : forall i, proper (hs_num_slots hs) (hs_slots hs) i;
  ok_entries : entries_ok (elements hs) }.

Lemma entries_ok_permute l l' : l ≡ₚ l' -> entries_ok l -> entries_ok l'.
Proof using.
  intros P [H1 H2 H3 H4]. split.
  - intros e. rewrite <- P. apply H1.
  - by rewrite <- P.
  - intros e. rewrite <- P. apply H3.
  - intros e1 e2. rewrite <- P. apply H4.
Qed.

#[export] Instance entries_ok_perm : Proper (Permutation ==> iff) entries_ok.
Proof using. intros l l' P. split; by apply entries_ok_permute. Qed.

Lemma find_entry_Some h d c e :
  find_entry compare_func h d c = Some e -> e ∈ c /\ e_hash e = h /\ same_key (e_data e) d.
Proof using.
  induction c as [|x c IH]; simpl; [done|]. case_match eqn:E.
  - unbool. intros [= <-]. split_and!; [by left|done|done].
  - intros (? & ? & ?)%IH. split_and!; [by right|done..].
Qed.

Lemma find_entry_None h d c e :
  find_entry compare_func h d c = None -> e ∈ c -> e_hash e = h -> ~ same_key (e_data e) d.
Proof using.
  induction c as [|x c IH]; simpl; [by intros _ H%not_elem_of_nil|]. case_match eqn:E; [done|].
  intros Hn [->|He]%elem_of_cons Hh Hk; [|by apply IH]. unfold same_key in Hk. rewrite Hk, Hh, Z.eqb_refl in E. done.
Qed.

Lemma slot_chain hs h : hs_ok hs -> hs_num_slots hs <> 0 -> exists c, hs_slots hs !! slot_of hs h = Some c.
Proof using.
  intros Hok Hn. apply lookup_lt_is_Some_2. unfold slot_of. pose proof (ok_slots _ Hok) as Hs.
  pose proof (zlen_nonneg (hs_slots hs)). pose proof (Z.mod_pos_bound h (hs_num_slots hs)). unfold zlen in *. lia.
Qed.

(** An entry with the key is found in the chain of its slot. *)
Lemma key_in_chain hs d c e :
  hs_ok hs -> hs_slots hs !! slot_of hs (hash_func d) = Some c -> e ∈ elements hs -> same_key (e_data e) d ->
  e ∈ c /\ e_hash e = hash_func d.
Proof using key_hash.
  intros Hok Hc He Hk. assert (Eh : e_hash e = hash_func d).
  { rewrite (en_hash _ (ok_entries _ Hok) e He). by apply key_hash. }
  split; [|done]. apply elem_of_concat in He as (i & c' & Hi & He).
  pose proof (ok_proper _ Hok i c' e Hi He) as Hp. rewrite Eh in Hp. unfold slot_of in Hc. by simplify_eq.
Qed.

Lemma chain_elements hs i c e : hs_slots hs !! i = Some c -> e ∈ c -> e ∈ elements hs.
Proof using. intros. apply elem_of_concat. eauto. Qed.

Lemma search_ok hs d :
  hs_ok hs -> exists o, zbx_hashset_search hash_func compare_func hs d = Ret o /\
  match o with
  | Some e => e ∈ elements hs /\ same_key (e_data e) d
  | None => forall e, e ∈ elements hs -> ~ same_key (e_data e) d
  end.
Proof using key_hash.
  intros Hok. unfold zbx_hashset_search. destruct (Z.eqb_spec (hs_num_slots hs) 0) as [E|E].
  - exists None. split; [done|]. intros e He. pose proof (ok_slots _ Hok) as Hs. rewrite E in Hs. unfold elements in He.
    destruct (hs_slots hs); [by apply not_elem_of_nil in He|]. lens.
  - destruct (slot_chain hs (hash_func d) Hok E) as [c Hc]. rewrite Hc. simpl. eexists; split; [done|].
    destruct (find_entry _ _ _ c) as [e|] eqn:F.
    + apply find_entry_Some in F as (He & _ & Hk). split; [by eapply chain_elements|done].
    + intros e He Hk. destruct (key_in_chain hs d c e Hok Hc He Hk) as [Hin Hh]. by eapply find_entry_None.
Qed.

(** *** Growth *)

Lemma move_chain_ok inc slot chain slots :
  0 < inc -> zlen slots = inc -> (slot < length slots)%nat ->
  exists slots' kept, move_chain slots inc slot chain = Ret (slots', kept) /\ length slots' = length slots /\
    concat (<[slot := []]> slots') ++ kept ≡ₚ concat (<[slot := []]> slots) ++ chain /\
    (forall e, e ∈ kept -> Z.to_nat (e_hash e mod inc) = slot) /\
    (forall j, j <> slot -> proper inc slots j -> proper inc slots' j).
Proof using.
  intros Hinc. revert slots. induction chain as [|x chain IH]; intros slots Hlen Hs; cbn [move_chain].
  { exists slots, []. split_and!; try done. intros e He. by apply not_elem_of_nil in He. }
  set (ns := Z.to_nat (e_hash x mod inc)). pose proof (Z.mod_pos_bound (e_hash x) inc Hinc).
  case_decide as D0.
  - destruct (IH slots Hlen Hs) as (slots' & kept & -> & Hl & P & Hk & Hp). cbn [mbind res_mbind].
    exists slots', (x :: kept). split_and!; try done.
    + by rewrite <- !Permutation_middle, P.
    + intros e [->|He]%elem_of_cons; [done|by apply Hk].
  - destruct (lookup_lt_is_Some_2 slots ns) as [t Ht]; [unfold zlen in Hlen; lia|]. rewrite Ht. simpl.
    destruct (IH (<[ns := x :: t]> slots)) as (slots' & kept & -> & Hl & P & Hk & Hp);
      [unfold zlen in *; by rewrite length_insert|by rewrite length_insert|].
    exists slots', kept. rewrite length_insert in Hl. split_and!; try done.
    + rewrite P, list_insert_insert_ne by done.
      destruct (concat_split (<[slot := []]> slots) ns t) as (r & P1 & P2); [by rewrite list_lookup_insert_ne|].
      rewrite P1, (P2 (x :: t)). simpl. by rewrite <- Permutation_middle.
    + intros j Hj Hpj. apply Hp; [done|]. intros c e. rewrite list_lookup_insert. case_decide as D1; [|by apply Hpj].
      destruct D1 as [<- _]. intros [= <-] [->|He]%elem_of_cons; [done|]. by apply (Hpj t).
Qed.

Lemma rehash_ok n slots inc slot (Q : nat -> Prop) :
  0 < inc -> zlen slots = inc -> (slot + n <= length slots)%nat ->
  (forall j, Q j \/ (j < slot)%nat -> proper inc slots j) ->
  exists slots', rehash n slots inc slot = Ret slots' /\ length slots' = length slots /\
    concat slots' ≡ₚ concat slots /\ (forall j, Q j \/ (j < slot + n)%nat -> proper inc slots' j).
Proof using.
  intros Hinc. revert slots slot. induction n as [|n IH]; intros slots slot Hlen Hs HQ; cbn [rehash].
  { exists slots. split_and!; try done. intros j Hj. apply HQ. rewrite Nat.add_0_r in Hj. done. }
  destruct (lookup_lt_is_Some_2 slots slot) as [c Hc]; [lia|]. rewrite Hc. cbn [mbind res_mbind of_opt].
  destruct (move_chain_ok inc slot c slots Hinc Hlen ltac:(lia)) as (s1 & kept & -> & Hl & P & Hk & Hp).
  cbn [mbind res_mbind].
  destruct (IH (<[slot := kept]> s1) (S slot)) as (s2 & -> & Hl2 & P2 & Hp2).
  - unfold zlen in *. rewrite length_insert. lia.
  - rewrite length_insert. lia.
  - intros j Hj c' e. rewrite list_lookup_insert. case_decide as D1.
    + destruct D1 as [<- _]. intros [= <-]. apply Hk.
    + apply Hp; [intros ->; apply D1; split; [done|lia]|]. apply HQ. destruct (decide (j = slot)); [|naive_solver lia].
      subst. exfalso. apply D1. split; [done|lia].
  - exists s2. rewrite length_insert in Hl2. split_and!; [done|lia| |].
    + rewrite P2. destruct (lookup_lt_is_Some_2 s1 slot) as [c1 Hc1]; [lia|].
      destruct (concat_split s1 slot c1 Hc1) as (r1 & _ & R1). destruct (concat_split slots slot c Hc) as (r & R0 & R).
      rewrite (R1 kept), R0. rewrite (R1 []), (R []) in P. simpl in P. by rewrite !(Permutation_app_comm _ r), <- P, Permutation_app_comm.
    + intros j Hj. apply Hp2. naive_solver lia.
Qed.

Lemma init_slots_ok init_size :
  0 < init_size -> exists hs, zbx_hashset_init_slots true init_size = (hs, SUCCEED) /\ hs_ok hs /\ elements hs = [] /\
    hs_num_slots hs <> 0 /\ init_size <= hs_num_slots hs.
Proof using.
  intros Hi. unfold zbx_hashset_init_slots. destruct (Z.ltb_spec 0 init_size); [|lia]. eexists; split; [done|].
  pose proof (next_prime_ge init_size).
  assert (He : elements (Hashset (replicate (Z.to_nat (next_prime init_size)) []) (next_prime init_size) 0) = []).
  { unfold elements. simpl. generalize (Z.to_nat (next_prime init_size)). by induction n. }
  split_and!; [|done|simpl; lia|simpl; lia]. split; rewrite ?He; simpl.
  - rewrite zlen_replicate. lia.
  - done.
  - intros i c e [-> _]%lookup_replicate Hin. by apply not_elem_of_nil in Hin.
  - split; simpl; [by intros e ?%not_elem_of_nil|constructor|by intros e ?%not_elem_of_nil|by intros e ? ?%not_elem_of_nil].
Qed.

Lemma empty_elements hs : hs_ok hs -> hs_num_slots hs = 0 -> elements hs = [] /\ hs_num_data hs = 0.
Proof using.
  intros Hok E. pose proof (ok_slots _ Hok) as Hs. rewrite E in Hs. rewrite (ok_data _ Hok). unfold elements.
  destruct (hs_slots hs); [done|]. lens.
Qed.

(** With memory, [reserve] keeps the entries; without it the table stays as it was. *)
Lemma reserve_ok mem hs req :
  hs_ok hs -> hs_num_slots hs <> 0 ->
  exists hs' r, zbx_hashset_reserve mem hs req = Ret (hs', r) /\ hs_ok hs' /\ elements hs' ≡ₚ elements hs /\
    hs_num_slots hs' <> 0 /\ (mem = true -> r = SUCCEED).
Proof using.
  intros Hok Hn. unfold zbx_hashset_reserve. destruct (Z.eqb_spec (hs_num_slots hs) 0); [done|].
  case_match; [|eexists _, _; split_and!; try done]. destruct mem; [|eexists _, _; split_and!; try done].
  set (inc := next_prime _). pose proof (ok_slots _ Hok) as Hs. pose proof (zlen_nonneg (hs_slots hs)).
  assert (Hinc : hs_num_slots hs <= inc).
  { etransitivity; [|apply next_prime_ge]. rewrite Z.quot_div_nonneg by lia. apply Z.div_le_lower_bound; lia. }
  set (slots := hs_slots hs ++ _).
  assert (Hc : concat slots = elements hs).
  { unfold slots. rewrite concat_app. replace (concat (replicate _ _)) with (@nil entry); [by rewrite app_nil_r|].
    generalize (Z.to_nat (inc - hs_num_slots hs)). by induction n0. }
  assert (Hl : zlen slots = inc) by (unfold slots; rewrite zlen_app, zlen_replicate; lia).
  destruct (rehash_ok (Z.to_nat (hs_num_slots hs)) slots inc 0 (fun j => (length (hs_slots hs) <= j)%nat))
    as (slots' & -> & Hl' & P & Hp).
  - lia.
  - done.
  - unfold slots. rewrite length_app. unfold zlen in Hs. lia.
  - intros j [Hj|Hj]; [|lia]. intros c e Hc' He. unfold slots in Hc'. rewrite lookup_app_r in Hc' by done.
    apply lookup_replicate in Hc' as [-> _]. by apply not_elem_of_nil in He.
  - cbn [mbind res_mbind]. eexists _, _. split_and!; [done| |by unfold elements; simpl; rewrite P, Hc|simpl; lia|done].
    split; simpl.
    + unfold zlen in *. lia.
    + rewrite (ok_data _ Hok). unfold elements, zlen. simpl. by rewrite P, Hc.
    + intros i. apply Hp. destruct (decide (length (hs_slots hs) <= i)%nat); [by left|right; unfold zlen in Hs; lia].
    + unfold elements. simpl. rewrite P, Hc. apply Hok.
Qed.

(** *** Insertion and removal *)

Lemma entries_ok_cons e l :
  entries_ok l -> e_hash e = hash_func (e_data e) -> e_ptr e <> 0 -> e_ptr e ∉ e_ptr <$> l ->
  (forall x, x ∈ l -> ~ same_key (e_data x) (e_data e)) -> entries_ok (e :: l).
Proof using key_equiv.
  intros [H1 H2 H3 H4] Hh Hp Hn Hk. split.
  - intros x [->|Hx]%elem_of_cons; [done|by apply H1].
  - simpl. by apply NoDup_cons.
  - intros x [->|Hx]%elem_of_cons; [done|by apply H3].
  - intros x y [->|Hx]%elem_of_cons [->|Hy]%elem_of_cons Hs; [done| | |by apply H4].
    + destruct (Hk y Hy). by symmetry.
    + by destruct (Hk x Hx).
Qed.

Lemma entries_ok_tail e l : entries_ok (e :: l) -> entries_ok l.
Proof using.
  intros [H1 H2 H3 H4]. split.
  - intros x Hx. apply H1. by right.
  - simpl in H2. by apply NoDup_cons in H2 as [_ ?].
  - intros x Hx. apply H3. by right.
  - intros x y Hx Hy. apply H4; by right.
Qed.

(** A table with one chain replaced. *)
Lemma replace_chain_ok hs s c c' l :
  hs_ok hs -> hs_slots hs !! s = Some c ->
  (forall e, e ∈ c' -> Z.to_nat (e_hash e mod hs_num_slots hs) = s) ->
  concat (<[s := c']> (hs_slots hs)) ≡ₚ l -> entries_ok l ->
  hs_ok (Hashset (<[s := c']> (hs_slots hs)) (hs_num_slots hs) (zlen l)).
Proof using.
  intros Hok Hs Hp P Hl. split; unfold elements; simpl.
  - unfold zlen. rewrite length_insert. apply Hok.
  - unfold zlen. by rewrite P.
  - intros i c1 e. rewrite list_lookup_insert. case_decide as D1; [|by apply Hok].
    destruct D1 as [<- _]. intros [= <-]. apply Hp.
  - by rewrite P.
Qed.

Lemma insert_ext_ok p m1 m2 hs d stored :
  hs_ok hs -> hs_num_slots hs <> 0 \/ m1 = true -> same_key stored d -> p <> 0 -> p ∉ e_ptr <$> elements hs ->
  exists hs' o, zbx_hashset_insert_ext hash_func compare_func p m1 m2 hs d stored = Ret (hs', o) /\ hs_ok hs' /\
  match o with
  | Some e => same_key (e_data e) d /\
      ((e ∈ elements hs /\ elements hs' ≡ₚ elements hs) \/
       ((forall x, x ∈ elements hs -> ~ same_key (e_data x) d) /\ e_ptr e = p /\ e_data e = stored /\
        elements hs' ≡ₚ e :: elements hs))
  | None => elements hs' ≡ₚ elements hs /\ (m1 && m2) = false /\
      (forall x, x ∈ elements hs -> ~ same_key (e_data x) d)
  end.
Proof using key_equiv key_hash.
  intros Hok0 Hm Hst Hp0 Hpn. unfold zbx_hashset_insert_ext.
  assert (exists hs1, (if hs_num_slots hs =? 0 then zbx_hashset_init_slots m1 ZBX_HASHSET_DEFAULT_SLOTS else (hs, SUCCEED))
    = (hs1, SUCCEED) /\ hs_ok hs1 /\ hs_num_slots hs1 <> 0 /\ elements hs1 = elements hs) as (hs1 & -> & Hok & Hn & E1).
  { destruct (Z.eqb_spec (hs_num_slots hs) 0) as [E|E]; [|by exists hs].
    destruct Hm as [|Hm]; [done|]. rewrite Hm.
    destruct (init_slots_ok ZBX_HASHSET_DEFAULT_SLOTS) as (hs1 & -> & ? & ? & ? & _); [done|].
    exists hs1. split_and!; try done. by rewrite (proj1 (empty_elements hs Hok0 E)). }
  change (negb (SUCCEED =? SUCCEED)) with false. cbv iota. rewrite <- E1 in *. clear E1 Hok0 hs Hm.
  destruct (slot_chain hs1 (hash_func d) Hok Hn) as [c Hc]. rewrite Hc. cbn [mbind res_mbind of_opt].
  destruct (find_entry _ _ d c) as [e|] eqn:F.
  { apply find_entry_Some in F as (He & _ & Hk). eexists _, (Some e). split_and!; [done..|].
    left. split; [by eapply chain_elements|done]. }
  assert (Habs : forall x, x ∈ elements hs1 -> ~ same_key (e_data x) d).
  { intros x Hx Hk. destruct (key_in_chain hs1 d c x Hok Hc Hx Hk) as [Hin Hh]. by eapply find_entry_None. }
  destruct (reserve_ok m1 hs1 (hs_num_data hs1 + 1) Hok Hn) as (hs2 & r & -> & Hok2 & P2 & Hn2 & Hr).
  cbn [mbind res_mbind]. destruct (Z.eqb_spec r SUCCEED) as [Er|Er]; cbn [negb].
  2: { eexists _, None. split_and!; [done..| |done]. destruct m1; [by rewrite Hr in Er|done]. }
  destruct m2; [|eexists _, None; split_and!; [done..|by destruct m1|done]].
  destruct (slot_chain hs2 (hash_func d) Hok2 Hn2) as [c2 Hc2]. rewrite Hc2. cbn [mbind res_mbind of_opt].
  set (e := Entry p (hash_func d) stored).
  assert (P : concat (<[slot_of hs2 (hash_func d) := e :: c2]> (hs_slots hs2)) ≡ₚ e :: elements hs1).
  { destruct (concat_split _ _ _ Hc2) as (rr & R0 & R). rewrite (R (e :: c2)), <- P2. unfold elements. by rewrite R0. }
  eexists _, (Some e). split_and!; [done| |done|by right].
  rewrite (ok_data _ Hok2). replace (zlen (elements hs2) + 1) with (zlen (e :: elements hs1))
    by (unfold zlen; rewrite P2; simpl; lia).
  eapply replace_chain_ok; [done|exact Hc2| |exact P|].
  - intros x [->|Hx]%elem_of_cons; [done|]. by eapply (ok_proper _ Hok2).
  - apply entries_ok_cons; [apply Hok|by apply key_hash in Hst; simpl; congruence|done|done|].
    intros x Hx Hk. apply (Habs x Hx). simpl in Hk. by transitivity stored.
Qed.

Lemma unlink_spec (test : entry -> bool) c :
  match unlink test c with
  | Some (e, c') => test e = true /\ c ≡ₚ e :: c'
  | None => forall e, e ∈ c -> test e = false
  end.
Proof using.
  induction c as [|x c IH]; simpl; [by intros e ?%not_elem_of_nil|]. destruct (test x) eqn:E; [done|].
  destruct (unlink test c) as [[y c']|].
  - destruct IH as [? P]. split; [done|]. rewrite P. apply Permutation_swap.
  - intros e [->|He]%elem_of_cons; [done|by apply IH].
Qed.

Lemma remove_from_ok hs s c test :
  hs_ok hs -> hs_slots hs !! s = Some c ->
  exists hs' o, remove_from hs s test = Ret (hs', o) /\ hs_ok hs' /\
  match o with
  | Some e => e ∈ c /\ test e = true /\ elements hs ≡ₚ e :: elements hs' /\
      exists c', unlink test c = Some (e, c') /\ hs_slots hs' = <[s := c']> (hs_slots hs) /\ hs_num_slots hs' = hs_num_slots hs
  | None => hs' = hs /\ forall e, e ∈ c -> test e = false
  end.
Proof using.
  intros Hok Hs. unfold remove_from. rewrite Hs. simpl. pose proof (unlink_spec test c) as Hu.
  destruct (unlink test c) as [[e c']|] eqn:U; [|by exists hs, None].
  destruct Hu as [Ht P]. destruct (concat_split _ _ _ Hs) as (r & R0 & R).
  assert (Pe : elements hs ≡ₚ e :: c' ++ r) by (unfold elements; rewrite R0, P; done).
  eexists _, (Some e). split_and!; [done| |rewrite P; by left|done| |by exists c'].
  - rewrite (ok_data _ Hok). replace (zlen (elements hs) - 1) with (zlen (c' ++ r)).
    2: { unfold zlen. rewrite Pe. simpl. lia. }
    eapply replace_chain_ok; [done|exact Hs| |apply R|].
    + intros x Hx. eapply (ok_proper _ Hok); [done|]. rewrite P. by right.
    + pose proof (ok_entries _ Hok) as He. rewrite Pe in He. by eapply entries_ok_tail.
  - rewrite Pe. unfold elements. simpl. by rewrite (R c').
Qed.

Lemma remove_ok hs d :
  hs_ok hs -> exists hs' o, zbx_hashset_remove hash_func compare_func hs d = Ret (hs', o) /\ hs_ok hs' /\
  match o with
  | Some e => same_key (e_data e) d /\ elements hs ≡ₚ e :: elements hs'
  | None => hs' = hs /\ forall e, e ∈ elements hs -> ~ same_key (e_data e) d
  end.
Proof using key_hash.
  intros Hok. unfold zbx_hashset_remove. destruct (Z.eqb_spec (hs_num_slots hs) 0) as [E|E].
  { exists hs, None. split_and!; [done..|]. rewrite (proj1 (empty_elements hs Hok E)). by intros e ?%not_elem_of_nil. }
  destruct (slot_chain hs (hash_func d) Hok E) as [c Hc].
  destruct (remove_from_ok hs _ c (fun e => (e_hash e =? hash_func d) && (compare_func (e_data e) d =? 0)) Hok Hc)
    as (hs' & o & -> & Hok' & Ho).
  exists hs', o. split_and!; [done..|]. destruct o as [e|].
  - destruct Ho as (_ & Ht & P & _). unbool. done.
  - destruct Ho as [-> Ho]. split; [done|]. intros e He Hk.
    destruct (key_in_chain hs d c e Hok Hc He Hk) as [Hin Hh]. specialize (Ho e Hin). simpl in Ho.
    unfold same_key in Hk. by rewrite Hk, Hh, Z.eqb_refl in Ho.
Qed.

Lemma remove_num_slots hs d hs' o :
  zbx_hashset_remove hash_func compare_func hs d = Ret (hs', o) -> hs_num_slots hs' = hs_num_slots hs.
Proof using.
  unfold zbx_hashset_remove, remove_from. case_match; [congruence|]. intros E. inv_ret. by repeat case_match; simplify_eq/=.
Qed.

Lemma ptr_unique l (e1 e2 : entry) : entries_ok l -> e1 ∈ l -> e2 ∈ l -> e_ptr e1 = e_ptr e2 -> e1 = e2.
Proof using.
  intros Hl [i Hi]%list_elem_of_lookup [j Hj]%list_elem_of_lookup E.
  assert (i = j) as ->; [|congruence].
  eapply (NoDup_lookup (e_ptr <$> l) i j (e_ptr e1)); [apply Hl|..]; rewrite list_lookup_fmap, ?Hi, ?Hj; simpl; congruence.
Qed.

Lemma remove_direct_ok hs e :
  hs_ok hs -> e ∈ elements hs ->
  exists hs', zbx_hashset_remove_direct hs e = Ret (hs', Some e) /\ hs_ok hs' /\ elements hs ≡ₚ e :: elements hs'.
Proof using.
  intros Hok He. unfold zbx_hashset_remove_direct. destruct (Z.eqb_spec (hs_num_slots hs) 0) as [E|E].
  { rewrite (proj1 (empty_elements hs Hok E)) in He. by apply not_elem_of_nil in He. }
  destruct (slot_chain hs (e_hash e) Hok E) as [c Hc].
  destruct (remove_from_ok hs _ c (fun x => e_ptr x =? e_ptr e) Hok Hc) as (hs' & o & -> & Hok' & Ho).
  assert (Hin : e ∈ c).
  { pose proof He as (i & c' & Hi & Hx)%elem_of_concat. pose proof (ok_proper _ Hok i c' e Hi Hx) as Hp.
    unfold slot_of in Hc. by simplify_eq. }
  destruct o as [x|].
  - destruct Ho as (Hx & Ht & P & _). unbool.
    assert (x = e) as -> by (eapply ptr_unique; [apply Hok|by eapply chain_elements|done|done]). eauto.
  - destruct Ho as [_ Ho]. specialize (Ho e Hin). simpl in Ho. by rewrite Z.eqb_refl in Ho.
Qed.

(** *** Access through a data pointer *)

Lemma find_ptr_in l (e : entry) : NoDup (e_ptr <$> l) -> e ∈ l -> find_ptr (e_ptr e) l = Some e.
Proof using.
  induction l as [|x l IH]; simpl; [by intros _ ?%not_elem_of_nil|]. intros [Hn ND]%NoDup_cons [->|He]%elem_of_cons.
  - by rewrite Z.eqb_refl.
  - destruct (Z.eqb_spec (e_ptr x) (e_ptr e)) as [E|_]; [|by apply IH]. exfalso. apply Hn. rewrite E.
    apply list_elem_of_fmap. eauto.
Qed.

Lemma entry_load_ok hs e : hs_ok hs -> e ∈ elements hs -> entry_load hs (e_ptr e) = Ret (e_data e).
Proof using.
  intros Hok He. unfold entry_load. fold (elements hs).
  rewrite (find_ptr_in _ e); [done|apply (en_ptr _ (ok_entries _ Hok))|done].
Qed.

(** Overwriting an entry keeps the table well formed when the key stays. *)
Lemma entry_store_ok hs e d :
  hs_ok hs -> e ∈ elements hs -> same_key d (e_data e) ->
  exists hs' r, entry_store hs (e_ptr e) d = Ret hs' /\ hs_ok hs' /\ hs_num_slots hs' = hs_num_slots hs /\
    elements hs ≡ₚ e :: r /\ elements hs' ≡ₚ Entry (e_ptr e) (e_hash e) d :: r.
Proof using key_equiv key_hash.
  intros Hok He Hd. unfold entry_store. fold (elements hs).
  rewrite (find_ptr_in _ e); [|apply (en_ptr _ (ok_entries _ Hok))|done]. cbn [mbind res_mbind of_opt].
  destruct (elem_of_Permutation (elements hs) e) as [(r & P) _]; [done|].
  pose proof (ok_entries _ Hok) as Hen. assert (Hen' : entries_ok (e :: r)) by (by rewrite <- P).
  set (hs' := Hashset _ _ _). set (e' := Entry (e_ptr e) (e_hash e) d).
  assert (Hnr : e_ptr e ∉ e_ptr <$> r) by (pose proof (en_ptr _ Hen') as ND; simpl in ND; by apply NoDup_cons in ND as [? _]).
  assert (Hr : put (e_ptr e) d <$> r = r).
  { rewrite <- (list_fmap_id r) at 2. apply list_fmap_ext. intros i x Hx. unfold put.
    destruct (Z.eqb_spec (e_ptr x) (e_ptr e)) as [E|]; [|done]. exfalso. apply Hnr. rewrite <- E.
    apply list_elem_of_fmap. exists x. split; [done|]. by eapply list_elem_of_lookup_2. }
  assert (P' : elements hs' ≡ₚ e' :: r).
  { unfold elements. simpl. rewrite fmap_concat. change (concat (hs_slots hs)) with (elements hs).
    rewrite P, fmap_cons, Hr. unfold put. by rewrite Z.eqb_refl. }
  exists hs', r. split_and!; try done. split.
  - unfold zlen. simpl. rewrite length_fmap. apply (ok_slots _ Hok).
  - unfold zlen. rewrite P'. simpl. rewrite (ok_data _ Hok). unfold zlen. by rewrite P.
  - intros i c x Hc Hx. simpl in Hc. rewrite list_lookup_fmap in Hc. destruct (hs_slots hs !! i) as [c0|] eqn:Ec; simplify_eq/=.
    apply list_elem_of_fmap in Hx as (y & -> & Hy). unfold put. pose proof (ok_proper _ Hok i c0 y Ec Hy). by case_match.
  - rewrite P'. apply entries_ok_cons.
    + by eapply entries_ok_tail.
    + unfold e'. simpl. rewrite (en_hash _ Hen' e) by (by left). symmetry. by apply key_hash.
    + apply (en_null _ Hen' e). by left.
    + done.
    + intros x Hx Hk. apply Hnr. rewrite (en_key _ Hen' e x); [apply list_elem_of_fmap; eauto|by left|by right|].
      etrans; [symmetry; exact Hd|]. symmetry. exact Hk.
Qed.

(** *** Iterators *)

(** The entries an iterator has still to return. *)
Definition remaining (hs : hashset) (it : iter) : list entry :=
  if it_slot it =? ITER_FINISH then []
  else
    (if negb (it_slot it =? ITER_START) && negb (it_entry it =? 0)
     then match zget (hs_slots hs) (it_slot it) with Some c => default [] (after (it_entry it) c) | None => [] end
     else []) ++ concat (drop (Z.to_nat (it_slot it + 1)) (hs_slots hs)).

(** The iterator stands on the entry [e]. *)
Definition on_entry (hs : hashset) (it : iter) (e : entry) : Prop :=
  0 <= it_slot it < hs_num_slots hs /\ it_entry it = e_ptr e /\
  exists a t, hs_slots hs !! Z.to_nat (it_slot it) = Some (a ++ e :: t).

Definition iter_ok (hs : hashset) (it : iter) : Prop :=
  it_slot it = ITER_FINISH \/
  (-1 <= it_slot it < hs_num_slots hs /\ it_entry it = 0) \/ (exists e, on_entry hs it e).

Lemma chain_ptrs hs i c : hs_ok hs -> hs_slots hs !! i = Some c -> NoDup (e_ptr <$> c) /\ forall e, e ∈ c -> e_ptr e <> 0.
Proof using.
  intros Hok Hi. split.
  - destruct (concat_split _ _ _ Hi) as (r & P & _). pose proof (en_ptr _ (ok_entries _ Hok)) as ND.
    unfold elements in ND. rewrite P, fmap_app in ND. by apply NoDup_app in ND as [? _].
  - intros e He. apply (en_null _ (ok_entries _ Hok)). by eapply chain_elements.
Qed.

Lemma after_split a (e : entry) t : NoDup (e_ptr <$> a ++ e :: t) -> after (e_ptr e) (a ++ e :: t) = Some t.
Proof using.
  induction a as [|x a IH]; simpl; [by rewrite Z.eqb_refl|]. intros [Hn ND]%NoDup_cons.
  destruct (Z.eqb_spec (e_ptr x) (e_ptr e)) as [E|_]; [|by apply IH].
  exfalso. apply Hn. rewrite E, fmap_app. apply elem_of_app. right. by left.
Qed.

Lemma zget_slot (hs : hashset) s c : 0 <= s -> hs_slots hs !! Z.to_nat s = Some c -> zget (hs_slots hs) s = Some c.
Proof using. intros. by apply zget_Some. Qed.

(** What remains after standing on [e]. *)
Lemma remaining_on hs it e a t :
  hs_ok hs -> 0 <= it_slot it -> it_entry it = e_ptr e -> hs_slots hs !! Z.to_nat (it_slot it) = Some (a ++ e :: t) ->
  remaining hs it = t ++ concat (drop (Z.to_nat (it_slot it + 1)) (hs_slots hs)).
Proof using.
  intros Hok Hs He Hc. destruct (chain_ptrs hs _ _ Hok Hc) as [ND Hnz]. unfold remaining.
  unfold ITER_FINISH, ITER_START. destruct (Z.eqb_spec (it_slot it) (-2)), (Z.eqb_spec (it_slot it) (-1)); try lia.
  destruct (Z.eqb_spec (it_entry it) 0) as [E|E].
  { destruct (Hnz e); [apply elem_of_app; right; by left|congruence]. }
  simpl. rewrite (zget_slot hs _ _ Hs Hc), He, after_split by done. done.
Qed.

Lemma drop_slot (hs : hashset) s c :
  0 <= s -> hs_slots hs !! Z.to_nat s = Some c ->
  concat (drop (Z.to_nat s) (hs_slots hs)) = c ++ concat (drop (Z.to_nat (s + 1)) (hs_slots hs)).
Proof using.
  intros Hs Hc. rewrite (drop_S _ _ _ Hc). simpl. by replace (Z.to_nat (s + 1)) with (S (Z.to_nat s)) by lia.
Qed.

(** Result of an advance, when the entries [l] remain. *)
Definition advanced (hs : hashset) (l : list entry) (r : res (iter * option entry)) : Prop :=
  match l with
  | [] => exists it', r = Ret (it', None) /\ it_slot it' = ITER_FINISH
  | e :: l => exists it', r = Ret (it', Some e) /\ on_entry hs it' e /\ remaining hs it' = l
  end.

Lemma next_slot_ok n hs s :
  hs_ok hs -> -1 <= s < hs_num_slots hs -> hs_num_slots hs - s <= Z.of_nat n ->
  advanced hs (concat (drop (Z.to_nat (s + 1)) (hs_slots hs))) (next_slot n hs s).
Proof using.
  intros Hok. revert s. induction n as [|n IH]; intros s Hs Hn; [lia|]. cbn [next_slot].
  pose proof (ok_slots _ Hok) as Hl. unfold zlen in Hl. destruct (Z.eqb_spec (s + 1) (hs_num_slots hs)) as [E|E].
  { rewrite E, drop_ge by lia. by eexists. }
  destruct (lookup_lt_is_Some_2 (hs_slots hs) (Z.to_nat (s + 1))) as [c Hc]; [lia|].
  rewrite (zget_slot hs (s + 1) c) by (done || lia). cbn [mbind res_mbind of_opt].
  rewrite (drop_slot hs (s + 1) c) by (done || lia). destruct c as [|e t].
  - apply (IH (s + 1)); lia.
  - simpl. eexists; split_and!; [done| |].
    + split_and!; simpl; [lia|lia|done|]. by exists [], t.
    + rewrite (remaining_on hs _ e [] t); simpl; try done. lia.
Qed.

Lemma iter_next_ok hs it : hs_ok hs -> iter_ok hs it -> advanced hs (remaining hs it) (zbx_hashset_iter_next hs it).
Proof using.
  intros Hok Hit. unfold zbx_hashset_iter_next.
  destruct Hit as [E|[[Hs E]|(e & Hs & E & a & t & Hc)]].
  - unfold remaining. rewrite E. simpl. by exists it.
  - unfold remaining. rewrite E. destruct (Z.eqb_spec (it_slot it) ITER_FINISH) as [F|_]; [unfold ITER_FINISH in F; lia|].
    rewrite andb_false_r. simpl. apply next_slot_ok; [done|lia|lia].
  - rewrite (remaining_on hs it e a t) by (done || lia).
    unfold ITER_FINISH, ITER_START. destruct (Z.eqb_spec (it_slot it) (-2)), (Z.eqb_spec (it_slot it) (-1)); try lia.
    destruct (chain_ptrs hs _ _ Hok Hc) as [ND Hnz].
    destruct (Z.eqb_spec (it_entry it) 0) as [E0|_].
    { destruct (Hnz e); [apply elem_of_app; right; by left|congruence]. }
    simpl. rewrite (zget_slot hs (it_slot it) _ ltac:(lia) Hc). simpl. rewrite E, after_split by done. simpl.
    destruct t as [|x t]; [simpl; apply next_slot_ok; [done|lia|lia]|]. simpl.
    eexists; split_and!; [done| |].
    + split_and!; simpl; [lia|lia|done|]. exists (a ++ [e]), t. by rewrite <- app_assoc.
    + apply (remaining_on hs (Iter (it_slot it) (e_ptr x)) x (a ++ [e]) t); simpl; [done|lia|done|by rewrite <- app_assoc].
Qed.

Lemma unlink_split (a : list entry) e t :
  NoDup (e_ptr <$> a ++ e :: t) -> unlink (fun x => e_ptr x =? e_ptr e) (a ++ e :: t) = Some (e, a ++ t).
Proof using.
  induction a as [|x a IH]; simpl; [by rewrite Z.eqb_refl|]. intros [Hn ND]%NoDup_cons.
  destruct (Z.eqb_spec (e_ptr x) (e_ptr e)) as [E|_]; [|by rewrite IH].
  exfalso. apply Hn. rewrite E, fmap_app. apply elem_of_app. right. by left.
Qed.

Lemma prev_of_split (a : list entry) y e t :
  NoDup (e_ptr <$> (a ++ [y]) ++ e :: t) -> prev_of (e_ptr e) ((a ++ [y]) ++ e :: t) = Some (e_ptr y).
Proof using.
  rewrite <- app_assoc. simpl. induction a as [|x a IH]; simpl; [by rewrite Z.eqb_refl|].
  intros [_ ND]%NoDup_cons. specialize (IH ND). destruct a as [|z a]; simpl in *.
  - rewrite Z.eqb_refl in *. apply NoDup_cons in ND as [Hn _]. destruct (Z.eqb_spec (e_ptr y) (e_ptr e)) as [E|_]; [|done].
    exfalso. apply Hn. rewrite E. by left.
  - destruct (Z.eqb_spec (e_ptr z) (e_ptr e)) as [E|_]; [|done]. apply NoDup_cons in ND as [Hn _].
    exfalso. apply Hn. rewrite E, fmap_app. apply elem_of_app. right. right. by left.
Qed.

Lemma iter_remove_ok hs it e :
  hs_ok hs -> on_entry hs it e ->
  exists hs' it', zbx_hashset_iter_remove hs it = Ret (hs', it') /\ hs_ok hs' /\ iter_ok hs' it' /\
    elements hs ≡ₚ e :: elements hs' /\ remaining hs' it' = remaining hs it.
Proof using.
  intros Hok (Hs & E & a & t & Hc). destruct (chain_ptrs hs _ _ Hok Hc) as [ND Hnz].
  unfold zbx_hashset_iter_remove. unfold ITER_FINISH, ITER_START.
  destruct (Z.eqb_spec (it_slot it) (-2)), (Z.eqb_spec (it_slot it) (-1)); try lia.
  destruct (Z.eqb_spec (it_entry it) 0) as [E0|_].
  { destruct (Hnz e); [apply elem_of_app; right; by left|congruence]. }
  cbn [orb]. rewrite (zget_slot hs (it_slot it) _ ltac:(lia) Hc). cbn [mbind res_mbind of_opt].
  destruct (remove_from_ok hs _ _ (fun x => e_ptr x =? it_entry it) Hok Hc) as (hs' & o & -> & Hok' & Ho).
  cbn [mbind res_mbind]. rewrite E in Ho. pose proof (unlink_split a e t ND) as U. destruct o as [x|].
  2: { destruct Ho as [_ Ho]. specialize (Ho e ltac:(apply elem_of_app; right; by left)). simpl in Ho. by rewrite Z.eqb_refl in Ho. }
  destruct Ho as (_ & _ & P & c' & Hu & Hsl & Hns). rewrite U in Hu. injection Hu as <- <-.
  assert (Hc' : hs_slots hs' !! Z.to_nat (it_slot it) = Some (a ++ t)).
  { rewrite Hsl, list_lookup_insert_eq; [done|]. by eapply lookup_lt_Some. }
  assert (Hd : drop (Z.to_nat (it_slot it + 1)) (hs_slots hs') = drop (Z.to_nat (it_slot it + 1)) (hs_slots hs)).
  { rewrite Hsl. apply list_eq. intros j. rewrite !lookup_drop, list_lookup_insert_ne by lia. done. }
  rewrite (remaining_on hs it e a t) by (done || lia). destruct a as [|y a _] using rev_ind.
  - simpl. rewrite E, Z.eqb_refl. eexists _, _. split_and!; [done|done| |done|].
    + right. left. simpl. rewrite Hns. lia.
    + unfold remaining. simpl. destruct (Z.eqb_spec (it_slot it - 1) ITER_FINISH) as [F|_]; [unfold ITER_FINISH in F; lia|].
      rewrite andb_false_r. simpl. replace (it_slot it - 1 + 1) with (it_slot it) by lia.
      rewrite (drop_slot hs' _ t) by (done || lia). by rewrite Hd.
  - pose proof (prev_of_split a y e t ND) as Hp.
    assert (Hh : exists h r, (a ++ [y]) ++ e :: t = h :: r /\ e_ptr h <> e_ptr e).
    { destruct a as [|h a]; simpl in *; eexists _, _; split; try done; apply NoDup_cons in ND as [Hn _]; intros Eh; apply Hn; rewrite Eh.
      - by left.
      - rewrite !fmap_app. apply elem_of_app. right. by left. }
    destruct Hh as (h & r & Eh & Hne). rewrite E. rewrite Eh in *. destruct (Z.eqb_spec (e_ptr h) (e_ptr e)) as [F|_]; [done|].
    rewrite Hp. simpl. eexists _, _. split_and!; [done|done| |done|].
    + right. right. exists y. split_and!; simpl; [lia|lia|done|]. exists a, t. by rewrite Hc', <- app_assoc.
    + rewrite (remaining_on hs' _ y a t); simpl; [by rewrite Hd|done|lia|done|by rewrite Hc', <- app_assoc].
Qed.

(** The loop of the callers that visit all entries and remove some of them:
    [while (NULL != (e = zbx_hashset_iter_next(&iter))) if (drop(e)) zbx_hashset_iter_remove(&iter);] *)
Fixpoint visit (fuel : nat) (drop_it : entry -> bool) (hs : hashset) (it : iter) : res (hashset * list entry) :=
  match fuel with
  | O => Halt OutOfFuel
  | S fuel =>
      '(it, o) ← zbx_hashset_iter_next hs it;
      match o with
      | None => Ret (hs, [])
      | Some e =>
          '(hs, it) ← (if drop_it e then zbx_hashset_iter_remove hs it else Ret (hs, it));
          '(hs, seen) ← visit fuel drop_it hs it;
          Ret (hs, e :: seen)
      end
  end.

Lemma visit_ok fuel drop_it hs it :
  hs_ok hs -> iter_ok hs it -> (length (remaining hs it) < fuel)%nat ->
  exists hs', visit fuel drop_it hs it = Ret (hs', remaining hs it) /\ hs_ok hs' /\
    elements hs ≡ₚ filter (fun e => drop_it e = true) (remaining hs it) ++ elements hs'.
Proof using.
  revert hs it. induction fuel as [|fuel IH]; intros hs it Hok Hit Hf; [lia|]. cbn [visit].
  pose proof (iter_next_ok hs it Hok Hit) as Hn. destruct (remaining hs it) as [|e r] eqn:R; simpl in Hn.
  { destruct Hn as (it' & -> & _). by exists hs. }
  destruct Hn as (it1 & -> & Hon & Hr). cbn [mbind res_mbind]. simpl in Hf.
  destruct (drop_it e) eqn:Ed.
  - destruct (iter_remove_ok hs it1 e Hok Hon) as (hs1 & it2 & -> & Hok1 & Hit2 & P & Hr2). cbn [mbind res_mbind].
    rewrite Hr in Hr2. destruct (IH hs1 it2 Hok1 Hit2) as (hs' & -> & Hok' & P'); [rewrite Hr2; lia|].
    cbn [mbind res_mbind]. rewrite Hr2 in *. exists hs'. split_and!; [done..|].
    rewrite filter_cons_True by done. simpl. by rewrite P, P'.
  - cbn [mbind res_mbind]. destruct (IH hs it1 Hok) as (hs' & -> & Hok' & P'); [by right; right; exists e|rewrite Hr; lia|].
    cbn [mbind res_mbind]. rewrite Hr in *. exists hs'. split_and!; [done..|].
    by rewrite filter_cons_False by (by rewrite Ed).
Qed.

Lemma reset_ok hs : hs_ok hs -> iter_ok hs zbx_hashset_iter_reset /\ remaining hs zbx_hashset_iter_reset = elements hs.
Proof using.
  intros Hok. pose proof (ok_slots _ Hok). pose proof (zlen_nonneg (hs_slots hs)). split; [|done].
  destruct (decide (hs_num_slots hs = 0)) as [E|]; right; left; simpl; unfold ITER_START; lia.
Qed.

(** *** Copy *)

Lemma copy_chain_spec alloc n (c : list entry) :
  copy_chain alloc n c = (imap (fun i e => Entry (alloc (n + i)%nat) (e_hash e) (e_data e)) c, (n + length c)%nat).
Proof using.
  revert n. induction c as [|e c IH]; intros n; simpl; [f_equal; lia|]. rewrite IH. f_equal; [|lia].
  f_equal; [by rewrite Nat.add_0_r|]. apply imap_ext. intros i x _. simpl. by rewrite Nat.add_succ_r.
Qed.

Lemma copy_slots_concat alloc n (slots : list (list entry)) :
  concat (copy_slots alloc n slots) = imap (fun i e => Entry (alloc (n + i)%nat) (e_hash e) (e_data e)) (concat slots).
Proof using.
  revert n. induction slots as [|c slots IH]; intros n; simpl; [done|]. rewrite copy_chain_spec. simpl.
  rewrite IH, imap_app. f_equal. apply imap_ext. intros i x _. simpl. by rewrite Nat.add_assoc.
Qed.

Lemma copy_slots_lookup alloc n (slots : list (list entry)) i :
  exists f : nat -> Z, copy_slots alloc n slots !! i = imap (fun j e => Entry (f j) (e_hash e) (e_data e)) <$> slots !! i.
Proof using.
  revert n i. induction slots as [|c slots IH]; intros n i; simpl; [by exists alloc|]. rewrite copy_chain_spec.
  destruct i as [|i]; simpl; [by exists (fun j => alloc (n + j)%nat)|]. apply IH.
Qed.

Lemma copy_slots_length alloc n (slots : list (list entry)) : length (copy_slots alloc n slots) = length slots.
Proof using. revert n. induction slots as [|c slots IH]; intros n; simpl; [done|]. rewrite copy_chain_spec. simpl. by rewrite IH. Qed.

Lemma copy_ok alloc hs :
  hs_ok hs -> (forall i, alloc i <> 0) -> (forall i j, alloc i = alloc j -> i = j) ->
  hs_ok (zbx_hashset_copy alloc hs) /\ e_data <$> elements (zbx_hashset_copy alloc hs) = e_data <$> elements hs.
Proof using.
  intros Hok Hnz Hinj.
  assert (Ee : elements (zbx_hashset_copy alloc hs) = imap (fun i e => Entry (alloc i) (e_hash e) (e_data e)) (elements hs)).
  { unfold elements, zbx_hashset_copy. simpl. by rewrite copy_slots_concat. }
  assert (Hin : forall e, e ∈ elements (zbx_hashset_copy alloc hs) ->
    exists i x, elements hs !! i = Some x /\ e = Entry (alloc i) (e_hash x) (e_data x)).
  { intros e [i Hi]%list_elem_of_lookup. rewrite Ee, list_lookup_imap in Hi.
    destruct (elements hs !! i) as [x|] eqn:Ex; simplify_eq/=. eauto. }
  split.
  2: { rewrite Ee. rewrite fmap_imap. apply list_eq. intros i. rewrite list_lookup_imap, list_lookup_fmap. by destruct (elements hs !! i). }
  split.
  - unfold zlen. simpl. rewrite copy_slots_length. apply Hok.
  - rewrite Ee. unfold zlen. rewrite length_imap. apply Hok.
  - intros i c e Hc He. simpl in *. destruct (copy_slots_lookup alloc 0 (hs_slots hs) i) as [f Hf].
    rewrite Hf in Hc. destruct (hs_slots hs !! i) as [c0|] eqn:Ec; simplify_eq/=.
    apply list_elem_of_lookup in He as [j Hj]. rewrite list_lookup_imap in Hj.
    destruct (c0 !! j) as [x|] eqn:Ex; simplify_eq/=. eapply (ok_proper _ Hok); [done|]. by eapply list_elem_of_lookup_2.
  - destruct (ok_entries _ Hok) as [H1 H2 H3 H4]. split.
    + intros e (i & x & Hx & ->)%Hin. simpl. apply H1. by eapply list_elem_of_lookup_2.
    + apply NoDup_alt. intros i j p. rewrite Ee, !list_lookup_fmap, !list_lookup_imap.
      destruct (elements hs !! i), (elements hs !! j); simpl; try done. intros [= <-] [= ?]. by apply Hinj.
    + intros e (i & x & Hx & ->)%Hin. apply Hnz.
    + intros e1 e2 (i & x & Hx & ->)%Hin (j & y & Hy & ->)%Hin Hk. simpl in Hk.
      assert (x = y) as ->.
      { apply H4; [by eapply list_elem_of_lookup_2|by eapply list_elem_of_lookup_2|done]. }
      f_equal. f_equal. eapply (NoDup_lookup (e_ptr <$> elements hs) i j (e_ptr y)); [done|..];
        by rewrite list_lookup_fmap, ?Hx, ?Hy.
Qed.

End theory.

(** ** Properties *)

Section properties.
Context {D : Type}.
Variable hash_func : D -> Z.
Variable compare_func : D -> D -> Z.
#[local] Abbreviation same_key := (same_key compare_func).
#[local] Abbreviation hs_ok := (hs_ok hash_func compare_func).

(** C33: On a well-formed hash set, for any hash and comparison functions
    that agree, search finds the entry with the key exactly when there is
    one; insertion returns the present entry or adds exactly one, growing and
    rehashing the table without losing or duplicating entries, and on a
    failed allocation leaves all entries in place. *)
Theorem hashset_search_insert hs d p m1 m2 :
  Equivalence same_key -> (forall a b, same_key a b -> hash_func a = hash_func b) ->
  hs_ok hs -> hs_num_slots hs <> 0 \/ m1 = true -> p <> 0 -> p ∉ e_ptr <$> elements hs ->
  (exists o, zbx_hashset_search hash_func compare_func hs d = Ret o /\
     match o with
     | Some e => e ∈ elements hs /\ same_key (e_data e) d
     | None => forall e, e ∈ elements hs -> ~ same_key (e_data e) d
     end) /\
  (exists hs' o, zbx_hashset_insert hash_func compare_func p m1 m2 hs d = Ret (hs', o) /\ hs_ok hs' /\
     match o with
     | Some e => same_key (e_data e) d /\
         ((e ∈ elements hs /\ elements hs' ≡ₚ elements hs) \/
          ((forall x, x ∈ elements hs -> ~ same_key (e_data x) d) /\ e_ptr e = p /\ e_data e = d /\
           elements hs' ≡ₚ e :: elements hs))
     | None => elements hs' ≡ₚ elements hs /\ (m1 && m2) = false /\
         (forall x, x ∈ elements hs -> ~ same_key (e_data x) d)
     end).
Proof.
  intros Heq Hh Hok Hm Hp Hn. split; [by apply search_ok|]. by apply insert_ext_ok.
Qed.

(** Removal by key takes out exactly the entry with that key, removal
    through a data pointer exactly that entry; the copy of a set holds the
    same data in new entries. *)
Theorem hashset_remove_copy hs :
  (forall a b, same_key a b -> hash_func a = hash_func b) -> hs_ok hs ->
  (forall d, exists hs' o, zbx_hashset_remove hash_func compare_func hs d = Ret (hs', o) /\ hs_ok hs' /\
     match o with
     | Some e => same_key (e_data e) d /\ elements hs ≡ₚ e :: elements hs'
     | None => hs' = hs /\ forall e, e ∈ elements hs -> ~ same_key (e_data e) d
     end) /\
  (forall e, e ∈ elements hs -> exists hs', zbx_hashset_remove_direct hs e = Ret (hs', Some e) /\ hs_ok hs' /\
     elements hs ≡ₚ e :: elements hs') /\
  (forall alloc, (forall i, alloc i <> 0) -> (forall i j, alloc i = alloc j -> i = j) ->
     hs_ok (zbx_hashset_copy alloc hs) /\ e_data <$> elements (zbx_hashset_copy alloc hs) = e_data <$> elements hs).
Proof.
  intros Hh Hok. split_and!; intros.
  - by apply remove_ok.
  - by apply remove_direct_ok.
  - by apply copy_ok.
Qed.

(** A traversal that removes entries through the iterator visits every
    entry exactly once, in table order, ends, and leaves exactly the entries
    that were not removed. *)
Theorem hashset_traversal hs drop_it fuel :
  hs_ok hs -> (length (elements hs) < fuel)%nat ->
  exists hs', visit fuel drop_it hs zbx_hashset_iter_reset = Ret (hs', elements hs) /\ hs_ok hs' /\
    elements hs ≡ₚ filter (fun e => drop_it e = true) (elements hs) ++ elements hs'.
Proof.
  intros Hok Hf. destruct (reset_ok hash_func compare_func hs Hok) as [Hi <-].
  apply (visit_ok hash_func compare_func); [done|done|]. by rewrite (proj2 (reset_ok hash_func compare_func hs Hok)).
Qed.

(** When the first slot array cannot be allocated, the failed insertion
    leaves a table with slots counted but no array: the next search reads
    through a NULL pointer. *)
Theorem hashset_oom_leaves_null_slots p m2 d d' (hs : hashset D) :
  hs_num_slots hs = 0 ->
  exists hs', zbx_hashset_insert hash_func compare_func p false m2 hs d = Ret (hs', None) /\
    zbx_hashset_search hash_func compare_func hs' d' = Halt BadAccess.
Proof.
  intros E. unfold zbx_hashset_insert, zbx_hashset_insert_ext. rewrite E. simpl (_ =? 0). cbv iota.
  unfold zbx_hashset_init_slots. simpl (0 <? _). cbv iota. change (negb (FAIL =? SUCCEED)) with true. cbv iota.
  eexists; split; [done|]. unfold zbx_hashset_search. simpl hs_num_slots.
  pose proof (next_prime_ge ZBX_HASHSET_DEFAULT_SLOTS) as H.
  destruct (Z.eqb_spec (next_prime ZBX_HASHSET_DEFAULT_SLOTS) 0) as [F|_]; [rewrite F in H; unfold ZBX_HASHSET_DEFAULT_SLOTS in H; lia|done].
Qed.

End properties.

(** Witnesses: 64-bit keys with the program's hash and comparison. *)
#[local] Abbreviation uhash := zbx_hash_splittable64.
#[local] Abbreviation ucmp := zbx_default_uint64_compare_func.

Lemma ukey a b : same_key ucmp a b <-> a = b.
Proof. exact (cmp_0 a b). Qed.

Lemma ukey_equiv : Equivalence (same_key ucmp).
Proof.
  split.
  - intros a. by rewrite ukey.
  - intros a b. rewrite !ukey. congruence.
  - intros a b c. rewrite !ukey. congruence.
Qed.

Lemma ukey_hash a b : same_key ucmp a b -> uhash a = uhash b.
Proof. rewrite ukey. congruence. Qed.

Definition set2 : hashset Z :=
  match ('(hs, _) ← zbx_hashset_insert uhash ucmp 100 true true (zbx_hashset_create 3) 7;
         '(hs, _) ← zbx_hashset_insert uhash ucmp 200 true true hs 9; Ret hs) with
  | Ret hs => hs
  | Halt _ => Hashset [] 0 0
  end.

Lemma hs_create_ok n : 0 < n -> hs_ok uhash ucmp (zbx_hashset_create n).
Proof. intros H. unfold zbx_hashset_create, zbx_hashset_create_ext. by destruct (init_slots_ok uhash ucmp n H) as (hs & -> & ? & _). Qed.

Lemma set2_ok : hs_ok uhash ucmp set2.
Proof.
  unfold set2. assert (Hc := hs_create_ok 3 ltac:(lia)). assert (He : elements (zbx_hashset_create (D:=Z) 3) = []) by reflexivity.
  destruct (insert_ext_ok uhash ucmp ukey_equiv ukey_hash 100 true true (zbx_hashset_create 3) 7 7 Hc) as (h1 & o1 & E1 & H1 & S1);
    [by right|by apply ukey_equiv|done|rewrite He; apply not_elem_of_nil|].
  assert (zbx_hashset_insert uhash ucmp 100 true true (zbx_hashset_create 3) 7 = Ret (h1, o1)) as -> by exact E1.
  cbn [mbind res_mbind]. assert (Hp : 200 ∉ e_ptr <$> elements h1).
  { rewrite He in S1. destruct o1 as [e|].
    - destruct S1 as (_ & [[Hin _]|(_ & Ep & _ & P)]); [by apply not_elem_of_nil in Hin|].
      rewrite P. simpl. rewrite Ep. intros Hx%list_elem_of_singleton. done.
    - by destruct S1 as (_ & ? & _). }
  destruct (insert_ext_ok uhash ucmp ukey_equiv ukey_hash 200 true true h1 9 9 H1) as (h2 & o2 & E2 & H2 & _);
    [by right|by apply ukey_equiv|done|done|].
  assert (zbx_hashset_insert uhash ucmp 200 true true h1 9 = Ret (h2, o2)) as -> by exact E2. done.
Qed.

Lemma hashset_search_insert_witness :
  exists o, zbx_hashset_search uhash ucmp set2 9 = Ret o /\
    match o with
    | Some e => e ∈ elements set2 /\ same_key ucmp (e_data e) 9
    | None => forall e, e ∈ elements set2 -> ~ same_key ucmp (e_data e) 9
    end.
Proof.
  apply (hashset_search_insert uhash ucmp set2 9 300 true true ukey_equiv ukey_hash set2_ok).
  - by right.
  - done.
  - assert (E : e_ptr <$> elements set2 = [100; 200] \/ e_ptr <$> elements set2 = [200; 100]) by (vm_compute; tauto).
    destruct E as [-> | ->]; rewrite !not_elem_of_cons; (split; [done|split; [done|apply not_elem_of_nil]]).
Defined.

Lemma hashset_remove_witness :
  exists hs' o, zbx_hashset_remove uhash ucmp set2 7 = Ret (hs', o) /\ hs_ok uhash ucmp hs' /\
    match o with
    | Some e => same_key ucmp (e_data e) 7 /\ elements set2 ≡ₚ e :: elements hs'
    | None => hs' = set2 /\ forall e, e ∈ elements set2 -> ~ same_key ucmp (e_data e) 7
    end.
Proof. apply (hashset_remove_copy uhash ucmp set2 ukey_hash set2_ok). Defined.

Lemma hashset_traversal_witness :
  exists hs', visit 5 (fun e => e_data e =? 7) set2 zbx_hashset_iter_reset = Ret (hs', elements set2) /\
    hs_ok uhash ucmp hs' /\
    elements set2 ≡ₚ filter (fun e => (e_data e =? 7) = true) (elements set2) ++ elements hs'.
Proof. apply (hashset_traversal uhash ucmp set2 (fun e => e_data e =? 7) 5 set2_ok). vm_compute. lia. Defined.

Lemma hashset_oom_witness :
  exists hs', zbx_hashset_insert uhash ucmp 100 false true (zbx_hashset_create 0) 7 = Ret (hs', None) /\
    zbx_hashset_search uhash ucmp hs' 7 = Halt BadAccess.
Proof. apply (hashset_oom_leaves_null_slots uhash ucmp 100 true 7 7 (zbx_hashset_create 0)). reflexivity. Defined.
