(* ===== verification/HashsetMap.v ===== *)
(** * Hash sets of records with an integer key, as finite maps

    Most hash sets of the program hold records identified by one integer
    field (an id or a pointer).  [Keyed] states that the hash and comparison
    functions of such a set look at the key only; a component that declares
    the instance gets the operations of src/libs/zbxalgo/hashset.c as
    operations on the finite map [map_of] from keys to records. *)
From stdpp Require Import prelude list gmap.
From Stdlib Require Import ZArith Lia.
From S2P Require Import Prelude Hashset.
#[local] Open Scope Z_scope.

Class Keyed {D : Type} (hash_func : D -> Z) (compare_func : D -> D -> Z) (key : D -> Z) : Prop := {
  keyed_same : forall a b, compare_func a b = 0 <-> key a = key b;
  keyed_hash : forall a b, key a = key b -> hash_func a = hash_func b }.

Section keyed.
Context {D : Type} {hash_func : D -> Z} {compare_func : D -> D -> Z} {key : D -> Z}.
Context {K : Keyed hash_func compare_func key}.
#[local] Abbreviation hashset := (hashset D).
#[local] Abbreviation hs_ok := (hs_ok hash_func compare_func).
#[local] Abbreviation same_key := (same_key compare_func).

Lemma keyed_equiv : Equivalence same_key.
Proof.
  split.
  - intros a. apply keyed_same. done.
  - intros a b H. apply keyed_same. symmetry. by apply keyed_same.
  - intros a b c H1 H2. apply keyed_same. apply keyed_same in H1, H2. congruence.
Qed.

Lemma keyed_agree a b : same_key a b -> hash_func a = hash_func b.
Proof. intros H. apply keyed_hash. by apply keyed_same. Qed.

Definition binding (e : entry D) : Z * D := (key (e_data e), e_data e).
Definition map_of (hs : hashset) : gmap Z D := list_to_map (binding <$> elements hs).

Lemma bindings_nodup l : entries_ok hash_func compare_func l -> NoDup (binding <$> l).*1.
Proof.
  intros Hl. rewrite <- list_fmap_compose. induction l as [|e l IH]; [by apply NoDup_nil|].
  rewrite fmap_cons. apply NoDup_cons. split; [|apply IH; by eapply entries_ok_tail].
  intros (x & Hk & Hx)%list_elem_of_fmap. pose proof (en_ptr _ _ _ Hl) as ND. simpl in ND.
  apply NoDup_cons in ND as [Hn _]. apply Hn. apply list_elem_of_fmap. exists x. split; [|done].
  f_equal. apply (en_key _ _ _ Hl); [by left|by right|]. apply keyed_same. exact Hk.
Qed.

Lemma map_of_perm hs l : hs_ok hs -> elements hs ≡ₚ l -> map_of hs = list_to_map (binding <$> l).
Proof.
  intros Hok P. apply list_to_map_proper; [|by rewrite P].
  apply bindings_nodup. apply Hok.
Qed.

Lemma map_of_Some hs k d : hs_ok hs -> map_of hs !! k = Some d <-> exists e, e ∈ elements hs /\ key (e_data e) = k /\ e_data e = d.
Proof.
  intros Hok. unfold map_of. rewrite <- elem_of_list_to_map by (apply bindings_nodup, Hok). rewrite list_elem_of_fmap.
  unfold binding. naive_solver.
Qed.

Lemma map_of_cons hs e l : hs_ok hs -> elements hs ≡ₚ e :: l -> map_of hs = <[key (e_data e) := e_data e]> (list_to_map (binding <$> l)).
Proof. intros Hok P. by rewrite (map_of_perm _ _ Hok P). Qed.

Lemma map_of_rest hs e l : hs_ok hs -> elements hs ≡ₚ e :: l -> list_to_map (binding <$> l) = delete (key (e_data e)) (map_of hs).
Proof.
  intros Hok P. rewrite (map_of_cons _ _ _ Hok P), delete_insert_id; [done|].
  apply not_elem_of_list_to_map_1. pose proof (bindings_nodup (e :: l)) as ND.
  rewrite <- P in ND. specialize (ND (ok_entries _ _ _ Hok)). rewrite P, !fmap_cons in ND. by apply NoDup_cons in ND as [? _].
Qed.

Lemma map_of_size hs : hs_ok hs -> hs_num_data hs = Z.of_nat (size (map_of hs)).
Proof.
  intros Hok. rewrite (ok_data _ _ _ Hok). unfold zlen, map_of. f_equal.
  rewrite map_size_list_to_map; [by rewrite length_fmap|]. apply bindings_nodup, Hok.
Qed.

(** ** The operations *)

Lemma search_map hs d :
  hs_ok hs -> exists o, zbx_hashset_search hash_func compare_func hs d = Ret o /\
    map_of hs !! key d = e_data <$> o /\ (forall e, o = Some e -> e ∈ elements hs /\ key (e_data e) = key d).
Proof.
  intros Hok. destruct (search_ok hash_func compare_func keyed_agree hs d Hok) as (o & Ho & Hs).
  exists o. split; [done|]. destruct o as [e|]; cbn.
  - destruct Hs as [He Hk%keyed_same]. split; [apply map_of_Some; eauto|]. naive_solver.
  - split; [|done]. destruct (map_of hs !! key d) as [x|] eqn:E; [|done].
    apply map_of_Some in E as (e & He & Hk & _); [|done]. destruct (Hs e He). by apply keyed_same.
Qed.

(** [p] is an unused address, as the allocator gives. *)
Lemma insert_map hs d p :
  hs_ok hs -> p <> 0 -> p ∉ e_ptr <$> elements hs -> map_of hs !! key d = None ->
  exists hs' o, zbx_hashset_insert hash_func compare_func p true true hs d = Ret (hs', o) /\ hs_ok hs' /\
    map_of hs' = <[key d := d]> (map_of hs) /\ elements hs' ≡ₚ Entry p (hash_func d) d :: elements hs.
Proof.
  intros Hok Hp Hn Hnone.
  destruct (insert_ext_ok hash_func compare_func keyed_equiv keyed_agree p true true hs d d Hok) as (hs' & o & Ho & Hok' & Hi);
    [by right|by apply keyed_same|done|done|].
  exists hs', o. split; [done|]. split; [done|]. destruct o as [e|]; [|by destruct Hi as (_ & ? & _)].
  destruct Hi as [Hk%keyed_same [[He _]|(_ & Ep & Ed & P)]].
  - assert (map_of hs !! key d = Some (e_data e)) as Hc by (apply map_of_Some; eauto). by rewrite Hc in Hnone.
  - split; [by rewrite (map_of_cons _ _ _ Hok' P), Ed|]. rewrite P. destruct e as [ep eh ed]. cbn in *. subst ep ed.
    pose proof (en_hash _ _ _ (ok_entries _ _ _ Hok') (Entry p eh d)) as Hh. cbn in Hh. rewrite Hh; [done|]. rewrite P. by left.
Qed.

Lemma remove_direct_map hs e :
  hs_ok hs -> e ∈ elements hs ->
  exists hs', zbx_hashset_remove_direct hs e = Ret (hs', Some e) /\ hs_ok hs' /\
    map_of hs' = delete (key (e_data e)) (map_of hs) /\ elements hs ≡ₚ e :: elements hs'.
Proof.
  intros Hok He. destruct (remove_direct_ok hash_func compare_func hs e Hok He) as (hs' & Hr & Hok' & P).
  exists hs'. split_and!; [done|done| |done]. by apply map_of_rest.
Qed.

Lemma store_map hs e d :
  hs_ok hs -> e ∈ elements hs -> key d = key (e_data e) ->
  exists hs' r, entry_store hs (e_ptr e) d = Ret hs' /\ hs_ok hs' /\
    map_of hs' = <[key d := d]> (map_of hs) /\ elements hs ≡ₚ e :: r /\ elements hs' ≡ₚ Entry (e_ptr e) (e_hash e) d :: r.
Proof.
  intros Hok He Hk.
  destruct (entry_store_ok hash_func compare_func keyed_equiv keyed_agree hs e d Hok He) as (hs' & r & Hs & Hok' & _ & P & P');
    [by apply keyed_same|].
  exists hs', r. split_and!; [done|done| |done|done].
  rewrite (map_of_cons _ _ _ Hok' P'), (map_of_cons _ _ _ Hok P). cbn. by rewrite Hk, insert_insert_eq.
Qed.

Lemma create_map n : 0 < n -> hs_ok (zbx_hashset_create n) /\ map_of (zbx_hashset_create n) = ∅ /\ elements (zbx_hashset_create (D := D) n) = [].
Proof.
  intros Hn. unfold zbx_hashset_create, zbx_hashset_create_ext.
  destruct (init_slots_ok hash_func compare_func n Hn) as (hs & Hi & Hok & He & _). rewrite Hi. cbn.
  assert (E : elements hs = []) by done. split; [done|]. split; [|done]. unfold map_of. by rewrite E.
Qed.
End keyed.
