(* ===== verification/StrPool.v ===== *)
(** * String pool (src/libs/zbxalgo/strpool.c)

    Reference counted interned strings: a hash set of records, each a 32-bit
    reference count followed by the characters.  Callers hold the address of
    the characters; the model names a record by its address.  A string is the
    list of its bytes before the terminating NUL.  The lock of the pool is a
    flag.

    [view] lists the records as (address, string, reference count). *)
From stdpp Require Import prelude list.
From Stdlib Require Import ZArith Lia.
From S2P Require Import Prelude Algodefs Hashset.
#[local] Open Scope Z_scope.

Record srec := SRec { refcount : Z; str : list Z }.
Record strpool := StrPool { strs : hashset srec; lock : bool }.

(** [strcmp]. *)
Fixpoint strcmp (a b : list Z) : Z :=
  match a, b with
  | [], [] => 0
  | [], _ :: _ => -1
  | _ :: _, [] => 1
  | x :: a, y :: b => if x =? y then strcmp a b else x - y
  end.

Definition strpool_hash (d : srec) : Z := zbx_hash_modfnv (str d) 0.
Definition strpool_compare (d1 d2 : srec) : Z := strcmp (str d1) (str d2).

(** [p], [m1], [m2]: address of a new record and outcome of the allocations;
    [junk]: the content of the count field of new memory. *)
Definition strpool_intern (p : Z) (m1 m2 : bool) (junk : Z) (hs : hashset srec) (s : option (list Z)) :
    res (hashset srec * option Z) :=
  match s with
  | None => Ret (hs, None)
  | Some s =>
      found ← zbx_hashset_search strpool_hash strpool_compare hs (SRec 0 s);
      '(hs, record) ←
        match found with
        | Some e => Ret (hs, e_ptr e)
        | None =>
            '(hs, o) ← zbx_hashset_insert_ext strpool_hash strpool_compare p m1 m2 hs (SRec 0 s) (SRec junk s);
            e ← of_opt BadAccess o;
            d ← entry_load hs (e_ptr e);
            hs ← entry_store hs (e_ptr e) (SRec 0 (str d));
            Ret (hs, e_ptr e)
        end;
      d ← entry_load hs record;
      hs ← entry_store hs record (SRec (u32 (refcount d + 1)) (str d));
      Ret (hs, Some record)
  end.

Definition strpool_release (hs : hashset srec) (s : option Z) : res (hashset srec) :=
  match s with
  | None => Ret hs
  | Some record =>
      d ← entry_load hs record;
      let n := u32 (refcount d - 1) in
      hs ← entry_store hs record (SRec n (str d));
      if n =? 0 then '(hs, _) ← zbx_hashset_remove strpool_hash strpool_compare hs (SRec n (str d)); Ret hs
      else Ret hs
  end.

Definition strpool_acquire (hs : hashset srec) (record : Z) : res (hashset srec * Z) :=
  d ← entry_load hs record;
  hs ← entry_store hs record (SRec (u32 (refcount d + 1)) (str d));
  Ret (hs, record).

Definition lock_block (sp : strpool) : res strpool := if lock sp then Halt Deadlock else Ret (StrPool (strs sp) true).
Definition lock_unlock (sp : strpool) (hs : hashset srec) : strpool := StrPool hs false.

Definition strpool_init (mem : bool) : strpool := StrPool (zbx_hashset_create_ext mem 100) false.

(** The lock stays taken. *)
Definition strpool_destroy (sp : strpool) : res strpool :=
  sp ← lock_block sp; Ret (StrPool (zbx_hashset_destroy (strs sp)).1 (lock sp)).

Definition strpool_add (p : Z) (m1 m2 : bool) (junk : Z) (sp : strpool) (s : option (list Z)) :
    res (strpool * option Z) :=
  sp ← lock_block sp;
  '(hs, ret) ← strpool_intern p m1 m2 junk (strs sp) s;
  Ret (lock_unlock sp hs, ret).

Definition strpool_free (sp : strpool) (s : option Z) : res strpool :=
  sp ← lock_block sp;
  hs ← strpool_release (strs sp) s;
  Ret (lock_unlock sp hs).

Definition strpool_replace (p : Z) (m1 m2 : bool) (junk : Z) (sp : strpool) (old_str : option Z) (new_str : option (list Z)) :
    res (strpool * option Z) :=
  sp ← lock_block sp;
  hs ← strpool_release (strs sp) old_str;
  '(hs, ret) ← strpool_intern p m1 m2 junk hs new_str;
  Ret (lock_unlock sp hs, ret).

(** [strpool_copy] does not take the lock. *)
Definition strpool_copy (sp : strpool) (s : Z) : res (strpool * Z) :=
  '(hs, r) ← strpool_acquire (strs sp) s; Ret (StrPool hs (lock sp), r).

(** ** Theory *)

Lemma strcmp_0 a b : strcmp a b = 0 <-> a = b.
Proof.
  revert b. induction a as [|x a IH]; intros [|y b]; simpl; split; try done.
  - destruct (Z.eqb_spec x y); [subst; intros ->%IH; done|lia].
  - intros [= -> ->]. rewrite Z.eqb_refl. by apply IH.
Qed.

#[local] Abbreviation hok := (hs_ok strpool_hash strpool_compare).
#[local] Abbreviation skey := (same_key strpool_compare).

Lemma skey_str a b : skey a b <-> str a = str b.
Proof. exact (strcmp_0 (str a) (str b)). Qed.

Lemma skey_equiv : Equivalence skey.
Proof.
  split.
  - intros a. by rewrite skey_str.
  - intros a b. rewrite !skey_str. congruence.
  - intros a b c. rewrite !skey_str. congruence.
Qed.

Lemma skey_hash a b : skey a b -> strpool_hash a = strpool_hash b.
Proof. rewrite skey_str. unfold strpool_hash. congruence. Qed.

Definition view_entry (e : entry srec) : Z * list Z * Z := (e_ptr e, str (e_data e), refcount (e_data e)).
Definition view (hs : hashset srec) : list (Z * list Z * Z) := view_entry <$> elements hs.

(** Counts are positive and fit their 32 bits. *)
Record pool_ok (hs : hashset srec) : Prop := {
  po_set : hok hs;
  po_slots : hs_num_slots hs <> 0;
  po_count : forall e, e ∈ elements hs -> 0 < refcount (e_data e) < 2 ^ 32 }.

(** Writing a record keeps the table well formed when the string stays. *)
Lemma store_ok hs e d :
  hok hs -> e ∈ elements hs -> str d = str (e_data e) ->
  exists hs' r, entry_store hs (e_ptr e) d = Ret hs' /\ hok hs' /\ hs_num_slots hs' = hs_num_slots hs /\
    elements hs ≡ₚ e :: r /\ elements hs' ≡ₚ Entry (e_ptr e) (e_hash e) d :: r.
Proof. intros Hok He Hd. apply entry_store_ok; [apply skey_equiv|apply skey_hash|done|done|by apply skey_str]. Qed.

Lemma view_entry_of hs p s n rest :
  view hs ≡ₚ (p, s, n) :: rest -> exists e r, elements hs ≡ₚ e :: r /\ view_entry e = (p, s, n) /\ rest ≡ₚ view_entry <$> r.
Proof.
  intros P. assert (Hin : (p, s, n) ∈ view hs) by (rewrite P; by left).
  apply list_elem_of_fmap in Hin as (e & Ee & He). apply elem_of_Permutation in He as (r & Pr).
  exists e, r. split_and!; [done|done|]. unfold view in P. rewrite Pr in P. simpl in P. rewrite <- Ee in P.
  by apply Permutation_cons_inv in P.
Qed.

(** A record whose count becomes [n]. *)
Lemma recount_ok hs e n :
  hok hs -> e ∈ elements hs ->
  exists hs' r, entry_store hs (e_ptr e) (SRec n (str (e_data e))) = Ret hs' /\ hok hs' /\ hs_num_slots hs' = hs_num_slots hs /\
    elements hs ≡ₚ e :: r /\ elements hs' ≡ₚ Entry (e_ptr e) (e_hash e) (SRec n (str (e_data e))) :: r.
Proof. intros. by apply store_ok. Qed.

Lemma pool_ok_change hs hs' e e' r :
  pool_ok hs -> hok hs' -> hs_num_slots hs' <> 0 -> elements hs ≡ₚ e :: r -> elements hs' ≡ₚ e' :: r ->
  0 < refcount (e_data e') < 2 ^ 32 -> pool_ok hs'.
Proof.
  intros Hp Hok Hn P P' Hc. split; [done|done|]. intros x. rewrite P'. intros [->|Hx]%elem_of_cons; [done|].
  apply Hp. rewrite P. by right.
Qed.

Lemma acquire_ok hs p s n rest :
  pool_ok hs -> view hs ≡ₚ (p, s, n) :: rest -> n + 1 < 2 ^ 32 ->
  exists hs', strpool_acquire hs p = Ret (hs', p) /\ pool_ok hs' /\ view hs' ≡ₚ (p, s, n + 1) :: rest.
Proof.
  intros Hp Hv Hn. destruct (view_entry_of hs p s n rest Hv) as (e & r & P & Ee & Pr). injection Ee as <- <- <-.
  assert (He : e ∈ elements hs) by (rewrite P; by left). pose proof (po_count _ Hp e He).
  unfold strpool_acquire. rewrite (entry_load_ok strpool_hash strpool_compare) by (done || apply Hp). cbn [mbind res_mbind]. rewrite u32_small by lia.
  destruct (recount_ok hs e (refcount (e_data e) + 1) (po_set _ Hp) He) as (hs' & r' & -> & Hok & Hs & P1 & P2).
  cbn [mbind res_mbind]. rewrite P in P1. apply Permutation_cons_inv in P1.
  exists hs'. split_and!; [done| |].
  - eapply (pool_ok_change hs hs' e); [done|done|rewrite Hs; apply Hp|by rewrite P, P1|exact P2|simpl; lia].
  - unfold view. rewrite P2, <- P1, Pr. done.
Qed.

Lemma release_ok hs p s n rest :
  pool_ok hs -> view hs ≡ₚ (p, s, n) :: rest ->
  exists hs', strpool_release hs (Some p) = Ret hs' /\ pool_ok hs' /\
    view hs' ≡ₚ (if decide (n = 1) then rest else (p, s, n - 1) :: rest).
Proof.
  intros Hp Hv. destruct (view_entry_of hs p s n rest Hv) as (e & r & P & Ee & Pr). injection Ee as <- <- <-.
  assert (He : e ∈ elements hs) by (rewrite P; by left). pose proof (po_count _ Hp e He).
  unfold strpool_release. rewrite (entry_load_ok strpool_hash strpool_compare) by (done || apply Hp). cbn [mbind res_mbind]. rewrite u32_small by lia.
  destruct (recount_ok hs e (refcount (e_data e) - 1) (po_set _ Hp) He) as (hs1 & r' & -> & Hok & Hs & P1 & P2).
  cbn [mbind res_mbind]. rewrite P in P1. apply Permutation_cons_inv in P1. set (e' := Entry _ _ _) in P2.
  destruct (Z.eqb_spec (refcount (e_data e) - 1) 0) as [E|E].
  - destruct (remove_ok strpool_hash strpool_compare skey_hash hs1 (SRec (refcount (e_data e) - 1) (str (e_data e))) Hok)
      as (hs2 & o & E2 & Hok2 & Ho). pose proof (remove_num_slots _ _ _ _ _ _ E2) as Hs2. rewrite E2. cbn [mbind res_mbind]. rewrite decide_True by lia.
    assert (He' : e' ∈ elements hs1) by (rewrite P2; by left). destruct o as [x|].
    2: { destruct Ho as [_ Ho]. destruct (Ho e' He'). by apply skey_str. }
    destruct Ho as [Hk P3]. assert (x = e') as ->.
    { apply (en_key _ _ _ (ok_entries _ _ _ Hok)); [rewrite P3; by left|done|exact Hk]. }
    rewrite P2 in P3. apply Permutation_cons_inv in P3. exists hs2. split_and!; [done| |].
    + split; [done| |].
      * rewrite Hs2, Hs. apply Hp.
      * intros x Hx. apply Hp. rewrite P, P1, P3. by right.
    + unfold view. by rewrite <- P3, <- P1, Pr.
  - rewrite decide_False by lia. exists hs1. split_and!; [done| |].
    + eapply (pool_ok_change hs hs1 e); [done|done|rewrite Hs; apply Hp|by rewrite P, P1|exact P2|simpl; lia].
    + unfold view. rewrite P2, <- P1, Pr. done.
Qed.

(** The last two steps of interning: the count of a record goes up. *)
Lemma bump_ok hs e r :
  hok hs -> hs_num_slots hs <> 0 -> elements hs ≡ₚ e :: r -> 0 <= refcount (e_data e) -> refcount (e_data e) + 1 < 2 ^ 32 ->
  (forall x, x ∈ r -> 0 < refcount (e_data x) < 2 ^ 32) ->
  exists hs', (d ← entry_load hs (e_ptr e); hs' ← entry_store hs (e_ptr e) (SRec (u32 (refcount d + 1)) (str d)); Ret (hs', Some (e_ptr e)))
      = Ret (hs', Some (e_ptr e)) /\ pool_ok hs' /\
    view hs' ≡ₚ (e_ptr e, str (e_data e), refcount (e_data e) + 1) :: (view_entry <$> r).
Proof.
  intros Hok Hn P H0 H1 Hr. assert (He : e ∈ elements hs) by (rewrite P; by left).
  rewrite (entry_load_ok strpool_hash strpool_compare) by done. cbn [mbind res_mbind]. rewrite u32_small by lia.
  destruct (recount_ok hs e (refcount (e_data e) + 1) Hok He) as (hs' & r' & -> & Hok' & Hs & P1 & P2).
  cbn [mbind res_mbind]. rewrite P in P1. apply Permutation_cons_inv in P1.
  exists hs'. split_and!; [done| |].
  - split; [done|by rewrite Hs|]. intros x. rewrite P2, <- P1. intros [->|Hx]%elem_of_cons; [simpl; lia|by apply Hr].
  - unfold view. by rewrite P2, <- P1.
Qed.

Lemma intern_ok p junk hs s :
  pool_ok hs -> (forall e, e ∈ elements hs -> refcount (e_data e) + 1 < 2 ^ 32) ->
  p <> 0 -> p ∉ e_ptr <$> elements hs ->
  exists hs' q, strpool_intern p true true junk hs (Some s) = Ret (hs', Some q) /\ pool_ok hs' /\
    ((exists n rest, view hs ≡ₚ (q, s, n) :: rest /\ view hs' ≡ₚ (q, s, n + 1) :: rest) \/
     (q = p /\ (forall x, x ∈ view hs -> x.1.2 <> s) /\ view hs' ≡ₚ (p, s, 1) :: view hs)).
Proof.
  intros Hp Hc Hp0 Hpn. unfold strpool_intern.
  destruct (search_ok strpool_hash strpool_compare skey_hash hs (SRec 0 s) (po_set _ Hp)) as (o & -> & Ho).
  cbn [mbind res_mbind]. destruct o as [e|].
  - destruct Ho as [He Hk%skey_str]. simpl in Hk. subst s. cbn [mbind res_mbind].
    pose proof He as (r & P)%elem_of_Permutation. pose proof (po_count _ Hp e He).
    destruct (bump_ok hs e r) as (hs' & -> & Hp' & Hv); [apply Hp|apply Hp|done|lia|by apply Hc| |].
    { intros x Hx. apply Hp. rewrite P. by right. }
    exists hs', (e_ptr e). split_and!; [done..|]. left. exists (refcount (e_data e)), (view_entry <$> r).
    split; [|done]. unfold view. by rewrite P.
  - assert (Hst : skey (SRec junk s) (SRec 0 s)) by (by apply skey_str).
    destruct (insert_ext_ok strpool_hash strpool_compare skey_equiv skey_hash p true true hs (SRec 0 s) (SRec junk s)
      (po_set _ Hp)) as (hs1 & o & -> & Hok1 & Hi); [by right|done|done|done|].
    destruct o as [e|]; [|by destruct Hi as (_ & ? & _)].
    destruct Hi as (Hk & [[He _]|(_ & Ep & Ed & P)]); [by destruct (Ho e He)|].
    cbn [mbind res_mbind of_opt]. assert (He1 : e ∈ elements hs1) by (rewrite P; by left).
    rewrite (entry_load_ok strpool_hash strpool_compare) by done. cbn [mbind res_mbind].
    destruct (recount_ok hs1 e 0 Hok1 He1) as (hs2 & r & -> & Hok2 & Hs2 & P1 & P2). cbn [mbind res_mbind].
    rewrite P in P1. apply Permutation_cons_inv in P1. rewrite <- P1 in P2.
    set (e2 := Entry _ _ _) in P2. change (e_ptr e) with (e_ptr e2).
    destruct (bump_ok hs2 e2 (elements hs)) as (hs' & -> & Hp' & Hv); [done| |done|done|done|by apply Hp|].
    { intros E0. rewrite (proj1 (empty_elements _ _ hs2 Hok2 E0)) in P2. by apply Permutation_nil_cons in P2. }
    exists hs', (e_ptr e2). split_and!; [done..|]. right. split_and!; [done| |].
    + intros x (y & -> & Hy)%list_elem_of_fmap Hs. apply (Ho y Hy). by apply skey_str.
    + rewrite Hv. simpl. by rewrite Ep, Ed.
Qed.

(** ** Properties *)

Record strpool_ok (sp : strpool) : Prop := { sp_pool : pool_ok (strs sp); sp_lock : lock sp = false }.

(** Reference counting.  Adding a string that is in the pool returns the
    address of its record and counts one more reference, adding a new string
    creates a record with one reference; freeing drops one reference and
    removes the record with the last one; copying counts one more reference.
    All other records stay as they are, and the lock is released. *)
Theorem strpool_counts_references sp p junk s :
  strpool_ok sp -> (forall e, e ∈ elements (strs sp) -> refcount (e_data e) + 1 < 2 ^ 32) ->
  p <> 0 -> p ∉ e_ptr <$> elements (strs sp) ->
  (exists sp' q, strpool_add p true true junk sp (Some s) = Ret (sp', Some q) /\ strpool_ok sp' /\
     ((exists n rest, view (strs sp) ≡ₚ (q, s, n) :: rest /\ view (strs sp') ≡ₚ (q, s, n + 1) :: rest) \/
      (q = p /\ (forall x, x ∈ view (strs sp) -> x.1.2 <> s) /\ view (strs sp') ≡ₚ (p, s, 1) :: view (strs sp)))) /\
  (forall q t n rest, view (strs sp) ≡ₚ (q, t, n) :: rest ->
     (exists sp', strpool_free sp (Some q) = Ret sp' /\ strpool_ok sp' /\
        view (strs sp') ≡ₚ (if decide (n = 1) then rest else (q, t, n - 1) :: rest)) /\
     (exists sp', strpool_copy sp q = Ret (sp', q) /\ strpool_ok sp' /\ view (strs sp') ≡ₚ (q, t, n + 1) :: rest)).
Proof.
  intros [Hp Hl] Hc Hp0 Hpn. unfold strpool_add, strpool_free, strpool_copy, lock_block. rewrite Hl. split.
  - destruct (intern_ok p junk (strs sp) s Hp Hc Hp0 Hpn) as (hs' & q & E & Hp' & Hv).
    cbn [mbind res_mbind strs]. rewrite E. cbn [mbind res_mbind]. eexists _, _. split_and!; [done|by split|exact Hv].
  - intros q t n rest Hv. split.
    + destruct (release_ok (strs sp) q t n rest Hp Hv) as (hs' & E & Hp' & Hv').
      cbn [mbind res_mbind strs]. rewrite E. cbn [mbind res_mbind]. eexists. split_and!; [done|by split|exact Hv'].
    + destruct (view_entry_of _ _ _ _ _ Hv) as (e & r & P & Ee & _). injection Ee as _ _ <-.
      destruct (acquire_ok (strs sp) q t (refcount (e_data e)) rest Hp Hv) as (hs' & E & Hp' & Hv').
      { apply Hc. rewrite P. by left. }
      rewrite E. cbn [mbind res_mbind]. eexists. split_and!; [done|by split|exact Hv'].
Qed.

(** Interning: two records of a pool have the same address exactly when
    they hold the same string, so callers may compare addresses. *)
Theorem strpool_interns sp q1 s1 n1 q2 s2 n2 :
  strpool_ok sp -> (q1, s1, n1) ∈ view (strs sp) -> (q2, s2, n2) ∈ view (strs sp) -> q1 = q2 <-> s1 = s2.
Proof.
  intros [Hp _] (e1 & E1 & H1)%list_elem_of_fmap (e2 & E2 & H2)%list_elem_of_fmap.
  injection E1 as -> -> ->. injection E2 as -> -> ->. pose proof (ok_entries _ _ _ (po_set _ Hp)) as Hen. split.
  - intros E. by rewrite (ptr_unique _ _ _ e1 e2 Hen H1 H2 E).
  - intros E. by rewrite (en_key _ _ _ Hen e1 e2 H1 H2) by (by apply skey_str).
Qed.

(** Witnesses: the pool after its creation, and with two strings. *)
Definition pool0 : strpool := strpool_init true.

Lemma pool0_ok : strpool_ok pool0 /\ elements (strs pool0) = [].
Proof.
  destruct (init_slots_ok strpool_hash strpool_compare 100) as (hs & E & Hok & He & Hn & _); [lia|].
  unfold pool0, strpool_init, zbx_hashset_create_ext. rewrite E. split; [|done]. split; [|done]. split; [done|done|].
  simpl. rewrite He. by intros e ?%not_elem_of_nil.
Qed.

Lemma strpool_counts_witness :
  exists sp' q, strpool_add 1000 true true 77 pool0 (Some [104; 105]) = Ret (sp', Some q) /\ strpool_ok sp' /\
     ((exists n rest, view (strs pool0) ≡ₚ (q, [104; 105], n) :: rest /\ view (strs sp') ≡ₚ (q, [104; 105], n + 1) :: rest) \/
      (q = 1000 /\ (forall x, x ∈ view (strs pool0) -> x.1.2 <> [104; 105]) /\
       view (strs sp') ≡ₚ (1000, [104; 105], 1) :: view (strs pool0))).
Proof.
  destruct pool0_ok as [Hok He].
  apply (strpool_counts_references pool0 1000 77 [104; 105] Hok).
  - rewrite He. by intros e ?%not_elem_of_nil.
  - done.
  - rewrite He. apply not_elem_of_nil.
Defined.

Definition pool1 : strpool :=
  match strpool_add 1000 true true 77 pool0 (Some [104; 105]) with Ret (sp, _) => sp | Halt _ => pool0 end.

Lemma pool1_ok : strpool_ok pool1 /\ (1000, [104; 105], 1) ∈ view (strs pool1).
Proof.
  destruct pool0_ok as [[Hp Hl] He].
  destruct (intern_ok 1000 77 (strs pool0) [104; 105] Hp) as (hs' & q & E & Hp' & Hv);
    [rewrite He; by intros e ?%not_elem_of_nil|done|rewrite He; apply not_elem_of_nil|].
  assert (E1 : pool1 = StrPool hs' false).
  { unfold pool1, strpool_add, lock_block. rewrite Hl. cbn [mbind res_mbind strs]. by rewrite E. }
  assert (V0 : view (strs pool0) = []) by (unfold view; by rewrite He).
  rewrite E1. split; [by split|]. cbn [strs]. rewrite V0 in Hv. clear - Hv.
  destruct Hv as [(n & rest & P & _)|(_ & _ & P)]; [by apply Permutation_nil_cons in P|]. rewrite P. by left.
Qed.

Lemma strpool_interns_witness : 1000 = 1000 <-> [104; 105] = [104; 105].
Proof. apply (strpool_interns pool1 1000 [104; 105] 1 1000 [104; 105] 1); apply pool1_ok. Defined.

Example strpool_run :
  match ('(sp, a) ← strpool_add 1000 true true 77 pool0 (Some [104; 105]);
         '(sp, b) ← strpool_add 2000 true true 77 sp (Some [104; 105]);
         '(sp, c) ← strpool_add 3000 true true 77 sp (Some [104]);
         sp ← strpool_free sp a;
         sp ← strpool_free sp c;
         Ret (view (strs sp), a, b, c)) with
  | Ret x => Some x
  | Halt _ => None
  end = Some ([(1000, [104; 105], 1)], Some 1000, Some 1000, Some 3000).
Proof. vm_compute. reflexivity. Qed.
