(* ===== verification/Vector.v ===== *)
(** * Vectors (the ZBX_VECTOR_IMPL macros of include/zbxalgo.h)

    Growable arrays of an element type.  [v_values] are the [values_num]
    elements in use, [v_alloc] is the capacity, [v_null] says that the array
    is NULL.  The compare function of an operation is its argument, as in the
    code; [qsort] and [bsearch] of the C library are a merge sort and a
    binary search. *)
From stdpp Require Import prelude list sorting.
From Stdlib Require Import ZArith Lia Sorted.
From S2P Require Import Prelude.
#[local] Open Scope Z_scope.

Record vector (A : Type) := Vector { v_values : list A; v_alloc : Z; v_null : bool }.
Arguments Vector {A} _ _ _.
Arguments v_values {A} _.
Arguments v_alloc {A} _.
Arguments v_null {A} _.

Section model.
Context {A : Type}.
Implicit Types v : vector A.

Definition values_num v : nat := length (v_values v).

Definition vector_ensure_free_space v : vector A :=
  if v_null v then Vector [] 32 false
  else if Z.of_nat (values_num v) =? v_alloc v
  then Vector (v_values v) (Z.max (v_alloc v + 1) (Z.quot (v_alloc v * 3) 2)) false
  else v.

Definition zbx_vector_create : vector A := Vector [] 0 true.
Definition zbx_vector_destroy v : vector A := Vector [] 0 true.

Definition zbx_vector_append v (value : A) : res (vector A) :=
  let v := vector_ensure_free_space v in
  if Z.of_nat (values_num v) <? v_alloc v then Ret (Vector (v_values v ++ [value]) (v_alloc v) (v_null v))
  else Halt BadAccess.

Definition zbx_vector_reserve v (size : Z) : vector A :=
  if v_alloc v <? size then Vector (v_values v) size false else v.

Definition zbx_vector_append_array v (values : list A) : res (vector A) :=
  let v := zbx_vector_reserve v (Z.of_nat (values_num v) + zlen values) in
  if Z.of_nat (values_num v) + zlen values <=? v_alloc v
  then Ret (Vector (v_values v ++ values) (v_alloc v) (v_null v))
  else Halt BadAccess.

Definition zbx_vector_remove_noorder v (index : Z) : res (vector A) :=
  if negb ((0 <=? index) && (index <? Z.of_nat (values_num v))) then Halt ExitFailure
  else Ret (Vector (swap_remove (v_values v) (Z.to_nat index)) (v_alloc v) (v_null v)).

(** [memmove] of [n] elements from [from] to [to] within the array. *)
Definition move (l : list A) (to from n : nat) : res (list A) :=
  if decide (to + n <= length l /\ from + n <= length l)%nat
  then Ret (take to l ++ take n (drop from l) ++ drop (to + n) l) else Halt BadAccess.

Definition zbx_vector_remove v (index : Z) : res (vector A) :=
  if negb ((0 <=? index) && (index <? Z.of_nat (values_num v))) then Halt ExitFailure
  else
    let i := Z.to_nat index in
    let num := (values_num v - 1)%nat in
    l ← move (v_values v) i (S i) (num - i);
    Ret (Vector (take num l) (v_alloc v) (v_null v)).

Definition zbx_vector_clear v : vector A := Vector [] (v_alloc v) (v_null v).

(** The cleared elements, in the order they are freed. *)
Definition zbx_vector_clear_ext v : vector A * list A := (zbx_vector_clear v, v_values v).

Variable compare_func : A -> A -> Z.

Definition cle (a b : A) : Prop := compare_func a b <= 0.
#[export] Instance cle_dec : RelDecision cle := fun a b => Z_le_dec (compare_func a b) 0.

Definition zbx_vector_sort v : vector A :=
  if decide (2 <= values_num v)%nat then Vector (merge_sort cle (v_values v)) (v_alloc v) (v_null v) else v.

(** [for (i = 1; i < values_num; i++)], [n] iterations left. *)
Fixpoint uniq_loop (n : nat) (l : list A) (i j : nat) : res (list A * nat) :=
  match n with
  | O => Ret (l, j)
  | S n =>
      x ← of_opt BadAccess (l !! (i - 1)%nat);
      y ← of_opt BadAccess (l !! i);
      if negb (compare_func x y =? 0) then uniq_loop n (<[j := y]> l) (S i) (S j)
      else uniq_loop n l (S i) j
  end.

Definition zbx_vector_uniq v : res (vector A) :=
  if decide (2 <= values_num v)%nat then
    '(l, j) ← uniq_loop (values_num v - 1) (v_values v) 1 1;
    Ret (Vector (take j l) (v_alloc v) (v_null v))
  else Ret v.

Fixpoint nearest_loop (fuel : nat) (l : list A) (value : A) (lo hi : nat) : res nat :=
  if decide (1 <= hi - lo)%nat then
    match fuel with
    | O => Halt OutOfFuel
    | S fuel =>
        let mid := ((lo + hi) / 2)%nat in
        x ← of_opt BadAccess (l !! mid);
        let c := compare_func x value in
        if c <? 0 then nearest_loop fuel l value (S mid) hi
        else if c =? 0 then Ret mid
        else nearest_loop fuel l value lo mid
    end
  else Ret hi.

Definition zbx_vector_nearestindex v (value : A) : res nat :=
  nearest_loop (values_num v) (v_values v) value 0 (values_num v).

(** [bsearch] of the C library; the compare function gets the key first. *)
Fixpoint bsearch (fuel : nat) (l : list A) (value : A) (lo hi : nat) : res (option nat) :=
  if decide (lo < hi)%nat then
    match fuel with
    | O => Halt OutOfFuel
    | S fuel =>
        let mid := ((lo + hi) / 2)%nat in
        x ← of_opt BadAccess (l !! mid);
        let c := compare_func value x in
        if c <? 0 then bsearch fuel l value lo mid
        else if c =? 0 then Ret (Some mid)
        else bsearch fuel l value (S mid) hi
    end
  else Ret None.

Definition zbx_vector_bsearch v (value : A) : res Z :=
  ptr ← bsearch (values_num v) (v_values v) value 0 (values_num v);
  Ret (match ptr with Some i => Z.of_nat i | None => FAIL end).

(** From [*index] on; the result and the new [*index]. *)
Fixpoint lsearch_from (l : list A) (value : A) (index : nat) : Z * nat :=
  match l with
  | [] => (FAIL, index)
  | x :: l =>
      let c := compare_func x value in
      if c <? 0 then lsearch_from l value (S index)
      else if c =? 0 then (SUCCEED, index) else (FAIL, index)
  end.

Definition zbx_vector_lsearch v (value : A) (index : nat) : Z * nat :=
  lsearch_from (drop index (v_values v)) value index.

Fixpoint search_from (l : list A) (value : A) (index : nat) : Z :=
  match l with
  | [] => FAIL
  | x :: l => if compare_func x value =? 0 then Z.of_nat index else search_from l value (S index)
  end.

Definition zbx_vector_search v (value : A) : Z := search_from (v_values v) value 0.

(** The loop of the set difference; [left] is the array being compacted.
    [block_start] is not read before the first deletion sets it. *)
Fixpoint setdiff_loop (fuel : nat) (left right : list A) (block_start deleted left_index right_index : nat) :
    res (list A * nat * nat) :=
  match left !! left_index, right !! right_index with
  | Some x, Some y =>
      match fuel with
      | O => Halt OutOfFuel
      | S fuel =>
          let c := compare_func x y in
          let left_index := if c <=? 0 then S left_index else left_index in
          let right_index := if 0 <=? c then S right_index else right_index in
          if negb (c =? 0) then setdiff_loop fuel left right block_start deleted left_index right_index
          else
            let was := deleted in
            let deleted := S deleted in
            left ← (if decide (0 < was)%nat
                    then move left (block_start + 1 - deleted) block_start (left_index - 1 - block_start)
                    else Ret left);
            setdiff_loop fuel left right left_index deleted left_index right_index
      end
  | _, _ => Ret (left, block_start, deleted)
  end.

Definition zbx_vector_setdiff v (right : vector A) : res (vector A) :=
  '(l, block_start, deleted) ← setdiff_loop (values_num v + values_num right) (v_values v) (v_values right) 0 0 0 0;
  if decide (0 < deleted)%nat then
    l ← move l (block_start - deleted) block_start (length l - block_start);
    Ret (Vector (take (length l - deleted) l) (v_alloc v) (v_null v))
  else Ret v.

End model.

(** ** Theory *)

Section theory.
Context {A : Type}.
Implicit Types v : vector A.

Record v_ok v : Prop := {
  vo_space : Z.of_nat (values_num v) <= v_alloc v;
  vo_null : v_null v = true -> v_values v = [] /\ v_alloc v = 0 }.

Lemma create_v_ok : v_ok zbx_vector_create.
Proof. by split. Qed.

Lemma vec_append_ok v x : v_ok v -> exists v', zbx_vector_append v x = Ret v' /\ v_ok v' /\ v_values v' = v_values v ++ [x].
Proof.
  intros [Hs Hn]. unfold zbx_vector_append, vector_ensure_free_space, values_num in *.
  assert (ok : forall l a, l = v_values v -> zlen l < a -> exists v', (if Z.of_nat (length l) <? a then
      Ret (Vector (l ++ [x]) a false) else Halt BadAccess) = Ret v' /\ v_ok v' /\ v_values v' = v_values v ++ [x]).
  { intros l a -> Ha. unfold zlen in Ha. destruct (Z.ltb_spec (Z.of_nat (length (v_values v))) a); [|lia].
    eexists; split_and!; [done| |done]. split; simpl; [|done]. unfold values_num. simpl. rewrite length_app. simpl. lia. }
  destruct (v_null v) eqn:E; simpl.
  - apply (ok [] 32); [by rewrite (proj1 (Hn eq_refl))|done].
  - destruct (Z.eqb_spec (Z.of_nat (length (v_values v))) (v_alloc v)); simpl.
    + apply ok; [done|]. unfold zlen. lia.
    + rewrite E. apply ok; [done|]. unfold zlen. lia.
Qed.

Lemma append_array_ok v l :
  v_ok v -> exists v', zbx_vector_append_array v l = Ret v' /\ v_ok v' /\ v_values v' = v_values v ++ l.
Proof.
  intros [Hs Hn]. unfold zbx_vector_append_array, zbx_vector_reserve, values_num in *. pose proof (zlen_nonneg l).
  destruct (Z.ltb_spec (v_alloc v) (Z.of_nat (length (v_values v)) + zlen l)) as [Hlt|Hge]; simpl.
  - destruct (Z.leb_spec (Z.of_nat (length (v_values v)) + zlen l) (Z.of_nat (length (v_values v)) + zlen l)); [|lia].
    eexists; split_and!; [done| |done]. split; simpl; [|done]. unfold values_num. simpl. rewrite length_app. unfold zlen. lia.
  - destruct (Z.leb_spec (Z.of_nat (length (v_values v)) + zlen l) (v_alloc v)); [|lia].
    eexists; split_and!; [done| |done]. unfold zlen in *. split; simpl; unfold values_num; simpl.
    + rewrite length_app. lia.
    + intros E. destruct (Hn E) as [Ev Ea]. rewrite Ev in *. split; [|done]. destruct l; [done|]. simpl in *. lia.
Qed.

Lemma vec_remove_ok v i x :
  v_ok v -> v_values v !! i = Some x ->
  exists v', zbx_vector_remove v (Z.of_nat i) = Ret v' /\ v_ok v' /\ v_values v' = delete i (v_values v).
Proof.
  intros [Hs Hn] Hi. pose proof (lookup_lt_Some _ _ _ Hi) as Hlt. unfold zbx_vector_remove, values_num, move in *.
  destruct (Z.leb_spec 0 (Z.of_nat i)), (Z.ltb_spec (Z.of_nat i) (Z.of_nat (length (v_values v)))); try lia. simpl.
  rewrite Nat2Z.id. rewrite decide_True by lia. cbn [mbind res_mbind].
  eexists; split_and!; [done| |].
  - split; simpl.
    + unfold values_num. simpl. rewrite length_take. lia.
    + intros E. destruct (Hn E) as [Ev _]. by rewrite Ev in Hi.
  - simpl. rewrite delete_take_drop.
    rewrite (take_ge (drop (S i) (v_values v))) by (rewrite length_drop; lia).
    rewrite app_assoc, take_app_le; [|rewrite length_app, length_take, length_drop; lia].
    apply take_ge. rewrite length_app, length_take, length_drop. lia.
Qed.

Lemma remove_noorder_ok v i x :
  v_ok v -> v_values v !! i = Some x ->
  exists v', zbx_vector_remove_noorder v (Z.of_nat i) = Ret v' /\ v_ok v' /\ v_values v ≡ₚ x :: v_values v'.
Proof.
  intros [Hs Hn] Hi. pose proof (lookup_lt_Some _ _ _ Hi) as Hlt. unfold zbx_vector_remove_noorder, values_num in *.
  destruct (Z.leb_spec 0 (Z.of_nat i)), (Z.ltb_spec (Z.of_nat i) (Z.of_nat (length (v_values v)))); try lia. simpl.
  rewrite Nat2Z.id. eexists; split_and!; [done| |by apply swap_remove_perm].
  split; simpl; [unfold values_num; simpl; rewrite swap_remove_length; lia|].
  intros E. destruct (Hn E) as [Ev _]. by rewrite Ev in Hi.
Qed.

Variable compare_func : A -> A -> Z.
#[local] Abbreviation cmpf := compare_func.

(** *** Removing repeated values *)

(** The elements that differ from the one before them. *)
Fixpoint uniq_from (prev : A) (l : list A) : list A :=
  match l with
  | [] => []
  | y :: l => if cmpf prev y =? 0 then uniq_from y l else y :: uniq_from y l
  end.

Definition uniq_ref (l : list A) : list A := match l with [] => [] | x :: l => x :: uniq_from x l end.

Lemma uniq_loop_ok z l w x j :
  l = w ++ x :: z -> (1 <= j <= S (length w))%nat ->
  exists l' j', uniq_loop cmpf (length z) l (S (length w)) j = Ret (l', j') /\ length l' = length l /\
    (j' <= length l)%nat /\ take j' l' = take j l ++ uniq_from x z.
Proof.
  revert l w x j. induction z as [|y z IH]; intros l w x j El Hj; cbn [uniq_loop length].
  { exists l, j. split_and!; [done|done|subst; rewrite length_app; simpl; lia|by rewrite app_nil_r]. }
  rewrite Nat.sub_succ, Nat.sub_0_r.
  assert (l !! length w = Some x) as -> by (subst; by rewrite lookup_app_r, Nat.sub_diag).
  assert (Hy : l !! S (length w) = Some y).
  { subst. rewrite lookup_app_r by lia. by replace (S (length w) - length w)%nat with 1%nat by lia. }
  rewrite Hy. cbn [mbind res_mbind of_opt].
  assert (Hlen : length l = (length w + 2 + length z)%nat) by (subst; rewrite length_app; simpl; lia).
  simpl uniq_from. destruct (Z.eqb_spec (cmpf x y) 0) as [E|E]; cbn [negb].
  - destruct (IH l (w ++ [x]) y j) as (l' & j' & Er & Hl' & Hj' & Ht);
      [by rewrite <- app_assoc|rewrite length_app; simpl; lia|].
    rewrite length_app in Er. simpl in Er. rewrite Nat.add_1_r in Er. eauto 10.
  - assert (Hw : exists w', <[j := y]> l = w' ++ y :: z /\ length w' = S (length w)).
    { exists (take (S (length w)) (<[j := y]> l)). rewrite length_take, length_insert. split; [|lia].
      rewrite <- (take_drop (S (length w)) (<[j := y]> l)) at 1. f_equal.
      assert (E2 : l = (w ++ [x]) ++ y :: z) by (by rewrite <- app_assoc).
      destruct (decide (j = S (length w))) as [->|Hne].
      - rewrite list_insert_id by done. rewrite E2. apply drop_app_length'. rewrite length_app. simpl. lia.
      - rewrite drop_insert_lt by lia. rewrite E2. apply drop_app_length'. rewrite length_app. simpl. lia. }
    destruct Hw as (w' & Ew & Hw').
    destruct (IH (<[j := y]> l) w' y (S j) Ew) as (l' & j' & Er & Hl' & Hj' & Ht); [lia|].
    rewrite Hw' in Er. rewrite length_insert in *. exists l', j'. split_and!; [done..|]. rewrite Ht.
    rewrite (take_S_r _ _ y) by (apply list_lookup_insert_eq; lia). rewrite take_insert_ge by lia.
    by rewrite <- app_assoc.
Qed.

Lemma uniq_ok v :
  v_ok v -> exists v', zbx_vector_uniq cmpf v = Ret v' /\ v_ok v' /\ v_values v' = uniq_ref (v_values v).
Proof.
  intros [Hs Hn]. unfold zbx_vector_uniq, values_num in *. case_decide as D.
  - destruct (v_values v) as [|x z] eqn:Ev; [simpl in D; lia|]. cbn [length] in *.
    replace (S (length z) - 1)%nat with (length z) by lia.
    destruct (uniq_loop_ok z (x :: z) [] x 1 eq_refl ltac:(simpl; lia)) as (l' & j' & E & Hl' & Hj' & Ht).
    simpl length in E. rewrite E. cbn [mbind res_mbind]. eexists; split_and!; [done| |exact Ht].
    split; simpl; [unfold values_num; simpl; rewrite length_take; simpl in *; lia|].
    intros E0. by destruct (Hn E0) as [? _].
  - exists v. split_and!; [done|by split|]. destruct (v_values v) as [|x [|y z]]; simpl in *; try done. lia.
Qed.

(** *** Searching a sorted vector *)

Lemma sorted_lookup {B} (R : B -> B -> Prop) l i j x y :
  StronglySorted R l -> (i < j)%nat -> l !! i = Some x -> l !! j = Some y -> R x y.
Proof using.
  intros Hs. revert i j. induction Hs as [|z l Hs IH Hf]; intros i j Hij Hi Hj; [done|].
  destruct j as [|j]; [lia|]. simpl in Hj. destruct i as [|i]; simpl in Hi.
  - simplify_eq. rewrite Forall_forall in Hf. apply Hf. by eapply list_elem_of_lookup_2.
  - apply (IH i j); [lia|done|done].
Qed.

(** The compare function is a total preorder. *)
Hypothesis cmp_sym : forall a b, 0 < cmpf a b <-> cmpf b a < 0.
Hypothesis cmp_trans : forall a b c, cmpf a b <= 0 -> cmpf b c <= 0 -> cmpf a c <= 0.

#[local] Abbreviation sorted := (StronglySorted (cle cmpf)).

Lemma cmp_eq_sym a b : cmpf a b = 0 -> cmpf b a = 0.
Proof using cmp_sym. intros E. pose proof (cmp_sym a b). pose proof (cmp_sym b a). lia. Qed.

Lemma below_mono a b k : cmpf a b <= 0 -> cmpf b k < 0 -> cmpf a k < 0.
Proof using cmp_sym cmp_trans.
  intros Hab Hbk. assert (cmpf a k <= 0) as [|E]%Zle_lt_or_eq by (apply cmp_trans with b; lia); [done|].
  exfalso. apply cmp_eq_sym in E. pose proof (cmp_trans k a b ltac:(lia) Hab). apply cmp_sym in Hbk. lia.
Qed.

Lemma above_mono a b k : cmpf a b <= 0 -> 0 < cmpf a k -> 0 < cmpf b k.
Proof using cmp_sym cmp_trans.
  intros Hab Hak. destruct (decide (0 < cmpf b k)) as [|Hn]; [done|].
  pose proof (cmp_trans a b k Hab ltac:(lia)). lia.
Qed.

(** Everything before [lo] is below the key, everything from [hi] on above it. *)
Definition bracket (l : list A) (k : A) (lo hi : nat) : Prop :=
  (lo <= hi <= length l)%nat /\
  forall i x, l !! i = Some x -> ((i < lo)%nat -> cmpf x k < 0) /\ ((hi <= i)%nat -> 0 < cmpf x k).

Lemma mid_range lo hi : (lo < hi)%nat -> (lo <= (lo + hi) / 2 < hi)%nat.
Proof using. intros. pose proof (Nat.div_mod_eq (lo + hi) 2). pose proof (Nat.mod_upper_bound (lo + hi) 2). lia. Qed.

Lemma bracket_lo l k lo hi m x :
  sorted l -> bracket l k lo hi -> (lo <= m < hi)%nat -> l !! m = Some x -> cmpf x k < 0 -> bracket l k (S m) hi.
Proof using cmp_sym cmp_trans.
  intros Hs [Hr Hb] Hm Hx Hlt. split; [lia|]. intros i y Hy. split; [|apply Hb, Hy]. intros Hi.
  destruct (decide (i = m)) as [->|]; [by simplify_eq|]. apply (below_mono y x k); [|done].
  apply (sorted_lookup (cle cmpf) l i m); [done|lia|done|done].
Qed.

Lemma bracket_hi l k lo hi m x :
  sorted l -> bracket l k lo hi -> (lo <= m < hi)%nat -> l !! m = Some x -> 0 < cmpf x k -> bracket l k lo m.
Proof using cmp_sym cmp_trans.
  intros Hs [Hr Hb] Hm Hx Hgt. split; [lia|]. intros i y Hy. split; [apply Hb, Hy|]. intros Hi.
  destruct (decide (i = m)) as [->|]; [by simplify_eq|]. apply (above_mono x y k); [|done].
  apply (sorted_lookup (cle cmpf) l m i); [done|lia|done|done].
Qed.

Lemma nearest_ok fuel l k lo hi :
  sorted l -> bracket l k lo hi -> (hi - lo <= fuel)%nat ->
  exists r, nearest_loop cmpf fuel l k lo hi = Ret r /\ (r <= length l)%nat /\
    ((exists x, l !! r = Some x /\ cmpf x k = 0) \/ bracket l k r r).
Proof using cmp_sym cmp_trans.
  intros Hs. revert lo hi. induction fuel as [|fuel IH]; intros lo hi Hb Hf; cbn [nearest_loop].
  { pose proof Hb as [Hr _]. rewrite decide_False by lia. exists hi. split_and!; [done|lia|]. right.
    by replace lo with hi in Hb by lia. }
  pose proof Hb as [Hr _]. case_decide as D.
  2: { exists hi. split_and!; [done|lia|]. right. by replace lo with hi in Hb by lia. }
  pose proof (mid_range lo hi ltac:(lia)) as Hm. set (mid := ((lo + hi) / 2)%nat) in *.
  destruct (lookup_lt_is_Some_2 l mid) as [x Hx]; [lia|]. rewrite Hx. cbn [mbind res_mbind of_opt].
  destruct (Z.ltb_spec (cmpf x k) 0); [|destruct (Z.eqb_spec (cmpf x k) 0)].
  - apply IH; [eapply bracket_lo; eauto|lia].
  - exists mid. split_and!; [done|lia|]. left. eauto.
  - apply IH; [eapply bracket_hi; eauto; lia|lia].
Qed.

Lemma bsearch_ok fuel l k lo hi :
  sorted l -> bracket l k lo hi -> (hi - lo <= fuel)%nat ->
  exists o, bsearch cmpf fuel l k lo hi = Ret o /\
    match o with
    | Some i => exists x, l !! i = Some x /\ cmpf x k = 0
    | None => forall x, x ∈ l -> cmpf x k <> 0
    end.
Proof using cmp_sym cmp_trans.
  intros Hs. assert (base : forall lo hi, bracket l k lo hi -> ~ (lo < hi)%nat -> forall x, x ∈ l -> cmpf x k <> 0).
  { intros lo' hi' [Hr Hb] Hn x [i Hi]%list_elem_of_lookup. destruct (Hb i x Hi) as [H1 H2].
    destruct (decide (i < lo')%nat); [specialize (H1 ltac:(done)); lia|specialize (H2 ltac:(lia)); lia]. }
  revert lo hi. induction fuel as [|fuel IH]; intros lo hi Hb Hf; cbn [bsearch].
  { rewrite decide_False by lia. exists None. split; [done|]. apply (base lo hi Hb). lia. }
  case_decide as D; [|exists None; split; [done|]; by apply (base lo hi Hb)].
  pose proof Hb as [Hr _]. pose proof (mid_range lo hi D) as Hm. set (mid := ((lo + hi) / 2)%nat) in *.
  destruct (lookup_lt_is_Some_2 l mid) as [x Hx]; [lia|]. rewrite Hx. cbn [mbind res_mbind of_opt].
  pose proof (cmp_sym k x). pose proof (cmp_sym x k).
  destruct (Z.ltb_spec (cmpf k x) 0); [|destruct (Z.eqb_spec (cmpf k x) 0)].
  - apply IH; [eapply bracket_hi; eauto; lia|lia].
  - exists (Some mid). split; [done|]. exists x. split; [done|]. lia.
  - apply IH; [eapply bracket_lo; eauto; lia|lia].
Qed.

Lemma bracket_init l k : bracket l k 0 (length l).
Proof using. split; [lia|]. intros i x Hx%lookup_lt_Some. lia. Qed.

(** *** Set difference *)

(** The difference of two sequences by merging them. *)
Fixpoint setdiff_ref (l : list A) : list A -> list A :=
  fix diff (r : list A) : list A :=
    match l, r with
    | [], _ => []
    | _, [] => l
    | x :: l', y :: r' =>
        if cmpf x y <? 0 then x :: setdiff_ref l' r
        else if cmpf x y =? 0 then setdiff_ref l' r' else diff r'
    end.

Lemma setdiff_ref_nil l : setdiff_ref l [] = l.
Proof using. by destruct l. Qed.

Lemma setdiff_ref_cons x l y r :
  setdiff_ref (x :: l) (y :: r) =
    if cmpf x y <? 0 then x :: setdiff_ref l (y :: r)
    else if cmpf x y =? 0 then setdiff_ref l r else setdiff_ref (x :: l) r.
Proof using. done. Qed.

(** Moving the block [k] over the gap [m]. *)
Lemma move_block (r m k t : list A) :
  exists m', move (r ++ m ++ k ++ t) (length r) (length r + length m) (length k) = Ret (r ++ k ++ m' ++ t) /\
    length m' = length m.
Proof using.
  unfold move. rewrite !length_app. rewrite decide_True by lia. exists (drop (length k) (m ++ k)).
  split; [|rewrite length_drop, length_app; lia]. f_equal. rewrite take_app_length. f_equal.
  rewrite drop_app_add, drop_app_add. rewrite drop_app_length, take_app_length. f_equal.
  rewrite (assoc_L (++)), drop_app_le; [done|rewrite length_app; lia].
Qed.

Lemma setdiff_loop_ok fuel r m k t right rdone rrest :
  right = rdone ++ rrest -> (m = [] -> r = []) -> (length t + length rrest <= fuel)%nat ->
  exists r' m' k', setdiff_loop cmpf fuel (r ++ m ++ k ++ t) right (length (r ++ m)) (length m)
      (length (r ++ m ++ k)) (length rdone) = Ret (r' ++ m' ++ k', length (r' ++ m'), length m') /\
    r' ++ k' = r ++ k ++ setdiff_ref t rrest /\ (m' = [] -> r' = []) /\
    length (r' ++ m' ++ k') = length (r ++ m ++ k ++ t) /\ (length m <= length m')%nat /\
    (m' = [] -> r' ++ m' ++ k' = r ++ m ++ k ++ t).
Proof using.
  revert r m k t rdone rrest. induction fuel as [|fuel IH]; intros r m k t rdone rrest Er Hm Hf.
  { destruct t; [|simpl in Hf; lia]. destruct rrest; [|simpl in Hf; lia]. cbn [setdiff_loop].
    rewrite app_nil_r. rewrite (lookup_ge_None_2 (r ++ m ++ k)) by done. exists r, m, k. by rewrite app_nil_r. }
  cbn [setdiff_loop]. destruct t as [|x t].
  { rewrite app_nil_r. rewrite (lookup_ge_None_2 (r ++ m ++ k)) by done. exists r, m, k.
    split_and!; try done. destruct rrest; simpl; by rewrite app_nil_r. }
  assert (Hx : (r ++ m ++ k ++ x :: t) !! length (r ++ m ++ k) = Some x).
  { replace (r ++ m ++ k ++ x :: t) with ((r ++ m ++ k) ++ x :: t) by (by rewrite <- !(assoc_L (++))).
    by rewrite lookup_app_r, Nat.sub_diag. }
  rewrite Hx. destruct rrest as [|y rrest].
  { rewrite (lookup_ge_None_2 right) by (by subst; rewrite app_nil_r). exists r, m, (k ++ x :: t).
    split_and!; try done. }
  assert (right !! length rdone = Some y) as -> by (subst; by rewrite lookup_app_r, Nat.sub_diag).
  rewrite setdiff_ref_cons. simpl in Hf.
  assert (Er' : right = (rdone ++ [y]) ++ rrest) by (by rewrite <- app_assoc).
  destruct (Z.ltb_spec (cmpf x y) 0) as [Hlt|Hge].
  - destruct (Z.leb_spec (cmpf x y) 0), (Z.leb_spec 0 (cmpf x y)), (Z.eqb_spec (cmpf x y) 0); try lia. cbn [negb].
    destruct (IH r m (k ++ [x]) t rdone (y :: rrest) Er Hm ltac:(simpl; lia)) as (r' & m' & k' & E & Ek & Hm' & Hl & Hg & Hu).
    replace (length (r ++ m ++ k ++ [x])) with (S (length (r ++ m ++ k))) in E by (rewrite !length_app; simpl; lia).
    rewrite <- (assoc_L (++)) in E, Ek, Hl, Hu. simpl in E, Ek, Hl, Hu. eauto 10.
  - destruct (Z.leb_spec 0 (cmpf x y)); [|lia]. destruct (Z.eqb_spec (cmpf x y) 0) as [E0|E0]; cbn [negb].
    + destruct (Z.leb_spec (cmpf x y) 0); [|lia].
      assert (Hmv : exists m2, (if decide (0 < length m)%nat
        then move (r ++ m ++ k ++ x :: t) (length (r ++ m) + 1 - S (length m)) (length (r ++ m)) (S (length (r ++ m ++ k)) - 1 - length (r ++ m))
        else Ret (r ++ m ++ k ++ x :: t)) = Ret (r ++ k ++ m2 ++ x :: t) /\ length m2 = length m).
      { case_decide as D.
        - destruct (move_block r m k (x :: t)) as (m2 & Em & Hm2). exists m2. split; [|done]. rewrite <- Em.
          f_equal; rewrite !length_app; lia.
        - exists []. destruct m; [|simpl in D; lia]. rewrite Hm by done. done. }
      destruct Hmv as (m2 & -> & Hm2). cbn [mbind res_mbind].
      destruct (IH (r ++ k) (m2 ++ [x]) [] t (rdone ++ [y]) rrest Er') as (r' & m' & k' & E & Ek & Hm' & Hl & Hg & Hu);
        [by destruct m2|lia|].
      exists r', m', k'. split_and!; [|by rewrite Ek, <- (assoc_L (++))|done|..].
      * rewrite <- E. f_equal; try (rewrite ?length_app; simpl; rewrite ?length_app; simpl; lia). by rewrite <- !(assoc_L (++)).
      * rewrite Hl, !length_app. simpl. lia.
      * rewrite length_app in Hg. simpl in Hg. lia.
      * intros ->. rewrite length_app in Hg. simpl in Hg. lia.
    + destruct (Z.leb_spec (cmpf x y) 0); [lia|].
      destruct (IH r m k (x :: t) (rdone ++ [y]) rrest Er' Hm ltac:(simpl; lia)) as (r' & m' & k' & E & Ek & Hm' & Hl & Hg & Hu).
      replace (length (rdone ++ [y])) with (S (length rdone)) in E by (rewrite length_app; simpl; lia). eauto 10.
Qed.

Lemma setdiff_ok v right :
  v_ok v -> exists v', zbx_vector_setdiff cmpf v right = Ret v' /\ v_ok v' /\
    v_values v' = setdiff_ref (v_values v) (v_values right).
Proof using.
  intros [Hs Hn]. unfold zbx_vector_setdiff.
  destruct (setdiff_loop_ok (values_num v + values_num right) [] [] [] (v_values v) (v_values right) [] (v_values right)
    eq_refl ltac:(done) ltac:(unfold values_num; lia)) as (r & m & k & E & Ek & Hm & Hl & _ & Hu).
  simpl in E, Ek, Hl, Hu. rewrite E. cbn [mbind res_mbind]. rewrite <- Ek. case_decide as D.
  - destruct (move_block r m k []) as (m' & Em & Hm'). rewrite !app_nil_r in Em.
    replace (length (r ++ m) - length m)%nat with (length r) by (rewrite length_app; lia).
    replace (length (r ++ m ++ k) - length (r ++ m))%nat with (length k) by (rewrite !length_app; lia).
    rewrite length_app, Em. cbn [mbind res_mbind]. eexists; split_and!; [done| |].
    + split; simpl; [unfold values_num in *; simpl; rewrite length_take, <- Hl, ?length_app in *; lia|].
      intros En. destruct (Hn En) as [Ev Ea]. split; [|done]. rewrite Ev in Hl. rewrite !length_app in Hl. simpl in Hl.
      destruct r, m, k; simpl in *; try lia. 
    + simpl. rewrite (assoc_L (++)), take_app_length'; [done|]. rewrite !length_app. lia.
  - exists v. split_and!; [done|by split|]. destruct m; [|simpl in D; lia]. rewrite <- Hu by done. simpl. by rewrite Hm.
Qed.

(** On strictly sorted sequences the merge keeps what is not on the right. *)
Definition clt (a b : A) : Prop := cmpf a b < 0.

Lemma setdiff_ref_filter l r :
  StronglySorted clt l -> StronglySorted clt r ->
  setdiff_ref l r = filter (fun x => Forall (fun y => cmpf x y <> 0) r) l.
Proof using cmp_sym cmp_trans.
  intros Hl Hr. revert r Hr. induction Hl as [|x l Hl IHl Hx]; intros r Hr; [by destruct r|].
  induction Hr as [|y r Hr IHr Hy].
  { rewrite setdiff_ref_nil, filter_all; [done|]. intros. constructor. }
  rewrite Forall_forall in Hx, Hy. rewrite setdiff_ref_cons. destruct (Z.ltb_spec (cmpf x y) 0) as [Hlt|Hge].
  - rewrite filter_cons_True; [f_equal; apply IHl; by constructor; [|apply Forall_forall]|].
    constructor; [lia|]. apply Forall_forall. intros z Hz.
    pose proof (below_mono x y z ltac:(lia) (Hy z Hz)). lia.
  - assert (Hgt : forall z, z ∈ l -> 0 < cmpf z y).
    { intros z Hz. apply cmp_sym. apply (below_mono y x z); [|by apply Hx]. pose proof (cmp_sym y x). lia. }
    assert (Hskip : filter (fun z => Forall (fun w => cmpf z w <> 0) (y :: r)) l =
      filter (fun z => Forall (fun w => cmpf z w <> 0) r) l).
    { apply filter_ext_in. intros z Hz. rewrite Forall_cons. pose proof (Hgt z Hz). split; [tauto|]. split; [lia|done]. }
    destruct (Z.eqb_spec (cmpf x y) 0) as [E|E].
    + rewrite filter_cons_False by (intros [? _]%Forall_cons; done). rewrite Hskip. by apply IHl.
    + rewrite IHr, !filter_cons, Hskip. apply reflexive_eq.
      destruct (decide (Forall (fun w => cmpf x w <> 0) (y :: r))) as [F|F]; destruct (decide (Forall (fun w => cmpf x w <> 0) r)) as [G|G]; try done.
      * apply Forall_cons in F. tauto.
      * destruct F. by constructor.
Qed.

Lemma merge_sort_ok v :
  v_ok v -> v_ok (zbx_vector_sort cmpf v) /\ v_values (zbx_vector_sort cmpf v) ≡ₚ v_values v /\
  sorted (v_values (zbx_vector_sort cmpf v)).
Proof using cmp_sym cmp_trans.
  intros [Hs Hn]. unfold zbx_vector_sort, values_num in *. case_decide as D.
  - pose proof (merge_sort_Permutation (cle cmpf) (v_values v)) as P. split_and!; [|done|].
    + split; simpl; [unfold values_num; simpl; by rewrite P|]. intros E. destruct (Hn E) as [Ev _]. rewrite Ev in D. simpl in D. lia.
    + apply Sorted_StronglySorted; [intros a b c; apply cmp_trans|]. apply Sorted_merge_sort.
      intros a b. unfold cle. pose proof (cmp_sym a b). destruct (decide (cmpf a b <= 0)); [by left|right; lia].
  - split_and!; [done|done|]. destruct (v_values v) as [|x [|y l]]; simpl in D; [constructor|by repeat constructor|lia].
Qed.

End theory.

(** ** Properties *)

Section properties.
Context {A : Type}.
Variable cmpf : A -> A -> Z.
Implicit Types v : vector A.

(** Searching a sorted vector.  [nearestindex] ends and returns the index
    of an equal element, or when there is none the index that separates the
    smaller from the larger elements; [bsearch] returns the index of an equal
    element, or FAIL exactly when there is none. *)
Theorem vector_search_correct v k :
  (forall a b, 0 < cmpf a b <-> cmpf b a < 0) ->
  (forall a b c, cmpf a b <= 0 -> cmpf b c <= 0 -> cmpf a c <= 0) ->
  StronglySorted (cle cmpf) (v_values v) ->
  (exists r, zbx_vector_nearestindex cmpf v k = Ret r /\ (r <= values_num v)%nat /\
     ((exists x, v_values v !! r = Some x /\ cmpf x k = 0) \/
      (forall i x, v_values v !! i = Some x -> ((i < r)%nat -> cmpf x k < 0) /\ ((r <= i)%nat -> 0 < cmpf x k)))) /\
  (exists i, zbx_vector_bsearch cmpf v k = Ret i /\
     ((i = FAIL /\ forall x, x ∈ v_values v -> cmpf x k <> 0) \/
      (exists n x, i = Z.of_nat n /\ v_values v !! n = Some x /\ cmpf x k = 0))).
Proof.
  intros Hsym Htr Hs. split.
  - destruct (nearest_ok cmpf Hsym Htr (values_num v) (v_values v) k 0 (values_num v) Hs (bracket_init cmpf _ k))
      as (r & E & Hr & [Hx|[_ Hb]]); [lia|..]; exists r; split_and!; auto.
  - unfold zbx_vector_bsearch.
    destruct (bsearch_ok cmpf Hsym Htr (values_num v) (v_values v) k 0 (values_num v) Hs (bracket_init cmpf _ k))
      as (o & -> & Ho); [lia|]. cbn [mbind res_mbind]. eexists; split; [done|].
    destruct o as [i|]; [right|by left]. destruct Ho as (x & ? & ?). eauto.
Qed.

(** The in-place set difference of two vectors is the difference computed
    by merging; on strictly sorted vectors it keeps exactly the elements
    without an equal one on the right, in order. *)
Theorem vector_setdiff_correct v right :
  (forall a b, 0 < cmpf a b <-> cmpf b a < 0) ->
  (forall a b c, cmpf a b <= 0 -> cmpf b c <= 0 -> cmpf a c <= 0) ->
  v_ok v ->
  exists v', zbx_vector_setdiff cmpf v right = Ret v' /\ v_ok v' /\
    v_values v' = setdiff_ref cmpf (v_values v) (v_values right) /\
    (StronglySorted (clt cmpf) (v_values v) -> StronglySorted (clt cmpf) (v_values right) ->
     v_values v' = filter (fun x => Forall (fun y => cmpf x y <> 0) (v_values right)) (v_values v)).
Proof.
  intros Hsym Htr Hv. destruct (setdiff_ok cmpf v right Hv) as (v' & E & Hv' & Er).
  exists v'. split_and!; [done..|]. intros Hl Hr. rewrite Er. by apply setdiff_ref_filter.
Qed.

(** The other changes of a vector: appending, removing with and without
    keeping the order, sorting to a sorted permutation, and dropping repeated
    neighbours in place, which keeps the first of every run. *)
Theorem vector_update_correct v :
  (forall a b, 0 < cmpf a b <-> cmpf b a < 0) ->
  (forall a b c, cmpf a b <= 0 -> cmpf b c <= 0 -> cmpf a c <= 0) ->
  v_ok v ->
  (forall x, exists v', zbx_vector_append v x = Ret v' /\ v_ok v' /\ v_values v' = v_values v ++ [x]) /\
  (forall l, exists v', zbx_vector_append_array v l = Ret v' /\ v_ok v' /\ v_values v' = v_values v ++ l) /\
  (forall i x, v_values v !! i = Some x ->
     (exists v', zbx_vector_remove v (Z.of_nat i) = Ret v' /\ v_ok v' /\ v_values v' = delete i (v_values v)) /\
     (exists v', zbx_vector_remove_noorder v (Z.of_nat i) = Ret v' /\ v_ok v' /\ v_values v ≡ₚ x :: v_values v')) /\
  (v_ok (zbx_vector_sort cmpf v) /\ v_values (zbx_vector_sort cmpf v) ≡ₚ v_values v /\
   StronglySorted (cle cmpf) (v_values (zbx_vector_sort cmpf v))) /\
  (exists v', zbx_vector_uniq cmpf v = Ret v' /\ v_ok v' /\ v_values v' = uniq_ref cmpf (v_values v)).
Proof.
  intros Hsym Htr Hv. split_and!.
  - intros x. by apply vec_append_ok.
  - intros l. by apply append_array_ok.
  - intros i x Hx. split; [by eapply vec_remove_ok|by apply remove_noorder_ok].
  - by apply merge_sort_ok.
  - by apply merge_sort_ok.
  - by apply merge_sort_ok.
  - by apply uniq_ok.
Qed.

End properties.

(** Witnesses, on vectors of 64-bit identifiers. *)

Lemma cmp_sign a b : 0 < cmp a b <-> cmp b a < 0.
Proof. unfold cmp. repeat case_match; unbool; lia. Qed.

Lemma cmp_le_trans a b c : cmp a b <= 0 -> cmp b c <= 0 -> cmp a c <= 0.
Proof. rewrite !cmp_le. lia. Qed.

Definition vec5 : vector Z := Vector [1; 3; 5; 7; 9] 32 false.
Definition vec2 : vector Z := Vector [3; 7] 32 false.

Lemma vec5_ok : v_ok vec5.
Proof. split; [vm_compute; congruence|done]. Qed.

Lemma vec5_sorted : StronglySorted (cle cmp) (v_values vec5).
Proof. apply Sorted_StronglySorted; [intros a b c; apply cmp_le_trans|]. repeat constructor; vm_compute; congruence. Qed.

Lemma vector_search_witness :
  exists i, zbx_vector_bsearch cmp vec5 7 = Ret i /\
     ((i = FAIL /\ forall x, x ∈ v_values vec5 -> cmp x 7 <> 0) \/
      (exists n x, i = Z.of_nat n /\ v_values vec5 !! n = Some x /\ cmp x 7 = 0)).
Proof. apply (vector_search_correct cmp vec5 7 cmp_sign cmp_le_trans vec5_sorted). Defined.

Lemma vector_setdiff_witness :
  exists v', zbx_vector_setdiff cmp vec5 vec2 = Ret v' /\ v_ok v' /\
    v_values v' = setdiff_ref cmp (v_values vec5) (v_values vec2) /\
    (StronglySorted (clt cmp) (v_values vec5) -> StronglySorted (clt cmp) (v_values vec2) ->
     v_values v' = filter (fun x => Forall (fun y => cmp x y <> 0) (v_values vec2)) (v_values vec5)).
Proof. apply (vector_setdiff_correct cmp vec5 vec2 cmp_sign cmp_le_trans vec5_ok). Defined.

Lemma vector_update_witness :
  exists v', zbx_vector_append vec5 11 = Ret v' /\ v_ok v' /\ v_values v' = [1; 3; 5; 7; 9; 11].
Proof. apply (vector_update_correct cmp vec5 cmp_sign cmp_le_trans vec5_ok). Defined.

Example vector_run :
  (v_values <$> match zbx_vector_setdiff cmp vec5 vec2 with Ret v => Some v | Halt _ => None end) = Some [1; 5; 9] /\
  zbx_vector_nearestindex cmp vec5 6 = Ret 3%nat /\
  (v_values <$> match zbx_vector_uniq cmp (zbx_vector_sort cmp (Vector [4; 2; 4; 1; 2] 8 false)) with
     Ret v => Some v | Halt _ => None end) = Some [1; 2; 4].
Proof. vm_compute. done. Qed.
