(* ===== verification/ElemsHash.v ===== *)
(** * Hash of state elements (src/libs/zbxalgo/elems_hash.c)

    The tables of items, hosts, triggers and other objects the state library
    keeps in shared memory.  The underlying hash set is keyed by the element
    id; Hashset shows that such a set behaves as a finite map, and a map from
    ids to elements is what is modelled here.  An operation runs with the
    table locked, so that operations are atomic; callbacks, which may be any
    code, are parameters that return the changed element, the changed
    parameters and the return value ([None] when the callback ends without a
    return statement). *)
From stdpp Require Import prelude list gmap.
From Stdlib Require Import ZArith Lia.
From S2P Require Import Prelude.
#[local] Open Scope Z_scope.

Definition ELEM_FLAG_DO_NOT_CREATE : Z := 1.
Definition ELEM_FLAG_DELETE : Z := 2.
Definition ELEMS_HASH_WRITE : Z := 16.

Record eelem (D : Type) := EElem { e_flags : Z; e_data : D }.
Arguments EElem {D} _ _.
Arguments e_flags {D} _.
Arguments e_data {D} _.

Section model.
Context {D : Type}.
#[local] Abbreviation elems_hash := (gmap Z (eelem D)).

Definition elems_hash_init : elems_hash := ∅.

Definition delete_element (elems : elems_hash) (id : Z) : elems_hash := delete id elems.

(** The data of all elements, which the free function gets, and the table
    after it. *)
Definition elems_hash_destroy (elems : elems_hash) : elems_hash * list (eelem D) := (∅, (map_to_list elems).*2).

(** [new_data] is what the create function stores in a new element. *)
Definition create_element (elems : elems_hash) (id : Z) (new_data : D) : option elems_hash :=
  match elems !! id with
  | None => Some (<[id := EElem 0 new_data]> elems)
  | Some _ => None
  end.

Section process.
Context {P : Type}.
Variable process_func : eelem D -> P -> res (eelem D * P * option Z).

(** The part after the element was found or created. *)
Definition process_element (elems : elems_hash) (id : Z) (elem : eelem D) (params : P) :
    res (elems_hash * P * option Z) :=
  '(elem, params, ret) ← process_func elem params;
  let elems := <[id := elem]> elems in
  if 1 =? Z.land (e_flags elem) ELEM_FLAG_DELETE then Ret (delete_element elems id, params, ret)
  else Ret (elems, params, ret).

Definition elems_hash_process (elems : elems_hash) (id : Z) (new_data : D) (params : P) (flags : Z) :
    res (elems_hash * P * option Z) :=
  match elems !! id with
  | None =>
      if 1 =? Z.land flags ELEM_FLAG_DO_NOT_CREATE then Ret (elems, params, Some FAIL)
      else match create_element elems id new_data with
           | None => Ret (elems, params, Some FAIL)
           | Some elems => elem ← of_opt BadAccess (elems !! id); process_element elems id elem params
           end
  | Some elem => process_element elems id elem params
  end.

(** The callback gets the element and its id. *)
Variable iter_func : Z -> eelem D -> P -> res (eelem D * P * option Z).

Fixpoint iterate_ids (ids : list Z) (elems : elems_hash) (params : P) (count : Z) : res (elems_hash * P * Z) :=
  match ids with
  | [] => Ret (elems, params, count)
  | id :: ids =>
      elem ← of_opt BadAccess (elems !! id);
      '(elem, params, _) ← iter_func id elem params;
      iterate_ids ids (<[id := elem]> elems) params (count + 1)
  end.

Definition elems_hash_iterate (elems : elems_hash) (params : P) : res (elems_hash * P * Z) :=
  iterate_ids (map_to_list elems).*1 elems params 0.

End process.

Definition elems_hash_delete (elems : elems_hash) (id : Z) : elems_hash * Z :=
  match elems !! id with
  | Some _ => (delete_element elems id, SUCCEED)
  | None => (elems, FAIL)
  end.

(** The [if] of the loop guards an empty statement, so [delete_element] also
    runs for an id that is not there, on a NULL element. *)
Fixpoint mass_delete_loop (elems : elems_hash) (ids : list Z) (count : Z) : res (elems_hash * Z) :=
  match ids with
  | [] => Ret (elems, count)
  | id :: ids =>
      _ ← of_opt BadAccess (elems !! id);
      mass_delete_loop (delete_element elems id) ids (count + 1)
  end.

Definition elems_hash_mass_delete (elems : elems_hash) (ids : list Z) : res (elems_hash * Z) :=
  if decide (ids = []) then Ret (elems, 0) else mass_delete_loop elems ids 0.

Definition elems_hash_get_num (elems : elems_hash) : Z := Z.of_nat (size elems).

Definition elems_hash_id_exists (elems : elems_hash) (id : Z) : Z :=
  match elems !! id with Some _ => SUCCEED | None => FAIL end.

(** The old table gets the new content; the old content, now in the new
    table, is destroyed. *)
Definition elems_hash_replace (old_elems new_elems : elems_hash) : elems_hash * list (eelem D) :=
  (new_elems, (elems_hash_destroy old_elems).2).

Section update.
(** [update_func elem elem_new]: the element with the content of the new one. *)
Variable update_func : eelem D -> eelem D -> eelem D.
Variable new_data : D.

(** [update_process_func_cb]: [elem] is the new element, [old] the element of
    the updated table. *)
Definition update_process_func_cb (elem : eelem D) (old : eelem D) : res (eelem D * eelem D * option Z) :=
  Ret (elem, update_func old elem, None).

Definition addnew_func_cb (elem : eelem D) (fresh : eelem D) : res (eelem D * eelem D * option Z) :=
  Ret (update_func elem fresh, fresh, None).

Definition update_delete_func_cb (id : Z) (elem : eelem D) (new_elems : elems_hash) :
    res (eelem D * elems_hash * option Z) :=
  if elems_hash_id_exists new_elems id =? FAIL then Ret (EElem ELEM_FLAG_DELETE (e_data elem), new_elems, Some SUCCEED)
  else
    '(new_elems, elem, _) ← elems_hash_process update_process_func_cb new_elems id new_data elem 0;
    Ret (elem, new_elems, None).

Definition add_new_func_cb (id : Z) (elem : eelem D) (elems : elems_hash) : res (eelem D * elems_hash * option Z) :=
  if elems_hash_id_exists elems id =? FAIL then
    '(elems, elem, _) ← elems_hash_process addnew_func_cb elems id new_data elem 0;
    Ret (elem, elems, None)
  else Ret (elem, elems, None).

Definition elems_hash_update (elems new_elems : elems_hash) : res (elems_hash * elems_hash) :=
  '(elems, new_elems, _) ← elems_hash_iterate update_delete_func_cb elems new_elems;
  '(new_elems, elems, _) ← elems_hash_iterate add_new_func_cb new_elems elems;
  Ret (elems, new_elems).

End update.

End model.

(** ** Theory *)

Section theory.
Context {D : Type}.
#[local] Abbreviation elems_hash := (gmap Z (eelem D)).
Implicit Types elems : elems_hash.

(** The deletion test of [elems_hash_process] compares with 1 a value that
    is 0 or 2: it never holds. *)
Lemma delete_test_false f : (1 =? Z.land f ELEM_FLAG_DELETE) = false.
Proof.
  apply Z.eqb_neq. intros E. apply (f_equal (fun x => Z.testbit x 0)) in E.
  rewrite Z.land_spec in E. unfold ELEM_FLAG_DELETE in E. simpl in E. by rewrite andb_false_r in E.
Qed.

Lemma process_element_ok {P} (f : eelem D -> P -> res (eelem D * P * option Z)) elems id elem params elem' params' ret :
  f elem params = Ret (elem', params', ret) ->
  process_element f elems id elem params = Ret (<[id := elem']> elems, params', ret).
Proof. intros E. unfold process_element. rewrite E. cbn [mbind res_mbind]. by rewrite delete_test_false. Qed.

Lemma process_present {P} (f : eelem D -> P -> res (eelem D * P * option Z)) elems id nd elem params flags elem' params' ret :
  elems !! id = Some elem -> f elem params = Ret (elem', params', ret) ->
  elems_hash_process f elems id nd params flags = Ret (<[id := elem']> elems, params', ret).
Proof. intros He Ef. unfold elems_hash_process. rewrite He. by apply process_element_ok. Qed.

Lemma process_create {P} (f : eelem D -> P -> res (eelem D * P * option Z)) elems id nd params elem' params' ret :
  elems !! id = None -> f (EElem 0 nd) params = Ret (elem', params', ret) ->
  elems_hash_process f elems id nd params 0 = Ret (<[id := elem']> elems, params', ret).
Proof.
  intros He Ef. unfold elems_hash_process, create_element. rewrite He. simpl (_ =? _). cbv iota. rewrite lookup_insert_eq.
  cbn [mbind res_mbind of_opt]. rewrite (process_element_ok f _ _ _ _ _ _ _ Ef). by rewrite insert_insert_eq.
Qed.

Lemma process_absent {P} (f : eelem D -> P -> res (eelem D * P * option Z)) elems id nd params :
  elems !! id = None ->
  elems_hash_process f elems id nd params ELEM_FLAG_DO_NOT_CREATE = Ret (elems, params, Some FAIL).
Proof. intros He. unfold elems_hash_process. by rewrite He. Qed.

(** Iteration whose callback depends on the parameters through an invariant
    [I] and changes the element with [g]. *)
Lemma iterate_ids_ok {P} (f : Z -> eelem D -> P -> res (eelem D * P * option Z)) (g : Z -> eelem D -> eelem D)
    (step : Z -> eelem D -> P -> P) (I : P -> Prop) ids elems params n :
  NoDup ids -> (forall id, id ∈ ids -> is_Some (elems !! id)) -> I params ->
  (forall id e p, I p -> exists r, f id e p = Ret (g id e, step id e p, r) /\ I (step id e p)) ->
  exists elems' params', iterate_ids f ids elems params n = Ret (elems', params', n + zlen ids) /\
    params' = fold_left (fun p id => match elems !! id with Some e => step id e p | None => p end) ids params /\
    I params' /\
    forall id, elems' !! id = if decide (id ∈ ids) then g id <$> elems !! id else elems !! id.
Proof.
  intros ND Hin HI Hf. revert elems params n ND Hin HI. induction ids as [|i ids IH]; intros elems params n ND Hin HI.
  { exists elems, params. split_and!; [cbn [iterate_ids]; f_equal; f_equal; lens|done|done|]. intros id. by rewrite decide_False by apply not_elem_of_nil. }
  cbn [iterate_ids]. destruct (Hin i) as [e He]; [by left|]. rewrite He. cbn [mbind res_mbind of_opt].
  destruct (Hf i e params HI) as (r & -> & HI'). cbn [mbind res_mbind]. apply NoDup_cons in ND as [Hi ND].
  destruct (IH (<[i := g i e]> elems) (step i e params) (n + 1) ND) as (elems' & params' & -> & Ep & HI2 & Hl); [|done|].
  { intros id Hid. rewrite lookup_insert. case_decide; [done|]. apply Hin. by right. }
  exists elems', params'. split_and!; [f_equal; f_equal; lens| |done|].
  - rewrite Ep. simpl. rewrite He. assert (Hg : forall q, fold_left (fun p id => match <[i := g i e]> elems !! id with
      Some e => step id e p | None => p end) ids q = fold_left (fun p id => match elems !! id with Some e => step id e p | None => p end) ids q).
    { clear -Hi. induction ids as [|j ids IH]; intros q; simpl; [done|]. rewrite not_elem_of_cons in Hi.
      rewrite lookup_insert_ne by tauto. apply IH. tauto. }
    apply Hg.
  - intros id. rewrite Hl. rewrite lookup_insert. destruct (decide (i = id)) as [<-|Hne].
    + rewrite decide_False by done. rewrite decide_True by (by left). by rewrite He.
    + destruct (decide (id ∈ ids)); [rewrite decide_True by (by right); done|].
      rewrite decide_False; [done|]. rewrite not_elem_of_cons. split; [congruence|done].
Qed.

Lemma keys_nodup elems : NoDup (map_to_list elems).*1.
Proof. apply NoDup_fst_map_to_list. Qed.

Lemma elem_of_keys elems id : id ∈ (map_to_list elems).*1 <-> is_Some (elems !! id).
Proof.
  rewrite list_elem_of_fmap. split.
  - intros ([k e] & -> & H%elem_of_map_to_list). by exists e.
  - intros [e He]. exists (id, e). split; [done|]. by apply elem_of_map_to_list.
Qed.

(** An iteration over a whole table. *)
Lemma iterate_ok {P} (f : Z -> eelem D -> P -> res (eelem D * P * option Z)) (g : Z -> eelem D -> eelem D)
    (step : Z -> eelem D -> P -> P) (I : P -> Prop) elems params :
  I params ->
  (forall id e p, I p -> exists r, f id e p = Ret (g id e, step id e p, r) /\ I (step id e p)) ->
  exists elems' params', elems_hash_iterate f elems params = Ret (elems', params', Z.of_nat (size elems)) /\
    params' = fold_left (fun p id => match elems !! id with Some e => step id e p | None => p end)
      (map_to_list elems).*1 params /\
    I params' /\ elems' = map_imap (fun id e => Some (g id e)) elems.
Proof.
  intros HI Hf. unfold elems_hash_iterate.
  destruct (iterate_ids_ok f g step I (map_to_list elems).*1 elems params 0 (keys_nodup elems)) as (elems' & params' & E & Ep & HI' & Hl);
    [intros id; apply elem_of_keys|done|done|].
  exists elems', params'. rewrite E. split_and!; [|done|done|].
  - unfold zlen. rewrite length_fmap, length_map_to_list. done.
  - apply map_eq. intros id. rewrite Hl, map_lookup_imap. destruct (elems !! id) as [e|] eqn:He; simpl.
    + by rewrite decide_True by (apply elem_of_keys; by rewrite He).
    + by destruct (decide _).
Qed.

Section update.
Variable upd : eelem D -> eelem D -> eelem D.
Variable nd : D.

Lemma update_delete_step (new : elems_hash) id e :
  exists r, update_delete_func_cb upd nd id e new =
    Ret (match new !! id with Some n => upd e n | None => EElem ELEM_FLAG_DELETE (e_data e) end, new, r).
Proof.
  unfold update_delete_func_cb, elems_hash_id_exists. destruct (new !! id) as [n|] eqn:En; [|by eexists].
  simpl (_ =? _). cbv iota. rewrite (process_present _ new id nd n e 0 n (upd e n) None En) by done.
  cbn [mbind res_mbind]. rewrite insert_id by done. by eexists.
Qed.

Lemma add_new_step (elems : elems_hash) id n :
  exists r, add_new_func_cb upd nd id n elems =
    Ret (n, match elems !! id with Some _ => elems | None => <[id := upd (EElem 0 nd) n]> elems end, r).
Proof.
  unfold add_new_func_cb, elems_hash_id_exists. destruct (elems !! id) as [e|] eqn:Ee; simpl (_ =? _); cbv iota; [by eexists|].
  rewrite (process_create _ elems id nd n (upd (EElem 0 nd) n) n None Ee) by done. cbn [mbind res_mbind]. by eexists.
Qed.

Lemma add_new_fold (new : elems_hash) ids (elems : elems_hash) :
  NoDup ids ->
  forall id, fold_left (fun p id => match new !! id with
      Some n => match p !! id with Some _ => p | None => <[id := upd (EElem 0 nd) n]> p end | None => p end) ids elems !! id
    = match elems !! id with Some e => Some e
      | None => if decide (id ∈ ids) then upd (EElem 0 nd) <$> new !! id else None end.
Proof.
  revert elems. induction ids as [|i ids IH]; intros elems ND id; cbn [fold_left].
  { destruct (elems !! id); [done|]. by rewrite decide_False by apply not_elem_of_nil. }
  apply NoDup_cons in ND as [Hi ND]. rewrite IH by done. destruct (new !! i) as [n|] eqn:En.
  - destruct (elems !! i) as [e|] eqn:Ee.
    + destruct (elems !! id) as [x|] eqn:Ex; [done|]. assert (id <> i) by congruence.
      destruct (decide (id ∈ ids)); [by rewrite decide_True by (by right)|rewrite decide_False; [done|]].
      rewrite not_elem_of_cons. done.
    + rewrite lookup_insert. destruct (decide (i = id)) as [->|Hne].
      * rewrite Ee, decide_True by (by left). by rewrite En.
      * destruct (elems !! id); [done|].
        destruct (decide (id ∈ ids)); [by rewrite decide_True by (by right)|rewrite decide_False; [done|]].
        rewrite not_elem_of_cons. split; [congruence|done].
  - destruct (elems !! id) as [x|]; [done|]. destruct (decide (id ∈ ids)); [by rewrite decide_True by (by right)|].
    destruct (decide (id ∈ i :: ids)) as [[->|Hin]%elem_of_cons|]; [by rewrite En|done|done].
Qed.

Lemma update_ok elems (new : elems_hash) :
  exists elems', elems_hash_update upd nd elems new = Ret (elems', new) /\
  forall id, elems' !! id =
    match elems !! id, new !! id with
    | Some e, Some n => Some (upd e n)
    | Some e, None => Some (EElem ELEM_FLAG_DELETE (e_data e))
    | None, Some n => Some (upd (EElem 0 nd) n)
    | None, None => None
    end.
Proof.
  unfold elems_hash_update.
  destruct (iterate_ok (update_delete_func_cb upd nd)
    (fun id e => match new !! id with Some n => upd e n | None => EElem ELEM_FLAG_DELETE (e_data e) end)
    (fun _ _ p => p) (fun p => p = new) elems new eq_refl) as (elems1 & new1 & -> & _ & -> & E1).
  { intros id e p ->. destruct (update_delete_step new id e) as [r Er]. eauto. }
  cbn [mbind res_mbind].
  destruct (iterate_ok (add_new_func_cb upd nd) (fun _ e => e)
    (fun id n p => match p !! id with Some _ => p | None => <[id := upd (EElem 0 nd) n]> p end) (fun _ => True) new elems1 I)
    as (new2 & elems2 & -> & E2 & _ & En).
  { intros id e p _. destruct (add_new_step p id e) as [r Er]. eauto. }
  cbn [mbind res_mbind]. exists elems2. split.
  - rewrite En. f_equal. f_equal. apply map_eq. intros id. rewrite map_lookup_imap. by destruct (new !! id).
  - intros id. rewrite E2, add_new_fold by apply keys_nodup. rewrite E1, map_lookup_imap.
    destruct (elems !! id) as [e|]; simpl; [by destruct (new !! id)|].
    destruct (new !! id) as [n|] eqn:Hn; simpl.
    + by rewrite decide_True by (apply elem_of_keys; by rewrite Hn).
    + by destruct (decide _).
Qed.

End update.

End theory.

(** ** Properties *)

(** [elems_hash_process] runs the callback on the element of the id,
    creating it first unless the caller forbids it, and stores the changed
    element; all other elements stay.  An element whose callback asked for its
    deletion stays too: the test of the delete flag never holds. *)
Theorem elems_hash_process_correct {D P} (f : eelem D -> P -> res (eelem D * P * option Z))
    (elems : gmap Z (eelem D)) id nd params elem' params' ret :
  f (default (EElem 0 nd) (elems !! id)) params = Ret (elem', params', ret) ->
  elems_hash_process f elems id nd params 0 = Ret (<[id := elem']> elems, params', ret) /\
  elems_hash_process f elems id nd params ELEM_FLAG_DO_NOT_CREATE =
    Ret (match elems !! id with Some _ => (<[id := elem']> elems, params', ret) | None => (elems, params, Some FAIL) end).
Proof.
  intros E. destruct (elems !! id) as [e|] eqn:He; simpl in E.
  - split; by rewrite (process_present f elems id nd e params _ elem' params' ret He E).
  - split; [by apply process_create|by apply process_absent].
Qed.

(** [elems_hash_update] brings every element of the new table into the
    old one, updating those present and creating the others, and does not
    change the new table.  Elements that are not in the new table are marked
    for deletion but remain in the table with their data. *)
Theorem elems_hash_update_correct {D} (upd : eelem D -> eelem D -> eelem D) nd (elems new : gmap Z (eelem D)) :
  exists elems', elems_hash_update upd nd elems new = Ret (elems', new) /\
  forall id, elems' !! id =
    match elems !! id, new !! id with
    | Some e, Some n => Some (upd e n)
    | Some e, None => Some (EElem ELEM_FLAG_DELETE (e_data e))
    | None, Some n => Some (upd (EElem 0 nd) n)
    | None, None => None
    end.
Proof. apply update_ok. Qed.

(** Deleting a set of ids reads through a NULL pointer as soon as one of
    them is not in the table, since the presence test guards nothing; with
    all ids present and distinct it removes exactly those. *)
Theorem elems_hash_mass_delete_correct {D} (elems : gmap Z (eelem D)) ids :
  NoDup ids ->
  elems_hash_mass_delete elems ids =
    if decide (Forall (fun id => is_Some (elems !! id)) ids)
    then Ret (filter (fun x => x.1 ∉ ids) elems, zlen ids) else Halt BadAccess.
Proof.
  assert (gen : forall ids (elems : gmap Z (eelem D)) n, NoDup ids -> mass_delete_loop elems ids n =
    if decide (Forall (fun id => is_Some (elems !! id)) ids)
    then Ret (filter (fun x => x.1 ∉ ids) elems, n + zlen ids) else Halt BadAccess).
  { clear ids elems. intros ids. induction ids as [|i ids IH]; intros elems n ND; cbn [mass_delete_loop].
    - rewrite decide_True by constructor. rewrite map_filter_id; [f_equal; f_equal; lens|]. intros. apply not_elem_of_nil.
    - apply NoDup_cons in ND as [Hi ND]. destruct (elems !! i) as [e|] eqn:He; cbn [mbind res_mbind of_opt].
      2: { rewrite decide_False; [done|]. intros [[x Hx] _]%Forall_cons. congruence. }
      rewrite IH by done. unfold delete_element.
      destruct (decide (Forall (fun id => is_Some (elems !! id)) (i :: ids))) as [F|F].
      + rewrite decide_True.
        * f_equal. f_equal; [|lens]. apply map_eq. intros id. apply option_eq. intros x.
          rewrite !map_lookup_filter_Some, lookup_delete_Some, not_elem_of_cons. simpl. naive_solver.
        * apply Forall_cons in F as [_ F]. rewrite Forall_forall in F |- *. intros x Hx.
          rewrite lookup_delete_ne; [by apply F|]. intros ->. done.
      + rewrite decide_False; [done|]. intros G. apply F. constructor; [by rewrite He|].
        eapply Forall_impl; [exact G|]. intros x [y Hy]. apply lookup_delete_Some in Hy as [_ Hy]. by exists y. }
  intros ND. unfold elems_hash_mass_delete. case_decide as E; [|by rewrite gen].
  subst. rewrite decide_True by constructor. rewrite map_filter_id; [done|]. intros. apply not_elem_of_nil.
Qed.

(** Witnesses. *)

Definition table2 : gmap Z (eelem Z) := {[ 1 := EElem 0 10; 2 := EElem 0 20 ]}.

Definition set_delete (e : eelem Z) (p : unit) : res (eelem Z * unit * option Z) :=
  Ret (EElem ELEM_FLAG_DELETE (e_data e), p, None).

Lemma elems_hash_process_witness :
  elems_hash_process set_delete table2 1 0 tt 0 = Ret (<[1 := EElem ELEM_FLAG_DELETE 10]> table2, tt, None).
Proof.
  apply (elems_hash_process_correct set_delete table2 1 0 tt (EElem ELEM_FLAG_DELETE 10) tt None). reflexivity.
Defined.

Lemma elems_hash_mass_delete_witness : elems_hash_mass_delete table2 [1; 7] = Halt BadAccess.
Proof.
  assert (ND : NoDup [1; 7]).
  { apply NoDup_cons. split; [|apply NoDup_singleton]. intros H%list_elem_of_singleton. done. }
  rewrite (elems_hash_mass_delete_correct table2 [1; 7] ND). reflexivity.
Defined.

Example stale_element_stays :
  match elems_hash_update (fun e n => EElem (e_flags e) (e_data n)) 0 table2 {[ 2 := EElem 0 25 ]} with
  | Ret (elems, _) => (elems !! 1, elems !! 2)
  | Halt _ => (None, None)
  end = (Some (EElem 2 10), Some (EElem 0 25)).
Proof. vm_compute. reflexivity. Qed.
