(* ===== verification/ObjIndex.v ===== *)
(** * Object index (src/libs/zbxalgo/obj_index.c)

    A relation between object ids kept in two element tables, from each id to
    the vector of ids it refers to and back.  The theorems show that the two
    directions stay consistent: [refs idx f t], the number of references from
    [f] to [t], is the same in both tables, and every operation changes
    exactly the references it names. *)
From Stdlib Require Import ZArith Lia Sorted List Permutation.
From stdpp Require Import prelude list gmap.
From S2P Require Import Prelude Vector ElemsHash.
#[local] Open Scope Z_scope.

#[local] Abbreviation table := (gmap Z (eelem (vector Z))).
#[local] Abbreviation relem := (eelem (vector Z)).

Record obj_index := ObjIndex { from_to : table; to_from : table }.

(** [ref_create_callback]. *)
Definition ref_create : vector Z := zbx_vector_create.

Definition obj_index_init : obj_index := ObjIndex elems_hash_init elems_hash_init.

Definition obj_index_destroy (idx : obj_index) : obj_index :=
  ObjIndex (elems_hash_destroy (from_to idx)).1 (elems_hash_destroy (to_from idx)).1.

Definition add_ref_nosort_callback (elem : relem) (id_to : Z) : res (relem * Z * option Z) :=
  refs ← zbx_vector_append (e_data elem) id_to;
  Ret (EElem (e_flags elem) refs, id_to, None).

Definition add_ref_callback (elem : relem) (id_to : Z) : res (relem * Z * option Z) :=
  refs ← zbx_vector_append (e_data elem) id_to;
  Ret (EElem (e_flags elem) (zbx_vector_sort cmp refs), id_to, None).

Definition del_ref_callback (elem : relem) (id_to : Z) : res (relem * Z * option Z) :=
  i ← zbx_vector_bsearch cmp (e_data elem) id_to;
  if i =? FAIL then Ret (elem, id_to, Some SUCCEED)
  else
    refs ← zbx_vector_remove (e_data elem) i;
    let flags := if decide (values_num refs = 0%nat) then Z.lor (e_flags elem) ELEM_FLAG_DELETE else e_flags elem in
    Ret (EElem flags refs, id_to, None).

Definition get_refs_callback (elem : relem) (out_refs : vector Z) : res (relem * vector Z * option Z) :=
  let out_refs := zbx_vector_reserve out_refs (Z.of_nat (values_num (e_data elem))) in
  out_refs ← zbx_vector_append_array out_refs (v_values (e_data elem));
  Ret (elem, out_refs, Some SUCCEED).

(** [for (i = 0; i < ids.values_num; i++) elems_hash_process(t, ids.values[i], del_ref_callback, &id, ...)]. *)
Fixpoint del_back_refs (t : table) (ids : list Z) (id : Z) : res table :=
  match ids with
  | [] => Ret t
  | i :: ids =>
      '(t, _, _) ← elems_hash_process del_ref_callback t i ref_create id ELEM_FLAG_DO_NOT_CREATE;
      del_back_refs t ids id
  end.

Definition obj_index_del_id_from (idx : obj_index) (id : Z) : res (obj_index * Z) :=
  '(ft, ids, _) ← elems_hash_process get_refs_callback (from_to idx) id ref_create zbx_vector_create ELEM_FLAG_DO_NOT_CREATE;
  tf ← del_back_refs (to_from idx) (v_values ids) id;
  Ret (ObjIndex (elems_hash_delete ft id).1 tf, SUCCEED).

Definition obj_index_del_id_to (idx : obj_index) (id : Z) : res (obj_index * Z) :=
  '(tf, ids, _) ← elems_hash_process get_refs_callback (to_from idx) id ref_create zbx_vector_create ELEM_FLAG_DO_NOT_CREATE;
  ft ← del_back_refs (from_to idx) (v_values ids) id;
  Ret (ObjIndex ft (elems_hash_delete tf id).1, SUCCEED).

Definition obj_index_add_ref (idx : obj_index) (id_from id_to : Z) : res (obj_index * Z) :=
  '(ft, _, _) ← elems_hash_process add_ref_callback (from_to idx) id_from ref_create id_to 0;
  '(tf, _, _) ← elems_hash_process add_ref_callback (to_from idx) id_to ref_create id_from 0;
  Ret (ObjIndex ft tf, SUCCEED).

Definition obj_index_add_ref_nosort (idx : obj_index) (id_from id_to : Z) : res (obj_index * Z) :=
  '(ft, _, _) ← elems_hash_process add_ref_nosort_callback (from_to idx) id_from ref_create id_to 0;
  '(tf, _, _) ← elems_hash_process add_ref_nosort_callback (to_from idx) id_to ref_create id_from 0;
  Ret (ObjIndex ft tf, SUCCEED).

Definition obj_index_del_ref (idx : obj_index) (id_from id_to : Z) : res (obj_index * Z) :=
  '(ft, _, _) ← elems_hash_process del_ref_callback (from_to idx) id_from ref_create id_to ELEM_FLAG_DO_NOT_CREATE;
  '(tf, _, _) ← elems_hash_process del_ref_callback (to_from idx) id_to ref_create id_from ELEM_FLAG_DO_NOT_CREATE;
  Ret (ObjIndex ft tf, SUCCEED).

Definition obj_index_get_refs_to (idx : obj_index) (id_from : Z) (out_refs : vector Z) :
    res (obj_index * vector Z * option Z) :=
  '(ft, out, ret) ← elems_hash_process get_refs_callback (from_to idx) id_from ref_create out_refs ELEM_FLAG_DO_NOT_CREATE;
  Ret (ObjIndex ft (to_from idx), out, ret).

Definition obj_index_get_refs_from (idx : obj_index) (id_to : Z) (out_refs : vector Z) :
    res (obj_index * vector Z * option Z) :=
  '(tf, out, ret) ← elems_hash_process get_refs_callback (to_from idx) id_to ref_create out_refs ELEM_FLAG_DO_NOT_CREATE;
  Ret (ObjIndex (from_to idx) tf, out, ret).

Definition obj_index_replace (old_idx new_idx : obj_index) : obj_index :=
  ObjIndex (elems_hash_replace (from_to old_idx) (from_to new_idx)).1
    (elems_hash_replace (to_from old_idx) (to_from new_idx)).1.

(** [zbx_vector_append_array] returns on every vector with an array of its size
    ([Vector.append_array_ok]), so that the last case does not occur. *)
Definition update_vector (v new_v : vector Z) : vector Z :=
  match zbx_vector_append_array (zbx_vector_clear v) (v_values new_v) with
  | Ret v => zbx_vector_sort cmp v
  | Halt _ => v
  end.

Definition update_func_cb (elem elem_new : relem) : relem :=
  EElem (e_flags elem) (update_vector (e_data elem) (e_data elem_new)).

Definition obj_index_update (idx new_idx : obj_index) : res obj_index :=
  '(ft, _) ← elems_hash_update update_func_cb ref_create (from_to idx) (from_to new_idx);
  '(tf, _) ← elems_hash_update update_func_cb ref_create (to_from idx) (to_from new_idx);
  Ret (ObjIndex ft tf).

Definition obj_index_get_numdata (idx : obj_index) : Z := elems_hash_get_num (from_to idx).

(** ** Theory *)

(** Number of entries for [b] in the vector of [a]. *)
Definition nrefs (t : table) (a b : Z) : nat :=
  match t !! a with Some e => count_occ Z.eq_dec (v_values (e_data e)) b | None => 0%nat end.

Definition vec_sorted (v : vector Z) : Prop := v_ok v /\ StronglySorted (cle cmp) (v_values v).
Definition table_ok (t : table) : Prop := forall a e, t !! a = Some e -> vec_sorted (e_data e).

Record idx_ok (idx : obj_index) : Prop := {
  io_from : table_ok (from_to idx);
  io_to : table_ok (to_from idx);
  io_sym : forall f t, nrefs (from_to idx) f t = nrefs (to_from idx) t f }.

(** The number of references between two ids. *)
Definition refs (idx : obj_index) (f t : Z) : nat := nrefs (from_to idx) f t.

Lemma count_perm (l l' : list Z) x : l ≡ₚ l' -> count_occ Z.eq_dec l x = count_occ Z.eq_dec l' x.
Proof. intros P. by apply Permutation_count_occ. Qed.

Lemma vec_create_sorted : vec_sorted zbx_vector_create.
Proof. split; [apply create_v_ok|constructor]. Qed.

Lemma nrefs_insert t a e x y :
  nrefs (<[a := e]> t) x y = if decide (a = x) then count_occ Z.eq_dec (v_values (e_data e)) y else nrefs t x y.
Proof. unfold nrefs. rewrite lookup_insert. by case_decide. Qed.

Lemma table_ok_insert t a e : table_ok t -> vec_sorted (e_data e) -> table_ok (<[a := e]> t).
Proof. intros Ht He x e'. rewrite lookup_insert. case_decide; [intros [= <-]; done|apply Ht]. Qed.

Lemma sorted_delete (l : list Z) i : StronglySorted (cle cmp) l -> StronglySorted (cle cmp) (delete i l).
Proof.
  intros Hs. revert i. induction Hs as [|x l Hs IH Hx]; intros i; [constructor|].
  destruct i as [|i]; simpl; [done|]. constructor; [apply IH|]. rewrite Forall_forall in *. intros y Hy. apply Hx.
  apply list_elem_of_lookup in Hy as [j Hj].
  destruct (decide (j < i)%nat); [rewrite list_lookup_delete_lt in Hj by done|rewrite list_lookup_delete_ge in Hj by lia];
    by eapply list_elem_of_lookup_2.
Qed.

Lemma sort_sorted v : v_ok v -> vec_sorted (zbx_vector_sort cmp v) /\ v_values (zbx_vector_sort cmp v) ≡ₚ v_values v.
Proof. intros Hv. destruct (merge_sort_ok cmp cmp_sign cmp_le_trans v Hv) as (? & ? & ?). by split. Qed.

(** Adding [b] to the vector of [a]. *)
Lemma process_add t a b :
  table_ok t -> exists t' p r, elems_hash_process add_ref_callback t a ref_create b 0 = Ret (t', p, r) /\ table_ok t' /\
    forall x y, nrefs t' x y = (nrefs t x y + if decide (x = a /\ y = b) then 1 else 0)%nat.
Proof.
  intros Ht. set (e := default (EElem 0 ref_create) (t !! a)).
  assert (He : vec_sorted (e_data e)).
  { unfold e. destruct (t !! a) as [x|] eqn:E; simpl; [by eapply Ht|apply vec_create_sorted]. }
  destruct (vec_append_ok (e_data e) b (proj1 He)) as (v1 & E1 & Hv1 & Ev1). destruct (sort_sorted v1 Hv1) as [Hs P].
  assert (Ef : add_ref_callback e b = Ret (EElem (e_flags e) (zbx_vector_sort cmp v1), b, None)).
  { unfold add_ref_callback. by rewrite E1. }
  assert (Hn : nrefs t a = count_occ Z.eq_dec (v_values (e_data e))).
  { unfold nrefs, e. by destruct (t !! a). }
  exists (<[a := EElem (e_flags e) (zbx_vector_sort cmp v1)]> t), b, None. split_and!.
  - unfold e in Ef. destruct (t !! a) as [x|] eqn:Ex; simpl in Ef.
    + by apply (process_present _ _ _ _ _ _ _ _ _ _ Ex Ef).
    + by apply (process_create _ _ _ _ _ _ _ _ Ex Ef).
  - by apply table_ok_insert.
  - intros x y. rewrite nrefs_insert. simpl. rewrite (count_perm _ _ y P), Ev1, count_occ_app. simpl.
    destruct (decide (a = x)) as [<-|]; [|rewrite decide_False by naive_solver; lia]. rewrite Hn.
    destruct (Z.eq_dec b y) as [->|]; [by rewrite decide_True|rewrite decide_False by naive_solver; done].
Qed.

Lemma bsearch_cmp v b :
  vec_sorted v -> (zbx_vector_bsearch cmp v b = Ret FAIL /\ count_occ Z.eq_dec (v_values v) b = 0%nat) \/
  exists i, zbx_vector_bsearch cmp v b = Ret (Z.of_nat i) /\ v_values v !! i = Some b.
Proof.
  intros [Hv Hs]. unfold zbx_vector_bsearch.
  destruct (bsearch_ok cmp cmp_sign cmp_le_trans (values_num v) (v_values v) b 0 (values_num v) Hs (bracket_init cmp _ b))
    as (o & -> & Ho); [lia|]. cbn [mbind res_mbind]. destruct o as [i|]; [right|left].
  - destruct Ho as (x & Hx & E). apply (proj1 (cmp_0 x b)) in E. subst. eauto.
  - split; [done|]. apply count_occ_not_In. intros Hin. apply (Ho b); [by apply list_elem_of_In|by apply (proj2 (cmp_0 b b))].
Qed.

(** Removing one [b] from the vector of [a]. *)
Lemma process_del t a b :
  table_ok t -> exists t' p r, elems_hash_process del_ref_callback t a ref_create b ELEM_FLAG_DO_NOT_CREATE = Ret (t', p, r) /\
    table_ok t' /\ forall x y, nrefs t' x y = (nrefs t x y - if decide (x = a /\ y = b) then 1 else 0)%nat.
Proof.
  intros Ht. destruct (t !! a) as [e|] eqn:Ea.
  2: { exists t, b, (Some FAIL). split_and!; [by apply process_absent|done|]. intros x y. case_decide as D; [|lia].
       destruct D as [-> ->]. unfold nrefs. by rewrite Ea. }
  pose proof (Ht a e Ea) as He. assert (Hn : nrefs t a = count_occ Z.eq_dec (v_values (e_data e))) by (unfold nrefs; by rewrite Ea).
  destruct (bsearch_cmp (e_data e) b He) as [[Eb Hc]|(i & Eb & Hi)].
  - assert (Ef : del_ref_callback e b = Ret (e, b, Some SUCCEED)) by (unfold del_ref_callback; by rewrite Eb).
    exists (<[a := e]> t), b, (Some SUCCEED). split_and!; [by apply (process_present _ _ _ _ _ _ _ _ _ _ Ea Ef)|by apply table_ok_insert|].
    intros x y. rewrite insert_id by done. case_decide as D; [|lia]. destruct D as [-> ->]. rewrite Hn. lia.
  - destruct (vec_remove_ok (e_data e) i b (proj1 He) Hi) as (v1 & E1 & Hv1 & Ev1).
    assert (Ef : exists fl, del_ref_callback e b = Ret (EElem fl v1, b, None)).
    { unfold del_ref_callback. rewrite Eb. cbn [mbind res_mbind]. destruct (Z.eqb_spec (Z.of_nat i) FAIL) as [F|_]; [unfold FAIL in F; lia|].
      rewrite E1. cbn [mbind res_mbind]. by eexists. }
    destruct Ef as [fl Ef]. exists (<[a := EElem fl v1]> t), b, None.
    split_and!; [by apply (process_present _ _ _ _ _ _ _ _ _ _ Ea Ef)| |].
    + apply table_ok_insert; [done|]. split; [done|]. simpl. rewrite Ev1. apply sorted_delete, He.
    + intros x y. rewrite nrefs_insert. simpl. destruct (decide (a = x)) as [<-|]; [|rewrite decide_False by naive_solver; lia].
      pose proof (delete_Permutation _ _ _ Hi) as P. rewrite Hn, (count_perm _ _ y P), Ev1. simpl.
      destruct (Z.eq_dec b y) as [->|]; [rewrite decide_True by done; lia|rewrite decide_False by naive_solver; lia].
Qed.

Lemma del_back_ok t ids id :
  table_ok t -> exists t', del_back_refs t ids id = Ret t' /\ table_ok t' /\
    forall x y, nrefs t' x y = (nrefs t x y - if decide (y = id) then count_occ Z.eq_dec ids x else 0)%nat.
Proof.
  revert t. induction ids as [|i ids IH]; intros t Ht; cbn [del_back_refs].
  { exists t. split_and!; [done..|]. intros x y. simpl. destruct (decide _); lia. }
  destruct (process_del t i id Ht) as (t1 & p & r & -> & Ht1 & H1). cbn [mbind res_mbind].
  destruct (IH t1 Ht1) as (t' & -> & Ht' & H'). exists t'. split_and!; [done..|]. intros x y. rewrite H', H1. simpl.
  destruct (Z.eq_dec i x) as [->|]; destruct (decide (y = id)) as [->|].
  - rewrite decide_True by done. lia.
  - rewrite decide_False by naive_solver. lia.
  - rewrite decide_False by naive_solver. lia.
  - rewrite decide_False by naive_solver. lia.
Qed.

(** Reading the vector of [a]. *)
Lemma process_get t a out :
  v_ok out -> exists out' r, elems_hash_process get_refs_callback t a ref_create out ELEM_FLAG_DO_NOT_CREATE = Ret (t, out', r) /\
    match t !! a with
    | Some e => r = Some SUCCEED /\ v_values out' = v_values out ++ v_values (e_data e)
    | None => r = Some FAIL /\ out' = out
    end.
Proof.
  intros Ho. destruct (t !! a) as [e|] eqn:Ea.
  2: { exists out, (Some FAIL). split; [by apply process_absent|done]. }
  set (o1 := zbx_vector_reserve out (Z.of_nat (values_num (e_data e)))).
  assert (Ho1 : v_ok o1 /\ v_values o1 = v_values out).
  { unfold o1, zbx_vector_reserve. destruct Ho as [Hs Hn]. destruct (Z.ltb_spec (v_alloc out) (Z.of_nat (values_num (e_data e)))); [|done].
    split; [|done]. split; simpl; [unfold values_num in *; simpl; lia|done]. }
  destruct (append_array_ok o1 (v_values (e_data e)) (proj1 Ho1)) as (o2 & E2 & _ & Ev2).
  assert (Ef : get_refs_callback e out = Ret (e, o2, Some SUCCEED)).
  { unfold get_refs_callback. fold o1. by rewrite E2. }
  exists o2, (Some SUCCEED). split; [|by rewrite Ev2, (proj2 Ho1)].
  rewrite (process_present _ _ _ _ _ _ _ _ _ _ Ea Ef). by rewrite insert_id.
Qed.

Lemma get_counts t a :
  exists out r, elems_hash_process get_refs_callback t a ref_create zbx_vector_create ELEM_FLAG_DO_NOT_CREATE = Ret (t, out, r) /\
    forall y, count_occ Z.eq_dec (v_values out) y = nrefs t a y.
Proof.
  destruct (process_get t a zbx_vector_create create_v_ok) as (out & r & E & Hg). exists out, r. split; [done|].
  intros y. unfold nrefs. destruct (t !! a) as [e|]; [by destruct Hg as [_ ->]|by destruct Hg as [_ ->]].
Qed.

(** Deleting [id] from the table [a] and its references from the table [b]. *)
Lemma del_id_tables (a b : table) id :
  table_ok a -> table_ok b -> (forall x y, nrefs a x y = nrefs b y x) ->
  exists ids r b', elems_hash_process get_refs_callback a id ref_create zbx_vector_create ELEM_FLAG_DO_NOT_CREATE = Ret (a, ids, r) /\
    del_back_refs b (v_values ids) id = Ret b' /\ table_ok b' /\ table_ok (elems_hash_delete a id).1 /\
    forall x y, nrefs (elems_hash_delete a id).1 x y = (if decide (x = id) then 0%nat else nrefs a x y) /\
      nrefs b' y x = (if decide (x = id) then 0%nat else nrefs a x y).
Proof.
  intros Ha Hb Hs. destruct (get_counts a id) as (ids & r & E & Hc).
  destruct (del_back_ok b (v_values ids) id Hb) as (b' & E' & Hb' & Hn).
  assert (Ed : (elems_hash_delete a id).1 = delete id a).
  { unfold elems_hash_delete. destruct (a !! id) eqn:Ea; [done|]. symmetry. by apply delete_id. }
  exists ids, r, b'. rewrite Ed. split_and!; [done..| |].
  - intros x e [_ Hx]%lookup_delete_Some. by eapply Ha.
  - intros x y. split.
    + unfold nrefs. rewrite lookup_delete. destruct (decide (id = x)) as [<-|]; [by rewrite decide_True|].
      by rewrite decide_False by congruence.
    + rewrite Hn. destruct (decide (x = id)) as [->|].
      * rewrite Hc, Hs. lia.
      * rewrite <- Hs. lia.
Qed.

Lemma init_ok : idx_ok obj_index_init.
Proof. split; [intros a e [=]|intros a e [=]|done]. Qed.

(** ** Properties *)

Section properties.
Implicit Types idx : obj_index.

(** Adding and deleting a reference keep the two tables consistent and
    change exactly the count of the references between the two ids. *)
Theorem obj_index_refs_consistent idx f t :
  idx_ok idx ->
  (exists idx', obj_index_add_ref idx f t = Ret (idx', SUCCEED) /\ idx_ok idx' /\
     forall x y, refs idx' x y = (refs idx x y + if decide (x = f /\ y = t) then 1 else 0)%nat) /\
  (exists idx', obj_index_del_ref idx f t = Ret (idx', SUCCEED) /\ idx_ok idx' /\
     forall x y, refs idx' x y = (refs idx x y - if decide (x = f /\ y = t) then 1 else 0)%nat).
Proof.
  intros [Hf Ht Hs]. split.
  - unfold obj_index_add_ref. destruct (process_add _ f t Hf) as (ft & p & r & -> & Hft & Eft). cbn [mbind res_mbind].
    destruct (process_add _ t f Ht) as (tf & p' & r' & -> & Htf & Etf). cbn [mbind res_mbind].
    eexists; split_and!; [done| |done]. split; simpl; [done..|]. intros x y. rewrite Eft, Etf, Hs.
    f_equal. destruct (decide (x = f /\ y = t)), (decide (y = t /\ x = f)); tauto.
  - unfold obj_index_del_ref. destruct (process_del _ f t Hf) as (ft & p & r & -> & Hft & Eft). cbn [mbind res_mbind].
    destruct (process_del _ t f Ht) as (tf & p' & r' & -> & Htf & Etf). cbn [mbind res_mbind].
    eexists; split_and!; [done| |done]. split; simpl; [done..|]. intros x y. rewrite Eft, Etf, Hs.
    f_equal. destruct (decide (x = f /\ y = t)), (decide (y = t /\ x = f)); tauto.
Qed.

(** Deleting an id removes all references from it (or to it) in both
    tables and no other reference; reading the references of an id returns a
    vector with exactly the counted references. *)
Theorem obj_index_del_id_correct idx id :
  idx_ok idx ->
  (exists idx', obj_index_del_id_from idx id = Ret (idx', SUCCEED) /\ idx_ok idx' /\
     forall x y, refs idx' x y = if decide (x = id) then 0%nat else refs idx x y) /\
  (exists idx', obj_index_del_id_to idx id = Ret (idx', SUCCEED) /\ idx_ok idx' /\
     forall x y, refs idx' x y = if decide (y = id) then 0%nat else refs idx x y) /\
  (exists out r, obj_index_get_refs_to idx id zbx_vector_create = Ret (idx, out, r) /\
     forall y, count_occ Z.eq_dec (v_values out) y = refs idx id y).
Proof.
  intros [Hf Ht Hs]. split_and!.
  - destruct (del_id_tables _ _ id Hf Ht Hs) as (ids & r & tf & E & E' & Htf & Hft & Hn).
    unfold obj_index_del_id_from. rewrite E. cbn [mbind res_mbind]. rewrite E'. cbn [mbind res_mbind].
    eexists; split_and!; [done| |intros x y; apply Hn]. split; simpl; [done..|]. intros x y.
    destruct (Hn x y) as [-> ->]. done.
  - destruct (del_id_tables _ _ id Ht Hf (fun x y => eq_sym (Hs y x))) as (ids & r & ft & E & E' & Hft & Htf & Hn).
    unfold obj_index_del_id_to. rewrite E. cbn [mbind res_mbind]. rewrite E'. cbn [mbind res_mbind].
    eexists; split_and!; [done| |].
    + split; simpl; [done..|]. intros x y. destruct (Hn y x) as [-> ->]. done.
    + intros x y. unfold refs. simpl. destruct (Hn y x) as [_ ->]. by rewrite Hs.
  - destruct (get_counts (from_to idx) id) as (out & r & E & Hc). exists out, r. split; [|done].
    unfold obj_index_get_refs_to. rewrite E. simpl. by destruct idx.
Qed.

End properties.

(** Witnesses. *)

Lemma obj_index_refs_witness :
  exists idx', obj_index_add_ref obj_index_init 7 9 = Ret (idx', SUCCEED) /\ idx_ok idx' /\
     forall x y, refs idx' x y = (refs obj_index_init x y + if decide (x = 7%Z /\ y = 9%Z) then 1 else 0)%nat.
Proof. apply (obj_index_refs_consistent obj_index_init 7 9 init_ok). Defined.

Lemma obj_index_del_id_witness :
  exists idx', obj_index_del_id_from obj_index_init 7 = Ret (idx', SUCCEED) /\ idx_ok idx' /\
     forall x y, refs idx' x y = if decide (x = 7) then 0%nat else refs obj_index_init x y.
Proof. apply (obj_index_del_id_correct obj_index_init 7 init_ok). Defined.

Definition index_run : res (list nat) :=
  '(i, _) ← obj_index_add_ref obj_index_init 1 5;
  '(i, _) ← obj_index_add_ref i 1 3;
  '(i, _) ← obj_index_add_ref i 2 5;
  '(i, _) ← obj_index_del_id_to i 5;
  Ret [refs i 1 5; refs i 1 3; refs i 2 5; nrefs (to_from i) 3 1].

Example index_run_result : index_run = Ret [0; 1; 0; 1]%nat.
Proof. vm_compute. reflexivity. Qed.

(** A reference added without sorting can be missed by the binary search. *)
Example nosort_ref_not_deleted :
  match ('(i, _) ← obj_index_add_ref_nosort obj_index_init 1 9;
         '(i, _) ← obj_index_add_ref_nosort i 1 5;
         '(i, _) ← obj_index_add_ref_nosort i 1 3;
         '(i, _) ← obj_index_del_ref i 1 3; Ret (refs i 1 3, nrefs (to_from i) 3 1)) with
  | Ret x => Some x
  | Halt _ => None
  end = Some (1, 0)%nat.
Proof. vm_compute. reflexivity. Qed.
