(* ===== verification/Ipc2.v ===== *)
(** * Chunk queues between processes (src/libs/zbxipcservice/glb_ipc2.c)

    Producers append chunks to the queue of a consumer; a receiver takes the
    whole queue of its consumer at once into a local list and hands the
    chunks out one by one.  Chunks live in shared memory, a finite map from
    addresses (0 is NULL) to chunks.  Each access to a queue is under its
    lock, so that an operation is one step of the system; what is done
    outside of the lock (allocation, filling, the local list) touches memory
    of one process only.

    Receivers are numbered in the order of their creation, number 0 is the
    one [ipc2_init] makes, a freed receiver is [None].

    The memory of the allocator is an input of a send: the successive values
    of [mem_info->free_size] and of the results of [malloc_func] it sees.
    A send that has used up these lists is still waiting ([OutOfFuel]). *)
From stdpp Require Import prelude list gmap.
From Stdlib Require Import ZArith Lia.
From S2P Require Import Prelude.
#[local] Open Scope Z_scope.

Definition ALLOC_PRIORITY_HIGH : Z := 1.
Definition ALLOC_PRIORITY_NORMAL : Z := 2.

Record ipc2_chunk := Chunk { c_next : Z; c_size : Z; c_items : Z; c_data : list Z }.

Record chunk_queue := ChunkQueue {
  q_first : Z; q_last : Z; q_count : Z; q_items : Z; q_sent : Z; q_items_sent : Z }.

#[local] Abbreviation store := (gmap Z ipc2_chunk).

Record ipc2_conf := Ipc2Conf {
  consumers : Z; low_mem_watermark : Z; queues : list chunk_queue; rcvs : list (option Z); mem : store }.

(** What a send sees of the shared memory. *)
Record heap_env := HeapEnv { free_sizes : list Z; mallocs : list Z }.

Definition get (m : store) (p : Z) : res ipc2_chunk := of_opt BadAccess (if p =? 0 then None else m !! p).

Definition set_mem (ipc : ipc2_conf) (m : store) : ipc2_conf :=
  Ipc2Conf (consumers ipc) (low_mem_watermark ipc) (queues ipc) (rcvs ipc) m.
Definition set_queue (ipc : ipc2_conf) (i : Z) (q : chunk_queue) : ipc2_conf :=
  Ipc2Conf (consumers ipc) (low_mem_watermark ipc) (zset (queues ipc) i q) (rcvs ipc) (mem ipc).
Definition set_rcv (ipc : ipc2_conf) (h : Z) (p : option Z) : ipc2_conf :=
  Ipc2Conf (consumers ipc) (low_mem_watermark ipc) (queues ipc) (zset (rcvs ipc) h p) (mem ipc).

(** [while (ALLOC_PRIORITY_HIGH != alloc_priority && free_size < low_mem_watermark) usleep();] *)
Fixpoint wait_watermark (alloc_priority watermark : Z) (frees : list Z) : res unit :=
  if alloc_priority =? ALLOC_PRIORITY_HIGH then Ret tt
  else match frees with
       | [] => Halt OutOfFuel
       | free_size :: frees => if free_size <? watermark then wait_watermark alloc_priority watermark frees else Ret tt
       end.

(** [while (NULL == (chunk = malloc_func())) usleep();] *)
Fixpoint wait_malloc (ps : list Z) : res Z :=
  match ps with
  | [] => Halt OutOfFuel
  | p :: ps => if p =? 0 then wait_malloc ps else Ret p
  end.

(** The data after the chunk header is not initialised: [junk]. *)
Definition allocate_chunk (ipc : ipc2_conf) (env : heap_env) (junk : list Z) (items_count alloc_priority : Z) :
    res (ipc2_conf * Z) :=
  _ ← wait_watermark alloc_priority (low_mem_watermark ipc) (free_sizes env);
  chunk ← wait_malloc (mallocs env);
  Ret (set_mem ipc (<[chunk := Chunk 0 (i32 (zlen junk)) items_count junk]> (mem ipc)), chunk).

Definition add_chunk_to_queue (m : store) (q : chunk_queue) (chunk items_count : Z) : res (store * chunk_queue) :=
  let sent := u64 (q_sent q + 1) in
  let items_sent := u64 (q_items_sent q + items_count) in
  if q_first q =? 0 then
    c ← get m chunk;
    Ret (m, ChunkQueue chunk chunk 1 (c_items c) sent items_sent)
  else
    l ← get m (q_last q);
    let m := <[q_last q := Chunk chunk (c_size l) (c_items l) (c_data l)]> m in
    c ← get m chunk;
    Ret (m, ChunkQueue (q_first q) chunk (i32 (q_count q + 1)) (i32 (q_items q + c_items c)) sent items_sent).

(** [add_chunk_to_queue(&ipc->queues[consumerid], ...)]. *)
Definition queue_chunk (ipc : ipc2_conf) (consumerid chunk items_count : Z) : res ipc2_conf :=
  q ← of_opt BadAccess (zget (queues ipc) consumerid);
  '(m, q) ← add_chunk_to_queue (mem ipc) q chunk items_count;
  Ret (set_queue (set_mem ipc m) consumerid q).

(** Stores the data part of a chunk. *)
Definition fill_chunk (ipc : ipc2_conf) (chunk : Z) (data : list Z) : res ipc2_conf :=
  c ← get (mem ipc) chunk;
  Ret (set_mem ipc (<[chunk := Chunk (c_next c) (c_size c) (c_items c) data]> (mem ipc))).

(** [cb_func] writes the data area in place: it maps the [len] bytes it finds
    there to [len] bytes. *)
Definition ipc2_send_by_cb_fill (ipc : ipc2_conf) (env : heap_env) (junk : list Z) (consumerid items_count : Z)
    (cb_func : list Z -> list Z) (priority : Z) : res ipc2_conf :=
  '(ipc, chunk) ← allocate_chunk ipc env junk items_count priority;
  ipc ← fill_chunk ipc chunk (cb_func junk);
  queue_chunk ipc consumerid chunk items_count.

Definition wrong_consumer (ipc : ipc2_conf) (consumerid : Z) : bool := u32 consumerid >=? consumers ipc.

Definition ipc2_send_chunk (ipc : ipc2_conf) (env : heap_env) (consumerid items_count : Z) (data : list Z) (priority : Z) :
    res ipc2_conf :=
  if 0 =? items_count then Ret ipc
  else if wrong_consumer ipc consumerid then Halt ExitFailure
  else
    '(ipc, chunk) ← allocate_chunk ipc env data items_count priority;
    ipc ← fill_chunk ipc chunk data;
    queue_chunk ipc consumerid chunk items_count.

(** [rcv->rcv_queue]. *)
Definition rcv_queue (ipc : ipc2_conf) (rcv : Z) : res Z :=
  o ← of_opt BadAccess (zget (rcvs ipc) rcv); of_opt BadAccess o.

Definition ensure_chunks_in_local_queue (ipc : ipc2_conf) (rcv consumerid : Z) : res (ipc2_conf * Z) :=
  p ← rcv_queue ipc rcv;
  if negb (p =? 0) then Ret (ipc, SUCCEED)
  else
    q ← of_opt BadAccess (zget (queues ipc) consumerid);
    let ipc := set_rcv ipc rcv (Some (q_first q)) in
    let ipc := set_queue ipc consumerid (ChunkQueue 0 0 0 (q_items q) (q_sent q) (q_items_sent q)) in
    if q_first q =? 0 then Ret (ipc, FAIL) else Ret (ipc, SUCCEED).

Definition ipc2_receive_one_chunk {Ctx} (ipc : ipc2_conf) (rcv_in : option Z) (consumerid : Z)
    (receive_func : list Z -> Ctx -> Ctx) (ctx_data : Ctx) : res (ipc2_conf * Ctx * Z) :=
  let rcv := match rcv_in with Some r => r | None => 0 end in
  if wrong_consumer ipc consumerid then Halt ExitFailure
  else
    '(ipc, ret) ← ensure_chunks_in_local_queue ipc rcv consumerid;
    if ret =? FAIL then Ret (ipc, ctx_data, 0)
    else
      p ← rcv_queue ipc rcv;
      chunk ← get (mem ipc) p;
      let ipc := set_rcv ipc rcv (Some (c_next chunk)) in
      let ctx_data := receive_func (c_data chunk) ctx_data in
      Ret (set_mem ipc (delete p (mem ipc)), ctx_data, c_items chunk).

(** [conf_ok], [queues_ok]: whether [malloc_func] gave the memory.  The name
    is copied with the size of the source, not of the 64-byte field. *)
Definition ipc2_init (count : Z) (name : list Z) (total_size : Z) (conf_ok queues_ok : bool) : res (option ipc2_conf) :=
  if negb conf_ok then Ret None
  else match name with
       | [] => Halt ExitFailure
       | _ =>
           if 64 <? zlen name + 1 then Halt BadAccess
           else if negb queues_ok then Ret None
           else Ret (Some (Ipc2Conf (u32 count) (Z.quot total_size 3)
                             (replicate (Z.to_nat count) (ChunkQueue 0 0 0 0 0 0)) [Some 0] ∅))
       end.

Definition ipc2_init_receiver (ipc : ipc2_conf) : ipc2_conf * Z :=
  (Ipc2Conf (consumers ipc) (low_mem_watermark ipc) (queues ipc) (rcvs ipc ++ [Some 0]) (mem ipc), zlen (rcvs ipc)).

Definition ipc2_deinit_receiver (ipc : ipc2_conf) (rcv : Z) : res ipc2_conf :=
  _ ← rcv_queue ipc rcv; Ret (set_rcv ipc rcv None).

(** [for (i = 0; i < consumers; i++) acc += queues[i].f;] *)
Fixpoint sum_queues (f : chunk_queue -> Z) (qs : list chunk_queue) (acc : Z) : Z :=
  match qs with [] => acc | q :: qs => sum_queues f qs (u64 (acc + f q)) end.

Definition ipc2_get_sent_chunks (ipc : ipc2_conf) : Z := sum_queues q_sent (queues ipc) 0.
Definition ipc2_get_sent_items (ipc : ipc2_conf) : Z := sum_queues q_items_sent (queues ipc) 0.
Definition ipc2_get_queue_size (ipc : ipc2_conf) : Z := sum_queues q_items (queues ipc) 0.
Definition ipc2_get_consumers (ipc : ipc2_conf) : Z := i32 (consumers ipc).

(** The chunks, items and bytes [ipc2_dump_queues] prints of one queue. *)
Fixpoint dump_chain (fuel : nat) (m : store) (p chunks items size : Z) : res (Z * Z * Z) :=
  match fuel with
  | O => Halt OutOfFuel
  | S fuel =>
      if p =? 0 then Ret (chunks, items, size)
      else c ← get m p; dump_chain fuel m (c_next c) (i32 (chunks + 1)) (i32 (items + c_items c)) (i32 (size + c_size c))
  end.

Fixpoint dump_all (fuel : nat) (m : store) (qs : list chunk_queue) : res (list (Z * Z * Z)) :=
  match qs with
  | [] => Ret []
  | q :: qs => d ← dump_chain fuel m (q_first q) 0 0 0; ds ← dump_all fuel m qs; Ret (d :: ds)
  end.

Definition ipc2_dump_queues (ipc : ipc2_conf) : res (list (Z * Z * Z)) :=
  dump_all (S (size (mem ipc))) (mem ipc) (queues ipc).

(** ** Runs of the system *)

(** A message: the number of items and the bytes. *)
Abbreviation msg := (Z * list Z)%type.

Inductive event :=
  | ESend (consumerid : Z) (x : msg)
  | ESkip (consumerid : Z)
  | ERecv (rcv consumerid : Z) (x : option msg).

(** The allocator only gives addresses not in use. *)
Definition fresh_env (m : store) (env : heap_env) : Prop := Forall (fun p => p = 0 \/ m !! p = None) (mallocs env).

Definition collect (d : list Z) (ctx : list (list Z)) : list (list Z) := ctx ++ [d].

Definition is_int (x : Z) : Prop := - 2 ^ 31 <= x < 2 ^ 31.

(** [ipc2_send_chunk] sends nothing when there are no items ([ESkip]);
    [ipc2_send_by_cb_fill] sends a chunk of 0 items too. *)
Inductive step : ipc2_conf -> event -> ipc2_conf -> Prop :=
  | step_send ipc env c items data prio ipc' :
      is_int c -> fresh_env (mem ipc) env -> items <> 0 ->
      ipc2_send_chunk ipc env c items data prio = Ret ipc' ->
      step ipc (ESend c (items, data)) ipc'
  | step_skip ipc env c data prio ipc' :
      ipc2_send_chunk ipc env c 0 data prio = Ret ipc' ->
      step ipc (ESkip c) ipc'
  | step_fill ipc env junk c items fill prio ipc' :
      is_int c -> fresh_env (mem ipc) env -> length (fill junk) = length junk ->
      ipc2_send_by_cb_fill ipc env junk c items fill prio = Ret ipc' ->
      step ipc (ESend c (items, fill junk)) ipc'
  | step_recv ipc h c ipc' d n :
      is_int c ->
      ipc2_receive_one_chunk ipc (Some h) c collect [] = Ret (ipc', [d], n) ->
      step ipc (ERecv h c (Some (n, d))) ipc'
  | step_recv_none ipc h c ipc' n :
      is_int c ->
      ipc2_receive_one_chunk ipc (Some h) c collect [] = Ret (ipc', [], n) ->
      step ipc (ERecv h c None) ipc'.

Inductive run (ipc : ipc2_conf) : list event -> ipc2_conf -> Prop :=
  | run_nil : run ipc [] ipc
  | run_snoc tr ipc1 e ipc2 : run ipc tr ipc1 -> step ipc1 e ipc2 -> run ipc (tr ++ [e]) ipc2.

(** The messages of a trace sent to a consumer. *)
Definition sent_to (c : Z) (tr : list event) : list msg :=
  omap (fun e => match e with ESend c' x => if c' =? c then Some x else None | _ => None end) tr.

(** The messages of a trace a receiver got. *)
Definition received (h : Z) (tr : list event) : list msg :=
  omap (fun e => match e with ERecv h' _ (Some x) => if h' =? h then Some x else None | _ => None end) tr.

(** Receiver [h] is the one that serves consumer [c]. *)
Definition serves (h c : Z) (tr : list event) : Prop :=
  forall h' c' x, ERecv h' c' x ∈ tr -> h' = h <-> c' = c.

(** ** Representation *)

(** An address and the message of the chunk there. *)
Abbreviation node := (Z * msg)%type.

Fixpoint chain (m : store) (p : Z) (ns : list node) : Prop :=
  match ns with
  | [] => p = 0
  | n :: ns => p = n.1 /\ n.1 <> 0 /\
      exists nxt, m !! n.1 = Some (Chunk nxt (i32 (zlen n.2.2)) n.2.1 n.2.2) /\ chain m nxt ns
  end.

Definition last_addr (ns : list node) : Z := match last ns with Some n => n.1 | None => 0 end.

Definition items_of (ns : list node) : Z := foldr (fun n s => n.2.1 + s) 0 ns.

Definition queue_is (m : store) (q : chunk_queue) (ns : list node) : Prop :=
  chain m (q_first q) ns /\ (ns <> [] -> q_last q = last_addr ns /\ i32 (q_items q) = i32 (items_of ns)) /\
  q_count q = i32 (zlen ns).

(** The chunks of a queue or of the local list of a receiver. *)
Inductive owner := InQueue (i : nat) | InRcv (h : nat).

#[export] Instance owner_eq_dec : EqDecision owner.
Proof. solve_decision. Defined.

Record abs := Abs { aq : list (list node); ar : list (option (list node)) }.

Definition own (A : abs) (o : owner) : option (list node) :=
  match o with InQueue i => aq A !! i | InRcv h => mjoin (ar A !! h) end.

Definition rcv_is (m : store) (p : option Z) (l : option (list node)) : Prop :=
  match p, l with Some p, Some ns => chain m p ns | None, None => True | _, _ => False end.

(** Each chunk in memory is in exactly one queue or local list. *)
Record rep (ipc : ipc2_conf) (A : abs) : Prop := {
  rep_consumers : consumers ipc = zlen (queues ipc);
  rep_queues : Forall2 (queue_is (mem ipc)) (queues ipc) (aq A);
  rep_rcvs : Forall2 (rcv_is (mem ipc)) (rcvs ipc) (ar A);
  rep_nodup o ns : own A o = Some ns -> NoDup ns.*1;
  rep_disj o1 o2 n1 n2 a : own A o1 = Some n1 -> own A o2 = Some n2 -> a ∈ n1.*1 -> a ∈ n2.*1 -> o1 = o2;
  rep_dom a : is_Some (mem ipc !! a) -> exists o ns, own A o = Some ns /\ a ∈ ns.*1 }.

Lemma get_Some m p c : p <> 0 -> m !! p = Some c -> get m p = Ret c.
Proof. intros Hp Hm. unfold get. by rewrite (proj2 (Z.eqb_neq p 0) Hp), Hm. Qed.

Lemma chain_frame m m' p ns : (forall a, a ∈ ns.*1 -> m' !! a = m !! a) -> chain m p ns -> chain m' p ns.
Proof.
  revert p. induction ns as [|n ns IH]; intros p Hf; [done|]. simpl. intros (-> & Hn & nxt & Hm & Hc).
  repeat (split; [done|]). exists nxt. split.
  - rewrite Hf; [done|]. rewrite fmap_cons. by left.
  - apply IH; [|done]. intros a Ha. apply Hf. rewrite fmap_cons. by right.
Qed.

Lemma chain_dom m p ns a : chain m p ns -> a ∈ ns.*1 -> a <> 0 /\ is_Some (m !! a).
Proof.
  revert p. induction ns as [|n ns IH]; intros p; simpl; [by rewrite elem_of_nil|].
  intros (-> & Hn & nxt & Hm & Hc) [->|Ha]%elem_of_cons; eauto.
Qed.

Lemma queue_frame m m' q ns : (forall a, a ∈ ns.*1 -> m' !! a = m !! a) -> queue_is m q ns -> queue_is m' q ns.
Proof. intros Hf (Hc & Hl). split; [by eapply chain_frame|done]. Qed.

Lemma rcv_frame m m' p l :
  (forall ns a, l = Some ns -> a ∈ ns.*1 -> m' !! a = m !! a) -> rcv_is m p l -> rcv_is m' p l.
Proof. destruct p, l; simpl; try done. intros Hf. apply chain_frame. eauto. Qed.

Lemma chain_null m ns : chain m 0 ns -> ns = [].
Proof. destruct ns as [|n ns]; [done|]. by intros (<- & ? & _). Qed.

(** The last chunk of a chain gets a successor. *)
Lemma chain_snoc m p ns q x :
  chain m p ns -> NoDup ns.*1 -> ns <> [] -> q <> 0 -> q ∉ ns.*1 ->
  m !! q = Some (Chunk 0 (i32 (zlen x.2)) x.1 x.2) ->
  exists l, last_addr ns <> 0 /\ last_addr ns ∈ ns.*1 /\ m !! last_addr ns = Some l /\
    chain (<[last_addr ns := Chunk q (c_size l) (c_items l) (c_data l)]> m) p (ns ++ [(q, x)]).
Proof.
  intros Hc Hnd Hne Hq Hin Hm. revert p Hc Hnd Hin.
  induction ns as [|n [|n' ns] IH]; intros p; [done| |].
  - cbn [chain]. intros (-> & Hn & nxt & Hmn & ->) _ Hin.
    assert (n.1 <> q) by (rewrite fmap_cons, elem_of_cons in Hin; naive_solver).
    unfold last_addr; cbn [last]. eexists. split; [done|]. split; [by left|]. split; [done|].
    cbn [chain app fst snd]. repeat (split; [done|]). eexists. split; [by rewrite lookup_insert_eq|].
    split; [done|]. split; [done|]. exists 0. by rewrite lookup_insert_ne.
  - cbn [chain]. intros (-> & Hn & nxt & Hmn & Hc) Hnd Hin.
    rewrite fmap_cons in Hnd, Hin. apply NoDup_cons in Hnd as [Hn1 Hnd].
    destruct (IH ltac:(done) nxt Hc Hnd ltac:(rewrite elem_of_cons in Hin; tauto)) as (l & H0 & Hl & Hml & Hch).
    change (last_addr (n :: n' :: ns)) with (last_addr (n' :: ns)).
    exists l. split; [done|]. split; [rewrite fmap_cons; by right|]. split; [done|].
    cbn [chain app]. repeat (split; [done|]). exists nxt. split; [|done].
    rewrite lookup_insert_ne; [done|]. intros Heq. apply Hn1. by rewrite <- Heq.
Qed.

Lemma items_of_snoc ns n : items_of (ns ++ [n]) = items_of ns + n.2.1.
Proof. unfold items_of. induction ns as [|n' ns IH]; cbn [app foldr]; lia. Qed.

Lemma last_addr_snoc ns n : last_addr (ns ++ [n]) = n.1.
Proof. unfold last_addr. by rewrite last_snoc. Qed.

(** Adding a filled chunk to a queue. *)
Lemma add_chunk_ok m q ns p x n :
  queue_is m q ns -> NoDup ns.*1 -> p <> 0 -> p ∉ ns.*1 ->
  m !! p = Some (Chunk 0 (i32 (zlen x.2)) x.1 x.2) ->
  exists m' q', add_chunk_to_queue m q p n = Ret (m', q') /\ queue_is m' q' (ns ++ [(p, x)]) /\
    (forall a, a ∉ ns.*1 -> m' !! a = m !! a) /\ dom m' = dom m /\
    q_sent q' = u64 (q_sent q + 1) /\ q_items_sent q' = u64 (q_items_sent q + n).
Proof.
  intros (Hc & Hl & Hn) Hnd Hp Hin Hm. unfold add_chunk_to_queue.
  destruct (Z.eqb_spec (q_first q) 0) as [E|E].
  - rewrite E in Hc. apply chain_null in Hc as ->. rewrite (get_Some _ _ _ Hp Hm). cbn [mbind res_mbind].
    eexists _, _. split; [done|]. split; [|done]. split; [|split].
    + cbn [q_first app chain fst]. repeat (split; [done|]). eauto.
    + intros _. cbn. split; [done|]. f_equal. lia.
    + done.
  - destruct (decide (ns = [])) as [->|Hne]; [done|].
    destruct (Hl Hne) as [Hla Hit].
    destruct (chain_snoc m _ ns p x Hc Hnd Hne Hp Hin Hm) as (l & H0 & Hli & Hml & Hch).
    rewrite Hla, (get_Some _ _ _ H0 Hml). cbn [mbind res_mbind].
    assert (Hnp : last_addr ns <> p) by (intros Heq; apply Hin; by rewrite <- Heq).
    rewrite (get_Some _ p (Chunk 0 (i32 (zlen x.2)) x.1 x.2) Hp) by (by rewrite lookup_insert_ne).
    cbn [mbind res_mbind]. eexists _, _. split; [done|]. split; [split; [exact Hch|split]|split; [|split]].
    + intros _. cbn [q_last q_items c_items]. rewrite last_addr_snoc, items_of_snoc. split; [done|].
      cbn [snd fst]. by rewrite i32_i32, <- i32_i32_add, Hit, i32_i32_add.
    + cbn [q_count]. rewrite Hn, i32_i32_add. f_equal. lens.
    + intros a Ha. rewrite lookup_insert_ne; [done|]. intros Heq. apply Ha. by rewrite <- Heq.
    + rewrite dom_insert_L. apply (elem_of_dom_2 m) in Hml. set_solver.
    + done.
Qed.

Lemma wait_malloc_in ps p : wait_malloc ps = Ret p -> p <> 0 /\ p ∈ ps.
Proof.
  induction ps as [|q ps IH]; cbn [wait_malloc]; [done|]. destruct (Z.eqb_spec q 0); intros H.
  - destruct (IH H). split; [done|by right].
  - injection H as ->. split; [done|by left].
Qed.

(** One chain changes, the others are in memory that does not. *)
Lemma Forall2_frame {X Y} (P Q : X -> Y -> Prop) (l : list X) (k : list Y) i x y :
  Forall2 P l k -> (forall j a b, j <> i -> k !! j = Some b -> P a b -> Q a b) -> Q x y ->
  Forall2 Q (<[i := x]> l) (<[i := y]> k).
Proof.
  intros HF Hf Hq. apply Forall2_same_length_lookup. rewrite !length_insert.
  split; [by eapply Forall2_length|]. intros j a b. rewrite !list_lookup_insert.
  pose proof (Forall2_length _ _ _ HF). repeat case_decide; try naive_solver lia.
  intros Ha Hb. assert (i = j -> False) by (intros ->; apply lookup_lt_Some in Ha; naive_solver lia).
  apply (Hf j); [congruence|done|]. by eapply Forall2_lookup_lr.
Qed.

Lemma Forall2_frame_all {X Y} (P Q : X -> Y -> Prop) (l : list X) (k : list Y) :
  Forall2 P l k -> (forall j a b, k !! j = Some b -> P a b -> Q a b) -> Forall2 Q l k.
Proof.
  intros HF Hf. apply Forall2_same_length_lookup. split; [by eapply Forall2_length|].
  intros j a b Ha Hb. eapply Hf; [done|]. by eapply Forall2_lookup_lr.
Qed.

Lemma own_set_queue A i ns o :
  (i < length (aq A))%nat ->
  own (Abs (<[i := ns]> (aq A)) (ar A)) o = if decide (o = InQueue i) then Some ns else own A o.
Proof.
  intros Hi. destruct o as [j|h]; cbn [own aq ar]; [|by case_decide].
  rewrite list_lookup_insert. repeat case_decide; naive_solver.
Qed.

Lemma own_set_rcv A h ns o :
  (h < length (ar A))%nat ->
  own (Abs (aq A) (<[h := Some ns]> (ar A))) o = if decide (o = InRcv h) then Some ns else own A o.
Proof.
  intros Hi. destruct o as [j|j]; cbn [own aq ar]; [by case_decide|].
  rewrite list_lookup_insert. repeat case_decide; naive_solver.
Qed.

Lemma rep_own_dom ipc A o ns a : rep ipc A -> own A o = Some ns -> a ∈ ns.*1 -> a <> 0 /\ is_Some (mem ipc !! a).
Proof.
  intros HR Ho Ha. destruct o as [i|h]; simpl in Ho.
  - destruct (Forall2_lookup_r _ _ _ _ _ (rep_queues _ _ HR) Ho) as (q & _ & Hc & _). by eapply chain_dom.
  - destruct (ar A !! h) as [l|] eqn:E; [|done]. simpl in Ho. subst l.
    destruct (Forall2_lookup_r _ _ _ _ _ (rep_rcvs _ _ HR) E) as ([p|] & _ & Hc); [|done]. by eapply chain_dom.
Qed.

Lemma zget_of_nat {X} (l : list X) (i : nat) : zget l (Z.of_nat i) = l !! i.
Proof. unfold zget. destruct (Z.ltb_spec (Z.of_nat i) 0); [lia|]. by rewrite Nat2Z.id. Qed.

Lemma zset_of_nat {X} (l : list X) (i : nat) x : zset l (Z.of_nat i) x = <[i := x]> l.
Proof. unfold zset. destruct (Z.ltb_spec (Z.of_nat i) 0); [lia|]. by rewrite Nat2Z.id. Qed.

Definition with_chunk (ipc : ipc2_conf) (p : Z) (x : msg) : ipc2_conf :=
  set_mem ipc (<[p := Chunk 0 (i32 (zlen x.2)) x.1 x.2]> (mem ipc)).

(** What a step does to the fields outside of the representation. *)
Definition bump (q q' : chunk_queue) (n : Z) : Prop :=
  q_sent q' = u64 (q_sent q + 1) /\ q_items_sent q' = u64 (q_items_sent q + n).

Lemma queue_chunk_ok ipc A i ns p x n :
  rep ipc A -> aq A !! i = Some ns -> p <> 0 -> mem ipc !! p = None ->
  exists ipc' q q', queue_chunk (with_chunk ipc p x) (Z.of_nat i) p n = Ret ipc' /\
    rep ipc' (Abs (<[i := ns ++ [(p, x)]]> (aq A)) (ar A)) /\ low_mem_watermark ipc' = low_mem_watermark ipc /\
    queues ipc !! i = Some q /\ queues ipc' = <[i := q']> (queues ipc) /\ bump q q' n.
Proof.
  intros HR Hi Hp Hfr. pose proof (lookup_lt_Some _ _ _ Hi) as Hlt.
  destruct (Forall2_lookup_r _ _ _ _ _ (rep_queues _ _ HR) Hi) as (q & Hq & Hqi).
  assert (Hown : forall o n a, own A o = Some n -> a ∈ n.*1 -> a <> p).
  { intros o n' a Ho Ha ->. destruct (rep_own_dom _ _ _ _ _ HR Ho Ha) as [_ [? ?]]. congruence. }
  unfold queue_chunk, with_chunk. cbn [queues set_mem mem]. rewrite zget_of_nat, Hq. cbn [of_opt mbind res_mbind].
  destruct (add_chunk_ok (<[p := Chunk 0 (i32 (zlen x.2)) x.1 x.2]> (mem ipc)) q ns p x n)
    as (m' & q' & -> & Hq' & Hf & Hd & Hs); [|by apply (rep_nodup _ _ HR (InQueue i))|done| |by rewrite lookup_insert_eq|].
  { eapply queue_frame; [|done]. intros a Ha. rewrite lookup_insert_ne; [done|].
    intros <-. by eapply (Hown (InQueue i)). }
  { intros Ha. by eapply (Hown (InQueue i)). }
  cbn [mbind res_mbind]. eexists _, q, q'. split; [done|]. split; [|cbn; by rewrite zset_of_nat].
  assert (Hfr' : forall o no a, o <> InQueue i -> own A o = Some no -> a ∈ no.*1 -> m' !! a = mem ipc !! a).
  { intros o no a Hne Ho Ha. rewrite Hf.
    - rewrite lookup_insert_ne; [done|]. intros <-. by eapply Hown.
    - intros Hin. apply Hne. by eapply (rep_disj _ _ HR). }
  constructor; cbn [set_queue set_mem consumers queues rcvs mem aq ar]; rewrite ?zset_of_nat.
  - unfold zlen. rewrite length_insert. apply (rep_consumers _ _ HR).
  - eapply Forall2_frame; [apply (rep_queues _ _ HR)| |done]. intros j a b Hj Hb. apply queue_frame.
    intros a' Ha'. eapply (Hfr' (InQueue j)); [by intros [= ->]|done|done].
  - eapply Forall2_frame_all; [apply (rep_rcvs _ _ HR)|]. intros j a b Hb. apply rcv_frame.
    intros no a' -> Ha'. apply (Hfr' (InRcv j) no); [done| |done]. simpl. by rewrite Hb.
  - intros o no. rewrite own_set_queue by done. case_decide; [|apply (rep_nodup _ _ HR)].
    intros [= <-]. rewrite fmap_app. apply NoDup_app. split; [by apply (rep_nodup _ _ HR (InQueue i))|].
    split; [|by apply NoDup_singleton]. intros a Ha [->|Ha']%elem_of_cons; [|by apply elem_of_nil in Ha'].
    by eapply (Hown (InQueue i)).
  - intros o1 o2 n1 n2 a. rewrite !own_set_queue by done.
    assert (Happ : forall a, a ∈ (ns ++ [(p, x)]).*1 -> a ∈ ns.*1 \/ a = p).
    { intros a'. rewrite fmap_app, elem_of_app. simpl. rewrite elem_of_cons, elem_of_nil. tauto. }
    repeat case_decide; subst; [done| | |apply (rep_disj _ _ HR)]; intros H1 H2 Ha1 Ha2; simplify_eq.
    + apply Happ in Ha1 as [Ha1| ->]; [by eapply (rep_disj _ _ HR)|]. by destruct (Hown _ _ _ H2 Ha2).
    + apply Happ in Ha2 as [Ha2| ->]; [by eapply (rep_disj _ _ HR)|]. by destruct (Hown _ _ _ H1 Ha1).
  - intros a Ha. apply (elem_of_dom m') in Ha. rewrite Hd, dom_insert_L, elem_of_union, elem_of_singleton, elem_of_dom in Ha.
    assert (Hnew : own (Abs (<[i := ns ++ [(p, x)]]> (aq A)) (ar A)) (InQueue i) = Some (ns ++ [(p, x)])).
    { rewrite own_set_queue by done. by rewrite decide_True. }
    destruct Ha as [->|Ha].
    + exists (InQueue i), (ns ++ [(p, x)]). split; [done|]. rewrite fmap_app. apply elem_of_app. right. by left.
    + destruct (rep_dom _ _ HR a Ha) as (o & no & Ho & Hin). destruct (decide (o = InQueue i)) as [->|Hne].
      * exists (InQueue i), (ns ++ [(p, x)]). split; [done|]. simpl in Ho. rewrite Hi in Ho. simplify_eq.
        rewrite fmap_app. apply elem_of_app. by left.
      * exists o, no. rewrite own_set_queue by done. by rewrite decide_False.
Qed.

(** *** Sending *)

(** Reserving, filling and queueing a chunk. *)
Lemma push_ok ipc A env junk data i ns items prio :
  rep ipc A -> fresh_env (mem ipc) env -> length data = length junk -> aq A !! i = Some ns ->
  wait_watermark prio (low_mem_watermark ipc) (free_sizes env) = Ret tt ->
  (exists p, wait_malloc (mallocs env) = Ret p) ->
  exists p ipc' q q',
    ('(ipc, chunk) ← allocate_chunk ipc env junk items prio;
     ipc ← fill_chunk ipc chunk data;
     queue_chunk ipc (Z.of_nat i) chunk items) = Ret ipc' /\
    rep ipc' (Abs (<[i := ns ++ [(p, (items, data))]]> (aq A)) (ar A)) /\
    low_mem_watermark ipc' = low_mem_watermark ipc /\
    queues ipc !! i = Some q /\ queues ipc' = <[i := q']> (queues ipc) /\ bump q q' items.
Proof.
  intros HR Henv Hlen Hi Hw [p Hp]. unfold allocate_chunk. rewrite Hw. cbn [mbind res_mbind].
  rewrite Hp. cbn [mbind res_mbind]. apply wait_malloc_in in Hp as [Hp0 Hpin].
  unfold fill_chunk. cbn [set_mem mem].
  rewrite (get_Some _ p (Chunk 0 (i32 (zlen junk)) items junk) Hp0) by (by rewrite lookup_insert_eq).
  cbn [mbind res_mbind c_next c_size c_items set_mem consumers low_mem_watermark queues rcvs mem].
  rewrite insert_insert_eq. replace (zlen junk) with (zlen data) by (unfold zlen; by rewrite Hlen).
  destruct (queue_chunk_ok ipc A i ns p (items, data) items) as (ipc' & q & q' & H); [done..| |].
  - unfold fresh_env in Henv. rewrite Forall_forall in Henv. by destruct (Henv p Hpin).
  - exists p, ipc', q, q'. exact H.
Qed.

Lemma consumer_index ipc A c :
  rep ipc A -> zlen (queues ipc) < 2 ^ 31 -> is_int c ->
  if wrong_consumer ipc c then ~ 0 <= c < consumers ipc
  else exists i ns, c = Z.of_nat i /\ aq A !! i = Some ns.
Proof.
  unfold is_int. intros HR Hsz Hc. unfold wrong_consumer. rewrite (rep_consumers _ _ HR).
  pose proof (zlen_nonneg (queues ipc)).
  destruct (u32 c >=? zlen (queues ipc)) eqn:E.
  - intros [H1 H2]. rewrite u32_small in E by lia. lia.
  - assert (u32 c < zlen (queues ipc)) by lia.
    assert (Hcr : 0 <= c < zlen (queues ipc)).
    { destruct (decide (0 <= c)); [rewrite u32_small in * by lia; lia|].
      unfold u32 in *. rewrite <- (Z.mod_add c 1) in * by lia. rewrite Z.mod_small in * by lia. lia. }
    exists (Z.to_nat c). pose proof (Forall2_length _ _ _ (rep_queues _ _ HR)) as Hl.
    destruct (lookup_lt_is_Some_2 (aq A) (Z.to_nat c)) as [ns Hns]; [unfold zlen in *; lia|].
    exists ns. split; [lia|done].
Qed.

(** *** Receiving *)

(** The first chunk of the local list is handed out and freed. *)
Lemma pop_rep ipc A h n r :
  rep ipc A -> ar A !! h = Some (Some (n :: r)) ->
  exists nxt, mem ipc !! n.1 = Some (Chunk nxt (i32 (zlen n.2.2)) n.2.1 n.2.2) /\ n.1 <> 0 /\
    rcvs ipc !! h = Some (Some n.1) /\
    rep (set_mem (set_rcv ipc (Z.of_nat h) (Some nxt)) (delete n.1 (mem ipc))) (Abs (aq A) (<[h := Some r]> (ar A))).
Proof.
  intros HR Hh. destruct (Forall2_lookup_r _ _ _ _ _ (rep_rcvs _ _ HR) Hh) as ([p|] & Hp & Hc); [|done].
  cbn [rcv_is chain] in Hc. destruct Hc as (-> & Hn0 & nxt & Hm & Hc). exists nxt. do 3 (split; [done|]).
  assert (Hown : own A (InRcv h) = Some (n :: r)) by (cbn; by rewrite Hh).
  pose proof (rep_nodup _ _ HR _ _ Hown) as Hnd. rewrite fmap_cons in Hnd. apply NoDup_cons in Hnd as [Hnr Hnd].
  pose proof (lookup_lt_Some _ _ _ Hh) as Hlt.
  assert (Hf : forall o no a, o <> InRcv h -> own A o = Some no -> a ∈ no.*1 -> delete n.1 (mem ipc) !! a = mem ipc !! a).
  { intros o no a Hne Ho Ha. apply lookup_delete_ne. intros <-. apply Hne.
    eapply (rep_disj _ _ HR); [exact Ho|exact Hown|done|]. rewrite fmap_cons. by left. }
  constructor; cbn [set_mem set_rcv consumers queues rcvs mem]; rewrite ?zset_of_nat.
  - apply (rep_consumers _ _ HR).
  - eapply Forall2_frame_all; [apply (rep_queues _ _ HR)|]. intros j a b Hb. apply queue_frame.
    intros a' Ha'. by eapply (Hf (InQueue j)).
  - eapply Forall2_frame; [apply (rep_rcvs _ _ HR)| |].
    + intros j a b Hj Hb. apply rcv_frame. intros no a' -> Ha'.
      apply (Hf (InRcv j) no); [by intros [= ->]| |done]. cbn. by rewrite Hb.
    + cbn [rcv_is]. eapply chain_frame; [|done]. intros a Ha. apply lookup_delete_ne. by intros <-.
  - intros o no. rewrite own_set_rcv by done. case_decide; [by intros [= <-]|apply (rep_nodup _ _ HR)].
  - assert (Hsub : forall a, a ∈ r.*1 -> a ∈ (n :: r).*1) by (intros; rewrite fmap_cons; by right).
    intros o1 o2 n1 n2 a. rewrite !own_set_rcv by done. repeat case_decide; subst; intros; simplify_eq; [done|..];
      eapply (rep_disj _ _ HR); eauto.
  - intros a [c Ha]. apply lookup_delete_Some in Ha as [Hne Ha].
    destruct (rep_dom _ _ HR a ltac:(eauto)) as (o & no & Ho & Hin). destruct (decide (o = InRcv h)) as [->|Hno].
    + rewrite Hown in Ho. simplify_eq. rewrite fmap_cons in Hin. apply elem_of_cons in Hin as [->|Hin]; [done|].
      exists (InRcv h), r. rewrite own_set_rcv by done. by rewrite decide_True.
    + exists o, no. rewrite own_set_rcv by done. by rewrite decide_False.
Qed.

(** The whole queue moves to an empty local list. *)
Lemma take_rep ipc A h i ns :
  rep ipc A -> ar A !! h = Some (Some []) -> aq A !! i = Some ns ->
  exists q, queues ipc !! i = Some q /\ chain (mem ipc) (q_first q) ns /\
    rep (set_queue (set_rcv ipc (Z.of_nat h) (Some (q_first q))) (Z.of_nat i)
           (ChunkQueue 0 0 0 (q_items q) (q_sent q) (q_items_sent q)))
        (Abs (<[i := []]> (aq A)) (<[h := Some ns]> (ar A))).
Proof.
  intros HR Hh Hi. destruct (Forall2_lookup_r _ _ _ _ _ (rep_queues _ _ HR) Hi) as (q & Hq & Hc & _).
  exists q. do 2 (split; [done|]).
  pose proof (lookup_lt_Some _ _ _ Hh) as Hlt. pose proof (lookup_lt_Some _ _ _ Hi) as Hlti.
  assert (Hown : forall o, own (Abs (<[i := []]> (aq A)) (<[h := Some ns]> (ar A))) o =
    if decide (o = InRcv h) then Some ns else if decide (o = InQueue i) then Some [] else own A o).
  { intros o. etrans; [apply (own_set_rcv (Abs (<[i := []]> (aq A)) (ar A))); done|].
    case_decide; [done|]. by rewrite own_set_queue. }
  assert (Hmv : forall o no a, own (Abs (<[i := []]> (aq A)) (<[h := Some ns]> (ar A))) o = Some no -> a ∈ no.*1 ->
    exists o', own A o' = Some no /\ (o' = o /\ o <> InRcv h /\ o <> InQueue i \/ o' = InQueue i /\ o = InRcv h)).
  { intros o no a. rewrite Hown. case_decide as H1; [intros [= <-] _; exists (InQueue i); naive_solver|].
    case_decide as H2; [intros [= <-] H; by apply elem_of_nil in H|]. intros Ho _. exists o. naive_solver. }
  constructor; cbn [set_queue set_rcv consumers queues rcvs mem]; rewrite ?zset_of_nat.
  - unfold zlen. rewrite length_insert. apply (rep_consumers _ _ HR).
  - eapply Forall2_frame; [apply (rep_queues _ _ HR)|done|]. split; [done|]. split; [by intros []|done].
  - eapply Forall2_frame; [apply (rep_rcvs _ _ HR)|done|done].
  - intros o no. rewrite Hown. repeat case_decide; [intros [= <-]|intros [= <-]|apply (rep_nodup _ _ HR)].
    + by apply (rep_nodup _ _ HR (InQueue i)).
    + by apply NoDup_nil.
  - intros o1 o2 n1 n2 a H1 H2 Ha1 Ha2.
    destruct (Hmv _ _ _ H1 Ha1) as (o1' & Ho1 & Hc1), (Hmv _ _ _ H2 Ha2) as (o2' & Ho2 & Hc2).
    pose proof (rep_disj _ _ HR _ _ _ _ _ Ho1 Ho2 Ha1 Ha2). naive_solver.
  - intros a Ha. destruct (rep_dom _ _ HR a Ha) as (o & no & Ho & Hin).
    destruct (decide (o = InQueue i)) as [->|H2].
    + exists (InRcv h), ns. rewrite Hown, decide_True by done. simpl in Ho. by simplify_eq.
    + destruct (decide (o = InRcv h)) as [->|H1].
      * cbn in Ho. rewrite Hh in Ho. simpl in Ho. simplify_eq. by apply elem_of_nil in Hin.
      * exists o, no. by rewrite Hown, !decide_False.
Qed.

(** ** Specification: FIFO queues of messages *)

Record spec := Spec { sq : list (list msg); sr : list (option (list msg)) }.

(** A receive takes the local messages first, then those of the queue. *)
Definition spec_take (l ns : list msg) : option msg * list msg * list msg :=
  match l, ns with
  | x :: l, _ => (Some x, l, ns)
  | [], x :: ns => (Some x, ns, [])
  | [], [] => (None, [], [])
  end.

Inductive spec_step : spec -> event -> spec -> Prop :=
  | spec_send S i ns x :
      sq S !! i = Some ns ->
      spec_step S (ESend (Z.of_nat i) x) (Spec (<[i := ns ++ [x]]> (sq S)) (sr S))
  | spec_skip S c : spec_step S (ESkip c) S
  | spec_recv S h i l ns x l' ns' :
      sr S !! h = Some (Some l) -> sq S !! i = Some ns -> spec_take l ns = (x, l', ns') ->
      spec_step S (ERecv (Z.of_nat h) (Z.of_nat i) x) (Spec (<[i := ns']> (sq S)) (<[h := Some l']> (sr S))).

Definition msgs (ns : list node) : list msg := ns.*2.

Definition strip (A : abs) : spec := Spec (msgs <$> aq A) ((fun o : option (list node) => msgs <$> o) <$> ar A).

(** The memory holds the messages of the specification, each once and nothing else. *)
Definition implements (ipc : ipc2_conf) (S : spec) : Prop := exists A, rep ipc A /\ strip A = S.

Lemma strip_queue A i ns : sq (strip A) !! i = Some ns -> exists na, aq A !! i = Some na /\ ns = na.*2.
Proof. cbn. rewrite list_lookup_fmap. destruct (aq A !! i); naive_solver. Qed.

Lemma strip_rcv A h l : sr (strip A) !! h = Some (Some l) -> exists na, ar A !! h = Some (Some na) /\ l = na.*2.
Proof. cbn. rewrite list_lookup_fmap. destruct (ar A !! h) as [[na|]|]; naive_solver. Qed.

Lemma strip_set_queue A i ns :
  strip (Abs (<[i := ns]> (aq A)) (ar A)) = Spec (<[i := ns.*2]> (sq (strip A))) (sr (strip A)).
Proof. unfold strip. cbn. by rewrite list_fmap_insert. Qed.

Lemma strip_set_rcv A h ns :
  strip (Abs (aq A) (<[h := Some ns]> (ar A))) = Spec (sq (strip A)) (<[h := Some ns.*2]> (sr (strip A))).
Proof. unfold strip. cbn. by rewrite list_fmap_insert. Qed.

(** The counters of a queue. *)
Definition counters (ipc : ipc2_conf) : list (Z * Z) := (fun q => (q_sent q, q_items_sent q)) <$> queues ipc.

Definition result_ctx {Ctx} (f : list Z -> Ctx -> Ctx) (ctx : Ctx) (x : option msg) : Ctx :=
  match x with Some x => f x.2 ctx | None => ctx end.
Definition result_items (x : option msg) : Z := match x with Some x => x.1 | None => 0 end.

Lemma rcv_queue_ok ipc h p : rcvs ipc !! h = Some (Some p) -> rcv_queue ipc (Z.of_nat h) = Ret p.
Proof. intros H. unfold rcv_queue. rewrite zget_of_nat, H. done. Qed.

(** Handing out the first chunk of the local list. *)
Lemma pop_ok {Ctx} ipc A h n r (f : list Z -> Ctx -> Ctx) ctx :
  rep ipc A -> ar A !! h = Some (Some (n :: r)) ->
  exists ipc',
    (p ← rcv_queue ipc (Z.of_nat h); chunk ← get (mem ipc) p;
     Ret (set_mem (set_rcv ipc (Z.of_nat h) (Some (c_next chunk))) (delete p (mem (set_rcv ipc (Z.of_nat h) (Some (c_next chunk))))),
          f (c_data chunk) ctx, c_items chunk)) = Ret (ipc', f n.2.2 ctx, n.2.1) /\
    rep ipc' (Abs (aq A) (<[h := Some r]> (ar A))) /\ counters ipc' = counters ipc /\
    low_mem_watermark ipc' = low_mem_watermark ipc.
Proof.
  intros HR Hh. destruct (pop_rep _ _ _ _ _ HR Hh) as (nxt & Hm & Hn & Hr & HR').
  rewrite (rcv_queue_ok _ _ _ Hr). cbn [mbind res_mbind]. rewrite (get_Some _ _ _ Hn Hm). cbn [mbind res_mbind].
  eexists. split; [done|]. done.
Qed.

Lemma counters_set ipc i q q' :
  queues ipc !! i = Some q -> q_sent q' = q_sent q -> q_items_sent q' = q_items_sent q ->
  (fun q => (q_sent q, q_items_sent q)) <$> <[i := q']> (queues ipc) = counters ipc.
Proof.
  intros Hq H1 H2. unfold counters. rewrite list_fmap_insert. apply list_insert_id.
  rewrite list_lookup_fmap, Hq. cbn. by rewrite H1, H2.
Qed.

Lemma receive_ok {Ctx} ipc S h i l ns x l' ns' (f : list Z -> Ctx -> Ctx) ctx :
  implements ipc S -> zlen (queues ipc) < 2 ^ 31 ->
  sr S !! h = Some (Some l) -> sq S !! i = Some ns -> spec_take l ns = (x, l', ns') ->
  exists ipc', ipc2_receive_one_chunk ipc (Some (Z.of_nat h)) (Z.of_nat i) f ctx =
      Ret (ipc', result_ctx f ctx x, result_items x) /\
    implements ipc' (Spec (<[i := ns']> (sq S)) (<[h := Some l']> (sr S))) /\ counters ipc' = counters ipc /\
    low_mem_watermark ipc' = low_mem_watermark ipc.
Proof.
  intros (A & HR & <-) Hsz Hh Hi Htk.
  apply strip_rcv in Hh as (la & Hla & ->). apply strip_queue in Hi as (na & Hna & ->).
  unfold ipc2_receive_one_chunk.
  assert (Hil : Z.of_nat i < zlen (queues ipc)).
  { pose proof (Forall2_length _ _ _ (rep_queues _ _ HR)). apply lookup_lt_Some in Hna. unfold zlen. lia. }
  replace (wrong_consumer ipc (Z.of_nat i)) with false.
  2: { symmetry. unfold wrong_consumer. rewrite (rep_consumers _ _ HR), u32_small by lia. lia. }
  unfold ensure_chunks_in_local_queue.
  destruct (Forall2_lookup_r _ _ _ _ _ (rep_rcvs _ _ HR) Hla) as ([p|] & Hp & Hc); [|done]. cbn [rcv_is] in Hc.
  rewrite (rcv_queue_ok _ _ _ Hp). cbn [mbind res_mbind].
  destruct la as [|n la].
  - cbn [chain] in Hc. subst p. cbn [Z.eqb negb].
    destruct (take_rep _ _ _ _ _ HR Hla Hna) as (q & Hq & Hcq & HR'). rewrite zget_of_nat, Hq. cbn [of_opt mbind res_mbind].
    set (ipc1 := set_queue _ _ _) in *.
    assert (Hcnt : counters ipc1 = counters ipc).
    { unfold counters at 1, ipc1. cbn [queues set_queue set_rcv]. rewrite zset_of_nat. by apply (counters_set _ _ q). }
    destruct na as [|n na]; cbn [chain] in Hcq.
    + rewrite Hcq. simpl in Htk. simplify_eq. cbn [Z.eqb mbind res_mbind].
      replace (FAIL =? FAIL) with true by done. eexists. split; [done|]. split; [|done].
      eexists. split; [exact HR'|]. unfold strip; cbn. by rewrite !list_fmap_insert.
    + destruct Hcq as (Hf & Hn0 & Hcq). rewrite Hf, (proj2 (Z.eqb_neq n.1 0) Hn0).
      cbn [mbind res_mbind]. replace (SUCCEED =? FAIL) with false by done. simpl in Htk. simplify_eq.
      pose proof (lookup_lt_Some _ _ _ Hla).
      destruct (pop_ok ipc1 _ h n na f ctx HR') as (ipc' & Hpop & HR'' & Hc' & Hw'); [cbn; by apply list_lookup_insert_eq|].
      cbv zeta. rewrite Hpop. eexists. split; [done|]. split; [|by rewrite Hc'].
      eexists. split; [exact HR''|]. unfold strip; cbn. by rewrite list_insert_insert_eq, !list_fmap_insert.
  - cbn [chain] in Hc. destruct Hc as (-> & Hn0 & Hc). rewrite (proj2 (Z.eqb_neq n.1 0) Hn0). cbn [negb].
    cbn [mbind res_mbind]. replace (SUCCEED =? FAIL) with false by done. simpl in Htk. simplify_eq.
    destruct (pop_ok ipc _ h n la f ctx HR Hla) as (ipc' & Hpop & HR'' & Hc' & Hw').
    cbv zeta. rewrite Hpop. eexists. split; [done|]. split; [|done].
    eexists. split; [exact HR''|]. rewrite strip_set_rcv. f_equal. symmetry. apply list_insert_id. cbn.
    by rewrite list_lookup_fmap, Hna.
Qed.

(** ** Simulation *)

Lemma alloc_inv ipc env junk items prio r :
  allocate_chunk ipc env junk items prio = Ret r ->
  wait_watermark prio (low_mem_watermark ipc) (free_sizes env) = Ret tt /\ exists p, wait_malloc (mallocs env) = Ret p.
Proof. unfold allocate_chunk. intros H. inv_ret. destruct x. eauto. Qed.

(** The counters after an event. *)
Definition counted (e : event) (ipc ipc' : ipc2_conf) : Prop :=
  match e with
  | ESend c (n, _) =>
      exists i s t, counters ipc !! i = Some (s, t) /\
        counters ipc' = <[i := (u64 (s + 1), u64 (t + n))]> (counters ipc)
  | ESkip _ | ERecv _ _ _ => counters ipc' = counters ipc
  end.

Lemma push_refines ipc S env junk data c items prio ipc' :
  implements ipc S -> fresh_env (mem ipc) env -> length data = length junk ->
  ('(ipc, chunk) ← allocate_chunk ipc env junk items prio;
   ipc ← fill_chunk ipc chunk data;
   queue_chunk ipc c chunk items) = Ret ipc' ->
  exists S', spec_step S (ESend c (items, data)) S' /\ implements ipc' S' /\ counted (ESend c (items, data)) ipc ipc'.
Proof.
  intros (A & HR & <-) Hfr Hlen Hrun. pose proof Hrun as Hinv.
  apply bind_Ret in Hinv as ([ipc1 p1] & Ha & Hinv). destruct (alloc_inv _ _ _ _ _ _ Ha) as [Hw Hm].
  assert (exists i q, c = Z.of_nat i /\ queues ipc !! i = Some q) as (i & q0 & -> & Hq0).
  { apply bind_Ret in Hinv as (ipc2 & Hf & Hq). unfold fill_chunk in Hf. unfold allocate_chunk in Ha.
    unfold queue_chunk in Hq. inv_ret. subst. cbn [queues set_mem] in *.
    match goal with H : zget _ _ = Some _ |- _ => apply zget_Some in H as [Hc0 Hq1] end.
    simplify_eq/=. exists (Z.to_nat c). rewrite Z2Nat.id by done. eauto. }
  destruct (Forall2_lookup_l _ _ _ _ _ (rep_queues _ _ HR) Hq0) as (ns & Hns & _).
  destruct (push_ok ipc A env junk data i ns items prio HR Hfr Hlen Hns Hw Hm)
    as (p & ipc2 & q & q' & Hrun' & HR' & Hlw & Hq & Hqs & Hb1 & Hb2).
  rewrite Hrun in Hrun'. injection Hrun' as <-. eexists. split; [|split].
  - apply (spec_send (strip A) i (msgs ns) (items, data)). cbn. by rewrite list_lookup_fmap, Hns.
  - eexists. split; [exact HR'|]. rewrite strip_set_queue. unfold msgs at 1. rewrite fmap_app. done.
  - cbn [counted]. exists i, (q_sent q), (q_items_sent q).
    unfold counters. rewrite list_lookup_fmap, Hq, Hqs, list_fmap_insert, Hb1, Hb2. done.
Qed.

Lemma receive_inv {Ctx} ipc S h c (f : list Z -> Ctx -> Ctx) ctx r :
  implements ipc S -> zlen (queues ipc) < 2 ^ 31 -> is_int c ->
  ipc2_receive_one_chunk ipc (Some h) c f ctx = Ret r ->
  exists h' i l ns, h = Z.of_nat h' /\ c = Z.of_nat i /\ sr S !! h' = Some (Some l) /\ sq S !! i = Some ns.
Proof.
  intros (A & HR & <-) Hsz Hc Hrun. unfold ipc2_receive_one_chunk in Hrun.
  pose proof (consumer_index _ _ _ HR Hsz Hc) as Hci. destruct (wrong_consumer ipc c); [done|].
  destruct Hci as (i & ns & -> & Hns). apply bind_Ret in Hrun as ([? ?] & He & _).
  unfold ensure_chunks_in_local_queue in He. apply bind_Ret in He as (p & Hp & _).
  unfold rcv_queue in Hp. inv_ret. subst. apply zget_Some in H as [H0 H].
  destruct (Forall2_lookup_l _ _ _ _ _ (rep_rcvs _ _ HR) H) as ([l|] & Hl & Hr); [|done].
  exists (Z.to_nat h), i, (msgs l), (msgs ns). rewrite Z2Nat.id by done. cbn. rewrite !list_lookup_fmap, Hl, Hns. done.
Qed.

Lemma receive_refines ipc S h c ipc' ctx n :
  implements ipc S -> zlen (queues ipc) < 2 ^ 31 -> is_int c ->
  ipc2_receive_one_chunk ipc (Some h) c collect [] = Ret (ipc', ctx, n) ->
  exists S' x, spec_step S (ERecv h c x) S' /\ implements ipc' S' /\ counters ipc' = counters ipc /\
    ctx = result_ctx collect [] x /\ n = result_items x.
Proof.
  intros HI Hsz Hc Hrun. destruct (receive_inv _ _ _ _ _ _ _ HI Hsz Hc Hrun) as (h' & i & l & ns & -> & -> & Hl & Hns).
  destruct (spec_take l ns) as [[x l'] ns'] eqn:Htk.
  destruct (receive_ok ipc S h' i l ns x l' ns' collect [] HI Hsz Hl Hns Htk) as (ipc1 & Hrun' & HI' & Hcn & _).
  rewrite Hrun in Hrun'. simplify_eq. eexists _, x. split; [|done]. by eapply spec_recv.
Qed.

Lemma step_refines ipc S e ipc' :
  implements ipc S -> zlen (queues ipc) < 2 ^ 31 -> step ipc e ipc' ->
  exists S', spec_step S e S' /\ implements ipc' S' /\ counted e ipc ipc'.
Proof.
  intros HI Hsz Hst. destruct Hst as [ipc env c items data prio ipc' Hc Hfr Hi Hrun|ipc env c data prio ipc' Hrun
    |ipc env junk c items fill prio ipc' Hc Hfr Hl Hrun
    |ipc h c ipc' d n Hc Hrun|ipc h c ipc' n Hc Hrun].
  - unfold ipc2_send_chunk in Hrun. rewrite (proj2 (Z.eqb_neq 0 items)) in Hrun by done.
    destruct (wrong_consumer ipc c); [done|]. by eapply push_refines.
  - unfold ipc2_send_chunk in Hrun. simplify_eq/=. exists S. split; [by constructor|]. by split.
  - by eapply push_refines.
  - destruct (receive_refines _ _ _ _ _ _ _ HI Hsz Hc Hrun) as (S' & x & Hs & HI' & Hcn & Hx & Hn).
    destruct x as [[n' d']|]; [|done]. unfold result_ctx, result_items, collect in *. simplify_eq/=. eauto.
  - destruct (receive_refines _ _ _ _ _ _ _ HI Hsz Hc Hrun) as (S' & x & Hs & HI' & Hcn & Hx & Hn).
    destruct x as [[n' d']|]; [done|]. eauto.
Qed.

Lemma counted_len e ipc ipc' : counted e ipc ipc' -> zlen (queues ipc') = zlen (queues ipc).
Proof.
  assert (Hl : forall a, zlen (queues a) = zlen (counters a)) by (intros; unfold zlen, counters; by rewrite length_fmap).
  rewrite !Hl. destruct e as [c [n d]| |]; cbn [counted]; try by intros ->.
  intros (i & s & t & _ & ->). unfold zlen. by rewrite length_insert.
Qed.

(** ** Traces *)

Lemma spec_take_order l ns x l' ns' : spec_take l ns = (x, l', ns') -> l ++ ns = option_list x ++ l' ++ ns'.
Proof. destruct l, ns; simpl; intros; simplify_eq; simpl; by rewrite ?app_nil_r. Qed.

Definition fifo_inv (S : spec) (tr : list event) : Prop :=
  forall h c l ns, sr S !! h = Some (Some l) -> sq S !! c = Some ns -> serves (Z.of_nat h) (Z.of_nat c) tr ->
    sent_to (Z.of_nat c) tr = received (Z.of_nat h) tr ++ l ++ ns.

Lemma serves_app h c tr e : serves h c (tr ++ [e]) -> serves h c tr.
Proof. intros H h' c' x Hin. apply (H h' c' x). apply elem_of_app. by left. Qed.

Lemma fifo_step S e S' tr : spec_step S e S' -> fifo_inv S tr -> fifo_inv S' (tr ++ [e]).
Proof.
  intros Hst Hinv h c l ns Hl Hns Hsv. pose proof (serves_app _ _ _ _ Hsv) as Hsv'.
  unfold sent_to, received. rewrite !omap_app. fold (sent_to (Z.of_nat c) tr) (received (Z.of_nat h) tr).
  destruct Hst as [S i n0 x Hi|S c'|S h' i l0 n0 x l1 n1 Hh Hi Htk]; cbn [omap list_omap].
  - cbn [sq sr] in *. rewrite list_lookup_insert in Hns. case_decide as Hd.
    + destruct Hd as [-> Hlt]. simplify_eq. rewrite Z.eqb_refl. cbn.
      rewrite (Hinv h c l n0 Hl Hi Hsv'), !app_nil_r. by rewrite !(assoc_L (++)).
    + rewrite (proj2 (Z.eqb_neq _ _)); [cbn; rewrite !app_nil_r; by apply Hinv|].
      intros ->%Nat2Z.inj. apply Hd. split; [done|]. by eapply lookup_lt_Some.
  - rewrite !app_nil_r. by apply Hinv.
  - cbn [sq sr] in *. pose proof (Hsv (Z.of_nat h') (Z.of_nat i) x ltac:(apply elem_of_app; right; by left)) as Hiff.
    pose proof (lookup_lt_Some _ _ _ Hi). pose proof (lookup_lt_Some _ _ _ Hh).
    destruct (decide (h' = h)) as [->|Hne].
    + assert (i = c) as -> by (apply Nat2Z.inj, Hiff; done).
      rewrite list_lookup_insert_eq in Hl by done. rewrite list_lookup_insert_eq in Hns by done. simplify_eq.
      rewrite (Hinv h c l0 n0 Hh Hi Hsv'), (spec_take_order _ _ _ _ _ Htk), app_nil_r.
      destruct x; [rewrite Z.eqb_refl|]; cbn; by rewrite <- ?(assoc_L (++)).
    + assert (i <> c) by (intros ->; apply Hne, Nat2Z.inj, Hiff; done).
      rewrite list_lookup_insert_ne in Hl by done. rewrite list_lookup_insert_ne in Hns by done.
      rewrite app_nil_r, (Hinv h c l ns Hl Hns Hsv').
      destruct x; [rewrite (proj2 (Z.eqb_neq _ _)) by lia|]; cbn; by rewrite app_nil_r.
Qed.

(** The queues and receivers of a run stay. *)
Definition shape (k n : nat) (S : spec) : Prop :=
  length (sq S) = k /\ forall h, (h < n)%nat -> exists l, sr S !! h = Some (Some l).

Lemma shape_step k n S e S' : spec_step S e S' -> shape k n S -> shape k n S'.
Proof.
  intros Hst [Hq Hr]. destruct Hst; split; cbn [sq sr]; rewrite ?length_insert; try done.
  intros h0 Hh. rewrite list_lookup_insert. case_decide; eauto.
Qed.

Fixpoint add_receivers (n : nat) (ipc : ipc2_conf) : ipc2_conf :=
  match n with O => ipc | S n => add_receivers n (ipc2_init_receiver ipc).1 end.

Lemma init_receiver_implements ipc Sp :
  implements ipc Sp -> implements (ipc2_init_receiver ipc).1 (Spec (sq Sp) (sr Sp ++ [Some []])).
Proof.
  intros (A & HR & <-). exists (Abs (aq A) (ar A ++ [Some []])). split; [|unfold strip; cbn; by rewrite fmap_app].
  assert (Hown : forall o ns a, own (Abs (aq A) (ar A ++ [Some []])) o = Some ns -> a ∈ ns.*1 -> own A o = Some ns).
  { intros [i|h] ns a; cbn [own aq ar]; [done|]. destruct (decide (h < length (ar A))%nat).
    - by rewrite lookup_app_l.
    - rewrite lookup_app_r by lia. destruct (h - length (ar A))%nat; cbn; [|done].
      intros [= <-] H. by apply elem_of_nil in H. }
  constructor; cbn [ipc2_init_receiver fst consumers queues rcvs mem].
  - apply (rep_consumers _ _ HR).
  - apply (rep_queues _ _ HR).
  - apply Forall2_app; [apply (rep_rcvs _ _ HR)|]. by repeat constructor.
  - intros o ns Ho. destruct ns as [|x ns]; [by apply NoDup_nil|].
    apply (rep_nodup _ _ HR o). eapply Hown; [done|]. rewrite fmap_cons. by left.
  - intros o1 o2 n1 n2 a H1 H2 Ha1 Ha2. eapply (rep_disj _ _ HR); eauto.
  - intros a Ha. destruct (rep_dom _ _ HR a Ha) as ([i|h] & ns & Ho & Hin); [by exists (InQueue i), ns|].
    exists (InRcv h), ns. split; [|done]. cbn in *. rewrite lookup_app_l; [done|].
    destruct (ar A !! h) eqn:E; [|done]. by eapply lookup_lt_Some.
Qed.

Lemma add_receivers_implements n ipc Sp :
  implements ipc Sp -> implements (add_receivers n ipc) (Spec (sq Sp) (sr Sp ++ replicate n (Some []))).
Proof.
  revert ipc Sp. induction n as [|n IH]; intros ipc Sp HI; cbn [add_receivers replicate].
  - rewrite app_nil_r. by destruct Sp.
  - apply init_receiver_implements, IH in HI. cbn in HI. by rewrite <- (assoc_L (++)) in HI.
Qed.

Lemma add_receivers_queues n ipc : queues (add_receivers n ipc) = queues ipc.
Proof. revert ipc. induction n as [|n IH]; intros ipc; cbn [add_receivers]; [done|]. by rewrite IH. Qed.

Lemma init_implements count name total ipc :
  0 <= count < 2 ^ 31 -> ipc2_init count name total true true = Ret (Some ipc) ->
  implements ipc (Spec (replicate (Z.to_nat count) []) [Some []]) /\
  queues ipc = replicate (Z.to_nat count) (ChunkQueue 0 0 0 0 0 0).
Proof.
  intros Hc. unfold ipc2_init. destruct name as [|x name]; [done|]. destruct (64 <? zlen (x :: name) + 1); [done|].
  intros [= <-]. split; [|done]. exists (Abs (replicate (Z.to_nat count) []) [Some []]).
  split; [|unfold strip; cbn; by rewrite fmap_replicate].
  assert (Hown : forall o ns, own (Abs (replicate (Z.to_nat count) []) [Some []]) o = Some ns -> ns = []).
  { intros [i|[|h]] ns; cbn; [|naive_solver|done]. intros H. by apply lookup_replicate in H as [? _]. }
  constructor; cbn.
  - rewrite zlen_replicate, u32_small; lia.
  - apply Forall2_replicate. done.
  - by repeat constructor.
  - intros o ns ->%Hown. by apply NoDup_nil.
  - intros o1 o2 n1 n2 a ->%Hown _ Ha _. by apply elem_of_nil in Ha.
  - intros a [c Ha]. by rewrite lookup_empty in Ha.
Qed.

(** The number of chunks and items sent. *)
Definition is_sent (e : event) : option msg :=
  match e with ESend _ x => Some x | _ => None end.
Definition total_items (xs : list msg) : Z := foldr (fun x s => x.1 + s) 0 xs.

Lemma sum_queues_spec f qs a : sum_queues f qs (u64 a) = u64 (a + foldr (fun q s => f q + s) 0 qs).
Proof.
  revert a. induction qs as [|q qs IH]; intros a; cbn [sum_queues foldr]; [f_equal; lia|].
  rewrite u64_add_l, IH. f_equal. lia.
Qed.

Lemma sum_insert (l : list Z) i x y :
  l !! i = Some x -> u64 (foldr Z.add 0 (<[i := u64 y]> l)) = u64 (foldr Z.add 0 l - x + y).
Proof.
  revert i. induction l as [|z l IH]; intros [|i] Hi; cbn [insert list_insert foldr]; try done.
  - simpl in Hi. simplify_eq. rewrite u64_add_l. f_equal. lia.
  - rewrite <- u64_add_r. etrans; [apply (f_equal (fun s => u64 (z + s)) (IH i Hi))|]. rewrite u64_add_r. f_equal. lia.
Qed.

Lemma foldr_fmap_add {X} (f : X -> Z) (l : list X) : foldr (fun q s => f q + s) 0 l = foldr Z.add 0 (f <$> l).
Proof. induction l as [|x l IH]; [done|]. rewrite fmap_cons. cbn [foldr]. by rewrite IH. Qed.

Lemma get_sent_eq ipc :
  ipc2_get_sent_chunks ipc = u64 (foldr Z.add 0 (counters ipc).*1) /\
  ipc2_get_sent_items ipc = u64 (foldr Z.add 0 (counters ipc).*2).
Proof.
  pose proof (sum_queues_spec q_sent (queues ipc) 0) as H1. pose proof (sum_queues_spec q_items_sent (queues ipc) 0) as H2.
  assert (E : u64 0 = 0) by reflexivity. rewrite E, Z.add_0_l, foldr_fmap_add in H1. rewrite E, Z.add_0_l, foldr_fmap_add in H2.
  unfold ipc2_get_sent_chunks, ipc2_get_sent_items, counters.
  rewrite H1, H2, <- !list_fmap_compose. split; reflexivity.
Qed.

Lemma counted_sent e ipc ipc' :
  counted e ipc ipc' ->
  ipc2_get_sent_chunks ipc' = u64 (ipc2_get_sent_chunks ipc + (if is_sent e is Some _ then 1 else 0)) /\
  ipc2_get_sent_items ipc' = u64 (ipc2_get_sent_items ipc + result_items (is_sent e)).
Proof.
  destruct (get_sent_eq ipc) as [-> ->], (get_sent_eq ipc') as [-> ->].
  assert (Hsame : counters ipc' = counters ipc -> forall f, u64 (foldr Z.add 0 (f (counters ipc'))) = u64 (u64 (foldr Z.add 0 (f (counters ipc))) + 0)).
  { intros -> f. by rewrite u64_add_l, Z.add_0_r. }
  destruct e as [c [n d]|c|h c x]; cbn [counted is_sent fst].
  2,3: solve [intros H; split; [by apply (Hsame H (fun l => l.*1))|by apply (Hsame H (fun l => l.*2))]].
  intros (i & s & t & Hi & ->). rewrite !list_fmap_insert. cbn [fst snd result_items].
  rewrite (sum_insert _ i s), (sum_insert _ i t) by (by rewrite list_lookup_fmap, Hi).
  rewrite !u64_add_l. split; f_equal; lia.
Qed.

Lemma run_inv k n ipc0 tr ipc :
  implements ipc0 (Spec (replicate k []) (replicate n (Some []))) -> zlen (queues ipc0) < 2 ^ 31 ->
  counters ipc0 = replicate k (0, 0) -> run ipc0 tr ipc ->
  exists S, implements ipc S /\ shape k n S /\ fifo_inv S tr /\ zlen (queues ipc) < 2 ^ 31 /\
    ipc2_get_sent_chunks ipc = u64 (zlen (omap is_sent tr)) /\
    ipc2_get_sent_items ipc = u64 (total_items (omap is_sent tr)).
Proof.
  intros HI Hsz Hcn Hrun. induction Hrun as [|tr ipc1 e ipc2 Hrun IH Hst].
  - eexists. split; [done|]. split; [|split; [|split; [done|]]].
    + split; cbn [sq sr]; [by rewrite length_replicate|]. intros h Hh. exists []. by apply lookup_replicate.
    + intros h c l ns. cbn [sq sr]. intros [[= ->] _]%lookup_replicate [-> _]%lookup_replicate _. done.
    + destruct (get_sent_eq ipc0) as [-> ->]. rewrite Hcn.
      rewrite !fmap_replicate. cbn [fst snd]. assert (Hz : foldr Z.add 0 (replicate k 0) = 0) by (clear; induction k; cbn; lia).
      by rewrite Hz.
  - destruct IH as (S & HS & Hsh & Hf & Hz & Hc1 & Hc2).
    destruct (step_refines _ _ _ _ HS Hz Hst) as (S' & Hss & HS' & Hcnt). exists S'.
    split; [done|]. split; [by eapply shape_step|]. split; [by eapply fifo_step|].
    split; [by rewrite (counted_len _ _ _ Hcnt)|].
    destruct (counted_sent _ _ _ Hcnt) as [-> ->]. rewrite Hc1, Hc2, omap_app. cbn [omap list_omap].
    rewrite !u64_add_l. split; f_equal.
    + destruct (is_sent e); lens.
    + unfold total_items. rewrite foldr_app. destruct (is_sent e); cbn; [|by rewrite Z.add_0_r].
      clear. induction (omap is_sent tr); cbn; lia.
Qed.

(** ** Properties *)

(** The state after [ipc2_init] and [n] calls of [ipc2_init_receiver]. *)
Definition started (count : Z) (n : nat) (ipc : ipc2_conf) : Prop :=
  0 <= count < 2 ^ 31 /\
  exists name total ipc0, ipc2_init count name total true true = Ret (Some ipc0) /\ ipc = add_receivers n ipc0.

Lemma started_inv count n ipc0 tr ipc :
  started count n ipc0 -> run ipc0 tr ipc ->
  exists Sp, implements ipc Sp /\ shape (Z.to_nat count) (S n) Sp /\ fifo_inv Sp tr /\ zlen (queues ipc) < 2 ^ 31 /\
    ipc2_get_sent_chunks ipc = u64 (zlen (omap is_sent tr)) /\
    ipc2_get_sent_items ipc = u64 (total_items (omap is_sent tr)).
Proof.
  intros (Hc & name & total & ipc1 & Hinit & ->). destruct (init_implements _ _ _ _ Hc Hinit) as [HI Hq].
  apply (add_receivers_implements n) in HI. cbn [sq sr] in HI. apply run_inv; [exact HI| |].
  - rewrite add_receivers_queues, Hq, zlen_replicate. lia.
  - unfold counters. rewrite add_receivers_queues, Hq, fmap_replicate. done.
Qed.

(** C34: Delivery.  Start with [count] consumers and [n + 1] receivers, and let
    completed sends of both kinds ([ipc2_send_chunk], which sends nothing when
    it gets no items, and [ipc2_send_by_cb_fill], which sends a chunk of any
    number of items, 0 too) and receives run in any interleaving; the allocator
    gives addresses that are not in use.  When receiver [h] serves consumer [c]
    and nobody else (every receive by [h] is for [c] and every receive for [c]
    is by [h]), then the messages sent to [c] are, in order, the messages [h]
    has got, those in its local list and those in the queue: nothing is lost,
    repeated or reordered.  The sent counters count the chunks and items of all
    consumers modulo 2^64. *)
Theorem ipc2_fifo count n ipc0 tr ipc h c :
  started count n ipc0 -> run ipc0 tr ipc ->
  0 <= h <= Z.of_nat n -> 0 <= c < count -> serves h c tr ->
  (exists p q l ns, rcv_queue ipc h = Ret p /\ zget (queues ipc) c = Some q /\
    chain (mem ipc) p l /\ chain (mem ipc) (q_first q) ns /\
    sent_to c tr = received h tr ++ msgs l ++ msgs ns) /\
  ipc2_get_sent_chunks ipc = u64 (zlen (omap is_sent tr)) /\
  ipc2_get_sent_items ipc = u64 (total_items (omap is_sent tr)).
Proof.
  intros Hst Hrun Hh Hc Hsv. destruct (started_inv _ _ _ _ _ Hst Hrun) as (Sp & (A & HR & <-) & [Hk Hn] & Hf & _ & Hcn).
  split; [|exact Hcn]. destruct (Hn (Z.to_nat h) ltac:(lia)) as [l Hl].
  destruct (lookup_lt_is_Some_2 (sq (strip A)) (Z.to_nat c) ltac:(lia)) as [ns Hns].
  pose proof (Hf (Z.to_nat h) (Z.to_nat c) l ns Hl Hns) as Hord. rewrite !Z2Nat.id in Hord by lia.
  apply strip_rcv in Hl as (la & Hla & ->). apply strip_queue in Hns as (na & Hna & ->).
  destruct (Forall2_lookup_r _ _ _ _ _ (rep_rcvs _ _ HR) Hla) as ([p|] & Hp & Hcl); [|done].
  destruct (Forall2_lookup_r _ _ _ _ _ (rep_queues _ _ HR) Hna) as (q & Hq & Hcq & _).
  exists p, q, la, na. split; [rewrite <- (Z2Nat.id h) by lia; by apply rcv_queue_ok|].
  split; [apply zget_Some; split; [lia|done]|]. split; [done|]. split; [done|]. by apply Hord.
Qed.

(** C35: Progress of a receiver that serves consumer [c] and nobody else.  A
    receive returns at once: when some message sent to the consumer has not been
    received yet, it passes the first such message to the callback and returns
    the number of its items, which is 0 for a chunk that
    [ipc2_send_by_cb_fill] sent with 0 items; when all of them have been
    received it does not call the callback and returns 0. *)
Theorem ipc2_receive_next {Ctx} count n ipc0 tr ipc h c (f : list Z -> Ctx -> Ctx) ctx :
  started count n ipc0 -> run ipc0 tr ipc ->
  0 <= h <= Z.of_nat n -> 0 <= c < count -> serves h c tr ->
  exists ipc', ipc2_receive_one_chunk ipc (Some h) c f ctx =
    match drop (length (received h tr)) (sent_to c tr) with
    | [] => Ret (ipc', ctx, 0)
    | (items, data) :: _ => Ret (ipc', f data ctx, items)
    end.
Proof.
  intros Hst Hrun Hh Hc Hsv. destruct (started_inv _ _ _ _ _ Hst Hrun) as (Sp & HI & [Hk Hn] & Hf & Hsz & _).
  destruct (Hn (Z.to_nat h) ltac:(lia)) as [l Hl].
  destruct (lookup_lt_is_Some_2 (sq Sp) (Z.to_nat c) ltac:(lia)) as [ns Hns].
  pose proof (Hf (Z.to_nat h) (Z.to_nat c) l ns Hl Hns) as Hord.
  destruct (spec_take l ns) as [[x l'] ns'] eqn:Htk.
  destruct (receive_ok ipc Sp (Z.to_nat h) (Z.to_nat c) l ns x l' ns' f ctx HI Hsz Hl Hns Htk) as (ipc' & Hr & _).
  rewrite !Z2Nat.id in Hr by lia. rewrite !Z2Nat.id in Hord by lia. exists ipc'. rewrite Hr, (Hord Hsv), drop_app_length.
  destruct l as [|[it d] l], ns as [|[it' d'] ns]; simpl in Htk; simplify_eq; done.
Qed.

(** Sending.  A chunk of 0 items is not sent; a consumer out of range (a
    negative one too) ends the process; any other send returns as soon as the
    memory is above the watermark (at once with high priority) and an
    allocation succeeds, and appends the message to the queue of the consumer,
    leaving all other queues and lists as they are. *)
Theorem ipc2_send_correct ipc Sp env c items data prio :
  implements ipc Sp -> zlen (queues ipc) < 2 ^ 31 -> is_int c -> fresh_env (mem ipc) env ->
  prio = ALLOC_PRIORITY_HIGH \/ Exists (fun s => low_mem_watermark ipc <= s) (free_sizes env) ->
  Exists (fun p => p <> 0) (mallocs env) ->
  if items =? 0 then ipc2_send_chunk ipc env c items data prio = Ret ipc
  else if bool_decide (0 <= c < zlen (queues ipc)) then
    exists ipc' ns, ipc2_send_chunk ipc env c items data prio = Ret ipc' /\ sq Sp !! Z.to_nat c = Some ns /\
      implements ipc' (Spec (<[Z.to_nat c := ns ++ [(items, data)]]> (sq Sp)) (sr Sp))
  else ipc2_send_chunk ipc env c items data prio = Halt ExitFailure.
Proof.
  intros (A & HR & <-) Hsz Hc Hfr Hw Hm. unfold ipc2_send_chunk. rewrite (Z.eqb_sym 0 items). destruct (items =? 0); [done|].
  pose proof (consumer_index _ _ _ HR Hsz Hc) as Hci. rewrite (rep_consumers _ _ HR) in Hci.
  destruct (wrong_consumer ipc c); [by rewrite bool_decide_false|].
  destruct Hci as (i & ns & -> & Hns). rewrite bool_decide_true.
  2: { apply lookup_lt_Some in Hns. pose proof (Forall2_length _ _ _ (rep_queues _ _ HR)). unfold zlen. lia. }
  assert (Hww : wait_watermark prio (low_mem_watermark ipc) (free_sizes env) = Ret tt).
  { destruct Hw as [->|Hw]; [by destruct (free_sizes env)|].
    induction Hw as [s ss Hs|s ss _ IH]; cbn [wait_watermark]; destruct (prio =? ALLOC_PRIORITY_HIGH); try done.
    - by rewrite (proj2 (Z.ltb_ge _ _) Hs).
    - destruct (s <? _); [exact IH|done]. }
  assert (Hwm : exists p, wait_malloc (mallocs env) = Ret p).
  { induction Hm as [p ps Hp|p ps _ IH]; cbn [wait_malloc].
    - exists p. by rewrite (proj2 (Z.eqb_neq _ _) Hp).
    - destruct (p =? 0); eauto. }
  destruct (push_ok ipc A env data data i ns items prio HR Hfr eq_refl Hns Hww Hwm)
    as (p & ipc' & q & q' & Hrun & HR' & _).
  exists ipc', (msgs ns). rewrite Nat2Z.id. split; [exact Hrun|]. split; [cbn; by rewrite list_lookup_fmap, Hns|].
  eexists. split; [exact HR'|]. rewrite strip_set_queue. unfold msgs at 1. by rewrite fmap_app.
Qed.

(** ** Witnesses *)

Definition ipc_start : ipc2_conf := Ipc2Conf 2 100 (replicate 2 (ChunkQueue 0 0 0 0 0 0)) [Some 0; Some 0] ∅.

Lemma ipc_started : started 2 1 ipc_start.
Proof. split; [lia|]. exists [65], 300, (Ipc2Conf 2 100 (replicate 2 (ChunkQueue 0 0 0 0 0 0)) [Some 0] ∅). done. Qed.

Definition roomy (p : Z) : heap_env := HeapEnv [200] [0; p].

Lemma roomy_fresh m p : m !! p = None -> fresh_env m (roomy p).
Proof. intros H. constructor; [by left|]. constructor; [by right|constructor]. Qed.

(** The state after a computation that returned. *)
Definition after (r : res ipc2_conf) : ipc2_conf := match r with Ret x => x | Halt _ => ipc_start end.

Definition ipc_one : ipc2_conf := after (ipc2_send_chunk ipc_start (roomy 8) 1 3 [10; 11] ALLOC_PRIORITY_NORMAL).
Definition ipc_two : ipc2_conf := after (ipc2_send_chunk ipc_one (roomy 9) 1 2 [12] ALLOC_PRIORITY_NORMAL).
Definition ipc_trace : list event := [ESend 1 (3, [10; 11]); ESend 1 (2, [12])].

Lemma ipc_run : run ipc_start ipc_trace ipc_two.
Proof.
  apply (run_snoc _ [ESend 1 (3, [10; 11])] ipc_one).
  - apply (run_snoc _ [] ipc_start); [constructor|].
    apply (step_send _ (roomy 8) _ _ _ ALLOC_PRIORITY_NORMAL); [done|by apply roomy_fresh|done|vm_compute; reflexivity].
  - apply (step_send _ (roomy 9) _ _ _ ALLOC_PRIORITY_NORMAL); [done|apply roomy_fresh; vm_compute; reflexivity|done|vm_compute; reflexivity].
Qed.

Lemma ipc_serves : serves 1 1 ipc_trace.
Proof. intros h c x H. unfold ipc_trace in H. rewrite !elem_of_cons, elem_of_nil in H. naive_solver. Qed.

Lemma ipc2_fifo_witness : ipc2_get_sent_chunks ipc_two = 2.
Proof.
  destruct (ipc2_fifo 2 1 ipc_start ipc_trace ipc_two 1 1 ipc_started ipc_run ltac:(lia) ltac:(lia) ipc_serves) as (_ & H & _).
  exact H.
Defined.

Lemma ipc2_receive_next_witness : exists ipc', ipc2_receive_one_chunk ipc_two (Some 1) 1 collect [] = Ret (ipc', [[10; 11]], 3).
Proof.
  exact (ipc2_receive_next 2 1 ipc_start ipc_trace ipc_two 1 1 collect [] ipc_started ipc_run ltac:(lia) ltac:(lia) ipc_serves).
Defined.

Lemma ipc_start_implements : implements ipc_start (Spec [[]; []] [Some []; Some []]).
Proof.
  destruct ipc_started as [H2 (name & total & ipc0 & Hi & He)].
  destruct (init_implements _ _ _ _ H2 Hi) as [HI _]. apply (add_receivers_implements 1) in HI. rewrite <- He in HI. exact HI.
Qed.

Lemma ipc2_send_witness :
  exists ipc' ns, ipc2_send_chunk ipc_start (roomy 8) 1 3 [10; 11] 2 = Ret ipc' /\
    [[]; []] !! 1%nat = Some ns /\ implements ipc' (Spec [[]; ns ++ [(3, [10; 11])]] [Some []; Some []]).
Proof.
  apply (ipc2_send_correct ipc_start (Spec [[]; []] [Some []; Some []]) (roomy 8) 1 3 [10; 11] 2).
  - exact ipc_start_implements.
  - done.
  - done.
  - by apply roomy_fresh.
  - right. apply Exists_cons_hd. done.
  - apply Exists_cons_tl, Exists_cons_hd. done.
Defined.

(** A receiver used for two consumers hands the messages of one to the other:
    after one message to consumer 1 is left in the local list, a receive for
    consumer 0 gets it. *)
Example shared_receiver_mixes :
  (x ← ipc2_receive_one_chunk ipc_two (Some 1) 1 collect [];
   y ← ipc2_receive_one_chunk x.1.1 (Some 1) 0 collect []; Ret y.1.2) = Ret [[12]].
Proof. vm_compute. reflexivity. Qed.

(** A chunk of 0 items is sent by [ipc2_send_by_cb_fill] and stands in front
    of the later ones: the receive that gets it returns 0, as if there were
    no message, although the next one does get a message. *)
Example empty_chunk_received :
  (a ← ipc2_send_by_cb_fill ipc_start (roomy 8) [0; 0] 1 0 (fun d => d) ALLOC_PRIORITY_NORMAL;
   b ← ipc2_send_chunk a (roomy 9) 1 2 [12] ALLOC_PRIORITY_NORMAL;
   x ← ipc2_receive_one_chunk b (Some 1) 1 collect [];
   y ← ipc2_receive_one_chunk x.1.1 (Some 1) 1 collect [];
   Ret (x.1.2, x.2, y.1.2, y.2)) = Ret ([[0; 0]], 0, [[12]], 2).
Proof. vm_compute. reflexivity. Qed.

(** [queues[i].items] keeps its value when the queue is taken, so that
    [ipc2_get_queue_size] reports received items as queued. *)
Example queue_size_stale :
  (x ← ipc2_receive_one_chunk ipc_one (Some 1) 1 collect []; Ret (ipc2_get_queue_size x.1.1)) = Ret 3.
Proof. vm_compute. reflexivity. Qed.
