(* ===== verification/SerialBuffer.v ===== *)
(** * Relocatable buffer of linked items (src/libs/zbxipcservice/glb_serial_buffer.c)

    Items and raw data are appended to one growing block of bytes; items are
    linked by offsets into the block, stored as 32-bit little-endian integers,
    so that the block can be moved (by [realloc], or to another process
    through glb_ipc2.c).  A byte is a number, the block is a list of bytes;
    every access is checked against the size of the block ([BadAccess]).

    [layout b es] gives the bytes of a block that holds the entries [es]
    (items and raw data, in the order they were added). *)
From stdpp Require Import prelude list.
From Stdlib Require Import ZArith Lia.
From S2P Require Import Prelude.
#[local] Open Scope Z_scope.

Definition MIN_BUFFER_GROW_PERCENT : Z := 20.
Definition MIN_BUFFER_GROW_BYTES : Z := 16384.
Definition MAX_SERIAL_BUFFER_SIZE : Z := 1073741824.
Definition MIN_SBUFF_SIZE : Z := 4.

(** [sizeof(serial_buffer_t)] and [sizeof(serial_buffer_item_t)]. *)
Definition sizeof_buffer : Z := 56.
Definition sizeof_item : Z := 4.

Record serial_buffer := SerialBuffer {
  sb_data : list Z; sb_used : Z; sb_size : Z; sb_last : Z; sb_items_count : Z; sb_init_size : Z; sb_time_created : Z }.

(** ** Memory *)

Definition le32 (x : Z) : list Z := [x mod 256; x / 256 mod 256; x / 65536 mod 256; x / 16777216 mod 256].

Definition get_int (b : list Z) (off : Z) : res Z :=
  b0 ← of_opt BadAccess (zget b off); b1 ← of_opt BadAccess (zget b (off + 1));
  b2 ← of_opt BadAccess (zget b (off + 2)); b3 ← of_opt BadAccess (zget b (off + 3));
  Ret (i32 (b0 + 256 * b1 + 65536 * b2 + 16777216 * b3)).

(** [memcpy(b + off, bs, length bs)]. *)
Definition write (b : list Z) (off : Z) (bs : list Z) : res (list Z) :=
  if (0 <=? off) && (off + zlen bs <=? zlen b)
  then Ret (take (Z.to_nat off) b ++ bs ++ drop (Z.to_nat (off + zlen bs)) b) else Halt BadAccess.

Definition set_int (b : list Z) (off x : Z) : res (list Z) := write b off (le32 (u32 x)).

Section model.
(** The content of newly allocated bytes and the value of [time(NULL)]. *)
Variable junk : Z.
Variable now : Z.

Definition serial_buffer_reset (buf : serial_buffer) : serial_buffer :=
  SerialBuffer (replicate (Z.to_nat (sb_init_size buf)) junk) sizeof_buffer (sb_init_size buf) 0 0 (sb_init_size buf) now.

Definition serial_buffer_clean (buf : serial_buffer) : serial_buffer :=
  SerialBuffer (sb_data buf) sizeof_buffer (sb_size buf) 0 0 (sb_init_size buf) now.

(** [init_size] is checked but the field stays 0. *)
Definition serial_buffer_init (init_size : Z) : option serial_buffer :=
  let init_size := if init_size <? MIN_SBUFF_SIZE then MIN_SBUFF_SIZE else init_size in
  if init_size >? MAX_SERIAL_BUFFER_SIZE then None
  else Some (serial_buffer_reset (SerialBuffer [] 0 0 0 0 0 0)).

(** The new length is computed as an [int]. *)
Definition grow_len (size used need_more : Z) : Z :=
  let new_len := i32 (Z.max (u64 (size + size / MIN_BUFFER_GROW_PERCENT)) (u64 (used + need_more))) in
  Z.max new_len MIN_BUFFER_GROW_BYTES.

Definition serial_buffer_grow (buf : serial_buffer) (need_more : Z) : serial_buffer :=
  let new_len := grow_len (sb_size buf) (sb_used buf) need_more in
  SerialBuffer (take (Z.to_nat new_len) (sb_data buf) ++ replicate (Z.to_nat new_len - length (sb_data buf)) junk)
    (sb_used buf) new_len (sb_last buf) (sb_items_count buf) (sb_init_size buf) (sb_time_created buf).

Definition ensure (buf : serial_buffer) (full_len : Z) : serial_buffer :=
  if u64 (sb_used buf + full_len) >? sb_size buf then serial_buffer_grow buf full_len else buf.

(** The returned pointer is given as an offset into the block. *)
Definition serial_buffer_add_item (buf : serial_buffer) (item : list Z) : res (serial_buffer * Z) :=
  let full_len := zlen item + sizeof_item in
  let buf := ensure buf full_len in
  let used := sb_used buf in
  let data_ptr := used + sizeof_item in
  data ← set_int (sb_data buf) used 0;
  data ← (if negb (sb_last buf =? 0) then set_int data (sb_last buf) used else set_int data 0 used);
  data ← write data data_ptr item;
  Ret (SerialBuffer data (u64 (used + full_len)) (sb_size buf) used (i32 (sb_items_count buf + 1)) (sb_init_size buf)
         (sb_time_created buf), data_ptr).

Definition serial_buffer_add_data (buf : serial_buffer) (bs : list Z) : res (serial_buffer * Z) :=
  let offset := sb_used buf in
  let buf := ensure buf (zlen bs) in
  data ← write (sb_data buf) (sb_used buf) bs;
  Ret (SerialBuffer data (u64 (sb_used buf + zlen bs)) (sb_size buf) (sb_last buf) (sb_items_count buf) (sb_init_size buf)
         (sb_time_created buf), offset).

End model.

(** Reading a block at the returned offset. *)
Definition serial_buffer_get_real_addr (buffer : list Z) (offset : Z) : list Z := drop (Z.to_nat offset) buffer.

Section process.
Context {Ctx : Type}.
(** The callback gets the block and the offset of the data of the item, and
    may write to the block. *)
Variable proc_func : list Z -> Z -> Ctx -> Z -> list Z * Ctx.

Fixpoint process_loop (fuel : nat) (buffer : list Z) (item : Z) (ctx_data : Ctx) (i : Z) : res (list Z * Ctx * Z) :=
  match fuel with
  | O => Halt OutOfFuel
  | S fuel =>
      let '(buffer, ctx_data) := proc_func buffer (item + sizeof_item) ctx_data i in
      next ← get_int buffer item;
      if 0 =? next then Ret (buffer, ctx_data, i)
      else process_loop fuel buffer next ctx_data (i + 1)
  end.

(** Offsets grow from item to item, an item has at least 4 bytes: no more
    items than bytes. *)
Definition serial_buffer_process (buffer : list Z) (ctx_data : Ctx) : res (list Z * Ctx * Z) :=
  first_item ← get_int buffer 0;
  process_loop (length buffer) buffer first_item ctx_data 0.
End process.

Definition serial_buffer_get_size (buf : serial_buffer) : Z := sb_size buf.
Definition serial_buffer_get_used (buf : serial_buffer) : Z := sb_used buf.
Definition serial_buffer_get_buffer (buf : serial_buffer) : list Z := sb_data buf.
Definition serial_buffer_get_items_count (buf : serial_buffer) : Z := sb_items_count buf.
Definition serial_buffer_get_time_created (buf : serial_buffer) : Z := sb_time_created buf.

(** ** Layout *)

Inductive entry := Item (d : list Z) | Raw (d : list Z).

Definition is_item (e : entry) : bool := match e with Item _ => true | Raw _ => false end.
Definition entry_len (e : entry) : Z := match e with Item d => sizeof_item + zlen d | Raw d => zlen d end.
Definition entries_len (es : list entry) : Z := foldr (fun e s => entry_len e + s) 0 es.

(** The offset of the first item of the entries at [o], [u] if there is none. *)
Fixpoint first_off (u o : Z) (es : list entry) : Z :=
  match es with
  | [] => u
  | Item _ :: _ => o
  | e :: es => first_off u (o + entry_len e) es
  end.

(** The offset of the last item, 0 if there is none. *)
Fixpoint last_off (o : Z) (es : list entry) : Z :=
  match es with
  | [] => 0
  | e :: es => if existsb is_item es then last_off (o + entry_len e) es else if is_item e then o else 0
  end.

(** The bytes of the entries at [o], the last item linked to [u]. *)
Fixpoint enc (u o : Z) (es : list entry) : list Z :=
  match es with
  | [] => []
  | Item d :: es => le32 (first_off u (o + entry_len (Item d)) es) ++ d ++ enc u (o + entry_len (Item d)) es
  | Raw d :: es => d ++ enc u (o + entry_len (Raw d)) es
  end.

Record layout (buf : serial_buffer) (es : list entry) : Prop := {
  lay_used : sb_used buf = sizeof_buffer + entries_len es;
  lay_size : sb_size buf = zlen (sb_data buf);
  lay_int : sb_size buf < 2 ^ 31;
  lay_last : sb_last buf = last_off sizeof_buffer es;
  lay_count : sb_items_count buf = i32 (zlen (filter is_item es));
  lay_bytes : es <> [] -> exists hdr slack, sb_data buf = hdr ++ enc 0 sizeof_buffer es ++ slack /\ zlen hdr = sizeof_buffer /\
    (existsb is_item es = true -> take 4 hdr = le32 (first_off 0 sizeof_buffer es)) }.

(** ** Theory *)

Lemma zlen_le32 x : zlen (le32 x) = 4.
Proof. done. Qed.
#[local] Hint Rewrite @zlen_le32 @zlen_replicate : zsimp.

Lemma entry_len_nonneg e : 0 <= entry_len e.
Proof. destruct e; cbn [entry_len]; pose proof (zlen_nonneg d); unfold sizeof_item; lia. Qed.

Lemma entries_len_nonneg es : 0 <= entries_len es.
Proof. induction es as [|e es IH]; cbn; [lia|]. pose proof (entry_len_nonneg e). unfold entries_len in IH. lia. Qed.

Lemma entries_len_cons e es : entries_len (e :: es) = entry_len e + entries_len es.
Proof. done. Qed.

Lemma entries_len_snoc es e : entries_len (es ++ [e]) = entries_len es + entry_len e.
Proof. unfold entries_len. induction es as [|e' es IH]; cbn [app foldr]; lia. Qed.

Lemma zlen_enc u o es : zlen (enc u o es) = entries_len es.
Proof.
  revert o. induction es as [|[d|d] es IH]; intros o; [done|..]; cbn [enc]; rewrite entries_len_cons; cbn [entry_len];
    rewrite !zlen_app, IH, ?zlen_le32; unfold sizeof_item; lia.
Qed.

(** Appending an entry. *)
Lemma first_off_app u o es e : first_off u o (es ++ [e]) = first_off (if is_item e then o + entries_len es else u) o es.
Proof.
  revert o. induction es as [|[d|d] es IH]; intros o.
  - destruct e; cbn; [lia|done].
  - done.
  - cbn [app first_off]. rewrite IH, entries_len_cons. destruct e; cbn [is_item]; [f_equal; lia|done].
Qed.

Lemma enc_app u o es e :
  enc u o (es ++ [e]) = enc (if is_item e then o + entries_len es else u) o es ++ enc u (o + entries_len es) [e].
Proof.
  revert o. induction es as [|e' es IH]; intros o.
  - rewrite Z.add_0_r. done.
  - assert (Hl : o + entries_len (e' :: es) = o + entry_len e' + entries_len es) by (rewrite entries_len_cons; lia).
    rewrite Hl. destruct e' as [d|d]; cbn [app enc].
    + rewrite IH, first_off_app, <- !(assoc_L (++)). done.
    + rewrite IH, <- !(assoc_L (++)). done.
Qed.

Lemma no_items u u' o es : existsb is_item es = false -> enc u o es = enc u' o es /\ first_off u o es = u.
Proof.
  revert o. induction es as [|[d|d] es IH]; intros o Hf; [done..|]. cbn in Hf.
  destruct (IH (o + entry_len (Raw d)) Hf) as [H1 H2]. cbn [enc first_off]. by rewrite H1, H2.
Qed.

Lemma first_off_item u o es : existsb is_item es = true -> forall u', first_off u o es = first_off u' o es.
Proof. revert o. induction es as [|[d|d] es IH]; intros o Hf u'; [done..|]. cbn in *. by apply IH. Qed.

Lemma write_mid a b b' c : zlen b' = zlen b -> write (a ++ b ++ c) (zlen a) b' = Ret (a ++ b' ++ c).
Proof.
  intros Hl. unfold write. rewrite (proj2 (Z.leb_le _ _) (zlen_nonneg a)).
  rewrite (proj2 (Z.leb_le _ _)) by lens. cbn [andb]. rewrite to_nat_zlen, take_app_length.
  do 3 f_equal. rewrite (assoc_L (++)), <- zlen_app, zlen_app, Hl, <- zlen_app, to_nat_zlen. apply drop_app_length.
Qed.

Lemma zget_app_r {A} (a b : list A) i : 0 <= i -> zget (a ++ b) (zlen a + i) = zget b i.
Proof.
  intros Hi. unfold zget. pose proof (zlen_nonneg a). destruct (Z.ltb_spec (zlen a + i) 0); [lia|].
  destruct (Z.ltb_spec i 0); [lia|]. rewrite Z2Nat.inj_add, to_nat_zlen by lia. rewrite lookup_app_r by lia. f_equal. lia.
Qed.

Lemma get_int_le32 a x c : 0 <= x < 2 ^ 31 -> get_int (a ++ le32 x ++ c) (zlen a) = Ret x.
Proof.
  intros Hx. unfold get_int. rewrite <- (Z.add_0_r (zlen a)) at 1. rewrite !zget_app_r by lia.
  change (zget (le32 x ++ c) 0) with (Some (x mod 256)). change (zget (le32 x ++ c) 1) with (Some (x / 256 mod 256)).
  change (zget (le32 x ++ c) 2) with (Some (x / 65536 mod 256)). change (zget (le32 x ++ c) 3) with (Some (x / 16777216 mod 256)).
  cbn [of_opt mbind res_mbind]. rewrite i32_small.
  - f_equal. pose proof (Z.div_mod x 256 ltac:(lia)). pose proof (Z.div_mod (x / 256) 256 ltac:(lia)).
    pose proof (Z.div_mod (x / 65536) 256 ltac:(lia)).
    rewrite Z.div_div in * by lia. change (256 * 256) with 65536 in *. change (65536 * 256) with 16777216 in *.
    assert (0 <= x / 16777216 < 256) by (split; [apply Z.div_pos; lia|apply Z.div_lt_upper_bound; lia]).
    rewrite (Z.mod_small (x / 16777216)) by lia. lia.
  - pose proof (Z.mod_pos_bound x 256 ltac:(lia)). pose proof (Z.mod_pos_bound (x / 256) 256 ltac:(lia)).
    pose proof (Z.mod_pos_bound (x / 65536) 256 ltac:(lia)).
    assert (0 <= x / 16777216 < 128) by (split; [apply Z.div_pos; lia|apply Z.div_lt_upper_bound; lia]).
    rewrite (Z.mod_small (x / 16777216)) by lia. lia.
Qed.

Lemma get_int_at a x c o : zlen a = o -> 0 <= x < 2 ^ 31 -> get_int (a ++ le32 x ++ c) o = Ret x.
Proof. intros <-. apply get_int_le32. Qed.

(** The last item gets its link. *)
Lemma relink pre o es u u' c :
  existsb is_item es = true -> zlen pre = o -> 0 <= u < 2 ^ 31 ->
  set_int (pre ++ enc u' o es ++ c) (last_off o es) u = Ret (pre ++ enc u o es ++ c).
Proof.
  intros Hex Hpre Hu. revert pre o Hpre Hex. induction es as [|e es IH]; intros pre o Hpre Hex; [done|].
  cbn [last_off]. destruct (existsb is_item es) eqn:E.
  - destruct e as [d|d]; cbn [enc].
    + rewrite (first_off_item u' _ es E u).
      pose proof (IH (pre ++ le32 (first_off u (o + entry_len (Item d)) es) ++ d) (o + entry_len (Item d))) as H.
      rewrite <- !(assoc_L (++)) in *. apply H; [|done]. cbn [entry_len]. unfold sizeof_item. lens.
    + pose proof (IH (pre ++ d) (o + entry_len (Raw d))) as H.
      rewrite <- !(assoc_L (++)) in *. apply H; [|done]. cbn [entry_len]. lens.
  - cbn [existsb] in Hex. rewrite E, orb_false_r in Hex. rewrite Hex. destruct e as [d|d]; [|done]. cbn [enc].
    destruct (no_items u u' (o + entry_len (Item d)) es E) as [-> ->].
    destruct (no_items u' u (o + entry_len (Item d)) es E) as [_ ->].
    unfold set_int. rewrite u32_small by lia. rewrite <- !(assoc_L (++)), <- Hpre. by apply write_mid.
Qed.

Lemma last_off_pos o es : 0 < o -> existsb is_item es = true -> last_off o es <> 0.
Proof.
  revert o. induction es as [|e es IH]; intros o Ho Hex; [done|]. cbn [last_off].
  pose proof (entry_len_nonneg e). destruct (existsb is_item es) eqn:E; [apply IH; [lia|done]|].
  cbn [existsb] in Hex. rewrite E, orb_false_r in Hex. rewrite Hex. lia.
Qed.

Lemma last_off_none o es : existsb is_item es = false -> last_off o es = 0.
Proof. destruct es as [|e es]; [done|]. cbn. intros [-> ->]%orb_false_iff. done. Qed.

Lemma last_off_snoc o es e :
  last_off o (es ++ [e]) = if is_item e then o + entries_len es else last_off o es.
Proof.
  revert o. induction es as [|e' es IH]; intros o.
  - cbn. destruct (is_item e); cbn; lia.
  - cbn [app last_off]. rewrite existsb_app, IH, entries_len_cons. cbn [existsb]. rewrite orb_false_r.
    destruct (is_item e) eqn:E.
    + rewrite orb_true_r. lia.
    + by rewrite orb_false_r.
Qed.

Section ops.
Variables junk now : Z.

Lemma ensure_ok buf es n :
  layout buf es -> 0 <= n -> sb_used buf + n <= MAX_SERIAL_BUFFER_SIZE ->
  exists hdr slack,
    let b := ensure junk buf n in
    sb_data b = hdr ++ enc 0 sizeof_buffer es ++ slack /\ zlen hdr = sizeof_buffer /\ n <= zlen slack /\
    (existsb is_item es = true -> take 4 hdr = le32 (first_off 0 sizeof_buffer es)) /\
    sb_size b = zlen (sb_data b) /\ sb_size b < 2 ^ 31 /\ sb_used b = sb_used buf /\ sb_last b = sb_last buf /\
    sb_items_count b = sb_items_count buf.
Proof.
  intros HL Hn Hmax. unfold MAX_SERIAL_BUFFER_SIZE in Hmax.
  pose proof (lay_used _ _ HL) as Hu. pose proof (entries_len_nonneg es). unfold sizeof_buffer in Hu.
  pose proof (lay_size _ _ HL) as Hs. pose proof (lay_int _ _ HL). pose proof (zlen_nonneg (sb_data buf)).
  assert (exists ext, let b := ensure junk buf n in sb_data b = sb_data buf ++ ext /\ sb_size b = zlen (sb_data b) /\
    sb_size b < 2 ^ 31 /\ sb_used buf + n <= zlen (sb_data b) /\
    sb_used b = sb_used buf /\ sb_last b = sb_last buf /\ sb_items_count b = sb_items_count buf)
    as (ext & Hd & Hz1 & Hz2 & Hz3 & Hrest).
  { unfold ensure. rewrite u64_small by lia. destruct (sb_used buf + n >? sb_size buf) eqn:E; unbool.
    2: { exists []. rewrite app_nil_r. cbn zeta. repeat split; lia. }
    assert (0 <= sb_size buf / 20 <= sb_size buf / 20) by (split; [apply Z.div_pos; lia|lia]).
    assert (sb_size buf / 20 < 2 ^ 27) by (apply Z.div_lt_upper_bound; lia).
    set (L := grow_len (sb_size buf) (sb_used buf) n).
    assert (HLl : sb_size buf <= L < 2 ^ 31 /\ sb_used buf + n <= L).
    { unfold L, grow_len, MIN_BUFFER_GROW_PERCENT, MIN_BUFFER_GROW_BYTES. rewrite !u64_small by lia.
      rewrite i32_small by lia. lia. }
    exists (replicate (Z.to_nat L - length (sb_data buf)) junk). unfold serial_buffer_grow. fold L. cbn.
    rewrite take_ge by (unfold zlen in *; lia). split; [done|]. rewrite zlen_app, zlen_replicate. unfold zlen in *. lia. }
  pose proof (zlen_enc 0 sizeof_buffer es) as Henc.
  destruct (decide (es = [])) as [->|Hne].
  - exists (take 56 (sb_data (ensure junk buf n))), (drop 56 (sb_data (ensure junk buf n))). cbn [enc app]. cbn in Hu.
    rewrite take_drop. split; [done|]. unfold zlen in *. rewrite length_take, length_drop.
    split; [unfold sizeof_buffer; lia|]. split; [lia|]. split; [done|]. done.
  - destruct (lay_bytes _ _ HL Hne) as (hdr & slack & Hb & Hh & Hf). exists hdr, (slack ++ ext).
    split; [by rewrite Hd, Hb, <- !(assoc_L (++))|]. split; [done|].
    rewrite Hd, Hb in Hz3. split; [|done]. unfold sizeof_buffer in *. lens.
Qed.

Lemma split_len {A} (l : list A) n : 0 <= n <= zlen l -> exists a b, l = a ++ b /\ zlen a = n.
Proof.
  intros Hn. exists (take (Z.to_nat n) l), (drop (Z.to_nat n) l). split; [by rewrite take_drop|].
  unfold zlen in *. rewrite length_take. lia.
Qed.

Lemma write_at a b b' c o : o = zlen a -> zlen b' = zlen b -> write (a ++ b ++ c) o b' = Ret (a ++ b' ++ c).
Proof. intros ->. apply write_mid. Qed.

Lemma set_int_at a b c o x : o = zlen a -> zlen b = 4 -> 0 <= x < 2 ^ 31 -> set_int (a ++ b ++ c) o x = Ret (a ++ le32 x ++ c).
Proof. intros -> Hb Hx. unfold set_int. rewrite u32_small by lia. by apply write_mid. Qed.

Lemma add_data_ok buf es d :
  layout buf es -> sb_used buf + zlen d <= MAX_SERIAL_BUFFER_SIZE ->
  exists buf', serial_buffer_add_data junk buf d = Ret (buf', sizeof_buffer + entries_len es) /\ layout buf' (es ++ [Raw d]).
Proof.
  intros HL Hmax. destruct (ensure_ok buf es (zlen d) HL (zlen_nonneg d) Hmax)
    as (hdr & slack & Hd & Hh & Hsl & Hf & Hs & Hi & Hu & Hl & Hc).
  destruct (split_len slack (zlen d)) as (s1 & s2 & -> & Hs1); [pose proof (zlen_nonneg d); lia|].
  unfold serial_buffer_add_data. rewrite Hu, Hd, (lay_used _ _ HL), Hs.
  pose proof (zlen_enc 0 sizeof_buffer es) as Henc. pose proof (entries_len_nonneg es).
  rewrite (assoc_L (++)), write_at by lens. cbn [mbind res_mbind].
  eexists. split; [done|]. rewrite (lay_used _ _ HL) in Hmax. unfold MAX_SERIAL_BUFFER_SIZE in Hmax. pose proof (zlen_nonneg d).
  constructor; cbn [sb_used sb_size sb_data sb_last sb_items_count].
  - rewrite entries_len_snoc. cbn [entry_len]. rewrite u64_small; unfold sizeof_buffer in *; lia.
  - rewrite Hd. lens.
  - by rewrite <- Hs.
  - rewrite last_off_snoc. cbn [is_item]. by rewrite Hl, (lay_last _ _ HL).
  - rewrite Hc, filter_app, (lay_count _ _ HL). cbn. by rewrite app_nil_r.
  - intros _. exists hdr, s2. rewrite enc_app, first_off_app, existsb_app. cbn [is_item enc existsb orb]. rewrite !app_nil_r, orb_false_r.
    by rewrite <- !(assoc_L (++)).
Qed.

Lemma add_item_ok buf es d :
  layout buf es -> sb_used buf + (zlen d + 4) <= MAX_SERIAL_BUFFER_SIZE ->
  exists buf', serial_buffer_add_item junk buf d = Ret (buf', sizeof_buffer + entries_len es + sizeof_item) /\
    layout buf' (es ++ [Item d]).
Proof.
  intros HL Hmax. pose proof (zlen_nonneg d) as Hd0.
  destruct (ensure_ok buf es (zlen d + 4) HL ltac:(lia) Hmax) as (hdr & slack & Hd & Hh & Hsl & Hf & Hs & Hi & Hu & Hl & Hc).
  destruct (split_len slack 4 ltac:(lia)) as (s0 & s' & -> & Hs0). rewrite zlen_app in Hsl.
  destruct (split_len s' (zlen d) ltac:(lia)) as (s1 & s2 & -> & Hs1).
  pose proof (zlen_enc 0 sizeof_buffer es) as Henc. pose proof (entries_len_nonneg es) as Hel.
  set (used := sizeof_buffer + entries_len es) in *.
  assert (Hus : 0 <= used < 2 ^ 31).
  { rewrite (lay_used _ _ HL) in Hmax. unfold MAX_SERIAL_BUFFER_SIZE, used, sizeof_buffer in *. lia. }
  assert (exists hdr', zlen hdr' = sizeof_buffer /\ take 4 hdr' = le32 (first_off used sizeof_buffer es) /\
    (if negb (sb_last buf =? 0) then set_int (hdr ++ enc 0 sizeof_buffer es ++ le32 0 ++ s1 ++ s2) (sb_last buf) used
     else set_int (hdr ++ enc 0 sizeof_buffer es ++ le32 0 ++ s1 ++ s2) 0 used) =
    Ret (hdr' ++ enc used sizeof_buffer es ++ le32 0 ++ s1 ++ s2)) as (hdr' & Hh' & Ht' & Hlink).
  { rewrite (lay_last _ _ HL). destruct (existsb is_item es) eqn:E.
    - rewrite (proj2 (Z.eqb_neq _ _)) by (apply last_off_pos; done). cbn [negb]. exists hdr.
      split; [done|]. split; [rewrite (Hf eq_refl); f_equal; by apply first_off_item|]. by apply relink.
    - rewrite last_off_none by done. cbn [Z.eqb negb]. destruct (no_items used 0 sizeof_buffer es E) as [-> ->].
      destruct (split_len hdr 4) as (h0 & h1 & -> & Hh0); [unfold sizeof_buffer in *; lia|].
      exists (le32 used ++ h1). split; [lens|]. split; [done|]. 
      rewrite <- !(assoc_L (++)). by apply (set_int_at []). }
  unfold serial_buffer_add_item. change (zlen d + sizeof_item) with (zlen d + 4). cbv zeta. rewrite Hu, Hd, Hl, (lay_used _ _ HL). fold used.
  rewrite (assoc_L (++) hdr), (set_int_at (hdr ++ _)) by (unfold used; lens). rewrite <- (assoc_L (++) hdr).
  cbn [mbind res_mbind]. rewrite Hlink. cbn [mbind res_mbind].
  pose proof (zlen_enc used sizeof_buffer es) as Henc'.
  replace (hdr' ++ enc used sizeof_buffer es ++ le32 0 ++ s1 ++ s2)
    with ((hdr' ++ enc used sizeof_buffer es ++ le32 0) ++ s1 ++ s2) by (by rewrite <- !(assoc_L (++))).
  rewrite write_at by (rewrite ?zlen_app, ?zlen_le32, ?Hh', ?Henc'; unfold used, sizeof_item; lia). cbn [mbind res_mbind]. eexists. split; [done|].
  rewrite (lay_used _ _ HL) in Hmax. fold used in Hmax. unfold MAX_SERIAL_BUFFER_SIZE in Hmax.
  constructor; cbn [sb_used sb_size sb_data sb_last sb_items_count].
  - rewrite entries_len_snoc. cbn [entry_len]. unfold used, sizeof_item in *. rewrite u64_small; lia.
  - rewrite Hs, Hd. lens.
  - done.
  - by rewrite last_off_snoc.
  - rewrite Hc, filter_app, (lay_count _ _ HL). cbn. by rewrite i32_i32_add, zlen_app.
  - intros _. exists hdr', s2. rewrite enc_app, first_off_app. cbn [is_item enc]. fold used. rewrite app_nil_r. cbn [first_off].
    split; [by rewrite <- !(assoc_L (++))|]. done.
Qed.
End ops.

(** ** Processing *)

(** The bytes [d] are in the block at [off]. *)
Definition has (b : list Z) (off : Z) (d : list Z) : Prop := exists a c, b = a ++ d ++ c /\ zlen a = off.

Fixpoint items_at (o : Z) (es : list entry) : list (Z * list Z) :=
  match es with
  | [] => []
  | Item d :: es => (o, d) :: items_at (o + entry_len (Item d)) es
  | Raw d :: es => items_at (o + entry_len (Raw d)) es
  end.

Fixpoint raws_at (o : Z) (es : list entry) : list (Z * list Z) :=
  match es with
  | [] => []
  | Item d :: es => raws_at (o + entry_len (Item d)) es
  | Raw d :: es => (o, d) :: raws_at (o + entry_len (Raw d)) es
  end.

Definition has_all (b : list Z) (rs : list (Z * list Z)) : Prop := forall r, r ∈ rs -> has b r.1 r.2.

Lemma has_app b off d c : has b off d -> has (b ++ c) off d.
Proof. intros (x & y & -> & Hx). exists x, (y ++ c). by rewrite <- !(assoc_L (++)). Qed.

Lemma enc_has u pre o es tl : zlen pre = o -> has_all (pre ++ enc u o es ++ tl) (raws_at o es).
Proof.
  revert pre o. induction es as [|[d|d] es IH]; intros pre o Hpre r; cbn [raws_at].
  - by rewrite elem_of_nil.
  - cbn [enc]. intros Hr. set (l := le32 _).
    replace (pre ++ (l ++ d ++ enc u (o + entry_len (Item d)) es) ++ tl)
      with ((pre ++ l ++ d) ++ enc u (o + entry_len (Item d)) es ++ tl) by (by rewrite <- !(assoc_L (++))).
    apply (IH (pre ++ l ++ d)); [|done]. cbn [entry_len]. unfold sizeof_item, l. lens.
  - cbn [enc]. intros [->|Hr]%elem_of_cons.
    + exists pre, (enc u (o + entry_len (Raw d)) es ++ tl). by rewrite <- !(assoc_L (++)).
    + replace (pre ++ (d ++ enc u (o + entry_len (Raw d)) es) ++ tl)
        with ((pre ++ d) ++ enc u (o + entry_len (Raw d)) es ++ tl) by (by rewrite <- !(assoc_L (++))).
      apply (IH (pre ++ d)); [|done]. cbn [entry_len]. lens.
Qed.

Lemma items_at_none o es : existsb is_item es = false -> items_at o es = [].
Proof. revert o. induction es as [|[d|d] es IH]; intros o E; [done..|]. cbn in *. by apply IH. Qed.

Lemma items_filter o es : zlen (filter is_item es) = zlen (items_at o es).
Proof.
  revert o. induction es as [|[d|d] es IH]; intros o; [done|..]; cbn [items_at].
  - rewrite filter_cons_True by done. rewrite !zlen_cons. f_equal. apply IH.
  - rewrite filter_cons_False by (by intros []). apply IH.
Qed.

Section process_theory.
Context {Ctx : Type}.
Variable proc : list Z -> Z -> Ctx -> Z -> list Z * Ctx.

(** The callback is called once for each of the items, in this order and
    with these indexes; each time its data and all raw data are in place. *)
Inductive visits (raws : list (Z * list Z)) :
    list (Z * list Z) -> Z -> list Z -> Ctx -> list Z -> Ctx -> Prop :=
  | visits_nil i b ctx : visits raws [] i b ctx b ctx
  | visits_cons off d r i b ctx b1 ctx1 b2 ctx2 :
      has b (off + sizeof_item) d -> has_all b raws ->
      proc b (off + sizeof_item) ctx i = (b1, ctx1) ->
      visits raws r (i + 1) b1 ctx1 b2 ctx2 ->
      visits raws ((off, d) :: r) i b ctx b2 ctx2.

(** The callback writes to the data of its item only. *)
Definition writes_own (es : list entry) : Prop :=
  forall d, Item d ∈ es -> forall pre post ctx i, exists d' ctx',
    proc (pre ++ d ++ post) (zlen pre) ctx i = (pre ++ d' ++ post, ctx') /\ zlen d' = zlen d.

Lemma first_off_range u o es : existsb is_item es = true -> o <= first_off u o es <= o + entries_len es.
Proof.
  revert o. induction es as [|[d|d] es IH]; intros o Hex; [done|..]; rewrite entries_len_cons; cbn [first_off].
  - pose proof (entries_len_nonneg es). pose proof (entry_len_nonneg (Item d)). lia.
  - specialize (IH (o + entry_len (Raw d)) Hex). pose proof (entry_len_nonneg (Raw d)). lia.
Qed.

Lemma process_loop_ok fuel es prev raws pre o tl ctx i :
  existsb is_item es = true -> writes_own es -> zlen pre = o -> 0 < o -> o + entries_len es < 2 ^ 31 ->
  (length (items_at o es) <= fuel)%nat ->
  has_all pre prev -> raws = prev ++ raws_at o es ->
  exists b' ctx', process_loop proc fuel (pre ++ enc 0 o es ++ tl) (first_off 0 o es) ctx i =
      Ret (b', ctx', i + zlen (items_at o es) - 1) /\
    visits raws (items_at o es) i (pre ++ enc 0 o es ++ tl) ctx b' ctx'.
Proof.
  revert fuel prev pre o ctx i. induction es as [|e es IH]; intros fuel prev pre o ctx i Hex Hw Hpre Ho Hmax Hfu Hprev Hraws; [done|].
  assert (Hw' : writes_own es) by (intros d Hd; apply Hw; by right).
  rewrite entries_len_cons in Hmax. pose proof (entry_len_nonneg e) as He. pose proof (entries_len_nonneg es) as Hes.
  destruct e as [d|d].
  - cbn [items_at length] in Hfu. destruct fuel as [|fuel]; [lia|]. cbn [enc first_off items_at process_loop].
    set (o' := o + entry_len (Item d)) in *. set (l := first_off 0 o' es).
    destruct (Hw d ltac:(by left) (pre ++ le32 l) (enc 0 o' es ++ tl) ctx i) as (d' & ctx1 & Hp & Hd').
    rewrite zlen_app, zlen_le32, Hpre in Hp. rewrite <- !(assoc_L (++)) in Hp |- *. unfold sizeof_item at 1. rewrite Hp.
    assert (Hlr : 0 <= l < 2 ^ 31).
    { unfold l. destruct (existsb is_item es) eqn:E; [pose proof (first_off_range 0 o' es E); unfold o' in *; lia|].
      destruct (no_items 0 0 o' es E) as [_ ->]. lia. }
    rewrite (get_int_at pre) by done. cbn [mbind res_mbind].
    assert (Hv : has (pre ++ le32 l ++ d ++ enc 0 o' es ++ tl) (o + sizeof_item) d /\
                 has_all (pre ++ le32 l ++ d ++ enc 0 o' es ++ tl) raws).
    { split; [exists (pre ++ le32 l), (enc 0 o' es ++ tl); rewrite <- (assoc_L (++)); split; [done|unfold sizeof_item; lens]|].
      intros r. rewrite Hraws. intros [Hr|Hr]%elem_of_app; [by apply has_app, Hprev|].
      pose proof (enc_has 0 pre o (Item d :: es) tl Hpre r Hr) as H. cbn [enc] in H. by rewrite <- !(assoc_L (++)) in H. }
    destruct Hv as [Hv1 Hv2].
    destruct (existsb is_item es) eqn:E.
    + assert (l <> 0) by (unfold l, o'; pose proof (first_off_range 0 (o + entry_len (Item d)) es E); lia).
      rewrite (proj2 (Z.eqb_neq 0 l)) by done.
      destruct (IH fuel prev (pre ++ le32 l ++ d') o' ctx1 (i + 1)) as (b' & ctx' & Hrun & Hvis).
      1-2: done. 1: unfold o'; cbn [entry_len]; unfold sizeof_item; lens. 1-2: unfold o'; lia.
      1: lia. 1: intros r Hr; by apply has_app, Hprev. 1: done.
      rewrite <- !(assoc_L (++)) in Hrun, Hvis. fold l in Hrun. rewrite Hrun. exists b', ctx'. split.
      * do 2 f_equal. rewrite zlen_cons. lia.
      * eapply visits_cons; [done|done| |exact Hvis]. unfold sizeof_item. done.
    + destruct (no_items 0 0 o' es E) as [_ El]. fold l in El. replace (0 =? l) with true by (by rewrite El).
      rewrite (items_at_none o' es E). eexists _, ctx1. replace (i + zlen [(o, d)] - 1) with i by (rewrite zlen_cons, zlen_nil; lia). split; [done|].
      eapply visits_cons; [done|done| |apply visits_nil]. unfold sizeof_item. done.
  - cbn [items_at] in Hfu |- *. cbn [enc first_off].
    destruct (IH fuel (prev ++ [(o, d)]) (pre ++ d) (o + entry_len (Raw d)) ctx i) as (b' & ctx' & Hrun & Hvis).
    1-2: done. 1: cbn [entry_len]; lens. 1-2: lia. 1: done.
    + intros r [Hr|Hr]%elem_of_app; [by apply has_app, Hprev|]. apply list_elem_of_singleton in Hr as ->.
      exists pre, []. by rewrite app_nil_r.
    + rewrite Hraws. cbn [raws_at]. by rewrite <- (assoc_L (++)).
    + rewrite <- !(assoc_L (++)) in Hrun, Hvis |- *. eauto.
Qed.
End process_theory.

(** ** Histories *)

Inductive sop := OpItem (d : list Z) | OpData (d : list Z) | OpClean | OpReset.

Definition run_op (junk now : Z) (op : sop) (buf : serial_buffer) : res serial_buffer :=
  match op with
  | OpItem d => '(buf, _) ← serial_buffer_add_item junk buf d; Ret buf
  | OpData d => '(buf, _) ← serial_buffer_add_data junk buf d; Ret buf
  | OpClean => Ret (serial_buffer_clean now buf)
  | OpReset => Ret (serial_buffer_reset junk now buf)
  end.

Fixpoint run_ops (junk now : Z) (ops : list sop) (buf : serial_buffer) : res serial_buffer :=
  match ops with [] => Ret buf | op :: ops => buf ← run_op junk now op buf; run_ops junk now ops buf end.

(** The entries after a history. *)
Definition content_step (es : list entry) (op : sop) : list entry :=
  match op with OpItem d => es ++ [Item d] | OpData d => es ++ [Raw d] | OpClean | OpReset => [] end.
Definition content (es : list entry) (ops : list sop) : list entry := foldl content_step es ops.

(** The bytes a history adds. *)
Definition op_len (op : sop) : Z :=
  match op with OpItem d => zlen d + sizeof_item | OpData d => zlen d | OpClean | OpReset => 0 end.
Definition ops_len (ops : list sop) : Z := foldr (fun op s => op_len op + s) 0 ops.

Lemma ensure_init_size junk buf n : sb_init_size (ensure junk buf n) = sb_init_size buf.
Proof. unfold ensure. by destruct (_ >? _). Qed.

Lemma run_op_ok junk now op buf es :
  layout buf es -> sb_init_size buf = 0 -> sizeof_buffer + entries_len es + op_len op <= MAX_SERIAL_BUFFER_SIZE ->
  exists buf', run_op junk now op buf = Ret buf' /\ layout buf' (content_step es op) /\ sb_init_size buf' = 0 /\
    entries_len (content_step es op) <= entries_len es + op_len op.
Proof.
  intros HL Hi Hmax. destruct op as [d|d| |]; cbn [op_len run_op content_step] in *; unfold sizeof_item in *.
  - destruct (add_item_ok junk buf es d HL) as (b & Hb & HL'); [rewrite (lay_used _ _ HL); lia|].
    rewrite Hb. cbn [mbind res_mbind]. exists b. split; [done|]. split; [done|].
    rewrite entries_len_snoc. cbn [entry_len]. unfold sizeof_item. split; [|lia].
    unfold serial_buffer_add_item in Hb. inv_ret. subst. cbn. by rewrite ensure_init_size.
  - destruct (add_data_ok junk buf es d HL) as (b & Hb & HL'); [rewrite (lay_used _ _ HL); lia|].
    rewrite Hb. cbn [mbind res_mbind]. exists b. split; [done|]. split; [done|].
    rewrite entries_len_snoc. cbn [entry_len]. split; [|lia].
    unfold serial_buffer_add_data in Hb. inv_ret. subst. cbn. by rewrite ensure_init_size.
  - eexists. split; [done|]. pose proof (entries_len_nonneg es). split; [|split; [done|cbn; lia]].
    constructor; cbn; try done; [apply (lay_size _ _ HL)|apply (lay_int _ _ HL)].
  - eexists. split; [done|]. pose proof (entries_len_nonneg es). split; [|split; [done|cbn; lia]].
    constructor; cbn; rewrite ?Hi; done.
Qed.

Lemma op_len_nonneg op : 0 <= op_len op.
Proof. destruct op; cbn [op_len]; try pose proof (zlen_nonneg d); unfold sizeof_item; lia. Qed.

Lemma run_ops_ok junk now ops buf es :
  layout buf es -> sb_init_size buf = 0 -> sizeof_buffer + entries_len es + ops_len ops <= MAX_SERIAL_BUFFER_SIZE ->
  exists buf', run_ops junk now ops buf = Ret buf' /\ layout buf' (content es ops) /\
    sizeof_buffer + entries_len (content es ops) <= MAX_SERIAL_BUFFER_SIZE.
Proof.
  revert buf es. induction ops as [|op ops IH]; intros buf es HL Hi Hmax; cbn [ops_len foldr] in Hmax.
  - exists buf. split; [done|]. split; [done|]. cbn [content foldl]. lia.
  - fold (ops_len ops) in Hmax. pose proof (op_len_nonneg op).
    assert (0 <= ops_len ops) by (clear; induction ops as [|x ops IH]; [done|]; cbn; pose proof (op_len_nonneg x); fold (ops_len ops); lia).
    destruct (run_op_ok junk now op buf es HL Hi ltac:(lia)) as (b & Hb & HL' & Hi' & Hlen).
    cbn [run_ops]. rewrite Hb. cbn [mbind res_mbind]. apply IH; [done|done|]. lia.
Qed.

Lemma take4 (hdr c : list Z) x : 4 <= zlen hdr -> take 4 hdr = le32 x -> exists h, hdr ++ c = le32 x ++ h ++ c.
Proof. intros Hl Ht. exists (drop 4 hdr). by rewrite (assoc_L (++)), <- Ht, take_drop. Qed.

Lemma items_le o es : zlen (items_at o es) <= entries_len es.
Proof.
  revert o. induction es as [|[d|d] es IH]; intros o; [done|..]; rewrite entries_len_cons; cbn [items_at].
  - rewrite zlen_cons. specialize (IH (o + entry_len (Item d))). cbn [entry_len] in *. pose proof (zlen_nonneg d). unfold sizeof_item in *. lia.
  - specialize (IH (o + entry_len (Raw d))). pose proof (entry_len_nonneg (Raw d)). lia.
Qed.

Lemma process_ok {Ctx} (proc : list Z -> Z -> Ctx -> Z -> list Z * Ctx) hdr es tl ctx :
  existsb is_item es = true -> writes_own proc es -> zlen hdr = sizeof_buffer ->
  take 4 hdr = le32 (first_off 0 sizeof_buffer es) -> sizeof_buffer + entries_len es < 2 ^ 31 ->
  exists b' ctx', serial_buffer_process proc (hdr ++ enc 0 sizeof_buffer es ++ tl) ctx =
      Ret (b', ctx', zlen (items_at sizeof_buffer es) - 1) /\
    visits proc (raws_at sizeof_buffer es) (items_at sizeof_buffer es) 0 (hdr ++ enc 0 sizeof_buffer es ++ tl) ctx b' ctx'.
Proof.
  intros Hex Hw Hh Ht Hmax. unfold serial_buffer_process. pose proof (first_off_range 0 sizeof_buffer es Hex).
  destruct (take4 hdr (enc 0 sizeof_buffer es ++ tl) _ ltac:(rewrite Hh; done) Ht) as [h Heq].
  assert (Hg : get_int (hdr ++ enc 0 sizeof_buffer es ++ tl) 0 = Ret (first_off 0 sizeof_buffer es))
    by (rewrite Heq; apply (get_int_at []); [done|unfold sizeof_buffer in *; lia]).
  rewrite Hg. cbn [mbind res_mbind].
  destruct (process_loop_ok proc (length (hdr ++ enc 0 sizeof_buffer es ++ tl)) es [] (raws_at sizeof_buffer es) hdr
              sizeof_buffer tl ctx 0) as (b' & ctx' & Hr & Hv); try done.
  - pose proof (items_le sizeof_buffer es). pose proof (zlen_enc 0 sizeof_buffer es).
    rewrite !length_app. unfold zlen in *. lia.
  - intros r Hr. by apply elem_of_nil in Hr.
  - exists b', ctx'. by rewrite Z.add_0_l in Hr.
Qed.

(** C39: Round trip.  Whatever items and raw data are added to a fresh buffer,
    with cleans and resets between them, up to 1 GiB in all: no operation
    writes outside of the block, and the number of items is that of the items
    added since the last clean or reset.  If there is such an item, and the
    callback writes to nothing but the bytes of the item it gets, then
    processing the block, or the copy of its used bytes sent to another process,
    calls the callback for exactly these items, in order, each with its bytes
    and with all raw data at the offsets [serial_buffer_add_data] returned; it
    returns the index of the last item. *)
Theorem serial_buffer_roundtrip {Ctx} (proc : list Z -> Z -> Ctx -> Z -> list Z * Ctx) junk now n buf0 ops ctx :
  serial_buffer_init junk now n = Some buf0 -> sizeof_buffer + ops_len ops <= MAX_SERIAL_BUFFER_SIZE ->
  exists buf, run_ops junk now ops buf0 = Ret buf /\
    let es := content [] ops in
    serial_buffer_get_items_count buf = i32 (zlen (items_at sizeof_buffer es)) /\
    forall b, b = serial_buffer_get_buffer buf \/ b = take (Z.to_nat (serial_buffer_get_used buf)) (serial_buffer_get_buffer buf) ->
      items_at sizeof_buffer es <> [] -> writes_own proc es ->
      exists b' ctx', serial_buffer_process proc b ctx = Ret (b', ctx', zlen (items_at sizeof_buffer es) - 1) /\
        visits proc (raws_at sizeof_buffer es) (items_at sizeof_buffer es) 0 b ctx b' ctx'.
Proof.
  intros Hinit Hmax. unfold serial_buffer_init in Hinit.
  assert (HL0 : layout buf0 [] /\ sb_init_size buf0 = 0) by (destruct (_ >? _) in Hinit; [done|]; injection Hinit as <-; done).
  destruct HL0 as [HL0 Hi0].
  destruct (run_ops_ok junk now ops buf0 [] HL0 Hi0 ltac:(cbn [entries_len foldr]; lia)) as (buf & Hrun & HL & Hlen).
  exists buf. split; [done|]. set (es := content [] ops) in *. cbv zeta.
  split; [unfold serial_buffer_get_items_count; by rewrite (lay_count _ _ HL), (items_filter sizeof_buffer)|].
  intros b Hb Hit Hw. assert (Hex : existsb is_item es = true).
  { destruct (existsb is_item es) eqn:E; [done|]. by rewrite items_at_none in Hit. }
  destruct (lay_bytes _ _ HL) as (hdr & slack & Hd & Hh & Ht); [by intros He; rewrite He in Hit|].
  specialize (Ht Hex). unfold MAX_SERIAL_BUFFER_SIZE in Hlen.
  assert (exists tl, b = hdr ++ enc 0 sizeof_buffer es ++ tl) as [tl ->].
  { unfold serial_buffer_get_buffer, serial_buffer_get_used in Hb. destruct Hb as [->| ->]; [by exists slack|].
    exists []. rewrite Hd, (lay_used _ _ HL), app_nil_r, (assoc_L (++)).
    apply take_app_length'. unfold zlen in *. pose proof (zlen_enc 0 sizeof_buffer es). rewrite length_app. unfold zlen in *. lia. }
  apply process_ok; try done. lia.
Qed.

(** ** Witnesses *)

Definition first_ops : list sop := [OpItem [7]; OpClean; OpData [1; 2; 3]; OpItem [10; 11]; OpItem []; OpData [4]; OpItem [12]].

(** A callback that records the byte and the index of its item. *)
Definition record (b : list Z) (off : Z) (ctx : list (option Z * Z)) (i : Z) : list Z * list (option Z * Z) := (b, ctx ++ [(zget b off, i)]).

Lemma record_own es : writes_own record es.
Proof. intros d _ pre post ctx i. exists d. eexists. split; [reflexivity|done]. Qed.

Lemma serial_buffer_witness :
  exists buf b' ctx', run_ops 255 1700000000 first_ops (SerialBuffer [] 56 0 0 0 0 1700000000) = Ret buf /\
    serial_buffer_process record (serial_buffer_get_buffer buf) [] = Ret (b', ctx', 2).
Proof.
  destruct (serial_buffer_roundtrip record 255 1700000000 100 (SerialBuffer [] 56 0 0 0 0 1700000000) first_ops [] eq_refl)
    as (buf & Hrun & _ & Hp); [by vm_compute|].
  destruct (Hp (serial_buffer_get_buffer buf)) as (b' & ctx' & H & _); [by left|done|apply record_own|].
  exists buf, b', ctx'. split; [exact Hrun|exact H].
Defined.

Definition processed (ops : list sop) : res (list (option Z * Z)) :=
  buf ← run_ops 255 1700000000 ops (SerialBuffer [] 56 0 0 0 0 1700000000);
  r ← serial_buffer_process record (sb_data buf) []; Ret r.1.2.

(** A clean keeps the header: processing a cleaned buffer without items visits
    the items of before. *)
Example clean_keeps_header : processed [OpItem [7]; OpClean] = Ret [(Some 7, 0)].
Proof. vm_compute. reflexivity. Qed.

(** The new length is an [int]: past 2 GiB the block shrinks to 16 KiB. *)
Example grow_len_overflow : grow_len 2147483647 2147483640 100 = MIN_BUFFER_GROW_BYTES.
Proof. reflexivity. Qed.
