(* ===== verification/Sessions.v ===== *)
(** * Poller sessions (src/zabbix_server/glb_poller/poller_sessions.c)

    A session gives a random 32-bit id to a request that is on the wire and
    finds the item when the answer comes.  The sessions are a hash set keyed
    by the id.  The values of [rand()] a call sees are its input; a call that
    used them up is still looking for a free id ([OutOfFuel]). *)
From stdpp Require Import prelude list gmap.
From Stdlib Require Import ZArith Lia.
From S2P Require Import Prelude Hashset HashsetMap.
#[local] Open Scope Z_scope.

Record sess := Sess { sess_id : Z; itemid : Z; time_added : Z }.

Definition sess_hash (d : sess) : Z := sess_id d.
Definition sess_compare_func (d1 d2 : sess) : Z := cmp (sess_id d1) (sess_id d2).

(** [zbx_hashset_search(&conf.sessions, &id)]: only the id is read. *)
Definition find_sess (conf : hashset sess) (id : Z) : res (option (entry sess)) :=
  zbx_hashset_search sess_hash sess_compare_func conf (Sess id 0 0).

Definition gen_random32bit (rand : Z) : Z := u32 rand.

(** [while (NULL != search(sess_id)) sess_id = gen_random32bit();] *)
Fixpoint pick_id (conf : hashset sess) (rands : list Z) : res Z :=
  match rands with
  | [] => Halt OutOfFuel
  | r :: rands =>
      let sess_id := gen_random32bit r in
      session ← find_sess conf sess_id;
      match session with Some _ => pick_id conf rands | None => Ret sess_id end
  end.

(** [p]: the address of the new entry; the allocator of the set exits when
    there is no memory. *)
Definition poller_sessions_create_session (p now : Z) (rands : list Z) (conf : hashset sess) (itemid : Z) :
    res (hashset sess * Z) :=
  sess_id ← pick_id conf rands;
  '(conf, _) ← zbx_hashset_insert sess_hash sess_compare_func p true true conf (Sess sess_id itemid now);
  Ret (conf, sess_id).

Definition poller_sessions_close_session (conf : hashset sess) (sess_id : Z) : res (hashset sess * Z) :=
  sess ← find_sess conf sess_id;
  match sess with
  | None => Ret (conf, 0)
  | Some sess =>
      let itemid := itemid (e_data sess) in
      '(conf, _) ← zbx_hashset_remove_direct conf sess;
      Ret (conf, itemid)
  end.

Definition poller_sessions_count (conf : hashset sess) : Z := hs_num_data conf.
Definition poller_sessions_init : hashset sess := zbx_hashset_create 1000.
Definition poller_sessions_destroy (conf : hashset sess) : hashset sess := (zbx_hashset_destroy conf).1.

(** ** Theory *)

#[export] Instance sess_keyed : Keyed sess_hash sess_compare_func sess_id.
Proof. split; [intros; apply cmp_0|done]. Qed.

#[local] Abbreviation hok := (hs_ok sess_hash sess_compare_func).
#[local] Abbreviation sessions := (map_of (key := sess_id)).

Lemma find_sess_ok conf id :
  hok conf -> exists o, find_sess conf id = Ret o /\ sessions conf !! id = e_data <$> o /\
    (forall e, o = Some e -> e ∈ elements conf /\ sess_id (e_data e) = id).
Proof. intros Hok. exact (search_map (key := sess_id) conf (Sess id 0 0) Hok). Qed.

Lemma pick_id_ok conf rands :
  hok conf -> Exists (fun r => sessions conf !! u32 r = None) rands ->
  exists r, r ∈ rands /\ pick_id conf rands = Ret (u32 r) /\ sessions conf !! u32 r = None.
Proof.
  intros Hok Hex. induction Hex as [r rs Hr|r rs _ IH]; cbn [pick_id]; unfold gen_random32bit;
    destruct (find_sess_ok conf (u32 r) Hok) as (o & -> & Ho & _); cbn [mbind res_mbind].
  - rewrite Hr in Ho. destruct o; [done|]. exists r. split; [by left|done].
  - destruct o as [e|].
    + destruct IH as (x & Hx & Hp & Hn). exists x. split; [by right|done].
    + exists r. split; [by left|done].
Qed.

Lemma sessions_close_ok conf id : hok conf -> exists conf',
  poller_sessions_close_session conf id = Ret (conf', match sessions conf !! id with Some s => itemid s | None => 0 end) /\
  hok conf' /\ sessions conf' = delete id (sessions conf).
Proof.
  intros Hok. unfold poller_sessions_close_session.
  destruct (find_sess_ok conf id Hok) as (o & -> & Ho & He). cbn [mbind res_mbind]. rewrite Ho. destruct o as [e|].
  - destruct (He e eq_refl) as [Hin Hid]. destruct (remove_direct_map (key := sess_id) conf e Hok Hin) as (conf' & -> & Hok' & Hm & _).
    exists conf'. cbn. by rewrite Hm, Hid.
  - exists conf. cbn. by rewrite delete_id.
Qed.

Lemma sessions_close_sub conf id conf' x : hok conf -> poller_sessions_close_session conf id = Ret (conf', x) ->
  e_ptr <$> elements conf' ⊆ e_ptr <$> elements conf.
Proof.
  intros Hok. unfold poller_sessions_close_session. destruct (find_sess_ok conf id Hok) as (o & -> & Ho & He). cbn [mbind res_mbind].
  destruct o as [e|]; [|intros [= <- _]; set_solver]. destruct (He e eq_refl) as [Hin _].
  destruct (remove_direct_map (key := sess_id) conf e Hok Hin) as (c & -> & _ & _ & P). cbn [mbind res_mbind]. intros [= <- _]. rewrite P. set_solver.
Qed.

Lemma sessions_create_ok conf p now rands item : hok conf -> p <> 0 -> p ∉ e_ptr <$> elements conf ->
  Exists (fun r => sessions conf !! u32 r = None) rands ->
  exists conf' new, poller_sessions_create_session p now rands conf item = Ret (conf', new) /\ hok conf' /\
    new ∈ u32 <$> rands /\ sessions conf !! new = None /\ sessions conf' = <[new := Sess new item now]> (sessions conf).
Proof.
  intros Hok Hp Hn Hex. destruct (pick_id_ok conf rands Hok Hex) as (r & Hin & Hr & Hnone).
  destruct (insert_map (key := sess_id) conf (Sess (u32 r) item now) p Hok Hp Hn Hnone) as (conf' & o & Hi & Hok' & Hm & _).
  exists conf', (u32 r). unfold poller_sessions_create_session. rewrite Hr. cbn [mbind res_mbind]. rewrite Hi. cbn [mbind res_mbind].
  split_and!; try done. apply list_elem_of_fmap. by exists r.
Qed.

(** Sessions are a map from ids to items.  Creating a session returns, as
    soon as a random value is not an id in use, a 32-bit id that no open
    session has, and opens it for the item; closing returns the item of the
    session and closes only it, or 0 when there is no such session; so an
    answer closes its request once. *)
Theorem poller_sessions_correct conf p now rands item id :
  hok conf -> p <> 0 -> p ∉ e_ptr <$> elements conf ->
  Exists (fun r => sessions conf !! u32 r = None) rands ->
  (exists conf' new, poller_sessions_create_session p now rands conf item = Ret (conf', new) /\ hok conf' /\
     0 <= new < 2 ^ 32 /\ sessions conf !! new = None /\ sessions conf' = <[new := Sess new item now]> (sessions conf) /\
     exists conf'', poller_sessions_close_session conf' new = Ret (conf'', item) /\ hok conf'' /\ sessions conf'' = sessions conf) /\
  (exists conf', poller_sessions_close_session conf id = Ret (conf', match sessions conf !! id with Some s => itemid s | None => 0 end) /\
     hok conf' /\ sessions conf' = delete id (sessions conf)) /\
  poller_sessions_count conf = Z.of_nat (size (sessions conf)).
Proof.
  intros Hok Hp Hn Hex. split; [|split; [by apply sessions_close_ok|by apply map_of_size]].
  destruct (sessions_create_ok conf p now rands item Hok Hp Hn Hex) as (conf' & new & Hc & Hok' & Hr & Hnone & Hm).
  apply list_elem_of_fmap in Hr as (r & -> & _). pose proof (u32_range r). exists conf', (u32 r). split_and!; try done; try lia.
  destruct (sessions_close_ok conf' (u32 r) Hok') as (conf'' & Hc' & Hok'' & Hm''). exists conf''.
  rewrite Hc', Hm'', Hm. by rewrite lookup_insert_eq, delete_insert_id by done.
Qed.

Lemma poller_sessions_witness :
  exists conf' new, poller_sessions_create_session 8 100 [5; 6] (zbx_hashset_create 1000) 42 = Ret (conf', new) /\
    exists conf'', poller_sessions_close_session conf' new = Ret (conf'', 42).
Proof.
  destruct (create_map (hash_func := sess_hash) (compare_func := sess_compare_func) (key := sess_id) 1000 ltac:(lia)) as (Hok & Hm & He).
  destruct (poller_sessions_correct (zbx_hashset_create 1000) 8 100 [5; 6] 42 0 Hok ltac:(lia)) as [(conf' & new & Hc & _ & _ & _ & _ & conf'' & Hx & _) _].
  - rewrite He. by apply not_elem_of_nil.
  - apply Exists_cons_hd. by rewrite Hm.
  - exists conf', new. split; [exact Hc|]. exists conf''. exact Hx.
Defined.
