(* ===== verification/Contention.v ===== *)
(** * Poller contention (src/zabbix_server/glb_poller/poller_contention.c)

    Counts the requests in flight for each resource.  A resource is named by
    an interned string: the address of its characters is the key (0 is NULL).
    The state is the hash set, the total and the time of the last
    housekeeping; [now] is [time(NULL)], [delay] is
    [CONFIG_UNREACHABLE_DELAY]. *)
From stdpp Require Import prelude list gmap.
From Stdlib Require Import ZArith Lia.
From S2P Require Import Prelude Algodefs Hashset HashsetMap.
#[local] Open Scope Z_scope.

Record csess := CSess { resource_name : Z; sess_count : Z; last_added_time : Z }.
Record contention := Contention { conf : hashset csess; sessions : Z; last_housekeep : Z }.

Definition res_hash (d : csess) : Z := zbx_hash_splittable64 (resource_name d).
Definition res_compare (d1 d2 : csess) : Z := zbx_default_uint64_compare_func (resource_name d1) (resource_name d2).

Definition find_res (hs : hashset csess) (name : Z) : res (option (entry csess)) :=
  zbx_hashset_search res_hash res_compare hs (CSess name 0 0).

Definition poller_contention_init : contention := Contention (zbx_hashset_create 1000) 0 0.

(** [p]: the address of a new entry. *)
Definition poller_contention_add_session (p now : Z) (st : contention) (name : Z) : res contention :=
  let total := i32 (sessions st + 1) in
  session ← find_res (conf st) name;
  match session with
  | Some e =>
      d ← entry_load (conf st) (e_ptr e);
      hs ← entry_store (conf st) (e_ptr e) (CSess (resource_name d) (u32 (sess_count d + 1)) now);
      Ret (Contention hs total (last_housekeep st))
  | None =>
      '(hs, _) ← zbx_hashset_insert res_hash res_compare p true true (conf st) (CSess name 1 now);
      Ret (Contention hs total (last_housekeep st))
  end.

Definition poller_contention_remove_session (st : contention) (name : Z) : res contention :=
  if name =? 0 then Ret st
  else
    sess ← find_res (conf st) name;
    match sess with
    | None => Ret st
    | Some e =>
        d ← entry_load (conf st) (e_ptr e);
        hs ← (if sess_count d >? 0 then
                entry_store (conf st) (e_ptr e) (CSess (resource_name d) (u32 (sess_count d - 1)) (last_added_time d))
              else Ret (conf st));
        let total := i32 (sessions st - 1) in
        d ← entry_load hs (e_ptr e);
        hs ← (if 0 =? sess_count d then '(hs, _) ← zbx_hashset_remove_direct hs e; Ret hs else Ret hs);
        Ret (Contention hs total (last_housekeep st))
    end.

Definition expired (delay now : Z) (d : csess) : bool := i32 (last_added_time d + delay) <? now.

Definition poller_contention_get_sessions (delay now : Z) (st : contention) (name : Z) : res (contention * Z) :=
  sess ← find_res (conf st) name;
  match sess with
  | None => Ret (st, 0)
  | Some e =>
      d ← entry_load (conf st) (e_ptr e);
      if expired delay now d then
        let total := i32 (sessions st - sess_count d) in
        '(hs, _) ← zbx_hashset_remove_direct (conf st) e;
        Ret (Contention hs total (last_housekeep st), 0)
      else Ret (st, i32 (sess_count d))
  end.

Definition poller_contention_sessions_count (st : contention) : Z := sessions st.

(** [while (NULL != iter_next()) iter_remove();], the fuel is above the number of entries. *)
Fixpoint destroy_loop (fuel : nat) (hs : hashset csess) (it : iter) : res (hashset csess) :=
  match fuel with
  | O => Halt OutOfFuel
  | S fuel =>
      '(it, o) ← zbx_hashset_iter_next hs it;
      match o with
      | None => Ret hs
      | Some _ => '(hs, it) ← zbx_hashset_iter_remove hs it; destroy_loop fuel hs it
      end
  end.

Definition poller_contention_destroy (st : contention) : res contention :=
  hs ← destroy_loop (S (length (elements (conf st)))) (conf st) zbx_hashset_iter_reset;
  Ret (Contention hs (sessions st) (last_housekeep st)).

(** The count of a session is read after the session may have been removed. *)
Fixpoint housekeep_loop (fuel : nat) (delay now : Z) (hs : hashset csess) (it : iter) (total : Z) :
    res (hashset csess * Z) :=
  match fuel with
  | O => Halt OutOfFuel
  | S fuel =>
      '(it, o) ← zbx_hashset_iter_next hs it;
      match o with
      | None => Ret (hs, total)
      | Some sess =>
          d ← entry_load hs (e_ptr sess);
          '(hs, it) ← (if expired delay now d then zbx_hashset_iter_remove hs it else Ret (hs, it));
          d ← entry_load hs (e_ptr sess);
          housekeep_loop fuel delay now hs it (i32 (total + sess_count d))
      end
  end.

Definition poller_contention_housekeep (delay now : Z) (st : contention) : res contention :=
  if now - last_housekeep st <? Z.quot delay 4 then Ret st
  else
    '(hs, total) ← housekeep_loop (S (length (elements (conf st)))) delay now (conf st) zbx_hashset_iter_reset 0;
    Ret (Contention hs total now).

(** ** Theory *)

#[export] Instance csess_keyed : Keyed res_hash res_compare resource_name.
Proof. split; [intros; apply cmp_0|]. intros a b E. unfold res_hash. by rewrite E. Qed.

#[local] Abbreviation hok := (hs_ok res_hash res_compare).
#[local] Abbreviation table := (map_of (key := resource_name)).

(** The number of requests in the table. *)
Definition in_flight (l : list (entry csess)) : Z := foldr (fun e s => sess_count (e_data e) + s) 0 l.

#[export] Instance in_flight_perm : Proper (Permutation ==> eq) in_flight.
Proof. intros l l' P. unfold in_flight. induction P; cbn; lia. Qed.

(** Only resources with requests are in the table, and the total counts them. *)
Record contention_ok (st : contention) : Prop := {
  ct_set : hok (conf st);
  ct_count : forall e, e ∈ elements (conf st) -> 0 < sess_count (e_data e);
  ct_total : sessions st = in_flight (elements (conf st)) }.

Definition count_of (st : contention) (name : Z) : Z :=
  match table (conf st) !! name with Some d => sess_count d | None => 0 end.

Lemma in_flight_nonneg l : (forall e, e ∈ l -> 0 < sess_count (e_data e)) -> 0 <= in_flight l.
Proof.
  induction l as [|e l IH]; intros H; [done|]. cbn. fold (in_flight l).
  specialize (IH ltac:(intros; apply H; by right)). specialize (H e ltac:(by left)). lia.
Qed.

Lemma in_flight_split st e l :
  contention_ok st -> elements (conf st) ≡ₚ e :: l ->
  sessions st = sess_count (e_data e) + in_flight l /\ 0 < sess_count (e_data e) /\ 0 <= in_flight l /\
  (forall x, x ∈ l -> 0 < sess_count (e_data x)).
Proof.
  intros Hok P. assert (Hl : forall x, x ∈ l -> 0 < sess_count (e_data x)) by (intros x Hx; apply Hok; rewrite P; by right).
  split; [by rewrite (ct_total _ Hok), P|]. split; [apply Hok; rewrite P; by left|]. split; [by apply in_flight_nonneg|done].
Qed.

(** The state after the entry [e] was replaced by [e'] or dropped. *)
Lemma contention_ok_cons hs e l t k :
  hok hs -> elements hs ≡ₚ e :: l -> 0 < sess_count (e_data e) -> (forall x, x ∈ l -> 0 < sess_count (e_data x)) ->
  t = sess_count (e_data e) + in_flight l -> contention_ok (Contention hs t k).
Proof.
  intros Hok P He Hl Ht. split; cbn [conf sessions]; [done| |by rewrite P, Ht].
  intros x. rewrite P. intros [->|Hx]%elem_of_cons; [done|by apply Hl].
Qed.

Lemma add_session_ok p now st name :
  contention_ok st -> sessions st + 1 < 2 ^ 31 -> p <> 0 -> p ∉ e_ptr <$> elements (conf st) ->
  exists st', poller_contention_add_session p now st name = Ret st' /\ contention_ok st' /\
    table (conf st') = <[name := CSess name (count_of st name + 1) now]> (table (conf st)) /\ sessions st' = sessions st + 1.
Proof.
  intros Hok Hmax Hp Hn. unfold poller_contention_add_session, count_of, find_res.
  pose proof (ct_total _ Hok) as Ht. pose proof (in_flight_nonneg _ (ct_count _ Hok)) as H0.
  destruct (search_map (key := resource_name) (conf st) (CSess name 0 0) (ct_set _ Hok)) as (o & -> & Ho & He). cbn [resource_name] in *.
  cbn [mbind res_mbind]. rewrite i32_small by lia. rewrite Ho. destruct o as [e|]; cbn [fmap option_fmap option_map].
  - destruct (He e eq_refl) as [Hin Hk]. rewrite (entry_load_ok res_hash res_compare) by (done || apply Hok). cbn [mbind res_mbind].
    set (d := CSess _ _ _).
    destruct (store_map (key := resource_name) (conf st) e d (ct_set _ Hok) Hin eq_refl) as (hs & r & -> & Hok' & Hm & P & P').
    cbn [mbind res_mbind]. destruct (in_flight_split _ _ _ Hok P) as (Hs & Hc & Hr & Hl).
    assert (Hd : u32 (sess_count (e_data e) + 1) = sess_count (e_data e) + 1) by (apply u32_small; lia).
    eexists. split; [done|]. split; [|split; [|done]].
    + eapply contention_ok_cons; [done|exact P'|cbn; lia|done|cbn; lia].
    + cbn [conf]. rewrite Hm. unfold d. by rewrite Hk, Hd.
  - destruct (insert_map (key := resource_name) (conf st) (CSess name 1 now) p (ct_set _ Hok) Hp Hn Ho) as (hs & o & -> & Hok' & Hm & P).
    cbn [mbind res_mbind]. eexists. split; [done|]. split; [|split; [exact Hm|done]].
    eapply contention_ok_cons; [done|exact P|done|apply Hok|cbn; lia].
Qed.

(** A session is dropped: the state without it. *)
Lemma drop_ok st e k :
  contention_ok st -> e ∈ elements (conf st) ->
  exists hs, zbx_hashset_remove_direct (conf st) e = Ret (hs, Some e) /\
    contention_ok (Contention hs (sessions st - sess_count (e_data e)) k) /\
    table hs = delete (resource_name (e_data e)) (table (conf st)).
Proof.
  intros Hok He.
  destruct (remove_direct_map (key := resource_name) (conf st) e (ct_set _ Hok) He) as (hs & Hr & Hok' & Hm & P).
  destruct (in_flight_split _ _ _ Hok P) as (Hs & _ & _ & Hl).
  exists hs. split; [done|]. split; [|done]. split; cbn [conf sessions]; [done|done|lia].
Qed.

Lemma remove_session_ok st name :
  contention_ok st -> sessions st < 2 ^ 31 -> name <> 0 ->
  exists st', poller_contention_remove_session st name = Ret st' /\ contention_ok st' /\
    count_of st' name = Z.max 0 (count_of st name - 1) /\
    (forall other, other <> name -> table (conf st') !! other = table (conf st) !! other) /\
    sessions st' = sessions st - (if decide (is_Some (table (conf st) !! name)) then 1 else 0).
Proof.
  intros Hok Hmax Hname. unfold poller_contention_remove_session, count_of, find_res.
  rewrite (proj2 (Z.eqb_neq name 0)) by done.
  destruct (search_map (key := resource_name) (conf st) (CSess name 0 0) (ct_set _ Hok)) as (o & -> & Ho & He). cbn [resource_name] in *.
  cbn [mbind res_mbind]. rewrite Ho. destruct o as [e|]; cbn [fmap option_fmap option_map].
  2: { exists st. rewrite Ho. cbn. rewrite decide_False by (by intros []). split; [done|]. split; [done|]. repeat split; lia. }
  destruct (He e eq_refl) as [Hin Hk]. rewrite decide_True by done.
  rewrite (entry_load_ok res_hash res_compare) by (done || apply Hok). cbn [mbind res_mbind].
  pose proof Hin as (l0 & P0)%elem_of_Permutation. destruct (in_flight_split _ _ _ Hok P0) as (Hs & Hc & H0 & _).
  destruct (Z.gtb_spec (sess_count (e_data e)) 0); [|lia]. set (d := CSess _ _ _).
  destruct (store_map (key := resource_name) (conf st) e d (ct_set _ Hok) Hin eq_refl) as (hs & r & -> & Hok' & Hm & P & P').
  cbn [mbind res_mbind]. destruct (in_flight_split _ _ _ Hok P) as (Hs' & _ & H0' & Hl).
  set (e' := Entry _ _ _) in P'. assert (He' : e' ∈ elements hs) by (rewrite P'; by left).
  change (e_ptr e) with (e_ptr e'). rewrite (entry_load_ok res_hash res_compare _ e') by done. cbn [mbind res_mbind e_data e'].
  assert (Hd : sess_count d = sess_count (e_data e) - 1) by (apply u32_small; lia).
  rewrite i32_small by lia. fold d. destruct (Z.eqb_spec 0 (sess_count d)) as [Ez|Ez].
  - assert (Hrm : zbx_hashset_remove_direct hs e = zbx_hashset_remove_direct hs e') by done. rewrite Hrm.
    destruct (remove_direct_map (key := resource_name) hs e' Hok' He') as (hs2 & -> & Hok2 & Hm2 & P2). cbn [mbind res_mbind].
    rewrite P' in P2. apply Permutation_cons_inv in P2.
    assert (Hm3 : table hs2 = delete name (table (conf st))).
    { rewrite Hm2, Hm. cbn [e_data e' resource_name d]. by rewrite Hk, delete_insert_eq. }
    eexists. split; [done|]. split; [|cbn [conf sessions]; rewrite Hm3].
    + split; cbn [conf sessions]; [done| |rewrite <- P2; lia]. intros x. rewrite <- P2. apply Hl.
    + rewrite lookup_delete_eq. split; [lia|]. split; [|done]. intros other Ho'. by rewrite lookup_delete_ne.
  - cbn [mbind res_mbind]. eexists. split; [done|]. split; [|cbn [conf sessions]; rewrite Hm].
    + eapply contention_ok_cons; [done|exact P'|cbn [e_data e']; lia|done|cbn [e_data e']; lia].
    + cbn [resource_name d]. rewrite Hk, lookup_insert_eq. split; [lia|]. split; [|done].
      intros other Ho'. by rewrite lookup_insert_ne.
Qed.

Lemma get_sessions_ok delay now st name :
  contention_ok st -> sessions st < 2 ^ 31 ->
  exists st', poller_contention_get_sessions delay now st name =
      Ret (st', match table (conf st) !! name with Some d => if expired delay now d then 0 else sess_count d | None => 0 end) /\
    contention_ok st' /\
    table (conf st') = match table (conf st) !! name with
      | Some d => if expired delay now d then delete name (table (conf st)) else table (conf st) | None => table (conf st) end.
Proof.
  intros Hok Hmax. unfold poller_contention_get_sessions, find_res.
  destruct (search_map (key := resource_name) (conf st) (CSess name 0 0) (ct_set _ Hok)) as (o & -> & Ho & He). cbn [resource_name] in *.
  cbn [mbind res_mbind]. rewrite Ho. destruct o as [e|]; cbn [fmap option_fmap option_map]; [|by exists st].
  destruct (He e eq_refl) as [Hin Hk]. rewrite (entry_load_ok res_hash res_compare) by (done || apply Hok). cbn [mbind res_mbind].
  pose proof Hin as (l & P)%elem_of_Permutation. destruct (in_flight_split _ _ _ Hok P) as (Hs & Hc & H0 & _).
  destruct (expired delay now (e_data e)).
  - destruct (drop_ok st e (last_housekeep st) Hok Hin) as (hs & -> & Hok' & Hm). cbn [mbind res_mbind].
    rewrite i32_small by lia. eexists. split; [done|]. split; [done|]. cbn [conf]. by rewrite Hm, Hk.
  - exists st. rewrite i32_small by lia. done.
Qed.

Lemma housekeep_loop_ok delay now st fuel it total :
  contention_ok st -> iter_ok (conf st) it -> (length (remaining (conf st) it) < fuel)%nat ->
  (forall e, e ∈ remaining (conf st) it -> e ∈ elements (conf st)) ->
  0 <= total -> total + in_flight (remaining (conf st) it) < 2 ^ 31 ->
  housekeep_loop fuel delay now (conf st) it total =
    if existsb (fun e => expired delay now (e_data e)) (remaining (conf st) it) then Halt BadAccess
    else Ret (conf st, total + in_flight (remaining (conf st) it)).
Proof.
  intros Hok. revert it total. induction fuel as [|fuel IH]; intros it total Hit Hf Hsub H0 Ht; [lia|]. cbn [housekeep_loop].
  pose proof (iter_next_ok _ _ (conf st) it (ct_set _ Hok) Hit) as Hn.
  destruct (remaining (conf st) it) as [|e r] eqn:R; cbn [advanced] in Hn.
  { destruct Hn as (it' & -> & _). cbn. by rewrite Z.add_0_r. }
  destruct Hn as (it1 & -> & Hon & Hr). cbn [mbind res_mbind].
  assert (He : e ∈ elements (conf st)) by (apply Hsub; by left).
  assert (Hrn : 0 <= in_flight r) by (apply in_flight_nonneg; intros x Hx; apply Hok, Hsub; by right).
  pose proof (ct_count _ Hok e He) as Hce. cbn [in_flight foldr] in Ht |- *. fold (in_flight r) in Ht |- *.
  rewrite (entry_load_ok res_hash res_compare) by (done || apply Hok). cbn [mbind res_mbind existsb].
  destruct (expired delay now (e_data e)); cbn [orb].
  - destruct (iter_remove_ok _ _ (conf st) it1 e (ct_set _ Hok) Hon) as (hs' & it2 & -> & Hok' & _ & P & _). cbn [mbind res_mbind].
    unfold entry_load. fold (elements hs'). destruct (find_ptr (e_ptr e) (elements hs')) as [x|] eqn:F; [exfalso|done].
    pose proof (en_ptr _ _ _ (ok_entries _ _ _ (ct_set _ Hok))) as ND. rewrite P in ND. cbn in ND. apply NoDup_cons in ND as [Hnot _].
    apply Hnot. clear -F. induction (elements hs') as [|y l IHl]; [done|]. cbn in F |- *.
    destruct (Z.eqb_spec (e_ptr y) (e_ptr e)) as [->|]; [by left|right; by apply IHl].
  - cbn [mbind res_mbind]. rewrite (entry_load_ok res_hash res_compare) by (done || apply Hok). cbn [mbind res_mbind].
    rewrite i32_small by lia. rewrite IH; rewrite ?Hr; [|by right; right; exists e|cbn in Hf; lia| |lia|lia].
    + destruct (existsb _ r); [done|]. do 2 f_equal. lia.
    + intros x Hx. apply Hsub. by right.
Qed.

(** Destroying empties the table. *)
Lemma destroy_loop_ok fuel hs it :
  hok hs -> iter_ok hs it -> (length (remaining hs it) < fuel)%nat -> elements hs ≡ₚ remaining hs it ->
  exists hs', destroy_loop fuel hs it = Ret hs' /\ hok hs' /\ elements hs' = [].
Proof.
  revert hs it. induction fuel as [|fuel IH]; intros hs it Hok Hit Hf HP; [lia|]. cbn [destroy_loop].
  pose proof (iter_next_ok _ _ hs it Hok Hit) as Hn. destruct (remaining hs it) as [|e r] eqn:R; cbn [advanced] in Hn.
  { destruct Hn as (it' & -> & _). exists hs. split; [done|]. split; [done|]. symmetry in HP. by apply Permutation_nil in HP. }
  destruct Hn as (it1 & -> & Hon & Hr). cbn [mbind res_mbind].
  destruct (iter_remove_ok _ _ hs it1 e Hok Hon) as (hs1 & it2 & -> & Hok1 & Hit2 & P & Hr2). cbn [mbind res_mbind].
  rewrite Hr in Hr2. apply IH; rewrite ?Hr2; [done|done|cbn in Hf; lia|]. rewrite P in HP. by apply Permutation_cons_inv in HP.
Qed.

(** ** Properties *)

(** Accounting.  In every state in which the total is the number of
    requests in flight: adding a session adds one request to its resource and
    to the total, removing takes one from both (and does nothing for an unknown
    resource), the resource leaves the table with its last request, asking for
    the count of a resource whose last request is too old forgets its requests;
    other resources are not touched and the total stays the number of requests
    in flight. *)
Theorem contention_accounting st p now delay name :
  contention_ok st -> sessions st + 1 < 2 ^ 31 -> p <> 0 -> p ∉ e_ptr <$> elements (conf st) -> name <> 0 ->
  (exists st', poller_contention_add_session p now st name = Ret st' /\ contention_ok st' /\
     table (conf st') = <[name := CSess name (count_of st name + 1) now]> (table (conf st)) /\
     poller_contention_sessions_count st' = poller_contention_sessions_count st + 1) /\
  (exists st', poller_contention_remove_session st name = Ret st' /\ contention_ok st' /\
     count_of st' name = Z.max 0 (count_of st name - 1) /\
     (forall other, other <> name -> table (conf st') !! other = table (conf st) !! other)) /\
  (exists st' n, poller_contention_get_sessions delay now st name = Ret (st', n) /\ contention_ok st' /\
     n = count_of st' name /\
     (forall other, other <> name -> table (conf st') !! other = table (conf st) !! other)).
Proof.
  intros Hok Hmax Hp Hn Hname. split; [by apply add_session_ok|]. split.
  - destruct (remove_session_ok st name Hok ltac:(lia) Hname) as (st' & ? & ? & ? & ? & _). eauto.
  - destruct (get_sessions_ok delay now st name Hok ltac:(lia)) as (st' & Hg & Hok' & Hm).
    exists st'. eexists. split; [exact Hg|]. split; [done|]. unfold count_of. rewrite Hm.
    destruct (table (conf st) !! name) as [d|] eqn:E; [|by rewrite E].
    destruct (expired delay now d); [|by rewrite E]. rewrite lookup_delete_eq. split; [done|].
    intros other Ho. by rewrite lookup_delete_ne.
Qed.

(** Housekeeping reads the count of a session after removing it: when a
    session in the table is expired, the call reads freed memory.  When none
    is, it keeps the table and sets the total to the number of requests. *)
Theorem contention_housekeep delay now st :
  contention_ok st -> sessions st < 2 ^ 31 -> Z.quot delay 4 <= now - last_housekeep st ->
  if existsb (fun e => expired delay now (e_data e)) (elements (conf st))
  then poller_contention_housekeep delay now st = Halt BadAccess
  else poller_contention_housekeep delay now st = Ret (Contention (conf st) (sessions st) now).
Proof.
  intros Hok Hmax Hnow. unfold poller_contention_housekeep. rewrite (proj2 (Z.ltb_ge _ _)) by done.
  destruct (reset_ok _ _ (conf st) (ct_set _ Hok)) as [Hit Hrem]. rewrite (housekeep_loop_ok delay now st); rewrite ?Hrem; try done; try lia.
  - destruct (existsb _ _); [done|]. cbn [mbind res_mbind]. by rewrite Z.add_0_l, <- (ct_total _ Hok).
  - rewrite <- (ct_total _ Hok). lia.
Qed.

(** ** Witnesses *)

Definition empty_state (st : contention) : Prop :=
  contention_ok st /\ elements (conf st) = [] /\ table (conf st) = ∅ /\ sessions st = 0 /\ last_housekeep st = 0.

Lemma init_empty : empty_state poller_contention_init.
Proof.
  destruct (create_map (hash_func := res_hash) (compare_func := res_compare) (key := resource_name) 1000 ltac:(lia)) as (Hok & Hm & He).
  split; [|split; [exact He|split; [exact Hm|split; reflexivity]]].
  split; cbn [conf sessions poller_contention_init]; [exact Hok| |by rewrite He].
  intros e. rewrite He. clear. by intros ?%not_elem_of_nil.
Qed.

(** The first request, much later. *)
Lemma first_request st :
  empty_state st ->
  exists st', poller_contention_add_session 8 100 st 5 = Ret st' /\ contention_ok st' /\ sessions st' = 1 /\
    last_housekeep st' = 0 /\ existsb (fun e => expired 60 1000 (e_data e)) (elements (conf st')) = true.
Proof.
  intros (Hok & He & Hm & Hs & Hh).
  destruct (add_session_ok 8 100 st 5 Hok) as (st' & Ha & Hok' & Ht & Hs'); [by rewrite Hs|done|rewrite He; by apply not_elem_of_nil|].
  exists st'. split; [done|]. split; [done|]. split; [by rewrite Hs', Hs|]. split.
  { unfold poller_contention_add_session in Ha. inv_ret. destruct x; inv_ret; [by subst|]. destruct x. inv_ret. by subst. }
  assert (Hin : table (conf st') !! 5 = Some (CSess 5 1 100)).
  { rewrite Ht. unfold count_of. rewrite Hm. apply lookup_insert_eq. }
  apply map_of_Some in Hin as (e & Hin & _ & Hd); [|apply Hok'].
  apply existsb_exists. exists e. split; [by apply list_elem_of_In|]. by rewrite Hd.
Qed.

Lemma contention_accounting_witness :
  exists st', poller_contention_add_session 8 100 poller_contention_init 5 = Ret st' /\ poller_contention_sessions_count st' = 1.
Proof.
  destruct init_empty as (Hok & He & _ & Hs & _).
  destruct (contention_accounting poller_contention_init 8 100 60 5 Hok) as [(st' & Ha & _ & _ & Hc) _].
  - rewrite Hs. lia.
  - lia.
  - rewrite He. apply not_elem_of_nil.
  - lia.
  - exists st'. split; [exact Ha|]. rewrite Hc. exact (f_equal (fun z => z + 1) Hs).
Defined.

Lemma contention_housekeep_witness :
  exists st', poller_contention_add_session 8 100 poller_contention_init 5 = Ret st' /\
    poller_contention_housekeep 60 1000 st' = Halt BadAccess.
Proof.
  destruct (first_request _ init_empty) as (st' & Ha & Hok & Hs & Hh & Hx). exists st'. split; [exact Ha|].
  pose proof (contention_housekeep 60 1000 st' Hok) as H. rewrite Hs, Hh, Hx in H. apply H; [lia|by vm_compute].
Defined.
