(* ===== verification/SessionTable.v ===== *)
(** * What pollers rely on of the session table

    The interface between the sessions of src/zabbix_server/glb_poller/poller_sessions.c
    and the pollers: a map from the ids of the requests on the wire to items.
    The pollers are proved against the class [SessionTable]; the hash set of
    [Sessions] is an instance of it. *)
From stdpp Require Import prelude list gmap.
From Stdlib Require Import ZArith Lia.
From S2P Require Import Prelude Hashset HashsetMap Sessions.
#[local] Open Scope Z_scope.

(** [I]: what a creation gets from the environment (clock, random numbers,
    memory); [input_ok] says when it is enough. *)
Class SessionTable (T I : Type) := {
  open_sessions : T -> gmap Z Z;
  table_ok : T -> Prop;
  input_ok : T -> I -> Prop;
  create_session : I -> T -> Z -> res (T * Z);
  close_session : T -> Z -> res (T * Z);
  sessions_count : T -> Z;
  create_law t i item : table_ok t -> input_ok t i ->
    exists t' id, create_session i t item = Ret (t', id) /\ table_ok t' /\ 0 < id < 2 ^ 31 /\
      open_sessions t !! id = None /\ open_sessions t' = <[id := item]> (open_sessions t);
  close_law t id : table_ok t ->
    exists t', close_session t id = Ret (t', default 0 (open_sessions t !! id)) /\ table_ok t' /\
      open_sessions t' = delete id (open_sessions t);
  input_law t i id t' x : table_ok t -> input_ok t i -> close_session t id = Ret (t', x) -> input_ok t' i;
  count_law t : table_ok t -> sessions_count t = Z.of_nat (size (open_sessions t)) }.

#[local] Abbreviation sessions := (map_of (key := sess_id)).

(** The address of the new entry, the time and the random numbers, which
    [rand] takes from 0 to 2^31 - 1.  The id 0 stands for no session. *)
Record session_input := SessionInput { si_ptr : Z; si_now : Z; si_rands : list Z }.

Definition sessions_input_ok (conf : hashset sess) (i : session_input) : Prop :=
  si_ptr i <> 0 /\ (si_ptr i ∉ (e_ptr <$> elements conf)) /\ Forall (fun r => 0 < r < 2 ^ 31) (si_rands i) /\
  Exists (fun r => sessions conf !! u32 r = None) (si_rands i).

#[export, refine] Instance hashset_sessions : SessionTable (hashset sess) session_input := {
  open_sessions conf := itemid <$> sessions conf;
  table_ok := hs_ok sess_hash sess_compare_func;
  input_ok := sessions_input_ok;
  create_session i conf item := poller_sessions_create_session (si_ptr i) (si_now i) (si_rands i) conf item;
  close_session := poller_sessions_close_session;
  sessions_count := poller_sessions_count }.
Proof.
  - intros t i item Hok (Hp & Hn & Hr & Hex). destruct (sessions_create_ok t (si_ptr i) (si_now i) (si_rands i) item Hok Hp Hn Hex)
      as (t' & new & Hc & Hok' & Hin & Hnone & Hm).
    apply list_elem_of_fmap in Hin as (r & -> & Hin). rewrite Forall_forall in Hr. specialize (Hr r Hin). rewrite u32_small in * by lia.
    exists t', r. split_and!; try done; try lia.
    + by rewrite lookup_fmap, Hnone.
    + by rewrite Hm, fmap_insert.
  - intros t id Hok. destruct (sessions_close_ok t id Hok) as (t' & Hc & Hok' & Hm). exists t'. split_and!; [|done|by rewrite Hm, fmap_delete].
    rewrite Hc, lookup_fmap. by destruct (sessions t !! id).
  - intros t i id t' x Hok (Hp & Hn & Hr & Hex) Hc. destruct (sessions_close_ok t id Hok) as (t1 & Hc1 & _ & Hm). rewrite Hc in Hc1. injection Hc1 as <- ->.
    split_and!; try done.
    + intros Hin. apply Hn. revert Hin. apply (sessions_close_sub t id t' _ Hok Hc).
    + eapply Exists_impl; [exact Hex|]. intros r Hnone. cbn beta in *. rewrite Hm. by apply lookup_delete_None; right.
  - intros t Hok. rewrite map_size_fmap. by apply map_of_size.
Defined.

(** The table as a map, with the id to use given: the least the pollers need. *)
#[export, refine] Instance map_sessions : SessionTable (gmap Z Z) Z := {
  open_sessions t := t;
  table_ok _ := True;
  input_ok t id := 0 < id < 2 ^ 31 /\ t !! id = None;
  create_session id t item := Ret (<[id := item]> t, id);
  close_session t id := Ret (delete id t, default 0 (t !! id));
  sessions_count t := Z.of_nat (size t) }.
Proof.
  - intros t id item _ [Hr Hn]. by exists (<[id := item]> t), id.
  - intros t id _. by exists (delete id t).
  - intros t i id t' x _ [Hr Hn] [= <- <-]. split; [done|]. apply lookup_delete_None. by right.
  - done.
Defined.
