(* ===== verification/Base64.v ===== *)
(** * Base64 (src/libs/zbxcrypto/base64.c)

    A string is the list of its bytes before the terminating NUL; what a
    function writes to its output buffer is returned as a list.  Reads of the
    input are checked against its length ([BadAccess]).  Sizes are of type
    [int]; the input is shorter than 2^31 - 2 bytes. *)
From stdpp Require Import prelude list.
From Stdlib Require Import ZArith Lia.
From S2P Require Import Prelude.
#[local] Open Scope Z_scope.

Definition ZBX_MAX_B64_LEN : Z := 16 * 1024.

(** The characters A, Z, a, z, 0, 9, plus, slash and the padding. *)
Definition chr_A : Z := 65.
Definition chr_Z : Z := 90.
Definition chr_a : Z := 97.
Definition chr_z : Z := 122.
Definition chr_0 : Z := 48.
Definition chr_9 : Z := 57.
Definition chr_plus : Z := 43.
Definition chr_slash : Z := 47.
Definition chr_pad : Z := 61.

Definition between (a c b : Z) : bool := (a <=? c) && (c <=? b).

Definition is_base64 (c : Z) : Z :=
  if between chr_A c chr_Z || between chr_a c chr_z || between chr_0 c chr_9 ||
     (c =? chr_plus) || (c =? chr_slash) || (c =? chr_pad)
  then SUCCEED else FAIL.

(** [base64_set]. *)
Definition base64_set : list Z :=
  seqZ chr_A 26 ++ seqZ chr_a 26 ++ seqZ chr_0 10 ++ [chr_plus; chr_slash].

Definition char_base64_encode (uc : Z) : res Z := of_opt BadAccess (zget base64_set uc).

Definition char_base64_decode (c : Z) : Z :=
  if between chr_A c chr_Z then c - chr_A
  else if between chr_a c chr_z then c - chr_a + 26
  else if between chr_0 c chr_9 then c - chr_0 + 52
  else if c =? chr_plus then 62
  else 63.

(** [for (i = 0; i < in_size; i += 3)]; [written] is [p - p_b64str]. *)
Fixpoint encode_loop (fuel : nat) (p_str : list Z) (i in_size written : Z) : res (list Z) :=
  match fuel with
  | O => Halt OutOfFuel
  | S fuel =>
      if i <? in_size then
        if written >? ZBX_MAX_B64_LEN - 5 then Ret []
        else
          from1 ← of_opt BadAccess (zget p_str i);
          from2 ← (if i + 1 <? in_size then of_opt BadAccess (zget p_str (i + 1)) else Ret 0);
          from3 ← (if i + 2 <? in_size then of_opt BadAccess (zget p_str (i + 2)) else Ret 0);
          let to1 := Z.land (Z.shiftr from1 2) 0x3f in
          let to2 := Z.lor (Z.shiftl (Z.land from1 0x3) 4) (Z.shiftr from2 4) in
          let to3 := Z.lor (Z.shiftl (Z.land from2 0xf) 2) (Z.shiftr from3 6) in
          let to4 := Z.land from3 0x3f in
          c1 ← char_base64_encode to1;
          c2 ← char_base64_encode to2;
          c3 ← (if i + 1 <? in_size then char_base64_encode to3 else Ret chr_pad);
          c4 ← (if i + 2 <? in_size then char_base64_encode to4 else Ret chr_pad);
          rest ← encode_loop fuel p_str (i + 3) in_size (written + 4);
          Ret ([c1; c2; c3; c4] ++ rest)
      else Ret []
  end.

Definition str_base64_encode (p_str : list Z) (in_size : Z) : res (list Z) :=
  if 0 =? in_size then Ret [] else encode_loop (S (Z.to_nat in_size)) p_str 0 in_size 0.

(** [for (...; 0 != full_block_num; pc += c_per_block, pc_r += b_per_block, full_block_num--)]:
    what is written from [pc_r] on; the NUL after a block is overwritten by
    the next one.  The result has the characters written and the rest of the
    input. *)
Fixpoint encode_blocks (full_block_num : nat) (pc : list Z) (c_per_block b_per_block : Z) : res (list Z * list Z) :=
  match full_block_num with
  | O => Ret ([], pc)
  | S n =>
      out ← str_base64_encode pc c_per_block;
      '(rest, pc) ← encode_blocks n (drop (Z.to_nat c_per_block) pc) c_per_block b_per_block;
      Ret (take (Z.to_nat b_per_block) out ++ rest, pc)
  end.

(** The allocated size comes with the string. *)
Definition str_base64_encode_dyn (p_str : list Z) (in_size : Z) : res (list Z * Z) :=
  let alloc := Z.quot (in_size + 2) 3 * 4 + 1 in
  let c_per_block := Z.quot (ZBX_MAX_B64_LEN - 1) 4 * 3 in
  let b_per_block := Z.quot c_per_block 3 * 4 in
  let full_block_num := Z.quot in_size c_per_block in
  let bytes_left := Z.rem in_size c_per_block in
  let bytes_for_left := Z.quot (bytes_left + 2) 3 * 4 in
  '(out, pc) ← encode_blocks (Z.to_nat full_block_num) p_str c_per_block b_per_block;
  if negb (bytes_left =? 0) then
    last ← str_base64_encode pc bytes_left;
    Ret (out ++ take (Z.to_nat bytes_for_left) last, alloc)
  else Ret (out, alloc).

(** One output byte; the flag says that the buffer is full. *)
Definition put_byte (out : list Z) (maxsize b : Z) : list Z * bool :=
  let out := out ++ [u8 b] in (out, zlen out =? maxsize).

(** A block of 4 characters: the output and whether it is full. *)
Definition decode_block (from : list Z) (lasti : Z) (out : list Z) (maxsize : Z) : list Z * bool :=
  let f j := nth j from 0 in
  let to j := char_base64_decode (f j) in
  let '(out, full) :=
    if 1 <=? lasti then put_byte out maxsize (Z.lor (Z.shiftl (to 0%nat) 2) (Z.shiftr (to 1%nat) 4)) else (out, false) in
  if full then (out, true)
  else
    let '(out, full) :=
      if (2 <=? lasti) && negb (f 2%nat =? chr_pad)
      then put_byte out maxsize (Z.lor (Z.shiftl (Z.land (to 1%nat) 0xf) 4) (Z.shiftr (to 2%nat) 2)) else (out, false) in
    if full then (out, true)
    else if (lasti =? 3) && negb (f 3%nat =? chr_pad)
    then put_byte out maxsize (Z.lor (Z.shiftl (Z.land (to 2%nat) 0x3) 6) (to 3%nat)) else (out, false).

(** [for (j = lasti + 1; j < 4; j++) from[j] = 'A';] *)
Definition pad_block (from : list Z) (lasti : Z) : list Z :=
  take (Z.to_nat (lasti + 1)) from ++ replicate (4 - Z.to_nat (lasti + 1)) chr_A.

(** [while (1)], one character or the end of the string per round. *)
Fixpoint decode_loop (p : list Z) (from : list Z) (i lasti : Z) (out : list Z) (maxsize : Z) : list Z :=
  match p with
  | c :: p =>
      if is_base64 c =? FAIL then decode_loop p from i lasti out maxsize
      else
        let from := zset from i c in
        let lasti := i in
        if i <? 3 then decode_loop p from (i + 1) lasti out maxsize
        else
          let '(out, full) := decode_block from lasti out maxsize in
          if full then out else decode_loop p from 0 (-1) out maxsize
  | [] =>
      let from := pad_block from lasti in
      if negb (lasti =? -1) then (decode_block from lasti out maxsize).1 else out
  end.

(** [from0]: the content of the uninitialised array [from]. *)
Definition str_base64_decode (from0 : list Z) (p_b64str : list Z) (maxsize : Z) : res (list Z) :=
  if 0 <? maxsize then Ret (decode_loop p_b64str from0 0 (-1) [] maxsize) else Halt AssertFail.

(** ** Reference encoding *)

Definition ch (x : Z) : Z := nth (Z.to_nat x) base64_set 0.

Definition is_byte (b : Z) : Prop := 0 <= b < 256.

Definition quad1 (a : Z) : Z := a / 4.
Definition quad2 (a b : Z) : Z := a mod 4 * 16 + b / 16.
Definition quad3 (b c : Z) : Z := b mod 16 * 4 + c / 64.
Definition quad4 (c : Z) : Z := c mod 64.

(** Three bytes make four characters, the last block is padded. *)
Fixpoint b64 (s : list Z) : list Z :=
  match s with
  | [] => []
  | [a] => [ch (quad1 a); ch (quad2 a 0); chr_pad; chr_pad]
  | [a; b] => [ch (quad1 a); ch (quad2 a b); ch (quad3 b 0); chr_pad]
  | a :: b :: c :: s => [ch (quad1 a); ch (quad2 a b); ch (quad3 b c); ch (quad4 c)] ++ b64 s
  end.

(** Induction three elements at a time. *)
Lemma list_ind3 (P : list Z -> Prop) :
  P [] -> (forall a, P [a]) -> (forall a b, P [a; b]) -> (forall a b c s, P s -> P (a :: b :: c :: s)) -> forall s, P s.
Proof.
  intros H0 H1 H2 H3. fix IH 1. intros [|a [|b [|c s]]]; [exact H0|exact (H1 a)|exact (H2 a b)|exact (H3 a b c s (IH s))].
Qed.

Definition char_check (x : Z) : bool :=
  match char_base64_encode x with
  | Ret c => (c =? ch x) && (is_base64 c =? SUCCEED) && negb (c =? chr_pad) && (char_base64_decode c =? x)
  | Halt _ => false
  end.

Lemma char_ok x :
  0 <= x < 64 ->
  char_base64_encode x = Ret (ch x) /\ is_base64 (ch x) = SUCCEED /\ ch x <> chr_pad /\ char_base64_decode (ch x) = x.
Proof.
  intros Hx. assert (Hall : forallb char_check (seqZ 0 64) = true) by (vm_compute; reflexivity).
  rewrite forallb_forall in Hall. specialize (Hall x). rewrite <- list_elem_of_In, elem_of_seqZ in Hall.
  specialize (Hall ltac:(lia)). unfold char_check in Hall. destruct (char_base64_encode x) as [c|]; [|done]. unbool. subst c. done.
Qed.

Lemma quad_range a b c : is_byte a -> is_byte b -> is_byte c ->
  0 <= quad1 a < 64 /\ 0 <= quad2 a b < 64 /\ 0 <= quad3 b c < 64 /\ 0 <= quad4 c < 64.
Proof. unfold is_byte, quad1, quad2, quad3, quad4. dlia. Qed.

Lemma to_eq a b c : is_byte a -> is_byte b -> is_byte c ->
  Z.land (Z.shiftr a 2) 0x3f = quad1 a /\
  Z.lor (Z.shiftl (Z.land a 0x3) 4) (Z.shiftr b 4) = quad2 a b /\
  Z.lor (Z.shiftl (Z.land b 0xf) 2) (Z.shiftr c 6) = quad3 b c /\
  Z.land c 0x3f = quad4 c.
Proof.
  unfold is_byte, quad1, quad2, quad3, quad4. intros Ha Hb Hc. rewrite !Z.shiftr_div_pow2, !Z.shiftl_mul_pow2 by lia.
  change 0x3f with (Z.ones 6). change 0x3 with (Z.ones 2). change 0xf with (Z.ones 4). rewrite !Z.land_ones by lia.
  change (2 ^ 2) with 4. change (2 ^ 4) with 16. change (2 ^ 6) with 64.
  rewrite (Z.lor_comm _ (b / 16)), (lor_add 4) by (try dlia; exists (a mod 4); done).
  rewrite (Z.lor_comm _ (c / 64)), (lor_add 2) by (try dlia; exists (b mod 16); done).
  split; [apply Z.mod_small; dlia|]. lia.
Qed.

Lemma from_eq a b c : is_byte a -> is_byte b -> is_byte c ->
  u8 (Z.lor (Z.shiftl (quad1 a) 2) (Z.shiftr (quad2 a b) 4)) = a /\
  u8 (Z.lor (Z.shiftl (Z.land (quad2 a b) 0xf) 4) (Z.shiftr (quad3 b c) 2)) = b /\
  u8 (Z.lor (Z.shiftl (Z.land (quad3 b c) 0x3) 6) (quad4 c)) = c.
Proof.
  intros Ha Hb Hc. destruct (quad_range a b c Ha Hb Hc) as (H1 & H2 & H3 & H4).
  rewrite !Z.shiftr_div_pow2, !Z.shiftl_mul_pow2 by lia.
  change 0x3 with (Z.ones 2). change 0xf with (Z.ones 4). rewrite !Z.land_ones by lia.
  change (2 ^ 2) with 4. change (2 ^ 4) with 16. change (2 ^ 6) with 64.
  rewrite (Z.lor_comm _ (quad2 a b / 16)), (lor_add 2) by (try dlia; exists (quad1 a); done).
  rewrite (Z.lor_comm _ (quad3 b c / 4)), (lor_add 4) by (try dlia; exists (quad2 a b mod 16); done).
  rewrite (Z.lor_comm _ (quad4 c)), (lor_add 6) by (try dlia; exists (quad3 b c mod 4); done).
  unfold is_byte, u8, quad1, quad2, quad3, quad4 in *. change (2 ^ 8) with 256. dlia.
Qed.

(** ** Encoding *)

Definition b64_len (n : Z) : Z := (n + 2) / 3 * 4.

Lemma b64_length s : zlen (b64 s) = b64_len (zlen s).
Proof.
  unfold b64_len. induction s as [| | |a b c s IH] using list_ind3; [done..|]. cbn [b64]. rewrite zlen_app, IH.
  change (zlen [ch (quad1 a); ch (quad2 a b); ch (quad3 b c); ch (quad4 c)]) with 4. rewrite !zlen_cons.
  replace (1 + (1 + (1 + zlen s)) + 2) with (zlen s + 2 + 1 * 3) by lia. rewrite Z.div_add by lia. lia.
Qed.

Lemma b64_app s t k : zlen s = 3 * k -> b64 (s ++ t) = b64 s ++ b64 t.
Proof.
  revert k. induction s as [| | |a b c s IH] using list_ind3; intros k Hk.
  - done.
  - change (zlen [a]) with 1 in Hk. lia.
  - change (zlen [a; b]) with 2 in Hk. lia.
  - cbn [app b64]. rewrite !zlen_cons in Hk. rewrite (IH (k - 1)) by lia. done.
Qed.

Lemma zget_at {A} (pre : list A) x post i : i = zlen pre -> zget (pre ++ x :: post) i = Some x.
Proof. intros ->. apply zget_Some. split; [apply zlen_nonneg|]. by rewrite to_nat_zlen, list_lookup_middle. Qed.

Lemma zget_at1 {A} (pre : list A) a x post : zget (pre ++ a :: x :: post) (zlen pre + 1) = Some x.
Proof. rewrite (cons_middle a), (assoc_L (++)). apply zget_at. lens. Qed.

Lemma zget_at2 {A} (pre : list A) a b x post : zget (pre ++ a :: b :: x :: post) (zlen pre + 2) = Some x.
Proof. rewrite (cons_middle a), (assoc_L (++)). replace (zlen pre + 2) with (zlen (pre ++ [a]) + 1) by lens. apply zget_at1. Qed.

Lemma encode_loop_ok fuel pre s post i n w :
  Forall is_byte s -> i = zlen pre -> n = zlen pre + zlen s -> zlen s < Z.of_nat fuel ->
  w + b64_len (zlen s) <= ZBX_MAX_B64_LEN - 1 ->
  encode_loop fuel (pre ++ s ++ post) i n w = Ret (b64 s).
Proof.
  revert fuel pre i n w. induction s as [|a|a b|a b c s IH] using list_ind3; intros fuel pre i n w Hb -> -> Hf Hw;
    (destruct fuel as [|fuel]; [pose proof (zlen_nonneg (A := Z)); lens|]); cbn [encode_loop].
  - by rewrite Z.add_0_r, Z.ltb_irrefl.
  - apply Forall_cons in Hb as [Ha _]. change (zlen [a]) with 1 in *. change (b64_len 1) with 4 in Hw.
    assert (H0 : is_byte 0) by (unfold is_byte; lia).
    rewrite (proj2 (Z.ltb_lt _ _)) by lia. rewrite Z.gtb_ltb, (proj2 (Z.ltb_ge _ _)) by lia.
    cbn [app]. rewrite (zget_at pre _ _ (zlen pre)) by done. rewrite !(proj2 (Z.ltb_ge _ _)) by lia. cbn [of_opt mbind res_mbind].
    destruct (to_eq a 0 0 Ha H0 H0) as (-> & -> & _ & _). destruct (quad_range a 0 0 Ha H0 H0) as (H1 & H2 & _ & _).
    destruct (char_ok _ H1) as [-> _], (char_ok _ H2) as [-> _]. cbn [mbind res_mbind].
    destruct fuel as [|fuel]; [lia|]. cbn [encode_loop]. rewrite (proj2 (Z.ltb_ge _ _)) by lia. done.
  - apply Forall_cons in Hb as [Ha Hb]. apply Forall_cons in Hb as [Hb _]. change (zlen [a; b]) with 2 in *. change (b64_len 2) with 4 in Hw.
    assert (H0 : is_byte 0) by (unfold is_byte; lia).
    rewrite (proj2 (Z.ltb_lt (zlen pre) _)), !(proj2 (Z.ltb_lt (zlen pre + 1) _)) by lia. rewrite Z.gtb_ltb, (proj2 (Z.ltb_ge _ _)) by lia.
    cbn [app]. rewrite (zget_at pre _ _ (zlen pre)) by done. rewrite zget_at1, !(proj2 (Z.ltb_ge _ _)) by lia. cbn [of_opt mbind res_mbind].
    destruct (to_eq a b 0 Ha Hb H0) as (-> & -> & -> & _). destruct (quad_range a b 0 Ha Hb H0) as (H1 & H2 & H3 & _).
    destruct (char_ok _ H1) as [-> _], (char_ok _ H2) as [-> _], (char_ok _ H3) as [-> _]. cbn [mbind res_mbind].
    destruct fuel as [|fuel]; [lia|]. cbn [encode_loop]. rewrite (proj2 (Z.ltb_ge _ _)) by lia. done.
  - apply Forall_cons in Hb as [Ha Hb]. apply Forall_cons in Hb as [Hb Hc]. apply Forall_cons in Hc as [Hc Hs].
    pose proof (b64_length (a :: b :: c :: s)) as Hl. cbn [b64] in Hl. rewrite zlen_app, b64_length in Hl.
    change (zlen [ch (quad1 a); ch (quad2 a b); ch (quad3 b c); ch (quad4 c)]) with 4 in Hl. rewrite <- Hl in Hw.
    rewrite !zlen_cons in Hf |- *. pose proof (zlen_nonneg s).
    assert (0 <= b64_len (zlen s)) by (unfold b64_len; dlia).
    rewrite (proj2 (Z.ltb_lt (zlen pre) _)), !(proj2 (Z.ltb_lt (zlen pre + 1) _)), !(proj2 (Z.ltb_lt (zlen pre + 2) _)) by lia. rewrite Z.gtb_ltb, (proj2 (Z.ltb_ge _ _)) by lia.
    cbn [app]. rewrite (zget_at pre _ _ (zlen pre)) by done.
    rewrite zget_at1, zget_at2. cbn [of_opt mbind res_mbind].
    destruct (to_eq a b c Ha Hb Hc) as (-> & -> & -> & ->). destruct (quad_range a b c Ha Hb Hc) as (H1 & H2 & H3 & H4).
    destruct (char_ok _ H1) as [-> _], (char_ok _ H2) as [-> _], (char_ok _ H3) as [-> _], (char_ok _ H4) as [-> _]. cbn [mbind res_mbind].
    replace (pre ++ a :: b :: c :: s ++ post) with ((pre ++ [a; b; c]) ++ s ++ post) by (by rewrite <- !(assoc_L (++))).
    rewrite (IH fuel (pre ++ [a; b; c])); [done|done|lens|lens|lia|lia].
Qed.

Lemma encode_ok s post :
  Forall is_byte s -> b64_len (zlen s) <= ZBX_MAX_B64_LEN - 1 -> str_base64_encode (s ++ post) (zlen s) = Ret (b64 s).
Proof.
  intros Hs Hl. unfold str_base64_encode. destruct (Z.eqb_spec 0 (zlen s)) as [E|E].
  - destruct s; [done|]. rewrite zlen_cons in E. pose proof (zlen_nonneg s). lia.
  - apply (encode_loop_ok _ []); [done|done|done| |done]. rewrite to_nat_zlen. unfold zlen. lia.
Qed.

(** Blocks of [3 k] bytes. *)
Lemma encode_blocks_ok n k s post :
  Forall is_byte s -> 0 < k -> 4 * k <= ZBX_MAX_B64_LEN - 1 -> zlen s = Z.of_nat n * (3 * k) ->
  encode_blocks n (s ++ post) (3 * k) (4 * k) = Ret (b64 s, post).
Proof.
  revert s. induction n as [|n IH]; intros s Hs Hk Hmax Hn; cbn [encode_blocks].
  - destruct s; [done|]. rewrite zlen_cons in Hn. pose proof (zlen_nonneg s). lia.
  - assert (Hlen : (Z.to_nat (3 * k) <= length s)%nat) by (unfold zlen in Hn; nia).
    rewrite <- (take_drop (Z.to_nat (3 * k)) s) in Hs |- *. rewrite <- (take_drop (Z.to_nat (3 * k)) s) in Hn.
    set (s1 := take (Z.to_nat (3 * k)) s) in *. set (s2 := drop (Z.to_nat (3 * k)) s) in *.
    assert (H1 : zlen s1 = 3 * k) by (unfold s1, zlen; rewrite length_take; lia).
    rewrite zlen_app in Hn. apply Forall_app in Hs as [Hs1 Hs2].
    assert (Hb : b64_len (zlen s1) = 4 * k) by (rewrite H1; unfold b64_len; dlia).
    rewrite <- (assoc_L (++)). rewrite <- H1 at 1. rewrite encode_ok by (done || lia). cbn [mbind res_mbind].
    rewrite drop_app_length' by (unfold zlen in H1; lia). rewrite IH by (done || lia). cbn [mbind res_mbind].
    rewrite (b64_app s1 s2 k H1). rewrite take_ge; [done|]. pose proof (b64_length s1). unfold zlen in *. lia.
Qed.

Lemma encode_dyn_ok s :
  Forall is_byte s -> str_base64_encode_dyn s (zlen s) = Ret (b64 s, b64_len (zlen s) + 1).
Proof.
  intros Hs. pose proof (zlen_nonneg s) as H0. unfold str_base64_encode_dyn.
  change (Z.quot (ZBX_MAX_B64_LEN - 1) 4 * 3) with (3 * 4095). change (Z.quot (3 * 4095) 3 * 4) with (4 * 4095).
  assert (Halloc : Z.quot (zlen s + 2) 3 * 4 = b64_len (zlen s)) by (unfold b64_len; by rewrite Z.quot_div_nonneg by lia).
  rewrite Halloc, (Z.quot_div_nonneg (zlen s) (3 * 4095)), (Z.rem_mod_nonneg (zlen s) (3 * 4095)) by lia.
  pose proof (Z.div_mod (zlen s) (3 * 4095) ltac:(lia)) as Hdm. pose proof (Z.mod_pos_bound (zlen s) (3 * 4095) ltac:(lia)) as Hm.
  pose proof (Z.div_pos (zlen s) (3 * 4095) H0 ltac:(lia)) as Hd.
  set (n := zlen s / (3 * 4095)) in *. set (left := zlen s mod (3 * 4095)) in *.
  assert (Hcut : (Z.to_nat (n * (3 * 4095)) <= length s)%nat) by (unfold zlen in *; lia).
  rewrite <- (take_drop (Z.to_nat (n * (3 * 4095))) s) in Hs |- *.
  set (s1 := take _ s) in *. set (s2 := drop _ s) in *. apply Forall_app in Hs as [Hs1 Hs2].
  assert (H1 : zlen s1 = n * (3 * 4095)) by (unfold s1, zlen; rewrite length_take; lia).
  assert (H2 : zlen s2 = left) by (unfold s2, zlen in *; rewrite length_drop; lia).
  rewrite (encode_blocks_ok (Z.to_nat n) 4095 s1 s2) by (done || lia). cbn [mbind res_mbind].
  rewrite (b64_app s1 s2 (n * 4095)) by lia.
  assert (Hq : Z.quot (left + 2) 3 * 4 = b64_len left) by (unfold b64_len; by rewrite Z.quot_div_nonneg by lia). rewrite Hq.
  destruct (Z.eqb_spec left 0) as [E|E]; cbn [negb].
  - assert (E2 : s2 = []) by (apply nil_length_inv; unfold zlen in H2; lia).
    rewrite E2. cbn [b64]. by rewrite !app_nil_r.
  - rewrite <- H2 at 1. pose proof (encode_ok s2 [] Hs2) as He. rewrite app_nil_r in He.
    rewrite He by (rewrite H2; unfold b64_len, ZBX_MAX_B64_LEN; dlia). cbn [mbind res_mbind].
    rewrite take_ge; [done|]. pose proof (b64_length s2). rewrite H2 in *. unfold zlen in *. lia.
Qed.

(** ** Decoding *)

(** Characters outside of the alphabet are skipped. *)
Lemma decode_filter p from i lasti out maxsize :
  decode_loop p from i lasti out maxsize = decode_loop (filter (fun c => is_base64 c <> FAIL) p) from i lasti out maxsize.
Proof.
  revert from i lasti out. induction p as [|c p IH]; intros from i lasti out; [done|]. cbn [decode_loop].
  destruct (Z.eqb_spec (is_base64 c) FAIL) as [E|E].
  - rewrite filter_cons_False by tauto. apply IH.
  - rewrite filter_cons_True by done. cbn [decode_loop]. rewrite (proj2 (Z.eqb_neq _ _) E).
    destruct (i <? 3); [apply IH|]. destruct (decode_block _ _ _ _) as [o full]. destruct full; [done|]. apply IH.
Qed.

Lemma decode_quad c1 c2 c3 c4 p from lasti out maxsize :
  is_base64 c1 = SUCCEED -> is_base64 c2 = SUCCEED -> is_base64 c3 = SUCCEED -> is_base64 c4 = SUCCEED -> length from = 4%nat ->
  decode_loop (c1 :: c2 :: c3 :: c4 :: p) from 0 lasti out maxsize =
    let '(out, full) := decode_block [c1; c2; c3; c4] 3 out maxsize in
    if full then out else decode_loop p [c1; c2; c3; c4] 0 (-1) out maxsize.
Proof.
  intros H1 H2 H3 H4 Hl. destruct from as [|f0 [|f1 [|f2 [|f3 [|? ?]]]]]; try done.
  cbn [decode_loop]. rewrite H1, H2, H3, H4. reflexivity.
Qed.

(** The bytes of a block, as far as there is room. *)
Lemma put_byte_ok out maxsize b :
  zlen out < maxsize -> put_byte out maxsize b = (take (Z.to_nat maxsize) (out ++ [u8 b]), maxsize <=? zlen out + 1) /\
  ((maxsize <=? zlen out + 1) = false -> take (Z.to_nat maxsize) (out ++ [u8 b]) = out ++ [u8 b] /\ zlen (out ++ [u8 b]) < maxsize).
Proof.
  intros Hl. unfold put_byte. assert (Hz : zlen (out ++ [u8 b]) = zlen out + 1) by lens.
  rewrite take_ge by (unfold zlen in *; lia). split; [|intros ?; unbool; split; [done|lia]].
  f_equal. rewrite Hz. destruct (Z.eqb_spec (zlen out + 1) maxsize), (Z.leb_spec maxsize (zlen out + 1)); lia.
Qed.

Definition block_out (out bs : list Z) (maxsize : Z) : list Z * bool :=
  (take (Z.to_nat maxsize) (out ++ bs), maxsize <=? zlen out + zlen bs).

Lemma put_then out maxsize b bs (k : list Z -> list Z * bool) :
  zlen out < maxsize -> (forall o, zlen o < maxsize -> k o = block_out o bs maxsize) ->
  (let '(out, full) := put_byte out maxsize b in if full then (out, true) else k out) = block_out out (u8 b :: bs) maxsize.
Proof.
  intros Hl Hk. destruct (put_byte_ok out maxsize b Hl) as [-> Hroom]. unfold block_out in *.
  pose proof (zlen_nonneg bs). rewrite zlen_cons. destruct (Z.leb_spec maxsize (zlen out + 1)) as [H1|H1].
  - f_equal; [|symmetry; apply Z.leb_le; lia]. change (u8 b :: bs) with ([u8 b] ++ bs). rewrite (assoc_L (++)).
    assert (Hz : Z.to_nat maxsize = length (out ++ [u8 b])) by (rewrite length_app; unfold zlen in *; simpl; lia).
    rewrite Hz, (take_ge (out ++ [u8 b])) by done. by rewrite take_app_length.
  - destruct (Hroom eq_refl) as [-> Hz]. rewrite Hk by done. rewrite <- (assoc_L (++)), zlen_app. cbn [app].
    f_equal. f_equal. rewrite zlen_cons, zlen_nil. lia.
Qed.

Lemma put_last out maxsize b : zlen out < maxsize -> put_byte out maxsize b = block_out out [u8 b] maxsize.
Proof. intros Hl. by destruct (put_byte_ok out maxsize b Hl) as [-> _]. Qed.

Lemma block_none out maxsize : zlen out < maxsize -> (out, false) = block_out out [] maxsize.
Proof.
  intros Hl. unfold block_out. rewrite app_nil_r, take_ge by (unfold zlen in Hl; lia). f_equal.
  symmetry. apply Z.leb_gt. rewrite zlen_nil. lia.
Qed.

Lemma block1 a x y out maxsize :
  is_byte a -> zlen out < maxsize -> x = chr_pad -> y = chr_pad ->
  decode_block [ch (quad1 a); ch (quad2 a 0); x; y] 3 out maxsize = block_out out [a] maxsize.
Proof.
  intros Ha Hl -> ->. assert (H0 : is_byte 0) by (unfold is_byte; lia).
  destruct (quad_range a 0 0 Ha H0 H0) as (H1 & H2 & _). destruct (char_ok _ H1) as (_ & _ & _ & E1), (char_ok _ H2) as (_ & _ & _ & E2).
  destruct (from_eq a 0 0 Ha H0 H0) as (Fa & _). unfold decode_block. cbn [nth]. rewrite E1, E2.
  replace (block_out out [a] maxsize) with (block_out out [u8 (Z.lor (Z.shiftl (quad1 a) 2) (Z.shiftr (quad2 a 0) 4))] maxsize)
    by (by rewrite Fa).
  apply put_then; [done|]. intros o Ho. by rewrite <- block_none.
Qed.

Lemma block2 a b y out maxsize :
  is_byte a -> is_byte b -> zlen out < maxsize -> y = chr_pad ->
  decode_block [ch (quad1 a); ch (quad2 a b); ch (quad3 b 0); y] 3 out maxsize = block_out out [a; b] maxsize.
Proof.
  intros Ha Hb Hl ->. assert (H0 : is_byte 0) by (unfold is_byte; lia).
  destruct (quad_range a b 0 Ha Hb H0) as (H1 & H2 & H3 & _).
  destruct (char_ok _ H1) as (_ & _ & _ & E1), (char_ok _ H2) as (_ & _ & _ & E2), (char_ok _ H3) as (_ & _ & N3 & E3).
  destruct (from_eq a b 0 Ha Hb H0) as (Fa & Fb & _). unfold decode_block. cbn [nth]. rewrite E1, E2, E3.
  rewrite (proj2 (Z.eqb_neq _ _) N3). 
  replace (block_out out [a; b] maxsize) with (block_out out
    [u8 (Z.lor (Z.shiftl (quad1 a) 2) (Z.shiftr (quad2 a b) 4));
     u8 (Z.lor (Z.shiftl (Z.land (quad2 a b) 0xf) 4) (Z.shiftr (quad3 b 0) 2))] maxsize) by (by rewrite Fa, Fb).
  apply put_then; [done|]. intros o Ho. apply put_then; [done|]. intros o' Ho'. by rewrite <- block_none.
Qed.

Lemma block3 a b c out maxsize :
  is_byte a -> is_byte b -> is_byte c -> zlen out < maxsize ->
  decode_block [ch (quad1 a); ch (quad2 a b); ch (quad3 b c); ch (quad4 c)] 3 out maxsize = block_out out [a; b; c] maxsize.
Proof.
  intros Ha Hb Hc Hl. destruct (quad_range a b c Ha Hb Hc) as (H1 & H2 & H3 & H4).
  destruct (char_ok _ H1) as (_ & _ & _ & E1), (char_ok _ H2) as (_ & _ & _ & E2), (char_ok _ H3) as (_ & _ & N3 & E3), (char_ok _ H4) as (_ & _ & N4 & E4).
  destruct (from_eq a b c Ha Hb Hc) as (Fa & Fb & Fc). unfold decode_block. cbn [nth]. rewrite E1, E2, E3, E4.
  rewrite (proj2 (Z.eqb_neq _ _) N3), (proj2 (Z.eqb_neq _ _) N4).
  replace (block_out out [a; b; c] maxsize) with (block_out out
    [u8 (Z.lor (Z.shiftl (quad1 a) 2) (Z.shiftr (quad2 a b) 4));
     u8 (Z.lor (Z.shiftl (Z.land (quad2 a b) 0xf) 4) (Z.shiftr (quad3 b c) 2));
     u8 (Z.lor (Z.shiftl (Z.land (quad3 b c) 0x3) 6) (quad4 c))] maxsize) by (by rewrite Fa, Fb, Fc).
  apply put_then; [done|]. intros o Ho. apply put_then; [done|]. intros o' Ho'. by apply put_last.
Qed.

Lemma b64_chars a b c : is_byte a -> is_byte b -> is_byte c ->
  is_base64 (ch (quad1 a)) = SUCCEED /\ is_base64 (ch (quad2 a b)) = SUCCEED /\ is_base64 (ch (quad3 b c)) = SUCCEED /\
  is_base64 (ch (quad4 c)) = SUCCEED.
Proof.
  intros Ha Hb Hc. destruct (quad_range a b c Ha Hb Hc) as (H1 & H2 & H3 & H4).
  split_and!; by apply char_ok.
Qed.

(** After a block the text is at its end or goes on with more blocks. *)
Lemma after_block out bs s maxsize (k : list Z -> list Z) :
  (zlen (out ++ bs) < maxsize -> k (out ++ bs) = take (Z.to_nat maxsize) ((out ++ bs) ++ s)) ->
  (let '(out, full) := block_out out bs maxsize in if full then out else k out) = take (Z.to_nat maxsize) (out ++ bs ++ s).
Proof.
  intros Hk. unfold block_out. rewrite (assoc_L (++)). destruct (Z.leb_spec maxsize (zlen out + zlen bs)) as [H|H].
  - rewrite (take_app_le (out ++ bs) s); [done|]. rewrite length_app. unfold zlen in H. lia.
  - rewrite (take_ge (out ++ bs)) by (rewrite length_app; unfold zlen in H; lia). apply Hk. lens.
Qed.

Lemma decode_b64 s from out maxsize :
  Forall is_byte s -> length from = 4%nat -> zlen out < maxsize ->
  decode_loop (b64 s) from 0 (-1) out maxsize = take (Z.to_nat maxsize) (out ++ s).
Proof.
  assert (H0 : is_byte 0) by (unfold is_byte; lia).
  assert (Hend : forall from o, zlen o < maxsize -> decode_loop [] from 0 (-1) o maxsize = take (Z.to_nat maxsize) (o ++ [])).
  { intros from' o Ho. rewrite app_nil_r, take_ge by (unfold zlen in Ho; lia). done. }
  revert from out. induction s as [|a|a b|a b c s IH] using list_ind3; intros from out Hs Hf Hl.
  - by apply Hend.
  - apply Forall_cons in Hs as [Ha _]. destruct (b64_chars a 0 0 Ha H0 H0) as (C1 & C2 & _). cbn [b64].
    rewrite decode_quad, block1 by done. apply (after_block out [a] []). by apply Hend.
  - apply Forall_cons in Hs as [Ha Hb]. apply Forall_cons in Hb as [Hb _]. destruct (b64_chars a b 0 Ha Hb H0) as (C1 & C2 & C3 & _).
    cbn [b64]. rewrite decode_quad, block2 by done. apply (after_block out [a; b] []). by apply Hend.
  - apply Forall_cons in Hs as [Ha Hb]. apply Forall_cons in Hb as [Hb Hc]. apply Forall_cons in Hc as [Hc Hs].
    destruct (b64_chars a b c Ha Hb Hc) as (C1 & C2 & C3 & C4). cbn [b64 app]. rewrite decode_quad, block3 by done.
    apply (after_block out [a; b; c] s). intros Ho. by apply IH.
Qed.

(** The buffer bound, for any text. *)
Lemma decode_block_bound from lasti out maxsize o full :
  zlen out < maxsize -> decode_block from lasti out maxsize = (o, full) -> zlen o <= maxsize /\ (full = false -> zlen o < maxsize).
Proof.
  intros Hl. unfold decode_block.
  assert (Hput : forall cond o b o' f, zlen o < maxsize -> (if cond : bool then put_byte o maxsize b else (o, false)) = (o', f) ->
    zlen o' <= maxsize /\ (f = false -> zlen o' < maxsize)).
  { intros cond o1 b o' f Ho. destruct cond; [|intros; simplify_eq; lia]. unfold put_byte. intros E. injection E as <- <-.
    assert (Hz : zlen (o1 ++ [u8 b]) = zlen o1 + 1) by lens. rewrite Hz. split; [lia|]. intros ?%Z.eqb_neq. lia. }
  destruct (if 1 <=? lasti then _ else _) as [o1 f1] eqn:E1. destruct (Hput _ _ _ _ _ Hl E1) as [B1 L1].
  destruct f1; [intros; simplify_eq; done|]. specialize (L1 eq_refl).
  destruct (if (2 <=? lasti) && _ then _ else _) as [o2 f2] eqn:E2. destruct (Hput _ _ _ _ _ L1 E2) as [B2 L2].
  destruct f2; [intros; simplify_eq; done|]. specialize (L2 eq_refl). intros E3. exact (Hput _ _ _ _ _ L2 E3).
Qed.

Lemma decode_bound p from i lasti out maxsize : zlen out < maxsize -> zlen (decode_loop p from i lasti out maxsize) <= maxsize.
Proof.
  revert from i lasti out. induction p as [|c p IH]; intros from i lasti out Hl; cbn [decode_loop].
  - destruct (lasti =? -1); cbn [negb]; [lia|]. destruct (decode_block _ _ _ _) as [o f] eqn:E.
    by destruct (decode_block_bound _ _ _ _ _ _ Hl E).
  - destruct (_ =? FAIL); [by apply IH|]. destruct (i <? 3); [by apply IH|].
    destruct (decode_block _ _ _ _) as [o f] eqn:E. destruct (decode_block_bound _ _ _ _ _ _ Hl E) as [B L].
    destruct f; [done|]. by apply IH, L.
Qed.

(** ** Properties *)

(** Round trip.  Encoding a string of bytes of any length, in blocks,
    returns and fills the allocated buffer exactly; decoding the result, also
    when it is broken up with characters outside of the alphabet such as line
    ends, gives back the string, cut to the size of the buffer.  Decoding any
    text never writes more than [maxsize] bytes. *)
Theorem base64_roundtrip s from0 maxsize :
  Forall is_byte s -> length from0 = 4%nat -> 0 < maxsize ->
  exists e, str_base64_encode_dyn s (zlen s) = Ret (e, zlen e + 1) /\
    (forall t, filter (fun c => is_base64 c <> FAIL) t = e ->
       str_base64_decode from0 t maxsize = Ret (take (Z.to_nat maxsize) s)) /\
    (forall t, exists out, str_base64_decode from0 t maxsize = Ret out /\ zlen out <= maxsize).
Proof.
  intros Hs Hf Hm. exists (b64 s). split; [by rewrite encode_dyn_ok, b64_length|].
  unfold str_base64_decode. rewrite (proj2 (Z.ltb_lt _ _) Hm). split; intros t.
  - intros Ht. rewrite decode_filter, Ht, decode_b64 by done. done.
  - eexists. split; [done|]. by apply decode_bound.
Qed.

Lemma base64_witness :
  exists e, str_base64_encode_dyn [71; 108; 97; 98; 101; 114; 255] 7 = Ret (e, zlen e + 1) /\
    str_base64_decode [0; 0; 0; 0] e 100 = Ret [71; 108; 97; 98; 101; 114; 255].
Proof.
  destruct (base64_roundtrip [71; 108; 97; 98; 101; 114; 255] [0; 0; 0; 0] 100) as (e & He & Hd & _).
  - repeat constructor; unfold is_byte; lia.
  - done.
  - lia.
  - exists e. split; [exact He|]. apply Hd. clear Hd. vm_compute in He. injection He as <-. vm_compute. reflexivity.
Defined.

(** "Glaber" with a line end inside. *)
Example decode_skips : str_base64_decode [0; 0; 0; 0] [82; 50; 120; 104; 13; 10; 89; 109; 86; 121] 100 = Ret [71; 108; 97; 98; 101; 114].
Proof. reflexivity. Qed.
