(* ===== verification/Num.v ===== *)
(** * Parsing unsigned integers (src/libs/zbxnum/num.c)

    [zbx_is_uint_n_range] and [zbx_is_hex_n_range].  A string is the list of
    its bytes, terminated by a 0 or by the end of the list.  [size] is the
    size of the output variable in bytes, 0 stands for no output. *)
From stdpp Require Import prelude list.
From Stdlib Require Import ZArith Lia.
From S2P Require Import Prelude.
#[local] Open Scope Z_scope.

Definition max_uint64 : Z := 2 ^ 64 - 1.

Definition is_digit (c : Z) : bool := (48 <=? c) && (c <=? 57).

(** [while ('\0' != *str && 0 < n--)] *)
Fixpoint uint_loop (str : list Z) (n value_uint64 : Z) : option Z :=
  match str with
  | [] => Some value_uint64
  | ch :: str =>
      if (ch =? 0) || (n <=? 0) then Some value_uint64
      else if negb (is_digit ch) then None
      else
        let c := ch - 48 in
        if (max_uint64 - c) / 10 <? value_uint64 then None
        else uint_loop str (n - 1) (value_uint64 * 10 + c)
  end.

(** [memcpy] of the low [size] bytes of the value. *)
Definition store_value (size value_uint64 : Z) : Z := value_uint64 mod 2 ^ (8 * size).

(** The value on SUCCEED. *)
Definition n_range (loop : list Z -> Z -> Z -> option Z) (str : list Z) (n size min max : Z) : option Z :=
  if (match str with [] => true | ch :: _ => ch =? 0 end) || (n =? 0) || (8 <? size) then None
  else match loop str n 0 with
       | Some v => if (v <? min) || (max <? v) then None else Some (store_value size v)
       | None => None
       end.

Definition zbx_is_uint_n_range (str : list Z) (n size min max : Z) : option Z := n_range uint_loop str n size min max.

Definition hex_digit (ch : Z) : option Z :=
  if (48 <=? ch) && (ch <=? 57) then Some (ch - 48)
  else if (97 <=? ch) && (ch <=? 102) then Some (10 + (ch - 97))
  else if (65 <=? ch) && (ch <=? 70) then Some (10 + (ch - 65))
  else None.

Fixpoint hex_loop (str : list Z) (n value_uint64 len : Z) : option Z :=
  match str with
  | [] => Some value_uint64
  | ch :: str =>
      if (ch =? 0) || (n <=? 0) then Some value_uint64
      else match hex_digit ch with
           | None => None
           | Some c =>
               let len := len + 1 in
               if (16 <? len) && (Z.shiftr max_uint64 4 <? value_uint64) then None
               else hex_loop str (n - 1) (u64 (Z.shiftl value_uint64 4) + c) len
           end
  end.

Definition zbx_is_hex_n_range (str : list Z) (n size min max : Z) : option Z :=
  n_range (fun str n v => hex_loop str n v 0) str n size min max.

(** ** Theory *)

(** The characters the loops look at. *)
Fixpoint field (str : list Z) (n : Z) : list Z :=
  match str with
  | [] => []
  | ch :: str => if (ch =? 0) || (n <=? 0) then [] else ch :: field str (n - 1)
  end.

(** The number written in a base. *)
Definition number (base : Z) (digits : list Z) (v : Z) : Z := foldl (fun v c => v * base + c) v digits.

Lemma number_ge base l v : 0 < base -> 0 <= v -> Forall (fun c => 0 <= c) l -> v <= number base l v.
Proof.
  intros Hb. revert v. induction l as [|c l IH]; intros v Hv Hl; [done|]. apply Forall_cons in Hl as [Hc Hl]. cbn.
  fold (number base l (v * base + c)). etrans; [|apply IH; [nia|done]]. nia.
Qed.

Lemma uint_loop_ok str n v :
  0 <= v <= max_uint64 ->
  uint_loop str n v =
    if forallb is_digit (field str n) then
      let x := number 10 ((fun c => c - 48) <$> field str n) v in if x <=? max_uint64 then Some x else None
    else None.
Proof.
  revert n v. induction str as [|ch str IH]; intros n v Hv; cbn [uint_loop field].
  - cbn. by rewrite (proj2 (Z.leb_le _ _)) by lia.
  - destruct ((ch =? 0) || (n <=? 0)); [cbn; by rewrite (proj2 (Z.leb_le _ _)) by lia|].
    cbn [forallb]. destruct (is_digit ch) eqn:Ed; cbn [negb andb]; [|done]. unfold is_digit in Ed. unbool.
    rewrite fmap_cons. cbn [number foldl]. fold (number 10 ((fun c => c - 48) <$> field str (n - 1)) (v * 10 + (ch - 48))).
    destruct (Z.ltb_spec ((max_uint64 - (ch - 48)) / 10) v) as [Hlt|Hge].
    + assert (Hbig : max_uint64 < v * 10 + (ch - 48)) by (unfold max_uint64 in *; dlia).
      destruct (forallb is_digit (field str (n - 1))) eqn:Ef; [|done].
      rewrite (proj2 (Z.leb_gt _ _)); [done|]. eapply Z.lt_le_trans; [exact Hbig|]. apply number_ge; [lia|lia|].
      apply Forall_fmap, Forall_forall. intros c Hc. rewrite forallb_forall in Ef. apply list_elem_of_In in Hc. specialize (Ef c Hc).
      unfold is_digit in Ef. unbool. cbn. lia.
    + apply IH. unfold max_uint64 in *. dlia.
Qed.

Definition is_hex (c : Z) : bool := match hex_digit c with Some _ => true | None => false end.
Definition hex_value (c : Z) : Z := match hex_digit c with Some v => v | None => 0 end.

Lemma hex_digit_range ch c : hex_digit ch = Some c -> 0 <= c < 16.
Proof. unfold hex_digit. repeat case_match; intros; simplify_eq; unbool; lia. Qed.

Lemma hex_loop_ok str n v len :
  0 <= v <= max_uint64 -> 0 <= len -> (len <= 16 -> v < 16 ^ len) ->
  hex_loop str n v len =
    if forallb is_hex (field str n) then
      let x := number 16 (hex_value <$> field str n) v in if x <=? max_uint64 then Some x else None
    else None.
Proof.
  revert n v len. induction str as [|ch str IH]; intros n v len Hv Hlen Hp; cbn [hex_loop field].
  - cbn. by rewrite (proj2 (Z.leb_le _ _)) by lia.
  - destruct ((ch =? 0) || (n <=? 0)); [cbn; by rewrite (proj2 (Z.leb_le _ _)) by lia|].
    cbn [forallb]. destruct (hex_digit ch) as [c|] eqn:Ec.
    2: { unfold is_hex at 1. by rewrite Ec. }
    pose proof (hex_digit_range _ _ Ec). unfold is_hex at 1. assert (Eh : hex_value ch = c) by (unfold hex_value; by rewrite Ec).
    rewrite Ec, fmap_cons, Eh. cbn [andb number foldl]. fold (number 16 (hex_value <$> field str (n - 1)) (v * 16 + c)).
    change (Z.shiftr max_uint64 4) with (2 ^ 60 - 1). rewrite Z.shiftl_mul_pow2 by lia. change (2 ^ 4) with 16.
    destruct ((16 <? len + 1) && (2 ^ 60 - 1 <? v)) eqn:Eb.
    + unbool. destruct (forallb is_hex (field str (n - 1))); [|done].
      rewrite (proj2 (Z.leb_gt _ _)); [done|]. eapply (Z.lt_le_trans _ (v * 16 + c)); [unfold max_uint64; lia|].
      apply number_ge; [lia|lia|]. apply Forall_fmap, Forall_forall. intros x _. cbn. unfold hex_value.
      destruct (hex_digit x) eqn:Ex; [|lia]. pose proof (hex_digit_range _ _ Ex). lia.
    + assert (Hsmall : v < 2 ^ 60).
      { apply andb_false_iff in Eb as [Eb|Eb]; unbool; [|lia]. specialize (Hp ltac:(lia)).
        apply (Z.lt_le_trans _ _ _ Hp). change (2 ^ 60) with (16 ^ 15). apply Z.pow_le_mono_r; lia. }
      rewrite u64_small by lia. apply IH; [unfold max_uint64; lia|lia|]. intros Hl. rewrite Z.pow_add_r by lia. specialize (Hp ltac:(lia)). lia.
Qed.

(** ** Properties *)

(** Parsing succeeds exactly when there is at least one character and
    all characters of the field are digits (decimal or hexadecimal) whose
    value fits 64 bits and is within the bounds; the value stored is then the
    number written: no string overflows the computation. *)
Theorem n_range_correct str n size min max :
  0 < n -> 1 <= size <= 8 -> max < 2 ^ (8 * size) ->
  let valid digit base val :=
    let f := field str n in
    let x := number base (val <$> f) 0 in
    if bool_decide (f <> []) && forallb digit f && (0 <=? x - min) && (x <=? max) then Some x else None in
  zbx_is_uint_n_range str n size min max = valid is_digit 10 (fun c => c - 48) /\
  zbx_is_hex_n_range str n size min max = valid is_hex 16 hex_value.
Proof.
  intros Hn Hs Hmax valid.
  assert (Hm64 : max <= max_uint64).
  { assert (2 ^ (8 * size) <= 2 ^ 64) by (apply Z.pow_le_mono_r; lia). unfold max_uint64. lia. }
  assert (Hgen : forall loop digit base val, 0 < base -> (forall c, digit c = true -> 0 <= val c) ->
    (loop str n 0 = if forallb digit (field str n) then
       let x := number base (val <$> field str n) 0 in if x <=? max_uint64 then Some x else None else None) ->
    n_range loop str n size min max = valid digit base val).
  { intros loop digit base val Hb Hval Hl. unfold n_range, valid. rewrite Hl, (proj2 (Z.eqb_neq n 0)), (proj2 (Z.ltb_ge 8 size)), !orb_false_r by lia.
    replace (match str with [] => true | ch :: _ => ch =? 0 end) with (negb (bool_decide (field str n <> []))).
    2: { destruct str as [|ch str]; [done|]. cbn [field]. rewrite (proj2 (Z.leb_gt n 0)), orb_false_r by lia. by destruct (ch =? 0). }
    destruct (bool_decide (field str n <> [])); cbn [negb andb]; [|done].
    destruct (forallb digit (field str n)) eqn:Ed; cbn [andb]; [|done]. set (x := number base _ 0).
    assert (0 <= x).
    { apply number_ge; [done|lia|]. apply Forall_fmap, Forall_forall. intros c Hc. cbn. apply Hval.
      rewrite forallb_forall in Ed. by apply Ed, list_elem_of_In. }
    destruct (Z.leb_spec x max_uint64).
    - destruct (Z.leb_spec 0 (x - min)), (Z.ltb_spec x min), (Z.ltb_spec max x), (Z.leb_spec x max); try lia; cbn [orb andb]; try done.
      unfold store_value. by rewrite Z.mod_small by lia.
    - destruct (Z.leb_spec x max); [lia|]. by rewrite andb_false_r. }
  split.
  - apply Hgen; [lia| |apply uint_loop_ok; unfold max_uint64; lia]. unfold is_digit. intros c Hc. unbool. lia.
  - apply Hgen; [lia| |apply hex_loop_ok; [unfold max_uint64; lia|lia|intros _; cbn; lia]].
    intros c Hc. unfold hex_value. destruct (hex_digit c) eqn:E; [|lia]. pose proof (hex_digit_range _ _ E). lia.
Qed.

Lemma n_range_witness : zbx_is_uint_n_range [50; 53; 53] 3 4 0 255 = Some 255 /\ zbx_is_hex_n_range [102; 70] 2 4 0 65535 = Some 255.
Proof.
  split.
  - apply (n_range_correct [50; 53; 53] 3 4 0 255); lia.
  - apply (n_range_correct [102; 70] 2 4 0 65535); lia.
Defined.
