(* ===== verification/IpRange.v ===== *)
(** * IP address ranges (src/libs/zbxip/iprange.c)

    A range has a from-to pair for each group of an IPv4 or IPv6 address; the
    structure always has 8 groups.  A string is the list of its bytes with no
    0 among them, a position in it is an index; the terminating NUL is at the
    index of its length.

    [addresses r] lists the addresses of a range in order. *)
From stdpp Require Import prelude list strings.
From Stdlib Require Import ZArith Lia.
From S2P Require Import Prelude Num.
#[local] Open Scope Z_scope.

Definition ZBX_IPRANGE_GROUPS_V4 : Z := 4.
Definition ZBX_IPRANGE_GROUPS_V6 : Z := 8.

Inductive iptype := ZBX_IPRANGE_V4 | ZBX_IPRANGE_V6.

Record zbx_range := Range { from : Z; to : Z }.
Record iprange := IpRange { range : list zbx_range; type : iptype; mask : Z }.

#[export] Instance iptype_eq_dec : EqDecision iptype.
Proof. solve_decision. Defined.

(** [range[i] = r]. *)
Definition set_range (rs : list zbx_range) (i : Z) (r : zbx_range) : res (list zbx_range) :=
  if (0 <=? i) && (i <? zlen rs) then Ret (zset rs i r) else Halt BadAccess.

Definition get_range (rs : list zbx_range) (i : Z) : res zbx_range := of_opt BadAccess (zget rs i).

(** ** Strings *)

(** [s[i]]. *)
Definition char_at (s : list Z) (i : Z) : res Z :=
  if i =? zlen s then Ret 0 else of_opt BadAccess (zget s i).

Fixpoint find_char (l : list Z) (c : Z) (i : Z) : option Z :=
  match l with [] => None | x :: l => if x =? c then Some i else find_char l c (i + 1) end.

(** [strchr(s + i, c)] as an index. *)
Definition strchr (s : list Z) (i c : Z) : option Z := find_char (drop (Z.to_nat i) s) c i.

Definition iprange_is_whitespace_character (value : Z) : Z :=
  if (value =? 32) || (value =? 13) || (value =? 10) || (value =? 9) then SUCCEED else FAIL.

(** The length without trailing whitespace: the reversed string is walked. *)
Fixpoint trim (l : list Z) (len : Z) : Z :=
  match l with
  | [] => len
  | c :: l => if iprange_is_whitespace_character c =? SUCCEED then trim l (len - 1) else len
  end.

Definition iprange_address_length (s : list Z) : Z := trim (rev s) (zlen s).

Definition chr_dot : Z := 46.
Definition chr_colon : Z := 58.
Definition chr_dash : Z := 45.
Definition chr_slash : Z := 47.

(** ** Masks *)

(** [for (i = groups - 1; 0 < bits; bits -= group_bits, i--)], at most [groups] rounds. *)
Fixpoint mask_loop (fuel : nat) (rs : list zbx_range) (group_bits bits i : Z) : res (list zbx_range) :=
  match fuel with
  | O => if 0 <? bits then Halt OutOfFuel else Ret rs
  | S fuel =>
      if 0 <? bits then
        let mask_bits := if bits >? group_bits then group_bits else bits in
        let mask_empty := u32 (Z.shiftl 0xffffffff mask_bits) in
        let mask_fill := Z.shiftr 0xffffffff (32 - mask_bits) in
        r ← get_range rs i;
        rs ← set_range rs i (Range (i32 (Z.land (from r) mask_empty)) (i32 (Z.lor (to r) mask_fill)));
        mask_loop fuel rs group_bits (bits - group_bits) (i - 1)
      else Ret rs
  end.

Definition iprange_apply_mask (r : iprange) (bits : Z) : res iprange :=
  let '(groups, group_bits) := match type r with ZBX_IPRANGE_V4 => (4, 8) | ZBX_IPRANGE_V6 => (8, 16) end in
  rs ← mask_loop (Z.to_nat groups) (range r) group_bits (groups * group_bits - bits) (groups - 1);
  Ret (IpRange rs (type r) (mask r)).

(** ** Parsing *)

(** The mask after the slash: the end of the groups, the bits (-1 without a
    mask); [None] is FAIL. *)
Definition parse_mask (s : list Z) (max : Z) : option (Z * Z) :=
  let len := iprange_address_length s in
  match strchr s 0 chr_slash with
  | Some e =>
      match zbx_is_uint_n_range (drop (Z.to_nat (e + 1)) s) (len - (e + 1)) 4 0 max with
      | Some bits => Some (e, bits)
      | None => None
      end
  | None => Some (len, -1)
  end.

(** One group between [address] and [ptr]: a number or a range. *)
Definition parse_group (parse : list Z -> Z -> option Z) (s : list Z) (address ptr bits : Z) : option zbx_range :=
  match strchr s address chr_dash with
  | Some dash =>
      if negb (bits =? -1) then None
      else if dash >? ptr then
        match parse (drop (Z.to_nat address) s) (ptr - address) with Some v => Some (Range v v) | None => None end
      else
        match parse (drop (Z.to_nat address) s) (dash - address),
              parse (drop (Z.to_nat (dash + 1)) s) (ptr - (dash + 1)) with
        | Some f, Some t => if t <? f then None else Some (Range f t)
        | _, _ => None
        end
  | None => match parse (drop (Z.to_nat address) s) (ptr - address) with Some v => Some (Range v v) | None => None end
  end.

Definition uint8_group (str : list Z) (n : Z) : option Z := zbx_is_uint_n_range str n 4 0 255.
Definition hex16_group (str : list Z) (n : Z) : option Z := zbx_is_hex_n_range str n 4 0 65535.

(** [for (index = 0; ptr < end && index < 4; address = ptr + 1)]; the result
    has the groups and the index, [None] is FAIL. *)
Fixpoint v4_loop (fuel : nat) (s : list Z) (end_ bits : Z) (rs : list zbx_range) (address ptr index : Z) :
    res (option (list zbx_range * Z)) :=
  match fuel with
  | O => Halt OutOfFuel
  | S fuel =>
      if (ptr <? end_) && (index <? ZBX_IPRANGE_GROUPS_V4) then
        let ptr := match strchr s address chr_dot with Some p => p | None => end_ end in
        match parse_group uint8_group s address ptr bits with
        | None => Ret None
        | Some r =>
            rs ← set_range rs index r;
            v4_loop fuel s end_ bits rs (ptr + 1) ptr (index + 1)
        end
      else Ret (Some (rs, index))
  end.

(** [r0]: the structure before the call. *)
Definition iprangev4_parse (r0 : iprange) (s : list Z) : res (option iprange) :=
  match parse_mask s 30 with
  | None => Ret None
  | Some (end_, bits) =>
      o ← v4_loop 5 s end_ bits (range r0) 0 0 0;
      match o with
      | None => Ret None
      | Some (rs, index) =>
          let r := IpRange rs ZBX_IPRANGE_V4 (if bits =? -1 then 0 else 1) in
          if negb (index =? ZBX_IPRANGE_GROUPS_V4) then Ret None
          else if negb (bits =? -1) then r ← iprange_apply_mask r bits; Ret (Some r)
          else Ret (Some r)
      end
  end.

(** The loop over IPv6 groups; [fill] is the index of the group of ::, or -1.
    The index grows in each round. *)
Fixpoint v6_loop (fuel : nat) (s : list Z) (end_ bits : Z) (rs : list zbx_range) (address ptr index fill : Z) :
    res (option (list zbx_range * Z * Z)) :=
  match fuel with
  | O => Halt OutOfFuel
  | S fuel =>
      if (ptr <? end_) && (index <? ZBX_IPRANGE_GROUPS_V6) then
        let ptr := match strchr s address chr_colon with Some p => p | None => end_ end in
        o ← (if ptr =? address then
               c ← char_at s (ptr + 1);
               if negb (c =? chr_colon) then Ret None else Ret (Some (rs, index))
             else
               match parse_group hex16_group s address ptr bits with
               | None => Ret None
               | Some r => rs ← set_range rs index r; Ret (Some (rs, index + 1))
               end);
        match o with
        | None => Ret None
        | Some (rs, index) =>
            c0 ← char_at s ptr;
            c1 ← (if c0 =? 0 then Ret 0 else char_at s (ptr + 1));
            if negb (c0 =? 0) && (c1 =? chr_colon) then
              if negb (fill =? -1) then Ret None
              else
                rs ← set_range rs index (Range 0 0);
                let fill := index in
                let index := index + 1 in
                let ptr := ptr + 1 in
                if ptr =? end_ - 1 then Ret (Some (rs, index, fill))
                else v6_loop fuel s end_ bits rs (ptr + 1) ptr index fill
            else v6_loop fuel s end_ bits rs (ptr + 1) ptr index fill
        end
      else Ret (Some (rs, index, fill))
  end.

(** [while (--index > fill) range[target--] = range[index];], then zeros down to [fill]. *)
Fixpoint shift_groups (n : nat) (rs : list zbx_range) (index fill target : Z) : res (list zbx_range * Z) :=
  match n with
  | O => Ret (rs, target)
  | S n =>
      let index := index - 1 in
      if index >? fill then
        r ← get_range rs index;
        rs ← set_range rs target r;
        shift_groups n rs index fill (target - 1)
      else Ret (rs, target)
  end.

Fixpoint zero_groups (n : nat) (rs : list zbx_range) (fill target : Z) : res (list zbx_range) :=
  match n with
  | O => Ret rs
  | S n => if target >? fill then rs ← set_range rs target (Range 0 0); zero_groups n rs fill (target - 1) else Ret rs
  end.

Definition iprangev6_parse (r0 : iprange) (s : list Z) : res (option iprange) :=
  match parse_mask s 128 with
  | None => Ret None
  | Some (end_, bits) =>
      o ← v6_loop 9 s end_ bits (range r0) 0 0 0 (-1);
      match o with
      | None => Ret None
      | Some (rs, index, fill) =>
          if ZBX_IPRANGE_GROUPS_V6 <? index then Ret None
          else
            o ← (if index <? ZBX_IPRANGE_GROUPS_V6 then
                   if fill =? -1 then Ret None
                   else
                     '(rs, target) ← shift_groups 8 rs index fill 7;
                     rs ← zero_groups 8 rs fill target;
                     Ret (Some rs)
                 else Ret (Some rs));
            match o with
            | None => Ret None
            | Some rs =>
                let r := IpRange rs ZBX_IPRANGE_V6 (if bits =? -1 then 0 else 1) in
                if negb (bits =? -1) then r ← iprange_apply_mask r bits; Ret (Some r) else Ret (Some r)
            end
      end
  end.

Fixpoint skip_whitespace (s : list Z) : list Z :=
  match s with
  | c :: s' => if iprange_is_whitespace_character c =? SUCCEED then skip_whitespace s' else s
  | [] => []
  end.

Definition zbx_iprange_parse (r0 : iprange) (s : list Z) : res (option iprange) :=
  let s := skip_whitespace s in
  match strchr s 0 chr_dot with
  | Some _ => iprangev4_parse r0 s
  | None => iprangev6_parse r0 s
  end.

(** ** Addresses *)

Definition groups_of (t : iptype) : nat := match t with ZBX_IPRANGE_V4 => 4 | ZBX_IPRANGE_V6 => 8 end.
Definition masked (r : iprange) : bool := match type r with ZBX_IPRANGE_V4 => negb (mask r =? 0) | ZBX_IPRANGE_V6 => false end.

(** The groups in use. *)
Definition groups (r : iprange) : list zbx_range := take (groups_of (type r)) (range r).

Definition zbx_iprange_first (r : iprange) : list Z :=
  let address := from <$> groups r in
  if masked r then alter (fun a => a + 1) (groups_of (type r) - 1)%nat address else address.

(** [for (i = groups - 1; i >= 0; i--)]: [i] groups are left. *)
Fixpoint next_loop (i : nat) (rs : list zbx_range) (address : list Z) : res (bool * list Z) :=
  match i with
  | O => Ret (false, address)
  | S i =>
      a ← of_opt BadAccess (address !! i);
      r ← of_opt BadAccess (rs !! i);
      if a <? to r then Ret (true, <[i := a + 1]> address)
      else next_loop i rs (if from r <? to r then <[i := from r]> address else address)
  end.

(** [for (i = groups - 1; i >= 0; i--) if (address[i] != range[i].to) return SUCCEED;] *)
Fixpoint differs (i : nat) (rs : list zbx_range) (address : list Z) : res bool :=
  match i with
  | O => Ret false
  | S i =>
      a ← of_opt BadAccess (address !! i);
      r ← of_opt BadAccess (rs !! i);
      if negb (a =? to r) then Ret true else differs i rs address
  end.

Definition zbx_iprange_next (r : iprange) (address : list Z) : res (Z * list Z) :=
  let n := groups_of (type r) in
  '(found, address) ← next_loop n (range r) address;
  if found : bool then
    if masked r then d ← differs n (range r) address; Ret (if d : bool then SUCCEED else FAIL, address)
    else Ret (SUCCEED, address)
  else Ret (FAIL, address).

(** [for (i = 0; i < groups; i++)] over the groups and the address. *)
Fixpoint validate_loop (rs : list zbx_range) (address : list Z) : res Z :=
  match rs, address with
  | [], _ => Ret SUCCEED
  | _ :: _, [] => Halt BadAccess
  | r :: rs, a :: address => if (a <? from r) || (to r <? a) then Ret FAIL else validate_loop rs address
  end.

Definition zbx_iprange_validate (r : iprange) (address : list Z) : res Z := validate_loop (groups r) address.

Fixpoint volume_loop (rs : list zbx_range) (volume : Z) : option Z :=
  match rs with
  | [] => Some volume
  | r :: rs =>
      let n := u64 (to r - from r + 1) in
      if max_uint64 / n <? volume then None else volume_loop rs (u64 (volume * n))
  end.

Definition zbx_iprange_volume (r : iprange) : Z :=
  match volume_loop (groups r) 1 with
  | None => max_uint64
  | Some volume => if masked r then u64 (volume - 2) else volume
  end.

(** ** Enumeration *)

(** All addresses of the groups, in the order of the last group first. *)
Fixpoint product (rs : list zbx_range) : list (list Z) :=
  match rs with
  | [] => [[]]
  | r :: rs => concat ((fun a => cons a <$> product rs) <$> seqZ (from r) (to r - from r + 1))
  end.

Definition ordered (rs : list zbx_range) : Prop := Forall (fun r => from r <= to r) rs.

(** The next address and whether there is one, from the first group on. *)
Fixpoint bump (rs : list zbx_range) (address : list Z) : bool * list Z :=
  match rs, address with
  | r :: rs, a :: address =>
      let '(ok, address) := bump rs address in
      if ok : bool then (true, a :: address)
      else if a <? to r then (true, a + 1 :: address)
      else (false, (if from r <? to r then from r else a) :: address)
  | _, _ => (false, [])
  end.

Lemma bump_length rs address : length address = length rs -> length (bump rs address).2 = length rs.
Proof.
  revert address. induction rs as [|r rs IH]; intros [|a address]; [done|done|done|]. intros [= Hl]. cbn.
  specialize (IH address Hl). destruct (bump rs address) as [ok l]. destruct ok; cbn in *; [lia|]. destruct (a <? to r); cbn; lia.
Qed.

Lemma bump_snoc rs r address a :
  length address = length rs ->
  bump (rs ++ [r]) (address ++ [a]) =
    if a <? to r then (true, address ++ [a + 1])
    else let '(ok, address) := bump rs address in (ok, address ++ [if from r <? to r then from r else a]).
Proof.
  revert address. induction rs as [|r0 rs IH]; intros [|a0 address]; [|done|done|].
  - intros _. cbn. by destruct (a <? to r).
  - intros [= Hl]. cbn [app bump]. rewrite (IH address Hl). destruct (a <? to r); [done|].
    destruct (bump rs address) as [ok l]. destruct ok; [done|]. by destruct (a0 <? to r0).
Qed.

Lemma next_loop_bump rs1 rs2 a1 a2 :
  length a1 = length rs1 ->
  next_loop (length rs1) (rs1 ++ rs2) (a1 ++ a2) = Ret (let '(ok, l) := bump rs1 a1 in (ok, l ++ a2)).
Proof.
  revert a1 rs2 a2. induction rs1 as [|r rs1 IH] using rev_ind; intros a1 rs2 a2 Hl.
  - by destruct a1.
  - rewrite length_app in Hl. cbn in Hl. destruct a1 as [|x a1 _] using rev_ind; [cbn in Hl; lia|].
    rewrite length_app in Hl. cbn in Hl. assert (Hl1 : length a1 = length rs1) by lia.
    rewrite bump_snoc by done. rewrite length_app. cbn [length]. rewrite Nat.add_1_r. cbn [next_loop].
    rewrite <- !(assoc_L (++)). cbn [app].
    rewrite (list_lookup_middle a1 a2 x) by lia. rewrite (list_lookup_middle rs1 rs2 r) by done. cbn [of_opt mbind res_mbind].
    destruct (x <? to r).
    + rewrite insert_app_r_alt by lia. rewrite Hl1, Nat.sub_diag. by rewrite <- (assoc_L (++)).
    + set (y := if from r <? to r then from r else x).
      replace (if from r <? to r then <[length rs1 := from r]> (a1 ++ x :: a2) else a1 ++ x :: a2) with (a1 ++ y :: a2).
      2: { unfold y. destruct (from r <? to r); [|done]. rewrite insert_app_r_alt by lia. by rewrite Hl1, Nat.sub_diag. }
      rewrite (IH a1 (r :: rs2) (y :: a2) Hl1). destruct (bump rs1 a1) as [ok l]. by rewrite <- (assoc_L (++)).
Qed.

(** [bump] steps along the list. *)
Definition linked (rs : list zbx_range) (l : list (list Z)) : Prop :=
  forall k x y, l !! k = Some x -> l !! S k = Some y -> bump rs x = (true, y).

Lemma linked_app rs l1 l2 :
  linked rs l1 -> linked rs l2 -> (forall x y, last l1 = Some x -> head l2 = Some y -> bump rs x = (true, y)) -> linked rs (l1 ++ l2).
Proof.
  intros H1 H2 H12 k x y Hx Hy. destruct (decide (S k < length l1)%nat).
  - rewrite lookup_app_l in Hx, Hy by lia. by eapply H1.
  - rewrite (lookup_app_r l1 l2 (S k)) in Hy by lia. destruct (decide (k < length l1)%nat).
    + rewrite lookup_app_l in Hx by lia. assert (S k = length l1) as E by lia. apply H12.
      * rewrite last_lookup, <- E. exact Hx.
      * rewrite E, Nat.sub_diag in Hy. by rewrite head_lookup.
    + rewrite lookup_app_r in Hx by lia. replace (S k - length l1)%nat with (S (k - length l1)) in Hy by lia. by eapply H2.
Qed.

(** The addresses are linked, start with the smallest and end with the largest. *)
Definition enumerated (rs : list zbx_range) : Prop :=
  linked rs (product rs) /\ head (product rs) = Some (from <$> rs) /\ last (product rs) = Some (to <$> rs) /\
  bump rs (to <$> rs) = (false, from <$> rs).

Lemma bump_carry r rs a address :
  bump rs address = (false, from <$> rs) -> a < to r -> bump (r :: rs) (a :: address) = (true, (a + 1) :: (from <$> rs)).
Proof. intros Hb Ha. cbn [bump]. rewrite Hb. by rewrite (proj2 (Z.ltb_lt _ _) Ha). Qed.

Lemma linked_block r rs a : linked rs (product rs) -> linked (r :: rs) (cons a <$> product rs).
Proof.
  intros Hl k x y Hx Hy. rewrite list_lookup_fmap in Hx, Hy.
  destruct (product rs !! k) as [x'|] eqn:Ex, (product rs !! S k) as [y'|] eqn:Ey; simplify_eq/=.
  by rewrite (Hl k x' y' Ex Ey).
Qed.

(** The blocks for the first group from [a] on, [n + 1] of them. *)
Lemma linked_blocks r rs n a :
  enumerated rs -> a + Z.of_nat n <= to r ->
  let l := concat ((fun a => cons a <$> product rs) <$> seqZ a (Z.of_nat n + 1)) in
  linked (r :: rs) l /\ head l = Some (a :: (from <$> rs)) /\ last l = Some ((a + Z.of_nat n) :: (to <$> rs)).
Proof.
  intros (Hl & Hh & Ht & Hb). revert a. induction n as [|n IH]; intros a Ha.
  - rewrite seqZ_cons, seqZ_nil by lia. rewrite fmap_cons. cbn [fmap list_fmap concat].
    rewrite app_nil_r. split; [by apply linked_block|]. split; [|by rewrite fmap_last, Ht, Z.add_0_r].
    destruct (product rs); [done|]. cbn in *. by simplify_eq.
  - destruct (IH (a + 1) ltac:(lia)) as (Hl1 & Hh1 & Ht1). rewrite seqZ_cons by lia. replace (Z.succ a) with (a + 1) by lia.
    replace (Z.pred (Z.of_nat (S n) + 1)) with (Z.of_nat n + 1) by lia. rewrite fmap_cons. cbn [concat]. set (l := concat _) in *.
    split; [|split].
    + apply linked_app; [by apply linked_block|done|]. intros x y Hx Hy. rewrite fmap_last, Ht in Hx. rewrite Hh1 in Hy. simplify_eq/=.
      apply bump_carry; [done|lia].
    + destruct (product rs); [done|]. cbn in *. by simplify_eq.
    + rewrite last_app, Ht1. f_equal. f_equal. lia.
Qed.

Lemma product_enumerated rs : ordered rs -> enumerated rs.
Proof.
  induction rs as [|r rs IH]; intros Ho.
  - split; [|done]. intros [|k] x y; [intros _ H; cbn in H; discriminate|intros H; discriminate].
  - apply Forall_cons in Ho as [Hr Ho]. specialize (IH Ho). pose proof (linked_blocks r rs (Z.to_nat (to r - from r)) (from r) IH) as H.
    rewrite Z2Nat.id in H by lia. destruct (H ltac:(lia)) as (Hl & Hh & Ht). split; [exact Hl|]. split; [exact Hh|].
    split; [etrans; [exact Ht|]; rewrite fmap_cons; do 2 f_equal; lia|]. destruct IH as (_ & _ & _ & Hb). cbn [fmap list_fmap bump].
    rewrite Hb, Z.ltb_irrefl. do 2 f_equal. destruct (Z.ltb_spec (from r) (to r)); [done|lia].
Qed.

Lemma product_nodup rs : NoDup (product rs).
Proof.
  induction rs as [|r rs IH]; [by apply NoDup_singleton|]. cbn [product].
  pose proof (NoDup_seqZ (from r) (to r - from r + 1)) as Hs. induction (seqZ (from r) (to r - from r + 1)) as [|a s IHs]; [by apply NoDup_nil|].
  apply NoDup_cons in Hs as [Ha Hs]. rewrite fmap_cons. cbn [concat]. apply NoDup_app. split; [|split; [|by apply IHs]].
  - apply NoDup_fmap_2; [by intros x y [= ->]|done].
  - intros x (x' & -> & _)%list_elem_of_fmap Hin. apply elem_of_concat in Hin as (i & c & Hi & Hx).
    rewrite list_lookup_fmap in Hi. destruct (s !! i) as [b|] eqn:Eb; simplify_eq/=.
    apply list_elem_of_fmap in Hx as (y & [= -> ->] & _). apply Ha. by eapply list_elem_of_lookup_2.
Qed.

Lemma elem_of_product rs x :
  x ∈ product rs <-> Forall2 (fun r a => from r <= a <= to r) rs x.
Proof.
  revert x. induction rs as [|r rs IH]; intros x; cbn [product].
  - rewrite list_elem_of_singleton. split; [intros ->; constructor|by intros H%Forall2_nil_inv_l].
  - rewrite elem_of_concat. split.
    + intros (i & c & Hi & Hx). rewrite list_lookup_fmap in Hi. destruct (seqZ _ _ !! i) as [a|] eqn:Ea; simplify_eq/=.
      apply list_elem_of_fmap in Hx as (y & -> & Hy%IH). constructor; [|done].
      apply list_elem_of_lookup_2, elem_of_seqZ in Ea. lia.
    + intros (a & y & Ha & Hy & ->)%Forall2_cons_inv_l. apply IH in Hy.
      assert (Hin : a ∈ seqZ (from r) (to r - from r + 1)) by (apply elem_of_seqZ; lia).
      apply list_elem_of_lookup in Hin as [i Hi]. exists i. eexists. rewrite list_lookup_fmap, Hi. split; [done|].
      apply list_elem_of_fmap. eauto.
Qed.

Lemma product_length_cons r rs : from r <= to r -> zlen (product (r :: rs)) = (to r - from r + 1) * zlen (product rs).
Proof.
  intros Hr. cbn [product]. assert (Hg : forall s, zlen (concat ((fun a : Z => cons a <$> product rs) <$> s)) = zlen s * zlen (product rs)).
  { induction s as [|a s IH]; [done|]. rewrite fmap_cons. cbn [concat]. rewrite zlen_app, IH, zlen_cons.
    unfold zlen at 1. rewrite length_fmap. fold (zlen (product rs)). lia. }
  rewrite Hg. f_equal. unfold zlen. rewrite length_seqZ. lia.
Qed.

(** ** Well-formed ranges *)

Definition group_bits (t : iptype) : Z := match t with ZBX_IPRANGE_V4 => 8 | ZBX_IPRANGE_V6 => 16 end.

(** The groups are ordered, and a network of an IPv4 mask has more than a
    network and a broadcast address. *)
Record range_ok (r : iprange) : Prop := {
  ro_size : length (range r) = 8%nat;
  ro_order : ordered (groups r);
  ro_int : Forall (fun g => 0 <= from g /\ to g < 2 ^ group_bits (type r)) (groups r);
  ro_mask : masked r = true -> exists rs l, groups r = rs ++ [l] /\ from l + 2 <= to l }.

Lemma groups_length r : range_ok r -> length (groups r) = groups_of (type r).
Proof. intros Hr. unfold groups. rewrite length_take, (ro_size _ Hr). by destruct (type r). Qed.

Lemma differs_ok rs1 rs2 a1 a2 :
  length a1 = length rs1 -> differs (length rs1) (rs1 ++ rs2) (a1 ++ a2) = Ret (bool_decide (a1 <> to <$> rs1)).
Proof.
  revert a1 rs2 a2. induction rs1 as [|r rs1 IH] using rev_ind; intros a1 rs2 a2 Hl; [by destruct a1|].
  rewrite length_app in Hl. cbn in Hl. destruct a1 as [|x a1 _] using rev_ind; [cbn in Hl; lia|].
  rewrite length_app in Hl. cbn in Hl. rewrite length_app. cbn [length]. rewrite Nat.add_1_r. cbn [differs].
  rewrite <- !(assoc_L (++)). cbn [app]. rewrite (list_lookup_middle a1 a2 x), (list_lookup_middle rs1 rs2 r) by lia. cbn [of_opt mbind res_mbind].
  rewrite fmap_app. cbn [fmap list_fmap]. destruct (Z.eqb_spec x (to r)) as [->|Hne]; cbn [negb].
  - rewrite (IH a1 (r :: rs2) (to r :: a2)) by lia. f_equal. apply bool_decide_ext. split.
    + intros H E. apply H. by apply app_inj_2 in E as [-> _].
    + by intros H ->.
  - rewrite bool_decide_true; [done|]. intros E. apply app_inj_2 in E as [_ E]; [|done]. congruence.
Qed.

(** The next address, in terms of [bump]. *)
Lemma next_ok r a :
  range_ok r -> length a = length (groups r) ->
  zbx_iprange_next r a = Ret (let '(ok, a') := bump (groups r) a in
    (if ok && negb (masked r && bool_decide (a' = to <$> groups r)) then SUCCEED else FAIL, a')).
Proof.
  intros Hr Ha. unfold zbx_iprange_next. rewrite <- (groups_length r Hr).
  rewrite <- (take_drop (groups_of (type r)) (range r)). fold (groups r). set (rest := drop _ _).
  pose proof (next_loop_bump (groups r) rest a [] Ha) as Hn. rewrite app_nil_r in Hn. rewrite Hn.
  pose proof (bump_length (groups r) a Ha) as Hb. destruct (bump (groups r) a) as [ok a']. cbn [mbind res_mbind snd] in *. rewrite app_nil_r.
  destruct ok; cbn [andb]; [|done]. destruct (masked r); cbn [andb]; [|done].
  pose proof (differs_ok (groups r) rest a' [] Hb) as Hd. rewrite app_nil_r in Hd. rewrite Hd. cbn [mbind res_mbind].
  f_equal. f_equal. destruct (decide (a' = to <$> groups r)) as [E|E].
  - by rewrite bool_decide_false, bool_decide_true by naive_solver.
  - by rewrite bool_decide_true, bool_decide_false by naive_solver.
Qed.

(** The addresses a caller gets: [first], then [next] until FAIL. *)
Fixpoint walk (fuel : nat) (r : iprange) (a : list Z) : res (list (list Z)) :=
  match fuel with
  | O => Halt OutOfFuel
  | S fuel =>
      '(ret, a') ← zbx_iprange_next r a;
      if ret =? SUCCEED then l ← walk fuel r a'; Ret (a :: l) else Ret [a]
  end.

(** The addresses of a range; a masked IPv4 range is without its network and
    broadcast addresses. *)
Definition addresses (r : iprange) : list (list Z) :=
  if masked r then removelast (tail (product (groups r))) else product (groups r).

Lemma product_lengths r a : a ∈ product (groups r) -> length a = length (groups r).
Proof. intros H%elem_of_product. symmetry. by eapply Forall2_length. Qed.

Lemma walk_ok r pre x post fin fuel :
  range_ok r -> product (groups r) = pre ++ (x :: post) ++ fin ->
  (if masked r then fin = [to <$> groups r] else fin = []) -> (length post < fuel)%nat ->
  walk fuel r x = Ret (x :: post).
Proof.
  intros Hr. revert pre x post. induction fuel as [|fuel IH]; intros pre x post Hp Hfin Hf; [lia|]. cbn [walk].
  pose proof (product_enumerated _ (ro_order _ Hr)) as (Hl & _ & Ht & Hbt).
  assert (Hx : product (groups r) !! length pre = Some x) by (rewrite Hp; cbn [app]; by rewrite list_lookup_middle).
  assert (Hlen : length x = length (groups r)) by (eapply product_lengths, list_elem_of_lookup_2; exact Hx).
  rewrite next_ok by done. destruct post as [|y post].
  - destruct (masked r) eqn:Em; subst fin.
    + rewrite (Hl (length pre) x (to <$> groups r)); [|done|].
      2: { rewrite Hp, lookup_app_r by lia. by replace (S (length pre) - length pre)%nat with 1%nat by lia. }
      cbn [mbind res_mbind andb]. by rewrite bool_decide_true.
    + rewrite Hp, app_nil_r, last_snoc in Ht. injection Ht as ->. rewrite Hbt. done.
  - rewrite (Hl (length pre) x y); [|done|].
    2: { rewrite Hp, lookup_app_r by lia. by replace (S (length pre) - length pre)%nat with 1%nat by lia. }
    cbn [mbind res_mbind]. assert (Hy : masked r && bool_decide (y = to <$> groups r) = false).
    { destruct (masked r); [|done]. cbn [andb]. apply bool_decide_false. intros ->. subst fin.
      pose proof (product_nodup (groups r)) as ND. rewrite Hp in ND. apply NoDup_app in ND as (_ & _ & ND).
      cbn [app] in ND. apply NoDup_cons in ND as [_ ND]. apply NoDup_cons in ND as [Hn _]. apply Hn.
      apply elem_of_app. right. by left. }
    rewrite Hy. cbn [andb negb]. change (SUCCEED =? SUCCEED) with true. cbn iota.
    rewrite (IH (pre ++ [x]) y post); [done| |done|cbn in Hf; lia]. by rewrite Hp, <- (assoc_L (++)).
Qed.

(** The first address of a masked range is the second of its groups. *)
Lemma masked_split r :
  range_ok r -> masked r = true ->
  exists mid, product (groups r) = [from <$> groups r] ++ (zbx_iprange_first r :: mid) ++ [to <$> groups r].
Proof.
  intros Hr Hm. destruct (ro_mask _ Hr Hm) as (rs & l & Hg & Hl2).
  pose proof (product_enumerated _ (ro_order _ Hr)) as (Hl & Hh & Ht & _).
  assert (Hfirst : bump (groups r) (from <$> groups r) = (true, zbx_iprange_first r)).
  { unfold zbx_iprange_first. rewrite Hm, <- (groups_length r Hr), Hg, length_app. cbn [length].
    rewrite Nat.add_sub, fmap_app. cbn [fmap list_fmap]. rewrite bump_snoc by (by rewrite length_fmap).
    rewrite (proj2 (Z.ltb_lt _ _)) by lia. rewrite alter_app_r_alt by (rewrite length_fmap; lia).
    by rewrite length_fmap, Nat.sub_diag. }
  destruct (product (groups r)) as [|net p] eqn:Ep; [done|]. cbn in Hh. injection Hh as ->.
  assert (Hne : from <$> groups r <> to <$> groups r).
  { rewrite Hg, !fmap_app. intros E. apply app_inj_2 in E as [_ E]; [|done]. injection E as E. lia. }
  destruct p as [|x p]; [cbn in Ht; congruence|]. pose proof (Hl 0%nat _ x eq_refl eq_refl) as Hx.
  assert (x = zbx_iprange_first r) as -> by congruence.
  assert (Hfb : zbx_iprange_first r <> to <$> groups r).
  { rewrite Hg in Hfirst |- *. rewrite !fmap_app in *. cbn [fmap list_fmap] in *. rewrite bump_snoc in Hfirst by (by rewrite length_fmap).
    rewrite (proj2 (Z.ltb_lt _ _)) in Hfirst by lia. injection Hfirst as <-. intros E. apply app_inj_2 in E as [_ E]; [|done]. injection E as E. lia. }
  destruct p as [|y p _] using rev_ind; [cbn in Ht; congruence|]. exists p. cbn [app]. do 2 f_equal.
  assert (Hy : last ((from <$> groups r) :: zbx_iprange_first r :: p ++ [y]) = Some y).
  { change (last (((from <$> groups r) :: zbx_iprange_first r :: p) ++ [y]) = Some y). apply last_snoc. }
  rewrite Hy in Ht. by injection Ht as ->.
Qed.

Lemma walk_addresses r fuel : range_ok r -> (length (addresses r) <= fuel)%nat -> walk fuel r (zbx_iprange_first r) = Ret (addresses r).
Proof.
  intros Hr Hf. unfold addresses in *. destruct (masked r) eqn:Hm.
  - destruct (masked_split r Hr Hm) as [mid Hp]. rewrite Hp in *. cbn [app tail] in *.
    change (zbx_iprange_first r :: mid ++ [to <$> groups r]) with ((zbx_iprange_first r :: mid) ++ [to <$> groups r]) in *.
    rewrite removelast_last in *. apply (walk_ok r [from <$> groups r] _ mid [to <$> groups r]); [done|exact Hp|by rewrite Hm|cbn in Hf; lia].
  - pose proof (product_enumerated _ (ro_order _ Hr)) as (_ & Hh & _ & _).
    assert (Hfst : zbx_iprange_first r = from <$> groups r) by (unfold zbx_iprange_first; by rewrite Hm).
    destruct (product (groups r)) as [|x p] eqn:Ep; [done|]. cbn in Hh. injection Hh as ->. rewrite Hfst.
    eapply (walk_ok r [] _ p []); [done|by rewrite Ep, app_nil_r|by rewrite Hm|cbn in Hf; lia].
Qed.

Lemma validate_ok rs a post :
  length a = length rs -> validate_loop rs (a ++ post) = Ret (if bool_decide (a ∈ product rs) then SUCCEED else FAIL).
Proof.
  revert a. induction rs as [|r rs IH]; intros [|x a]; [|done|done|].
  - intros _. cbn. rewrite bool_decide_true; [done|]. by apply list_elem_of_singleton.
  - intros [= Hl]. cbn [app validate_loop]. destruct ((x <? from r) || (to r <? x)) eqn:E.
    + rewrite bool_decide_false; [done|]. rewrite elem_of_product, Forall2_cons. apply orb_true_iff in E as [E|E]; unbool; lia.
    + rewrite (IH a Hl). unbool.
      replace (bool_decide (a ∈ product rs)) with (bool_decide (x :: a ∈ product (r :: rs))); [done|].
      apply bool_decide_ext. rewrite !elem_of_product, Forall2_cons. split; [tauto|]. intros ?; split; [lia|done].
Qed.

Lemma volume_ok rs b v :
  ordered rs -> Forall (fun g => 0 <= from g /\ to g < 2 ^ b) rs -> 0 <= b <= 16 -> 1 <= v <= max_uint64 ->
  volume_loop rs v = if v * zlen (product rs) <=? max_uint64 then Some (v * zlen (product rs)) else None.
Proof.
  revert v. induction rs as [|r rs IH]; intros v Ho Hi Hb16 Hv; cbn [volume_loop].
  - change (zlen (product [])) with 1. rewrite Z.mul_1_r. by rewrite (proj2 (Z.leb_le _ _)) by lia.
  - apply Forall_cons in Ho as [Hr Ho]. apply Forall_cons in Hi as [Hb Hi].
    assert (2 ^ b <= 2 ^ 16) by (apply Z.pow_le_mono_r; lia).
    rewrite product_length_cons by done. set (n := to r - from r + 1). rewrite u64_small by (unfold n; lia).
    assert (Hpos : 1 <= zlen (product rs)).
    { pose proof (product_enumerated rs Ho) as (_ & Hh & _). destruct (product rs) as [|x p]; [done|]. rewrite zlen_cons. pose proof (zlen_nonneg p). lia. }
    assert (Hn : 1 <= n) by (unfold n; lia).
    destruct (Z.ltb_spec (max_uint64 / n) v) as [Hlt|Hge].
    + rewrite (proj2 (Z.leb_gt _ _)); [done|]. assert (max_uint64 < v * n).
      { pose proof (Z.div_mod max_uint64 n ltac:(lia)). pose proof (Z.mod_pos_bound max_uint64 n ltac:(lia)). nia. }
      nia.
    + assert (v * n <= max_uint64).
      { pose proof (Z.div_mod max_uint64 n ltac:(lia)). pose proof (Z.mod_pos_bound max_uint64 n ltac:(lia)). nia. }
      rewrite u64_small by (unfold max_uint64 in *; nia). rewrite IH by (done || nia). by rewrite Z.mul_assoc.
Qed.

Lemma product_bound gs b :
  ordered gs -> Forall (fun g => 0 <= from g /\ to g < 2 ^ b) gs -> 0 <= b -> zlen (product gs) <= 2 ^ (b * zlen gs).
Proof.
  intros Ho Hi Hb0. induction gs as [|g gs IH]; [change (zlen (@nil zbx_range)) with 0; by rewrite Z.mul_0_r|].
  apply Forall_cons in Ho as [Hg Ho], Hi as [Hb Hi]. specialize (IH Ho Hi).
  rewrite product_length_cons, zlen_cons by done. pose proof (zlen_nonneg (product gs)). pose proof (zlen_nonneg gs).
  replace (b * (1 + zlen gs)) with (b + b * zlen gs) by lia. rewrite Z.pow_add_r by lia. nia.
Qed.

(** ** Masks *)

Lemma land_empty g k : 0 <= g < 2 ^ 32 -> 0 <= k <= 32 -> Z.land g (u32 (Z.shiftl 0xffffffff k)) = g / 2 ^ k * 2 ^ k.
Proof.
  intros Hg Hk. rewrite <- Z.shiftr_div_pow2, <- Z.shiftl_mul_pow2, <- Z.ldiff_ones_r by lia.
  unfold u32. rewrite <- Z.land_ones by lia. change 0xffffffff with (Z.ones 32).
  apply Z.bits_inj'. intros n Hn. rewrite !Z.land_spec, Z.ldiff_spec, Z.shiftl_spec by done.
  assert (Hb : 32 <= n -> Z.testbit g n = false).
  { intros Hn32. destruct (decide (g = 0)) as [->|]; [apply Z.bits_0|]. apply Z.bits_above_log2; [lia|].
    apply Z.log2_lt_pow2; [lia|]. apply (Z.lt_le_trans _ (2 ^ 32)); [lia|apply Z.pow_le_mono_r; lia]. }
  destruct (decide (32 <= n)); [by rewrite Hb|]. rewrite (Z.testbit_ones_nonneg 32 n) by lia.
  rewrite (proj2 (Z.ltb_lt n 32)), andb_true_r by lia. destruct (decide (n < k)).
  - rewrite (Z.testbit_neg_r _ (n - k)) by lia. rewrite Z.testbit_ones_nonneg by lia. by rewrite (proj2 (Z.ltb_lt n k)).
  - rewrite !Z.testbit_ones_nonneg by lia. by rewrite (proj2 (Z.ltb_lt (n - k) 32)), (proj2 (Z.ltb_ge n k)) by lia.
Qed.

Lemma lor_fill g k : 0 <= g -> 0 <= k <= 32 -> Z.lor g (Z.shiftr 0xffffffff (32 - k)) = g / 2 ^ k * 2 ^ k + (2 ^ k - 1).
Proof.
  intros Hg Hk. assert (Hf : Z.shiftr 0xffffffff (32 - k) = Z.ones k).
  { change 0xffffffff with (Z.ones 32). rewrite Z.shiftr_div_pow2 by lia. rewrite Z.ones_div_pow2 by lia. f_equal. lia. }
  rewrite Hf. assert (Hsame : Z.lor g (Z.ones k) = Z.lor (Z.ones k) (Z.ldiff g (Z.ones k))).
  { apply Z.bits_inj'. intros n Hn. rewrite !Z.lor_spec, Z.ldiff_spec. destruct (Z.testbit g n), (Z.testbit (Z.ones k) n); done. }
  assert (Hp : 0 < 2 ^ k) by (apply Z.pow_pos_nonneg; lia).
  rewrite Hsame, (lor_add k); [|lia|rewrite Z.ones_equiv; lia|rewrite Z.ldiff_ones_r by lia; rewrite Z.shiftl_mul_pow2 by lia; eexists; reflexivity].
  rewrite Z.ldiff_ones_r, Z.shiftl_mul_pow2, Z.shiftr_div_pow2, Z.ones_equiv by lia. lia.
Qed.

(** The groups from the last one on, with [bits] bits masked. *)
Fixpoint mask_rev (gs : list zbx_range) (group_bits bits : Z) : list zbx_range :=
  match gs with
  | [] => []
  | g :: gs =>
      if 0 <? bits then
        let k := Z.min group_bits bits in
        Range (from g / 2 ^ k * 2 ^ k) (to g / 2 ^ k * 2 ^ k + (2 ^ k - 1)) :: mask_rev gs group_bits (bits - group_bits)
      else g :: gs
  end.

Definition single (b : Z) (g : zbx_range) : Prop := from g = to g /\ 0 <= from g < 2 ^ b.

Lemma mask_loop_ok gs post b bits :
  Forall (single b) gs -> 0 < b <= 16 -> bits <= b * zlen gs ->
  mask_loop (length gs) (rev gs ++ post) b bits (zlen gs - 1) = Ret (rev (mask_rev gs b bits) ++ post).
Proof.
  revert post bits. induction gs as [|g gs IH]; intros post bits Hs Hb Hbits; cbn [mask_loop length mask_rev].
  - rewrite zlen_nil in Hbits. rewrite (proj2 (Z.ltb_ge _ _)) by lia. done.
  - destruct (Z.ltb_spec 0 bits) as [Hpos|]; [|done]. apply Forall_cons in Hs as [[Heq Hg] Hs].
    cbn [rev]. rewrite <- !(assoc_L (++)). cbn [app]. rewrite zlen_cons. replace (1 + zlen gs - 1) with (zlen (rev gs)) by (unfold zlen; rewrite length_rev; lia).
    unfold get_range, set_range. rewrite (proj2 (Z.leb_le _ _) (zlen_nonneg _)), (proj2 (Z.ltb_lt _ _)) by (pose proof (zlen_nonneg post); lens).
    assert (Hget : zget (rev gs ++ g :: post) (zlen (rev gs)) = Some g).
    { apply zget_Some. split; [apply zlen_nonneg|]. rewrite to_nat_zlen. by apply list_lookup_middle. }
    rewrite Hget. cbn [of_opt mbind res_mbind andb].
    assert (Hk : (if bits >? b then b else bits) = Z.min b bits) by (destruct (Z.gtb_spec bits b); lia). rewrite Hk.
    set (k := Z.min b bits). assert (Hk0 : 0 < k <= b) by (unfold k; lia).
    assert (H216 : 2 ^ b <= 2 ^ 16) by (apply Z.pow_le_mono_r; lia).
    rewrite <- Heq. rewrite land_empty, lor_fill by lia.
    assert (Hp : 0 < 2 ^ k) by (apply Z.pow_pos_nonneg; lia). assert (2 ^ k <= 2 ^ 16) by (apply Z.pow_le_mono_r; lia).
    pose proof (Z.div_mod (from g) (2 ^ k) ltac:(lia)) as Hdm. pose proof (Z.mod_pos_bound (from g) (2 ^ k) Hp).
    assert (0 <= from g / 2 ^ k) by (apply Z.div_pos; lia).
    rewrite !i32_small by nia. unfold zset. rewrite (proj2 (Z.ltb_ge _ _)) by apply zlen_nonneg. rewrite to_nat_zlen.
    rewrite insert_app_r_alt, Nat.sub_diag by lia. cbn [insert list_insert].
    replace (zlen (rev gs) - 1) with (zlen gs - 1) by (unfold zlen; by rewrite length_rev).
    rewrite IH; [|done|done|rewrite zlen_cons in Hbits; lia]. done.
Qed.

(** The address as a number, last group first. *)
Fixpoint number_rev (b : Z) (l : list Z) : Z := match l with [] => 0 | g :: l => g + 2 ^ b * number_rev b l end.

Lemma number_rev_range b l : 0 <= b -> Forall (fun x => 0 <= x < 2 ^ b) l -> 0 <= number_rev b l < 2 ^ (b * zlen l).
Proof.
  intros Hb. induction l as [|x l IH]; intros Hl; [cbn; rewrite Z.mul_0_r; lia|]. apply Forall_cons in Hl as [Hx Hl]. specialize (IH Hl).
  cbn [number_rev]. rewrite zlen_cons. replace (b * (1 + zlen l)) with (b + b * zlen l) by lia.
  pose proof (zlen_nonneg l). rewrite Z.pow_add_r by lia. nia.
Qed.

Lemma mask_rev_number gs b bits :
  Forall (single b) gs -> 0 < b -> 0 <= bits <= b * zlen gs ->
  let v := number_rev b (from <$> gs) in
  number_rev b (from <$> mask_rev gs b bits) = v / 2 ^ bits * 2 ^ bits /\
  number_rev b (to <$> mask_rev gs b bits) = v / 2 ^ bits * 2 ^ bits + (2 ^ bits - 1).
Proof.
  revert bits. induction gs as [|g gs IH]; intros bits Hs Hb Hbits v.
  - change (zlen (@nil zbx_range)) with 0 in Hbits. assert (bits = 0) as -> by lia. done.
  - apply Forall_cons in Hs as [[Heq Hg] Hs]. rewrite zlen_cons in Hbits.
    assert (Hsame : number_rev b (to <$> gs) = number_rev b (from <$> gs)).
    { clear -Hs. induction Hs as [|g gs [E _] _ IH]; [done|]. cbn. by rewrite IH, E. }
    assert (Hv0 : 0 <= number_rev b (from <$> gs)).
    { apply number_rev_range; [lia|]. apply Forall_fmap. eapply Forall_impl; [exact Hs|]. intros x [_ Hx]. exact Hx. }
    unfold v. cbn [mask_rev]. destruct (Z.ltb_spec 0 bits) as [Hpos|Hz].
    2: { assert (bits = 0) as -> by lia. rewrite Z.pow_0_r, Z.div_1_r, Z.mul_1_r. cbn. rewrite Hsame, <- Heq. lia. }
    cbn [fmap list_fmap number_rev from to]. rewrite <- Heq. set (V := number_rev b (from <$> gs)) in *.
    destruct (Z.min_spec b bits) as [[Hlt Hmin]|[Hle Hmin]]; rewrite Hmin.
    + (* the whole group *)
      destruct (IH (bits - b) Hs Hb ltac:(lia)) as [Hf Ht]. fold V in Hf, Ht. rewrite Hf, Ht. rewrite (Z.div_small (from g)) by lia.
      assert (Hpow : 2 ^ bits = 2 ^ b * 2 ^ (bits - b)) by (rewrite <- Z.pow_add_r by lia; f_equal; lia).
      assert (0 < 2 ^ b) by (apply Z.pow_pos_nonneg; lia). assert (0 < 2 ^ (bits - b)) by (apply Z.pow_pos_nonneg; lia).
      assert (Hdiv : (from g + 2 ^ b * V) / 2 ^ bits = V / 2 ^ (bits - b)).
      { rewrite Hpow, <- Z.div_div by lia. f_equal. rewrite (Z.mul_comm (2 ^ b) V), Z.div_add, Z.div_small by lia. lia. }
      rewrite Hdiv, Hpow. nia.
    + (* a part of the group *)
      assert (Hrest : mask_rev gs b (bits - b) = gs).
      { destruct gs as [|g' gs]; [done|]. cbn [mask_rev]. by rewrite (proj2 (Z.ltb_ge _ _)) by lia. }
      rewrite Hrest, Hsame. fold V.
      assert (Hpow : 2 ^ b = 2 ^ (b - bits) * 2 ^ bits) by (rewrite <- Z.pow_add_r by lia; f_equal; lia).
      assert (0 < 2 ^ bits) by (apply Z.pow_pos_nonneg; lia).
      assert (Hdiv : (from g + 2 ^ b * V) / 2 ^ bits = from g / 2 ^ bits + 2 ^ (b - bits) * V).
      { rewrite Hpow. replace (from g + 2 ^ (b - bits) * 2 ^ bits * V) with (from g + 2 ^ (b - bits) * V * 2 ^ bits) by ring.
        apply Z.div_add. lia. }
      rewrite Hdiv, Hpow. nia.
Qed.

(** ** Properties *)

(** Enumeration.  Starting with the first address of a well-formed range
    and asking for the next one until there is none visits, in this order and
    once each, exactly the addresses that are in all groups of the range; a
    range given with an IPv4 mask is visited without its network (first) and
    broadcast (last) address.  An address is validated exactly when it is in
    the range. *)
Theorem iprange_enumerates r fuel :
  range_ok r -> (length (addresses r) <= fuel)%nat ->
  walk fuel r (zbx_iprange_first r) = Ret (addresses r) /\ NoDup (addresses r) /\
  (if masked r then product (groups r) = [from <$> groups r] ++ addresses r ++ [to <$> groups r]
   else addresses r = product (groups r)) /\
  (forall a post, length a = length (groups r) ->
     zbx_iprange_validate r (a ++ post) = Ret (if bool_decide (Forall2 (fun g x => from g <= x <= to g) (groups r) a) then SUCCEED else FAIL)).
Proof.
  intros Hr Hf. split; [by apply walk_addresses|]. split; [|split].
  - unfold addresses. destruct (masked r) eqn:Hm; [|apply product_nodup].
    destruct (masked_split r Hr Hm) as [mid Hp]. pose proof (product_nodup (groups r)) as ND. rewrite Hp in ND |- *.
    cbn [app tail] in *. change (zbx_iprange_first r :: mid ++ [to <$> groups r]) with ((zbx_iprange_first r :: mid) ++ [to <$> groups r]) in *.
    rewrite removelast_last. apply NoDup_cons in ND as [_ ND]. by apply NoDup_app in ND as [? _].
  - unfold addresses. destruct (masked r) eqn:Hm; [|done]. destruct (masked_split r Hr Hm) as [mid Hp]. rewrite Hp at 2. cbn [app tail].
    change (zbx_iprange_first r :: mid ++ [to <$> groups r]) with ((zbx_iprange_first r :: mid) ++ [to <$> groups r]).
    rewrite removelast_last. exact Hp.
  - intros a post Ha. unfold zbx_iprange_validate. rewrite validate_ok by done.
    rewrite (bool_decide_ext (a ∈ product (groups r)) _ (elem_of_product _ _)). done.
Qed.

(** C40: Volume.  The volume is the number of addresses the enumeration
    visits, or the largest 64-bit number when there are more: the
    multiplication does not wrap. *)
Theorem iprange_volume_correct r :
  range_ok r -> zbx_iprange_volume r = Z.min max_uint64 (zlen (addresses r)).
Proof.
  intros Hr. unfold zbx_iprange_volume, addresses.
  rewrite (volume_ok (groups r) (group_bits (type r)) 1 (ro_order _ Hr) (ro_int _ Hr)) by (unfold max_uint64; destruct (type r); cbn; lia).
  rewrite Z.mul_1_l. destruct (masked r) eqn:Hm.
  - destruct (masked_split r Hr Hm) as [mid Hp].
    assert (Hv4 : zlen (product (groups r)) <= 2 ^ 32).
    { pose proof (product_bound _ _ (ro_order _ Hr) (ro_int _ Hr) ltac:(by destruct (type r))) as Hb.
      unfold zlen in Hb at 2. rewrite (groups_length r Hr) in Hb. unfold masked in Hm. by destruct (type r). }
    unfold max_uint64. rewrite (proj2 (Z.leb_le _ _)) by lia. rewrite Hp in Hv4 |- *. cbn [app tail] in *.
    change (zbx_iprange_first r :: mid ++ [to <$> groups r]) with ((zbx_iprange_first r :: mid) ++ [to <$> groups r]) in *.
    rewrite removelast_last. rewrite zlen_cons, zlen_app in *. change (zlen [to <$> groups r]) with 1 in *.
    pose proof (zlen_nonneg (zbx_iprange_first r :: mid)). rewrite u64_small by lia. lia.
  - unfold max_uint64. destruct (Z.leb_spec (zlen (product (groups r))) (2 ^ 64 - 1)); lia.
Qed.
Lemma mask_rev_groups gs b bits :
  Forall (single b) gs -> 0 < b ->
  Forall (fun g => from g <= to g /\ 0 <= from g /\ to g < 2 ^ b) (mask_rev gs b bits) /\ length (mask_rev gs b bits) = length gs.
Proof.
  intros Hs Hb. revert bits. induction Hs as [|g gs [Heq Hg] Hs IH]; intros bits; cbn [mask_rev]; [done|].
  destruct (Z.ltb_spec 0 bits) as [Hpos|Hz].
  - destruct (IH (bits - b)) as [IH1 IH2]. split; [|cbn; by rewrite IH2]. constructor; [|done]. cbn [from to]. rewrite <- Heq.
    set (k := Z.min b bits). assert (Hk : 0 < k <= b) by (unfold k; lia).
    assert (Hp : 0 < 2 ^ k) by (apply Z.pow_pos_nonneg; lia).
    pose proof (Z.div_mod (from g) (2 ^ k) ltac:(lia)). pose proof (Z.mod_pos_bound (from g) (2 ^ k) Hp).
    assert (0 <= from g / 2 ^ k) by (apply Z.div_pos; lia).
    assert (Hpow : 2 ^ b = 2 ^ (b - k) * 2 ^ k) by (rewrite <- Z.pow_add_r by lia; f_equal; lia).
    assert (from g / 2 ^ k < 2 ^ (b - k)) by (apply Z.div_lt_upper_bound; lia). nia.
  - split; [|done]. constructor; [lia|]. eapply Forall_impl; [exact Hs|]. intros x [E Hx]. lia.
Qed.

Lemma rev_fmap {A B} (f : A -> B) (l : list A) : rev (f <$> l) = f <$> rev l.
Proof. symmetry. apply map_rev. Qed.

Definition width (t : iptype) : Z := match t with ZBX_IPRANGE_V4 => 32 | ZBX_IPRANGE_V6 => 128 end.

(** Masks.  Applying a mask of [bits] bits to an address gives the network
    of that address: as numbers, the range is from the address with its low
    bits cleared to the one with these bits set, and the range is well formed
    (an IPv4 mask has at most 30 bits). *)
Theorem iprange_mask_correct r bits :
  length (range r) = 8%nat -> Forall (single (group_bits (type r))) (groups r) -> mask r = 1 ->
  0 <= bits <= match type r with ZBX_IPRANGE_V4 => 30 | ZBX_IPRANGE_V6 => 128 end ->
  exists r', iprange_apply_mask r bits = Ret r' /\ range_ok r' /\ type r' = type r /\ mask r' = mask r /\
    let number l := number_rev (group_bits (type r)) (rev l) in
    let low := 2 ^ (width (type r) - bits) in
    number (from <$> groups r') = number (from <$> groups r) / low * low /\
    number (to <$> groups r') = number (from <$> groups r) / low * low + (low - 1).
Proof.
  intros Hlen Hs Hmask Hbits. set (b := group_bits (type r)) in *. set (k := width (type r) - bits).
  assert (Hb : 0 < b <= 16) by (unfold b; by destruct (type r)).
  assert (Hgl : length (groups r) = groups_of (type r)) by (unfold groups; rewrite length_take, Hlen; by destruct (type r)).
  set (gs := rev (groups r)). assert (Hsr : Forall (single b) gs) by (unfold gs; by apply Forall_rev).
  assert (Hz : zlen gs = Z.of_nat (groups_of (type r))) by (unfold gs, zlen; by rewrite length_rev, Hgl).
  assert (Hk : 0 <= k <= b * zlen gs) by (rewrite Hz; unfold k, b; destruct (type r); cbn; lia).
  set (gs' := rev (mask_rev gs b k)). destruct (mask_rev_groups gs b k Hsr ltac:(lia)) as [Hgs' Hgl'].
  assert (Hrun : iprange_apply_mask r bits = Ret (IpRange (gs' ++ drop (groups_of (type r)) (range r)) (type r) (mask r))).
  { pose proof (mask_loop_ok gs (drop (groups_of (type r)) (range r)) b k Hsr Hb ltac:(lia)) as Hm.
    replace (length gs) with (groups_of (type r)) in Hm by (unfold gs; by rewrite length_rev).
    rewrite Hz in Hm. unfold gs in Hm at 1. rewrite rev_involutive in Hm. unfold groups in Hm. rewrite take_drop in Hm.
    unfold iprange_apply_mask, k, b in *. destruct (type r); cbn [groups_of group_bits width] in *.
    - change (Z.of_nat 4 - 1) with (4 - 1) in Hm. change (4 * 8) with 32. change (Z.to_nat 4) with 4%nat. by rewrite Hm.
    - change (Z.of_nat 8 - 1) with (8 - 1) in Hm. change (8 * 16) with 128. change (Z.to_nat 8) with 8%nat. by rewrite Hm. }
  eexists. split; [exact Hrun|]. set (r' := IpRange _ _ _).
  assert (Hg' : groups r' = gs').
  { unfold groups, r'. cbn [type range]. apply take_app_length'. unfold gs'. rewrite length_rev, Hgl'. unfold gs. by rewrite length_rev. }
  destruct (mask_rev_number gs b k Hsr ltac:(lia) Hk) as [Hnf Hnt].
  split; [|split; [done|split; [done|]]].
  - split; rewrite ?Hg'.
    + unfold r'. cbn [range]. rewrite length_app, length_drop, Hlen. unfold gs'. rewrite length_rev, Hgl'. unfold gs. rewrite length_rev, Hgl.
      by destruct (type r).
    + unfold gs', ordered. apply Forall_rev. eapply Forall_impl; [exact Hgs'|]. cbn. lia.
    + unfold gs'. apply Forall_rev. eapply Forall_impl; [exact Hgs'|]. cbn [type r']. fold b. intros x Hx. lia.
    + intros Hm. unfold masked, r' in Hm. cbn [type mask] in Hm. destruct (type r) eqn:Et; [|done]. cbn in Hz, Hbits.
      destruct gs as [|g0 gs0]; [done|]. unfold gs'. cbn [mask_rev]. rewrite (proj2 (Z.ltb_lt _ _)) by (unfold k; cbn; lia).
      cbn [rev]. eexists _, _. split; [done|]. cbn [from to]. apply Forall_cons in Hsr as [[Heq _] _]. rewrite <- Heq.
      assert (2 ^ 2 <= 2 ^ Z.min b k) by (apply Z.pow_le_mono_r; unfold b, k; cbn; lia). lia.
  - rewrite Hg'. cbv zeta. unfold gs'. rewrite !rev_fmap, !rev_involutive. fold gs. by rewrite Hnf, Hnt.
Qed.

(** ** Witnesses and examples *)

Definition bytes (s : string) : list Z := (fun c => Z.of_N (Ascii.N_of_ascii c)) <$> String.list_ascii_of_string s.

Definition blank : iprange := IpRange (replicate 8 (Range 0 0)) ZBX_IPRANGE_V6 0.

(** 10.0.0.0/30. *)
Definition net30 : iprange :=
  IpRange ([Range 10 10; Range 0 0; Range 0 0; Range 0 3] ++ replicate 4 (Range 0 0)) ZBX_IPRANGE_V4 1.

Lemma net30_ok : range_ok net30.
Proof.
  split; [done|apply (bool_decide_unpack _); vm_compute; exact I|apply (bool_decide_unpack _); vm_compute; exact I|].
  intros _. exists [Range 10 10; Range 0 0; Range 0 0], (Range 0 3). cbn. split; [done|lia].
Qed.

Lemma iprange_enumerates_witness : walk 5 net30 (zbx_iprange_first net30) = Ret [[10; 0; 0; 1]; [10; 0; 0; 2]].
Proof. apply (iprange_enumerates net30 5 net30_ok). vm_compute. repeat constructor. Defined.

Lemma iprange_volume_witness : zbx_iprange_volume net30 = 2.
Proof. rewrite (iprange_volume_correct net30 net30_ok). reflexivity. Defined.

Definition host77 : iprange :=
  IpRange ([Range 10 10; Range 0 0; Range 0 0; Range 77 77] ++ replicate 4 (Range 0 0)) ZBX_IPRANGE_V4 1.

Lemma iprange_mask_witness : exists r', iprange_apply_mask host77 30 = Ret r' /\ range_ok r'.
Proof.
  destruct (iprange_mask_correct host77 30) as (r' & H & Hok & _).
  - reflexivity.
  - apply (bool_decide_unpack _). vm_compute. exact I.
  - reflexivity.
  - cbn. lia.
  - exists r'. split; [exact H|exact Hok].
Defined.

Example parse_v4_mask : zbx_iprange_parse blank (bytes " 10.0.0.3/30 ") = Ret (Some net30).
Proof. vm_compute. reflexivity. Qed.

Example parse_v4_range :
  zbx_iprange_parse blank (bytes "192.168.0-2.1-254") =
    Ret (Some (IpRange ([Range 192 192; Range 168 168; Range 0 2; Range 1 254] ++ replicate 4 (Range 0 0)) ZBX_IPRANGE_V4 0)).
Proof. vm_compute. reflexivity. Qed.

Example parse_v6 :
  zbx_iprange_parse blank (bytes "fe80::1:a0-ff") =
    Ret (Some (IpRange ([Range 0xfe80 0xfe80] ++ replicate 5 (Range 0 0) ++ [Range 1 1; Range 0xa0 0xff]) ZBX_IPRANGE_V6 0)).
Proof. vm_compute. reflexivity. Qed.

(** Eight groups followed by :: are not refused: the parser writes a ninth
    group past the end of the array of the structure. *)
Theorem iprange_parse_overflow : zbx_iprange_parse blank (bytes "1:2:3:4:5:6:7:8::") = Halt BadAccess.
Proof. vm_compute. reflexivity. Qed.
