(* ===== verification/Shmem.v ===== *)
(** * Shared memory allocator (src/libs/zbxshmem/memalloc.c)

    The allocator of the shared memory segments in which the server keeps its
    caches.  A chunk is a size field, the memory given to the user and the
    size field again; bit 63 of the size marks a used chunk.  The first two
    words of a free chunk link it into the list of its size class.

    All accesses of the allocator are to 8-byte words at multiples of 8 from
    [lo_bound], so that the segment is modelled as its list of words between
    [lo_bound] and [hi_bound]; an access outside of them is a [BadAccess].
    Pointers are numbers, 0 is NULL.

    The ghost state of the proofs is the list of chunks of the segment in the
    order of their addresses: the memory of a well-formed allocator is exactly
    the concatenation of its chunks ([flatten]). *)
From S2P Require Import Prelude.
From stdpp Require Import prelude list gmap.
From Stdlib Require Import ZArith Lia.
#[local] Open Scope Z_scope.

Definition SHMEM_MIN_ALLOC : Z := 24.
Definition ZBX_SHMEM_MIN_BUCKET_SIZE : Z := SHMEM_MIN_ALLOC.
Definition SHMEM_MAX_BUCKET_SIZE : Z := 256.
Definition ZBX_SHMEM_BUCKET_COUNT : Z := (SHMEM_MAX_BUCKET_SIZE - ZBX_SHMEM_MIN_BUCKET_SIZE) / 8 + 1.
Definition ZBX_PTR_SIZE : Z := 8.
Definition SHMEM_SIZE_FIELD : Z := 8.
Definition SHMEM_FLG_USED : Z := Z.shiftl 1 63.
Definition SHMEM_MIN_SIZE : Z := 128.
Definition SHMEM_MAX_SIZE : Z := 0x1000000000.

Definition FREE_CHUNK (field : Z) : bool := Z.land field SHMEM_FLG_USED =? 0.
Definition CHUNK_SIZE (field : Z) : Z := Z.ldiff field SHMEM_FLG_USED.

Record shmem := Shmem {
  buckets : list Z; lo_bound : Z; hi_bound : Z;
  free_size : Z; used_size : Z; orig_size : Z; total_size : Z;
  allow_oom : Z; lock : bool; words : list Z }.

Definition set_words (s : shmem) (w : list Z) : shmem :=
  Shmem (buckets s) (lo_bound s) (hi_bound s) (free_size s) (used_size s) (orig_size s) (total_size s) (allow_oom s) (lock s) w.
Definition set_buckets (s : shmem) (b : list Z) : shmem :=
  Shmem b (lo_bound s) (hi_bound s) (free_size s) (used_size s) (orig_size s) (total_size s) (allow_oom s) (lock s) (words s).
Definition set_lock (s : shmem) (l : bool) : shmem :=
  Shmem (buckets s) (lo_bound s) (hi_bound s) (free_size s) (used_size s) (orig_size s) (total_size s) (allow_oom s) l (words s).

(** [info->used_size += du; info->free_size += df;] on 64-bit counters. *)
Definition add_sizes (s : shmem) (du df : Z) : shmem :=
  Shmem (buckets s) (lo_bound s) (hi_bound s) (u64 (free_size s + df)) (u64 (used_size s + du)) (orig_size s)
    (total_size s) (allow_oom s) (lock s) (words s).

(** The word at the address [p]. *)
Definition word_at (s : shmem) (p : Z) : option Z :=
  if (p - lo_bound s) mod 8 =? 0 then Some ((p - lo_bound s) / 8) else None.

Definition load (s : shmem) (p : Z) : res Z :=
  of_opt BadAccess (i ← word_at s p; zget (words s) i).

Definition store (s : shmem) (p v : Z) : res shmem :=
  i ← of_opt BadAccess (word_at s p);
  _ ← of_opt BadAccess (zget (words s) i);
  Ret (set_words s (zset (words s) i v)).

Definition get_bucket (s : shmem) (i : Z) : res Z := of_opt BadAccess (zget (buckets s) i).

Definition set_bucket (s : shmem) (i v : Z) : res shmem :=
  _ ← get_bucket s i; Ret (set_buckets s (zset (buckets s) i v)).

(** ** Helpers *)

Definition ALIGN4 (p : Z) : Z := Z.land (p + 3) (Z.lnot 3).
Definition ALIGN8 (p : Z) : Z := Z.land (p + 7) (Z.lnot 7).
Definition ALIGNPTR (p : Z) : res Z :=
  if ZBX_PTR_SIZE =? 4 then Ret (ALIGN4 p) else if ZBX_PTR_SIZE =? 8 then Ret (ALIGN8 p) else Halt AssertFail.

Definition mem_proper_alloc_size (size : Z) : Z :=
  if size >=? SHMEM_MIN_ALLOC then size + Z.land (8 - Z.land size 7) 7 else SHMEM_MIN_ALLOC.

Definition mem_bucket_by_size (size : Z) : Z :=
  if size <? ZBX_SHMEM_MIN_BUCKET_SIZE then 0
  else if size <? SHMEM_MAX_BUCKET_SIZE then Z.shiftr (size - ZBX_SHMEM_MIN_BUCKET_SIZE) 3
  else ZBX_SHMEM_BUCKET_COUNT - 1.

Definition mem_set_chunk_size (s : shmem) (chunk size : Z) : res shmem :=
  s ← store s chunk size; store s (chunk + SHMEM_SIZE_FIELD + size) size.

Definition mem_set_used_chunk_size (s : shmem) (chunk size : Z) : res shmem :=
  s ← store s chunk (Z.lor SHMEM_FLG_USED size);
  store s (chunk + SHMEM_SIZE_FIELD + size) (Z.lor SHMEM_FLG_USED size).

Definition mem_get_prev_chunk (s : shmem) (chunk : Z) : res Z := load s (chunk + SHMEM_SIZE_FIELD).
Definition mem_set_prev_chunk (s : shmem) (chunk prev : Z) : res shmem := store s (chunk + SHMEM_SIZE_FIELD) prev.
Definition mem_get_next_chunk (s : shmem) (chunk : Z) : res Z := load s (chunk + SHMEM_SIZE_FIELD + ZBX_PTR_SIZE).
Definition mem_set_next_chunk (s : shmem) (chunk next : Z) : res shmem :=
  store s (chunk + SHMEM_SIZE_FIELD + ZBX_PTR_SIZE) next.

Definition chunk_size_of (s : shmem) (p : Z) : res Z := f ← load s p; Ret (CHUNK_SIZE f).

Definition mem_link_chunk (s : shmem) (chunk : Z) : res shmem :=
  size ← chunk_size_of s chunk;
  let index := mem_bucket_by_size size in
  first ← get_bucket s index;
  s ← (if first =? 0 then Ret s else mem_set_prev_chunk s first chunk);
  s ← mem_set_prev_chunk s chunk 0;
  s ← mem_set_next_chunk s chunk first;
  set_bucket s index chunk.

(** The places [next_in_prev_chunk] and [prev_in_next_chunk] point to are the
    next field of the previous chunk, or the bucket, and the previous field of
    the next chunk, if there is one. *)
Definition mem_unlink_chunk (s : shmem) (chunk : Z) : res shmem :=
  size ← chunk_size_of s chunk;
  let index := mem_bucket_by_size size in
  prev_chunk ← mem_get_prev_chunk s chunk;
  next_chunk ← mem_get_next_chunk s chunk;
  s ← (if prev_chunk =? 0 then set_bucket s index next_chunk else mem_set_next_chunk s prev_chunk next_chunk);
  if next_chunk =? 0 then Ret s else mem_set_prev_chunk s next_chunk prev_chunk.

(** ** Allocation *)

Fixpoint find_bucket (fuel : nat) (s : shmem) (index : Z) : res Z :=
  match fuel with
  | O => Halt OutOfFuel
  | S fuel =>
      if index <? ZBX_SHMEM_BUCKET_COUNT - 1 then
        first ← get_bucket s index;
        if first =? 0 then find_bucket fuel s (index + 1) else Ret index
      else Ret index
  end.

Fixpoint first_fit (fuel : nat) (s : shmem) (chunk size : Z) : res Z :=
  match fuel with
  | O => Halt OutOfFuel
  | S fuel =>
      if chunk =? 0 then Ret 0
      else
        chunk_size ← chunk_size_of s chunk;
        if chunk_size <? size then chunk ← mem_get_next_chunk s chunk; first_fit fuel s chunk size
        else Ret chunk
  end.

(** Cuts [size] bytes off the chunk that ends with the rest, which becomes a
    free chunk. *)
Definition split_chunk (s : shmem) (chunk size new_chunk_size : Z) : res shmem :=
  let new_chunk := chunk + SHMEM_SIZE_FIELD + size + SHMEM_SIZE_FIELD in
  s ← mem_set_chunk_size s new_chunk new_chunk_size;
  mem_link_chunk s new_chunk.

(** Either use the full chunk or split it. *)
Definition use_or_split (s : shmem) (chunk chunk_size size : Z) : res shmem :=
  if chunk_size <? size + 2 * SHMEM_SIZE_FIELD + SHMEM_MIN_ALLOC then
    mem_set_used_chunk_size (add_sizes s chunk_size (- chunk_size)) chunk chunk_size
  else
    let new_chunk_size := chunk_size - size - 2 * SHMEM_SIZE_FIELD in
    s ← split_chunk s chunk size new_chunk_size;
    mem_set_used_chunk_size (add_sizes s size (- chunk_size + new_chunk_size)) chunk size.

Definition mem_malloc (s : shmem) (size : Z) : res (shmem * Z) :=
  let size := mem_proper_alloc_size size in
  index ← find_bucket (Z.to_nat ZBX_SHMEM_BUCKET_COUNT) s (mem_bucket_by_size size);
  chunk ← get_bucket s index;
  chunk ← (if index =? ZBX_SHMEM_BUCKET_COUNT - 1 then first_fit (S (length (words s))) s chunk size else Ret chunk);
  if chunk =? 0 then Ret (s, 0)
  else
    chunk_size ← chunk_size_of s chunk;
    s ← mem_unlink_chunk s chunk;
    s ← use_or_split s chunk chunk_size size;
    Ret (s, chunk).

(** ** Freeing *)

Definition prev_is_free (s : shmem) (chunk : Z) : res bool :=
  if lo_bound s <? chunk then f ← load s (chunk - SHMEM_SIZE_FIELD); Ret (FREE_CHUNK f) else Ret false.

Definition next_is_free (s : shmem) (next_chunk : Z) : res bool :=
  if next_chunk <? hi_bound s then f ← load s next_chunk; Ret (FREE_CHUNK f) else Ret false.

Definition prev_chunk_of (s : shmem) (chunk : Z) : res Z :=
  size ← chunk_size_of s (chunk - SHMEM_SIZE_FIELD); Ret (chunk - SHMEM_SIZE_FIELD - size - SHMEM_SIZE_FIELD).

(** The four cases of [mem_free]. *)
Definition merge_both (s : shmem) (chunk chunk_size next_chunk : Z) : res shmem :=
  let s := add_sizes s 0 (4 * SHMEM_SIZE_FIELD) in
  prev_chunk ← prev_chunk_of s chunk;
  prev_size ← chunk_size_of s prev_chunk;
  next_size ← chunk_size_of s next_chunk;
  let chunk_size := chunk_size + 4 * SHMEM_SIZE_FIELD + prev_size + next_size in
  s ← mem_unlink_chunk s prev_chunk;
  s ← mem_unlink_chunk s next_chunk;
  s ← mem_set_chunk_size s prev_chunk chunk_size;
  mem_link_chunk s prev_chunk.

Definition merge_prev (s : shmem) (chunk chunk_size : Z) : res shmem :=
  let s := add_sizes s 0 (2 * SHMEM_SIZE_FIELD) in
  prev_chunk ← prev_chunk_of s chunk;
  prev_size ← chunk_size_of s prev_chunk;
  let chunk_size := chunk_size + 2 * SHMEM_SIZE_FIELD + prev_size in
  s ← mem_unlink_chunk s prev_chunk;
  s ← mem_set_chunk_size s prev_chunk chunk_size;
  mem_link_chunk s prev_chunk.

Definition merge_next (s : shmem) (chunk chunk_size next_chunk : Z) : res shmem :=
  let s := add_sizes s 0 (2 * SHMEM_SIZE_FIELD) in
  next_size ← chunk_size_of s next_chunk;
  let chunk_size := chunk_size + 2 * SHMEM_SIZE_FIELD + next_size in
  s ← mem_unlink_chunk s next_chunk;
  s ← mem_set_chunk_size s chunk chunk_size;
  mem_link_chunk s chunk.

Definition merge_none (s : shmem) (chunk chunk_size : Z) : res shmem :=
  s ← mem_set_chunk_size s chunk chunk_size;
  mem_link_chunk s chunk.

Definition mem_free (s : shmem) (ptr : Z) : res shmem :=
  let chunk := ptr - SHMEM_SIZE_FIELD in
  chunk_size ← chunk_size_of s chunk;
  let s := add_sizes s (- chunk_size) chunk_size in
  let next_chunk := chunk + SHMEM_SIZE_FIELD + chunk_size + SHMEM_SIZE_FIELD in
  prev_free ← prev_is_free s chunk;
  next_free ← next_is_free s next_chunk;
  match prev_free, next_free with
  | true, true => merge_both s chunk chunk_size next_chunk
  | true, false => merge_prev s chunk chunk_size
  | false, true => merge_next s chunk chunk_size next_chunk
  | false, false => merge_none s chunk chunk_size
  end.

(** ** Reallocation *)

Fixpoint load_words (n : nat) (s : shmem) (p : Z) : res (list Z) :=
  match n with
  | O => Ret []
  | S n => w ← load s p; ws ← load_words n s (p + 8); Ret (w :: ws)
  end.

Fixpoint store_words (s : shmem) (p : Z) (ws : list Z) : res shmem :=
  match ws with
  | [] => Ret s
  | w :: ws => s ← store s p w; store_words s (p + 8) ws
  end.

(** [memcpy] of [len] bytes, a multiple of 8, out of and into the segment. *)
Definition copy_out (s : shmem) (p len : Z) : res (list Z) := load_words (Z.to_nat (len / 8)) s p.

(** The new size fits into the chunk. *)
Definition realloc_smaller (s : shmem) (chunk chunk_size size next_chunk : Z) (next_free : bool) : res (shmem * Z) :=
  if size >? chunk_size / 4 then Ret (s, chunk)
  else if next_free then
    let s := add_sizes s (- (chunk_size - size)) (chunk_size - size) in
    next_size ← chunk_size_of s next_chunk;
    let new_chunk_size := next_size + (chunk_size - size) in
    s ← mem_unlink_chunk s next_chunk;
    s ← (s ← split_chunk s chunk size new_chunk_size; mem_set_used_chunk_size s chunk size);
    Ret (s, chunk)
  else
    let s := add_sizes s (- (chunk_size - size)) (chunk_size - size - 2 * SHMEM_SIZE_FIELD) in
    let new_chunk_size := chunk_size - size - 2 * SHMEM_SIZE_FIELD in
    s ← (s ← split_chunk s chunk size new_chunk_size; mem_set_used_chunk_size s chunk size);
    Ret (s, chunk).

(** The next chunk is free and gives enough room. *)
Definition realloc_grow (s : shmem) (chunk chunk_size size next_chunk next_size : Z) : res (shmem * Z) :=
  let s := add_sizes s (- chunk_size) (chunk_size + 2 * SHMEM_SIZE_FIELD) in
  let chunk_size := chunk_size + (2 * SHMEM_SIZE_FIELD + next_size) in
  s ← mem_unlink_chunk s next_chunk;
  s ← use_or_split s chunk chunk_size size;
  Ret (s, chunk).

(** The block is moved, if need be after freeing it: [next_room] is what the
    next chunk adds then. *)
Definition realloc_move (s : shmem) (old chunk chunk_size size next_room : Z) : res (shmem * Z) :=
  '(s, new_chunk) ← mem_malloc s size;
  if negb (new_chunk =? 0) then
    data ← copy_out s (chunk + SHMEM_SIZE_FIELD) chunk_size;
    s ← store_words s (new_chunk + SHMEM_SIZE_FIELD) data;
    s ← mem_free s old;
    Ret (s, new_chunk)
  else
    let new_chunk_size := chunk_size + next_room in
    prev_free ← prev_is_free s chunk;
    prev_size ← (if prev_free : bool then chunk_size_of s (chunk - SHMEM_SIZE_FIELD) else Ret 0);
    let new_chunk_size := new_chunk_size + (if prev_free : bool then prev_size + 2 * SHMEM_SIZE_FIELD else 0) in
    if size >? new_chunk_size then Ret (s, 0)
    else
      tmp ← copy_out s (chunk + SHMEM_SIZE_FIELD) chunk_size;
      s ← mem_free s old;
      '(s, new_chunk) ← mem_malloc s size;
      if new_chunk =? 0 then Halt ExitFailure
      else
        s ← store_words s (new_chunk + SHMEM_SIZE_FIELD) tmp;
        Ret (s, new_chunk).

Definition mem_realloc (s : shmem) (old size : Z) : res (shmem * Z) :=
  let size := mem_proper_alloc_size size in
  let chunk := old - SHMEM_SIZE_FIELD in
  chunk_size ← chunk_size_of s chunk;
  let next_chunk := chunk + SHMEM_SIZE_FIELD + chunk_size + SHMEM_SIZE_FIELD in
  next_free ← next_is_free s next_chunk;
  if size <=? chunk_size then realloc_smaller s chunk chunk_size size next_chunk next_free
  else if next_free : bool then
    next_size ← chunk_size_of s next_chunk;
    if chunk_size + 2 * SHMEM_SIZE_FIELD + next_size >=? size then realloc_grow s chunk chunk_size size next_chunk next_size
    else realloc_move s old chunk chunk_size size (next_size + 2 * SHMEM_SIZE_FIELD)
  else realloc_move s old chunk chunk_size size 0.

(** ** Public interface *)

Definition lock_block (s : shmem) : res shmem := if lock s then Halt Deadlock else Ret (set_lock s true).
Definition lock_unlock (s : shmem) : shmem := set_lock s false.

(** One big chunk: the last lines of [zbx_shmem_create], and [zbx_shmem_clear]. *)
Definition one_chunk (s : shmem) : res shmem :=
  let index := mem_bucket_by_size (total_size s) in
  s ← set_bucket s index (lo_bound s);
  s ← mem_set_chunk_size s (lo_bound s) (total_size s);
  s ← mem_set_prev_chunk s (lo_bound s) 0;
  s ← mem_set_next_chunk s (lo_bound s) 0;
  Ret (Shmem (buckets s) (lo_bound s) (hi_bound s) (total_size s) 0 (orig_size s) (total_size s) (allow_oom s) (lock s) (words s)).

Definition sizeof_shmem_info : Z := 128.

(** [base] is the result of [shmat] ([None] when a system call failed),
    [descr] and [param] are the lengths of the two strings.  A new segment is
    filled with zeros. *)
Definition zbx_shmem_create (base : option Z) (size descr param oom : Z) : res (option shmem) :=
  if negb (ZBX_PTR_SIZE =? 4) && negb (ZBX_PTR_SIZE =? 8) then Ret None
  else if negb ((SHMEM_MIN_SIZE <=? size) && (size <=? SHMEM_MAX_SIZE)) then Ret None
  else match base with
  | None => Ret None
  | Some base =>
      let orig := size in
      let info := ALIGN8 base in
      let size := u64 (size - (info + sizeof_shmem_info - base)) in
      let base := info + sizeof_shmem_info in
      bs ← ALIGNPTR base;
      let buckets_end := bs + ZBX_SHMEM_BUCKET_COUNT * ZBX_PTR_SIZE in
      let size := u64 (size - (buckets_end - base)) in
      let base := buckets_end in
      let size := u64 (size - (descr + 1)) in
      let base := base + descr + 1 in
      let size := u64 (size - (param + 1)) in
      let base := base + param + 1 in
      let lo := ALIGN8 base in
      let hi := ALIGN8 (u64 (base + size - 8)) in
      let total := u64 (hi - lo - 2 * SHMEM_SIZE_FIELD) in
      s ← one_chunk (Shmem (replicate (Z.to_nat ZBX_SHMEM_BUCKET_COUNT) 0) lo hi 0 0 orig total oom false
                       (replicate (Z.to_nat ((hi - lo) / 8)) 0));
      Ret (Some s)
  end.

Definition zbx_shmem_create_min (base : option Z) (size descr param oom : Z) : res (option shmem) :=
  bs ← ALIGNPTR (0 + sizeof_shmem_info);
  let overhead := ALIGN8 (bs + ZBX_SHMEM_BUCKET_COUNT * ZBX_PTR_SIZE + descr + 1 + param + 1) in
  zbx_shmem_create base (u64 (size + overhead + 8 + 2 * SHMEM_SIZE_FIELD)) descr param oom.

Definition bad_size (size : Z) : bool := (size =? 0) || (size >? SHMEM_MAX_SIZE).

(** What the public functions return for the chunk the private ones return. *)
Definition user_ptr (s : shmem) (chunk : Z) : res (shmem * Z) :=
  if chunk =? 0 then if allow_oom s =? 1 then Ret (s, 0) else Halt ExitFailure
  else Ret (s, chunk + SHMEM_SIZE_FIELD).

Definition zbx_shmem_malloc (s : shmem) (old size : Z) : res (shmem * Z) :=
  if negb (old =? 0) then Halt ExitFailure
  else if bad_size size then Halt ExitFailure
  else
    s ← lock_block s;
    '(s, chunk) ← mem_malloc s size;
    user_ptr (lock_unlock s) chunk.

Definition zbx_shmem_realloc (s : shmem) (old size : Z) : res (shmem * Z) :=
  if bad_size size then Halt ExitFailure
  else
    s ← lock_block s;
    '(s, chunk) ← (if old =? 0 then mem_malloc s size else mem_realloc s old size);
    user_ptr (lock_unlock s) chunk.

Definition zbx_shmem_free (s : shmem) (ptr : Z) : res shmem :=
  if ptr =? 0 then Halt ExitFailure
  else s ← lock_block s; s ← mem_free s ptr; Ret (lock_unlock s).

Definition zbx_shmem_clear (s : shmem) : res shmem :=
  s ← lock_block s;
  s ← one_chunk (set_buckets s (replicate (Z.to_nat ZBX_SHMEM_BUCKET_COUNT) 0));
  Ret (lock_unlock s).

Record stats := Stats {
  st_free_size : Z; st_used_size : Z; st_min : Z; st_max : Z; st_overhead : Z;
  st_chunks_num : list Z; st_free_chunks : Z; st_used_chunks : Z }.

(** The chunks of one bucket: how many, the least and the greatest size. *)
Fixpoint bucket_stats (fuel : nat) (s : shmem) (chunk counter mn mx : Z) : res (Z * Z * Z) :=
  match fuel with
  | O => Halt OutOfFuel
  | S fuel =>
      if chunk =? 0 then Ret (counter, mn, mx)
      else
        size ← chunk_size_of s chunk;
        next ← mem_get_next_chunk s chunk;
        bucket_stats fuel s next (u64 (counter + 1)) (Z.min mn size) (Z.max mx size)
  end.

Fixpoint all_stats (bs : list Z) (s : shmem) (mn mx free : Z) (nums : list Z) : res (Z * Z * Z * list Z) :=
  match bs with
  | [] => Ret (mn, mx, free, nums)
  | b :: bs =>
      '(counter, mn, mx) ← bucket_stats (S (length (words s))) s b 0 mn mx;
      all_stats bs s mn mx (u32 (free + counter)) (nums ++ [u32 counter])
  end.

Definition zbx_shmem_get_stats (s : shmem) : res (shmem * stats) :=
  s ← lock_block s;
  '(mn, mx, free, nums) ← all_stats (buckets s) s 0xffffffffffffffff 0 0 [];
  let s := lock_unlock s in
  let overhead := u64 (total_size s - used_size s - free_size s) in
  Ret (s, Stats (free_size s) (used_size s) mn mx overhead nums free
            (u32 (overhead / (2 * SHMEM_SIZE_FIELD) + 1 - free))).

Definition zbx_shmem_required_size (chunks_num descr param : Z) : Z :=
  u64 (7 + sizeof_shmem_info + (ZBX_PTR_SIZE - 1) + ZBX_PTR_SIZE * ZBX_SHMEM_BUCKET_COUNT + (descr + 1) + (param + 1) +
       (SHMEM_SIZE_FIELD - 1 + 8) + (SHMEM_SIZE_FIELD - 1 + 8) +
       (chunks_num - 1) * SHMEM_SIZE_FIELD * 2 + chunks_num * (SHMEM_MIN_ALLOC - 1)).

Definition zbx_shmem_required_chunk_size (size : Z) : Z :=
  if size =? 0 then 0 else u64 (mem_proper_alloc_size size + SHMEM_SIZE_FIELD * 2).

(** ** Chunks *)

Record chunk := Chunk { hd : Z; body : list Z; ft : Z }.

Definition cwords (c : chunk) : list Z := hd c :: body c ++ [ft c].
Definition flatten (cs : list chunk) : list Z := concat (cwords <$> cs).
Definition csize (c : chunk) : Z := 8 * zlen (body c).
Definition spans (cs : list chunk) : Z := 8 * zlen (flatten cs).
Definition is_free (c : chunk) : bool := FREE_CHUNK (hd c).

(** The chunk at the address [p] when the first one is at [a]. *)
Fixpoint at_ (a : Z) (cs : list chunk) (p : Z) : option chunk :=
  match cs with
  | [] => None
  | c :: cs => if p =? a then Some c else at_ (a + (16 + csize c)) cs p
  end.

Fixpoint upd (a : Z) (p : Z) (d : chunk) (cs : list chunk) : list chunk :=
  match cs with
  | [] => []
  | c :: cs => if p =? a then d :: cs else c :: upd (a + (16 + csize c)) p d cs
  end.

Lemma csize_nonneg c : 0 <= csize c.
Proof. unfold csize. pose proof (zlen_nonneg (body c)). lia. Qed.

Lemma flatten_app l1 l2 : flatten (l1 ++ l2) = flatten l1 ++ flatten l2.
Proof. unfold flatten. by rewrite fmap_app, concat_app. Qed.

Lemma flatten_cons c cs : flatten (c :: cs) = cwords c ++ flatten cs.
Proof. done. Qed.

Lemma zlen_cwords c : 8 * zlen (cwords c) = 16 + csize c.
Proof. unfold cwords, csize. lens. Qed.

Lemma spans_app l1 l2 : spans (l1 ++ l2) = spans l1 + spans l2.
Proof. unfold spans. rewrite flatten_app, zlen_app. lia. Qed.

Lemma spans_cons c cs : spans (c :: cs) = 16 + csize c + spans cs.
Proof. unfold spans. rewrite flatten_cons, zlen_app. pose proof (zlen_cwords c). lia. Qed.

Lemma spans_nil : spans [] = 0.
Proof. done. Qed.

Lemma spans_nonneg cs : 0 <= spans cs.
Proof. unfold spans. pose proof (zlen_nonneg (flatten cs)). lia. Qed.

Lemma at_range a cs p c : at_ a cs p = Some c -> a <= p /\ p + 16 + csize c <= a + spans cs.
Proof.
  revert a. induction cs as [|d cs IH]; intros a; [done|]. cbn [at_]. rewrite spans_cons.
  pose proof (csize_nonneg d). pose proof (spans_nonneg cs). destruct (Z.eqb_spec p a) as [->|].
  - intros [= ->]. lia.
  - intros H'%IH. lia.
Qed.

Lemma at_app a l1 l2 p :
  at_ a (l1 ++ l2) p = match at_ a l1 p with Some c => Some c | None => at_ (a + spans l1) l2 p end.
Proof.
  revert a. induction l1 as [|d l1 IH]; intros a; cbn [at_ app]; [by rewrite spans_nil, Z.add_0_r|].
  destruct (p =? a); [done|]. rewrite IH, spans_cons. by rewrite (Z.add_assoc a (16 + csize d)).
Qed.

Lemma at_None a cs p : p < a \/ a + spans cs <= p -> at_ a cs p = None.
Proof.
  intros H. destruct (at_ a cs p) as [c|] eqn:E; [|done]. apply at_range in E. pose proof (csize_nonneg c). lia.
Qed.

Lemma at_middle a l1 c l2 : at_ a (l1 ++ c :: l2) (a + spans l1) = Some c.
Proof. rewrite at_app, at_None by lia. cbn [at_]. by rewrite Z.eqb_refl. Qed.

Lemma at_split a cs p c :
  at_ a cs p = Some c -> exists l1 l2, cs = l1 ++ c :: l2 /\ p = a + spans l1.
Proof.
  revert a. induction cs as [|d cs IH]; intros a; [done|]. cbn [at_]. destruct (Z.eqb_spec p a) as [->|].
  - intros [= ->]. exists [], cs. rewrite spans_nil. split; [done|lia].
  - intros (l1 & l2 & -> & ->)%IH. exists (d :: l1), l2. rewrite spans_cons. split; [done|lia].
Qed.

(** Two chunks do not overlap. *)
Lemma at_disjoint a cs p q c d :
  at_ a cs p = Some c -> at_ a cs q = Some d -> p < q -> p + 16 + csize c <= q.
Proof.
  intros (l1 & l2 & -> & ->)%at_split H Hlt. rewrite at_app in H. pose proof (csize_nonneg c).
  destruct (at_ a l1 q) eqn:E.
  - apply at_range in E. pose proof (csize_nonneg c0). lia.
  - cbn [at_] in H. destruct (Z.eqb_spec q (a + spans l1)); [lia|]. apply at_range in H. lia.
Qed.

Lemma upd_split a l1 c l2 d : upd a (a + spans l1) d (l1 ++ c :: l2) = l1 ++ d :: l2.
Proof.
  revert a. induction l1 as [|e l1 IH]; intros a; cbn [upd app].
  - by rewrite spans_nil, Z.add_0_r, Z.eqb_refl.
  - rewrite spans_cons. pose proof (csize_nonneg e). pose proof (spans_nonneg l1).
    destruct (Z.eqb_spec (a + (16 + csize e + spans l1)) a); [lia|].
    rewrite (Z.add_assoc a (16 + csize e)), IH. done.
Qed.

Lemma at_upd a p d cs c q :
  at_ a cs p = Some c -> csize d = csize c -> at_ a (upd a p d cs) q = if q =? p then Some d else at_ a cs q.
Proof.
  intros Hp Hd. revert a Hp. induction cs as [|e cs IH]; intros a; cbn [upd at_]; [done|].
  destruct (Z.eqb_spec p a) as [->|Hp]; cbn [at_].
  - intros [= ->]. rewrite Hd. by destruct (Z.eqb_spec q a).
  - intros H. rewrite (IH _ H). destruct (Z.eqb_spec q p), (Z.eqb_spec q a); try done. lia.
Qed.

(** ** Words of the segment *)

Lemma word_split s l x r : words s = l ++ x :: r -> word_at s (lo_bound s + 8 * zlen l) = Some (zlen l) /\ zget (words s) (zlen l) = Some x.
Proof.
  intros Hw. unfold word_at. replace (lo_bound s + 8 * zlen l - lo_bound s) with (zlen l * 8) by lia.
  rewrite Z.mod_mul, Z.div_mul by lia. split; [done|]. apply zget_Some. rewrite to_nat_zlen, Hw.
  split; [apply zlen_nonneg|]. by apply list_lookup_middle.
Qed.

Lemma load_split s l x r : words s = l ++ x :: r -> load s (lo_bound s + 8 * zlen l) = Ret x.
Proof. intros Hw. destruct (word_split s l x r Hw) as [H1 H2]. unfold load. rewrite H1. cbn. by rewrite H2. Qed.

Lemma store_split s l x r v :
  words s = l ++ x :: r -> store s (lo_bound s + 8 * zlen l) v = Ret (set_words s (l ++ v :: r)).
Proof.
  intros Hw. destruct (word_split s l x r Hw) as [H1 H2]. unfold store. rewrite H1. cbn. rewrite H2. cbn. do 2 f_equal.
  unfold zset. rewrite (proj2 (Z.ltb_ge _ _)) by apply zlen_nonneg. rewrite to_nat_zlen, Hw.
  rewrite insert_app_r_alt, Nat.sub_diag by done. done.
Qed.

Section accesses.
Variables (s : shmem) (cs : list chunk).
Hypothesis Hw : words s = flatten cs.

Lemma chunk_load p c l x r :
  at_ (lo_bound s) cs p = Some c -> cwords c = l ++ x :: r -> load s (p + 8 * zlen l) = Ret x.
Proof using Hw.
  intros (l1 & l2 & E & ->)%at_split Hc. rewrite E, flatten_app, flatten_cons, Hc in Hw.
  replace (lo_bound s + spans l1 + 8 * zlen l) with (lo_bound s + 8 * zlen (flatten l1 ++ l)) by (rewrite zlen_app; unfold spans; lia).
  eapply load_split. rewrite Hw, <- !(assoc_L (++)). done.
Qed.

Lemma chunk_store p c d l x r v :
  at_ (lo_bound s) cs p = Some c -> cwords c = l ++ x :: r -> cwords d = l ++ v :: r ->
  store s (p + 8 * zlen l) v = Ret (set_words s (flatten (upd (lo_bound s) p d cs))).
Proof using Hw.
  intros (l1 & l2 & E & ->)%at_split Hc Hd. rewrite E, flatten_app, flatten_cons, Hc in Hw. rewrite E, upd_split.
  replace (lo_bound s + spans l1 + 8 * zlen l) with (lo_bound s + 8 * zlen (flatten l1 ++ l)) by (rewrite zlen_app; unfold spans; lia).
  erewrite store_split.
  2: rewrite Hw, <- !(assoc_L (++)); done.
  do 2 f_equal. rewrite flatten_app, flatten_cons, Hd, <- !(assoc_L (++)). done.
Qed.

Lemma load_hd p c : at_ (lo_bound s) cs p = Some c -> load s p = Ret (hd c).
Proof using Hw. intros H. pose proof (chunk_load p c [] _ _ H eq_refl) as E. by rewrite (zlen_nil (A:=Z)), Z.mul_0_r, Z.add_0_r in E. Qed.

Lemma load_ft p c : at_ (lo_bound s) cs p = Some c -> load s (p + 8 + csize c) = Ret (ft c).
Proof using Hw.
  intros H. pose proof (chunk_load p c (hd c :: body c) _ [] H eq_refl) as E. rewrite <- E. f_equal.
  rewrite zlen_cons. unfold csize. lia.
Qed.

Lemma load_links p c x y r :
  at_ (lo_bound s) cs p = Some c -> body c = x :: y :: r -> mem_get_prev_chunk s p = Ret x /\ mem_get_next_chunk s p = Ret y.
Proof using Hw.
  intros H Hb. unfold mem_get_prev_chunk, mem_get_next_chunk, SHMEM_SIZE_FIELD, ZBX_PTR_SIZE.
  assert (Hc : cwords c = hd c :: x :: y :: r ++ [ft c]) by (unfold cwords; by rewrite Hb). split.
  - exact (chunk_load p c [hd c] x _ H Hc).
  - rewrite <- Z.add_assoc. exact (chunk_load p c [hd c; x] y _ H Hc).
Qed.

Lemma store_links p c x y r v :
  at_ (lo_bound s) cs p = Some c -> body c = x :: y :: r ->
  mem_set_prev_chunk s p v = Ret (set_words s (flatten (upd (lo_bound s) p (Chunk (hd c) (v :: y :: r) (ft c)) cs))) /\
  mem_set_next_chunk s p v = Ret (set_words s (flatten (upd (lo_bound s) p (Chunk (hd c) (x :: v :: r) (ft c)) cs))).
Proof using Hw.
  intros H Hb. unfold mem_set_prev_chunk, mem_set_next_chunk, SHMEM_SIZE_FIELD, ZBX_PTR_SIZE.
  assert (Hc : cwords c = hd c :: x :: y :: r ++ [ft c]) by (unfold cwords; by rewrite Hb). split.
  - exact (chunk_store p c (Chunk (hd c) (v :: y :: r) (ft c)) [hd c] x _ v H Hc eq_refl).
  - rewrite <- Z.add_assoc. exact (chunk_store p c (Chunk (hd c) (x :: v :: r) (ft c)) [hd c; x] y _ v H Hc eq_refl).
Qed.

End accesses.

(** ** Free lists

    [ls] holds, for each bucket, the addresses of its chunks in the order of
    the list. *)

Definition first_of (ns : list Z) : Z := match ns with [] => 0 | p :: _ => p end.

Definition linked (a : Z) (cs : list chunk) (p prev next : Z) : Prop :=
  exists c r, at_ a cs p = Some c /\ is_free c = true /\ body c = prev :: next :: r.

Fixpoint dlist (a : Z) (cs : list chunk) (prev : Z) (ns : list Z) : Prop :=
  match ns with
  | [] => True
  | p :: ns => linked a cs p prev (first_of ns) /\ dlist a cs p ns
  end.

(** The chunks of two lists are the same up to the contents of free ones. *)
Definition fsim (c d : chunk) : Prop :=
  hd d = hd c /\ ft d = ft c /\ length (body d) = length (body c) /\ (is_free c = false -> d = c).

Record links (s : shmem) (cs : list chunk) (ls : list (list Z)) : Prop := {
  ln_words : words s = flatten cs;
  ln_lo : 0 < lo_bound s;
  ln_buckets : buckets s = first_of <$> ls;
  ln_lists : Forall (dlist (lo_bound s) cs 0) ls;
  ln_nodup : NoDup (concat ls) }.

(** What link and unlink leave as it is. *)
Definition meta (s : shmem) : Z * Z * Z * Z * Z * Z * Z * bool :=
  (lo_bound s, hi_bound s, free_size s, used_size s, orig_size s, total_size s, allow_oom s, lock s).

Lemma fsim_refl c : fsim c c.
Proof. done. Qed.

Lemma fsim_csize c d : fsim c d -> csize d = csize c.
Proof. intros (_ & _ & H & _). unfold csize, zlen. by rewrite H. Qed.

Lemma fsim_all_refl cs : Forall2 fsim cs cs.
Proof. induction cs; by constructor. Qed.

Lemma fsim_trans c d e : fsim c d -> fsim d e -> fsim c e.
Proof.
  intros (H1 & H2 & H3 & H4) (G1 & G2 & G3 & G4). unfold fsim, is_free in *. split_and!; try congruence.
  intros Hf. rewrite G4, H4; congruence.
Qed.

Lemma fsim_all_trans cs ds es : Forall2 fsim cs ds -> Forall2 fsim ds es -> Forall2 fsim cs es.
Proof. intros H. revert es. induction H; intros es G; inversion G; subst; constructor; eauto using fsim_trans. Qed.

Lemma fsim_spans cs ds : Forall2 fsim cs ds -> spans ds = spans cs.
Proof. induction 1 as [|c d cs ds H _ IH]; [done|]. by rewrite !spans_cons, IH, (fsim_csize c d). Qed.

Lemma fsim_at a cs ds p c : Forall2 fsim cs ds -> at_ a cs p = Some c -> exists d, at_ a ds p = Some d /\ fsim c d.
Proof.
  intros H. revert a. induction H as [|c' d' cs ds H _ IH]; intros a; cbn [at_]; [done|].
  destruct (p =? a); [intros [= <-]; eauto|]. rewrite (fsim_csize _ _ H). apply IH.
Qed.

Lemma fsim_upd a p c d cs : at_ a cs p = Some c -> fsim c d -> Forall2 fsim cs (upd a p d cs).
Proof.
  intros (l1 & l2 & -> & ->)%at_split H. rewrite upd_split. apply Forall2_app; [apply fsim_all_refl|].
  constructor; [done|apply fsim_all_refl].
Qed.

Lemma linked_body a cs p prev next : linked a cs p prev next -> exists c, at_ a cs p = Some c /\ is_free c = true.
Proof. intros (c & r & ? & ? & _). eauto. Qed.

Lemma dlist_free a cs prev ns p : dlist a cs prev ns -> p ∈ ns -> exists c, at_ a cs p = Some c /\ is_free c = true.
Proof.
  revert prev. induction ns as [|q ns IH]; intros prev; [by intros _ ?%not_elem_of_nil|].
  intros [H1 H2] [->|H]%elem_of_cons; [by eapply linked_body|eauto].
Qed.

(** A list is not affected by changes of other chunks. *)
Lemma dlist_frame a cs ds prev ns :
  (forall p, p ∈ ns -> at_ a ds p = at_ a cs p) -> dlist a cs prev ns -> dlist a ds prev ns.
Proof.
  revert prev. induction ns as [|q ns IH]; intros prev Hf; [done|]. intros [(c & r & ? & ? & ?) H2]. split.
  - exists c, r. rewrite Hf by (by left). done.
  - apply IH; [intros p Hp; apply Hf; by right|done].
Qed.

Lemma dlist_upd a cs prev ns p c d :
  at_ a cs p = Some c -> csize d = csize c -> p ∉ ns -> dlist a cs prev ns -> dlist a (upd a p d cs) prev ns.
Proof.
  intros Hp Hd Hn. apply dlist_frame. intros q Hq. rewrite (at_upd _ _ _ _ c) by done.
  destruct (Z.eqb_spec q p); [by subst|done].
Qed.

(** A changed previous field at the head of a list. *)
Lemma dlist_set_prev a cs prev ns v p :
  dlist a cs prev (p :: ns) -> p ∉ ns ->
  exists c y r, at_ a cs p = Some c /\ is_free c = true /\ body c = prev :: y :: r /\
    dlist a (upd a p (Chunk (hd c) (v :: y :: r) (ft c)) cs) v (p :: ns).
Proof.
  intros [(c & r & Hp & Hf & Hb) H2] Hn. exists c, (first_of ns), r. split_and!; try done.
  set (d := Chunk _ _ _). assert (Hd : csize d = csize c) by (unfold csize; rewrite Hb; done). split.
  - exists d, r. rewrite (at_upd _ _ _ _ c), Z.eqb_refl by done. done.
  - by apply (dlist_upd _ _ _ _ _ c).
Qed.

(** A changed next field at the end of a part of a list. *)
Fixpoint dpart (a : Z) (cs : list chunk) (prev : Z) (ns : list Z) (next : Z) : Prop :=
  match ns with
  | [] => True
  | p :: ns => linked a cs p prev (match ns with [] => next | q :: _ => q end) /\ dpart a cs p ns next
  end.

Definition end_of (prev : Z) (ns : list Z) : Z := match last ns with Some p => p | None => prev end.

Lemma end_of_cons prev p ns : end_of prev (p :: ns) = end_of p ns.
Proof. unfold end_of. destruct ns as [|q ns] using rev_ind; [done|]. by rewrite app_comm_cons, !last_snoc. Qed.

Lemma dlist_app a cs prev n1 n2 :
  dlist a cs prev (n1 ++ n2) <-> dpart a cs prev n1 (first_of n2) /\ dlist a cs (end_of prev n1) n2.
Proof.
  revert prev. induction n1 as [|p n1 IH]; intros prev; cbn [app dlist dpart]; [unfold end_of; simpl; tauto|].
  rewrite IH, end_of_cons. destruct n1; simpl; tauto.
Qed.

Lemma dpart_frame a cs ds prev ns next :
  (forall p, p ∈ ns -> at_ a ds p = at_ a cs p) -> dpart a cs prev ns next -> dpart a ds prev ns next.
Proof.
  revert prev. induction ns as [|q ns IH]; intros prev Hf; [done|]. intros [(c & r & ? & ? & ?) H2]. split.
  - exists c, r. rewrite Hf by (by left). done.
  - apply IH; [intros p Hp; apply Hf; by right|done].
Qed.

Lemma dpart_set_next a cs prev ns p next v :
  dpart a cs prev (ns ++ [p]) next -> p ∉ ns ->
  exists c x r, at_ a cs p = Some c /\ is_free c = true /\ body c = x :: next :: r /\
    dpart a (upd a p (Chunk (hd c) (x :: v :: r) (ft c)) cs) prev (ns ++ [p]) v.
Proof.
  revert prev. induction ns as [|q ns IH]; intros prev.
  - intros [(c & r & Hp & Hf & Hb) _] _. exists c, prev, r. split_and!; try done. split; [|done].
    exists (Chunk (hd c) (prev :: v :: r) (ft c)), r. rewrite (at_upd _ _ _ _ c), Z.eqb_refl by (done || (unfold csize; by rewrite Hb)). done.
  - intros [Hq H] Hn. apply not_elem_of_cons in Hn as [Hqp Hn]. destruct (IH _ H Hn) as (c & x & r & Hp & Hf & Hb & Hd).
    exists c, x, r. split_and!; try done. cbn [app dpart]. split; [|done].
    destruct Hq as (e & t & He & Hfe & Hbe). exists e, t.
    rewrite (at_upd _ _ _ _ c) by (done || (unfold csize; by rewrite Hb)). destruct (Z.eqb_spec q p); [congruence|].
    split_and!; try done. destruct ns; done.
Qed.

Lemma in_lists (ls : list (list Z)) i ns p : ls !! i = Some ns -> p ∈ ns -> p ∈ concat ls.
Proof. intros H1 H2. apply elem_of_concat. eauto. Qed.

Lemma nodup_list (ls : list (list Z)) i ns : NoDup (concat ls) -> ls !! i = Some ns -> NoDup ns.
Proof.
  intros ND Hi. destruct (concat_split _ _ _ Hi) as (r & P & _). rewrite P in ND. by apply NoDup_app in ND as [? _].
Qed.

Lemma nodup_lists (ls : list (list Z)) i j ns ns' p :
  NoDup (concat ls) -> ls !! i = Some ns -> ls !! j = Some ns' -> p ∈ ns -> p ∈ ns' -> i = j.
Proof.
  revert i j. induction ls as [|l ls IH]; intros i j; [done|]. cbn [concat]. rewrite NoDup_app. intros (N1 & N2 & N3).
  destruct i as [|i], j as [|j]; cbn [lookup list_lookup]; intros Hi Hj Hp Hp'; simplify_eq; try done.
  - exfalso. apply (N2 p Hp). by eapply in_lists.
  - exfalso. apply (N2 p Hp'). by eapply in_lists.
  - f_equal. by eapply IH.
Qed.

Lemma lists_nodup_insert (ls : list (list Z)) i ns p :
  ls !! i = Some ns -> NoDup (concat ls) -> p ∉ concat ls -> NoDup (concat (<[i := p :: ns]> ls)).
Proof.
  intros Hi ND Hp. destruct (concat_split _ _ _ Hi) as (r & P & P'). rewrite P'. cbn [app]. rewrite <- P. by constructor.
Qed.

Lemma lists_perm_remove (ls : list (list Z)) i n1 p n2 :
  ls !! i = Some (n1 ++ p :: n2) -> concat ls ≡ₚ p :: concat (<[i := n1 ++ n2]> ls).
Proof.
  intros Hi. destruct (concat_split _ _ _ Hi) as (r & P & P'). rewrite P', P, <- (assoc_L (++)).
  cbn [app]. rewrite <- Permutation_middle, (assoc_L (++)). done.
Qed.

Lemma get_bucket_ok s cs ls i ns : links s cs ls -> ls !! i = Some ns -> get_bucket s (Z.of_nat i) = Ret (first_of ns).
Proof.
  intros HL Hi. unfold get_bucket. rewrite (ln_buckets _ _ _ HL). unfold zget.
  rewrite (proj2 (Z.ltb_ge _ _)), Nat2Z.id by lia. by rewrite list_lookup_fmap, Hi.
Qed.

Lemma set_bucket_ok s ls i ns v w :
  buckets s = first_of <$> ls -> ls !! i = Some ns -> first_of w = v ->
  set_bucket s (Z.of_nat i) v = Ret (set_buckets s (first_of <$> <[i := w]> ls)).
Proof.
  intros Hb Hi <-. unfold set_bucket, get_bucket. rewrite Hb. unfold zget, zset.
  rewrite (proj2 (Z.ltb_ge _ _)), Nat2Z.id by lia. rewrite list_lookup_fmap, Hi. cbn. by rewrite list_fmap_insert.
Qed.

Lemma at_pos s cs ls p c : links s cs ls -> at_ (lo_bound s) cs p = Some c -> p <> 0.
Proof. intros HL H%at_range. pose proof (ln_lo _ _ _ HL). lia. Qed.

Lemma list_elem_at s cs ls i ns p :
  links s cs ls -> ls !! i = Some ns -> p ∈ ns -> exists c, at_ (lo_bound s) cs p = Some c /\ is_free c = true.
Proof.
  intros HL Hi Hp. pose proof (ln_lists _ _ _ HL) as HF. rewrite Forall_lookup in HF. by eapply dlist_free; [apply (HF i)|].
Qed.

(** The lists other than [i], over chunks that differ only at addresses that
    are new or in the list [i]. *)
Lemma other_lists s cs ls i ns w ds :
  links s cs ls -> ls !! i = Some ns ->
  (forall p, p ∈ concat ls -> p ∉ ns -> at_ (lo_bound s) ds p = at_ (lo_bound s) cs p) ->
  dlist (lo_bound s) ds 0 w -> Forall (dlist (lo_bound s) ds 0) (<[i := w]> ls).
Proof.
  intros HL Hi Hat Hw. apply Forall_lookup. intros j l. rewrite list_lookup_insert.
  pose proof (lookup_lt_Some _ _ _ Hi). case_decide as Hne; [intros E; by simplify_eq|].
  intros Hj. pose proof (ln_lists _ _ _ HL) as HF. rewrite Forall_lookup in HF. eapply dlist_frame; [|by apply (HF j)].
  intros p Hp. apply Hat; [by eapply in_lists|]. intros Hp'. apply Hne.
  split; [by eapply (nodup_lists ls i j); [apply HL|..]|by eapply lookup_lt_Some].
Qed.

Lemma chunk_size_of_ok s cs p c : words s = flatten cs -> at_ (lo_bound s) cs p = Some c -> chunk_size_of s p = Ret (CHUNK_SIZE (hd c)).
Proof. intros Hw Hp. unfold chunk_size_of. by rewrite (load_hd _ _ Hw _ _ Hp). Qed.

(** Linking a chunk that is in no list puts it in front of its bucket. *)
Lemma link_ok s cs ls p c i ns x y r :
  links s cs ls -> at_ (lo_bound s) cs p = Some c -> is_free c = true -> body c = x :: y :: r -> p ∉ concat ls ->
  mem_bucket_by_size (CHUNK_SIZE (hd c)) = Z.of_nat i -> ls !! i = Some ns ->
  exists s' cs', mem_link_chunk s p = Ret s' /\ links s' cs' (<[i := p :: ns]> ls) /\ Forall2 fsim cs cs' /\ meta s' = meta s.
Proof.
  intros HL Hp Hf Hb Hn Hi Hls. set (a := lo_bound s) in *. unfold mem_link_chunk.
  rewrite (chunk_size_of_ok _ _ _ _ (ln_words _ _ _ HL) Hp). cbn [mbind res_mbind]. rewrite Hi, (get_bucket_ok _ _ _ _ _ HL Hls).
  cbn [mbind res_mbind]. assert (Hpn : p ∉ ns) by (intros H; apply Hn; by eapply in_lists).
  pose proof (nodup_list _ _ _ (ln_nodup _ _ _ HL) Hls) as NDn.
  assert (exists cs1, (if first_of ns =? 0 then Ret s else mem_set_prev_chunk s (first_of ns) p) = Ret (set_words s (flatten cs1)) /\
    Forall2 fsim cs cs1 /\ dlist a cs1 p ns /\ (forall q, q ∉ ns -> at_ a cs1 q = at_ a cs q)) as (cs1 & -> & Hs1 & Hd1 & Ha1).
  { pose proof (ln_lists _ _ _ HL) as HF. rewrite Forall_lookup in HF. specialize (HF _ _ Hls). destruct ns as [|q ns].
    - exists cs. split_and!; [|apply fsim_all_refl|done|done]. cbn. rewrite <- (ln_words _ _ _ HL). by destruct s.
    - apply NoDup_cons in NDn as [Hq _]. destruct (dlist_set_prev _ _ _ _ p _ HF Hq) as (d & y' & r' & Hqd & Hfd & Hbd & Hd).
      cbn [first_of]. rewrite (proj2 (Z.eqb_neq _ _)) by (eapply at_pos; [exact HL|exact Hqd]).
      destruct (store_links s cs (ln_words _ _ _ HL) q d _ _ _ p Hqd Hbd) as [-> _]. eexists. split_and!; [done| |done|].
      + apply (fsim_upd _ _ d); [done|]. unfold fsim. rewrite Hbd. cbn. split_and!; try done. intros. congruence.
      + intros q' Hq'. rewrite (at_upd _ _ _ _ d); [|done|unfold csize; by rewrite Hbd]. destruct (Z.eqb_spec q' q); [|done].
        subst. by destruct Hq'; left. }
  cbn [mbind res_mbind]. set (s1 := set_words s (flatten cs1)).
  assert (Hp1 : at_ a cs1 p = Some c) by (by rewrite Ha1).
  destruct (store_links s1 cs1 eq_refl p c x y r 0 Hp1 Hb) as [-> _]. cbn [mbind res_mbind].
  change (lo_bound s1) with a. set (c2 := Chunk (hd c) (0 :: y :: r) (ft c)). set (cs2 := upd a p c2 cs1).
  assert (Hc2 : csize c2 = csize c) by (unfold csize; by rewrite Hb).
  assert (Hp2 : at_ a cs2 p = Some c2) by (unfold cs2; by rewrite (at_upd _ _ _ _ c), Z.eqb_refl).
  destruct (store_links (set_words s1 (flatten cs2)) cs2 eq_refl p c2 0 y r (first_of ns) Hp2 eq_refl) as [_ ->].
  cbn [mbind res_mbind]. change (lo_bound (set_words s1 (flatten cs2))) with a. set (c3 := Chunk _ _ _). set (cs3 := upd a p c3 cs2).
  assert (Ha3 : forall q, at_ a cs3 q = if q =? p then Some c3 else at_ a cs1 q).
  { intros q. unfold cs3, cs2. rewrite (at_upd _ _ _ _ c2) by done. rewrite (at_upd _ _ _ _ c) by done. by destruct (q =? p). }
  assert (Hd3 : dlist a cs3 0 (p :: ns)).
  { split; [exists c3, r; by rewrite Ha3, Z.eqb_refl|]. eapply dlist_frame; [|exact Hd1]. intros q Hq. rewrite Ha3.
    destruct (Z.eqb_spec q p); [by subst|done]. }
  erewrite (set_bucket_ok _ ls i ns p (p :: ns)); [|apply HL|done|done].
  eexists _, cs3. split; [done|]. split; [|split; [|done]].
  - split; try done; [apply HL| |apply lists_nodup_insert; [done|apply HL|done]].
    apply (other_lists s cs _ _ ns); [done|done| |done]. intros q Hq Hq'. fold a. rewrite Ha3, Ha1 by done.
    destruct (Z.eqb_spec q p); [by subst|done].
  - eapply fsim_all_trans; [exact Hs1|]. eapply fsim_all_trans; eapply fsim_upd; [exact Hp1| |exact Hp2|]; unfold fsim;
      cbn; rewrite ?Hb; split_and!; try done; unfold is_free in *; cbn; congruence.
Qed.

(** Unlinking takes the chunk out of its list. *)
Lemma unlink_ok s cs ls p c i n1 n2 :
  links s cs ls -> at_ (lo_bound s) cs p = Some c -> mem_bucket_by_size (CHUNK_SIZE (hd c)) = Z.of_nat i ->
  ls !! i = Some (n1 ++ p :: n2) ->
  exists s' cs', mem_unlink_chunk s p = Ret s' /\ links s' cs' (<[i := n1 ++ n2]> ls) /\ Forall2 fsim cs cs' /\ meta s' = meta s.
Proof.
  intros HL Hp Hi Hls. set (a := lo_bound s) in *. pose proof (nodup_list _ _ _ (ln_nodup _ _ _ HL) Hls) as ND.
  apply NoDup_app in ND as (ND1 & N12 & [Np2 ND2]%NoDup_cons).
  pose proof (ln_lists _ _ _ HL) as HF. rewrite Forall_lookup in HF. specialize (HF _ _ Hls). fold a in HF.
  apply dlist_app in HF as [H1 [(c' & r & Hp' & Hf & Hb) H2]]. rewrite Hp in Hp'. injection Hp' as <-.
  unfold mem_unlink_chunk. rewrite (chunk_size_of_ok _ _ _ _ (ln_words _ _ _ HL) Hp). cbn [mbind res_mbind].
  destruct (load_links s cs (ln_words _ _ _ HL) p c _ _ _ Hp Hb) as [-> ->]. cbn [mbind res_mbind]. rewrite Hi.
  (* the next field of the previous chunk, or the bucket *)
  assert (exists cs1, (if end_of 0 n1 =? 0 then set_bucket s (Z.of_nat i) (first_of n2) else mem_set_next_chunk s (end_of 0 n1) (first_of n2))
      = Ret (set_words (set_buckets s (first_of <$> <[i := n1 ++ n2]> ls)) (flatten cs1)) /\
    Forall2 fsim cs cs1 /\ dpart a cs1 0 n1 (first_of n2) /\ (forall q, q ∉ n1 -> at_ a cs1 q = at_ a cs q)) as (cs1 & -> & Hs1 & Hd1 & Ha1).
  { destruct n1 as [|q n1 _] using rev_ind.
    - exists cs. split_and!; [|apply fsim_all_refl|done|done]. cbn [end_of last]. simpl (0 =? 0). cbv iota.
      erewrite (set_bucket_ok _ ls i _ _ n2); [|apply HL|done|done]. rewrite <- (ln_words _ _ _ HL). done.
    - apply NoDup_app in ND1 as (_ & Hq & _). assert (Hqn : q ∉ n1) by (intros Hx; apply (Hq q Hx); by left).
      cbn [first_of] in H1. destruct (dpart_set_next _ _ _ _ _ _ (first_of n2) H1 Hqn) as (d & x & r' & Hqd & Hfd & Hbd & Hd).
      unfold end_of. rewrite last_snoc. rewrite (proj2 (Z.eqb_neq _ _)) by (eapply at_pos; [exact HL|exact Hqd]).
      destruct (store_links s cs (ln_words _ _ _ HL) q d _ _ _ (first_of n2) Hqd Hbd) as [_ ->].
      assert (buckets s = first_of <$> <[i := (n1 ++ [q]) ++ n2]> ls) as Hbu.
      { rewrite (ln_buckets _ _ _ HL), list_fmap_insert. symmetry. apply list_insert_id. rewrite list_lookup_fmap, Hls. by destruct n1. }
      eexists. split_and!; [rewrite <- Hbu; by destruct s| |done|].
      + apply (fsim_upd _ _ d); [done|]. unfold fsim. rewrite Hbd. cbn. split_and!; try done. intros. congruence.
      + intros q' Hq'. rewrite (at_upd _ _ _ _ d); [|done|unfold csize; by rewrite Hbd]. destruct (Z.eqb_spec q' q); [|done].
        subst. destruct Hq'. apply elem_of_app. right. by left. }
  cbn [mbind res_mbind]. set (s1 := set_words _ (flatten cs1)).
  assert (H2' : dlist a cs1 p n2).
  { eapply dlist_frame; [|exact H2]. intros q Hq. apply Ha1. intros Hq'. apply (N12 q Hq'). by right. }
  (* the previous field of the next chunk *)
  assert (exists cs2, (if first_of n2 =? 0 then Ret s1 else mem_set_prev_chunk s1 (first_of n2) (end_of 0 n1)) = Ret (set_words s1 (flatten cs2)) /\
    Forall2 fsim cs1 cs2 /\ dlist a cs2 (end_of 0 n1) n2 /\ (forall q, q ∉ n2 -> at_ a cs2 q = at_ a cs1 q)) as (cs2 & -> & Hs2 & Hd2 & Ha2).
  { destruct n2 as [|q n2].
    - exists cs1. split_and!; [done|apply fsim_all_refl|done|done].
    - apply NoDup_cons in ND2 as [Hq _]. destruct (dlist_set_prev _ _ _ _ (end_of 0 n1) _ H2' Hq) as (d & y & r' & Hqd & Hfd & Hbd & Hd).
      assert (Hq0 : q <> 0). { apply at_range in Hqd. pose proof (ln_lo _ _ _ HL). lia. }
      cbn [first_of]. rewrite (proj2 (Z.eqb_neq _ _)) by done.
      destruct (store_links s1 cs1 eq_refl q d _ _ _ (end_of 0 n1) Hqd Hbd) as [-> _].
      eexists. split_and!; [done| |done|].
      + apply (fsim_upd _ _ d); [done|]. unfold fsim. rewrite Hbd. cbn. split_and!; try done. intros. congruence.
      + intros q' Hq'. rewrite (at_upd _ _ _ _ d); [|done|unfold csize; by rewrite Hbd]. destruct (Z.eqb_spec q' q); [|done].
        subst. by destruct Hq'; left. }
  eexists _, cs2. split; [done|]. split; [|split; [by eapply fsim_all_trans|done]].
  split; try done; [apply HL| |].
  - apply (other_lists s cs _ _ (n1 ++ p :: n2)); [done|done| |].
    + intros q _ Hq. rewrite not_elem_of_app, not_elem_of_cons in Hq. destruct Hq as (? & ? & ?). fold a. by rewrite Ha2, Ha1.
    + fold a. apply dlist_app. split; [|done]. eapply dpart_frame; [|exact Hd1]. intros q Hq. apply Ha2.
      intros Hq'. apply (N12 q Hq). by right.
  - pose proof (ln_nodup _ _ _ HL) as ND. rewrite (lists_perm_remove _ _ _ _ _ Hls) in ND. by apply NoDup_cons in ND as [_ ?].
Qed.

(** ** Size fields *)

Definition tag (used : bool) (size : Z) : Z := if used then Z.lor SHMEM_FLG_USED size else size.
Definition mk (used : bool) (w : list Z) : chunk := Chunk (tag used (8 * zlen w)) w (tag used (8 * zlen w)).

Lemma tag_bits used n k : 0 <= n < 2 ^ 63 -> 0 <= k ->
  Z.testbit (tag used n) k = if k =? 63 then used else Z.testbit n k.
Proof.
  intros Hn Hk. assert (Hb : Z.testbit n 63 = false) by (rewrite Z.testbit_eqb, Z.div_small by lia; done).
  unfold tag, SHMEM_FLG_USED. rewrite Z.shiftl_1_l. destruct used.
  - rewrite Z.lor_spec, Z.pow2_bits_eqb by lia. rewrite (Z.eqb_sym 63 k). by destruct (Z.eqb_spec k 63).
  - destruct (Z.eqb_spec k 63); [by subst|done].
Qed.

Lemma tag_free used n : 0 <= n < 2 ^ 63 -> FREE_CHUNK (tag used n) = negb used.
Proof.
  intros Hn. unfold FREE_CHUNK. assert (E : Z.land (tag used n) SHMEM_FLG_USED = if used then SHMEM_FLG_USED else 0).
  { apply Z.bits_inj'. intros k Hk. rewrite Z.land_spec, tag_bits by done. unfold SHMEM_FLG_USED. rewrite Z.shiftl_1_l, Z.pow2_bits_eqb by lia.
    rewrite (Z.eqb_sym 63 k). destruct (Z.eqb_spec k 63) as [->|]; destruct used; rewrite ?Z.pow2_bits_eqb, ?Z.bits_0, ?andb_false_r by lia; try done.
    symmetry. apply Z.eqb_neq. lia. }
  rewrite E. by destruct used.
Qed.

Lemma tag_size used n : 0 <= n < 2 ^ 63 -> CHUNK_SIZE (tag used n) = n.
Proof.
  intros Hn. unfold CHUNK_SIZE. apply Z.bits_inj'. intros k Hk. rewrite Z.ldiff_spec, tag_bits by done.
  unfold SHMEM_FLG_USED. rewrite Z.shiftl_1_l, Z.pow2_bits_eqb by lia. rewrite (Z.eqb_sym 63 k).
  destruct (Z.eqb_spec k 63) as [->|]; cbn [negb]; [|apply andb_true_r]. rewrite andb_false_r.
  symmetry. rewrite Z.testbit_eqb, Z.div_small by lia. done.
Qed.

(** ** Replacing chunks *)

Lemma set_words_same s : set_words s (words s) = s.
Proof. by destruct s. Qed.

(** Chunks in no list may be cut anew and changed. *)
Lemma links_replace s l1 mid mid' l2 ls :
  links s (l1 ++ mid ++ l2) ls -> spans mid' = spans mid ->
  (forall p, p ∈ concat ls -> at_ (lo_bound s + spans l1) mid p = None) ->
  links (set_words s (flatten (l1 ++ mid' ++ l2))) (l1 ++ mid' ++ l2) ls.
Proof.
  intros HL Hsp Hno. destruct HL as [Hw Hlo Hb HF ND]. split; try done. cbn [lo_bound set_words].
  apply Forall_lookup. intros i ns Hi. rewrite Forall_lookup in HF. specialize (HF _ _ Hi). eapply dlist_frame; [|exact HF].
  intros p Hp. destruct (dlist_free _ _ _ _ _ HF Hp) as (c & Hat & _). specialize (Hno p (in_lists _ _ _ _ Hi Hp)).
  rewrite Hat. rewrite at_app in Hat |- *. destruct (at_ (lo_bound s) l1 p); [done|]. rewrite at_app in Hat |- *. rewrite Hno in Hat.
  rewrite Hsp. apply at_range in Hat as Hr. rewrite at_None by lia. done.
Qed.

Lemma links_recut s l1 mid mid' l2 ls :
  links s (l1 ++ mid ++ l2) ls -> flatten mid' = flatten mid ->
  (forall p, p ∈ concat ls -> at_ (lo_bound s + spans l1) mid p = None) -> links s (l1 ++ mid' ++ l2) ls.
Proof.
  intros HL Hf Hno. pose proof (links_replace s l1 mid mid' l2 ls HL) as H.
  assert (E : set_words s (flatten (l1 ++ mid' ++ l2)) = s).
  { rewrite !flatten_app, Hf, <- !flatten_app, <- (ln_words _ _ _ HL). apply set_words_same. }
  rewrite E in H. apply H; [unfold spans; by rewrite Hf|done].
Qed.

Lemma at_single a c p : p <> a -> at_ a [c] p = None.
Proof. intros H. cbn. by rewrite (proj2 (Z.eqb_neq _ _)). Qed.

(** Writing the two size fields of a chunk. *)
Lemma set_tags s l1 c l2 v :
  words s = flatten (l1 ++ c :: l2) ->
  (s' ← store s (lo_bound s + spans l1) v; store s' (lo_bound s + spans l1 + SHMEM_SIZE_FIELD + csize c) v) =
  Ret (set_words s (flatten (l1 ++ Chunk v (body c) v :: l2))).
Proof.
  intros Hw. set (c1 := Chunk v (body c) (ft c)).
  pose proof (chunk_store s _ Hw _ c c1 [] (hd c) _ v (at_middle _ l1 c l2) eq_refl eq_refl) as E.
  rewrite (zlen_nil (A:=Z)), Z.mul_0_r, Z.add_0_r, upd_split in E. rewrite E. cbn [mbind res_mbind].
  set (s1 := set_words s _).
  pose proof (chunk_store s1 _ eq_refl _ c1 (Chunk v (body c) v) (v :: body c) (ft c) [] v (at_middle _ l1 c1 l2) eq_refl eq_refl) as E1.
  rewrite upd_split in E1. change (lo_bound s1) with (lo_bound s) in E1. etransitivity; [|exact E1]. f_equal. rewrite zlen_cons.
  unfold csize, SHMEM_SIZE_FIELD. lia.
Qed.

Lemma set_chunk_size_ok s l1 c l2 ls used n :
  links s (l1 ++ c :: l2) ls -> lo_bound s + spans l1 ∉ concat ls -> n = csize c ->
  let s' := set_words s (flatten (l1 ++ mk used (body c) :: l2)) in
  (if used then mem_set_used_chunk_size else mem_set_chunk_size) s (lo_bound s + spans l1) n = Ret s' /\
  links s' (l1 ++ mk used (body c) :: l2) ls.
Proof.
  intros HL Hn -> s'. split.
  - pose proof (set_tags s l1 c l2 (tag used (csize c)) (ln_words _ _ _ HL)) as E.
    destruct used; exact E.
  - apply (links_replace s l1 [c] [mk used (body c)] l2); [done|by rewrite !spans_cons|].
    intros p Hp. apply at_single. by intros ->.
Qed.

Lemma links_add_sizes s cs ls a b : links s cs ls -> links (add_sizes s a b) cs ls.
Proof. intros [? ? ? ? ?]. by split. Qed.

(** ** Free chunks and buckets *)

Definition bucket (n : Z) : nat := Z.to_nat (mem_bucket_by_size n).

Fixpoint frees (a : Z) (cs : list chunk) : list (nat * Z) :=
  match cs with
  | [] => []
  | c :: cs => (if is_free c then [(bucket (csize c), a)] else []) ++ frees (a + (16 + csize c)) cs
  end.

Definition indexed (ls : list (list Z)) : list (nat * Z) := concat (imap (fun i ns => (pair i) <$> ns) ls).

Lemma bucket_range n : (bucket n < 30)%nat /\ Z.of_nat (bucket n) = mem_bucket_by_size n.
Proof.
  unfold bucket. assert (0 <= mem_bucket_by_size n < 30); [|lia].
  unfold mem_bucket_by_size, ZBX_SHMEM_MIN_BUCKET_SIZE, SHMEM_MIN_ALLOC, SHMEM_MAX_BUCKET_SIZE, ZBX_SHMEM_BUCKET_COUNT.
  destruct (Z.ltb_spec n 24); [lia|]. destruct (Z.ltb_spec n 256); [|vm_compute; intuition congruence].
  rewrite Z.shiftr_div_pow2 by lia. change (2 ^ 3) with 8. dlia.
Qed.

Lemma indexed_split ls i ns :
  ls !! i = Some ns -> exists r, indexed ls ≡ₚ (pair i <$> ns) ++ r /\ forall w, indexed (<[i := w]> ls) ≡ₚ (pair i <$> w) ++ r.
Proof.
  intros Hi. unfold indexed. set (g := fun i (ns : list Z) => pair i <$> ns).
  assert (Hg : imap g ls !! i = Some (g i ns)) by (by rewrite list_lookup_imap, Hi).
  destruct (concat_split _ _ _ Hg) as (r & P & P'). exists r. split; [exact P|]. intros w.
  etransitivity; [|exact (P' (g i w))]. apply reflexive_eq. f_equal. apply list_eq. intros j. rewrite list_lookup_imap, !list_lookup_insert, length_imap.
  repeat case_decide; destruct_and?; subst; try done; by rewrite list_lookup_imap.
Qed.

Lemma indexed_insert ls i ns p : ls !! i = Some ns -> indexed (<[i := p :: ns]> ls) ≡ₚ (i, p) :: indexed ls.
Proof. intros Hi. destruct (indexed_split _ _ _ Hi) as (r & P & P'). by rewrite P', P. Qed.

Lemma indexed_remove ls i n1 p n2 : ls !! i = Some (n1 ++ p :: n2) -> indexed ls ≡ₚ (i, p) :: indexed (<[i := n1 ++ n2]> ls).
Proof.
  intros Hi. destruct (indexed_split _ _ _ Hi) as (r & P & P'). rewrite P', P, !fmap_app. cbn [fmap list_fmap].
  rewrite <- !(assoc_L (++)). cbn [app]. by rewrite <- Permutation_middle.
Qed.

Lemma elem_of_indexed ls i p : (i, p) ∈ indexed ls <-> exists ns, ls !! i = Some ns /\ p ∈ ns.
Proof.
  unfold indexed. rewrite elem_of_concat. split.
  - intros (j & c & Hj & Hc). apply list_lookup_imap_Some in Hj as (ns & Hj & ->). apply list_elem_of_fmap in Hc as (q & [= -> ->] & Hq). eauto.
  - intros (ns & Hi & Hp). exists i, (pair i <$> ns). rewrite list_lookup_imap, Hi. split; [done|]. apply list_elem_of_fmap. eauto.
Qed.

Lemma in_indexed ls p : p ∈ concat ls <-> exists i, (i, p) ∈ indexed ls.
Proof. rewrite elem_of_concat. setoid_rewrite elem_of_indexed. naive_solver. Qed.

(** ** What a list of chunks stands for *)

Fixpoint blocks (a : Z) (cs : list chunk) : list (Z * list Z) :=
  match cs with
  | [] => []
  | c :: cs => (if is_free c then [] else [(a + 8, body c)]) ++ blocks (a + (16 + csize c)) cs
  end.

Definition usum (cs : list chunk) : Z := foldr (fun c n => (if is_free c then 0 else csize c) + n) 0 cs.
Definition fsum (cs : list chunk) : Z := foldr (fun c n => (if is_free c then csize c else 0) + n) 0 cs.

(** No two free chunks are neighbours. *)
Fixpoint apart (fs : list bool) : bool :=
  match fs with
  | x :: ((y :: _) as fs) => negb (x && y) && apart fs
  | _ => true
  end.

Definition tagged (c : chunk) : Prop := (exists used, c = mk used (body c)) /\ (3 <= length (body c))%nat.

Lemma frees_app a l1 l2 : frees a (l1 ++ l2) = frees a l1 ++ frees (a + spans l1) l2.
Proof.
  revert a. induction l1 as [|c l1 IH]; intros a; cbn [frees app]; [by rewrite spans_nil, Z.add_0_r|].
  by rewrite IH, spans_cons, (Z.add_assoc a (16 + csize c)), (assoc_L (++)).
Qed.

Lemma blocks_app a l1 l2 : blocks a (l1 ++ l2) = blocks a l1 ++ blocks (a + spans l1) l2.
Proof.
  revert a. induction l1 as [|c l1 IH]; intros a; cbn [blocks app]; [by rewrite spans_nil, Z.add_0_r|].
  by rewrite IH, spans_cons, (Z.add_assoc a (16 + csize c)), (assoc_L (++)).
Qed.

Lemma usum_app l1 l2 : usum (l1 ++ l2) = usum l1 + usum l2.
Proof. induction l1 as [|c l1 IH]; cbn; [done|]. unfold usum in *. lia. Qed.

Lemma fsum_app l1 l2 : fsum (l1 ++ l2) = fsum l1 + fsum l2.
Proof. induction l1 as [|c l1 IH]; cbn; [done|]. unfold fsum in *. lia. Qed.

Lemma sums_spans cs : 0 <= usum cs /\ 0 <= fsum cs /\ usum cs + fsum cs + 16 * zlen cs = spans cs.
Proof.
  induction cs as [|c cs IH]; [done|]. rewrite spans_cons, zlen_cons. cbn. pose proof (csize_nonneg c).
  unfold usum, fsum in *. destruct (is_free c); lia.
Qed.

Lemma apart_used fs gs : apart (fs ++ false :: gs) = apart fs && apart gs.
Proof.
  induction fs as [|x [|y fs] IH].
  - by destruct gs.
  - destruct gs; cbn; by rewrite andb_false_r.
  - change (negb (x && y) && apart ((y :: fs) ++ false :: gs) = (negb (x && y) && apart (y :: fs)) && apart gs).
    by rewrite IH, andb_assoc.
Qed.

Lemma fsim_is_free c d : fsim c d -> is_free d = is_free c.
Proof. intros (H & _). unfold is_free. by rewrite H. Qed.

Lemma fsim_frees a cs ds : Forall2 fsim cs ds -> frees a ds = frees a cs.
Proof.
  intros H. revert a. induction H as [|c d cs ds H _ IH]; intros a; [done|]. cbn [frees].
  by rewrite (fsim_is_free _ _ H), (fsim_csize _ _ H), IH.
Qed.

Lemma fsim_blocks a cs ds : Forall2 fsim cs ds -> blocks a ds = blocks a cs.
Proof.
  intros H. revert a. induction H as [|c d cs ds H _ IH]; intros a; [done|]. cbn [blocks].
  rewrite (fsim_csize _ _ H), IH, (fsim_is_free _ _ H). destruct H as (_ & _ & _ & H).
  destruct (is_free c); [done|]. by rewrite H.
Qed.

Lemma fsim_sums cs ds : Forall2 fsim cs ds -> usum ds = usum cs /\ fsum ds = fsum cs.
Proof.
  induction 1 as [|c d cs ds H _ IH]; [done|]. cbn. rewrite (fsim_csize _ _ H), (fsim_is_free _ _ H).
  unfold usum, fsum in *. lia.
Qed.

Lemma fsim_flags cs ds : Forall2 fsim cs ds -> is_free <$> ds = is_free <$> cs.
Proof. induction 1 as [|c d cs ds H _ IH]; [done|]. rewrite !fmap_cons, IH. by rewrite (fsim_is_free c d). Qed.

Lemma fsim_tagged cs ds : Forall2 fsim cs ds -> Forall tagged cs -> Forall tagged ds.
Proof.
  induction 1 as [|c d cs ds H _ IH]; [done|]. intros [[[u Hu] Hl] HF]%Forall_cons. constructor; [|by apply IH].
  destruct H as (H1 & H2 & H3 & _). split; [|lia]. exists u. destruct d as [h b f]. cbn in *. rewrite Hu in H1, H2. cbn in H1, H2.
  unfold mk, zlen in *. by rewrite H1, H2, H3.
Qed.

Lemma mk_free used w : 8 * zlen w < 2 ^ 63 -> is_free (mk used w) = negb used.
Proof. intros H. apply tag_free. pose proof (zlen_nonneg w). lia. Qed.

Lemma mk_size used w : 8 * zlen w < 2 ^ 63 -> CHUNK_SIZE (hd (mk used w)) = csize (mk used w).
Proof. intros H. apply (tag_size used (8 * zlen w)). pose proof (zlen_nonneg w). lia. Qed.

(** The addresses of the lists are those of the free chunks. *)
Lemma frees_at a cs i p : (i, p) ∈ frees a cs -> exists c, at_ a cs p = Some c /\ is_free c = true /\ i = bucket (csize c).
Proof.
  revert a. induction cs as [|c cs IH]; intros a; cbn [frees at_]; [by intros ?%not_elem_of_nil|].
  intros [H|H]%elem_of_app.
  - destruct (is_free c) eqn:E; [|by apply not_elem_of_nil in H]. apply list_elem_of_singleton in H as [= -> ->].
    rewrite Z.eqb_refl. eauto.
  - apply IH in H as (d & Hd & ?). exists d. destruct (Z.eqb_spec p a); [|done]. subst. apply at_range in Hd. pose proof (csize_nonneg c). lia.
Qed.

(** ** Splitting *)

Lemma split_ok s l1 c l2 ls w1 x y w2 :
  links s (l1 ++ c :: l2) ls -> length ls = 30%nat -> lo_bound s + spans l1 ∉ concat ls ->
  body c = w1 ++ x :: y :: w2 -> (2 <= length w2)%nat -> csize c < 2 ^ 63 ->
  exists s' l1' c1 w2' l2' ls', split_chunk s (lo_bound s + spans l1) (8 * zlen w1) (8 * zlen w2) = Ret s' /\
    links s' (l1' ++ c1 :: mk false w2' :: l2') ls' /\ length ls' = 30%nat /\
    Forall2 fsim l1 l1' /\ Forall2 fsim l2 l2' /\ fsim (Chunk (hd c) w1 x) c1 /\ length w2' = length w2 /\
    indexed ls' ≡ₚ (bucket (8 * zlen w2), lo_bound s + spans l1 + 16 + 8 * zlen w1) :: indexed ls /\ meta s' = meta s.
Proof.
  intros HL Hlen Hn Hb Hw2 Hmax. set (p := lo_bound s + spans l1) in *.
  set (c0 := Chunk (hd c) w1 x). set (d0 := Chunk y w2 (ft c)).
  assert (Hfl : flatten [c0; d0] = flatten [c]).
  { unfold flatten, c0, d0, cwords. cbn. rewrite Hb, !app_nil_r, <- !(assoc_L (++)). done. }
  assert (Hcs : csize c = 8 * zlen w1 + 16 + 8 * zlen w2) by (unfold csize; rewrite Hb; lens).
  pose proof (zlen_nonneg w1). pose proof (zlen_nonneg w2).
  assert (HL1 : links s ((l1 ++ [c0]) ++ d0 :: l2) ls).
  { rewrite <- (assoc_L (++)). apply (links_recut s l1 [c] [c0; d0] l2); [done|done|]. intros q Hq. apply at_single. intros ->. done. }
  set (q := lo_bound s + spans (l1 ++ [c0])).
  assert (Hq : q = p + 16 + 8 * zlen w1) by (unfold q, p; rewrite spans_app, spans_cons, spans_nil; unfold csize, c0; cbn [body]; lia).
  assert (Hqn : q ∉ concat ls).
  { intros (i & ns & Hi & Hin)%elem_of_concat. destruct (list_elem_at _ _ _ _ _ _ HL Hi Hin) as (e & He & _).
    destruct (decide (q < p)).
    - lia.
    - pose proof (at_disjoint _ _ _ _ _ _ (at_middle _ l1 c l2) He) as Hd. fold p in Hd. specialize (Hd ltac:(lia)). lia. }
  unfold split_chunk, SHMEM_SIZE_FIELD. replace (p + 8 + 8 * zlen w1 + 8) with q by lia.
  destruct (set_chunk_size_ok s (l1 ++ [c0]) d0 l2 ls false (8 * zlen w2) HL1 Hqn eq_refl) as [E HL2]. cbv zeta in E, HL2.
  cbn [body d0] in E, HL2. fold q in E. rewrite E. cbn [mbind res_mbind]. set (s1 := set_words s _) in *.
  assert (exists ns, ls !! bucket (8 * zlen w2) = Some ns) as [ns Hns].
  { apply lookup_lt_is_Some. rewrite Hlen. apply bucket_range. }
  destruct w2 as [|x2 [|y2 r2]] eqn:Ew2; [cbn in Hw2; lia|cbn in Hw2; lia|]. rewrite <- Ew2 in *.
  assert (Hd : at_ (lo_bound s1) ((l1 ++ [c0]) ++ mk false w2 :: l2) q = Some (mk false w2)) by apply (at_middle (lo_bound s)).
  destruct (link_ok s1 _ ls q (mk false w2) (bucket (8 * zlen w2)) ns x2 y2 r2 HL2 Hd) as (s' & cs' & E' & HL' & Hs' & Hm'); try done.
  - rewrite mk_free by lia. done.
  - rewrite mk_size by lia. symmetry. apply bucket_range.
  - rewrite <- (assoc_L (++)) in Hs'. cbn [app] in Hs'.
    apply Forall2_app_inv_l in Hs' as (l1' & tl & H1 & H2 & ->). apply Forall2_cons_inv_l in H2 as (c1 & tl' & H2 & H3 & ->).
    apply Forall2_cons_inv_l in H3 as (d1 & l2' & H3 & H4 & ->).
    assert (Ed : d1 = mk false (body d1)).
    { destruct H3 as (Ha & Hb' & Hc & _). destruct d1 as [h b f]. cbn in *. unfold mk, zlen. by rewrite Ha, Hb', Hc. }
    exists s', l1', c1, (body d1), l2', (<[bucket (8 * zlen w2) := q :: ns]> ls). rewrite <- Ed.
    split_and!; try done; [by rewrite length_insert|by destruct H3 as (_ & _ & ? & _)|]. rewrite indexed_insert by done. by rewrite Hq.
Qed.

Lemma cut_body (b : list Z) n :
  (n + 2 <= length b)%nat -> exists w1 x y w2, b = w1 ++ x :: y :: w2 /\ length w1 = n.
Proof.
  intros H. destruct (drop n b) as [|x [|y w2]] eqn:E.
  - apply (f_equal length) in E. rewrite length_drop in E. cbn in E. lia.
  - apply (f_equal length) in E. rewrite length_drop in E. cbn in E. lia.
  - exists (take n b), x, y, w2. rewrite <- E, take_drop. split; [done|]. rewrite length_take. lia.
Qed.

(** What is left of a chunk after cutting off a block. *)
Definition leftover (rest : list chunk) : Prop :=
  rest = [] \/ exists w, rest = [mk false w] /\ (3 <= length w)%nat /\ 8 * zlen w < 2 ^ 62.

Lemma leftover_facts rest : leftover rest ->
  Forall tagged rest /\ usum rest = 0 /\ (forall a, blocks a rest = []) /\
  (forall fs, apart (true :: fs) = true -> apart ((is_free <$> rest) ++ fs) = true).
Proof.
  intros [->|(w & -> & Hw & Hmax)].
  - split_and!; try done. intros fs. destruct fs; [done|]. cbn [apart]. intros [_ H]%andb_true_iff. done.
  - assert (Hf : is_free (mk false w) = true) by (rewrite mk_free; [done|lia]). split_and!.
    + constructor; [|constructor]. split; [by exists false|done].
    + cbn. by rewrite Hf.
    + intros a. cbn [blocks]. by rewrite Hf.
    + intros fs. cbn. by rewrite Hf.
Qed.

(** What an operation does not change. *)
Definition geom (s : shmem) : Z * Z * Z * Z * Z * bool :=
  (lo_bound s, hi_bound s, orig_size s, total_size s, allow_oom s, lock s).

Lemma meta_geom s s' a b : meta s' = meta (add_sizes s a b) ->
  geom s' = geom s /\ used_size s' = u64 (used_size s + a) /\ free_size s' = u64 (free_size s + b).
Proof. unfold meta, geom, add_sizes. cbn. intros [= -> -> -> -> -> -> -> ->]. done. Qed.

Lemma meta_eq_geom s s' : meta s' = meta s -> geom s' = geom s.
Proof. unfold meta, geom. intros [= ? ? ? ? ? ? ? ?]. congruence. Qed.

Lemma meta_add s s' a b : meta s' = meta s -> meta (add_sizes s' a b) = meta (add_sizes s a b).
Proof. unfold meta, add_sizes. cbn. intros [= -> -> -> -> -> -> -> ->]. done. Qed.

Lemma meta_lo s s' : meta s' = meta s -> lo_bound s' = lo_bound s /\ hi_bound s' = hi_bound s.
Proof. unfold meta. intros [= -> -> _ _ _ _ _ _]. done. Qed.

(** Cutting a block of [n] bytes off a chunk; [g] is an update of the
    counters in between. *)
Lemma cut_ok (g : shmem -> shmem) s l1 c l2 ls n :
  (forall s cs ls, links s cs ls -> links (g s) cs ls) -> (forall s, lo_bound (g s) = lo_bound s) ->
  links s (l1 ++ c :: l2) ls -> length ls = 30%nat -> lo_bound s + spans l1 ∉ concat ls -> csize c < 2 ^ 62 ->
  n mod 8 = 0 -> 24 <= n -> n + 40 <= csize c ->
  exists s' s1 l1' w w2 l2' ls', (s1 ← split_chunk s (lo_bound s + spans l1) n (csize c - n - 16);
      mem_set_used_chunk_size (g s1) (lo_bound s + spans l1) n) = Ret s' /\
    links s' (l1' ++ mk true w :: [mk false w2] ++ l2') ls' /\ length ls' = 30%nat /\ Forall2 fsim l1 l1' /\ Forall2 fsim l2 l2' /\
    n = 8 * zlen w /\ (is_free c = false -> exists t, body c = w ++ t) /\ leftover [mk false w2] /\ 8 * zlen w2 = csize c - n - 16 /\
    indexed ls' ≡ₚ frees (lo_bound s + spans l1 + 16 + 8 * zlen w) [mk false w2] ++ indexed ls /\
    meta s1 = meta s /\ meta s' = meta (g s1).
Proof.
  intros Hg Hglo HL Hlen Hn Hmax Hmod H24 Hsz. set (p := lo_bound s + spans l1) in *.
  destruct (cut_body (body c) (Z.to_nat (n / 8))) as (w1 & x & y & w2 & Hb & Hw1).
  { unfold csize, zlen in *. dlia. }
  assert (H1 : 8 * zlen w1 = n) by (unfold zlen; dlia).
  assert (H2 : csize c = n + 16 + 8 * zlen w2) by (unfold csize; rewrite Hb; lens).
  assert (Hlw : (3 <= length w2)%nat) by (unfold zlen in *; lia).
  destruct (split_ok s l1 c l2 ls w1 x y w2 HL Hlen Hn Hb) as (s1 & l1' & c1 & w2' & l2' & ls' & E & HL1 & Hlen' & F1 & F2 & Fc & Hw2' & P & Hm); [lia|lia|].
  fold p in E. rewrite H1 in E. replace (csize c - n - 16) with (8 * zlen w2) by lia. rewrite E. cbn [mbind res_mbind].
  apply Hg in HL1. destruct (meta_lo _ _ Hm) as [Hlo _].
  assert (Hp : lo_bound (g s1) + spans l1' = p) by (rewrite Hglo, Hlo, (fsim_spans _ _ F1); done).
  assert (Hc1 : csize c1 = n) by (rewrite (fsim_csize _ _ Fc); unfold csize; cbn; lia).
  destruct (set_chunk_size_ok (g s1) l1' c1 (mk false w2' :: l2') ls' true n HL1) as [E' HL']; [|done|].
  { rewrite Hp, in_indexed. intros (i & Hi). rewrite P in Hi. apply elem_of_cons in Hi as [[= _ Hi]|Hi].
    - pose proof (zlen_nonneg w1). lia.
    - apply Hn, in_indexed. eauto. }
  cbv zeta in E', HL'. rewrite Hp in E'. assert (Hb1 : 8 * zlen (body c1) = n) by exact Hc1.
  eexists _, s1, l1', (body c1), w2', l2', ls'. split_and!; [exact E'|exact HL'|done|done|done|done| | | | |done|done].
  - intros Hu. destruct Fc as (_ & _ & _ & Fc). rewrite Fc by done. exists (x :: y :: w2). done.
  - right. exists w2'. unfold zlen in *. split_and!; [done|lia|lia].
  - unfold zlen in *. by rewrite Hw2'.
  - rewrite P. cbn [frees]. rewrite mk_free by (unfold zlen in *; lia). cbn [negb app]. unfold csize. cbn [body mk].
    replace (8 * zlen (body c1)) with (8 * zlen w1) by lia. unfold zlen. rewrite Hw2'. done.
Qed.

Lemma use_or_split_ok s l1 c l2 ls size :
  links s (l1 ++ c :: l2) ls -> length ls = 30%nat -> lo_bound s + spans l1 ∉ concat ls -> csize c < 2 ^ 62 ->
  size mod 8 = 0 -> 24 <= size <= csize c ->
  exists s' l1' w rest l2' ls', use_or_split s (lo_bound s + spans l1) (csize c) size = Ret s' /\
    links s' (l1' ++ mk true w :: rest ++ l2') ls' /\ length ls' = 30%nat /\ Forall2 fsim l1 l1' /\ Forall2 fsim l2 l2' /\
    size <= 8 * zlen w /\ (is_free c = false -> exists t, body c = w ++ t) /\
    leftover rest /\ spans (mk true w :: rest) = 16 + csize c /\
    indexed ls' ≡ₚ frees (lo_bound s + spans l1 + 16 + 8 * zlen w) rest ++ indexed ls /\
    meta s' = meta (add_sizes s (8 * zlen w) (fsum rest - csize c)).
Proof.
  intros HL Hlen Hn Hmax Hmod Hsz. unfold use_or_split, SHMEM_SIZE_FIELD, SHMEM_MIN_ALLOC.
  destruct (Z.ltb_spec (csize c) (size + 2 * 8 + 24)).
  - set (s1 := add_sizes s _ _). destruct (set_chunk_size_ok s1 l1 c l2 ls true (csize c) (links_add_sizes _ _ _ _ _ HL) Hn eq_refl) as [E HL'].
    cbv zeta in E, HL'. eexists _, l1, (body c), [], l2, ls. split_and!; [exact E|exact HL'|done|apply fsim_all_refl|apply fsim_all_refl|
      unfold csize in *; lia|intros _; exists []; by rewrite app_nil_r|by left|by rewrite spans_cons, spans_nil, Z.add_0_r|done|].
    cbn [fsum foldr]. rewrite Z.sub_0_l. done.
  - replace (csize c - size - 2 * 8) with (csize c - size - 16) by lia.
    destruct (cut_ok (fun s => add_sizes s size (- csize c + (csize c - size - 16))) s l1 c l2 ls size) as
      (s' & s1 & l1' & w & w2 & l2' & ls' & E & HL' & Hlen' & F1 & F2 & Hw & Hpre & Hlo & Hw2 & P & Hm1 & Hm'); try done; try lia.
    { intros. by apply links_add_sizes. }
    exists s', l1', w, [mk false w2], l2', ls'. split_and!; try done; try lia.
    + rewrite !spans_cons, spans_nil. unfold csize in *. cbn [body mk]. lia.
    + rewrite Hm', (meta_add _ _ _ _ Hm1). f_equal. f_equal; [lia|]. unfold fsum. cbn [foldr].
      rewrite mk_free by lia. cbn [negb]. unfold csize at 3. cbn [body mk]. lia.
Qed.

(** ** Size classes *)

Lemma land7 n : Z.land n 7 = n mod 8.
Proof. change 7 with (Z.ones 3). by rewrite Z.land_ones. Qed.

Lemma proper_size n : 0 <= n ->
  let m := mem_proper_alloc_size n in n <= m /\ m mod 8 = 0 /\ 24 <= m <= Z.max 24 (n + 7).
Proof.
  intros Hn. unfold mem_proper_alloc_size, SHMEM_MIN_ALLOC. rewrite !land7. destruct (Z.geb_spec n 24); cbv zeta; [|split_and!; done || lia].
  dlia.
Qed.

Lemma proper_idem n : 24 <= n -> n mod 8 = 0 -> mem_proper_alloc_size n = n.
Proof.
  intros H1 H2. unfold mem_proper_alloc_size, SHMEM_MIN_ALLOC. rewrite !land7, H2. destruct (Z.geb_spec n 24); [|lia].
  change ((8 - 0) mod 8) with 0. lia.
Qed.

Lemma bucket_val n : 24 <= n -> Z.of_nat (bucket n) = if n <? 256 then (n - 24) / 8 else 29.
Proof.
  intros H. rewrite (proj2 (bucket_range n)).
  unfold mem_bucket_by_size, ZBX_SHMEM_MIN_BUCKET_SIZE, SHMEM_MIN_ALLOC, SHMEM_MAX_BUCKET_SIZE.
  rewrite (proj2 (Z.ltb_ge n 24)) by lia. destruct (n <? 256); [|done]. by rewrite Z.shiftr_div_pow2.
Qed.

Lemma bucket_mono n m : 24 <= n <= m -> (bucket n <= bucket m)%nat.
Proof.
  intros H. pose proof (bucket_val n). pose proof (bucket_val m). apply Nat2Z.inj_le.
  destruct (Z.ltb_spec n 256), (Z.ltb_spec m 256); dlia.
Qed.

Lemma bucket_fit n m :
  24 <= n -> 24 <= m -> n mod 8 = 0 -> m mod 8 = 0 -> (bucket n <= bucket m)%nat -> (bucket m < 29)%nat -> n <= m.
Proof.
  intros H1 H2 H3 H4 H5 H6. pose proof (bucket_val n H1). pose proof (bucket_val m H2).
  destruct (Z.ltb_spec n 256), (Z.ltb_spec m 256); dlia.
Qed.

(** ** The invariant *)

Record ok (s : shmem) (cs : list chunk) (ls : list (list Z)) : Prop := {
  ok_links : links s cs ls;
  ok_len : length ls = 30%nat;
  ok_tagged : Forall tagged cs;
  ok_frees : indexed ls ≡ₚ frees (lo_bound s) cs;
  ok_apart : apart (is_free <$> cs) = true;
  ok_used : used_size s = usum cs;
  ok_free : free_size s = fsum cs;
  ok_hi : lo_bound s + spans cs = hi_bound s;
  ok_total : total_size s = spans cs - 16;
  ok_max : hi_bound s < 2 ^ 62 }.

Lemma ok_at s cs ls p c : ok s cs ls -> at_ (lo_bound s) cs p = Some c ->
  p <> 0 /\ tagged c /\ 24 <= csize c < 2 ^ 62 /\ csize c mod 8 = 0 /\ CHUNK_SIZE (hd c) = csize c.
Proof.
  intros Hok Hp. pose proof (at_pos _ _ _ _ _ (ok_links _ _ _ Hok) Hp) as Hp0.
  pose proof (at_range _ _ _ _ Hp) as Hr. pose proof (ok_hi _ _ _ Hok). pose proof (ok_max _ _ _ Hok). pose proof (ln_lo _ _ _ (ok_links _ _ _ Hok)).
  assert (Ht : tagged c).
  { apply at_split in Hp as (l1 & l2 & -> & _). pose proof (ok_tagged _ _ _ Hok) as HF. apply Forall_app in HF as [_ HF].
    by apply Forall_cons in HF as [? _]. }
  pose proof Ht as [[u Hu] Hl]. assert (24 <= csize c < 2 ^ 62) by (unfold csize, zlen in *; lia).
  split; [done|]. split; [done|]. split; [done|]. split; [unfold csize; dlia|]. rewrite Hu. apply (mk_size u). unfold csize in *. lia.
Qed.

Lemma list_chunk s cs ls i ns p : ok s cs ls -> ls !! i = Some ns -> p ∈ ns ->
  exists c, at_ (lo_bound s) cs p = Some c /\ is_free c = true /\ i = bucket (csize c).
Proof.
  intros Hok Hi Hp. apply frees_at. rewrite <- (ok_frees _ _ _ Hok). apply elem_of_indexed. eauto.
Qed.

Lemma free_in_list s cs ls l1 c l2 : ok s cs ls -> cs = l1 ++ c :: l2 -> is_free c = true ->
  exists n1 n2, ls !! bucket (csize c) = Some (n1 ++ (lo_bound s + spans l1) :: n2).
Proof.
  intros Hok -> Hf. assert (Hin : (bucket (csize c), lo_bound s + spans l1) ∈ indexed ls).
  { rewrite (ok_frees _ _ _ Hok), frees_app. apply elem_of_app. right. cbn [frees]. rewrite Hf. by left. }
  apply elem_of_indexed in Hin as (ns & Hns & Hin). apply list_elem_of_split in Hin as (n1 & n2 & ->). eauto.
Qed.

(** A used chunk is in no list. *)
Lemma used_not_listed s cs ls p c : ok s cs ls -> at_ (lo_bound s) cs p = Some c -> is_free c = false -> p ∉ concat ls.
Proof.
  intros Hok Hp Hu (i & ns & Hi & Hin)%elem_of_concat. destruct (list_chunk _ _ _ _ _ _ Hok Hi Hin) as (d & Hd & Hf & _). congruence.
Qed.

Lemma length_frees a cs : (length (frees a cs) <= length cs)%nat.
Proof. revert a. induction cs as [|c cs IH]; intros a; [done|]. cbn [frees]. rewrite length_app. specialize (IH (a + (16 + csize c))). destruct (is_free c); cbn; lia. Qed.

Lemma length_flatten cs : (length cs <= length (flatten cs))%nat.
Proof. induction cs as [|c cs IH]; [done|]. rewrite flatten_cons, length_app. cbn. lia. Qed.

Lemma list_short s cs ls i ns : ok s cs ls -> ls !! i = Some ns -> (length ns <= length (words s))%nat.
Proof.
  intros Hok Hi. destruct (indexed_split _ _ _ Hi) as (r & P & _). rewrite (ln_words _ _ _ (ok_links _ _ _ Hok)).
  pose proof (length_flatten cs). pose proof (length_frees (lo_bound s) cs).
  pose proof (Permutation_length (ok_frees _ _ _ Hok)) as E. rewrite P, length_app, length_fmap in E. lia.
Qed.

(** ** Allocation *)

Lemma find_bucket_ok s cs ls fuel i :
  ok s cs ls -> (i < 30)%nat -> (30 - i <= fuel)%nat ->
  exists j ns, find_bucket fuel s (Z.of_nat i) = Ret (Z.of_nat j) /\ (i <= j < 30)%nat /\ ls !! j = Some ns /\
    (ns <> [] \/ j = 29%nat) /\ forall k, (i <= k < j)%nat -> ls !! k = Some [].
Proof.
  intros Hok. revert i. induction fuel as [|fuel IH]; intros i Hi Hf; [lia|]. cbn [find_bucket].
  change (ZBX_SHMEM_BUCKET_COUNT - 1) with 29.
  destruct (lookup_lt_is_Some_2 ls i) as [ns Hns]; [rewrite (ok_len _ _ _ Hok); lia|].
  destruct (Z.ltb_spec (Z.of_nat i) 29).
  - rewrite (get_bucket_ok _ _ _ _ _ (ok_links _ _ _ Hok) Hns). cbn [mbind res_mbind]. destruct ns as [|p ns]; cbn [first_of].
    + destruct (IH (S i)) as (j & ns' & E & Hj & Hnj & Hne & Hall); [lia|lia|]. exists j, ns'.
      rewrite Z.eqb_refl. replace (Z.of_nat i + 1) with (Z.of_nat (S i)) by lia. split_and!; [done|lia|lia|done|done|].
      intros k Hk. destruct (decide (k = i)); [by subst|]. apply Hall. lia.
    + destruct (list_chunk _ _ _ _ _ p Hok Hns ltac:(by left)) as (c & Hc & _). pose proof (ok_at _ _ _ _ _ Hok Hc) as (Hp & _).
      rewrite (proj2 (Z.eqb_neq _ _)) by done. exists i, (p :: ns). split_and!; [done|lia|lia|done|by left|]. intros. lia.
  - exists i, ns. split_and!; [done|lia|lia|done|right; lia|]. intros. lia.
Qed.

Lemma first_fit_ok s cs ls i n prev ns fuel :
  ok s cs ls -> (forall p, p ∈ ns -> exists c, at_ (lo_bound s) cs p = Some c /\ is_free c = true /\ i = bucket (csize c)) ->
  dlist (lo_bound s) cs prev ns -> (length ns < fuel)%nat ->
  exists n1 n2, ns = n1 ++ n2 /\ first_fit fuel s (first_of ns) n = Ret (first_of n2) /\
    (forall p c, p ∈ n1 -> at_ (lo_bound s) cs p = Some c -> csize c < n) /\
    match n2 with [] => True | p :: _ => exists c, at_ (lo_bound s) cs p = Some c /\ n <= csize c end.
Proof.
  intros Hok. revert prev fuel. induction ns as [|p ns IH]; intros prev fuel Hns Hd Hf; (destruct fuel as [|fuel]; [cbn in Hf; lia|]); cbn [first_fit first_of].
  - exists [], []. split_and!; try done. by intros p c ?%not_elem_of_nil.
  - destruct (Hns p ltac:(by left)) as (c & Hc & Hfr & Hb). destruct (ok_at _ _ _ _ _ Hok Hc) as (Hp0 & _ & _ & _ & Hsz).
    rewrite (proj2 (Z.eqb_neq _ _)) by done. pose proof (ln_words _ _ _ (ok_links _ _ _ Hok)) as Hw.
    rewrite (chunk_size_of_ok _ _ _ _ Hw Hc), Hsz. cbn [mbind res_mbind]. destruct (Z.ltb_spec (csize c) n).
    + destruct Hd as [(c' & r & Hc' & _ & Hbc) Hd]. rewrite Hc in Hc'. injection Hc' as <-.
      destruct (load_links s cs Hw p c _ _ _ Hc Hbc) as [_ ->]. cbn [mbind res_mbind].
      destruct (IH p fuel) as (n1 & n2 & -> & E & Hn1 & Hn2); [intros q Hq; apply Hns; by right|done|cbn in Hf; lia|].
      exists (p :: n1), n2. split_and!; try done. intros q d [->|Hq]%elem_of_cons Hqd; [congruence|eauto].
    + exists [], (p :: ns). split_and!; try done; [by intros q d ?%not_elem_of_nil|]. eauto.
Qed.

(** The search of [mem_malloc]: a free chunk that is big enough, or none is. *)
Lemma find_chunk_ok s cs ls n :
  ok s cs ls -> 24 <= n -> n mod 8 = 0 ->
  exists i ns p, find_bucket (Z.to_nat ZBX_SHMEM_BUCKET_COUNT) s (mem_bucket_by_size n) = Ret (Z.of_nat i) /\ ls !! i = Some ns /\
    (if Z.of_nat i =? ZBX_SHMEM_BUCKET_COUNT - 1 then first_fit (S (length (words s))) s (first_of ns) n else Ret (first_of ns)) = Ret p /\
    ((p = 0 /\ forall q c, at_ (lo_bound s) cs q = Some c -> is_free c = true -> csize c < n) \/
     (exists c, at_ (lo_bound s) cs p = Some c /\ is_free c = true /\ n <= csize c)).
Proof.
  intros Hok Hn Hm. destruct (bucket_range n) as [Hlt Hbv]. rewrite <- Hbv.
  destruct (find_bucket_ok s cs ls (Z.to_nat ZBX_SHMEM_BUCKET_COUNT) (bucket n) Hok Hlt ltac:(change (Z.to_nat ZBX_SHMEM_BUCKET_COUNT) with 30%nat; lia)) as (i & ns & E & Hi & Hns & Hne & Hall).
  exists i, ns. change (ZBX_SHMEM_BUCKET_COUNT - 1) with 29. rewrite E.
  destruct (Z.eqb_spec (Z.of_nat i) 29) as [Hi29|Hi29].
  - pose proof (ln_lists _ _ _ (ok_links _ _ _ Hok)) as HF. rewrite Forall_lookup in HF. specialize (HF _ _ Hns).
    pose proof (list_short _ _ _ _ _ Hok Hns).
    destruct (first_fit_ok s cs ls i n 0 ns (S (length (words s))) Hok) as (n1 & n2 & -> & Ef & Hn1 & Hn2); [|done|lia|].
    { intros p Hp. by eapply list_chunk. }
    exists (first_of n2). split_and!; try done. destruct n2 as [|p n2].
    + left. split; [done|]. intros q c Hq Hf. destruct (ok_at _ _ _ _ _ Hok Hq) as (_ & _ & Hc24 & _).
      destruct (Z.lt_ge_cases (csize c) n) as [|Hge]; [done|]. exfalso.
      destruct (at_split _ _ _ _ Hq) as (l1 & l2 & Hcs & Hql). destruct (free_in_list _ _ _ _ _ _ Hok Hcs Hf) as (m1 & m2 & Hin).
      rewrite <- Hql in Hin. pose proof (bucket_mono n (csize c) ltac:(lia)). pose proof (bucket_range (csize c)).
      destruct (decide (bucket (csize c) = i)) as [Hbi|Hbi].
      * rewrite Hbi, Hns, app_nil_r in Hin. injection Hin as ->. assert (csize c < n); [|lia]. eapply (Hn1 q); [|done]. apply elem_of_app. right. by left.
      * rewrite (Hall (bucket (csize c))) in Hin by lia. injection Hin as Hin. by destruct m1.
    + right. destruct Hn2 as (c & Hc & Hle). exists c. split_and!; try done.
      destruct (list_chunk _ _ _ _ _ p Hok Hns) as (c' & Hc' & Hf & _); [apply elem_of_app; right; by left|]. cbn [first_of] in *. congruence.
  - destruct Hne as [Hne|]; [|lia]. destruct ns as [|p ns]; [done|]. exists p. split_and!; try done. right.
    destruct (list_chunk _ _ _ _ _ p Hok Hns ltac:(by left)) as (c & Hc & Hf & Hb). exists c. split_and!; try done.
    destruct (ok_at _ _ _ _ _ Hok Hc) as (_ & _ & Hc24 & Hc8 & _). apply bucket_fit; try done; lia.
Qed.

Lemma apart_app fs gs : apart (fs ++ gs) = true -> apart fs = true /\ apart gs = true.
Proof.
  induction fs as [|x [|y fs] IH]; [done| |].
  - destruct gs as [|z gs]; [done|]. cbn [app apart]. intros [_ H]%andb_true_iff. done.
  - change (apart ((x :: y :: fs) ++ gs)) with (negb (x && y) && apart ((y :: fs) ++ gs)). intros [H1 [H2 H3]%IH]%andb_true_iff.
    split; [|done]. change (negb (x && y) && apart (y :: fs) = true). by rewrite H1, H2.
Qed.

Lemma apart_tail x fs : apart (x :: fs) = true -> apart fs = true.
Proof. intros H. by apply (apart_app [x] fs) in H as [_ H]. Qed.

(** An operation that replaced the chunks [mid] by [mid'] and listed the free
    ones keeps the invariant. *)
Lemma assemble s l1 mid l2 ls s' l1' mid' l2' ls' :
  ok s (l1 ++ mid ++ l2) ls -> links s' (l1' ++ mid' ++ l2') ls' -> Forall2 fsim l1 l1' -> Forall2 fsim l2 l2' ->
  Forall tagged mid' -> spans mid' = spans mid -> length ls' = 30%nat ->
  indexed ls' ≡ₚ frees (lo_bound s + spans l1) mid' ++ frees (lo_bound s) l1 ++ frees (lo_bound s + spans l1 + spans mid) l2 ->
  apart ((is_free <$> l1) ++ (is_free <$> mid') ++ (is_free <$> l2)) = true -> geom s' = geom s ->
  used_size s' = u64 (used_size s + (usum mid' - usum mid)) -> free_size s' = u64 (free_size s + (fsum mid' - fsum mid)) ->
  ok s' (l1' ++ mid' ++ l2') ls' /\
  blocks (lo_bound s') (l1' ++ mid' ++ l2') =
    blocks (lo_bound s) l1 ++ blocks (lo_bound s + spans l1) mid' ++ blocks (lo_bound s + spans l1 + spans mid) l2.
Proof.
  intros Hok HL F1 F2 Ht Hsp Hlen P Hap Hg Hu Hf. unfold geom in Hg. injection Hg as Hlo Hhi Ho Hto Hoom Hlk.
  pose proof (fsim_spans _ _ F1) as S1. pose proof (fsim_spans _ _ F2) as S2.
  destruct (fsim_sums _ _ F1) as [U1 W1], (fsim_sums _ _ F2) as [U2 W2].
  pose proof (ok_hi _ _ _ Hok) as Hhi'. pose proof (ok_max _ _ _ Hok) as Hmax. pose proof (ln_lo _ _ _ (ok_links _ _ _ Hok)) as Hlo0.
  pose proof (ok_used _ _ _ Hok) as Hus. pose proof (ok_free _ _ _ Hok) as Hfs. pose proof (ok_total _ _ _ Hok) as Hts.
  rewrite !spans_app in Hhi', Hts. rewrite !usum_app in Hus. rewrite !fsum_app in Hfs.
  pose proof (sums_spans l1). pose proof (sums_spans mid'). pose proof (sums_spans l2).
  pose proof (zlen_nonneg l1). pose proof (zlen_nonneg mid'). pose proof (zlen_nonneg l2). split.
  - split; try done; rewrite ?Hlo, ?Hhi, ?Hto, ?spans_app, ?usum_app, ?fsum_app, ?S1, ?S2, ?Hsp, ?U1, ?U2, ?W1, ?W2.
    + pose proof (ok_tagged _ _ _ Hok) as HF. rewrite !Forall_app in HF. destruct HF as (HF1 & _ & HF2).
      rewrite !Forall_app. split_and!; [by eapply fsim_tagged|done|by eapply fsim_tagged].
    + rewrite P, !frees_app, Hsp, S1, (fsim_frees _ _ _ F1), (fsim_frees _ _ _ F2).
      rewrite !(assoc_L (++)). apply Permutation_app_tail, Permutation_app_comm.
    + by rewrite !fmap_app, (fsim_flags _ _ F1), (fsim_flags _ _ F2).
    + rewrite Hu, u64_small; lia.
    + rewrite Hf, u64_small; lia.
    + lia.
    + lia.
    + lia.
  - rewrite Hlo, !blocks_app, S1, Hsp, (fsim_blocks _ _ _ F1), (fsim_blocks _ _ _ F2). done.
Qed.

(** Unlinking a free chunk. *)
Lemma unlink_free s l1 c l2 ls :
  links s (l1 ++ c :: l2) ls -> length ls = 30%nat -> CHUNK_SIZE (hd c) = csize c ->
  (bucket (csize c), lo_bound s + spans l1) ∈ indexed ls ->
  exists s' l1' c' l2' ls', mem_unlink_chunk s (lo_bound s + spans l1) = Ret s' /\ links s' (l1' ++ c' :: l2') ls' /\
    Forall2 fsim l1 l1' /\ fsim c c' /\ Forall2 fsim l2 l2' /\ length ls' = 30%nat /\
    indexed ls ≡ₚ (bucket (csize c), lo_bound s + spans l1) :: indexed ls' /\ (lo_bound s + spans l1 ∉ concat ls') /\ meta s' = meta s.
Proof.
  intros HL Hlen Hsz Hin. apply elem_of_indexed in Hin as (ns & Hns & Hin). apply list_elem_of_split in Hin as (n1 & n2 & ->).
  destruct (unlink_ok s _ ls _ c (bucket (csize c)) n1 n2 HL (at_middle _ l1 c l2)) as (s' & cs' & E & HL' & F & Hm); [|done|].
  { rewrite Hsz. symmetry. apply bucket_range. }
  apply Forall2_app_inv_l in F as (l1' & tl & F1 & F & ->). apply Forall2_cons_inv_l in F as (c' & l2' & Fc & F2 & ->).
  exists s', l1', c', l2', (<[bucket (csize c) := n1 ++ n2]> ls). split_and!; try done.
  - by rewrite length_insert.
  - by apply indexed_remove.
  - pose proof (ln_nodup _ _ _ HL) as ND. rewrite (lists_perm_remove _ _ _ _ _ Hns) in ND. by apply NoDup_cons in ND as [? _].
Qed.

Lemma mk_tagged used w : (3 <= length w)%nat -> tagged (mk used w).
Proof. intros H. split; [by exists used|done]. Qed.

(** Using a chunk that was taken out of the lists, in place of [mid]. *)
Lemma use_chunk_ok s l1 mid l2 ls s1 l1' c l2' ls1 n :
  ok s (l1 ++ mid ++ l2) ls -> links s1 (l1' ++ c :: l2') ls1 -> Forall2 fsim l1 l1' -> Forall2 fsim l2 l2' -> length ls1 = 30%nat ->
  spans mid = 16 + csize c -> csize c < 2 ^ 62 -> geom s1 = geom s -> n mod 8 = 0 -> 24 <= n <= csize c ->
  lo_bound s + spans l1 ∉ concat ls1 -> indexed ls1 ≡ₚ frees (lo_bound s) l1 ++ frees (lo_bound s + spans l1 + spans mid) l2 ->
  apart (is_free <$> l1) = true -> apart (true :: (is_free <$> l2)) = true ->
  u64 (used_size s1) = u64 (used_size s - usum mid) -> u64 (free_size s1) = u64 (free_size s + (csize c - fsum mid)) ->
  exists s2 w cs2 ls2, use_or_split s1 (lo_bound s + spans l1) (csize c) n = Ret s2 /\ ok s2 cs2 ls2 /\ geom s2 = geom s /\
    n <= 8 * zlen w /\ (is_free c = false -> exists t, body c = w ++ t) /\
    blocks (lo_bound s) cs2 =
      blocks (lo_bound s) l1 ++ (lo_bound s + spans l1 + 8, w) :: blocks (lo_bound s + spans l1 + spans mid) l2.
Proof.
  intros Hok HL F1 F2 Hlen Hsp Hmax Hg Hn8 Hn Hp P Ha1 Ha2 Hu Hf.
  assert (Hlo : lo_bound s1 = lo_bound s) by (unfold geom in Hg; congruence).
  assert (Hp1 : lo_bound s + spans l1 = lo_bound s1 + spans l1') by (by rewrite Hlo, (fsim_spans _ _ F1)). rewrite Hp1 in Hp |- *.
  destruct (use_or_split_ok s1 l1' c l2' ls1 n HL Hlen Hp Hmax Hn8 Hn) as
    (s2 & l1'' & w & rest & l2'' & ls2 & E & HL2 & Hlen2 & G1 & G2 & Hw & Hpre & Hrest & Hsp2 & P2 & Hm2).
  rewrite <- Hp1 in P2. destruct (meta_geom _ _ _ _ Hm2) as (Hg2 & Hu2 & Hf2). destruct (leftover_facts _ Hrest) as (Ht & Hus & Hbl & Hap).
  assert (Hwmax : 8 * zlen w < 2 ^ 62). { rewrite spans_cons in Hsp2. pose proof (spans_nonneg rest). unfold csize at 1 in Hsp2. cbn [body mk] in Hsp2. lia. }
  assert (Hfr : is_free (mk true w) = false) by (by rewrite mk_free by lia).
  destruct (assemble s l1 mid l2 ls s2 l1'' (mk true w :: rest) l2'' ls2) as [Hok2 Hb]; try done.
  - by eapply fsim_all_trans.
  - by eapply fsim_all_trans.
  - constructor; [|done]. apply mk_tagged. unfold zlen in *. lia.
  - lia.
  - rewrite P2, P. cbn [frees]. rewrite Hfr. cbn [app]. unfold csize. cbn [body mk]. by rewrite !Z.add_assoc.
  - rewrite fmap_cons, Hfr. cbn [app]. rewrite apart_used, Ha1. by apply Hap.
  - congruence.
  - rewrite Hu2, <- u64_add_l, Hu, u64_add_l. f_equal. unfold usum in *. cbn [foldr]. rewrite Hfr, Hus. unfold csize. cbn [body mk]. lia.
  - rewrite Hf2, <- u64_add_l, Hf, u64_add_l. f_equal. unfold fsum in *. cbn [foldr]. rewrite Hfr. lia.
  - exists s2, w, (l1'' ++ (mk true w :: rest) ++ l2''), ls2. split_and!; try done; [congruence|].
    replace (lo_bound s2) with (lo_bound s) in Hb by (unfold geom in *; congruence). rewrite Hb. cbn [blocks]. rewrite Hfr, Hbl. cbn [app]. by rewrite <- Hp1.
Qed.

(** [mem_malloc] fails only when no free chunk is big enough; otherwise it
    adds one block and leaves the others as they are. *)
Lemma malloc_ok s cs ls size :
  ok s cs ls -> 0 <= size <= SHMEM_MAX_SIZE + 7 ->
  let n := mem_proper_alloc_size size in
  (mem_malloc s size = Ret (s, 0) /\ forall q c, at_ (lo_bound s) cs q = Some c -> is_free c = true -> csize c < n) \/
  (exists s' p w cs' ls' b1 b2, mem_malloc s size = Ret (s', p) /\ p <> 0 /\ ok s' cs' ls' /\ geom s' = geom s /\ n <= 8 * zlen w /\
     blocks (lo_bound s) cs = b1 ++ b2 /\ blocks (lo_bound s) cs' = b1 ++ (p + 8, w) :: b2).
Proof.
  intros Hok Hs n. destruct (proper_size size ltac:(lia)) as (Hn1 & Hn8 & Hn24). fold n in Hn1, Hn8, Hn24.
  destruct (find_chunk_ok s cs ls n Hok ltac:(lia) Hn8) as (i & ns & p & E & Hns & Ep & Hp).
  unfold mem_malloc. fold n. rewrite E. cbn [mbind res_mbind]. rewrite (get_bucket_ok _ _ _ _ _ (ok_links _ _ _ Hok) Hns).
  cbn [mbind res_mbind]. rewrite Ep. cbn [mbind res_mbind]. destruct Hp as [[-> Hp]|(c & Hc & Hf & Hle)]; [by left|right].
  destruct (ok_at _ _ _ _ _ Hok Hc) as (Hp0 & _ & Hc24 & Hc8 & Hsz). rewrite (proj2 (Z.eqb_neq _ _)) by done.
  rewrite (chunk_size_of_ok _ _ _ _ (ln_words _ _ _ (ok_links _ _ _ Hok)) Hc), Hsz. cbn [mbind res_mbind].
  destruct (at_split _ _ _ _ Hc) as (l1 & l2 & -> & ->). clear Hc.
  destruct (unlink_free s l1 c l2 ls (ok_links _ _ _ Hok) (ok_len _ _ _ Hok) Hsz) as
    (s1 & l1' & c' & l2' & ls1 & -> & HL1 & F1 & Fc & F2 & Hlen1 & P1 & Hn & Hm1).
  { rewrite (ok_frees _ _ _ Hok), frees_app. apply elem_of_app. right. cbn [frees]. rewrite Hf. by left. }
  cbn [mbind res_mbind]. rewrite <- (fsim_csize _ _ Fc) in Hle, Hc24 |- *.
  assert (Hfl : apart ((is_free <$> l1) ++ true :: (is_free <$> l2)) = true).
  { pose proof (ok_apart _ _ _ Hok) as Ha. by rewrite fmap_app, fmap_cons, Hf in Ha. }
  apply apart_app in Hfl as [Hfl1 Hfl2].
  assert (Hsp : spans [c] = 16 + csize c') by (rewrite spans_cons, spans_nil, (fsim_csize _ _ Fc); lia).
  destruct (use_chunk_ok s l1 [c] l2 ls s1 l1' c' l2' ls1 n) as (s2 & w & cs2 & ls2 & -> & Hok2 & Hg2 & Hw & _ & Hb2); try done; try lia.
  - unfold geom, meta in *. congruence.
  - apply (Permutation_cons_inv (a := (bucket (csize c), lo_bound s + spans l1))). rewrite <- P1, (ok_frees _ _ _ Hok), frees_app.
    cbn [frees]. rewrite Hf, spans_cons, spans_nil. cbn [app]. rewrite <- Permutation_middle, Z.add_0_r. done.
  - f_equal. unfold meta in Hm1. cbn. rewrite Hf. replace (used_size s1) with (used_size s) by congruence. lia.
  - f_equal. unfold meta in Hm1. cbn. rewrite Hf, (fsim_csize _ _ Fc). replace (free_size s1) with (free_size s) by congruence. lia.
  - cbn [mbind res_mbind]. exists s2, (lo_bound s + spans l1), w, cs2, ls2, (blocks (lo_bound s) l1), (blocks (lo_bound s + spans l1 + spans [c]) l2).
    split_and!; try done. rewrite blocks_app. cbn [blocks]. rewrite Hf, spans_cons, spans_nil, Z.add_0_r. done.
Qed.

(** ** Freeing *)

Lemma apart_join fs gs : apart (fs ++ [true]) = true -> apart (true :: gs) = true -> apart (fs ++ true :: gs) = true.
Proof.
  induction fs as [|x [|y fs] IH]; [done| |].
  - cbn [app apart]. intros [H _]%andb_true_iff H'. by rewrite H.
  - change ((negb (x && y) && apart ((y :: fs) ++ [true])) = true -> apart (true :: gs) = true ->
      negb (x && y) && apart ((y :: fs) ++ true :: gs) = true).
    intros [-> H]%andb_true_iff H'. by apply IH.
Qed.

Lemma unlink_at s cs ls p c :
  links s cs ls -> length ls = 30%nat -> at_ (lo_bound s) cs p = Some c -> CHUNK_SIZE (hd c) = csize c ->
  (bucket (csize c), p) ∈ indexed ls ->
  exists s' cs' ls', mem_unlink_chunk s p = Ret s' /\ links s' cs' ls' /\ Forall2 fsim cs cs' /\ length ls' = 30%nat /\
    indexed ls ≡ₚ (bucket (csize c), p) :: indexed ls' /\ meta s' = meta s.
Proof.
  intros HL Hlen (l1 & l2 & -> & ->)%at_split Hsz Hin.
  destruct (unlink_free s l1 c l2 ls HL Hlen Hsz Hin) as (s' & l1' & c' & l2' & ls' & ? & ? & ? & ? & ? & ? & ? & _ & ?).
  exists s', (l1' ++ c' :: l2'), ls'. split_and!; try done. apply Forall2_app; [done|]. by constructor.
Qed.

(** Several chunks in a row are one bigger chunk. *)
Lemma join_chunks mid : mid <> [] -> exists c, flatten [c] = flatten mid /\ csize c = spans mid - 16.
Proof.
  induction mid as [|c [|d mid] IH]; [done| |]; intros _.
  - exists c. split; [done|]. rewrite spans_cons, spans_nil. lia.
  - destruct IH as (e & He & Hs); [done|]. exists (Chunk (hd c) (body c ++ ft c :: hd e :: body e) (ft e)). split.
    + rewrite (flatten_cons c), <- He. unfold flatten, cwords. cbn. rewrite !app_nil_r, <- !(assoc_L (++)). done.
    + rewrite (spans_cons c). unfold csize in *. cbn [body]. rewrite zlen_app, !zlen_cons. lia.
Qed.

Lemma frees_outside a l1 mid l2 i q : (i, q) ∈ frees a l1 ++ frees (a + spans l1 + spans mid) l2 -> forall mid', spans mid' = spans mid -> at_ (a + spans l1) mid' q = None.
Proof.
  intros H mid' Hsp. apply at_None. apply elem_of_app in H as [(c & Hc & _)%frees_at|(c & Hc & _)%frees_at]; apply at_range in Hc;
    pose proof (csize_nonneg c); lia.
Qed.

(** The chunks [mid], taken out of the lists, become one free chunk. *)
Lemma finish_free s l1 mid l2 ls s1 cs1 ls1 :
  ok s (l1 ++ mid ++ l2) ls -> links s1 cs1 ls1 -> Forall2 fsim (l1 ++ mid ++ l2) cs1 -> length ls1 = 30%nat ->
  mid <> [] -> 40 <= spans mid -> geom s1 = geom s ->
  indexed ls1 ≡ₚ frees (lo_bound s) l1 ++ frees (lo_bound s + spans l1 + spans mid) l2 ->
  apart ((is_free <$> l1) ++ [true]) = true -> apart (true :: (is_free <$> l2)) = true ->
  used_size s1 = u64 (used_size s - usum mid) -> free_size s1 = u64 (free_size s + (spans mid - 16 - fsum mid)) ->
  exists s2 cs2 ls2 c2, (s' ← mem_set_chunk_size s1 (lo_bound s + spans l1) (spans mid - 16); mem_link_chunk s' (lo_bound s + spans l1)) = Ret s2 /\
    ok s2 cs2 ls2 /\ geom s2 = geom s /\ at_ (lo_bound s) cs2 (lo_bound s + spans l1) = Some c2 /\ is_free c2 = true /\ csize c2 = spans mid - 16 /\
    blocks (lo_bound s) cs2 = blocks (lo_bound s) l1 ++ blocks (lo_bound s + spans l1 + spans mid) l2.
Proof.
  intros Hok HL F Hlen Hne H40 Hg P Ha1 Ha2 Hu Hf. assert (Hlo : lo_bound s1 = lo_bound s) by (unfold geom in Hg; congruence).
  apply Forall2_app_inv_l in F as (l1' & tl & F1 & F & ->). apply Forall2_app_inv_l in F as (mid' & l2' & Fm & F2 & ->).
  pose proof (fsim_spans _ _ F1) as S1. pose proof (fsim_spans _ _ Fm) as Sm.
  assert (Hout : forall q m, q ∈ concat ls1 -> spans m = spans mid -> at_ (lo_bound s + spans l1) m q = None).
  { intros q m [i Hi]%in_indexed Hm. rewrite P in Hi. by eapply frees_outside. }
  destruct (join_chunks mid') as (c & Hc & Hcs); [intros ->; by apply Forall2_nil_inv_r in Fm|]. rewrite Sm in Hcs.
  assert (HL1 : links s1 (l1' ++ c :: l2') ls1).
  { apply (links_recut s1 l1' mid' [c] l2'); [done|done|]. intros q Hq. rewrite Hlo, S1. by apply Hout. }
  assert (Hp : lo_bound s1 + spans l1' = lo_bound s + spans l1) by (by rewrite Hlo, S1).
  assert (Hpn : lo_bound s + spans l1 ∉ concat ls1).
  { intros H. specialize (Hout _ [c] H). rewrite spans_cons, spans_nil in Hout. specialize (Hout ltac:(lia)). cbn in Hout. by rewrite Z.eqb_refl in Hout. }
  destruct (set_chunk_size_ok s1 l1' c l2' ls1 false (spans mid - 16) HL1) as [E HL2]; [by rewrite Hp|done|]. cbv zeta in E, HL2.
  rewrite Hp in E. rewrite E. cbn [mbind res_mbind]. set (s2 := set_words s1 _) in *. set (d := mk false (body c)) in *.
  pose proof (ok_hi _ _ _ Hok) as Hhi. pose proof (ok_max _ _ _ Hok). pose proof (ln_lo _ _ _ (ok_links _ _ _ Hok)).
  rewrite !spans_app in Hhi. pose proof (spans_nonneg l1). pose proof (spans_nonneg l2).
  assert (Hdm : 8 * zlen (body c) < 2 ^ 62) by (unfold csize in Hcs; lia).
  assert (Hdf : is_free d = true) by (unfold d; by rewrite mk_free by lia).
  assert (Hds : csize d = spans mid - 16) by exact Hcs.
  assert (Hat : at_ (lo_bound s2) (l1' ++ d :: l2') (lo_bound s + spans l1) = Some d) by (rewrite <- Hp; apply at_middle).
  destruct (lookup_lt_is_Some_2 ls1 (bucket (csize d))) as [ns Hns]; [rewrite Hlen; apply bucket_range|].
  assert (exists x y r, body d = x :: y :: r) as (x & y & r & Hb).
  { unfold csize in Hds. destruct (body d) as [|x [|y r]]; [lens|lens|eauto]. }
  destruct (link_ok s2 _ ls1 _ d (bucket (csize d)) ns x y r HL2 Hat Hdf Hb Hpn) as (s3 & cs3 & -> & HL3 & F3 & Hm3); [|done|].
  { unfold d at 1. rewrite mk_size by lia. symmetry. apply bucket_range. }
  apply Forall2_app_inv_l in F3 as (l1'' & tl & G1 & F3 & ->). apply Forall2_cons_inv_l in F3 as (d' & l2'' & Gd & G2 & ->).
  assert (Hd' : is_free d' = true) by (by rewrite (fsim_is_free _ _ Gd)).
  assert (Hds' : csize d' = spans mid - 16) by (by rewrite (fsim_csize _ _ Gd)).
  assert (Hm3' : geom s3 = geom s /\ used_size s3 = used_size s1 /\ free_size s3 = free_size s1) by (unfold meta, geom in *; split_and!; cbn in *; congruence).
  destruct Hm3' as (Hg3 & Hu3 & Hf3).
  destruct (assemble s l1 mid l2 ls s3 l1'' [d'] l2'' (<[bucket (csize d) := (lo_bound s + spans l1) :: ns]> ls1)) as [Hok3 Hb3]; try done.
  - by eapply fsim_all_trans.
  - by eapply fsim_all_trans.
  - eapply fsim_tagged; [by constructor; [exact Gd|]|]. constructor; [|constructor]. apply mk_tagged. unfold csize, zlen in Hds. cbn [body mk d] in Hds. lia.
  - rewrite spans_cons, spans_nil. lia.
  - by rewrite length_insert.
  - rewrite indexed_insert by done. rewrite P. cbn [frees]. rewrite Hd', Hds, Hds'. done.
  - cbn [fmap list_fmap app]. rewrite Hd'. by apply apart_join.
  - rewrite Hu3, Hu. f_equal. cbn. rewrite Hd'. lia.
  - rewrite Hf3, Hf. f_equal. cbn. rewrite Hd'. lia.
  - assert (Hlo3 : lo_bound s3 = lo_bound s) by (unfold geom in Hg3; congruence). rewrite Hlo3 in Hb3.
    exists s3, (l1'' ++ [d'] ++ l2''), (<[bucket (csize d) := (lo_bound s + spans l1) :: ns]> ls1), d'. split_and!; try done.
    + replace (spans l1) with (spans l1''); [apply at_middle|]. by rewrite (fsim_spans _ _ G1), S1.
    + rewrite Hb3. cbn [blocks]. by rewrite Hd'.
Qed.

Definition prev_free (l1 : list chunk) : bool := match last l1 with Some a => is_free a | None => false end.
Definition next_free (l2 : list chunk) : bool := match l2 with b :: _ => is_free b | [] => false end.

(** The room a free neighbour adds. *)
Definition prev_room (l1 : list chunk) : Z := match last l1 with Some a => if is_free a then csize a + 16 else 0 | None => 0 end.
Definition next_room (l2 : list chunk) : Z := match l2 with b :: _ => if is_free b then csize b + 16 else 0 | [] => 0 end.

Section neighbours.
Variables (s : shmem) (l1 : list chunk) (c : chunk) (l2 : list chunk).
Hypothesis Hw : words s = flatten (l1 ++ c :: l2).
Hypothesis Hhi : lo_bound s + spans (l1 ++ c :: l2) = hi_bound s.

Lemma prev_is_free_ok : Forall tagged l1 -> prev_is_free s (lo_bound s + spans l1) = Ret (prev_free l1).
Proof using Hw.
  clear Hhi. intros HF. unfold prev_is_free, prev_free. destruct l1 as [|a l0 _] using rev_ind.
  - rewrite spans_nil, Z.add_0_r, Z.ltb_irrefl. done.
  - rewrite last_snoc, spans_app, spans_cons, spans_nil. pose proof (csize_nonneg a). pose proof (spans_nonneg l0).
    rewrite (proj2 (Z.ltb_lt _ _)) by lia. rewrite <- (assoc_L (++)) in Hw.
    pose proof (load_ft s _ Hw _ a (at_middle _ l0 a (c :: l2))) as E. unfold SHMEM_SIZE_FIELD.
    replace (lo_bound s + (spans l0 + (16 + csize a + 0)) - 8) with (lo_bound s + spans l0 + 8 + csize a) by lia. rewrite E. cbn.
    apply Forall_app in HF as [_ [[[u Hu] _] _]%Forall_cons]. rewrite Hu. done.
Qed.

Lemma next_is_free_ok : next_is_free s (lo_bound s + spans l1 + 8 + csize c + 8) = Ret (next_free l2).
Proof using Hw Hhi.
  unfold next_is_free, next_free. rewrite spans_app, spans_cons in Hhi. destruct l2 as [|b l3].
  - rewrite spans_nil in Hhi. rewrite (proj2 (Z.ltb_ge _ _)) by lia. done.
  - rewrite spans_cons in Hhi. pose proof (csize_nonneg b). pose proof (spans_nonneg l3). rewrite (proj2 (Z.ltb_lt _ _)) by lia.
    assert (Hat : at_ (lo_bound s) (l1 ++ c :: b :: l3) (lo_bound s + spans l1 + 8 + csize c + 8) = Some b).
    { replace (lo_bound s + spans l1 + 8 + csize c + 8) with (lo_bound s + spans (l1 ++ [c])) by (rewrite spans_app, spans_cons, spans_nil; lia).
      pose proof (at_middle (lo_bound s) (l1 ++ [c]) b l3) as E. by rewrite <- (assoc_L (++)) in E. }
    by rewrite (load_hd s _ Hw _ _ Hat).
Qed.

End neighbours.

Lemma apart_prev l1 fs : apart ((is_free <$> l1) ++ false :: fs) = true ->
  (prev_free l1 = false -> apart ((is_free <$> l1) ++ [true]) = true) /\
  (forall l0 a, l1 = l0 ++ [a] -> is_free a = true -> apart ((is_free <$> l0) ++ [true]) = true).
Proof.
  rewrite apart_used. intros [H _]%andb_true_iff. unfold prev_free. split.
  - destruct l1 as [|a l0 _] using rev_ind; [done|]. rewrite last_snoc. intros Hf. rewrite fmap_app in *. cbn [fmap list_fmap] in *.
    rewrite Hf in *. rewrite <- (assoc_L (++)). cbn [app]. rewrite apart_used. by apply apart_app in H as [-> _].
  - intros l0 a -> Hf. rewrite fmap_app in H. cbn in H. by rewrite Hf in H.
Qed.

Lemma apart_next l2 fs : apart (fs ++ false :: (is_free <$> l2)) = true ->
  (next_free l2 = false -> apart (true :: (is_free <$> l2)) = true) /\
  (forall b l3, l2 = b :: l3 -> is_free b = true -> apart (true :: (is_free <$> l3)) = true).
Proof.
  rewrite apart_used. intros [_ H]%andb_true_iff. unfold next_free. split.
  - destruct l2 as [|b l3]; [done|]. intros Hf. rewrite fmap_cons, Hf in *. cbn [apart]. done.
  - intros b l3 -> Hf. by rewrite fmap_cons, Hf in H.
Qed.

Lemma ok_tagged_app s l1 c l2 ls : ok s (l1 ++ c :: l2) ls -> Forall tagged l1 /\ tagged c /\ Forall tagged l2.
Proof. intros Hok. pose proof (ok_tagged _ _ _ Hok) as HF. rewrite Forall_app, Forall_cons in HF. done. Qed.

Lemma listed s l1 c l2 ls : ok s (l1 ++ c :: l2) ls -> is_free c = true -> (bucket (csize c), lo_bound s + spans l1) ∈ indexed ls.
Proof. intros Hok Hf. rewrite (ok_frees _ _ _ Hok), frees_app. apply elem_of_app. right. cbn [frees]. rewrite Hf. by left. Qed.

Lemma csize_min c : tagged c -> 24 <= csize c.
Proof. intros [_ H]. unfold csize, zlen. lia. Qed.

Lemma prev_free_inv l1 : prev_free l1 = true -> exists l0 a, l1 = l0 ++ [a] /\ is_free a = true.
Proof. unfold prev_free. destruct l1 as [|a l0 _] using rev_ind; [done|]. rewrite last_snoc. eauto. Qed.

Lemma next_free_inv l2 : next_free l2 = true -> exists b l3, l2 = b :: l3 /\ is_free b = true.
Proof. unfold next_free. destruct l2; [done|]. eauto. Qed.

Lemma rooms l0 a b l3 : is_free a = true -> is_free b = true -> prev_room (l0 ++ [a]) = csize a + 16 /\ next_room (b :: l3) = csize b + 16.
Proof. intros Ha Hb. unfold prev_room, next_room. by rewrite last_snoc, Ha, Hb. Qed.

Lemma no_prev_room l1 : prev_free l1 = false -> prev_room l1 = 0.
Proof. unfold prev_free, prev_room. destruct (last l1); [|done]. by intros ->. Qed.

Lemma no_next_room l2 : next_free l2 = false -> next_room l2 = 0.
Proof. unfold next_free, next_room. destruct l2; [done|]. by intros ->. Qed.

(** The address of the free chunk before another one. *)
Lemma prev_chunk_ok s l0 a rest :
  words s = flatten (l0 ++ a :: rest) -> tagged a -> csize a < 2 ^ 63 ->
  prev_chunk_of s (lo_bound s + spans l0 + (16 + csize a)) = Ret (lo_bound s + spans l0).
Proof.
  intros Hw [[u Hu] _] Hmax. unfold prev_chunk_of, chunk_size_of, SHMEM_SIZE_FIELD.
  replace (lo_bound s + spans l0 + (16 + csize a) - 8) with (lo_bound s + spans l0 + 8 + csize a) by lia.
  rewrite (load_ft s _ Hw _ a (at_middle _ l0 a rest)). cbn [mbind res_mbind].
  replace (CHUNK_SIZE (ft a)) with (csize a); [f_equal; lia|].
  rewrite Hu at 2. cbn. rewrite tag_size; [done|]. pose proof (zlen_nonneg (body a)). unfold csize in *. lia.
Qed.

(** The result of [mem_free]: the block is gone, the others are as before and
    there is a free chunk with its memory and that of its free neighbours. *)
Definition freed (s : shmem) (l1 : list chunk) (c : chunk) (l2 : list chunk) (r : res shmem) : Prop :=
  exists s' cs' ls' q d, r = Ret s' /\ ok s' cs' ls' /\ geom s' = geom s /\
    blocks (lo_bound s) cs' = blocks (lo_bound s) l1 ++ blocks (lo_bound s + spans l1 + (16 + csize c)) l2 /\
    at_ (lo_bound s) cs' q = Some d /\ is_free d = true /\ csize d = csize c + prev_room l1 + next_room l2.

(** The neighbours that are merged. *)
Definition merged (m : list chunk) : Prop := m = [] \/ exists a, m = [a] /\ is_free a = true.

Lemma merged_facts m : merged m -> usum m = 0 /\ fsum m = spans m - 16 * zlen m /\ forall a, blocks a m = [].
Proof.
  intros [->|(a & -> & Ha)]; [done|]. unfold usum, fsum. cbn [foldr blocks]. rewrite Ha, spans_cons, spans_nil, zlen_cons, (zlen_nil (A:=chunk)). split_and!; [done|lia|done].
Qed.

Lemma finish_freed s l0 pm c nm l3 ls s1 cs1 ls1 :
  ok s (l0 ++ (pm ++ c :: nm) ++ l3) ls -> is_free c = false -> merged pm -> merged nm ->
  prev_room (l0 ++ pm) = spans pm -> next_room (nm ++ l3) = spans nm ->
  links s1 cs1 ls1 -> Forall2 fsim (l0 ++ (pm ++ c :: nm) ++ l3) cs1 -> length ls1 = 30%nat -> geom s1 = geom s ->
  indexed ls1 ≡ₚ frees (lo_bound s) l0 ++ frees (lo_bound s + spans l0 + spans (pm ++ c :: nm)) l3 ->
  apart ((is_free <$> l0) ++ [true]) = true -> apart (true :: (is_free <$> l3)) = true ->
  used_size s1 = u64 (used_size s - csize c) -> free_size s1 = u64 (free_size s + (csize c + 16 * (zlen pm + zlen nm))) ->
  freed s (l0 ++ pm) c (nm ++ l3)
    (s' ← mem_set_chunk_size s1 (lo_bound s + spans l0) (csize c + spans pm + spans nm); mem_link_chunk s' (lo_bound s + spans l0)).
Proof.
  intros Hok Hc Hpm Hnm Rp Rn HL F Hlen Hg P A1 A2 Hu Hf. destruct (merged_facts _ Hpm) as (U1 & W1 & B1), (merged_facts _ Hnm) as (U2 & W2 & B2).
  assert (Hsp : spans (pm ++ c :: nm) = 16 + csize c + spans pm + spans nm) by (rewrite spans_app, spans_cons; lia).
  assert (H24 : 24 <= csize c).
  { apply csize_min. pose proof (ok_tagged _ _ _ Hok) as HF. rewrite !Forall_app, Forall_cons in HF. tauto. }
  pose proof (spans_nonneg pm). pose proof (spans_nonneg nm).
  destruct (finish_free s l0 (pm ++ c :: nm) l3 ls s1 cs1 ls1) as (s2 & cs2 & ls2 & c2 & E & Hok2 & Hg2 & Hat & Hfr & Hcs & Hb); try done.
  - by destruct pm.
  - lia.
  - rewrite Hu. f_equal. rewrite usum_app. unfold usum at 2. cbn [foldr]. rewrite Hc. fold (usum nm). lia.
  - rewrite Hf. f_equal. rewrite fsum_app. unfold fsum at 2. cbn [foldr]. rewrite Hc. fold (fsum nm). lia.
  - replace (spans (pm ++ c :: nm) - 16) with (csize c + spans pm + spans nm) in E by lia.
    exists s2, cs2, ls2, (lo_bound s + spans l0), c2. split_and!; try done; [|lia].
    rewrite Hb, !blocks_app, B1, B2, app_nil_r, Hsp, spans_app. cbn [app]. do 2 f_equal. lia.
Qed.

(** Unlinking a free neighbour while the block is freed. *)
Lemma unlink_neighbour s cs ls s0 cs0 ls0 p a l1 l2 :
  ok s cs ls -> cs = l1 ++ a :: l2 -> is_free a = true -> p = lo_bound s + spans l1 ->
  links s0 cs0 ls0 -> Forall2 fsim cs cs0 -> length ls0 = 30%nat -> lo_bound s0 = lo_bound s -> (bucket (csize a), p) ∈ indexed ls0 ->
  chunk_size_of s0 p = Ret (csize a) /\
  exists s' cs' ls', mem_unlink_chunk s0 p = Ret s' /\ links s' cs' ls' /\ Forall2 fsim cs cs' /\ length ls' = 30%nat /\
    indexed ls0 ≡ₚ (bucket (csize a), p) :: indexed ls' /\ meta s' = meta s0.
Proof.
  intros Hok -> Ha -> HL F Hlen Hlo Hin. pose proof (at_middle (lo_bound s) l1 a l2) as Hat. destruct (ok_at _ _ _ _ _ Hok Hat) as (_ & _ & _ & _ & Hsz).
  destruct (fsim_at _ _ _ _ _ F Hat) as (d & Hd & Fd). rewrite <- Hlo in Hd |- *.
  assert (Hsd : CHUNK_SIZE (hd d) = csize d) by (rewrite (fsim_csize _ _ Fd), <- Hsz; by destruct Fd as (-> & _)).
  rewrite (chunk_size_of_ok _ _ _ _ (ln_words _ _ _ HL) Hd), Hsd. rewrite <- (fsim_csize _ _ Fd) in Hin |- *. split; [done|].
  rewrite <- Hlo in Hin.
  destruct (unlink_at s0 cs0 ls0 _ d HL Hlen Hd Hsd Hin) as (s' & cs' & ls' & ? & ? & ? & ? & ? & ?).
  exists s', cs', ls'. split_and!; try done. by eapply fsim_all_trans.
Qed.

(** The state of [mem_free] after its first lines. *)
Section merging.
Variables (s : shmem) (c : chunk) (ls : list (list Z)).
Hypothesis Hc : is_free c = false.
#[local] Abbreviation s1 := (add_sizes s (- csize c) (csize c)).

Lemma used_frees l1 l2 : ok s (l1 ++ c :: l2) ls -> indexed ls ≡ₚ frees (lo_bound s) l1 ++ frees (lo_bound s + spans l1 + (16 + csize c)) l2.
Proof using Hc. intros Hok. rewrite (ok_frees _ _ _ Hok), frees_app. cbn [frees]. by rewrite Hc. Qed.

Lemma links_s1 cs x y : ok s cs ls -> links (add_sizes s1 x y) cs ls.
Proof using. intros Hok. by apply links_add_sizes, links_add_sizes, Hok. Qed.

Lemma used_freed s3 k : used_size s3 = u64 (used_size s1 + 0) -> free_size s3 = u64 (free_size s1 + k) ->
  used_size s3 = u64 (used_size s - csize c) /\ free_size s3 = u64 (free_size s + (csize c + k)).
Proof using. intros -> ->. cbn [used_size free_size add_sizes]. rewrite !u64_add_l. split; f_equal; lia. Qed.

Lemma merge_none_ok l1 l2 :
  ok s (l1 ++ c :: l2) ls -> prev_free l1 = false -> next_free l2 = false ->
  apart ((is_free <$> l1) ++ [true]) = true -> apart (true :: (is_free <$> l2)) = true ->
  freed s l1 c l2 (merge_none s1 (lo_bound s + spans l1) (csize c)).
Proof using Hc.
  intros Hok Ep En HA HB. unfold merge_none.
  pose proof (finish_freed s l1 [] c [] l2 ls s1 (l1 ++ c :: l2) ls) as H. rewrite app_nil_r, spans_nil, !Z.add_0_r in H.
  apply H; clear H; try done; try (by left).
  - by apply no_prev_room.
  - by apply no_next_room.
  - apply links_add_sizes, Hok.
  - apply fsim_all_refl.
  - apply Hok.
  - rewrite (used_frees _ _ Hok). cbn [app]. by rewrite spans_cons, spans_nil, Z.add_0_r.
Qed.

Lemma merge_prev_ok l0 a l2 :
  ok s (l0 ++ a :: c :: l2) ls -> is_free a = true -> next_free l2 = false ->
  apart ((is_free <$> l0) ++ [true]) = true -> apart (true :: (is_free <$> l2)) = true ->
  freed s (l0 ++ [a]) c l2 (merge_prev s1 (lo_bound s + spans l0 + (16 + csize a)) (csize c)).
Proof using Hc.
  intros Hok Ha En HA HB. unfold merge_prev, SHMEM_SIZE_FIELD. set (s2 := add_sizes s1 0 (2 * 8)).
  destruct (ok_at _ _ _ _ _ Hok (at_middle _ l0 a (c :: l2))) as (_ & Hta & Ha24 & _).
  assert (prev_chunk_of s2 (lo_bound s + spans l0 + (16 + csize a)) = Ret (lo_bound s + spans l0)) as ->
    by (apply (prev_chunk_ok s2 l0 a (c :: l2)); [apply Hok|done|lia]). cbn [mbind res_mbind].
  destruct (unlink_neighbour s _ ls s2 _ ls (lo_bound s + spans l0) a l0 (c :: l2) Hok eq_refl Ha eq_refl (links_s1 _ _ _ Hok)) as
    (-> & s3 & cs3 & ls3 & -> & HL3 & F3 & Hlen3 & P3 & Hm3); [apply fsim_all_refl|apply Hok|done|by eapply listed|]. cbn [mbind res_mbind].
  pose proof (finish_freed s l0 [a] c [] l2 ls s3 cs3 ls3) as H. cbn [app] in H. rewrite !spans_cons, spans_nil, !Z.add_0_r in H.
  replace (csize c + 2 * 8 + csize a) with (csize c + (16 + csize a)) by lia. destruct (meta_geom _ _ _ _ Hm3) as (Hg3 & Hu3 & Hf3).
  destruct (used_freed _ _ Hu3 Hf3) as [Hu4 Hf4]. apply H; clear H; try done.
  - right. eauto.
  - by left.
  - unfold prev_room. rewrite last_snoc, Ha. lia.
  - by apply no_next_room.
  - pose proof (used_frees (l0 ++ [a]) l2) as Pf. rewrite <- (assoc_L (++)) in Pf. specialize (Pf Hok).
    rewrite P3, frees_app, spans_app, spans_cons, spans_nil in Pf. cbn [frees] in Pf. rewrite Ha in Pf.
    rewrite <- (assoc_L (++)) in Pf. cbn [app] in Pf. rewrite <- Permutation_middle in Pf. apply Permutation_cons_inv in Pf.
    rewrite Pf. apply reflexive_eq. do 2 f_equal. lia.
Qed.

Lemma merge_next_ok l1 b l3 :
  ok s (l1 ++ c :: b :: l3) ls -> is_free b = true -> prev_free l1 = false ->
  apart ((is_free <$> l1) ++ [true]) = true -> apart (true :: (is_free <$> l3)) = true ->
  freed s l1 c (b :: l3) (merge_next s1 (lo_bound s + spans l1) (csize c) (lo_bound s + spans l1 + 8 + csize c + 8)).
Proof using Hc.
  intros Hok Hb Ep HA HB. unfold merge_next, SHMEM_SIZE_FIELD. set (s2 := add_sizes s1 0 (2 * 8)).
  assert (Hsp : lo_bound s + spans l1 + 8 + csize c + 8 = lo_bound s + spans (l1 ++ [c])) by (rewrite spans_app, spans_cons, spans_nil; lia).
  rewrite Hsp. assert (Ecs : l1 ++ c :: b :: l3 = (l1 ++ [c]) ++ b :: l3) by (by rewrite <- (assoc_L (++))).
  destruct (unlink_neighbour s _ ls s2 _ ls _ b (l1 ++ [c]) l3 Hok Ecs Hb eq_refl (links_s1 _ _ _ Hok)) as
    (-> & s3 & cs3 & ls3 & -> & HL3 & F3 & Hlen3 & P3 & Hm3); [apply fsim_all_refl|apply Hok|done|apply (listed s (l1 ++ [c]) b l3); [by rewrite <- Ecs|done]|].
  cbn [mbind res_mbind].
  pose proof (finish_freed s l1 [] c [b] l3 ls s3 cs3 ls3) as H. cbn [app] in H. rewrite !spans_cons, spans_nil, !Z.add_0_r, app_nil_r in H.
  replace (csize c + 2 * 8 + csize b) with (csize c + (16 + csize b)) by lia. destruct (meta_geom _ _ _ _ Hm3) as (Hg3 & Hu3 & Hf3).
  destruct (used_freed _ _ Hu3 Hf3) as [Hu4 Hf4]. apply H; clear H; try done.
  - by left.
  - right. eauto.
  - by apply no_prev_room.
  - unfold next_room. rewrite Hb. lia.
  - pose proof (used_frees _ _ Hok) as Pf. rewrite P3 in Pf. cbn [frees] in Pf. rewrite Hb in Pf. cbn [app] in Pf.
    replace (lo_bound s + spans (l1 ++ [c])) with (lo_bound s + spans l1 + (16 + csize c)) in Pf by lia. rewrite <- Permutation_middle in Pf. apply Permutation_cons_inv in Pf. rewrite Pf. by rewrite !Z.add_assoc.
Qed.

Lemma merge_both_ok l0 a b l3 :
  ok s (l0 ++ a :: c :: b :: l3) ls -> is_free a = true -> is_free b = true ->
  apart ((is_free <$> l0) ++ [true]) = true -> apart (true :: (is_free <$> l3)) = true ->
  freed s (l0 ++ [a]) c (b :: l3)
    (merge_both s1 (lo_bound s + spans l0 + (16 + csize a)) (csize c) (lo_bound s + spans l0 + (16 + csize a) + 8 + csize c + 8)).
Proof using Hc.
  intros Hok Ha Hb HA HB. unfold merge_both, SHMEM_SIZE_FIELD. set (s2 := add_sizes s1 0 (4 * 8)).
  destruct (ok_at _ _ _ _ _ Hok (at_middle _ l0 a (c :: b :: l3))) as (_ & Hta & Ha24 & _). pose proof (csize_nonneg c) as Hc0.
  assert (prev_chunk_of s2 (lo_bound s + spans l0 + (16 + csize a)) = Ret (lo_bound s + spans l0)) as ->
    by (apply (prev_chunk_ok s2 l0 a (c :: b :: l3)); [apply Hok|done|lia]). cbn [mbind res_mbind].
  set (q := lo_bound s + spans l0 + (16 + csize a) + 8 + csize c + 8).
  assert (Hq : q = lo_bound s + spans (l0 ++ [a; c])) by (unfold q; rewrite spans_app, !spans_cons, spans_nil; lia).
  assert (Ecs : l0 ++ a :: c :: b :: l3 = (l0 ++ [a; c]) ++ b :: l3) by (by rewrite <- (assoc_L (++))).
  assert (Hbl : (bucket (csize b), q) ∈ indexed ls) by (rewrite Hq; apply (listed s (l0 ++ [a; c]) b l3); [by rewrite <- Ecs|done]).
  destruct (unlink_neighbour s _ ls s2 _ ls q b (l0 ++ [a; c]) l3 Hok Ecs Hb Hq (links_s1 _ _ _ Hok)) as (Eb & _); [apply fsim_all_refl|apply Hok|done|done|].
  destruct (unlink_neighbour s _ ls s2 _ ls (lo_bound s + spans l0) a l0 (c :: b :: l3) Hok eq_refl Ha eq_refl (links_s1 _ _ _ Hok)) as
    (-> & s3 & cs3 & ls3 & E3 & HL3 & F3 & Hlen3 & P3 & Hm3); [apply fsim_all_refl|apply Hok|done|by eapply listed|]. cbn [mbind res_mbind].
  rewrite Eb. cbn [mbind res_mbind]. rewrite E3. cbn [mbind res_mbind]. destruct (meta_geom _ _ _ _ Hm3) as (Hg3 & Hu3 & Hf3).
  destruct (unlink_neighbour s _ ls s3 _ ls3 q b (l0 ++ [a; c]) l3 Hok Ecs Hb Hq HL3 F3 Hlen3) as (_ & s4 & cs4 & ls4 & -> & HL4 & F4 & Hlen4 & P4 & Hm4).
  { injection Hg3 as Hlo3. exact Hlo3. }
  { rewrite P3 in Hbl. apply elem_of_cons in Hbl as [[= _ Hbl]|Hbl]; [|done]. unfold q in Hbl. lia. }
  cbn [mbind res_mbind].
  pose proof (finish_freed s l0 [a] c [b] l3 ls s4 cs4 ls4) as H. cbn [app] in H. rewrite !spans_cons, spans_nil, !Z.add_0_r in H.
  replace (csize c + 4 * 8 + csize a + csize b) with (csize c + (16 + csize a) + (16 + csize b)) by lia.
  destruct (used_freed s4 (4 * 8)) as [Hu4 Hf4]; [unfold meta in Hm4; congruence|unfold meta in Hm4; congruence|]. apply H; clear H; try done.
  - right. eauto.
  - right. eauto.
  - unfold prev_room. rewrite last_snoc, Ha. lia.
  - unfold next_room. rewrite Hb. lia.
  - by rewrite (eq_trans (meta_eq_geom _ _ Hm4) Hg3).
  - pose proof (used_frees (l0 ++ [a]) (b :: l3)) as Pf. rewrite <- (assoc_L (++)) in Pf. specialize (Pf Hok).
    rewrite P3, P4, frees_app, spans_app, spans_cons, spans_nil in Pf. cbn [frees] in Pf. rewrite Ha, Hb in Pf.
    rewrite <- (assoc_L (++)) in Pf. cbn [app] in Pf. rewrite <- Permutation_middle in Pf. apply Permutation_cons_inv in Pf.
    rewrite <- Permutation_middle in Pf. replace (lo_bound s + (spans l0 + (16 + csize a + 0)) + (16 + csize c)) with q in Pf by (unfold q; lia).
    apply Permutation_cons_inv in Pf. rewrite Pf. apply reflexive_eq. do 2 f_equal. unfold q. lia.
Qed.

End merging.

Lemma free_ok s l1 c l2 ls :
  ok s (l1 ++ c :: l2) ls -> is_free c = false -> freed s l1 c l2 (mem_free s (lo_bound s + spans l1 + 8)).
Proof.
  intros Hok Hc. pose proof (ln_words _ _ _ (ok_links _ _ _ Hok)) as Hw. destruct (ok_tagged_app _ _ _ _ _ Hok) as (Ht1 & _ & _).
  destruct (ok_at _ _ _ _ _ Hok (at_middle _ l1 c l2)) as (_ & _ & _ & _ & Hsz).
  unfold mem_free, SHMEM_SIZE_FIELD. replace (lo_bound s + spans l1 + 8 - 8) with (lo_bound s + spans l1) by lia.
  rewrite (chunk_size_of_ok _ _ _ _ Hw (at_middle _ l1 c l2)), Hsz. cbn [mbind res_mbind]. set (s1 := add_sizes s (- csize c) (csize c)).
  assert (prev_is_free s1 (lo_bound s + spans l1) = Ret (prev_free l1)) as -> by exact (prev_is_free_ok s1 l1 c l2 Hw Ht1).
  assert (next_is_free s1 (lo_bound s + spans l1 + 8 + csize c + 8) = Ret (next_free l2)) as ->
    by exact (next_is_free_ok s1 l1 c l2 Hw (ok_hi _ _ _ Hok)).
  cbn [mbind res_mbind]. pose proof (ok_apart _ _ _ Hok) as Hap. rewrite fmap_app, fmap_cons, Hc in Hap.
  destruct (apart_prev _ _ Hap) as [HA1 HA2], (apart_next _ _ Hap) as [HB1 HB2].
  destruct (prev_free l1) eqn:Ep, (next_free l2) eqn:En;
    try destruct (prev_free_inv _ Ep) as (l0 & a & -> & Ha); try destruct (next_free_inv _ En) as (b & l3 & -> & Hb);
    try (rewrite <- (assoc_L (++)) in Hok; cbn [app] in Hok; rewrite spans_app, spans_cons, spans_nil, Z.add_0_r, Z.add_assoc).
  - eapply merge_both_ok; eauto.
  - eapply merge_prev_ok; eauto.
  - eapply merge_next_ok; eauto.
  - eapply merge_none_ok; eauto.
Qed.

(** ** Copying *)

Lemma load_words_ok s l ws r : words s = l ++ ws ++ r -> load_words (length ws) s (lo_bound s + 8 * zlen l) = Ret ws.
Proof.
  revert l. induction ws as [|w ws IH]; intros l Hw; [done|]. cbn [load_words length].
  rewrite (load_split s l w (ws ++ r) Hw). cbn [mbind res_mbind].
  replace (lo_bound s + 8 * zlen l + 8) with (lo_bound s + 8 * zlen (l ++ [w])) by (rewrite zlen_app, zlen_cons, (zlen_nil (A:=Z)); lia).
  rewrite IH; [done|]. by rewrite <- (assoc_L (++)).
Qed.

Lemma store_words_ok s l old ws r :
  words s = l ++ old ++ r -> length old = length ws -> store_words s (lo_bound s + 8 * zlen l) ws = Ret (set_words s (l ++ ws ++ r)).
Proof.
  revert s l old. induction ws as [|w ws IH]; intros s l old Hw Hlen; (destruct old as [|o old]; [|done || idtac]); try done.
  - cbn [app store_words] in *. by rewrite <- Hw, set_words_same.
  - cbn [store_words]. rewrite (store_split s l o (old ++ r) w Hw). cbn [mbind res_mbind]. set (s1 := set_words s _).
    replace (lo_bound s + 8 * zlen l + 8) with (lo_bound s1 + 8 * zlen (l ++ [w])) by (rewrite zlen_app, zlen_cons, (zlen_nil (A:=Z)); cbn; lia).
    rewrite (IH s1 (l ++ [w]) old); [|by rewrite <- (assoc_L (++))|by injection Hlen]. cbn. by rewrite <- (assoc_L (++)).
Qed.

Lemma copy_out_ok s l1 c l2 : words s = flatten (l1 ++ c :: l2) -> copy_out s (lo_bound s + spans l1 + 8) (csize c) = Ret (body c).
Proof.
  intros Hw. unfold copy_out. replace (Z.to_nat (csize c / 8)) with (length (body c)).
  2: { unfold csize, zlen. rewrite Z.mul_comm, Z.div_mul by lia. lia. }
  replace (lo_bound s + spans l1 + 8) with (lo_bound s + 8 * zlen (flatten l1 ++ [hd c])) by (rewrite zlen_app, zlen_cons, (zlen_nil (A:=Z)); unfold spans; lia).
  apply (load_words_ok s _ _ (ft c :: flatten l2)). rewrite Hw, flatten_app, flatten_cons. unfold cwords. cbn [app]. rewrite <- !(assoc_L (++)). done.
Qed.

(** Writing the memory of a block. *)
Lemma write_block s l1 w l2 ls ws :
  ok s (l1 ++ mk true w :: l2) ls -> (length ws <= length w)%nat -> 8 * zlen w < 2 ^ 62 ->
  let w' := ws ++ drop (length ws) w in
  exists s', store_words s (lo_bound s + spans l1 + 8) ws = Ret s' /\ ok s' (l1 ++ mk true w' :: l2) ls /\ geom s' = geom s.
Proof.
  intros Hok Hlen Hmax w'. set (p := lo_bound s + spans l1).
  assert (Hw' : length w' = length w) by (unfold w'; rewrite length_app, length_drop; lia).
  assert (Hz : zlen w' = zlen w) by (unfold zlen; by rewrite Hw').
  exists (set_words s (flatten (l1 ++ mk true w' :: l2))). split; [|split; [|done]].
  - replace (p + 8) with (lo_bound s + 8 * zlen (flatten l1 ++ [tag true (8 * zlen w)]))
      by (rewrite zlen_app, zlen_cons, (zlen_nil (A:=Z)); unfold p, spans; lia).
    rewrite (store_words_ok s _ (take (length ws) w) ws (drop (length ws) w ++ tag true (8 * zlen w) :: flatten l2)).
    + do 2 f_equal. rewrite flatten_app, flatten_cons. unfold cwords. cbn [hd ft body mk]. unfold w' at 2. rewrite Hz, <- !(assoc_L (++)). cbn.
      rewrite <- !(assoc_L (++)). done.
    + rewrite (ln_words _ _ _ (ok_links _ _ _ Hok)), flatten_app, flatten_cons. unfold cwords. cbn [hd ft body mk].
      rewrite (assoc_L (++) (take _ _)), take_drop, <- !(assoc_L (++)). cbn. by rewrite <- (assoc_L (++)).
    + rewrite length_take. lia.
  - assert (Hfr : forall v, zlen v = zlen w -> is_free (mk true v) = false) by (intros v Hv; by rewrite mk_free by lia).
    assert (Hcs : csize (mk true w') = csize (mk true w)) by (unfold csize; cbn; lia).
    assert (Hno : p ∉ concat ls) by (eapply used_not_listed; [done|apply at_middle|by apply Hfr]).
    assert (Hsp : spans (l1 ++ mk true w' :: l2) = spans (l1 ++ mk true w :: l2)) by (by rewrite !spans_app, !spans_cons, Hcs).
    destruct (ok_tagged_app _ _ _ _ _ Hok) as (Ht1 & [_ Htw] & Ht2).
    split; cbn [set_words lo_bound hi_bound used_size free_size total_size]; rewrite ?Hsp; try apply Hok.
    + apply (links_replace s l1 [mk true w] [mk true w'] l2); [apply Hok|by rewrite !spans_cons, Hcs|]. intros q Hq. apply at_single. intros ->. done.
    + apply Forall_app. split; [done|]. constructor; [|done]. apply mk_tagged. cbn in Htw. lia.
    + rewrite (ok_frees _ _ _ Hok), !frees_app. cbn [frees]. by rewrite !Hfr, Hcs.
    + pose proof (ok_apart _ _ _ Hok) as Ha. rewrite fmap_app, fmap_cons in *. by rewrite !Hfr in *.
    + rewrite (ok_used _ _ _ Hok), !usum_app. cbn. by rewrite !Hfr, Hcs.
    + rewrite (ok_free _ _ _ Hok), !fsum_app. cbn. by rewrite !Hfr.
Qed.

(** ** Blocks and chunks *)

Lemma blocks_at a cs x w : (x, w) ∈ blocks a cs <-> exists c, at_ a cs (x - 8) = Some c /\ is_free c = false /\ body c = w.
Proof.
  revert a. induction cs as [|c cs IH]; intros a; cbn [blocks at_]; [split; [by intros ?%not_elem_of_nil|naive_solver]|].
  rewrite elem_of_app, IH. pose proof (csize_nonneg c). split.
  - intros [H'|(d & Hd & Hf & Hb)].
    + destruct (is_free c) eqn:E; [by apply not_elem_of_nil in H'|]. apply list_elem_of_singleton in H' as [= -> ->].
      replace (a + 8 - 8) with a by lia. rewrite Z.eqb_refl. eauto.
    + exists d. destruct (Z.eqb_spec (x - 8) a); [|done]. apply at_range in Hd. lia.
  - intros (d & Hd & Hf & Hb). destruct (Z.eqb_spec (x - 8) a) as [<-|].
    + injection Hd as ->. left. rewrite Hf. apply list_elem_of_singleton. f_equal; [lia|done].
    + right. eauto.
Qed.

Lemma used_mk s cs ls p c : ok s cs ls -> at_ (lo_bound s) cs p = Some c -> is_free c = false -> c = mk true (body c) /\ 8 * zlen (body c) < 2 ^ 62.
Proof.
  intros Hok Hp Hf. destruct (ok_at _ _ _ _ _ Hok Hp) as (_ & [[u Hu] _] & Hmax & _). unfold csize in Hmax. split; [|lia].
  destruct u; [done|]. rewrite Hu, mk_free in Hf by lia. done.
Qed.

(** ** Reallocation *)

(** A used chunk [e], standing for [mid], is cut to [n] bytes. *)
Lemma shrink_ok s l1 mid l2 ls s0 l1' e l2' ls0 n :
  ok s (l1 ++ mid ++ l2) ls -> links s0 (l1' ++ e :: l2') ls0 -> Forall2 fsim l1 l1' -> Forall2 fsim l2 l2' -> length ls0 = 30%nat ->
  spans mid = 16 + csize e -> csize e < 2 ^ 62 -> geom s0 = geom s -> n mod 8 = 0 -> 24 <= n -> n + 40 <= csize e -> is_free e = false ->
  lo_bound s + spans l1 ∉ concat ls0 -> indexed ls0 ≡ₚ frees (lo_bound s) l1 ++ frees (lo_bound s + spans l1 + spans mid) l2 ->
  apart (is_free <$> l1) = true -> apart (true :: (is_free <$> l2)) = true ->
  used_size s0 = u64 (used_size s + (n - usum mid)) -> free_size s0 = u64 (free_size s + (csize e - n - 16 - fsum mid)) ->
  exists s2 w t cs2 ls2, (s1 ← split_chunk s0 (lo_bound s + spans l1) n (csize e - n - 16); mem_set_used_chunk_size s1 (lo_bound s + spans l1) n) = Ret s2 /\
    ok s2 cs2 ls2 /\ geom s2 = geom s /\ n = 8 * zlen w /\ body e = w ++ t /\
    blocks (lo_bound s) cs2 =
      blocks (lo_bound s) l1 ++ (lo_bound s + spans l1 + 8, w) :: blocks (lo_bound s + spans l1 + spans mid) l2.
Proof.
  intros Hok HL F1 F2 Hlen Hsp Hmax Hg Hn8 Hn24 Hn40 He Hp P Ha1 Ha2 Hu Hf.
  assert (Hlo : lo_bound s0 = lo_bound s) by (unfold geom in Hg; congruence).
  assert (Hp1 : lo_bound s + spans l1 = lo_bound s0 + spans l1') by (by rewrite Hlo, (fsim_spans _ _ F1)). rewrite Hp1 in Hp |- *.
  destruct (cut_ok id s0 l1' e l2' ls0 n) as (s2 & s1 & l1'' & w & w2 & l2'' & ls2 & E & HL2 & Hlen2 & G1 & G2 & Hw & Hpre & Hlo2 & Hw2 & P2 & Hm1 & Hm2); try done.
  unfold id in *. rewrite Hm1 in Hm2. destruct (leftover_facts _ Hlo2) as (Ht & Hus & Hbl & Hap). destruct (Hpre He) as [t Ht'].
  assert (Hfr : is_free (mk true w) = false) by (by rewrite mk_free by lia). rewrite <- Hp1 in P2. pose proof (meta_eq_geom _ _ Hm2) as Hg2.
  assert (Hs : used_size s2 = used_size s0 /\ free_size s2 = free_size s0) by (unfold meta in Hm2; split; congruence). destruct Hs as [Hu2 Hf2].
  destruct (assemble s l1 mid l2 ls s2 l1'' [mk true w; mk false w2] l2'' ls2) as [Hok2 Hb]; try done.
  - by eapply fsim_all_trans.
  - by eapply fsim_all_trans.
  - constructor; [|done]. apply mk_tagged. unfold zlen in *. lia.
  - rewrite !spans_cons, spans_nil. unfold csize at 1 2. cbn [body mk]. lia.
  - rewrite P2, P. cbn [frees]. rewrite Hfr. cbn [app]. unfold csize. cbn [body mk]. by rewrite !Z.add_assoc.
  - rewrite fmap_cons, Hfr. cbn [app]. rewrite apart_used, Ha1. by apply Hap.
  - congruence.
  - rewrite Hu2, Hu. f_equal. unfold usum in *. cbn [foldr] in *. rewrite Hfr. unfold csize at 2. cbn [body mk]. lia.
  - rewrite Hf2, Hf. f_equal. unfold fsum. cbn [foldr]. rewrite Hfr, mk_free by lia. cbn [negb]. unfold csize at 3. cbn [body mk]. lia.
  - exists s2, w, t, (l1'' ++ [mk true w; mk false w2] ++ l2''), ls2. split_and!; try done; [congruence|].
    replace (lo_bound s2) with (lo_bound s) in Hb by (unfold geom in *; congruence). rewrite Hb. cbn [blocks app].
    rewrite Hfr. specialize (Hbl (lo_bound s + spans l1 + (16 + csize (mk true w)))). cbn [blocks] in Hbl. rewrite Hbl. cbn [app]. by rewrite <- Hp1.
Qed.

Definition grown (w w' : list Z) : Prop := (exists t, w = w' ++ t) \/ (exists t, w' = w ++ t).

(** The result of [mem_realloc] for the block [w] in [c]: the block in a
    place with room for [n] bytes, its contents kept up to the smaller size,
    and nothing else changed; or NULL when there is no such place. *)
Definition realloced (s : shmem) (l1 : list chunk) (c : chunk) (l2 : list chunk) (n : Z) (r : res (shmem * Z)) : Prop :=
  (r = Ret (s, 0) /\ csize c + prev_room l1 + next_room l2 < n /\
   forall q d, at_ (lo_bound s) (l1 ++ c :: l2) q = Some d -> is_free d = true -> csize d < n) \/
  (exists s' q w' cs' ls', r = Ret (s', q) /\ q <> 0 /\ ok s' cs' ls' /\ geom s' = geom s /\ n <= 8 * zlen w' /\ grown (body c) w' /\
     blocks (lo_bound s) cs' ≡ₚ (q + 8, w') :: blocks (lo_bound s) l1 ++ blocks (lo_bound s + spans l1 + (16 + csize c)) l2).

(** The chunk [c] with the free chunk after it, as one chunk. *)
Lemma join_next s l1 c b l3 ls x y :
  ok s (l1 ++ c :: b :: l3) ls -> is_free c = false -> is_free b = true -> lo_bound s + spans l1 <> 0 ->
  let q := lo_bound s + spans l1 + 8 + csize c + 8 in
  let s0 := add_sizes s x y in
  chunk_size_of s q = Ret (csize b) /\ chunk_size_of s0 q = Ret (csize b) /\
  exists s1 l1' e l3' ls1 t, mem_unlink_chunk s0 q = Ret s1 /\ links s1 (l1' ++ e :: l3') ls1 /\ Forall2 fsim l1 l1' /\ Forall2 fsim l3 l3' /\
    length ls1 = 30%nat /\ csize e = csize c + 16 + csize b /\ is_free e = false /\ body e = body c ++ t /\ meta s1 = meta s0 /\
    (lo_bound s + spans l1 ∉ concat ls1) /\ indexed ls1 ≡ₚ frees (lo_bound s) l1 ++ frees (lo_bound s + spans l1 + spans [c; b]) l3.
Proof.
  intros Hok Hc Hb Hp0 q s0. assert (Ecs : l1 ++ c :: b :: l3 = (l1 ++ [c]) ++ b :: l3) by (by rewrite <- (assoc_L (++))).
  assert (Hq : q = lo_bound s + spans (l1 ++ [c])) by (unfold q; rewrite spans_app, spans_cons, spans_nil; lia).
  assert (Hbl : (bucket (csize b), q) ∈ indexed ls) by (rewrite Hq; apply (listed s (l1 ++ [c]) b l3); [by rewrite <- Ecs|done]).
  destruct (unlink_neighbour s _ ls s _ ls q b (l1 ++ [c]) l3 Hok Ecs Hb Hq (ok_links _ _ _ Hok)) as (E0 & _); [apply fsim_all_refl|apply Hok|done|done|].
  destruct (unlink_neighbour s _ ls s0 _ ls q b (l1 ++ [c]) l3 Hok Ecs Hb Hq (links_add_sizes _ _ _ _ _ (ok_links _ _ _ Hok))) as
    (E1 & s1 & cs1 & ls1 & E2 & HL1 & F & Hlen1 & P & Hm); [apply fsim_all_refl|apply Hok|done|done|].
  split; [done|]. split; [done|].
  apply Forall2_app_inv_l in F as (l1' & tl & F1 & F & ->). apply Forall2_cons_inv_l in F as (c' & tl' & Fc & F & ->).
  apply Forall2_cons_inv_l in F as (b' & l3' & Fb & F3 & ->). destruct Fc as (_ & _ & _ & Fc). specialize (Fc Hc). subst c'.
  destruct (meta_lo _ _ Hm) as [Hlo _]. change (lo_bound s0) with (lo_bound s) in Hlo.
  assert (Pf : indexed ls1 ≡ₚ frees (lo_bound s) l1 ++ frees (lo_bound s + spans l1 + spans [c; b]) l3).
  { pose proof (used_frees s c ls Hc _ _ Hok) as Pf. rewrite P in Pf. cbn [frees] in Pf. rewrite Hb in Pf. cbn [app] in Pf.
    replace (lo_bound s + spans l1 + (16 + csize c)) with q in Pf by (unfold q; lia). rewrite <- Permutation_middle in Pf.
    apply Permutation_cons_inv in Pf. rewrite Pf, !spans_cons, spans_nil. apply reflexive_eq. do 2 f_equal. unfold q. lia. }
  assert (Hout : forall q' m, q' ∈ concat ls1 -> spans m = spans [c; b] -> at_ (lo_bound s + spans l1) m q' = None).
  { intros q' m [i Hi]%in_indexed Hm'. rewrite Pf in Hi. by eapply frees_outside. }
  set (e := Chunk (hd c) (body c ++ ft c :: hd b' :: body b') (ft b')).
  exists s1, l1', e, l3', ls1, (ft c :: hd b' :: body b'). split_and!; try done.
  - apply (links_recut s1 l1' [c; b'] [e] l3'); [done| |].
    + unfold flatten, cwords, e. cbn. rewrite !app_nil_r, <- !(assoc_L (++)). done.
    + intros q' Hq'. rewrite Hlo, (fsim_spans _ _ F1). apply Hout; [done|]. by rewrite !spans_cons, (fsim_csize _ _ Fb).
  - rewrite <- (fsim_csize _ _ Fb). unfold csize, e. cbn [body]. lens.
  - intros H. specialize (Hout _ [c; b] H eq_refl). cbn in Hout. by rewrite Z.eqb_refl in Hout.
Qed.

Lemma blocks_middle a l1 c l2 : is_free c = false ->
  blocks a (l1 ++ c :: l2) ≡ₚ (a + spans l1 + 8, body c) :: blocks a l1 ++ blocks (a + spans l1 + (16 + csize c)) l2.
Proof. intros Hc. rewrite blocks_app. cbn [blocks]. rewrite Hc. cbn [app]. by rewrite <- Permutation_middle. Qed.

Section reallocating.
Variables (s : shmem) (l1 : list chunk) (c : chunk) (l2 : list chunk) (ls : list (list Z)) (n : Z).
Hypothesis Hok : ok s (l1 ++ c :: l2) ls.
Hypothesis Hc : is_free c = false.
Hypothesis Hn8 : n mod 8 = 0.
Hypothesis Hn24 : 24 <= n <= SHMEM_MAX_SIZE + 7.
#[local] Abbreviation p := (lo_bound s + spans l1).
#[local] Abbreviation next_chunk := (p + 8 + csize c + 8).

Lemma chunk_pos : p <> 0.
Proof using Hok. by destruct (ok_at _ _ _ _ _ Hok (at_middle _ l1 c l2)). Qed.

Lemma apart_sides : apart (is_free <$> l1) = true /\ (next_free l2 = false -> apart (true :: (is_free <$> l2)) = true) /\
  (forall b l3, l2 = b :: l3 -> is_free b = true -> apart (true :: (is_free <$> l3)) = true).
Proof using Hok Hc.
  pose proof (ok_apart _ _ _ Hok) as Hap. rewrite fmap_app, fmap_cons, Hc in Hap. destruct (apart_next _ _ Hap) as [H1 H2].
  split_and!; try done. by apply apart_app in Hap as [? _].
Qed.

Lemma smaller_ok : n <= csize c -> realloced s l1 c l2 n (realloc_smaller s p (csize c) n next_chunk (next_free l2)).
Proof using Hok Hc Hn8 Hn24.
  intros Hle. right. unfold realloc_smaller, SHMEM_SIZE_FIELD. destruct apart_sides as (HA & HB1 & HB2). pose proof chunk_pos as Hp0.
  destruct (Z.gtb_spec n (csize c / 4)) as [Hk|Hk].
  - exists s, p, (body c), (l1 ++ c :: l2), ls. split_and!; try done; [left; exists []; by rewrite app_nil_r|]. by apply blocks_middle.
  - assert (H40 : n + 40 <= csize c) by dlia. pose proof (ok_at _ _ _ _ _ Hok (at_middle _ l1 c l2)) as (_ & _ & Hmax & _).
    destruct (next_free l2) eqn:En.
    + destruct (next_free_inv _ En) as (b & l3 & El & Hb). pose proof (HB2 _ _ El Hb) as HB. rewrite El in *.
      destruct (join_next s l1 c b l3 ls (- (csize c - n)) (csize c - n) Hok Hc Hb Hp0) as
        (_ & -> & s1 & l1' & e & l3' & ls1 & t & -> & HL1 & F1 & F3 & Hlen1 & He & Hef & Hbe & Hm & Hpn & P). cbn [mbind res_mbind].
      replace (csize b + (csize c - n)) with (csize e - n - 16) by lia.
      pose proof (csize_nonneg b). assert (Hbm : csize c + csize b + 16 < 2 ^ 62).
      { pose proof (ok_hi _ _ _ Hok) as Hhi. pose proof (ok_max _ _ _ Hok). pose proof (ln_lo _ _ _ (ok_links _ _ _ Hok)).
        rewrite spans_app, !spans_cons in Hhi. pose proof (spans_nonneg l1). pose proof (spans_nonneg l3). lia. }
      destruct (meta_geom _ _ _ _ Hm) as (Hg1 & Hu1 & Hf1). assert (Hsp : spans [c; b] = 16 + csize e) by (rewrite !spans_cons, spans_nil; lia).
      destruct (shrink_ok s l1 [c; b] l3 ls s1 l1' e l3' ls1 n) as (s2 & w & t' & cs2 & ls2 & -> & Hok2 & Hg2 & Hw & Hbw & Hbl); try done; try lia.
      * rewrite Hu1. f_equal. cbn. rewrite Hc, Hb. lia.
      * rewrite Hf1. f_equal. cbn. rewrite Hc, Hb. lia.
      * cbn [mbind res_mbind]. exists s2, p, w, cs2, ls2. split_and!; try done; [lia| |].
        -- left. exists (drop (length w) (body c)). rewrite Hbe in Hbw. apply (f_equal (take (length (body c)))) in Hbw.
           rewrite take_app_length, take_app_ge in Hbw by (unfold csize, zlen in *; lia). rewrite Hbw. f_equal.
           by rewrite drop_app_length.
        -- rewrite Hbl, <- Permutation_middle. cbn [blocks]. rewrite Hb, !spans_cons, spans_nil. cbn [app]. apply reflexive_eq. do 3 f_equal. lia.
    + pose proof (HB1 eq_refl) as HB. set (s0 := add_sizes s _ _). assert (Hsp : spans [c] = 16 + csize c) by (rewrite spans_cons, spans_nil; lia).
      destruct (shrink_ok s l1 [c] l2 ls s0 l1 c l2 ls n) as (s2 & w & t' & cs2 & ls2 & E & Hok2 & Hg2 & Hw & Hbw & Hbl); try done; try lia.
      * by apply links_add_sizes, Hok.
      * apply fsim_all_refl.
      * apply fsim_all_refl.
      * apply Hok.
      * eapply used_not_listed; [done|apply at_middle|done].
      * rewrite (used_frees s c ls Hc _ _ Hok), Hsp. done.
      * cbn. rewrite Hc. f_equal. lia.
      * cbn. rewrite Hc. f_equal. lia.
      * replace (csize c - n - 2 * 8) with (csize c - n - 16) by lia. rewrite E. cbn [mbind res_mbind].
        exists s2, p, w, cs2, ls2. split_and!; try done; [lia|left; by exists t'|]. rewrite Hbl, <- Permutation_middle, Hsp. done.
Qed.

Lemma prefix_split (w1 t1 w2 t2 : list Z) : w1 ++ t1 = w2 ++ t2 -> (length w1 <= length w2)%nat -> exists t, w2 = w1 ++ t.
Proof.
  intros E H. exists (drop (length w1) w2). apply (f_equal (take (length w2))) in E. rewrite take_app_length, take_app_ge in E by done.
  rewrite <- E. by rewrite drop_app_length.
Qed.

Lemma realloc_grow_ok b l3 :
  l2 = b :: l3 -> is_free b = true -> csize c < n -> n <= csize c + 2 * 8 + csize b ->
  realloced s l1 c l2 n (realloc_grow s p (csize c) n next_chunk (csize b)).
Proof using Hok Hc Hn8 Hn24.
  intros El Hb Hlt Hle. right. unfold realloc_grow, SHMEM_SIZE_FIELD. destruct apart_sides as (HA & _ & HB2). pose proof chunk_pos as Hp0.
  pose proof (HB2 _ _ El Hb) as HB. rewrite El in *. pose proof (csize_nonneg b).
  destruct (join_next s l1 c b l3 ls (- csize c) (csize c + 2 * 8) Hok Hc Hb Hp0) as
    (_ & _ & s1 & l1' & e & l3' & ls1 & t & -> & HL1 & F1 & F3 & Hlen1 & He & Hef & Hbe & Hm & Hpn & P). cbn [mbind res_mbind].
  replace (csize c + (2 * 8 + csize b)) with (csize e) by lia. destruct (meta_geom _ _ _ _ Hm) as (Hg1 & Hu1 & Hf1).
  assert (Hsp : spans [c; b] = 16 + csize e) by (rewrite !spans_cons, spans_nil; lia).
  destruct (use_chunk_ok s l1 [c; b] l3 ls s1 l1' e l3' ls1 n) as (s2 & w & cs2 & ls2 & -> & Hok2 & Hg2 & Hw & Hpre & Hbl); try done; try lia.
  - pose proof (ok_hi _ _ _ Hok) as Hhi. pose proof (ok_max _ _ _ Hok). pose proof (ln_lo _ _ _ (ok_links _ _ _ Hok)).
    rewrite spans_app, !spans_cons in Hhi. pose proof (spans_nonneg l1). pose proof (spans_nonneg l3). lia.
  - rewrite Hu1, u64_u64. f_equal. cbn. rewrite Hc, Hb. lia.
  - rewrite Hf1, u64_u64. f_equal. cbn. rewrite Hc, Hb. lia.
  - cbn [mbind res_mbind]. exists s2, p, w, cs2, ls2. destruct (Hpre Hef) as [t' Ht']. split_and!; try done.
    + right. rewrite Hbe in Ht'. eapply prefix_split; [exact Ht'|]. unfold csize, zlen in *. lia.
    + rewrite Hbl, <- Permutation_middle. cbn [blocks]. rewrite Hb, !spans_cons, spans_nil. cbn [app]. apply reflexive_eq. do 3 f_equal. lia.
Qed.

(** Copying the saved contents [w] into the new block. *)
Lemma fill_block s0 cs0 ls0 q w0 w :
  ok s0 cs0 ls0 -> (q + 8, w0) ∈ blocks (lo_bound s0) cs0 -> (length w <= length w0)%nat ->
  exists s' cs', store_words s0 (q + 8) w = Ret s' /\ ok s' cs' ls0 /\ geom s' = geom s0 /\
    exists b1 b2 t, blocks (lo_bound s0) cs0 = b1 ++ (q + 8, w0) :: b2 /\ blocks (lo_bound s0) cs' = b1 ++ (q + 8, w ++ t) :: b2 /\
      length (w ++ t) = length w0.
Proof using.
  intros Hok0 (d & Hd & Hf & Hb)%blocks_at Hlen. destruct (used_mk _ _ _ _ _ Hok0 Hd Hf) as [Hmk Hmax].
  replace (q + 8 - 8) with q in Hd by lia. apply at_split in Hd as (m1 & m2 & -> & ->). rewrite Hb in *. rewrite Hmk in Hok0 |- *.
  destruct (write_block s0 m1 w0 m2 ls0 w Hok0 Hlen Hmax) as (s' & E & Hok' & Hg'). cbv zeta in Hok'.
  assert (Hl : length (w ++ drop (length w) w0) = length w0) by (rewrite length_app, length_drop; lia).
  eexists s', _. split_and!; [exact E|exact Hok'|done|].
  exists (blocks (lo_bound s0) m1), (blocks (lo_bound s0 + spans m1 + (16 + csize (mk true w0))) m2), (drop (length w) w0).
  rewrite !blocks_app. cbn [blocks]. rewrite !mk_free by (unfold zlen in *; lia). cbn [negb app body mk]. split_and!; try done.
  do 3 f_equal. unfold csize. cbn [body mk]. unfold zlen. by rewrite Hl.
Qed.

(** A new place was found: copy the contents and free the old block. *)
Lemma move_copy_ok s1 q w0 cs1 ls1 b1 b2 :
  csize c < n -> q <> 0 -> ok s1 cs1 ls1 -> geom s1 = geom s -> n <= 8 * zlen w0 ->
  blocks (lo_bound s) (l1 ++ c :: l2) = b1 ++ b2 -> blocks (lo_bound s) cs1 = b1 ++ (q + 8, w0) :: b2 ->
  realloced s l1 c l2 n
    (data ← copy_out s1 (p + 8) (csize c); s2 ← store_words s1 (q + 8) data; s3 ← mem_free s2 (p + 8); Ret (s3, q)).
Proof using Hok Hc.
  intros Hlt Hq Hok1 Hg1 Hw0 Hb Hb1. right. assert (Hlo1 : lo_bound s1 = lo_bound s) by (unfold geom in Hg1; congruence).
  rewrite <- Hlo1 in Hb1. pose proof (blocks_middle (lo_bound s) l1 c l2 Hc) as Hbm. rewrite Hb in Hbm.
  assert (Hin : (p + 8, body c) ∈ blocks (lo_bound s1) cs1).
  { rewrite Hb1, <- Permutation_middle, Hbm. right. by left. }
  apply blocks_at in Hin as (c' & Hc' & Hcf & Hcb). replace (p + 8 - 8) with p in Hc' by lia.
  assert (Hcs : csize c' = csize c) by (unfold csize; by rewrite Hcb). destruct (at_split _ _ _ _ Hc') as (m1 & m2 & Ecs & Ep).
  pose proof (ln_words _ _ _ (ok_links _ _ _ Hok1)) as Hw1. rewrite Ecs in Hw1. pose proof (copy_out_ok s1 m1 c' m2 Hw1) as Eco.
  rewrite <- Ep, Hcs in Eco. rewrite Eco, Hcb. cbn [mbind res_mbind].
  destruct (fill_block s1 cs1 ls1 q w0 (body c) Hok1) as (s2 & cs2 & -> & Hok2 & Hg2 & c1 & c2 & t & Hx & Hx' & Hl).
  { rewrite Hb1. apply elem_of_app. right. by left. }
  { unfold csize, zlen in *. lia. }
  cbn [mbind res_mbind]. assert (Hlo2 : lo_bound s2 = lo_bound s1) by (unfold geom in Hg2; congruence). rewrite <- Hlo2 in Hx'.
  assert (Hrest : c1 ++ c2 ≡ₚ b1 ++ b2).
  { apply (Permutation_cons_inv (a := (q + 8, w0))). by rewrite !Permutation_middle, <- Hx, <- Hb1. }
  assert (Hin2 : (p + 8, body c) ∈ blocks (lo_bound s2) cs2).
  { rewrite Hx', <- Permutation_middle, Hrest, Hbm. right. by left. }
  apply blocks_at in Hin2 as (d & Hd & Hdf & Hdb). replace (p + 8 - 8) with p in Hd by lia.
  apply at_split in Hd as (k1 & k2 & -> & Ek). rewrite Ek.
  destruct (free_ok s2 k1 d k2 ls1 Hok2 Hdf) as (s3 & cs3 & ls3 & _ & _ & -> & Hok3 & Hg3 & Hb3 & _). cbn [mbind res_mbind].
  exists s3, q, (body c ++ t), cs3, ls3. split_and!; try done; [congruence|unfold zlen in *; lia|right; by exists t|].
  rewrite <- Hlo1, <- Hlo2, Hb3. apply (Permutation_cons_inv (a := (p + 8, body c))). rewrite <- Hdb at 1. rewrite Ek, <- blocks_middle, Hx' by done.
  rewrite <- Permutation_middle, Hrest, Hbm, Hlo2, Hlo1, Ek, Hlo2, Hlo1. apply Permutation_swap.
Qed.

(** No chunk is big enough, but the block with its free neighbours is. *)
Lemma move_tight_ok :
  csize c < n -> n <= csize c + prev_room l1 + next_room l2 ->
  realloced s l1 c l2 n
    (tmp ← copy_out s (p + 8) (csize c); s1 ← mem_free s (p + 8); '(s2, new_chunk) ← mem_malloc s1 n;
     if new_chunk =? 0 then Halt ExitFailure else s3 ← store_words s2 (new_chunk + 8) tmp; Ret (s3, new_chunk)).
Proof using Hok Hc Hn8 Hn24.
  intros Hlt Hle. right. rewrite (copy_out_ok s l1 c l2 (ln_words _ _ _ (ok_links _ _ _ Hok))). cbn [mbind res_mbind].
  pose proof (proper_idem n ltac:(lia) Hn8) as Hn.
  destruct (free_ok s l1 c l2 ls Hok Hc) as (s1 & cs1 & ls1 & q0 & d & -> & Hok1 & Hg1 & Hb1 & Hd & Hdf & Hds). cbn [mbind res_mbind].
  assert (Hlo1 : lo_bound s1 = lo_bound s) by (unfold geom in Hg1; congruence). rewrite <- Hlo1 in Hd.
  destruct (malloc_ok s1 cs1 ls1 n Hok1 ltac:(lia)) as [[_ Hnone1]|(s2 & q & w0 & cs2 & ls2 & b1 & b2 & -> & Hq & Hok2 & Hg2 & Hw0 & Hb & Hb2)];
    rewrite Hn in *; [specialize (Hnone1 _ _ Hd Hdf); lia|]. cbn [mbind res_mbind]. rewrite (proj2 (Z.eqb_neq _ _) Hq).
  assert (Hlo2 : lo_bound s2 = lo_bound s) by (unfold geom in *; congruence).
  destruct (fill_block s2 cs2 ls2 q w0 (body c) Hok2) as (s3 & cs3 & -> & Hok3 & Hg3 & c1 & c2 & t & Hx & Hx' & Hl).
  { rewrite Hlo2, <- Hlo1, Hb2. apply elem_of_app. right. by left. }
  { unfold csize, zlen in *. lia. }
  cbn [mbind res_mbind]. exists s3, q, (body c ++ t), cs3, ls2. split_and!; try done; [congruence|unfold zlen in *; lia|right; by exists t|].
  rewrite Hlo2 in Hx, Hx'. rewrite Hlo1 in Hb, Hb2. rewrite Hx', <- Permutation_middle. apply Permutation_skip.
  rewrite <- Hb1, Hb. apply (Permutation_cons_inv (a := (q + 8, w0))). by rewrite !Permutation_middle, <- Hx, <- Hb2.
Qed.

(** The size of the free chunk before the block, from its last word. *)
Lemma prev_size_ok : exists pz, (if prev_free l1 then chunk_size_of s (p - 8) else Ret 0) = Ret pz /\ (if prev_free l1 then pz + 2 * 8 else 0) = prev_room l1.
Proof using Hok.
  destruct (prev_free l1) eqn:Ep; [|exists 0; split; [done|by rewrite no_prev_room]].
  destruct (prev_free_inv _ Ep) as (l0 & a & El & Ha). rewrite El in Hok |- *. rewrite <- (assoc_L (++)) in Hok. cbn [app] in Hok.
  pose proof (ln_words _ _ _ (ok_links _ _ _ Hok)) as Hw. destruct (ok_at _ _ _ _ _ Hok (at_middle _ l0 a (c :: l2))) as (_ & [[u Hu] _] & Hmax & _).
  exists (csize a). unfold prev_room, chunk_size_of. rewrite last_snoc, Ha. split; [|lia].
  replace (lo_bound s + spans (l0 ++ [a]) - 8) with (lo_bound s + spans l0 + 8 + csize a) by (rewrite spans_app, spans_cons, spans_nil; lia).
  rewrite (load_ft s _ Hw _ a (at_middle _ l0 a (c :: l2))). cbn [mbind res_mbind]. f_equal. rewrite Hu at 1. cbn [ft mk].
  pose proof (zlen_nonneg (body a)). unfold csize in *. rewrite tag_size; lia.
Qed.

Lemma move_ok : csize c < n -> realloced s l1 c l2 n (realloc_move s (p + 8) p (csize c) n (next_room l2)).
Proof using Hok Hc Hn8 Hn24.
  intros Hlt. unfold realloc_move, SHMEM_SIZE_FIELD. pose proof (ln_words _ _ _ (ok_links _ _ _ Hok)) as Hw.
  pose proof (proper_idem n ltac:(lia) Hn8) as Hn. destruct (ok_tagged_app _ _ _ _ _ Hok) as (Ht1 & _ & _).
  destruct (malloc_ok s _ ls n Hok ltac:(lia)) as [[-> Hnone]|(s1 & q & w0 & cs1 & ls1 & b1 & b2 & -> & Hq & Hok1 & Hg1 & Hw0 & Hb & Hb1)];
    cbn [mbind res_mbind]; rewrite Hn in *.
  - change (negb (0 =? 0)) with false. cbv iota. rewrite (prev_is_free_ok s l1 c l2 Hw Ht1). cbn [mbind res_mbind].
    destruct prev_size_ok as (pz & -> & Epz). cbn [mbind res_mbind]. rewrite Epz.
    destruct (Z.gtb_spec n (csize c + next_room l2 + prev_room l1)) as [Hgt|Hle].
    + left. split_and!; [done|lia|done].
    + apply move_tight_ok; lia.
  - rewrite (proj2 (Z.eqb_neq _ _) Hq). cbn [negb]. by eapply move_copy_ok.
Qed.

Lemma realloc_ok size : n = mem_proper_alloc_size size -> realloced s l1 c l2 n (mem_realloc s (p + 8) size).
Proof using Hok Hc Hn8 Hn24.
  intros En. pose proof (ln_words _ _ _ (ok_links _ _ _ Hok)) as Hw. destruct (ok_at _ _ _ _ _ Hok (at_middle _ l1 c l2)) as (Hp0 & _ & _ & _ & Hsz).
  unfold mem_realloc, SHMEM_SIZE_FIELD. rewrite <- En. replace (p + 8 - 8) with p by lia.
  rewrite (chunk_size_of_ok _ _ _ _ Hw (at_middle _ l1 c l2)), Hsz. cbn [mbind res_mbind].
  rewrite (next_is_free_ok s l1 c l2 Hw (ok_hi _ _ _ Hok)). cbn [mbind res_mbind].
  destruct (Z.leb_spec n (csize c)); [by apply smaller_ok|]. destruct (next_free l2) eqn:Enf.
  - destruct (next_free_inv _ Enf) as (b & l3 & El & Hb). pose proof Hok as Hok'. rewrite El in Hok'.
    destruct (join_next s l1 c b l3 ls 0 0 Hok' Hc Hb Hp0) as (-> & _). cbn [mbind res_mbind].
    destruct (Z.geb_spec (csize c + 2 * 8 + csize b) n).
    + by eapply realloc_grow_ok.
    + replace (csize b + 2 * 8) with (next_room l2) by (rewrite El; unfold next_room; rewrite Hb; lia). by apply move_ok.
  - rewrite <- (no_next_room _ Enf). by apply move_ok.
Qed.

End reallocating.

(** ** Creation *)

Lemma one_chunk_ok s :
  buckets s = replicate 30 0 -> 0 < lo_bound s -> hi_bound s = lo_bound s + 8 * zlen (words s) -> 5 <= zlen (words s) ->
  total_size s = 8 * zlen (words s) - 16 -> hi_bound s < 2 ^ 62 ->
  exists s' c ls, one_chunk s = Ret s' /\ ok s' [c] ls /\ is_free c = true /\ csize c = total_size s /\ geom s' = geom s.
Proof.
  intros Hbu Hlo Hhi H5 Hto Hmax. destruct (words s) as [|h tl] eqn:Hw; [rewrite (zlen_nil (A:=Z)) in H5; lia|].
  destruct tl as [|f w _] using rev_ind; [rewrite zlen_cons, (zlen_nil (A:=Z)) in H5; lia|].
  assert (Hz : zlen (h :: w ++ [f]) = zlen w + 2) by lens. rewrite Hz in *. set (ls0 := replicate 30 ([] : list Z)).
  set (c0 := Chunk h w f). assert (Hc0 : csize c0 = total_size s) by (unfold csize; cbn; lia).
  destruct w as [|x [|y r]] eqn:Ew; [rewrite (zlen_nil (A:=Z)) in H5; lia|rewrite zlen_cons, (zlen_nil (A:=Z)) in H5; lia|]. rewrite <- Ew in *.
  unfold one_chunk. destruct (bucket_range (total_size s)) as [Hb30 Hbv]. rewrite <- Hbv.
  erewrite (set_bucket_ok s ls0 _ [] (lo_bound s) [lo_bound s]); [|by rewrite Hbu|by apply lookup_replicate_2|done]. cbn [mbind res_mbind].
  set (ls := <[bucket (total_size s) := [lo_bound s]]> ls0). set (s1 := set_buckets s (first_of <$> ls)).
  pose proof (set_tags s1 [] c0 [] (total_size s)) as Et. rewrite spans_nil, Z.add_0_r, Hc0 in Et.
  change (lo_bound s1) with (lo_bound s) in *. change (total_size s1) with (total_size s).
  change (mem_set_chunk_size s1 (lo_bound s) (total_size s)) with
    (s' ← store s1 (lo_bound s) (total_size s); store s' (lo_bound s + SHMEM_SIZE_FIELD + total_size s) (total_size s)).
  rewrite Et. 2: { cbn. by rewrite Hw, Ew, app_nil_r. } clear Et. cbn [mbind res_mbind app]. set (c1 := Chunk (total_size s) (body c0) (total_size s)). set (s2 := set_words s1 _).
  destruct (store_links s2 [c1] eq_refl (lo_bound s) c1 x y r 0) as [Ep _]; [cbn; by rewrite Z.eqb_refl|done|].
  change (lo_bound s2) with (lo_bound s). rewrite Ep. cbn [mbind res_mbind upd]. change (lo_bound s2) with (lo_bound s). rewrite Z.eqb_refl.
  set (c2 := Chunk (hd c1) (0 :: y :: r) (ft c1)). set (s3 := set_words s2 _).
  destruct (store_links s3 [c2] eq_refl (lo_bound s) c2 0 y r 0) as [_ En]; [cbn; by rewrite Z.eqb_refl|done|].
  change (lo_bound s3) with (lo_bound s). rewrite En. cbn [mbind res_mbind upd]. change (lo_bound s3) with (lo_bound s). rewrite Z.eqb_refl.
  set (c := Chunk (hd c2) (0 :: 0 :: r) (ft c2)). assert (Hcs : csize c = total_size s) by (unfold csize, c; cbn [body]; rewrite Hto, Ew, !zlen_cons; lia).
  assert (Hcm : c = mk false (body c)) by (pose proof Hcs as E; unfold csize in E; unfold mk, tag; by rewrite E).
  assert (Hcf : is_free c = true) by (rewrite Hcm; apply mk_free; unfold csize in Hcs; cbn [body] in *; lia).
  pose proof (lookup_replicate_2 30 ([] : list Z) (bucket (total_size s)) Hb30) as Hl0. fold ls0 in Hl0.
  assert (Hi0 : indexed ls0 = [] /\ concat ls0 = []) by done. destruct Hi0 as [Hi0 Hc00].
  eexists _, c, ls. split; [done|]. split_and!; try done. split; cbn -[ls]; try done.
  - split; cbn -[ls]; try done.
    + apply Forall_lookup. intros i ns. unfold ls. rewrite list_lookup_insert. case_decide.
      * intros [= <-]. split; [|done]. exists c, r. cbn. by rewrite Z.eqb_refl.
      * intros Hi. apply lookup_replicate in Hi as [-> _]. done.
    + apply lists_nodup_insert; [done|by rewrite Hc00; constructor|rewrite Hc00; apply not_elem_of_nil].
  - unfold ls. by rewrite length_insert.
  - constructor; [|constructor]. rewrite Hcm. apply mk_tagged. cbn [c body]. rewrite Ew in H5. unfold zlen in H5. cbn in *. lia.
  - unfold ls. rewrite indexed_insert by done. rewrite Hi0. cbn [frees]. by rewrite Hcf, Hcs.
  - cbn. rewrite Hcf. done.
  - cbn. rewrite Hcf, Hcs. lia.
  - rewrite spans_cons, spans_nil, Hcs. lia.
  - rewrite spans_cons, spans_nil, Hcs. lia.
Qed.

Lemma align8 p : ALIGN8 p = p + 7 - (p + 7) mod 8.
Proof.
  unfold ALIGN8. rewrite <- Z.ldiff_land. change 7 with (Z.ones 3) at 2. rewrite Z.ldiff_ones_r by lia.
  rewrite Z.shiftl_mul_pow2, Z.shiftr_div_pow2 by lia. change (2 ^ 3) with 8. dlia.
Qed.

(** The bytes before the first chunk. *)
Definition header (descr param : Z) : Z := 368 + (descr + 1) + (param + 1).

Lemma create_ok base size descr param oom :
  base mod 8 = 0 -> 0 < base < 2 ^ 61 -> 0 <= descr -> 0 <= param -> header descr param + 55 <= size <= SHMEM_MAX_SIZE ->
  exists s c ls, zbx_shmem_create (Some base) size descr param oom = Ret (Some s) /\ ok s [c] ls /\ is_free c = true /\ csize c = total_size s /\
    lock s = false /\ allow_oom s = oom /\ total_size s = ALIGN8 (base + size - 8) - ALIGN8 (base + header descr param) - 16.
Proof.
  unfold header, SHMEM_MAX_SIZE. intros Hal Hb Hd Hp Hs. unfold zbx_shmem_create, SHMEM_MIN_SIZE, SHMEM_MAX_SIZE, ALIGNPTR, sizeof_shmem_info.
  change ((ZBX_SHMEM_BUCKET_COUNT) * ZBX_PTR_SIZE) with 240. change (Z.to_nat ZBX_SHMEM_BUCKET_COUNT) with 30%nat.
  change (negb (ZBX_PTR_SIZE =? 4) && negb (ZBX_PTR_SIZE =? 8)) with false. cbv iota. rewrite (proj2 (Z.leb_le 128 size)), (proj2 (Z.leb_le size _)) by lia. cbn [negb andb].
  change (ZBX_PTR_SIZE =? 4) with false. change (ZBX_PTR_SIZE =? 8) with true. cbv iota. cbn [mbind res_mbind].
  assert (HA : forall x, x mod 8 = 0 -> ALIGN8 x = x) by (intros x Hx; rewrite align8; dlia).
  rewrite (HA base Hal). rewrite (HA (base + 128)) by dlia.
  rewrite (u64_small (size - _)) by lia. rewrite (u64_small (_ - (base + 128 + 240 - (base + 128)))) by lia.
  rewrite (u64_small (_ - (descr + 1))) by lia. rewrite (u64_small (_ - (param + 1))) by lia.
  rewrite (u64_small (base + 128 + 240 + descr + 1 + param + 1 + _ - 8)) by lia.
  replace (base + 128 + 240 + descr + 1 + param + 1 +
    (size - (base + 128 - base) - (base + 128 + 240 - (base + 128)) - (descr + 1) - (param + 1)) - 8) with (base + size - 8) by lia.
  replace (base + 128 + 240 + descr + 1 + param + 1) with (base + (368 + (descr + 1) + (param + 1))) by lia.
  set (lo := ALIGN8 (base + (368 + (descr + 1) + (param + 1)))). set (hi := ALIGN8 (base + size - 8)).
  assert (Hlo : lo mod 8 = 0 /\ base < lo <= base + (368 + (descr + 1) + (param + 1)) + 7) by (unfold lo; rewrite align8; dlia).
  assert (Hhi : hi mod 8 = 0 /\ base + size - 8 <= hi <= base + size - 1) by (unfold hi; rewrite align8; dlia).
  unfold SHMEM_SIZE_FIELD. rewrite u64_small by lia. set (s0 := Shmem _ _ _ _ _ _ _ _ _ _).
  assert (Hz : 8 * zlen (words s0) = hi - lo) by (cbn; rewrite zlen_replicate; dlia).
  destruct (one_chunk_ok s0) as (s & c & ls & -> & Hok & Hf & Hc & Hg); try (cbn -[zlen words]; lia); [done|].
  cbn [mbind res_mbind]. exists s, c, ls. unfold geom in Hg. cbn in Hg. injection Hg as _ _ _ Ht Hoo Hlk. split_and!; try done. cbn in Hc. congruence.
Qed.

(** ** Statistics *)

Definition size_at (a : Z) (cs : list chunk) (p : Z) : Z := from_option csize 0 (at_ a cs p).
Definition least (mn : Z) (l : list Z) : Z := foldr Z.min mn l.
Definition greatest (mx : Z) (l : list Z) : Z := foldr Z.max mx l.

Lemma least_cons mn x l : least (Z.min mn x) l = least mn (x :: l).
Proof. unfold least. induction l; cbn in *; lia. Qed.

Lemma greatest_cons mx x l : greatest (Z.max mx x) l = greatest mx (x :: l).
Proof. unfold greatest. induction l; cbn in *; lia. Qed.

#[export] Instance least_perm mn : Proper ((≡ₚ) ==> (=)) (least mn).
Proof. intros l1 l2 H. apply (foldr_permutation (=) _ _); [intros; lia|done]. Qed.

#[export] Instance greatest_perm mx : Proper ((≡ₚ) ==> (=)) (greatest mx).
Proof. intros l1 l2 H. apply (foldr_permutation (=) _ _); [intros; lia|done]. Qed.

Lemma least_app mn l1 l2 : least (least mn l1) l2 = least mn (l1 ++ l2).
Proof. rewrite (Permutation_app_comm l1 l2). unfold least. by rewrite foldr_app. Qed.

Lemma greatest_app mx l1 l2 : greatest (greatest mx l1) l2 = greatest mx (l1 ++ l2).
Proof. rewrite (Permutation_app_comm l1 l2). unfold greatest. by rewrite foldr_app. Qed.

Section statistics.
Variables (s : shmem) (cs : list chunk) (ls0 : list (list Z)).
Hypothesis Hok : ok s cs ls0.
#[local] Abbreviation size_of := (size_at (lo_bound s) cs).

Lemma bucket_stats_ok prev ns fuel k mn mx :
  dlist (lo_bound s) cs prev ns -> (length ns < fuel)%nat -> 0 <= k -> k + zlen ns < 2 ^ 64 ->
  bucket_stats fuel s (first_of ns) k mn mx = Ret (k + zlen ns, least mn (size_of <$> ns), greatest mx (size_of <$> ns)).
Proof using Hok.
  pose proof (ln_words _ _ _ (ok_links _ _ _ Hok)) as Hw.
  revert prev fuel k mn mx. induction ns as [|p ns IH]; intros prev fuel k mn mx Hd Hf Hk Hmax; (destruct fuel as [|fuel]; [cbn in Hf; lia|]); cbn [bucket_stats first_of].
  - by rewrite (zlen_nil (A:=Z)), Z.add_0_r.
  - destruct Hd as [(c & r & Hc & _ & Hb) Hd]. rewrite zlen_cons in Hmax. pose proof (zlen_nonneg ns). destruct (ok_at _ _ _ _ _ Hok Hc) as (Hp0 & _ & _ & _ & Hsz).
    rewrite (proj2 (Z.eqb_neq p 0)) by done. rewrite (chunk_size_of_ok _ _ _ _ Hw Hc), Hsz. cbn [mbind res_mbind].
    destruct (load_links s cs Hw p c _ _ _ Hc Hb) as [_ ->]. cbn [mbind res_mbind]. rewrite u64_small by lia.
    rewrite (IH p fuel (k + 1)); [|done|cbn in Hf; lia|lia|lia]. assert (Hp : csize c = size_of p) by (unfold size_at; by rewrite Hc).
    rewrite least_cons, greatest_cons, zlen_cons, fmap_cons, Hp. do 3 f_equal. lia.
Qed.

Lemma all_stats_ok ls mn mx k nums :
  Forall (dlist (lo_bound s) cs 0) ls -> Forall (fun ns => (length ns <= length (words s))%nat) ls ->
  0 <= k -> k + zlen (concat ls) < 2 ^ 32 ->
  all_stats (first_of <$> ls) s mn mx k nums =
    Ret (least mn (size_of <$> concat ls), greatest mx (size_of <$> concat ls), k + zlen (concat ls), nums ++ (zlen <$> ls)).
Proof using Hok.
  revert mn mx k nums. induction ls as [|ns ls IH]; intros mn mx k nums HF HS Hk Hmax; cbn [all_stats fmap list_fmap concat].
  - by rewrite (zlen_nil (A:=Z)), Z.add_0_r, app_nil_r.
  - apply Forall_cons in HF as [Hd HF]. apply Forall_cons in HS as [Hs HS]. cbn [concat] in Hmax. rewrite zlen_app in Hmax.
    pose proof (zlen_nonneg ns). pose proof (zlen_nonneg (concat ls)).
    rewrite (bucket_stats_ok 0 ns (S (length (words s))) 0 mn mx Hd) by lia. cbn [mbind res_mbind].
    rewrite Z.add_0_l, (u32_small (k + _)), (u32_small (zlen ns)) by lia.
    rewrite (IH _ _ (k + zlen ns) (nums ++ [zlen ns]) HF HS) by lia.
    rewrite least_app, greatest_app, <- fmap_app, <- (assoc_L (++)), zlen_app. do 3 f_equal. lia.
Qed.

End statistics.

Lemma frees_count a cs : zlen (frees a cs) + zlen (blocks a cs) = zlen cs.
Proof. revert a. induction cs as [|c cs IH]; intros a; cbn [frees blocks]; [done|]. rewrite !zlen_app, zlen_cons, <- (IH (a + (16 + csize c))). destruct (is_free c); lens. Qed.

Lemma indexed_concat ls : snd <$> indexed ls = concat ls.
Proof.
  unfold indexed. assert (H : forall f : nat -> nat, snd <$> concat (imap (fun i (ns : list Z) => pair (f i) <$> ns) ls) = concat ls); [|apply (H id)].
  induction ls as [|ns ls IH]; intros f; [done|]. rewrite imap_cons. cbn [concat]. rewrite fmap_app. unfold compose. rewrite (IH (fun i => f (S i))).
  f_equal. by rewrite <- list_fmap_compose, list_fmap_id.
Qed.

Definition free_chunks (cs : list chunk) : list chunk := filter (fun c => is_free c = true) cs.

Lemma frees_sizes cs l1 l2 a : cs = l1 ++ l2 -> (fun f => size_at a cs f.2) <$> frees (a + spans l1) l2 = csize <$> free_chunks l2.
Proof.
  revert l1. induction l2 as [|c l2 IH]; intros l1 E; [done|]. cbn [frees]. unfold free_chunks. rewrite filter_cons, fmap_app.
  replace (a + spans l1 + (16 + csize c)) with (a + spans (l1 ++ [c])) by (rewrite spans_app, spans_cons, spans_nil; lia).
  rewrite (IH (l1 ++ [c])) by (by rewrite E, <- (assoc_L (++))). destruct (is_free c) eqn:Hc; cbn; [|done].
  f_equal. unfold size_at. by rewrite E, at_middle.
Qed.

#[export] Instance zlen_perm {A} : Proper ((≡ₚ@{A}) ==> (=)) zlen.
Proof. intros l1 l2 H. unfold zlen. by rewrite H. Qed.

Lemma bucket_count ls i ns : ls !! i = Some ns -> zlen (filter (fun f : nat * Z => f.1 = i) (indexed ls)) = zlen ns.
Proof.
  intros Hi. destruct (indexed_split _ _ _ Hi) as (r & Hr & Hn). specialize (Hn []). cbn in Hn. rewrite Hr.
  rewrite filter_app, filter_all, filter_none, app_nil_r.
  - unfold zlen. by rewrite length_fmap.
  - intros [j x] Hx. rewrite <- Hn in Hx. apply elem_of_indexed in Hx as (m & Hm & Hx). cbn. intros ->. rewrite list_lookup_insert_eq in Hm by (by eapply lookup_lt_Some).
    injection Hm as <-. by apply not_elem_of_nil in Hx.
  - intros x (y & -> & _)%list_elem_of_fmap. done.
Qed.

Lemma frees_bucket a cs i : zlen (filter (fun f : nat * Z => f.1 = i) (frees a cs)) = zlen (filter (fun c => bucket (csize c) = i) (free_chunks cs)).
Proof.
  revert a. induction cs as [|c cs IH]; intros a; [done|]. cbn [frees]. unfold free_chunks. rewrite filter_app, (filter_cons (fun c => is_free c = true)), zlen_app, IH.
  destruct (is_free c); cbn [filter]; [|by rewrite decide_False]. rewrite decide_True, !filter_cons by done. cbn. case_decide; rewrite ?zlen_cons; unfold free_chunks; lens.
Qed.

(** ** Properties *)

Definition shmem_ok (s : shmem) (cs : list chunk) : Prop := lock s = false /\ 0 < total_size s /\ exists ls, ok s cs ls.

(** The blocks given to users: address and contents. *)
Definition user_blocks (s : shmem) (cs : list chunk) : list (Z * list Z) := blocks (lo_bound s) cs.

Lemma ok_set_lock s cs ls b : ok s cs ls -> ok (set_lock s b) cs ls.
Proof. intros [[? ? ? ? ?] ? ? ? ? ? ? ? ? ?]. by repeat split. Qed.

Lemma lock_cycle s : lock s = false -> lock_unlock (set_lock s true) = s.
Proof. destruct s. cbn. by intros ->. Qed.

Lemma geom_unlock s s' : geom s' = geom (set_lock s true) -> lock s = false -> geom (lock_unlock s') = geom s.
Proof. unfold geom. cbn. intros [= -> -> -> -> -> _] ->. done. Qed.

Lemma unlocked_ok s s' cs' ls' : geom s' = geom (set_lock s true) -> 0 < total_size s -> ok s' cs' ls' -> shmem_ok (lock_unlock s') cs'.
Proof. unfold geom. intros Hg Ht H. split; [done|]. split; [cbn in *; congruence|]. exists ls'. by apply ok_set_lock. Qed.

Lemma forall_free a cs n : (forall q c, at_ a cs q = Some c -> is_free c = true -> csize c < n) -> Forall (fun c => is_free c = true -> csize c < n) cs.
Proof. intros H. apply Forall_forall. intros c (l1 & l2 & ->)%list_elem_of_split. apply (H (a + spans l1)), at_middle. Qed.

(** C21: Allocation.  A request for 0 bytes or for more than the greatest
    segment ends the process.  Any other request returns a new block of at
    least that size, beside all blocks that were there, with their contents
    and with the allocator well formed; it fails only when no free chunk is
    big enough, and then leaves everything as it is and returns NULL, or ends
    the process when the segment may not run out of memory. *)
Theorem shmem_malloc_correct s cs size :
  shmem_ok s cs -> 0 <= size ->
  if bad_size size then zbx_shmem_malloc s 0 size = Halt ExitFailure
  else
    (exists s' cs' p w, zbx_shmem_malloc s 0 size = Ret (s', p) /\ p <> 0 /\ shmem_ok s' cs' /\ geom s' = geom s /\ size <= 8 * zlen w /\
       user_blocks s' cs' ≡ₚ (p, w) :: user_blocks s cs) \/
    (Forall (fun c => is_free c = true -> csize c < mem_proper_alloc_size size) cs /\
     zbx_shmem_malloc s 0 size = if allow_oom s =? 1 then Ret (s, 0) else Halt ExitFailure).
Proof.
  intros (Hl & Hpos & ls & Hok) Hs. unfold zbx_shmem_malloc. cbn [Z.eqb negb]. destruct (bad_size size) eqn:Hbad; [done|].
  unfold bad_size in Hbad. unbool. unfold lock_block. rewrite Hl. cbn [mbind res_mbind].
  pose proof (malloc_ok (set_lock s true) cs ls size (ok_set_lock _ _ _ _ Hok) ltac:(lia)) as [[-> Hn]|(s' & p & w & cs' & ls' & b1 & b2 & -> & Hp & Hok' & Hg & Hw & Hb & Hb')];
    cbn [mbind res_mbind].
  - right. rewrite lock_cycle by done. unfold user_ptr. cbn [Z.eqb]. split; [by eapply forall_free|]. by destruct (allow_oom s =? 1).
  - left. unfold user_ptr. rewrite (proj2 (Z.eqb_neq _ _) Hp). exists (lock_unlock s'), cs', (p + SHMEM_SIZE_FIELD), w.
    destruct (proper_size size Hs) as [Hps _]. pose proof (geom_unlock _ _ Hg Hl) as Hg'.
    assert (Hlo : lo_bound s' = lo_bound s) by (unfold geom in Hg; cbn in Hg; congruence).
    split_and!; try done; [|by eapply unlocked_ok|lia|].
    + assert (Hin : (p + 8, w) ∈ blocks (lo_bound s') cs') by (rewrite Hlo; cbn in Hb'; rewrite Hb'; apply elem_of_app; right; by left).
      apply blocks_at in Hin as (c & Hc%at_range & _). pose proof (ln_lo _ _ _ (ok_links _ _ _ Hok')). unfold SHMEM_SIZE_FIELD. lia.
    + unfold user_blocks. cbn. cbn in Hb, Hb'. rewrite Hlo, Hb', Hb. by rewrite <- Permutation_middle.
Qed.

Lemma block_split s cs p w : (p, w) ∈ user_blocks s cs ->
  exists l1 c l2, cs = l1 ++ c :: l2 /\ p = lo_bound s + spans l1 + 8 /\ is_free c = false /\ body c = w.
Proof.
  intros (c & Hc & Hf & Hb)%blocks_at. apply at_split in Hc as (l1 & l2 & Hcs & Hp). exists l1, c, l2. split_and!; try done. lia.
Qed.

Lemma geom_lo s s' : geom s' = geom s -> lo_bound s' = lo_bound s.
Proof. unfold geom. congruence. Qed.

(** C23: Reallocation of a block: the process ends for a bad size; otherwise
    the block gets at least the asked size, at the same or at another
    address, its contents are kept up to the smaller of the two sizes, and
    every other block stays as it is.  NULL (or the end of the process when
    the segment may not run out of memory) is only returned, with nothing
    changed, when neither a free chunk nor the block together with its free
    neighbours is big enough. *)
Theorem shmem_realloc_correct s cs p w size :
  shmem_ok s cs -> 0 <= size -> (p, w) ∈ user_blocks s cs ->
  if bad_size size then zbx_shmem_realloc s p size = Halt ExitFailure
  else
    (exists s' cs' p' w' others, zbx_shmem_realloc s p size = Ret (s', p') /\ p' <> 0 /\ shmem_ok s' cs' /\ geom s' = geom s /\
       size <= 8 * zlen w' /\ grown w w' /\ user_blocks s cs ≡ₚ (p, w) :: others /\ user_blocks s' cs' ≡ₚ (p', w') :: others) \/
    ((exists l1 c l2, cs = l1 ++ c :: l2 /\ p = lo_bound s + spans l1 + 8 /\ csize c + prev_room l1 + next_room l2 < mem_proper_alloc_size size) /\
     Forall (fun c => is_free c = true -> csize c < mem_proper_alloc_size size) cs /\
     zbx_shmem_realloc s p size = if allow_oom s =? 1 then Ret (s, 0) else Halt ExitFailure).
Proof.
  intros (Hl & Hpos & ls & Hok) Hs (l1 & c & l2 & -> & -> & Hf & <-)%block_split. unfold zbx_shmem_realloc. destruct (bad_size size) eqn:Hbad; [done|].
  unfold bad_size in Hbad. unbool. unfold lock_block. rewrite Hl. cbn [mbind res_mbind]. destruct (proper_size size Hs) as (Hps & H8 & H24 & Hub).
  pose proof (ok_set_lock _ _ _ true Hok) as Hok1. pose proof (chunk_pos _ _ _ _ _ Hok). pose proof (spans_nonneg l1). pose proof (ln_lo _ _ _ (ok_links _ _ _ Hok)).
  rewrite (proj2 (Z.eqb_neq _ 0)) by lia.
  destruct (realloc_ok (set_lock s true) l1 c l2 ls (mem_proper_alloc_size size) Hok1 Hf H8 ltac:(unfold SHMEM_MAX_SIZE in *; lia) size eq_refl)
    as [(E & Hroom & Hno)|(s' & q & w' & cs' & ls' & E & Hq & Hok' & Hg & Hw & Hgr & Hb)]; cbn [lo_bound set_lock] in *; rewrite E; cbn [mbind res_mbind].
  - right. rewrite lock_cycle by done. unfold user_ptr. cbn [Z.eqb]. split_and!; [|by eapply forall_free|by destruct (allow_oom s =? 1)]. eauto 6.
  - left. unfold user_ptr. rewrite (proj2 (Z.eqb_neq _ _) Hq). pose proof (geom_unlock _ _ Hg Hl) as Hg'.
    assert (Hlo : lo_bound s' = lo_bound s) by (unfold geom in Hg; cbn in Hg; congruence).
    eexists (lock_unlock s'), cs', (q + SHMEM_SIZE_FIELD), w', _. split_and!; try done; [|by eapply unlocked_ok|lia|apply blocks_middle, Hf|].
    + assert (Hin : (q + 8, w') ∈ blocks (lo_bound s') cs') by (rewrite Hlo, Hb; by left).
      apply blocks_at in Hin as (d & Hd%at_range & _). pose proof (ln_lo _ _ _ (ok_links _ _ _ Hok')). unfold SHMEM_SIZE_FIELD. lia.
    + unfold user_blocks. cbn. rewrite Hlo. exact Hb.
Qed.

(** C22: Freeing a block removes this block and leaves every other one, with
    its contents, as it is; its memory is in a free chunk that has absorbed
    the free neighbours (no two free chunks are ever adjacent, by the
    invariant).  Freeing NULL ends the process. *)
Theorem shmem_free_correct s cs p w :
  shmem_ok s cs -> (p, w) ∈ user_blocks s cs ->
  zbx_shmem_free s 0 = Halt ExitFailure /\
  exists s' cs', zbx_shmem_free s p = Ret s' /\ shmem_ok s' cs' /\ geom s' = geom s /\
    user_blocks s cs ≡ₚ (p, w) :: user_blocks s' cs' /\
    exists l1 c l2 q d, cs = l1 ++ c :: l2 /\ p = lo_bound s + spans l1 + 8 /\
      at_ (lo_bound s) cs' q = Some d /\ is_free d = true /\ csize d = 8 * zlen w + prev_room l1 + next_room l2.
Proof.
  intros (Hl & Hpos & ls & Hok) (l1 & c & l2 & -> & -> & Hf & <-)%block_split. split; [done|]. unfold zbx_shmem_free, lock_block. rewrite Hl.
  pose proof (ok_set_lock _ _ _ true Hok) as Hok1. pose proof (spans_nonneg l1). pose proof (ln_lo _ _ _ (ok_links _ _ _ Hok)).
  rewrite (proj2 (Z.eqb_neq _ 0)) by lia. cbn [mbind res_mbind].
  destruct (free_ok (set_lock s true) l1 c l2 ls Hok1 Hf) as (s' & cs' & ls' & q & d & E & Hok' & Hg & Hb & Hd & Hdf & Hds). cbn [lo_bound set_lock] in *.
  rewrite E. cbn [mbind res_mbind]. assert (Hlo : lo_bound s' = lo_bound s) by (unfold geom in Hg; cbn in Hg; congruence).
  exists (lock_unlock s'), cs'. split_and!; try done; [by eapply unlocked_ok|by apply geom_unlock| |].
  - unfold user_blocks. cbn. rewrite Hlo, Hb. by apply blocks_middle.
  - exists l1, c, l2, q, d. by split_and!.
Qed.

Lemma apart_all_free cs : apart (is_free <$> cs) = true -> Forall (fun c => is_free c = true) cs -> (length cs <= 1)%nat.
Proof.
  destruct cs as [|c [|d cs]]; cbn; try lia. intros Ha HF. apply Forall_cons in HF as [Hc HF]. apply Forall_cons in HF as [Hd _].
  by rewrite Hc, Hd in Ha.
Qed.

Lemma no_blocks a cs : blocks a cs = [] -> Forall (fun c => is_free c = true) cs.
Proof.
  revert a. induction cs as [|c cs IH]; intros a H; [done|]. cbn [blocks] in H. apply app_eq_nil in H as [H1 H2].
  constructor; [by destruct (is_free c)|by eapply IH].
Qed.

(** What a well-formed segment promises to its users.  Two blocks never
    share memory; each block is inside the bounds of the segment, is 8 byte
    aligned relative to them and holds at least 24 bytes; reading it gives
    its contents, and writing within its size changes this block's contents
    only and keeps the segment well formed.  The counters account for every
    byte, and once all blocks are freed the whole segment is one chunk
    again. *)
Theorem shmem_layout s cs :
  shmem_ok s cs ->
  (forall p w, (p, w) ∈ user_blocks s cs ->
     lo_bound s + 8 <= p /\ p + 8 * zlen w + 8 <= hi_bound s /\ 24 <= 8 * zlen w /\ copy_out s p (8 * zlen w) = Ret w /\
     (forall q v, (q, v) ∈ user_blocks s cs -> q = p \/ p + 8 * zlen w + 16 <= q \/ q + 8 * zlen v + 16 <= p) /\
     (forall ws, (length ws <= length w)%nat -> exists s' cs' others, store_words s p ws = Ret s' /\ shmem_ok s' cs' /\ geom s' = geom s /\
        user_blocks s cs ≡ₚ (p, w) :: others /\ user_blocks s' cs' ≡ₚ (p, ws ++ drop (length ws) w) :: others)) /\
  used_size s + free_size s + 16 * (zlen cs - 1) = total_size s /\
  used_size s = foldr (fun b n => 8 * zlen b.2 + n) 0 (user_blocks s cs) /\
  (user_blocks s cs = [] -> used_size s = 0 /\ free_size s = total_size s /\ exists c, cs = [c] /\ is_free c = true /\ csize c = total_size s).
Proof.
  intros (Hl & Hpos & ls & Hok). pose proof (ok_hi _ _ _ Hok) as Hhi. pose proof (sums_spans cs) as Hsum. pose proof (ok_total _ _ _ Hok) as Htot.
  pose proof (ok_used _ _ _ Hok) as Hu. pose proof (ok_free _ _ _ Hok) as Hfr. split; [|split; [lia|split]].
  - intros p w Hin. pose proof Hin as (c & Hc & Hf & Hb)%blocks_at. pose proof (at_range _ _ _ _ Hc). destruct (ok_at _ _ _ _ _ Hok Hc) as (_ & _ & Hsz & _).
    unfold csize in *. rewrite Hb in *. split_and!; try lia.
    + destruct (block_split _ _ _ _ Hin) as (l1 & d & l2 & Hcs & -> & Hdf & <-). rewrite <- (copy_out_ok s l1 d l2); [done|]. rewrite <- Hcs. apply Hok.
    + intros q v (d & Hd & _ & Hv)%blocks_at. pose proof (at_disjoint _ _ _ _ _ _ Hc Hd) as H1. pose proof (at_disjoint _ _ _ _ _ _ Hd Hc) as H2. unfold csize in *. rewrite Hb, Hv in *. lia.
    + intros ws Hws. destruct (block_split _ _ _ _ Hin) as (l1 & d & l2 & Hcs & Hp & Hdf & Hdw).
      destruct (used_mk _ _ _ _ _ Hok Hc Hf) as [_ Hmax]. rewrite Hb in Hmax. subst cs.
      assert (Hdm : d = mk true w) by (rewrite <- Hdw; eapply used_mk; [exact Hok|apply at_middle|done]). rewrite Hdm in Hok.
      destruct (write_block s l1 w l2 ls ws Hok Hws Hmax) as (s' & E & Hok' & Hg). rewrite <- Hp in E. set (w' := ws ++ drop (length ws) w) in *.
      assert (Hlen : zlen w' = zlen w) by (unfold w', zlen; rewrite length_app, length_drop; lia).
      exists s', (l1 ++ mk true w' :: l2), (blocks (lo_bound s) l1 ++ blocks (lo_bound s + spans l1 + (16 + csize d)) l2). split_and!; try done.
      * unfold geom in Hg. split; [congruence|]. split; [|by exists ls]. congruence.
      * unfold user_blocks. rewrite blocks_middle, Hdw, Hp by done. done.
      * unfold user_blocks. rewrite (geom_lo _ _ Hg), blocks_middle by (rewrite mk_free; [done|lia]). cbn [body mk]. rewrite Hdm. unfold csize. cbn [body mk]. by rewrite Hlen, Hp.
  - rewrite Hu. unfold user_blocks. generalize (lo_bound s). clear. induction cs as [|c cs IH]; intros a; [done|]. cbn [blocks usum foldr]. rewrite foldr_app.
    change (foldr _ 0 cs) with (usum cs). rewrite (IH (a + (16 + csize c))). by destruct (is_free c).
  - intros Hno%no_blocks. pose proof (apart_all_free _ (ok_apart _ _ _ Hok) Hno) as H1. destruct cs as [|c [|]]; [|clear H1|cbn in H1; lia].
    + rewrite spans_nil in Htot. lia.
    + apply Forall_cons in Hno as [Hcf _]. cbn in Hu, Hfr. rewrite Hcf in *. rewrite spans_cons, spans_nil in Htot. split_and!; try lia. exists c. split_and!; try done. lia.
Qed.

Lemma chunk_room s cs ls : ok s cs ls -> 40 * zlen cs <= spans cs.
Proof.
  intros Hok. pose proof (ok_tagged _ _ _ Hok) as HF. clear Hok. induction HF as [|c cs Hc HF IH]; [rewrite spans_nil; done|].
  rewrite spans_cons, zlen_cons. pose proof (csize_min _ Hc). lia.
Qed.

(** The statistics of a segment of at most the greatest size are exact:
    they count the free chunks of each size class, all free chunks and all
    blocks, give the least and the greatest size of a free chunk and the
    bytes the size fields take, and leave the segment as it is. *)
Theorem shmem_stats_correct s cs :
  shmem_ok s cs -> total_size s <= SHMEM_MAX_SIZE ->
  exists st, zbx_shmem_get_stats s = Ret (s, st) /\
    st_free_size st = free_size s /\ st_used_size st = used_size s /\ st_overhead st = 16 * (zlen cs - 1) /\
    st_free_chunks st = zlen (free_chunks cs) /\ st_used_chunks st = zlen (user_blocks s cs) /\
    st_min st = least 0xffffffffffffffff (csize <$> free_chunks cs) /\ st_max st = greatest 0 (csize <$> free_chunks cs) /\
    length (st_chunks_num st) = 30%nat /\
    forall i n, st_chunks_num st !! i = Some n -> n = zlen (filter (fun c => bucket (csize c) = i) (free_chunks cs)).
Proof.
  intros (Hl & Hpos & ls & Hok) Hmax. unfold SHMEM_MAX_SIZE in Hmax. pose proof (chunk_room _ _ _ Hok). pose proof (ok_total _ _ _ Hok). pose proof (sums_spans cs).
  pose proof (frees_count (lo_bound s) cs) as Hcnt. pose proof (frees_sizes cs [] cs (lo_bound s) eq_refl) as Hsz. rewrite spans_nil, Z.add_0_r in Hsz.
  assert (Hfz : zlen (frees (lo_bound s) cs) = zlen (free_chunks cs)) by (apply (f_equal zlen) in Hsz; unfold zlen in *; by rewrite !length_fmap in Hsz).
  pose proof (ok_frees _ _ _ Hok) as Hfr. pose proof (indexed_concat ls) as Hcc.
  assert (Hcl : zlen (concat ls) = zlen (free_chunks cs)) by (rewrite <- Hcc, Hfr, <- Hfz; unfold zlen; by rewrite length_fmap).
  assert (Hsl : size_at (lo_bound s) cs <$> concat ls ≡ₚ csize <$> free_chunks cs) by (rewrite <- Hcc, Hfr, <- Hsz, <- list_fmap_compose; done).
  pose proof (zlen_nonneg (blocks (lo_bound s) cs)). pose proof (zlen_nonneg (free_chunks cs)).
  unfold zbx_shmem_get_stats, lock_block. rewrite Hl. cbn [mbind res_mbind buckets set_lock].
  rewrite (ln_buckets _ _ _ (ok_links _ _ _ Hok)), (all_stats_ok (set_lock s true) cs ls (ok_set_lock _ _ _ _ Hok) ls _ _ 0 []); [|apply (ln_lists _ _ _ (ok_links _ _ _ Hok))| |lia|lia].
  2: { apply Forall_lookup. intros i ns Hi. by apply (list_short s cs ls i). }
  cbn [mbind res_mbind]. rewrite lock_cycle by done. cbn [lo_bound set_lock]. rewrite Z.add_0_l, Hcl.
  eexists. split; [done|]. cbn [st_free_size st_used_size st_overhead st_free_chunks st_used_chunks st_min st_max st_chunks_num app].
  rewrite (ok_used _ _ _ Hok), (ok_free _ _ _ Hok). assert (Ho : total_size s - usum cs - fsum cs = (zlen cs - 1) * 16) by lia. rewrite Ho.
  assert (1 <= zlen cs) by (destruct cs; [rewrite spans_nil in *; lia|rewrite zlen_cons; pose proof (zlen_nonneg cs); lia]).
  rewrite (u64_small (_ * 16)) by lia. change (2 * SHMEM_SIZE_FIELD) with 16. rewrite Z.div_mul, u32_small by lia. unfold user_blocks. split_and!; try done; try lia; try (by rewrite Hsl).
  - rewrite length_fmap. apply Hok.
  - intros i n Hn. rewrite list_lookup_fmap in Hn. destruct (ls !! i) as [ns|] eqn:Hi; [|done]. injection Hn as <-.
    rewrite <- (bucket_count _ _ _ Hi), Hfr. apply frees_bucket.
Qed.

Lemma one_chunk_shmem s c ls : ok s [c] ls -> lock s = false -> is_free c = true -> csize c = total_size s -> shmem_ok s [c] /\ user_blocks s [c] = [].
Proof.
  intros Hok Hl Hf Hc. destruct (ok_at s [c] ls (lo_bound s) c Hok) as (_ & _ & H & _); [cbn; by rewrite Z.eqb_refl|].
  split; [split; [done|split; [lia|by exists ls]]|]. unfold user_blocks. cbn. by rewrite Hf.
Qed.

(** Creating a segment at an address that is a multiple of 8: a size out
    of the bounds or a failed system call gives an error; otherwise, when the
    size leaves room for the header, the strings and one chunk, the segment is
    one free chunk without blocks.  [zbx_shmem_create_min] gives a segment
    whose memory is at least the asked size. *)
Theorem shmem_create_correct base size descr param oom :
  base mod 8 = 0 -> 0 < base < 2 ^ 61 -> 0 <= descr -> 0 <= param -> 0 <= size ->
  (size < SHMEM_MIN_SIZE \/ SHMEM_MAX_SIZE < size -> zbx_shmem_create (Some base) size descr param oom = Ret None) /\
  zbx_shmem_create None size descr param oom = Ret None /\
  (header descr param + 55 <= size <= SHMEM_MAX_SIZE ->
   exists s cs, zbx_shmem_create (Some base) size descr param oom = Ret (Some s) /\ shmem_ok s cs /\ user_blocks s cs = [] /\
     allow_oom s = oom /\ size - header descr param - 31 <= total_size s <= size - header descr param - 17) /\
  (31 <= size -> size + header descr param + 31 <= SHMEM_MAX_SIZE ->
   exists s cs, zbx_shmem_create_min (Some base) size descr param oom = Ret (Some s) /\ shmem_ok s cs /\ user_blocks s cs = [] /\
     allow_oom s = oom /\ size <= total_size s <= size + 7).
Proof.
  intros Hal Hb Hd Hp Hs. split; [|split; [|split]].
  - intros Hbad. unfold zbx_shmem_create. change (negb (ZBX_PTR_SIZE =? 4) && negb (ZBX_PTR_SIZE =? 8)) with false. cbv iota.
    destruct (Z.leb_spec SHMEM_MIN_SIZE size), (Z.leb_spec size SHMEM_MAX_SIZE); cbn [andb negb]; try done. lia.
  - unfold zbx_shmem_create. by repeat case_match.
  - intros Hsz. destruct (create_ok base size descr param oom Hal Hb Hd Hp Hsz) as (s & c & ls & E & Hok & Hf & Hc & Hl & Ho & Ht).
    exists s, [c]. destruct (one_chunk_shmem _ _ _ Hok Hl Hf Hc). split_and!; try done; rewrite Ht, !align8; unfold header in *; dlia.
  - intros H31 Hmax. unfold zbx_shmem_create_min. change (ALIGNPTR (0 + sizeof_shmem_info)) with (Ret 128). cbn [mbind res_mbind].
    change (ZBX_SHMEM_BUCKET_COUNT * ZBX_PTR_SIZE) with 240. replace (128 + 240 + descr + 1 + param + 1) with (header descr param) by (unfold header; lia).
    unfold SHMEM_SIZE_FIELD. assert (Ha : header descr param <= ALIGN8 (header descr param) <= header descr param + 7) by (rewrite align8; dlia).
    unfold SHMEM_MAX_SIZE in Hmax. rewrite u64_small by (unfold header in *; lia).
    destruct (create_ok base (size + ALIGN8 (header descr param) + 8 + 2 * 8) descr param oom) as (s & c & ls & E & Hok & Hf & Hc & Hl & Ho & Ht);
      try done; [unfold SHMEM_MAX_SIZE; lia|]. exists s, [c]. destruct (one_chunk_shmem _ _ _ Hok Hl Hf Hc).
    split_and!; try done; rewrite Ht, !align8; unfold header in *; dlia.
Qed.

(** Clearing a segment drops all blocks: the segment is one free chunk
    again, with the same bounds and the lock free. *)
Theorem shmem_clear_correct s cs :
  shmem_ok s cs ->
  exists s' c, zbx_shmem_clear s = Ret s' /\ shmem_ok s' [c] /\ user_blocks s' [c] = [] /\ geom s' = geom s /\ free_size s' = total_size s /\ used_size s' = 0.
Proof.
  intros (Hl & Hpos & ls & Hok). pose proof (ok_hi _ _ _ Hok). pose proof (ok_total _ _ _ Hok). pose proof (chunk_room _ _ _ Hok) as Hroom.
  assert (1 <= zlen cs) by (destruct cs; [rewrite spans_nil in *; lia|rewrite zlen_cons; pose proof (zlen_nonneg cs); lia]).
  pose proof (ln_words _ _ _ (ok_links _ _ _ Hok)) as Hw. unfold spans in *. rewrite <- Hw in *.
  unfold zbx_shmem_clear, lock_block. rewrite Hl. cbn [mbind res_mbind].
  destruct (one_chunk_ok (set_buckets (set_lock s true) (replicate 30 0))) as (s' & c & ls' & E & Hok' & Hf & Hc & Hg); try done; try (cbn -[zlen]; lia); [apply Hok|cbn -[zlen Z.pow]; apply Hok|].
  change (Z.to_nat ZBX_SHMEM_BUCKET_COUNT) with 30%nat. rewrite E. cbn [mbind res_mbind]. exists (lock_unlock s'), c.
  pose proof (geom_unlock s s' Hg Hl) as Hg'. pose proof (ok_set_lock _ _ _ false Hok') as Hok2.
  assert (Ht : total_size s' = total_size s) by (unfold geom in Hg; cbn in Hg; congruence).
  destruct (one_chunk_shmem (lock_unlock s') c ls' Hok2 eq_refl Hf) as [? ?]; [cbn in *; congruence|]. split_and!; try done.
  - cbn. rewrite (ok_free _ _ _ Hok'). cbn. rewrite Hf, Hc. cbn. lia.
  - cbn. rewrite (ok_used _ _ _ Hok'). cbn. by rewrite Hf.
Qed.

(** ** Witnesses: a segment of 1000 bytes with one block of 100 bytes *)

Definition seg : shmem :=
  match zbx_shmem_create (Some 4096) 1000 3 4 1 with
  | Ret (Some s) => match zbx_shmem_malloc s 0 100 with Ret (s, _) => s | Halt _ => s end
  | _ => Shmem [] 0 0 0 0 0 0 0 false []
  end.

Definition seg_chunks : list chunk := [mk true (take 13 (drop 1 (words seg))); mk false (drop 16 (take 75 (words seg)))].

Lemma seg_ok : shmem_ok seg seg_chunks.
Proof.
  split; [vm_compute; reflexivity|]. split; [vm_compute; reflexivity|]. exists (replicate 29 [] ++ [[4600]]). split; [split|..].
  - vm_compute; reflexivity.
  - vm_compute; reflexivity.
  - vm_compute; reflexivity.
  - apply Forall_app. split; [by apply Forall_replicate|]. constructor; [|constructor]. split; [|exact I]. exists (mk false (drop 16 (take 75 (words seg)))), (drop 18 (take 75 (words seg))). split_and!; vm_compute; reflexivity.
  - apply (bool_decide_unpack _). vm_compute. exact I.
  - vm_compute; reflexivity.
  - constructor; [|constructor; [|constructor]]; (split; [|vm_compute; lia]); [exists true|exists false]; vm_compute; reflexivity.
  - apply (bool_decide_unpack _). vm_compute. exact I.
  - vm_compute; reflexivity.
  - vm_compute; reflexivity.
  - vm_compute; reflexivity.
  - vm_compute; reflexivity.
  - vm_compute; reflexivity.
  - vm_compute; reflexivity.
Qed.

(** The block of the segment. *)
Definition seg_block : list Z := take 13 (drop 1 (words seg)).

Lemma seg_has_block : (4488, seg_block) ∈ user_blocks seg seg_chunks.
Proof. apply (bool_decide_unpack _). vm_compute. exact I. Qed.

Lemma shmem_malloc_witness : exists s' cs' p w, zbx_shmem_malloc seg 0 40 = Ret (s', p) /\ shmem_ok s' cs' /\ user_blocks s' cs' ≡ₚ (p, w) :: user_blocks seg seg_chunks.
Proof.
  pose proof (shmem_malloc_correct seg seg_chunks 40 seg_ok ltac:(lia)) as H. change (bad_size 40) with false in H. cbv iota in H.
  destruct H as [(s' & cs' & p & w & H1 & _ & H2 & _ & _ & H3)|[_ E]]; [exists s', cs', p, w; exact (conj H1 (conj H2 H3))|].
  exfalso. vm_compute in E. discriminate E.
Defined.

Lemma shmem_realloc_witness : exists s' cs' p' w' others, zbx_shmem_realloc seg 4488 300 = Ret (s', p') /\ grown seg_block w' /\
  user_blocks seg seg_chunks ≡ₚ (4488, seg_block) :: others /\ user_blocks s' cs' ≡ₚ (p', w') :: others.
Proof.
  pose proof (shmem_realloc_correct seg seg_chunks 4488 seg_block 300 seg_ok ltac:(lia) seg_has_block) as H. change (bad_size 300) with false in H. cbv iota in H.
  destruct H as [(s' & cs' & p & w & o & H1 & _ & _ & _ & _ & H2 & H3 & H4)|(_ & _ & E)]; [exists s', cs', p, w, o; exact (conj H1 (conj H2 (conj H3 H4)))|].
  exfalso. vm_compute in E. discriminate E.
Defined.

Lemma shmem_free_witness : exists s' cs', zbx_shmem_free seg 4488 = Ret s' /\ shmem_ok s' cs' /\ user_blocks seg seg_chunks ≡ₚ (4488, seg_block) :: user_blocks s' cs'.
Proof. destruct (shmem_free_correct seg seg_chunks 4488 seg_block seg_ok seg_has_block) as (_ & s' & cs' & H1 & H2 & _ & H3 & _). exists s', cs'. exact (conj H1 (conj H2 H3)). Defined.

Lemma shmem_layout_witness : copy_out seg 4488 (8 * zlen seg_block) = Ret seg_block /\ used_size seg + free_size seg + 16 = total_size seg.
Proof.
  destruct (shmem_layout seg seg_chunks seg_ok) as (H1 & H2 & _). split; [destruct (H1 4488 seg_block seg_has_block) as (_ & _ & _ & H & _); exact H|].
  change (zlen seg_chunks) with 2 in H2. lia.
Defined.

Lemma shmem_stats_witness : exists st, zbx_shmem_get_stats seg = Ret (seg, st) /\ st_free_chunks st = 1 /\ st_used_chunks st = 1 /\ st_overhead st = 16.
Proof.
  destruct (shmem_stats_correct seg seg_chunks seg_ok) as (st & E & _ & _ & H1 & H2 & H3 & _); [vm_compute; discriminate|].
  exists st. rewrite H1, H2, H3. split; [exact E|]. split_and!; vm_compute; reflexivity.
Defined.

Lemma shmem_create_witness :
  (exists s cs, zbx_shmem_create (Some 4096) 1000 3 4 1 = Ret (Some s) /\ shmem_ok s cs /\ user_blocks s cs = []) /\
  (exists s cs, zbx_shmem_create_min (Some 4096) 1000 3 4 1 = Ret (Some s) /\ shmem_ok s cs /\ 1000 <= total_size s).
Proof.
  destruct (shmem_create_correct 4096 1000 3 4 1) as (_ & _ & H1 & H2); [done|done|done|done|done|].
  destruct H1 as (s & cs & E & Hok & Hb & _); [unfold header, SHMEM_MAX_SIZE; lia|]. destruct H2 as (s2 & cs2 & E2 & Hok2 & _ & _ & Ht); [done|unfold header, SHMEM_MAX_SIZE; lia|].
  split; [exists s, cs; exact (conj E (conj Hok Hb))|]. exists s2, cs2. exact (conj E2 (conj Hok2 (proj1 Ht))).
Defined.

Lemma shmem_clear_witness : exists s' c, zbx_shmem_clear seg = Ret s' /\ shmem_ok s' [c] /\ user_blocks s' [c] = [].
Proof. destruct (shmem_clear_correct seg seg_chunks seg_ok) as (s' & c & H1 & H2 & H3 & _). exists s', c. exact (conj H1 (conj H2 H3)). Defined.

(** [SHMEM_MIN_SIZE] is smaller than the header of a segment: the smallest
    size that [zbx_shmem_create] accepts makes the remaining size negative,
    [hi_bound] ends up before [lo_bound], and the size field of the one chunk
    is stored outside of the segment. *)
Lemma shmem_min_size_too_small : zbx_shmem_create (Some 4096) SHMEM_MIN_SIZE 3 4 1 = Halt BadAccess.
Proof. vm_compute. reflexivity. Qed.
