(* ===== verification/ItemState.v ===== *)
(** * Value and state cache of items (src/libs/glb_state/glb_state_items.c)

    The element the state library keeps for an item: its last values in a
    ring buffer ([RingBuffer]), what trigger functions asked for so far (the
    demand), the part of the history that was already fetched from the
    database, and the state of the item.  The elements are in the table of
    [ElemsHash]; the functions with [_cb] in their names are the callbacks it
    runs on an element.

    A cached value is a variant, a history value a union whose member is
    chosen by the value type: reading a member that was not written is a
    [BadAccess].  A floating point number is only copied, so it is the number
    of its bits.  Interned error messages are their strings ([StrPool] shows
    that equal strings are shared).  The clock is the input [now], the history
    storage the parameter [glb_history_get_history], which gives the records
    or fails; [mem] says whether the allocator has memory. *)
From stdpp Require Import prelude list gmap strings sorting.
From Stdlib Require Import ZArith Lia.
From S2P Require Import Prelude RingBuffer ElemsHash.
#[local] Open Scope Z_scope.

Definition ITEM_VALUE_TYPE_FLOAT : Z := 0.
Definition ITEM_VALUE_TYPE_STR : Z := 1.
Definition ITEM_VALUE_TYPE_LOG : Z := 2.
Definition ITEM_VALUE_TYPE_UINT64 : Z := 3.
Definition ITEM_VALUE_TYPE_TEXT : Z := 4.
Definition ITEM_VALUE_TYPE_NONE : Z := 6.

Definition ITEM_STATE_NORMAL : Z := 0.
Definition ITEM_STATE_NOTSUPPORTED : Z := 1.
Definition ITEM_STATE_UNKNOWN : Z := 2.

Definition GLB_CACHE_ITEMS_MAX_DURATION : Z := 2 * 86400.
Definition GLB_CACHE_ITEM_MIN_VALUES : Z := 10.
Definition GLB_CACHE_ITEM_DEMAND_UPDATE : Z := 86400.

Inductive variant :=
  | VNone
  | VStr (s : string)
  | VDbl (bits : Z)
  | VUi64 (n : Z)
  | VErr (s : string).

(** [zbx_history_value_t]; [None] is a NULL pointer. *)
Inductive history_value :=
  | HDbl (bits : Z)
  | HUi64 (n : Z)
  | HStr (s : option string)
  | HLog (value : option string)
  | HErr (s : option string).

Record history_record := HRec { r_sec : Z; r_ns : Z; r_value : history_value }.

(** [ZBX_DC_HISTORY] *)
Record dc_history := DcHistory {
  h_itemid : Z; h_value_type : Z; h_value : history_value; h_state : Z; h_sec : Z }.

Record item_demand := Demand {
  d_count : Z; d_period : Z; d_count_change : Z; d_period_change : Z; d_new_count : Z; d_new_period : Z }.

Record item_meta := Meta {
  m_state : Z; m_lastdata : Z; m_nextcheck : Z; m_lastlogsize : Z; m_error : option string }.

Record item_elem := Item {
  i_meta : item_meta; i_tsbuff : tsbuff variant; i_demand : item_demand;
  i_value_type : Z; i_last_accessed : Z; i_db_fetched_time : Z; i_db_fetched_count : Z }.

Definition set_meta (e : item_elem) m := Item m (i_tsbuff e) (i_demand e) (i_value_type e) (i_last_accessed e) (i_db_fetched_time e) (i_db_fetched_count e).
Definition set_tsbuff (e : item_elem) b := Item (i_meta e) b (i_demand e) (i_value_type e) (i_last_accessed e) (i_db_fetched_time e) (i_db_fetched_count e).
Definition set_demand (e : item_elem) d := Item (i_meta e) (i_tsbuff e) d (i_value_type e) (i_last_accessed e) (i_db_fetched_time e) (i_db_fetched_count e).
Definition set_value_type (e : item_elem) t := Item (i_meta e) (i_tsbuff e) (i_demand e) t (i_last_accessed e) (i_db_fetched_time e) (i_db_fetched_count e).
Definition set_db_fetched_time (e : item_elem) t := Item (i_meta e) (i_tsbuff e) (i_demand e) (i_value_type e) (i_last_accessed e) t (i_db_fetched_count e).
Definition set_db_fetched_count (e : item_elem) c := Item (i_meta e) (i_tsbuff e) (i_demand e) (i_value_type e) (i_last_accessed e) (i_db_fetched_time e) c.

Definition set_state (m : item_meta) s := Meta s (m_lastdata m) (m_nextcheck m) (m_lastlogsize m) (m_error m).
Definition set_lastdata (m : item_meta) t := Meta (m_state m) t (m_nextcheck m) (m_lastlogsize m) (m_error m).
Definition set_nextcheck (m : item_meta) t := Meta (m_state m) (m_lastdata m) t (m_lastlogsize m) (m_error m).
Definition set_lastlogsize (m : item_meta) n := Meta (m_state m) (m_lastdata m) (m_nextcheck m) n (m_error m).
Definition set_error (m : item_meta) x := Meta (m_state m) (m_lastdata m) (m_nextcheck m) (m_lastlogsize m) x.

Record stats := Stats {
  requests : Z; hits : Z; misses : Z; db_hits : Z; db_misses : Z; db_fails : Z }.

Definition count_request (s : stats) := Stats (requests s + 1) (hits s) (misses s) (db_hits s) (db_misses s) (db_fails s).
Definition count_hit (s : stats) := Stats (requests s) (hits s + 1) (misses s) (db_hits s) (db_misses s) (db_fails s).
Definition count_miss (s : stats) := Stats (requests s) (hits s) (misses s + 1) (db_hits s) (db_misses s) (db_fails s).
Definition count_db_hit (s : stats) := Stats (requests s) (hits s) (misses s) (db_hits s + 1) (db_misses s) (db_fails s).
Definition count_db_miss (s : stats) := Stats (requests s) (hits s) (misses s) (db_hits s) (db_misses s + 1) (db_fails s).
Definition count_db_fail (s : stats) := Stats (requests s) (hits s) (misses s) (db_hits s) (db_misses s) (db_fails s + 1).

(** ** Creating and freeing an element *)

(** The size of [glb_state_item_value_t] on a 64-bit system. *)
Definition sizeof_item_value : Z := 24.

Definition item_create_cb (mem : bool) (now : Z) : res (option item_elem) :=
  if negb mem then Ret None
  else
    '(_, b) ← glb_tsbuff_init VNone (TsBuff 0 0 0 [] 0 0) GLB_CACHE_ITEM_MIN_VALUES sizeof_item_value false mem;
    Ret (Some (Item (Meta ITEM_STATE_UNKNOWN 0 0 0 None) b (Demand 0 0 0 0 0 0) ITEM_VALUE_TYPE_NONE now ZBX_JAN_2038 0)).

(** Writing the value behind a pointer into the buffer. *)
Definition store_value (b : tsbuff variant) (p : Z) (v : ts_item variant) : res (tsbuff variant) :=
  _ ← deref b p; Ret (set_data b (zset (ts_data b) p v)).

(** [item_variant_clear] of the value behind a pointer. *)
Definition item_variant_clear (b : tsbuff variant) (p : Z) : res (tsbuff variant) :=
  v ← deref b p; store_value b p (TsItem (time v) VNone).

(** Clears and frees the oldest value. *)
Definition drop_tail (b : tsbuff variant) : res (tsbuff variant) :=
  p ← glb_tsbuff_get_value_tail b;
  p ← of_opt BadAccess p;
  b ← item_variant_clear b p;
  Ret (glb_tsbuff_free_tail b).2.

Fixpoint drop_all (fuel : nat) (b : tsbuff variant) : res (tsbuff variant) :=
  match fuel with
  | O => Halt OutOfFuel
  | S fuel => if glb_tsbuff_get_count b >? 0 then b ← drop_tail b; drop_all fuel b else Ret b
  end.

Definition free_item (e : item_elem) : res unit :=
  b ← drop_all (S (Z.to_nat (ts_count (i_tsbuff e)))) (i_tsbuff e);
  glb_tsbuff_destroy b.

(** [free_item] followed by [item_create_cb] and the use of the new element. *)
Definition recreate_item (e : item_elem) (mem : bool) (now : Z) : res item_elem :=
  _ ← free_item e;
  n ← item_create_cb mem now;
  of_opt BadAccess n.

(** ** Conversion of values *)

(** The pointer member of the union, for the variants that have set it. *)
Definition data_str (v : variant) : res string :=
  match v with VStr s | VErr s => Ret s | _ => Halt BadAccess end.

Definition glb_state_value_to_hist_copy (v : variant) (value_type : Z) : res history_value :=
  if value_type =? ITEM_VALUE_TYPE_FLOAT then match v with VDbl d => Ret (HDbl d) | _ => Halt BadAccess end
  else if value_type =? ITEM_VALUE_TYPE_UINT64 then match v with VUi64 n => Ret (HUi64 n) | _ => Halt BadAccess end
  else if (value_type =? ITEM_VALUE_TYPE_STR) || (value_type =? ITEM_VALUE_TYPE_TEXT) then s ← data_str v; Ret (HStr (Some s))
  else if value_type =? ITEM_VALUE_TYPE_LOG then s ← data_str v; Ret (HLog (Some s))
  else if value_type =? ITEM_VALUE_TYPE_NONE then s ← data_str v; Ret (HErr (Some s))
  else Halt ExitFailure.

Definition hist_val_to_value (h : history_value) (value_type : Z) : res variant :=
  if value_type =? ITEM_VALUE_TYPE_FLOAT then match h with HDbl d => Ret (VDbl d) | _ => Halt BadAccess end
  else if value_type =? ITEM_VALUE_TYPE_UINT64 then match h with HUi64 n => Ret (VUi64 n) | _ => Halt BadAccess end
  else if (value_type =? ITEM_VALUE_TYPE_STR) || (value_type =? ITEM_VALUE_TYPE_TEXT) then
    (* strlen() of the pointer, before the test for NULL takes effect *)
    match h with HStr (Some s) => Ret (VStr s) | _ => Halt BadAccess end
  else if value_type =? ITEM_VALUE_TYPE_LOG then
    match h with HLog (Some s) => Ret (VStr s) | HLog None => Ret (VStr "") | _ => Halt BadAccess end
  else if value_type =? ITEM_VALUE_TYPE_NONE then
    match h with HErr (Some s) => Ret (VErr s) | HErr None => Ret VNone | _ => Halt BadAccess end
  else Halt ExitFailure.

Definition dc_hist_to_value (h : dc_history) : res variant := hist_val_to_value (h_value h) (h_value_type h).

(** ** Demand *)

Definition item_update_demand (e : item_elem) (new_count new_period now : Z) : item_elem :=
  let d := i_demand e in
  let d :=
    if u32 (d_count d) <? new_count then Demand (i32 new_count) (d_period d) (i32 now) (d_period_change d) 0 (d_new_period d)
    else if u32 (d_new_count d) <? new_count then
      Demand (d_count d) (d_period d) (d_count_change d) (d_period_change d) (i32 new_count) (d_new_period d)
    else d in
  let d :=
    if u32 (now - d_count_change d) >? GLB_CACHE_ITEM_DEMAND_UPDATE then
      Demand (d_new_count d) (d_period d) (i32 now) (d_period_change d) 0 (d_new_period d)
    else d in
  let d :=
    if u32 (d_period d) <? new_period then Demand (d_count d) (i32 new_period) (d_count_change d) (i32 now) (d_new_count d) 0
    else if u32 (d_new_period d) <? new_period then
      Demand (d_count d) (d_period d) (d_count_change d) (d_period_change d) (d_new_count d) (i32 new_period)
    else d in
  let d :=
    if u32 (now - d_period_change d) >? GLB_CACHE_ITEM_DEMAND_UPDATE then
      Demand (d_count d) (d_new_period d) (d_count_change d) (i32 now) (d_new_count d) 0
    else d in
  set_demand e d.

Definition MIN_GROW_COUNT : Z := 8.
Definition GROW_PERCENT : Z := 120.

Definition calc_grow_buffer_size (old_size : Z) : Z :=
  let new_size := Z.quot (old_size * GROW_PERCENT) 100 in
  if new_size - old_size <? MIN_GROW_COUNT then old_size + MIN_GROW_COUNT else new_size.

Definition ensure_cache_demand_count_met (e : item_elem) (count : Z) : Z :=
  if d_count (i_demand e) <=? count then SUCCEED else FAIL.

Definition ensure_cache_demand_time_met (e : item_elem) (c_time now : Z) : Z :=
  if d_period (i_demand e) <=? now - c_time then SUCCEED else FAIL.

Definition ensure_tsbuff_has_space (e : item_elem) (mem : bool) (now : Z) : res (Z * item_elem) :=
  let b := i_tsbuff e in
  if glb_tsbuff_is_full b =? SUCCEED then
    p ← glb_tsbuff_get_value_ptr b (glb_tsbuff_index b (ts_tail b + 1));
    c_val ← deref b p;
    if (ensure_cache_demand_count_met e (glb_tsbuff_get_count b - 1) =? SUCCEED) &&
       (ensure_cache_demand_time_met e (time c_val) now =? SUCCEED) then
      b ← drop_tail b;
      Ret (SUCCEED, set_tsbuff e b)
    else
      '(r, b, _) ← glb_tsbuff_resize VNone b (calc_grow_buffer_size (glb_tsbuff_get_size b)) mem false [];
      Ret (r, set_tsbuff e b)
  else Ret (SUCCEED, e).

(** ** Fetching from the history storage *)

Definition zbx_history_record_compare_desc_func (d1 d2 : history_record) : Z :=
  if r_sec d1 =? r_sec d2 then r_ns d2 - r_ns d1 else r_sec d2 - r_sec d1.

Definition desc_le (d1 d2 : history_record) : Prop := zbx_history_record_compare_desc_func d1 d2 <= 0.
#[export] Instance desc_le_dec : RelDecision desc_le.
Proof. intros a b. unfold desc_le. apply _. Defined.

(** [zbx_vector_history_record_sort], which sorts vectors of two values or more. *)
Definition sort_desc (values : list history_record) : list history_record :=
  if decide (2 <= length values)%nat then merge_sort desc_le values else values.

(** Adds one record to the tail of the buffer, when the buffer takes it. *)
Definition add_record_to_tail (e : item_elem) (r : history_record) : res item_elem :=
  '(p, b) ← glb_tsbuff_add_to_tail (i_tsbuff e) (r_sec r);
  match p with
  | None => Ret (set_tsbuff e b)
  | Some p => v ← hist_val_to_value (r_value r) (i_value_type e); b ← store_value b p (TsItem (r_sec r) v); Ret (set_tsbuff e b)
  end.

Fixpoint add_records_by_count (e : item_elem) (values : list history_record) : res item_elem :=
  match values with
  | [] => Ret e
  | r :: values => e ← add_record_to_tail e r; add_records_by_count e values
  end.

Fixpoint add_records_by_time (e : item_elem) (mem : bool) (now : Z) (values : list history_record) : res item_elem :=
  match values with
  | [] => Ret e
  | r :: values =>
      '(_, e) ← ensure_tsbuff_has_space e mem now;
      e ← add_record_to_tail e r;
      add_records_by_time e mem now values
  end.

Section fetch.
(** [itemid value_type start count end_]: the records of the storage. *)
Variable glb_history_get_history : Z -> Z -> Z -> Z -> Z -> option (list history_record).

Definition fetch_from_db_by_count (itemid : Z) (e : item_elem) (count head_time now : Z) : res (Z * item_elem) :=
  let e := if i_db_fetched_time e >? now then set_db_fetched_time e now else e in
  if (i_db_fetched_time e <? head_time) && (i_db_fetched_count e >=? count) then Ret (SUCCEED, e)
  else
    let head_time := i_db_fetched_time e - 1 in
    match glb_history_get_history itemid (i_value_type e) 0 count head_time with
    | Some values =>
        let e := set_db_fetched_count e (Z.max (i_db_fetched_count e) count) in
        match values with
        | v0 :: _ =>
            let e := set_db_fetched_time e (Z.min (i_db_fetched_time e) (r_sec v0)) in
            e ← add_records_by_count e (sort_desc values);
            Ret (SUCCEED, e)
        | [] => Ret (SUCCEED, set_db_fetched_time e head_time)
        end
    | None => Ret (FAIL, e)
    end.

Definition glb_state_fetch_from_db_by_time (itemid : Z) (e : item_elem) (seconds head_time : Z) (mem : bool) (now : Z) : res (Z * item_elem) :=
  if i_db_fetched_time e <=? head_time - seconds then Ret (SUCCEED, e)
  else
    let e := if i_db_fetched_time e >? now then set_db_fetched_time e now else e in
    match glb_history_get_history itemid (i_value_type e) (head_time - seconds) 0 (i_db_fetched_time e) with
    | Some values =>
        e ← (match values with [] => Ret e | _ => add_records_by_time e mem now (sort_desc values) end);
        Ret (SUCCEED, set_db_fetched_time e (head_time - seconds))
    | None => Ret (FAIL, e)
    end.

(** ** Reading values *)

(** The loop over the buffer indexes [i] up to [stop]; its first round runs
    without the test. *)
Fixpoint fill_loop (fuel : nat) (b : tsbuff variant) (value_type i stop : Z) (first : bool) : res (list (Z * history_value)) :=
  match fuel with
  | O => Halt OutOfFuel
  | S fuel =>
      if first || negb (i =? stop) then
        p ← glb_tsbuff_get_value_ptr b i;
        v ← deref b p;
        h ← glb_state_value_to_hist_copy (payload v) value_type;
        rest ← fill_loop fuel b value_type (glb_tsbuff_index b (i + 1)) stop false;
        Ret ((time v, h) :: rest)
      else Ret []
  end.

Definition fill_items_values_by_index (e : item_elem) (tail_idx head_idx : Z) : res (list (Z * history_value)) :=
  if (0 >? head_idx) || (0 >? tail_idx) then Halt ExitFailure
  else
    let b := i_tsbuff e in
    fill_loop (S (Z.to_nat (ts_size b))) b (i_value_type e) tail_idx (glb_tsbuff_index b (head_idx + 1)) true.

Definition fill_items_values_by_count (e : item_elem) (count head_idx : Z) : res (list (Z * history_value)) :=
  fill_items_values_by_index e (glb_tsbuff_index (i_tsbuff e) (head_idx - count + 1)) head_idx.

Definition update_db_fetch (e : item_elem) (fetch_time : Z) : item_elem :=
  if i_db_fetched_time e >? fetch_time then set_db_fetched_time e fetch_time else e.

Record fetch_req := FetchReq {
  q_itemid : Z; q_count : Z; q_value_type : Z; q_ts_head : Z; q_seconds : Z }.

(** [values]: the vector of the request before the call. *)
Definition cache_fetch_count_cb (st : stats) (e : item_elem) (req : fetch_req) (values : list (Z * history_value)) (mem : bool) (now : Z) :
    res (stats * item_elem * list (Z * history_value) * Z) :=
  let st := count_request st in
  e ← (if negb (q_value_type req =? i_value_type e) && (glb_tsbuff_get_count (i_tsbuff e) >? 0) then recreate_item e mem now else Ret e);
  let e := set_value_type e (q_value_type req) in
  cache_start ← glb_tsbuff_get_time_head (i_tsbuff e);
  head_idx ← (if cache_start <? q_ts_head req then Ret (ts_head (i_tsbuff e)) else glb_tsbuff_find_time_idx (i_tsbuff e) (q_ts_head req));
  if (-1 <? head_idx) && (glb_tsbuff_check_has_enough_count_data_idx (i_tsbuff e) (q_count req) head_idx =? SUCCEED) then
    values ← fill_items_values_by_count e (q_count req) head_idx;
    Ret (count_hit st, e, values, SUCCEED)
  else
    let st := count_miss st in
    '(r, e) ← (if head_idx =? -1 then
                 '(r, e) ← glb_state_fetch_from_db_by_time (q_itemid req) e (now - q_ts_head req) now mem now;
                 if r =? FAIL then Ret (FAIL, e) else Ret (SUCCEED, update_db_fetch e (q_ts_head req))
               else Ret (SUCCEED, e));
    if r =? FAIL then Ret (count_db_fail st, e, values, FAIL)
    else
      head_idx ← glb_tsbuff_find_time_idx (i_tsbuff e) (q_ts_head req);
      let b := i_tsbuff e in
      let need_count := if head_idx =? -1 then q_count req
                        else q_count req - Z.rem (head_idx - ts_tail b + ts_size b) (ts_size b) in
      '(r, e) ← (if need_count >? 0 then
                   '(r, e) ← fetch_from_db_by_count (q_itemid req) e need_count (q_ts_head req) now;
                   if negb (r =? SUCCEED) then Ret (FAIL, e) else Ret (SUCCEED, update_db_fetch e (q_ts_head req))
                 else Ret (SUCCEED, e));
      if r =? FAIL then Ret (count_db_fail st, e, values, FAIL)
      else
        head_idx ← glb_tsbuff_find_time_idx (i_tsbuff e) (q_ts_head req);
        if (head_idx =? -1) || (glb_tsbuff_check_has_enough_count_data_idx (i_tsbuff e) (q_count req) head_idx =? FAIL) then
          Ret (count_miss (count_db_miss st), e, values, FAIL)
        else
          values ← fill_items_values_by_count e (q_count req) head_idx;
          let e := match values with (sec, _) :: _ => update_db_fetch e sec | [] => e end in
          Ret (count_db_hit st, e, values, SUCCEED).

(** [(int)(fetch_seconds * 1.2)]: 1.2 is stored with a relative error of less
    than 2^-54, so that the product, rounded to a double, is exact where it is
    an integer, and its integer part is that of 6n/5 elsewhere. *)
Definition calc_time_data_overhead (fetch_seconds : Z) : Z :=
  if fetch_seconds <? 300 then fetch_seconds + 300 else Z.quot (6 * fetch_seconds) 5.

Definition cache_fetch_time_cb (st : stats) (e : item_elem) (req : fetch_req) (values : list (Z * history_value)) (mem : bool) (now : Z) :
    res (stats * item_elem * list (Z * history_value) * Z) :=
  let st := count_request st in
  e ← (if negb (q_value_type req =? i_value_type e) then
         n ← recreate_item e mem now; Ret (set_value_type n (q_value_type req))
       else Ret e);
  head_idx ← glb_tsbuff_find_time_idx (i_tsbuff e) (q_ts_head req);
  tail_idx ← glb_tsbuff_find_time_idx (i_tsbuff e) (q_ts_head req - q_seconds req);
  let head_idx := if negb (tail_idx =? -1) && (head_idx =? -1) then glb_tsbuff_get_head_idx (i_tsbuff e) else head_idx in
  let e := item_update_demand e 0 (Z.max 0 (q_seconds req)) now in
  if negb (head_idx =? -1) && negb (tail_idx =? -1) then
    values ← fill_items_values_by_index e tail_idx head_idx;
    Ret (count_hit st, e, values, SUCCEED)
  else
    let st := count_miss st in
    tail_time ← glb_tsbuff_get_time_tail (i_tsbuff e);
    let '(fetch_head_time, fetch_seconds) :=
      if (glb_tsbuff_get_count (i_tsbuff e) >? 0) && (q_ts_head req >=? tail_time) then
        (tail_time + 1, calc_time_data_overhead (q_seconds req - (q_ts_head req - (tail_time + 1))))
      else (now, q_seconds req) in
    '(r, e) ← glb_state_fetch_from_db_by_time (q_itemid req) e fetch_seconds fetch_head_time mem now;
    if negb (r =? SUCCEED) then Ret (count_db_fail st, e, values, FAIL)
    else
      let e := update_db_fetch e (q_ts_head req) in
      head_time ← glb_tsbuff_get_time_head (i_tsbuff e);
      head_idx ← (if q_ts_head req >=? head_time then Ret (ts_head (i_tsbuff e))
                  else glb_tsbuff_find_time_idx (i_tsbuff e) (q_ts_head req));
      tail_idx ← glb_tsbuff_find_time_idx (i_tsbuff e) (now - q_seconds req);
      if tail_idx =? -1 then Ret (count_db_miss st, e, values, FAIL)
      else if negb (head_idx =? -1) then
        values ← fill_items_values_by_index e tail_idx head_idx;
        Ret (count_db_hit st, e, values, SUCCEED)
      else Ret (st, e, values, SUCCEED).

End fetch.

(** ** Adding values *)

(** The value for an LLD item is the only one in the buffer.  The function
    has no return statement on success.  [uninit] is the memory of the
    smaller array. *)
Definition add_value_lld_cb (e : item_elem) (h : dc_history) (mem : bool) (uninit : list (ts_item variant)) : res (item_elem * option Z) :=
  let e := set_meta e (set_state (i_meta e) ITEM_STATE_NORMAL) in
  e ← (if negb (glb_tsbuff_get_size (i_tsbuff e) =? 1) then
         '(_, b, _) ← glb_tsbuff_resize VNone (i_tsbuff e) 1 mem false uninit; Ret (set_tsbuff e b)
       else Ret e);
  b ← drop_all (S (Z.to_nat (ts_count (i_tsbuff e)))) (i_tsbuff e);
  '(p, b) ← glb_tsbuff_add_to_head b (h_sec h);
  match p with
  | Some p =>
      v ← dc_hist_to_value h;
      b ← store_value b p (TsItem (h_sec h) v);
      Ret (set_value_type (set_tsbuff e b) (h_value_type h), None)
  | None => Ret (set_tsbuff e b, Some FAIL)
  end.

Definition add_value_cb (e : item_elem) (h : dc_history) (mem : bool) (now : Z) : res (item_elem * Z) :=
  if negb (h_state h =? ITEM_STATE_NORMAL) || (ITEM_VALUE_TYPE_NONE <=? h_value_type h) then Ret (e, FAIL)
  else
    let m := i_meta e in
    let m := if m_lastdata m <? h_sec h then set_lastdata m (h_sec h) else m in
    let m := set_error (set_state m ITEM_STATE_NORMAL) None in
    let e := set_meta e m in
    let e := if i_value_type e =? ITEM_VALUE_TYPE_NONE then set_value_type e (h_value_type h) else e in
    e ← (if negb (i_value_type e =? h_value_type h) then
           n ← recreate_item e mem now; Ret (set_value_type n (h_value_type h))
         else '(_, e) ← ensure_tsbuff_has_space e mem now; Ret e);
    if h_sec h >? now + 300 then Ret (e, FAIL)
    else
      '(p, b) ← glb_tsbuff_add_to_head (i_tsbuff e) (h_sec h);
      match p with
      | Some p => v ← dc_hist_to_value h; b ← store_value b p (TsItem (h_sec h) v); Ret (set_tsbuff e b, SUCCEED)
      | None => Ret (set_tsbuff e b, FAIL)
      end.

(** ** State of the item *)

Definition item_update_nextcheck_cb (e : item_elem) (t : Z) : item_elem := set_meta e (set_nextcheck (i_meta e) t).

(** [error]: the error of the metric, [None] when its value is not an error. *)
Definition item_update_lastdata_cb (e : item_elem) (sec : Z) (error : option (option string)) : item_elem * Z :=
  if m_lastdata (i_meta e) >? sec then (e, FAIL)
  else
    let m := set_lastdata (i_meta e) sec in
    match error with
    | None => (set_meta e m, SUCCEED)
    | Some err =>
        let m := set_state m ITEM_STATE_NOTSUPPORTED in
        let m := match m_error m, err with
                 | None, Some _ | Some _, None => set_error m err
                 | Some old, Some s => if bool_decide (old = s) then set_error m err else m
                 | None, None => m
                 end in
        (set_meta e m, SUCCEED)
    end.

(** Without a message the string that replaces the error is given as the
    interned string to release, which it is not. *)
Definition item_set_error_cb (e : item_elem) (error : option string) (now : Z) : res item_elem :=
  match error with
  | Some err => Ret (set_meta e (set_lastdata (set_error (set_state (i_meta e) ITEM_STATE_NOTSUPPORTED) (Some err)) now))
  | None => Halt BadAccess
  end.

Definition set_item_poll_result (e : item_elem) (lastcheck state : Z) : item_elem :=
  let m := i_meta e in
  let m := if state >? -1 then set_state m state else m in
  let m := if lastcheck >? u32 (m_lastdata m) then set_lastdata m (i32 lastcheck) else m in
  set_meta e m.

Definition set_lastlogsize_cb (e : item_elem) (n : Z) : item_elem := set_meta e (set_lastlogsize (i_meta e) n).

(** Drops the values older than [clean_time]; the number of values dropped. *)
Fixpoint clean_old_values (fuel : nat) (b : tsbuff variant) (clean_time cleaned : Z) : res (tsbuff variant * Z) :=
  match fuel with
  | O => Halt OutOfFuel
  | S fuel =>
      if glb_tsbuff_get_count b >? 0 then
        p ← glb_tsbuff_get_value_tail b;
        p ← of_opt BadAccess p;
        c_val ← deref b p;
        if time c_val <? clean_time then b ← drop_tail b; clean_old_values fuel b clean_time (cleaned + 1)
        else Ret (b, cleaned)
      else Ret (b, cleaned)
  end.

(** ** Values in the buffer *)

#[local] Abbreviation buff := (tsbuff variant).
#[local] Abbreviation cont := (contents VNone).
Implicit Types (b : buff) (e : item_elem).

Lemma store_value_ok b p v : ts_wf b -> 0 <= p < ts_count b ->
  exists b', store_value b (slot b p) v = Ret b' /\ ts_wf b' /\ cont b' = <[Z.to_nat p := v]> (cont b) /\
    ts_size b' = ts_size b /\ ts_count b' = ts_count b.
Proof.
  intros W Hp. pose proof (wf_size _ W). pose proof (wf_data _ W) as Hd. pose proof (wf_count _ W). destruct (wf_live _ W) as [Ht Hh]; [lia|].
  destruct (contents_at VNone b p W Hp) as (x & Hx & Hg). unfold store_value, deref. rewrite Hg. cbn [mbind res_mbind of_opt].
  eexists. split; [done|]. set (b' := set_data _ _). assert (Hs : forall q, slot b' q = slot b q) by done.
  assert (W' : ts_wf b') by (split; cbn; rewrite ?zlen_zset; try done; lia || apply W).
  split_and!; try done. apply contents_ext; [done| |].
  - unfold zlen. rewrite length_insert, contents_length. cbn. lia.
  - intros q Hq. cbn in Hq. rewrite Hs. cbn [b' ts_data set_data]. rewrite zget_zset by (rewrite Hd; apply slot_range; lia). rewrite list_lookup_insert.
    case_bool_decide as E.
    + apply slot_inj in E; [|lia..]. subst q. rewrite decide_True; [done|]. split; [done|]. rewrite contents_length. lia.
    + rewrite decide_False by (intros [Eq _]; apply E; f_equal; lia). destruct (contents_at VNone b q W) as (y & Hy & Hy'); [lia|]. by rewrite Hy'.
Qed.

Lemma value_tail_ok b : ts_wf b -> 0 < ts_count b -> glb_tsbuff_get_value_tail b = Ret (Some (slot b 0)).
Proof.
  intros W Hc. destruct (wf_live _ W Hc) as [Ht _]. unfold glb_tsbuff_get_value_tail, glb_tsbuff_get_count. destruct (Z.eqb_spec (ts_count b) 0); [lia|].
  rewrite get_value_ptr_ok by done. cbn [mbind res_mbind]. by rewrite slot_0.
Qed.

Lemma drop_tail_ok b : ts_wf b -> 0 < ts_count b ->
  exists b', drop_tail b = Ret b' /\ ts_wf b' /\ cont b' = tail (cont b) /\ ts_size b' = ts_size b /\ ts_count b' = ts_count b - 1.
Proof.
  intros W Hc. unfold drop_tail. rewrite value_tail_ok by done. cbn [mbind res_mbind of_opt].
  destruct (contents_nonempty VNone b W Hc) as (x & l & Hl). unfold item_variant_clear.
  rewrite (deref_slot VNone b 0 x) by (done || lia || by rewrite Hl). cbn [mbind res_mbind].
  destruct (store_value_ok b 0 (TsItem (time x) VNone) W) as (b1 & -> & W1 & C1 & S1 & N1); [lia|]. cbn [mbind res_mbind].
  destruct (free_tail_ok VNone b1 W1) as (W2 & C2 & _). exists (glb_tsbuff_free_tail b1).2. split_and!; try done.
  - rewrite C2, C1, Hl. done.
  - unfold glb_tsbuff_free_tail. repeat case_match; cbn; congruence.
  - unfold glb_tsbuff_free_tail. cbn [ts_count set_count]. destruct (Z.eqb_spec (ts_count b1) 0); [lia|]. destruct (Z.eqb_spec (ts_count b1 - 1) 0); cbn; lia.
Qed.

Lemma drop_all_ok fuel b : ts_wf b -> ts_count b < Z.of_nat fuel ->
  exists b', drop_all fuel b = Ret b' /\ ts_wf b' /\ ts_count b' = 0 /\ cont b' = [] /\ ts_size b' = ts_size b.
Proof.
  revert b. induction fuel as [|fuel IH]; intros b W Hf; [pose proof (wf_count _ W); lia|]. cbn [drop_all]. unfold glb_tsbuff_get_count.
  rewrite Z.gtb_ltb. destruct (Z.ltb_spec 0 (ts_count b)) as [Hc|Hc].
  - destruct (drop_tail_ok b W Hc) as (b1 & -> & W1 & _ & S1 & N1). cbn [mbind res_mbind].
    destruct (IH b1 W1 ltac:(lia)) as (b' & E & W' & N' & C' & S'). exists b'. split_and!; try done. congruence.
  - pose proof (wf_count _ W). exists b. split_and!; try done; [lia|]. apply contents_nil. lia.
Qed.

Lemma new_item_ok now :
  exists n, item_create_cb true now = Ret (Some n) /\ ts_wf (i_tsbuff n) /\ cont (i_tsbuff n) = [] /\ ts_size (i_tsbuff n) = 10 /\ ts_count (i_tsbuff n) = 0 /\
    n = Item (Meta ITEM_STATE_UNKNOWN 0 0 0 None) (i_tsbuff n) (Demand 0 0 0 0 0 0) ITEM_VALUE_TYPE_NONE now ZBX_JAN_2038 0.
Proof. eexists. split; [done|]. split_and!; try done. Qed.

Lemma recreate_ok e mem now : ts_wf (i_tsbuff e) ->
  recreate_item e mem now = if mem then n ← item_create_cb true now; of_opt BadAccess n else Halt BadAccess.
Proof.
  intros W. unfold recreate_item, free_item. destruct (drop_all_ok (S (Z.to_nat (ts_count (i_tsbuff e)))) (i_tsbuff e) W) as (b & -> & W' & N & _);
    [pose proof (wf_count _ W); lia|]. cbn [mbind res_mbind]. unfold glb_tsbuff_destroy. rewrite N. cbn. by destruct mem.
Qed.

(** The value of which [ensure_tsbuff_has_space] looks at the age: the oldest
    one that would be left. *)
Definition next_oldest (l : list (ts_item variant)) : option (ts_item variant) :=
  match l with [x] => Some x | _ :: y :: _ => Some y | [] => None end.

(** The demand of the item is met without its oldest value. *)
Definition surplus (e : item_elem) (now : Z) : Prop :=
  exists y, next_oldest (cont (i_tsbuff e)) = Some y /\ d_count (i_demand e) <= ts_count (i_tsbuff e) - 1 /\ d_period (i_demand e) <= now - time y.

Definition has_room b : Prop := ts_count b < ts_size b.

Lemma grow_size n : 1 <= n -> n + 8 <= calc_grow_buffer_size n.
Proof.
  intros Hn. unfold calc_grow_buffer_size, GROW_PERCENT, MIN_GROW_COUNT. destruct (Z.ltb_spec (Z.quot (n * 120) 100 - n) 8); lia.
Qed.

Lemma second_slot_ok b : ts_wf b -> ts_count b = ts_size b ->
  exists y p, next_oldest (cont b) = Some y /\ glb_tsbuff_get_value_ptr b (glb_tsbuff_index b (ts_tail b + 1)) = Ret p /\ deref b p = Ret y.
Proof.
  intros W Hfull. pose proof (wf_size _ W). destruct (wf_live _ W) as [Ht _]; [lia|]. destruct (contents_nonempty VNone b W) as (x & l & Hl); [lia|].
  pose proof (contents_length VNone b) as L. rewrite Hl in L. unfold glb_tsbuff_index. pose proof (BUFF_IDX_range b (ts_tail b + 1)).
  rewrite get_value_ptr_ok by lia. rewrite BUFF_IDX_mod by lia. change ((ts_tail b + 1) mod ts_size b) with (slot b 1).
  destruct l as [|y l]; cbn in L.
  - exists x, (slot b 1). rewrite Hl. split_and!; try done. replace (slot b 1) with (slot b 0).
    + apply (deref_slot VNone); [done|lia|by rewrite Hl].
    + unfold slot. assert (ts_size b = 1) as -> by lia. by rewrite !Z.mod_1_r.
  - exists y, (slot b 1). rewrite Hl. split_and!; try done. apply (deref_slot VNone); [done|lia|by rewrite Hl].
Qed.

Lemma is_full_spec b : (glb_tsbuff_is_full b =? SUCCEED) = bool_decide (ts_count b = ts_size b).
Proof. unfold glb_tsbuff_is_full. destruct (Z.eqb_spec (ts_count b) (ts_size b)); case_bool_decide; done. Qed.

Lemma grow_full_ok b mem : ts_wf b -> ts_count b = ts_size b ->
  exists r b', glb_tsbuff_resize VNone b (calc_grow_buffer_size (ts_size b)) mem false [] = Ret (r, b', []) /\ ts_wf b' /\ cont b' = cont b /\
    ts_size b <= ts_size b' /\ (mem = true -> calc_grow_buffer_size (ts_size b) <= GLB_TSBUFF_MAX_SZIE -> has_room b').
Proof.
  intros W Hfull. pose proof (wf_size _ W) as Hsz. pose proof (grow_size (ts_size b) Hsz) as Hg. unfold glb_tsbuff_resize. set (n := calc_grow_buffer_size _) in *.
  destruct (Z.ltb_spec GLB_TSBUFF_MAX_SZIE n); cbn [orb].
  { exists FAIL, b. split_and!; try done. intros _ Hm. lia. }
  destruct (Z.ltb_spec n 1); [lia|]. destruct (Z.eqb_spec n (ts_size b)); [lia|]. destruct (Z.ltb_spec n (ts_size b)); [lia|]. cbn [orb].
  destruct mem; [|by exists FAIL, b; split_and!]. destruct (upsize_ok VNone b n W ltac:(lia) (full_upsizable _ W Hfull)) as (b' & -> & W' & C & S).
  cbn [mbind res_mbind]. exists n, b'. split_and!; try done; [lia|]. intros _ _. unfold has_room.
  pose proof (contents_length VNone b') as L1. pose proof (contents_length VNone b) as L2. rewrite C in L1. pose proof (wf_count _ W'). lia.
Qed.

Lemma item_space_ok e mem now : ts_wf (i_tsbuff e) ->
  exists r b, ensure_tsbuff_has_space e mem now = Ret (r, set_tsbuff e b) /\ ts_wf b /\
    (cont b = cont (i_tsbuff e) \/ (ts_count (i_tsbuff e) = ts_size (i_tsbuff e) /\ surplus e now /\ cont b = tail (cont (i_tsbuff e)))) /\
    ts_size (i_tsbuff e) <= ts_size b /\ (mem = true -> calc_grow_buffer_size (ts_size (i_tsbuff e)) <= GLB_TSBUFF_MAX_SZIE -> has_room b).
Proof.
  intros W. set (b0 := i_tsbuff e) in *. pose proof (wf_count _ W). pose proof (wf_size _ W) as Hsz. unfold ensure_tsbuff_has_space. fold b0. rewrite is_full_spec.
  case_bool_decide as Hfull.
  2: { exists SUCCEED, b0. split; [by destruct e|]. split_and!; try done; [by left|]. unfold has_room. lia. }
  destruct (second_slot_ok b0 W Hfull) as (y & p & Hy & -> & E). cbn [mbind res_mbind]. rewrite E. cbn [mbind res_mbind].
  unfold ensure_cache_demand_count_met, ensure_cache_demand_time_met, glb_tsbuff_get_count, glb_tsbuff_get_size.
  destruct (Z.leb_spec (d_count (i_demand e)) (ts_count b0 - 1)) as [H1|H1]; cbn; [destruct (Z.leb_spec (d_period (i_demand e)) (now - time y)) as [H2|H2]; cbn|].
  1: { destruct (drop_tail_ok b0 W) as (b & -> & W' & C & S & N); [lia|]. cbn [mbind res_mbind]. exists SUCCEED, b. split_and!; try done; [|lia|unfold has_room; lia].
       right. split_and!; try done. by exists y. }
  all: destruct (grow_full_ok b0 mem W Hfull) as (r & b & -> & W' & C & S & R); cbn [mbind res_mbind]; exists r, b; split_and!; try done; by left.
Qed.

(** ** Value types *)

(** The variants the cache holds for an item of the value type. *)
Definition typed (vt : Z) (v : variant) : bool :=
  match v with
  | VDbl _ => vt =? ITEM_VALUE_TYPE_FLOAT
  | VUi64 _ => vt =? ITEM_VALUE_TYPE_UINT64
  | VStr _ => (vt =? ITEM_VALUE_TYPE_STR) || (vt =? ITEM_VALUE_TYPE_TEXT) || (vt =? ITEM_VALUE_TYPE_LOG)
  | _ => false
  end.

(** The union members that are set in a history value of the type; a string
    is not NULL. *)
Definition h_typed (vt : Z) (h : history_value) : bool :=
  match h with
  | HDbl _ => vt =? ITEM_VALUE_TYPE_FLOAT
  | HUi64 _ => vt =? ITEM_VALUE_TYPE_UINT64
  | HStr (Some _) => (vt =? ITEM_VALUE_TYPE_STR) || (vt =? ITEM_VALUE_TYPE_TEXT)
  | HLog _ => vt =? ITEM_VALUE_TYPE_LOG
  | _ => false
  end.

Definition value_of (h : history_value) : variant :=
  match h with
  | HDbl d => VDbl d | HUi64 n => VUi64 n
  | HStr s | HLog s => VStr (default "" s)
  | HErr (Some s) => VErr s | HErr None => VNone
  end.

Definition hist_of (vt : Z) (v : variant) : history_value :=
  match v with
  | VDbl d => HDbl d | VUi64 n => HUi64 n
  | VStr s => if vt =? ITEM_VALUE_TYPE_LOG then HLog (Some s) else HStr (Some s)
  | VErr s => HErr (Some s) | VNone => HErr None
  end.

#[local] Hint Unfold ITEM_VALUE_TYPE_FLOAT ITEM_VALUE_TYPE_UINT64 ITEM_VALUE_TYPE_STR ITEM_VALUE_TYPE_TEXT ITEM_VALUE_TYPE_LOG ITEM_VALUE_TYPE_NONE : core.
Ltac vtypes := repeat match goal with
  | H : context [?x =? ?y] |- _ => destruct (Z.eqb_spec x y); subst; cbn in *
  | |- context [?x =? ?y] => destruct (Z.eqb_spec x y); subst; cbn in * end;
  try done; autounfold with core in *; try lia; try congruence.

Lemma to_hist_ok vt v : typed vt v = true -> glb_state_value_to_hist_copy v vt = Ret (hist_of vt v).
Proof. unfold glb_state_value_to_hist_copy. destruct v; cbn; intros H; vtypes. Qed.

Lemma from_hist_ok vt h : h_typed vt h = true -> hist_val_to_value h vt = Ret (value_of h) /\ typed vt (value_of h) = true.
Proof. unfold hist_val_to_value. destruct h as [| |[]|[]|]; cbn; intros H; vtypes. Qed.

Lemma typed_not_none v vt : typed vt v = true -> vt <> ITEM_VALUE_TYPE_NONE.
Proof. destruct v; cbn; intros H; vtypes. Qed.

(** A history value survives the way through the cache. *)
Lemma hist_round_trip vt h : h_typed vt h = true -> hist_of vt (value_of h) = match h with HLog None => HLog (Some "") | _ => h end.
Proof. destruct h as [| |[]|[]|]; cbn; intros H; vtypes. Qed.

(** ** Invariant of an element *)

Definition time_ok (t : Z) : Prop := 0 < t < ZBX_JAN_2038.

Record item_ok (e : item_elem) : Prop := {
  io_wf : ts_wf (i_tsbuff e);
  io_sorted : ts_sorted (cont (i_tsbuff e));
  io_values : Forall (fun x => time_ok (time x) /\ typed (i_value_type e) (payload x) = true) (cont (i_tsbuff e)) }.

Lemma last_forall {A} (P : A -> Prop) l x : Forall P l -> last l = Some x -> P x.
Proof. intros HF Hl. rewrite Forall_forall in HF. apply HF. by apply last_Some_elem_of. Qed.

Lemma insert_snoc {A} (l : list A) x y : <[length l := y]> (l ++ [x]) = l ++ [y].
Proof. rewrite insert_app_r_alt by lia. by rewrite Nat.sub_diag. Qed.

(** Adding a value that [glb_tsbuff_add_to_head] takes. *)
Lemma add_head_value_ok b t v : ts_wf b -> has_room b -> ~ head_refused VNone b t ->
  exists b1 p b2, glb_tsbuff_add_to_head b t = Ret (Some p, b1) /\ store_value b1 p (TsItem t v) = Ret b2 /\ ts_wf b2 /\
    cont b2 = cont b ++ [TsItem t v] /\ ts_size b2 = ts_size b.
Proof.
  intros W Hr Hn. destruct (add_to_head_added VNone b t W Hr Hn) as (b1 & u & E & W1 & C1 & S1).
  pose proof (contents_length VNone b1) as L. rewrite C1, length_app, contents_length in L. cbn in L. pose proof (wf_count _ W). pose proof (wf_count _ W1).
  destruct (wf_live _ W1) as [_ Hh]; [lia|]. destruct (store_value_ok b1 (ts_count b1 - 1) (TsItem t v) W1) as (b2 & E2 & W2 & C2 & S2 & _); [lia|].
  exists b1, (slot b1 (ts_count b1 - 1)), b2. split_and!; try done; [by rewrite <- Hh| |congruence].
  rewrite C2, C1. replace (Z.to_nat (ts_count b1 - 1)) with (length (cont b)) by (rewrite contents_length; lia). apply insert_snoc.
Qed.

Lemma add_tail_value_ok b t v : ts_wf b -> has_room b -> ~ tail_refused VNone b t ->
  exists b1 p b2, glb_tsbuff_add_to_tail b t = Ret (Some p, b1) /\ store_value b1 p (TsItem t v) = Ret b2 /\ ts_wf b2 /\
    cont b2 = TsItem t v :: cont b /\ ts_size b2 = ts_size b.
Proof.
  intros W Hr Hn. destruct (add_to_tail_added VNone b t W Hr Hn) as (b1 & u & E & W1 & C1 & S1).
  pose proof (contents_length VNone b1) as L. rewrite C1 in L. cbn [length] in L. pose proof (wf_count _ W1).
  destruct (wf_live _ W1) as [Ht _]; [lia|]. destruct (store_value_ok b1 0 (TsItem t v) W1) as (b2 & E2 & W2 & C2 & S2 & _); [lia|].
  exists b1, (slot b1 0), b2. split_and!; try done; [by rewrite slot_0| |congruence]. by rewrite C2, C1.
Qed.

(** ** Adding a value *)

(** What [add_value_cb] does with the state of the item. *)
Definition value_meta (m : item_meta) (h : dc_history) : item_meta :=
  Meta ITEM_STATE_NORMAL (Z.max (m_lastdata m) (h_sec h)) (m_nextcheck m) (m_lastlogsize m) None.

Lemma value_meta_ok m h :
  set_error (set_state (if m_lastdata m <? h_sec h then set_lastdata m (h_sec h) else m) ITEM_STATE_NORMAL) None = value_meta m h.
Proof. unfold value_meta, set_error, set_state, set_lastdata. destruct (Z.ltb_spec (m_lastdata m) (h_sec h)); cbn; f_equal; lia. Qed.

(** The values kept of a well-formed element before the new value is added:
    all of them, or all but the oldest when the demand is met without it. *)
Definition kept (e : item_elem) (now : Z) (l : list (ts_item variant)) : Prop :=
  l = cont (i_tsbuff e) \/ (ts_count (i_tsbuff e) = ts_size (i_tsbuff e) /\ surplus e now /\ l = tail (cont (i_tsbuff e))).

Lemma kept_ok e now l : item_ok e -> kept e now l ->
  ts_sorted l /\ Forall (fun x => time_ok (time x) /\ typed (i_value_type e) (payload x) = true) l /\ (forall x, last l = Some x -> last (cont (i_tsbuff e)) = Some x).
Proof.
  intros [W S V] [->|(_ & _ & ->)]; [done|]. split_and!; [by apply ts_sorted_tail|by destruct (cont _); inversion V|].
  destruct (cont (i_tsbuff e)) as [|y [|z l]]; done.
Qed.

Lemma none_empty e : item_ok e -> i_value_type e = ITEM_VALUE_TYPE_NONE -> cont (i_tsbuff e) = [].
Proof.
  intros [_ _ V] Hn. destruct (cont (i_tsbuff e)) as [|x l]; [done|]. apply Forall_cons in V as [[_ Ht] _]. rewrite Hn in Ht. by apply typed_not_none in Ht.
Qed.

(** Whether the buffer refuses a newest value of time [t]. *)
Definition too_old (l : list (ts_item variant)) (t : Z) : bool := match last l with Some x => t <? time x | None => false end.

Lemma refused_too_old b t : ts_wf b -> Forall (fun x => time_ok (time x)) (cont b) -> head_refused VNone b t <-> too_old (cont b) t = true.
Proof.
  intros W HF. unfold head_refused, too_old. destruct (last (cont b)) as [x|] eqn:E.
  - pose proof (last_forall _ _ _ HF E) as [_ Hm]. split; [intros (y & [= <-] & _ & ?); lia|]. intros. exists x. split_and!; [done|lia|lia].
  - split; [by intros (y & ? & _)|done].
Qed.

(** Adding a value to the values [cont b]. *)
Lemma add_newest_ok vt b t v :
  ts_wf b -> ts_sorted (cont b) -> Forall (fun x => time_ok (time x) /\ typed vt (payload x) = true) (cont b) -> (has_room b \/ 1 < ts_size b) ->
  time_ok t -> typed vt v = true ->
  ((too_old (cont b) t = true \/ ts_count b = ts_size b) /\ glb_tsbuff_add_to_head b t = Ret (None, b)) \/
  (too_old (cont b) t = false /\ exists b1 p b2, glb_tsbuff_add_to_head b t = Ret (Some p, b1) /\ store_value b1 p (TsItem t v) = Ret b2 /\ ts_wf b2 /\
    cont b2 = cont b ++ [TsItem t v] /\ ts_sorted (cont b2) /\ Forall (fun x => time_ok (time x) /\ typed vt (payload x) = true) (cont b2)).
Proof.
  intros W S V R Ht Hv. assert (V1 : Forall (fun x => time_ok (time x)) (cont b)) by (eapply Forall_impl; [exact V|naive_solver]).
  pose proof (refused_too_old b t W V1) as Hr. pose proof (wf_count _ W) as Hc. pose proof (contents_length VNone b) as L. unfold has_room in R.
  destruct (too_old (cont b) t) eqn:E; [|destruct (decide (ts_count b = ts_size b)) as [Hf|Hf]].
  - left. split; [by left|]. apply (add_to_head_refused VNone); [done| |right; by apply Hr]. unfold too_old in E. destruct (cont b); [done|]. cbn in L. lia.
  - left. split; [by right|]. apply (add_to_head_refused VNone); [done|lia|by left].
  - right. split; [done|]. destruct (add_head_value_ok b t v W) as (b1 & p & b2 & E1 & E2 & W2 & C2 & S2); [unfold has_room; lia|intros ?%Hr; done|].
    exists b1, p, b2. rewrite C2. split_and!; try done.
    + apply ts_sorted_snoc; [done|]. intros y Hy. cbn. unfold too_old in E. rewrite Hy in E. apply Z.ltb_ge in E. lia.
    + apply Forall_app. by split; [|constructor].
Qed.

(** The buffer of an element made ready for a value of type [vt]. *)
Lemma prepare_ok e vt now :
  item_ok e ->
  exists e3 l, (if negb (i_value_type e =? vt) then n ← recreate_item e true now; Ret (set_value_type n vt)
      else '(_, e) ← ensure_tsbuff_has_space e true now; Ret e) = Ret e3 /\ ts_wf (i_tsbuff e3) /\ cont (i_tsbuff e3) = l /\ i_value_type e3 = vt /\
      (has_room (i_tsbuff e3) \/ (GLB_TSBUFF_MAX_SZIE < calc_grow_buffer_size (ts_size (i_tsbuff e)) /\ 1 < ts_size (i_tsbuff e3))) /\
      ts_sorted l /\ Forall (fun x => time_ok (time x) /\ typed vt (payload x) = true) l /\
      if i_value_type e =? vt then kept e now l /\ i_demand e3 = i_demand e /\ i_meta e3 = i_meta e else l = [].
Proof.
  intros Hok. destruct (Z.eqb_spec (i_value_type e) vt) as [E|E]; cbn [negb].
  - destruct (item_space_ok e true now (io_wf _ Hok)) as (r & b & -> & W & Hk & Hsz' & Hroom). cbn [mbind res_mbind].
    destruct (kept_ok e now _ Hok Hk) as (Hs & HV & _). rewrite E in HV.
    exists (set_tsbuff e b), (cont b). split_and!; try done. destruct (Z.le_gt_cases (calc_grow_buffer_size (ts_size (i_tsbuff e))) GLB_TSBUFF_MAX_SZIE) as [Hg|Hg].
    + left. by apply Hroom.
    + right. split; [lia|]. cbn. destruct (decide (ts_size (i_tsbuff e) = 1)) as [E1|]; [|pose proof (wf_size _ (io_wf _ Hok)); lia]. by rewrite E1 in Hg.
  - rewrite recreate_ok by apply Hok. destruct (new_item_ok now) as (n & -> & W & C & S & N & _). cbn [mbind res_mbind of_opt].
    exists (set_value_type n vt), []. cbn [i_tsbuff set_value_type]. split_and!; try done. left. unfold has_room. lia.
Qed.

(** The whole of [add_value_cb]. *)
Lemma add_value_ok e h now :
  item_ok e -> h_typed (h_value_type h) (h_value h) = true -> time_ok (h_sec h) ->
  exists e' r, add_value_cb e h true now = Ret (e', r) /\ item_ok e' /\
  if negb (h_state h =? ITEM_STATE_NORMAL) then r = FAIL /\ e' = e
  else i_value_type e' = h_value_type h /\ exists l,
    (if (i_value_type e =? ITEM_VALUE_TYPE_NONE) || (i_value_type e =? h_value_type h)
     then kept e now l /\ i_demand e' = i_demand e /\ i_meta e' = value_meta (i_meta e) h
     else l = []) /\
    ((r = SUCCEED /\ h_sec h <= now + 300 /\ too_old l (h_sec h) = false /\ cont (i_tsbuff e') = l ++ [TsItem (h_sec h) (value_of (h_value h))]) \/
     (r = FAIL /\ cont (i_tsbuff e') = l /\
      (now + 300 < h_sec h \/ too_old l (h_sec h) = true \/ GLB_TSBUFF_MAX_SZIE < calc_grow_buffer_size (ts_size (i_tsbuff e))))).
Proof.
  intros Hok Hty Ht. destruct (from_hist_ok _ _ Hty) as [Hv Hv']. assert (Hlt : h_value_type h < ITEM_VALUE_TYPE_NONE).
  { revert Hty. unfold h_typed. destruct (h_value h) as [| |[]| |]; intros H; vtypes. }
  unfold add_value_cb. rewrite (proj2 (Z.leb_gt _ _) Hlt), orb_false_r. destruct (negb (h_state h =? ITEM_STATE_NORMAL)); [by exists e, FAIL|].
  rewrite value_meta_ok. set (e1 := set_meta e (value_meta (i_meta e) h)). cbn [i_value_type set_meta e1].
  set (e2 := if i_value_type e =? ITEM_VALUE_TYPE_NONE then set_value_type e1 (h_value_type h) else e1).
  assert (He2 : i_tsbuff e2 = i_tsbuff e /\ i_demand e2 = i_demand e /\ i_meta e2 = value_meta (i_meta e) h) by (unfold e2; by case_match).
  destruct He2 as (Hb2 & Hd2 & Hm2).
  assert (Hvt : (i_value_type e =? ITEM_VALUE_TYPE_NONE) || (i_value_type e =? h_value_type h) = (i_value_type e2 =? h_value_type h)).
  { unfold e2. destruct (Z.eqb_spec (i_value_type e) ITEM_VALUE_TYPE_NONE); cbn; [by rewrite Z.eqb_refl|done]. }
  rewrite Hvt. assert (Hok2 : item_ok e2).
  { unfold e2. destruct (Z.eqb_spec (i_value_type e) ITEM_VALUE_TYPE_NONE) as [En|]; [|by destruct Hok].
    pose proof (none_empty e Hok En) as C. destruct Hok. split; cbn; rewrite ?C; done. }
  destruct (prepare_ok e2 (h_value_type h) now Hok2) as (e3 & l & -> & W3 & C3 & T3 & R3 & So3 & V3 & Hl). rewrite Hb2 in R3.
  unfold kept, surplus in Hl. rewrite Hb2, Hd2, Hm2 in Hl. change (if i_value_type e2 =? h_value_type h then kept e now l /\ i_demand e3 = i_demand e /\ i_meta e3 = value_meta (i_meta e) h else l = []) in Hl.
  cbn [mbind res_mbind]. destruct (Z.gtb_spec (h_sec h) (now + 300)) as [Hf|Hf].
  { exists e3, FAIL. split; [done|]. split; [split; [done|by rewrite C3|by rewrite C3, T3]|]. split; [done|]. exists l. split; [exact Hl|]. right. split_and!; try done. left. lia. }
  destruct (add_newest_ok (h_value_type h) (i_tsbuff e3) (h_sec h) (value_of (h_value h)) W3 ltac:(by rewrite C3) ltac:(by rewrite C3) ltac:(tauto) Ht Hv')
    as [[Hr Ha]|(Hto & b1 & p & b2 & Ea & E2 & W2 & C2 & So2 & V2)]; rewrite C3 in *.
  - rewrite Ha. cbn [mbind res_mbind]. exists (set_tsbuff e3 (i_tsbuff e3)), FAIL. split; [done|].
    split; [split; cbn; [done|by rewrite C3|by rewrite C3, T3]|]. split; [done|]. exists l. split; [exact Hl|]. right. split_and!; try done.
    right. destruct Hr as [Hr|Hr]; [by left|]. right. unfold has_room in R3. lia.
  - rewrite Ea. cbn [mbind res_mbind]. unfold dc_hist_to_value. rewrite Hv. cbn [mbind res_mbind]. rewrite E2. cbn [mbind res_mbind].
    exists (set_tsbuff e3 b2), SUCCEED. split; [done|]. split; [split; cbn; [done|done|by rewrite T3]|]. split; [done|]. exists l. split; [exact Hl|]. left. split_and!; done || lia.
Qed.

(** ** Reading values *)

(** What the cache returns for a list of values. *)
Definition answers (vt : Z) (l : list (ts_item variant)) : list (Z * history_value) := (fun x => (time x, hist_of vt (payload x))) <$> l.

(** The values from position [p] to position [q]. *)
Definition segment {A} (l : list A) (p q : Z) : list A := take (Z.to_nat (q + 1 - p)) (drop (Z.to_nat p) l).

Lemma fill_loop_ok fuel b vt p q first :
  ts_wf b -> Forall (fun x => typed vt (payload x) = true) (cont b) -> 0 <= p <= q + 1 -> q < ts_count b -> q + 1 - p < Z.of_nat fuel ->
  (first = true -> p <= q) -> (first = false -> q + 1 - p < ts_size b) ->
  fill_loop fuel b vt (slot b p) (slot b (q + 1)) first = Ret (answers vt (segment (cont b) p q)).
Proof.
  intros W V. revert p first. induction fuel as [|fuel IH]; intros p first Hp Hq Hf H1 H2; [lia|]. cbn [fill_loop]. pose proof (wf_count _ W).
  assert (Hpos : p = q + 1 \/ p <= q) by lia. destruct Hpos as [->|Hpq].
  { assert (first = false) as -> by (destruct first; [lia|done]). rewrite Z.eqb_refl. cbn. unfold segment. by replace (Z.to_nat (q + 1 - (q + 1))) with 0%nat by lia. }
  destruct (wf_live _ W) as [Ht _]; [lia|].
  assert (first || negb (slot b p =? slot b (q + 1)) = true) as ->.
  { destruct first; [done|]. cbn. apply negb_true_iff, Z.eqb_neq. specialize (H2 eq_refl). rewrite !slot_wrap by lia. repeat case_match; unbool; lia. }
  rewrite get_value_ptr_ok by (apply slot_range; lia). cbn [mbind res_mbind]. destruct (contents_at VNone b p W) as (x & Hx & _); [lia|].
  rewrite (deref_slot VNone b p x W) by (lia || done). cbn [mbind res_mbind].
  assert (Hty : typed vt (payload x) = true) by (rewrite Forall_lookup in V; by eapply V). rewrite (to_hist_ok _ _ Hty). cbn [mbind res_mbind].
  unfold glb_tsbuff_index. pose proof (slot_range b p). rewrite BUFF_IDX_slot by lia. rewrite IH by lia. cbn [mbind res_mbind].
  unfold segment. rewrite (drop_S _ x (Z.to_nat p)) by done. replace (Z.to_nat (q + 1 - p)) with (S (Z.to_nat (q + 1 - (p + 1)))) by lia.
  replace (Z.to_nat (p + 1)) with (S (Z.to_nat p)) by lia. done.
Qed.

Lemma item_typed e : item_ok e -> Forall (fun x => typed (i_value_type e) (payload x) = true) (cont (i_tsbuff e)).
Proof. intros [_ _ V]. eapply Forall_impl; [exact V|]. naive_solver. Qed.

Lemma fill_by_index_ok e p q : item_ok e -> 0 <= p <= q -> q < ts_count (i_tsbuff e) ->
  fill_items_values_by_index e (slot (i_tsbuff e) p) (slot (i_tsbuff e) q) = Ret (answers (i_value_type e) (segment (cont (i_tsbuff e)) p q)).
Proof.
  intros Hok Hp Hq. pose proof (io_wf _ Hok) as W. pose proof (wf_count _ W). destruct (wf_live _ W) as [Ht _]; [lia|].
  pose proof (slot_range (i_tsbuff e) p). pose proof (slot_range (i_tsbuff e) q).
  unfold fill_items_values_by_index. rewrite !Z.gtb_ltb. destruct (Z.ltb_spec (slot (i_tsbuff e) q) 0); [lia|]. destruct (Z.ltb_spec (slot (i_tsbuff e) p) 0); [lia|]. cbn [orb].
  unfold glb_tsbuff_index. rewrite BUFF_IDX_slot by lia. apply fill_loop_ok; try done; try lia. by apply item_typed.
Qed.

Lemma fill_by_count_ok e p c : item_ok e -> 0 <= p < ts_count (i_tsbuff e) -> 0 < c <= p + 1 ->
  fill_items_values_by_count e c (slot (i_tsbuff e) p) = Ret (answers (i_value_type e) (segment (cont (i_tsbuff e)) (p + 1 - c) p)).
Proof.
  intros Hok Hp Hc. pose proof (io_wf _ Hok) as W. pose proof (wf_count _ W). destruct (wf_live _ W) as [Ht _]; [lia|]. pose proof (slot_range (i_tsbuff e) p).
  unfold fill_items_values_by_count, glb_tsbuff_index. replace (slot (i_tsbuff e) p - c + 1) with (slot (i_tsbuff e) p + (1 - c)) by lia.
  rewrite BUFF_IDX_slot by lia. replace (p + (1 - c)) with (p + 1 - c) by lia. apply fill_by_index_ok; [done|lia|lia].
Qed.

(** Position [p] is that of the newest value not newer than [t]: the value
    there is not newer, and those after it are not older. *)
Definition ends_at (l : list (ts_item variant)) (t p : Z) : Prop :=
  0 <= p < zlen l /\ (forall x, l !! Z.to_nat p = Some x -> time x <= t) /\
  (forall q x, p < Z.of_nat q -> l !! q = Some x -> t <= time x).

Lemma zlen_contents b : ts_wf b -> zlen (cont b) = ts_count b.
Proof. intros W. unfold zlen. rewrite contents_length. pose proof (wf_count _ W). lia. Qed.

Lemma find_ok e t : item_ok e ->
  (exists p, glb_tsbuff_find_time_idx (i_tsbuff e) t = Ret (slot (i_tsbuff e) p) /\ ends_at (cont (i_tsbuff e)) t p) \/
  (glb_tsbuff_find_time_idx (i_tsbuff e) t = Ret FAIL /\ forall x y, head (cont (i_tsbuff e)) = Some x -> last (cont (i_tsbuff e)) = Some y -> t < time x \/ time y < t).
Proof.
  intros [W S _]. set (b := i_tsbuff e) in *. pose proof (wf_count _ W). destruct (decide (ts_count b = 0 \/ t < time_at VNone b 0 \/ time_at VNone b (ts_count b - 1) < t)) as [Ho|Hi].
  - right. split; [by apply (find_time_idx_outside VNone)|]. intros x y Hx Hy. destruct Ho as [H0|Ho]; [by rewrite (contents_nil VNone b H0) in Hx|].
    rewrite (time_at_last VNone b y Hy) in Ho. destruct (cont b) as [|x' l] eqn:C; [done|]. injection Hx as ->. by rewrite (time_at_first VNone b x l C) in Ho.
  - left. destruct (find_time_idx_ok VNone b t W) as (p & E & Hp & Ha); [lia|lia|]. exists p. split; [done|]. unfold ends_at. rewrite zlen_contents by done.
    split; [done|]. pose proof (at_or_before_sorted VNone b t p S (proj1 Hp) Ha) as Hb. unfold time_at in Hb. split.
    + intros x Hx. rewrite Hx in Hb. cbn in Hb. lia.
    + intros q x Hq Hx. destruct (lookup_lt_is_Some_2 (cont b) (Z.to_nat p)) as [z Hz]; [rewrite contents_length; lia|]. rewrite Hz in Hb. cbn in Hb.
      destruct Hb as [Hb|[_ Hb]].
      * rewrite <- Hb. eapply (S (Z.to_nat p) q); [lia|done|done].
      * pose proof (lookup_lt_Some _ _ _ Hx) as L. rewrite contents_length in L. specialize (Hb (Z.of_nat q)). rewrite Nat2Z.id, Hx in Hb. cbn in Hb. lia.
Qed.

(** ** Adding fetched records *)

(** Elements that differ in the values, the demand and the fetch marks only. *)
Definition same_item (e e' : item_elem) : Prop :=
  i_value_type e' = i_value_type e /\ i_meta e' = i_meta e /\ i_last_accessed e' = i_last_accessed e.

Lemma same_item_refl e : same_item e e.
Proof. done. Qed.

Lemma same_item_trans e1 e2 e3 : same_item e1 e2 -> same_item e2 e3 -> same_item e1 e3.
Proof. unfold same_item. naive_solver congruence. Qed.

Definition record_ok (vt : Z) (r : history_record) : Prop := time_ok (r_sec r) /\ h_typed vt (r_value r) = true.

Lemma add_record_ok e r : item_ok e -> record_ok (i_value_type e) r ->
  exists b, add_record_to_tail e r = Ret (set_tsbuff e b) /\ item_ok (set_tsbuff e b) /\ ts_size b = ts_size (i_tsbuff e) /\
    (cont b = cont (i_tsbuff e) \/ cont b = TsItem (r_sec r) (value_of (r_value r)) :: cont (i_tsbuff e)).
Proof.
  intros [W S V] [Ht Hty]. set (b0 := i_tsbuff e) in *. pose proof (wf_count _ W). destruct (from_hist_ok _ _ Hty) as [Hv Hv'].
  unfold add_record_to_tail. fold b0. destruct (decide (ts_count b0 = ts_size b0 \/ tail_refused VNone b0 (r_sec r))) as [Hr|Hr].
  - rewrite (add_to_tail_refused VNone b0 _ W Hr). cbn [mbind res_mbind]. exists b0. split_and!; try done. by left.
  - destruct (add_tail_value_ok b0 (r_sec r) (value_of (r_value r)) W) as (b1 & p & b2 & -> & E2 & W2 & C2 & S2); [unfold has_room; lia|tauto|].
    cbn [mbind res_mbind]. rewrite Hv. cbn [mbind res_mbind]. rewrite E2. cbn [mbind res_mbind]. exists b2. split_and!; try done; [|by right].
    split; cbn; rewrite ?C2; [done| |by constructor]. apply ts_sorted_cons; [done|]. intros y Hy. cbn.
    destruct (cont b0) as [|y' l] eqn:C; [done|]. injection Hy as ->. apply Forall_cons in V as [[Hy _] _].
    assert (~ (0 < time y < r_sec r)) by (intros ?; apply Hr; right; by exists y, l). unfold time_ok in *. lia.
Qed.

Lemma by_count_ok e values : item_ok e -> Forall (record_ok (i_value_type e)) values ->
  exists b older, add_records_by_count e values = Ret (set_tsbuff e b) /\ item_ok (set_tsbuff e b) /\ cont b = older ++ cont (i_tsbuff e).
Proof.
  intros Hok HF. revert e Hok HF. induction values as [|r values IH]; intros e Hok HF; cbn [add_records_by_count].
  - exists (i_tsbuff e), []. destruct e. by split_and!.
  - apply Forall_cons in HF as [Hr HF]. destruct (add_record_ok e r Hok Hr) as (b & -> & Hok1 & _ & HC). cbn [mbind res_mbind].
    destruct (IH (set_tsbuff e b) Hok1 HF) as (b2 & older & E & Hok2 & C2). exists b2. cbn [i_tsbuff set_tsbuff] in C2.
    destruct HC as [HC|HC]; rewrite HC in C2; [exists older|exists (older ++ [TsItem (r_sec r) (value_of (r_value r))])]; split_and!; try done.
    by rewrite C2, <- (assoc_L (++)).
Qed.

Lemma ensure_item_ok e mem now : item_ok e ->
  exists r b k, ensure_tsbuff_has_space e mem now = Ret (r, set_tsbuff e b) /\ item_ok (set_tsbuff e b) /\ cont b = drop k (cont (i_tsbuff e)).
Proof.
  intros Hok. destruct (item_space_ok e mem now (io_wf _ Hok)) as (r & b & E & W & Hk & _). destruct (kept_ok e now _ Hok Hk) as (Hs & HV & _).
  destruct Hk as [Hk|(_ & _ & Hk)]; [exists r, b, 0%nat|exists r, b, 1%nat]; by split_and!.
Qed.

Lemma by_time_ok e mem now values : item_ok e -> Forall (record_ok (i_value_type e)) values ->
  exists b older k, add_records_by_time e mem now values = Ret (set_tsbuff e b) /\ item_ok (set_tsbuff e b) /\ cont b = older ++ drop k (cont (i_tsbuff e)).
Proof.
  intros Hok HF. revert e Hok HF. induction values as [|r values IH]; intros e Hok HF; cbn [add_records_by_time].
  - exists (i_tsbuff e), [], 0%nat. destruct e. by split_and!.
  - apply Forall_cons in HF as [Hr HF]. destruct (ensure_item_ok e mem now Hok) as (z & b & k & -> & Hok1 & C1). cbn [mbind res_mbind].
    destruct (add_record_ok (set_tsbuff e b) r Hok1 Hr) as (b1 & -> & Hok2 & _ & C2). cbn [mbind res_mbind]. cbn [i_tsbuff set_tsbuff] in C2.
    destruct (IH (set_tsbuff e b1) Hok2 HF) as (b2 & older & j & E & Hok3 & C3). cbn [i_tsbuff set_tsbuff] in C3. exists b2.
    change (set_tsbuff (set_tsbuff e b) b1) with (set_tsbuff e b1). change (set_tsbuff (set_tsbuff e b1) b2) with (set_tsbuff e b2) in *.
    destruct C2 as [C2|C2]; rewrite C2, C1 in C3.
    + exists older, (k + j)%nat. split_and!; try done. by rewrite C3, drop_drop.
    + destruct j as [|j]; [exists (older ++ [TsItem (r_sec r) (value_of (r_value r))]), k|exists older, (k + j)%nat]; split_and!; try done; rewrite C3; cbn.
      * by rewrite <- (assoc_L (++)).
      * by rewrite drop_drop.
Qed.

Lemma sort_desc_perm values : sort_desc values ≡ₚ values.
Proof. unfold sort_desc. case_decide; [apply merge_sort_Permutation|done]. Qed.

Section fetching.
Variable db : Z -> Z -> Z -> Z -> Z -> option (list history_record).
(** The storage returns values of the type asked for, with times after 1970
    and before 2038. *)
Hypothesis db_typed : forall itemid vt from count to values, db itemid vt from count to = Some values -> Forall (record_ok vt) values.

Lemma item_ok_marks e e' : item_ok e -> i_tsbuff e' = i_tsbuff e -> i_value_type e' = i_value_type e -> item_ok e'.
Proof using. intros [W S V] Hb Ht. split; rewrite ?Hb, ?Ht; done. Qed.

Lemma fetch_by_count_ok itemid e count head_time now : item_ok e ->
  exists r e' older, fetch_from_db_by_count db itemid e count head_time now = Ret (r, e') /\ item_ok e' /\ same_item e e' /\
    cont (i_tsbuff e') = older ++ cont (i_tsbuff e) /\ (r = SUCCEED \/ r = FAIL).
Proof using db_typed.
  intros Hok. unfold fetch_from_db_by_count. set (e1 := if i_db_fetched_time e >? now then _ else e).
  assert (H1 : i_tsbuff e1 = i_tsbuff e /\ same_item e e1) by (unfold e1; by case_match). destruct H1 as [B1 S1].
  assert (Hok1 : item_ok e1) by (apply (item_ok_marks e); [done|done|apply S1]).
  destruct (_ && _). { exists SUCCEED, e1, []. rewrite B1. split_and!; try done. by left. }
  destruct (db itemid _ 0 count _) as [values|] eqn:E.
  2: { exists FAIL, e1, []. rewrite B1. split_and!; try done. by right. }
  apply db_typed in E. destruct values as [|v0 values].
  { eexists _, _, []. split; [done|]. cbn. rewrite B1. split_and!; try done; [|by left]. by apply (item_ok_marks e1). }
  set (e2 := set_db_fetched_time _ _). assert (Hok2 : item_ok e2) by (by apply (item_ok_marks e1)).
  destruct (by_count_ok e2 (sort_desc (v0 :: values)) Hok2) as (b & older & -> & Hok3 & C3); [by rewrite sort_desc_perm|].
  cbn [mbind res_mbind]. exists SUCCEED, (set_tsbuff e2 b), older. split_and!; try done; [by apply S1..| |by left]. rewrite <- B1. exact C3.
Qed.

Lemma fetch_by_time_ok itemid e seconds head_time mem now : item_ok e ->
  exists r e' older k, glb_state_fetch_from_db_by_time db itemid e seconds head_time mem now = Ret (r, e') /\ item_ok e' /\ same_item e e' /\
    cont (i_tsbuff e') = older ++ drop k (cont (i_tsbuff e)) /\ (r = SUCCEED \/ r = FAIL).
Proof using db_typed.
  intros Hok. unfold glb_state_fetch_from_db_by_time. destruct (_ <=? _). { exists SUCCEED, e, [], 0%nat. split_and!; try done. by left. }
  set (e1 := if i_db_fetched_time e >? now then _ else e).
  assert (H1 : i_tsbuff e1 = i_tsbuff e /\ same_item e e1) by (unfold e1; by case_match). destruct H1 as [B1 S1].
  assert (Hok1 : item_ok e1) by (apply (item_ok_marks e); [done|done|apply S1]).
  destruct (db itemid _ _ 0 _) as [values|] eqn:E.
  2: { exists FAIL, e1, [], 0%nat. rewrite B1. split_and!; try done. by right. }
  apply db_typed in E.
  assert (exists b older k, match values with [] => Ret e1 | _ => add_records_by_time e1 mem now (sort_desc values) end = Ret (set_tsbuff e1 b) /\
    item_ok (set_tsbuff e1 b) /\ cont b = older ++ drop k (cont (i_tsbuff e1))) as (b & older & k & -> & Hok2 & C2).
  { destruct values as [|v values]; [exists (i_tsbuff e1), [], 0%nat; destruct e1; by split_and!|]. apply by_time_ok; [done|]. by rewrite sort_desc_perm. }
  cbn [mbind res_mbind]. eexists SUCCEED, _, older, k. split; [done|]. split; [by apply (item_ok_marks _ _ Hok2)|]. split; [exact S1|]. split; [|by left]. by rewrite <- B1.
Qed.

(** ** Requests by count *)

(** The answer to a request for [q_count] values: a run of that many values
    that ends with the newest one not newer than the requested time. *)
Definition count_answer (e : item_elem) (req : fetch_req) (vals : list (Z * history_value)) : Prop :=
  exists p, ends_at (cont (i_tsbuff e)) (q_ts_head req) p /\ q_count req <= p + 1 /\
    vals = answers (i_value_type e) (segment (cont (i_tsbuff e)) (p + 1 - q_count req) p).

(** The index of the newest value not newer than [t]. *)
Lemma newest_idx_ok e t : item_ok e ->
  exists i, (c ← glb_tsbuff_get_time_head (i_tsbuff e);
     if c <? t then Ret (ts_head (i_tsbuff e)) else glb_tsbuff_find_time_idx (i_tsbuff e) t) = Ret i /\
  ((exists p, i = slot (i_tsbuff e) p /\ ends_at (cont (i_tsbuff e)) t p) \/ (i = -1 /\ forall p, ~ ends_at (cont (i_tsbuff e)) t p)).
Proof using.
  intros Hok. pose proof Hok as [W S _]. set (b := i_tsbuff e) in *. pose proof (wf_count _ W). destruct (decide (ts_count b = 0)) as [H0|H0].
  - destruct (wf_empty _ W H0) as [Hh _]. unfold glb_tsbuff_get_time_head, glb_tsbuff_get_count. rewrite H0. cbn [Z.eqb mbind res_mbind].
    exists (-1). split; [|right; split; [done|]; intros p [Hp _]; rewrite zlen_contents in Hp by done; lia].
    rewrite Hh. destruct (-1 <? t); [done|]. unfold glb_tsbuff_find_time_idx, glb_tsbuff_get_count. by rewrite H0.
  - destruct (contents_last VNone b W) as [x Hx]; [lia|]. rewrite (time_head_spec VNone b x W Hx). cbn [mbind res_mbind]. destruct (Z.ltb_spec (time x) t) as [Hlt|Hge].
    + destruct (wf_live _ W) as [_ Hh]; [lia|]. exists (ts_head b). split; [done|]. left. exists (ts_count b - 1). split; [done|].
      rewrite last_lookup, contents_length in Hx. unfold ends_at. rewrite zlen_contents by done. split_and!; [lia|lia| |].
      * intros y Hy. replace (Z.to_nat (ts_count b - 1)) with (pred (Z.to_nat (ts_count b))) in Hy by lia. assert (y = x) as -> by congruence. lia.
      * intros q y Hq Hy. apply lookup_lt_Some in Hy. rewrite contents_length in Hy. lia.
    + destruct (find_ok e t Hok) as [(p & E & Hp)|[E Ho]]; fold b in E; rewrite E; [eexists; split; [done|]; left; by exists p|].
      exists (-1). split; [done|]. right. split; [done|]. intros p (Hp & Hp1 & Hp2). destruct (contents_nonempty VNone b W) as (y & l & Hl); [lia|].
      fold b in Ho, Hp, Hp1, Hp2. destruct (Ho y x) as [Hty|Hty]; [by rewrite Hl|done| |lia].
      rewrite zlen_contents in Hp by done. destruct (lookup_lt_is_Some_2 (cont b) (Z.to_nat p)) as [z Hz]; [rewrite contents_length; lia|].
      specialize (Hp1 z Hz). assert (time y <= time z) by (eapply (S 0%nat (Z.to_nat p)); [lia|by rewrite Hl|done]). lia.
Qed.

Lemma enough_ok e t p c : item_ok e -> 0 < c -> ends_at (cont (i_tsbuff e)) t p ->
  glb_tsbuff_check_has_enough_count_data_idx (i_tsbuff e) c (slot (i_tsbuff e) p) = (if c <=? p + 1 then SUCCEED else FAIL) /\ -1 < slot (i_tsbuff e) p /\
  (c <= p + 1 -> fill_items_values_by_count e c (slot (i_tsbuff e) p) = Ret (answers (i_value_type e) (segment (cont (i_tsbuff e)) (p + 1 - c) p))).
Proof using.
  intros Hok Hc [Hp _]. pose proof (io_wf _ Hok) as W. rewrite zlen_contents in Hp by done. pose proof (wf_size _ W). split_and!.
  - rewrite (enough_count_ok _ _ _ W Hp). destruct (Z.eqb_spec c 0), (Z.ltb_spec (p + 1) c), (Z.leb_spec c (p + 1)); cbn; try done; lia.
  - pose proof (slot_range (i_tsbuff e) p). lia.
  - intros Hle. apply fill_by_count_ok; [done|lia|lia].
Qed.

Lemma update_db_fetch_ok e t : item_ok e -> item_ok (update_db_fetch e t) /\ i_tsbuff (update_db_fetch e t) = i_tsbuff e /\ same_item e (update_db_fetch e t).
Proof using. intros Hok. unfold update_db_fetch. case_match; [|by split_and!]. split_and!; try done. by apply (item_ok_marks e). Qed.

(** The element before a request of another type: its values are dropped. *)
Lemma retype_ok e vt now : item_ok e ->
  exists e1, (if negb (vt =? i_value_type e) && (glb_tsbuff_get_count (i_tsbuff e) >? 0) then recreate_item e true now else Ret e) = Ret e1 /\
    item_ok (set_value_type e1 vt) /\ (i_value_type e = vt -> set_value_type e1 vt = e).
Proof using.
  intros Hok. pose proof (io_wf _ Hok) as W. destruct (Z.eqb_spec vt (i_value_type e)) as [->|Hne]; cbn [negb andb].
  - exists e. assert (set_value_type e (i_value_type e) = e) as -> by (by destruct e). done.
  - destruct (Z.gtb_spec (glb_tsbuff_get_count (i_tsbuff e)) 0) as [Hc|Hc].
    + rewrite recreate_ok by done. destruct (new_item_ok now) as (n & -> & Wn & Cn & _). cbn [mbind res_mbind of_opt]. exists n. split; [done|].
      split; [split; cbn; rewrite ?Cn; done|congruence].
    + unfold glb_tsbuff_get_count in Hc. pose proof (wf_count _ W). assert (C : cont (i_tsbuff e) = []) by (apply contents_nil; lia).
      exists e. split; [done|]. split; [split; cbn; rewrite ?C; done|congruence].
Qed.

Section count_request.
Variables (st : stats) (req : fetch_req) (values : list (Z * history_value)) (now : Z).
Hypothesis Hcount : 0 < q_count req.

(** The rest of [cache_fetch_count_cb] after the values were fetched. *)
Lemma count_answer_ok s e :
  item_ok e -> i_value_type e = q_value_type req ->
  exists st' e' vals r, (head_idx ← glb_tsbuff_find_time_idx (i_tsbuff e) (q_ts_head req);
    if (head_idx =? -1) || (glb_tsbuff_check_has_enough_count_data_idx (i_tsbuff e) (q_count req) head_idx =? FAIL) then
      Ret (count_miss (count_db_miss s), e, values, FAIL)
    else
      vals ← fill_items_values_by_count e (q_count req) head_idx;
      let e := match vals with (sec, _) :: _ => update_db_fetch e sec | [] => e end in
      Ret (count_db_hit s, e, vals, SUCCEED)) = Ret (st', e', vals, r) /\
  item_ok e' /\ i_value_type e' = q_value_type req /\ requests st' = requests s /\ ((r = SUCCEED /\ count_answer e' req vals) \/ (r = FAIL /\ vals = values)).
Proof using Hcount.
  intros Hok Hvt. destruct (find_ok e (q_ts_head req) Hok) as [(p & -> & Hp)|[-> _]]; cbn [mbind res_mbind].
  2: { eexists _, _, _, _. split; [done|]. split_and!; try done. by right. }
  destruct (enough_ok e _ p (q_count req) Hok Hcount Hp) as (-> & Hs & Hfill). destruct (Z.eqb_spec (slot (i_tsbuff e) p) (-1)); [lia|]. cbn [orb].
  destruct (Z.leb_spec (q_count req) (p + 1)) as [Hle|Hgt].
  2: { eexists _, _, _, _. split; [done|]. split_and!; try done. by right. }
  change (SUCCEED =? FAIL) with false. cbv iota. rewrite (Hfill Hle). cbn [mbind res_mbind]. set (vals := answers _ _).
  set (e' := match vals with (sec, _) :: _ => update_db_fetch e sec | [] => e end). cbv zeta.
  assert (He' : item_ok e' /\ i_tsbuff e' = i_tsbuff e /\ same_item e e').
  { unfold e'. destruct vals as [|[sec ?] ?]; [done|]. by apply update_db_fetch_ok. }
  destruct He' as (Hok' & Hb & Hs'). exists (count_db_hit s), e', vals, SUCCEED. split; [done|]. split; [done|]. split; [destruct Hs'; congruence|].
  split; [done|]. left. split; [done|]. exists p. rewrite Hb. split_and!; try done. destruct Hs' as [-> _]. done.
Qed.

(** The two fetches of [cache_fetch_count_cb]. *)
Lemma first_fetch_ok e i : item_ok e -> i_value_type e = q_value_type req ->
  exists r e', (if i =? -1 then
      '(r, e) ← glb_state_fetch_from_db_by_time db (q_itemid req) e (now - q_ts_head req) now true now;
      if r =? FAIL then Ret (FAIL, e) else Ret (SUCCEED, update_db_fetch e (q_ts_head req))
    else Ret (SUCCEED, e)) = Ret (r, e') /\ item_ok e' /\ i_value_type e' = q_value_type req /\ (r = SUCCEED \/ r = FAIL).
Proof using db_typed.
  intros Hok Hvt. destruct (i =? -1); [|exists SUCCEED, e; split_and!; try done; by left].
  destruct (fetch_by_time_ok (q_itemid req) e (now - q_ts_head req) now true now Hok) as (r & e1 & older & k & -> & Hok1 & [Hv1 _] & _ & Hr). cbn [mbind res_mbind].
  destruct Hr as [->| ->]; cbn; [|exists FAIL, e1; split_and!; try done; [congruence|by right]].
  destruct (update_db_fetch_ok e1 (q_ts_head req) Hok1) as (Hok2 & _ & [Hv2 _]). eexists SUCCEED, _. split_and!; try done; [congruence|by left].
Qed.

Lemma second_fetch_ok e need : item_ok e -> i_value_type e = q_value_type req ->
  exists r e', (if need >? 0 then
      '(r, e) ← fetch_from_db_by_count db (q_itemid req) e need (q_ts_head req) now;
      if negb (r =? SUCCEED) then Ret (FAIL, e) else Ret (SUCCEED, update_db_fetch e (q_ts_head req))
    else Ret (SUCCEED, e)) = Ret (r, e') /\ item_ok e' /\ i_value_type e' = q_value_type req /\ (r = SUCCEED \/ r = FAIL).
Proof using db_typed.
  intros Hok Hvt. destruct (need >? 0); [|exists SUCCEED, e; split_and!; try done; by left].
  destruct (fetch_by_count_ok (q_itemid req) e need (q_ts_head req) now Hok) as (r & e1 & older & -> & Hok1 & [Hv1 _] & _ & Hr). cbn [mbind res_mbind].
  destruct Hr as [->| ->]; cbn; [|exists FAIL, e1; split_and!; try done; [congruence|by right]].
  destruct (update_db_fetch_ok e1 (q_ts_head req) Hok1) as (Hok2 & _ & [Hv2 _]). eexists SUCCEED, _. split_and!; try done; [congruence|by left].
Qed.

(** The whole of [cache_fetch_count_cb]. *)
Lemma fetch_count_ok e :
  item_ok e ->
  exists st' e' vals r, cache_fetch_count_cb db st e req values true now = Ret (st', e', vals, r) /\ item_ok e' /\ i_value_type e' = q_value_type req /\
    ((r = SUCCEED /\ count_answer e' req vals) \/ (r = FAIL /\ vals = values)) /\
    requests st' = requests st + 1 /\
    (i_value_type e = q_value_type req -> (exists p, ends_at (cont (i_tsbuff e)) (q_ts_head req) p) ->
     (forall p, ends_at (cont (i_tsbuff e)) (q_ts_head req) p -> q_count req <= p + 1) ->
     r = SUCCEED /\ e' = e /\ st' = count_hit (count_request st)).
Proof using db_typed Hcount.
  intros Hok0. unfold cache_fetch_count_cb. destruct (retype_ok e (q_value_type req) now Hok0) as (e0 & -> & Hok & Hsame). cbn [mbind res_mbind].
  set (e1 := set_value_type e0 (q_value_type req)) in *. destruct (newest_idx_ok e1 (q_ts_head req) Hok) as (i & E & Hi).
  destruct (glb_tsbuff_get_time_head (i_tsbuff e1)) as [c|]; [|done]. cbn [mbind res_mbind] in *. rewrite E. cbn [mbind res_mbind]. clear E c.
  assert (Hcase : (exists p, i = slot (i_tsbuff e1) p /\ ends_at (cont (i_tsbuff e1)) (q_ts_head req) p /\ q_count req <= p + 1) \/
    (-1 <? i) && (glb_tsbuff_check_has_enough_count_data_idx (i_tsbuff e1) (q_count req) i =? SUCCEED) = false).
  { destruct Hi as [(p & -> & Hp)|[-> _]]; [|by right]. destruct (enough_ok e1 _ p (q_count req) Hok Hcount Hp) as (Ec & _).
    destruct (Z.leb_spec (q_count req) (p + 1)) as [Hle|Hgt]; [left; by exists p|right]. rewrite Ec. apply andb_false_r. }
  destruct Hcase as [(p & -> & Hp & Hle)|Hmiss].
  - destruct (enough_ok e1 _ p (q_count req) Hok Hcount Hp) as (-> & Hs & Hfill). rewrite (proj2 (Z.leb_le _ _) Hle), (proj2 (Z.ltb_lt _ _) Hs), (Hfill Hle). cbn [andb mbind res_mbind Z.eqb].
    eexists _, e1, _, SUCCEED. split; [done|]. split_and!; try done; [left; split; [done|]; by exists p|]. intros Hvt _ _. by rewrite Hsame.
  - rewrite Hmiss. destruct (first_fetch_ok e1 i Hok eq_refl) as (r1 & e2 & -> & Hok2 & Hvt2 & Hr1). cbn [mbind res_mbind].
    assert (Hno : i_value_type e = q_value_type req -> (exists p, ends_at (cont (i_tsbuff e)) (q_ts_head req) p) ->
      (forall p, ends_at (cont (i_tsbuff e)) (q_ts_head req) p -> q_count req <= p + 1) -> False).
    { intros Hvt [p0 Hp0] Hall. rewrite (Hsame Hvt) in *. destruct Hi as [(p & -> & Hp)|[_ Hn]]; [|by apply (Hn p0)].
      destruct (enough_ok e _ p (q_count req) Hok Hcount Hp) as (Ec & Hs & _). rewrite Ec, (proj2 (Z.leb_le _ _) (Hall p Hp)), (proj2 (Z.ltb_lt _ _) Hs) in Hmiss. done. }
    destruct Hr1 as [->| ->]; cbn [Z.eqb].
    2: { eexists _, _, _, _. split; [done|]. split_and!; try done; [by right|naive_solver]. }
    change (SUCCEED =? FAIL) with false. cbv iota. assert (exists j, glb_tsbuff_find_time_idx (i_tsbuff e2) (q_ts_head req) = Ret j) as [j ->].
    { destruct (find_ok e2 (q_ts_head req) Hok2) as [(p & -> & _)|[-> _]]; eauto. }
    cbn [mbind res_mbind]. destruct (second_fetch_ok e2 (if j =? -1 then q_count req else q_count req - Z.rem (j - ts_tail (i_tsbuff e2) + ts_size (i_tsbuff e2)) (ts_size (i_tsbuff e2))) Hok2 Hvt2)
      as (r2 & e3 & -> & Hok3 & Hvt3 & Hr2). cbn [mbind res_mbind]. destruct Hr2 as [->| ->].
    2: { change (FAIL =? FAIL) with true. cbv iota. eexists _, _, _, _. split; [done|]. split_and!; try done; [by right|naive_solver]. }
    change (SUCCEED =? FAIL) with false. cbv iota.
    destruct (count_answer_ok (count_miss (count_request st)) e3 Hok3 Hvt3) as (st' & e' & vals & r & E & Hok' & Hvt' & Hreq & Hans).
    exists st', e', vals, r. split; [exact E|]. split_and!; try done; naive_solver.
Qed.

End count_request.
(** ** Requests by time *)

(** The answer to a request for the time from [lo] to [hi]: the values from
    the newest one not newer than [lo] to the newest one not newer than [hi]. *)
Definition time_answer (e : item_elem) (lo hi : Z) (vals : list (Z * history_value)) : Prop :=
  exists p q, ends_at (cont (i_tsbuff e)) lo p /\ ends_at (cont (i_tsbuff e)) hi q /\ p <= q /\
    vals = answers (i_value_type e) (segment (cont (i_tsbuff e)) p q).

Lemma ends_at_order l t1 t2 p1 p2 : t1 < t2 -> ends_at l t1 p1 -> ends_at l t2 p2 -> p1 <= p2.
Proof using.
  intros Ht (Hp1 & Hx1 & _) (_ & _ & Hy2). destruct (Z.le_gt_cases p1 p2) as [|Hlt]; [done|].
  destruct (lookup_lt_is_Some_2 l (Z.to_nat p1)) as [x Hx]; [unfold zlen in Hp1; lia|]. specialize (Hx1 x Hx). specialize (Hy2 (Z.to_nat p1) x). rewrite Z2Nat.id in Hy2 by lia.
  specialize (Hy2 Hlt Hx). lia.
Qed.

Lemma ends_at_last e t : item_ok e -> 0 < ts_count (i_tsbuff e) -> (forall x, last (cont (i_tsbuff e)) = Some x -> time x <= t) ->
  ts_head (i_tsbuff e) = slot (i_tsbuff e) (ts_count (i_tsbuff e) - 1) /\ ends_at (cont (i_tsbuff e)) t (ts_count (i_tsbuff e) - 1).
Proof using.
  intros Hok Hc Hx. pose proof (io_wf _ Hok) as W. set (b := i_tsbuff e) in *. destruct (wf_live _ W Hc) as [_ Hh]. split; [done|].
  unfold ends_at. rewrite zlen_contents by done. split_and!; [lia|lia| |].
  - intros y Hy. apply Hx. rewrite last_lookup, contents_length. by replace (pred (Z.to_nat (ts_count b))) with (Z.to_nat (ts_count b - 1)) by lia.
  - intros q y Hq Hy. apply lookup_lt_Some in Hy. rewrite contents_length in Hy. lia.
Qed.

(** The values between two positions that are in order. *)
Lemma fill_answer e lo hi p q : item_ok e -> lo <= hi -> (lo = hi -> p = q) -> ends_at (cont (i_tsbuff e)) lo p -> ends_at (cont (i_tsbuff e)) hi q ->
  exists vals, fill_items_values_by_index e (slot (i_tsbuff e) p) (slot (i_tsbuff e) q) = Ret vals /\ time_answer e lo hi vals.
Proof using.
  intros Hok Hle Heq Hp Hq. assert (Hpq : p <= q).
  { destruct (decide (lo = hi)) as [E|]; [rewrite (Heq E); lia|]. eapply (ends_at_order _ lo hi); [lia|done|done]. }
  pose proof Hp as [Hp' _]. pose proof Hq as [Hq' _]. rewrite zlen_contents in Hp', Hq' by apply Hok. eexists. split; [apply fill_by_index_ok; [done|lia|lia]|]. by exists p, q.
Qed.

Lemma find_fun e t1 t2 p q : item_ok e -> t1 = t2 -> ends_at (cont (i_tsbuff e)) t1 p -> ends_at (cont (i_tsbuff e)) t2 q ->
  glb_tsbuff_find_time_idx (i_tsbuff e) t1 = Ret (slot (i_tsbuff e) p) -> glb_tsbuff_find_time_idx (i_tsbuff e) t2 = Ret (slot (i_tsbuff e) q) -> p = q.
Proof using.
  intros Hok -> [Hp _] [Hq _] E1 E2. pose proof (io_wf _ Hok) as W. rewrite zlen_contents in Hp, Hq by done. pose proof (wf_count _ W).
  destruct (wf_live _ W) as [Ht _]; [lia|]. apply (slot_inj (i_tsbuff e)); [done|lia|lia|congruence].
Qed.

(** A value not newer than an earlier time is not newer than a later one. *)
Lemma found_later e t1 t2 p : item_ok e -> t1 <= t2 -> ends_at (cont (i_tsbuff e)) t1 p -> glb_tsbuff_find_time_idx (i_tsbuff e) t2 = Ret FAIL ->
  forall x, last (cont (i_tsbuff e)) = Some x -> time x < t2.
Proof using.
  intros Hok Hle (Hp & Hx & _) E x Hl. destruct (find_ok e t2 Hok) as [(q & E2 & Hq)|[_ Ho]].
  { rewrite E in E2. injection E2 as E2. destruct Hq as [Hq _]. pose proof (io_wf _ Hok) as W. rewrite zlen_contents in Hq by done. pose proof (slot_range (i_tsbuff e) q). pose proof (wf_size _ W). unfold FAIL in E2. lia. }
  destruct (cont (i_tsbuff e)) as [|y l] eqn:C; [done|]. destruct (Ho y x eq_refl Hl) as [Hy|]; [|done]. exfalso.
  destruct (lookup_lt_is_Some_2 (y :: l) (Z.to_nat p)) as [z Hz]; [unfold zlen in Hp; cbn in *; lia|]. specialize (Hx z Hz). rewrite <- C in Hz.
  assert (time y <= time z) by (eapply (io_sorted _ Hok 0%nat (Z.to_nat p)); [lia|by rewrite C|done]). lia.
Qed.

Lemma update_demand_ok e c p now : item_ok e ->
  item_ok (item_update_demand e c p now) /\ i_tsbuff (item_update_demand e c p now) = i_tsbuff e /\ same_item e (item_update_demand e c p now).
Proof using. intros Hok. split_and!; try done. by apply (item_ok_marks e). Qed.

Lemma slot_not_fail e p : item_ok e -> (slot (i_tsbuff e) p =? -1) = false.
Proof using. intros Hok. pose proof (wf_size _ (io_wf _ Hok)). pose proof (slot_range (i_tsbuff e) p). apply Z.eqb_neq. lia. Qed.

Section time_request.
Variables (req : fetch_req) (values : list (Z * history_value)) (now : Z).

(** The search in the cache. *)
Lemma time_search_ok e : item_ok e -> 0 <= q_seconds req ->
  exists hi ti, glb_tsbuff_find_time_idx (i_tsbuff e) (q_ts_head req) = Ret hi /\ glb_tsbuff_find_time_idx (i_tsbuff e) (q_ts_head req - q_seconds req) = Ret ti /\
    let h := if negb (ti =? -1) && (hi =? -1) then glb_tsbuff_get_head_idx (i_tsbuff e) else hi in
    if negb (h =? -1) && negb (ti =? -1)
    then exists vals, fill_items_values_by_index e ti h = Ret vals /\ time_answer e (q_ts_head req - q_seconds req) (q_ts_head req) vals
    else ti = -1.
Proof using.
  intros Hok Hs. destruct (find_ok e (q_ts_head req) Hok) as [(q & Eh & Hq)|[Eh Hh]]; destruct (find_ok e (q_ts_head req - q_seconds req) Hok) as [(p & Et & Hp)|[Et _]];
    rewrite Eh, Et; eexists _, _; (split; [done|]); (split; [done|]); cbv zeta; rewrite ?slot_not_fail by done; cbn; rewrite ?slot_not_fail by done; cbn; try done.
  - apply (fill_answer e); try done; [lia|]. intros Hpq. eapply (find_fun e (q_ts_head req - q_seconds req) (q_ts_head req)); done.
  - pose proof (found_later e (q_ts_head req - q_seconds req) (q_ts_head req) p Hok ltac:(lia) Hp Eh) as Hl. pose proof Hp as [Hp' _]. rewrite zlen_contents in Hp' by apply Hok.
    destruct (ends_at_last e (q_ts_head req) Hok) as [Hhd Hend]; [lia|intros x Hx; specialize (Hl x Hx); lia|].
    unfold glb_tsbuff_get_head_idx. rewrite Hhd, slot_not_fail by done. cbn. apply (fill_answer e); try done; [lia|]. intros E0. assert (q_ts_head req = q_ts_head req - q_seconds req) as E1 by lia. rewrite <- E1, Eh in Et. injection Et as Et.
    pose proof (slot_not_fail e p Hok) as Hn. rewrite <- Et in Hn. done.
Qed.

(** The rest of [cache_fetch_time_cb] after the fetch. *)
Lemma time_answer_ok st e : item_ok e -> now - q_seconds req <= q_ts_head req ->
  exists st' vals r, (head_time ← glb_tsbuff_get_time_head (i_tsbuff e);
    head_idx ← (if q_ts_head req >=? head_time then Ret (ts_head (i_tsbuff e)) else glb_tsbuff_find_time_idx (i_tsbuff e) (q_ts_head req));
    tail_idx ← glb_tsbuff_find_time_idx (i_tsbuff e) (now - q_seconds req);
    if tail_idx =? -1 then Ret (count_db_miss st, e, values, FAIL)
    else if negb (head_idx =? -1) then
      values ← fill_items_values_by_index e tail_idx head_idx;
      Ret (count_db_hit st, e, values, SUCCEED)
    else Ret (st, e, values, SUCCEED)) = Ret (st', e, vals, r) /\ requests st' = requests st /\
  ((r = SUCCEED /\ time_answer e (now - q_seconds req) (q_ts_head req) vals) \/ (r = FAIL /\ vals = values)).
Proof using.
  intros Hok Hle. pose proof (io_wf _ Hok) as W. pose proof (wf_count _ W). set (b := i_tsbuff e) in *.
  destruct (find_ok e (now - q_seconds req) Hok) as [(p & Et & Hp)|[Et _]]; fold b in Et; rewrite Et.
  2: { assert (exists i, (c ← glb_tsbuff_get_time_head b; if q_ts_head req >=? c then Ret (ts_head b) else glb_tsbuff_find_time_idx b (q_ts_head req)) = Ret i) as [i E].
       { destruct (decide (ts_count b = 0)) as [H0|H0].
         - unfold glb_tsbuff_get_time_head, glb_tsbuff_find_time_idx, glb_tsbuff_get_count. rewrite H0. cbn. case_match; eauto.
         - destruct (contents_last VNone b W) as [x Hx]; [lia|]. rewrite (time_head_spec VNone b x W Hx). cbn [mbind res_mbind]. case_match; [eauto|].
           destruct (find_ok e (q_ts_head req) Hok) as [(q & Eq & _)|[Eq _]]; fold b in Eq; rewrite Eq; eauto. }
       apply bind_Ret in E as (c & -> & E). cbn [mbind res_mbind]. rewrite E. cbn. eexists _, _, _. split; [done|]. split; [done|]. by right. }
  pose proof Hp as [Hp' _]. rewrite zlen_contents in Hp' by done. fold b in Hp'. destruct (contents_last VNone b W) as [x Hx]; [lia|].
  rewrite (time_head_spec VNone b x W Hx). cbn [mbind res_mbind].
  assert (exists q, (if q_ts_head req >=? time x then Ret (ts_head b) else glb_tsbuff_find_time_idx b (q_ts_head req)) = Ret (slot b q) /\
    ends_at (cont b) (q_ts_head req) q /\ (now - q_seconds req = q_ts_head req -> p <= q)) as (q & -> & Hq & Hpq).
  { destruct (Z.geb_spec (q_ts_head req) (time x)) as [Hge|Hlt].
    - destruct (ends_at_last e (q_ts_head req) Hok) as [Hhd Hend]; [fold b; lia|fold b; intros y Hy; assert (y = x) as -> by congruence; lia|].
      exists (ts_count b - 1). fold b in Hhd. rewrite Hhd. split_and!; try done. intros _. lia.
    - destruct (find_ok e (q_ts_head req) Hok) as [(q & Eq & Hq)|[Eq _]]; fold b in Eq.
      + exists q. rewrite Eq. split_and!; try done. intros E0. assert (p = q) as -> by (by eapply (find_fun e (now - q_seconds req) (q_ts_head req))). lia.
      + pose proof (found_later e _ (q_ts_head req) p Hok Hle Hp Eq x Hx). lia. }
  cbn [mbind res_mbind]. unfold b. rewrite !slot_not_fail by done. cbn [negb].
  assert (p <= q) by (destruct (decide (now - q_seconds req = q_ts_head req)); [by apply Hpq|eapply (ends_at_order _ (now - q_seconds req) (q_ts_head req)); [lia|done|done]]).
  pose proof Hq as [Hq' _]. fold b in Hq'. rewrite zlen_contents in Hq' by done. rewrite fill_by_index_ok by (done || (fold b; lia)). cbn [mbind res_mbind].
  eexists _, _, _. split; [done|]. split; [done|]. left. split; [done|]. by exists p, q.
Qed.

Lemma retype_time_ok e vt : item_ok e ->
  exists e1, (if negb (vt =? i_value_type e) then n ← recreate_item e true now; Ret (set_value_type n vt) else Ret e) = Ret e1 /\
    item_ok e1 /\ i_value_type e1 = vt /\ (i_value_type e = vt -> e1 = e).
Proof using.
  intros Hok. destruct (Z.eqb_spec vt (i_value_type e)) as [->|Hne]; cbn [negb]; [by exists e|].
  rewrite recreate_ok by apply Hok. destruct (new_item_ok now) as (n & -> & Wn & Cn & _). cbn [mbind res_mbind of_opt].
  exists (set_value_type n vt). split; [done|]. split; [split; cbn; rewrite ?Cn; done|]. split; [done|congruence].
Qed.

(** The whole of [cache_fetch_time_cb]. *)
Lemma fetch_time_ok st e :
  item_ok e -> 0 <= q_seconds req -> now - q_seconds req <= q_ts_head req ->
  exists st' e' vals r, cache_fetch_time_cb db st e req values true now = Ret (st', e', vals, r) /\ item_ok e' /\ i_value_type e' = q_value_type req /\
    requests st' = requests st + 1 /\
    ((r = SUCCEED /\ st' = count_hit (count_request st) /\ time_answer e' (q_ts_head req - q_seconds req) (q_ts_head req) vals) \/
     (r = SUCCEED /\ time_answer e' (now - q_seconds req) (q_ts_head req) vals) \/ (r = FAIL /\ vals = values)) /\
    (i_value_type e = q_value_type req -> (exists i, glb_tsbuff_find_time_idx (i_tsbuff e) (q_ts_head req - q_seconds req) = Ret i /\ i <> -1) ->
     r = SUCCEED /\ st' = count_hit (count_request st) /\ e' = item_update_demand e 0 (q_seconds req) now).
Proof using db_typed.
  intros Hok0 Hs Hle. unfold cache_fetch_time_cb. destruct (retype_time_ok e (q_value_type req) Hok0) as (e1 & -> & Hok1 & Hvt1 & Hsame). cbn [mbind res_mbind].
  destruct (time_search_ok e1 Hok1 Hs) as (hi & ti & Eh & Et & Hf). rewrite Eh, Et. cbn [mbind res_mbind]. cbv zeta in Hf. set (h := if _ && _ then _ else hi) in *.
  rewrite Z.max_r by lia. set (e2 := item_update_demand e1 0 (q_seconds req) now). destruct (update_demand_ok e1 0 (q_seconds req) now Hok1) as (Hok2 & B2 & [Hv2 _]). fold e2 in Hok2, B2, Hv2.
  destruct (negb (h =? -1) && negb (ti =? -1)).
  - destruct Hf as (vals & Ef & Ha). assert (fill_items_values_by_index e2 ti h = fill_items_values_by_index e1 ti h) as -> by done. rewrite Ef. cbn [mbind res_mbind].
    exists (count_hit (count_request st)), e2, vals, SUCCEED. split; [done|]. split_and!; try done; [by left|]. intros Hvt _. unfold e2. by rewrite (Hsame Hvt).
  - assert (Hno : i_value_type e = q_value_type req -> (exists i, glb_tsbuff_find_time_idx (i_tsbuff e) (q_ts_head req - q_seconds req) = Ret i /\ i <> -1) -> False).
    { intros Hvt (i & E & Hi). rewrite (Hsame Hvt) in Et. congruence. }
    assert (exists tt, glb_tsbuff_get_time_tail (i_tsbuff e2) = Ret tt) as [tt ->].
    { rewrite B2. pose proof (io_wf _ Hok1) as W. destruct (decide (ts_count (i_tsbuff e1) = 0)) as [H0|H0].
      - unfold glb_tsbuff_get_time_tail, glb_tsbuff_get_count. rewrite H0. eauto.
      - pose proof (wf_count _ W). destruct (contents_nonempty VNone (i_tsbuff e1) W) as (y & l & Hl); [lia|]. rewrite (time_tail_spec VNone _ y l W Hl). eauto. }
    cbn [mbind res_mbind]. set (pr := if _ && _ then _ else _). destruct pr as [fh fs].
    destruct (fetch_by_time_ok (q_itemid req) e2 fs fh true now Hok2) as (r & e3 & older & k & -> & Hok3 & [Hv3 _] & _ & Hr). cbn [mbind res_mbind].
    destruct Hr as [->| ->]; cbn [negb Z.eqb].
    2: { change (FAIL =? SUCCEED) with false. cbv iota. cbn [negb]. eexists _, _, _, _. split; [done|]. split_and!; try done; [congruence|by right; right|naive_solver]. }
    change (SUCCEED =? SUCCEED) with true. cbn [negb]. destruct (update_db_fetch_ok e3 (q_ts_head req) Hok3) as (Hok4 & _ & [Hv4 _]).
    destruct (time_answer_ok (count_miss (count_request st)) (update_db_fetch e3 (q_ts_head req)) Hok4 Hle) as (st' & vals & r & E & Hreq & Hans).
    exists st', (update_db_fetch e3 (q_ts_head req)), vals, r. split; [exact E|]. split_and!; try done; [congruence|naive_solver|naive_solver].
Qed.

End time_request.
End fetching.

(** ** Values of discovery items and housekeeping *)

Lemma resize_one_ok b uninit : ts_wf b -> ts_size b <> 1 -> zlen uninit = 1 ->
  exists r b' fr, glb_tsbuff_resize VNone b 1 true false uninit = Ret (r, b', fr) /\ ts_wf b' /\ ts_size b' = 1.
Proof.
  intros W Hs Hu. pose proof (wf_size _ W). pose proof (wf_count _ W). unfold glb_tsbuff_resize. change (GLB_TSBUFF_MAX_SZIE <? 1) with false. change (1 <? 1) with false.
  destruct (Z.eqb_spec 1 (ts_size b)); [lia|]. destruct (Z.ltb_spec 1 (ts_size b)); [|lia]. cbn [orb].
  destruct (decide (ts_count b = 0)) as [Hz|Hz].
  - destruct (wf_empty _ W Hz) as [Hh Ht]. unfold tsbuff_downsize. cbn [negb]. rewrite Hh. cbn [mbind res_mbind].
    rewrite !(BUFF_IDX_mod b) by lia. replace ((-1 - 1 + 1) mod ts_size b) with (ts_size b - 1) by (apply (Z.mod_unique_pos _ _ (-1)); lia).
    replace ((-1 + 1) mod ts_size b) with 0 by (by rewrite Z.mod_0_l by lia).
    destruct (Z.to_nat (ts_size b)) as [|m] eqn:Em; [lia|]. cbn [copy_loop]. destruct (Z.eqb_spec (ts_size b - 1) 0); [lia|].
    rewrite (get_value_ptr_ok b (ts_size b - 1)) by lia. cbn [mbind res_mbind]. destruct (zget_is_Some (ts_data b) (ts_size b - 1)) as [v Hv]; [rewrite (wf_data _ W); lia|].
    assert (deref b (ts_size b - 1) = Ret v) as -> by (unfold deref; by rewrite Hv). cbn [mbind res_mbind of_opt].
    rewrite (BUFF_IDX_mod b) by lia. replace ((ts_size b - 1 + 1) mod ts_size b) with 0 by (replace (ts_size b - 1 + 1) with (ts_size b) by lia; by rewrite Z.mod_same by lia).
    cbn [mbind res_mbind Z.eqb]. eexists _, _, _. split; [done|]. split; [|done].
    assert (E : drop 1 uninit = []) by (apply drop_ge; unfold zlen in Hu; lia). split; cbn [ts_size ts_count ts_data ts_head ts_tail length]; rewrite ?E; unfold zlen; cbn; lia || done.
  - destruct (downsize_ok VNone b 1 false uninit W) as (b' & -> & W' & _ & S'); [lia|lia|done|by left|]. by eexists _, b', _.
Qed.

Lemma add_lld_ok e h uninit : item_ok e -> zlen uninit = 1 -> h_typed (h_value_type h) (h_value h) = true -> time_ok (h_sec h) ->
  exists e', add_value_lld_cb e h true uninit = Ret (e', None) /\ item_ok e' /\ cont (i_tsbuff e') = [TsItem (h_sec h) (value_of (h_value h))] /\
    ts_size (i_tsbuff e') = 1 /\ i_value_type e' = h_value_type h /\ m_state (i_meta e') = ITEM_STATE_NORMAL /\ i_demand e' = i_demand e.
Proof.
  intros Hok Hu Hty Ht. destruct (from_hist_ok _ _ Hty) as [Hv Hv']. unfold add_value_lld_cb. set (e1 := set_meta e _). unfold glb_tsbuff_get_size.
  assert (exists b, (if negb (ts_size (i_tsbuff e1) =? 1) then '(_, b, _) ← glb_tsbuff_resize VNone (i_tsbuff e1) 1 true false uninit; Ret (set_tsbuff e1 b) else Ret e1) = Ret (set_tsbuff e1 b) /\
    ts_wf b /\ ts_size b = 1) as (b & -> & W & Sz).
  { destruct (Z.eqb_spec (ts_size (i_tsbuff e1)) 1) as [E|E]; cbn [negb]; [exists (i_tsbuff e1); split; [by destruct e|]; split; [apply Hok|done]|].
    destruct (resize_one_ok (i_tsbuff e1) uninit (io_wf _ Hok) E Hu) as (r & b & fr & -> & W & Sz). by exists b. }
  cbn [mbind res_mbind i_tsbuff set_tsbuff]. pose proof (wf_count _ W). destruct (drop_all_ok (S (Z.to_nat (ts_count b))) b W) as (b1 & -> & W1 & N1 & C1 & S1); [lia|].
  cbn [mbind res_mbind]. destruct (add_head_value_ok b1 (h_sec h) (value_of (h_value h)) W1) as (b2 & p & b3 & -> & E3 & W3 & C3 & S3); [unfold has_room; lia|intros (x & Hx & _); by rewrite C1 in Hx|].
  cbn [mbind res_mbind]. unfold dc_hist_to_value. rewrite Hv. cbn [mbind res_mbind]. rewrite E3. cbn [mbind res_mbind]. rewrite C1 in C3. cbn [app] in C3.
  eexists. split; [done|]. cbn [i_tsbuff set_value_type set_tsbuff]. split_and!; try done; [|congruence].
  split; cbn [i_tsbuff set_value_type set_tsbuff i_value_type]; rewrite ?C3; [done| |by constructor]. intros i j x y _ Hx Hy. apply list_lookup_singleton_Some in Hx as [_ <-]. by apply list_lookup_singleton_Some in Hy as [_ <-].
Qed.

Lemma clean_ok fuel b t : ts_wf b -> ts_sorted (cont b) -> ts_count b < Z.of_nat fuel ->
  exists b', (forall n, clean_old_values fuel b t n = Ret (b', n + (zlen (cont b) - zlen (cont b')))) /\ ts_wf b' /\ cont b' = filter (fun x => t <= time x) (cont b) /\
    exists k, cont b' = drop k (cont b).
Proof.
  revert b. induction fuel as [|fuel IH]; intros b W S Hf; [pose proof (wf_count _ W); lia|]. cbn [clean_old_values]. unfold glb_tsbuff_get_count. pose proof (wf_count _ W).
  destruct (Z.gtb_spec (ts_count b) 0) as [Hc|Hc].
  2: { exists b. rewrite (contents_nil VNone b) by lia. split; [intros n; do 2 f_equal; lia|]. split_and!; try done. by exists 0%nat. }
  rewrite value_tail_ok by (done || lia). cbn [mbind res_mbind of_opt]. destruct (contents_nonempty VNone b W) as (x & l & Hl); [lia|].
  rewrite (deref_slot VNone b 0 x W) by (lia || by rewrite Hl). cbn [mbind res_mbind]. rewrite Hl. destruct (Z.ltb_spec (time x) t) as [Hlt|Hge].
  - destruct (drop_tail_ok b W) as (b1 & -> & W1 & C1 & _ & N1); [lia|]. cbn [mbind res_mbind]. rewrite Hl in C1. cbn in C1.
    destruct (IH b1 W1) as (b' & E & W' & C' & k & K'); [rewrite C1; rewrite Hl in S; apply (ts_sorted_tail _ S)|lia|].
    exists b'. rewrite filter_cons_False by lia. rewrite <- C1. split; [intros n; rewrite E, C1, zlen_cons; do 2 f_equal; lia|]. split_and!; try done. exists (Datatypes.S k). by rewrite K', C1.
  - exists b. rewrite Hl. split; [intros n; do 2 f_equal; lia|]. split; [done|]. split; [|by exists 0%nat]. symmetry. apply filter_all. intros y [i Hi]%list_elem_of_lookup.
    rewrite Hl in S. pose proof (S 0%nat i x y ltac:(lia) eq_refl Hi). lia.
Qed.

(** ** Properties *)

(** C25: Adding a value to the cache of an item.  A value of an item that is
    not in its normal state is refused.  A value of another type than the
    cached ones drops these.  Otherwise all values are kept but for, at most,
    the oldest one, which is dropped only when the buffer is full and the
    values left still have the number and the age that the demand asks for.
    The value becomes the newest one and SUCCEED is returned, unless it is
    older than the newest one, lies more than 5 minutes in the future or the
    buffer has reached its greatest size.  The values stay sorted and of the
    type of the item. *)
Theorem item_add_value_correct e h now :
  item_ok e -> h_typed (h_value_type h) (h_value h) = true -> time_ok (h_sec h) ->
  exists e' r, add_value_cb e h true now = Ret (e', r) /\ item_ok e' /\
  if negb (h_state h =? ITEM_STATE_NORMAL) then r = FAIL /\ e' = e
  else i_value_type e' = h_value_type h /\ exists l,
    (if (i_value_type e =? ITEM_VALUE_TYPE_NONE) || (i_value_type e =? h_value_type h)
     then kept e now l /\ i_demand e' = i_demand e /\ i_meta e' = value_meta (i_meta e) h
     else l = []) /\
    ((r = SUCCEED /\ h_sec h <= now + 300 /\ too_old l (h_sec h) = false /\ cont (i_tsbuff e') = l ++ [TsItem (h_sec h) (value_of (h_value h))]) \/
     (r = FAIL /\ cont (i_tsbuff e') = l /\
      (now + 300 < h_sec h \/ too_old l (h_sec h) = true \/ GLB_TSBUFF_MAX_SZIE < calc_grow_buffer_size (ts_size (i_tsbuff e))))).
Proof. apply add_value_ok. Qed.

Section properties.
Variable db : Z -> Z -> Z -> Z -> Z -> option (list history_record).
Hypothesis db_typed : forall itemid vt from count to values, db itemid vt from count to = Some values -> Forall (record_ok vt) values.

(** C27: A request for values by count.  It always returns; the element stays
    well formed and has the requested type.  SUCCEED comes with exactly the
    requested number of consecutive values up to the requested time, FAIL with
    the caller's vector as it was.  When the values of the item are of the
    requested type and enough of them are cached the request is a hit that
    asks the storage nothing and leaves the element as it is. *)
Theorem cache_fetch_count_correct st e req values now :
  item_ok e -> 0 < q_count req ->
  exists st' e' vals r, cache_fetch_count_cb db st e req values true now = Ret (st', e', vals, r) /\ item_ok e' /\ i_value_type e' = q_value_type req /\
    ((r = SUCCEED /\ count_answer e' req vals) \/ (r = FAIL /\ vals = values)) /\
    requests st' = requests st + 1 /\
    (i_value_type e = q_value_type req -> (exists p, ends_at (cont (i_tsbuff e)) (q_ts_head req) p) ->
     (forall p, ends_at (cont (i_tsbuff e)) (q_ts_head req) p -> q_count req <= p + 1) ->
     r = SUCCEED /\ e' = e /\ st' = count_hit (count_request st)).
Proof using db_typed. intros Hok Hc. by apply fetch_count_ok. Qed.

(** A request for the values of the last [q_seconds] seconds before the
    requested time.  It always returns, with the element well formed and of
    the requested type.  A hit returns the values from the newest one not
    newer than the start of the period to the newest one in it, asks the
    storage nothing and changes the demand only.  After a fetch SUCCEED comes
    with such a run of values too, its start counted from the current time;
    otherwise the caller's vector is as it was.  This needs the period to
    reach the last [q_seconds] seconds. *)
Theorem cache_fetch_time_correct st e req values now :
  item_ok e -> 0 <= q_seconds req -> now - q_seconds req <= q_ts_head req ->
  exists st' e' vals r, cache_fetch_time_cb db st e req values true now = Ret (st', e', vals, r) /\ item_ok e' /\ i_value_type e' = q_value_type req /\
    requests st' = requests st + 1 /\
    ((r = SUCCEED /\ st' = count_hit (count_request st) /\ time_answer e' (q_ts_head req - q_seconds req) (q_ts_head req) vals) \/
     (r = SUCCEED /\ time_answer e' (now - q_seconds req) (q_ts_head req) vals) \/ (r = FAIL /\ vals = values)) /\
    (i_value_type e = q_value_type req -> (exists i, glb_tsbuff_find_time_idx (i_tsbuff e) (q_ts_head req - q_seconds req) = Ret i /\ i <> -1) ->
     r = SUCCEED /\ st' = count_hit (count_request st) /\ e' = item_update_demand e 0 (q_seconds req) now).
Proof using db_typed. intros Hok Hs Hle. by apply fetch_time_ok. Qed.

End properties.

(** Housekeeping drops exactly the values before the given time. *)
Theorem item_clean_correct b t n :
  ts_wf b -> ts_sorted (cont b) ->
  exists b', clean_old_values (S (Z.to_nat (ts_count b))) b t n = Ret (b', n + (zlen (cont b) - zlen (cont b'))) /\ ts_wf b' /\
    cont b' = filter (fun x => t <= time x) (cont b).
Proof.
  intros W Hs. destruct (clean_ok (S (Z.to_nat (ts_count b))) b t W Hs) as (b' & E & W' & C & _); [pose proof (wf_count _ W); lia|].
  exists b'. by rewrite E.
Qed.

(** ** Witnesses and counterexamples *)

Definition ex_item : item_elem :=
  Item (Meta ITEM_STATE_NORMAL 130 0 0 (Some "old")) (TsBuff 4 3 24 [TsItem 110 (VUi64 1); TsItem 120 (VUi64 2); TsItem 130 (VUi64 3); TsItem 0 VNone] 2 0)
    (Demand 0 0 0 0 0 0) ITEM_VALUE_TYPE_UINT64 0 ZBX_JAN_2038 0.

Lemma ex_item_ok : item_ok ex_item.
Proof.
  split; [by split| |]; change (cont (i_tsbuff ex_item)) with [TsItem 110 (VUi64 1); TsItem 120 (VUi64 2); TsItem 130 (VUi64 3)].
  - intros [|[|[|i]]] [|[|[|j]]] x y Hij Hx Hy; simpl in *; simplify_eq; simpl; lia.
  - by repeat constructor.
Qed.

Definition ex_db : Z -> Z -> Z -> Z -> Z -> option (list history_record) := fun _ _ _ _ _ => Some [].

Lemma ex_db_typed itemid vt from count to values : ex_db itemid vt from count to = Some values -> Forall (record_ok vt) values.
Proof. intros [= <-]. constructor. Qed.

Definition ex_value : dc_history := DcHistory 1 ITEM_VALUE_TYPE_UINT64 (HUi64 7) ITEM_STATE_NORMAL 140.

Lemma item_add_value_witness : exists e', add_value_cb ex_item ex_value true 150 = Ret (e', SUCCEED) /\ item_ok e'.
Proof.
  destruct (item_add_value_correct ex_item ex_value 150 ex_item_ok eq_refl) as (e' & r & E & Hok & _); [done|].
  exists e'. vm_compute in E. injection E as <- <-. split; [vm_compute; reflexivity|exact Hok].
Defined.

Lemma cache_fetch_count_witness :
  exists e' vals r, cache_fetch_count_cb ex_db (Stats 0 0 0 0 0 0) ex_item (FetchReq 1 2 ITEM_VALUE_TYPE_UINT64 125 0) [] true 150 = Ret (Stats 1 1 0 0 0 0, e', vals, r) /\ item_ok e'.
Proof.
  destruct (cache_fetch_count_correct ex_db ex_db_typed (Stats 0 0 0 0 0 0) ex_item (FetchReq 1 2 ITEM_VALUE_TYPE_UINT64 125 0) [] 150 ex_item_ok) as (st & e' & vals & r & E & Hok & _); [done|].
  exists e', vals, r. vm_compute in E. injection E as <- <- <- <-. split; [vm_compute; reflexivity|exact Hok].
Defined.

Lemma cache_fetch_time_witness :
  exists e' vals r, cache_fetch_time_cb ex_db (Stats 0 0 0 0 0 0) ex_item (FetchReq 1 0 ITEM_VALUE_TYPE_UINT64 128 8) [] true 130 = Ret (Stats 1 1 0 0 0 0, e', vals, r) /\ item_ok e'.
Proof.
  destruct (cache_fetch_time_correct ex_db ex_db_typed (Stats 0 0 0 0 0 0) ex_item (FetchReq 1 0 ITEM_VALUE_TYPE_UINT64 128 8) [] 130 ex_item_ok) as (st & e' & vals & r & E & Hok & _); [done|done|].
  exists e', vals, r. vm_compute in E. injection E as <- <- <- <-. split; [vm_compute; reflexivity|exact Hok].
Defined.

(** A message that differs from the stored one does not replace it: the test
    replaces it when the two are equal. *)
Example error_not_updated :
  m_error (i_meta (item_update_lastdata_cb ex_item 140 (Some (Some "new"))).1) = Some "old".
Proof. vm_compute. reflexivity. Qed.

(** A value of another type leaves the item in the unknown state, though the
    value was accepted. *)
Example retyped_state_unknown :
  exists e', add_value_cb ex_item (DcHistory 1 ITEM_VALUE_TYPE_FLOAT (HDbl 0) ITEM_STATE_NORMAL 140) true 150 = Ret (e', SUCCEED) /\
    m_state (i_meta e') = ITEM_STATE_UNKNOWN /\ m_lastdata (i_meta e') = 0.
Proof. eexists. split; [vm_compute; reflexivity|]. split; reflexivity. Qed.

(** A storage that has a value for every tenth second from 10 on. *)
Definition full_db : Z -> Z -> Z -> Z -> Z -> option (list history_record) := fun _ _ from count to =>
  let first := Z.max 1 (if count =? 0 then (from + 9) / 10 else to / 10 - count + 1) in
  Some ((fun k => HRec (10 * k) 0 (HUi64 k)) <$> seqZ first (to / 10 - first + 1)).

(** A request by count does not make the buffer grow: with four slots it
    fails for five values, though the storage has returned them.  The value of
    time 110, which was cached before, is there twice. *)
Example fetch_count_limited_by_buffer :
  exists st' e', cache_fetch_count_cb full_db (Stats 0 0 0 0 0 0) ex_item (FetchReq 1 5 ITEM_VALUE_TYPE_UINT64 125 0) [] true 130 = Ret (st', e', [], FAIL) /\
    time <$> cont (i_tsbuff e') = [110; 110; 120; 130].
Proof. eexists _, _. split; vm_compute; reflexivity. Qed.

(** Fetched values that the demand does not need push out the ones before
    them: the values of the times 90 and 100 are lost between 80 and 110. *)
Example fetch_time_leaves_gap :
  exists e', add_records_by_time ex_item true 200 [HRec 100 0 (HUi64 9); HRec 90 0 (HUi64 8); HRec 80 0 (HUi64 7)] = Ret e' /\
    time <$> cont (i_tsbuff e') = [80; 110; 120; 130].
Proof. eexists. split; vm_compute; reflexivity. Qed.

(** After a fetch the start of the period is counted from the present: for a
    period in the past it lies behind its end, and the copy runs around the
    buffer.  A request for the 5 seconds before 112 gets the values of the
    times 120, 130, 10 and 110, in this order. *)
Example fetch_time_past_period :
  exists st' e' vals, cache_fetch_time_cb full_db (Stats 0 0 0 0 0 0) ex_item (FetchReq 1 0 ITEM_VALUE_TYPE_UINT64 112 5) [] true 130 = Ret (st', e', vals, SUCCEED) /\
    vals.*1 = [120; 130; 10; 110].
Proof. eexists _, _, _. split; vm_compute; reflexivity. Qed.
