(* ===== verification/ValueCache.v ===== *)
(** * The interface of the item cache (src/libs/glb_state/glb_state_items.c)

    The functions the other parts of the server call: they run the callbacks
    of [ItemState] on the elements of the table, which is an [ElemsHash].
    Allocations succeed here; [now] is the clock.  The theorems compose the
    ring buffer, the element and the table: what is written to the cache is
    what is read from it, and no sequence of calls breaks an element. *)
From stdpp Require Import prelude list gmap strings.
From Stdlib Require Import ZArith Lia.
From S2P Require Import Prelude RingBuffer ElemsHash ItemState.
#[local] Open Scope Z_scope.

#[local] Abbreviation items := (gmap Z (eelem item_elem)).
#[local] Abbreviation answer := (list (Z * history_value)).

(** The element of an item seen for the first time. *)
Definition fresh (now : Z) : item_elem :=
  Item (Meta ITEM_STATE_UNKNOWN 0 0 0 None) (TsBuff GLB_CACHE_ITEM_MIN_VALUES 0 sizeof_item_value (zeroed VNone GLB_CACHE_ITEM_MIN_VALUES) (-1) (-1))
    (Demand 0 0 0 0 0 0) ITEM_VALUE_TYPE_NONE now ZBX_JAN_2038 0.

(** A callback that works on the data of an element. *)
Definition on_data {P} (f : item_elem -> P -> res (item_elem * P * option Z)) (el : eelem item_elem) (p : P) :
    res (eelem item_elem * P * option Z) :=
  '(d, p, r) ← f (e_data el) p; Ret (EElem (e_flags el) d, p, r).

(** [elems_hash_process] on an item, created when [flags] allow it. *)
Definition process_item {P} (f : item_elem -> P -> res (item_elem * P * option Z)) (t : items) (itemid : Z) (p : P) (flags now : Z) :
    res (items * P * option Z) :=
  elems_hash_process (on_data f) t itemid (fresh now) p flags.

(** The callbacks of [ItemState] in the form [elems_hash_process] runs them. *)
Definition run_set_error (error : option string) (now : Z) (e : item_elem) (p : unit) : res (item_elem * unit * option Z) :=
  e ← item_set_error_cb e error now; Ret (e, p, Some SUCCEED).
Definition run_add_value (h : dc_history) (now : Z) (e : item_elem) (p : unit) : res (item_elem * unit * option Z) :=
  '(e, r) ← add_value_cb e h true now; Ret (e, p, Some r).
Definition run_add_lld (h : dc_history) (uninit : list (ts_item variant)) (e : item_elem) (p : unit) : res (item_elem * unit * option Z) :=
  '(e, r) ← add_value_lld_cb e h true uninit; Ret (e, p, r).

Definition set_error_of (t : items) (itemid : Z) (error : option string) (now : Z) : res (items * option Z) :=
  '(t, _, r) ← process_item (run_set_error error now) t itemid tt 0 now; Ret (t, r).

Definition glb_state_item_set_error (t : items) (itemid : Z) (error : option string) (now : Z) : res (items * option Z) := set_error_of t itemid error now.

Fixpoint add_values_loop (t : items) (history : list dc_history) (ret : option Z) (now : Z) : res (items * option Z) :=
  match history with
  | [] => Ret (t, ret)
  | h :: history =>
      if h_state h =? ITEM_STATE_NOTSUPPORTED then
        match h_value h with
        | HErr (Some err) => '(t, _) ← set_error_of t (h_itemid h) (Some err) now; add_values_loop t history ret now
        | HErr None => add_values_loop t history ret now
        | _ => Halt BadAccess
        end
      else
        '(t, _, r) ← process_item (run_add_value h now) t (h_itemid h) tt 0 now;
        add_values_loop t history r now
  end.

Definition glb_state_item_add_values (t : items) (history : list dc_history) (now : Z) : res (items * option Z) :=
  add_values_loop t history (Some SUCCEED) now.

(** [uninit]: the memory of the one-value buffer. *)
Definition glb_state_item_add_lld_value (t : items) (itemid sec : Z) (value : string) (uninit : list (ts_item variant)) (now : Z) : res (items * option Z) :=
  let h := DcHistory itemid ITEM_VALUE_TYPE_TEXT (HStr (Some value)) 0 sec in
  '(t, _, r) ← process_item (run_add_lld h uninit) t itemid tt 0 now; Ret (t, r).

Section reading.
Variable glb_history_get_history : Z -> Z -> Z -> Z -> Z -> option (list history_record).

Definition run_fetch_count (req : fetch_req) (now : Z) (e : item_elem) (p : stats * answer) : res (item_elem * (stats * answer) * option Z) :=
  '(s, e, v, r) ← cache_fetch_count_cb glb_history_get_history p.1 e req p.2 true now; Ret (e, (s, v), Some r).
Definition run_fetch_time (req : fetch_req) (now : Z) (e : item_elem) (p : stats * answer) : res (item_elem * (stats * answer) * option Z) :=
  '(s, e, v, r) ← cache_fetch_time_cb glb_history_get_history p.1 e req p.2 true now; Ret (e, (s, v), Some r).

Definition glb_state_item_get_values (t : items) (st : stats) (itemid value_type : Z) (values : answer) (seconds count ts_head now : Z) :
    res (items * (stats * answer) * option Z) :=
  if count >? 0 then
    process_item (run_fetch_count (FetchReq itemid count value_type ts_head 0) now) t itemid (st, values) ELEM_FLAG_DO_NOT_CREATE now
  else
    process_item (run_fetch_time (FetchReq itemid 0 value_type ts_head seconds) now) t itemid (st, values) ELEM_FLAG_DO_NOT_CREATE now.

Definition zbx_vc_get_values (t : items) (st : stats) (itemid value_type : Z) (values : answer) (seconds count ts_sec now : Z) :
    res (items * (stats * answer) * option Z) :=
  glb_state_item_get_values t st itemid value_type values seconds count ts_sec now.

(** [None]: FAIL. *)
Definition zbx_vc_get_value (t : items) (st : stats) (itemid value_type ts_sec now : Z) : res (items * stats * option (Z * history_value)) :=
  '(t, (s, values), r) ← glb_state_item_get_values t st itemid value_type [] 0 1 ts_sec now;
  if negb (bool_decide (r = Some SUCCEED)) then Ret (t, s, None)
  else v ← of_opt BadAccess (zget values 0); Ret (t, s, Some v).

End reading.

(** ** The state of an item *)

Definition change (t : items) (itemid now : Z) (f : item_elem -> item_elem) : res (items * option Z) :=
  '(t, _, r) ← process_item (fun e _ => Ret (f e, tt, None)) t itemid tt 0 now; Ret (t, r).

Definition glb_state_item_update_nextcheck (t : items) (itemid nextcheck now : Z) := change t itemid now (fun e => item_update_nextcheck_cb e nextcheck).
Definition glb_state_items_set_poll_result (t : items) (itemid lastcheck laststate now : Z) := change t itemid now (fun e => set_item_poll_result e lastcheck laststate).
Definition glb_state_items_set_lastlogsize (t : items) (itemid size now : Z) := change t itemid now (fun e => set_lastlogsize_cb e size).

Definition glb_state_item_set_lastdata_by_metric (t : items) (itemid sec : Z) (error : option (option string)) (now : Z) : res (items * option Z) :=
  '(t, _, r) ← process_item (fun e _ => let '(e, r) := item_update_lastdata_cb e sec error in Ret (e, tt, Some r)) t itemid tt 0 now; Ret (t, r).

(** A read of the element; [FAIL] for an item that is not cached. *)
Definition read (t : items) (itemid : Z) (f : item_elem -> Z) : Z :=
  match t !! itemid with Some el => f (e_data el) | None => FAIL end.

Definition glb_state_item_get_nextcheck (t : items) (itemid : Z) : Z := read t itemid (fun e => m_nextcheck (i_meta e)).
Definition glb_state_item_get_valuetype (t : items) (itemid : Z) : Z := read t itemid i_value_type.
Definition glb_state_items_get_lastlogsize (t : items) (itemid : Z) : Z := read t itemid (fun e => m_lastlogsize (i_meta e)).
Definition glb_state_item_get_oper_state (t : items) (itemid : Z) : Z :=
  match t !! itemid with Some el => m_state (i_meta (e_data el)) | None => ITEM_STATE_UNKNOWN end.
Definition glb_state_item_get_error (t : items) (itemid : Z) : option string :=
  match t !! itemid with Some el => Some (default "" (m_error (i_meta (e_data el)))) | None => None end.

(** ** Removal and housekeeping *)

Fixpoint glb_state_items_remove (t : items) (itemids : list Z) : items :=
  match itemids with
  | [] => t
  | id :: itemids => glb_state_items_remove (elems_hash_delete t id).1 itemids
  end.

(** [clean_old_values] on an element; [n] counts the values dropped. *)
Definition clean_elem (clean_time : Z) (el : eelem item_elem) (n : Z) : res (eelem item_elem * Z * option Z) :=
  '(b, n) ← clean_old_values (S (Z.to_nat (ts_count (i_tsbuff (e_data el))))) (i_tsbuff (e_data el)) clean_time n;
  Ret (EElem (e_flags el) (set_tsbuff (e_data el) b), n, Some SUCCEED).

(** Returns the number of values that were dropped. *)
Definition glb_state_items_housekeep (t : items) (now : Z) : res (items * Z) :=
  let clean_time := now - GLB_CACHE_ITEMS_MAX_DURATION in
  '(t, n, _) ← elems_hash_iterate (fun _ => clean_elem clean_time) t 0;
  Ret (t, n).

(** ** Theory *)

#[local] Abbreviation cont := (contents VNone).

Definition table_ok (t : items) : Prop := forall id el, t !! id = Some el -> item_ok (e_data el).

Lemma fresh_ok now : item_ok (fresh now) /\ cont (i_tsbuff (fresh now)) = [].
Proof. split; [split; [by split|by intros ? ? ?|done]|done]. Qed.

(** The element the callback gets. *)
Definition current (t : items) (itemid now : Z) : item_elem := match t !! itemid with Some el => e_data el | None => fresh now end.

Lemma current_ok t id now : table_ok t -> item_ok (current t id now).
Proof. intros Ht. unfold current. destruct (t !! id) eqn:E; [by eapply Ht|apply fresh_ok]. Qed.

Lemma process_item_ok {P} (f : item_elem -> P -> res (item_elem * P * option Z)) t id p now e' p' r :
  f (current t id now) p = Ret (e', p', r) -> exists fl, process_item f t id p 0 now = Ret (<[id := EElem fl e']> t, p', r).
Proof.
  unfold current, process_item. intros E. destruct (t !! id) as [el|] eqn:Ht.
  - exists (e_flags el). apply (process_present _ _ _ _ el); [done|]. unfold on_data. by rewrite E.
  - exists 0. apply process_create; [done|]. unfold on_data. cbn [e_data]. by rewrite E.
Qed.

Lemma process_known {P} (f : item_elem -> P -> res (item_elem * P * option Z)) t id p fl now el e' p' r :
  t !! id = Some el -> f (e_data el) p = Ret (e', p', r) -> process_item f t id p fl now = Ret (<[id := EElem (e_flags el) e']> t, p', r).
Proof. intros Ht E. apply (process_present _ _ _ _ el); [done|]. unfold on_data. by rewrite E. Qed.

Lemma items_ok_insert t id fl e : table_ok t -> item_ok e -> table_ok (<[id := EElem fl e]> t).
Proof. intros Ht He i el. rewrite lookup_insert. case_decide; [intros [= <-]; done|apply Ht]. Qed.

(** A value that may be given to the cache. *)
Definition hist_ok (h : dc_history) : Prop :=
  if h_state h =? ITEM_STATE_NOTSUPPORTED then exists err, h_value h = HErr err
  else h_typed (h_value_type h) (h_value h) = true /\ time_ok (h_sec h).

Lemma set_error_ok t id err now : table_ok t -> exists t' r, set_error_of t id (Some err) now = Ret (t', r) /\ table_ok t'.
Proof.
  intros Ht. unfold set_error_of. destruct (process_item_ok (run_set_error (Some err) now) t id tt now _ _ _ eq_refl) as [fl ->].
  cbn [mbind res_mbind]. eexists _, _. split; [done|]. apply items_ok_insert; [done|]. by apply (item_ok_marks (current t id now)); [apply current_ok|..].
Qed.

Lemma add_one_ok t h now : table_ok t -> h_typed (h_value_type h) (h_value h) = true -> time_ok (h_sec h) ->
  exists e' r fl, add_value_cb (current t (h_itemid h) now) h true now = Ret (e', r) /\ item_ok e' /\
    process_item (run_add_value h now) t (h_itemid h) tt 0 now = Ret (<[h_itemid h := EElem fl e']> t, tt, Some r).
Proof.
  intros Ht Hty Hs. destruct (add_value_ok (current t (h_itemid h) now) h now (current_ok _ _ _ Ht) Hty Hs) as (e' & r & E & Hok & _).
  exists e', r. destruct (process_item_ok (run_add_value h now) t (h_itemid h) tt now e' tt (Some r)) as [fl E2]; [unfold run_add_value; by rewrite E|].
  exists fl. done.
Qed.

Lemma add_values_ok t history ret now : table_ok t -> Forall hist_ok history -> exists t' r, add_values_loop t history ret now = Ret (t', r) /\ table_ok t'.
Proof.
  intros Ht HF. revert t ret Ht. induction HF as [|h history Hh HF IH]; intros t ret Ht; cbn [add_values_loop]; [eauto|]. unfold hist_ok in Hh.
  destruct (h_state h =? ITEM_STATE_NOTSUPPORTED).
  - destruct Hh as [[err|] ->]; [|by apply IH]. destruct (set_error_ok t (h_itemid h) err now Ht) as (t' & r & -> & Ht'). cbn [mbind res_mbind]. by apply IH.
  - destruct Hh as [Hty Hs]. destruct (add_one_ok t h now Ht Hty Hs) as (e' & r & fl & _ & Hok & ->). cbn [mbind res_mbind]. apply IH. by apply items_ok_insert.
Qed.

Lemma add_lld_table_ok t id sec value uninit now : table_ok t -> zlen uninit = 1 -> time_ok sec ->
  exists t' r, glb_state_item_add_lld_value t id sec value uninit now = Ret (t', r) /\ table_ok t'.
Proof.
  intros Ht Hu Hs. unfold glb_state_item_add_lld_value. set (h := DcHistory _ _ _ _ _).
  destruct (add_lld_ok (current t id now) h uninit (current_ok _ _ _ Ht) Hu eq_refl Hs) as (e' & E & Hok & _).
  destruct (process_item_ok (run_add_lld h uninit) t id tt now e' tt None) as [fl ->]; [unfold run_add_lld; by rewrite E|].
  cbn [mbind res_mbind]. eexists _, _. split; [done|]. by apply items_ok_insert.
Qed.

Lemma change_ok t id now f : table_ok t -> (forall e, i_tsbuff (f e) = i_tsbuff e /\ i_value_type (f e) = i_value_type e) ->
  exists t' r, change t id now f = Ret (t', r) /\ table_ok t'.
Proof.
  intros Ht Hf. unfold change. destruct (process_item_ok (P := unit) (fun e _ => Ret (f e, tt, None)) t id tt now _ _ _ eq_refl) as [fl ->].
  cbn [mbind res_mbind]. eexists _, _. split; [done|]. apply items_ok_insert; [done|]. destruct (Hf (current t id now)). by apply (item_ok_marks (current t id now)); [apply current_ok|..].
Qed.

Lemma remove_lookup t ids id : glb_state_items_remove t ids !! id = if decide (id ∈ ids) then None else t !! id.
Proof.
  revert t. induction ids as [|i ids IH]; intros t; cbn [glb_state_items_remove]; [done|]. rewrite IH. unfold elems_hash_delete, delete_element.
  destruct (t !! i) eqn:Ei; cbn; destruct (decide (id ∈ ids)) as [H1|H1], (decide (id ∈ i :: ids)) as [H2|H2]; rewrite ?elem_of_cons in H2; try tauto.
  - destruct H2; [subst|tauto]. by rewrite lookup_delete_eq.
  - rewrite lookup_delete_ne; [done|]. intros ->. tauto.
  - destruct H2; [by subst|tauto].
Qed.

(** The values that are left of an item. *)
Definition recent (clean_time : Z) (el : eelem item_elem) : list (ts_item variant) := filter (fun x => clean_time <= time x) (cont (i_tsbuff (e_data el))).

(** [el'] is [el] without the values before [ct]. *)
Definition cleaned (ct : Z) (el el' : eelem item_elem) : Prop :=
  item_ok (e_data el') /\ cont (i_tsbuff (e_data el')) = recent ct el /\ same_item (e_data el) (e_data el') /\ i_demand (e_data el') = i_demand (e_data el).

Lemma clean_elem_ok ct el n : item_ok (e_data el) ->
  exists el' k, clean_elem ct el n = Ret (el', n + k, Some SUCCEED) /\ 0 <= k /\ cleaned ct el el'.
Proof.
  intros Hok. pose proof Hok as [W S V]. pose proof (wf_count _ W).
  destruct (clean_ok (Datatypes.S (Z.to_nat (ts_count (i_tsbuff (e_data el))))) (i_tsbuff (e_data el)) ct W S) as (b & E & Wb & Cb & j & Kb); [lia|].
  unfold clean_elem. rewrite E. cbn [mbind res_mbind]. eexists _, _. split; [done|]. split.
  - rewrite Cb. pose proof (length_filter (fun x : ts_item variant => ct <= time x) (cont (i_tsbuff (e_data el)))). unfold zlen. lia.
  - split_and!; try done. split; cbn; [done| |].
    + rewrite Kb. by apply ts_sorted_drop.
    + rewrite Kb. by apply Forall_drop.
Qed.

Lemma clean_ids_ok ct ids t n c : NoDup ids -> (forall id, id ∈ ids -> is_Some (t !! id)) -> table_ok t ->
  exists t' n' c', iterate_ids (fun _ => clean_elem ct) ids t n c = Ret (t', n', c') /\ n <= n' /\ table_ok t' /\
    forall id, if decide (id ∈ ids) then exists el el', t !! id = Some el /\ t' !! id = Some el' /\ cleaned ct el el' else t' !! id = t !! id.
Proof.
  revert t n c. induction ids as [|i ids IH]; intros t n c ND Hin Ht; cbn [iterate_ids].
  { exists t, n, c. split_and!; try done; lia. }
  apply NoDup_cons in ND as [Hi ND]. destruct (Hin i) as [el Hel]; [by left|]. rewrite Hel. cbn [mbind res_mbind of_opt].
  destruct (clean_elem_ok ct el n (Ht _ _ Hel)) as (el' & k & -> & Hk & Hc). cbn [mbind res_mbind]. pose proof Hc as [Hok _].
  destruct (IH (<[i := el']> t) (n + k) (c + 1) ND) as (t' & n' & c' & -> & Hn & Ht' & Hl).
  - intros id Hid. rewrite lookup_insert. case_decide; [done|]. apply Hin. by right.
  - destruct el'. by apply items_ok_insert.
  - exists t', n', c'. split; [done|]. split; [lia|]. split; [done|]. intros id. specialize (Hl id). destruct (decide (id ∈ ids)) as [H1|H1].
    + rewrite decide_True by (by right). destruct Hl as (a & a' & Ha & Hrest). rewrite lookup_insert_ne in Ha by congruence. by exists a, a'.
    + destruct (decide (id ∈ i :: ids)) as [H2|H2]; rewrite elem_of_cons in H2.
      * destruct H2 as [->|]; [|tauto]. rewrite lookup_insert_eq in Hl. by exists el, el'.
      * rewrite lookup_insert_ne in Hl by (intros ->; tauto). done.
Qed.

Lemma housekeep_ok t now : table_ok t ->
  exists t' n, glb_state_items_housekeep t now = Ret (t', n) /\ 0 <= n /\ table_ok t' /\
    forall id, match t !! id, t' !! id with
      | Some el, Some el' => cleaned (now - GLB_CACHE_ITEMS_MAX_DURATION) el el'
      | None, None => True
      | _, _ => False
      end.
Proof.
  intros Ht. unfold glb_state_items_housekeep, elems_hash_iterate. set (ct := now - _).
  destruct (clean_ids_ok ct (map_to_list t).*1 t 0 0 (keys_nodup t)) as (t' & n & c & -> & Hn & Ht' & Hl); [intros id; by apply elem_of_keys|done|].
  cbn [mbind res_mbind]. exists t', n. split_and!; try done. intros id. specialize (Hl id). destruct (decide _) as [H1|H1].
  - destruct Hl as (el & el' & -> & -> & Hc). done.
  - rewrite Hl. destruct (t !! id) eqn:E; [|done]. destruct H1. apply elem_of_keys. by rewrite E.
Qed.

(** ** Sequences of calls *)

Inductive cache_op :=
  | OpAdd (history : list dc_history)
  | OpLld (itemid sec : Z) (value : string) (uninit : list (ts_item variant))
  | OpGet (itemid value_type seconds count ts_head : Z)
  | OpNextcheck (itemid nextcheck : Z)
  | OpLastdata (itemid sec : Z) (error : option (option string))
  | OpError (itemid : Z) (error : option string)
  | OpPollResult (itemid lastcheck laststate : Z)
  | OpLastlogsize (itemid size : Z)
  | OpRemove (itemids : list Z)
  | OpHousekeep.

(** What the callers have to keep to: values with the members of their type
    set and times the buffer can hold, messages that are not NULL, requests by
    time that reach the present. *)
Definition op_ok (now : Z) (o : cache_op) : Prop :=
  match o with
  | OpAdd history => Forall hist_ok history
  | OpLld _ sec _ uninit => time_ok sec /\ zlen uninit = 1
  | OpGet _ _ seconds count ts_head => count > 0 \/ (0 <= seconds /\ now - seconds <= ts_head)
  | OpError _ error => is_Some error
  | _ => True
  end.

Section calls.
Variable db : Z -> Z -> Z -> Z -> Z -> option (list history_record).

Definition apply_op (now : Z) (o : cache_op) (t : items) (st : stats) : res (items * stats) :=
  match o with
  | OpAdd history => '(t, _) ← glb_state_item_add_values t history now; Ret (t, st)
  | OpLld itemid sec value uninit => '(t, _) ← glb_state_item_add_lld_value t itemid sec value uninit now; Ret (t, st)
  | OpGet itemid vt seconds count ts_head => '(t, (s, _), _) ← glb_state_item_get_values db t st itemid vt [] seconds count ts_head now; Ret (t, s)
  | OpNextcheck itemid x => '(t, _) ← glb_state_item_update_nextcheck t itemid x now; Ret (t, st)
  | OpLastdata itemid sec error => '(t, _) ← glb_state_item_set_lastdata_by_metric t itemid sec error now; Ret (t, st)
  | OpError itemid error => '(t, _) ← glb_state_item_set_error t itemid error now; Ret (t, st)
  | OpPollResult itemid a b => '(t, _) ← glb_state_items_set_poll_result t itemid a b now; Ret (t, st)
  | OpLastlogsize itemid n => '(t, _) ← glb_state_items_set_lastlogsize t itemid n now; Ret (t, st)
  | OpRemove ids => Ret (glb_state_items_remove t ids, st)
  | OpHousekeep => '(t, _) ← glb_state_items_housekeep t now; Ret (t, st)
  end.

Fixpoint run (ops : list (Z * cache_op)) (t : items) (st : stats) : res (items * stats) :=
  match ops with
  | [] => Ret (t, st)
  | (now, o) :: ops => '(t, st) ← apply_op now o t st; run ops t st
  end.

Hypothesis db_typed : forall itemid vt from count to values, db itemid vt from count to = Some values -> Forall (record_ok vt) values.

Lemma get_values_ok t st itemid vt values seconds count ts_head now : table_ok t -> count > 0 \/ (0 <= seconds /\ now - seconds <= ts_head) ->
  exists t' st' vals r, glb_state_item_get_values db t st itemid vt values seconds count ts_head now = Ret (t', (st', vals), r) /\ table_ok t'.
Proof using db_typed.
  intros Ht Hc. unfold glb_state_item_get_values. destruct (t !! itemid) as [el|] eqn:E.
  2: { unfold process_item. rewrite !process_absent by done. case_match; by eexists _, _, _, _. }
  destruct (Z.gtb_spec count 0) as [H0|H0].
  - set (req := FetchReq itemid count vt ts_head 0). destruct (fetch_count_ok db db_typed st req values now ltac:(cbn; lia) (e_data el) (Ht _ _ E)) as (s & e' & vals & r & Ef & Hok & _).
    rewrite (process_known (run_fetch_count db req now) t itemid (st, values) _ now el e' (s, vals) (Some r) E) by (unfold run_fetch_count; cbn [fst snd]; by rewrite Ef).
    eexists _, _, _, _. split; [done|]. by apply items_ok_insert.
  - set (req := FetchReq itemid 0 vt ts_head seconds). destruct (fetch_time_ok db db_typed req values now st (e_data el) (Ht _ _ E)) as (s & e' & vals & r & Ef & Hok & _); [cbn; lia|cbn; lia|].
    rewrite (process_known (run_fetch_time db req now) t itemid (st, values) _ now el e' (s, vals) (Some r) E) by (unfold run_fetch_time; cbn [fst snd]; by rewrite Ef).
    eexists _, _, _, _. split; [done|]. by apply items_ok_insert.
Qed.

Lemma apply_op_ok now o t st : table_ok t -> op_ok now o -> exists t' st', apply_op now o t st = Ret (t', st') /\ table_ok t'.
Proof using db_typed.
  intros Ht Ho. destruct o; cbn [apply_op op_ok] in *.
  - destruct (add_values_ok t history (Some SUCCEED) now Ht Ho) as (t' & r & E & Ht'). unfold glb_state_item_add_values. rewrite E. cbn. eauto.
  - destruct Ho as [Hs Hu]. destruct (add_lld_table_ok t itemid sec value uninit now Ht Hu Hs) as (t' & r & -> & Ht'). cbn. eauto.
  - destruct (get_values_ok t st itemid value_type [] seconds count ts_head now Ht Ho) as (t' & s & v & r & -> & Ht'). cbn. eauto.
  - destruct (change_ok t itemid now (fun e => item_update_nextcheck_cb e nextcheck) Ht) as (t' & r & E & Ht'); [done|]. unfold glb_state_item_update_nextcheck. rewrite E. cbn. eauto.
  - unfold glb_state_item_set_lastdata_by_metric. set (f := fun e (_ : unit) => _).
    destruct (item_update_lastdata_cb (current t itemid now) sec error) as [e' r] eqn:E.
    destruct (process_item_ok f t itemid tt now e' tt (Some r)) as [fl ->]; [unfold f; by rewrite E|]. cbn. eexists _, _. split; [done|]. apply items_ok_insert; [done|].
    unfold item_update_lastdata_cb in E. apply (item_ok_marks (current t itemid now)); [by apply current_ok|..]; repeat case_match; by injection E as <- _.
  - destruct Ho as [err ->]. destruct (set_error_ok t itemid err now Ht) as (t' & r & E & Ht'). unfold glb_state_item_set_error. rewrite E. cbn. eauto.
  - destruct (change_ok t itemid now (fun e => set_item_poll_result e lastcheck laststate) Ht) as (t' & r & E & Ht'); [done|]. unfold glb_state_items_set_poll_result. rewrite E. cbn. eauto.
  - destruct (change_ok t itemid now (fun e => set_lastlogsize_cb e size) Ht) as (t' & r & E & Ht'); [done|]. unfold glb_state_items_set_lastlogsize. rewrite E. cbn. eauto.
  - eexists _, _. split; [done|]. intros id el. rewrite remove_lookup. case_decide; [done|apply Ht].
  - destruct (housekeep_ok t now Ht) as (t' & n & -> & _ & Ht' & _). cbn. eauto.
Qed.

(** C26: Take any sequence of calls of the item cache from an empty cache on that
    keeps to [op_ok]: the values added have the member of their type set and a
    time after 0 and before 2038, values and errors that are not supported
    carry a message, and values are asked for by count, or for a number of
    seconds that is not negative and reaches from the present back to
    [ts_head] ([now - seconds <= ts_head]; for what happens with earlier periods
    see [fetch_time_past_period]).  With a history
    storage that returns values of the type asked for, and memory for every
    allocation, no call accesses memory it may not, exits or loops: all of them
    return, and every element holds a well-formed buffer with values sorted by
    time and of the type of the item. *)
Theorem item_cache_safe ops st :
  Forall (fun o => op_ok o.1 o.2) ops -> exists t st', run ops ∅ st = Ret (t, st') /\ table_ok t.
Proof using db_typed.
  intros HF. assert (Ht : table_ok ∅) by (intros id el; by rewrite lookup_empty). revert Ht. generalize (∅ : items). revert st.
  induction HF as [|[now o] ops Ho HF IH]; intros st t Ht; [by exists t, st|]. cbn [run].
  destruct (apply_op_ok now o t st Ht Ho) as (t' & st' & -> & Ht'). cbn [mbind res_mbind]. by apply IH.
Qed.

(** ** Reading back what was added *)

Lemma ends_at_newest (l : list (ts_item variant)) x t p : time x < t -> ends_at (l ++ [x]) t p -> p = zlen l.
Proof using.
  intros Hx (Hp & _ & Hq). unfold zlen in *. rewrite length_app in Hp. cbn in Hp. destruct (Z.eq_dec p (Z.of_nat (length l))) as [|Hne]; [done|].
  specialize (Hq (length l) x ltac:(lia)). rewrite list_lookup_middle in Hq by done. specialize (Hq eq_refl). lia.
Qed.

Lemma last_ends_at (l : list (ts_item variant)) x t : time x < t -> ends_at (l ++ [x]) t (zlen l).
Proof using.
  intros Hx. unfold ends_at, zlen. rewrite length_app. cbn. split; [lia|]. rewrite Nat2Z.id. split.
  - intros y. rewrite list_lookup_middle by done. intros [= <-]. lia.
  - intros q y Hq Hy. apply lookup_lt_Some in Hy. rewrite length_app in Hy. cbn in Hy. lia.
Qed.

(** C24: A value that the cache has accepted is the one it returns: after
    [glb_state_item_add_values] returned SUCCEED for a value, the request for
    the last value before any later time is answered from the cache, without
    the storage, with the time and the contents of that value (an empty
    message for a log record without one), and leaves the cache as it is. *)
Theorem item_cache_read_back t h now t' ts st now' :
  table_ok t -> h_typed (h_value_type h) (h_value h) = true -> time_ok (h_sec h) -> h_state h = ITEM_STATE_NORMAL ->
  glb_state_item_add_values t [h] now = Ret (t', Some SUCCEED) -> h_sec h < ts ->
  zbx_vc_get_value db t' st (h_itemid h) (h_value_type h) ts now' =
    Ret (t', count_hit (count_request st), Some (h_sec h, match h_value h with HLog None => HLog (Some "") | v => v end)).
Proof using db_typed.
  intros Ht Hty Hs Hst Hadd Hlt. unfold glb_state_item_add_values in Hadd. cbn [add_values_loop] in Hadd. rewrite Hst in Hadd. cbn [Z.eqb] in Hadd.
  change (ITEM_STATE_NORMAL =? ITEM_STATE_NOTSUPPORTED) with false in Hadd. cbv iota in Hadd.
  destruct (add_value_ok (current t (h_itemid h) now) h now (current_ok _ _ _ Ht) Hty Hs) as (e & r & E & Hok & Hres).
  destruct (process_item_ok (run_add_value h now) t (h_itemid h) tt now e tt (Some r)) as [fl E2]; [unfold run_add_value; by rewrite E|].
  rewrite E2 in Hadd. cbn [mbind res_mbind] in Hadd. injection Hadd as <- ->. rewrite Hst in Hres. change (negb (ITEM_STATE_NORMAL =? ITEM_STATE_NORMAL)) with false in Hres. cbv iota in Hres.
  destruct Hres as (Hvt & l & _ & [(_ & _ & _ & Hc)|(Hf & _)]); [|done]. set (x := TsItem _ _) in Hc.
  unfold zbx_vc_get_value, glb_state_item_get_values. change (1 >? 0) with true. cbv iota. set (req := FetchReq _ 1 _ ts 0).
  destruct (fetch_count_ok db db_typed st req [] now' ltac:(done) e Hok) as (s & e' & vals & r & Ef & _ & _ & Hans & _ & Hhit).
  destruct Hhit as (-> & -> & ->); [done|exists (zlen l); rewrite Hc; by apply last_ends_at|intros p [Hp _]; cbn; lia|].
  rewrite (process_known (run_fetch_count db req now') _ (h_itemid h) (st, []) _ now' (EElem fl e) e (count_hit (count_request st), vals) (Some SUCCEED))
    by (rewrite ?lookup_insert_eq; unfold run_fetch_count; cbn [e_data fst snd]; rewrite ?Ef; done).
  cbn [mbind res_mbind]. rewrite bool_decide_true by done. cbn [negb]. destruct Hans as [(_ & p & Hp & _ & ->)|[? _]]; [|done].
  rewrite Hc in Hp |- *. pose proof (ends_at_newest l x ts p Hlt Hp) as ->. cbn [q_count req].
  assert (segment (l ++ [x]) (zlen l + 1 - 1) (zlen l) = [x]) as ->.
  { unfold segment. replace (Z.to_nat (zlen l + 1 - (zlen l + 1 - 1))) with 1%nat by lia. replace (Z.to_nat (zlen l + 1 - 1)) with (length l) by (unfold zlen; lia). by rewrite drop_app_length. }
  cbn [answers fmap list_fmap zget of_opt mbind res_mbind]. rewrite insert_insert_eq, Hvt. cbn [e_flags].
  change (payload x) with (value_of (h_value h)). rewrite (hist_round_trip _ _ Hty). cbn. do 3 f_equal. f_equal. by destruct (h_value h) as [| | |[]|].
Qed.

End calls.

(** Housekeeping returns and drops, in every item, exactly the values older
    than the greatest duration of the cache. *)
Theorem item_cache_housekeep t now :
  table_ok t ->
  exists t' n, glb_state_items_housekeep t now = Ret (t', n) /\ 0 <= n /\ table_ok t' /\
    forall id, match t !! id, t' !! id with
      | Some el, Some el' => cleaned (now - GLB_CACHE_ITEMS_MAX_DURATION) el el'
      | None, None => True
      | _, _ => False
      end.
Proof. apply housekeep_ok. Qed.

(** ** Witnesses *)

Definition ex_table : items := {[ 1 := EElem 0 ex_item ]}.

Lemma ex_table_ok : table_ok ex_table.
Proof. unfold ex_table. intros id el [<- <-]%lookup_singleton_Some. apply ex_item_ok. Qed.

Lemma item_cache_safe_witness :
  exists t st', run ex_db [(150, OpAdd [ex_value]); (160, OpGet 1 ITEM_VALUE_TYPE_UINT64 100 0 155); (170, OpHousekeep)] ∅ (Stats 0 0 0 0 0 0) = Ret (t, st') /\ table_ok t.
Proof.
  apply (item_cache_safe ex_db ex_db_typed). constructor; [|constructor; [|constructor; [|constructor]]]; cbn; [|right; lia|done].
  constructor; [|constructor]. by split.
Defined.

Lemma item_cache_read_back_witness :
  exists t', glb_state_item_add_values ex_table [ex_value] 150 = Ret (t', Some SUCCEED) /\
    zbx_vc_get_value ex_db t' (Stats 0 0 0 0 0 0) 1 ITEM_VALUE_TYPE_UINT64 160 170 = Ret (t', Stats 1 1 0 0 0 0, Some (140, HUi64 7)).
Proof.
  eexists. split; [vm_compute; reflexivity|].
  apply (item_cache_read_back ex_db ex_db_typed ex_table ex_value 150 _ 160 (Stats 0 0 0 0 0 0) 170 ex_table_ok); try done.
Defined.

Lemma item_cache_housekeep_witness : exists t' n, glb_state_items_housekeep ex_table 200000 = Ret (t', n) /\ table_ok t'.
Proof. destruct (item_cache_housekeep ex_table 200000 ex_table_ok) as (t' & n & E & _ & Ht & _). exists t', n. exact (conj E Ht). Defined.
