(* ===== verification/JsonText.v ===== *)
(** * Characters and strings of JSON texts (src/libs/zbxjson/json.c)

    A C string is the list of its bytes before the terminating NUL; a pointer
    into it is the list of the bytes from there on, so that [*p] is [deref p]
    and the difference of two pointers the difference of the lengths.  Bytes
    are unsigned: the code compares characters with constants below 128, where
    this is no difference.

    The file has the escaping of strings on output, the decoding of escape
    sequences on input, and [raw_text], which says what bytes the text
    between two quotes stands for. *)
From stdpp Require Import prelude list.
From Stdlib Require Import ZArith Lia.
From S2P Require Import Prelude.
#[local] Open Scope Z_scope.

Abbreviation QUOT := 34.
Abbreviation COMMA := 44.
Abbreviation COLON := 58.
Abbreviation BSL := 92.
Abbreviation LSQ := 91.
Abbreviation RSQ := 93.
Abbreviation LBR := 123.
Abbreviation RBR := 125.

Inductive zbx_json_type_t :=
  | ZBX_JSON_TYPE_UNKNOWN | ZBX_JSON_TYPE_STRING | ZBX_JSON_TYPE_INT | ZBX_JSON_TYPE_ARRAY | ZBX_JSON_TYPE_OBJECT
  | ZBX_JSON_TYPE_NULL | ZBX_JSON_TYPE_TRUE | ZBX_JSON_TYPE_FALSE | ZBX_JSON_TYPE_NUMBER.

#[export] Instance json_type_eq_dec : EqDecision zbx_json_type_t.
Proof. solve_decision. Defined.

(** [*p]; the end of the list is the terminating NUL. *)
Definition deref (p : list Z) : Z := match p with c :: _ => c | [] => 0 end.

(** [ptr - start] for a pointer into the string at [start]. *)
Definition ptr_diff (ptr start : list Z) : Z := zlen start - zlen ptr.

(** [NULL != strchr(ZBX_WHITESPACE, c)] for a character that is not NUL. *)
Definition is_ws (c : Z) : bool := (c =? 32) || (c =? 9) || (c =? 13) || (c =? 10).

Fixpoint skip_whitespace (src : list Z) : list Z :=
  match src with
  | c :: rest => if is_ws c then skip_whitespace rest else src
  | [] => []
  end.

(** ** Output *)

Definition is_string (type : zbx_json_type_t) : bool :=
  match type with ZBX_JSON_TYPE_STRING => true | _ => false end.

(** The text "null". *)
Definition null_text : list Z := [110; 117; 108; 108].

Definition char_size (c : Z) : Z :=
  if (c =? QUOT) || (c =? BSL) || (c =? 8) || (c =? 12) || (c =? 10) || (c =? 13) || (c =? 9) then 2
  else if c <=? 0x1f then 6 else 1.

Definition zbx_json_stringsize (string : option (list Z)) (type : zbx_json_type_t) : Z :=
  let len := fold_left (fun len c => len + char_size c) (default null_text string) 0 in
  match string with
  | Some _ => if is_string type then len + 2 else len
  | None => len
  end.

Definition zbx_num2hex (c : Z) : Z := if c >=? 10 then c + 0x57 else c + 0x30.

(** The characters stored for one character of the string. *)
Definition ins_char (c : Z) : list Z :=
  if c =? QUOT then [BSL; QUOT]
  else if c =? BSL then [BSL; BSL]
  else if c =? 8 then [BSL; 98]
  else if c =? 12 then [BSL; 102]
  else if c =? 10 then [BSL; 110]
  else if c =? 13 then [BSL; 114]
  else if c =? 9 then [BSL; 116]
  else if c <=? 0x1f then [BSL; 117; 48; 48; zbx_num2hex (Z.land (Z.shiftr c 4) 0xf); zbx_num2hex (Z.land c 0xf)]
  else [c].

(** What [__zbx_json_insstring] stores from [p] on. *)
Definition zbx_json_insstring (string : option (list Z)) (type : zbx_json_type_t) : list Z :=
  let text := concat (ins_char <$> default null_text string) in
  match string with
  | Some _ => if is_string type then QUOT :: text ++ [QUOT] else text
  | None => text
  end.

(** A buffer of [size + 1] bytes is filled and replaces the string. *)
Definition zbx_json_escape (string : list Z) : res (list Z) :=
  let size := zbx_json_stringsize (Some string) ZBX_JSON_TYPE_UNKNOWN in
  if size =? 0 then Ret string
  else
    let text := zbx_json_insstring (Some string) ZBX_JSON_TYPE_UNKNOWN in
    if zlen text =? size then Ret text else Halt BadAccess.

(** ** Input *)

Definition isdigit (c : Z) : bool := (48 <=? c) && (c <=? 57).
Definition isxdigit (c : Z) : bool := isdigit c || (65 <=? c) && (c <=? 70) || (97 <=? c) && (c <=? 102).

Definition zbx_is_valid_json_hex (p : list Z) : bool :=
  match p with
  | a :: b :: c :: d :: _ => isxdigit a && isxdigit b && isxdigit c && isxdigit d
  | _ => false
  end.

Definition zbx_hex2num (c : Z) : Z :=
  if c >=? 97 then c - 97 + 10 else if c >=? 65 then c - 65 + 10 else c - 48.

(** The four digits at [p] and the pointer after them. *)
Definition hex_number (p : list Z) : option (Z * list Z) :=
  if zbx_is_valid_json_hex p then
    match p with
    | a :: b :: c :: d :: p =>
        Some (Z.shiftl (zbx_hex2num a) 12 + Z.shiftl (zbx_hex2num b) 8 + Z.shiftl (zbx_hex2num c) 4 + zbx_hex2num d, p)
    | _ => None
    end
  else None.

(** The characters of the two-character escape sequences; 0 for others. *)
Definition simple_escape (c : Z) : Z :=
  if c =? QUOT then QUOT else if c =? BSL then BSL else if c =? 47 then 47 else if c =? 98 then 8
  else if c =? 102 then 12 else if c =? 110 then 10 else if c =? 114 then 13 else if c =? 116 then 9 else 0.

(** The bytes and the new [*p]; [None] when the function returns 0.  [p] is
    behind the backslash. *)
Definition zbx_json_decode_character (p : list Z) : option (list Z * list Z) :=
  let c := simple_escape (deref p) in
  if negb (c =? 0) then Some ([c], drop 1 p)
  else if deref p =? 117 then
    '(num, p) ← hex_number (drop 1 p);
    if 0x007f >=? num then Some ([num], p)
    else if 0x07ff >=? num then
      Some ([Z.lor 0xc0 (Z.land (Z.shiftr num 6) 0x1f); Z.lor 0x80 (Z.land num 0x3f)], p)
    else if (0xd7ff >=? num) || (0xe000 <=? num) then
      Some ([Z.lor 0xe0 (Z.land (Z.shiftr num 12) 0x0f); Z.lor 0x80 (Z.land (Z.shiftr num 6) 0x3f);
             Z.lor 0x80 (Z.land num 0x3f)], p)
    else if (0xd800 <=? num) && (num <=? 0xdbff) then
      if negb (deref p =? BSL) || negb (deref (drop 1 p) =? 117) then None
      else
        '(num_lo, p) ← hex_number (drop 2 p);
        if (num_lo <? 0xdc00) || (0xdfff <? num_lo) then None
        else
          let uc := 0x010000 + Z.shiftl (Z.land num 0x03ff) 10 + Z.land num_lo 0x03ff in
          Some ([Z.lor 0xf0 (Z.land (Z.shiftr uc 18) 0x07); Z.lor 0x80 (Z.land (Z.shiftr uc 12) 0x3f);
                 Z.lor 0x80 (Z.land (Z.shiftr uc 6) 0x3f); Z.lor 0x80 (Z.land uc 0x3f)], p)
    else None
  else None.

(** [out] is what has been stored; [while ('\0' != *p)]. *)
Fixpoint copy_loop (fuel : nat) (p out : list Z) (size : Z) : res (option (list Z * list Z)) :=
  match fuel with
  | O => Halt OutOfFuel
  | S fuel =>
      match p with
      | [] => Ret None
      | c :: p' =>
          if c =? BSL then
            match zbx_json_decode_character p' with
            | None => Ret None
            | Some (uc, p) =>
                if zlen out + zlen uc >=? size then Ret None
                else if zlen (out ++ uc) =? size then Ret None
                else copy_loop fuel p (out ++ uc) size
            end
          else if zlen out >=? size then Halt BadAccess
          else if c =? QUOT then Ret (Some (out, p'))
          else if zlen (out ++ [c]) =? size then Ret None
          else copy_loop fuel p' (out ++ [c]) size
      end
  end.

(** The string stored in [out] and the returned pointer. *)
Definition json_copy_string (p : list Z) (size : Z) : res (option (list Z * list Z)) :=
  if size =? 0 then Ret None else copy_loop (S (length p)) (drop 1 p) [] size.

(** ** What a text stands for *)

(** The UTF-8 encoding of a code point. *)
Definition utf8 (n : Z) : list Z :=
  if n <? 0x80 then [n]
  else if n <? 0x800 then [0xc0 + n / 64; 0x80 + n mod 64]
  else if n <? 0x10000 then [0xe0 + n / 4096; 0x80 + n / 64 mod 64; 0x80 + n mod 64]
  else [0xf0 + n / 262144; 0x80 + n / 4096 mod 64; 0x80 + n / 64 mod 64; 0x80 + n mod 64].

(** Four hexadecimal digits and their value. *)
Inductive hex4 : list Z -> Z -> Prop :=
  | Hex4 a b c d :
      isxdigit a = true -> isxdigit b = true -> isxdigit c = true -> isxdigit d = true ->
      hex4 [a; b; c; d] (zbx_hex2num a * 4096 + zbx_hex2num b * 256 + zbx_hex2num c * 16 + zbx_hex2num d).

(** The text of an escape sequence behind the backslash and its bytes. *)
Inductive escape_text : list Z -> list Z -> Prop :=
  | esc_simple c : simple_escape c <> 0 -> escape_text [c] [simple_escape c]
  | esc_unicode h n : hex4 h n -> n < 0xd800 \/ 0xe000 <= n -> escape_text (117 :: h) (utf8 n)
  | esc_pair h1 n1 h2 n2 :
      hex4 h1 n1 -> 0xd800 <= n1 < 0xdc00 -> hex4 h2 n2 -> 0xdc00 <= n2 < 0xe000 ->
      escape_text (117 :: h1 ++ BSL :: 117 :: h2) (utf8 (0x10000 + (n1 - 0xd800) * 1024 + (n2 - 0xdc00))).

(** The text between the quotes of a string and its bytes. *)
Inductive raw_text : list Z -> list Z -> Prop :=
  | raw_nil : raw_text [] []
  | raw_plain c r d : c <> QUOT -> c <> BSL -> 0x1f < c -> raw_text r d -> raw_text (c :: r) (c :: d)
  | raw_escape e u r d : escape_text e u -> raw_text r d -> raw_text (BSL :: e ++ r) (u ++ d).

(** ** Theory *)

Lemma hex2num_range c : isxdigit c = true -> 0 <= zbx_hex2num c < 16.
Proof.
  unfold isxdigit, isdigit, zbx_hex2num. intros H. unbool.
  repeat case_match; unbool; lia.
Qed.

Lemma hex4_range h n : hex4 h n -> 0 <= n < 0x10000 /\ length h = 4%nat.
Proof. intros [a b c d Ha%hex2num_range Hb%hex2num_range Hc%hex2num_range Hd%hex2num_range]. split; [lia|done]. Qed.

Lemma hex_number_complete h n p : hex4 h n -> hex_number (h ++ p) = Some (n, p).
Proof.
  intros [a b c d Ha Hb Hc Hd]. cbn. unfold hex_number, zbx_is_valid_json_hex. rewrite Ha, Hb, Hc, Hd. cbn [andb].
  rewrite !Z.shiftl_mul_pow2 by lia. do 2 f_equal; lia.
Qed.

Lemma hex_number_sound p n p' : hex_number p = Some (n, p') -> exists h, p = h ++ p' /\ hex4 h n.
Proof.
  unfold hex_number, zbx_is_valid_json_hex. destruct p as [|a [|b [|c [|d p]]]]; try done.
  destruct (isxdigit a) eqn:Ha, (isxdigit b) eqn:Hb, (isxdigit c) eqn:Hc, (isxdigit d) eqn:Hd; try done. cbn [andb].
  intros [= <- <-]. exists [a; b; c; d]. split; [done|]. rewrite !Z.shiftl_mul_pow2 by lia. by constructor.
Qed.

(** The bit operations of the decoder compute UTF-8. *)
Lemma low_bits n k : 0 <= k -> Z.land n (2 ^ k - 1) = n mod 2 ^ k.
Proof. intros Hk. replace (2 ^ k - 1) with (Z.ones k) by (rewrite Z.ones_equiv; lia). by apply Z.land_ones. Qed.

Lemma mark_bits m k a : 0 <= k -> (2 ^ k | m) -> 0 <= a < 2 ^ k -> Z.lor m a = m + a.
Proof. intros Hk Hm Ha. rewrite Z.lor_comm, (lor_add k) by done. lia. Qed.

Lemma cont_byte n : Z.lor 0x80 (Z.land n 0x3f) = 0x80 + n mod 64.
Proof.
  change 0x3f with (2 ^ 6 - 1). rewrite low_bits by lia. apply (mark_bits _ 6); [lia|by exists 2|]. apply Z.mod_pos_bound. lia.
Qed.

Lemma lead_byte m k n : 0 <= k -> (2 ^ k | m) -> 0 <= n < 2 ^ k -> Z.lor m (Z.land n (2 ^ k - 1)) = m + n.
Proof. intros Hk Hm Hn. rewrite low_bits, Z.mod_small by lia. by apply (mark_bits _ k). Qed.

Lemma utf8_2 n : 0x80 <= n < 0x800 ->
  [Z.lor 0xc0 (Z.land (Z.shiftr n 6) 0x1f); Z.lor 0x80 (Z.land n 0x3f)] = utf8 n.
Proof.
  intros Hn. unfold utf8. rewrite cont_byte, Z.shiftr_div_pow2 by lia.
  destruct (Z.ltb_spec n 0x80); [lia|]. destruct (Z.ltb_spec n 0x800); [|lia].
  rewrite (lead_byte 0xc0 5); [done|lia|by exists 6|]. dlia.
Qed.

Lemma utf8_3 n : 0x800 <= n < 0x10000 ->
  [Z.lor 0xe0 (Z.land (Z.shiftr n 12) 0x0f); Z.lor 0x80 (Z.land (Z.shiftr n 6) 0x3f); Z.lor 0x80 (Z.land n 0x3f)] = utf8 n.
Proof.
  intros Hn. unfold utf8. rewrite !cont_byte, !Z.shiftr_div_pow2 by lia.
  destruct (Z.ltb_spec n 0x80); [lia|]. destruct (Z.ltb_spec n 0x800); [lia|]. destruct (Z.ltb_spec n 0x10000); [|lia].
  rewrite (lead_byte 0xe0 4); [done|lia|by exists 14|]. dlia.
Qed.

Lemma utf8_4 n : 0x10000 <= n < 0x110000 ->
  [Z.lor 0xf0 (Z.land (Z.shiftr n 18) 0x07); Z.lor 0x80 (Z.land (Z.shiftr n 12) 0x3f);
   Z.lor 0x80 (Z.land (Z.shiftr n 6) 0x3f); Z.lor 0x80 (Z.land n 0x3f)] = utf8 n.
Proof.
  intros Hn. unfold utf8. rewrite !cont_byte, !Z.shiftr_div_pow2 by lia.
  destruct (Z.ltb_spec n 0x80); [lia|]. destruct (Z.ltb_spec n 0x800); [lia|]. destruct (Z.ltb_spec n 0x10000); [lia|].
  rewrite (lead_byte 0xf0 3); [done|lia|by exists 30|]. dlia.
Qed.

(** A surrogate pair. *)
Lemma surrogates n1 n2 : 0xd800 <= n1 < 0xdc00 -> 0xdc00 <= n2 < 0xe000 ->
  0x010000 + Z.shiftl (Z.land n1 0x03ff) 10 + Z.land n2 0x03ff = 0x10000 + (n1 - 0xd800) * 1024 + (n2 - 0xdc00).
Proof.
  intros H1 H2. change 0x03ff with (2 ^ 10 - 1). rewrite !low_bits, Z.shiftl_mul_pow2 by lia.
  rewrite (Z.mod_eq n1), (Z.mod_eq n2) by lia.
  replace (n1 / 2 ^ 10) with 54 by dlia. replace (n2 / 2 ^ 10) with 55 by dlia. lia.
Qed.

Lemma decode_complete e u p : escape_text e u -> zbx_json_decode_character (e ++ p) = Some (u, p).
Proof.
  intros [c Hc|h n Hh Hn|h1 n1 h2 n2 Hh1 Hn1 Hh2 Hn2]; unfold zbx_json_decode_character; cbn [app deref drop]; rewrite drop_0.
  - apply Z.eqb_neq in Hc. by rewrite Hc.
  - rewrite (hex_number_complete _ _ _ Hh). apply hex4_range in Hh as [Hr _]. change (simple_escape 117) with 0. cbn [Z.eqb Pos.eqb negb mbind option_bind].
    destruct (Z.geb_spec 0x007f n); [unfold utf8; by destruct (Z.ltb_spec n 0x80); [|lia]|].
    destruct (Z.geb_spec 0x07ff n); [by rewrite utf8_2 by lia|].
    rewrite utf8_3 by lia. destruct (Z.geb_spec 0xd7ff n); [done|]. destruct (Z.leb_spec 0xe000 n); [done|lia].
  - rewrite <- app_assoc, (hex_number_complete _ _ _ Hh1). change (simple_escape 117) with 0.
    cbn [Z.eqb Pos.eqb negb mbind option_bind app deref drop orb]. rewrite drop_0, (hex_number_complete _ _ _ Hh2).
    cbn [mbind option_bind]. cbv zeta. rewrite surrogates, utf8_4 by lia.
    destruct (Z.geb_spec 0x007f n1); [lia|]. destruct (Z.geb_spec 0x07ff n1); [lia|].
    destruct (Z.geb_spec 0xd7ff n1); [lia|]. destruct (Z.leb_spec 0xe000 n1); [lia|]. cbn [orb].
    destruct (Z.leb_spec 0xd800 n1); [|lia]. destruct (Z.leb_spec n1 0xdbff); [|lia]. cbn [andb].
    destruct (Z.ltb_spec n2 0xdc00); [lia|]. by destruct (Z.ltb_spec 0xdfff n2); [lia|].
Qed.

Lemma decode_sound p u p' : zbx_json_decode_character p = Some (u, p') -> exists e, p = e ++ p' /\ escape_text e u.
Proof.
  unfold zbx_json_decode_character. destruct (Z.eqb_spec (simple_escape (deref p)) 0) as [E0|E0]; cbn [negb].
  2:{ destruct p as [|c p]; [done|]. cbn in E0. cbn [deref drop]. rewrite drop_0. intros [= <- <-]. exists [c]. split; [done|by constructor]. }
  destruct (Z.eqb_spec (deref p) 117) as [E1|]; [|done]. destruct p as [|c p]; [done|]. cbn in E1. subst c. cbn [drop]. rewrite drop_0.
  destruct (hex_number p) as [[n q]|] eqn:Hh; [|done]. cbn [mbind option_bind].
  apply hex_number_sound in Hh as (h & -> & Hh). pose proof (hex4_range _ _ Hh) as [Hr _].
  destruct (Z.geb_spec 0x007f n) as [G1|G1].
  { intros [= <- <-]. exists (117 :: h). split; [done|]. replace [n] with (utf8 n); [constructor; [done|lia]|].
    unfold utf8. by destruct (Z.ltb_spec n 0x80); [|lia]. }
  destruct (Z.geb_spec 0x07ff n) as [G2|G2].
  { rewrite utf8_2 by lia. intros [= <- <-]. exists (117 :: h). split; [done|]. constructor; [done|lia]. }
  destruct ((0xd7ff >=? n) || (0xe000 <=? n)) eqn:G3.
  { rewrite utf8_3 by lia. intros [= <- <-]. exists (117 :: h). split; [done|]. unbool. constructor; [done|lia]. }
  unbool. destruct ((0xd800 <=? n) && (n <=? 0xdbff)) eqn:G4; [|done].
  destruct (Z.eqb_spec (deref q) BSL) as [B|]; [|done]. destruct q as [|c q]; [done|]. cbn in B. subst c. cbn [drop negb orb]. rewrite ?drop_0.
  destruct (Z.eqb_spec (deref q) 117) as [B|]; [|done]. destruct q as [|c q]; [done|]. cbn in B. subst c. cbn [drop negb orb]. rewrite ?drop_0.
  destruct (hex_number q) as [[n2 q2]|] eqn:Hh2; [|done]. cbn [mbind option_bind].
  apply hex_number_sound in Hh2 as (h2 & -> & Hh2).
  destruct ((n2 <? 0xdc00) || (0xdfff <? n2)) eqn:G5; [done|]. unbool. intros [= <- <-].
  exists (117 :: h ++ BSL :: 117 :: h2). split; [by rewrite <- app_comm_cons, <- app_assoc|].
  rewrite surrogates, utf8_4 by lia. constructor; try done; lia.
Qed.

Lemma simple_escape_range c : 0 <= simple_escape c < 128.
Proof. unfold simple_escape. repeat case_match; lia. Qed.

Lemma utf8_length n : (1 <= length (utf8 n) <= 4)%nat.
Proof. unfold utf8. repeat case_match; cbn; lia. Qed.

Lemma escape_length e u : escape_text e u -> (1 <= length e)%nat /\ (1 <= length u <= length e)%nat.
Proof.
  intros [c Hc|h n Hh Hn|h1 n1 h2 n2 Hh1 Hn1 Hh2 Hn2]; cbn.
  - lia.
  - apply hex4_range in Hh as [? ->]. pose proof (utf8_length n). lia.
  - rewrite length_app. cbn. apply hex4_range in Hh1 as [? ->]. apply hex4_range in Hh2 as [? ->].
    pose proof (utf8_length (0x10000 + (n1 - 0xd800) * 1024 + (n2 - 0xdc00))). lia.
Qed.

(** The bytes of a string take no more room than its text. *)
Lemma raw_length r d : raw_text r d -> (length d <= length r)%nat.
Proof. induction 1 as [|c r d ? ? ? _ IH|e u r d [_ He]%escape_length _ IH]; cbn; rewrite ?length_app; lia. Qed.

(** ** Copying a string *)

Lemma json_copy_loop_ok r d rest : raw_text r d -> forall fuel out size,
  (length r < fuel)%nat -> zlen out < size ->
  copy_loop fuel (r ++ QUOT :: rest) out size = Ret (if zlen out + zlen d <? size then Some (out ++ d, rest) else None).
Proof.
  induction 1 as [|c r d Hq Hb Hc Hr IH|e u r d He Hr IH]; intros [|fuel] out size Hf Ho; cbn [length] in Hf; try lia; cbn [app copy_loop].
  - rewrite zlen_nil, Z.add_0_r, app_nil_r. cbn [Z.eqb Pos.eqb]. destruct (Z.geb_spec (zlen out) size); [lia|].
    by destruct (Z.ltb_spec (zlen out) size); [|lia].
  - apply Z.eqb_neq in Hq as ->, Hb as ->. destruct (Z.geb_spec (zlen out) size); [lia|]. pose proof (zlen_nonneg d).
    rewrite zlen_cons, zlen_app, zlen_cons, (zlen_nil (A := Z)).
    destruct (Z.eqb_spec (zlen out + (1 + 0)) size); [destruct (Z.ltb_spec (zlen out + (1 + zlen d)) size); [lia|done]|].
    rewrite IH by (rewrite ?zlen_app, ?zlen_cons, ?(zlen_nil (A := Z)); lia).
    rewrite zlen_app, zlen_cons, (zlen_nil (A := Z)), <- app_assoc.
    by replace (zlen out + (1 + 0) + zlen d) with (zlen out + (1 + zlen d)) by lia.
  - cbn [Z.eqb Pos.eqb]. rewrite <- app_assoc, (decode_complete _ _ _ He). rewrite length_app in Hf. pose proof (zlen_nonneg d).
    rewrite zlen_app, (zlen_app u). destruct (Z.geb_spec (zlen out + zlen u) size).
    { by destruct (Z.ltb_spec (zlen out + (zlen u + zlen d)) size); [lia|]. }
    destruct (Z.eqb_spec (zlen out + zlen u) size); [lia|].
    rewrite IH by (rewrite ?zlen_app; lia). rewrite zlen_app, <- app_assoc. by rewrite Z.add_assoc.
Qed.

Lemma copy_string_ok r d rest size : raw_text r d -> 0 < size ->
  json_copy_string (QUOT :: r ++ QUOT :: rest) size = Ret (if zlen d <? size then Some (d, rest) else None).
Proof.
  intros Hr Hs. unfold json_copy_string. destruct (Z.eqb_spec size 0); [lia|]. cbn [drop].
  apply (json_copy_loop_ok r d rest Hr); [|done]. cbn. rewrite length_app. lia.
Qed.

(** ** Escaping a string *)

Lemma hex_digits x : 0 <= x < 16 -> isxdigit (zbx_num2hex x) = true /\ zbx_hex2num (zbx_num2hex x) = x.
Proof.
  intros Hx. unfold isxdigit, isdigit, zbx_num2hex, zbx_hex2num.
  destruct (Z.geb_spec x 10); split; repeat case_match; unbool; try lia;
    rewrite ?orb_true_iff, ?andb_true_iff, ?Z.leb_le; lia.
Qed.

Lemma control_escape c : 0 <= c <= 0x1f ->
  escape_text [117; 48; 48; zbx_num2hex (Z.land (Z.shiftr c 4) 0xf); zbx_num2hex (Z.land c 0xf)] [c].
Proof.
  intros Hc. change 0xf with (2 ^ 4 - 1). rewrite !low_bits, Z.shiftr_div_pow2 by lia.
  destruct (hex_digits ((c / 2 ^ 4) mod 2 ^ 4)) as [H1 E1]; [apply Z.mod_pos_bound; lia|].
  destruct (hex_digits (c mod 2 ^ 4)) as [H2 E2]; [apply Z.mod_pos_bound; lia|].
  replace [c] with (utf8 c) by (unfold utf8; by destruct (Z.ltb_spec c 0x80); [|lia]).
  pose proof (Hex4 48 48 _ _ eq_refl eq_refl H1 H2) as H. rewrite E1, E2 in H.
  apply (esc_unicode _ c); [|lia]. replace (_ * 4096 + _ * 256 + _ * 16 + _) with c in H; [done|].
  change (zbx_hex2num 48) with 0. dlia.
Qed.

Lemma ins_char_ok c r d : 0 < c -> raw_text r d -> raw_text (ins_char c ++ r) (c :: d).
Proof.
  intros Hc Hr. unfold ins_char.
  assert (Hs : forall x, simple_escape x = c -> raw_text ([BSL; x] ++ r) (c :: d)).
  { intros x E. subst c. apply (raw_escape [x] [simple_escape x] r d); [constructor; lia|done]. }
  destruct (Z.eqb_spec c QUOT) as [->|]; [by apply Hs|]. destruct (Z.eqb_spec c BSL) as [->|]; [by apply Hs|].
  destruct (Z.eqb_spec c 8) as [->|]; [by apply Hs|]. destruct (Z.eqb_spec c 12) as [->|]; [by apply Hs|].
  destruct (Z.eqb_spec c 10) as [->|]; [by apply Hs|]. destruct (Z.eqb_spec c 13) as [->|]; [by apply Hs|].
  destruct (Z.eqb_spec c 9) as [->|]; [by apply Hs|]. destruct (Z.leb_spec c 0x1f).
  - apply (raw_escape [117; 48; 48; _; _] [c] r d); [apply control_escape; lia|done].
  - by constructor.
Qed.

(** The bytes of a C string. *)
Definition c_string (s : list Z) : Prop := Forall (fun c => 0 < c < 256) s.

Lemma escaped_ok s : c_string s -> raw_text (concat (ins_char <$> s)) s.
Proof. induction 1 as [|c s Hc _ IH]; [constructor|]. rewrite fmap_cons. cbn [concat]. apply ins_char_ok; [lia|done]. Qed.

Lemma char_size_ok c : zlen (ins_char c) = char_size c.
Proof. unfold ins_char, char_size. repeat case_match; unbool; first [done|lia]. Qed.

Lemma size_loop s n : fold_left (fun len c => len + char_size c) s n = n + zlen (concat (ins_char <$> s)).
Proof.
  revert n. induction s as [|c s IH]; intros n; cbn [fold_left]; [change (concat _) with (@nil Z); rewrite (zlen_nil (A := Z)); lia|].
  rewrite IH, fmap_cons. cbn [concat]. rewrite zlen_app, char_size_ok. lia.
Qed.

(** The size that is reserved is what is stored. *)
Lemma stringsize_ok s type : zbx_json_stringsize s type = zlen (zbx_json_insstring s type).
Proof.
  unfold zbx_json_stringsize, zbx_json_insstring. rewrite size_loop.
  destruct s as [s|]; cbn [default]; [|lia]. destruct (is_string type); [|lia].
  rewrite zlen_cons, zlen_app, zlen_cons, (zlen_nil (A := Z)). lia.
Qed.

(** Copying returns for every text and never leaves the buffer. *)
Lemma copy_loop_total fuel p out size :
  (length p < fuel)%nat -> zlen out < size ->
  exists o, copy_loop fuel p out size = Ret o /\ forall s rest, o = Some (s, rest) -> zlen s < size.
Proof.
  revert p out. induction fuel as [|fuel IH]; intros p out Hf Ho; [lia|]. destruct p as [|c p]; cbn [copy_loop]; [by exists None|].
  cbn in Hf. destruct (c =? BSL).
  { destruct (zbx_json_decode_character p) as [[u q]|] eqn:D; [|by exists None].
    apply decode_sound in D as (e & -> & [He _]%escape_length). rewrite length_app in Hf.
    destruct (Z.geb_spec (zlen out + zlen u) size); [by exists None|]. rewrite zlen_app.
    destruct (Z.eqb_spec (zlen out + zlen u) size); [by exists None|]. apply IH; [lia|rewrite zlen_app; lia]. }
  destruct (Z.geb_spec (zlen out) size); [lia|]. destruct (c =? QUOT); [exists (Some (out, p)); split; [done|by intros ? ? [= <- <-]]|].
  rewrite zlen_app, zlen_cons, (zlen_nil (A := Z)). destruct (Z.eqb_spec (zlen out + (1 + 0)) size); [by exists None|].
  apply IH; [lia|]. rewrite zlen_app, zlen_cons, (zlen_nil (A := Z)). lia.
Qed.

Lemma insstring_string s : zbx_json_insstring (Some s) ZBX_JSON_TYPE_STRING = QUOT :: concat (ins_char <$> s) ++ [QUOT].
Proof. done. Qed.

(** ** Properties *)

(** A string that is written to a JSON text is read back as it was: the
    escaping reserves exactly the room it fills, and copying the text into a
    buffer gives the string and the pointer behind it when the buffer has
    room for it and its NUL, and NULL otherwise.  Copying returns for every
    text and stays inside the buffer. *)
Theorem json_string_roundtrip s rest size :
  c_string s -> 0 < size ->
  let text := zbx_json_insstring (Some s) ZBX_JSON_TYPE_STRING in
  zlen text = zbx_json_stringsize (Some s) ZBX_JSON_TYPE_STRING /\
  json_copy_string (text ++ rest) size = Ret (if zlen s <? size then Some (s, rest) else None) /\
  (forall p, exists o, json_copy_string p size = Ret o /\ forall out q, o = Some (out, q) -> zlen out < size).
Proof.
  intros Hs Hsz text. split; [by rewrite stringsize_ok|]. split.
  - subst text. rewrite insstring_string, <- app_comm_cons, <- app_assoc. apply copy_string_ok; [by apply escaped_ok|done].
  - intros p. unfold json_copy_string. destruct (Z.eqb_spec size 0); [lia|].
    apply copy_loop_total; [rewrite length_drop; lia|done].
Qed.

(** ** Witnesses *)

(** [a], a quote, a line feed, the control character 1, two bytes of UTF-8. *)
Definition sample_string : list Z := [97; 34; 10; 1; 195; 169].

Lemma sample_c_string : c_string sample_string.
Proof. repeat (constructor; [lia|]). constructor. Qed.

Lemma json_string_roundtrip_witness :
  json_copy_string (zbx_json_insstring (Some sample_string) ZBX_JSON_TYPE_STRING ++ [COMMA]) 7 = Ret (Some (sample_string, [COMMA])).
Proof. exact (proj1 (proj2 (json_string_roundtrip sample_string [COMMA] 7 sample_c_string eq_refl))). Defined.

(** "\u00e9", "\ud83d\ude00" and a lone low surrogate. *)
Example decode_e_acute : zbx_json_decode_character [117; 48; 48; 101; 57; QUOT] = Some ([195; 169], [QUOT]).
Proof. reflexivity. Qed.

Example decode_pair :
  zbx_json_decode_character [117; 100; 56; 51; 100; BSL; 117; 100; 101; 48; 48; QUOT] = Some ([240; 159; 152; 128], [QUOT]).
Proof. reflexivity. Qed.

Example decode_lone_surrogate : zbx_json_decode_character [117; 100; 99; 48; 48; QUOT] = None.
Proof. reflexivity. Qed.
