(* ===== verification/JsonParser.v ===== *)
(** * JSON parser (src/libs/zbxjson/json_parser.c, jsonobj.c)

    The recursive descent parser that validates a JSON text and builds the
    tree of its values.  As in [JsonText] a pointer is the list of the bytes
    from there on.  A parse returns the number of characters or the message
    of [json_error] with the place it quotes.

    The functions take a flag that says whether an object is built
    ([NULL != obj]).  A number is kept as the text that [atof] converts, and
    the hash set of an object as the list of its elements.

    [text_of] is the grammar: which texts stand for which value. *)
From stdpp Require Import prelude list strings.
From Stdlib Require Import ZArith Lia.
From S2P Require Import Prelude JsonText.
#[local] Open Scope Z_scope.
#[local] Set Warnings "-register-all".

(** The error message and the data it quotes. *)
Record parse_error := ParseError { message : string; fragment : option (list Z) }.

(** [Failed] is the result 0 with the error set. *)
Inductive parsed :=
  | Parsed (len : Z)
  | Failed (error : parse_error).

Definition json_error (message : string) (ptr : option (list Z)) : parse_error := ParseError message ptr.

Inductive zbx_jsonobj :=
  | Jo_unknown | Jo_true | Jo_false | Jo_null
  | Jo_string (string : list Z)
  | Jo_number (text : list Z)
  | Jo_array (array : list zbx_jsonobj)
  | Jo_object (object : list (list Z * zbx_jsonobj)).

(** ** Scalars *)

(** The bytes a C function sees of a buffer. *)
Fixpoint c_str (s : list Z) : list Z :=
  match s with c :: s => if c =? 0 then [] else c :: c_str s | [] => [] end.

(** The loop up to the closing quote: the pointer to it. *)
Fixpoint string_loop (fuel : nat) (ptr : list Z) : res (list Z + parse_error) :=
  match fuel with
  | O => Halt OutOfFuel
  | S fuel =>
      if deref ptr =? QUOT then Ret (inl ptr)
      else if deref ptr =? 0 then Ret (inr (json_error "unexpected end of string data" None))
      else if deref ptr =? BSL then
        let escape_start := ptr in
        let ptr := drop 1 ptr in
        if deref ptr =? 0 then Ret (inr (json_error "invalid escape sequence in string" (Some escape_start)))
        else if negb (simple_escape (deref ptr) =? 0) then
          if 0x1f >=? deref ptr then Ret (inr (json_error "invalid control character in string data" (Some ptr)))
          else string_loop fuel (drop 1 ptr)
        else if deref ptr =? 117 then
          match zbx_json_decode_character ptr with
          | None => Ret (inr (json_error "invalid escape sequence in string" (Some escape_start)))
          | Some (_, ptr) => string_loop fuel ptr
          end
        else Ret (inr (json_error "invalid escape sequence in string data" (Some escape_start)))
      else if 0x1f >=? deref ptr then Ret (inr (json_error "invalid control character in string data" (Some ptr)))
      else string_loop fuel (drop 1 ptr)
  end.

(** [str]: the unquoted string is wanted. *)
Definition json_parse_string (str : bool) (start : list Z) : res (parsed * option (list Z)) :=
  r ← string_loop (S (length start)) (drop 1 start);
  match r with
  | inr e => Ret (Failed e, None)
  | inl ptr =>
      if str then
        copied ← json_copy_string start (ptr_diff ptr start);
        match copied with
        | None => Ret (Failed (json_error "invalid string data" (Some start)), None)
        | Some (s, _) => Ret (Parsed (ptr_diff ptr start + 1), Some (c_str s))
        end
      else Ret (Parsed (ptr_diff ptr start + 1), None)
  end.

(** The mantissa: the pointer behind it and the digits before the point. *)
Fixpoint number_loop (ptr : list Z) (point : bool) (digit : Z) : list Z * Z :=
  match ptr with
  | [] => (ptr, digit)
  | c :: rest =>
      if c =? 46 then if point then (ptr, digit) else number_loop rest true digit
      else if negb (isdigit c) then (ptr, digit)
      else number_loop rest point (if point then digit else digit + 1)
  end.

Fixpoint skip_digits (ptr : list Z) : list Z :=
  match ptr with
  | c :: rest => if isdigit c then skip_digits rest else ptr
  | [] => []
  end.

(** The exponent at [ptr]: the pointer behind it. *)
Definition number_exponent (ptr : list Z) : list Z + parse_error :=
  if (deref ptr =? 101) || (deref ptr =? 69) then
    let ptr := drop 1 ptr in
    if deref ptr =? 0 then inr (json_error "unexpected end of numeric value" None)
    else
      let sign := (deref ptr =? 43) || (deref ptr =? 45) in
      let ptr := if sign then drop 1 ptr else ptr in
      if sign && (deref ptr =? 0) then inr (json_error "unexpected end of numeric value" None)
      else if negb (isdigit (deref ptr)) then inr (json_error "invalid power value of number in E notation" (Some ptr))
      else inl (skip_digits (drop 1 ptr))
  else inl ptr.

Definition json_parse_number (start : list Z) : parsed :=
  let ptr := if deref start =? 45 then drop 1 start else start in
  let first_digit := deref ptr in
  let '(ptr, digit) := number_loop ptr false 0 in
  if digit =? 0 then Failed (json_error "invalid numeric value format" (Some start))
  else if (first_digit =? 48) && (1 <? digit) then Failed (json_error "invalid numeric value format" (Some start))
  else
    match number_exponent ptr with
    | inr e => Failed e
    | inl ptr => Parsed (ptr_diff ptr start)
    end.

Fixpoint literal_loop (ptr text : list Z) : option (list Z) :=
  match text with
  | [] => Some ptr
  | t :: text => if negb (deref ptr =? t) then None else literal_loop (drop 1 ptr) text
  end.

Definition json_parse_literal (start text : list Z) : parsed :=
  match literal_loop start text with
  | None => Failed (json_error "invalid literal value" (Some start))
  | Some ptr => Parsed (ptr_diff ptr start)
  end.

Definition true_text : list Z := [116; 114; 117; 101].
Definition false_text : list Z := [102; 97; 108; 115; 101].

(** ** Values *)

(** [zbx_hashset_insert] of an element, and overwriting the value of an
    element with the same name. *)
Fixpoint insert_el (name : list Z) (value : zbx_jsonobj) (els : list (list Z * zbx_jsonobj)) : list (list Z * zbx_jsonobj) :=
  match els with
  | [] => [(name, value)]
  | (n, v) :: els => if decide (n = name) then (name, value) :: els else (n, v) :: insert_el name value els
  end.

(** [array_loop] and [object_loop] are the loops over the elements behind the
    opening bracket; [vs] and [els] are the elements so far.  They return the
    pointer at the character that ends them. *)
Fixpoint json_parse_value (fuel : nat) (obj : bool) (start : list Z) {struct fuel} : res (parsed * zbx_jsonobj) :=
  match fuel with
  | O => Halt OutOfFuel
  | S fuel =>
      let ptr := skip_whitespace start in
      let add (r : parsed * zbx_jsonobj) : res (parsed * zbx_jsonobj) :=
        match r with
        | (Parsed len, o) => Ret (Parsed (ptr_diff ptr start + len), o)
        | (Failed e, o) => Ret (Failed e, o)
        end in
      if deref ptr =? 0 then Ret (Failed (json_error "unexpected end of object value" None), Jo_unknown)
      else if deref ptr =? QUOT then
        '(r, str) ← json_parse_string obj ptr;
        add (r, match str with Some s => Jo_string s | None => Jo_unknown end)
      else if deref ptr =? LBR then r ← json_parse_object fuel obj ptr; add r
      else if deref ptr =? LSQ then r ← json_parse_array fuel obj ptr; add r
      else if deref ptr =? 116 then add (json_parse_literal ptr true_text, Jo_true)
      else if deref ptr =? 102 then add (json_parse_literal ptr false_text, Jo_false)
      else if deref ptr =? 110 then add (json_parse_literal ptr null_text, Jo_null)
      else if isdigit (deref ptr) || (deref ptr =? 45) then
        let r := json_parse_number ptr in
        add (r, match r with Parsed len => Jo_number (take (Z.to_nat len) ptr) | Failed _ => Jo_unknown end)
      else Ret (Failed (json_error "invalid JSON object value starting character" (Some ptr)), Jo_unknown)
  end
with json_parse_array (fuel : nat) (obj : bool) (start : list Z) {struct fuel} : res (parsed * zbx_jsonobj) :=
  match fuel with
  | O => Halt OutOfFuel
  | S fuel =>
      let ptr := skip_whitespace (drop 1 start) in
      if negb (deref ptr =? RSQ) then
        '(r, vs) ← array_loop fuel obj ptr [];
        match r with
        | inr e => Ret (Failed e, Jo_unknown)
        | inl ptr =>
            if negb (deref ptr =? RSQ) then
              Ret (Failed (json_error "invalid array format, expected closing character ']'" (Some ptr)), Jo_unknown)
            else Ret (Parsed (ptr_diff ptr start + 1), Jo_array vs)
        end
      else Ret (Parsed (ptr_diff ptr start + 1), Jo_array [])
  end
with array_loop (fuel : nat) (obj : bool) (ptr : list Z) (vs : list zbx_jsonobj) {struct fuel} :
    res ((list Z + parse_error) * list zbx_jsonobj) :=
  match fuel with
  | O => Halt OutOfFuel
  | S fuel =>
      '(r, value) ← json_parse_value fuel obj ptr;
      match r with
      | Failed e => Ret (inr e, vs)
      | Parsed len =>
          let vs := vs ++ [value] in
          let ptr := skip_whitespace (drop (Z.to_nat len) ptr) in
          if negb (deref ptr =? COMMA) then Ret (inl ptr, vs)
          else array_loop fuel obj (drop 1 ptr) vs
      end
  end
with json_parse_object (fuel : nat) (obj : bool) (start : list Z) {struct fuel} : res (parsed * zbx_jsonobj) :=
  match fuel with
  | O => Halt OutOfFuel
  | S fuel =>
      let ptr := skip_whitespace (drop 1 (skip_whitespace start)) in
      if negb (deref ptr =? RBR) then
        '(r, els) ← object_loop fuel obj ptr [];
        match r with
        | inr e => Ret (Failed e, Jo_unknown)
        | inl ptr =>
            if negb (deref ptr =? RBR) then
              Ret (Failed (json_error "invalid object format, expected closing character '}'" (Some ptr)), Jo_unknown)
            else Ret (Parsed (ptr_diff ptr start + 1), Jo_object els)
        end
      else Ret (Parsed (ptr_diff ptr start + 1), Jo_object [])
  end
with object_loop (fuel : nat) (obj : bool) (ptr : list Z) (els : list (list Z * zbx_jsonobj)) {struct fuel} :
    res ((list Z + parse_error) * list (list Z * zbx_jsonobj)) :=
  match fuel with
  | O => Halt OutOfFuel
  | S fuel =>
      if negb (deref ptr =? QUOT) then Ret (inr (json_error "invalid object name" (Some ptr)), els)
      else
        '(r, name) ← json_parse_string obj ptr;
        match r with
        | Failed e => Ret (inr e, els)
        | Parsed len =>
            let ptr := skip_whitespace (drop (Z.to_nat len) ptr) in
            if negb (deref ptr =? COLON) then
              Ret (inr (json_error "invalid object name/value separator" (Some ptr)), els)
            else
              let ptr := drop 1 ptr in
              '(r, value) ← json_parse_value fuel obj ptr;
              match r with
              | Failed e => Ret (inr e, els)
              | Parsed len =>
                  let els := match name with Some name => insert_el name value els | None => els end in
                  let ptr := skip_whitespace (drop (Z.to_nat len) ptr) in
                  if negb (deref ptr =? COMMA) then Ret (inl ptr, els)
                  else object_loop fuel obj (skip_whitespace (drop 1 ptr)) els
              end
        end
  end.

(** Enough iterations for a text: three for every character. *)
Definition json_fuel (s : list Z) : nat := 3 * length s + 3.

Definition zbx_json_validate (start : list Z) : res parsed :=
  let start := skip_whitespace start in
  let parse :=
    if deref start =? LBR then r ← json_parse_object (json_fuel start) false start; Ret r.1
    else if deref start =? LSQ then r ← json_parse_array (json_fuel start) false start; Ret r.1
    else Ret (Failed (json_error "invalid object format, expected opening character '{' or '['" (Some start))) in
  r ← parse;
  match r with
  | Failed e => Ret (Failed e)
  | Parsed len =>
      let start := skip_whitespace (drop (Z.to_nat len) start) in
      if negb (deref start =? 0) then Ret (Failed (json_error "invalid character following JSON object" (Some start)))
      else Ret (Parsed len)
  end.

(** [inr] is the result [FAIL] with the error of the parse. *)
Definition zbx_jsonobj_open (data : list Z) : res (zbx_jsonobj + parse_error) :=
  let data := skip_whitespace data in
  let parse :=
    if deref data =? LBR then json_parse_object (json_fuel data) true data
    else if deref data =? LSQ then json_parse_array (json_fuel data) true data
    else Ret (Failed (json_error "invalid object format, expected opening character '{' or '['" (Some data)), Jo_unknown) in
  '(r, o) ← parse;
  match r with
  | Failed e => Ret (inr e)
  | Parsed _ => Ret (inl o)
  end.

(** ** The grammar *)

(** Strings are given by their bytes, numbers by their text. *)
Inductive json :=
  | JNull | JTrue | JFalse
  | JNumber (text : list Z)
  | JString (bytes : list Z)
  | JArray (elements : list json)
  | JObject (members : list (list Z * json)).

Definition white (w : list Z) : Prop := Forall (fun c => is_ws c = true) w.
Definition digits (l : list Z) : Prop := Forall (fun c => isdigit c = true) l.

(** The fraction may be a point without digits, unlike in RFC 8259. *)
Inductive frac_text : list Z -> Prop :=
  | frac_none : frac_text []
  | frac_some ds : digits ds -> frac_text (46 :: ds).

Inductive exp_text : list Z -> Prop :=
  | exp_none : exp_text []
  | exp_some e sign ds : e = 101 \/ e = 69 -> sign = [] \/ sign = [43] \/ sign = [45] -> digits ds -> ds <> [] ->
      exp_text (e :: sign ++ ds).

Inductive number_text : list Z -> Prop :=
  | number sign int frac exp :
      sign = [] \/ sign = [45] -> digits int -> int <> [] -> (deref int = 48 -> length int = 1%nat) ->
      frac_text frac -> exp_text exp -> number_text (sign ++ int ++ frac ++ exp).

Inductive text_of : json -> list Z -> Prop :=
  | text_null : text_of JNull null_text
  | text_true : text_of JTrue true_text
  | text_false : text_of JFalse false_text
  | text_number t : number_text t -> text_of (JNumber t) t
  | text_string r d : raw_text r d -> text_of (JString d) (QUOT :: r ++ [QUOT])
  | text_array0 w : white w -> text_of (JArray []) (LSQ :: w ++ [RSQ])
  | text_array l t : items l t -> text_of (JArray l) (LSQ :: t ++ [RSQ])
  | text_object0 w : white w -> text_of (JObject []) (LBR :: w ++ [RBR])
  | text_object l t : members l t -> text_of (JObject l) (LBR :: t ++ [RBR])
with items : list json -> list Z -> Prop :=
  | items_one v w1 t w2 : white w1 -> text_of v t -> white w2 -> items [v] (w1 ++ t ++ w2)
  | items_more v l w1 t w2 ts : white w1 -> text_of v t -> white w2 -> items l ts -> items (v :: l) (w1 ++ t ++ w2 ++ COMMA :: ts)
with members : list (list Z * json) -> list Z -> Prop :=
  | members_one d r v w1 w2 w3 t w4 : white w1 -> raw_text r d -> white w2 -> white w3 -> text_of v t -> white w4 ->
      members [(d, v)] (w1 ++ (QUOT :: r ++ [QUOT]) ++ w2 ++ COLON :: w3 ++ t ++ w4)
  | members_more d r v l w1 w2 w3 t w4 ts : white w1 -> raw_text r d -> white w2 -> white w3 -> text_of v t -> white w4 ->
      members l ts ->
      members ((d, v) :: l) (w1 ++ (QUOT :: r ++ [QUOT]) ++ w2 ++ COLON :: w3 ++ t ++ w4 ++ COMMA :: ts).

Scheme text_of_ind' := Induction for text_of Sort Prop
  with items_ind' := Induction for items Sort Prop
  with members_ind' := Induction for members Sort Prop.
Combined Scheme grammar_ind from text_of_ind', items_ind', members_ind'.

(** The tree that is built for a value: of equal names the last one counts. *)
Fixpoint obj_of (v : json) : zbx_jsonobj :=
  match v with
  | JNull => Jo_null
  | JTrue => Jo_true
  | JFalse => Jo_false
  | JNumber t => Jo_number t
  | JString d => Jo_string (c_str d)
  | JArray l => Jo_array (map obj_of l)
  | JObject l => Jo_object (fold_left (fun els nv => insert_el (c_str nv.1) (obj_of nv.2) els) l [])
  end.

Definition is_container (v : json) : Prop := match v with JArray _ | JObject _ => True | _ => False end.

#[export] Instance is_container_dec v : Decision (is_container v).
Proof. destruct v; apply _. Defined.

(** ** Theory: white space, pointers *)

Definition nows (q : list Z) : Prop := match q with c :: _ => is_ws c = false | [] => True end.

Lemma skip_sound s : exists w, s = w ++ skip_whitespace s /\ white w /\ nows (skip_whitespace s).
Proof.
  induction s as [|c s (w & E & Hw & Hn)]; cbn; [exists []; by repeat constructor|]. destruct (is_ws c) eqn:Hc.
  - exists (c :: w). cbn. split; [by rewrite <- E|]. split; [by constructor|done].
  - exists []. cbn. rewrite Hc. by repeat constructor.
Qed.

Lemma skip_complete w q : white w -> nows q -> skip_whitespace (w ++ q) = q.
Proof.
  intros Hw Hq. induction Hw as [|c w Hc _ IH]; cbn; [|by rewrite Hc].
  destruct q as [|c q]; [done|]. cbn in *. by rewrite Hq.
Qed.

Lemma skip_nows q : nows q -> skip_whitespace q = q.
Proof. apply (skip_complete [] q). constructor. Qed.

Lemma ptr_diff_app t q : ptr_diff q (t ++ q) = zlen t.
Proof. unfold ptr_diff. rewrite zlen_app. lia. Qed.

Lemma drop_text (t q : list Z) : drop (Z.to_nat (zlen t)) (t ++ q) = q.
Proof. rewrite to_nat_zlen. apply drop_app_length. Qed.

Lemma drop1 (c : Z) p : drop 1 (c :: p) = p.
Proof. done. Qed.

Lemma white_app w1 w2 : white w1 -> white w2 -> white (w1 ++ w2).
Proof. intros. by apply Forall_app. Qed.

(** Both sides of an equation of texts without nested concatenations. *)
Ltac flat_app := repeat first [progress cbn [app]|rewrite <- app_assoc].

(** ** Strings *)

Lemma simple_escape_printable c : simple_escape c <> 0 -> 0x1f < c.
Proof. unfold simple_escape. repeat case_match; unbool; lia. Qed.

Lemma string_loop_complete r d rest : raw_text r d -> forall fuel, (length r < fuel)%nat ->
  string_loop fuel (r ++ QUOT :: rest) = Ret (inl (QUOT :: rest)).
Proof.
  induction 1 as [|c r d Hq Hb Hc _ IH|e u r d He _ IH]; intros [|fuel] Hf; cbn [length] in Hf; try lia; cbn [string_loop app deref].
  - done.
  - apply Z.eqb_neq in Hq as ->, Hb as ->. destruct (Z.eqb_spec c 0); [lia|]. destruct (Z.geb_spec 0x1f c); [lia|].
    rewrite drop1. apply IH. lia.
  - cbn [Z.eqb Pos.eqb]. rewrite drop1, <- app_assoc. pose proof (decode_complete e u (r ++ QUOT :: rest) He) as D.
    rewrite length_app in Hf. destruct He as [c Hc|h n Hh Hn|h1 n1 h2 n2 ? ? ? ?]; cbn [app deref] in *.
    + pose proof (simple_escape_printable _ Hc). destruct (Z.eqb_spec c 0); [lia|]. apply Z.eqb_neq in Hc as ->. cbn [negb].
      destruct (Z.geb_spec 0x1f c); [lia|]. rewrite drop1. apply IH. cbn in Hf. lia.
    + change (simple_escape 117) with 0. cbn [Z.eqb Pos.eqb negb]. rewrite D. apply IH. cbn in Hf. lia.
    + change (simple_escape 117) with 0. cbn [Z.eqb Pos.eqb negb]. rewrite D. apply IH. cbn in Hf. lia.
Qed.

Lemma string_loop_sound fuel p q : string_loop fuel p = Ret (inl q) ->
  exists r d rest, p = r ++ q /\ q = QUOT :: rest /\ raw_text r d.
Proof.
  revert p. induction fuel as [|fuel IH]; intros p; [done|]. cbn [string_loop].
  destruct (Z.eqb_spec (deref p) QUOT) as [E|E].
  { intros [= ->]. destruct q as [|c q]; [done|]. cbn in E. subst c. exists [], [], q. split_and!; try done. constructor. }
  destruct (Z.eqb_spec (deref p) 0); [done|]. destruct p as [|c p]; [done|]. cbn [deref] in *. rewrite drop1.
  destruct (Z.eqb_spec c BSL) as [->|].
  - destruct (Z.eqb_spec (deref p) 0); [done|]. destruct (Z.eqb_spec (simple_escape (deref p)) 0) as [|Hs]; cbn [negb].
    + destruct (deref p =? 117); [|done]. destruct (zbx_json_decode_character p) as [[u p']|] eqn:D; [|done].
      apply decode_sound in D as (esc & -> & He). intros (r & d & rest & -> & -> & Hr)%IH.
      exists (BSL :: esc ++ r), (u ++ d), rest. split; [cbn; by rewrite <- app_assoc|]. split; [done|by constructor].
    + destruct p as [|x p]; [done|]. cbn [deref] in *. rewrite drop1. destruct (0x1f >=? x); [done|].
      intros (r & d & rest & -> & -> & Hr)%IH. exists (BSL :: [x] ++ r), ([simple_escape x] ++ d), rest.
      split; [done|]. split; [done|]. constructor; [by constructor|done].
  - destruct (Z.geb_spec 0x1f c); [done|]. intros (r & d & rest & -> & -> & Hr)%IH.
    exists (c :: r), (c :: d), rest. split; [done|]. split; [done|]. constructor; [done|done|lia|done].
Qed.

Lemma string_loop_total fuel p : (length p < fuel)%nat -> returns (string_loop fuel p).
Proof.
  revert p. induction fuel as [|fuel IH]; intros p Hf; [lia|]. cbn [string_loop].
  destruct (deref p =? QUOT); [by eexists|]. destruct (Z.eqb_spec (deref p) 0); [by eexists|]. destruct p as [|c p]; [done|].
  cbn [length] in Hf. rewrite drop1. destruct (deref (c :: p) =? BSL).
  - destruct (Z.eqb_spec (deref p) 0); [by eexists|]. destruct p as [|x p]; [done|]. cbn [length] in Hf. rewrite drop1.
    destruct (negb _); [destruct (_ >=? _); [by eexists|apply IH; lia]|]. destruct (_ =? 117); [|by eexists].
    destruct (zbx_json_decode_character _) as [[u q]|] eqn:D; [|by eexists].
    apply decode_sound in D as (e & E & [He _]%escape_length). apply IH.
    apply (f_equal length) in E. rewrite length_app in E. cbn in E. lia.
  - destruct (_ >=? _); [by eexists|]. apply IH. lia.
Qed.

(** A string is parsed exactly when the grammar has it, and copying it never
    fails. *)
Lemma parse_string_complete str r d rest : raw_text r d ->
  json_parse_string str (QUOT :: r ++ QUOT :: rest) =
    Ret (Parsed (zlen (QUOT :: r ++ [QUOT])), if str then Some (c_str d) else None).
Proof.
  intros Hr. unfold json_parse_string. rewrite drop1.
  rewrite (string_loop_complete _ _ _ Hr) by (cbn; rewrite length_app; lia). cbn [mbind res_mbind].
  change (QUOT :: r ++ QUOT :: rest) with ((QUOT :: r) ++ QUOT :: rest). rewrite ptr_diff_app.
  replace (zlen (QUOT :: r) + 1) with (zlen (QUOT :: r ++ [QUOT])) by (rewrite !zlen_cons, zlen_app, zlen_cons, (zlen_nil (A := Z)); lia).
  destruct str; [|done]. pose proof (raw_length _ _ Hr). pose proof (zlen_nonneg r).
  change ((QUOT :: r) ++ QUOT :: rest) with (QUOT :: r ++ QUOT :: rest).
  rewrite (copy_string_ok _ _ _ _ Hr) by (rewrite zlen_cons; lia). cbn [mbind res_mbind].
  destruct (Z.ltb_spec (zlen d) (zlen (QUOT :: r))); [done|]. rewrite zlen_cons in *. unfold zlen in *. lia.
Qed.

Lemma parse_string_sound str s n o : json_parse_string str (QUOT :: s) = Ret (Parsed n, o) ->
  exists r d rest, s = r ++ QUOT :: rest /\ raw_text r d /\ n = zlen (QUOT :: r ++ [QUOT]) /\ o = if str then Some (c_str d) else None.
Proof.
  intros H. pose proof H as H0. unfold json_parse_string in H. rewrite drop1 in H.
  apply bind_Ret in H as ([q|e] & Hl & H).
  - apply string_loop_sound in Hl as (r & d & rest & -> & -> & Hr). exists r, d, rest.
    rewrite (parse_string_complete _ _ _ _ Hr) in H0. simplify_eq. by split_and!.
  - done.
Qed.

Lemma parse_string_total str s : s <> [] -> returns (json_parse_string str s).
Proof.
  intros Hs. destruct s as [|c s]; [done|]. unfold json_parse_string. rewrite drop1.
  destruct (string_loop_total (S (length (c :: s))) s) as [[q|e] H]; [cbn; lia| |]; rewrite H; cbn [mbind res_mbind]; [|by eexists].
  apply string_loop_sound in H as (r & d & rest & -> & -> & Hr). destruct str; [|by eexists]. unfold json_copy_string.
  rewrite drop1. change (c :: r ++ QUOT :: rest) with ((c :: r) ++ QUOT :: rest). rewrite ptr_diff_app. pose proof (zlen_nonneg r).
  rewrite zlen_cons. destruct (Z.eqb_spec (1 + zlen r) 0); [lia|].
  rewrite (json_copy_loop_ok _ _ _ Hr) by (cbn; rewrite ?length_app, ?(zlen_nil (A := Z)); lia). cbn [mbind res_mbind].
  by destruct (_ <? _); eexists.
Qed.

(** ** Numbers and literals *)

(** What ends a number. *)
Definition stops (rest : list Z) : Prop := isdigit (deref rest) = false /\ deref rest <> 46 /\ deref rest <> 101 /\ deref rest <> 69.

Lemma number_loop_digits ds r point n : digits ds ->
  number_loop (ds ++ r) point n = number_loop r point (if point then n else n + zlen ds).
Proof.
  intros Hd. revert n. induction Hd as [|c ds Hc _ IH]; intros n; cbn [app number_loop].
  - rewrite (zlen_nil (A := Z)), Z.add_0_r. by destruct point.
  - destruct (Z.eqb_spec c 46) as [->|]; [done|]. rewrite Hc. cbn [negb]. rewrite IH, zlen_cons. destruct point; f_equal; lia.
Qed.

Lemma number_loop_stop r point n : isdigit (deref r) = false -> deref r <> 46 -> number_loop r point n = (r, n).
Proof. destruct r as [|c r]; [done|]. cbn. intros -> Hc. apply Z.eqb_neq in Hc as ->. done. Qed.

Lemma skip_digits_complete ds r : digits ds -> isdigit (deref r) = false -> skip_digits (ds ++ r) = r.
Proof.
  intros Hd Hr. induction Hd as [|c ds Hc _ IH]; cbn; [|by rewrite Hc]. destruct r as [|c r]; [done|]. cbn in *. by rewrite Hr.
Qed.

Lemma skip_digits_sound r : exists ds, r = ds ++ skip_digits r /\ digits ds.
Proof.
  induction r as [|c r (ds & E & Hd)]; cbn; [exists []; by repeat constructor|]. destruct (isdigit c) eqn:Hc.
  - exists (c :: ds). cbn. split; [by rewrite <- E|by constructor].
  - exists []. by repeat constructor.
Qed.

(** What follows the mantissa. *)
Lemma exp_head exp rest : exp_text exp -> stops rest -> isdigit (deref (exp ++ rest)) = false /\ deref (exp ++ rest) <> 46.
Proof. intros [|e sign ds [->| ->] _ _ _] (H1 & H2 & _); cbn; by split. Qed.

Lemma number_exponent_complete exp rest : exp_text exp -> stops rest -> number_exponent (exp ++ rest) = inl rest.
Proof.
  intros [|e sign ds He Hs Hd Hn] (H1 & H2 & H3 & H4); unfold number_exponent.
  { cbn [app]. apply Z.eqb_neq in H3 as ->, H4 as ->. done. }
  replace ((deref ((e :: sign ++ ds) ++ rest) =? 101) || (deref ((e :: sign ++ ds) ++ rest) =? 69)) with true
    by (destruct He as [->| ->]; done).
  cbn [app]. rewrite drop1, <- app_assoc. destruct ds as [|x ds]; [done|]. apply Forall_cons in Hd as [Hx Hd].
  assert (Hnx : x <> 43 /\ x <> 45 /\ x <> 0) by (split_and!; intros ->; done). destruct Hnx as (Hx1 & Hx2 & Hx3).
  assert (Hsk : skip_digits (ds ++ rest) = rest) by by apply skip_digits_complete.
  destruct Hs as [->|[->| ->]]; cbn [app deref].
  - apply Z.eqb_neq in Hx1 as ->, Hx2 as ->, Hx3 as ->. cbn [orb andb deref]. rewrite Hx. cbn [negb]. by rewrite drop1, Hsk.
  - cbn [Z.eqb Pos.eqb orb andb]. rewrite drop1. cbn [deref]. apply Z.eqb_neq in Hx3 as ->. rewrite Hx. cbn [negb]. by rewrite drop1, Hsk.
  - cbn [Z.eqb Pos.eqb orb andb]. rewrite drop1. cbn [deref]. apply Z.eqb_neq in Hx3 as ->. rewrite Hx. cbn [negb]. by rewrite drop1, Hsk.
Qed.

Lemma number_complete t rest : number_text t -> stops rest -> json_parse_number (t ++ rest) = Parsed (zlen t).
Proof.
  intros [sign int frac exp Hs Hi Hn Hz Hf He] Hr. unfold json_parse_number. rewrite <- !app_assoc.
  assert (Hd : exists x int', int = x :: int' /\ isdigit x = true).
  { destruct int as [|x int']; [done|]. apply Forall_cons in Hi as [? ?]. eauto. }
  destruct Hd as (x & int' & E & Hx). assert (Hsx : (if deref (sign ++ int ++ frac ++ exp ++ rest) =? 45
    then drop 1 (sign ++ int ++ frac ++ exp ++ rest) else sign ++ int ++ frac ++ exp ++ rest) = int ++ frac ++ exp ++ rest).
  { destruct Hs as [->| ->]; cbn [app]; [|done]. subst int. cbn [app deref]. by destruct (Z.eqb_spec x 45) as [->|]. }
  rewrite Hsx. assert (Hl : number_loop (int ++ frac ++ exp ++ rest) false 0 = (exp ++ rest, zlen int)).
  { rewrite (number_loop_digits _ _ _ _ Hi). destruct (exp_head exp rest He Hr) as [E1 E2]. destruct Hf as [|ds Hd]; cbn [app].
    - by rewrite number_loop_stop.
    - cbn [number_loop Z.eqb Pos.eqb]. by rewrite number_loop_digits, number_loop_stop. }
  rewrite Hl. assert (Hlen : zlen int <> 0) by (rewrite E, zlen_cons; pose proof (zlen_nonneg int'); lia).
  apply Z.eqb_neq in Hlen as ->. replace ((deref (int ++ frac ++ exp ++ rest) =? 48) && (1 <? zlen int)) with false.
  - rewrite number_exponent_complete by done. f_equal. rewrite !app_assoc. rewrite ptr_diff_app. done.
  - subst int. cbn [app deref] in *. destruct (Z.eqb_spec x 48) as [->|]; [|done]. specialize (Hz eq_refl). unfold zlen. rewrite Hz. done.
Qed.

Lemma number_loop_sound p : forall point n q m, number_loop p point n = (q, m) ->
  exists ds fr, p = ds ++ fr ++ q /\ digits ds /\ (if point then fr = [] /\ m = n else frac_text fr /\ m = n + zlen ds).
Proof.
  induction p as [|c p IH]; intros point n q m; cbn [number_loop].
  { intros [= <- <-]. exists [], []. rewrite (zlen_nil (A := Z)). destruct point; repeat constructor; lia. }
  assert (Hstop : (c :: p, n) = (q, m) -> exists ds fr, c :: p = ds ++ fr ++ q /\ digits ds /\
    (if point then fr = [] /\ m = n else frac_text fr /\ m = n + zlen ds)).
  { intros [= <- <-]. exists [], []. rewrite (zlen_nil (A := Z)). destruct point; repeat constructor; lia. }
  destruct (Z.eqb_spec c 46) as [->|].
  - destruct point; [done|]. intros (ds & fr & -> & Hd & -> & ->)%IH. exists [], (46 :: ds). cbn.
    rewrite (zlen_nil (A := Z)). split; [done|]. split; [constructor|]. split; [by constructor|lia].
  - destruct (isdigit c) eqn:Hc; cbn [negb]; [|done]. intros (ds & fr & -> & Hd & H)%IH. exists (c :: ds), fr. split; [done|].
    split; [by constructor|]. destruct point; [done|]. destruct H as [? ->]. rewrite zlen_cons. split; [done|lia].
Qed.

Lemma number_exponent_sound p q : number_exponent p = inl q -> exists exp, p = exp ++ q /\ exp_text exp.
Proof.
  unfold number_exponent. destruct ((deref p =? 101) || (deref p =? 69)) eqn:E.
  2:{ intros [= ->]. exists []. by repeat constructor. }
  destruct p as [|e p]; [done|]. cbn [deref] in E. rewrite drop1. destruct (deref p =? 0); [done|].
  set (sign := (deref p =? 43) || (deref p =? 45)). assert (Hs : exists sg, p = sg ++ (if sign then drop 1 p else p) /\ (sg = [] \/ sg = [43] \/ sg = [45])).
  { subst sign. destruct (Z.eqb_spec (deref p) 43) as [Hd|]; cbn [orb].
    - destruct p; [done|]. cbn in Hd. subst. exists [43]. by eauto.
    - destruct (Z.eqb_spec (deref p) 45) as [Hd|]; [|exists []; by eauto]. destruct p; [done|]. cbn in Hd. subst. exists [45]. by eauto. }
  destruct Hs as (sg & Hp & Hsg). revert Hp. generalize (if sign then drop 1 p else p). intros p2 ->.
  destruct (sign && (deref p2 =? 0)); [done|]. destruct (isdigit (deref p2)) eqn:Hx; [|done]. cbn [negb].
  destruct p2 as [|x p2]; [done|]. rewrite drop1. intros [= <-]. destruct (skip_digits_sound p2) as (ds & E2 & Hd).
  exists (e :: sg ++ x :: ds). split; [cbn; rewrite <- app_assoc; cbn; by rewrite <- E2|].
  constructor; [unbool; lia|done|by constructor|done].
Qed.

Lemma number_sound s n : json_parse_number s = Parsed n -> exists t rest, s = t ++ rest /\ number_text t /\ n = zlen t.
Proof.
  unfold json_parse_number. set (p := if deref s =? 45 then _ else _).
  assert (Hs : exists sign, s = sign ++ p /\ (sign = [] \/ sign = [45])).
  { subst p. destruct (Z.eqb_spec (deref s) 45) as [E|]; [|exists []; by eauto]. destruct s; [done|]. cbn in E. subst. exists [45]. by eauto. }
  destruct Hs as (sign & Hsp & Hsign). clearbody p. destruct (number_loop p false 0) as [q m] eqn:L.
  apply number_loop_sound in L as (int & frac & -> & Hi & Hf & ->). rewrite Z.add_0_l.
  destruct (Z.eqb_spec (zlen int) 0) as [|Hne]; [done|].
  destruct ((deref _ =? 48) && (1 <? zlen int)) eqn:Hz; [done|]. destruct (number_exponent q) as [rest|] eqn:X; [|done].
  apply number_exponent_sound in X as (exp & -> & He). intros [= <-].
  exists (sign ++ int ++ frac ++ exp), rest. subst s. split; [by rewrite <- !app_assoc|]. split; [|by rewrite !app_assoc, ptr_diff_app].
  constructor; try done; [intros ->; done|]. intros H0. destruct int as [|x int]; [done|]. cbn [app deref] in *.
  subst x. cbn [Z.eqb Pos.eqb andb] in Hz. unbool. unfold zlen in *. cbn [length] in *. lia.
Qed.

Lemma literal_complete text rest : json_parse_literal (text ++ rest) text = Parsed (zlen text).
Proof.
  unfold json_parse_literal. assert (H : literal_loop (text ++ rest) text = Some rest).
  { induction text as [|c text IH]; [done|]. cbn. rewrite Z.eqb_refl. cbn. by rewrite drop_0. }
  by rewrite H, ptr_diff_app.
Qed.

Lemma literal_sound s text n : Forall (fun c => c <> 0) text -> json_parse_literal s text = Parsed n ->
  exists rest, s = text ++ rest /\ n = zlen text.
Proof.
  intros Ht. unfold json_parse_literal. destruct (literal_loop s text) as [q|] eqn:L; [|done]. intros [= <-].
  assert (Hs : s = text ++ q); [|exists q; split; [done|by rewrite Hs, ptr_diff_app]].
  revert s L. induction Ht as [|c text Hc _ IH]; intros s; cbn [literal_loop]; [by intros [= ->]|].
  destruct (Z.eqb_spec (deref s) c) as [E|]; [|done]. cbn [negb]. destruct s as [|x s]; [cbn in E; congruence|].
  rewrite drop1. cbn in E. subst x. intros ->%IH. done.
Qed.

(** ** Values: every text of the grammar is parsed *)

Lemma stops_char c r : c = COMMA \/ c = RSQ \/ c = RBR \/ is_ws c = true -> stops (c :: r).
Proof.
  unfold is_ws, stops, isdigit. cbn [deref]. intros H. assert (c <> 46 /\ c <> 101 /\ c <> 69 /\ (c < 48 \/ 57 < c)) as (H1 & H2 & H3 & H4).
  { destruct H as [->|[->|[->|H]]]; unbool; lia. }
  split_and!; try done. apply andb_false_iff. rewrite !Z.leb_gt. lia.
Qed.

Lemma stops_white w c r : white w -> c = COMMA \/ c = RSQ \/ c = RBR -> stops (w ++ c :: r).
Proof. intros [|x w' Hx _] Hc; cbn [app]; apply stops_char; tauto. Qed.

Lemma nows_char c r : c = COMMA \/ c = RSQ \/ c = RBR \/ c = COLON \/ c = QUOT -> nows (c :: r).
Proof. cbn. intros H. by destruct_or!; subst c. Qed.

(** A value starts with a character that is neither white space nor the end
    of a list. *)
Lemma text_head v t : text_of v t -> exists c t', t = c :: t' /\ is_ws c = false /\ c <> 0 /\ c <> RSQ /\ c <> RBR /\ c <> COMMA.
Proof.
  intros [| | |t' [sign int frac exp Hs Hi Hn _ _ _]|r d _|w _|l t' _|w _|l t' _]; try (by eexists _, _).
  destruct int as [|x int]; [done|]. apply Forall_cons in Hi as [Hx _]. unfold isdigit in Hx. unbool.
  destruct Hs as [->| ->]; [|by eexists _, _]. eexists _, _. split; [done|]. split_and!; try lia. unfold is_ws.
  destruct (Z.eqb_spec x 32), (Z.eqb_spec x 9), (Z.eqb_spec x 13), (Z.eqb_spec x 10); first [lia|done].
Qed.

Definition value_parsed (v : json) (t : list Z) : Prop :=
  forall obj w rest fuel, white w -> stops rest -> (3 * length t < fuel)%nat ->
  exists o, json_parse_value fuel obj (w ++ t ++ rest) = Ret (Parsed (zlen (w ++ t)), o) /\ (obj = true -> o = obj_of v).

(** The loops are entered with or without the white space. *)
Definition items_parsed (l : list json) (t : list Z) : Prop :=
  forall obj rest fuel vs s, deref rest = RSQ -> (3 * length t + 1 < fuel)%nat -> s = t ++ rest \/ s = skip_whitespace (t ++ rest) ->
  exists os, array_loop fuel obj s vs = Ret (inl rest, os) /\ (obj = true -> os = vs ++ map obj_of l).

Definition add_member (els : list (list Z * zbx_jsonobj)) (nv : list Z * json) : list (list Z * zbx_jsonobj) :=
  insert_el (c_str nv.1) (obj_of nv.2) els.

Definition members_parsed (l : list (list Z * json)) (t : list Z) : Prop :=
  forall obj rest fuel els, deref rest = RBR -> (3 * length t + 1 < fuel)%nat ->
  exists os, object_loop fuel obj (skip_whitespace (t ++ rest)) els = Ret (inl rest, os) /\ (obj = true -> os = fold_left add_member l els).

Lemma deref_cons p c : deref p = c -> c <> 0 -> exists p', p = c :: p'.
Proof. destruct p as [|x p]; cbn; intros E Hc; [congruence|]. subst. eauto. Qed.

(** The parser at a value behind white space. *)
Lemma value_at fuel obj w p : white w -> nows p ->
  json_parse_value (S fuel) obj (w ++ p) = json_parse_value (S fuel) obj p ≫= fun r => Ret (match r with
    | (Parsed n, o) => (Parsed (zlen w + n), o) | (Failed e, o) => (Failed e, o) end).
Proof.
  intros Hw Hp. cbn [json_parse_value]. rewrite (skip_complete w p Hw Hp), (skip_nows p Hp), ptr_diff_app.
  replace (ptr_diff p p) with 0 by (unfold ptr_diff; lia).
  destruct (deref p =? 0); [done|]. destruct (deref p =? QUOT).
  { by destruct (json_parse_string obj p) as [[[] ?]|]. }
  destruct (deref p =? LBR); [by destruct (json_parse_object fuel obj p) as [[[] ?]|]|].
  destruct (deref p =? LSQ); [by destruct (json_parse_array fuel obj p) as [[[] ?]|]|].
  destruct (deref p =? 116); [by destruct (json_parse_literal p true_text)|].
  destruct (deref p =? 102); [by destruct (json_parse_literal p false_text)|].
  destruct (deref p =? 110); [by destruct (json_parse_literal p null_text)|].
  destruct (isdigit (deref p) || (deref p =? 45)); [by destruct (json_parse_number p)|done].
Qed.

(** A value without white space in front is enough. *)
Lemma value_parsed_intro v t : text_of v t ->
  (forall obj rest fuel, stops rest -> (3 * length t < S fuel)%nat ->
   exists o, json_parse_value (S fuel) obj (t ++ rest) = Ret (Parsed (zlen t), o) /\ (obj = true -> o = obj_of v)) ->
  value_parsed v t.
Proof.
  intros Ht H obj w rest [|fuel] Hw Hr Hf; [lia|]. destruct (H obj rest fuel Hr Hf) as (o & E & Ho). exists o. split; [|done].
  destruct (text_head _ _ Ht) as (c & t' & -> & Hc & _). rewrite value_at by done. rewrite E. cbn [mbind res_mbind]. by rewrite zlen_app.
Qed.

Lemma value_of_container v t (parse : nat -> bool -> list Z -> res (parsed * zbx_jsonobj)) :
  text_of v t ->
  (deref t = LBR /\ parse = json_parse_object \/ deref t = LSQ /\ parse = json_parse_array) ->
  (forall obj rest fuel, (3 * length t <= fuel)%nat ->
   exists o, parse fuel obj (t ++ rest) = Ret (Parsed (zlen t), o) /\ (obj = true -> o = obj_of v)) ->
  value_parsed v t.
Proof.
  intros Ht Hp H. apply value_parsed_intro; [done|]. intros obj rest fuel Hr Hf. destruct (H obj rest fuel) as (o & E & Ho); [lia|].
  exists o. split; [|done]. destruct (text_head _ _ Ht) as (c & t' & -> & Hc & _). cbn [app deref] in *.
  cbn [json_parse_value]. rewrite skip_nows by done. replace (ptr_diff (c :: t' ++ rest) (c :: t' ++ rest)) with 0 by (unfold ptr_diff; lia).
  destruct Hp as [[-> ->]|[-> ->]]; cbn [deref Z.eqb Pos.eqb]; rewrite E; cbn [mbind res_mbind]; done.
Qed.

(** An array or object of no elements. *)
Lemma array0_complete w obj rest fuel : white w -> (0 < fuel)%nat ->
  json_parse_array fuel obj ((LSQ :: w ++ [RSQ]) ++ rest) = Ret (Parsed (zlen (LSQ :: w ++ [RSQ])), Jo_array []).
Proof.
  intros Hw Hf. destruct fuel as [|fuel]; [lia|]. cbn [json_parse_array app]. rewrite drop1, <- app_assoc.
  rewrite skip_complete by (try done). cbn [app deref Z.eqb Pos.eqb negb].
  change (LSQ :: w ++ RSQ :: rest) with ((LSQ :: w) ++ RSQ :: rest). rewrite ptr_diff_app. do 3 f_equal.
  rewrite !zlen_cons, zlen_app, zlen_cons, (zlen_nil (A := Z)). lia.
Qed.

Lemma object0_complete w obj rest fuel : white w -> (0 < fuel)%nat ->
  json_parse_object fuel obj ((LBR :: w ++ [RBR]) ++ rest) = Ret (Parsed (zlen (LBR :: w ++ [RBR])), Jo_object []).
Proof.
  intros Hw Hf. destruct fuel as [|fuel]; [lia|]. cbn [json_parse_object app]. rewrite (skip_nows (LBR :: _)), drop1, <- app_assoc by done.
  rewrite skip_complete by (try done). cbn [app deref Z.eqb Pos.eqb negb].
  change (LBR :: w ++ RBR :: rest) with ((LBR :: w) ++ RBR :: rest). rewrite ptr_diff_app. do 3 f_equal.
  rewrite !zlen_cons, zlen_app, zlen_cons, (zlen_nil (A := Z)). lia.
Qed.

Lemma items_head l t : items l t -> exists w c t', t = w ++ c :: t' /\ white w /\ is_ws c = false /\ c <> RSQ.
Proof.
  intros [v w1 t' w2 Hw (c & t'' & -> & ? & ? & ? & _)%text_head _|v l' w1 t' w2 ts Hw (c & t'' & -> & ? & ? & ? & _)%text_head _ _];
    eexists w1, c, _; by split_and!.
Qed.

Lemma members_head l t : members l t -> exists w t', t = w ++ QUOT :: t' /\ white w.
Proof. intros [d r v w1 w2 w3 t' w4 Hw|d r v l' w1 w2 w3 t' w4 ts Hw]; eexists w1, _; by split. Qed.

Lemma array_complete l t obj rest fuel : items l t -> items_parsed l t -> (3 * length (LSQ :: t ++ [RSQ]) <= fuel)%nat ->
  exists o, json_parse_array fuel obj ((LSQ :: t ++ [RSQ]) ++ rest) = Ret (Parsed (zlen (LSQ :: t ++ [RSQ])), o) /\
    (obj = true -> o = obj_of (JArray l)).
Proof.
  intros Hi H Hf. cbn [length] in Hf. rewrite length_app in Hf. destruct fuel as [|fuel]; [lia|]. cbn [json_parse_array app].
  rewrite drop1, <- app_assoc. cbn [app]. destruct (H obj (RSQ :: rest) fuel [] _ eq_refl ltac:(lia) (or_intror eq_refl)) as (os & E & Ho).
  destruct (items_head _ _ Hi) as (w & c & t' & Et & Hw & Hc & Hne).
  assert (Hs : deref (skip_whitespace (t ++ RSQ :: rest)) = c).
  { rewrite Et, <- app_assoc. by rewrite skip_complete. }
  rewrite Hs. apply Z.eqb_neq in Hne as ->. cbn [negb]. rewrite E. cbn [mbind res_mbind deref Z.eqb Pos.eqb negb].
  exists (Jo_array os). split; [|intros ->; cbn; by rewrite Ho].
  change (LSQ :: t ++ RSQ :: rest) with ((LSQ :: t) ++ RSQ :: rest). rewrite ptr_diff_app. do 3 f_equal.
  rewrite !zlen_cons, zlen_app, zlen_cons, (zlen_nil (A := Z)). lia.
Qed.

Lemma object_complete l t obj rest fuel : members l t -> members_parsed l t -> (3 * length (LBR :: t ++ [RBR]) <= fuel)%nat ->
  exists o, json_parse_object fuel obj ((LBR :: t ++ [RBR]) ++ rest) = Ret (Parsed (zlen (LBR :: t ++ [RBR])), o) /\
    (obj = true -> o = obj_of (JObject l)).
Proof.
  intros Hm H Hf. cbn [length] in Hf. rewrite length_app in Hf. destruct fuel as [|fuel]; [lia|]. cbn [json_parse_object app].
  rewrite (skip_nows (LBR :: _)), drop1, <- app_assoc by done. cbn [app].
  destruct (H obj (RBR :: rest) fuel [] eq_refl ltac:(lia)) as (os & E & Ho).
  destruct (members_head _ _ Hm) as (w & t' & Et & Hw).
  assert (Hs : deref (skip_whitespace (t ++ RBR :: rest)) = QUOT).
  { rewrite Et, <- app_assoc. by rewrite skip_complete. }
  rewrite Hs. cbn [Z.eqb Pos.eqb negb]. rewrite E. cbn [mbind res_mbind deref Z.eqb Pos.eqb negb].
  exists (Jo_object os). split; [|intros ->; cbn; by rewrite Ho].
  change (LBR :: t ++ RBR :: rest) with ((LBR :: t) ++ RBR :: rest). rewrite ptr_diff_app. do 3 f_equal.
  rewrite !zlen_cons, zlen_app, zlen_cons, (zlen_nil (A := Z)). lia.
Qed.

(** Scalars. *)
Lemma value_literal v text c t' : text = c :: t' -> text_of v text ->
  (c = 116 /\ text = true_text /\ obj_of v = Jo_true \/ c = 102 /\ text = false_text /\ obj_of v = Jo_false \/
   c = 110 /\ text = null_text /\ obj_of v = Jo_null) -> value_parsed v text.
Proof.
  intros Et Ht Hc. apply value_parsed_intro; [done|]. intros obj rest fuel Hr Hf. exists (obj_of v). split; [|done].
  destruct (text_head _ _ Ht) as (c' & t'' & E & Hws & _). cbn [json_parse_value].
  rewrite skip_nows by (rewrite E; done). replace (ptr_diff (text ++ rest) (text ++ rest)) with 0 by (unfold ptr_diff; lia).
  replace (deref (text ++ rest)) with c by by rewrite Et.
  destruct Hc as [(-> & -> & ->)|[(-> & -> & ->)|(-> & -> & ->)]]; cbn [Z.eqb Pos.eqb]; by rewrite literal_complete.
Qed.

Lemma value_number t : number_text t -> value_parsed (JNumber t) t.
Proof.
  intros Hn. pose proof (text_number t Hn) as Ht. apply value_parsed_intro; [done|]. intros obj rest fuel Hr Hf. exists (Jo_number t).
  split; [|done]. destruct (text_head _ _ Ht) as (c & t' & E & Hws & _). cbn [json_parse_value].
  rewrite skip_nows by (rewrite E; done). replace (ptr_diff (t ++ rest) (t ++ rest)) with 0 by (unfold ptr_diff; lia).
  rewrite (number_complete _ _ Hn Hr), to_nat_zlen, take_app_length.
  assert (Hc : (isdigit (deref (t ++ rest)) || (deref (t ++ rest) =? 45)) = true).
  { destruct Hn as [sign int frac exp [->| ->] Hi Hne _ _ _]; [|done]. destruct int as [|x int]; [done|]. cbn.
    apply Forall_cons in Hi as [-> _]. done. }
  rewrite Hc. unfold isdigit in Hc. unbool.
  repeat (match goal with |- context [deref (t ++ rest) =? ?n] => destruct (Z.eqb_spec (deref (t ++ rest)) n); [lia|] end). done.
Qed.

Lemma value_string r d : raw_text r d -> value_parsed (JString d) (QUOT :: r ++ [QUOT]).
Proof.
  intros Hr. apply value_parsed_intro; [by constructor|]. intros obj rest fuel _ Hf.
  exists (if obj then Jo_string (c_str d) else Jo_unknown). split; [|by intros ->].
  cbn [app json_parse_value]. rewrite skip_nows by done. cbn [deref Z.eqb Pos.eqb].
  rewrite <- app_assoc. cbn [app]. rewrite (parse_string_complete _ _ _ _ Hr). cbn [mbind res_mbind].
  replace (ptr_diff _ _) with 0 by (unfold ptr_diff; lia). by destruct obj.
Qed.

Lemma skip_of_white w1 p s : white w1 -> nows p -> s = w1 ++ p \/ s = skip_whitespace (w1 ++ p) -> exists w, s = w ++ p /\ white w.
Proof. intros Hw Hp [->| ->]; [by exists w1|]. exists []. split; [by rewrite skip_complete|constructor]. Qed.

Lemma text_nows v t r : text_of v t -> nows (t ++ r).
Proof. by intros (c & t' & -> & Hc & _)%text_head. Qed.

Lemma items_one_parsed v w1 t w2 : white w1 -> text_of v t -> value_parsed v t -> white w2 -> items_parsed [v] (w1 ++ t ++ w2).
Proof.
  intros Hw1 Ht HP Hw2 obj rest fuel vs s Hrest Hf Hs. rewrite <- !app_assoc in Hs.
  destruct (deref_cons _ _ Hrest ltac:(done)) as [r ->].
  apply skip_of_white in Hs as (w & -> & Hw); [|done|by eapply text_nows]. rewrite !length_app in Hf. destruct fuel as [|fuel]; [lia|].
  cbn [array_loop]. destruct (HP obj w (w2 ++ RSQ :: r) fuel Hw) as (o & E & Ho); [apply stops_white; tauto|lia|].
  rewrite E. cbn [mbind res_mbind]. rewrite app_assoc, drop_text, skip_complete by (try done). cbn [deref Z.eqb Pos.eqb negb].
  exists (vs ++ [o]). split; [done|]. intros Hob. by rewrite Ho.
Qed.

Lemma items_more_parsed v l w1 t w2 ts : white w1 -> text_of v t -> value_parsed v t -> white w2 -> items_parsed l ts ->
  items_parsed (v :: l) (w1 ++ t ++ w2 ++ COMMA :: ts).
Proof.
  intros Hw1 Ht HP Hw2 HQ obj rest fuel vs s Hrest Hf Hs. rewrite <- !app_assoc in Hs. cbn [app] in Hs.
  apply skip_of_white in Hs as (w & -> & Hw); [|done|by eapply text_nows]. rewrite !length_app in Hf. cbn [length] in Hf.
  destruct fuel as [|fuel]; [lia|]. cbn [array_loop].
  destruct (HP obj w (w2 ++ COMMA :: ts ++ rest) fuel Hw) as (o & E & Ho); [apply stops_white; tauto|lia|].
  rewrite E. cbn [mbind res_mbind]. rewrite app_assoc, drop_text, skip_complete by (try done). cbn [deref Z.eqb Pos.eqb negb]. rewrite drop1.
  destruct (HQ obj rest fuel (vs ++ [o]) _ Hrest ltac:(lia) (or_introl eq_refl)) as (os & E' & Hos). exists os. split; [done|].
  intros Hob. rewrite Hos, Ho by done. by rewrite <- app_assoc.
Qed.

Lemma member_name_parsed obj w1 r d w2 p fuel els : white w1 -> raw_text r d -> white w2 ->
  object_loop (S fuel) obj (skip_whitespace (w1 ++ (QUOT :: r ++ [QUOT]) ++ w2 ++ COLON :: p)) els =
  ('(q, value) ← json_parse_value fuel obj p;
   match q with
   | Failed e => Ret (inr e, els)
   | Parsed len =>
       let els := if obj then insert_el (c_str d) value els else els in
       let ptr := skip_whitespace (drop (Z.to_nat len) p) in
       if negb (deref ptr =? COMMA) then Ret (inl ptr, els)
       else object_loop fuel obj (skip_whitespace (drop 1 ptr)) els
   end).
Proof.
  intros Hw1 Hr Hw2. rewrite skip_complete by (try done). cbn [object_loop app deref Z.eqb Pos.eqb negb].
  rewrite <- app_assoc. cbn [app]. rewrite (parse_string_complete _ _ _ _ Hr). cbn [mbind res_mbind].
  change (QUOT :: r ++ QUOT :: w2 ++ COLON :: p) with ((QUOT :: r) ++ [QUOT] ++ w2 ++ COLON :: p).
  rewrite app_assoc. change ((QUOT :: r) ++ [QUOT]) with (QUOT :: r ++ [QUOT]). rewrite drop_text, skip_complete by (try done).
  cbn [deref Z.eqb Pos.eqb negb]. rewrite drop1. destruct (json_parse_value fuel obj p) as [[q value]|]; [|done]. cbn [mbind res_mbind].
  destruct q; [|done]. by destruct obj.
Qed.

Lemma members_one_parsed d r v w1 w2 w3 t w4 : white w1 -> raw_text r d -> white w2 -> white w3 -> text_of v t -> value_parsed v t -> white w4 ->
  members_parsed [(d, v)] (w1 ++ (QUOT :: r ++ [QUOT]) ++ w2 ++ COLON :: w3 ++ t ++ w4).
Proof.
  intros Hw1 Hr Hw2 Hw3 Ht HP Hw4 obj rest fuel els Hrest Hf. destruct (deref_cons _ _ Hrest ltac:(done)) as [q ->].
  rewrite !length_app in Hf. cbn [length] in Hf. rewrite !length_app in Hf. destruct fuel as [|fuel]; [lia|].
  replace ((w1 ++ (QUOT :: r ++ [QUOT]) ++ w2 ++ COLON :: w3 ++ t ++ w4) ++ RBR :: q) with
    (w1 ++ (QUOT :: r ++ [QUOT]) ++ w2 ++ COLON :: w3 ++ t ++ w4 ++ RBR :: q) by by flat_app.
  rewrite (member_name_parsed _ _ _ d) by done.
  destruct (HP obj w3 (w4 ++ RBR :: q) fuel Hw3) as (o & E & Ho); [apply stops_white; tauto|lia|]. rewrite E. cbn [mbind res_mbind].
  rewrite app_assoc, drop_text, skip_complete by (try done). cbn [deref Z.eqb Pos.eqb negb]. eexists. split; [done|].
  intros ->. rewrite Ho by done. done.
Qed.

Lemma members_more_parsed d r v l w1 w2 w3 t w4 ts : white w1 -> raw_text r d -> white w2 -> white w3 -> text_of v t -> value_parsed v t -> white w4 ->
  members_parsed l ts -> members_parsed ((d, v) :: l) (w1 ++ (QUOT :: r ++ [QUOT]) ++ w2 ++ COLON :: w3 ++ t ++ w4 ++ COMMA :: ts).
Proof.
  intros Hw1 Hr Hw2 Hw3 Ht HP Hw4 HR obj rest fuel els Hrest Hf.
  rewrite !length_app in Hf. cbn [length] in Hf. rewrite !length_app in Hf. cbn [length] in Hf. destruct fuel as [|fuel]; [lia|].
  replace ((w1 ++ (QUOT :: r ++ [QUOT]) ++ w2 ++ COLON :: w3 ++ t ++ w4 ++ COMMA :: ts) ++ rest) with
    (w1 ++ (QUOT :: r ++ [QUOT]) ++ w2 ++ COLON :: w3 ++ t ++ w4 ++ COMMA :: ts ++ rest) by by flat_app.
  rewrite (member_name_parsed _ _ _ d) by done.
  destruct (HP obj w3 (w4 ++ COMMA :: ts ++ rest) fuel Hw3) as (o & E & Ho); [apply stops_white; tauto|lia|]. rewrite E. cbn [mbind res_mbind].
  rewrite app_assoc, drop_text, skip_complete by (try done). cbn [deref Z.eqb Pos.eqb negb]. rewrite drop1.
  destruct (HR obj rest fuel (if obj then insert_el (c_str d) o els else els) Hrest ltac:(lia)) as (os & E' & Hos).
  exists os. split; [done|]. intros Hob. rewrite Hos by done. subst obj. rewrite Ho by done. done.
Qed.

Lemma grammar_complete :
  (forall v t, text_of v t -> value_parsed v t) /\ (forall l t, items l t -> items_parsed l t) /\
  (forall l t, members l t -> members_parsed l t).
Proof.
  apply (grammar_ind (fun v t _ => value_parsed v t) (fun l t _ => items_parsed l t) (fun l t _ => members_parsed l t)).
  - eapply value_literal; [done|constructor|tauto].
  - eapply value_literal; [done|constructor|tauto].
  - eapply value_literal; [done|constructor|tauto].
  - intros. by apply value_number.
  - intros. by apply value_string.
  - intros w Hw. apply (value_of_container _ _ json_parse_array); [by constructor|by right|]. intros obj rest fuel Hf.
    eexists. split; [apply array0_complete; [done|cbn in Hf; lia]|done].
  - intros l t Hi HQ. apply (value_of_container _ _ json_parse_array); [by constructor|by right|]. intros. by apply array_complete.
  - intros w Hw. apply (value_of_container _ _ json_parse_object); [by constructor|by left|]. intros obj rest fuel Hf.
    eexists. split; [apply object0_complete; [done|cbn in Hf; lia]|done].
  - intros l t Hm HR. apply (value_of_container _ _ json_parse_object); [by constructor|by left|]. intros. by apply object_complete.
  - intros. by apply items_one_parsed.
  - intros. by apply items_more_parsed.
  - intros. by apply members_one_parsed.
  - intros. by apply members_more_parsed.
Qed.

(** ** Values: what is parsed is a text of the grammar *)

Definition value_sound (fuel : nat) : Prop := forall obj s n o, json_parse_value fuel obj s = Ret (Parsed n, o) ->
  exists v w t rest, s = w ++ t ++ rest /\ white w /\ text_of v t /\ n = zlen (w ++ t) /\ (obj = true -> o = obj_of v).

Definition array_sound (fuel : nat) : Prop := forall obj s n o, json_parse_array fuel obj (LSQ :: s) = Ret (Parsed n, o) ->
  exists l t rest, LSQ :: s = t ++ rest /\ text_of (JArray l) t /\ n = zlen t /\ (obj = true -> o = obj_of (JArray l)).

Definition object_sound (fuel : nat) : Prop := forall obj s n o, json_parse_object fuel obj (LBR :: s) = Ret (Parsed n, o) ->
  exists l t rest, LBR :: s = t ++ rest /\ text_of (JObject l) t /\ n = zlen t /\ (obj = true -> o = obj_of (JObject l)).

Definition items_sound (fuel : nat) : Prop := forall obj p vs q os, array_loop fuel obj p vs = Ret (inl q, os) ->
  exists l t, p = t ++ q /\ items l t /\ (obj = true -> os = vs ++ map obj_of l).

Definition members_sound (fuel : nat) : Prop := forall obj p els q os, object_loop fuel obj p els = Ret (inl q, os) ->
  exists l t, p = t ++ q /\ members l t /\ (obj = true -> os = fold_left add_member l els).

Lemma eqb_false (a b : Z) : negb (a =? b) = false -> a = b.
Proof. intros H. unbool. lia. Qed.

Lemma items_prepend w l t : white w -> items l t -> items l (w ++ t).
Proof. intros Hw [v w1 t' w2 ? ? ?|v l' w1 t' w2 ts ? ? ? ?]; rewrite app_assoc; constructor; try done; by apply white_app. Qed.

Lemma members_prepend w l t : white w -> members l t -> members l (w ++ t).
Proof. intros Hw H. destruct H; rewrite app_assoc; constructor; try done; by apply white_app. Qed.

Lemma array_sound_step fuel : items_sound fuel -> array_sound (S fuel).
Proof.
  intros HL obj s n o. cbn [json_parse_array]. rewrite drop1. destruct (skip_sound s) as (w & Es & Hw & _).
  revert Es. generalize (skip_whitespace s). intros p ->. destruct (negb (deref p =? RSQ)) eqn:Hp.
  - intros ([[q|e] os] & Hl & H)%bind_Ret; [|done]. destruct (negb (deref q =? RSQ)) eqn:Hq; [done|]. simplify_eq.
    apply HL in Hl as (l & t & -> & Hi & Ho). apply eqb_false in Hq. destruct (deref_cons _ _ Hq ltac:(done)) as [rest ->].
    exists l, (LSQ :: (w ++ t) ++ [RSQ]), rest. split; [cbn; by rewrite <- !app_assoc|]. split; [constructor; by apply items_prepend|].
    split; [|intros Hob; cbn; by rewrite Ho].
    rewrite app_assoc. change (LSQ :: (w ++ t) ++ RSQ :: rest) with ((LSQ :: w ++ t) ++ RSQ :: rest). rewrite ptr_diff_app.
    rewrite !zlen_cons, !zlen_app, zlen_cons, (zlen_nil (A := Z)). lia.
  - intros [= <- <-]. apply eqb_false in Hp. destruct (deref_cons _ _ Hp ltac:(done)) as [rest ->].
    exists [], (LSQ :: w ++ [RSQ]), rest. split; [cbn; by rewrite <- app_assoc|]. split; [by constructor|]. split; [|done].
    change (LSQ :: w ++ RSQ :: rest) with ((LSQ :: w) ++ RSQ :: rest). rewrite ptr_diff_app.
    rewrite !zlen_cons, zlen_app, zlen_cons, (zlen_nil (A := Z)). lia.
Qed.

Lemma object_sound_step fuel : members_sound fuel -> object_sound (S fuel).
Proof.
  intros HL obj s n o. cbn [json_parse_object]. rewrite (skip_nows (LBR :: s)), drop1 by done. destruct (skip_sound s) as (w & Es & Hw & _).
  revert Es. generalize (skip_whitespace s). intros p ->. destruct (negb (deref p =? RBR)) eqn:Hp.
  - intros ([[q|e] os] & Hl & H)%bind_Ret; [|done]. destruct (negb (deref q =? RBR)) eqn:Hq; [done|]. simplify_eq.
    apply HL in Hl as (l & t & -> & Hi & Ho). apply eqb_false in Hq. destruct (deref_cons _ _ Hq ltac:(done)) as [rest ->].
    exists l, (LBR :: (w ++ t) ++ [RBR]), rest. split; [cbn; by rewrite <- !app_assoc|]. split; [constructor; by apply members_prepend|].
    split; [|intros Hob; cbn; by rewrite Ho].
    rewrite app_assoc. change (LBR :: (w ++ t) ++ RBR :: rest) with ((LBR :: w ++ t) ++ RBR :: rest). rewrite ptr_diff_app.
    rewrite !zlen_cons, !zlen_app, zlen_cons, (zlen_nil (A := Z)). lia.
  - intros [= <- <-]. apply eqb_false in Hp. destruct (deref_cons _ _ Hp ltac:(done)) as [rest ->].
    exists [], (LBR :: w ++ [RBR]), rest. split; [cbn; by rewrite <- app_assoc|]. split; [by constructor|]. split; [|done].
    change (LBR :: w ++ RBR :: rest) with ((LBR :: w) ++ RBR :: rest). rewrite ptr_diff_app.
    rewrite !zlen_cons, zlen_app, zlen_cons, (zlen_nil (A := Z)). lia.
Qed.

Lemma items_sound_step fuel : value_sound fuel -> items_sound fuel -> items_sound (S fuel).
Proof.
  intros HV HL obj p vs q os. cbn [array_loop]. intros ([[n|e] value] & Hv & H)%bind_Ret; [|done].
  apply HV in Hv as (v & w & t & rest & -> & Hw & Ht & -> & Ho). rewrite app_assoc, drop_text in H.
  destruct (skip_sound rest) as (w2 & Er & Hw2 & _). revert Er H. generalize (skip_whitespace rest). intros p ->.
  destruct (negb (deref p =? COMMA)) eqn:Hc.
  - intros [= <- <-]. exists [v], (w ++ t ++ w2). split; [by rewrite <- !app_assoc|]. split; [by constructor|]. intros Hob. by rewrite Ho.
  - apply eqb_false in Hc. destruct (deref_cons _ _ Hc ltac:(done)) as [p' ->]. rewrite drop1.
    intros (l & ts & -> & Hi & Hos)%HL. exists (v :: l), (w ++ t ++ w2 ++ COMMA :: ts).
    split; [by rewrite <- !app_assoc|]. split; [by constructor|]. intros Hob. rewrite Hos, Ho by done. by rewrite <- app_assoc.
Qed.

Lemma members_sound_step fuel : value_sound fuel -> members_sound fuel -> members_sound (S fuel).
Proof.
  intros HV HL obj p els q os. cbn [object_loop]. destruct (negb (deref p =? QUOT)) eqn:Hq; [done|].
  apply eqb_false in Hq. destruct (deref_cons _ _ Hq ltac:(done)) as [p1 ->].
  intros ([[n|e] name] & Hs & H)%bind_Ret; [|done]. apply parse_string_sound in Hs as (r & d & p2 & -> & Hr & -> & ->).
  change (QUOT :: r ++ QUOT :: p2) with ((QUOT :: r) ++ [QUOT] ++ p2) in H. rewrite app_assoc in H.
  change ((QUOT :: r) ++ [QUOT]) with (QUOT :: r ++ [QUOT]) in H. rewrite drop_text in H.
  destruct (skip_sound p2) as (w2 & E2 & Hw2 & _). revert E2 H. generalize (skip_whitespace p2). intros p3 ->.
  destruct (negb (deref p3 =? COLON)) eqn:Hc; [done|]. apply eqb_false in Hc. destruct (deref_cons _ _ Hc ltac:(done)) as [p4 ->].
  rewrite drop1. intros ([[n|e] value] & Hv & H)%bind_Ret; [|done].
  apply HV in Hv as (v & w3 & t & p5 & -> & Hw3 & Ht & -> & Ho). rewrite app_assoc, drop_text in H.
  destruct (skip_sound p5) as (w4 & E5 & Hw4 & _). revert E5 H. generalize (skip_whitespace p5). intros p6 ->.
  destruct (negb (deref p6 =? COMMA)) eqn:Hm.
  - intros [= <- <-]. exists [(d, v)], ([] ++ (QUOT :: r ++ [QUOT]) ++ w2 ++ COLON :: w3 ++ t ++ w4).
    split; [by flat_app|].
    split; [by repeat constructor|]. intros ->. by rewrite Ho.
  - apply eqb_false in Hm. destruct (deref_cons _ _ Hm ltac:(done)) as [p7 ->]. rewrite drop1.
    intros (l & ts & E & Hi & Hos)%HL. destruct (skip_sound p7) as (w5 & E7 & Hw5 & _). rewrite E in E7. subst p7.
    exists ((d, v) :: l), ([] ++ (QUOT :: r ++ [QUOT]) ++ w2 ++ COLON :: w3 ++ t ++ w4 ++ COMMA :: w5 ++ ts).
    split; [by flat_app|].
    split; [constructor; try done; [constructor|by apply members_prepend]|]. intros Hob. rewrite Hos by done. subst obj. by rewrite Ho.
Qed.

Lemma nonzero_texts : Forall (fun c => c <> 0) true_text /\ Forall (fun c => c <> 0) false_text /\ Forall (fun c => c <> 0) null_text.
Proof. split_and!; by repeat constructor. Qed.

Lemma value_sound_step fuel : array_sound fuel -> object_sound fuel -> value_sound (S fuel).
Proof.
  intros HA HO obj s n o. cbn [json_parse_value]. destruct (skip_sound s) as (w & Es & Hw & _).
  revert Es. generalize (skip_whitespace s). intros p ->. rewrite ptr_diff_app.
  assert (Hdone : forall v t rest m o', p = t ++ rest -> text_of v t -> m = zlen t -> (obj = true -> o' = obj_of v) ->
    (Parsed (zlen w + m), o') = (Parsed n, o) ->
    exists v w' t rest, w ++ p = w' ++ t ++ rest /\ white w' /\ text_of v t /\ n = zlen (w' ++ t) /\ (obj = true -> o = obj_of v)).
  { intros v t rest m o' -> Ht -> Ho [= <- <-]. exists v, w, t, rest. rewrite zlen_app. by split_and!. }
  destruct nonzero_texts as (N1 & N2 & N3).
  destruct (deref p =? 0); [done|]. destruct (Z.eqb_spec (deref p) QUOT) as [E|_].
  { destruct (deref_cons _ _ E ltac:(done)) as [p' ->]. intros ([[m|e] str] & Hs & H)%bind_Ret; [|done].
    apply parse_string_sound in Hs as (r & d & rest & -> & Hr & -> & ->). injection H as H1 H2.
    apply (Hdone (JString d) (QUOT :: r ++ [QUOT]) rest (zlen (QUOT :: r ++ [QUOT])) (if obj then Jo_string (c_str d) else Jo_unknown));
      [cbn; by rewrite <- app_assoc|by constructor|done|by intros ->|]. f_equal; [by f_equal|]. by destruct obj. }
  destruct (Z.eqb_spec (deref p) LBR) as [E|_].
  { destruct (deref_cons _ _ E ltac:(done)) as [p' ->]. intros ([[m|e] o'] & Hs & H)%bind_Ret; [|done].
    apply HO in Hs as (l & t & rest & Et & Ht & -> & Ho). injection H as H1 H2. eapply Hdone; [done..|]. congruence. }
  destruct (Z.eqb_spec (deref p) LSQ) as [E|_].
  { destruct (deref_cons _ _ E ltac:(done)) as [p' ->]. intros ([[m|e] o'] & Hs & H)%bind_Ret; [|done].
    apply HA in Hs as (l & t & rest & Et & Ht & -> & Ho). injection H as H1 H2. eapply Hdone; [done..|]. congruence. }
  destruct (deref p =? 116).
  { destruct (json_parse_literal p true_text) as [m|] eqn:L; [|done]. apply literal_sound in L as (rest & -> & ->); [|done].
    intros [= <- <-]. eapply Hdone; [done|constructor|done..]. }
  destruct (deref p =? 102).
  { destruct (json_parse_literal p false_text) as [m|] eqn:L; [|done]. apply literal_sound in L as (rest & -> & ->); [|done].
    intros [= <- <-]. eapply Hdone; [done|constructor|done..]. }
  destruct (deref p =? 110).
  { destruct (json_parse_literal p null_text) as [m|] eqn:L; [|done]. apply literal_sound in L as (rest & -> & ->); [|done].
    intros [= <- <-]. eapply Hdone; [done|constructor|done..]. }
  destruct (isdigit (deref p) || (deref p =? 45)); [|done].
  destruct (json_parse_number p) as [m|] eqn:L; [|done]. apply number_sound in L as (t & rest & -> & Ht & ->).
  rewrite to_nat_zlen, take_app_length. intros [= <- <-]. eapply Hdone; [done|by constructor|done..].
Qed.

Lemma parser_sound fuel : value_sound fuel /\ array_sound fuel /\ object_sound fuel /\ items_sound fuel /\ members_sound fuel.
Proof.
  induction fuel as [|fuel (HV & HA & HO & HI & HM)]; [by split_and!|]. split_and!.
  - by apply value_sound_step.
  - by apply array_sound_step.
  - by apply object_sound_step.
  - by apply items_sound_step.
  - by apply members_sound_step.
Qed.

(** ** The parser returns *)

Lemma skip_length s : (length (skip_whitespace s) <= length s)%nat.
Proof. destruct (skip_sound s) as (w & E & _). rewrite E at 2. rewrite length_app. lia. Qed.

Lemma deref_length p c : deref p = c -> c <> 0 -> length p = S (length (drop 1 p)).
Proof. intros H Hc. destruct (deref_cons _ _ H Hc) as [p' ->]. done. Qed.

Lemma returns_bind {A B} (m : res A) (f : A -> res B) : returns m -> (forall a, returns (f a)) -> returns (m ≫= f).
Proof. intros [a ->] Hf. apply Hf. Qed.

Lemma returns_Ret {A} (a : A) : returns (Ret a).
Proof. by exists a. Qed.

#[local] Hint Resolve returns_Ret : core.

Definition parser_total_at (fuel : nat) : Prop := forall obj,
  (forall s, (3 * length s < fuel)%nat -> returns (json_parse_value fuel obj s)) /\
  (forall s, s <> [] -> (3 * length s <= fuel)%nat -> returns (json_parse_array fuel obj s)) /\
  (forall s, s <> [] -> nows s -> (3 * length s <= fuel)%nat -> returns (json_parse_object fuel obj s)) /\
  (forall s vs, (3 * length s + 1 < fuel)%nat -> returns (array_loop fuel obj s vs)) /\
  (forall s els, (3 * length s + 1 < fuel)%nat -> returns (object_loop fuel obj s els)).

Lemma value_total fuel obj : parser_total_at fuel ->
  forall s, (3 * length s < S fuel)%nat -> returns (json_parse_value (S fuel) obj s).
Proof.
  intros HT s Hf. destruct (HT obj) as (_ & HA & HO & _). cbn [json_parse_value]. pose proof (skip_length s) as Hl.
  destruct (skip_sound s) as (w & _ & _ & Hn). destruct (Z.eqb_spec (deref (skip_whitespace s)) 0) as [|H0]; [done|].
  assert (Hne : skip_whitespace s <> []) by (intros E; rewrite E in H0; done).
  destruct (_ =? QUOT). { apply returns_bind; [by apply parse_string_total|]. by intros [[] ?]. }
  destruct (_ =? LBR). { apply returns_bind; [apply HO; [done|done|lia]|]. by intros [[] ?]. }
  destruct (_ =? LSQ). { apply returns_bind; [apply HA; [done|lia]|]. by intros [[] ?]. }
  destruct (_ =? 116); [by destruct (json_parse_literal _ _)|]. destruct (_ =? 102); [by destruct (json_parse_literal _ _)|].
  destruct (_ =? 110); [by destruct (json_parse_literal _ _)|]. destruct (_ || _); [|done]. by destruct (json_parse_number _).
Qed.

Lemma loops_total fuel obj : parser_total_at fuel ->
  (forall s vs, (3 * length s + 1 < S fuel)%nat -> returns (array_loop (S fuel) obj s vs)) /\
  (forall s els, (3 * length s + 1 < S fuel)%nat -> returns (object_loop (S fuel) obj s els)).
Proof.
  intros HT. destruct (HT obj) as (HV & _ & _ & HL & HM). split.
  - intros s vs Hf. cbn [array_loop]. apply returns_bind; [apply HV; lia|]. intros [[n|e] value]; [|done].
    pose proof (skip_length (drop (Z.to_nat n) s)) as Hl. rewrite length_drop in Hl. destruct (negb _) eqn:Hc; [done|].
    apply eqb_false in Hc. pose proof (deref_length _ _ Hc ltac:(done)). apply HL. lia.
  - intros s els Hf. cbn [object_loop]. destruct (negb (deref s =? QUOT)) eqn:Hq; [done|]. apply eqb_false in Hq.
    apply returns_bind; [apply parse_string_total; by intros ->|]. intros [[n|e] name]; [|done].
    pose proof (skip_length (drop (Z.to_nat n) s)) as Hl. rewrite length_drop in Hl.
    destruct (negb (_ =? COLON)) eqn:Hc; [done|]. apply eqb_false in Hc. pose proof (deref_length _ _ Hc ltac:(done)).
    apply returns_bind; [apply HV; lia|]. intros [[m|e] value]; [|done]. set (p := drop 1 _) in *.
    pose proof (skip_length (drop (Z.to_nat m) p)) as Hl2. rewrite length_drop in Hl2.
    destruct (negb (deref (skip_whitespace (drop (Z.to_nat m) p)) =? COMMA)) eqn:Hm; [done|]. apply eqb_false in Hm.
    pose proof (deref_length _ _ Hm ltac:(done)). apply HM.
    pose proof (skip_length (drop 1 (skip_whitespace (drop (Z.to_nat m) p)))). lia.
Qed.

Lemma containers_total fuel obj : parser_total_at fuel ->
  (forall s, s <> [] -> (3 * length s <= S fuel)%nat -> returns (json_parse_array (S fuel) obj s)) /\
  (forall s, s <> [] -> nows s -> (3 * length s <= S fuel)%nat -> returns (json_parse_object (S fuel) obj s)).
Proof.
  intros HT. destruct (HT obj) as (_ & _ & _ & HL & HM). split.
  - intros [|c s] Hs Hf; [done|]. cbn [json_parse_array length] in *. rewrite drop1. pose proof (skip_length s).
    destruct (negb _); [|done]. apply returns_bind; [apply HL; lia|]. intros [[q|e] vs]; [|done]. by destruct (negb _).
  - intros [|c s] Hs Hn Hf; [done|]. cbn [json_parse_object]. rewrite (skip_nows (c :: s)), drop1 by done. pose proof (skip_length s).
    cbn [length] in Hf. destruct (negb _); [|done]. apply returns_bind; [apply HM; lia|]. intros [[q|e] vs]; [|done]. by destruct (negb _).
Qed.

Lemma parser_total fuel : parser_total_at fuel.
Proof.
  induction fuel as [|fuel IH]; intros obj.
  - split_and!; intros; try lia; destruct s; try done; cbn in *; lia.
  - destruct (loops_total fuel obj IH) as [HL HM]. destruct (containers_total fuel obj IH) as [HA HO].
    split_and!; [by apply value_total|done..].
Qed.

(** ** Objects and arrays at the top *)

Definition parse_container (fuel : nat) (obj : bool) (s : list Z) : res (parsed * zbx_jsonobj) :=
  if deref s =? LBR then json_parse_object fuel obj s else json_parse_array fuel obj s.

Lemma container_complete v t obj rest fuel : text_of v t -> is_container v -> (3 * length t <= fuel)%nat ->
  (deref t = LBR \/ deref t = LSQ) /\
  exists o, parse_container fuel obj (t ++ rest) = Ret (Parsed (zlen t), o) /\ (obj = true -> o = obj_of v).
Proof.
  destruct grammar_complete as (_ & HI & HM).
  intros [| | |t' ?|r d ?|w Hw|l t' Hi|w Hw|l t' Hm] Hv Hf; try done; split; cbn [deref]; eauto; unfold parse_container; cbn [app deref Z.eqb Pos.eqb].
  - eexists. split; [apply (array0_complete w); [done|cbn in Hf; lia]|done].
  - apply (array_complete l t'); eauto.
  - eexists. split; [apply (object0_complete w); [done|cbn in Hf; lia]|done].
  - apply (object_complete l t'); eauto.
Qed.

Lemma container_sound fuel obj s n o : deref s = LBR \/ deref s = LSQ -> parse_container fuel obj s = Ret (Parsed n, o) ->
  exists v t rest, s = t ++ rest /\ text_of v t /\ is_container v /\ n = zlen t /\ (obj = true -> o = obj_of v).
Proof.
  intros Hs H. destruct (parser_sound fuel) as (_ & HA & HO & _). unfold parse_container in H. destruct Hs as [Hs|Hs]; rewrite Hs in H;
    cbn [Z.eqb Pos.eqb] in H; destruct (deref_cons _ _ Hs ltac:(done)) as [s' ->].
  - apply HO in H as (l & t & rest & E & Ht & -> & Ho). exists (JObject l), t, rest. by split_and!.
  - apply HA in H as (l & t & rest & E & Ht & -> & Ho). exists (JArray l), t, rest. by split_and!.
Qed.

Lemma container_total obj s : deref s = LBR \/ deref s = LSQ -> nows s -> returns (parse_container (json_fuel s) obj s).
Proof.
  intros Hs Hn. destruct (parser_total (json_fuel s) obj) as (_ & HA & HO & _). unfold parse_container, json_fuel in *.
  assert (Hne : s <> []) by (intros ->; by destruct Hs). destruct (deref s =? LBR); [apply HO|apply HA]; try done; lia.
Qed.

Lemma container_text_head v t : text_of v t -> is_container v -> (deref t = LBR \/ deref t = LSQ) /\ nows t /\ t <> [].
Proof. intros [] Hv; try done; (split; [|done]); cbn; eauto. Qed.

Lemma white_c_string s : c_string s -> deref (skip_whitespace s) = 0 -> white s.
Proof.
  intros Hs H0. destruct (skip_sound s) as (w & E & Hw & _). destruct (skip_whitespace s) as [|c q] eqn:Eq; [by rewrite E, app_nil_r|].
  cbn in H0. subst c. rewrite E in Hs. apply Forall_app in Hs as [_ Hs]. apply Forall_cons in Hs as [? _]. lia.
Qed.

Lemma skip_white w : white w -> skip_whitespace w = [].
Proof. intros Hw. pose proof (skip_complete w [] Hw I) as H. by rewrite app_nil_r in H. Qed.

(** Both entry points parse the object or array at the first character. *)
Lemma validate_unfold s : let p := skip_whitespace s in
  zbx_json_validate s =
  if (deref p =? LBR) || (deref p =? LSQ) then
    r ← parse_container (json_fuel p) false p;
    match r.1 with
    | Failed e => Ret (Failed e)
    | Parsed len =>
        let q := skip_whitespace (drop (Z.to_nat len) p) in
        if negb (deref q =? 0) then Ret (Failed (json_error "invalid character following JSON object" (Some q))) else Ret (Parsed len)
    end
  else Ret (Failed (json_error "invalid object format, expected opening character '{' or '['" (Some p))).
Proof.
  intros p. unfold zbx_json_validate, parse_container. fold p. destruct (deref p =? LBR); cbn [orb].
  - by destruct (json_parse_object _ _ _) as [[[] ?]|].
  - destruct (deref p =? LSQ); [|done]. by destruct (json_parse_array _ _ _) as [[[] ?]|].
Qed.

Lemma open_unfold s : let p := skip_whitespace s in
  zbx_jsonobj_open s =
  if (deref p =? LBR) || (deref p =? LSQ) then
    '(r, o) ← parse_container (json_fuel p) true p;
    match r with Failed e => Ret (inr e) | Parsed _ => Ret (inl o) end
  else Ret (inr (json_error "invalid object format, expected opening character '{' or '['" (Some p))).
Proof.
  intros p. unfold zbx_jsonobj_open, parse_container. fold p. destruct (deref p =? LBR); cbn [orb]; [done|].
  by destruct (deref p =? LSQ).
Qed.

Lemma top_char p : (deref p =? LBR) || (deref p =? LSQ) = true <-> deref p = LBR \/ deref p = LSQ.
Proof. rewrite orb_true_iff, !Z.eqb_eq. done. Qed.

(** A text that starts an object or array, behind white space. *)
Lemma at_container v w t r : text_of v t -> is_container v -> white w ->
  skip_whitespace (w ++ t ++ r) = t ++ r /\ (deref (t ++ r) =? LBR) || (deref (t ++ r) =? LSQ) = true.
Proof.
  intros Ht Hv Hw. destruct (container_text_head v t Ht Hv) as (Hd & _ & Hne). split; [apply skip_complete; [done|by eapply text_nows]|].
  apply top_char. by destruct t.
Qed.

Lemma json_fuel_enough t r : (3 * length t <= json_fuel (t ++ r))%nat.
Proof. unfold json_fuel. rewrite length_app. lia. Qed.

Lemma validate_complete v w1 t w2 : white w1 -> white w2 -> text_of v t -> is_container v ->
  zbx_json_validate (w1 ++ t ++ w2) = Ret (Parsed (zlen t)).
Proof.
  intros H1 H2 Ht Hv. rewrite validate_unfold. destruct (at_container v w1 t w2 Ht Hv H1) as [-> ->].
  destruct (container_complete v t false w2 (json_fuel (t ++ w2)) Ht Hv (json_fuel_enough t w2)) as (_ & o & -> & _).
  cbn [mbind res_mbind fst]. by rewrite drop_text, skip_white.
Qed.

Lemma json_validate_ok s : c_string s -> exists r, zbx_json_validate s = Ret r /\ forall n, r = Parsed n <->
  exists v w1 t w2, s = w1 ++ t ++ w2 /\ white w1 /\ white w2 /\ text_of v t /\ is_container v /\ n = zlen t.
Proof.
  intros Hs. assert (Hcomplete : forall v w1 t w2, s = w1 ++ t ++ w2 -> white w1 -> white w2 -> text_of v t -> is_container v ->
    zbx_json_validate s = Ret (Parsed (zlen t))) by (intros v w1 t w2 ->; by apply validate_complete).
  destruct (skip_sound s) as (w1 & Es & Hw1 & Hn). rewrite validate_unfold in *. set (p := skip_whitespace s) in *.
  destruct ((deref p =? LBR) || (deref p =? LSQ)) eqn:Hp.
  - apply top_char in Hp. destruct (container_total false p Hp Hn) as [[[n|e] o] Hc]; rewrite Hc in *; cbn [mbind res_mbind fst] in *.
    + apply container_sound in Hc as (v & t & rest & Ep & Ht & Hv & -> & _); [|done]. rewrite Ep, drop_text in *.
      destruct (negb (deref (skip_whitespace rest) =? 0)) eqn:Hz; (eexists; split; [done|]); intros n; split; try done.
      * intros (v' & w1' & t' & w2' & E & H1 & H2 & Ht' & Hv' & ->). by specialize (Hcomplete v' w1' t' w2' E H1 H2 Ht' Hv').
      * intros [= <-]. apply eqb_false in Hz. exists v, w1, t, rest. split_and!; try done.
        apply white_c_string; [|done]. rewrite Es, !app_assoc in Hs. by apply Forall_app in Hs as [_ ?].
      * intros (v' & w1' & t' & w2' & E & H1 & H2 & Ht' & Hv' & ->). specialize (Hcomplete v' w1' t' w2' E H1 H2 Ht' Hv').
        congruence.
    + eexists. split; [done|]. intros n. split; [done|]. intros (v' & w1' & t' & w2' & E & H1 & H2 & Ht' & Hv' & ->).
      by specialize (Hcomplete v' w1' t' w2' E H1 H2 Ht' Hv').
  - eexists. split; [done|]. intros n. split; [done|]. intros (v' & w1' & t' & w2' & E & H1 & H2 & Ht' & Hv' & ->).
    by specialize (Hcomplete v' w1' t' w2' E H1 H2 Ht' Hv').
Qed.

Lemma open_ok s : exists r, zbx_jsonobj_open s = Ret r /\ forall o, r = inl o <->
  exists v w t rest, s = w ++ t ++ rest /\ white w /\ text_of v t /\ is_container v /\ o = obj_of v.
Proof.
  assert (Hcomplete : forall v w t rest, s = w ++ t ++ rest -> white w -> text_of v t -> is_container v -> zbx_jsonobj_open s = Ret (inl (obj_of v))).
  { intros v w t rest -> Hw Ht Hv. rewrite open_unfold. destruct (at_container v w t rest Ht Hv Hw) as [-> ->].
    destruct (container_complete v t true rest (json_fuel (t ++ rest)) Ht Hv (json_fuel_enough t rest)) as (_ & o & -> & Ho).
    cbn [mbind res_mbind]. by rewrite Ho. }
  destruct (skip_sound s) as (w & Es & Hw & Hn). rewrite open_unfold in *. set (p := skip_whitespace s) in *.
  destruct ((deref p =? LBR) || (deref p =? LSQ)) eqn:Hp.
  - apply top_char in Hp. destruct (container_total true p Hp Hn) as [[[n|e] o] Hc]; rewrite Hc in *; cbn [mbind res_mbind] in *;
      (eexists; split; [done|]); intros o'; split; try done.
    + intros [= <-]. apply container_sound in Hc as (v & t & rest & Ep & Ht & Hv & _ & Ho); [|done]. exists v, w, t, rest.
      rewrite Ep in Es. split_and!; try done. by apply Ho.
    + intros (v & w' & t & rest & E & Hw' & Ht & Hv & ->). specialize (Hcomplete v w' t rest E Hw' Ht Hv). congruence.
    + intros (v & w' & t & rest & E & Hw' & Ht & Hv & ->). by specialize (Hcomplete v w' t rest E Hw' Ht Hv).
  - eexists. split; [done|]. intros o'. split; [done|]. intros (v & w' & t & rest & E & Hw' & Ht & Hv & ->).
    by specialize (Hcomplete v w' t rest E Hw' Ht Hv).
Qed.

(** ** Properties *)

(** C28: The JSON validator returns for every string, and it accepts exactly
    the strings that are an object or array of the grammar with white space
    around it; the length it returns is that of the object or array. *)
Theorem json_validate_correct s :
  c_string s ->
  exists r, zbx_json_validate s = Ret r /\ forall n, r = Parsed n <->
    exists v w1 t w2, s = w1 ++ t ++ w2 /\ white w1 /\ white w2 /\ text_of v t /\ is_container v /\ n = zlen t.
Proof. apply json_validate_ok. Qed.

(** Opening a JSON text as an object returns for every string; it
    succeeds exactly when the string starts, behind white space, with an
    object or array of the grammar, whatever follows, and the tree it builds
    is the one of the value of the text: strings decoded, and of equal names
    the last value.  A text that validates is opened, and it stands for one
    tree only. *)
Theorem jsonobj_open_correct s :
  c_string s ->
  (exists r, zbx_jsonobj_open s = Ret r /\ forall o, r = inl o <->
    exists v w t rest, s = w ++ t ++ rest /\ white w /\ text_of v t /\ is_container v /\ o = obj_of v) /\
  (forall n, zbx_json_validate s = Ret (Parsed n) -> exists o, zbx_jsonobj_open s = Ret (inl o)) /\
  (forall v v', text_of v s -> text_of v' s -> is_container v -> is_container v' -> obj_of v = obj_of v').
Proof.
  intros Hs. destruct (open_ok s) as (r & Hr & Hspec). split; [by exists r|]. split.
  - intros n Hv. destruct (json_validate_ok s Hs) as (r' & Hr' & Hspec'). rewrite Hv in Hr'. injection Hr' as <-.
    destruct (proj1 (Hspec' n) eq_refl) as (v & w1 & t & w2 & E & H1 & _ & Ht & Hc & _). exists (obj_of v). rewrite Hr. f_equal.
    apply Hspec. by exists v, w1, t, w2.
  - intros v v' Hv Hv' Hc Hc'. assert (Hin : forall x, text_of x s -> is_container x -> r = inl (obj_of x)).
    { intros x Hx Hcx. apply Hspec. exists x, [], s, []. rewrite app_nil_r. split_and!; try done. constructor. }
    pose proof (Hin v Hv Hc) as H1. rewrite (Hin v' Hv' Hc') in H1. congruence.
Qed.

(** ** Witnesses and examples *)

(** [{"a":[1, true], "b":"x"}] *)
Definition sample_json : list Z :=
  [123; 34; 97; 34; 58; 91; 49; 44; 32; 116; 114; 117; 101; 93; 44; 32; 34; 98; 34; 58; 34; 120; 34; 125].

Lemma sample_json_bytes : c_string sample_json.
Proof. repeat (constructor; [lia|]). constructor. Qed.

Lemma json_validate_witness :
  exists r, zbx_json_validate sample_json = Ret r /\ (r = Parsed 24 <->
    exists v w1 t w2, sample_json = w1 ++ t ++ w2 /\ white w1 /\ white w2 /\ text_of v t /\ is_container v /\ 24 = zlen t).
Proof.
  destruct (json_validate_correct sample_json sample_json_bytes) as (r & Hr & Hs). exists r. exact (conj Hr (Hs 24)).
Defined.

Example sample_json_valid : zbx_json_validate sample_json = Ret (Parsed 24).
Proof. reflexivity. Qed.

Lemma jsonobj_open_witness :
  exists o, zbx_jsonobj_open sample_json = Ret (inl o).
Proof. exact (proj1 (proj2 (jsonobj_open_correct sample_json sample_json_bytes)) 24 sample_json_valid). Defined.

Example sample_json_tree :
  zbx_jsonobj_open sample_json = Ret (inl (Jo_object [([97], Jo_array [Jo_number [49]; Jo_true]); ([98], Jo_string [120])])).
Proof. reflexivity. Qed.

(** [[1.]] is accepted: a fraction without digits, which RFC 8259 does not
    allow. *)
Example point_without_digits : zbx_json_validate [91; 49; 46; 93] = Ret (Parsed 4).
Proof. reflexivity. Qed.

(** [{}x] is opened as an object, but does not validate. *)
Example open_ignores_rest :
  zbx_jsonobj_open [123; 125; 120] = Ret (inl (Jo_object [])) /\
  zbx_json_validate [123; 125; 120] = Ret (Failed (json_error "invalid character following JSON object" (Some [120]))).
Proof. split; reflexivity. Qed.

(** ["\u0000a"]: the decoded string has a NUL, so that C code sees the empty
    string. *)
Example nul_truncates : zbx_jsonobj_open [91; 34; 92; 117; 48; 48; 48; 48; 97; 34; 93] = Ret (inl (Jo_array [Jo_string []])).
Proof. reflexivity. Qed.
