(* ===== verification/JsonBuild.v ===== *)
(** * JSON builder (src/libs/zbxjson/json.c)

    The functions that write a JSON text into a growing buffer.  The buffer
    always holds a complete text: new elements are inserted in front of the
    closing brackets of the objects and arrays that are still open, and
    closing one moves the insertion point behind its bracket.

    The memory of the buffer is a list of bytes, and accesses outside it are
    errors.  [junk] is the content of new memory. *)
From stdpp Require Import prelude list strings.
From Stdlib Require Import ZArith Lia.
From S2P Require Import Prelude JsonText JsonParser.
#[local] Open Scope Z_scope.

Definition ZBX_JSON_STAT_BUF_LEN : Z := 4096.

Inductive zbx_json_status_t := ZBX_JSON_EMPTY | ZBX_JSON_COMMA.

(** [buffer] is [None] for NULL. *)
Record zbx_json := ZbxJson {
  buffer : option (list Z); buffer_allocated : Z; buffer_offset : Z; buffer_size : Z;
  status : zbx_json_status_t; level : Z }.

Section model.
Variable junk : Z.

(** [while (need > j->buffer_allocated)] *)
Fixpoint grow_loop (fuel : nat) (allocated need : Z) : res Z :=
  if need >? allocated then
    match fuel with
    | O => Halt OutOfFuel
    | S fuel => grow_loop fuel (if allocated =? 0 then 1024 else allocated * 2) need
    end
  else Ret allocated.

(** The static buffer and the heap differ in who frees the memory only. *)
Definition zbx_json_realloc (j : zbx_json) (need : Z) : res zbx_json :=
  match buffer j with
  | None =>
      let allocated := if need >? ZBX_JSON_STAT_BUF_LEN then need else ZBX_JSON_STAT_BUF_LEN in
      Ret (ZbxJson (Some (replicate (Z.to_nat allocated) junk)) allocated (buffer_offset j) (buffer_size j) (status j) (level j))
  | Some b =>
      allocated ← grow_loop (S (Z.to_nat (Z.log2_up need))) (buffer_allocated j) need;
      let b := b ++ replicate (Z.to_nat (allocated - buffer_allocated j)) junk in
      Ret (ZbxJson (Some b) allocated (buffer_offset j) (buffer_size j) (status j) (level j))
  end.

Definition comma (j : zbx_json) : list Z := match status j with ZBX_JSON_COMMA => [COMMA] | ZBX_JSON_EMPTY => [] end.

Definition name_text (name : option (list Z)) : list Z :=
  match name with
  | Some n => zbx_json_insstring (Some n) ZBX_JSON_TYPE_STRING ++ [COLON]
  | None => []
  end.

Definition name_size (name : option (list Z)) : Z :=
  match name with
  | Some n => zbx_json_stringsize (Some n) ZBX_JSON_TYPE_STRING + 1
  | None => 0
  end.

Definition comma_size (j : zbx_json) : Z := match status j with ZBX_JSON_COMMA => 1 | ZBX_JSON_EMPTY => 0 end.

(** The common part of the functions that add an element: the buffer is made
    [len] bytes larger, what is behind the insertion point is moved, and
    [text] is stored in the gap. *)
Definition insert_text (j : zbx_json) (len : Z) (text : list Z) : res (list Z * Z) :=
  j ← zbx_json_realloc j (buffer_size j + len + 1);
  b ← of_opt BadAccess (buffer j);
  moved ← load_bytes b (buffer_offset j) (buffer_size j - buffer_offset j + 1);
  b ← store_bytes b (buffer_offset j + len) moved;
  b ← store_bytes b (buffer_offset j) text;
  Ret (b, buffer_allocated j).

(** [__zbx_json_addobject] *)
Definition json_addobject (j : zbx_json) (name : option (list Z)) (object : bool) : res zbx_json :=
  let len := 2 + comma_size j + name_size name in
  let text := comma j ++ name_text name ++ (if object then [LBR; RBR] else [LSQ; RSQ]) in
  '(b, allocated) ← insert_text j len text;
  Ret (ZbxJson (Some b) allocated (buffer_offset j + zlen text - 1) (buffer_size j + len) ZBX_JSON_EMPTY (level j + 1)).

Definition zbx_json_addobject (j : zbx_json) (name : option (list Z)) : res zbx_json := json_addobject j name true.
Definition zbx_json_addarray (j : zbx_json) (name : option (list Z)) : res zbx_json := json_addobject j name false.

Definition zbx_json_addstring (j : zbx_json) (name string : option (list Z)) (type : zbx_json_type_t) : res zbx_json :=
  let len := comma_size j + name_size name + zbx_json_stringsize string type in
  let text := comma j ++ name_text name ++ zbx_json_insstring string type in
  '(b, allocated) ← insert_text j len text;
  Ret (ZbxJson (Some b) allocated (buffer_offset j + zlen text) (buffer_size j + len) ZBX_JSON_COMMA (level j)).

Definition zbx_json_addraw (j : zbx_json) (name : option (list Z)) (data : list Z) : res zbx_json :=
  let len := comma_size j + name_size name + zlen data in
  let text := comma j ++ name_text name ++ data in
  '(b, allocated) ← insert_text j len text;
  Ret (ZbxJson (Some b) allocated (buffer_offset j + zlen text) (buffer_size j + len) ZBX_JSON_COMMA (level j)).

(** What [snprintf] prints for [%llu] and [%lld]: at most 20 characters, so
    that they fit the buffer of [MAX_ID_LEN] bytes. *)
Fixpoint decimal_loop (fuel : nat) (n : Z) (acc : list Z) : list Z :=
  match fuel with
  | O => acc
  | S fuel =>
      let acc := (48 + n mod 10) :: acc in
      if n / 10 =? 0 then acc else decimal_loop fuel (n / 10) acc
  end.

Definition print_uint64 (n : Z) : list Z := decimal_loop 20 n [].
Definition print_int64 (n : Z) : list Z := if n <? 0 then 45 :: print_uint64 (- n) else print_uint64 n.

Definition zbx_json_adduint64 (j : zbx_json) (name : option (list Z)) (value : Z) : res zbx_json :=
  zbx_json_addstring j name (Some (print_uint64 value)) ZBX_JSON_TYPE_INT.
Definition zbx_json_adduint64string (j : zbx_json) (name : option (list Z)) (value : Z) : res zbx_json :=
  zbx_json_addstring j name (Some (print_uint64 value)) ZBX_JSON_TYPE_STRING.
Definition zbx_json_addint64 (j : zbx_json) (name : option (list Z)) (value : Z) : res zbx_json :=
  zbx_json_addstring j name (Some (print_int64 value)) ZBX_JSON_TYPE_INT.
Definition zbx_json_addint64string (j : zbx_json) (name : option (list Z)) (value : Z) : res zbx_json :=
  zbx_json_addstring j name (Some (print_int64 value)) ZBX_JSON_TYPE_STRING.

(** Doubles are given by the text that [%lf], or [zbx_print_double] for
    [zbx_json_adddouble], makes of them; [zbx_snprintf] cuts it to the buffer. *)
Definition MAX_ID_LEN : Z := 21.
Definition ZBX_MAX_DOUBLE_LEN : Z := 24.
Definition printed (size : Z) (text : list Z) : list Z := take (Z.to_nat (size - 1)) text.

Definition zbx_json_addfloat (j : zbx_json) (name : option (list Z)) (value : list Z) : res zbx_json :=
  zbx_json_addstring j name (Some (printed MAX_ID_LEN value)) ZBX_JSON_TYPE_INT.
Definition zbx_json_addfloatstring (j : zbx_json) (name : option (list Z)) (value : list Z) : res zbx_json :=
  zbx_json_addstring j name (Some (printed MAX_ID_LEN value)) ZBX_JSON_TYPE_STRING.
Definition zbx_json_adddouble (j : zbx_json) (name : option (list Z)) (value : list Z) : res zbx_json :=
  zbx_json_addstring j name (Some (printed (ZBX_MAX_DOUBLE_LEN + 1) value)) ZBX_JSON_TYPE_INT.

(** [*j->buffer = '\0'] *)
Definition put_nul (j : zbx_json) : res zbx_json :=
  b ← of_opt BadAccess (buffer j);
  b ← store_bytes b 0 [0];
  Ret (ZbxJson (Some b) (buffer_allocated j) (buffer_offset j) (buffer_size j) (status j) (level j)).

Definition json_init (allocate : Z) : res zbx_json :=
  j ← zbx_json_realloc (ZbxJson None 0 0 0 ZBX_JSON_EMPTY 0) allocate;
  put_nul j.

Definition zbx_json_init (allocate : Z) : res zbx_json := j ← json_init allocate; zbx_json_addobject j None.
Definition zbx_json_initarray (allocate : Z) : res zbx_json := j ← json_init allocate; zbx_json_addarray j None.

Definition zbx_json_setempty (j : zbx_json) : res zbx_json :=
  put_nul (ZbxJson (buffer j) (buffer_allocated j) 0 0 ZBX_JSON_EMPTY 0).

Definition zbx_json_clean (j : zbx_json) : res zbx_json := j ← zbx_json_setempty j; zbx_json_addobject j None.

Definition zbx_json_close (j : zbx_json) : zbx_json * Z :=
  if level j =? 1 then (j, FAIL)
  else (ZbxJson (buffer j) (buffer_allocated j) (buffer_offset j + 1) (buffer_size j) ZBX_JSON_COMMA (level j - 1), SUCCEED).

(** The text that readers of the buffer see. *)
Definition json_text (j : zbx_json) : list Z :=
  match buffer j with Some b => c_str b | None => [] end.

(** One call of the interface. *)
Inductive json_op :=
  | Op_addobject (name : option (list Z))
  | Op_addarray (name : option (list Z))
  | Op_addstring (name string : option (list Z)) (type : zbx_json_type_t)
  | Op_addraw (name : option (list Z)) (data : list Z)
  | Op_adduint64 (name : option (list Z)) (value : Z)
  | Op_adduint64string (name : option (list Z)) (value : Z)
  | Op_addint64 (name : option (list Z)) (value : Z)
  | Op_addint64string (name : option (list Z)) (value : Z)
  | Op_addfloat (name : option (list Z)) (value : list Z)
  | Op_addfloatstring (name : option (list Z)) (value : list Z)
  | Op_adddouble (name : option (list Z)) (value : list Z)
  | Op_close.

Definition run_op (j : zbx_json) (op : json_op) : res zbx_json :=
  match op with
  | Op_addobject name => zbx_json_addobject j name
  | Op_addarray name => zbx_json_addarray j name
  | Op_addstring name string type => zbx_json_addstring j name string type
  | Op_addraw name data => zbx_json_addraw j name data
  | Op_adduint64 name value => zbx_json_adduint64 j name value
  | Op_adduint64string name value => zbx_json_adduint64string j name value
  | Op_addint64 name value => zbx_json_addint64 j name value
  | Op_addint64string name value => zbx_json_addint64string j name value
  | Op_addfloat name value => zbx_json_addfloat j name value
  | Op_addfloatstring name value => zbx_json_addfloatstring j name value
  | Op_adddouble name value => zbx_json_adddouble j name value
  | Op_close => Ret (zbx_json_close j).1
  end.

Fixpoint run_ops (j : zbx_json) (ops : list json_op) : res zbx_json :=
  match ops with
  | [] => Ret j
  | op :: ops => j ← run_op j op; run_ops j ops
  end.
End model.

(** ** The document that is built

    A frame is an object or array that is still open: its name in the frame
    around it (used when that one is an object) and its elements so far, each
    with its name, value and text. *)

Record frame := Frame { f_object : bool; f_name : list Z; f_items : list (list Z * json * list Z) }.

Definition opener (f : frame) : Z := if f_object f then LBR else LSQ.
Definition closer (f : frame) : Z := if f_object f then RBR else RSQ.
Definition quoted (n : list Z) : list Z := zbx_json_insstring (Some n) ZBX_JSON_TYPE_STRING.
Definition label (object : bool) (n : list Z) : list Z := if object then quoted n ++ [COLON] else [].
Definition item_text (object : bool) (i : list Z * json * list Z) : list Z := label object i.1.1 ++ i.2.

Fixpoint body (object : bool) (l : list (list Z * json * list Z)) : list Z :=
  match l with
  | [] => []
  | i :: l => item_text object i ++ match l with [] => [] | _ :: _ => COMMA :: body object l end
  end.

Definition head_text (f : frame) : list Z := opener f :: body (f_object f) (f_items f).
Definition frame_text (f : frame) : list Z := head_text f ++ [closer f].
Definition frame_value (f : frame) : json :=
  if f_object f then JObject ((fun i => (i.1.1, i.1.2)) <$> f_items f) else JArray ((fun i => i.1.2) <$> f_items f).

Definition sep (f : frame) : list Z := match f_items f with [] => [] | _ :: _ => [COMMA] end.
Definition add_item (f : frame) (i : list Z * json * list Z) : frame := Frame (f_object f) (f_name f) (f_items f ++ [i]).

(** The text in front of the insertion point and behind it; the frames are
    listed from the innermost one. *)
Fixpoint outer (fs : list frame) (child : list Z) : list Z :=
  match fs with
  | [] => []
  | f :: fs => outer fs (f_name f) ++ head_text f ++ sep f ++ label (f_object f) child
  end.
Definition before (f : frame) (fs : list frame) : list Z := outer fs (f_name f) ++ head_text f.
Definition behind (fs : list frame) : list Z := closer <$> fs.

(** The whole document when all frames are closed. *)
Fixpoint root (f : frame) (fs : list frame) : json * list Z :=
  match fs with
  | [] => (frame_value f, frame_text f)
  | g :: fs => root (add_item g (f_name f, frame_value f, frame_text f)) fs
  end.

Definition root_value (f : frame) (fs : list frame) : json := (root f fs).1.

(** The name given to an element fits the frame it is added to. *)
Definition child_name (f : frame) (name : option (list Z)) : option (list Z) :=
  match name with
  | Some n => if f_object f then Some n else None
  | None => if f_object f then None else Some []
  end.

(** A value and its text, as given to the functions. *)
Inductive adds (op : json_op) : option (list Z) -> json -> list Z -> Prop :=
  | adds_string name s : op = Op_addstring name (Some s) ZBX_JSON_TYPE_STRING -> c_string s -> adds op name (JString s) (quoted s)
  | adds_null name type : op = Op_addstring name None type -> adds op name JNull null_text
  | adds_plain name t type v : op = Op_addstring name (Some t) type -> type <> ZBX_JSON_TYPE_STRING ->
      concat (ins_char <$> t) = t -> text_of v t -> adds op name v t
  | adds_raw name v t : op = Op_addraw name t -> text_of v t -> adds op name v t
  | adds_uint64 name n : op = Op_adduint64 name n -> 0 <= n < 2 ^ 64 -> adds op name (JNumber (print_uint64 n)) (print_uint64 n)
  | adds_uint64s name n : op = Op_adduint64string name n -> 0 <= n < 2 ^ 64 ->
      adds op name (JString (print_uint64 n)) (quoted (print_uint64 n))
  | adds_int64 name n : op = Op_addint64 name n -> - 2 ^ 63 <= n < 2 ^ 63 -> adds op name (JNumber (print_int64 n)) (print_int64 n)
  | adds_int64s name n : op = Op_addint64string name n -> - 2 ^ 63 <= n < 2 ^ 63 ->
      adds op name (JString (print_int64 n)) (quoted (print_int64 n))
  | adds_float name p : op = Op_addfloat name p -> number_text (printed MAX_ID_LEN p) ->
      adds op name (JNumber (printed MAX_ID_LEN p)) (printed MAX_ID_LEN p)
  | adds_floats name p : op = Op_addfloatstring name p -> c_string (printed MAX_ID_LEN p) ->
      adds op name (JString (printed MAX_ID_LEN p)) (quoted (printed MAX_ID_LEN p))
  | adds_double name p : op = Op_adddouble name p -> number_text (printed (ZBX_MAX_DOUBLE_LEN + 1) p) ->
      adds op name (JNumber (printed (ZBX_MAX_DOUBLE_LEN + 1) p)) (printed (ZBX_MAX_DOUBLE_LEN + 1) p).

Definition name_bytes (f : frame) (n : list Z) : Prop := if f_object f then c_string n else True.

(** The abstract builder: the effect of a call on the open frames. *)
Inductive build_step : frame * list frame -> json_op -> frame * list frame -> Prop :=
  | step_object f fs name n : child_name f name = Some n -> name_bytes f n ->
      build_step (f, fs) (Op_addobject name) (Frame true n [], f :: fs)
  | step_array f fs name n : child_name f name = Some n -> name_bytes f n ->
      build_step (f, fs) (Op_addarray name) (Frame false n [], f :: fs)
  | step_value f fs op name n v t : adds op name v t -> child_name f name = Some n -> name_bytes f n ->
      build_step (f, fs) op (add_item f (n, v, t), fs)
  | step_close f g fs : build_step (f, g :: fs) Op_close (add_item g (f_name f, frame_value f, frame_text f), fs)
  | step_close_top f : build_step (f, []) Op_close (f, []).

Inductive build : frame * list frame -> list json_op -> frame * list frame -> Prop :=
  | build_nil st : build st [] st
  | build_cons st op st' ops st'' : build_step st op st' -> build st' ops st'' -> build st (op :: ops) st''.

(** ** Theory: texts *)

Definition no_nul (t : list Z) : Prop := Forall (fun c => c <> 0) t.

Lemma digits_no_nul ds : digits ds -> no_nul ds.
Proof. intros H. eapply Forall_impl; [exact H|]. intros c Hc ->. done. Qed.

Lemma white_no_nul w : white w -> no_nul w.
Proof. intros H. eapply Forall_impl; [exact H|]. intros c Hc ->. done. Qed.

Lemma hex4_no_nul h n : hex4 h n -> no_nul h.
Proof. intros [a b c d Ha Hb Hc Hd]. repeat constructor; intros ->; done. Qed.

Lemma escape_no_nul e u : escape_text e u -> no_nul e.
Proof.
  intros [c Hc|h n Hh _|h1 n1 h2 n2 Hh1 _ Hh2 _].
  - repeat constructor. by intros ->.
  - constructor; [done|by eapply hex4_no_nul].
  - constructor; [done|]. apply Forall_app. split; [by eapply hex4_no_nul|]. repeat (constructor; [done|]). by eapply hex4_no_nul.
Qed.

Lemma raw_no_nul r d : raw_text r d -> no_nul r.
Proof.
  induction 1 as [|c r d ? ? ? _ IH|e u r d He _ IH]; [constructor|by constructor; [lia|]|].
  constructor; [done|]. apply Forall_app. split; [by eapply escape_no_nul|done].
Qed.

Lemma number_no_nul t : number_text t -> no_nul t.
Proof.
  intros [sign int frac exp Hs Hi _ _ Hf He]. repeat apply Forall_app_2.
  - destruct Hs as [->| ->]; by repeat constructor.
  - by apply digits_no_nul.
  - destruct Hf; constructor; [done|by apply digits_no_nul].
  - destruct He as [|e sign' ds He Hs' Hd _]; constructor; [destruct He; lia|]. apply Forall_app_2; [|by apply digits_no_nul].
    destruct Hs' as [->|[->| ->]]; by repeat constructor.
Qed.

Lemma quote_no_nul r : no_nul r -> no_nul (QUOT :: r ++ [QUOT]).
Proof. intros Hr. constructor; [done|]. apply Forall_app_2; [done|]. by repeat constructor. Qed.

Create HintDb nonul.
#[local] Hint Resolve white_no_nul raw_no_nul number_no_nul quote_no_nul : nonul.

Lemma grammar_no_nul :
  (forall v t, text_of v t -> no_nul t) /\ (forall l t, items l t -> no_nul t) /\ (forall l t, members l t -> no_nul t).
Proof.
  apply (grammar_ind (fun v t _ => no_nul t) (fun l t _ => no_nul t) (fun l t _ => no_nul t)); intros;
    try (by repeat constructor); eauto with nonul;
    repeat first [apply Forall_app_2 | (apply Forall_cons; split; [done|]) | constructor];
    try match goal with |- Forall _ ?t => change (no_nul t) end; eauto with nonul.
Qed.

Lemma text_no_nul v t : text_of v t -> no_nul t.
Proof. apply grammar_no_nul. Qed.

Lemma c_str_app t r : no_nul t -> c_str (t ++ 0 :: r) = t.
Proof. induction 1 as [|c t Hc _ IH]; cbn; [done|]. apply Z.eqb_neq in Hc as ->. by rewrite IH. Qed.

(** ** Theory: frames *)

Definition item_ok (object : bool) (i : list Z * json * list Z) : Prop :=
  text_of i.1.2 i.2 /\ (object = true -> c_string i.1.1).
Definition frame_ok (f : frame) : Prop := Forall (item_ok (f_object f)) (f_items f).

Lemma quoted_text n : c_string n -> exists r, quoted n = QUOT :: r ++ [QUOT] /\ raw_text r n.
Proof. intros Hn. exists (concat (ins_char <$> n)). split; [done|by apply escaped_ok]. Qed.

Lemma body_items l : Forall (item_ok false) l -> l <> [] -> items ((fun i => i.1.2) <$> l) (body false l).
Proof.
  induction 1 as [|[[n v] t] l [Ht _] Hl IH]; [done|]. intros _. rewrite fmap_cons. cbn [body]. unfold item_text. cbn [label app fst snd] in *.
  destruct l as [|i l].
  - apply (items_one v [] t []); [constructor|done|constructor].
  - apply (items_more v _ [] t [] _); [constructor|done|constructor|]. by apply IH.
Qed.

Lemma body_members l : Forall (item_ok true) l -> l <> [] -> members ((fun i => (i.1.1, i.1.2)) <$> l) (body true l).
Proof.
  induction 1 as [|[[n v] t] l [Ht Hn] Hl IH]; [done|]. intros _. rewrite fmap_cons. cbn [body]. unfold item_text. cbn [label app fst snd] in *.
  destruct (quoted_text n (Hn eq_refl)) as (r & -> & Hr). rewrite <- !app_assoc. cbn [app]. destruct l as [|i l].
  - pose proof (members_one n r v [] [] [] t []) as M. cbn [app] in M. rewrite <- !app_assoc in *. cbn [app] in *. apply M; done || constructor.
  - pose proof (members_more n r v ((fun i => (i.1.1, i.1.2)) <$> i :: l) [] [] [] t [] (body true (i :: l))) as M. cbn [app] in M.
    rewrite <- !app_assoc in *. cbn [app] in *. apply M; try done; try constructor. by apply IH.
Qed.

Lemma frame_text_of f : frame_ok f -> text_of (frame_value f) (frame_text f).
Proof.
  unfold frame_ok, frame_value, frame_text, head_text, opener, closer. destruct f as [object n l]. cbn [f_object f_items]. intros Hl.
  destruct l as [|i l]; destruct object; cbn [app].
  - apply (text_object0 []). constructor.
  - apply (text_array0 []). constructor.
  - apply text_object. by apply body_members.
  - apply text_array. by apply body_items.
Qed.

Lemma body_snoc object l i : body object (l ++ [i]) = body object l ++ match l with [] => [] | _ => [COMMA] end ++ item_text object i.
Proof.
  induction l as [|x l IH]; cbn [body app]; [by rewrite app_nil_r|]. destruct l as [|y l]; cbn [app] in *.
  - cbn [body]. by rewrite !app_nil_r.
  - rewrite IH, <- app_assoc. by cbn [app].
Qed.

Lemma head_add f i : head_text (add_item f i) = head_text f ++ sep f ++ item_text (f_object f) i.
Proof. unfold head_text, sep, opener. cbn [f_object f_items add_item]. by rewrite body_snoc. Qed.

Lemma root_text f fs : (root f fs).2 = before f fs ++ behind (f :: fs).
Proof.
  revert f. induction fs as [|g fs IH]; intros f; cbn [root snd]; [done|].
  rewrite IH. unfold before. rewrite head_add. cbn [outer behind f_name add_item]. unfold behind. rewrite !fmap_cons. cbn [closer f_object add_item].
  unfold item_text, frame_text. cbn [fst snd]. by rewrite <- !app_assoc.
Qed.

Lemma json_add_item_ok f n v t : frame_ok f -> text_of v t -> name_bytes f n -> frame_ok (add_item f (n, v, t)).
Proof.
  intros Hf Ht Hn. apply Forall_app_2; [done|]. constructor; [|constructor]. split; [done|]. cbn [f_object add_item].
  unfold name_bytes in Hn. intros E. by rewrite E in Hn.
Qed.

(** The name of an open frame fits the frame around it. *)
Fixpoint names_ok (f : frame) (fs : list frame) : Prop :=
  match fs with
  | [] => True
  | g :: fs => name_bytes g (f_name f) /\ names_ok g fs
  end.

Lemma names_add f i fs : names_ok f fs -> names_ok (add_item f i) fs.
Proof. by destruct fs. Qed.

Lemma root_ok f fs : Forall frame_ok (f :: fs) -> names_ok f fs -> text_of (root_value f fs) (root f fs).2 /\ is_container (root_value f fs).
Proof.
  unfold root_value. revert f. induction fs as [|g fs IH]; intros f Hok Hn; cbn [root fst snd].
  - apply Forall_cons in Hok as [Hf _]. split; [by apply frame_text_of|]. unfold frame_value. by destruct (f_object f).
  - apply Forall_cons in Hok as [Hf Hok]. apply Forall_cons in Hok as [Hg Hok]. destruct Hn as [Hn1 Hn]. apply IH; [|by apply names_add].
    constructor; [|done]. apply json_add_item_ok; [done|by apply frame_text_of|done].
Qed.

(** ** Theory: the buffer *)

(** The buffer holds [pre], the insertion point, [post] and a NUL. *)
Definition holds (j : zbx_json) (pre post : list Z) : Prop :=
  exists tail, buffer j = Some (pre ++ post ++ 0 :: tail) /\ buffer_allocated j = zlen (pre ++ post ++ 0 :: tail) /\
    buffer_offset j = zlen pre /\ buffer_size j = zlen pre + zlen post.

Lemma grow_loop_ok fuel a need : 0 < a -> need <= a * 2 ^ Z.of_nat fuel -> exists a', grow_loop fuel a need = Ret a' /\ need <= a' /\ a <= a'.
Proof.
  revert a. induction fuel as [|fuel IH]; intros a Ha Hn; cbn [grow_loop].
  - destruct (Z.gtb_spec need a); [cbn in Hn; lia|]. exists a. split_and!; [done|lia|lia].
  - destruct (Z.gtb_spec need a); [|exists a; split_and!; [done|lia|lia]]. destruct (Z.eqb_spec a 0); [lia|].
    destruct (IH (a * 2)) as (a' & E & H1 & H2); [lia| |exists a'; split_and!; [done|lia|lia]].
    rewrite Nat2Z.inj_succ, Z.pow_succ_r in Hn by lia. lia.
Qed.

Lemma log2_fuel a need : 0 < a -> 0 < need -> need <= a * 2 ^ Z.of_nat (S (Z.to_nat (Z.log2_up need))).
Proof.
  intros Ha Hn. pose proof (Z.log2_up_nonneg need). rewrite Nat2Z.inj_succ, Z2Nat.id by lia. rewrite Z.pow_succ_r by lia.
  assert (need <= 2 ^ Z.log2_up need).
  { destruct (decide (need = 1)) as [->|]; [done|]. apply Z.log2_up_spec. lia. }
  nia.
Qed.

Lemma json_realloc_ok junk j pre post need : holds j pre post -> 0 < need ->
  exists j', zbx_json_realloc junk j need = Ret j' /\ holds j' pre post /\ need <= buffer_allocated j' /\
    status j' = status j /\ level j' = level j.
Proof.
  intros (tail & Hb & Ha & Ho & Hs) Hn. unfold zbx_json_realloc. rewrite Hb.
  assert (Hpos : 0 < buffer_allocated j) by (rewrite Ha, !zlen_app, zlen_cons; pose proof (zlen_nonneg pre); pose proof (zlen_nonneg post); pose proof (zlen_nonneg tail); lia).
  destruct (grow_loop_ok _ _ need Hpos (log2_fuel _ _ Hpos Hn)) as (a & -> & H1 & H2). cbn [mbind res_mbind]. eexists. split; [done|].
  cbn [buffer buffer_allocated buffer_offset buffer_size status level]. split; [|split_and!; try done; lia].
  exists (tail ++ replicate (Z.to_nat (a - buffer_allocated j)) junk). cbn [buffer buffer_allocated buffer_offset buffer_size].
  split_and!; try done; [by rewrite <- !app_assoc|]. rewrite !zlen_app, zlen_cons, zlen_app, zlen_replicate.
  rewrite !zlen_app, zlen_cons in Ha. lia.
Qed.

(** Memory from a given position on, split after [n] bytes. *)
Lemma split_at (l : list Z) n : 0 <= n <= zlen l -> exists a b, l = a ++ b /\ zlen a = n.
Proof.
  intros Hn. exists (take (Z.to_nat n) l), (drop (Z.to_nat n) l). split; [by rewrite take_drop|].
  unfold zlen in *. rewrite length_take. lia.
Qed.

Lemma insert_text_ok junk j pre post text : holds j pre post ->
  exists b a, insert_text junk j (zlen text) text = Ret (b, a) /\
    forall j', buffer j' = Some b -> buffer_allocated j' = a -> buffer_size j' = buffer_size j + zlen text ->
      forall pre' post', pre' ++ post' = pre ++ text ++ post -> buffer_offset j' = zlen pre' -> holds j' pre' post'.
Proof.
  intros Hj. unfold insert_text. pose proof (zlen_nonneg pre). pose proof (zlen_nonneg post). pose proof (zlen_nonneg text).
  assert (Hsz : buffer_size j = zlen pre + zlen post) by by destruct Hj as (tail & _ & _ & _ & ?).
  destruct (json_realloc_ok junk j pre post (buffer_size j + zlen text + 1) Hj ltac:(lia)) as (j1 & -> & (tail & Hb & Ha & Ho & Hs) & Hn & _).
  cbn [mbind res_mbind]. rewrite Hb. cbn [of_opt mbind res_mbind]. rewrite Ho, Hs.
  change (pre ++ post ++ 0 :: tail) with (pre ++ post ++ [0] ++ tail). rewrite (app_assoc post).
  rewrite (load_ok pre (post ++ [0]) tail) by (rewrite ?zlen_app, ?zlen_cons, ?(zlen_nil (A := Z)); lia). cbn [mbind res_mbind].
  rewrite Ha, !zlen_app, zlen_cons in Hn.
  destruct (split_at ((post ++ [0]) ++ tail) (zlen text)) as (gap & rest & E & Hg); [rewrite !zlen_app, zlen_cons, (zlen_nil (A := Z)); lia|].
  assert (Hrest : zlen (post ++ [0]) <= zlen rest).
  { apply (f_equal zlen) in E. rewrite !zlen_app, zlen_cons, (zlen_nil (A := Z)) in E. rewrite zlen_app, zlen_cons, (zlen_nil (A := Z)). lia. }
  destruct (split_at rest (zlen (post ++ [0]))) as (old & rest' & -> & Hold); [pose proof (zlen_nonneg (post ++ [0])); lia|].
  rewrite E, app_assoc, (store_bytes_ok (pre ++ gap) old rest') by (done || (rewrite zlen_app; lia)). cbn [mbind res_mbind].
  rewrite <- (app_assoc pre), (store_bytes_ok pre gap _ text) by (done || lia). cbn [mbind res_mbind].
  eexists _, _. split; [done|]. intros j' Hb' Ha' Hs' pre' post' Ep Ho'. exists rest'. split_and!.
  - rewrite Hb'. f_equal. rewrite (app_assoc pre'), Ep. flat_app. done.
  - rewrite Ha', Ha, (app_assoc pre'), Ep. apply (f_equal zlen) in E. lens.
  - done.
  - rewrite Hs', Hsz. apply (f_equal zlen) in Ep. rewrite !zlen_app in Ep. lia.
Qed.

(** ** The builder implements the abstract builder *)

Record built (j : zbx_json) (f : frame) (fs : list frame) : Prop := {
  bl_holds : holds j (before f fs) (behind (f :: fs));
  bl_status : status j = match f_items f with [] => ZBX_JSON_EMPTY | _ => ZBX_JSON_COMMA end;
  bl_level : level j = zlen (f :: fs);
  bl_frames : Forall frame_ok (f :: fs);
  bl_names : names_ok f fs }.

Lemma comma_ok j f fs : built j f fs -> comma j = sep f /\ comma_size j = zlen (sep f).
Proof. intros H. unfold comma, comma_size, sep. rewrite (bl_status _ _ _ H). by destruct (f_items f). Qed.

Lemma name_ok f name n : child_name f name = Some n -> name_text name = label (f_object f) n /\ name_size name = zlen (label (f_object f) n).
Proof.
  unfold child_name, name_text, name_size, label, quoted. destruct name as [m|], (f_object f); try done. intros [= <-].
  split; [done|]. rewrite stringsize_ok, zlen_app, zlen_cons, (zlen_nil (A := Z)). lia.
Qed.

(** An element is added in front of the closing brackets. *)
Lemma json_add_value_ok junk j f fs name n v t : built j f fs -> child_name f name = Some n -> name_bytes f n -> text_of v t ->
  exists b a, insert_text junk j (comma_size j + name_size name + zlen t) (comma j ++ name_text name ++ t) = Ret (b, a) /\
    built (ZbxJson (Some b) a (buffer_offset j + zlen (comma j ++ name_text name ++ t))
        (buffer_size j + (comma_size j + name_size name + zlen t)) ZBX_JSON_COMMA (level j)) (add_item f (n, v, t)) fs.
Proof.
  intros Hb Hc Hn Ht. destruct (comma_ok _ _ _ Hb) as [-> ->]. destruct (name_ok _ _ _ Hc) as [-> ->].
  replace (zlen (sep f) + zlen (label (f_object f) n) + zlen t) with (zlen (sep f ++ label (f_object f) n ++ t)) by (rewrite !zlen_app; lia).
  destruct (insert_text_ok junk j _ _ (sep f ++ label (f_object f) n ++ t) (bl_holds _ _ _ Hb)) as (b & a & -> & Hj).
  exists b, a. split; [done|].
  assert (Ht' : before (add_item f (n, v, t)) fs = before f fs ++ sep f ++ label (f_object f) n ++ t).
  { unfold before. rewrite head_add. cbn [f_name add_item]. by flat_app. }
  pose proof (bl_frames _ _ _ Hb) as Hf. apply Forall_cons in Hf as [Hf Hfs]. split.
  - apply Hj; try done; [rewrite Ht'; by flat_app|]. cbn [buffer_offset]. rewrite Ht', !zlen_app. by destruct (bl_holds _ _ _ Hb) as (_ & _ & _ & -> & _).
  - cbn [f_items add_item status]. by destruct (f_items f).
  - cbn [level]. rewrite (bl_level _ _ _ Hb). done.
  - constructor; [by apply json_add_item_ok|done].
  - apply names_add. apply Hb.
Qed.

Lemma add_container_ok junk j f fs name n object : built j f fs -> child_name f name = Some n -> name_bytes f n ->
  exists j', json_addobject junk j name object = Ret j' /\ built j' (Frame object n []) (f :: fs).
Proof.
  intros Hb Hc Hn. unfold json_addobject. destruct (comma_ok _ _ _ Hb) as [-> ->]. destruct (name_ok _ _ _ Hc) as [-> ->].
  set (new := Frame object n []). set (text := sep f ++ label (f_object f) n ++ _).
  assert (Et : text = sep f ++ label (f_object f) n ++ [opener new; closer new]) by (subst text; by destruct object).
  replace (2 + zlen (sep f) + zlen (label (f_object f) n)) with (zlen text) by (rewrite Et, !zlen_app, !zlen_cons, (zlen_nil (A := Z)); lia).
  destruct (insert_text_ok junk j _ _ text (bl_holds _ _ _ Hb)) as (b & a & -> & Hj). cbn [mbind res_mbind]. eexists. split; [done|].
  assert (Hbf : before new (f :: fs) = before f fs ++ sep f ++ label (f_object f) n ++ [opener new]) by (unfold before; cbn [outer f_name]; by flat_app).
  split.
  - apply Hj; try done.
    + rewrite Hbf, Et. unfold behind. rewrite !fmap_cons. by flat_app.
    + cbn [buffer_offset]. destruct (bl_holds _ _ _ Hb) as (_ & _ & _ & -> & _). rewrite Hbf, Et. rewrite !zlen_app, !zlen_cons, (zlen_nil (A := Z)). lia.
  - done.
  - cbn [level]. rewrite (bl_level _ _ _ Hb), !zlen_cons. lia.
  - constructor; [constructor|apply Hb].
  - split; [done|apply Hb].
Qed.

Lemma close_ok j f g fs : built j f (g :: fs) ->
  built (zbx_json_close j).1 (add_item g (f_name f, frame_value f, frame_text f)) fs /\ (zbx_json_close j).2 = SUCCEED.
Proof.
  intros Hb. unfold zbx_json_close. rewrite (bl_level _ _ _ Hb). destruct (Z.eqb_spec (zlen (f :: g :: fs)) 1) as [E|_]; [exfalso; lens|].
  split; [|done]. destruct (bl_holds _ _ _ Hb) as (tail & Hbuf & Ha & Ho & Hs). pose proof (bl_frames _ _ _ Hb) as Hf.
  apply Forall_cons in Hf as [Hf Hfs]. apply Forall_cons in Hfs as [Hg Hfs]. destruct (bl_names _ _ _ Hb) as [Hn1 Hn].
  assert (E : before (add_item g (f_name f, frame_value f, frame_text f)) fs = before f (g :: fs) ++ [closer f]).
  { unfold before. rewrite head_add. cbn [outer f_name add_item]. unfold item_text, frame_text. cbn [fst snd]. by flat_app. }
  split; cbn [fst buffer buffer_allocated buffer_offset buffer_size status level].
  - exists tail. cbn [buffer buffer_allocated buffer_offset buffer_size]. rewrite Ho, Hs, Ha, Hbuf, E. unfold behind. rewrite !fmap_cons.
    change (closer (add_item g _)) with (closer g). split_and!; [f_equal; by flat_app|f_equal; by flat_app|lens|lens].
  - cbn [f_items add_item]. by destruct (f_items g).
  - lens.
  - constructor; [apply json_add_item_ok; [done|by apply frame_text_of|done]|done].
  - by apply names_add.
Qed.

(** The texts of numbers. *)
Lemma decimal_digits fuel n acc : 0 <= n -> digits acc -> digits (decimal_loop fuel n acc).
Proof.
  revert n acc. induction fuel as [|fuel IH]; intros n acc Hn Ha; cbn [decimal_loop]; [done|].
  assert (Hd : digits ((48 + n mod 10) :: acc)).
  { constructor; [|done]. unfold isdigit. pose proof (Z.mod_pos_bound n 10 ltac:(lia)). rewrite andb_true_iff, !Z.leb_le. lia. }
  case_match; [done|]. apply IH; [apply Z.div_pos; lia|done].
Qed.

(** The first digit is not 0 unless the number is. *)
Lemma decimal_head fuel n acc : 0 < n < 10 ^ Z.of_nat fuel -> decimal_loop fuel n acc <> [] /\ deref (decimal_loop fuel n acc) <> 48.
Proof.
  revert n acc. induction fuel as [|fuel IH]; intros n acc Hn; [cbn in Hn; lia|]. cbn [decimal_loop].
  rewrite Nat2Z.inj_succ, Z.pow_succ_r in Hn by lia. destruct (Z.eqb_spec (n / 10) 0) as [E|E].
  - split; [done|]. cbn [deref]. assert (n mod 10 = n) by (apply Z.mod_small; dlia). lia.
  - apply IH. pose proof (Z.div_pos n 10). split; [lia|]. apply Z.div_lt_upper_bound; lia.
Qed.

Lemma print_uint64_number sign n : sign = [] \/ sign = [45] -> 0 <= n < 2 ^ 64 -> number_text (sign ++ print_uint64 n).
Proof.
  intros Hs Hn. pose proof (number sign (print_uint64 n) [] [] Hs) as N. rewrite !app_nil_r in N. unfold print_uint64 in *.
  apply N; try constructor.
  - apply decimal_digits; [lia|constructor].
  - destruct (decide (n = 0)) as [->|]; [done|]. apply decimal_head. split; [lia|]. change (10 ^ Z.of_nat 20) with 100000000000000000000. lia.
  - destruct (decide (n = 0)) as [->|]; [done|]. intros H. exfalso. revert H. apply decimal_head. split; [lia|].
    change (10 ^ Z.of_nat 20) with 100000000000000000000. lia.
Qed.

Lemma print_uint64_text n : 0 <= n < 2 ^ 64 -> number_text (print_uint64 n).
Proof. intros Hn. apply (print_uint64_number []); [by left|done]. Qed.

Lemma print_int64_text n : - 2 ^ 63 <= n < 2 ^ 63 -> number_text (print_int64 n).
Proof.
  intros Hn. unfold print_int64. destruct (Z.ltb_spec n 0); [|apply print_uint64_text; lia].
  apply (print_uint64_number [45]); [by right|lia].
Qed.

Definition plain_char (c : Z) : Prop := 0x1f < c /\ c <> QUOT /\ c <> BSL.

Lemma plain_text t : Forall plain_char t -> concat (ins_char <$> t) = t.
Proof.
  induction 1 as [|c t (H1 & H2 & H3) _ IH]; [done|]. rewrite fmap_cons. cbn [concat]. rewrite IH. unfold ins_char.
  apply Z.eqb_neq in H2 as ->, H3 as ->. destruct (Z.eqb_spec c 8); [lia|]. destruct (Z.eqb_spec c 12); [lia|].
  destruct (Z.eqb_spec c 10); [lia|]. destruct (Z.eqb_spec c 13); [lia|]. destruct (Z.eqb_spec c 9); [lia|].
  by destruct (Z.leb_spec c 0x1f); [lia|].
Qed.

Lemma digits_plain ds : digits ds -> Forall plain_char ds.
Proof. intros H. eapply Forall_impl; [exact H|]. unfold isdigit, plain_char. intros c Hc. unbool. lia. Qed.

Lemma number_plain t : number_text t -> Forall plain_char t.
Proof.
  assert (Hc : forall c, c = 43 \/ c = 45 \/ c = 46 \/ c = 101 \/ c = 69 -> plain_char c) by (unfold plain_char; lia).
  intros [sign int frac exp Hs Hi _ _ Hf He]. repeat apply Forall_app_2.
  - destruct Hs as [->| ->]; repeat constructor; apply Hc; lia.
  - by apply digits_plain.
  - destruct Hf; constructor; [apply Hc; lia|by apply digits_plain].
  - destruct He as [|e sign' ds He Hs' Hd _]; constructor; [apply Hc; lia|]. apply Forall_app_2; [|by apply digits_plain].
    destruct Hs' as [->|[->| ->]]; repeat constructor; apply Hc; lia.
Qed.

Lemma number_c_string t : number_text t -> c_string t.
Proof.
  assert (Hds : forall ds, digits ds -> c_string ds).
  { intros ds H. eapply Forall_impl; [exact H|]. unfold isdigit. intros c Hc. unbool. lia. }
  intros [sign int frac exp Hs Hi _ _ Hf He]. repeat apply Forall_app_2.
  - destruct Hs as [->| ->]; repeat constructor; lia.
  - by apply Hds.
  - destruct Hf; constructor; [lia|by apply Hds].
  - destruct He as [|e sign' ds He Hs' Hd _]; constructor; [lia|]. apply Forall_app_2; [|by apply Hds].
    destruct Hs' as [->|[->| ->]]; repeat constructor; lia.
Qed.

Lemma quoted_text_of s : c_string s -> text_of (JString s) (quoted s).
Proof. intros (r & -> & Hr)%quoted_text. by constructor. Qed.

(** The calls that add a value store its text. *)
Lemma addstring_ok junk j f fs name n v string type t : built j f fs -> child_name f name = Some n -> name_bytes f n ->
  text_of v t -> zbx_json_insstring string type = t ->
  exists j', zbx_json_addstring junk j name string type = Ret j' /\ built j' (add_item f (n, v, t)) fs.
Proof.
  intros Hb Hc Hn Ht <-. unfold zbx_json_addstring. rewrite stringsize_ok.
  destruct (json_add_value_ok junk j f fs name n v _ Hb Hc Hn Ht) as (b & a & -> & Hb'). cbn [mbind res_mbind]. by eexists.
Qed.

Lemma insstring_plain t type : type <> ZBX_JSON_TYPE_STRING -> concat (ins_char <$> t) = t -> zbx_json_insstring (Some t) type = t.
Proof. intros Hty Ht. unfold zbx_json_insstring. change (default null_text (Some t)) with t. rewrite Ht. by destruct type. Qed.

Lemma addnumber_ok junk j f fs name n t : built j f fs -> child_name f name = Some n -> name_bytes f n -> number_text t ->
  exists j', zbx_json_addstring junk j name (Some t) ZBX_JSON_TYPE_INT = Ret j' /\ built j' (add_item f (n, JNumber t, t)) fs.
Proof.
  intros Hb Hc Hn Ht. apply addstring_ok with (name := name); try done; [by constructor|].
  apply insstring_plain; [done|]. by apply plain_text, number_plain.
Qed.

Lemma adds_ok junk j f fs op name n v t : adds op name v t -> built j f fs -> child_name f name = Some n -> name_bytes f n ->
  exists j', run_op junk j op = Ret j' /\ built j' (add_item f (n, v, t)) fs.
Proof.
  intros Ha Hb Hc Hn. destruct Ha as [name s -> Hs|name type ->|name t type v -> Hty Hp Ht|name v t -> Ht|name m -> Hm|name m -> Hm|name m -> Hm|name m -> Hm
    |name p -> Hp|name p -> Hp|name p -> Hp];
    cbn [run_op].
  - apply addstring_ok with (name := name); try done. by apply quoted_text_of.
  - apply addstring_ok with (name := name); try done. constructor.
  - apply addstring_ok with (name := name); try done. by apply insstring_plain.
  - unfold zbx_json_addraw. destruct (json_add_value_ok junk j f fs name n v _ Hb Hc Hn Ht) as (b & a & -> & Hb'). cbn [mbind res_mbind]. by eexists.
  - apply addnumber_ok with (name := name); try done. by apply print_uint64_text.
  - apply addstring_ok with (name := name); try done. by apply quoted_text_of, number_c_string, print_uint64_text.
  - apply addnumber_ok with (name := name); try done. by apply print_int64_text.
  - apply addstring_ok with (name := name); try done. by apply quoted_text_of, number_c_string, print_int64_text.
  - by apply addnumber_ok with (name := name).
  - apply addstring_ok with (name := name); try done. by apply quoted_text_of.
  - by apply addnumber_ok with (name := name).
Qed.

Lemma step_ok junk j f fs op f' fs' : build_step (f, fs) op (f', fs') -> built j f fs -> exists j', run_op junk j op = Ret j' /\ built j' f' fs'.
Proof.
  intros Hs Hb. inversion Hs as [? ? name n Hc Hn|? ? name n Hc Hn|? ? ? name n v t Ha Hc Hn|? g ? |?]; subst; cbn [run_op].
  - by apply add_container_ok with (f := f).
  - by apply add_container_ok with (f := f).
  - by apply adds_ok with (name := name).
  - eexists. split; [done|]. by apply close_ok.
  - eexists. split; [done|]. unfold zbx_json_close. rewrite (bl_level _ _ _ Hb). done.
Qed.

Lemma build_ok junk st ops st' : build st ops st' -> forall j, built j st.1 st.2 -> exists j', run_ops junk j ops = Ret j' /\ built j' st'.1 st'.2.
Proof.
  induction 1 as [st|[f fs] op [f' fs'] ops st'' Hs _ IH]; intros j Hb; cbn [run_ops]; [by exists j|].
  destruct (step_ok junk j f fs op f' fs' Hs Hb) as (j' & -> & Hb'). cbn [mbind res_mbind]. by apply IH.
Qed.

(** A new or emptied buffer. *)
Lemma put_nul_ok j b : buffer j = Some b -> buffer_allocated j = zlen b -> b <> [] -> buffer_offset j = 0 -> buffer_size j = 0 ->
  exists j', put_nul j = Ret j' /\ holds j' [] [] /\ status j' = status j /\ level j' = level j.
Proof.
  intros Hb Ha Hne Ho Hs. destruct b as [|c b]; [done|]. unfold put_nul. rewrite Hb. cbn [of_opt mbind res_mbind].
  rewrite (store_bytes_ok [] [c] b [0]) by done. cbn [mbind res_mbind app]. eexists. split; [done|].
  cbn [status level]. split; [|done]. exists b. cbn [app buffer buffer_allocated buffer_offset buffer_size]. by rewrite Ha, Ho, Hs.
Qed.

Lemma add_root_ok junk j object : holds j [] [] -> status j = ZBX_JSON_EMPTY -> level j = 0 ->
  exists j', json_addobject junk j None object = Ret j' /\ built j' (Frame object [] []) [].
Proof.
  intros Hj Hst Hl. unfold json_addobject, comma, comma_size. rewrite Hst. cbn [name_text name_size app].
  set (text := if object then [LBR; RBR] else [LSQ; RSQ]). replace (2 + 0 + 0) with (zlen text) by (subst text; by destruct object).
  destruct (insert_text_ok junk j [] [] text Hj) as (b & a & -> & H). cbn [mbind res_mbind]. eexists. split; [done|]. split.
  - apply H; try done; [subst text; by destruct object|]. cbn [buffer_offset]. destruct Hj as (_ & _ & _ & -> & _). subst text. by destruct object.
  - done.
  - cbn [level]. by rewrite Hl.
  - constructor; [constructor|done].
  - done.
Qed.

Definition init (junk : Z) (object : bool) (allocate : Z) : res zbx_json :=
  if object then zbx_json_init junk allocate else zbx_json_initarray junk allocate.

Lemma json_init_ok junk object allocate : 0 <= allocate -> exists j, init junk object allocate = Ret j /\ built j (Frame object [] []) [].
Proof.
  intros Ha. assert (exists j, json_init junk allocate = Ret j /\ holds j [] [] /\ status j = ZBX_JSON_EMPTY /\ level j = 0) as (j & Hi & Hj & Hst & Hl).
  { unfold json_init, zbx_json_realloc. cbn [buffer mbind res_mbind buffer_offset buffer_size status level].
    set (a := if allocate >? _ then _ else _). assert (0 < a) by (subst a; unfold ZBX_JSON_STAT_BUF_LEN; destruct (Z.gtb_spec allocate 4096); lia).
    apply put_nul_ok with (b := replicate (Z.to_nat a) junk); try done; cbn [buffer_allocated]; [rewrite zlen_replicate; lia|].
    intros E%(f_equal length). rewrite length_replicate in E. cbn in E. lia. }
  destruct (add_root_ok junk j object Hj Hst Hl) as (j' & E & Hb). exists j'. split; [|done].
  unfold init, zbx_json_init, zbx_json_initarray, zbx_json_addobject, zbx_json_addarray. rewrite Hi. by destruct object.
Qed.

Lemma json_clean_ok junk j f fs : built j f fs -> exists j', zbx_json_clean junk j = Ret j' /\ built j' (Frame true [] []) [].
Proof.
  intros Hb. unfold zbx_json_clean, zbx_json_setempty. destruct (bl_holds _ _ _ Hb) as (tail & E & Ha & _).
  destruct (put_nul_ok (ZbxJson (buffer j) (buffer_allocated j) 0 0 ZBX_JSON_EMPTY 0) _ E Ha) as (j1 & -> & Hj & Hst & Hl); try done.
  { intros H%(f_equal length). rewrite !length_app in H. cbn in H. lia. }
  cbn [mbind res_mbind]. by apply (add_root_ok junk j1 true).
Qed.

(** What the buffer shows. *)
Lemma built_text j f fs : built j f fs ->
  json_text j = (root f fs).2 /\ zlen (json_text j) = buffer_size j /\ text_of (root_value f fs) (json_text j) /\ is_container (root_value f fs).
Proof.
  intros Hb. destruct (bl_holds _ _ _ Hb) as (tail & E & _ & _ & Hs). destruct (root_ok f fs (bl_frames _ _ _ Hb) (bl_names _ _ _ Hb)) as [Ht Hc].
  assert (Hj : json_text j = (root f fs).2).
  { unfold json_text. rewrite E, app_assoc, <- root_text. apply c_str_app. by eapply text_no_nul. }
  rewrite Hj. split_and!; try done. rewrite root_text, zlen_app. lia.
Qed.

Lemma open_complete v t : text_of v t -> is_container v -> zbx_jsonobj_open t = Ret (inl (obj_of v)).
Proof.
  intros Ht Hc. destruct (open_ok t) as (r & -> & Hr). f_equal. apply Hr. exists v, [], t, []. rewrite app_nil_r.
  split_and!; try done. constructor.
Qed.

(** ** Properties *)


(** ** Witness *)

(** [{"a":"x","b":[7]}] *)
Definition sample_ops : list json_op :=
  [Op_addstring (Some [97]) (Some [120]) ZBX_JSON_TYPE_STRING; Op_addarray (Some [98]); Op_adduint64 None 7; Op_close].

Definition sample_frame : frame :=
  Frame true [] [([97], JString [120], [34; 120; 34]); ([98], JArray [JNumber [55]], [91; 55; 93])].

Lemma sample_build : build (Frame true [] [], []) sample_ops (sample_frame, []).
Proof.
  assert (Hs : forall c, 0 < c < 256 -> c_string [c]) by (intros c Hc; constructor; [done|constructor]).
  eapply build_cons; [apply step_value with (name := Some [97]) (n := [97]); [apply adds_string; [done|by apply Hs]|done|by apply Hs]|].
  eapply build_cons; [apply step_array with (n := [98]); [done|by apply Hs]|].
  eapply build_cons; [apply step_value with (name := None) (n := []); [apply adds_uint64; [done|lia]|done|done]|].
  eapply build_cons; [apply step_close|]. apply build_nil.
Qed.


Example sample_built : (j ← init 0 true 10; j ← run_ops 0 j sample_ops; Ret (json_text j)) =
  Ret [123; 34; 97; 34; 58; 34; 120; 34; 44; 34; 98; 34; 58; 91; 55; 93; 125].
Proof. vm_compute. reflexivity. Qed.

(** A name in an array is stored, and the text is no longer valid. *)
Example named_array_element :
  (j ← init 0 false 10; j ← run_ops 0 j [Op_adduint64 (Some [97]) 7]; zbx_json_validate (json_text j)) =
  Ret (Failed (json_error "invalid array format, expected closing character ']'" (Some [58; 55; 93]))).
Proof. vm_compute. reflexivity. Qed.

(** [%lf] of a double with an integer part of more than 20 digits is cut to its
    first 20: 10^21 is added as 10^19.  An infinite double is added as [inf],
    and the text is no longer valid. *)
Example large_double_cut :
  (j ← init 0 false 10; j ← run_ops 0 j [Op_addfloat None (49 :: replicate 21 48 ++ [46] ++ replicate 6 48)]; Ret (json_text j)) =
  Ret ([91; 49] ++ replicate 19 48 ++ [93]).
Proof. vm_compute. reflexivity. Qed.

Example infinite_double_invalid :
  (j ← init 0 false 10; j ← run_ops 0 j [Op_addfloat None [105; 110; 102]];
   r ← zbx_json_validate (json_text j); Ret (match r with Parsed _ => true | Failed _ => false end)) = Ret false.
Proof. vm_compute. reflexivity. Qed.
