(* ===== verification/JsonRead.v ===== *)
(** * Reading JSON texts (src/libs/zbxjson/json.c)

    The functions that walk over a JSON text in place: opening a text,
    finding the closing bracket of an object or array, going to the next
    element, finding a member by name and decoding its value.  Pointers are
    lists of bytes as in [JsonText]; [p <= q] for pointers into the same text
    is a comparison of the lengths. *)
From stdpp Require Import prelude list strings.
From Stdlib Require Import ZArith Lia.
From S2P Require Import Prelude StrPool JsonText JsonParser JsonBuild.
#[local] Open Scope Z_scope.

Definition MAX_STRING_LEN : Z := 2048.

Record zbx_json_parse := JsonParse { jp_start : list Z; jp_end : list Z }.

(** [p[0] == text[0] && p[1] == text[1] && ...] *)
Definition starts_with (p text : list Z) : bool :=
  match literal_loop p text with Some _ => true | None => false end.

(** [__zbx_json_type] *)
Definition json_type (p : list Z) : zbx_json_type_t :=
  if deref p =? QUOT then ZBX_JSON_TYPE_STRING
  else if (48 <=? deref p) && (deref p <=? 57) || (deref p =? 45) then ZBX_JSON_TYPE_INT
  else if deref p =? LSQ then ZBX_JSON_TYPE_ARRAY
  else if deref p =? LBR then ZBX_JSON_TYPE_OBJECT
  else if starts_with p null_text then ZBX_JSON_TYPE_NULL
  else if starts_with p true_text then ZBX_JSON_TYPE_TRUE
  else if starts_with p false_text then ZBX_JSON_TYPE_FALSE
  else ZBX_JSON_TYPE_UNKNOWN.

Definition zbx_json_valuetype (p : list Z) : zbx_json_type_t := json_type p.

(** [while ('\0' != *p)]; [state] is true inside a string. *)
Fixpoint rbracket_loop (p : list Z) (level : Z) (state : bool) (rbracket : Z) : option (list Z) :=
  match p with
  | [] => None
  | c :: p' =>
      if c =? QUOT then rbracket_loop p' level (negb state) rbracket
      else if c =? BSL then
        if state then match p' with [] => None | _ :: p'' => rbracket_loop p'' level state rbracket end
        else rbracket_loop p' level state rbracket
      else if (c =? LSQ) || (c =? LBR) then rbracket_loop p' (if state then level else level + 1) state rbracket
      else if (c =? RSQ) || (c =? RBR) then
        if state then rbracket_loop p' level state rbracket
        else if level - 1 =? 0 then (if rbracket =? c then Some p else None)
        else rbracket_loop p' (level - 1) state rbracket
      else rbracket_loop p' level state rbracket
  end.

(** [__zbx_json_rbracket] *)
Definition json_rbracket (p : list Z) : option (list Z) :=
  let lbracket := deref p in
  if negb (lbracket =? LBR) && negb (lbracket =? LSQ) then None
  else rbracket_loop p 0 false (if lbracket =? LBR then RBR else RSQ).

(** [None] is the result [FAIL]. *)
Definition zbx_json_open (buffer : list Z) : res (option zbx_json_parse) :=
  let buffer := skip_whitespace buffer in
  if deref buffer =? 0 then Ret None
  else
    r ← zbx_json_validate buffer;
    match r with
    | Failed _ => Ret None
    | Parsed len => Ret (Some (JsonParse buffer (drop (Z.to_nat (len - 1)) buffer)))
    end.

(** [while (p <= jp->end)] *)
Fixpoint next_loop (jp_end p : list Z) (level : Z) (state : bool) : option (list Z) :=
  if zlen p <? zlen jp_end then None
  else
    match p with
    | [] => None
    | c :: p' =>
        if c =? QUOT then next_loop jp_end p' level (negb state)
        else if c =? BSL then
          if state then match p' with [] => None | _ :: p'' => next_loop jp_end p'' level state end
          else next_loop jp_end p' level state
        else if (c =? LSQ) || (c =? LBR) then next_loop jp_end p' (if state then level else level + 1) state
        else if (c =? RSQ) || (c =? RBR) then
          if state then next_loop jp_end p' level state
          else if level =? 0 then None else next_loop jp_end p' (level - 1) state
        else if c =? COMMA then
          if negb state && (level =? 0) then Some (skip_whitespace p') else next_loop jp_end p' level state
        else next_loop jp_end p' level state
    end.

Definition zbx_json_next (jp : zbx_json_parse) (p : option (list Z)) : option (list Z) :=
  if ptr_diff (jp_end jp) (jp_start jp) =? 1 then None
  else
    match p with
    | None => Some (skip_whitespace (drop 1 (jp_start jp)))
    | Some p => next_loop (jp_end jp) p 0 false
    end.

(** The string stored in [out] and the returned pointer. *)
Definition zbx_json_copy_unquoted_value (p : list Z) (len size : Z) : option (list Z * list Z) :=
  if size <? len + 1 then None else Some (take (Z.to_nat len) p, drop (Z.to_nat len) p).

(** The number of characters of a primitive value; [None] when the value is
    not decoded. *)
Definition primitive (p : list Z) : res (option Z) :=
  match json_type p with
  | ZBX_JSON_TYPE_ARRAY | ZBX_JSON_TYPE_OBJECT | ZBX_JSON_TYPE_UNKNOWN => Ret None
  | _ =>
      r ← json_parse_value (json_fuel p) false p;
      match r.1 with Failed _ => Ret None | Parsed len => Ret (Some len) end
  end.

(** The decoded string as C code sees it, the returned pointer and the type. *)
Definition decode_as (p : list Z) (len size : Z) : res (option (list Z * list Z * zbx_json_type_t)) :=
  let type := json_type p in
  match type with
  | ZBX_JSON_TYPE_STRING =>
      o ← json_copy_string p size;
      Ret (match o with Some (s, q) => Some (c_str s, q, type) | None => None end)
  | ZBX_JSON_TYPE_NULL => Ret (if size =? 0 then None else Some ([], drop (Z.to_nat len) p, type))
  | _ => Ret (match zbx_json_copy_unquoted_value p len size with Some (s, q) => Some (s, q, type) | None => None end)
  end.

Definition zbx_json_decodevalue (p : list Z) (size : Z) : res (option (list Z * list Z * zbx_json_type_t)) :=
  o ← primitive p;
  match o with None => Ret None | Some len => decode_as p len size end.

(** The buffer is made larger when it has no room for [len] bytes and a NUL.
    The result also has the size of the buffer. *)
Definition zbx_json_decodevalue_dyn (p : list Z) (string_alloc : Z) : res (option (list Z * list Z * zbx_json_type_t) * Z) :=
  o ← primitive p;
  match o with
  | None => Ret (None, string_alloc)
  | Some len =>
      let string_alloc := if string_alloc <=? len then len + 1 else string_alloc in
      r ← decode_as p len string_alloc;
      Ret (r, string_alloc)
  end.

(** The name and the pointer to the value. *)
Definition zbx_json_pair_next (jp : zbx_json_parse) (p : option (list Z)) (size : Z) : res (option (list Z * list Z)) :=
  match zbx_json_next jp p with
  | None => Ret None
  | Some p =>
      match json_type p with
      | ZBX_JSON_TYPE_STRING =>
          o ← json_copy_string p size;
          match o with
          | None => Ret None
          | Some (name, p) =>
              let p := skip_whitespace p in
              if negb (deref p =? COLON) then Ret None else Ret (Some (c_str name, skip_whitespace (drop 1 p)))
          end
      | _ => Ret None
      end
  end.

Fixpoint pair_loop (fuel : nat) (jp : zbx_json_parse) (p : option (list Z)) (name : list Z) : res (option (list Z)) :=
  match fuel with
  | O => Halt OutOfFuel
  | S fuel =>
      o ← zbx_json_pair_next jp p MAX_STRING_LEN;
      match o with
      | None => Ret None
      | Some (buffer, p) => if strcmp name buffer =? 0 then Ret (Some p) else pair_loop fuel jp (Some p) name
      end
  end.

Definition zbx_json_pair_by_name (jp : zbx_json_parse) (name : list Z) : res (option (list Z)) :=
  pair_loop (S (length (jp_start jp))) jp None name.

Definition zbx_json_next_value (jp : zbx_json_parse) (p : option (list Z)) (size : Z) :
    res (option (list Z * list Z * zbx_json_type_t)) :=
  match zbx_json_next jp p with
  | None => Ret None
  | Some p => zbx_json_decodevalue p size
  end.

Definition zbx_json_next_value_dyn (jp : zbx_json_parse) (p : option (list Z)) (string_alloc : Z) :
    res (option (list Z * list Z * zbx_json_type_t) * Z) :=
  match zbx_json_next jp p with
  | None => Ret (None, string_alloc)
  | Some p => zbx_json_decodevalue_dyn p string_alloc
  end.

(** [None] is the result [FAIL]. *)
Definition zbx_json_value_by_name (jp : zbx_json_parse) (name : list Z) (size : Z) : res (option (list Z * zbx_json_type_t)) :=
  o ← zbx_json_pair_by_name jp name;
  match o with
  | None => Ret None
  | Some p => r ← zbx_json_decodevalue p size; Ret (match r with Some (s, _, type) => Some (s, type) | None => None end)
  end.

Definition zbx_json_value_by_name_dyn (jp : zbx_json_parse) (name : list Z) (string_alloc : Z) :
    res (option (list Z * zbx_json_type_t)) :=
  o ← zbx_json_pair_by_name jp name;
  match o with
  | None => Ret None
  | Some p => r ← zbx_json_decodevalue_dyn p string_alloc; Ret (match r.1 with Some (s, _, type) => Some (s, type) | None => None end)
  end.

Definition zbx_json_brackets_open (p : list Z) : option zbx_json_parse :=
  match json_rbracket p with
  | None => None
  | Some e => Some (JsonParse (skip_whitespace p) e)
  end.

Definition zbx_json_brackets_by_name (jp : zbx_json_parse) (name : list Z) : res (option zbx_json_parse) :=
  o ← zbx_json_pair_by_name jp name;
  Ret (match o with None => None | Some p => zbx_json_brackets_open p end).

Definition zbx_json_object_is_empty (jp : zbx_json_parse) : Z :=
  if ptr_diff (jp_end jp) (jp_start jp) >? 1 then FAIL else SUCCEED.

Fixpoint count_loop (fuel : nat) (jp : zbx_json_parse) (p : option (list Z)) (num : Z) : res Z :=
  match fuel with
  | O => Halt OutOfFuel
  | S fuel =>
      match zbx_json_next jp p with
      | None => Ret num
      | Some p => count_loop fuel jp (Some p) (num + 1)
      end
  end.

Definition zbx_json_count (jp : zbx_json_parse) : res Z := count_loop (S (length (jp_start jp))) jp None 0.

(** ** Scanning

    Both loops over the characters keep the nesting level and whether they are
    inside a string.  [Scanner] states the steps they share; [ok] holds of the
    pointers the loop still looks at, and [lv] is the least level of a value
    that the loop passes over.  Passing over a value of the grammar then leaves
    the level as it was. *)

Definition inert (c : Z) : Prop :=
  c <> QUOT /\ c <> BSL /\ c <> LSQ /\ c <> LBR /\ c <> RSQ /\ c <> RBR /\ c <> COMMA.

Class Scanner (F : list Z -> Z -> bool -> option (list Z)) (lv : Z) (ok : list Z -> Prop) : Prop := {
  sc_lv : 0 <= lv <= 1;
  sc_ok : forall c p, ok p -> ok (c :: p);
  sc_quot : forall p l st, ok p -> F (QUOT :: p) l st = F p l (negb st);
  sc_escape : forall c p l, ok p -> F (BSL :: c :: p) l true = F p l true;
  sc_inside : forall c p l, ok p -> c <> QUOT -> c <> BSL -> F (c :: p) l true = F p l true;
  sc_outside : forall c p l, ok p -> inert c -> F (c :: p) l false = F p l false;
  sc_comma : forall p l, ok p -> 1 <= l -> F (COMMA :: p) l false = F p l false;
  sc_open : forall c p l, ok p -> c = LSQ \/ c = LBR -> F (c :: p) l false = F p (l + 1) false;
  sc_close : forall c p l, ok p -> c = RSQ \/ c = RBR -> lv + 1 <= l -> F (c :: p) l false = F p (l - 1) false }.

Section scanner.
Context {F : list Z -> Z -> bool -> option (list Z)} {lv : Z} {ok : list Z -> Prop} {S : Scanner F lv ok}.

Lemma sc_app t q : ok q -> ok (t ++ q).
Proof. intros Hq. induction t as [|c t IH]; [done|]. cbn. by apply sc_ok. Qed.

Lemma scan_inside t q l : ok q -> Forall (fun c => c <> QUOT /\ c <> BSL) t -> F (t ++ q) l true = F q l true.
Proof. intros Hq Ht. induction Ht as [|c t [H1 H2] _ IH]; [done|]. cbn. rewrite sc_inside; [done|by apply sc_app|done|done]. Qed.

Lemma scan_outside t q l : ok q -> Forall inert t -> F (t ++ q) l false = F q l false.
Proof. intros Hq Ht. induction Ht as [|c t H _ IH]; [done|]. cbn. rewrite sc_outside; [done|by apply sc_app|done]. Qed.

Lemma white_inert w : white w -> Forall inert w.
Proof. intros H. eapply Forall_impl; [exact H|]. unfold is_ws, inert. intros c Hc. unbool; lia. Qed.

Lemma hex4_inside h n : hex4 h n -> Forall (fun c => c <> QUOT /\ c <> BSL) h.
Proof.
  assert (Hx : forall c, isxdigit c = true -> c <> QUOT /\ c <> BSL) by (unfold isxdigit, isdigit; intros c H; unbool; lia).
  intros [a b c d Ha Hb Hc Hd]. repeat (constructor; [by apply Hx|]). constructor.
Qed.

Lemma scan_escape e u q l : ok q -> escape_text e u -> F (BSL :: e ++ q) l true = F q l true.
Proof.
  intros Hq [c Hc|h n Hh _|h1 n1 h2 n2 Hh1 _ Hh2 _]; cbn [app].
  - by apply sc_escape.
  - rewrite sc_escape by by apply sc_app. apply scan_inside; [done|by eapply hex4_inside].
  - rewrite <- app_assoc. cbn [app]. assert (ok (BSL :: 117 :: h2 ++ q)) by (do 2 apply sc_ok; by apply sc_app).
    rewrite sc_escape by by apply sc_app. rewrite scan_inside; [|done|by eapply hex4_inside].
    rewrite sc_escape by by apply sc_app. apply scan_inside; [done|by eapply hex4_inside].
Qed.

Lemma scan_raw r d q l : ok q -> raw_text r d -> F (r ++ q) l true = F q l true.
Proof.
  intros Hq. induction 1 as [|c r d H1 H2 H3 _ IH|e u r d He _ IH]; [done| |].
  - cbn. rewrite sc_inside; [done|by apply sc_app|done|done].
  - cbn [app]. rewrite <- app_assoc, (scan_escape e u) by (done || by apply sc_app). done.
Qed.

Lemma scan_string r d q l : ok q -> raw_text r d -> F ((QUOT :: r ++ [QUOT]) ++ q) l false = F q l false.
Proof.
  intros Hq Hr. cbn [app]. rewrite <- app_assoc. cbn [app]. pose proof (sc_ok QUOT q Hq) as Hq'.
  rewrite sc_quot by by apply sc_app. cbn [negb]. rewrite (scan_raw r d) by done. by rewrite sc_quot.
Qed.

Lemma number_inert t : number_text t -> Forall inert t.
Proof.
  assert (Hds : forall ds, digits ds -> Forall inert ds).
  { intros ds H. eapply Forall_impl; [exact H|]. unfold isdigit, inert. intros c Hc. unbool; lia. }
  assert (Hc : forall c, c = 43 \/ c = 45 \/ c = 46 \/ c = 101 \/ c = 69 -> inert c) by (unfold inert; lia).
  intros [sign int frac exp Hs Hi _ _ Hf He]. repeat apply Forall_app_2.
  - destruct Hs as [->| ->]; [constructor|]. constructor; [apply Hc; lia|constructor].
  - by apply Hds.
  - destruct Hf; constructor; [apply Hc; lia|by apply Hds].
  - destruct He as [|e sign' ds He Hs' Hd _]; constructor; [apply Hc; lia|]. apply Forall_app_2; [|by apply Hds].
    destruct Hs' as [->|[->| ->]]; [constructor|..]; (constructor; [apply Hc; lia|constructor]).
Qed.

Lemma scan_bracketed o c m q l : ok q -> o = LSQ \/ o = LBR -> c = RSQ \/ c = RBR -> lv <= l ->
  (forall q, ok q -> F (m ++ q) (l + 1) false = F q (l + 1) false) -> F ((o :: m ++ [c]) ++ q) l false = F q l false.
Proof.
  intros Hq Ho Hc Hl Hm. cbn [app]. rewrite <- app_assoc. cbn [app]. pose proof (sc_ok c q Hq) as Hq'.
  rewrite sc_open by (done || by apply sc_app). rewrite Hm by done. rewrite sc_close by (done || lia). by rewrite Z.add_simpl_r.
Qed.

Lemma scan_literal text q l : ok q -> Forall (fun c => (97 <=? c) && (c <=? 122) = true) text -> F (text ++ q) l false = F q l false.
Proof.
  intros Hq Ht. apply scan_outside; [done|]. eapply Forall_impl; [exact Ht|]. unfold inert. intros c Hc. unbool. lia.
Qed.

Lemma scan_grammar :
  (forall v t, text_of v t -> forall q l, ok q -> lv <= l -> F (t ++ q) l false = F q l false) /\
  (forall x t, items x t -> forall q l, ok q -> 1 <= l -> F (t ++ q) l false = F q l false) /\
  (forall x t, members x t -> forall q l, ok q -> 1 <= l -> F (t ++ q) l false = F q l false).
Proof.
  pose proof sc_lv as Hlv.
  assert (Hw : forall w q l, white w -> ok q -> F (w ++ q) l false = F q l false) by (intros; apply scan_outside; [done|by apply white_inert]).
  assert (Hcol : forall p l, ok p -> F (COLON :: p) l false = F p l false) by (intros; apply sc_outside; [done|by unfold inert]).
  apply (grammar_ind (fun v t _ => forall q l, ok q -> lv <= l -> F (t ++ q) l false = F q l false)
    (fun x t _ => forall q l, ok q -> 1 <= l -> F (t ++ q) l false = F q l false)
    (fun x t _ => forall q l, ok q -> 1 <= l -> F (t ++ q) l false = F q l false)).
  - intros. by apply scan_literal; [|repeat constructor].
  - intros. by apply scan_literal; [|repeat constructor].
  - intros. by apply scan_literal; [|repeat constructor].
  - intros. by apply scan_outside; [|apply number_inert].
  - intros. by eapply scan_string.
  - intros w H q l Hq Hl. apply scan_bracketed; eauto.
  - intros x t _ IH q l Hq Hl. apply scan_bracketed; eauto. intros. apply IH; [done|lia].
  - intros w H q l Hq Hl. apply scan_bracketed; eauto.
  - intros x t _ IH q l Hq Hl. apply scan_bracketed; eauto. intros. apply IH; [done|lia].
  - intros v w1 t w2 H1 Ht IH H2 q l Hq Hl. rewrite <- !app_assoc. rewrite Hw; [|done|by repeat apply sc_app].
    rewrite IH; [|by apply sc_app|lia]. by apply Hw.
  - intros v x w1 t w2 ts H1 Ht IH H2 Hi IHi q l Hq Hl. flat_app. assert (ok (COMMA :: ts ++ q)) by (by apply sc_ok, sc_app).
    rewrite Hw; [|done|by repeat apply sc_app]. rewrite IH; [|by apply sc_app|lia]. rewrite Hw; [|done|done].
    rewrite sc_comma by (done || by apply sc_app). by apply IHi.
  - intros d r v w1 w2 w3 t w4 H1 Hr H2 H3 Ht IH H4 q l Hq Hl.
    replace ((w1 ++ (QUOT :: r ++ [QUOT]) ++ w2 ++ COLON :: w3 ++ t ++ w4) ++ q) with
      (w1 ++ (QUOT :: r ++ [QUOT]) ++ w2 ++ COLON :: w3 ++ t ++ w4 ++ q) by by flat_app.
    assert (K1 : ok (t ++ w4 ++ q)) by by repeat apply sc_app. assert (K2 : ok (COLON :: w3 ++ t ++ w4 ++ q)) by by apply sc_ok, sc_app.
    rewrite Hw; [|done|by repeat apply sc_app]. rewrite (scan_string r d) by (done || by apply sc_app). rewrite Hw by done.
    rewrite Hcol by by apply sc_app. rewrite Hw by done. rewrite IH; [|by apply sc_app|lia]. by apply Hw.
  - intros d r v x w1 w2 w3 t w4 ts H1 Hr H2 H3 Ht IH H4 Hm IHm q l Hq Hl.
    replace ((w1 ++ (QUOT :: r ++ [QUOT]) ++ w2 ++ COLON :: w3 ++ t ++ w4 ++ COMMA :: ts) ++ q) with
      (w1 ++ (QUOT :: r ++ [QUOT]) ++ w2 ++ COLON :: w3 ++ t ++ w4 ++ COMMA :: ts ++ q) by by flat_app.
    assert (K0 : ok (COMMA :: ts ++ q)) by (by apply sc_ok, sc_app). assert (K1 : ok (t ++ w4 ++ COMMA :: ts ++ q)) by by repeat apply sc_app.
    assert (K2 : ok (COLON :: w3 ++ t ++ w4 ++ COMMA :: ts ++ q)) by by apply sc_ok, sc_app.
    rewrite Hw; [|done|by repeat apply sc_app]. rewrite (scan_string r d) by (done || by apply sc_app). rewrite Hw by done.
    rewrite Hcol by by apply sc_app. rewrite Hw by done. rewrite IH; [|by apply sc_app|lia]. rewrite Hw by done.
    rewrite sc_comma by (done || by apply sc_app). by apply IHm.
Qed.
End scanner.

#[local] Instance rbracket_scanner b : Scanner (fun p l st => rbracket_loop p l st b) 1 (fun _ => True).
Proof.
  split; try done.
  - intros c p l _ H1 H2. cbn. apply Z.eqb_neq in H1 as ->, H2 as ->. by repeat case_match.
  - intros c p l _ (H1 & H2 & H3 & H4 & H5 & H6 & _). cbn. apply Z.eqb_neq in H1 as ->, H2 as ->, H3 as ->, H4 as ->, H5 as ->, H6 as ->. done.
  - by intros c p l _ [->| ->].
  - intros c p l _ Hc Hl. destruct Hc as [->| ->]; cbn; by destruct (Z.eqb_spec (l - 1) 0); [lia|].
Qed.

#[local] Instance next_scanner e : Scanner (next_loop e) 0 (fun p : list Z => zlen e <= zlen p).
Proof.
  assert (Hg : forall (c : Z) (p : list Z), zlen e <= zlen p -> (zlen (c :: p) <? zlen e) = false) by (intros c p H; apply Z.ltb_ge; rewrite zlen_cons; lia).
  split.
  - done.
  - intros c p H. rewrite zlen_cons. lia.
  - intros p l st H. cbn. by rewrite Hg.
  - intros c p l H. cbn. by rewrite Hg by (rewrite zlen_cons; lia).
  - intros c p l H H1 H2. cbn. rewrite Hg by done. apply Z.eqb_neq in H1 as ->, H2 as ->. by repeat case_match.
  - intros c p l H (H1 & H2 & H3 & H4 & H5 & H6 & H7). cbn. rewrite Hg by done.
    apply Z.eqb_neq in H1 as ->, H2 as ->, H3 as ->, H4 as ->, H5 as ->, H6 as ->, H7 as ->. done.
  - intros p l H Hl. cbn. rewrite Hg by done. by destruct (Z.eqb_spec l 0); [lia|].
  - intros c p l H Hc. destruct Hc as [->| ->]; cbn; by rewrite Hg.
  - intros c p l H Hc Hl. destruct Hc as [->| ->]; cbn; rewrite Hg by done; by destruct (Z.eqb_spec l 0); [lia|].
Qed.

(** ** Brackets *)

(** The parts of an object or array. *)
Lemma container_split v t : text_of v t -> is_container v -> exists o m c, t = o :: m ++ [c] /\
  (o = LSQ /\ c = RSQ \/ o = LBR /\ c = RBR) /\
  (white m /\ (v = JArray [] \/ v = JObject []) \/ (exists l, v = JArray l /\ items l m) \/ (exists l, v = JObject l /\ members l m)).
Proof. intros [] Hc; try done; eexists _, _, _; (split; [done|]); (split; [by eauto|]); eauto 6. Qed.

Lemma rbracket_ok v t q : text_of v t -> is_container v -> exists o m c, t = o :: m ++ [c] /\ json_rbracket (t ++ q) = Some (c :: q).
Proof.
  intros Ht Hc. destruct (container_split v t Ht Hc) as (o & m & c & -> & Hoc & Hm). exists o, m, c. split; [done|].
  unfold json_rbracket. cbn [app]. rewrite <- app_assoc. cbn [app deref].
  set (b := if o =? LBR then RBR else RSQ). assert (Hb : b = c) by (subst b; by destruct Hoc as [[-> ->]|[-> ->]]).
  replace (negb (o =? LBR) && negb (o =? LSQ)) with false by (by destruct Hoc as [[-> _]|[-> _]]).
  pose proof (rbracket_scanner b) as S. assert (Hscan : rbracket_loop (m ++ c :: q) 1 false b = rbracket_loop (c :: q) 1 false b).
  { destruct (scan_grammar (S := S)) as (_ & HI & HM). destruct Hm as [[Hw _]|[(l & _ & Hi)|(l & _ & Hi)]].
    - apply (scan_outside (S := S)); [done|by apply white_inert].
    - by apply (HI l m Hi).
    - by apply (HM l m Hi). }
  pose proof (sc_open (Scanner := S) o (m ++ c :: q) 0 I) as Ho. cbn beta in Ho. rewrite Ho by (destruct Hoc as [[-> _]|[-> _]]; eauto).
  change (0 + 1) with 1. rewrite Hscan. subst c. destruct Hoc as [[_ E]|[_ E]]; rewrite E; done.
Qed.

(** Both ways to open an object or array give its first and last character. *)
Lemma brackets_open_ok v t q : text_of v t -> is_container v -> exists o m c, t = o :: m ++ [c] /\
  zbx_json_brackets_open (t ++ q) = Some (JsonParse (t ++ q) (c :: q)).
Proof.
  intros Ht Hc. destruct (rbracket_ok v t q Ht Hc) as (o & m & c & E & H). exists o, m, c. split; [done|].
  unfold zbx_json_brackets_open. rewrite H, skip_nows; [done|by eapply text_nows].
Qed.

Lemma last_char (o c : Z) (m q : list Z) : drop (Z.to_nat (zlen (o :: m ++ [c]) - 1)) ((o :: m ++ [c]) ++ q) = c :: q.
Proof.
  replace ((o :: m ++ [c]) ++ q) with ((o :: m) ++ c :: q) by by flat_app.
  replace (zlen (o :: m ++ [c]) - 1) with (zlen (o :: m)) by (rewrite !zlen_cons, zlen_app, zlen_cons, (zlen_nil (A := Z)); lia).
  apply drop_text.
Qed.

Lemma open_text_ok v w1 t w2 : text_of v t -> is_container v -> white w1 -> white w2 -> exists o m c, t = o :: m ++ [c] /\
  zbx_json_open (w1 ++ t ++ w2) = Ret (Some (JsonParse (t ++ w2) (c :: w2))).
Proof.
  intros Ht Hc H1 H2. destruct (container_split v t Ht Hc) as (o & m & c & E & _). exists o, m, c. split; [done|].
  unfold zbx_json_open. rewrite skip_complete; [|done|by eapply text_nows].
  pose proof (text_no_nul _ _ Ht) as Hnn. replace (deref (t ++ w2) =? 0) with false
    by (symmetry; apply Z.eqb_neq; rewrite E in *; by apply Forall_cons in Hnn as [? _]).
  pose proof (validate_complete v [] t w2 ltac:(constructor) H2 Ht Hc) as Hv. cbn [app] in Hv. rewrite Hv. cbn [mbind res_mbind].
  do 3 f_equal. rewrite E. apply last_char.
Qed.

(** ** Elements *)

Section elements.
Variable c : Z.
Variable rest start : list Z.
Hypothesis close_char : c = RSQ \/ c = RBR.
#[local] Abbreviation q := (c :: rest).
#[local] Abbreviation jp := (JsonParse start q).
Hypothesis not_empty : ptr_diff q start <> 1.

Lemma next_from p : zbx_json_next jp (Some p) = next_loop q p 0 false.
Proof. unfold zbx_json_next. cbn [jp_end jp_start]. by destruct (Z.eqb_spec (ptr_diff q start) 1). Qed.

Lemma next_end w : white w -> next_loop q (w ++ q) 0 false = None.
Proof.
  intros Hw. rewrite (scan_outside (S := next_scanner q)) by (try done; by apply white_inert).
  cbn [next_loop]. rewrite Z.ltb_irrefl. by destruct close_char as [->| ->].
Qed.

Lemma next_comma w p : white w -> zlen q <= zlen p -> next_loop q (w ++ COMMA :: p) 0 false = Some (skip_whitespace p).
Proof.
  intros Hw Hp. rewrite (scan_outside (S := next_scanner q)) by (by apply white_inert || lens).
  cbn [next_loop]. destruct (Z.ltb_spec (zlen (COMMA :: p)) (zlen q)); [lens|]. done.
Qed.

Lemma next_value v t p : text_of v t -> zlen q <= zlen p -> next_loop q (t ++ p) 0 false = next_loop q p 0 false.
Proof. intros Ht Hp. by apply (proj1 (scan_grammar (S := next_scanner q)) v t Ht). Qed.

Lemma behind_room l : zlen q <= zlen (l ++ q).
Proof. rewrite zlen_app. pose proof (zlen_nonneg l). lia. Qed.

Lemma count_items l t : items l t -> forall fuel num, (length l <= fuel)%nat ->
  count_loop fuel jp (Some (skip_whitespace (t ++ q))) num = Ret (num + zlen l - 1).
Proof.
  induction 1 as [v w1 t w2 H1 Ht H2|v l w1 t w2 ts H1 Ht H2 Hi IH]; intros [|fuel] num Hf; cbn in Hf; try lia; cbn [count_loop]; rewrite next_from.
  - rewrite <- !app_assoc, skip_complete by (done || by eapply text_nows). rewrite (next_value v) by (done || apply behind_room).
    rewrite next_end by done. f_equal. lens.
  - replace ((w1 ++ t ++ w2 ++ COMMA :: ts) ++ q) with (w1 ++ t ++ w2 ++ COMMA :: ts ++ q) by by flat_app.
    rewrite skip_complete by (done || by eapply text_nows).
    rewrite (next_value v), next_comma by (done || lens). rewrite IH by lia. f_equal. lens.
Qed.

(** A member at its name: the value and what follows it. *)
Lemma next_member d r w2 w3 v t p : raw_text r d -> white w2 -> white w3 -> text_of v t -> zlen q <= zlen p ->
  next_loop q ((QUOT :: r ++ [QUOT]) ++ w2 ++ COLON :: w3 ++ t ++ p) 0 false = next_loop q p 0 false.
Proof.
  intros Hr H2 H3 Ht Hp. pose proof (zlen_nonneg t). pose proof (zlen_nonneg w2). pose proof (zlen_nonneg w3).
  rewrite (scan_string (S := next_scanner q) r d) by (done || lens).
  rewrite (scan_outside (S := next_scanner q) w2) by (by apply white_inert || lens).
  rewrite (sc_outside (Scanner := next_scanner q)) by (by unfold inert || lens).
  rewrite (scan_outside (S := next_scanner q) w3) by (by apply white_inert || lens). by apply (next_value v).
Qed.

Lemma count_members l t : members l t -> forall fuel num, (length l <= fuel)%nat ->
  count_loop fuel jp (Some (skip_whitespace (t ++ q))) num = Ret (num + zlen l - 1).
Proof.
  induction 1 as [d r v w1 w2 w3 t w4 H1 Hr H2 H3 Ht H4|d r v l w1 w2 w3 t w4 ts H1 Hr H2 H3 Ht H4 Hm IH];
    intros [|fuel] num Hf; cbn in Hf; try lia; cbn [count_loop]; rewrite next_from.
  - replace ((w1 ++ (QUOT :: r ++ [QUOT]) ++ w2 ++ COLON :: w3 ++ t ++ w4) ++ q) with
      (w1 ++ (QUOT :: r ++ [QUOT]) ++ w2 ++ COLON :: w3 ++ t ++ w4 ++ q) by by flat_app.
    rewrite skip_complete by done. rewrite (next_member d r w2 w3 v) by (done || apply behind_room). rewrite next_end by done. f_equal. lens.
  - replace ((w1 ++ (QUOT :: r ++ [QUOT]) ++ w2 ++ COLON :: w3 ++ t ++ w4 ++ COMMA :: ts) ++ q) with
      (w1 ++ (QUOT :: r ++ [QUOT]) ++ w2 ++ COLON :: w3 ++ t ++ w4 ++ COMMA :: ts ++ q) by by flat_app.
    rewrite skip_complete by done. rewrite (next_member d r w2 w3 v) by (done || lens).
    rewrite next_comma by (done || lens). rewrite IH by lia. f_equal. lens.
Qed.

(** The first member with the name. *)
Fixpoint find_member (name : list Z) (l : list (list Z * json)) : option json :=
  match l with
  | [] => None
  | (d, v) :: l => if decide (c_str d = name) then Some v else find_member name l
  end.

(** The buffer for names has room for the name. *)
Definition name_fits (m : list Z * json) : Prop := zlen m.1 < MAX_STRING_LEN.

Definition found (name : list Z) (l : list (list Z * json)) (r : res (option (list Z))) : Prop :=
  match find_member name l with
  | None => r = Ret None
  | Some v => exists t p, r = Ret (Some (t ++ p)) /\ text_of v t /\ stops p
  end.

Lemma pair_next_ok p d r w2 w3 v t p' : raw_text r d -> zlen d < MAX_STRING_LEN -> white w2 -> white w3 -> text_of v t ->
  zbx_json_next jp p = Some ((QUOT :: r ++ [QUOT]) ++ w2 ++ COLON :: w3 ++ t ++ p') ->
  zbx_json_pair_next jp p MAX_STRING_LEN = Ret (Some (c_str d, t ++ p')).
Proof.
  intros Hr Hd H2 H3 Ht Hn. unfold zbx_json_pair_next. rewrite Hn. cbn [app]. rewrite <- app_assoc. cbn [app json_type deref Z.eqb Pos.eqb].
  change (json_type (QUOT :: ?x)) with ZBX_JSON_TYPE_STRING. cbv iota. rewrite (copy_string_ok r d) by done. apply Z.ltb_lt in Hd as ->. cbn [mbind res_mbind].
  rewrite skip_complete by done. cbn [deref Z.eqb Pos.eqb negb]. rewrite drop1, skip_complete; [done|done|by eapply text_nows].
Qed.

Lemma strcmp_eqb a b : (strcmp a b =? 0) = bool_decide (b = a).
Proof. destruct (Z.eqb_spec (strcmp a b) 0) as [E|E]; case_bool_decide; rewrite strcmp_0 in E; congruence. Qed.

Lemma pair_loop_ok name l t : members l t -> forall fuel p, (length l < fuel)%nat -> Forall name_fits l ->
  zbx_json_next jp p = Some (skip_whitespace (t ++ q)) -> found name l (pair_loop fuel jp p name).
Proof.
  induction 1 as [d r v w1 w2 w3 t w4 H1 Hr H2 H3 Ht H4|d r v l w1 w2 w3 t w4 ts H1 Hr H2 H3 Ht H4 Hm IH];
    intros [|fuel] p Hf Hfit Hn; cbn in Hf; try lia; apply Forall_cons in Hfit as [Hd Hfit]; unfold found; cbn [find_member pair_loop].
  - replace ((w1 ++ (QUOT :: r ++ [QUOT]) ++ w2 ++ COLON :: w3 ++ t ++ w4) ++ q) with
      (w1 ++ (QUOT :: r ++ [QUOT]) ++ w2 ++ COLON :: w3 ++ t ++ w4 ++ q) in Hn by by flat_app.
    rewrite skip_complete in Hn by done. rewrite (pair_next_ok p d r w2 w3 v t (w4 ++ q)) by done. cbn [mbind res_mbind].
    rewrite strcmp_eqb. case_bool_decide as E; case_decide; try done.
    + exists t, (w4 ++ q). split_and!; [done..|]. apply stops_white; [done|by right].
    + destruct fuel as [|fuel]; [lia|]. cbn [pair_loop]. unfold zbx_json_pair_next.
      rewrite next_from, (next_value v), next_end by (done || apply behind_room). done.
  - replace ((w1 ++ (QUOT :: r ++ [QUOT]) ++ w2 ++ COLON :: w3 ++ t ++ w4 ++ COMMA :: ts) ++ q) with
      (w1 ++ (QUOT :: r ++ [QUOT]) ++ w2 ++ COLON :: w3 ++ t ++ w4 ++ COMMA :: ts ++ q) in Hn by by flat_app.
    rewrite skip_complete in Hn by done. rewrite (pair_next_ok p d r w2 w3 v t (w4 ++ COMMA :: ts ++ q)) by done. cbn [mbind res_mbind].
    rewrite strcmp_eqb. case_bool_decide as E; case_decide; try done.
    + exists t, (w4 ++ COMMA :: ts ++ q). split_and!; [done..|]. apply stops_white; [done|by left].
    + apply IH; [lia|done|]. rewrite next_from, (next_value v), next_comma by (done || lens). done.
Qed.
End elements.

(** ** Decoding *)

Definition type_of (v : json) : zbx_json_type_t :=
  match v with
  | JNull => ZBX_JSON_TYPE_NULL | JTrue => ZBX_JSON_TYPE_TRUE | JFalse => ZBX_JSON_TYPE_FALSE
  | JNumber _ => ZBX_JSON_TYPE_INT | JString _ => ZBX_JSON_TYPE_STRING
  | JArray _ => ZBX_JSON_TYPE_ARRAY | JObject _ => ZBX_JSON_TYPE_OBJECT
  end.

(** What a buffer of [size] bytes gets of a value. *)
Definition decoded (v : json) (size : Z) : option (list Z * zbx_json_type_t) :=
  let fits (s : list Z) := if zlen s <? size then Some (c_str s, type_of v) else None in
  match v with
  | JNull => Some ([], type_of v)
  | JTrue => fits true_text
  | JFalse => fits false_text
  | JNumber t => fits t
  | JString d => fits d
  | JArray _ | JObject _ => None
  end.

Lemma json_type_ok v t p : text_of v t -> json_type (t ++ p) = type_of v.
Proof.
  intros [| | |t' Hn|r d _|w _|l t' _|w _|l t' _]; try done. unfold json_type.
  assert (Hc : isdigit (deref (t' ++ p)) = true \/ deref (t' ++ p) = 45).
  { destruct Hn as [sign int frac exp [->| ->] Hi Hne _ _ _]; [|by right]. destruct int as [|x int]; [done|]. left.
    by apply Forall_cons in Hi as [? _]. }
  unfold isdigit in Hc. destruct (Z.eqb_spec (deref (t' ++ p)) QUOT) as [E|_]; [rewrite E in Hc; destruct Hc; done|].
  replace ((48 <=? deref (t' ++ p)) && (deref (t' ++ p) <=? 57) || (deref (t' ++ p) =? 45)) with true; [done|].
  symmetry. destruct Hc as [->| ->]; done.
Qed.

Lemma primitive_ok v t p : text_of v t -> stops p ->
  primitive (t ++ p) = Ret (if decide (is_container v) then None else Some (zlen t)).
Proof.
  intros Ht Hp. unfold primitive. rewrite (json_type_ok v) by done.
  destruct (proj1 grammar_complete v t Ht false [] p (json_fuel (t ++ p)) ltac:(constructor) Hp) as (o & E & _).
  { unfold json_fuel. rewrite length_app. lia. }
  cbn [app] in E. rewrite E. cbn [mbind res_mbind fst]. by destruct v.
Qed.

Lemma c_str_no_nul s : no_nul s -> c_str s = s.
Proof. induction 1 as [|c s Hc _ IH]; cbn; [done|]. apply Z.eqb_neq in Hc as ->. by rewrite IH. Qed.

Lemma unquoted_ok t p size : no_nul t ->
  zbx_json_copy_unquoted_value (t ++ p) (zlen t) size = if zlen t <? size then Some (c_str t, p) else None.
Proof.
  intros Hn. unfold zbx_json_copy_unquoted_value. rewrite drop_text, to_nat_zlen, take_app_length, (c_str_no_nul t Hn).
  destruct (Z.ltb_spec size (zlen t + 1)), (Z.ltb_spec (zlen t) size); try lia; done.
Qed.

Lemma decode_as_ok v t p size : text_of v t -> ~ is_container v -> 0 < size ->
  decode_as (t ++ p) (zlen t) size = Ret (match decoded v size with Some (s, ty) => Some (s, p, ty) | None => None end).
Proof.
  intros Ht Hv Hs. unfold decode_as. rewrite (json_type_ok v) by done. pose proof (text_no_nul _ _ Ht) as Hnn.
  assert (Hplain : forall ty : zbx_json_type_t, Ret (match zbx_json_copy_unquoted_value (t ++ p) (zlen t) size with Some (s, q) => Some (s, q, ty) | None => None end)
    = Ret (match (if zlen t <? size then Some (c_str t, ty) else None) with Some (s, ty) => Some (s, p, ty) | None => None end)).
  { intros ty. rewrite unquoted_ok by done. by destruct (zlen t <? size). }
  destruct Ht as [| | |t Hn|r d Hr|w _|l t _|w _|l t _]; cbn [type_of decoded]; try (by destruct Hv).
  - rewrite drop_text. by destruct (Z.eqb_spec size 0); [lia|].
  - apply Hplain.
  - apply Hplain.
  - apply Hplain.
  - cbn [app]. rewrite <- app_assoc. cbn [app]. rewrite (copy_string_ok r d) by done. cbn [mbind res_mbind]. by destruct (zlen d <? size).
Qed.

Lemma decode_ok v t p size : text_of v t -> stops p -> 0 < size ->
  zbx_json_decodevalue (t ++ p) size = Ret (match decoded v size with Some (s, ty) => Some (s, p, ty) | None => None end).
Proof.
  intros Ht Hp Hs. unfold zbx_json_decodevalue. rewrite (primitive_ok v) by done. cbn [mbind res_mbind].
  case_decide as Hv; [by destruct v|]. by apply decode_as_ok.
Qed.

(** The growing buffer always has room. *)
Lemma decoded_room v t size : text_of v t -> zlen t < size -> decoded v size = decoded v (zlen t + 1).
Proof.
  intros Ht Hs. assert (Hle : forall s : list Z, zlen s <= zlen t ->
    (if zlen s <? size then Some (c_str s, type_of v) else None) = if zlen s <? zlen t + 1 then Some (c_str s, type_of v) else None).
  { intros s Hl. destruct (Z.ltb_spec (zlen s) size), (Z.ltb_spec (zlen s) (zlen t + 1)); try lia; done. }
  destruct Ht as [| | |t Hn|r d Hr|w _|l t _|w _|l t _]; cbn [decoded]; try done; try (by apply Hle).
  apply Hle. apply raw_length in Hr. rewrite zlen_cons, zlen_app, zlen_cons, (zlen_nil (A := Z)). unfold zlen. lia.
Qed.

Lemma decode_dyn_ok v t p alloc : text_of v t -> stops p ->
  exists alloc', zbx_json_decodevalue_dyn (t ++ p) alloc =
    Ret (match decoded v (zlen t + 1) with Some (s, ty) => Some (s, p, ty) | None => None end, alloc').
Proof.
  intros Ht Hp. unfold zbx_json_decodevalue_dyn. rewrite (primitive_ok v) by done. cbn [mbind res_mbind].
  case_decide as Hv; [exists alloc; by destruct v|]. set (a := if alloc <=? zlen t then _ else _). pose proof (zlen_nonneg t).
  assert (zlen t < a) by (subst a; destruct (Z.leb_spec alloc (zlen t)); lia).
  rewrite (decode_as_ok v) by (done || lia). cbn [mbind res_mbind]. exists a. by rewrite (decoded_room v t) by done.
Qed.

(** ** Reading an open object or array *)

(** [jp] is at the brackets of a text of the value. *)
Definition opens (jp : zbx_json_parse) (v : json) : Prop :=
  exists o m c p, jp = JsonParse ((o :: m ++ [c]) ++ p) (c :: p) /\ text_of v (o :: m ++ [c]) /\ is_container v.

Definition elements (v : json) : Z := match v with JArray l => zlen l | JObject l => zlen l | _ => 0 end.

Lemma items_length l t : items l t -> (length l <= length t)%nat /\ (0 < length l)%nat.
Proof.
  induction 1 as [v w1 t w2 _ Ht _|v l w1 t w2 ts _ _ _ _ [IH _]]; cbn; repeat (rewrite length_app; cbn); [|lia].
  destruct (text_head _ _ Ht) as (c & t' & -> & _). cbn. lia.
Qed.

Lemma members_length l t : members l t -> (length l <= length t)%nat /\ (0 < length l)%nat.
Proof. induction 1 as [d r v w1 w2 w3 t w4|d r v l w1 w2 w3 t w4 ts ? ? ? ? ? ? ? [IH _]]; cbn; repeat (rewrite length_app; cbn); lia. Qed.

Lemma bracket_diff (o c : Z) m p : ptr_diff (c :: p) ((o :: m ++ [c]) ++ p) = 1 + zlen m.
Proof. replace ((o :: m ++ [c]) ++ p) with ((o :: m) ++ c :: p) by by flat_app. rewrite ptr_diff_app. by rewrite zlen_cons. Qed.

Lemma container_inv o m c v : text_of v (o :: m ++ [c]) -> is_container v -> (c = RSQ \/ c = RBR) /\
  (white m /\ (v = JArray [] \/ v = JObject []) \/ (exists l, v = JArray l /\ items l m) \/ (exists l, v = JObject l /\ members l m)).
Proof.
  intros Ht Hc. destruct (container_split v _ Ht Hc) as (o' & m' & c' & E & Hoc & H). injection E as <- E.
  apply app_inj_tail in E as [<- <-]. split; [by destruct Hoc as [[_ ->]|[_ ->]]; auto|done].
Qed.

(** Going to the first element. *)
Lemma next_first o m c p : m <> [] ->
  zbx_json_next (JsonParse ((o :: m ++ [c]) ++ p) (c :: p)) None = Some (skip_whitespace (m ++ c :: p)).
Proof.
  intros Hm. unfold zbx_json_next. cbn [jp_end jp_start]. rewrite bracket_diff. apply zlen_pos in Hm.
  destruct (Z.eqb_spec (1 + zlen m) 1); [lia|]. cbn [app]. rewrite drop1. do 2 f_equal. by flat_app.
Qed.

Lemma count_ok jp v : opens jp v -> elements v <> 0 -> zbx_json_count jp = Ret (elements v).
Proof.
  intros (o & m & c & p & -> & Ht & Hc) He. destruct (container_inv o m c v Ht Hc) as (Hcc & Hm). unfold zbx_json_count. cbn [jp_start count_loop].
  assert (Hone : forall (n : nat), m <> [] -> (0 < n)%nat -> ((n <= length m)%nat) ->
    (forall fuel num, (n <= fuel)%nat -> ptr_diff (c :: p) ((o :: m ++ [c]) ++ p) <> 1 ->
      count_loop fuel (JsonParse ((o :: m ++ [c]) ++ p) (c :: p)) (Some (skip_whitespace (m ++ c :: p))) num = Ret (num + Z.of_nat n - 1)) ->
    match zbx_json_next (JsonParse ((o :: m ++ [c]) ++ p) (c :: p)) None with
    | None => Ret 0
    | Some p0 => count_loop (length ((o :: m ++ [c]) ++ p)) (JsonParse ((o :: m ++ [c]) ++ p) (c :: p)) (Some p0) (0 + 1)
    end = Ret (Z.of_nat n)).
  { intros n Hne Hn Hle H. rewrite next_first by done. rewrite H; [f_equal; lia|cbn; rewrite !length_app; cbn; lia|].
    rewrite bracket_diff. apply zlen_pos in Hne. lia. }
  destruct Hm as [[_ [->| ->]]|[(l & -> & Hi)|(l & -> & Hi)]]; [by destruct He..| |].
  - destruct (items_length l m Hi) as [H1 H2]. apply (Hone (length l)); [by intros ->; cbn in *; lia|done|done|].
    intros fuel num Hf Hd. by apply count_items.
  - destruct (members_length l m Hi) as [H1 H2]. apply (Hone (length l)); [by intros ->; cbn in *; lia|done|done|].
    intros fuel num Hf Hd. by apply count_members.
Qed.

Lemma pair_by_name_ok jp l name : opens jp (JObject l) -> Forall name_fits l -> found name l (zbx_json_pair_by_name jp name).
Proof.
  intros (o & m & c & p & -> & Ht & Hc) Hfit. destruct (container_inv o m c _ Ht Hc) as (Hcc & Hm). unfold zbx_json_pair_by_name. cbn [jp_start].
  destruct Hm as [[Hw [E|E]]|[(l' & E & Hi)|(l' & E & Hi)]]; try done; injection E as ->.
  - unfold found. cbn [find_member pair_loop]. unfold zbx_json_pair_next. destruct (decide (m = [])) as [->|Hne].
    + unfold zbx_json_next. cbn [jp_end jp_start]. by rewrite bracket_diff.
    + rewrite next_first by done. rewrite skip_complete; [|done|by destruct Hcc as [->| ->]]. by destruct Hcc as [->| ->].
  - destruct (members_length l' m Hi) as [H1 H2]. assert (Hne : m <> []) by (intros ->; cbn in *; lia).
    apply (pair_loop_ok c p _ Hcc) with (t := m); try done; [|cbn; rewrite !length_app; cbn; lia|by apply next_first].
    rewrite bracket_diff. apply zlen_pos in Hne. lia.
Qed.

Lemma brackets_open_opens v t p : text_of v t -> is_container v -> exists jp, zbx_json_brackets_open (t ++ p) = Some jp /\ opens jp v.
Proof.
  intros Ht Hc. destruct (brackets_open_ok v t p Ht Hc) as (o & m & c & -> & H). eexists. split; [done|]. by exists o, m, c, p.
Qed.

Lemma brackets_closed v t p : text_of v t -> ~ is_container v -> zbx_json_brackets_open (t ++ p) = None.
Proof.
  intros Ht Hv. unfold zbx_json_brackets_open, json_rbracket. pose proof (json_type_ok v t p Ht) as Hty. unfold json_type in Hty.
  destruct (Z.eqb_spec (deref (t ++ p)) LBR) as [E|E]; [rewrite E in Hty; by destruct v|].
  destruct (Z.eqb_spec (deref (t ++ p)) LSQ) as [E2|E2]; [rewrite E2 in Hty; by destruct v|]. done.
Qed.

Lemma open_opens v w1 t w2 : text_of v t -> is_container v -> white w1 -> white w2 ->
  exists jp, zbx_json_open (w1 ++ t ++ w2) = Ret (Some jp) /\ opens jp v.
Proof.
  intros Ht Hc H1 H2. destruct (open_text_ok v w1 t w2 Ht Hc H1 H2) as (o & m & c & -> & H). eexists. split; [done|]. by exists o, m, c, w2.
Qed.

Lemma value_by_name_ok jp l name size : opens jp (JObject l) -> Forall name_fits l -> 0 < size ->
  zbx_json_value_by_name jp name size = Ret (find_member name l ≫= fun x => decoded x size).
Proof.
  intros Ho Hf Hs. pose proof (pair_by_name_ok jp l name Ho Hf) as H. unfold found in H. unfold zbx_json_value_by_name.
  destruct (find_member name l) as [x|]; [|by rewrite H]. destruct H as (t & p & -> & Ht & Hp). cbn [mbind res_mbind option_bind].
  rewrite (decode_ok x) by done. cbn [mbind res_mbind]. by destruct (decoded x size) as [[]|].
Qed.

Lemma value_by_name_dyn_ok jp l name alloc : opens jp (JObject l) -> Forall name_fits l ->
  exists size, zbx_json_value_by_name_dyn jp name alloc = Ret (find_member name l ≫= fun x => decoded x size) /\
    forall x, find_member name l = Some x -> ~ is_container x -> decoded x size <> None.
Proof.
  intros Ho Hf. pose proof (pair_by_name_ok jp l name Ho Hf) as H. unfold found in H. unfold zbx_json_value_by_name_dyn.
  destruct (find_member name l) as [x|]; [|exists 1; by rewrite H]. destruct H as (t & p & -> & Ht & Hp). cbn [mbind res_mbind option_bind].
  destruct (decode_dyn_ok x t p alloc Ht Hp) as (a & ->). cbn [mbind res_mbind fst]. exists (zlen t + 1).
  split; [by destruct (decoded x (zlen t + 1)) as [[]|]|]. intros x' [= <-] Hx.
  assert (Hfit : forall s : list Z, zlen s <= zlen t -> (if zlen s <? zlen t + 1 then Some (c_str s, type_of x) else None) <> None).
  { intros s Hs. by destruct (Z.ltb_spec (zlen s) (zlen t + 1)); [|lia]. }
  destruct Ht as [| | |t Hn|r d Hr|w _|l' t _|w _|l' t _]; cbn [decoded]; try (by destruct Hx); try done; try (by apply Hfit).
  apply Hfit. apply raw_length in Hr. rewrite zlen_cons, zlen_app, zlen_cons, (zlen_nil (A := Z)). unfold zlen. lia.
Qed.

Lemma brackets_by_name_ok jp l name : opens jp (JObject l) -> Forall name_fits l ->
  exists r, zbx_json_brackets_by_name jp name = Ret r /\
    match find_member name l with
    | Some x => if decide (is_container x) then exists jp', r = Some jp' /\ opens jp' x else r = None
    | None => r = None
    end.
Proof.
  intros Ho Hf. pose proof (pair_by_name_ok jp l name Ho Hf) as H. unfold found in H. unfold zbx_json_brackets_by_name.
  destruct (find_member name l) as [x|]; [|exists None; by rewrite H]. destruct H as (t & p & -> & Ht & Hp). cbn [mbind res_mbind].
  case_decide as Hx.
  - destruct (brackets_open_opens x t p Ht Hx) as (jp' & -> & Hj). eauto.
  - rewrite (brackets_closed x) by done. eauto.
Qed.

(** The outermost frame stays what it is. *)
Definition bottom (st : frame * list frame) : bool := f_object (default st.1 (last st.2)).

Lemma bottom_step st op st' : build_step st op st' -> bottom st' = bottom st.
Proof.
  intros [f fs name n _ _|f fs name n _ _|f fs op' name n v t _ _ _|f g fs|f]; unfold bottom; cbn [fst snd]; rewrite ?last_cons; try done;
    by destruct (last fs).
Qed.

Lemma bottom_build st ops st' : build st ops st' -> bottom st' = bottom st.
Proof. induction 1 as [|st op st' ops st'' Hs _ IH]; [done|]. by rewrite IH, (bottom_step _ _ _ Hs). Qed.

(** ** Properties *)

(** C30: Reading in place.  For a text of an object or array, with white
    space around it, opening it gives its first and last bracket.  From there
    the number of elements is counted, but for objects and arrays without any
    (a space between their brackets is counted as an element); and for an object
    all names of which have less than 2048 bytes looking up a name gives the value of the first member with that name, decoded when it is a
    primitive value that fits the buffer, and the brackets of it when it is
    an object or array, which can be read in the same way; the variant with a
    growing buffer always has room for a primitive value. *)
Theorem json_read_correct v w1 t w2 :
  text_of v t -> is_container v -> white w1 -> white w2 ->
  exists jp, zbx_json_open (w1 ++ t ++ w2) = Ret (Some jp) /\ opens jp v /\
  forall jp' v', opens jp' v' ->
    (elements v' <> 0 -> zbx_json_count jp' = Ret (elements v')) /\
    forall l name size, v' = JObject l -> Forall name_fits l -> 0 < size ->
      zbx_json_value_by_name jp' name size = Ret (find_member name l ≫= fun x => decoded x size) /\
      (exists room, zbx_json_value_by_name_dyn jp' name size = Ret (find_member name l ≫= fun x => decoded x room) /\
        forall x, find_member name l = Some x -> ~ is_container x -> decoded x room <> None) /\
      exists r, zbx_json_brackets_by_name jp' name = Ret r /\
        match find_member name l with
        | Some x => if decide (is_container x) then exists jp'', r = Some jp'' /\ opens jp'' x else r = None
        | None => r = None
        end.
Proof.
  intros Ht Hc H1 H2. destruct (open_opens v w1 t w2 Ht Hc H1 H2) as (jp & Hjp & Ho). exists jp. split; [done|]. split; [done|].
  intros jp' v' Ho'. split; [by apply count_ok|]. intros l name size -> Hf Hs. split; [by apply value_by_name_ok|].
  split; [by apply value_by_name_dyn_ok|by apply brackets_by_name_ok].
Qed.

(** What is built is read back: for any sequence of calls that builds an
    object, the text opens, and looking up a name gives the first member that
    was added with it, in particular a string is read back as it was added. *)
Theorem json_build_read_roundtrip junk allocate ops f :
  0 <= allocate -> build (Frame true [] [], []) ops (f, []) ->
  let l := (fun i => (i.1.1, i.1.2)) <$> f_items f in
  Forall name_fits l ->
  exists j jp, (init junk true allocate ≫= fun j => run_ops junk j ops) = Ret j /\ zbx_json_open (json_text j) = Ret (Some jp) /\
    opens jp (JObject l) /\
    forall name size, 0 < size ->
      zbx_json_value_by_name jp name size = Ret (find_member name l ≫= fun x => decoded x size) /\
      (forall s, find_member name l = Some (JString s) -> no_nul s -> zlen s < size ->
        zbx_json_value_by_name jp name size = Ret (Some (s, ZBX_JSON_TYPE_STRING))).
Proof.
  intros Ha Hb l Hl. assert (Hobj : f_object f = true) by exact (bottom_build _ _ _ Hb). destruct (json_init_ok junk true allocate Ha) as (j0 & -> & H0). cbn [mbind res_mbind].
  destruct (build_ok junk _ _ _ Hb j0 H0) as (j & -> & Hj). destruct (built_text j f [] Hj) as (_ & _ & Ht & Hc).
  assert (Hv : root_value f [] = JObject l) by (unfold root_value; cbn [root fst]; unfold frame_value; by rewrite Hobj).
  rewrite Hv in Ht, Hc. destruct (open_opens _ [] (json_text j) [] Ht Hc ltac:(constructor) ltac:(constructor)) as (jp & Hjp & Ho).
  cbn [app] in Hjp. rewrite app_nil_r in Hjp. exists j, jp. split_and!; [done|done|done|]. intros name size Hs.
  rewrite (value_by_name_ok jp l) by done. split; [done|]. intros s -> Hns Hfit. cbn. apply Z.ltb_lt in Hfit as ->. by rewrite c_str_no_nul.
Qed.

(** ** Witnesses and examples *)

Lemma sample_names : Forall name_fits ((fun i => (i.1.1, i.1.2)) <$> f_items sample_frame).
Proof. by repeat constructor. Qed.

Lemma json_build_read_witness :
  exists j jp, (init 0 true 10 ≫= fun j => run_ops 0 j sample_ops) = Ret j /\ zbx_json_open (json_text j) = Ret (Some jp) /\
    zbx_json_value_by_name jp [97] 10 = Ret (Some ([120], ZBX_JSON_TYPE_STRING)).
Proof.
  destruct (json_build_read_roundtrip 0 10 sample_ops sample_frame ltac:(lia) sample_build sample_names) as (j & jp & Hj & Hjp & _ & H).
  exists j, jp. exact (conj Hj (conj Hjp (proj2 (H [97] 10 ltac:(lia)) [120] eq_refl ltac:(by repeat constructor) ltac:(done)))).
Defined.

Lemma sample_frame_text : text_of (frame_value sample_frame) (frame_text sample_frame).
Proof.
  apply frame_text_of. assert (Hs : forall c, 0 < c < 256 -> c_string [c]) by (intros c Hc; constructor; [done|constructor]).
  constructor; [split; [by apply (quoted_text_of [120]), Hs|intros _; by apply Hs]|]. constructor; [|constructor].
  split; [|intros _; by apply Hs]. apply (text_array [JNumber [55]] [55]).
  apply (items_one (JNumber [55]) [] [55] []); [constructor|apply text_number, (print_uint64_text 7); lia|constructor].
Qed.

Lemma json_read_witness :
  exists jp, zbx_json_open ([32] ++ frame_text sample_frame ++ [10]) = Ret (Some jp) /\ opens jp (frame_value sample_frame).
Proof.
  destruct (json_read_correct (frame_value sample_frame) [32] (frame_text sample_frame) [10] sample_frame_text I) as (jp & H & Ho & _);
    [by repeat constructor|by repeat constructor|]. exists jp. exact (conj H Ho).
Defined.

(** [[ ]] has no elements, but counts as one and is not empty: the test for
    an empty array is that its brackets are neighbours. *)
Example blank_array_counts_one :
  (o ← zbx_json_open [LSQ; 32; RSQ]; jp ← of_opt BadAccess o; n ← zbx_json_count jp; Ret (n, zbx_json_object_is_empty jp)) = Ret (1, FAIL).
Proof. vm_compute. reflexivity. Qed.

(** [{"n...n":1,"a":2}] with a name of 2048 characters: the member behind it
    is not found. *)
Example long_name_hides_members :
  (o ← zbx_json_open ([LBR; QUOT] ++ replicate 2048 110 ++ [QUOT; COLON; 49; COMMA; QUOT; 97; QUOT; COLON; 50; RBR]);
   jp ← of_opt BadAccess o; zbx_json_pair_by_name jp [97]) = Ret None.
Proof. vm_compute. reflexivity. Qed.

(** White space in front of a bracket is skipped too late. *)
Example brackets_open_white : zbx_json_brackets_open [32; LSQ; RSQ] = None.
Proof. reflexivity. Qed.
