(* ===== verification/Asn1.v ===== *)
(** * Basic encoding rules (src/zabbix_server/glb_poller/asn1.c, asn1.h)

    The SNMP poller writes and reads its packets with these functions.  A
    decoder gets the packet, the position [i] and the limit [l] of the element
    it is in, and returns its result with the new position; an encoder appends
    an element to a growing buffer.

    A byte of memory is a number below 256; [char] is signed, as on x86-64.
    Signed additions and left shifts that overflow wrap, a right shift by the
    width of the integer is [Undefined].  Memory is a list of the bytes
    (or ints) of the block, [None] is NULL, [junk] the content of new memory,
    and [can_alloc] says which sizes [realloc] can give. *)
From stdpp Require Import prelude list strings.
From Stdlib Require Import ZArith Lia.
From S2P Require Import Prelude.
#[local] Open Scope Z_scope.

Definition ASN1_INT : Z := 0x2.
Definition ASN1_OCT_STR : Z := 0x4.
Definition ASN1_OID : Z := 0x6.
Definition ASN1_SEQ : Z := 0x10.
Definition ASN1_CONSTRUCTOR : Z := 0x20.
Definition ASN1_LONGLEN : Z := 0x80.

Record asn1_str := Str { str_b : option (list Z); str_len : Z }.
Record asn1_oid := Oid { oid_b : option (list Z); oid_len : Z }.
Record asn1_error := Error { err_code : Z; err_pos : Z; err_message : string }.

Definition no_error : asn1_error := Error 0 0 "".

(** The value of a [char], and what is stored for a value. *)
Definition schar (c : Z) : Z := (c + 128) mod 256 - 128.

(** [x >> k] of a signed integer of [w] bits. *)
Definition sar (w x k : Z) : res Z := if (0 <=? k) && (k <? w) then Ret (Z.shiftr x k) else Halt Undefined.

Definition rd {A} (b : option (list A)) (i : Z) : res A :=
  b ← of_opt BadAccess b; of_opt BadAccess (zget b i).

(** ** Object identifiers, errors, memory *)

(** [for (j = 0; j < a.len && j < b.len; j++)]: [k] iterations are left. *)
Fixpoint cmp_loop (k : nat) (a b : asn1_oid) (j : Z) : res (option Z) :=
  match k with
  | O => Ret None
  | S k =>
      x ← rd (oid_b a) j; y ← rd (oid_b b) j;
      if x <? y then Ret (Some (-1)) else if x >? y then Ret (Some 1) else cmp_loop k a b (j + 1)
  end.

Definition asn1_cmp_oids (a b : asn1_oid) : res Z :=
  r ← cmp_loop (Z.to_nat (Z.min (oid_len a) (oid_len b))) a b 0;
  match r with
  | Some r => Ret r
  | None => if oid_len a =? oid_len b then Ret 0 else if oid_len a <? oid_len b then Ret (-1) else Ret 1
  end.

Fixpoint prefix_loop (k : nat) (a b : asn1_oid) (j : Z) : res bool :=
  match k with
  | O => Ret true
  | S k =>
      x ← rd (oid_b a) j; y ← rd (oid_b b) j;
      if negb (x =? y) then Ret false else prefix_loop k a b (j + 1)
  end.

Definition asn1_oid_has_prefix (a b : asn1_oid) : res Z :=
  same ← prefix_loop (Z.to_nat (Z.min (oid_len a) (oid_len b))) a b 0;
  if (same : bool) then if oid_len a <? oid_len b then Ret 0 else Ret 1 else Ret 0.

Definition asn1_set_error (s : asn1_error) (p : Z) (m : string) : asn1_error :=
  if negb (err_code s =? 0) then s else Error (-1) p m.

Definition asn1_free_oid (id : asn1_oid) : asn1_oid := Oid None 0.
Definition asn1_free_str (s : asn1_str) : asn1_str := Str None 0.

Definition asn1_crt_oid (id : list Z) (l : Z) : res asn1_oid :=
  v ← load_bytes id 0 l; Ret (Oid (Some v) l).

(** [msg]: the memory at [msg]; a length of 0 stands for [strlen(msg)]. *)
Definition c_strlen (msg : list Z) : res Z :=
  of_opt BadAccess ((fun '(i, _) => Z.of_nat i) <$> list_find (fun c => c = 0) msg).

Definition asn1_new_str (msg : list Z) (l : Z) : res asn1_str :=
  l ← (if l =? 0 then c_strlen msg else Ret l);
  v ← load_bytes msg 0 (l + 1); Ret (Str (Some v) l).

(** ** Decoding *)

Section decode.
Variable junk : Z.
(** The packet: all of the memory it is in. *)
Variable b : list Z.

(** [res = res << 8 | (unsigned char)b[( *i)++]], [k] times, in an integer type
    to which [trunc] reduces. *)
Fixpoint be_loop (trunc : Z -> Z) (k : nat) (i res : Z) : Prelude.res (Z * Z) :=
  match k with
  | O => Ret (res, i)
  | S k => c ← rd (Some b) i; be_loop trunc k (i + 1) (trunc (Z.lor (Z.shiftl res 8) c))
  end.

(** The result and the new position. *)
Definition asn1_dec_length (i l : Z) : res (Z * Z) :=
  if i >=? l then Ret (-1, i)
  else
    c ← rd (Some b) i;
    let n := schar c in
    let i := i + 1 in
    if negb (Z.land n ASN1_LONGLEN =? ASN1_LONGLEN) then Ret (n, i)
    else
      let n := Z.land n 0xf in
      if i32 (i + n) >? l then Ret (-1, i)
      else be_loop i32 (Z.to_nat n) i 0.

(** The first byte is read as signed. *)
Definition int_loop (n i : Z) : res (Z * Z) :=
  match Z.to_nat n with
  | O => Ret (0, i)
  | S k => c ← rd (Some b) i; be_loop i32 k (i + 1) (i32 (Z.lor (Z.shiftl 0 8) (schar c)))
  end.

(** The return code, the new position and the new content of [*val]. *)
Definition asn1_dec_int (i l val : Z) : res (Z * Z * Z) :=
  if i >=? l then Ret (-1, i, val)
  else
    c ← rd (Some b) i;
    let n := schar c in
    let i := i + 1 in
    if i32 (i + n) >? l then Ret (-1, i, val)
    else '(res, i) ← int_loop n i; Ret (0, i, res).

Definition asn1_dec_long (i l val : Z) : res (Z * Z * Z) :=
  if i >=? l then Ret (-1, i, val)
  else
    c ← rd (Some b) i;
    let n := schar c in
    let i := i + 1 in
    if i32 (i + n) >? l then Ret (-1, i, val)
    else '(res, i) ← be_loop u64 (Z.to_nat n) i 0; Ret (0, i, res).

(** A length that [realloc] cannot give is also one that [memcpy] cannot read. *)
Definition asn1_dec_string (i l : Z) (val : option asn1_str) : res (Z * Z * option asn1_str) :=
  '(n, i) ← asn1_dec_length i l;
  if n <? 0 then Ret (-1, i, val)
  else if i32 (i + n) >? l then Ret (-1, i, val)
  else
    val ← (match val with
           | Some _ => s ← load_bytes b i n; Ret (Some (Str (Some (s ++ [0])) n))
           | None => Ret None
           end);
    Ret (0, i + n, val).

Definition realloc_ints (old : option (list Z)) (n : Z) : list Z :=
  take (Z.to_nat n) (default [] old) ++ replicate (Z.to_nat n - length (default [] old)) junk.

(** [a[j] = x]; a bad access out of range. *)
Definition put_int (a : list Z) (j x : Z) : res (list Z) :=
  if (0 <=? j) && (j <? zlen a) then Ret (zset a j x) else Halt BadAccess.

(** [for (j = 1; j < n; j++)]: [k] iterations are left; [ids] and [len] are
    [id->b] and [id->len]. *)
Fixpoint oid_loop (k : nat) (i buf : Z) (ids : list Z) (len : Z) : res (Z * list Z * Z) :=
  match k with
  | O => Ret (i, ids, len)
  | S k =>
      c ← rd (Some b) i;
      let q := schar c in
      let buf := i32 (Z.lor (Z.shiftl buf 7) (Z.land q 0x7f)) in
      if Z.land q 0x80 =? 0 then ids ← put_int ids len buf; oid_loop k (i + 1) 0 ids (len + 1)
      else oid_loop k (i + 1) buf ids len
  end.

Definition asn1_dec_oid (i l : Z) (id : asn1_oid) : res (Z * Z * asn1_oid) :=
  '(n, i) ← asn1_dec_length i l;
  if n <? 0 then Ret (-1, i, id)
  else if i32 (i + n) >? l then Ret (-1, i, id)
  else if n =? 0 then Ret (0, i, id)
  else
    let ids := realloc_ints (oid_b id) (n + 1) in
    c ← rd (Some b) i;
    ids ← put_int ids 0 (Z.quot (schar c) 40);
    ids ← put_int ids 1 (Z.rem (schar c) 40);
    '(i, ids, len) ← oid_loop (Z.to_nat (n - 1)) (i + 1) 0 ids 2;
    Ret (0, i, Oid (Some ids) len).

(** The decoder of the content gets the position, its limit and the tag. *)
Definition asn1_dec_sequence {A} (c : Z -> Z -> Z -> A -> res (Z * Z * A)) (i l : Z) (arg : A) : res (Z * Z * A) :=
  if i >=? l then Ret (-1, i, arg)
  else
    t ← rd (Some b) i;
    let tp := Z.land (schar t) 0xff in
    '(rl, i) ← asn1_dec_length (i + 1) l;
    if rl <? 0 then Ret (-1, i, arg) else c i (i32 (i + rl)) tp arg.
End decode.

(** ** Encoding *)

(** The buffer: its memory, the position of the next byte, its size. *)
Record ebuf := EBuf { eb_mem : option (list Z); eb_i : Z; eb_l : Z }.

Section encode.
Variable junk : Z.
Variable can_alloc : Z -> bool.

Definition _grow (e : ebuf) (s : Z) : Z * ebuf :=
  if i32 (eb_i e + s) <=? eb_l e then (0, e)
  else
    let l := if eb_l e =? 0 then 20 else if eb_l e <? 1000 then eb_l e * 2 else i32 (eb_l e + eb_l e / 4) in
    if (0 <=? l) && can_alloc l
    then (0, EBuf (Some (take (Z.to_nat l) (default [] (eb_mem e)) ++
                         replicate (Z.to_nat l - length (default [] (eb_mem e))) junk)) (eb_i e) l)
    else (-1, EBuf None (eb_i e) l).

(** [for (q = ...; q != 0; q >>= 8) n++]: a 64-bit [q] has 8 bytes at most. *)
Fixpoint count_loop (fuel : nat) (n q : Z) : Z :=
  match fuel with
  | O => n
  | S fuel => if q =? 0 then n else count_loop fuel (n + 1) (Z.shiftr q 8)
  end.
Definition count_bytes (n q : Z) : Z := count_loop 8 n q.

Definition _len_size (l : Z) : Z := if l <? 0x80 then 1 else count_bytes 2 (u32 (Z.shiftr l 8)).

(** [( *buf)[( *i)++] = c] *)
Definition put (e : ebuf) (c : Z) : res ebuf :=
  b ← of_opt BadAccess (eb_mem e);
  b ← store_bytes b (eb_i e) [u8 c];
  Ret (EBuf (Some b) (eb_i e + 1) (eb_l e)).

(** [for (j = n - 1; j >= 0; j--) buf[( *i)++] = val >> (8 * j)] *)
Fixpoint put_loop (w : Z) (n : nat) (e : ebuf) (val : Z) : res ebuf :=
  match n with
  | O => Ret e
  | S j => c ← sar w val (8 * Z.of_nat j); e ← put e c; put_loop w j e val
  end.

Definition _enc_len (e : ebuf) (len : Z) : res ebuf :=
  if len <? 0x80 then put e len
  else
    let n := count_bytes 1 (u32 (Z.shiftr len 8)) in
    e ← put e (Z.lor n ASN1_LONGLEN);
    put_loop 32 (Z.to_nat n) e len.

Definition asn1_enc_null (e : ebuf) (tp : Z) : res (Z * ebuf) :=
  let '(r, e) := _grow e 2 in
  if negb (r =? 0) then Ret (-1, e)
  else e ← put e tp; e ← put e 0; Ret (0, e).

Definition enc_number (w n : Z) (e : ebuf) (tp val : Z) : res (Z * ebuf) :=
  let '(r, e) := _grow e (2 + n) in
  if negb (r =? 0) then Ret (-1, e)
  else e ← put e tp; e ← put e n; e ← put_loop w (Z.to_nat n) e val; Ret (0, e).

Definition asn1_enc_int (e : ebuf) (tp val : Z) : res (Z * ebuf) :=
  enc_number 32 (count_bytes 1 (u32 (Z.shiftr val 8))) e tp val.

Definition asn1_enc_long (e : ebuf) (tp val : Z) : res (Z * ebuf) :=
  enc_number 64 (count_bytes 1 (u64 (Z.shiftr val 8))) e tp val.

(** [memcpy( *buf + *i, s, zlen s); *i += zlen s] *)
Definition put_bytes (e : ebuf) (s : list Z) : res ebuf :=
  b ← of_opt BadAccess (eb_mem e);
  b ← store_bytes b (eb_i e) s;
  Ret (EBuf (Some b) (eb_i e + zlen s) (eb_l e)).

Definition asn1_enc_string (e : ebuf) (tp : Z) (val : asn1_str) : res (Z * ebuf) :=
  let '(r, e) := _grow e (i32 (1 + _len_size (str_len val) + str_len val)) in
  if negb (r =? 0) then Ret (-1, e)
  else
    e ← put e tp;
    e ← _enc_len e (str_len val);
    s ← (if str_len val =? 0 then Ret [] else s ← of_opt BadAccess (str_b val); load_bytes s 0 (str_len val));
    e ← put_bytes e s;
    Ret (0, e).

(** [for (j = 2; j < val.len; j++)]: [k] iterations are left. *)
Fixpoint oid_len_loop (k : nat) (val : asn1_oid) (j len : Z) : res Z :=
  match k with
  | O => Ret len
  | S k =>
      q ← rd (oid_b val) j;
      oid_len_loop k val (j + 1)
        (if q <? 0x80 then len + 1 else if q <? 0x4000 then len + 2 else if q <? 0x200000 then len + 3
         else if q <? 0x10000000 then len + 4 else len + 5)
  end.

Definition put_id (e : ebuf) (q : Z) : res ebuf :=
  if q <? 0x80 then put e q
  else if q <? 0x4000 then
    e ← put e (Z.lor (Z.shiftr q 7) 0x80);
    put e (Z.land q 0x7f)
  else if q <? 0x200000 then
    e ← put e (Z.lor (Z.shiftr q 14) 0x80);
    e ← put e (Z.lor (Z.shiftr q 7) 0x80);
    put e (Z.land q 0x7f)
  else if q <? 0x10000000 then
    e ← put e (Z.lor (Z.shiftr q 21) 0x80);
    e ← put e (Z.lor (Z.shiftr q 14) 0x80);
    e ← put e (Z.lor (Z.shiftr q 7) 0x80);
    put e (Z.land q 0x7f)
  else
    e ← put e (Z.lor (Z.shiftr q 28) 0x80);
    e ← put e (Z.lor (Z.shiftr q 21) 0x80);
    e ← put e (Z.lor (Z.shiftr q 14) 0x80);
    e ← put e (Z.lor (Z.shiftr q 7) 0x80);
    put e (Z.land q 0x7f).

Fixpoint put_ids (k : nat) (e : ebuf) (val : asn1_oid) (j : Z) : res ebuf :=
  match k with
  | O => Ret e
  | S k => q ← rd (oid_b val) j; e ← put_id e q; put_ids k e val (j + 1)
  end.

(** The first byte; [None] is the error return. *)
Definition put_first (e : ebuf) (val : asn1_oid) : res (option ebuf) :=
  if oid_len val =? 0 then e ← put e 0; Ret (Some e)
  else
    b0 ← rd (oid_b val) 0;
    if b0 >? 2 then Ret None
    else if oid_len val =? 1 then e ← put e (b0 * 40); Ret (Some e)
    else
      b1 ← rd (oid_b val) 1;
      if b1 >=? 40 then Ret None else e ← put e (b0 * 40 + b1); Ret (Some e).

Definition asn1_enc_oid (e : ebuf) (tp : Z) (val : asn1_oid) : res (Z * ebuf) :=
  len ← oid_len_loop (Z.to_nat (oid_len val - 2)) val 2 1;
  let '(r, e) := _grow e (1 + _len_size len + len) in
  if negb (r =? 0) then Ret (-1, e)
  else
    e ← put e tp;
    e ← _enc_len e len;
    first ← put_first e val;
    match first with
    | None => Ret (-1, e)
    | Some e => e ← put_ids (Z.to_nat (oid_len val - 2)) e val 2; Ret (0, e)
    end.

(** The content is written first and then moved to make room for its tag and
    length. *)
Definition asn1_enc_sequence {A} (c : ebuf -> A -> res (Z * ebuf * A)) (e : ebuf) (tp : Z) (arg : A) : res (Z * ebuf * A) :=
  let st := eb_i e in
  '(r, e, arg) ← c e arg;
  if negb (r =? 0) then Ret (-1, e, arg)
  else
    let i := eb_i e in
    let len := i - st in
    let ll := _len_size len in
    let '(r, e) := _grow (EBuf (eb_mem e) st (eb_l e)) (1 + ll + len) in
    if negb (r =? 0) then Ret (-1, EBuf (eb_mem e) i (eb_l e), arg)
    else
      b ← of_opt BadAccess (eb_mem e);
      moved ← load_bytes b st len;
      b ← store_bytes b (st + 1 + ll) moved;
      e ← put (EBuf (Some b) st (eb_l e)) tp;
      e ← _enc_len e len;
      Ret (0, EBuf (eb_mem e) (i + 1 + ll) (eb_l e), arg).
End encode.

(** ** The encoding

    What the encoders write, as lists of bytes. *)

(** The [k] low bytes of [v], the most significant one first. *)
Fixpoint be_bytes (k : nat) (v : Z) : list Z :=
  match k with
  | O => []
  | S j => Z.shiftr v (8 * Z.of_nat j) mod 256 :: be_bytes j v
  end.

(** The bytes a number that is not negative needs. *)
Definition size_of (v : Z) : nat := Z.to_nat (1 + Z.log2 v / 8).
Definition number_bytes (v : Z) : list Z := be_bytes (size_of v) v.

Definition len_bytes (n : Z) : list Z :=
  if n <? 128 then [n] else (128 + Z.of_nat (size_of n)) :: number_bytes n.

Definition tlv (tp : Z) (content : list Z) : list Z := tp :: len_bytes (zlen content) ++ content.

(** Groups of 7 bits, all but the last with the high bit set. *)
Fixpoint base128 (k : nat) (q : Z) : list Z :=
  match k with
  | O => []
  | S j => (Z.shiftr q (7 * Z.of_nat j) mod 128 + (if decide (j = O) then 0 else 128)) :: base128 j q
  end.
Definition id_bytes (q : Z) : list Z := base128 (Z.to_nat (1 + Z.log2 q / 7)) q.

(** An identifier that has an encoding: [x.y. ...] with [x <= 2], [y < 40]. *)
Definition oid_bytes (ids : list Z) : list Z :=
  match ids with
  | x :: y :: ids => (40 * x + y) :: flat_map id_bytes ids
  | _ => []
  end.

Definition ids_ok (ids : list Z) : Prop :=
  match ids with
  | x :: y :: ids => 0 <= x <= 2 /\ 0 <= y < 40 /\ Forall (fun q => 0 <= q < 2 ^ 31) ids
  | _ => False
  end.

Definition is_oid (o : asn1_oid) (ids : list Z) : Prop :=
  exists rest, oid_b o = Some (ids ++ rest) /\ oid_len o = zlen ids.
Definition is_str (s : asn1_str) (bs : list Z) : Prop :=
  exists rest, str_b s = Some (bs ++ rest) /\ str_len s = zlen bs.

Definition is_byte (c : Z) : Prop := 0 <= c < 256.

(** A buffer in which [w] is written and [r] is the rest of its memory. *)
Definition eb (w r : list Z) : ebuf := EBuf (Some (w ++ r)) (zlen w) (zlen w + zlen r).

(** [f] overwrites the bytes at the position with [s]. *)
Definition emits (f : ebuf -> res ebuf) (s : list Z) : Prop :=
  forall w x r, zlen x = zlen s -> f (eb w (x ++ r)) = Ret (eb (w ++ s) r).

(** ** Arithmetic *)

Lemma size_of_pos v : (0 < size_of v)%nat.
Proof. unfold size_of. pose proof (Z.log2_nonneg v). pose proof (Z.div_pos (Z.log2 v) 8). lia. Qed.

Lemma size_of_bound v k : 0 <= v < 256 ^ Z.of_nat k -> (0 < k)%nat -> (size_of v <= k)%nat.
Proof.
  intros [Hv Hlt] Hk. unfold size_of. replace 256 with (2 ^ 8) in Hlt by done. rewrite <- Z.pow_mul_r in Hlt by lia.
  destruct (decide (v = 0)) as [->|Hz]; [change (Z.to_nat (1 + Z.log2 0 / 8)) with 1%nat; lia|]. apply Z.log2_lt_pow2 in Hlt; [|lia].
  assert (Z.log2 v / 8 < Z.of_nat k) by (apply Z.div_lt_upper_bound; lia). lia.
Qed.

Lemma size_of_enough v : 0 <= v -> v < 256 ^ Z.of_nat (size_of v).
Proof.
  intros Hv. unfold size_of. pose proof (Z.log2_nonneg v) as Hl. pose proof (Z.div_pos (Z.log2 v) 8 Hl).
  rewrite Z2Nat.id by lia. replace 256 with (2 ^ 8) by done. rewrite <- Z.pow_mul_r by lia.
  destruct (decide (v = 0)) as [->|Hz]; [done|]. apply Z.log2_lt_pow2; [lia|]. pose proof (Z.mod_pos_bound (Z.log2 v) 8).
  pose proof (Z.div_mod (Z.log2 v) 8). lia.
Qed.

Lemma count_loop_ok fuel n q : 0 <= q < 256 ^ Z.of_nat fuel ->
  count_loop fuel n q = n + (if q =? 0 then 0 else Z.of_nat (size_of q)).
Proof.
  revert n q. induction fuel as [|fuel IH]; intros n q Hq; cbn [count_loop].
  { replace q with 0 by (cbn in Hq; lia). cbn. lia. }
  destruct (q =? 0) eqn:E; unbool; [lia|]. rewrite Nat2Z.inj_succ, Z.pow_succ_r in Hq by lia.
  assert (Hs : Z.shiftr q 8 = q / 256) by (by rewrite Z.shiftr_div_pow2).
  rewrite IH by (rewrite Hs; split; [apply Z.div_pos; lia|apply Z.div_lt_upper_bound; lia]).
  unfold size_of. rewrite Z.log2_shiftr by lia. pose proof (Z.log2_nonneg q) as Hl. pose proof (Z.div_pos (Z.log2 q) 8 Hl).
  destruct (Z.shiftr q 8 =? 0) eqn:E2; unbool.
  - assert (q < 256) by (rewrite Hs in E2; apply Z.div_small_iff in E2; lia).
    assert (Z.log2 q < 8) by (apply Z.log2_lt_pow2; lia). rewrite Z.div_small by lia. lia.
  - assert (8 <= Z.log2 q). { apply Z.log2_le_pow2; [lia|]. destruct (Z.le_gt_cases 256 q); [done|]. rewrite Hs, Z.div_small in E2; lia. }
    rewrite Z.max_r by lia. replace (Z.log2 q) with (Z.log2 q - 8 + 1 * 8) at 2 by lia. rewrite Z.div_add by lia.
    pose proof (Z.div_pos (Z.log2 q - 8) 8). lia.
Qed.

(** The bytes of a number are one more than those of what is left without its
    low byte. *)
Lemma count_bytes_ok n v : 0 <= v < 2 ^ 64 -> count_bytes n (Z.shiftr v 8) = n - 1 + Z.of_nat (size_of v).
Proof.
  intros Hv. unfold count_bytes.
  assert (Hs : Z.shiftr v 8 = v / 256) by (by rewrite Z.shiftr_div_pow2).
  rewrite count_loop_ok by (rewrite Hs; split; [apply Z.div_pos; lia|apply Z.div_lt_upper_bound; [lia|]; cbn; lia]).
  pose proof (count_loop_ok 9 0 v ltac:(cbn; lia)) as E.
  destruct (v =? 0) eqn:E0; unbool; [subst v; change (size_of 0) with 1%nat; change (Z.shiftr 0 8 =? 0) with true; cbv iota; lia|].
  assert (E1 : count_loop 9 0 v = count_loop 8 1 (Z.shiftr v 8)) by (cbn [count_loop]; by destruct (v =? 0) eqn:?; unbool).
  rewrite E1, count_loop_ok in E by (rewrite Hs; split; [apply Z.div_pos; lia|apply Z.div_lt_upper_bound; [lia|]; cbn; lia]).
  lia.
Qed.

Lemma u8_lor_128 x : u8 (Z.lor x 128) = x mod 128 + 128.
Proof.
  unfold u8. rewrite <- (lor_add 7 (x mod 128) 128); [|lia|apply (Z.mod_pos_bound x 128); lia|by exists 1].
  apply Z.bits_inj'. intros n Hn. rewrite Z.lor_spec. replace 128 with (2 ^ 7) by done.
  destruct (Z.lt_ge_cases n 8).
  - rewrite Z.mod_pow2_bits_low, Z.lor_spec by lia. destruct (decide (n = 7)) as [->|].
    + by rewrite Z.pow2_bits_true, !orb_true_r by lia.
    + by rewrite Z.mod_pow2_bits_low by lia.
  - rewrite !Z.mod_pow2_bits_high, Z.pow2_bits_false by lia. done.
Qed.

Lemma land_127 x : Z.land x 0x7f = x mod 128.
Proof. change 0x7f with (Z.ones 7). by rewrite Z.land_ones. Qed.

Lemma be_bytes_length k v : length (be_bytes k v) = k.
Proof. induction k; cbn; congruence. Qed.

Lemma be_bytes_byte k v : Forall is_byte (be_bytes k v).
Proof. induction k; cbn [be_bytes]; constructor; [apply Z.mod_pos_bound; lia|done]. Qed.

Lemma zlen_number v : zlen (number_bytes v) = Z.of_nat (size_of v).
Proof. unfold zlen, number_bytes. by rewrite be_bytes_length. Qed.

Lemma zlen_len_bytes n : zlen (len_bytes n) = if n <? 128 then 1 else 1 + Z.of_nat (size_of n).
Proof. unfold len_bytes. destruct (n <? 128); [done|]. by rewrite zlen_cons, zlen_number. Qed.

Lemma zlen_len_bytes_bound n : n < 2 ^ 31 -> 1 <= zlen (len_bytes n) <= 5.
Proof.
  intros Hn. rewrite zlen_len_bytes. destruct (n <? 128) eqn:E; unbool; [lia|].
  pose proof (size_of_bound n 4 ltac:(cbn; lia) ltac:(lia)). lia.
Qed.

Lemma len_size_ok n : n < 2 ^ 31 -> _len_size n = zlen (len_bytes n).
Proof.
  intros Hn. rewrite zlen_len_bytes. unfold _len_size. change 0x80 with 128. destruct (n <? 128) eqn:E; unbool; [done|].
  rewrite u32_small by (rewrite Z.shiftr_div_pow2 by lia; split; [apply Z.div_pos; lia|apply Z.div_lt_upper_bound; lia]).
  rewrite count_bytes_ok by lia. lia.
Qed.

(** ** Writing *)

Lemma put_bytes_emits s : emits (fun e => put_bytes e s) s.
Proof.
  intros w x r Hx. unfold put_bytes, eb. cbn [eb_mem eb_i eb_l mbind res_mbind of_opt].
  rewrite store_bytes_ok by done. cbn [mbind res_mbind]. rewrite <- app_assoc. f_equal. f_equal; lens.
Qed.

Lemma put_emits c d : u8 c = d -> emits (fun e => put e c) [d].
Proof. intros <- w x r Hx. exact (put_bytes_emits [u8 c] w x r Hx). Qed.

(** Writing [s] and then [t]. *)
Lemma emits_bind f g s t : emits f s -> emits g t -> emits (fun e => e ← f e; g e) (s ++ t).
Proof.
  intros Hf Hg w x r Hx. rewrite zlen_app in Hx.
  assert (E : x = take (length s) x ++ drop (length s) x) by (by rewrite take_drop).
  rewrite E, <- app_assoc, Hf; [|unfold zlen in *; rewrite length_take; lia].
  cbn [mbind res_mbind]. rewrite Hg, app_assoc; [done|]. unfold zlen in *. rewrite length_drop. lia.
Qed.

Lemma emits_cons c d g t : u8 c = d -> emits g t -> emits (fun e => e ← put e c; g e) (d :: t).
Proof. intros Hc Hg. exact (emits_bind _ _ [d] t (put_emits c d Hc) Hg). Qed.

Lemma emits_nil : emits (fun e => Ret e) [].
Proof. intros w x r Hx. destruct x; [|by lens]. by rewrite app_nil_r. Qed.

Lemma put_loop_emits w k v : 8 * Z.of_nat k <= w -> emits (fun e => put_loop w k e v) (be_bytes k v).
Proof.
  induction k as [|k IH]; intros Hw; [apply emits_nil|]. intros pre x r Hx. cbn [put_loop be_bytes].
  unfold sar. replace ((0 <=? 8 * Z.of_nat k) && (8 * Z.of_nat k <? w)) with true by (symmetry; rewrite andb_true_iff, Z.leb_le, Z.ltb_lt; lia).
  cbn [mbind res_mbind]. refine (emits_cons _ _ _ _ _ (IH _) pre x r Hx); [done|lia].
Qed.

Lemma u8_small x : 0 <= x < 256 -> u8 x = x.
Proof. intros. by apply Z.mod_small. Qed.

Lemma enc_len_emits n : 0 <= n < 2 ^ 31 -> emits (fun e => _enc_len e n) (len_bytes n).
Proof.
  intros Hn. unfold _enc_len, len_bytes. change 0x80 with 128. destruct (n <? 128) eqn:E; unbool.
  - apply put_emits, u8_small. lia.
  - pose proof (size_of_bound n 4 ltac:(cbn; lia) ltac:(lia)). pose proof (size_of_pos n).
    rewrite u32_small by (rewrite Z.shiftr_div_pow2 by lia; split; [apply Z.div_pos; lia|apply Z.div_lt_upper_bound; lia]).
    rewrite count_bytes_ok by lia. replace (1 - 1 + Z.of_nat (size_of n)) with (Z.of_nat (size_of n)) by lia.
    rewrite Nat2Z.id. apply emits_cons; [|apply put_loop_emits; lia].
    unfold ASN1_LONGLEN. rewrite u8_lor_128, Z.mod_small by lia. lia.
Qed.

Lemma last_group q : u8 (Z.land q 0x7f) = Z.shiftr q (7 * Z.of_nat 0) mod 128 + 0.
Proof. pose proof (Z.mod_pos_bound q 128). rewrite land_127, Z.shiftr_0_r, u8_small; lia. Qed.

Lemma log2_div7 q k : 0 < k -> 2 ^ (7 * k) <= q < 2 ^ (7 * (k + 1)) -> Z.log2 q / 7 = k.
Proof.
  intros Hk [Hl Hu]. assert (0 < q) by (pose proof (Z.pow_pos_nonneg 2 (7 * k)); lia).
  apply Z.log2_le_pow2 in Hl; [|lia]. apply Z.log2_lt_pow2 in Hu; [|lia].
  symmetry. apply (Z.div_unique _ _ _ (Z.log2 q - 7 * k)); lia.
Qed.

Lemma log2_div7_0 q : 0 <= q < 128 -> Z.log2 q / 7 = 0.
Proof.
  intros Hq. apply Z.div_small. split; [apply Z.log2_nonneg|]. destruct (decide (q = 0)) as [->|]; [done|]. apply Z.log2_lt_pow2; lia.
Qed.

Lemma put_id_emits q : 0 <= q < 2 ^ 31 -> emits (fun e => put_id e q) (id_bytes q).
Proof.
  intros Hq. unfold put_id, id_bytes.
  destruct (q <? 0x80) eqn:E1; unbool.
  { rewrite log2_div7_0 by lia.
    change (base128 _ q) with [Z.shiftr q 0 mod 128 + 0]. apply put_emits. rewrite Z.shiftr_0_r, Z.mod_small, u8_small; lia. }
  destruct (q <? 0x4000) eqn:E2; unbool; [rewrite (log2_div7 q 1) by lia|].
  { refine (emits_cons _ _ _ _ (u8_lor_128 _) _). exact (put_emits _ _ (last_group q)). }
  destruct (q <? 0x200000) eqn:E3; unbool; [rewrite (log2_div7 q 2) by lia|].
  { do 2 refine (emits_cons _ _ _ _ (u8_lor_128 _) _). exact (put_emits _ _ (last_group q)). }
  destruct (q <? 0x10000000) eqn:E4; unbool; [rewrite (log2_div7 q 3) by lia|rewrite (log2_div7 q 4) by lia].
  - do 3 refine (emits_cons _ _ _ _ (u8_lor_128 _) _). exact (put_emits _ _ (last_group q)).
  - do 4 refine (emits_cons _ _ _ _ (u8_lor_128 _) _). exact (put_emits _ _ (last_group q)).
Qed.

Lemma base128_length k q : length (base128 k q) = k.
Proof. induction k; cbn; congruence. Qed.

Lemma zlen_id_bytes q : zlen (id_bytes q) = 1 + Z.log2 q / 7.
Proof.
  unfold zlen, id_bytes. rewrite base128_length. pose proof (Z.log2_nonneg q). pose proof (Z.div_pos (Z.log2 q) 7). lia.
Qed.

Lemma zlen_id_bound q : 0 <= q < 2 ^ 31 -> 1 <= zlen (id_bytes q) <= 5.
Proof.
  intros Hq. rewrite zlen_id_bytes. pose proof (Z.log2_nonneg q) as Hl. pose proof (Z.div_pos (Z.log2 q) 7 Hl).
  assert (Z.log2 q < 31) by (destruct (decide (q = 0)) as [->|]; [done|apply Z.log2_lt_pow2; lia]).
  pose proof (Z.div_le_mono (Z.log2 q) 30 7). change (30 / 7) with 4 in *. lia.
Qed.

Lemma rd_at {A} (pre : list A) x rest i : i = zlen pre -> rd (Some (pre ++ x :: rest)) i = Ret x.
Proof.
  intros ->. unfold rd. cbn [mbind res_mbind of_opt]. unfold zget. rewrite to_nat_zlen, list_lookup_middle by done.
  pose proof (zlen_nonneg pre). by destruct (zlen pre <? 0) eqn:?; unbool; [lia|].
Qed.

Lemma oid_len_loop_ok o pre ids rest len : oid_b o = Some (pre ++ ids ++ rest) -> Forall (fun q => 0 <= q < 2 ^ 31) ids ->
  oid_len_loop (length ids) o (zlen pre) len = Ret (len + zlen (flat_map id_bytes ids)).
Proof.
  revert pre len. induction ids as [|q ids IH]; intros pre len Ho Hr; cbn [length oid_len_loop flat_map].
  { rewrite zlen_nil. f_equal. lia. }
  apply Forall_cons in Hr as [Hq Hr]. rewrite Ho. cbn [app]. rewrite rd_at by done. cbn [mbind res_mbind].
  replace (zlen pre + 1) with (zlen (pre ++ [q])) by lens. rewrite IH; [|rewrite Ho; by rewrite <- app_assoc|done].
  rewrite zlen_app, zlen_id_bytes. f_equal.
  destruct (q <? 0x80) eqn:E1; unbool; [rewrite log2_div7_0 by lia; lia|].
  destruct (q <? 0x4000) eqn:E2; unbool; [rewrite (log2_div7 q 1) by lia; lia|].
  destruct (q <? 0x200000) eqn:E3; unbool; [rewrite (log2_div7 q 2) by lia; lia|].
  destruct (q <? 0x10000000) eqn:E4; unbool; [rewrite (log2_div7 q 3) by lia; lia|rewrite (log2_div7 q 4) by lia; lia].
Qed.

Lemma put_ids_emits o pre ids rest : oid_b o = Some (pre ++ ids ++ rest) -> Forall (fun q => 0 <= q < 2 ^ 31) ids ->
  emits (fun e => put_ids (length ids) e o (zlen pre)) (flat_map id_bytes ids).
Proof.
  revert pre. induction ids as [|q ids IH]; intros pre Ho Hr; cbn [length put_ids flat_map]; [apply emits_nil|].
  apply Forall_cons in Hr as [Hq Hr]. rewrite Ho. cbn [app]. intros w x r Hx. rewrite rd_at by done. cbn [mbind res_mbind].
  replace (zlen pre + 1) with (zlen (pre ++ [q])) by lens.
  refine (emits_bind _ _ _ _ (put_id_emits q Hq) (IH (pre ++ [q]) _ Hr) w x r Hx). rewrite Ho. by rewrite <- app_assoc.
Qed.

(** The same, for code that ends with the return code 0. *)
Definition emits0 (f : ebuf -> res (Z * ebuf)) (s : list Z) : Prop :=
  forall w x r, zlen x = zlen s -> f (eb w (x ++ r)) = Ret (0, eb (w ++ s) r).

Lemma emits0_ret : emits0 (fun e => Ret (0, e)) [].
Proof. intros w x r Hx. destruct x; [|by lens]. by rewrite app_nil_r. Qed.

Lemma emits0_bind f g s t : emits f s -> emits0 g t -> emits0 (fun e => e ← f e; g e) (s ++ t).
Proof.
  intros Hf Hg w x r Hx. rewrite zlen_app in Hx.
  assert (E : x = take (length s) x ++ drop (length s) x) by (by rewrite take_drop).
  rewrite E, <- app_assoc, Hf; [|unfold zlen in *; rewrite length_take; lia].
  cbn [mbind res_mbind]. rewrite Hg, app_assoc; [done|]. unfold zlen in *. rewrite length_drop. lia.
Qed.

Lemma emits0_cons c d g t : u8 c = d -> emits0 g t -> emits0 (fun e => e ← put e c; g e) (d :: t).
Proof. intros Hc Hg. exact (emits0_bind _ _ [d] t (put_emits c d Hc) Hg). Qed.

(** ** Growing

    The buffer starts with 20480 bytes ([csnmp_send_pdu]) and then grows by a
    quarter: one step is enough for an element of at most 5120 bytes. *)

Definition MAX_PACKET : Z := 2 ^ 30.
Definition MAX_ELEMENT : Z := 5120.

(** The size [l] of a buffer that holds [i] bytes. *)
Definition size_ok (i l : Z) : Prop := 20480 <= l /\ 4 * l <= 5 * Z.max 16384 i.
Definition fits (w r : list Z) : Prop := size_ok (zlen w) (zlen w + zlen r).

Section growing.
Variable junk : Z.
Variable can_alloc : Z -> bool.
Hypothesis alloc : forall n, can_alloc n = true.

Lemma ebuf_grow_ok w r n : 20480 <= zlen w + zlen r -> 4 * (zlen w + zlen r) <= 5 * Z.max 16384 (zlen w + Z.max 0 n) ->
  n <= zlen r + MAX_ELEMENT -> zlen w + n <= MAX_PACKET -> 0 <= n ->
  exists pad, _grow junk can_alloc (eb w r) n = (0, eb w (r ++ pad)) /\ n <= zlen (r ++ pad) /\
    size_ok (zlen w + n) (zlen w + zlen (r ++ pad)).
Proof.
  unfold MAX_PACKET, MAX_ELEMENT, size_ok. intros H1 H2 Hn Hm Hn0. pose proof (zlen_nonneg w). pose proof (zlen_nonneg r).
  unfold _grow. cbn [eb_i eb_l eb eb_mem]. rewrite i32_small by lia.
  destruct (zlen w + n <=? zlen w + zlen r) eqn:E; unbool.
  { exists []. rewrite app_nil_r. split_and!; try done; lia. }
  destruct (zlen w + zlen r =? 0) eqn:E1; unbool; [lia|]. destruct (zlen w + zlen r <? 1000) eqn:E2; unbool; [lia|].
  set (l := zlen w + zlen r) in *. assert (H4 : l / 4 * 4 <= l /\ l < l / 4 * 4 + 4) by (Z.div_mod_to_equations; lia).
  rewrite i32_small by lia. rewrite alloc. destruct (0 <=? l + l / 4) eqn:E3; unbool; [|lia]. cbn [andb default].
  exists (replicate (Z.to_nat (l / 4)) junk).
  assert (Hlen : length (w ++ r) = Z.to_nat l) by (rewrite length_app; unfold l, zlen in *; lia).
  unfold id. rewrite take_ge by lia. rewrite Hlen. replace (Z.to_nat (l + l / 4) - Z.to_nat l)%nat with (Z.to_nat (l / 4)) by lia.
  assert (Hz : zlen (r ++ replicate (Z.to_nat (l / 4)) junk) = zlen r + l / 4) by (rewrite zlen_app, zlen_replicate; lia).
  rewrite Hz. split_and!; try lia. f_equal. unfold eb. rewrite <- app_assoc. f_equal. rewrite Hz. unfold l. lia.
Qed.

(** [f] appends [s] to the packet. *)
Definition appends {A} (f : ebuf -> A -> res (Z * ebuf * A)) (s : list Z) (a a' : A) : Prop :=
  forall w r, fits w r -> zlen w + zlen s <= MAX_PACKET ->
  exists r', fits (w ++ s) r' /\ f (eb w r) a = Ret (0, eb (w ++ s) r', a').
Definition appends0 (f : ebuf -> res (Z * ebuf)) (s : list Z) : Prop :=
  forall w r, fits w r -> zlen w + zlen s <= MAX_PACKET ->
  exists r', fits (w ++ s) r' /\ f (eb w r) = Ret (0, eb (w ++ s) r').

(** An encoder that makes room for its element and then writes it. *)
Lemma appends_grow n body s : n = zlen s -> n <= MAX_ELEMENT -> emits0 body s ->
  appends0 (fun e => let '(r, e) := _grow junk can_alloc e n in if negb (r =? 0) then Ret (-1, e) else body e) s.
Proof.
  intros -> Hn Hf w r [H1 H2] Hm. pose proof (zlen_nonneg s). pose proof (zlen_nonneg r).
  destruct (ebuf_grow_ok w r (zlen s)) as (pad & -> & Hr & Hok); [lia|lia|unfold MAX_ELEMENT in *; lia|lia|lia|].
  cbn [negb Z.eqb]. set (m := r ++ pad) in *.
  assert (E : m = take (length s) m ++ drop (length s) m) by (by rewrite take_drop).
  assert (Hl : zlen (take (length s) m) = zlen s) by (unfold zlen in *; rewrite length_take; lia).
  exists (drop (length s) m). assert (zlen m = zlen s + zlen (drop (length s) m)) by (rewrite E at 1; lens).
  split; [unfold fits in *; rewrite zlen_app; replace (zlen w + zlen s + zlen (drop (length s) m)) with (zlen w + zlen m) by lia; done|].
  rewrite E at 1. by rewrite Hf.
Qed.

Lemma enc_null_appends tp : is_byte tp -> appends0 (fun e => asn1_enc_null junk can_alloc e tp) (tlv tp []).
Proof.
  intros Ht. apply appends_grow; [done|done|]. apply emits0_cons; [by apply u8_small|]. by apply emits0_cons; [|apply emits0_ret].
Qed.

Lemma enc_number_appends wd n tp val : is_byte tp -> n = Z.of_nat (size_of val) -> 8 * n <= wd <= 64 ->
  appends0 (fun e => enc_number junk can_alloc wd n e tp val) (tlv tp (number_bytes val)).
Proof.
  intros Ht -> Hw. pose proof (size_of_pos val). unfold tlv, len_bytes. rewrite zlen_number.
  destruct (_ <? 128) eqn:E; unbool; [|lia]. apply appends_grow; [cbn [app]; rewrite !zlen_cons, zlen_number; lia|unfold MAX_ELEMENT; lia|].
  apply emits0_cons; [by apply u8_small|]. apply emits0_cons; [apply u8_small; lia|]. rewrite Nat2Z.id.
  rewrite <- (app_nil_r (number_bytes val)). apply emits0_bind; [|apply emits0_ret]. apply put_loop_emits. lia.
Qed.

Lemma enc_int_appends tp val : is_byte tp -> 0 <= val < 2 ^ 31 ->
  appends0 (fun e => asn1_enc_int junk can_alloc e tp val) (tlv tp (number_bytes val)).
Proof.
  intros Ht Hv. pose proof (size_of_bound val 4 ltac:(cbn; lia) ltac:(lia)). pose proof (size_of_pos val).
  apply enc_number_appends; [done| |].
  all: rewrite u32_small by (rewrite Z.shiftr_div_pow2 by lia; split; [apply Z.div_pos; lia|apply Z.div_lt_upper_bound; lia]).
  all: rewrite count_bytes_ok; lia.
Qed.

Lemma enc_long_appends tp val : is_byte tp -> 0 <= val < 2 ^ 63 ->
  appends0 (fun e => asn1_enc_long junk can_alloc e tp val) (tlv tp (number_bytes val)).
Proof.
  intros Ht Hv. pose proof (size_of_bound val 8 ltac:(cbn; lia) ltac:(lia)). pose proof (size_of_pos val).
  apply enc_number_appends; [done| |].
  all: rewrite u64_small by (rewrite Z.shiftr_div_pow2 by lia; split; [apply Z.div_pos; lia|apply Z.div_lt_upper_bound; lia]).
  all: rewrite count_bytes_ok; lia.
Qed.

Lemma zlen_tlv tp s : zlen (tlv tp s) = 1 + zlen (len_bytes (zlen s)) + zlen s.
Proof. unfold tlv. rewrite zlen_cons, zlen_app. lia. Qed.

Lemma str_load (val : asn1_str) bs : is_str val bs ->
  (if str_len val =? 0 then Ret [] else s ← of_opt BadAccess (str_b val); load_bytes s 0 (str_len val)) = Ret bs.
Proof.
  intros (rest & Hb & ->). rewrite Hb. destruct (zlen bs =? 0) eqn:E; unbool.
  - destruct bs; [done|]. rewrite zlen_cons in E. pose proof (zlen_nonneg bs). lia.
  - cbn [of_opt mbind res_mbind]. exact (load_ok [] bs rest 0 (zlen bs) eq_refl eq_refl).
Qed.

Lemma enc_string_appends tp val bs : is_byte tp -> is_str val bs -> zlen bs <= 5000 ->
  appends0 (fun e => asn1_enc_string junk can_alloc e tp val) (tlv tp bs).
Proof.
  intros Ht Hs Hlen. pose proof (str_load val bs Hs) as Hl. destruct Hs as (rest & Hb & Hsl).
  pose proof (zlen_nonneg bs). pose proof (zlen_len_bytes_bound (zlen bs) ltac:(lia)). unfold asn1_enc_string. rewrite Hsl in Hl |- *.
  rewrite len_size_ok, i32_small by lia.
  apply appends_grow; [by rewrite zlen_tlv|unfold MAX_ELEMENT; lia|].
  apply emits0_cons; [by apply u8_small|]. apply emits0_bind; [apply enc_len_emits; lia|].
  intros w x r Hx. rewrite Hl. cbn [mbind res_mbind]. pose proof (put_bytes_emits bs w x r Hx) as E. cbv beta in E. by rewrite E.
Qed.
Lemma zlen_ids_bound ids : Forall (fun q => 0 <= q < 2 ^ 31) ids -> 0 <= zlen (flat_map id_bytes ids) <= 5 * zlen ids.
Proof.
  induction 1 as [|q ids Hq _ IH]; cbn [flat_map]; [done|]. rewrite zlen_app, zlen_cons. pose proof (zlen_id_bound q Hq). lia.
Qed.

Lemma enc_oid_appends tp val ids : is_byte tp -> is_oid val ids -> ids_ok ids -> zlen ids <= 128 ->
  appends0 (fun e => asn1_enc_oid junk can_alloc e tp val) (tlv tp (oid_bytes ids)).
Proof.
  intros Ht (rest & Hb & Hlen) Hids Hn. destruct ids as [|x [|y ids]]; try done. destruct Hids as (Hx & Hy & Hr).
  pose proof (zlen_ids_bound ids Hr) as Hbound. rewrite !zlen_cons in *. pose proof (zlen_nonneg ids).
  assert (Hk : Z.to_nat (oid_len val - 2) = length ids) by (rewrite Hlen; unfold zlen; lia).
  assert (Hb2 : oid_b val = Some ([x; y] ++ ids ++ rest)) by (by rewrite Hb).
  unfold asn1_enc_oid. rewrite Hk. change (oid_len_loop (length ids) val 2 1) with (oid_len_loop (length ids) val (zlen [x; y]) 1).
  rewrite (oid_len_loop_ok val [x; y] ids rest 1 Hb2 Hr).
  cbn [mbind res_mbind oid_bytes]. set (content := (40 * x + y) :: flat_map id_bytes ids) in *.
  assert (Hc : zlen content = 1 + zlen (flat_map id_bytes ids)) by (unfold content; by rewrite zlen_cons).
  rewrite <- Hc. pose proof (zlen_len_bytes_bound (zlen content) ltac:(lia)). rewrite len_size_ok by lia.
  apply appends_grow; [by rewrite zlen_tlv|unfold MAX_ELEMENT; lia|].
  apply emits0_cons; [by apply u8_small|]. apply emits0_bind; [apply enc_len_emits; lia|].
  intros w z r Hz. unfold put_first. rewrite Hlen.
  destruct (1 + (1 + zlen ids) =? 0) eqn:E0; unbool; [lia|]. rewrite Hb. pose proof (rd_at [] x (y :: ids ++ rest) 0 eq_refl) as Ex. pose proof (rd_at [x] y (ids ++ rest) 1 eq_refl) as Ey.
  cbn [app] in *. rewrite Ex.
  cbn [mbind res_mbind]. destruct (x >? 2) eqn:E1; unbool; [lia|].
  destruct (1 + (1 + zlen ids) =? 1) eqn:E2; unbool; [lia|]. rewrite Ey.
  cbn [mbind res_mbind]. destruct (y >=? 40) eqn:E3; [rewrite Z.geb_leb in E3; unbool; lia|].
  destruct z as [|z0 z]; [rewrite Hc, zlen_nil in Hz; lia|]. rewrite !zlen_cons in *.
  pose proof (put_emits (x * 40 + y) (40 * x + y) ltac:(rewrite u8_small; lia) w [z0] (z ++ r) eq_refl) as E. cbn [app] in *. cbv beta in E. rewrite E.
  cbn [mbind res_mbind]. pose proof (put_ids_emits val [x; y] ids rest Hb2 Hr (w ++ [40 * x + y]) z r ltac:(lia)) as E'. cbv beta in E'. change (zlen [x; y]) with 2 in E'. rewrite E'.
  cbn [mbind res_mbind]. by rewrite <- app_assoc.
Qed.

(** The content of a sequence, with its tag and length in front. *)
Lemma enc_sequence_appends {A} c tp (arg arg' : A) s : is_byte tp -> appends c s arg arg' -> zlen s <= MAX_PACKET ->
  appends (fun e a => asn1_enc_sequence junk can_alloc c e tp a) (tlv tp s) arg arg'.
Proof.
  intros Ht Hc Hs w r Hfit Hm. unfold MAX_PACKET in *. rewrite zlen_tlv in Hm. pose proof (zlen_nonneg s). pose proof (zlen_nonneg w).
  pose proof (zlen_len_bytes_bound (zlen s) ltac:(lia)) as Hll.
  unfold asn1_enc_sequence. cbn [eb eb_i]. destruct (Hc w r Hfit ltac:(unfold MAX_PACKET; lia)) as (r1 & [Hf1 Hf2] & ->).
  cbn [mbind res_mbind negb Z.eqb eb_i eb eb_mem eb_l]. rewrite zlen_app in *. pose proof (zlen_nonneg r1).
  replace (zlen w + zlen s - zlen w) with (zlen s) by lia. rewrite len_size_ok by lia.
  replace (EBuf (Some ((w ++ s) ++ r1)) (zlen w) (zlen w + zlen s + zlen r1)) with (eb w (s ++ r1))
    by (unfold eb; rewrite <- app_assoc, zlen_app; f_equal; lia).
  set (n := 1 + zlen (len_bytes (zlen s)) + zlen s) in *.
  destruct (ebuf_grow_ok w (s ++ r1) n) as (pad & -> & Hr & Hok); rewrite ?zlen_app; unfold MAX_ELEMENT, MAX_PACKET; [lia..|].
  cbn [negb Z.eqb eb eb_i eb_mem eb_l of_opt mbind res_mbind].
  rewrite <- (app_assoc s r1 pad) in *. set (t := r1 ++ pad) in *.
  rewrite (load_ok w s t) by done. cbn [mbind res_mbind].
  set (hn := (1 + length (len_bytes (zlen s)))%nat).
  assert (Hhn : Z.of_nat hn = 1 + zlen (len_bytes (zlen s))) by (unfold hn, zlen; lia).
  set (m := s ++ t) in *. rewrite ?zlen_app in *.
  assert (Hmlen : zlen m = zlen s + zlen t) by (unfold m; by rewrite zlen_app).
  assert (Em : m = take hn m ++ take (length s) (drop hn m) ++ drop (length s) (drop hn m)) by (by rewrite !take_drop).
  set (h := take hn m) in *. set (x := take (length s) (drop hn m)) in *. set (r' := drop (length s) (drop hn m)) in *.
  assert (Hh : zlen h = 1 + zlen (len_bytes (zlen s))) by (unfold h, zlen in *; rewrite length_take; lia).
  assert (Hx : zlen x = zlen s) by (unfold x, zlen in *; rewrite length_take, length_drop; lia).
  assert (Hmz : zlen m = zlen h + zlen x + zlen r') by (rewrite Em at 1; rewrite !zlen_app; lia).
  exists r'. replace (w ++ m) with ((w ++ h) ++ x ++ r') by (by rewrite <- app_assoc, <- Em).
  rewrite store_bytes_ok by (rewrite ?zlen_app; lia). cbn [mbind res_mbind].
  replace (EBuf (Some ((w ++ h) ++ s ++ r')) (zlen w) (zlen w + zlen m)) with (eb w (h ++ (s ++ r')))
    by (unfold eb; rewrite <- app_assoc, !zlen_app; f_equal; lia).
  pose proof (emits_cons tp tp (fun e => _enc_len e (zlen s)) _ (u8_small tp Ht) (enc_len_emits (zlen s) ltac:(lia)) w h (s ++ r')
    ltac:(rewrite zlen_cons; lia)) as E. cbv beta in E.
  apply bind_Ret in E as (e1 & E1 & E2). rewrite E1. cbn [mbind res_mbind]. rewrite E2. cbn [mbind res_mbind eb eb_mem eb_l].
  split.
  - unfold fits. rewrite zlen_app, zlen_tlv. fold n.
    replace (zlen w + n + zlen r') with (zlen w + zlen m) by lia. done.
  - unfold eb. do 4 f_equal.
    + unfold tlv. rewrite <- !app_assoc. cbn [app]. by rewrite <- !app_assoc.
    + rewrite zlen_app, zlen_tlv. lia.
    + unfold tlv. rewrite !zlen_app, !zlen_cons, zlen_app. lia.
Qed.
End growing.

(** ** Reading *)

(** The bytes [s] are at position [i] of the packet. *)
Definition at_pos (b : list Z) (i : Z) (s : list Z) : Prop := exists pre post, b = pre ++ s ++ post /\ i = zlen pre.

Lemma at_pos_app b i s t : at_pos b i (s ++ t) -> at_pos b i s /\ at_pos b (i + zlen s) t.
Proof.
  intros (pre & post & -> & ->). split.
  - exists pre, (t ++ post). by rewrite <- app_assoc.
  - exists (pre ++ s), post. split; [by rewrite <- !app_assoc|lens].
Qed.

Lemma at_pos_cons b i c s : at_pos b i (c :: s) -> rd (Some b) i = Ret c /\ at_pos b (i + 1) s.
Proof.
  intros H. split; [|by destruct (at_pos_app b i [c] s H)]. destruct H as (pre & post & -> & ->). by apply rd_at.
Qed.

Lemma at_pos_range b i s : at_pos b i s -> 0 <= i /\ i + zlen s <= zlen b.
Proof. intros (pre & post & -> & ->). rewrite !zlen_app. pose proof (zlen_nonneg pre). pose proof (zlen_nonneg post). lia. Qed.

Lemma byte_cases (P : Z -> bool) c : forallb P (seqZ 0 256) = true -> is_byte c -> P c = true.
Proof. intros H Hc. rewrite forallb_forall in H. apply H, list_elem_of_In, elem_of_seqZ. unfold is_byte in Hc. lia. Qed.

Lemma low_byte c : 0 <= c < 128 -> schar c = c /\ Z.land (schar c) 0x7f = c /\ Z.land (schar c) 0x80 = 0.
Proof.
  intros Hc. pose proof (byte_cases (fun c => (128 <=? c) || (schar c =? c) && (Z.land (schar c) 0x7f =? c) && (Z.land (schar c) 0x80 =? 0)) c
    ltac:(vm_compute; reflexivity) ltac:(unfold is_byte; lia)) as H. cbv beta in H.
  destruct (128 <=? c) eqn:E; unbool; [lia|]. cbn [orb] in H. unbool. done.
Qed.

Lemma high_byte c : 0 <= c < 128 ->
  schar (c + 128) = c - 128 /\ Z.land (schar (c + 128)) 0x7f = c /\ Z.land (schar (c + 128)) 0x80 = 0x80.
Proof.
  intros Hc. pose proof (byte_cases (fun c => (c <? 128) || (schar c =? c - 256) && (Z.land (schar c) 0x7f =? c - 128) && (Z.land (schar c) 0x80 =? 0x80))
    (c + 128) ltac:(vm_compute; reflexivity) ltac:(unfold is_byte; lia)) as H. cbv beta in H.
  destruct (c + 128 <? 128) eqn:E; unbool; [lia|]. cbn [orb] in H. unbool. split_and!; lia.
Qed.

Lemma tag_byte c : is_byte c -> Z.land (schar c) 0xff = c.
Proof.
  intros Hc. apply Z.eqb_eq. exact (byte_cases (fun c => Z.land (schar c) 0xff =? c) c ltac:(vm_compute; reflexivity) Hc).
Qed.

Definition be_val (acc : Z) (s : list Z) : Z := foldl (fun a c => a * 256 + c) acc s.

Lemma be_val_bytes k acc v : be_val acc (be_bytes k v) = acc * 256 ^ Z.of_nat k + v mod 256 ^ Z.of_nat k.
Proof.
  revert acc. induction k as [|k IH]; intros acc.
  { cbn [be_bytes be_val foldl]. change (256 ^ Z.of_nat 0) with 1. rewrite Z.mod_1_r. lia. }
  cbn [be_bytes]. unfold be_val in *. cbn [foldl]. rewrite IH, Nat2Z.inj_succ, Z.pow_succ_r by lia.
  rewrite Z.shiftr_div_pow2 by lia. replace (2 ^ (8 * Z.of_nat k)) with (256 ^ Z.of_nat k) by (by rewrite Z.pow_mul_r by lia).
  rewrite (Z.mul_comm 256 (256 ^ Z.of_nat k)), Z.rem_mul_r by lia. lia.
Qed.

Lemma shift_or a c : is_byte c -> Z.lor (Z.shiftl a 8) c = a * 256 + c.
Proof.
  intros Hc. rewrite Z.lor_comm, Z.shiftl_mul_pow2 by lia. rewrite (lor_add 8); [lia|lia|done|]. by exists a.
Qed.

Lemma be_val_ge s acc : Forall is_byte s -> acc * 256 ^ zlen s <= be_val acc s.
Proof.
  intros Hs. revert acc. induction Hs as [|c s Hc Hs IH]; intros acc; [unfold be_val; cbn [foldl]; rewrite zlen_nil, Z.pow_0_r; lia|].
  rewrite zlen_cons, Z.pow_add_r, Z.pow_1_r by (pose proof (zlen_nonneg s); lia). unfold be_val in *. cbn [foldl].
  specialize (IH (acc * 256 + c)). assert (0 < 256 ^ zlen s) by (apply Z.pow_pos_nonneg; [lia|apply zlen_nonneg]).
  unfold is_byte in Hc. nia.
Qed.

(** Reading a number: nothing is lost when it is in the range of the type. *)
Lemma be_loop_ok b trunc lo hi s i acc : (forall x, lo <= x < hi -> trunc x = x) -> lo <= 0 < hi ->
  at_pos b i s -> Forall is_byte s -> lo <= acc * 256 ^ zlen s -> be_val acc s < hi ->
  be_loop b trunc (length s) i acc = Ret (be_val acc s, i + zlen s).
Proof.
  intros Htr Hlo Hat Hs. revert i acc Hat. induction Hs as [|c s Hc Hs IH]; intros i acc Hat Hl Hh; cbn [length be_loop].
  { cbn [be_val foldl]. rewrite zlen_nil. by rewrite Z.add_0_r. }
  apply at_pos_cons in Hat as [-> Hat]. cbn [mbind res_mbind]. rewrite shift_or by done.
  rewrite zlen_cons, Z.pow_add_r, Z.pow_1_r in * by (pose proof (zlen_nonneg s); lia).
  assert (HP : 0 < 256 ^ zlen s) by (apply Z.pow_pos_nonneg; [lia|apply zlen_nonneg]).
  change (be_val acc (c :: s)) with (be_val (acc * 256 + c) s) in *. pose proof (be_val_ge s (acc * 256 + c) Hs) as Hge.
  set (P := 256 ^ zlen s) in *. unfold is_byte in Hc. assert (H1 : lo <= (acc * 256 + c) * P) by nia.
  rewrite Htr by nia. rewrite IH by done. do 2 f_equal. lia.
Qed.

Lemma number_val v : 0 <= v -> be_val 0 (number_bytes v) = v.
Proof.
  intros Hv. unfold number_bytes. rewrite be_val_bytes, Z.mod_small; [lia|]. split; [done|by apply size_of_enough].
Qed.

Lemma dec_length_ok b i l n : 0 <= n < 2 ^ 31 -> at_pos b i (len_bytes n) -> i + zlen (len_bytes n) <= l < 2 ^ 31 ->
  asn1_dec_length b i l = Ret (n, i + zlen (len_bytes n)).
Proof.
  intros Hn Hat Hl. pose proof (at_pos_range _ _ _ Hat) as Hi. pose proof (zlen_len_bytes_bound n ltac:(lia)) as Hb.
  unfold asn1_dec_length. destruct (i >=? l) eqn:E; [rewrite Z.geb_leb in E; unbool; lia|].
  rewrite zlen_len_bytes in *. unfold len_bytes in Hat. destruct (n <? 128) eqn:E1; unbool; apply at_pos_cons in Hat as [-> Hat]; cbn [mbind res_mbind].
  - destruct (low_byte n ltac:(lia)) as (Hs & _ & Hm). change ASN1_LONGLEN with 0x80. rewrite Hm, Hs. done.
  - set (k := size_of n) in *. pose proof (size_of_pos n) as Hk. fold k in Hk. rewrite (Z.add_comm 128).
    destruct (high_byte (Z.of_nat k) ltac:(lia)) as (Hc & _ & Hm). change ASN1_LONGLEN with 0x80. rewrite Hm, Z.eqb_refl. cbn [negb].
    assert (Hf : Z.land (schar (Z.of_nat k + 128)) 0xf = Z.of_nat k).
    { assert (k = 1 \/ k = 2 \/ k = 3 \/ k = 4)%nat as [-> | [-> | [-> | ->]]] by lia; reflexivity. }
    rewrite Hf, i32_small by lia. destruct (i + 1 + Z.of_nat k >? l) eqn:E2; unbool; [lia|]. rewrite Nat2Z.id.
    assert (Hlen : zlen (number_bytes n) = Z.of_nat k) by apply zlen_number.
    replace k with (length (number_bytes n)) by (unfold zlen in Hlen; lia).
    rewrite (be_loop_ok b i32 (- 2 ^ 31) (2 ^ 31)); try done; [|apply i32_small|apply be_bytes_byte|rewrite number_val; lia].
    rewrite number_val by lia. do 2 f_equal. unfold zlen in *. lia.
Qed.

(** An int that is written is read with its first byte as the sign: a number
    whose first byte is 128 or more comes back negative. *)
Definition wire_int (v : Z) : Z :=
  if v <? 128 * 256 ^ (Z.of_nat (size_of v) - 1) then v else v - 256 ^ Z.of_nat (size_of v).

Lemma number_head v : 0 <= v -> exists k, size_of v = S k /\
  number_bytes v = v / 256 ^ Z.of_nat k :: be_bytes k v /\ is_byte (v / 256 ^ Z.of_nat k).
Proof.
  intros Hv. pose proof (size_of_pos v). destruct (size_of v) as [|k] eqn:E; [lia|]. exists k. split; [done|].
  pose proof (size_of_enough v Hv) as Hlt. rewrite E, Nat2Z.inj_succ, Z.pow_succ_r in Hlt by lia.
  assert (HP : 0 < 256 ^ Z.of_nat k) by (apply Z.pow_pos_nonneg; lia).
  assert (Hb : is_byte (v / 256 ^ Z.of_nat k)) by (split; [apply Z.div_pos; lia|apply Z.div_lt_upper_bound; lia]).
  split; [|done]. unfold number_bytes. rewrite E. cbn [be_bytes]. rewrite Z.shiftr_div_pow2 by lia.
  replace (2 ^ (8 * Z.of_nat k)) with (256 ^ Z.of_nat k) by (by rewrite Z.pow_mul_r by lia). by rewrite Z.mod_small.
Qed.

Lemma dec_int_ok b i l v val : 0 <= v < 2 ^ 31 -> at_pos b i (len_bytes (zlen (number_bytes v)) ++ number_bytes v) ->
  i + 1 + zlen (number_bytes v) <= l < 2 ^ 31 ->
  asn1_dec_int b i l val = Ret (0, i + 1 + zlen (number_bytes v), wire_int v).
Proof.
  intros Hv Hat Hl. pose proof (at_pos_range _ _ _ Hat) as Hi. pose proof (size_of_bound v 4 ltac:(cbn; lia) ltac:(lia)) as Hs.
  destruct (number_head v ltac:(lia)) as (k & Ek & En & Hb). unfold wire_int. rewrite Ek in *.
  rewrite zlen_number, Ek in *. unfold len_bytes in Hat. destruct (Z.of_nat (S k) <? 128) eqn:E; unbool; [|lia].
  cbn [app] in Hat. unfold asn1_dec_int. destruct (i >=? l) eqn:E1; [rewrite Z.geb_leb in E1; unbool; lia|].
  apply at_pos_cons in Hat as [-> Hat]. cbn [mbind res_mbind]. destruct (low_byte (Z.of_nat (S k)) ltac:(lia)) as (-> & _ & _).
  rewrite i32_small by lia. destruct (i + 1 + Z.of_nat (S k) >? l) eqn:E2; unbool; [lia|]. unfold int_loop. rewrite Nat2Z.id.
  rewrite En in Hat. apply at_pos_cons in Hat as [-> Hat]. cbn [mbind res_mbind]. change (Z.shiftl 0 8) with 0. rewrite Z.lor_0_l.
  set (P := 256 ^ Z.of_nat k) in *. assert (HP : 0 < P) by (apply Z.pow_pos_nonneg; lia). assert (HP3 : P <= 256 ^ 3) by (apply Z.pow_le_mono_r; lia).
  pose proof (Z.div_mod v P ltac:(lia)) as Hdm. pose proof (Z.mod_pos_bound v P HP) as Hmod.
  assert (HS : 256 ^ Z.of_nat (S k) = 256 * P) by (rewrite Nat2Z.inj_succ, Z.pow_succ_r by lia; done).
  replace (Z.of_nat (S k) - 1) with (Z.of_nat k) by lia. fold P. rewrite HS.
  assert (Hlen : zlen (be_bytes k v) = Z.of_nat k) by (unfold zlen; by rewrite be_bytes_length).
  assert (Hread : forall acc, - 128 <= acc < 128 -> acc * P + v mod P < 2 ^ 31 ->
    be_loop b i32 k (i + 1 + 1) acc = Ret (acc * P + v mod P, i + 1 + Z.of_nat (S k))).
  { intros acc Ha Hlt. rewrite <- (be_bytes_length k v) at 1.
    rewrite (be_loop_ok b i32 (- 2 ^ 31) (2 ^ 31)); try done.
    - rewrite be_val_bytes. fold P. rewrite Hlen. do 2 f_equal. lia.
    - apply i32_small.
    - apply be_bytes_byte.
    - rewrite Hlen. fold P. nia.
    - rewrite be_val_bytes. done. }
  unfold is_byte in Hb. set (q := v / P) in *. destruct (v <? 128 * P) eqn:E3; unbool.
  - assert (Hq : 0 <= q < 128) by (split; [lia|apply Z.div_lt_upper_bound; lia]). destruct (low_byte q Hq) as (-> & _).
    rewrite i32_small, Hread by nia. cbn [mbind res_mbind]. do 2 f_equal. lia.
  - assert (Hq : 128 <= q) by (apply Z.div_le_lower_bound; lia). replace q with (q - 128 + 128) by lia.
    destruct (high_byte (q - 128) ltac:(lia)) as (-> & _). rewrite i32_small, Hread by nia. cbn [mbind res_mbind]. do 2 f_equal. lia.
Qed.

Lemma dec_long_ok b i l v val : 0 <= v < 2 ^ 63 -> at_pos b i (len_bytes (zlen (number_bytes v)) ++ number_bytes v) ->
  i + 1 + zlen (number_bytes v) <= l < 2 ^ 31 ->
  asn1_dec_long b i l val = Ret (0, i + 1 + zlen (number_bytes v), v).
Proof.
  intros Hv Hat Hl. pose proof (at_pos_range _ _ _ Hat) as Hi. pose proof (size_of_bound v 8 ltac:(cbn; lia) ltac:(lia)) as Hs.
  assert (Hlen : zlen (number_bytes v) = Z.of_nat (size_of v)) by apply zlen_number.
  unfold len_bytes in Hat. destruct (zlen (number_bytes v) <? 128) eqn:E; unbool; [|lia].
  cbn [app] in Hat. unfold asn1_dec_long. destruct (i >=? l) eqn:E1; [rewrite Z.geb_leb in E1; unbool; lia|].
  apply at_pos_cons in Hat as [-> Hat]. cbn [mbind res_mbind]. destruct (low_byte (zlen (number_bytes v)) ltac:(lia)) as (-> & _ & _).
  rewrite i32_small by lia. destruct (i + 1 + zlen (number_bytes v) >? l) eqn:E2; unbool; [lia|]. rewrite to_nat_zlen.
  rewrite (be_loop_ok b u64 0 (2 ^ 64)); try done; [|apply u64_small|apply be_bytes_byte|rewrite number_val; lia].
  by rewrite number_val by lia.
Qed.

Lemma at_pos_load b i s : at_pos b i s -> load_bytes b i (zlen s) = Ret s.
Proof. intros (pre & post & -> & ->). by apply load_ok. Qed.

Lemma dec_string_ok b i l s (val : option asn1_str) : at_pos b i (len_bytes (zlen s) ++ s) -> i + zlen (len_bytes (zlen s) ++ s) <= l < 2 ^ 31 ->
  asn1_dec_string b i l val =
    Ret (0, i + zlen (len_bytes (zlen s) ++ s), (fun _ => Str (Some (s ++ [0])) (zlen s)) <$> val).
Proof.
  intros Hat Hl. pose proof (at_pos_range _ _ _ Hat) as Hi. apply at_pos_app in Hat as [Hat1 Hat2]. rewrite zlen_app in *.
  pose proof (zlen_nonneg s). pose proof (zlen_nonneg (len_bytes (zlen s))). unfold asn1_dec_string.
  rewrite (dec_length_ok b i l (zlen s)) by (done || lia). cbn [mbind res_mbind]. destruct (zlen s <? 0) eqn:E; unbool; [lia|].
  rewrite i32_small by lia. destruct (_ >? l) eqn:E1; unbool; [lia|].
  destruct val; cbn [fmap option_fmap option_map mbind res_mbind]; rewrite ?at_pos_load by done; cbn [mbind res_mbind]; do 3 f_equal; lia.
Qed.

Lemma put_int_ok a x y r j : j = zlen a -> put_int (a ++ x :: r) j y = Ret (a ++ y :: r).
Proof.
  intros ->. unfold put_int. rewrite zlen_app, zlen_cons. pose proof (zlen_nonneg a). pose proof (zlen_nonneg r).
  replace ((0 <=? zlen a) && (zlen a <? zlen a + (1 + zlen r))) with true by (symmetry; rewrite andb_true_iff, Z.leb_le, Z.ltb_lt; lia).
  f_equal. unfold zset. destruct (zlen a <? 0) eqn:E; unbool; [lia|]. rewrite to_nat_zlen, insert_app_r_alt by lia. by rewrite Nat.sub_diag.
Qed.

Lemma group_or x c : 0 <= c < 128 -> Z.lor (Z.shiftl x 7) c = x * 128 + c.
Proof. intros Hc. rewrite Z.lor_comm, Z.shiftl_mul_pow2 by lia. rewrite (lor_add 7); [lia|lia|done|]. by exists x. Qed.

Lemma oid_loop_S b k i buf ids len : oid_loop b (S k) i buf ids len =
  (c ← rd (Some b) i;
   let q := schar c in
   let buf := i32 (Z.lor (Z.shiftl buf 7) (Z.land q 0x7f)) in
   if Z.land q 0x80 =? 0 then ids ← put_int ids len buf; oid_loop b k (i + 1) 0 ids (len + 1)
   else oid_loop b k (i + 1) buf ids len).
Proof. done. Qed.

(** Reading the groups of one component. *)
Lemma oid_loop_id b j m q i a x r : 0 <= q < 2 ^ 31 -> at_pos b i (base128 (S j) q) ->
  oid_loop b (S j + m) i (Z.shiftr q (7 * Z.of_nat (S j))) (a ++ x :: r) (zlen a) =
  oid_loop b m (i + Z.of_nat (S j)) 0 (a ++ q :: r) (zlen a + 1).
Proof.
  intros Hq. revert i. induction j as [|j IH]; intros i Hat; cbn [base128] in Hat; apply at_pos_cons in Hat as [Hc Hat].
  all: rewrite Nat.add_succ_l, oid_loop_S, Hc; cbn [mbind res_mbind]; clear Hc.
  - replace (if decide (0%nat = 0%nat) then 0 else 128) with 0 by done. rewrite Z.add_0_r, Z.shiftr_0_r.
    pose proof (Z.mod_pos_bound q 128 ltac:(lia)) as Hm. destruct (low_byte (q mod 128) Hm) as (_ & H1 & H2). rewrite H1, H2, group_or by done.
    rewrite Z.shiftr_div_pow2 by lia. change (2 ^ (7 * Z.of_nat 1)) with 128. pose proof (Z.div_mod q 128 ltac:(lia)).
    replace (q / 128 * 128 + q mod 128) with q by lia. rewrite i32_small by lia. cbn [Z.eqb]. by rewrite put_int_ok.
  - replace (if decide (S j = 0%nat) then 0 else 128) with 128 by done.
    set (y := Z.shiftr q (7 * Z.of_nat (S j))) in *. pose proof (Z.mod_pos_bound y 128 ltac:(lia)) as Hm.
    destruct (high_byte (y mod 128) Hm) as (_ & H1 & H2). rewrite H1, H2, group_or by done.
    assert (Hy : Z.shiftr q (7 * Z.of_nat (S (S j))) = y / 128).
    { replace (7 * Z.of_nat (S (S j))) with (7 * Z.of_nat (S j) + 7) by lia. rewrite <- Z.shiftr_shiftr by lia. by rewrite Z.shiftr_div_pow2. }
    rewrite Hy. pose proof (Z.div_mod y 128 ltac:(lia)). replace (y / 128 * 128 + y mod 128) with y by lia.
    assert (0 <= y <= q) by (unfold y; rewrite Z.shiftr_div_pow2 by lia; split; [apply Z.div_pos; lia|apply Z.div_le_upper_bound; nia]).
    rewrite i32_small by lia. cbn [Z.eqb]. rewrite IH by done. f_equal. lia.
Qed.

Lemma oid_loop_ok b ids i a x : Forall (fun q => 0 <= q < 2 ^ 31) ids -> at_pos b i (flat_map id_bytes ids) -> zlen ids <= zlen x ->
  oid_loop b (length (flat_map id_bytes ids)) i 0 (a ++ x) (zlen a) =
    Ret (i + zlen (flat_map id_bytes ids), (a ++ ids) ++ drop (length ids) x, zlen a + zlen ids).
Proof.
  intros Hr. revert i a x. induction Hr as [|q ids Hq _ IH]; intros i a x Hat Hx; cbn [flat_map length] in *.
  { cbn [oid_loop]. rewrite !zlen_nil, app_nil_r, !Z.add_0_r. done. }
  apply at_pos_app in Hat as [Hat1 Hat2]. destruct x as [|x0 x]; [rewrite zlen_cons, zlen_nil in Hx; pose proof (zlen_nonneg ids); lia|].
  rewrite !zlen_cons in Hx. rewrite length_app.
  assert (Hl : length (id_bytes q) = S (Z.to_nat (Z.log2 q / 7))).
  { unfold id_bytes. rewrite base128_length. pose proof (Z.log2_nonneg q). pose proof (Z.div_pos (Z.log2 q) 7). lia. }
  assert (Hid : id_bytes q = base128 (S (Z.to_nat (Z.log2 q / 7))) q) by (unfold id_bytes; by rewrite <- Hl; unfold id_bytes; rewrite base128_length).
  rewrite Hl. rewrite Hid in Hat1.
  replace 0 with (Z.shiftr q (7 * Z.of_nat (S (Z.to_nat (Z.log2 q / 7))))) at 1.
  2: { pose proof (Z.log2_nonneg q) as Hg. pose proof (Z.div_pos (Z.log2 q) 7 Hg). apply Z.shiftr_eq_0; [lia|]. pose proof (Z.div_mod (Z.log2 q) 7).
       pose proof (Z.mod_pos_bound (Z.log2 q) 7). lia. }
  rewrite oid_loop_id by done. replace (zlen a + 1) with (zlen (a ++ [q])) by lens.
  replace (a ++ q :: x) with ((a ++ [q]) ++ x) by (by rewrite <- app_assoc).
  assert (Hz : zlen (id_bytes q) = Z.of_nat (S (Z.to_nat (Z.log2 q / 7)))) by (unfold zlen; by rewrite Hl).
  rewrite IH; [|by rewrite <- Hz|lia]. rewrite !zlen_app, !zlen_cons, zlen_nil, Hz, <- !app_assoc. cbn [app drop]. apply (f_equal Ret). apply f_equal2; [apply f_equal2; [lia|done]|lia].
Qed.

Lemma zlen_flat_ids ids : Forall (fun q => 0 <= q < 2 ^ 31) ids -> zlen ids <= zlen (flat_map id_bytes ids).
Proof.
  induction 1 as [|q ids Hq _ IH]; cbn [flat_map]; [done|]. rewrite zlen_app, zlen_cons. pose proof (zlen_id_bound q Hq). lia.
Qed.

Lemma dec_oid_ok junk b i l ids id : ids_ok ids -> zlen ids <= 2 ^ 20 ->
  at_pos b i (len_bytes (zlen (oid_bytes ids)) ++ oid_bytes ids) ->
  i + zlen (len_bytes (zlen (oid_bytes ids)) ++ oid_bytes ids) <= l < 2 ^ 31 ->
  exists id', asn1_dec_oid junk b i l id = Ret (0, i + zlen (len_bytes (zlen (oid_bytes ids)) ++ oid_bytes ids), id') /\ is_oid id' ids.
Proof.
  intros Hids Hn Hat Hl. destruct ids as [|x [|y ids]]; try done. destruct Hids as (Hx & Hy & Hr). cbn [oid_bytes] in *.
  set (s := 40 * x + y :: flat_map id_bytes ids) in *. pose proof (at_pos_range _ _ _ Hat) as Hi. apply at_pos_app in Hat as [Hat1 Hat2].
  rewrite zlen_app in *. rewrite !zlen_cons in Hn. pose proof (zlen_ids_bound ids Hr). pose proof (zlen_flat_ids ids Hr).
  assert (Hs : zlen s = 1 + zlen (flat_map id_bytes ids)) by apply zlen_cons. pose proof (zlen_nonneg ids).
  pose proof (zlen_nonneg (len_bytes (zlen s))).
  unfold asn1_dec_oid. rewrite (dec_length_ok b i l (zlen s)) by (done || lia). cbn [mbind res_mbind].
  destruct (zlen s <? 0) eqn:E; unbool; [lia|]. rewrite i32_small by lia. destruct (_ >? l) eqn:E1; unbool; [lia|].
  destruct (zlen s =? 0) eqn:E2; unbool; [lia|]. set (i1 := i + zlen (len_bytes (zlen s))) in *.
  assert (Hmem : exists m0 m1 m, realloc_ints junk (oid_b id) (zlen s + 1) = m0 :: m1 :: m /\ zlen m = zlen (flat_map id_bytes ids)).
  { assert (Hlen : zlen (realloc_ints junk (oid_b id) (zlen s + 1)) = zlen s + 1)
      by (unfold realloc_ints, zlen; rewrite length_app, length_take, length_replicate; unfold zlen in *; lia).
    destruct (realloc_ints junk (oid_b id) (zlen s + 1)) as [|m0 [|m1 m]]; rewrite ?zlen_cons, ?zlen_nil in Hlen; [lia|lia|].
    exists m0, m1, m. split; [done|lia]. }
  destruct Hmem as (m0 & m1 & m & -> & Hm). apply at_pos_cons in Hat2 as [-> Hat2]. cbn [mbind res_mbind].
  destruct (low_byte (40 * x + y) ltac:(lia)) as (-> & _). pose proof (put_int_ok [] m0 (Z.quot (40 * x + y) 40) (m1 :: m) 0 eq_refl) as P0.
  cbn [app] in P0. rewrite P0. cbn [mbind res_mbind].
  pose proof (put_int_ok [Z.quot (40 * x + y) 40] m1 (Z.rem (40 * x + y) 40) m 1 eq_refl) as P1. cbn [app] in P1. rewrite P1. cbn [mbind res_mbind].
  rewrite Z.quot_div_nonneg, Z.rem_mod_nonneg by lia.
  replace ((40 * x + y) / 40) with x by (apply (Z.div_unique _ _ _ y); lia).
  replace ((40 * x + y) mod 40) with y by (apply (Z.mod_unique _ _ x y); lia).
  replace (Z.to_nat (zlen s - 1)) with (length (flat_map id_bytes ids)) by (unfold zlen in *; lia).
  pose proof (oid_loop_ok b ids (i1 + 1) [x; y] m Hr Hat2 ltac:(lia)) as Ho. cbn [app] in Ho. change (zlen [x; y]) with 2 in Ho. rewrite Ho.
  cbn [mbind res_mbind]. eexists. split.
  - do 3 f_equal. unfold i1. lia.
  - eexists. cbn [oid_b oid_len]. split; [done|]. by rewrite !zlen_cons, Z.add_assoc.
Qed.

Lemma dec_sequence_ok {A} b (c : Z -> Z -> Z -> A -> res (Z * Z * A)) i l tp s arg :
  is_byte tp -> at_pos b i (tlv tp s) -> i + zlen (tlv tp s) <= l < 2 ^ 31 ->
  let i' := i + 1 + zlen (len_bytes (zlen s)) in
  asn1_dec_sequence b c i l arg = c i' (i' + zlen s) tp arg /\ at_pos b i' s.
Proof.
  intros Ht Hat Hl. pose proof (at_pos_range _ _ _ Hat) as Hi. rewrite zlen_tlv in *. pose proof (zlen_nonneg s).
  apply at_pos_cons in Hat as [Hrd Hat]. apply at_pos_app in Hat as [Hat1 Hat2]. split; [|done].
  pose proof (zlen_nonneg (len_bytes (zlen s))). pose proof (zlen_len_bytes_bound (zlen s) ltac:(lia)).
  unfold asn1_dec_sequence. destruct (i >=? l) eqn:E; [rewrite Z.geb_leb in E; unbool; lia|]. rewrite Hrd. cbn [mbind res_mbind].
  rewrite tag_byte by done. rewrite (dec_length_ok b (i + 1) l (zlen s)) by (done || lia). cbn [mbind res_mbind].
  destruct (zlen s <? 0) eqn:E1; unbool; [lia|]. by rewrite i32_small by lia.
Qed.

(** ** Any packet

    The decoders of the elements on bytes that may be anything: they read only
    below the limit. *)

(** The decoder returns and its position has moved forward up to the limit. *)
Definition in_limit {A} (i l : Z) (m : res (Z * Z * A)) : Prop :=
  exists r i' v, m = Ret (r, i', v) /\ i <= i' <= Z.max i l /\ (r = 0 \/ r = -1).

Lemma schar_range c : - 128 <= schar c < 128.
Proof. unfold schar. pose proof (Z.mod_pos_bound (c + 128) 256). lia. Qed.

Lemma land_15_range n : 0 <= Z.land n 15 < 16.
Proof. change 15 with (Z.ones 4). rewrite Z.land_ones by lia. apply Z.mod_pos_bound. lia. Qed.

Lemma i32_range x : - 2 ^ 31 <= i32 x < 2 ^ 31.
Proof. unfold i32. pose proof (Z.mod_pos_bound (x + 2 ^ 31) (2 ^ 32)). lia. Qed.

Lemma rd_range {A} (b : list A) i : 0 <= i < zlen b -> exists c, rd (Some b) i = Ret c.
Proof. intros Hi. destruct (zget_is_Some b i Hi) as [c Hc]. exists c. unfold rd. cbn [mbind res_mbind of_opt]. by rewrite Hc. Qed.

Lemma be_loop_safe b trunc k i acc : 0 <= i -> i + Z.of_nat k <= zlen b ->
  exists v, be_loop b trunc k i acc = Ret (v, i + Z.of_nat k) /\ (v = acc \/ exists x, v = trunc x).
Proof.
  revert i acc. induction k as [|k IH]; intros i acc Hi Hk; cbn [be_loop].
  { exists acc. rewrite Z.add_0_r. auto. }
  destruct (rd_range b i ltac:(lia)) as [c ->]. cbn [mbind res_mbind].
  edestruct (IH (i + 1)) as (v & -> & Hv); [lia|lia|]. exists v. split; [do 2 f_equal; lia|].
  right. destruct Hv as [->|Hv]; [eauto|done].
Qed.

Section any_packet.
Variable junk : Z.
Variable b : list Z.
Variables i l : Z.
Hypothesis Hi : 0 <= i.
Hypothesis Hl : l <= zlen b <= 2 ^ 30.

Lemma dec_length_safe : exists n i', asn1_dec_length b i l = Ret (n, i') /\ i <= i' <= Z.max i l /\ - 2 ^ 31 <= n < 2 ^ 31 /\
  (0 <= n -> i < i').
Proof.
  unfold asn1_dec_length. destruct (i >=? l) eqn:E; rewrite Z.geb_leb in E; unbool; [exists (-1), i; split_and!; done || lia|].
  destruct (rd_range b i ltac:(lia)) as [c ->]. cbn [mbind res_mbind]. pose proof (schar_range c).
  destruct (negb _); [exists (schar c), (i + 1); split_and!; done || lia|]. pose proof (land_15_range (schar c)) as Hn. change 0xf with 15.
  rewrite i32_small by lia. destruct (_ >? l) eqn:E1; unbool; [exists (-1), (i + 1); split_and!; done || lia|].
  destruct (be_loop_safe b i32 (Z.to_nat (Z.land (schar c) 15)) (i + 1) 0) as (v & -> & Hv); [lia|lia|].
  eexists _, _. split; [done|]. split; [lia|]. split; [|lia]. destruct Hv as [->|[x ->]]; [lia|apply i32_range].
Qed.

Lemma dec_int_safe val : in_limit i l (asn1_dec_int b i l val).
Proof.
  unfold asn1_dec_int, in_limit. destruct (i >=? l) eqn:E; rewrite Z.geb_leb in E; unbool; [exists (-1), i, val; split_and!; try done; lia|].
  destruct (rd_range b i ltac:(lia)) as [c ->]. cbn [mbind res_mbind]. pose proof (schar_range c). set (n := schar c) in *.
  rewrite i32_small by lia. destruct (_ >? l) eqn:E1; unbool; [exists (-1), (i + 1), val; split_and!; try done; lia|]. unfold int_loop.
  destruct (Z.to_nat n) as [|k] eqn:Ek; [cbn [mbind res_mbind]; exists 0, (i + 1), 0; split_and!; try done; lia|].
  destruct (rd_range b (i + 1) ltac:(lia)) as [d ->]. cbn [mbind res_mbind].
  edestruct (be_loop_safe b i32 k (i + 1 + 1)) as (v & -> & _); [lia|lia|]. cbn [mbind res_mbind].
  eexists _, _, _. split_and!; try done; lia.
Qed.

Lemma dec_long_safe val : in_limit i l (asn1_dec_long b i l val).
Proof.
  unfold asn1_dec_long, in_limit. destruct (i >=? l) eqn:E; rewrite Z.geb_leb in E; unbool; [exists (-1), i, val; split_and!; try done; lia|].
  destruct (rd_range b i ltac:(lia)) as [c ->]. cbn [mbind res_mbind]. pose proof (schar_range c). set (n := schar c) in *.
  rewrite i32_small by lia. destruct (_ >? l) eqn:E1; unbool; [exists (-1), (i + 1), val; split_and!; try done; lia|].
  edestruct (be_loop_safe b u64 (Z.to_nat n) (i + 1)) as (v & -> & _); [lia|lia|]. cbn [mbind res_mbind].
  eexists _, _, _. split_and!; try done; lia.
Qed.

(** The length an element declares, when the position after it and the length
    have a sum. *)
Definition length_adds : Prop :=
  match asn1_dec_length b i l with Ret (n, i') => i' + n < 2 ^ 31 | Halt _ => True end.
Hypothesis Hadd : length_adds.

Lemma dec_string_safe val : in_limit i l (asn1_dec_string b i l val).
Proof.
  revert Hadd. unfold length_adds, asn1_dec_string, in_limit. destruct dec_length_safe as (n & i' & -> & Hi' & Hn & Hpos). intros Hsum. cbn [mbind res_mbind].
  destruct (n <? 0) eqn:E; unbool; [exists (-1), i', val; auto|]. rewrite i32_small by lia.
  destruct (_ >? l) eqn:E1; unbool; [exists (-1), i', val; auto|]. destruct val as [s|].
  - assert (Hload : exists s, load_bytes b i' n = Ret s).
    { unfold load_bytes. destruct (_ && _) eqn:E2; [eauto|]. rewrite !andb_false_iff, !Z.leb_gt in E2. lia. }
    destruct Hload as [s' ->]. cbn [mbind res_mbind]. eexists _, _, _. split_and!; try done; lia.
  - cbn [mbind res_mbind]. eexists _, _, _. split_and!; try done; lia.
Qed.

Lemma put_int_safe a j x : 0 <= j < zlen a -> exists a', put_int a j x = Ret a' /\ zlen a' = zlen a.
Proof.
  intros Hj. unfold put_int. replace ((0 <=? j) && (j <? zlen a)) with true by (symmetry; rewrite andb_true_iff, Z.leb_le, Z.ltb_lt; lia).
  eexists. split; [done|apply zlen_zset].
Qed.

Lemma oid_loop_safe k pos buf ids len : 0 <= pos -> pos + Z.of_nat k <= zlen b -> 0 <= len -> len + Z.of_nat k <= zlen ids ->
  exists ids' len', oid_loop b k pos buf ids len = Ret (pos + Z.of_nat k, ids', len') /\ zlen ids' = zlen ids /\ len <= len' <= len + Z.of_nat k.
Proof.
  revert pos buf ids len. induction k as [|k IH]; intros pos buf ids len Hp Hpk Hlen Hk.
  { exists ids, len. cbn [oid_loop]. rewrite Z.add_0_r. split_and!; try done; lia. }
  rewrite oid_loop_S. destruct (rd_range b pos ltac:(lia)) as [c ->]. cbn [mbind res_mbind]. cbv zeta.
  destruct (_ =? 0).
  - edestruct (put_int_safe ids len) as (ids1 & -> & H1); [lia|]. cbn [mbind res_mbind].
    edestruct (IH (pos + 1)) as (ids2 & len2 & -> & H2 & H3); [lia|lia| |rewrite H1; lia|]; [lia|].
    exists ids2, len2. split_and!; [do 3 f_equal; lia|congruence|lia|lia].
  - edestruct (IH (pos + 1)) as (ids2 & len2 & -> & H2 & H3); [lia|lia|done|lia|].
    exists ids2, len2. split_and!; [do 3 f_equal; lia|congruence|lia|lia].
Qed.

Lemma dec_oid_safe id : in_limit i l (asn1_dec_oid junk b i l id).
Proof.
  revert Hadd. unfold length_adds, asn1_dec_oid, in_limit. destruct dec_length_safe as (n & i' & -> & Hi' & Hn & Hpos). intros Hsum. cbn [mbind res_mbind].
  destruct (n <? 0) eqn:E; unbool; [exists (-1), i', id; auto|]. rewrite i32_small by lia.
  destruct (_ >? l) eqn:E1; unbool; [exists (-1), i', id; auto|]. destruct (n =? 0) eqn:E2; unbool; [exists 0, i', id; auto|].
  destruct (rd_range b i' ltac:(lia)) as [c ->]. cbn [mbind res_mbind].
  assert (Hm : zlen (realloc_ints junk (oid_b id) (n + 1)) = n + 1)
    by (unfold realloc_ints, zlen; rewrite length_app, length_take, length_replicate; unfold zlen in *; lia).
  edestruct (put_int_safe (realloc_ints junk (oid_b id) (n + 1)) 0) as (m1 & -> & H1); [lia|]. cbn [mbind res_mbind].
  edestruct (put_int_safe m1 1) as (m2 & -> & H2); [lia|]. cbn [mbind res_mbind].
  edestruct (oid_loop_safe (Z.to_nat (n - 1)) (i' + 1)) as (ids & len & -> & H3 & H4); [lia|lia| |rewrite H2, H1; lia|]; [lia|].
  cbn [mbind res_mbind]. eexists _, _, _. split_and!; try done; lia.
Qed.
End any_packet.

(** The decoders of lengths, integers, strings and identifiers read
    nothing behind the limit, whatever the bytes of the packet are: they
    return, with 0 or -1, at a position up to the limit.  For strings and
    identifiers the declared length must not take the position past the
    largest [int]. *)
Theorem asn1_elements_within_limit junk b i l val str id :
  0 <= i -> l <= zlen b <= 2 ^ 30 ->
  (exists n i', asn1_dec_length b i l = Ret (n, i') /\ i <= i' <= Z.max i l) /\
  in_limit i l (asn1_dec_int b i l val) /\ in_limit i l (asn1_dec_long b i l val) /\
  (length_adds b i l -> in_limit i l (asn1_dec_string b i l str) /\ in_limit i l (asn1_dec_oid junk b i l id)).
Proof.
  intros Hi Hl. split_and!.
  - destruct (dec_length_safe b i l Hi Hl) as (n & i' & -> & H & _). by exists n, i'.
  - by apply dec_int_safe.
  - by apply dec_long_safe.
  - intros Hadd. split; [by apply dec_string_safe|by apply dec_oid_safe].
Qed.

Lemma asn1_elements_witness : in_limit 0 3 (asn1_dec_string [0x82; 0x01; 0x00; 0x41] 0 3 None).
Proof.
  refine (proj1 (proj2 (proj2 (proj2 (asn1_elements_within_limit 0 [0x82; 0x01; 0x00; 0x41] 0 3 0 None (Oid None 0) _ _))) _)).
  - lia.
  - split; vm_compute; discriminate.
  - vm_compute. reflexivity.
Defined.

(** A declared length of 2^31 - 1 passes the test against the limit. *)
Example string_length_wraps : asn1_dec_string [0x84; 0x7f; 0xff; 0xff; 0xff; 0x41] 0 6 (Some (Str None 0)) = Halt BadAccess.
Proof. vm_compute. reflexivity. Qed.

(** Negative ints are written with a shift by 32. *)
Example negative_int_shifts_by_width : asn1_enc_int 0 (fun _ => true) (EBuf (Some (replicate 20 0)) 0 20) ASN1_INT (-1) = Halt Undefined.
Proof. vm_compute. reflexivity. Qed.

(** The buffer grows by one step, however large the element is. *)
Example grows_by_one_step :
  asn1_enc_string 0 (fun _ => true) (EBuf (Some (replicate 20 0)) 0 20) ASN1_OCT_STR (Str (Some (replicate 100 65)) 100) = Halt BadAccess.
Proof. vm_compute. reflexivity. Qed.

(** A number of four bytes is always read as it was written; of those with
    one, two and three bytes, the upper half is not. *)
Lemma wire_int_same v : 0 <= v < 2 ^ 31 ->
  wire_int v = v <-> v < 0x80 \/ 0x100 <= v < 0x8000 \/ 0x10000 <= v < 0x800000 \/ 0x1000000 <= v.
Proof.
  intros Hv. unfold wire_int, size_of.
  assert (Hcase : forall k, 0 < k -> 256 ^ k <= v < 256 ^ (k + 1) -> Z.log2 v / 8 = k).
  { intros k Hk [Hlo Hup]. replace 256 with (2 ^ 8) in Hlo, Hup by done. rewrite <- Z.pow_mul_r in Hlo, Hup by lia.
    assert (0 < v) by (pose proof (Z.pow_pos_nonneg 2 (8 * k)); lia). apply Z.log2_le_pow2 in Hlo; [|lia]. apply Z.log2_lt_pow2 in Hup; [|lia].
    symmetry. apply (Z.div_unique _ _ _ (Z.log2 v - 8 * k)); lia. }
  destruct (Z.lt_ge_cases v 0x100); [|destruct (Z.lt_ge_cases v 0x10000); [|destruct (Z.lt_ge_cases v 0x1000000)]].
  - rewrite Z.div_small by (split; [apply Z.log2_nonneg|destruct (decide (v = 0)) as [->|]; [done|apply Z.log2_lt_pow2; lia]]).
    change (Z.of_nat (Z.to_nat (1 + 0))) with 1. change (256 ^ (1 - 1)) with 1. change (256 ^ 1) with 256. destruct (_ <? _) eqn:E; unbool; lia.
  - rewrite (Hcase 1) by lia. change (Z.of_nat (Z.to_nat (1 + 1))) with 2. change (256 ^ (2 - 1)) with 256. change (256 ^ 2) with 65536.
    destruct (_ <? _) eqn:E; unbool; lia.
  - rewrite (Hcase 2) by lia. change (Z.of_nat (Z.to_nat (1 + 2))) with 3. change (256 ^ (3 - 1)) with 65536. change (256 ^ 3) with 16777216.
    destruct (_ <? _) eqn:E; unbool; lia.
  - rewrite (Hcase 3) by lia. change (Z.of_nat (Z.to_nat (1 + 3))) with 4. change (256 ^ (4 - 1)) with 16777216. change (256 ^ 4) with 4294967296.
    destruct (_ <? _) eqn:E; unbool; lia.
Qed.

(** ** Comparing identifiers *)

(** Lexicographic order, a proper prefix first. *)
Fixpoint lex (xs ys : list Z) : Z :=
  match xs, ys with
  | [], [] => 0
  | [], _ :: _ => -1
  | _ :: _, [] => 1
  | x :: xs, y :: ys => if x <? y then -1 else if x >? y then 1 else lex xs ys
  end.

Lemma lex_refl xs : lex xs xs = 0.
Proof. induction xs as [|x xs IH]; cbn [lex]; [done|]. destruct (x <? x) eqn:E, (x >? x) eqn:E'; unbool; lia. Qed.

Lemma lex_0 xs ys : lex xs ys = 0 <-> xs = ys.
Proof.
  split; [|intros ->; apply lex_refl]. revert ys. induction xs as [|x xs IH]; intros [|y ys]; cbn [lex]; try done.
  destruct (x <? y) eqn:E, (x >? y) eqn:E'; unbool; try lia. intros H. f_equal; [lia|by apply IH].
Qed.

Lemma lex_swap xs ys : lex ys xs = - lex xs ys.
Proof.
  revert ys. induction xs as [|x xs IH]; intros [|y ys]; cbn [lex]; try done.
  destruct (x <? y) eqn:E1, (x >? y) eqn:E2, (y <? x) eqn:E3, (y >? x) eqn:E4; unbool; (lia || apply IH).
Qed.

Lemma lex_trans xs ys zs : lex xs ys = -1 -> lex ys zs = -1 -> lex xs zs = -1.
Proof.
  revert ys zs. induction xs as [|x xs IH]; intros [|y ys] [|z zs]; cbn [lex]; try done.
  destruct (x <? y) eqn:E1, (x >? y) eqn:E2, (y <? z) eqn:E3, (y >? z) eqn:E4, (x <? z) eqn:E5, (x >? z) eqn:E6; unbool; (lia || eauto).
Qed.

Lemma lex_values xs ys : lex xs ys = -1 \/ lex xs ys = 0 \/ lex xs ys = 1.
Proof. revert ys. induction xs as [|x xs IH]; intros [|y ys]; cbn [lex]; auto. destruct (x <? y), (x >? y); auto. Qed.

Lemma rd_oid o ids j x : is_oid o ids -> zget ids j = Some x -> rd (oid_b o) j = Ret x.
Proof.
  intros (rest & -> & _) Hj. unfold rd. cbn [mbind res_mbind of_opt]. pose proof (zget_range _ _ _ Hj). unfold zget in *.
  destruct (j <? 0); [done|]. by rewrite (lookup_app_l_Some _ _ _ _ Hj).
Qed.

(** The loop goes on behind a common part [p]. *)
Lemma cmp_loop_ok a b p xs ys : is_oid a (p ++ xs) -> is_oid b (p ++ ys) ->
  (r ← cmp_loop (min (length xs) (length ys)) a b (zlen p);
   match r with
   | Some r => Ret r
   | None => if zlen xs =? zlen ys then Ret 0 else if zlen xs <? zlen ys then Ret (-1) else Ret 1
   end) = Ret (lex xs ys).
Proof.
  revert p ys. induction xs as [|x xs IH]; intros p ys Ha Hb.
  { cbn [length Nat.min cmp_loop mbind res_mbind]. destruct ys; [done|]. cbn [lex]. rewrite zlen_nil, zlen_cons.
    pose proof (zlen_nonneg ys). destruct (0 =? _) eqn:E; unbool; [lia|]. by destruct (0 <? _) eqn:E'; unbool; [|lia]. }
  destruct ys as [|y ys].
  { cbn [length Nat.min cmp_loop mbind res_mbind lex]. rewrite zlen_nil, zlen_cons.
    pose proof (zlen_nonneg xs). destruct (_ =? 0) eqn:E; unbool; [lia|]. by destruct (_ <? 0) eqn:E'; unbool; [lia|]. }
  cbn [length Nat.min cmp_loop]. rewrite (rd_oid a _ _ x Ha), (rd_oid b _ _ y Hb) by apply zget_middle. cbn [mbind res_mbind lex].
  destruct (x <? y) eqn:E1; [done|]. destruct (x >? y) eqn:E2; [done|]. unbool. assert (y = x) as -> by lia.
  replace (zlen p + 1) with (zlen (p ++ [x])) by lens. rewrite !zlen_cons.
  replace (1 + zlen xs =? 1 + zlen ys) with (zlen xs =? zlen ys) by (destruct (zlen xs =? zlen ys) eqn:?, (1 + zlen xs =? 1 + zlen ys) eqn:?; unbool; lia).
  replace (1 + zlen xs <? 1 + zlen ys) with (zlen xs <? zlen ys) by (destruct (zlen xs <? zlen ys) eqn:?, (1 + zlen xs <? 1 + zlen ys) eqn:?; unbool; lia).
  apply IH; by rewrite <- app_assoc.
Qed.

Lemma cmp_oids_ok a b xs ys : is_oid a xs -> is_oid b ys -> asn1_cmp_oids a b = Ret (lex xs ys).
Proof.
  intros Ha Hb. pose proof (cmp_loop_ok a b [] xs ys Ha Hb) as H. change (zlen []) with 0 in H. destruct Ha as (? & _ & La), Hb as (? & _ & Lb).
  unfold asn1_cmp_oids. rewrite La, Lb. replace (Z.to_nat (Z.min (zlen xs) (zlen ys))) with (min (length xs) (length ys)) by (unfold zlen; lia). done.
Qed.

Lemma prefix_loop_ok a b p xs ys : is_oid a (p ++ xs) -> is_oid b (p ++ ys) ->
  exists r : bool, prefix_loop (min (length xs) (length ys)) a b (zlen p) = Ret r /\
    (ys `prefix_of` xs <-> r = true /\ zlen ys <= zlen xs).
Proof.
  revert p ys. induction xs as [|x xs IH]; intros p ys Ha Hb.
  { exists true. split; [done|]. rewrite zlen_nil. split.
    - intros [k Hk]. symmetry in Hk. by apply app_nil in Hk as [-> _].
    - intros [_ Hl]. destruct ys; [done|]. rewrite zlen_cons in Hl. pose proof (zlen_nonneg ys). lia. }
  destruct ys as [|y ys].
  { exists true. split; [done|]. split; [intros _; split; [done|]; rewrite zlen_nil; apply zlen_nonneg|]. intros _. apply prefix_nil. }
  cbn [length Nat.min prefix_loop]. rewrite (rd_oid a _ _ x Ha), (rd_oid b _ _ y Hb) by apply zget_middle. cbn [mbind res_mbind].
  destruct (x =? y) eqn:E; cbn [negb]; unbool.
  - subst y. replace (zlen p + 1) with (zlen (p ++ [x])) by lens. destruct (IH (p ++ [x]) ys) as (r & -> & Hr); [by rewrite <- app_assoc..|].
    exists r. split; [done|]. rewrite !zlen_cons. rewrite <- (Z.add_le_mono_l _ _ 1) in *. rewrite <- Hr. split; [apply prefix_cons_inv_2|apply prefix_cons].
  - exists false. split; [done|]. split; [|by intros []]. intros Hp. by apply prefix_cons_inv_1 in Hp.
Qed.

(** Identifiers are ordered lexicographically, component by component:
    [asn1_cmp_oids] is 0 for equal ones only, changes its sign when its
    arguments are swapped and is transitive; [asn1_oid_has_prefix] is 1 when
    the second identifier is a prefix of the first one and 0 otherwise. *)
Theorem asn1_oid_order a b xs ys :
  is_oid a xs -> is_oid b ys ->
  (exists r, asn1_cmp_oids a b = Ret r /\ asn1_cmp_oids b a = Ret (- r) /\ (r = 0 <-> xs = ys) /\
     (forall c zs, is_oid c zs -> r = -1 -> asn1_cmp_oids b c = Ret (-1) -> asn1_cmp_oids a c = Ret (-1))) /\
  asn1_oid_has_prefix a b = Ret (if decide (ys `prefix_of` xs) then 1 else 0).
Proof.
  intros Ha Hb. split.
  - exists (lex xs ys). rewrite (cmp_oids_ok a b xs ys Ha Hb), (cmp_oids_ok b a ys xs Hb Ha), (lex_swap xs ys).
    split_and!; try done; [apply lex_0|]. intros c zs Hc Hr. rewrite (cmp_oids_ok b c ys zs Hb Hc), (cmp_oids_ok a c xs zs Ha Hc).
    intros [= Hr2]. f_equal. by apply (lex_trans xs ys zs).
  - destruct (prefix_loop_ok a b [] xs ys Ha Hb) as (r & Hl & Hr). destruct Ha as (? & _ & La), Hb as (? & _ & Lb).
    unfold asn1_oid_has_prefix. rewrite La, Lb. replace (Z.to_nat (Z.min (zlen xs) (zlen ys))) with (min (length xs) (length ys)) by (unfold zlen; lia).
    change (zlen []) with 0 in Hl. rewrite Hl. cbn [mbind res_mbind].
    destruct (decide (ys `prefix_of` xs)) as [Hd|Hd]; rewrite Hr in Hd.
    + destruct Hd as [-> Hle]. by destruct (_ <? _) eqn:E; unbool; [lia|].
    + destruct r; [|done]. destruct (_ <? _) eqn:E; unbool; [done|]. destruct Hd. split; [done|lia].
Qed.

Lemma asn1_oid_order_witness :
  exists r, asn1_cmp_oids (Oid (Some [1; 3; 6; 1]) 4) (Oid (Some [1; 3; 5]) 3) = Ret r /\ r <> 0.
Proof.
  destruct (asn1_oid_order (Oid (Some [1; 3; 6; 1]) 4) (Oid (Some [1; 3; 5]) 3) [1; 3; 6; 1] [1; 3; 5]) as [(r & Hr & _ & H0 & _) _].
  - exists []. split; reflexivity.
  - exists []. split; reflexivity.
  - exists r. split; [exact Hr|]. rewrite H0. discriminate.
Defined.
