(* ===== verification/Csnmp.v ===== *)
(** * SNMP packets (src/zabbix_server/glb_poller/csnmp.c, csnmp.h)

    The packets of the asynchronous SNMP poller: their variables, how they
    are written to and read from the wire with the functions of asn1.c, and
    what is sent and received.

    [void *value] is one of the types the code stores there; reading it as
    another one than the tag of the variable says is a [BadAccess].  The
    array of variables is the list of its initialised elements ([None] for
    NULL) with the field for its capacity. *)
From stdpp Require Import prelude list strings.
From Stdlib Require Import ZArith Lia.
From S2P Require Import Prelude Asn1.
#[local] Open Scope Z_scope.

Definition SNMP_VERSION_1 : Z := 0.
Definition SNMP_VERSION_2c : Z := 1.

Definition SNMP_CMD_GET : Z := 0xa0.
Definition SNMP_CMD_GET_NEXT : Z := 0xa1.
Definition SNMP_CMD_GET_BULK : Z := 0xa5.

Definition SNMP_TP_BOOL : Z := 0x1.
Definition SNMP_TP_INT : Z := 0x2.
Definition SNMP_TP_BIT_STR : Z := 0x3.
Definition SNMP_TP_OCT_STR : Z := 0x4.
Definition SNMP_TP_NULL : Z := 0x5.
Definition SNMP_TP_OID : Z := 0x6.
Definition SNMP_TP_IP_ADDR : Z := 0x40.
Definition SNMP_TP_COUNTER : Z := 0x41.
Definition SNMP_TP_GAUGE : Z := 0x42.
Definition SNMP_TP_TIMETICKS : Z := 0x43.
Definition SNMP_TP_COUNTER64 : Z := 0x46.
Definition SNMP_TP_FLOAT : Z := 0x48.
Definition SNMP_TP_DOUBLE : Z := 0x49.
Definition SNMP_TP_INT64 : Z := 0x50.
Definition SNMP_TP_UINT64 : Z := 0x51.
Definition SNMP_TP_NO_SUCH_OBJ : Z := 0x80.
Definition SNMP_TP_NO_SUCH_INSTANCE : Z := 0x81.
Definition SNMP_TP_END_OF_MIB_VIEW : Z := 0x82.

Inductive csnmp_value :=
  | V_none | V_int (v : Z) | V_long (v : Z) | V_str (s : asn1_str) | V_oid (o : asn1_oid).

Record csnmp_var := Var { var_oid : asn1_oid; var_type : Z; var_value : csnmp_value; var_error : asn1_error }.

(** [p_addr]: [addr] and [addr_len]. *)
Record csnmp_pdu := Pdu {
  p_addr : list Z; p_version : Z; p_community : asn1_str; p_command : Z; p_req_id : Z;
  p_max_repeaters : Z; p_max_repetitions : Z; p_error_status : Z; p_error_index : Z;
  p_vars : option (list csnmp_var); p_vars_len : Z; p_vars_cap : Z; p_error : asn1_error }.

(** [{0}] *)
Definition zero_var : csnmp_var := Var (Oid None 0) 0 V_none no_error.
Definition zero_pdu : csnmp_pdu := Pdu [] 0 (Str None 0) 0 0 0 0 0 0 None 0 0 no_error.

Definition set_value (v : csnmp_var) (x : csnmp_value) : csnmp_var := Var (var_oid v) (var_type v) x (var_error v).
Definition fail_var (v : csnmp_var) (pos : Z) (m : string) : csnmp_var :=
  Var (var_oid v) (var_type v) (var_value v) (asn1_set_error (var_error v) pos m).

Definition set_version (p : csnmp_pdu) (x : Z) : csnmp_pdu :=
  Pdu (p_addr p) x (p_community p) (p_command p) (p_req_id p) (p_max_repeaters p) (p_max_repetitions p) (p_error_status p)
    (p_error_index p) (p_vars p) (p_vars_len p) (p_vars_cap p) (p_error p).
Definition set_community (p : csnmp_pdu) (x : asn1_str) : csnmp_pdu :=
  Pdu (p_addr p) (p_version p) x (p_command p) (p_req_id p) (p_max_repeaters p) (p_max_repetitions p) (p_error_status p)
    (p_error_index p) (p_vars p) (p_vars_len p) (p_vars_cap p) (p_error p).
Definition set_command (p : csnmp_pdu) (x : Z) : csnmp_pdu :=
  Pdu (p_addr p) (p_version p) (p_community p) x (p_req_id p) (p_max_repeaters p) (p_max_repetitions p) (p_error_status p)
    (p_error_index p) (p_vars p) (p_vars_len p) (p_vars_cap p) (p_error p).
Definition set_req_id (p : csnmp_pdu) (x : Z) : csnmp_pdu :=
  Pdu (p_addr p) (p_version p) (p_community p) (p_command p) x (p_max_repeaters p) (p_max_repetitions p) (p_error_status p)
    (p_error_index p) (p_vars p) (p_vars_len p) (p_vars_cap p) (p_error p).
Definition set_max_repeaters (p : csnmp_pdu) (x : Z) : csnmp_pdu :=
  Pdu (p_addr p) (p_version p) (p_community p) (p_command p) (p_req_id p) x (p_max_repetitions p) (p_error_status p)
    (p_error_index p) (p_vars p) (p_vars_len p) (p_vars_cap p) (p_error p).
Definition set_max_repetitions (p : csnmp_pdu) (x : Z) : csnmp_pdu :=
  Pdu (p_addr p) (p_version p) (p_community p) (p_command p) (p_req_id p) (p_max_repeaters p) x (p_error_status p)
    (p_error_index p) (p_vars p) (p_vars_len p) (p_vars_cap p) (p_error p).
Definition set_error_status (p : csnmp_pdu) (x : Z) : csnmp_pdu :=
  Pdu (p_addr p) (p_version p) (p_community p) (p_command p) (p_req_id p) (p_max_repeaters p) (p_max_repetitions p) x
    (p_error_index p) (p_vars p) (p_vars_len p) (p_vars_cap p) (p_error p).
Definition set_error_index (p : csnmp_pdu) (x : Z) : csnmp_pdu :=
  Pdu (p_addr p) (p_version p) (p_community p) (p_command p) (p_req_id p) (p_max_repeaters p) (p_max_repetitions p) (p_error_status p)
    x (p_vars p) (p_vars_len p) (p_vars_cap p) (p_error p).
Definition set_vars (p : csnmp_pdu) (x : option (list csnmp_var)) (len cap : Z) : csnmp_pdu :=
  Pdu (p_addr p) (p_version p) (p_community p) (p_command p) (p_req_id p) (p_max_repeaters p) (p_max_repetitions p) (p_error_status p)
    (p_error_index p) x len cap (p_error p).
Definition set_error (p : csnmp_pdu) (x : asn1_error) : csnmp_pdu :=
  Pdu (p_addr p) (p_version p) (p_community p) (p_command p) (p_req_id p) (p_max_repeaters p) (p_max_repetitions p) (p_error_status p)
    (p_error_index p) (p_vars p) (p_vars_len p) (p_vars_cap p) x.
Definition set_addr (p : csnmp_pdu) (x : list Z) : csnmp_pdu :=
  Pdu x (p_version p) (p_community p) (p_command p) (p_req_id p) (p_max_repeaters p) (p_max_repetitions p) (p_error_status p)
    (p_error_index p) (p_vars p) (p_vars_len p) (p_vars_cap p) (p_error p).
Definition fail_pdu (p : csnmp_pdu) (pos : Z) (m : string) : csnmp_pdu := set_error p (asn1_set_error (p_error p) pos m).

(** The groups of types the [switch] statements distinguish. *)
Inductive kind := K_int | K_long | K_str | K_oid | K_null | K_zero | K_other.

Definition type_kind (t : Z) : kind :=
  if bool_decide (t ∈ [SNMP_TP_BOOL; SNMP_TP_INT; SNMP_TP_COUNTER; SNMP_TP_GAUGE]) then K_int
  else if bool_decide (t ∈ [SNMP_TP_COUNTER64; SNMP_TP_INT64; SNMP_TP_UINT64; SNMP_TP_TIMETICKS]) then K_long
  else if bool_decide (t ∈ [SNMP_TP_BIT_STR; SNMP_TP_OCT_STR; SNMP_TP_IP_ADDR]) then K_str
  else if t =? SNMP_TP_OID then K_oid
  else if bool_decide (t ∈ [SNMP_TP_NULL; SNMP_TP_NO_SUCH_OBJ; SNMP_TP_NO_SUCH_INSTANCE; SNMP_TP_END_OF_MIB_VIEW]) then K_null
  else if t =? 0 then K_zero else K_other.

(** ** Variables *)

(** [free] of an int; strings and identifiers are freed with what they hold. *)
Definition csnmp_free_var_value (v : csnmp_var) : res csnmp_var :=
  _ ← (match type_kind (var_type v), var_value v with
       | (K_int | K_long), _ => Ret tt
       | (K_str | K_other), V_str s => let _ := asn1_free_str s in Ret tt
       | K_oid, V_oid o => let _ := asn1_free_oid o in Ret tt
       | (K_zero | K_null), _ => Ret tt
       | _, _ => Halt BadAccess
       end);
  Ret (Var (var_oid v) 0 V_none (var_error v)).

Definition csnmp_free_var (v : csnmp_var) : res csnmp_var :=
  csnmp_free_var_value (Var (asn1_free_oid (var_oid v)) (var_type v) (var_value v) (var_error v)).

(** [for (i = 0; i < p->vars_len; i++) csnmp_free_var(&p->vars[i])] *)
Fixpoint free_loop (k : nat) (vars : option (list csnmp_var)) (i : Z) : res unit :=
  match k with
  | O => Ret tt
  | S k => v ← rd vars i; _ ← csnmp_free_var v; free_loop k vars (i + 1)
  end.

Definition csnmp_free_pdu_vars (p : csnmp_pdu) : res csnmp_pdu :=
  _ ← free_loop (Z.to_nat (p_vars_len p)) (p_vars p) 0; Ret (set_vars p None 0 0).

Definition csnmp_free_pdu (p : csnmp_pdu) : res csnmp_pdu :=
  csnmp_free_pdu_vars (set_community p (asn1_free_str (p_community p))).

Section model.
Variable junk : Z.
Variable can_alloc : Z -> bool.

(** [sizeof(csnmp_var_t)] *)
Definition sizeof_var : Z := 56.

(** The return code is -1 when there is no memory. *)
Definition _append_var (p : csnmp_pdu) (v : csnmp_var) : res (Z * csnmp_pdu) :=
  let grown :=
    if p_vars_len p =? p_vars_cap p then
      let cap := if p_vars_cap p =? 0 then 4 else if p_vars_cap p <? 100 then p_vars_cap p * 2 else i32 (p_vars_cap p + p_vars_cap p / 4) in
      if can_alloc (u64 (cap * sizeof_var)) then (0, set_vars p (Some (default [] (p_vars p))) (p_vars_len p) cap)
      else (-1, set_vars p None (p_vars_len p) cap)
    else (0, p) in
  let '(r, p) := grown in
  if negb (r =? 0) then Ret (-1, p)
  else
    vars ← of_opt BadAccess (p_vars p);
    if (0 <=? p_vars_len p) && (p_vars_len p <? p_vars_cap p)
    then Ret (0, set_vars p (Some (take (Z.to_nat (p_vars_len p)) vars ++ [v])) (p_vars_len p + 1) (p_vars_cap p))
    else Halt BadAccess.

Definition csnmp_add_var (p : csnmp_pdu) (oid : asn1_oid) (tp : Z) (val : csnmp_value) : res (Z * csnmp_pdu) :=
  _append_var p (Var oid tp val no_error).

(** "internal error" *)
Definition INTERNAL_ERROR : list Z := [105; 110; 116; 101; 114; 110; 97; 108; 32; 101; 114; 114; 111; 114].

(** [msg]: the characters of the text. *)
Definition csnmp_add_error (p : csnmp_pdu) (code : Z) (msg : option (list Z)) : res (Z * csnmp_pdu) :=
  if negb (p_error_status p =? 0) then Ret (-1, p)
  else
    let msg := default INTERNAL_ERROR msg in
    let p := set_error_index (set_error_status p code) (p_vars_len p) in
    let v := Var (Oid None 0) ASN1_OCT_STR (V_str (Str (Some (msg ++ [0])) (zlen msg))) no_error in
    '(r, p) ← _append_var p v;
    if r <? 0 then _ ← csnmp_free_var v; Ret (-1, p) else Ret (0, p).

Definition csnmp_set_error_index (p : csnmp_pdu) (code index : Z) : Z * csnmp_pdu :=
  if negb (p_error_status p =? 0) then (-1, p)
  else (0, set_error_index (set_error_status p code) index).

(** ** Decoding *)

Section decode.
Variable b : list Z.

(** The [switch]: the value, behind its tag. *)
Definition dec_value (i l : Z) (v : csnmp_var) : res (Z * Z * csnmp_var) :=
  match type_kind (var_type v) with
  | K_int => '(r, i, x) ← asn1_dec_int b i l junk; Ret (r, i, set_value v (V_int x))
  | K_long => '(r, i, x) ← asn1_dec_long b i l junk; Ret (r, i, set_value v (V_long x))
  | K_str | K_zero | K_other =>
      '(r, i, s) ← asn1_dec_string b i l (Some (Str None 0));
      Ret (r, i, set_value v (V_str (default (Str None 0) s)))
  | K_oid => '(r, i, o) ← asn1_dec_oid junk b i l (Oid None 0); Ret (r, i, set_value v (V_oid o))
  | K_null => '(r, i, _) ← asn1_dec_string b i l None; Ret (r, i, v)
  end.

Definition _dec_var (i l tp : Z) (v : csnmp_var) : res (Z * Z * csnmp_var) :=
  c ← rd (Some b) i;
  let i := i + 1 in
  if negb (schar c =? ASN1_OID) then Ret (-1, i, fail_var v i "expected oid")
  else
    '(r, i, oid) ← asn1_dec_oid junk b i l (var_oid v);
    let v := Var oid (var_type v) (var_value v) (var_error v) in
    if negb (r =? 0) then Ret (-1, i, fail_var v i "bad oid")
    else
      t ← rd (Some b) i;
      let i := i + 1 in
      let v := Var oid (schar t) (var_value v) (var_error v) in
      '(r, i, v) ← dec_value i l v;
      if negb (r =? 0) then Ret (-1, i, fail_var v i "bad var value") else Ret (0, i, v).

(** [while ( *i < l)]: an iteration that does not end the loop reads a byte at
    least. *)
Fixpoint vars_loop (fuel : nat) (i l : Z) (p : csnmp_pdu) : res (Z * Z * csnmp_pdu) :=
  if i <? l then
    match fuel with
    | O => Halt OutOfFuel
    | S fuel =>
        '(r, i, v) ← asn1_dec_sequence b _dec_var i l zero_var;
        if r <? 0 then
          let p := set_error p (var_error v) in
          _ ← csnmp_free_var v; Ret (-1, i, p)
        else
          '(r, p) ← _append_var p v;
          if negb (r =? 0) then
            let p := fail_pdu p i "alloc vars array" in
            _ ← csnmp_free_var v; Ret (-1, i, p)
          else vars_loop fuel i l p
    end
  else Ret (0, i, p).

Definition _dec_pdu3 (i l tp : Z) (p : csnmp_pdu) : res (Z * Z * csnmp_pdu) :=
  p ← csnmp_free_pdu_vars p;
  '(r, i, p) ← vars_loop (Z.to_nat (l - i)) i l p;
  if negb (r =? 0) then Ret (-1, i, p)
  else if negb (i =? l) then Ret (-1, i, fail_pdu p i "unexpected end of stream")
  else Ret (0, i, p).

(** One of the ints of the header: its tag, then its value. *)
Definition dec_int_field (get : csnmp_pdu -> Z) (set : csnmp_pdu -> Z -> csnmp_pdu) (expected bad : string) (i l : Z) (p : csnmp_pdu) :
    res (Z * Z * csnmp_pdu) :=
  c ← rd (Some b) i;
  let i := i + 1 in
  if negb (schar c =? ASN1_INT) then Ret (-1, i, fail_pdu p i expected)
  else
    '(r, i, x) ← asn1_dec_int b i l (get p);
    let p := set p x in
    if r <? 0 then Ret (-1, i, fail_pdu p i bad) else Ret (0, i, p).

Definition _dec_pdu2 (i l tp : Z) (p : csnmp_pdu) : res (Z * Z * csnmp_pdu) :=
  let p := set_command p tp in
  '(r, i, p) ← dec_int_field p_req_id set_req_id "request id expected" "bad request id" i l p;
  if r <? 0 then Ret (-1, i, p)
  else
    '(r, i, p) ←
      (if tp =? SNMP_CMD_GET_BULK then
         '(r, i, p) ← dec_int_field p_max_repeaters set_max_repeaters "max repeaters expected" "bad max repeaters" i l p;
         if r <? 0 then Ret (-1, i, p)
         else dec_int_field p_max_repetitions set_max_repetitions "max repetitions expected" "bad max repetitions" i l p
       else
         '(r, i, p) ← dec_int_field p_error_status set_error_status "error status expected" "bad error status" i l p;
         if r <? 0 then Ret (-1, i, p)
         else dec_int_field p_error_index set_error_index "error index expected" "bad error index" i l p);
    if r <? 0 then Ret (-1, i, p)
    else
      '(r, i, p) ← asn1_dec_sequence b _dec_pdu3 i l p;
      if r <? 0 then Ret (-1, i, fail_pdu p i "pdu2 seq") else Ret (0, i, p).

Definition _dec_pdu (i l tp : Z) (p : csnmp_pdu) : res (Z * Z * csnmp_pdu) :=
  if i >=? l then Ret (-1, i, fail_pdu p i "empty stream")
  else
    '(r, i, p) ← dec_int_field p_version set_version "version expected" "unsupported version" i l p;
    if r <? 0 then Ret (-1, i, p)
    else if i >=? l then Ret (-1, i, fail_pdu p i "unexpected end of stream")
    else
      c ← rd (Some b) i;
      let i := i + 1 in
      if negb (schar c =? ASN1_OCT_STR) then Ret (-1, i, fail_pdu p i "community expected")
      else
        '(r, i, s) ← asn1_dec_string b i l (Some (p_community p));
        let p := set_community p (default (p_community p) s) in
        if r <? 0 then Ret (-1, i, fail_pdu p i "bad community")
        else
          '(r, i, p) ← asn1_dec_sequence b _dec_pdu2 i l p;
          if r <? 0 then Ret (-1, i, fail_pdu p i "pdu1 seq") else Ret (0, i, p).

Definition snmp_dec_pdu (buf_len : Z) (p : csnmp_pdu) : res (Z * csnmp_pdu) :=
  '(r, i, p) ← asn1_dec_sequence b _dec_pdu 0 buf_len p;
  if r <? 0 then Ret (r, fail_pdu p i "pdu seq")
  else if i <? buf_len then Ret (-1, fail_pdu p i "unused data at the end of pdu")
  else if i >? buf_len then Ret (-1, fail_pdu p i "unexpected end of stream")
  else Ret (0, p).
End decode.

(** ** Encoding *)

Definition _enc_var (e : ebuf) (v : csnmp_var) : res (Z * ebuf * csnmp_var) :=
  '(r, e) ← asn1_enc_oid junk can_alloc e ASN1_OID (var_oid v);
  if negb (r =? 0) then Ret (-1, e, fail_var v (eb_i e) "encode var oid")
  else
    match type_kind (var_type v) with
    | K_zero | K_other => Ret (-1, e, fail_var v (eb_i e) "undefined var type")
    | _ =>
        '(r, e) ←
          (match type_kind (var_type v), var_value v with
           | K_int, V_int x => asn1_enc_int junk can_alloc e (var_type v) x
           | K_long, V_long x => asn1_enc_long junk can_alloc e (var_type v) x
           | K_str, V_str s => asn1_enc_string junk can_alloc e (var_type v) s
           | K_oid, V_oid o => asn1_enc_oid junk can_alloc e (var_type v) o
           | K_null, _ => asn1_enc_null junk can_alloc e (var_type v)
           | _, _ => Halt BadAccess
           end);
        if negb (r =? 0) then Ret (-1, e, fail_var v (eb_i e) "encode var value") else Ret (0, e, v)
    end.

(** [p->vars[j] = v] *)
Definition put_var (p : csnmp_pdu) (j : Z) (v : csnmp_var) : csnmp_pdu :=
  set_vars p ((fun vars => zset vars j v) <$> p_vars p) (p_vars_len p) (p_vars_cap p).

(** [for (j = 0; j < p->vars_len; j++)]: [k] iterations are left. *)
Fixpoint enc_loop (k : nat) (e : ebuf) (p : csnmp_pdu) (j : Z) : res (Z * ebuf * csnmp_pdu) :=
  match k with
  | O => Ret (0, e, p)
  | S k =>
      v ← rd (p_vars p) j;
      let v := Var (var_oid v) (var_type v) (var_value v) no_error in
      '(r, e, v) ← asn1_enc_sequence junk can_alloc _enc_var e (Z.lor ASN1_CONSTRUCTOR ASN1_SEQ) v;
      let p := put_var p j v in
      if negb (r =? 0) then Ret (-1, e, fail_pdu (set_error p (var_error v)) (eb_i e) "encode var sequence")
      else enc_loop k e p (j + 1)
  end.

Definition _enc_pdu3 (e : ebuf) (p : csnmp_pdu) : res (Z * ebuf * csnmp_pdu) :=
  enc_loop (Z.to_nat (p_vars_len p)) e p 0.

Definition enc_int_field (x : Z) (bad : string) (e : ebuf) (p : csnmp_pdu) : res (Z * ebuf * csnmp_pdu) :=
  '(r, e) ← asn1_enc_int junk can_alloc e ASN1_INT x;
  if negb (r =? 0) then Ret (-1, e, fail_pdu p (eb_i e) bad) else Ret (0, e, p).

Definition _enc_pdu2 (e : ebuf) (p : csnmp_pdu) : res (Z * ebuf * csnmp_pdu) :=
  '(r, e, p) ← enc_int_field (p_req_id p) "encode req id" e p;
  if negb (r =? 0) then Ret (-1, e, p)
  else
    '(r, e, p) ←
      (if p_command p =? SNMP_CMD_GET_BULK then
         '(r, e, p) ← enc_int_field (p_max_repeaters p) "encode max repeaters" e p;
         if negb (r =? 0) then Ret (-1, e, p)
         else enc_int_field (p_max_repetitions p) "encode max repetitions" e p
       else
         '(r, e, p) ← enc_int_field (p_error_status p) "encode error status" e p;
         if negb (r =? 0) then Ret (-1, e, p)
         else enc_int_field (p_error_index p) "encode error index" e p);
    if negb (r =? 0) then Ret (-1, e, p)
    else
      '(r, e, p) ← asn1_enc_sequence junk can_alloc _enc_pdu3 e (Z.lor ASN1_CONSTRUCTOR ASN1_SEQ) p;
      if r <? 0 then Ret (-1, e, fail_pdu p (eb_i e) "pdu2 seq") else Ret (0, e, p).

Definition _enc_pdu (e : ebuf) (p : csnmp_pdu) : res (Z * ebuf * csnmp_pdu) :=
  '(r, e, p) ← enc_int_field (p_version p) "encode version" e p;
  if negb (r =? 0) then Ret (-1, e, p)
  else
    '(r, e) ← asn1_enc_string junk can_alloc e ASN1_OCT_STR (p_community p);
    if r <? 0 then Ret (-1, e, fail_pdu p (eb_i e) "encode community")
    else
      '(r, e, p) ← asn1_enc_sequence junk can_alloc _enc_pdu2 e (p_command p) p;
      if r <? 0 then Ret (-1, e, fail_pdu p (eb_i e) "pdu1 seq") else Ret (0, e, p).

Definition snmp_enc_pdu (e : ebuf) (p : csnmp_pdu) : res (Z * ebuf * csnmp_pdu) :=
  '(r, e, p) ← asn1_enc_sequence junk can_alloc _enc_pdu e (Z.lor ASN1_CONSTRUCTOR ASN1_SEQ) p;
  if negb (r =? 0) then Ret (-1, e, fail_pdu p (eb_i e) "pdu seq") else Ret (0, e, p).

(** ** The socket *)

Definition PACKET_BUFFER : Z := 20 * 2 ^ 10.

(** [received]: the datagram that [recvfrom] stores, with its sender, or
    [None] when it fails; what does not fit the buffer is dropped by the
    socket. *)
Definition csnmp_recv_pdu (received : option (list Z * list Z)) (p : csnmp_pdu) : res (Z * csnmp_pdu) :=
  let p := set_error p no_error in
  if negb (can_alloc PACKET_BUFFER) then Ret (-1, fail_pdu p (-1) "alloc read buffer")
  else
    match received with
    | None => Ret (-1, fail_pdu (set_addr p []) (-1) "recvfrom")
    | Some (data, addr) =>
        let data := take (Z.to_nat PACKET_BUFFER) data in
        let buf := data ++ replicate (Z.to_nat PACKET_BUFFER - length data) junk in
        '(r, p) ← snmp_dec_pdu buf (zlen data) (set_addr p addr);
        if r <? 0 then Ret (-1, p) else Ret (zlen data, p)
    end.

(** [sendto]: what the system call returns for the packet.  The result has
    the packet that was sent. *)
Definition csnmp_send_pdu (sendto : list Z -> list Z -> Z) (p : csnmp_pdu) : res (Z * csnmp_pdu * option (list Z)) :=
  let p := set_error p no_error in
  if negb (can_alloc PACKET_BUFFER) then Ret (-1, fail_pdu p (-1) "alloc encode buffer", None)
  else
    '(r, e, p) ← snmp_enc_pdu (EBuf (Some (replicate (Z.to_nat PACKET_BUFFER) junk)) 0 PACKET_BUFFER) p;
    if negb (r =? 0) then Ret (-1, p, None)
    else
      buf ← of_opt BadAccess (eb_mem e);
      packet ← load_bytes buf 0 (eb_i e);
      let n := sendto packet (p_addr p) in
      if n <? 0 then Ret (n, fail_pdu p (-1) "sendto", Some packet) else Ret (n, p, Some packet).
End model.

Definition csnmp_command_str (c : Z) : res string :=
  let q := Z.land c 0xf in
  if (q <? 0) || (q >? SNMP_CMD_GET_BULK) then Ret "undefined"%string
  else rd (Some ["GET"; "GETNEXT"; "RESPONSE"; "SET"; "TRAP"; "GETBULK"]%string) q.

(** ** Messages

    What a packet says, without its representation in memory. *)

Inductive value := W_null | W_int (x : Z) | W_long (x : Z) | W_str (s : list Z) | W_oid (ids : list Z).

Record binding := Binding { bd_oid : list Z; bd_type : Z; bd_value : value }.

(** [m_x] and [m_y]: the repetitions of a GETBULK request, the error status
    and index of all others. *)
Record message := Message {
  m_version : Z; m_community : list Z; m_command : Z; m_req_id : Z; m_x : Z; m_y : Z; m_vars : list binding }.

Definition is_value (x : csnmp_value) (w : value) : Prop :=
  match x, w with
  | V_none, W_null => True
  | V_int x, W_int y | V_long x, W_long y => x = y
  | V_str s, W_str bs => is_str s bs
  | V_oid o, W_oid ids => is_oid o ids
  | _, _ => False
  end.

Definition is_var (v : csnmp_var) (d : binding) : Prop :=
  is_oid (var_oid v) (bd_oid d) /\ var_type v = bd_type d /\ is_value (var_value v) (bd_value d).

(** The array of the packet holds [vars]. *)
Definition has_vars (p : csnmp_pdu) (vars : list csnmp_var) : Prop :=
  p_vars_len p = zlen vars /\ (p_vars p = Some vars \/ p_vars p = None /\ vars = []).

Definition says (p : csnmp_pdu) (m : message) : Prop :=
  p_version p = m_version m /\ is_str (p_community p) (m_community m) /\ p_command p = m_command m /\ p_req_id p = m_req_id m /\
  (if m_command m =? SNMP_CMD_GET_BULK then p_max_repeaters p = m_x m /\ p_max_repetitions p = m_y m
   else p_error_status p = m_x m /\ p_error_index p = m_y m) /\
  exists vars, has_vars p vars /\ Forall2 is_var vars (m_vars m).

(** The bytes of a message. *)
Definition value_bytes (w : value) : list Z :=
  match w with
  | W_null => []
  | W_int x | W_long x => number_bytes x
  | W_str s => s
  | W_oid ids => oid_bytes ids
  end.

Definition binding_bytes (d : binding) : list Z :=
  tlv 0x30 (tlv ASN1_OID (oid_bytes (bd_oid d)) ++ tlv (bd_type d) (value_bytes (bd_value d))).

Definition request_bytes (m : message) : list Z :=
  tlv ASN1_INT (number_bytes (m_req_id m)) ++ tlv ASN1_INT (number_bytes (m_x m)) ++ tlv ASN1_INT (number_bytes (m_y m)) ++
  tlv 0x30 (flat_map binding_bytes (m_vars m)).

Definition message_bytes (m : message) : list Z :=
  tlv 0x30 (tlv ASN1_INT (number_bytes (m_version m)) ++ tlv ASN1_OCT_STR (m_community m) ++ tlv (m_command m) (request_bytes m)).

(** The messages that have an encoding. *)
Definition value_ok (t : Z) (w : value) : Prop :=
  match type_kind t, w with
  | K_int, W_int x => 0 <= x < 2 ^ 31
  | K_long, W_long x => 0 <= x < 2 ^ 63
  | K_str, W_str s => zlen s <= 5000
  | K_oid, W_oid ids => ids_ok ids /\ zlen ids <= 128
  | K_null, W_null => True
  | _, _ => False
  end.

Definition binding_ok (d : binding) : Prop :=
  ids_ok (bd_oid d) /\ zlen (bd_oid d) <= 128 /\ value_ok (bd_type d) (bd_value d).

Definition int_ok (x : Z) : Prop := 0 <= x < 2 ^ 31.

Definition message_ok (m : message) : Prop :=
  int_ok (m_version m) /\ zlen (m_community m) <= 5000 /\ is_byte (m_command m) /\ int_ok (m_req_id m) /\ int_ok (m_x m) /\ int_ok (m_y m) /\
  Forall binding_ok (m_vars m) /\ zlen (message_bytes m) <= MAX_PACKET.

Lemma value_ok_byte t w : value_ok t w -> is_byte t.
Proof.
  unfold value_ok, type_kind, is_byte. intros H.
  destruct (bool_decide (t ∈ _)) eqn:E1 in H; [apply bool_decide_eq_true in E1; set_unfold in E1; unfold SNMP_TP_BOOL, SNMP_TP_INT, SNMP_TP_COUNTER, SNMP_TP_GAUGE in E1; lia|].
  destruct (bool_decide (t ∈ _)) eqn:E2 in H; [apply bool_decide_eq_true in E2; set_unfold in E2; unfold SNMP_TP_COUNTER64, SNMP_TP_INT64, SNMP_TP_UINT64, SNMP_TP_TIMETICKS in E2; lia|].
  destruct (bool_decide (t ∈ _)) eqn:E3 in H; [apply bool_decide_eq_true in E3; set_unfold in E3; unfold SNMP_TP_BIT_STR, SNMP_TP_OCT_STR, SNMP_TP_IP_ADDR in E3; lia|].
  destruct (t =? SNMP_TP_OID) eqn:E4; [unbool; unfold SNMP_TP_OID in *; lia|].
  destruct (bool_decide (t ∈ _)) eqn:E5 in H; [apply bool_decide_eq_true in E5; set_unfold in E5; unfold SNMP_TP_NULL, SNMP_TP_NO_SUCH_OBJ, SNMP_TP_NO_SUCH_INSTANCE, SNMP_TP_END_OF_MIB_VIEW in E5; lia|].
  destruct (t =? 0), w; done.
Qed.

(** ** What is written *)

(** The lengths in the context and the goal are not negative. *)
Ltac nonneg_lens :=
  repeat match goal with
  | |- context [zlen ?l] => lazymatch goal with H : 0 <= zlen l |- _ => fail | _ => pose proof (zlen_nonneg l) end
  | _ : context [zlen ?l] |- _ => lazymatch goal with H : 0 <= zlen l |- _ => fail | _ => pose proof (zlen_nonneg l) end
  end.

Section encoding.
Variable junk : Z.
Variable can_alloc : Z -> bool.
Hypothesis alloc : forall n, can_alloc n = true.

(** An element of the packet, then the rest. *)
Lemma appends0_then {A} f s (g : Z -> ebuf -> res (Z * ebuf * A)) t (a a' : A) :
  appends0 f s -> appends (fun e _ => g 0 e) t a a' ->
  appends (fun e _ => '(r, e) ← f e; g r e) (s ++ t) a a'.
Proof.
  intros Hf Hg w r Hfit Hm. rewrite zlen_app in Hm. pose proof (zlen_nonneg t).
  destruct (Hf w r Hfit ltac:(lia)) as (r1 & Hfit1 & ->). cbn [mbind res_mbind].
  destruct (Hg (w ++ s) r1 Hfit1 ltac:(rewrite zlen_app; lia)) as (r2 & Hfit2 & Hg2). cbv beta in Hg2. rewrite Hg2.
  exists r2. by rewrite app_assoc.
Qed.

Lemma appends_then {A} f s (g : Z -> ebuf -> A -> res (Z * ebuf * A)) t (a a1 a2 : A) :
  appends f s a a1 -> appends (fun e a => g 0 e a) t a1 a2 ->
  appends (fun e a => '(r, e, a) ← f e a; g r e a) (s ++ t) a a2.
Proof.
  intros Hf Hg w r Hfit Hm. rewrite zlen_app in Hm. pose proof (zlen_nonneg t).
  destruct (Hf w r Hfit ltac:(lia)) as (r1 & Hfit1 & ->). cbn [mbind res_mbind].
  destruct (Hg (w ++ s) r1 Hfit1 ltac:(rewrite zlen_app; lia)) as (r2 & Hfit2 & Hg2). cbv beta in Hg2. rewrite Hg2.
  exists r2. by rewrite app_assoc.
Qed.

Lemma appends_done {A} (a a' : A) : appends (fun e _ => Ret (0, e, a')) [] a a'.
Proof. intros w r Hfit _. exists r. by rewrite app_nil_r. Qed.

(** The last element of a packet or variable. *)
Lemma appends0_last {A} f s (bad : Z -> ebuf -> res (Z * ebuf * A)) (a : A) : appends0 f s ->
  appends (fun e _ => '(r, e) ← f e; if negb (r =? 0) then bad r e else Ret (0, e, a)) s a a.
Proof. intros Hf. rewrite <- (app_nil_r s). refine (appends0_then _ _ (fun r e => if negb (r =? 0) then _ else _) _ _ _ Hf _). apply (appends_done a). Qed.

Lemma enc_int_field_appends x bad p : int_ok x -> appends (enc_int_field junk can_alloc x bad) (tlv ASN1_INT (number_bytes x)) p p.
Proof.
  intros Hx w r. refine (appends0_last _ _ (fun r e => _) p (enc_int_appends junk can_alloc alloc ASN1_INT x _ Hx) w r). done.
Qed.

Lemma enc_var_appends v d : is_var v d -> binding_ok d ->
  appends (_enc_var junk can_alloc) (tlv ASN1_OID (oid_bytes (bd_oid d)) ++ tlv (bd_type d) (value_bytes (bd_value d))) v v.
Proof.
  intros (Ho & Ht & Hv) (Hids & Hlen & Hval) w r Hfit Hm. pose proof (value_ok_byte _ _ Hval) as Hb. unfold _enc_var.
  refine (appends0_then _ _ (fun r e => if negb (r =? 0) then _ else _) _ v v (enc_oid_appends junk can_alloc alloc ASN1_OID _ _ _ Ho Hids Hlen) _ w r Hfit Hm); [done|].
  cbn [negb Z.eqb]. rewrite Ht. unfold value_ok in Hval.
  destruct (type_kind (bd_type d)), (bd_value d) as [|x|x|s|ids], (var_value v) as [|x'|x'|s'|o']; cbn [is_value] in Hv; try done; cbn [value_bytes]; try subst x'.
  - exact (appends0_last _ _ (fun _ _ => _) v (enc_int_appends junk can_alloc alloc _ x Hb Hval)).
  - exact (appends0_last _ _ (fun _ _ => _) v (enc_long_appends junk can_alloc alloc _ x Hb Hval)).
  - exact (appends0_last _ _ (fun _ _ => _) v (enc_string_appends junk can_alloc alloc _ _ s Hb Hv Hval)).
  - exact (appends0_last _ _ (fun _ _ => _) v (enc_oid_appends junk can_alloc alloc _ _ ids Hb Hv (proj1 Hval) (proj2 Hval))).
  - exact (appends0_last _ _ (fun _ _ => _) v (enc_null_appends junk can_alloc alloc _ Hb)).
Qed.

(** The error of a variable is reset when it is written. *)
Definition reset_error (v : csnmp_var) : csnmp_var := Var (var_oid v) (var_type v) (var_value v) no_error.

Lemma zset_middle {A} (pre : list A) x y r : zset (pre ++ x :: r) (zlen pre) y = pre ++ y :: r.
Proof.
  unfold zset. pose proof (zlen_nonneg pre). destruct (_ <? 0) eqn:E; unbool; [lia|].
  rewrite to_nat_zlen, insert_app_r_alt by lia. by rewrite Nat.sub_diag.
Qed.

Lemma enc_loop_appends pre todo ds p : Forall2 is_var todo ds -> Forall binding_ok ds -> p_vars p = Some (pre ++ todo) ->
  zlen (flat_map binding_bytes ds) <= MAX_PACKET ->
  appends (fun e p => enc_loop junk can_alloc (length todo) e p (zlen pre)) (flat_map binding_bytes ds)
    p (set_vars p (Some (pre ++ (reset_error <$> todo))) (p_vars_len p) (p_vars_cap p)).
Proof.
  intros Hv. revert pre p. induction Hv as [|v d todo ds Hvd Hv IH]; intros pre p Hok Hp Hm; cbn [length enc_loop flat_map fmap list_fmap].
  { intros w r Hfit _. exists r. rewrite !app_nil_r in *. rewrite <- Hp. by destruct p. }
  apply Forall_cons in Hok as [Hd Hok]. cbn [flat_map] in Hm. rewrite zlen_app in Hm.
  pose proof (zlen_nonneg (binding_bytes d)). pose proof (zlen_nonneg (flat_map binding_bytes ds)).
  intros w r Hfit Hmw. rewrite zlen_app in Hmw. rewrite Hp, rd_at by done. cbn [mbind res_mbind].
  assert (Hvd' : is_var (reset_error v) d) by done. fold (reset_error v).
  assert (Hseq : appends (fun e a => asn1_enc_sequence junk can_alloc (_enc_var junk can_alloc) e (Z.lor ASN1_CONSTRUCTOR ASN1_SEQ) a)
                   (binding_bytes d) (reset_error v) (reset_error v)).
  { apply enc_sequence_appends; [done|done|by apply enc_var_appends|]. unfold binding_bytes in *. rewrite zlen_tlv in *.
    pose proof (zlen_nonneg (len_bytes (zlen (tlv ASN1_OID (oid_bytes (bd_oid d)) ++ tlv (bd_type d) (value_bytes (bd_value d)))))). lia. }
  destruct (Hseq w r Hfit ltac:(lia)) as (r1 & Hfit1 & ->). cbn [mbind res_mbind negb Z.eqb].
  assert (Hput : put_var p (zlen pre) (reset_error v) = set_vars p (Some (pre ++ reset_error v :: todo)) (p_vars_len p) (p_vars_cap p)).
  { unfold put_var. rewrite Hp. cbn [fmap option_fmap option_map]. by rewrite zset_middle. }
  rewrite Hput. replace (zlen pre + 1) with (zlen (pre ++ [reset_error v])) by lens.
  destruct (IH (pre ++ [reset_error v]) (set_vars p (Some (pre ++ reset_error v :: todo)) (p_vars_len p) (p_vars_cap p)) Hok
    ltac:(cbn [set_vars p_vars]; by rewrite <- app_assoc) ltac:(lia) (w ++ binding_bytes d) r1 Hfit1 ltac:(rewrite zlen_app; lia)) as (r2 & Hfit2 & H2).
  cbv beta in H2. rewrite H2. exists r2. rewrite (app_assoc w). split; [done|]. unfold set_vars. cbn [p_addr p_version p_community p_command p_req_id p_max_repeaters p_max_repetitions p_error_status p_error_index p_vars_len p_vars_cap p_error]. by rewrite <- (app_assoc pre).
Qed.

Definition reset_errors (p : csnmp_pdu) : csnmp_pdu :=
  set_vars p ((fun vars : list csnmp_var => reset_error <$> vars) <$> p_vars p) (p_vars_len p) (p_vars_cap p).

Lemma tlv_longer t s : zlen s <= zlen (tlv t s).
Proof. rewrite zlen_tlv. pose proof (zlen_nonneg (len_bytes (zlen s))). lia. Qed.

Lemma enc_pdu3_appends p vars ds : has_vars p vars -> Forall2 is_var vars ds -> Forall binding_ok ds ->
  zlen (flat_map binding_bytes ds) <= MAX_PACKET ->
  appends (_enc_pdu3 junk can_alloc) (flat_map binding_bytes ds) p (reset_errors p).
Proof.
  intros (Hlen & Hp) Hv Hok Hm. destruct Hp as [Hp|[Hp ->]].
  - intros w r Hfit Hmw. pose proof (enc_loop_appends [] vars ds p Hv Hok Hp Hm w r Hfit Hmw) as (r1 & Hfit1 & H1). exists r1. split; [done|].
    unfold _enc_pdu3. rewrite Hlen, to_nat_zlen. change (zlen []) with 0 in H1. unfold reset_errors. rewrite Hp. cbn [fmap option_fmap option_map]. exact H1.
  - apply Forall2_nil_inv_l in Hv as ->. intros w r Hfit _. exists r. rewrite app_nil_r. split; [done|].
    unfold _enc_pdu3. rewrite Hlen. unfold reset_errors. rewrite Hp. cbn. do 2 f_equal. destruct p; cbn in *. by subst.
Qed.

(** [append H r F]: the next part of the packet is written; its size is part
    of that of the whole. *)
Ltac append H r F :=
  destruct H as (r & F & ->); [change (Z.lor ASN1_CONSTRUCTOR ASN1_SEQ) with 0x30; rewrite ?zlen_app; lia|]; cbn [mbind res_mbind negb Z.eqb Z.ltb Z.compare].

Lemma enc_pdu2_appends p m : says p m -> message_ok m ->
  appends (_enc_pdu2 junk can_alloc) (request_bytes m) p (reset_errors p).
Proof.
  intros (_ & _ & Hc & Hr & Hxy & vars & Hvars & Hv) (_ & _ & _ & Okr & Okx & Oky & Okv & Hm).
  assert (Hsz : zlen (flat_map binding_bytes (m_vars m)) <= MAX_PACKET).
  { pose proof (tlv_longer 0x30 (flat_map binding_bytes (m_vars m))). revert Hm. unfold message_bytes, request_bytes. rewrite zlen_tlv, !zlen_app.
    rewrite (zlen_tlv (m_command m)), !zlen_app. nonneg_lens. lia. }
  intros w r Hfit Hmw. unfold _enc_pdu2. unfold request_bytes in *. rewrite !zlen_app in Hmw. nonneg_lens.
  rewrite Hr. append (enc_int_field_appends (m_req_id m) "encode req id" p Okr w r Hfit) r1 Hfit1.
  rewrite Hc. destruct (m_command m =? SNMP_CMD_GET_BULK); destruct Hxy as [Hx Hy]; rewrite Hx.
  - append (enc_int_field_appends (m_x m) "encode max repeaters" p Okx _ r1 Hfit1) r2 Hfit2. rewrite Hy.
    append (enc_int_field_appends (m_y m) "encode max repetitions" p Oky _ r2 Hfit2) r3 Hfit3.
    append (enc_sequence_appends junk can_alloc alloc _ (Z.lor ASN1_CONSTRUCTOR ASN1_SEQ) p _ _ ltac:(done) (enc_pdu3_appends p vars _ Hvars Hv Okv Hsz) Hsz _ r3 Hfit3) r4 Hfit4.
    exists r4. by rewrite <- !app_assoc in *.
  - append (enc_int_field_appends (m_x m) "encode error status" p Okx _ r1 Hfit1) r2 Hfit2. rewrite Hy.
    append (enc_int_field_appends (m_y m) "encode error index" p Oky _ r2 Hfit2) r3 Hfit3.
    append (enc_sequence_appends junk can_alloc alloc _ (Z.lor ASN1_CONSTRUCTOR ASN1_SEQ) p _ _ ltac:(done) (enc_pdu3_appends p vars _ Hvars Hv Okv Hsz) Hsz _ r3 Hfit3) r4 Hfit4.
    exists r4. by rewrite <- !app_assoc in *.
Qed.

Lemma enc_pdu_appends p m : says p m -> message_ok m ->
  appends (fun e p => asn1_enc_sequence junk can_alloc (_enc_pdu junk can_alloc) e (Z.lor ASN1_CONSTRUCTOR ASN1_SEQ) p) (message_bytes m) p (reset_errors p).
Proof.
  intros Hp Hok. pose proof (enc_pdu2_appends p m Hp Hok) as H2. destruct Hp as (Hver & Hcom & Hc & _), Hok as (Okver & Okcom & Okc & _ & _ & _ & _ & Hm).
  unfold message_bytes in *. pose proof (tlv_longer (m_command m) (request_bytes m)). pose proof (tlv_longer 0x30
    (tlv ASN1_INT (number_bytes (m_version m)) ++ tlv ASN1_OCT_STR (m_community m) ++ tlv (m_command m) (request_bytes m))) as Ho.
  rewrite !zlen_app in Ho. nonneg_lens.
  apply enc_sequence_appends; [done|done| |rewrite !zlen_app; lia]. intros w r Hfit Hmw. rewrite !zlen_app in Hmw. unfold _enc_pdu. rewrite Hver.
  append (enc_int_field_appends (m_version m) "encode version" p Okver w r Hfit) r1 Hfit1.
  append (enc_string_appends junk can_alloc alloc ASN1_OCT_STR (p_community p) (m_community m) ltac:(done) Hcom Okcom _ r1 Hfit1) r2 Hfit2.
  rewrite Hc. append (enc_sequence_appends junk can_alloc alloc _ (m_command m) p _ _ Okc H2 ltac:(lia) _ r2 Hfit2) r3 Hfit3.
  exists r3. by rewrite <- !app_assoc in *.
Qed.

(** The start of the buffer of [csnmp_send_pdu]. *)
Lemma snmp_enc_pdu_ok p m : says p m -> message_ok m ->
  exists r, fits (message_bytes m) r /\
    snmp_enc_pdu junk can_alloc (EBuf (Some (replicate (Z.to_nat PACKET_BUFFER) junk)) 0 PACKET_BUFFER) p = Ret (0, eb (message_bytes m) r, reset_errors p).
Proof.
  intros Hp Hok. assert (Hm : zlen (message_bytes m) <= MAX_PACKET) by apply Hok.
  set (mem := replicate (Z.to_nat PACKET_BUFFER) junk).
  assert (Hz : zlen mem = PACKET_BUFFER) by (unfold mem; by rewrite zlen_replicate).
  assert (Hfit : fits [] mem) by (unfold fits, size_ok; rewrite zlen_nil, Hz; unfold PACKET_BUFFER; lia).
  destruct (enc_pdu_appends p m Hp Hok [] mem Hfit ltac:(rewrite zlen_nil; lia)) as (r & Hr & E). exists r. split; [done|].
  unfold snmp_enc_pdu. replace (EBuf (Some mem) 0 PACKET_BUFFER) with (eb [] mem) by (unfold eb; by rewrite Hz, zlen_nil). rewrite E. done.
Qed.
End encoding.

(** ** What is read

    Ints are read with the sign of their first byte.  Tags are read as signed
    bytes: those of the exceptions (no such object and instance, end of the
    MIB) become negative and the variables empty strings. *)

Definition wire_value (w : value) : value := match w with W_int x => W_int (wire_int x) | _ => w end.

Definition wire_binding (d : binding) : binding :=
  if bd_type d <? 128 then Binding (bd_oid d) (bd_type d) (wire_value (bd_value d))
  else Binding (bd_oid d) (bd_type d - 256) (W_str []).

Definition wire (m : message) : message :=
  Message (wire_int (m_version m)) (m_community m) (m_command m) (wire_int (m_req_id m)) (wire_int (m_x m)) (wire_int (m_y m))
    (wire_binding <$> m_vars m).

(** A variable whose value can be freed. *)
Definition freeable (v : csnmp_var) : Prop :=
  match type_kind (var_type v) with
  | K_str | K_other => exists s, var_value v = V_str s
  | K_oid => exists o, var_value v = V_oid o
  | _ => True
  end.

Definition owned (p : csnmp_pdu) : Prop := exists vars, has_vars p vars /\ Forall freeable vars.

(** The array of a packet, with its capacity. *)
Definition var_array (p : csnmp_pdu) (vars : list csnmp_var) : Prop :=
  p_vars_len p = zlen vars /\ zlen vars <= p_vars_cap p <= 2 * zlen vars + 4 /\
  (p_vars p = Some vars \/ p_vars p = None /\ vars = [] /\ p_vars_cap p = 0).

Lemma free_var_ok v : freeable v -> csnmp_free_var v = Ret (Var (Oid None 0) 0 V_none (var_error v)).
Proof.
  unfold freeable, csnmp_free_var, csnmp_free_var_value. cbn [var_type var_value var_oid var_error].
  destruct (type_kind (var_type v)); try done; by intros [? ->].
Qed.

Lemma free_vars_loop_ok pre vars : Forall freeable vars -> free_loop (length vars) (Some (pre ++ vars)) (zlen pre) = Ret tt.
Proof.
  intros Hf. revert pre. induction Hf as [|v vars Hv _ IH]; intros pre; cbn [length free_loop]; [done|].
  rewrite rd_at by done. cbn [mbind res_mbind]. rewrite free_var_ok by done. cbn [mbind res_mbind].
  replace (zlen pre + 1) with (zlen (pre ++ [v])) by lens. replace (pre ++ v :: vars) with ((pre ++ [v]) ++ vars) by (by rewrite <- app_assoc).
  apply IH.
Qed.

Lemma free_pdu_vars_ok p : owned p -> csnmp_free_pdu_vars p = Ret (set_vars p None 0 0).
Proof.
  intros (vars & (Hlen & Hp) & Hf). unfold csnmp_free_pdu_vars. rewrite Hlen, to_nat_zlen. destruct Hp as [->|[-> ->]]; [|done].
  pose proof (free_vars_loop_ok [] vars Hf) as H. change (zlen []) with 0 in H. cbn [app] in H. by rewrite H.
Qed.

Section decoding.
Variable junk : Z.
Variable can_alloc : Z -> bool.
Hypothesis alloc : forall n, can_alloc n = true.

Lemma append_var_ok p vars v : var_array p vars -> zlen vars < 2 ^ 30 ->
  exists cap, _append_var can_alloc p v = Ret (0, set_vars p (Some (vars ++ [v])) (zlen vars + 1) cap) /\ zlen vars < cap <= 2 * zlen vars + 6.
Proof.
  intros (Hlen & Hcap & Hp) Hb. pose proof (zlen_nonneg vars). unfold _append_var. rewrite Hlen, alloc.
  assert (Hdef : default [] (p_vars p) = vars) by (by destruct Hp as [->|[-> [-> _]]]). rewrite Hdef.
  destruct (zlen vars =? p_vars_cap p) eqn:E; unbool.
  - set (cap := if p_vars_cap p =? 0 then 4 else if p_vars_cap p <? 100 then p_vars_cap p * 2 else i32 (p_vars_cap p + p_vars_cap p / 4)).
    assert (Hc : zlen vars < cap <= 2 * zlen vars + 6).
    { unfold cap. destruct (p_vars_cap p =? 0) eqn:E0; unbool; [lia|]. destruct (p_vars_cap p <? 100) eqn:E1; unbool; [lia|].
      rewrite i32_small; Z.div_mod_to_equations; lia. }
    cbn [negb Z.eqb set_vars p_vars of_opt mbind res_mbind p_vars_len p_vars_cap]. exists cap. split; [|done].
    replace ((0 <=? zlen vars) && (zlen vars <? cap)) with true by (symmetry; rewrite andb_true_iff, Z.leb_le, Z.ltb_lt; lia).
    rewrite to_nat_zlen, take_ge by lia. done.
  - cbn [negb Z.eqb]. destruct Hp as [Hp|(_ & -> & Hc0)]; [|rewrite zlen_nil in *; lia]. rewrite Hp. cbn [of_opt mbind res_mbind].
    exists (p_vars_cap p). split; [|lia]. rewrite Hlen.
    replace ((0 <=? zlen vars) && (zlen vars <? p_vars_cap p)) with true by (symmetry; rewrite andb_true_iff, Z.leb_le, Z.ltb_lt; lia).
    rewrite to_nat_zlen, take_ge by lia. done.
Qed.

Lemma number_len_bytes x : 0 <= x < 2 ^ 63 -> zlen (len_bytes (zlen (number_bytes x))) = 1.
Proof.
  intros Hx. pose proof (size_of_bound x 8 ltac:(cbn; lia) ltac:(lia)). rewrite zlen_len_bytes, zlen_number.
  by destruct (_ <? 128) eqn:E; unbool; [|lia].
Qed.

Lemma dec_int_field_ok b get set m1 m2 i l x p : int_ok x -> at_pos b i (tlv ASN1_INT (number_bytes x)) ->
  i + zlen (tlv ASN1_INT (number_bytes x)) <= l < 2 ^ 31 ->
  dec_int_field b get set m1 m2 i l p = Ret (0, i + zlen (tlv ASN1_INT (number_bytes x)), set p (wire_int x)).
Proof.
  intros Hx Hat Hl. apply at_pos_cons in Hat as [Hrd Hat]. unfold int_ok in Hx. rewrite zlen_tlv, number_len_bytes in * by lia.
  unfold dec_int_field. rewrite Hrd. cbn [mbind res_mbind]. change (negb (schar ASN1_INT =? ASN1_INT)) with false. cbv iota.
  rewrite (dec_int_ok b (i + 1) l x) by (done || lia). cbn [mbind res_mbind Z.ltb Z.compare]. do 3 f_equal. lia.
Qed.

Lemma high_type t w : value_ok t w -> 128 <= t -> w = W_null /\ type_kind t = K_null /\ type_kind (t - 256) = K_other.
Proof.
  intros Hok Ht. pose proof (byte_cases (fun t => (t <? 128) || match type_kind t, type_kind (t - 256) with
    | K_null, K_other | K_zero, _ | K_other, _ => true | _, _ => false end) t ltac:(vm_compute; reflexivity) (value_ok_byte _ _ Hok)) as H. cbv beta in H.
  destruct (t <? 128) eqn:E; unbool; [lia|]. cbn [orb] in H. unfold value_ok in Hok.
  by destruct (type_kind t), (type_kind (t - 256)), w.
Qed.

Lemma str_read s : is_str (Str (Some (s ++ [0])) (zlen s)) s.
Proof. by exists [0]. Qed.

Lemma dec_value_ok b i l t w v : value_ok t w -> at_pos b i (len_bytes (zlen (value_bytes w)) ++ value_bytes w) ->
  i + zlen (len_bytes (zlen (value_bytes w)) ++ value_bytes w) <= l < 2 ^ 31 ->
  var_type v = schar t -> var_value v = V_none ->
  exists x, dec_value junk b i l v = Ret (0, i + zlen (len_bytes (zlen (value_bytes w)) ++ value_bytes w), set_value v x) /\
    is_value x (bd_value (wire_binding (Binding [] t w))).
Proof.
  intros Hok Hat Hl Hv Hnone. unfold dec_value, wire_binding. rewrite Hv. cbn [bd_type bd_value bd_oid].
  pose proof (value_ok_byte t w Hok) as Hb. unfold is_byte in Hb. destruct (t <? 128) eqn:E; unbool; cbn [bd_value].
  2:{ destruct (high_type t w Hok E) as (-> & _ & Hk). replace t with (t - 128 + 128) by lia. destruct (high_byte (t - 128) ltac:(lia)) as (-> & _).
      replace (t - 128 - 128) with (t - 256) by lia. rewrite Hk, (dec_string_ok b i l []) by done. cbn [mbind res_mbind fmap option_fmap option_map default].
      eexists. split; [done|]. apply str_read. }
  destruct (low_byte t ltac:(lia)) as (-> & _). unfold value_ok in Hok.
  destruct (type_kind t) eqn:Ek, w as [|x|x|s|ids]; try done; cbn [value_bytes wire_value] in *.
  - rewrite zlen_app, number_len_bytes in * by lia. rewrite (dec_int_ok b i l x) by (done || lia). cbn [mbind res_mbind].
    eexists. split; [do 3 f_equal; lia|]. done.
  - rewrite zlen_app, number_len_bytes in * by lia. rewrite (dec_long_ok b i l x) by (done || lia). cbn [mbind res_mbind].
    eexists. split; [do 3 f_equal; lia|]. done.
  - rewrite (dec_string_ok b i l s) by done. cbn [mbind res_mbind fmap option_fmap option_map default]. eexists. split; [done|]. apply str_read.
  - destruct (dec_oid_ok junk b i l ids (Oid None 0) (proj1 Hok) ltac:(lia) Hat Hl) as (o & -> & Ho). cbn [mbind res_mbind]. by eexists.
  - rewrite (dec_string_ok b i l []) by done. cbn [mbind res_mbind]. exists V_none. split; [|done]. unfold set_value. rewrite <- Hnone. by destruct v.
Qed.

Lemma dec_var_ok b i l tp d : binding_ok d ->
  let s := tlv ASN1_OID (oid_bytes (bd_oid d)) ++ tlv (bd_type d) (value_bytes (bd_value d)) in
  at_pos b i s -> i + zlen s <= l < 2 ^ 31 ->
  exists v, _dec_var junk b i l tp zero_var = Ret (0, i + zlen s, v) /\ is_var v (wire_binding d).
Proof.
  intros (Hids & Hlen & Hval) s Hat Hl. unfold s in *. clear s. apply at_pos_app in Hat as [Hat1 Hat2]. rewrite zlen_app in *.
  pose proof (at_pos_range _ _ _ Hat1) as Hi. pose proof (value_ok_byte _ _ Hval) as Hb.
  apply at_pos_cons in Hat1 as [Hrd Hat1]. unfold _dec_var. rewrite Hrd. cbn [mbind res_mbind].
  change (negb (schar ASN1_OID =? ASN1_OID)) with false. cbv iota. rewrite (zlen_tlv ASN1_OID) in *. nonneg_lens.
  destruct (dec_oid_ok junk b (i + 1) l (bd_oid d) (var_oid zero_var) Hids ltac:(lia) Hat1 ltac:(rewrite zlen_app; lia)) as (o & -> & Ho).
  cbn [mbind res_mbind negb Z.eqb]. rewrite zlen_app. set (i2 := i + 1 + (zlen (len_bytes (zlen (oid_bytes (bd_oid d)))) + zlen (oid_bytes (bd_oid d)))).
  replace (i + (1 + zlen (len_bytes (zlen (oid_bytes (bd_oid d)))) + zlen (oid_bytes (bd_oid d)))) with i2 in Hat2 by (unfold i2; lia).
  apply at_pos_cons in Hat2 as [Hrd2 Hat2]. rewrite Hrd2. cbn [mbind res_mbind]. rewrite (zlen_tlv (bd_type d)) in *.
  destruct (dec_value_ok b (i2 + 1) l (bd_type d) (bd_value d) (Var o (schar (bd_type d)) V_none no_error) Hval Hat2
    ltac:(rewrite zlen_app; unfold i2; lia) eq_refl eq_refl) as (x & Hx & Hw).
  cbn [var_type var_value zero_var var_error] in *. rewrite Hx. cbn [mbind res_mbind negb Z.eqb]. eexists. split.
  - do 3 f_equal. rewrite zlen_app. unfold i2. lia.
  - unfold wire_binding in *. cbn [bd_type bd_value] in Hw. unfold is_byte in Hb. destruct (bd_type d <? 128) eqn:E; unbool; split_and!; try done; cbn.
    + apply (low_byte (bd_type d)). lia.
    + replace (bd_type d) with (bd_type d - 128 + 128) by lia. destruct (high_byte (bd_type d - 128) ltac:(lia)) as (-> & _). lia.
Qed.

Lemma zlen_binding d : 2 <= zlen (binding_bytes d).
Proof. unfold binding_bytes. rewrite zlen_tlv, !zlen_app, !zlen_tlv. nonneg_lens. lia. Qed.

Lemma wire_freeable v d : binding_ok d -> is_var v (wire_binding d) -> freeable v.
Proof.
  intros (_ & _ & Hok) (_ & Ht & Hv). unfold freeable. rewrite Ht. clear Ht. unfold wire_binding in *. destruct (bd_type d <? 128) eqn:E; unbool; cbn [bd_type bd_value] in *.
  - unfold value_ok in Hok. destruct (type_kind (bd_type d)), (bd_value d); try done; destruct (var_value v); try done; eauto.
  - destruct (high_type _ _ Hok E) as (_ & _ & ->). destruct (var_value v); try done. eauto.
Qed.

Lemma wire_all_freeable vars ds : Forall binding_ok ds -> Forall2 is_var vars (wire_binding <$> ds) -> Forall freeable vars.
Proof.
  intros Hok. revert vars. induction Hok as [|d ds Hd _ IH]; intros vars Hf; cbn [fmap list_fmap] in Hf.
  - apply Forall2_nil_inv_r in Hf as ->. constructor.
  - apply Forall2_cons_inv_r in Hf as (v & vars' & Hv & Hf & ->). constructor; [by apply (wire_freeable v d)|by apply IH].
Qed.

Lemma vars_loop_ok b ds fuel i l p vars : Forall binding_ok ds -> at_pos b i (flat_map binding_bytes ds) ->
  l = i + zlen (flat_map binding_bytes ds) -> l <= MAX_PACKET -> (Z.to_nat (l - i) <= fuel)%nat ->
  var_array p vars -> zlen vars <= i ->
  exists vars' arr cap, vars_loop junk can_alloc b fuel i l p = Ret (0, l, set_vars p arr (zlen (vars ++ vars')) cap) /\
    (arr = Some (vars ++ vars') \/ arr = None /\ vars ++ vars' = []) /\ Forall2 is_var vars' (wire_binding <$> ds).
Proof.
  intros Hok. revert fuel i p vars. induction Hok as [|d ds Hd Hok IH]; intros fuel i p vars Hat Hl Hm Hfuel Harr Hi; cbn [flat_map fmap list_fmap] in *.
  { rewrite zlen_nil in Hl. exists [], (p_vars p), (p_vars_cap p). rewrite app_nil_r. destruct Harr as (Hlen & _ & Hp). split_and!; [|tauto|constructor].
    replace (vars_loop junk can_alloc b fuel i l p) with (Ret (0, i, p)) by (destruct fuel; cbn [vars_loop]; by destruct (i <? l) eqn:E; unbool; [lia|]).
    rewrite <- Hlen. replace l with i by lia. by destruct p. }
  rewrite zlen_app in Hl. pose proof (zlen_binding d). pose proof (zlen_nonneg (flat_map binding_bytes ds)). apply at_pos_app in Hat as [Hat1 Hat2].
  pose proof (at_pos_range _ _ _ Hat1) as [Hi0 _]. unfold MAX_PACKET in *.
  destruct fuel as [|fuel]; [lia|]. cbn [vars_loop]. destruct (i <? l) eqn:E; unbool; [|lia].
  destruct (dec_sequence_ok b (_dec_var junk b) i l 0x30 _ zero_var ltac:(done) Hat1 ltac:(fold (binding_bytes d); lia)) as [-> Hat3].
  set (s := tlv ASN1_OID (oid_bytes (bd_oid d)) ++ tlv (bd_type d) (value_bytes (bd_value d))) in *. cbv zeta.
  set (i' := i + 1 + zlen (len_bytes (zlen s))) in *.
  assert (Hz : i' + zlen s = i + zlen (binding_bytes d)) by (unfold binding_bytes; fold s; rewrite zlen_tlv; unfold i'; lia).
  destruct (dec_var_ok b i' (i' + zlen s) 0x30 d Hd Hat3 ltac:(fold s; lia)) as (v & Hv & Hvar). fold s in Hv. rewrite Hv. cbn [mbind res_mbind Z.ltb Z.compare].
  destruct (append_var_ok p vars v Harr ltac:(lia)) as (cap & -> & Hcap). cbn [mbind res_mbind negb Z.eqb]. rewrite Hz.
  edestruct (IH fuel (i + zlen (binding_bytes d)) (set_vars p (Some (vars ++ [v])) (zlen vars + 1) cap) (vars ++ [v])) as (vars' & arr & cap' & -> & Ha & Hf); try done; try lia.
  - unfold var_array. cbn [set_vars p_vars_len p_vars_cap p_vars]. rewrite zlen_app, zlen_cons, zlen_nil. split_and!; try lia. by left.
  - rewrite zlen_app, zlen_cons, zlen_nil. lia.
  - exists (v :: vars'), arr, cap'. replace (vars ++ v :: vars') with ((vars ++ [v]) ++ vars') by (by rewrite <- app_assoc). split_and!; try done. by constructor.
Qed.

Lemma dec_pdu3_ok b ds i l tp p : Forall binding_ok ds -> at_pos b i (flat_map binding_bytes ds) -> l = i + zlen (flat_map binding_bytes ds) ->
  l <= MAX_PACKET -> owned p ->
  exists vars arr cap, _dec_pdu3 junk can_alloc b i l tp p = Ret (0, l, set_vars p arr (zlen vars) cap) /\
    (arr = Some vars \/ arr = None /\ vars = []) /\ Forall2 is_var vars (wire_binding <$> ds).
Proof.
  intros Hok Hat Hl Hm Hp. pose proof (at_pos_range _ _ _ Hat) as [Hi _]. unfold _dec_pdu3. rewrite free_pdu_vars_ok by done. cbn [mbind res_mbind].
  destruct (vars_loop_ok b ds (Z.to_nat (l - i)) i l (set_vars p None 0 0) [] Hok Hat Hl Hm ltac:(done)) as (vars & arr & cap & -> & Ha & Hf).
  - unfold var_array. cbn. split_and!; try done. by right.
  - done.
  - cbn [mbind res_mbind negb Z.eqb app]. rewrite Z.eqb_refl. by exists vars, arr, cap.
Qed.

Lemma dec_pdu2_ok b i l p m : message_ok m -> at_pos b i (request_bytes m) -> l = i + zlen (request_bytes m) -> l <= MAX_PACKET -> owned p ->
  exists vars arr cap p', _dec_pdu2 junk can_alloc b i l (m_command m) p = Ret (0, l, set_vars p' arr (zlen vars) cap) /\
    (arr = Some vars \/ arr = None /\ vars = []) /\ Forall2 is_var vars (wire_binding <$> m_vars m) /\
    p' = (if m_command m =? SNMP_CMD_GET_BULK
          then set_max_repetitions (set_max_repeaters (set_req_id (set_command p (m_command m)) (wire_int (m_req_id m))) (wire_int (m_x m))) (wire_int (m_y m))
          else set_error_index (set_error_status (set_req_id (set_command p (m_command m)) (wire_int (m_req_id m))) (wire_int (m_x m))) (wire_int (m_y m))).
Proof.
  intros (_ & _ & _ & Okr & Okx & Oky & Okv & _) Hat Hl Hm Hp. unfold request_bytes in Hat.
  apply at_pos_app in Hat as [At1 Hat]. apply at_pos_app in Hat as [At2 Hat]. apply at_pos_app in Hat as [At3 At4].
  assert (Hl' := Hl). unfold request_bytes in Hl'. rewrite !zlen_app in Hl'. unfold MAX_PACKET in *. nonneg_lens. pose proof (at_pos_range _ _ _ At1) as [Hi _].
  unfold _dec_pdu2. rewrite (dec_int_field_ok b _ _ _ _ i l (m_req_id m)) by (done || lia). cbn [mbind res_mbind Z.ltb Z.compare].
  assert (Hseq : forall q, owned q -> exists vars arr cap, asn1_dec_sequence b (_dec_pdu3 junk can_alloc b)
      (i + zlen (tlv ASN1_INT (number_bytes (m_req_id m))) + zlen (tlv ASN1_INT (number_bytes (m_x m))) + zlen (tlv ASN1_INT (number_bytes (m_y m)))) l q =
      Ret (0, l, set_vars q arr (zlen vars) cap) /\ (arr = Some vars \/ arr = None /\ vars = []) /\ Forall2 is_var vars (wire_binding <$> m_vars m)).
  { intros q Hq. destruct (dec_sequence_ok b (_dec_pdu3 junk can_alloc b) _ l 0x30 _ q ltac:(done) At4 ltac:(lia)) as [-> At5]. cbv zeta.
    rewrite (zlen_tlv 0x30) in Hl'. replace (_ + 1 + _ + zlen (flat_map binding_bytes (m_vars m))) with l by lia.
    apply (dec_pdu3_ok b (m_vars m)); try done; unfold MAX_PACKET; lia. }
  destruct (m_command m =? SNMP_CMD_GET_BULK).
  all: rewrite (dec_int_field_ok b _ _ _ _ _ l (m_x m)) by (done || lia); cbn [mbind res_mbind Z.ltb Z.compare].
  all: rewrite (dec_int_field_ok b _ _ _ _ _ l (m_y m)) by (done || lia); cbn [mbind res_mbind Z.ltb Z.compare].
  all: edestruct Hseq as (vars & arr & cap & -> & Ha & Hf); [exact Hp|]; cbn [mbind res_mbind Z.ltb Z.compare].
  all: by eexists vars, arr, cap, _.
Qed.

(** A packet that holds a message, at the start of the buffer. *)
Lemma snmp_dec_pdu_ok b post p m : message_ok m -> b = message_bytes m ++ post -> owned p ->
  exists p', snmp_dec_pdu junk can_alloc b (zlen (message_bytes m)) p = Ret (0, p') /\ says p' (wire m) /\ owned p' /\ p_addr p' = p_addr p.
Proof.
  intros Hok -> Hp. destruct (Hok) as (Okver & Okcom & Okc & _ & _ & _ & Okv & Hm).
  set (b := message_bytes m ++ post). assert (Hat : at_pos b 0 (message_bytes m)) by (by exists [], post).
  unfold snmp_dec_pdu. set (n := zlen (message_bytes m)) in *. unfold MAX_PACKET in *.
  destruct (dec_sequence_ok b (_dec_pdu junk can_alloc b) 0 n 0x30 _ p ltac:(done) Hat ltac:(fold (message_bytes m) n; lia)) as [-> Hat1]. cbv zeta.
  set (s := tlv ASN1_INT (number_bytes (m_version m)) ++ tlv ASN1_OCT_STR (m_community m) ++ tlv (m_command m) (request_bytes m)) in *.
  assert (Hn : 0 + 1 + zlen (len_bytes (zlen s)) + zlen s = n) by (unfold n, message_bytes; rewrite zlen_tlv; done). rewrite Hn.
  set (i := 0 + 1 + zlen (len_bytes (zlen s))) in *. apply at_pos_app in Hat1 as [At1 Hat1]. apply at_pos_app in Hat1 as [At2 At3].
  assert (Hs : zlen s = zlen (tlv ASN1_INT (number_bytes (m_version m))) + (zlen (tlv ASN1_OCT_STR (m_community m)) + zlen (tlv (m_command m) (request_bytes m))))
    by (unfold s; by rewrite !zlen_app).
  assert (H1 : forall t x, 1 <= zlen (tlv t x)) by (intros; rewrite zlen_tlv; nonneg_lens; lia).
  pose proof (H1 ASN1_INT (number_bytes (m_version m))). pose proof (H1 ASN1_OCT_STR (m_community m)). pose proof (H1 (m_command m) (request_bytes m)).
  pose proof (at_pos_range _ _ _ At1) as [Hi _].
  unfold _dec_pdu. destruct (i >=? n) eqn:E; [rewrite Z.geb_leb in E; unbool; lia|].
  rewrite (dec_int_field_ok b _ _ _ _ i n (m_version m)) by (done || lia). cbn [mbind res_mbind Z.ltb Z.compare].
  set (i1 := i + zlen (tlv ASN1_INT (number_bytes (m_version m)))) in *.
  destruct (i1 >=? n) eqn:E1; [rewrite Z.geb_leb in E1; unbool; lia|]. apply at_pos_cons in At2 as [Hrd At2]. rewrite Hrd. cbn [mbind res_mbind].
  change (negb (schar ASN1_OCT_STR =? ASN1_OCT_STR)) with false. cbv iota.
  assert (Hcom : zlen (tlv ASN1_OCT_STR (m_community m)) = 1 + zlen (len_bytes (zlen (m_community m)) ++ m_community m)) by apply zlen_cons.
  rewrite (dec_string_ok b (i1 + 1) n (m_community m)) by (done || lia). cbn [mbind res_mbind fmap option_fmap option_map default Z.ltb Z.compare].
  replace (i1 + 1 + zlen (len_bytes (zlen (m_community m)) ++ m_community m)) with (i1 + zlen (tlv ASN1_OCT_STR (m_community m))) by lia.
  set (i2 := i1 + zlen (tlv ASN1_OCT_STR (m_community m))) in *. set (q := set_community _ _).
  destruct (dec_sequence_ok b (_dec_pdu2 junk can_alloc b) i2 n (m_command m) _ q Okc At3 ltac:(lia)) as [-> At4]. cbv zeta.
  set (i3 := i2 + 1 + zlen (len_bytes (zlen (request_bytes m)))) in *. pose proof (zlen_tlv (m_command m) (request_bytes m)).
  destruct (dec_pdu2_ok b i3 (i3 + zlen (request_bytes m)) q m Hok At4 eq_refl ltac:(unfold MAX_PACKET; lia) Hp) as (vars & arr & cap & p' & -> & Ha & Hf & Hp').
  cbn [mbind res_mbind Z.ltb Z.compare]. replace (i3 + zlen (request_bytes m)) with n by lia.
  rewrite Z.ltb_irrefl, Z.gtb_ltb, Z.ltb_irrefl. eexists. split; [done|].
  assert (Hvars : has_vars (set_vars p' arr (zlen vars) cap) vars) by (split; [done|]; cbn; done).
  pose proof (wire_all_freeable vars (m_vars m) Okv Hf) as Hfree.
  split; [|split; [by exists vars|]].
  - unfold says, wire. cbn [m_version m_community m_command m_req_id m_x m_y m_vars]. subst p' q. unfold set_vars.
    destruct (m_command m =? SNMP_CMD_GET_BULK); cbn; split_and!; try done; try apply str_read; by exists vars.
  - subst p' q. by destruct (m_command m =? SNMP_CMD_GET_BULK).
Qed.
End decoding.

(** ** Termination

    On any bytes, the decoders return at a position that is not before the one
    they started at, or read outside the packet. *)

Definition moves {A} (i : Z) (m : res (Z * Z * A)) : Prop :=
  match m with Ret (_, i', _) => i <= i' | Halt h => h = BadAccess end.

Definition only_bad {A} (m : res A) : Prop := match m with Ret _ => True | Halt h => h = BadAccess end.

Lemma rd_only_bad {A} (b : option (list A)) i : only_bad (rd b i).
Proof. unfold rd. destruct b as [b|]; [|done]. cbn. by destruct (zget b i). Qed.

Lemma load_only_bad b i n : only_bad (load_bytes b i n).
Proof. unfold load_bytes. by destruct (_ && _). Qed.

Lemma only_bad_bind {A B} (m : res A) (f : A -> res B) : only_bad m -> (forall a, only_bad (f a)) -> only_bad (m ≫= f).
Proof. destruct m; cbn; auto. Qed.

Lemma moves_bind {A B} i (m : res A) (f : A -> res (Z * Z * B)) : only_bad m -> (forall a, moves i (f a)) -> moves i (m ≫= f).
Proof. destruct m; cbn; auto. Qed.

Lemma moves_then {A B} i (m : res (Z * Z * A)) (f : Z * Z * A -> res (Z * Z * B)) :
  moves i m -> (forall r i' a, i <= i' -> moves i (f (r, i', a))) -> moves i (m ≫= f).
Proof. destruct m as [[[r i'] a]|h]; cbn; auto. Qed.

Lemma moves_weaken {A} i j (m : res (Z * Z * A)) : j <= i -> moves i m -> moves j m.
Proof. intros H. destruct m as [[[r i'] a]|h]; cbn; [lia|done]. Qed.

Definition moves2 {A} (i : Z) (m : res (A * Z)) : Prop :=
  match m with Ret (_, i') => i <= i' | Halt h => h = BadAccess end.

Lemma moves2_then {A B} i (m : res (A * Z)) (f : A * Z -> res (Z * Z * B)) :
  moves2 i m -> (forall n i', i <= i' -> moves i (f (n, i'))) -> moves i (m ≫= f).
Proof. destruct m as [[n i']|h]; cbn; auto. Qed.

Lemma be_loop_moves b trunc k i acc : moves2 i (be_loop b trunc k i acc).
Proof.
  revert i acc. induction k as [|k IH]; intros i acc; cbn [be_loop]; [cbn; lia|].
  pose proof (rd_only_bad (Some b) i) as H. destruct (rd (Some b) i) as [c|h]; [|done]. cbn [mbind res_mbind].
  specialize (IH (i + 1) (trunc (Z.lor (Z.shiftl acc 8) c))). unfold moves2 in *. destruct (be_loop b trunc k _ _) as [[v i']|h]; [lia|done].
Qed.

Lemma dec_length_moves b i l : moves2 i (asn1_dec_length b i l).
Proof.
  unfold asn1_dec_length. destruct (i >=? l); [cbn; lia|]. pose proof (rd_only_bad (Some b) i) as H.
  destruct (rd (Some b) i) as [c|h]; [|done]. cbn [mbind res_mbind]. destruct (negb _); [cbn; lia|]. destruct (_ >? l); [cbn; lia|].
  pose proof (be_loop_moves b i32 (Z.to_nat (Z.land (schar c) 15)) (i + 1) 0) as Hm. unfold moves2 in *.
  destruct (be_loop b i32 _ _ _) as [[v i']|h]; [lia|done].
Qed.

Lemma dec_int_moves b i l val : moves i (asn1_dec_int b i l val).
Proof.
  unfold asn1_dec_int. destruct (i >=? l); [cbn; lia|]. apply moves_bind; [apply rd_only_bad|]. intros c. cbv zeta.
  destruct (_ >? l); [cbn; lia|]. apply (moves_weaken (i + 1)); [lia|]. apply moves2_then; [|by cbn].
  unfold int_loop. destruct (Z.to_nat _) as [|k]; [cbn; lia|]. pose proof (rd_only_bad (Some b) (i + 1)) as H.
  destruct (rd (Some b) (i + 1)) as [d|h]; [|done]. cbn [mbind res_mbind].
  pose proof (be_loop_moves b i32 k (i + 1 + 1) (i32 (Z.lor (Z.shiftl 0 8) (schar d)))) as Hm. unfold moves2 in *.
  destruct (be_loop b i32 k _ _) as [[v i']|h]; [lia|done].
Qed.

Lemma dec_long_moves b i l val : moves i (asn1_dec_long b i l val).
Proof.
  unfold asn1_dec_long. destruct (i >=? l); [cbn; lia|]. apply moves_bind; [apply rd_only_bad|]. intros c. cbv zeta.
  destruct (_ >? l); [cbn; lia|]. apply (moves_weaken (i + 1)); [lia|]. apply moves2_then; [apply be_loop_moves|by cbn].
Qed.

Lemma dec_string_moves b i l val : moves i (asn1_dec_string b i l val).
Proof.
  apply moves2_then; [apply dec_length_moves|]. intros n i' Hi. destruct (n <? 0) eqn:E; unbool; [done|]. destruct (_ >? l); [done|].
  apply moves_bind; [destruct val; [|done]; apply only_bad_bind; [apply load_only_bad|done]|]. intros v. cbn. lia.
Qed.

Lemma put_int_only_bad a j x : only_bad (put_int a j x).
Proof. unfold put_int. by destruct (_ && _). Qed.

Lemma oid_loop_moves b k i buf ids len :
  match oid_loop b k i buf ids len with Ret (i', _, _) => i <= i' | Halt h => h = BadAccess end.
Proof.
  revert i buf ids len. induction k as [|k IH]; intros i buf ids len; [cbn; lia|]. rewrite oid_loop_S. pose proof (rd_only_bad (Some b) i) as H.
  destruct (rd (Some b) i) as [c|h]; [|done]. cbn [mbind res_mbind]. cbv zeta. destruct (_ =? 0).
  - pose proof (put_int_only_bad ids len (i32 (Z.lor (Z.shiftl buf 7) (Z.land (schar c) 0x7f)))) as Hp. destruct (put_int _ _ _) as [ids'|h]; [|done].
    cbn [mbind res_mbind]. specialize (IH (i + 1) 0 ids' (len + 1)). destruct (oid_loop b k _ _ _ _) as [[[i' a] n]|h]; [lia|done].
  - specialize (IH (i + 1) (i32 (Z.lor (Z.shiftl buf 7) (Z.land (schar c) 0x7f))) ids len). destruct (oid_loop b k _ _ _ _) as [[[i' a] n]|h]; [lia|done].
Qed.

Lemma dec_oid_moves junk b i l id : moves i (asn1_dec_oid junk b i l id).
Proof.
  apply moves2_then; [apply dec_length_moves|]. intros n i' Hi. destruct (n <? 0); [done|]. destruct (_ >? l); [done|]. destruct (n =? 0); [done|].
  apply moves_bind; [apply rd_only_bad|]. intros c. apply moves_bind; [apply put_int_only_bad|]. intros a1. apply moves_bind; [apply put_int_only_bad|]. intros a2.
  pose proof (oid_loop_moves b (Z.to_nat (n - 1)) (i' + 1) 0 a2 2) as H. destruct (oid_loop b _ _ _ _ _) as [[[i2 a] k]|h]; [cbn; lia|done].
Qed.

Lemma dec_sequence_moves {A} b (c : Z -> Z -> Z -> A -> res (Z * Z * A)) i l arg : (forall i l tp a, moves i (c i l tp a)) ->
  match asn1_dec_sequence b c i l arg with Ret (r, i', _) => i <= i' /\ (i < i' \/ r = -1) | Halt h => h = BadAccess end.
Proof.
  intros Hc. unfold asn1_dec_sequence. destruct (i >=? l); [lia|]. pose proof (rd_only_bad (Some b) i) as H.
  destruct (rd (Some b) i) as [t|h]; [|done]. cbn [mbind res_mbind]. pose proof (dec_length_moves b (i + 1) l) as Hm. unfold moves2 in Hm.
  destruct (asn1_dec_length b (i + 1) l) as [[rl i1]|h]; [|done]. cbn [mbind res_mbind]. destruct (rl <? 0); [lia|].
  specialize (Hc i1 (i32 (i1 + rl)) (Z.land (schar t) 255) arg). unfold moves in Hc. destruct (c _ _ _ _) as [[[r i'] a]|h]; [lia|done].
Qed.

Section termination.
Variable junk : Z.
Variable can_alloc : Z -> bool.
Variable b : list Z.

Lemma dec_value_moves i l v : moves i (dec_value junk b i l v).
Proof.
  unfold dec_value. destruct (type_kind (var_type v)).
  all: (apply moves_then; [first [apply dec_int_moves|apply dec_long_moves|apply dec_string_moves|apply dec_oid_moves]|by cbn]).
Qed.

Lemma dec_var_moves i l tp v : moves i (_dec_var junk b i l tp v).
Proof.
  apply moves_bind; [apply rd_only_bad|]. intros c. cbv zeta. apply (moves_weaken (i + 1)); [lia|]. destruct (negb _); [cbn; lia|].
  apply moves_then; [apply dec_oid_moves|]. intros r i1 o H1. cbv zeta. destruct (negb _); [done|].
  apply moves_bind; [apply rd_only_bad|]. intros t. apply (moves_weaken (i1 + 1)); [lia|]. apply moves_then; [apply dec_value_moves|].
  intros r2 i2 v2 H2. by destruct (negb _).
Qed.

Lemma free_var_only_bad v : only_bad (csnmp_free_var v).
Proof. unfold csnmp_free_var, csnmp_free_var_value. cbn [var_type var_value]. by destruct (type_kind (var_type v)), (var_value v). Qed.

Lemma append_var_only_bad p v : only_bad (_append_var can_alloc p v).
Proof.
  unfold _append_var. match goal with |- only_bad (let '(r, p) := ?g in _) => destruct g as [r q] end. destruct (negb _); [done|].
  destruct (p_vars q); [|done]. cbn [of_opt mbind res_mbind]. by destruct (_ && _).
Qed.

Lemma free_pdu_vars_only_bad p : only_bad (csnmp_free_pdu_vars p).
Proof.
  unfold csnmp_free_pdu_vars. apply only_bad_bind; [|done]. generalize (Z.to_nat (p_vars_len p)) as k, 0 as i.
  intros k. induction k as [|k IH]; intros i; cbn [free_loop]; [done|]. apply only_bad_bind; [apply rd_only_bad|]. intros v.
  apply only_bad_bind; [apply free_var_only_bad|]. intros _. apply IH.
Qed.

Lemma vars_loop_moves fuel i l p : (Z.to_nat (l - i) <= fuel)%nat -> moves i (vars_loop junk can_alloc b fuel i l p).
Proof.
  revert i p. induction fuel as [|fuel IH]; intros i p Hf; cbn [vars_loop]; (destruct (i <? l) eqn:E; unbool; [|cbn; lia]); [lia|].
  pose proof (dec_sequence_moves b (_dec_var junk b) i l zero_var dec_var_moves) as Hs.
  destruct (asn1_dec_sequence b (_dec_var junk b) i l zero_var) as [[[r i1] v]|h]; [|done]. destruct Hs as [Hi1 Hr]. cbn [mbind res_mbind].
  destruct (r <? 0) eqn:Er; unbool.
  - cbv zeta. apply moves_bind; [apply free_var_only_bad|]. done.
  - assert (i < i1) by lia. apply moves_bind; [apply append_var_only_bad|]. intros [r2 p2]. destruct (negb _).
    + cbv zeta. apply moves_bind; [apply free_var_only_bad|]. done.
    + apply (moves_weaken i1); [lia|]. apply IH. lia.
Qed.

Lemma dec_pdu3_moves i l tp p : moves i (_dec_pdu3 junk can_alloc b i l tp p).
Proof.
  apply moves_bind; [apply free_pdu_vars_only_bad|]. intros q. apply moves_then; [by apply vars_loop_moves|]. intros r i' p' Hi.
  destruct (negb _); [done|]. by destruct (negb _).
Qed.

Lemma dec_int_field_moves get set m1 m2 i l p : moves i (dec_int_field b get set m1 m2 i l p).
Proof.
  apply moves_bind; [apply rd_only_bad|]. intros c. cbv zeta. apply (moves_weaken (i + 1)); [lia|]. destruct (negb _); [cbn; lia|].
  apply moves_then; [apply dec_int_moves|]. intros r i' x Hi. cbv zeta. by destruct (r <? 0).
Qed.

Lemma dec_nested_moves {A} (c : Z -> Z -> Z -> A -> res (Z * Z * A)) (bad : A -> Z -> A) i l a : (forall i l tp a, moves i (c i l tp a)) ->
  moves i ('(r, i, a) ← asn1_dec_sequence b c i l a; if r <? 0 then Ret (-1, i, bad a i) else Ret (0, i, a)).
Proof.
  intros Hc. pose proof (dec_sequence_moves b c i l a Hc) as Hs. destruct (asn1_dec_sequence b c i l a) as [[[r i1] v]|h]; [|done].
  cbn [mbind res_mbind]. by destruct (r <? 0), Hs.
Qed.

Lemma dec_pdu2_moves i l tp p : moves i (_dec_pdu2 junk can_alloc b i l tp p).
Proof.
  apply moves_then; [apply dec_int_field_moves|]. intros r1 i1 p1 H1. destruct (r1 <? 0); [done|]. apply (moves_weaken i1); [done|]. apply moves_then.
  - destruct (tp =? SNMP_CMD_GET_BULK); (apply moves_then; [apply dec_int_field_moves|]; intros r2 i2 p2 H2; destruct (r2 <? 0); [done|];
      apply (moves_weaken i2); [done|]; apply dec_int_field_moves).
  - intros r3 i3 p3 H3. destruct (r3 <? 0); [done|]. apply (moves_weaken i3); [done|].
    exact (dec_nested_moves (_dec_pdu3 junk can_alloc b) (fun p i => fail_pdu p i "pdu2 seq") i3 l p3 dec_pdu3_moves).
Qed.

Lemma dec_pdu_moves i l tp p : moves i (_dec_pdu junk can_alloc b i l tp p).
Proof.
  unfold _dec_pdu. destruct (i >=? l); [cbn; lia|]. apply moves_then; [apply dec_int_field_moves|]. intros r1 i1 p1 H1. destruct (r1 <? 0); [done|].
  destruct (i1 >=? l); [done|]. apply (moves_weaken i1); [done|]. apply moves_bind; [apply rd_only_bad|]. intros c. cbv zeta.
  apply (moves_weaken (i1 + 1)); [lia|]. destruct (negb _); [cbn; lia|]. apply moves_then; [apply dec_string_moves|]. intros r2 i2 s H2. cbv zeta.
  destruct (r2 <? 0); [done|]. apply (moves_weaken i2); [done|].
  exact (dec_nested_moves (_dec_pdu2 junk can_alloc b) (fun p i => fail_pdu p i "pdu1 seq") i2 l _ dec_pdu2_moves).
Qed.
End termination.

(** ** Theorems *)

Lemma reset_errors_says p m : says p m -> says (reset_errors p) m.
Proof.
  intros (H1 & H2 & H3 & H4 & H5 & vars & [Hlen Hp] & Hf). unfold says, reset_errors, has_vars. cbn. split_and!; try done.
  exists (reset_error <$> vars). split.
  - split; [unfold zlen in *; by rewrite length_fmap|]. destruct Hp as [->|[-> ->]]; [by left|by right].
  - apply Forall2_fmap_l. eapply Forall2_impl; [done|]. by intros v d Hv.
Qed.

Lemma send_pdu_ok junk can_alloc sendto p m : (forall n, can_alloc n = true) -> says p m -> message_ok m ->
  exists p', says p' m /\ p_addr p' = p_addr p /\
    csnmp_send_pdu junk can_alloc sendto p = Ret (sendto (message_bytes m) (p_addr p), p', Some (message_bytes m)).
Proof.
  intros Ha Hp Hok. assert (Hp0 : says (set_error p no_error) m) by done.
  destruct (snmp_enc_pdu_ok junk can_alloc Ha _ m Hp0 Hok) as (r & _ & E). unfold csnmp_send_pdu. rewrite Ha. cbn [negb]. rewrite E.
  cbn [mbind res_mbind negb Z.eqb eb eb_mem eb_i of_opt]. pose proof (load_ok [] (message_bytes m) r 0 (zlen (message_bytes m)) eq_refl eq_refl) as Hload.
  cbn [app] in Hload. rewrite Hload. cbn [mbind res_mbind]. pose proof (reset_errors_says _ _ Hp0) as Hs. cbn [reset_errors set_vars set_error p_addr].
  destruct (_ <? 0); (eexists; split; [|split; [|done]]; [exact Hs|done]).
Qed.

Lemma recv_pdu_ok junk can_alloc addr p m : (forall n, can_alloc n = true) -> owned p -> message_ok m -> zlen (message_bytes m) <= PACKET_BUFFER ->
  exists p', csnmp_recv_pdu junk can_alloc (Some (message_bytes m, addr)) p = Ret (zlen (message_bytes m), p') /\
    says p' (wire m) /\ owned p' /\ p_addr p' = addr.
Proof.
  intros Ha Hp Hok Hlen. unfold csnmp_recv_pdu. rewrite Ha. cbn [negb].
  rewrite take_ge by (unfold zlen in Hlen; lia).
  edestruct (snmp_dec_pdu_ok junk can_alloc Ha) as (p' & -> & H); [exact Hok|reflexivity| |].
  2: by exists p'.
  exact Hp.
Qed.

(** The messages that are read as they were written. *)
Definition plain (m : message) : Prop :=
  wire_int (m_version m) = m_version m /\ wire_int (m_req_id m) = m_req_id m /\ wire_int (m_x m) = m_x m /\ wire_int (m_y m) = m_y m /\
  Forall (fun d => bd_type d < 128 /\ match bd_value d with W_int x => wire_int x = x | _ => True end) (m_vars m).

Lemma plain_wire m : plain m -> wire m = m.
Proof.
  intros (H1 & H2 & H3 & H4 & H5). unfold wire. rewrite H1, H2, H3, H4. destruct m as [v c cmd r x y vars]. cbn in *. f_equal. clear - H5.
  induction H5 as [|[o t w] vars [Ht Hw] _ IH]; [done|]. cbn [fmap list_fmap]. rewrite IH. f_equal. unfold wire_binding. cbn in *.
  destruct (t <? 128) eqn:E; unbool; [|lia]. destruct w; try done. cbn. by rewrite Hw.
Qed.

(** C32: [csnmp_send_pdu] sends exactly the encoding of the message its packet
    holds: [message_bytes] is the nested type-length-value encoding.  The
    message is one with an encoding ([message_ok]): ints are not negative and
    below 2^31, 64-bit numbers below 2^63, the community and the strings have
    at most 5000 bytes, identifiers 2 to 128 components, the first at most 2,
    the second below 40 and the others below 2^31, each value is of the kind of
    its type, and the encoding has at most 2^30 bytes.  When allocation
    succeeds, no write is outside the buffer, which starts with 20480 bytes and
    grows while the variables are appended. *)
Theorem snmp_send_correct junk can_alloc sendto p m :
  (forall n, can_alloc n = true) -> says p m -> message_ok m ->
  exists p', says p' m /\
    csnmp_send_pdu junk can_alloc sendto p = Ret (sendto (message_bytes m) (p_addr p), p', Some (message_bytes m)).
Proof. intros Ha Hp Hm. destruct (send_pdu_ok junk can_alloc sendto p m Ha Hp Hm) as (p' & Hs & _ & He). by exists p'. Qed.

(** C31: A packet that was sent for a message with an encoding ([message_ok]: ints
    not negative, strings of at most 5000 bytes, identifiers of at most 128
    components), of at most 20480 bytes, is read back by [csnmp_recv_pdu] when
    allocation succeeds: the packet received holds [wire m], the message with its ints read as signed numbers
    and its exceptions as empty strings of a negative type, and this is the
    message itself when it is [plain].  The buffers and arrays of the packet
    are valid and can be freed. *)
Theorem snmp_packet_roundtrip junk can_alloc sendto addr p q m :
  (forall n, can_alloc n = true) -> says p m -> message_ok m -> zlen (message_bytes m) <= PACKET_BUFFER -> owned q ->
  exists p' packet q' q'', csnmp_send_pdu junk can_alloc sendto p = Ret (sendto packet (p_addr p), p', Some packet) /\
    csnmp_recv_pdu junk can_alloc (Some (packet, addr)) q = Ret (zlen packet, q') /\
    says q' (wire m) /\ (plain m -> says q' m) /\ csnmp_free_pdu q' = Ret q'' /\ owned q''.
Proof.
  intros Ha Hp Hok Hlen Hq. destruct (send_pdu_ok junk can_alloc sendto p m Ha Hp Hok) as (p' & _ & _ & Hs).
  destruct (recv_pdu_ok junk can_alloc addr q m Ha Hq Hok Hlen) as (q' & Hr & Hw & Ho & _).
  assert (Hfree : csnmp_free_pdu q' = Ret (set_vars (set_community q' (asn1_free_str (p_community q'))) None 0 0)) by (by apply free_pdu_vars_ok).
  exists p', (message_bytes m), q'. eexists. split_and!; [exact Hs|exact Hr|exact Hw| |exact Hfree|].
  - intros Hpl. by rewrite <- (plain_wire m Hpl).
  - exists []. split; [|constructor]. split; [done|by right].
Qed.

(** The decoder ends on every packet: it returns 0 or an error, or it reads
    outside the packet; the iterations given to the loop over the variables
    are enough. *)
Theorem snmp_dec_pdu_ends junk can_alloc b buf_len p :
  (exists r p', snmp_dec_pdu junk can_alloc b buf_len p = Ret (r, p')) \/ snmp_dec_pdu junk can_alloc b buf_len p = Halt BadAccess.
Proof.
  unfold snmp_dec_pdu. pose proof (dec_sequence_moves b (_dec_pdu junk can_alloc b) 0 buf_len p (dec_pdu_moves junk can_alloc b)) as H.
  destruct (asn1_dec_sequence b _ 0 buf_len p) as [[[r i] q]|h]; [|by right; cbn; rewrite H]. left. cbn [mbind res_mbind].
  destruct (r <? 0); [by eauto|]. destruct (i <? buf_len); [by eauto|]. destruct (i >? buf_len); eauto.
Qed.

(** A GET request for 1.3.6.1.2.1.1.3.0, as the poller sends it. *)
Definition sample_pdu : csnmp_pdu :=
  Pdu [192; 168; 0; 1] SNMP_VERSION_2c (Str (Some [112; 117; 98; 108; 105; 99; 0]) 6) SNMP_CMD_GET 4660 0 0 0 0
    (Some [Var (Oid (Some [1; 3; 6; 1; 2; 1; 1; 3; 0]) 9) SNMP_TP_NULL V_none no_error]) 1 4 no_error.
Definition sample_message : message :=
  Message 1 [112; 117; 98; 108; 105; 99] SNMP_CMD_GET 4660 0 0 [Binding [1; 3; 6; 1; 2; 1; 1; 3; 0] SNMP_TP_NULL W_null].

Lemma sample_says : says sample_pdu sample_message.
Proof.
  split_and!; try reflexivity; [by exists [0]| |].
  - split; reflexivity.
  - eexists. split; [split; [|by left]; reflexivity|]. constructor; [|constructor]. split_and!; try done. by exists [].
Qed.

Lemma sample_ok : message_ok sample_message.
Proof.
  unfold message_ok, int_ok, is_byte. cbn [m_version m_community m_command m_req_id m_x m_y m_vars sample_message]. split_and!; try done; try lia.
  constructor; [|constructor]. split_and!; [|done|done]. cbn. split_and!; try lia. repeat constructor; lia.
Qed.

Lemma snmp_send_witness : exists p', csnmp_send_pdu 0 (fun _ => true) (fun b _ => zlen b) sample_pdu =
  Ret (zlen (message_bytes sample_message), p', Some (message_bytes sample_message)).
Proof.
  destruct (snmp_send_correct 0 (fun _ => true) (fun b _ => zlen b) sample_pdu sample_message (fun _ => eq_refl) sample_says sample_ok) as (p' & _ & H).
  exists p'. exact H.
Defined.

Lemma snmp_roundtrip_witness : exists packet q', csnmp_recv_pdu 0 (fun _ => true) (Some (packet, [10; 0; 0; 1])) zero_pdu = Ret (zlen packet, q') /\ says q' sample_message.
Proof.
  destruct (snmp_packet_roundtrip 0 (fun _ => true) (fun b _ => zlen b) [10; 0; 0; 1] sample_pdu zero_pdu sample_message (fun _ => eq_refl)
    sample_says sample_ok) as (p' & packet & q' & q'' & _ & Hr & _ & Hpl & _).
  - vm_compute. discriminate.
  - exists []. split; [split; [reflexivity|right; split; reflexivity]|constructor].
  - exists packet, q'. split; [exact Hr|]. apply Hpl. repeat split; try reflexivity. repeat constructor.
Defined.

Example sample_packet : message_bytes sample_message =
  [0x30; 39; 2; 1; 1; 4; 6; 112; 117; 98; 108; 105; 99; 0xa0; 26; 2; 2; 0x12; 0x34; 2; 1; 0; 2; 1; 0; 0x30; 14; 0x30; 12; 6; 8; 43; 6; 1; 2; 1; 1; 3; 0; 5; 0].
Proof. reflexivity. Qed.

(** A sequence may declare more bytes than there are: the version is not
    there, and the byte behind the memory of the packet is read. *)
Example sequence_not_limited : snmp_dec_pdu 0 (fun _ => true) [0x30; 5] 2 zero_pdu = Halt BadAccess.
Proof. vm_compute. reflexivity. Qed.

(** The limit of [csnmp_command_str] is a whole tag, its index the low four
    bits of one. *)
Example command_str_overread : csnmp_command_str 0xa7 = Halt BadAccess.
Proof. reflexivity. Qed.
