(* ===== verification/SnmpPoll.v ===== *)
(** * Polling SNMP items (src/zabbix_server/glb_poller/snmp.c, snmp_get.c, snmp_walk.c, snmp_util.c)

    An item is asked for with a GET request, or walked with GETNEXT requests
    when it is a discovery rule.  A request has a session, whose id is the
    request id, and a timer; the callbacks below run when an answer comes or
    the timer expires.

    The state [world] has the session table, the items of the poller and a
    log of what leaves the poller: packets, values and errors for
    preprocessing, and the results for the interface.  [now] is the time of
    the callback.  Net-SNMP ([snmp_parse_oid], [snprint_objid], [snprint_value],
    the hints of the MIB tree) is a parameter, and so are [sendto], the socket
    address for a text and the key of a discovery rule split into its
    parameters.  Strings are lists of characters without the terminator. *)
From stdpp Require Import prelude list gmap strings.
From Stdlib Require Import ZArith Lia.
From S2P Require Import Prelude SessionTable JsonText JsonParser JsonBuild Asn1 Csnmp.
#[local] Open Scope Z_scope.

Definition NOTSUPPORTED : Z := -2.
Definition MAX_OID_LEN : Z := 128.
Definition MAX_BUFFER_LEN : Z := 65536.
Definition MAX_STRING_LEN : Z := 2048.
Definition SNMP_MAX_RETRIES : Z := 2.
Definition MAX_ITEM_SNMP_GET_FREQUENCY : Z := 15.
Definition SNMP_WALK_MAX_OIDS : Z := 100000.
Definition POLL_STARTED_OK : Z := 1.
Definition POLL_STARTED_FAIL : Z := 2.
Definition POLL_NEED_DELAY : Z := 3.
Definition POLLER_MAX_SESSIONS : Z := 8 * 1024.
Definition POLLER_MAX_SESSIONS_DELAY : Z := 10000.
Definition POLLER_NOT_IN_QUEUE_DELAY : Z := 60 * 1000.
Definition POLLER_NEW_ITEM_DELAY_TIME : Z := 10.
Definition ITEMS_REINIT_INTERVAL : Z := 300.
Definition CONFIG_REPOLL_DELAY : Z := 10.
Definition ZBX_IF_SNMP_VERSION_1 : Z := 1.
Definition ZBX_IF_SNMP_VERSION_2 : Z := 2.

Definition bytes (s : string) : list Z := (fun c => Z.of_N (Ascii.N_of_ascii c)) <$> String.list_ascii_of_string s.

(** ** Values (snmp_util.c) *)

(** [R_double]: the double of an int. *)
Inductive agent_result := R_uint64 (v : Z) | R_double (v : Z) | R_text (s : list Z) | R_str (s : list Z) | R_msg (s : string).

(** The loop copies [k] more components into the array. *)
Fixpoint copy_loop (k : nat) (c_oid : asn1_oid) (n_oid : list Z) (i : Z) : res (list Z) :=
  match k with
  | O => Ret n_oid
  | S k => x ← rd (oid_b c_oid) i; n_oid ← put_int n_oid i x; copy_loop k c_oid n_oid (i + 1)
  end.

Definition csnmp_oid_2_netsnmp (c_oid : asn1_oid) (n_oid : list Z) : res (list Z) :=
  copy_loop (Z.to_nat (oid_len c_oid)) c_oid n_oid 0.

Definition hex_digit (n : Z) : string :=
  default EmptyString (["0"; "1"; "2"; "3"; "4"; "5"; "6"; "7"; "8"; "9"; "A"; "B"; "C"; "D"; "E"; "F"]%string !! Z.to_nat n).

Definition snmp_err_to_text (type : Z) : string :=
  let type := u8 type in
  if type =? SNMP_TP_NO_SUCH_INSTANCE then "No Such Object available on this agent at this OID"
  else if type =? SNMP_TP_NO_SUCH_OBJ then "No Such Instance currently exists at this OID"
  else if type =? SNMP_TP_END_OF_MIB_VIEW then "No more variables left in this MIB View (it is past the end of the MIB tree)"
  else String.append "Value has unknown type 0x" (String.append (hex_digit (type / 16)) (hex_digit (type mod 16))).

(** [strncmp(buffer, text, strlen(text)) == 0] *)
Definition begins (text : string) (buffer : list Z) : bool := bool_decide (take (length (bytes text)) buffer = bytes text).

Section values.
Variable junk : Z.
(** Whether the MIB tree has a hint for the identifier, and what
    [snprint_value] prints, [None] for -1. *)
Variable has_hint : list Z -> bool.
Variable snprint_value : list Z -> Z -> list Z -> option (list Z).

Definition get_octet_string (cvar : csnmp_var) : res (option (list Z)) :=
  match var_value cvar with
  | V_str val_str =>
      name ← csnmp_oid_2_netsnmp (var_oid cvar) (replicate (Z.to_nat MAX_OID_LEN) junk);
      let name := take (Z.to_nat (oid_len (var_oid cvar))) name in
      val ← (if str_len val_str =? 0 then Ret [] else b ← of_opt BadAccess (str_b val_str); load_bytes b 0 (str_len val_str));
      match snprint_value name (var_type cvar) val with
      | None => Ret None
      | Some buffer =>
          if begins "Hex-STRING: " buffer then Ret (Some (drop 12 buffer))
          else if has_hint name && begins "STRING: " buffer then Ret (Some (drop 8 buffer))
          else if begins "OID: " buffer then Ret (Some (drop 5 buffer))
          else if begins "BITS: " buffer then Ret (Some (drop 6 buffer))
          else if str_len val_str <? MAX_BUFFER_LEN then Ret (Some (c_str val)) else Halt BadAccess
      end
  | _ => Halt BadAccess
  end.

Definition dotted (a b c d : Z) : list Z :=
  print_uint64 a ++ [46] ++ print_uint64 b ++ [46] ++ print_uint64 c ++ [46] ++ print_uint64 d.

(** No value is stored as a float or a double: reading one is reading a value
    of another type. *)
Definition snmp_set_result (var : csnmp_var) : res (Z * agent_result) :=
  let t := var_type var in
  if bool_decide (t ∈ [SNMP_TP_COUNTER64; SNMP_TP_INT64; SNMP_TP_UINT64; SNMP_TP_TIMETICKS]) then
    match var_value var with V_long v => Ret (SUCCEED, R_uint64 v) | _ => Halt BadAccess end
  else if t =? SNMP_TP_INT then
    match var_value var with
    | V_int v => Ret (SUCCEED, if v >=? 0 then R_uint64 v else R_double v)
    | _ => Halt BadAccess
    end
  else if bool_decide (t ∈ [SNMP_TP_BOOL; SNMP_TP_COUNTER; SNMP_TP_GAUGE]) then
    match var_value var with V_int v => Ret (SUCCEED, R_uint64 (u32 v)) | _ => Halt BadAccess end
  else if bool_decide (t ∈ [SNMP_TP_BIT_STR; SNMP_TP_OCT_STR]) then
    parsed_str ← get_octet_string var;
    s ← of_opt BadAccess parsed_str;
    Ret (SUCCEED, R_text s)
  else if t =? SNMP_TP_IP_ADDR then
    match var_value var with
    | V_str str =>
        a ← rd (str_b str) 0; b ← rd (str_b str) 1; c ← rd (str_b str) 2; d ← rd (str_b str) 3;
        Ret (SUCCEED, R_str (dotted a b c d))
    | _ => Halt BadAccess
    end
  else if bool_decide (t ∈ [SNMP_TP_FLOAT; SNMP_TP_DOUBLE]) then Halt BadAccess
  else Ret (NOTSUPPORTED, R_msg (snmp_err_to_text t)).

(** [ZBX_GET_TEXT_RESULT]: [%lf] of the double of an int has six zeros. *)
Definition result_text (r : agent_result) : option (list Z) :=
  match r with
  | R_text s | R_str s => Some s
  | R_uint64 v => Some (print_uint64 v)
  | R_double v => Some (print_int64 v ++ bytes ".000000")
  | R_msg _ => None
  end.
End values.

(** ** Items *)

Inductive poll_state := POLL_QUEUED | POLL_POLLING.
#[export] Instance poll_state_eq : EqDecision poll_state.
Proof. solve_decision. Defined.

Record snmp_dobject := Dobject { d_index : list Z; d_values : list (option (list Z)) }.

(** [objects]: the vector of the discovered objects, which the hash set of the
    code finds by their index; [params]: the parameters of the key. *)
Record snmp_ddata := Ddata {
  root_oid : asn1_oid; root_oid_str_len : Z; root_oid_num_len : Z; last_oid : asn1_oid; oids_looped : Z; num : Z;
  objects : list snmp_dobject; params : list (list Z) }.

(** What the configuration gives. *)
Record item_conf := ItemConf {
  c_oid : list Z; c_interface_addr : list Z; c_version : Z; c_useip : Z; c_port : Z;
  c_community : list Z; c_req_type : Z }.

(** The fields of the configuration of an item that are read. *)
Record dc_item := DcItem {
  dc_snmp_oid : option (list Z); dc_version : Z; dc_useip : Z; dc_addr : list Z; dc_port : Z; dc_community : list Z }.

(** [it_poll]: the delay of the poll event in milliseconds, [None] when it is
    not pending; [it_timer]: [tm_event] is pending. *)
Record item := Item {
  it_conf : item_conf; it_state : poll_state; it_lastpolltime : Z; it_poll : option Z; it_timer : bool;
  it_ipaddr : option (list Z); it_sessid : Z; it_lastpolled : Z; it_retries : Z; it_data : option snmp_ddata }.

Definition set_state (s : poll_state) (i : item) : item :=
  Item (it_conf i) s (it_lastpolltime i) (it_poll i) (it_timer i) (it_ipaddr i) (it_sessid i) (it_lastpolled i) (it_retries i) (it_data i).
Definition set_lastpolltime (t : Z) (i : item) : item :=
  Item (it_conf i) (it_state i) t (it_poll i) (it_timer i) (it_ipaddr i) (it_sessid i) (it_lastpolled i) (it_retries i) (it_data i).
Definition set_poll (p : option Z) (i : item) : item :=
  Item (it_conf i) (it_state i) (it_lastpolltime i) p (it_timer i) (it_ipaddr i) (it_sessid i) (it_lastpolled i) (it_retries i) (it_data i).
Definition set_timer (b : bool) (i : item) : item :=
  Item (it_conf i) (it_state i) (it_lastpolltime i) (it_poll i) b (it_ipaddr i) (it_sessid i) (it_lastpolled i) (it_retries i) (it_data i).
Definition set_ipaddr (a : option (list Z)) (i : item) : item :=
  Item (it_conf i) (it_state i) (it_lastpolltime i) (it_poll i) (it_timer i) a (it_sessid i) (it_lastpolled i) (it_retries i) (it_data i).
Definition set_sessid (s : Z) (i : item) : item :=
  Item (it_conf i) (it_state i) (it_lastpolltime i) (it_poll i) (it_timer i) (it_ipaddr i) s (it_lastpolled i) (it_retries i) (it_data i).
Definition set_lastpolled (t : Z) (i : item) : item :=
  Item (it_conf i) (it_state i) (it_lastpolltime i) (it_poll i) (it_timer i) (it_ipaddr i) (it_sessid i) t (it_retries i) (it_data i).
Definition set_retries (r : Z) (i : item) : item :=
  Item (it_conf i) (it_state i) (it_lastpolltime i) (it_poll i) (it_timer i) (it_ipaddr i) (it_sessid i) (it_lastpolled i) r (it_data i).
Definition set_data (d : option snmp_ddata) (i : item) : item :=
  Item (it_conf i) (it_state i) (it_lastpolltime i) (it_poll i) (it_timer i) (it_ipaddr i) (it_sessid i) (it_lastpolled i) (it_retries i) d.

Definition set_last_oid (o : asn1_oid) (d : snmp_ddata) : snmp_ddata :=
  Ddata (root_oid d) (root_oid_str_len d) (root_oid_num_len d) o (oids_looped d) (num d) (objects d) (params d).
Definition set_looped (n : Z) (d : snmp_ddata) : snmp_ddata :=
  Ddata (root_oid d) (root_oid_str_len d) (root_oid_num_len d) (last_oid d) n (num d) (objects d) (params d).
Definition set_num (n : Z) (d : snmp_ddata) : snmp_ddata :=
  Ddata (root_oid d) (root_oid_str_len d) (root_oid_num_len d) (last_oid d) (oids_looped d) n (objects d) (params d).
Definition set_objects (o : list snmp_dobject) (d : snmp_ddata) : snmp_ddata :=
  Ddata (root_oid d) (root_oid_str_len d) (root_oid_num_len d) (last_oid d) (oids_looped d) (num d) o (params d).
Definition set_lens (str_len num_len : Z) (d : snmp_ddata) : snmp_ddata :=
  Ddata (root_oid d) str_len num_len (last_oid d) (oids_looped d) (num d) (objects d) (params d).
Definition set_root (o : asn1_oid) (d : snmp_ddata) : snmp_ddata :=
  Ddata o (root_oid_str_len d) (root_oid_num_len d) o 0 (num d) (objects d) (params d).

(** What leaves the poller for an item. *)
Inductive action :=
  | A_send (packet addr : list Z)
  | A_error (m : string)
  | A_value (r : agent_result)
  | A_text (s : list Z)
  | A_iface_succeed
  | A_iface_timeout
  | A_nextcheck (t : Z)
  | A_resolve (name : list Z).

Record world (T : Type) := World {
  w_sess : T; w_items : gmap Z item; w_requests : Z; w_responces : Z; w_dns_requests : Z; w_log : list (Z * action) }.
Arguments World {T}.
Arguments w_sess {T}.
Arguments w_items {T}.
Arguments w_requests {T}.
Arguments w_responces {T}.
Arguments w_dns_requests {T}.
Arguments w_log {T}.

(** Code that changes the world. *)
Definition M (T A : Type) : Type := world T -> res (A * world T).
#[export] Instance M_ret T : MRet (M T) := fun A a w => Ret (a, w).
#[export] Instance M_bind T : MBind (M T) := fun A B f m w =>
  match m w with Ret (a, w) => f a w | Halt h => Halt h end.

Definition lift {T A} (m : res A) : M T A := fun w => match m with Ret a => Ret (a, w) | Halt h => Halt h end.
Definition poller_get_poller_item {T} (id : Z) : M T (option item) := fun w => Ret (w_items w !! id, w).
Definition get_sessions {T} : M T T := fun w => Ret (w_sess w, w).
Definition get_item {T} (id : Z) : M T item := fun w => match w_items w !! id with Some i => Ret (i, w) | None => Halt BadAccess end.
Definition modify {T} (id : Z) (f : item -> item) : M T unit := fun w =>
  match w_items w !! id with
  | Some i => Ret (tt, World (w_sess w) (<[id := f i]> (w_items w)) (w_requests w) (w_responces w) (w_dns_requests w) (w_log w))
  | None => Halt BadAccess
  end.
Definition out {T} (id : Z) (a : action) : M T unit := fun w =>
  Ret (tt, World (w_sess w) (w_items w) (w_requests w) (w_responces w) (w_dns_requests w) (w_log w ++ [(id, a)])).
Definition poller_inc_requests {T} : M T unit := fun w =>
  Ret (tt, World (w_sess w) (w_items w) (u64 (w_requests w + 1)) (w_responces w) (w_dns_requests w) (w_log w)).
Definition poller_inc_responses {T} : M T unit := fun w =>
  Ret (tt, World (w_sess w) (w_items w) (w_requests w) (u64 (w_responces w + 1)) (w_dns_requests w) (w_log w)).

Definition add_dns_requests {T} (n : Z) : M T unit := fun w =>
  Ret (tt, World (w_sess w) (w_items w) (w_requests w) (w_responces w) (u32 (w_dns_requests w + n)) (w_log w)).

(** ** Names of objects (src/zabbix_server/poller/checks_snmp.c) *)

Definition mibs : list (string * string) :=
  [("ifDescr", ".1.3.6.1.2.1.2.2.1.2"); ("ifInOctets", ".1.3.6.1.2.1.2.2.1.10"); ("ifOutOctets", ".1.3.6.1.2.1.2.2.1.16");
   ("ifAdminStatus", ".1.3.6.1.2.1.2.2.1.7"); ("ifOperStatus", ".1.3.6.1.2.1.2.2.1.8"); ("ifIndex", ".1.3.6.1.2.1.2.2.1.1");
   ("ifType", ".1.3.6.1.2.1.2.2.1.3"); ("ifMtu", ".1.3.6.1.2.1.2.2.1.4"); ("ifSpeed", ".1.3.6.1.2.1.2.2.1.5");
   ("ifPhysAddress", ".1.3.6.1.2.1.2.2.1.6"); ("ifInUcastPkts", ".1.3.6.1.2.1.2.2.1.11");
   ("ifInNUcastPkts", ".1.3.6.1.2.1.2.2.1.12"); ("ifInDiscards", ".1.3.6.1.2.1.2.2.1.13");
   ("ifInErrors", ".1.3.6.1.2.1.2.2.1.14"); ("ifInUnknownProtos", ".1.3.6.1.2.1.2.2.1.15");
   ("ifOutUcastPkts", ".1.3.6.1.2.1.2.2.1.17"); ("ifOutNUcastPkts", ".1.3.6.1.2.1.2.2.1.18");
   ("ifOutDiscards", ".1.3.6.1.2.1.2.2.1.19"); ("ifOutErrors", ".1.3.6.1.2.1.2.2.1.20"); ("ifOutQLen", ".1.3.6.1.2.1.2.2.1.21")]%string.

(** [oid_translated] has room for [max_oid_len] bytes. *)
Definition zbx_snmp_translate (snmp_oid : list Z) (max_oid_len : Z) : list Z :=
  take (Z.to_nat (max_oid_len - 1))
    (match list_find (fun m => begins m.1 snmp_oid = true) mibs with
     | Some (_, (mib, replace)) => bytes replace ++ drop (length (bytes mib)) snmp_oid
     | None => snmp_oid
     end).

(** [strstr(s, t)] *)
Fixpoint contains (t s : list Z) : bool :=
  bool_decide (take (length t) s = t) || match s with [] => false | _ :: s => contains t s end.

(** ** Discovery macros (src/libs/zbxexpr/macro.c) *)

Definition zbx_is_macro_char (c : Z) : bool :=
  (65 <=? c) && (c <=? 90) || (c =? 46) || (c =? 95) || (48 <=? c) && (c <=? 57).

(** The loop, at a character that is tested before the closing brace; the
    terminator is not a character of a macro. *)
Fixpoint macro_loop (name : list Z) : bool :=
  match name with
  | c :: name =>
      if negb (zbx_is_macro_char c) then false
      else match name with
           | d :: rest => if d =? 125 then match rest with [] => true | _ => false end else macro_loop name
           | [] => false
           end
  | [] => false
  end.

Definition zbx_is_discovery_macro (name : list Z) : bool :=
  match name with a :: b :: name => (a =? 123) && (b =? 35) && macro_loop name | _ => false end.

Definition quote (s : string) : string := let q := String (Ascii.ascii_of_nat 34) EmptyString in String.append q (String.append s q).

(** The tests of [snmp_ddata_init] on the parameters at even positions. *)
Definition macros (params : list (list Z)) : list (list Z) :=
  (fix go l := match l with a :: _ :: l => a :: go l | [a] => [a] | [] => [] end) params.

Fixpoint has_duplicate (l : list (list Z)) : bool :=
  match l with a :: l => bool_decide (a ∈ l) || has_duplicate l | [] => false end.

(** What is not code of the poller: the contents of memory that is not
    initialised, the allocator, the network, Net-SNMP, and the split of an
    item key into its parameters.  A text that cannot be parsed or printed
    gives [None]; [x_snprint_objid] has the numeric form for [true]. *)
Record externals := Externals {
  x_junk : Z;
  x_can_alloc : Z -> bool;
  x_sendto : list Z -> list Z -> Z;
  x_make_addr : option (list Z) -> Z -> list Z;
  x_snmp_parse_oid : list Z -> option (list Z);
  x_snprint_objid : bool -> list Z -> option (list Z);
  x_has_hint : list Z -> bool;
  x_snprint_value : list Z -> Z -> list Z -> option (list Z);
  x_zbx_parse_item_key : list Z -> option (list (list Z)) }.

(** What a callback sees of its environment: the time, a random number, what
    a new session gets; [e_garbage]: what [snmp_fill_pdu_header] and
    [poller_async_resolve], which have no return statement, return;
    [e_lookup]: whether a lookup can be started; [e_disabled_till]: until when
    the interface of the item is disabled; [e_interval]: the next check after
    a time by the delay of the item, [None] for a wrong delay; [e_contention]:
    the sessions that other pollers count. *)
Record env (I : Type) := Env {
  e_now : Z; e_rand : Z; e_input : I; e_garbage : Z; e_lookup : bool; e_disabled_till : option Z; e_interval : option (Z -> Z);
  e_contention : Z }.
Arguments Env {I}.
Arguments e_now {I}.
Arguments e_rand {I}.
Arguments e_input {I}.
Arguments e_garbage {I}.
Arguments e_lookup {I}.
Arguments e_disabled_till {I}.
Arguments e_interval {I}.
Arguments e_contention {I}.

Section model.
Context {T I : Type} `{SessionTable T I}.
Variable x : externals.
Variable e : env I.

#[local] Abbreviation junk := (x_junk x).
#[local] Abbreviation can_alloc := (x_can_alloc x).
#[local] Abbreviation sendto := (x_sendto x).
#[local] Abbreviation make_addr := (x_make_addr x).
#[local] Abbreviation snmp_parse_oid := (x_snmp_parse_oid x).
#[local] Abbreviation snprint_objid := (x_snprint_objid x).
#[local] Abbreviation has_hint := (x_has_hint x).
#[local] Abbreviation snprint_value := (x_snprint_value x).
#[local] Abbreviation zbx_parse_item_key := (x_zbx_parse_item_key x).

#[local] Abbreviation M := (M T).

Definition close (sess_id : Z) : M Z := fun w =>
  match close_session (w_sess w) sess_id with
  | Ret (t, x) => Ret (x, World t (w_items w) (w_requests w) (w_responces w) (w_dns_requests w) (w_log w))
  | Halt h => Halt h
  end.

Definition create (itemid : Z) : M Z := fun w =>
  match create_session (e_input e) (w_sess w) itemid with
  | Ret (t, x) => Ret (x, World t (w_items w) (w_requests w) (w_responces w) (w_dns_requests w) (w_log w))
  | Halt h => Halt h
  end.

Definition poller_return_item_to_queue (id : Z) : M unit :=
  modify id (fun i => set_state POLL_QUEUED (set_lastpolltime (e_now e) i)).

(** ** Requests *)

Definition snmp_item_oid_to_asn (str_oid : list Z) : option asn1_oid :=
  (fun p_oid => Oid (Some (i32 <$> p_oid)) (zlen p_oid)) <$> snmp_parse_oid str_oid.

Definition snmp_fill_pdu_header (id command : Z) : M csnmp_pdu :=
  i ← get_item id;
  let c := it_conf i in
  let version := if c_version c =? ZBX_IF_SNMP_VERSION_1 then SNMP_VERSION_1
                 else if c_version c =? ZBX_IF_SNMP_VERSION_2 then SNMP_VERSION_2c else 0 in
  mret (Pdu (make_addr (it_ipaddr i) (c_port c)) version (Str (Some (c_community c ++ [0])) (zlen (c_community c))) command
          (i32 (it_sessid i)) 0 0 0 0 None 0 0 no_error).

Definition snmp_send_packet (id : Z) (pdu : csnmp_pdu) : M csnmp_pdu :=
  sess_id ← create id;
  _ ← modify id (set_sessid sess_id);
  '(_, pdu, packet) ← lift (csnmp_send_pdu junk can_alloc sendto (set_req_id pdu (i32 sess_id)));
  _ ← (match packet with Some packet => out id (A_send packet (p_addr pdu)) | None => mret tt end);
  _ ← modify id (set_timer true);
  _ ← poller_inc_requests;
  mret pdu.

(** A request with one variable without a value; the packet is freed. *)
Definition send_null_var (id : Z) (pdu : csnmp_pdu) (oid : asn1_oid) : M unit :=
  '(_, pdu) ← lift (csnmp_add_var can_alloc pdu oid SNMP_TP_NULL V_none);
  pdu ← snmp_send_packet id pdu;
  _ ← lift (csnmp_free_pdu pdu);
  mret tt.

(** ** GET (snmp_get.c) *)

Definition snmp_get_send_request (id : Z) : M Z :=
  i ← get_item id;
  if u32 (e_now e - it_lastpolled i) <? MAX_ITEM_SNMP_GET_FREQUENCY then
    _ ← poller_return_item_to_queue id; mret SUCCEED
  else
    pdu ← snmp_fill_pdu_header id SNMP_CMD_GET;
    if e_garbage e =? FAIL then mret FAIL
    else
      match snmp_item_oid_to_asn (c_oid (it_conf i)) with
      | None =>
          _ ← out id (A_error "Cannot parse oid");
          _ ← lift (csnmp_free_pdu pdu);
          mret FAIL
      | Some oid => _ ← send_null_var id pdu oid; mret SUCCEED
      end.

Definition requeue_failed (id : Z) : M unit := _ ← out id (A_nextcheck FAIL); poller_return_item_to_queue id.

Definition snmp_get_timeout (id : Z) : M unit :=
  i ← get_item id;
  if it_retries i >=? SNMP_MAX_RETRIES then
    _ ← poller_return_item_to_queue id;
    _ ← out id (A_error "Timeout waiting for the responce");
    out id A_iface_timeout
  else
    _ ← modify id (set_retries (u8 (it_retries i + 1)));
    r ← snmp_get_send_request id;
    if r =? FAIL then requeue_failed id else mret tt.

(** [for (i = 0; i < pdu->vars_len; i++)] *)
Fixpoint get_vars_loop (k : nat) (id : Z) (pdu : csnmp_pdu) (i : Z) : M unit :=
  match k with
  | O => mret tt
  | S k =>
      v ← lift (rd (p_vars pdu) i);
      '(ret, result) ← lift (snmp_set_result junk has_hint snprint_value v);
      _ ← (if ret =? SUCCEED then out id (A_value result)
           else out id (A_error (match result with R_msg m => m | _ => EmptyString end)));
      _ ← out id A_iface_succeed;
      get_vars_loop k id pdu (i + 1)
  end.

Definition snmp_get_process_result (id : Z) (pdu : csnmp_pdu) : M unit :=
  _ ← modify id (set_lastpolled (u32 (e_now e)));
  _ ← poller_return_item_to_queue id;
  if p_error_status pdu =? 0 then get_vars_loop (Z.to_nat (p_vars_len pdu)) id pdu 0
  else out id (A_error "Got responce PDU with error indication").

(** ** Walk (snmp_walk.c) *)

Definition snmp_ddata_init (id : Z) : M Z :=
  i ← get_item id;
  match zbx_parse_item_key (c_oid (it_conf i)) with
  | None => _ ← out id (A_error "Invalid SNMP OID: cannot parse expression."); mret FAIL
  | Some params =>
      if (zlen params =? 0) || negb (Z.even (zlen params)) then
        _ ← out id (A_error "Invalid SNMP OID: pairs of macro and OID are expected."); mret FAIL
      else
        let bad := list_find (fun m => zbx_is_discovery_macro m = false \/ m = bytes "{#SNMPINDEX}") (macros params) in
        match bad with
        | Some (_, m) =>
            _ ← out id (A_error (if zbx_is_discovery_macro m
                                 then String.append "Invalid SNMP OID: macro " (String.append (quote "{#SNMPINDEX}") " is not allowed.")
                                 else "Invalid SNMP OID: macro is invalid"));
            mret FAIL
        | None =>
            if has_duplicate (macros params) then
              _ ← out id (A_error "Invalid SNMP OID: unique macros are expected."); mret FAIL
            else
              _ ← modify id (set_data (Some (Ddata (Oid None 0) 0 0 (Oid None 0) 0 (-1) [] params)));
              mret SUCCEED
        end
  end.

Definition snmp_ddata_clean (id : Z) : M unit := modify id (set_data None).

Definition stop_item_poll (id : Z) : M unit :=
  _ ← poller_return_item_to_queue id;
  _ ← snmp_ddata_clean id;
  i ← get_item id;
  _ ← close (it_sessid i);
  modify id (set_data None).

(** The members of the object of a discovered index. *)
Fixpoint add_values (j : zbx_json) (ps : list (list Z)) (values : list (option (list Z))) : res zbx_json :=
  match values with
  | [] => Ret j
  | v :: values =>
      j ← (match v, ps with
           | Some v, m :: _ => zbx_json_addstring junk j (Some m) (Some v) ZBX_JSON_TYPE_STRING
           | Some v, [] => Halt BadAccess
           | None, _ => Ret j
           end);
      add_values j (drop 2 ps) values
  end.

Fixpoint add_objects (j : zbx_json) (ps : list (list Z)) (objs : list snmp_dobject) : res zbx_json :=
  match objs with
  | [] => Ret j
  | o :: objs =>
      j ← zbx_json_addobject junk j None;
      j ← zbx_json_addstring junk j (Some (bytes "{#SNMPINDEX}")) (Some (d_index o)) ZBX_JSON_TYPE_STRING;
      j ← add_values j ps (d_values o);
      add_objects (zbx_json_close j).1 ps objs
  end.

Definition snmp_walk_submit_result (id : Z) : M unit :=
  i ← get_item id;
  ddata ← lift (of_opt BadAccess (it_data i));
  js ← lift (zbx_json_initarray junk ZBX_JSON_STAT_BUF_LEN);
  js ← lift (add_objects js (params ddata) (objects ddata));
  _ ← out id (A_text (json_text (zbx_json_close js).1));
  out id A_iface_succeed.

(** The text behind the first [n] characters, in a buffer of which the rest
    is not initialised, cut to the size of the target. *)
Definition text_behind (printed : list Z) (n : Z) : list Z :=
  take (Z.to_nat (MAX_STRING_LEN - 1)) (c_str (drop (Z.to_nat n) (printed ++ 0 :: replicate (Z.to_nat MAX_STRING_LEN) junk))).

(** [zbx_dyn_escape_string(printed_oid, "\\")] *)
Definition escape_backslash (s : list Z) : list Z := flat_map (fun c => if c =? 92 then [92; 92] else [c]) s.

Definition snmp_choose_index (objid : list Z) (root_string_len root_numeric_len : Z) : option (list Z) :=
  let numeric := (fun printed => text_behind printed (root_numeric_len + 1)) <$> snprint_objid true objid in
  match snprint_objid false objid with
  | None => numeric
  | Some printed =>
      if bool_decide ((34 ∉ printed) /\ (39 ∉ printed)) then Some (text_behind printed (root_string_len + 1))
      else
        match snmp_parse_oid (escape_backslash printed) with
        | None => numeric
        | Some parsed => if bool_decide (parsed = objid) then Some (text_behind printed (root_string_len + 1)) else numeric
        end
  end.

Definition snmp_walk_start_next_oid (id : Z) : M Z :=
  i ← get_item id;
  match it_data i with
  | None => _ ← stop_item_poll id; mret FAIL
  | Some ddata =>
      let ddata := set_num (num ddata + 1) ddata in
      _ ← modify id (set_data (Some ddata));
      if num ddata >=? zlen (params ddata) / 2 then
        _ ← snmp_walk_submit_result id;
        _ ← stop_item_poll id;
        mret SUCCEED
      else
        next_oid ← lift (of_opt BadAccess (zget (params ddata) (num ddata * 2 + 1)));
        match snmp_parse_oid next_oid with
        | None => _ ← out id (A_error "snmp_parse_oid(): cannot parse OID"); _ ← stop_item_poll id; mret FAIL
        | Some root =>
            match snprint_objid false root with
            | None =>
                _ ← out id (A_error "snmp_print_oid(): cannot print OID with string indices.");
                _ ← stop_item_poll id; mret FAIL
            | Some str =>
                match snprint_objid true root with
                | None =>
                    _ ← out id (A_error "snmp_print_oid(): cannot print OID  with numeric indices.");
                    _ ← stop_item_poll id; mret FAIL
                | Some numeric =>
                    let ddata := set_lens (zlen str) (zlen numeric) ddata in
                    _ ← modify id (set_data (Some ddata));
                    pdu ← snmp_fill_pdu_header id SNMP_CMD_GET_NEXT;
                    if e_garbage e =? FAIL then mret FAIL
                    else
                      match snmp_item_oid_to_asn next_oid with
                      | None =>
                          _ ← out id (A_error "Cannot parse oid");
                          _ ← stop_item_poll id;
                          _ ← lift (csnmp_free_pdu pdu);
                          mret FAIL
                      | Some coid =>
                          _ ← modify id (set_data (Some (set_root coid ddata)));
                          _ ← send_null_var id pdu coid;
                          mret SUCCEED
                      end
                end
            end
        end
  end.

(** [obj->values[data->num] = value] for the object with the index. *)
Definition snmp_walk_save_result_value (data : snmp_ddata) (index value : list Z) : res snmp_ddata :=
  let '(pre, obj, post) :=
    match list_find (fun o => d_index o = index) (objects data) with
    | Some (k, obj) => (take k (objects data), obj, drop (S k) (objects data))
    | None => (objects data, Dobject index (replicate (Z.to_nat (zlen (params data) / 2)) None), [])
    end in
  if (0 <=? num data) && (num data <? zlen (d_values obj))
  then Ret (set_objects (pre ++ Dobject (d_index obj) (zset (d_values obj) (num data) (Some value)) :: post) data)
  else Halt BadAccess.

(** [memcmp] of the first components of the two identifiers. *)
Fixpoint same_ids (k : nat) (a b : asn1_oid) (j : Z) : res bool :=
  match k with
  | O => Ret true
  | S k => x ← rd (oid_b a) j; y ← rd (oid_b b) j; if x =? y then same_ids k a b (j + 1) else Ret false
  end.

Definition snmp_walk_process_var (id : Z) (var : csnmp_var) : M Z :=
  i ← get_item id;
  match it_data i with
  | None => mret FAIL
  | Some ddata =>
      outside ← lift (if (SNMP_TP_END_OF_MIB_VIEW =? var_type var) || (oid_len (var_oid var) <? oid_len (root_oid ddata)) then Ret true
                      else same ← same_ids (Z.to_nat (oid_len (root_oid ddata))) (root_oid ddata) (var_oid var) 0; Ret (negb same));
      if (outside : bool) then mret FAIL
      else if SNMP_TP_NO_SUCH_INSTANCE =? var_type var then
        _ ← out id (A_error (snmp_err_to_text (var_type var))); mret FAIL
      else
        c ← lift (asn1_cmp_oids (last_oid ddata) (var_oid var));
        if 0 =? c then _ ← out id (A_error "Cannot walk item: oid is not increasing"); mret FAIL
        else
          let looped := oids_looped ddata in
          let ddata := set_looped (looped + 1) ddata in
          _ ← modify id (set_data (Some ddata));
          if looped >? SNMP_WALK_MAX_OIDS then
            _ ← out id (A_error "Cannot walk item: too many oids or cycle"); mret FAIL
          else
            obj_oid ← lift (csnmp_oid_2_netsnmp (var_oid var) (replicate (Z.to_nat MAX_OID_LEN) junk));
            match snmp_choose_index (take (Z.to_nat (oid_len (var_oid var))) obj_oid) (root_oid_str_len ddata) (root_oid_num_len ddata) with
            | None =>
                _ ← out id (A_error "zbx_snmp_choose_index(): cannot choose appropriate index while walking for OID");
                mret FAIL
            | Some oid_index =>
                '(ret, result) ← lift (snmp_set_result junk has_hint snprint_value var);
                _ ← (if ret =? SUCCEED then
                       text ← lift (of_opt BadAccess (result_text result));
                       ddata ← lift (snmp_walk_save_result_value ddata oid_index text);
                       modify id (set_data (Some ddata))
                     else mret tt);
                mret SUCCEED
            end
  end.

(** The variables of an answer up to the first one that ends the subtree:
    whether all were processed. *)
Fixpoint walk_vars_loop (k : nat) (id : Z) (pdu : csnmp_pdu) (i : Z) : M bool :=
  match k with
  | O => mret true
  | S k =>
      v ← lift (rd (p_vars pdu) i);
      r ← snmp_walk_process_var id v;
      if r =? FAIL then mret false else walk_vars_loop k id pdu (i + 1)
  end.

(** [copy_oid]: a copy of the components in use. *)
Definition copy_oid (src : asn1_oid) : res asn1_oid :=
  b ← of_opt BadAccess (oid_b src); ids ← load_bytes b 0 (oid_len src); Ret (Oid (Some ids) (oid_len src)).

Definition snmp_walk_process_result (id : Z) (pdu : csnmp_pdu) : M unit :=
  if p_vars_len pdu <? 1 then _ ← snmp_walk_start_next_oid id; mret tt
  else
    all ← walk_vars_loop (Z.to_nat (p_vars_len pdu)) id pdu 0;
    if negb all then _ ← snmp_walk_start_next_oid id; mret tt
    else
      v ← lift (rd (p_vars pdu) (p_vars_len pdu - 1));
      next_oid ← lift (copy_oid (var_oid v));
      i ← get_item id;
      ddata ← lift (of_opt BadAccess (it_data i));
      _ ← modify id (set_data (Some (set_last_oid next_oid ddata)));
      new_pdu ← snmp_fill_pdu_header id SNMP_CMD_GET_NEXT;
      send_null_var id new_pdu next_oid.

Definition snmp_walk_send_first_request (id : Z) : M Z :=
  i ← get_item id;
  match it_data i with
  | Some _ => _ ← out id (A_error "Cannot start snmp walk: old request isn't finished yet"); mret FAIL
  | None =>
      r ← snmp_ddata_init id;
      if r =? FAIL then mret FAIL else _ ← snmp_walk_start_next_oid id; mret (e_garbage e)
  end.

Definition snmp_walk_timeout (id : Z) : M unit :=
  i ← get_item id;
  if it_retries i >=? SNMP_MAX_RETRIES then
    _ ← out id (A_error "SNMP timeout: max retries exceeded");
    _ ← snmp_ddata_clean id;
    poller_return_item_to_queue id
  else
    ddata ← lift (of_opt BadAccess (it_data i));
    pdu ← snmp_fill_pdu_header id SNMP_CMD_GET_NEXT;
    last ← lift (copy_oid (last_oid ddata));
    _ ← send_null_var id pdu last;
    modify id (fun i => set_retries (u8 (it_retries i + 1)) i).

(** ** Callbacks (snmp.c) *)

(** The timer is not pending any more when it has expired. *)
Definition timeout_event_cb (id : Z) : M unit :=
  _ ← modify id (set_timer false);
  i ← get_item id;
  _ ← close (it_sessid i);
  _ ← modify id (set_sessid 0);
  _ ← (if c_req_type (it_conf i) =? SNMP_CMD_GET_NEXT then snmp_walk_timeout id else mret tt);
  if c_req_type (it_conf i) =? SNMP_CMD_GET then snmp_get_timeout id else mret tt.

Definition snmp_send_request (id : Z) : M unit :=
  _ ← modify id (set_retries 0);
  i ← get_item id;
  if c_req_type (it_conf i) =? SNMP_CMD_GET_NEXT then _ ← snmp_walk_send_first_request id; mret tt
  else if c_req_type (it_conf i) =? SNMP_CMD_GET then
    r ← snmp_get_send_request id;
    if r =? FAIL then requeue_failed id else mret tt
  else lift (Halt ExitFailure).

Definition resolve_ready_cb (id : Z) (addr : list Z) : M unit :=
  _ ← modify id (set_ipaddr (Some addr));
  snmp_send_request id.

(** The resolver of poller_async_io.c. *)
Definition poller_async_resolve (id : Z) (name : list Z) : M Z :=
  _ ← (if e_lookup e then out id (A_resolve name)
       else out id (A_error "Cannot start DNS lookup. Check the item hostname or interface settings"));
  _ ← add_dns_requests 1;
  mret (e_garbage e).

(** [answer]: [None] for an error, or the texts of the addresses. *)
Definition poller_async_resolve_cb (id : Z) (answer : option (list (list Z))) : M unit :=
  poller_item ← poller_get_poller_item id;
  _ ← add_dns_requests (-1);
  match poller_item, answer with
  | None, _ => mret tt
  | Some _, None => _ ← out id (A_error "Couldn't resolve item's hostname"); poller_return_item_to_queue id
  | Some _, Some [] => mret tt
  | Some _, Some (addr :: _) => resolve_ready_cb id addr
  end.

Definition start_poll_item (id : Z) : M Z :=
  i ← get_item id;
  if negb (c_useip (it_conf i) =? 1) then
    r ← poller_async_resolve id (c_interface_addr (it_conf i));
    if r =? FAIL then
      _ ← out id (A_error "Cannot resolve item's interface hostname");
      _ ← poller_return_item_to_queue id;
      mret POLL_STARTED_FAIL
    else mret POLL_STARTED_OK
  else
    _ ← modify id (set_ipaddr (Some (c_interface_addr (it_conf i))));
    _ ← snmp_send_request id;
    mret POLL_STARTED_OK.

Definition process_result (pdu : csnmp_pdu) : M unit :=
  _ ← poller_inc_responses;
  itemid ← close (u32 (p_req_id pdu));
  if itemid =? 0 then mret tt
  else
    poller_item ← poller_get_poller_item itemid;
    match poller_item with
    | None => mret tt
    | Some i =>
        _ ← modify itemid (set_timer false);
        _ ← modify itemid (set_retries 0);
        _ ← modify itemid (set_sessid 0);
        _ ← (if c_req_type (it_conf i) =? SNMP_CMD_GET_NEXT then snmp_walk_process_result itemid pdu
             else if c_req_type (it_conf i) =? SNMP_CMD_GET then snmp_get_process_result itemid pdu
             else lift (Halt ExitFailure));
        out itemid A_iface_succeed
    end.

Definition free_item (id : Z) : M unit :=
  i ← get_item id;
  _ ← (if c_req_type (it_conf i) =? SNMP_CMD_GET_NEXT then stop_item_poll id else mret tt);
  i ← get_item id;
  _ ← close (it_sessid i);
  modify id (set_timer false).

(** ** New items *)

Definition init_item (id : Z) (dc : dc_item) : M Z :=
  match dc_snmp_oid dc with
  | None | Some [] =>
      _ ← out id (A_error "Error: empty OID, item will not be polled until updated, fix config to start poll"); mret FAIL
  | Some snmp_oid =>
      let oid := zbx_snmp_translate snmp_oid (4 * MAX_OID_LEN) in
      let req_type := if contains (bytes "discovery[") oid then SNMP_CMD_GET_NEXT else SNMP_CMD_GET in
      _ ← modify id (fun i =>
            Item (ItemConf oid (dc_addr dc) (u8 (dc_version dc)) (u8 (dc_useip dc)) (dc_port dc) (dc_community dc) req_type)
              (it_state i) (it_lastpolltime i) (it_poll i) false None 0 0 0 None);
      mret SUCCEED
  end.

(** ** The engine (glb_poller.c) *)

Definition poller_update_item_nextcheck (id base_time : Z) : M Z :=
  match e_interval e with
  | None => _ ← out id (A_error "error"); _ ← out id (A_nextcheck FAIL); mret FAIL
  | Some f => let nextcheck := f (base_time + 1) in _ ← out id (A_nextcheck nextcheck); mret nextcheck
  end.

Definition poller_return_delayed_item_to_queue (id : Z) : M unit :=
  let nextcheck := CONFIG_REPOLL_DELAY + e_rand e mod 5 in
  _ ← out id (A_nextcheck (i32 (e_now e + nextcheck * 1000)));
  _ ← poller_return_item_to_queue id;
  modify id (set_poll (Some (nextcheck * 1000))).

(** The event of the item is not pending any more when it has fired. *)
Definition item_poll_cb (id : Z) : M unit :=
  _ ← modify id (set_poll None);
  sessions ← get_sessions;
  if (sessions_count sessions >? POLLER_MAX_SESSIONS) || (e_contention e >? POLLER_MAX_SESSIONS)
  then modify id (set_poll (Some POLLER_MAX_SESSIONS_DELAY))
  else
    i ← get_item id;
    match it_state i, e_disabled_till e with
    | POLL_POLLING, _ => modify id (set_poll (Some POLLER_NOT_IN_QUEUE_DELAY))
    | POLL_QUEUED, Some disabled_till =>
        nextcheck ← poller_update_item_nextcheck id disabled_till;
        if nextcheck =? FAIL then mret tt
        else modify id (set_poll (Some (u64 (u64 (i32 (nextcheck - e_now e)) * 1000 + e_rand e mod 1000))))
    | POLL_QUEUED, None =>
        _ ← modify id (fun i => set_state POLL_POLLING (set_lastpolltime (e_now e) i));
        poll_ret ← start_poll_item id;
        if poll_ret =? POLL_NEED_DELAY then poller_return_delayed_item_to_queue id
        else
          nextcheck ← poller_update_item_nextcheck id (e_now e);
          if nextcheck =? FAIL then mret tt
          else modify id (set_poll (Some (u64 (i32 ((nextcheck - e_now e) * 1000)))))
    end.

Definition reset_lost (i : item) : item :=
  if (it_lastpolltime i + ITEMS_REINIT_INTERVAL <? e_now e) && bool_decide (it_state i = POLL_POLLING)
  then set_state POLL_QUEUED i else i.

Definition lost_items_check_cb : M unit := fun w =>
  Ret (tt, World (w_sess w) (reset_lost <$> w_items w) (w_requests w) (w_responces w) (w_dns_requests w) (w_log w)).

Definition put_item (id : Z) (i : option item) : M unit := fun w =>
  Ret (tt, World (w_sess w) (partial_alter (fun _ => i) id (w_items w)) (w_requests w) (w_responces w) (w_dns_requests w) (w_log w)).

Definition glb_poller_delete_item (id : Z) : M Z :=
  poller_item ← poller_get_poller_item id;
  match poller_item with
  | None => mret FAIL
  | Some _ => _ ← free_item id; _ ← put_item id None; mret SUCCEED
  end.

(** The item is inserted with zeros. *)
Definition glb_poller_create_item (id : Z) (dc : dc_item) : M Z :=
  _ ← glb_poller_delete_item id;
  _ ← put_item id (Some (Item (ItemConf [] [] 0 0 0 [] 0) POLL_QUEUED 0 None false None 0 0 0 None));
  r ← init_item id dc;
  if r =? FAIL then _ ← put_item id None; mret FAIL
  else
    _ ← modify id (set_poll (Some (POLLER_NEW_ITEM_DELAY_TIME * 1000)));
    _ ← out id (A_nextcheck (i32 (e_now e + POLLER_NEW_ITEM_DELAY_TIME)));
    mret SUCCEED.
End model.

(** [answers]: what [csnmp_recv_pdu] decodes until the socket is empty, each
    with the environment it is processed in. *)
Fixpoint responce_arrived_cb {T I} `{SessionTable T I} (x : externals) (answers : list (env I * csnmp_pdu)) : M T unit :=
  match answers with
  | [] => mret tt
  | (e, pdu) :: answers => _ ← process_result x e pdu; _ ← lift (csnmp_free_pdu pdu); responce_arrived_cb x answers
  end.
