(* ===== verification/SnmpRules.v ===== *)
(** * Rules for the callbacks of the SNMP poller, requests, answers, GET

    Hoare-style rules for the functions of [SnmpPoll]: each callback changes
    one item and its session ([focus]).  The rules for sending a request, for
    the results of variables and for items that are asked for with GET. *)
From stdpp Require Import prelude list gmap strings.
From Stdlib Require Import ZArith Lia.
From S2P Require Import Prelude SessionTable JsonText JsonParser JsonBuild Asn1 Csnmp SnmpPoll.
#[local] Open Scope Z_scope.

(** ** Rules *)

(** [m] returns, with a result and a world that [Q] holds for. *)
Definition wp {T A} (m : M T A) (Q : A -> world T -> Prop) (w : world T) : Prop :=
  match m w with Ret (a, w) => Q a w | Halt _ => False end.

Lemma wp_bind {T A B} (m : M T A) (k : A -> M T B) Q w : wp m (fun a => wp (k a) Q) w -> wp (m ≫= k) Q w.
Proof. unfold wp, mbind, M_bind. by destruct (m w) as [[a w']|]. Qed.

Lemma wp_ret {T A} (a : A) (Q : A -> world T -> Prop) w : Q a w -> wp (mret a) Q w.
Proof. done. Qed.

Lemma wp_mono {T A} (m : M T A) (P Q : A -> world T -> Prop) w : wp m P w -> (forall a w', P a w' -> Q a w') -> wp m Q w.
Proof. unfold wp. destruct (m w) as [[a w']|]; [auto|done]. Qed.

Lemma wp_lift {T A} (m : res A) a k (Q : A -> world T -> Prop) w : m = Ret a -> wp k Q w -> k = mret a -> wp (lift m) Q w.
Proof. intros -> H ->. done. Qed.

Lemma wp_elim {T A} (m : M T A) Q w : wp m Q w -> exists a w', m w = Ret (a, w') /\ Q a w'.
Proof. unfold wp. destruct (m w) as [[a w']|]; [eauto|done]. Qed.

(** What a callback for the item [id] has done to the world [w0]: the item is
    now [i], its only session is [s] (0 for none), other items and sessions
    are as they were, and [l] left the poller for it.  [fresh]: the
    environment can still make a session. *)
Record focus {T I} `{SessionTable T I} (e : env I) (id : Z) (w0 : world T) (fresh : bool) (i : item) (s : Z) (l : list action) (w : world T) : Prop := {
  fo_table : table_ok (w_sess w);
  fo_input : fresh = true -> input_ok (w_sess w) (e_input e);
  fo_items : w_items w = <[id := i]> (w_items w0);
  fo_zero : open_sessions (w_sess w) !! 0 = None;
  fo_own : forall sid, open_sessions (w_sess w) !! sid = Some id <-> sid = s /\ s <> 0;
  fo_other : forall sid x, x <> id -> open_sessions (w_sess w) !! sid = Some x <-> open_sessions (w_sess w0) !! sid = Some x;
  fo_log : w_log w = w_log w0 ++ (pair id <$> l) }.

Section rules.
Context {T I : Type} `{SessionTable T I}.
Variable e : env I.
Variable id : Z.
Variable w0 : world T.
Implicit Types (w : world T) (i : item) (l : list action).

#[local] Abbreviation focus := (focus e id w0).

Lemma wp_get_item {A} fr i s l w (k : item -> M T A) (Q : A -> world T -> Prop) : focus fr i s l w -> wp (k i) Q w -> wp (get_item id ≫= k) Q w.
Proof. intros F Hk. unfold wp, mbind, M_bind, get_item. by rewrite (fo_items _ _ _ _ _ _ _ _ F), lookup_insert_eq. Qed.

Lemma wp_find_item {A} fr i s l w (k : option item -> M T A) (Q : A -> world T -> Prop) :
  focus fr i s l w -> wp (k (Some i)) Q w -> wp (poller_get_poller_item id ≫= k) Q w.
Proof. intros F Hk. unfold wp, mbind, M_bind, poller_get_poller_item. by rewrite (fo_items _ _ _ _ _ _ _ _ F), lookup_insert_eq. Qed.

Lemma wp_modify f fr i s l w (Q : unit -> world T -> Prop) :
  focus fr i s l w -> (forall w', focus fr (f i) s l w' -> Q tt w') -> wp (modify id f) Q w.
Proof.
  intros [] HQ. unfold wp, modify. rewrite fo_items0, lookup_insert_eq, insert_insert_eq. apply HQ. by split.
Qed.

Lemma wp_out a fr i s l w (Q : unit -> world T -> Prop) :
  focus fr i s l w -> (forall w', focus fr i s (l ++ [a]) w' -> Q tt w') -> wp (out id a) Q w.
Proof.
  intros [] HQ. unfold wp, out. apply HQ. split; try done. cbn [w_log]. by rewrite fo_log0, fmap_app, app_assoc.
Qed.

Lemma wp_close fr i s l w (Q : Z -> world T -> Prop) :
  focus fr i s l w -> (forall w', focus fr i 0 l w' -> Q (if s =? 0 then 0 else id) w') -> wp (close s) Q w.
Proof.
  intros [] HQ. unfold wp, close. destruct (close_law (w_sess w) s fo_table0) as (t & Hc & Hok & Hm). rewrite Hc.
  replace (default 0 (open_sessions (w_sess w) !! s)) with (if s =? 0 then 0 else id).
  2:{ destruct (Z.eqb_spec s 0) as [->|]; [by rewrite fo_zero0|]. by rewrite (proj2 (fo_own0 s)). }
  apply HQ. split; cbn [w_sess w_items w_log]; try done.
  - intros Hf. eapply input_law; [exact fo_table0|by apply fo_input0|exact Hc].
  - rewrite Hm. by apply lookup_delete_None; right.
  - intros sid. rewrite Hm, lookup_delete_Some, fo_own0. naive_solver.
  - intros sid x Hx. rewrite Hm, lookup_delete_Some, fo_other0 by done. split; [naive_solver|]. intros Hsid. split; [|done]. intros ->.
    apply fo_other0 in Hsid; [|done]. destruct (decide (sid = 0)) as [->|]; [congruence|].
    rewrite (proj2 (fo_own0 sid)) in Hsid by done. congruence.
Qed.

(** A session of the item that was closed before. *)
Lemma wp_close_again sid fr i l w (Q : Z -> world T -> Prop) :
  focus fr i 0 l w -> open_sessions (w_sess w0) !! sid = Some id -> (forall w', focus fr i 0 l w' -> Q 0 w') -> wp (close sid) Q w.
Proof.
  intros F Hsid HQ. pose proof F as []. unfold wp, close. destruct (close_law (w_sess w) sid fo_table0) as (t & Hc & Hok & Hm). rewrite Hc.
  assert (Hnone : open_sessions (w_sess w) !! sid = None).
  { destruct (open_sessions (w_sess w) !! sid) as [y|] eqn:E; [|done]. destruct (decide (y = id)) as [->|Hy]; [by apply fo_own0 in E as [_ ?]|].
    apply fo_other0 in E; [|done]. congruence. }
  rewrite Hnone. rewrite delete_id in Hm by done. apply HQ. split; cbn [w_sess w_items w_log]; rewrite ?Hm; try done.
  intros Hf. eapply input_law; [exact fo_table0|by apply fo_input0|exact Hc].
Qed.

Lemma wp_create i l w (Q : Z -> world T -> Prop) :
  focus true i 0 l w -> (forall sid w', 0 < sid < 2 ^ 31 -> focus false i sid l w' -> Q sid w') -> wp (create e id) Q w.
Proof.
  intros [] HQ. unfold wp, create. destruct (create_law (w_sess w) (e_input e) id fo_table0 (fo_input0 eq_refl)) as (t & sid & -> & Hok & Hr & Hn & Hm).
  apply HQ; [done|]. split; cbn [w_sess w_items w_log]; try done.
  - rewrite Hm, lookup_insert_ne by lia. done.
  - intros x. rewrite Hm, lookup_insert_Some, fo_own0. split; [|intros [-> _]; by left]. intros [[-> _]|[_ [? ?]]]; [split; [done|lia]|done].
  - intros x y Hy. rewrite Hm, lookup_insert_Some, fo_other0 by done. split; [naive_solver|]. intros Hx. right. split; [|done]. intros <-.
    apply fo_other0 in Hx; [|done]. congruence.
Qed.

Lemma wp_same m fr i s l w (Q : unit -> world T -> Prop) :
  focus fr i s l w -> (exists w', m w = Ret (tt, w') /\ w_sess w' = w_sess w /\ w_items w' = w_items w /\ w_log w' = w_log w) ->
  (forall w', focus fr i s l w' -> Q tt w') -> wp m Q w.
Proof.
  intros [] (w' & Em & Es & Ei & El) HQ. unfold wp. rewrite Em. apply HQ. by split; rewrite ?Es, ?Ei, ?El.
Qed.
End rules.

(** Runs the next command of a callback for the item [focus] is about. *)
Ltac run F :=
  cbv beta iota;
  lazymatch goal with
  | |- wp (mret _) _ _ => apply wp_ret
  | |- wp (get_item _ ≫= _) _ _ => eapply wp_get_item; [exact F|]
  | |- wp (poller_get_poller_item _ ≫= _) _ _ => eapply wp_find_item; [exact F|]
  | |- wp (modify _ _) _ _ => eapply wp_modify; [exact F|]; clear F; intros ? F
  | |- wp (poller_return_item_to_queue _ _) _ _ => eapply wp_modify; [exact F|]; clear F; intros ? F
  | |- wp (snmp_ddata_clean _) _ _ => eapply wp_modify; [exact F|]; clear F; intros ? F
  | |- wp (out _ _) _ _ => eapply wp_out; [exact F|]; clear F; intros ? F
  | |- wp (close _) _ _ => eapply wp_close; [exact F|]; clear F; intros ? F
  | |- wp (lift ?m) _ _ => eapply wp_lift; [|apply wp_ret|reflexivity]
  | |- wp (add_dns_requests _) _ _ => eapply wp_same; [exact F|by eexists|]; clear F; intros ? F
  | |- wp poller_inc_requests _ _ => eapply wp_same; [exact F|by eexists|]; clear F; intros ? F
  | |- wp poller_inc_responses _ _ => eapply wp_same; [exact F|by eexists|]; clear F; intros ? F
  | |- wp (_ ≫= _) _ _ => apply wp_bind
  end.
Ltac runs F := repeat run F.

(** ** Requests *)

(** An identifier the encoder can write: at least two components, the first
    at most 2, the second below 40, the others within 31 bits. *)
Definition good_ids (ids : list Z) : Prop := ids_ok ids /\ zlen ids <= 128.

(** The text stands for such an identifier, or cannot be parsed. *)
Definition good_oid (x : externals) (s : list Z) : Prop := forall ids, x_snmp_parse_oid x s = Some ids -> good_ids ids.

(** The roots of a walk: every second parameter of the key. *)
Definition good_roots (x : externals) (ps : list (list Z)) : Prop :=
  forall n root, zget ps (n * 2 + 1) = Some root -> good_oid x root.

(** The configuration of an item that can be asked for. *)
Definition good_text (x : externals) (oid : list Z) : Prop :=
  good_oid x oid /\ forall ps, x_zbx_parse_item_key x oid = Some ps -> good_roots x ps.

Definition conf_ok (x : externals) (c : item_conf) : Prop :=
  (c_version c = ZBX_IF_SNMP_VERSION_1 \/ c_version c = ZBX_IF_SNMP_VERSION_2) /\ zlen (c_community c) <= 5000 /\
  (c_req_type c = SNMP_CMD_GET \/ c_req_type c = SNMP_CMD_GET_NEXT) /\ good_text x (c_oid c).

Definition snmp_version (c : item_conf) : Z := if c_version c =? ZBX_IF_SNMP_VERSION_1 then SNMP_VERSION_1 else SNMP_VERSION_2c.

(** The message that asks for an object. *)
Definition request (c : item_conf) (command sid : Z) (ids : list Z) : message :=
  Message (snmp_version c) (c_community c) command sid 0 0 [Binding ids SNMP_TP_NULL W_null].

(** What the poller relies on: memory is there and holds bytes; printed texts
    are C strings, and identifiers fit the buffer they are printed to; the
    parameters of a key are C strings. *)
Record externals_ok (x : externals) : Prop := {
  ok_alloc n : x_can_alloc x n = true;
  ok_junk : 0 <= x_junk x < 256;
  ok_print b ids s : x_snprint_objid x b ids = Some s -> c_string s /\ zlen s < MAX_STRING_LEN;
  ok_value name t v s : x_snprint_value x name t v = Some s -> c_string s;
  ok_key key ps : x_zbx_parse_item_key x key = Some ps -> Forall c_string ps }.

Lemma ids_i32 ids : ids_ok ids -> i32 <$> ids = ids.
Proof.
  intros Hids. rewrite <- (list_fmap_id ids) at 2. apply list_fmap_ext. intros k q Hq. apply i32_small. unfold id.
  destruct ids as [|a [|b ids]]; cbn [ids_ok] in Hids; try done. destruct Hids as (Ha & Hb & Hr). rewrite Forall_lookup in Hr.
  destruct k as [|[|k]]; cbn [lookup list_lookup] in Hq; [injection Hq as <-; lia|injection Hq as <-; lia|].
  specialize (Hr _ _ Hq). cbn beta in Hr. lia.
Qed.

Lemma is_oid_self ids : is_oid (Oid (Some ids) (zlen ids)) ids.
Proof. exists []. by rewrite app_nil_r. Qed.

Lemma asn_ok x s : good_oid x s ->
  match x_snmp_parse_oid x s with
  | Some ids => snmp_item_oid_to_asn x s = Some (Oid (Some ids) (zlen ids)) /\ good_ids ids
  | None => snmp_item_oid_to_asn x s = None
  end.
Proof.
  intros Hx. unfold snmp_item_oid_to_asn. destruct (x_snmp_parse_oid x s) as [ids|] eqn:E; [|done].
  destruct (Hx _ E) as [Hids Hl]. cbn. by rewrite ids_i32.
Qed.

Lemma number_size v : 0 <= v < 2 ^ 31 -> zlen (number_bytes v) <= 4.
Proof. intros Hv. rewrite zlen_number. pose proof (size_of_bound v 4 ltac:(cbn; lia) ltac:(lia)). lia. Qed.

Lemma tlv_size tp s : zlen s < 2 ^ 31 -> zlen s <= zlen (tlv tp s) <= zlen s + 6.
Proof. intros Hs. rewrite zlen_tlv. pose proof (zlen_len_bytes_bound (zlen s) Hs). lia. Qed.

Lemma oid_size ids : good_ids ids -> zlen (oid_bytes ids) <= 5 * zlen ids.
Proof.
  intros [Hids _]. destruct ids as [|a [|b ids]]; cbn [ids_ok] in Hids; try done. destruct Hids as (_ & _ & Hr). cbn [oid_bytes].
  pose proof (zlen_ids_bound ids Hr). rewrite !zlen_cons. pose proof (zlen_nonneg ids). lia.
Qed.

Lemma request_ok x c command sid ids : conf_ok x c -> is_byte command -> 0 <= sid < 2 ^ 31 -> good_ids ids -> message_ok (request c command sid ids).
Proof.
  intros (Hv & Hc & _) Hcmd Hs Hids. pose proof (oid_size ids Hids) as Ho. destruct Hids as [Hids Hl].
  assert (Hver : 0 <= snmp_version c < 2 ^ 31) by (unfold snmp_version; destruct (_ =? _); done).
  unfold message_ok, int_ok. split_and!; try done; try (cbn [m_version m_req_id m_x m_y request]; lia).
  - constructor; [done|constructor].
  - set (b := binding_bytes (Binding ids SNMP_TP_NULL W_null)).
    assert (Hb : zlen b <= 700).
    { unfold b, binding_bytes. cbn [bd_oid bd_type bd_value value_bytes]. set (o := tlv ASN1_OID _).
      assert (zlen o <= 646) by (pose proof (tlv_size ASN1_OID (oid_bytes ids) ltac:(lia)); subst o; lia).
      pose proof (tlv_size 0x30 (o ++ tlv SNMP_TP_NULL []) ltac:(rewrite zlen_app, zlen_tlv; change (zlen (len_bytes (zlen []))) with 1; rewrite zlen_nil; lia)).
      rewrite zlen_app, (zlen_tlv SNMP_TP_NULL) in *. change (zlen (len_bytes (zlen []))) with 1 in *. rewrite zlen_nil in *. lia. }
    set (r := request_bytes (request c command sid ids)).
    assert (Hr : zlen r <= 1000).
    { unfold r, request_bytes. cbn [m_req_id m_x m_y m_vars request flat_map]. fold b. rewrite app_nil_r, !zlen_app.
      pose proof (number_size sid Hs). pose proof (tlv_size ASN1_INT (number_bytes sid) ltac:(lia)).
      change (zlen (tlv ASN1_INT (number_bytes 0))) with 3. pose proof (tlv_size 0x30 b ltac:(lia)). lia. }
    unfold message_bytes. fold r. cbn [m_version m_community m_command request].
    pose proof (number_size _ Hver). pose proof (tlv_size ASN1_INT (number_bytes (snmp_version c)) ltac:(lia)).
    pose proof (tlv_size ASN1_OCT_STR (c_community c) ltac:(lia)). pose proof (tlv_size command r ltac:(lia)).
    set (all := _ ++ _ ++ _). assert (zlen all <= 7000) by (subst all; rewrite !zlen_app; lia).
    pose proof (tlv_size 0x30 all ltac:(lia)). unfold MAX_PACKET. lia.
Qed.

(** ** Answers *)

(** A variable as the decoder makes it, with an identifier an agent can have
    and a value that fits the buffers. *)
Definition decoded (t : Z) (v : value) : Prop :=
  match type_kind t, v with
  | K_int, W_int n => - 2 ^ 31 <= n < 2 ^ 31
  | K_long, W_long n => 0 <= n < 2 ^ 64
  | K_str, W_str s => Forall is_byte s /\ zlen s < MAX_BUFFER_LEN /\ (t = SNMP_TP_IP_ADDR -> 4 <= zlen s)
  | K_oid, W_oid _ => True
  | K_null, W_null | K_zero, W_null => True
  | K_other, W_str _ => t <> SNMP_TP_FLOAT /\ t <> SNMP_TP_DOUBLE
  | _, _ => False
  end.
Definition good_binding (d : binding) : Prop := good_ids (bd_oid d) /\ decoded (bd_type d) (bd_value d).

(** Net-SNMP can print the value of the variable; the code takes the text that
    is missing otherwise for a string. *)
Definition printable (snprint_value : list Z -> Z -> list Z -> option (list Z)) (d : binding) : Prop :=
  match bd_value d with
  | W_str s => bd_type d = SNMP_TP_BIT_STR \/ bd_type d = SNMP_TP_OCT_STR -> is_Some (snprint_value (bd_oid d) (bd_type d) s)
  | _ => True
  end.

Definition good_answer (x : externals) (p : csnmp_pdu) (ds : list binding) : Prop :=
  (exists vars, has_vars p vars /\ Forall2 is_var vars ds) /\ Forall good_binding ds /\ Forall (printable (x_snprint_value x)) ds.

Lemma copy_ids_ok o pre ids rest arr tail : oid_b o = Some (pre ++ ids ++ rest) -> length arr = length ids ->
  copy_loop (length ids) o (pre ++ arr ++ tail) (zlen pre) = Ret (pre ++ ids ++ tail).
Proof.
  revert pre arr. induction ids as [|q ids IH]; intros pre arr Ho Hl; cbn [length copy_loop]; [by destruct arr|].
  destruct arr as [|a arr]; [done|]. rewrite Ho. cbn [app]. rewrite rd_at by done. cbn [mbind res_mbind]. rewrite put_int_ok by done. cbn [mbind res_mbind].
  replace (zlen pre + 1) with (zlen (pre ++ [q])) by lens. change (q :: arr ++ tail) with ([q] ++ arr ++ tail). rewrite (app_assoc pre [q]).
  rewrite (IH (pre ++ [q]) arr); [|by rewrite <- app_assoc|by injection Hl]. by rewrite <- app_assoc.
Qed.

Lemma oid_2_netsnmp_ok o ids junk : is_oid o ids -> zlen ids <= MAX_OID_LEN ->
  exists name, csnmp_oid_2_netsnmp o (replicate (Z.to_nat MAX_OID_LEN) junk) = Ret name /\ take (Z.to_nat (oid_len o)) name = ids.
Proof.
  intros (rest & Ho & Hl) Hn. unfold csnmp_oid_2_netsnmp. rewrite Hl, to_nat_zlen. unfold zlen, MAX_OID_LEN in *.
  replace (Z.to_nat 128) with (length ids + (128 - length ids))%nat by lia. rewrite replicate_add.
  eexists. split; [apply (copy_ids_ok o [] ids rest (replicate (length ids) junk) _ Ho), length_replicate|].
  cbn [app]. by apply take_app_length.
Qed.

Section results.
Variable has_hint : list Z -> bool.
Variable snprint_value : list Z -> Z -> list Z -> option (list Z).

(** The text of an octet string: what Net-SNMP prints of values with a hint,
    hexadecimal numbers, identifiers and bits; otherwise the string. *)
Definition octet_text (ids : list Z) (t : Z) (s : list Z) : list Z :=
  let buffer := default [] (snprint_value ids t s) in
  if begins "Hex-STRING: " buffer then drop 12 buffer
  else if has_hint ids && begins "STRING: " buffer then drop 8 buffer
  else if begins "OID: " buffer then drop 5 buffer
  else if begins "BITS: " buffer then drop 6 buffer
  else c_str s.

Definition byte_of (s : list Z) (k : nat) : Z := default 0 (s !! k).

(** The result of a variable. *)
Definition result_of (d : binding) : Z * agent_result :=
  match bd_value d with
  | W_long n => (SUCCEED, R_uint64 n)
  | W_int n => (SUCCEED, if bd_type d =? SNMP_TP_INT then if n >=? 0 then R_uint64 n else R_double n else R_uint64 (u32 n))
  | W_str s =>
      match type_kind (bd_type d) with
      | K_str => (SUCCEED, if bd_type d =? SNMP_TP_IP_ADDR then R_str (dotted (byte_of s 0) (byte_of s 1) (byte_of s 2) (byte_of s 3))
                           else R_text (octet_text (bd_oid d) (bd_type d) s))
      | _ => (NOTSUPPORTED, R_msg (snmp_err_to_text (bd_type d)))
      end
  | W_oid _ | W_null => (NOTSUPPORTED, R_msg (snmp_err_to_text (bd_type d)))
  end.

Lemma octet_ok junk v d s : is_var v d -> good_binding d -> bd_value d = W_str s -> zlen s < MAX_BUFFER_LEN ->
  is_Some (snprint_value (bd_oid d) (bd_type d) s) ->
  get_octet_string junk has_hint snprint_value v = Ret (Some (octet_text (bd_oid d) (bd_type d) s)).
Proof.
  intros (Ho & Ht & Hv) [[_ Hl] _] Es Hs [buffer Hb]. rewrite Es in Hv. unfold get_octet_string, octet_text.
  destruct (var_value v) as [| | |str|]; try done. cbn [is_value] in Hv.
  destruct (oid_2_netsnmp_ok _ _ junk Ho Hl) as (name & -> & Hname). cbn [mbind res_mbind]. rewrite Hname.
  rewrite (str_load str s Hv). cbn [mbind res_mbind]. rewrite Ht, Hb. cbv zeta. cbn [from_option id].
  destruct (begins "Hex-STRING: " buffer); [done|]. destruct (has_hint _ && _); [done|]. destruct (begins "OID: " buffer); [done|].
  destruct (begins "BITS: " buffer); [done|]. destruct Hv as (r & _ & ->). by apply Z.ltb_lt in Hs as ->.
Qed.

Lemma byte_rd (str : asn1_str) s n k : is_str str s -> n = Z.of_nat k -> (k < length s)%nat -> rd (str_b str) n = Ret (byte_of s k).
Proof.
  intros (rest & -> & _) -> Hk. unfold rd, byte_of, zget. cbn [of_opt mbind res_mbind]. destruct (Z.ltb_spec (Z.of_nat k) 0); [lia|].
  rewrite Nat2Z.id, lookup_app_l by done. by destruct (lookup_lt_is_Some_2 s k Hk) as [c ->].
Qed.

(** Every variable has a result. *)
Lemma set_result_ok junk v d : printable snprint_value d -> is_var v d -> good_binding d ->
  snmp_set_result junk has_hint snprint_value v = Ret (result_of d).
Proof.
  intros Hp Hvar Hd. pose proof Hvar as (_ & Ht & Hv). destruct Hd as [Hids Hdec] eqn:Ed. clear Ed. unfold decoded, type_kind in Hdec.
  unfold snmp_set_result, result_of, type_kind. rewrite Ht.
  destruct (bool_decide (bd_type d ∈ [SNMP_TP_BOOL; _; _; _])) eqn:E1.
  { apply bool_decide_eq_true in E1. destruct (bd_value d) as [|n| | |] eqn:Es; try done. destruct (var_value v); try done. cbn [is_value] in Hv. subst.
    set_unfold in E1. destruct E1 as [->|[->|[->|[->|[]]]]]; done. }
  destruct (bool_decide (bd_type d ∈ [SNMP_TP_COUNTER64; _; _; _])) eqn:E2.
  { destruct (bd_value d) as [| |n| |] eqn:Es; try done. destruct (var_value v); try done. cbn [is_value] in Hv. by subst. }
  destruct (bool_decide (bd_type d ∈ [SNMP_TP_BIT_STR; _; _])) eqn:E3.
  { apply bool_decide_eq_true in E3. destruct (bd_value d) as [| | |s|] eqn:Es; try done. destruct Hdec as (Hb & Hs & Hip).
    unfold printable in Hp. rewrite Es in Hp. pose proof (fun H => octet_ok junk v d s Hvar Hd Es Hs (Hp H)) as Ho. set_unfold in E3. destruct E3 as [E|[E|[E|[]]]]; rewrite E in *.
    1, 2: cbn -[get_octet_string]; by rewrite Ho by auto.
    specialize (Hip eq_refl). cbn -[rd dotted byte_of]. destruct (var_value v) as [| | |str|]; try done. cbn [is_value] in Hv. unfold zlen in Hip.
    rewrite (byte_rd str s 0 0), (byte_rd str s 1 1), (byte_rd str s 2 2), (byte_rd str s 3 3) by (done || lia). done. }
  apply bool_decide_eq_false in E1, E3.
  assert (Hf : bd_type d <> SNMP_TP_FLOAT /\ bd_type d <> SNMP_TP_DOUBLE /\ ((exists s, bd_value d = W_str s) \/ (exists o, bd_value d = W_oid o) \/ bd_value d = W_null)).
  { destruct (Z.eqb_spec (bd_type d) SNMP_TP_OID) as [->|]; [destruct (bd_value d); naive_solver|].
    destruct (bool_decide _) eqn:E5 in Hdec; [|destruct (Z.eqb_spec (bd_type d) 0) as [->|]; destruct (bd_value d); naive_solver].
    apply bool_decide_eq_true in E5. set_unfold in E5. destruct E5 as [->|[->|[->|[->|[]]]]]; destruct (bd_value d); naive_solver. }
  destruct Hf as (Hf1 & Hf2 & Hf3). rewrite !not_elem_of_cons in E1. rewrite !not_elem_of_cons in E3.
  destruct E1 as (? & Hint & ? & ? & ?), E3 as (? & ? & Hip & ?).
  assert (Hn1 : bd_type d ∉ [SNMP_TP_BOOL; SNMP_TP_COUNTER; SNMP_TP_GAUGE]) by (rewrite !not_elem_of_cons; repeat split; try done; apply not_elem_of_nil).
  assert (Hn2 : bd_type d ∉ [SNMP_TP_BIT_STR; SNMP_TP_OCT_STR]) by (rewrite !not_elem_of_cons; repeat split; try done; apply not_elem_of_nil).
  assert (Hn3 : bd_type d ∉ [SNMP_TP_FLOAT; SNMP_TP_DOUBLE]) by (rewrite !not_elem_of_cons; repeat split; try done; apply not_elem_of_nil).
  rewrite (bool_decide_eq_false_2 _ Hn1), (bool_decide_eq_false_2 _ Hn2), (bool_decide_eq_false_2 _ Hn3).
  apply Z.eqb_neq in Hint as ->, Hip as ->.
  destruct Hf3 as [[s ->]|[[o ->]| ->]]; try done. by repeat case_match.
Qed.
End results.

Lemma request_owned p c command sid ids : says p (request c command sid ids) -> owned p.
Proof.
  intros (_ & _ & _ & _ & _ & vars & Hv & Hvars). exists vars. split; [done|]. cbn [m_vars request] in Hvars.
  apply Forall2_cons_inv_r in Hvars as (v & vars' & (_ & Ht & _) & Hnil & ->). apply Forall2_nil_inv_r in Hnil as ->.
  constructor; [|constructor]. unfold freeable. by rewrite Ht.
Qed.

Section poller.
Context {T I : Type} `{SessionTable T I}.
Variable x : externals.
Hypothesis Hx : externals_ok x.
Variable e : env I.
Variable id : Z.
Variable w0 : world T.

#[local] Abbreviation focus := (focus e id w0).
Implicit Types (w : world T) (i : item) (l : list action).

Definition header (i : item) (command : Z) : csnmp_pdu :=
  Pdu (x_make_addr x (it_ipaddr i) (c_port (it_conf i))) (if c_version (it_conf i) =? ZBX_IF_SNMP_VERSION_1 then SNMP_VERSION_1
      else if c_version (it_conf i) =? ZBX_IF_SNMP_VERSION_2 then SNMP_VERSION_2c else 0)
    (Str (Some (c_community (it_conf i) ++ [0])) (zlen (c_community (it_conf i)))) command (i32 (it_sessid i)) 0 0 0 0 None 0 0 no_error.

Lemma wp_fill {A} command fr i s l w (k : csnmp_pdu -> M T A) (Q : A -> world T -> Prop) :
  focus fr i s l w -> wp (k (header i command)) Q w -> wp (snmp_fill_pdu_header x id command ≫= k) Q w.
Proof. intros F Hk. apply wp_bind. unfold snmp_fill_pdu_header. by runs F. Qed.

Definition sent_packet (i : item) (command sid : Z) (ids : list Z) : action :=
  A_send (message_bytes (request (it_conf i) command sid ids)) (x_make_addr x (it_ipaddr i) (c_port (it_conf i))).

(** A request is sent with the id of a new session, which the item keeps, and
    the timer runs. *)
Lemma wp_send command i0 i l w oid ids (Q : unit -> world T -> Prop) :
  focus true i 0 l w -> conf_ok x (it_conf i) -> it_conf i0 = it_conf i -> it_ipaddr i0 = it_ipaddr i -> is_byte command ->
  command <> SNMP_CMD_GET_BULK -> is_oid oid ids -> good_ids ids ->
  (forall sid w', 0 < sid < 2 ^ 31 -> focus false (set_timer true (set_sessid sid i)) sid (l ++ [sent_packet i command sid ids]) w' -> Q tt w') ->
  wp (send_null_var x e id (header i0 command) oid) Q w.
Proof.
  intros F Hc Ec Ea Hcmd Hbulk Ho Hids HQ. set (v := Var oid SNMP_TP_NULL V_none no_error).
  destruct (append_var_ok (x_can_alloc x) (ok_alloc _ Hx) (header i0 command) [] v) as (cap & Hadd & _);
    [split_and!; try done; by right|done|].
  unfold send_null_var, csnmp_add_var. run F. run F; [exact Hadd|]. run F. unfold snmp_send_packet. run F.
  eapply wp_create; [exact F|]. clear F. intros sid w1 Hsid F. run F. run F. run F.
  assert (Hsays : says (set_req_id (set_vars (header i0 command) (Some ([] ++ [v])) (zlen (A := csnmp_var) [] + 1) cap) (i32 sid)) (request (it_conf i) command sid ids)).
  { unfold header. rewrite Ec, (i32_small sid) by lia. split_and!; try done.
    - cbn [p_version set_req_id set_vars request m_version]. unfold snmp_version. destruct Hc as [[-> | ->] _]; done.
    - cbn [p_community set_req_id set_vars request m_community]. exists [0]. done.
    - cbn [m_command request]. destruct (Z.eqb_spec command SNMP_CMD_GET_BULK); [done|]. done.
    - exists [v]. split; [split; [done|by left]|]. constructor; [|constructor]. done. }
  destruct (send_pdu_ok (x_junk x) (x_can_alloc x) (x_sendto x) _ _ (ok_alloc _ Hx) Hsays) as (p' & Hp' & Ha & Hsend); [eapply request_ok; [exact Hc|done|lia|done]|].
  run F; [exact Hsend|]. runs F; [by apply free_pdu_vars_ok, (request_owned p' _ _ _ _ Hp')|]. apply (HQ sid); [done|].
  rewrite Ha in F. cbn [p_addr set_req_id set_vars header] in F. rewrite Ec, Ea in F. exact F.
Qed.

(** ** GET *)

Definition queued (i : item) : item := set_state POLL_QUEUED (set_lastpolltime (e_now e) i).
Definition waiting (sid : Z) (i : item) : item := set_timer true (set_sessid sid i).

Definition throttled (i : item) : bool := u32 (e_now e - it_lastpolled i) <? MAX_ITEM_SNMP_GET_FREQUENCY.

(** What an attempt to ask for an item comes to: nothing when it was polled a
    moment ago, an error when its identifier cannot be parsed, or a packet. *)
Inductive asked (i : item) (l : list action) : item -> Z -> list action -> Prop :=
  | asked_recently : throttled i = true -> asked i l (queued i) 0 l
  | asked_wrong : throttled i = false -> x_snmp_parse_oid x (c_oid (it_conf i)) = None ->
      asked i l (queued i) 0 (l ++ [A_error "Cannot parse oid"; A_nextcheck FAIL])
  | asked_sent sid ids : throttled i = false -> x_snmp_parse_oid x (c_oid (it_conf i)) = Some ids -> 0 < sid < 2 ^ 31 ->
      asked i l (waiting sid i) sid (l ++ [sent_packet i SNMP_CMD_GET sid ids]).

Hypothesis garbage : e_garbage e <> FAIL.

Lemma header_free i command : csnmp_free_pdu (header i command) = Ret (set_vars (set_community (header i command) (asn1_free_str (p_community (header i command)))) None 0 0).
Proof. done. Qed.

Lemma wp_get_request i l w (Q : unit -> world T -> Prop) :
  focus true i 0 l w -> conf_ok x (it_conf i) ->
  (forall i' s' l' w', asked i l i' s' l' -> focus (bool_decide (s' = 0)) i' s' l' w' -> Q tt w') ->
  wp (r ← snmp_get_send_request x e id; if r =? FAIL then requeue_failed e id else mret tt) Q w.
Proof.
  intros F Hc HQ. run F. unfold snmp_get_send_request. run F. fold (throttled i). destruct (throttled i) eqn:Et.
  { runs F. eapply HQ; [by apply asked_recently|exact F]. }
  eapply wp_fill; [exact F|]. apply Z.eqb_neq in garbage as ->. pose proof (asn_ok x (c_oid (it_conf i)) ltac:(apply Hc)) as Hp.
  destruct (x_snmp_parse_oid x (c_oid (it_conf i))) as [ids|] eqn:Ep.
  - destruct Hp as [-> Hids]. cbv beta iota. run F. eapply wp_send; try done; [apply is_oid_self|].
    intros sid w' Hsid F'. run F'. eapply HQ; [by eapply asked_sent|]. rewrite bool_decide_eq_false_2 by lia. exact F'.
  - rewrite Hp. runs F; [apply header_free|]. change (FAIL =? FAIL) with true. unfold requeue_failed. runs F.
    rewrite <- app_assoc in F. eapply HQ; [by apply asked_wrong|exact F].
Qed.

Definition gives_up (i : item) : bool := it_retries i >=? SNMP_MAX_RETRIES.

Lemma wp_get_timeout i l w (Q : unit -> world T -> Prop) :
  focus true i 0 l w -> conf_ok x (it_conf i) ->
  (gives_up i = true -> forall w', focus true (queued i) 0 (l ++ [A_error "Timeout waiting for the responce"; A_iface_timeout]) w' -> Q tt w') ->
  (gives_up i = false -> forall i' s' l' w', asked (set_retries (u8 (it_retries i + 1)) i) l i' s' l' ->
     focus (bool_decide (s' = 0)) i' s' l' w' -> Q tt w') ->
  wp (snmp_get_timeout x e id) Q w.
Proof.
  intros F Hc Hup Hask. unfold snmp_get_timeout. run F. fold (gives_up i). destruct (gives_up i) eqn:E.
  - runs F. rewrite <- app_assoc in F. by apply Hup.
  - run F. run F. eapply wp_get_request; [exact F|done|]. eauto.
Qed.

#[local] Abbreviation result_of := (result_of (x_has_hint x) (x_snprint_value x)).

(** What is passed on for a variable. *)
Definition shown (d : binding) : list action :=
  [if (result_of d).1 =? SUCCEED then A_value (result_of d).2
   else A_error (match (result_of d).2 with R_msg m => m | _ => EmptyString end); A_iface_succeed].

Definition shown_answer (p : csnmp_pdu) (ds : list binding) : list action :=
  if p_error_status p =? 0 then flat_map shown ds else [A_error "Got responce PDU with error indication"].

Lemma set_result_some v d : printable (x_snprint_value x) d -> is_var v d -> good_binding d ->
  snmp_set_result (x_junk x) (x_has_hint x) (x_snprint_value x) v = Ret (result_of d).
Proof. apply set_result_ok. Qed.

Lemma wp_get_vars p pre vars ds fr i s l w (Q : unit -> world T -> Prop) :
  p_vars p = Some (pre ++ vars) -> Forall2 is_var vars ds -> Forall good_binding ds -> Forall (printable (x_snprint_value x)) ds -> focus fr i s l w ->
  (forall w', focus fr i s (l ++ flat_map shown ds) w' -> Q tt w') -> wp (get_vars_loop x (length vars) id p (zlen pre)) Q w.
Proof.
  intros Hp Hv. revert pre l w Hp. induction Hv as [|v d vars ds Hvd _ IH]; intros pre l w Hp Hd Hpr F HQ; cbn [length get_vars_loop flat_map] in *.
  { run F. rewrite app_nil_r in HQ. by apply HQ. }
  apply Forall_cons in Hd as [Hd Hds]. apply Forall_cons in Hpr as [Hpd Hpr]. run F. run F; [rewrite Hp; by apply rd_at|]. run F. run F; [by apply set_result_some|].
  destruct (result_of d) as [ret r] eqn:Er. run F.
  assert (Hnext : forall w', focus fr i s (l ++ shown d) w' -> wp (get_vars_loop x (length vars) id p (zlen pre + 1)) Q w').
  { intros w' F'. replace (zlen pre + 1) with (zlen (pre ++ [v])) by lens. eapply IH; [by rewrite Hp, <- app_assoc|done|done|exact F'|].
    intros w'' F''. apply HQ. by rewrite app_assoc. }
  unfold shown in Hnext. rewrite Er in Hnext. cbn [fst snd] in Hnext. destruct (ret =? SUCCEED); runs F; rewrite <- app_assoc in F; by apply Hnext.
Qed.

Lemma wp_get_answer p ds fr i s l w (Q : unit -> world T -> Prop) :
  good_answer x p ds -> focus fr i s l w ->
  (forall w', focus fr (queued (set_lastpolled (u32 (e_now e)) i)) s (l ++ shown_answer p ds) w' -> Q tt w') ->
  wp (snmp_get_process_result x e id p) Q w.
Proof.
  intros [(vars & [Hn Hp] & Hv) [Hd Hpr]] F HQ. unfold snmp_get_process_result, shown_answer in *. run F. run F. run F. run F.
  destruct (p_error_status p =? 0); [|runs F; by apply HQ]. rewrite Hn, to_nat_zlen. destruct Hp as [Hp|[Hp ->]].
  - change 0 with (zlen (A := csnmp_var) []). eapply wp_get_vars; [by rewrite Hp|done|done|done|exact F|]. exact HQ.
  - apply Forall2_nil_inv_l in Hv as ->. cbn [length get_vars_loop flat_map] in *. rewrite app_nil_r in HQ. run F. by apply HQ.
Qed.
End poller.
