(* ===== verification/SnmpWalk.v ===== *)
(** * Walks of the SNMP poller

    Theory of the walks of [SnmpPoll]: the data of a walk, the JSON text of
    its result, the effect of an answer. *)
From stdpp Require Import prelude list gmap strings.
From Stdlib Require Import ZArith Lia.
From S2P Require Import Prelude SessionTable JsonText JsonParser JsonBuild Asn1 Csnmp SnmpPoll SnmpRules.
#[local] Open Scope Z_scope.

(** ** The result of a walk *)

Definition object_ok (ps : list (list Z)) (o : snmp_dobject) : Prop :=
  c_string (d_index o) /\ zlen (d_values o) = zlen ps / 2 /\ Forall (fun v => forall t, v = Some t -> c_string t) (d_values o).

(** The members for the values: the macro at position [2 * j] names value [j]. *)
Fixpoint value_members (ps : list (list Z)) (values : list (option (list Z))) : list (list Z * list Z) :=
  match values, ps with
  | Some v :: values, m :: _ => (m, v) :: value_members (drop 2 ps) values
  | _ :: values, _ => value_members (drop 2 ps) values
  | [], _ => []
  end.

Definition object_members (ps : list (list Z)) (o : snmp_dobject) : list (list Z * list Z) :=
  (bytes "{#SNMPINDEX}", d_index o) :: value_members ps (d_values o).

Definition object_json (ps : list (list Z)) (o : snmp_dobject) : json :=
  JObject ((fun m => (m.1, JString m.2)) <$> object_members ps o).

(** The array that is passed to preprocessing. *)
Definition discovery_json (d : snmp_ddata) : json := JArray (object_json (params d) <$> objects d).

Definition member_item (m : list Z * list Z) : list Z * json * list Z := (m.1, JString m.2, quoted m.2).

Lemma json_values_ok x j ps values f fs : f_object f = true -> Forall c_string ps ->
  2 * zlen values <= zlen ps -> Forall (fun v => forall t, v = Some t -> c_string t) values -> built j f fs ->
  exists j', add_values x j ps values = Ret j' /\
    built j' (Frame true (f_name f) (f_items f ++ (member_item <$> value_members ps values))) fs.
Proof.
  intros Hf Hps. revert j ps f Hf Hps. induction values as [|v values IH]; intros j ps f Hf Hps Hl Hv Hb; cbn [add_values value_members].
  { exists j. split; [done|]. rewrite app_nil_r. by destruct f; cbn in *; subst. }
  destruct ps as [|m ps]; [exfalso; lens|]. apply Forall_cons in Hv as [Hv Hvs].
  assert (Hps' : Forall c_string (drop 2 (m :: ps))) by (by apply Forall_drop).
  assert (Hl' : 2 * zlen values <= zlen (drop 2 (m :: ps))) by (unfold zlen in *; rewrite length_drop; cbn [length] in *; lia).
  destruct v as [v|].
  - destruct (addstring_ok (x_junk x) j f fs (Some m) m (JString v) (Some v) ZBX_JSON_TYPE_STRING (quoted v) Hb) as (j1 & -> & Hb1); try done.
    + unfold child_name. by rewrite Hf.
    + unfold name_bytes. rewrite Hf. by apply Forall_cons in Hps as [? _].
    + by apply quoted_text_of, Hv.
    + cbn [mbind res_mbind]. destruct (IH j1 (drop 2 (m :: ps)) (add_item f (m, JString v, quoted v)) Hf Hps' Hl' Hvs Hb1) as (j2 & -> & Hb2). exists j2. split; [done|].
      cbn [f_items f_name add_item] in Hb2. rewrite <- app_assoc in Hb2. exact Hb2.
  - cbn [mbind res_mbind]. by apply IH.
Qed.

Definition object_item (ps : list (list Z)) (o : snmp_dobject) : list Z * json * list Z :=
  let f := Frame true [] (member_item <$> object_members ps o) in ([], frame_value f, frame_text f).

Lemma object_value ps o : (object_item ps o).1.2 = object_json ps o.
Proof. unfold object_item, object_json, frame_value. cbn [f_object f_items fst snd]. f_equal. rewrite <- list_fmap_compose. by apply list_fmap_ext. Qed.

Lemma add_objects_ok x j ps objs f : f_object f = false -> Forall c_string ps -> Forall (object_ok ps) objs -> built j f [] ->
  exists j', add_objects x j ps objs = Ret j' /\ built j' (Frame false (f_name f) (f_items f ++ (object_item ps <$> objs))) [].
Proof.
  intros Hf Hps Ho. revert j f Hf. induction Ho as [|o objs (Hi & Hn & Hv) _ IH]; intros j f Hf Hb; cbn [add_objects].
  { exists j. split; [done|]. rewrite app_nil_r. by destruct f; cbn in *; subst. }
  destruct (add_container_ok (x_junk x) j f [] None [] true Hb) as (j1 & E1 & Hb1); [unfold child_name; by rewrite Hf|unfold name_bytes; by rewrite Hf|].
  unfold zbx_json_addobject. rewrite E1. cbn [mbind res_mbind].
  assert (Hidx : c_string (bytes "{#SNMPINDEX}")) by (repeat constructor).
  destruct (addstring_ok (x_junk x) j1 _ [f] (Some (bytes "{#SNMPINDEX}")) (bytes "{#SNMPINDEX}") (JString (d_index o)) (Some (d_index o)) ZBX_JSON_TYPE_STRING (quoted (d_index o)) Hb1)
    as (j2 & -> & Hb2); try done; [by apply quoted_text_of|]. cbn [mbind res_mbind].
  destruct (json_values_ok x j2 ps (d_values o) (add_item (Frame true [] []) _) [f] eq_refl Hps ltac:(pose proof (Z.div_mod (zlen ps) 2); dlia) Hv Hb2) as (j3 & -> & Hb3).
  cbn [mbind res_mbind f_items f_name add_item app] in *. destruct (close_ok j3 _ f [] Hb3) as [Hb4 _].
  destruct (IH _ (add_item f _) Hf Hb4) as (j4 & -> & Hb5). exists j4. split; [done|].
  cbn [f_items f_name add_item] in Hb5. rewrite <- app_assoc in Hb5. exact Hb5.
Qed.

Lemma submit_text x d : Forall c_string (params d) -> Forall (object_ok (params d)) (objects d) ->
  exists js js' text, zbx_json_initarray (x_junk x) ZBX_JSON_STAT_BUF_LEN = Ret js /\ add_objects x js (params d) (objects d) = Ret js' /\
    json_text (zbx_json_close js').1 = text /\ text_of (discovery_json d) text.
Proof.
  intros Hp Ho. destruct (json_init_ok (x_junk x) false ZBX_JSON_STAT_BUF_LEN ltac:(done)) as (js & Hi & Hb). cbn [init] in Hi.
  destruct (add_objects_ok x js (params d) (objects d) (Frame false [] []) eq_refl Hp Ho Hb) as (js' & Ha & Hb'). exists js, js', (json_text js').
  split_and!; try done.
  - unfold zbx_json_close. by rewrite (bl_level _ _ _ Hb').
  - destruct (built_text _ _ _ Hb') as (_ & _ & Ht & _). cbn [f_items f_name app] in Ht. unfold root_value in Ht. cbn [root fst] in Ht.
    unfold frame_value in Ht. cbn [f_object f_items] in Ht. unfold discovery_json. rewrite <- list_fmap_compose in Ht.
    rewrite (list_fmap_ext _ (object_json (params d))) in Ht; [exact Ht|]. intros k o _. apply object_value.
Qed.

(** ** The data of a walk *)

Definition roots (d : snmp_ddata) : Z := zlen (params d) / 2.

Record walk_data (d : snmp_ddata) : Prop := {
  wd_params : Forall c_string (params d);
  wd_num : -1 <= num d < roots d;
  wd_objects : Forall (object_ok (params d)) (objects d);
  wd_nodup : NoDup (d_index <$> objects d) }.

(** While the answer to a request is awaited. *)
Record walking (x : externals) (d : snmp_ddata) : Prop := {
  wk_data : walk_data d;
  wk_num : 0 <= num d;
  wk_looped : 0 <= oids_looped d <= SNMP_WALK_MAX_OIDS + 1;
  wk_root : exists ids, is_oid (root_oid d) ids;
  wk_last : exists ids, is_oid (last_oid d) ids /\ good_ids ids;
  wk_roots : good_roots x (params d) }.

(** The value a walk has for an index and a root. *)
Definition value_at (d : snmp_ddata) (index : list Z) (n : Z) : option (list Z) :=
  match list_find (fun o => d_index o = index) (objects d) with
  | Some (_, o) => default None (d_values o !! Z.to_nat n)
  | None => None
  end.

Lemma value_at_in d o n : NoDup (d_index <$> objects d) -> o ∈ objects d -> value_at d (d_index o) n = default None (d_values o !! Z.to_nat n).
Proof.
  intros Hnd Ho. unfold value_at. destruct (list_find _ _) as [[k o']|] eqn:E.
  - apply list_find_Some in E as (Hk & Hi & _). apply list_elem_of_lookup in Ho as [k' Hk'].
    assert (k = k') as ->; [|congruence]. apply (NoDup_lookup _ _ _ (d_index o) Hnd); rewrite list_lookup_fmap; [by rewrite Hk, <- Hi|by rewrite Hk'].
  - apply list_find_None in E. rewrite Forall_forall in E. by destruct (E o Ho).
Qed.

Lemma value_at_notin d index n : index ∉ d_index <$> objects d -> value_at d index n = None.
Proof.
  intros Hn. unfold value_at. destruct (list_find _ _) as [[k o]|] eqn:E; [|done]. apply list_find_Some in E as (Hk & <- & _).
  destruct Hn. apply list_elem_of_fmap. exists o. split; [done|]. by eapply list_elem_of_lookup_2.
Qed.

(** The object for the index gets the value. *)
Lemma put_value_ok d pre obj post value : walk_data d -> 0 <= num d -> c_string value ->
  NoDup (d_index <$> pre ++ obj :: post) -> Forall (object_ok (params d)) (pre ++ obj :: post) ->
  (forall o, o ∈ objects d -> o ∈ pre ++ obj :: post) ->
  (forall o, o ∈ pre ++ obj :: post -> o ∈ objects d \/ o = obj /\ (d_index obj ∉ (d_index <$> objects d)) /\ Forall (eq None) (d_values obj)) ->
  let objs := pre ++ Dobject (d_index obj) (zset (d_values obj) (num d) (Some value)) :: post in
  walk_data (set_objects objs d) /\
  forall index' n, 0 <= n < roots d ->
    value_at (set_objects objs d) index' n = if decide (index' = d_index obj /\ n = num d) then Some value else value_at d index' n.
Proof.
  intros [] Hn Hv Hnd Hok Hsub Hnew objs.
  assert (Hidx : d_index <$> objs = d_index <$> pre ++ obj :: post) by (unfold objs; by rewrite !fmap_app, !fmap_cons).
  apply Forall_app in Hok as [Hpre Hok]. apply Forall_cons in Hok as [(Hi & Hl & Hvs) Hpost].
  assert (Hset : zset (d_values obj) (num d) (Some value) = <[Z.to_nat (num d) := Some value]> (d_values obj)) by (unfold zset; by destruct (Z.ltb_spec (num d) 0); [lia|]).
  assert (Hlt : (Z.to_nat (num d) < length (d_values obj))%nat) by (unfold roots in *; unfold zlen in *; lia).
  assert (W : walk_data (set_objects objs d)).
  { split; cbn [params num objects set_objects]; try done; [|by rewrite Hidx]. apply Forall_app. split; [done|]. constructor; [|done].
    split_and!; cbn [d_index d_values]; [done| |].
    - rewrite Hset. unfold zlen in *. by rewrite length_insert.
    - rewrite Hset. apply Forall_insert; [done|]. by intros t [= <-]. }
  split; [done|]. intros index' n Hn'.
  destruct (decide (index' ∈ d_index <$> objs)) as [Hin|Hout].
  - apply list_elem_of_fmap in Hin as (o & -> & Ho). rewrite (value_at_in _ _ _ (wd_nodup _ W) Ho).
    assert (Hcase : (o ∈ pre ++ obj :: post /\ d_index o <> d_index obj) \/ o = Dobject (d_index obj) (zset (d_values obj) (num d) (Some value))).
    { rewrite fmap_app, fmap_cons, NoDup_app, NoDup_cons in Hnd. destruct Hnd as (_ & Hd1 & Hd2 & _). unfold objs in Ho.
      rewrite elem_of_app, elem_of_cons in Ho. rewrite elem_of_app, elem_of_cons. destruct Ho as [Ho|[->|Ho]]; [left|by right|left]; (split; [tauto|]).
      - intros E. apply (Hd1 (d_index o)); [by apply list_elem_of_fmap_2|rewrite E; by left].
      - intros E. apply Hd2. rewrite <- E. by apply list_elem_of_fmap_2. }
    destruct Hcase as [[Ho' Hne]| ->]; cbn [d_index d_values].
    + rewrite decide_False by naive_solver. destruct (Hnew o Ho') as [Hin|[-> _]]; [|done]. by rewrite value_at_in.
    + rewrite Hset. destruct (decide (d_index obj = d_index obj /\ n = num d)) as [[_ ->]|Hne]; [by rewrite list_lookup_insert_eq|].
      rewrite list_lookup_insert_ne by (intros E; apply Hne; split; [done|lia]).
      destruct (Hnew obj ltac:(rewrite elem_of_app, elem_of_cons; tauto)) as [Hin|(_ & Hnot & Hnone)]; [by rewrite value_at_in|].
      rewrite value_at_notin by done. destruct (d_values obj !! Z.to_nat n) as [v|] eqn:E; [|done]. rewrite Forall_lookup in Hnone. by rewrite <- (Hnone _ _ E).
  - rewrite value_at_notin by done. rewrite decide_False.
    + symmetry. apply value_at_notin. intros Hin. apply Hout. rewrite Hidx. apply list_elem_of_fmap in Hin as (o & -> & Ho). by apply list_elem_of_fmap_2, Hsub.
    + intros [-> _]. apply Hout. rewrite Hidx, fmap_app, fmap_cons, elem_of_app, elem_of_cons. tauto.
Qed.

Lemma save_value_ok d index value : walk_data d -> 0 <= num d -> c_string index -> c_string value ->
  exists objs, snmp_walk_save_result_value d index value = Ret (set_objects objs d) /\ walk_data (set_objects objs d) /\
    forall index' n, 0 <= n < roots d ->
      value_at (set_objects objs d) index' n = if decide (index' = index /\ n = num d) then Some value else value_at d index' n.
Proof.
  intros W Hn Hi Hv. pose proof W as []. unfold snmp_walk_save_result_value.
  destruct (list_find _ (objects d)) as [[k obj]|] eqn:E.
  - apply list_find_Some in E as (Hk & <- & _). pose proof (take_drop_middle _ _ _ Hk) as Eo.
    assert (Hobj : object_ok (params d) obj) by (rewrite Forall_lookup in wd_objects0; by eapply wd_objects0).
    replace ((0 <=? num d) && (num d <? zlen (d_values obj))) with true
      by (symmetry; rewrite andb_true_iff, Z.leb_le, Z.ltb_lt; destruct Hobj as (_ & -> & _); unfold roots in *; lia).
    eexists. split; [done|]. apply put_value_ok; rewrite ?Eo; auto.
  - apply list_find_None in E. rewrite Forall_forall in E.
    set (obj := Dobject index (replicate (Z.to_nat (zlen (params d) / 2)) None)).
    assert (Hnotin : index ∉ d_index <$> objects d) by (intros Hin; apply list_elem_of_fmap in Hin as (o & -> & Ho); by apply (E o Ho)).
    assert (Hlen : zlen (d_values obj) = zlen (params d) / 2) by (cbn [d_values obj]; rewrite zlen_replicate; unfold roots in *; lia).
    replace ((0 <=? num d) && (num d <? zlen (d_values obj))) with true
      by (symmetry; rewrite andb_true_iff, Z.leb_le, Z.ltb_lt, Hlen; unfold roots in *; lia).
    eexists. split; [done|]. apply (put_value_ok d (objects d) obj []); try done.
    + rewrite fmap_app, fmap_cons. apply NoDup_app. split_and!; [done|set_solver|]. apply NoDup_singleton.
    + apply Forall_app. split; [done|]. constructor; [|constructor]. split_and!; [done|done|]. apply Forall_replicate. done.
    + set_solver.
    + intros o Ho. apply elem_of_app in Ho as [Ho|Ho%list_elem_of_singleton]; [by left|]. right. split_and!; [done|done|]. by apply Forall_replicate.
Qed.

(** ** Texts of indexes and values *)

Definition all_bytes (s : list Z) : Prop := Forall (fun c => 0 <= c < 256) s.

Lemma c_str_string s : all_bytes s -> c_string (c_str s).
Proof.
  induction 1 as [|c s Hc _ IH]; cbn [c_str]; [constructor|]. destruct (Z.eqb_spec c 0); [constructor|]. constructor; [lia|done].
Qed.

Lemma c_string_bytes s : c_string s -> all_bytes s.
Proof. intros Hs. eapply Forall_impl; [exact Hs|]. cbn beta. lia. Qed.

Lemma text_behind_ok x printed n : externals_ok x -> c_string printed -> c_string (text_behind x printed n).
Proof.
  intros Hx Hp. apply Forall_take, c_str_string, Forall_drop, Forall_app. split; [by apply c_string_bytes|]. constructor; [lia|].
  apply Forall_replicate, (ok_junk _ Hx).
Qed.

Lemma choose_index_ok x objid a b index : externals_ok x -> snmp_choose_index x objid a b = Some index -> c_string index.
Proof.
  intros Hx. unfold snmp_choose_index.
  assert (Hnum : forall index, (fun printed => text_behind x printed (b + 1)) <$> x_snprint_objid x true objid = Some index -> c_string index).
  { intros r. destruct (x_snprint_objid x true objid) as [s|] eqn:E; [|done]. intros [= <-]. apply text_behind_ok; [done|]. by apply (ok_print _ Hx _ _ _ E). }
  destruct (x_snprint_objid x false objid) as [s|] eqn:E; [|apply Hnum]. destruct (ok_print _ Hx _ _ _ E) as [Hs _].
  destruct (bool_decide _); [intros [= <-]; by apply text_behind_ok|]. destruct (x_snmp_parse_oid x _) as [p|]; [|apply Hnum].
  destruct (bool_decide _); [intros [= <-]; by apply text_behind_ok|apply Hnum].
Qed.

Lemma decimal_string n : 0 <= n -> c_string (print_uint64 n).
Proof.
  intros Hn. pose proof (decimal_digits 20 n [] Hn ltac:(constructor)) as Hd. eapply Forall_impl; [exact Hd|]. unfold isdigit. intros c Hc. unbool. lia.
Qed.

Lemma bytes_string s : Forall (fun c => c <> 0) (bytes s) -> c_string (bytes s).
Proof.
  intros Hs. unfold c_string. rewrite Forall_forall in *. intros c Hc. specialize (Hs c Hc). unfold bytes in Hc.
  apply list_elem_of_fmap in Hc as (a & -> & _). pose proof (Ascii.N_ascii_bounded a). lia.
Qed.

Lemma c_string_drop n s : c_string s -> c_string (drop n s).
Proof. apply Forall_drop. Qed.

Lemma octet_string x ids t s : externals_ok x -> all_bytes s -> c_string (octet_text (x_has_hint x) (x_snprint_value x) ids t s).
Proof.
  intros Hx Hs. unfold octet_text. assert (Hb : c_string (default [] (x_snprint_value x ids t s))) by (destruct (x_snprint_value x ids t s) eqn:E; [by eapply ok_value|constructor]).
  repeat case_match; try by apply c_string_drop. by apply c_str_string.
Qed.

Lemma byte_of_nonneg s k : all_bytes s -> 0 <= byte_of s k.
Proof.
  intros Hs. unfold byte_of. destruct (s !! k) as [c|] eqn:E; cbn; [|done]. unfold all_bytes in Hs. rewrite Forall_lookup in Hs. apply (Hs _ _ E).
Qed.

#[local] Abbreviation result_of x := (result_of (x_has_hint x) (x_snprint_value x)).

Lemma result_text_ok x d : externals_ok x -> good_binding d -> (result_of x d).1 = SUCCEED ->
  exists t, result_text (result_of x d).2 = Some t /\ c_string t.
Proof.
  intros Hx [_ Hd]. unfold SnmpRules.result_of, decoded in *. destruct (bd_value d) as [|n|n|s|o]; try done.
  - destruct (type_kind (bd_type d)); try done. intros _. destruct (_ =? SNMP_TP_INT); [destruct (Z.geb_spec n 0)|]; eexists; (split; [done|]).
    + by apply decimal_string.
    + apply Forall_app. split; [|apply bytes_string; repeat constructor; done]. unfold print_int64. destruct (Z.ltb_spec n 0); [|lia].
      constructor; [lia|]. apply decimal_string. lia.
    + apply decimal_string. pose proof (u32_range n). lia.
  - destruct (type_kind (bd_type d)); try done. intros _. eexists. split; [done|]. apply decimal_string. lia.
  - destruct (type_kind (bd_type d)); try done. destruct Hd as (Hb & _). intros _. destruct (_ =? _); eexists; (split; [done|]).
    + unfold dotted. assert (Hdot : c_string [46]) by (repeat constructor). pose proof (byte_of_nonneg s) as Hn.
      repeat (apply Forall_app; split); try done; by apply decimal_string, Hn.
    + by apply octet_string.
Qed.

(** ** Callbacks *)

Section walk.
Context {T I : Type} `{SessionTable T I}.
Variable x : externals.
Hypothesis Hx : externals_ok x.
Variable e : env I.
Variable id : Z.
Variable w0 : world T.
Hypothesis garbage : e_garbage e <> FAIL.

#[local] Abbreviation focus := (focus e id w0).
Implicit Types (w : world T) (i : item) (l : list action).

(** The item when its walk has ended. *)
Definition idle (i : item) : item := set_data None (queued e i).

Lemma wp_stop fr i s l w (Q : unit -> world T -> Prop) :
  focus fr i s l w -> it_sessid i = s -> (forall w', focus fr (idle i) 0 l w' -> Q tt w') -> wp (stop_item_poll e id) Q w.
Proof. intros F <- HQ. unfold stop_item_poll. runs F. apply HQ. exact F. Qed.

Lemma wp_submit d fr i s l w (Q : unit -> world T -> Prop) :
  focus fr i s l w -> it_data i = Some d -> Forall c_string (params d) -> Forall (object_ok (params d)) (objects d) ->
  (forall text w', text_of (discovery_json d) text -> focus fr i s (l ++ [A_text text; A_iface_succeed]) w' -> Q tt w') ->
  wp (snmp_walk_submit_result x id) Q w.
Proof.
  intros F Ed Hp Ho HQ. destruct (submit_text x d Hp Ho) as (js & js' & text & Hi & Ha & Ht & Hj). unfold snmp_walk_submit_result.
  run F. run F. run F; [by rewrite Ed|]. run F. run F; [exact Hi|]. run F. run F; [exact Ha|]. runs F.
  rewrite Ht, <- app_assoc in F. by apply (HQ text).
Qed.

Definition next_data (d : snmp_ddata) (str num_text ids : list Z) : snmp_ddata :=
  set_root (Oid (Some ids) (zlen ids)) (set_lens (zlen str) (zlen num_text) (set_num (num d + 1) d)).

(** Why a root cannot be walked. *)
Definition root_error (root : list Z) : option string :=
  match x_snmp_parse_oid x root with
  | None => Some "snmp_parse_oid(): cannot parse OID"%string
  | Some ids =>
      match x_snprint_objid x false ids, x_snprint_objid x true ids with
      | None, _ => Some "snmp_print_oid(): cannot print OID with string indices."%string
      | Some _, None => Some "snmp_print_oid(): cannot print OID  with numeric indices."%string
      | Some _, Some _ => None
      end
  end.

(** What follows when a subtree is done: the result after the last root, an
    error when the next root cannot be used, or a request for it. *)
Inductive walk_next (i : item) (d : snmp_ddata) (l : list action) : item -> Z -> list action -> Prop :=
  | next_done text : roots d <= num d + 1 -> text_of (discovery_json d) text ->
      walk_next i d l (idle i) 0 (l ++ [A_text text; A_iface_succeed])
  | next_error m root : num d + 1 < roots d -> zget (params d) ((num d + 1) * 2 + 1) = Some root -> root_error root = Some m ->
      walk_next i d l (idle i) 0 (l ++ [A_error m])
  | next_sent sid root str num_text ids : num d + 1 < roots d -> zget (params d) ((num d + 1) * 2 + 1) = Some root ->
      x_snmp_parse_oid x root = Some ids -> x_snprint_objid x false ids = Some str -> x_snprint_objid x true ids = Some num_text -> good_ids ids -> 0 < sid < 2 ^ 31 ->
      walk_next i d l (waiting sid (set_data (Some (next_data d str num_text ids)) i)) sid (l ++ [sent_packet x i SNMP_CMD_GET_NEXT sid ids]).

Lemma param_at d : walk_data d -> num d + 1 < roots d -> exists root, zget (params d) ((num d + 1) * 2 + 1) = Some root.
Proof.
  intros [] Hn. unfold roots in *. unfold zget. destruct (Z.ltb_spec ((num d + 1) * 2 + 1) 0); [lia|].
  destruct (lookup_lt_is_Some_2 (params d) (Z.to_nat ((num d + 1) * 2 + 1))) as [root ->]; [|by eexists]. unfold zlen in *. dlia.
Qed.

Lemma wp_start_next d i l w (Q : Z -> world T -> Prop) :
  focus true i 0 l w -> it_data i = Some d -> it_sessid i = 0 -> walk_data d -> good_roots x (params d) -> conf_ok x (it_conf i) ->
  (forall r i' s' l' w', walk_next i d l i' s' l' -> focus (bool_decide (s' = 0)) i' s' l' w' -> Q r w') ->
  wp (snmp_walk_start_next_oid x e id) Q w.
Proof.
  intros F Ed Es W Hgr Hc HQ. unfold snmp_walk_start_next_oid. run F. rewrite Ed. run F. run F. fold (roots d).
  change (num (set_num (num d + 1) d)) with (num d + 1). change (zlen (params (set_num (num d + 1) d)) / 2) with (roots d).
  destruct (Z.geb_spec (num d + 1) (roots d)) as [Hge|Hlt].
  { run F. eapply wp_submit; [exact F|reflexivity|by destruct W|by destruct W|]. clear F. intros text w1 Ht F. run F.
    eapply wp_stop; [exact F|done|]. clear F. intros w'' F. run F. eapply HQ; [apply (next_done _ _ _ text); [lia|exact Ht]|exact F]. }
  destruct (param_at d W Hlt) as [root Hroot]. run F. run F; [cbn [params set_num]; by rewrite Hroot|]. pose proof (asn_ok x root (Hgr _ _ Hroot)) as Hp.
  assert (Herr : forall m, root_error root = Some m -> wp (_ ← out id (A_error m); _ ← stop_item_poll e id; mret FAIL) Q w').
  { intros m Hm. runs F. eapply wp_stop; [exact F|done|]. clear F. intros w'' F. run F. eapply HQ; [by apply (next_error _ _ _ m root)|exact F]. }
  unfold root_error in Herr.
  destruct (x_snmp_parse_oid x root) as [ids|] eqn:Ep; [|by apply Herr].
  destruct (x_snprint_objid x false ids) as [str|] eqn:Estr; [|by apply Herr]. destruct (x_snprint_objid x true ids) as [num_text|] eqn:Enum; [|by apply Herr].
  clear Herr. destruct Hp as [-> Hids]. cbv beta iota zeta. run F. run F. eapply wp_fill; [exact F|]. apply Z.eqb_neq in garbage as ->. run F. run F. run F.
  eapply wp_send; [done|exact F|done|done|done|done|done|apply is_oid_self|done|]. clear F. intros sid w2 Hsid F. run F.
  eapply HQ; [by apply (next_sent _ _ _ sid root str num_text ids)|]. rewrite bool_decide_eq_false_2 by lia. exact F.
Qed.

(** [d'] is [d] with other values and counters. *)
Definition same_walk (d d' : snmp_ddata) : Prop :=
  walk_data d' /\ num d' = num d /\ params d' = params d /\ root_oid d' = root_oid d /\ last_oid d' = last_oid d /\
  root_oid_str_len d' = root_oid_str_len d /\ root_oid_num_len d' = root_oid_num_len d.

(** The components of an identifier. *)
Definition oid_ids (o : asn1_oid) : list Z := take (Z.to_nat (oid_len o)) (default [] (oid_b o)).

Lemma is_oid_ids o ids : is_oid o ids -> oid_ids o = ids.
Proof. intros (rest & Hb & Hl). unfold oid_ids. rewrite Hb, Hl, to_nat_zlen. apply take_app_length. Qed.

(** The variable is an object of the subtree that is walked. *)
Definition inside (d : snmp_ddata) (b : binding) : Prop :=
  bd_type b <> SNMP_TP_END_OF_MIB_VIEW /\ oid_ids (root_oid d) `prefix_of` bd_oid b.

(** It is an object that can be recorded: it is there, it is not the one that
    was asked for, and not too many were recorded before. *)
Definition proceeds (d : snmp_ddata) (b : binding) : Prop :=
  inside d b /\ bd_type b <> SNMP_TP_NO_SUCH_INSTANCE /\ bd_oid b <> oid_ids (last_oid d) /\ oids_looped d <= SNMP_WALK_MAX_OIDS.

(** Why a variable ends the walk of a subtree, and what is reported. *)
Inductive stops (d : snmp_ddata) (b : binding) : snmp_ddata -> list action -> Prop :=
  | stops_outside : ~ inside d b -> stops d b d []
  | stops_missing : inside d b -> bd_type b = SNMP_TP_NO_SUCH_INSTANCE -> stops d b d [A_error (snmp_err_to_text SNMP_TP_NO_SUCH_INSTANCE)]
  | stops_same : inside d b -> bd_type b <> SNMP_TP_NO_SUCH_INSTANCE -> bd_oid b = oid_ids (last_oid d) ->
      stops d b d [A_error "Cannot walk item: oid is not increasing"]
  | stops_many : inside d b -> bd_type b <> SNMP_TP_NO_SUCH_INSTANCE -> bd_oid b <> oid_ids (last_oid d) -> SNMP_WALK_MAX_OIDS < oids_looped d ->
      stops d b (set_looped (oids_looped d + 1) d) [A_error "Cannot walk item: too many oids or cycle"]
  | stops_index : proceeds d b -> snmp_choose_index x (bd_oid b) (root_oid_str_len d) (root_oid_num_len d) = None ->
      stops d b (set_looped (oids_looped d + 1) d) [A_error "zbx_snmp_choose_index(): cannot choose appropriate index while walking for OID"].

(** The value of the variable is kept under its index for the root that is
    walked; a variable without a value changes nothing. *)
Definition recorded (d : snmp_ddata) (b : binding) (d' : snmp_ddata) : Prop :=
  proceeds d b /\ exists index, snmp_choose_index x (bd_oid b) (root_oid_str_len d) (root_oid_num_len d) = Some index /\
    forall index' n, 0 <= n < roots d ->
      value_at d' index' n =
        if decide ((index' = index /\ n = num d) /\ (result_of x b).1 = SUCCEED) then result_text (result_of x b).2 else value_at d index' n.

Lemma same_ids_ok a b xs ys : is_oid a xs -> is_oid b ys -> zlen xs <= zlen ys ->
  exists r : bool, same_ids (Z.to_nat (oid_len a)) a b 0 = Ret r /\ (r = true <-> xs `prefix_of` ys).
Proof.
  intros (ra & Ha & Hla) (rb & Hb & Hlb) Hl. rewrite Hla, to_nat_zlen. clear Hla Hlb.
  assert (Hgen : forall pre qre, oid_b a = Some (pre ++ xs ++ ra) -> oid_b b = Some (qre ++ ys ++ rb) -> zlen pre = zlen qre ->
    exists r : bool, same_ids (length xs) a b (zlen pre) = Ret r /\ (r = true <-> xs `prefix_of` ys)); [|by apply (Hgen [] [])].
  clear Ha Hb. revert ys Hl. induction xs as [|c xs IH]; intros ys Hl pre qre Ha Hb Hpq; cbn [length same_ids].
  { exists true. split; [done|]. split; [|done]. intros _. apply prefix_nil. }
  destruct ys as [|d ys]; [exfalso; lens|]. rewrite Ha, Hb. cbn [app]. rewrite (rd_at pre) by done. cbn [mbind res_mbind]. rewrite (rd_at qre) by done.
  cbn [mbind res_mbind]. destruct (Z.eqb_spec c d) as [->|Hne].
  - replace (zlen pre + 1) with (zlen (pre ++ [d])) by lens. destruct (IH ys) with (pre := pre ++ [d]) (qre := qre ++ [d]) as (r & -> & Hr); try (by rewrite <- app_assoc); [lens|lens|].
    exists r. split; [done|]. rewrite Hr. split; [apply prefix_cons|apply prefix_cons_inv_2].
  - exists false. split; [done|]. split; [done|]. intros Hp%prefix_cons_inv_1. done.
Qed.

Lemma set_data_id d i : it_data i = Some d -> set_data (Some d) i = i.
Proof. destruct i. cbn. by intros ->. Qed.

Lemma wp_process_var d b v fr i s l w (Q : Z -> world T -> Prop) :
  focus fr i s l w -> it_data i = Some d -> walking x d -> is_var v b -> good_binding b -> printable (x_snprint_value x) b ->
  (forall d' w', same_walk d d' -> oids_looped d' = oids_looped d + 1 -> oids_looped d <= SNMP_WALK_MAX_OIDS -> recorded d b d' ->
     focus fr (set_data (Some d') i) s l w' -> Q SUCCEED w') ->
  (forall d' acts w', same_walk d d' -> stops d b d' acts -> focus fr (set_data (Some d') i) s (l ++ acts) w' -> Q FAIL w') ->
  wp (snmp_walk_process_var x id v) Q w.
Proof.
  intros F Ed [W Hn Hl [root Hroot] [last [Hlast _]] _] Hv Hb Hpr Hok Hfail. pose proof Hv as (Ho & Ht & _). pose proof Hb as [[Hids Hlen] _].
  assert (Hsame : same_walk d d) by done.
  assert (Hend : forall acts w', stops d b d acts -> focus fr i s (l ++ acts) w' -> Q FAIL w').
  { intros acts w' Hs F'. eapply (Hfail d acts w'); [done|done|]. by rewrite set_data_id. }
  unfold snmp_walk_process_var. run F. rewrite Ed. run F.
  assert (Hout : exists r : bool, (if (SNMP_TP_END_OF_MIB_VIEW =? var_type v) || (oid_len (var_oid v) <? oid_len (root_oid d)) then Ret true
      else same ← same_ids (Z.to_nat (oid_len (root_oid d))) (root_oid d) (var_oid v) 0; Ret (negb same)) = Ret r /\ (r = false <-> inside d b)).
  { unfold inside. rewrite (is_oid_ids _ _ Hroot), Ht. pose proof Hroot as (? & _ & Er). pose proof Ho as (? & _ & Eo). rewrite Er, Eo, <- Er.
    destruct (Z.eqb_spec SNMP_TP_END_OF_MIB_VIEW (bd_type b)) as [E|Hne]; cbn [orb]; [exists true; split; [done|]; split; [done|]; intros [Hx' _]; congruence|].
    rewrite Er. destruct (Z.ltb_spec (zlen (bd_oid b)) (zlen root)) as [Hlt|Hge]; cbn [orb]; [exists true; split; [done|]; split; [done|]; intros [_ Hpre%prefix_length]; unfold zlen in *; lia|].
    rewrite <- Er. destruct (same_ids_ok _ _ _ _ Hroot Ho Hge) as (r & -> & Hr). exists (negb r). split; [done|]. destruct r; naive_solver. }
  destruct Hout as (outside & Hout & Hin). run F; [exact Hout|]. destruct outside.
  { run F. eapply Hend; [apply stops_outside; intros H'; by apply Hin in H'|rewrite app_nil_r; exact F]. }
  assert (Hi : inside d b) by (by apply Hin). rewrite Ht. destruct (Z.eqb_spec SNMP_TP_NO_SUCH_INSTANCE (bd_type b)) as [E|Hno].
  { rewrite <- E. runs F. eapply Hend; [|exact F]. by apply stops_missing. }
  run F. run F; [by apply (cmp_oids_ok _ _ _ _ Hlast Ho)|]. rewrite <- (is_oid_ids _ _ Hlast) in *. rewrite (Z.eqb_sym 0).
  destruct (Z.eqb_spec (lex (oid_ids (last_oid d)) (bd_oid b)) 0) as [E%lex_0|Hne0]; [runs F; eapply Hend; [|exact F]; by apply stops_same|].
  assert (Hne : bd_oid b <> oid_ids (last_oid d)) by (intros E; apply Hne0, lex_0; done). clear Hne0. run F. run F.
  set (d1 := set_looped (oids_looped d + 1) d) in *.
  assert (W1 : walk_data d1) by (by destruct W; split). assert (Hsame1 : same_walk d d1) by (by split_and!).
  destruct (Z.gtb_spec (oids_looped d) SNMP_WALK_MAX_OIDS) as [Hgt|Hle]; [runs F; eapply (Hfail d1); [done|by apply stops_many|exact F]|].
  assert (Hgo : proceeds d b) by (split_and!; [done|congruence|done|done]).
  destruct (oid_2_netsnmp_ok _ _ (x_junk x) Ho Hlen) as (name & Hcopy & Hname). run F. run F; [exact Hcopy|]. rewrite Hname.
  change (root_oid_str_len d1) with (root_oid_str_len d). change (root_oid_num_len d1) with (root_oid_num_len d).
  destruct (snmp_choose_index x _ _ _) as [index|] eqn:Ei; [|runs F; eapply (Hfail d1); [done|by apply stops_index|exact F]].
  run F. run F; [by apply (set_result_some x v b)|]. pose proof (result_text_ok x b Hx Hb) as Htext. destruct (result_of x b) as [ret r] eqn:Er. cbn [fst snd] in Htext.
  run F. destruct (Z.eqb_spec ret SUCCEED) as [->|Hner].
  - destruct (Htext eq_refl) as (t & Hr & Hst). destruct (save_value_ok d1 index t W1 Hn (choose_index_ok _ _ _ _ _ Hx Ei) Hst) as (objs & Hsave & W2 & Hval).
    run F. run F; [by rewrite Hr|]. run F. run F; [exact Hsave|]. runs F. eapply (Hok (set_objects objs d1)); [done|done|done| |exact F].
    split; [done|]. exists index. split; [done|]. intros index' n Hn'. rewrite (Hval index' n Hn'), Er. cbn [fst snd]. change (num d1) with (num d).
    repeat case_decide; try done; naive_solver.
  - run F. run F. eapply (Hok d1); [done|done|done| |exact F]. split; [done|]. exists index. split; [done|]. intros index' n Hn'. rewrite Er. cbn [fst snd].
    by rewrite decide_False by naive_solver.
Qed.

Lemma same_walk_trans d1 d2 d3 : same_walk d1 d2 -> same_walk d2 d3 -> same_walk d1 d3.
Proof. unfold same_walk. intuition congruence. Qed.

Lemma same_walking d d' : walking x d -> same_walk d d' -> 0 <= oids_looped d' <= SNMP_WALK_MAX_OIDS + 1 -> walking x d'.
Proof. intros [] (W & En & Ep & Er & El & _) Hl. split; rewrite ?En, ?Er, ?El, ?Ep; done. Qed.

(** All variables of an answer were recorded, one after the other. *)
Inductive walked : snmp_ddata -> list binding -> snmp_ddata -> Prop :=
  | walked_nil d : walked d [] d
  | walked_cons d b d1 bs d2 : recorded d b d1 -> walked d1 bs d2 -> walked d (b :: bs) d2.

(** The variables before the one that ends the subtree were recorded. *)
Definition ended (d : snmp_ddata) (bs : list binding) (d' : snmp_ddata) (acts : list action) : Prop :=
  exists bs1 b bs2 d1, bs = bs1 ++ b :: bs2 /\ walked d bs1 d1 /\ stops d1 b d' acts.

Lemma wp_walk_vars p pre vars bs d fr i s l w (Q : bool -> world T -> Prop) :
  p_vars p = Some (pre ++ vars) -> Forall2 is_var vars bs -> Forall good_binding bs -> Forall (printable (x_snprint_value x)) bs -> focus fr i s l w -> it_data i = Some d -> walking x d ->
  (forall d' w', walked d bs d' -> same_walk d d' -> walking x d' -> oids_looped d' = oids_looped d + zlen bs ->
     focus fr (set_data (Some d') i) s l w' -> Q true w') ->
  (forall d' acts w', same_walk d d' -> ended d bs d' acts -> focus fr (set_data (Some d') i) s (l ++ acts) w' -> Q false w') ->
  wp (walk_vars_loop x (length vars) id p (zlen pre)) Q w.
Proof.
  intros Hp Hv. revert pre d i w Hp. induction Hv as [|v b vars bs Hvb _ IH]; intros pre d i w Hp Hb Hpr F Ed W Hok Hfail; cbn [length walk_vars_loop].
  { run F. apply (Hok d); [constructor|by split_and!; try done; apply W|done|rewrite (zlen_nil (A := binding)); lia|by rewrite set_data_id]. }
  apply Forall_cons in Hb as [Hb Hbs]. apply Forall_cons in Hpr as [Hpb Hpr]. run F. run F; [rewrite Hp; by apply rd_at|]. run F.
  eapply wp_process_var; [exact F|exact Ed|done|exact Hvb|done|done| |].
  - clear F. intros d1 w1 Hs Hl Hm Hr F. change (SUCCEED =? FAIL) with false. cbv iota.
    replace (zlen pre + 1) with (zlen (pre ++ [v])) by lens. assert (W1 : walking x d1) by (eapply same_walking; [done|done|destruct W; lia]).
    eapply (IH _ d1); [by rewrite Hp, <- app_assoc|done|done|exact F|done|done| |].
    + intros d2 w2 Hw Hs2 W2 Hl2 F2. apply (Hok d2); [by econstructor|by eapply same_walk_trans|done|rewrite zlen_cons; lia|exact F2].
    + intros d2 acts w2 Hs2 (bs1 & b2 & bs2 & d3 & -> & Hw & Hst) F2. eapply Hfail; [by eapply same_walk_trans| |exact F2].
      exists (b :: bs1), b2, bs2, d3. split_and!; try done. by econstructor.
  - clear F. intros d1 acts w1 Hs Hst F. change (FAIL =? FAIL) with true. run F. eapply Hfail; [done| |exact F]. exists [], b, bs, d. split_and!; try done. constructor.
Qed.

Lemma copy_oid_ok o ids : is_oid o ids -> copy_oid o = Ret (Oid (Some ids) (zlen ids)).
Proof.
  intros (rest & Ho & Hl). unfold copy_oid. rewrite Ho, Hl. cbn [of_opt mbind res_mbind]. rewrite (load_ok [] ids rest) by done. done.
Qed.

(** An answer to a walk: the next object of the subtree is asked for, or the
    subtree is done. *)
Lemma wp_walk_answer p bs d i l w (Q : unit -> world T -> Prop) :
  good_answer x p bs -> focus true i 0 l w -> it_data i = Some d -> walking x d -> it_sessid i = 0 -> conf_ok x (it_conf i) ->
  (forall d' ids sid w', bd_oid <$> last bs = Some ids -> walked d bs d' -> same_walk d d' -> oids_looped d' = oids_looped d + zlen bs -> 0 < sid < 2 ^ 31 ->
     let d'' := set_last_oid (Oid (Some ids) (zlen ids)) d' in walking x d'' ->
     focus false (waiting sid (set_data (Some d'') i)) sid (l ++ [sent_packet x i SNMP_CMD_GET_NEXT sid ids]) w' -> Q tt w') ->
  (forall d' acts i' s' l' w', same_walk d d' -> (bs = [] /\ d' = d /\ acts = []) \/ ended d bs d' acts -> walk_next (set_data (Some d') i) d' (l ++ acts) i' s' l' ->
     focus (bool_decide (s' = 0)) i' s' l' w' -> Q tt w') ->
  wp (snmp_walk_process_result x e id p) Q w.
Proof.
  intros [(vars & [Hn Hp] & Hv) [Hb Hpr]] F Ed W Es Hc Hmore Hnext. unfold snmp_walk_process_result. rewrite Hn.
  assert (Hend : forall d' acts w1, same_walk d d' -> (bs = [] /\ d' = d /\ acts = []) \/ ended d bs d' acts -> focus true (set_data (Some d') i) 0 (l ++ acts) w1 ->
    wp (_ ← snmp_walk_start_next_oid x e id; mret tt) Q w1).
  { intros d' acts w1 Hs Hl1 F1. apply wp_bind. eapply wp_start_next; [exact F1|done|done|apply Hs|pose proof Hs as (_ & _ & -> & _); apply W|done|].
    intros r i' s' l' w' Hw F'. apply wp_ret. by eapply Hnext. }
  destruct (Z.ltb_spec (zlen vars) 1) as [Hlt|Hge].
  { assert (vars = []) as -> by (destruct vars; [done|exfalso; lens]). apply Forall2_nil_inv_l in Hv as ->.
    eapply (Hend d []); [by split_and!; try done; apply W|by left|by rewrite set_data_id, app_nil_r]. }
  destruct Hp as [Hp|[Hp ->]]; [|exfalso; lens]. run F. rewrite to_nat_zlen. change 0 with (zlen (A := csnmp_var) []).
  eapply wp_walk_vars; [by rewrite Hp|done|done|done|exact F|exact Ed|done| |].
  2:{ intros d' acts w' Hs Hst F'. cbn [negb]. eapply Hend; [done|by right|exact F']. }
  clear F. intros d' w1 Hw Hs W1 Hl F. cbn [negb].
  destruct (exists_last (l := vars)) as (vars' & v & ->); [intros ->; lens|].
  apply Forall2_app_inv_l in Hv as (bs' & bl & _ & Hvl & ->). apply Forall2_cons_inv_l in Hvl as (b & bl' & Hvb & Hnil & ->). apply Forall2_nil_inv_l in Hnil as ->.
  apply Forall_app in Hb as [_ Hb]. apply Forall_cons in Hb as [[Hids _] _]. destruct Hvb as (Ho & _ & _).
  run F. run F; [rewrite Hp; apply rd_at; lens|]. run F. run F; [by apply copy_oid_ok|]. run F. run F. run F; [done|]. run F. run F.
  eapply wp_fill; [exact F|]. eapply wp_send; [done|exact F|done|done|done|done|done|apply is_oid_self|done|].
  clear F. intros sid w2 Hsid F. eapply (Hmore d' (bd_oid b) sid); try done; [by rewrite last_snoc|].
  destruct W1. split; try done; [by destruct wk_data0; split|]. exists (bd_oid b). split; [apply is_oid_self|done].
Qed.

Lemma wp_walk_timeout d i l w (Q : unit -> world T -> Prop) :
  focus true i 0 l w -> it_data i = Some d -> walking x d -> conf_ok x (it_conf i) ->
  (gives_up i = true -> forall w', focus true (queued e (set_data None i)) 0 (l ++ [A_error "SNMP timeout: max retries exceeded"]) w' -> Q tt w') ->
  (gives_up i = false -> forall ids sid w', is_oid (last_oid d) ids -> 0 < sid < 2 ^ 31 ->
     focus false (set_retries (u8 (it_retries i + 1)) (waiting sid i)) sid (l ++ [sent_packet x i SNMP_CMD_GET_NEXT sid ids]) w' -> Q tt w') ->
  wp (snmp_walk_timeout x e id) Q w.
Proof.
  intros F Ed [_ _ _ _ (ids & Ho & Hids) _] Hc Hup Hagain. unfold snmp_walk_timeout. run F. fold (gives_up i). destruct (gives_up i).
  - runs F. by apply Hup.
  - run F. run F; [by rewrite Ed|]. eapply wp_fill; [exact F|]. run F. run F; [by apply copy_oid_ok|]. run F.
    eapply wp_send; [done|exact F|done|done|done|done|done|apply is_oid_self|done|]. clear F. intros sid w1 Hsid F. runs F. by eapply (Hagain eq_refl ids sid).
Qed.

(** A new walk. *)
Lemma wp_walk_first i s l w (Q : Z -> world T -> Prop) :
  focus true i s l w -> conf_ok x (it_conf i) -> it_sessid i = s -> (it_data i = None -> s = 0) ->
  (forall r m w', focus true i s (l ++ [A_error m]) w' -> Q r w') ->
  (forall r d i' s' l' w', walk_data d -> good_roots x (params d) -> num d = -1 -> objects d = [] -> it_data i = None -> walk_next (set_data (Some d) i) d l i' s' l' ->
     focus (bool_decide (s' = 0)) i' s' l' w' -> Q r w') ->
  wp (snmp_walk_send_first_request x e id) Q w.
Proof.
  intros F Hc Es Hs Herr Hnext. unfold snmp_walk_send_first_request. run F. destruct (it_data i) as [d|] eqn:Ed; [runs F; by eapply Herr|].
  specialize (Hs eq_refl). subst s. rewrite Hs in *.
  run F. unfold snmp_ddata_init. run F. pose proof (ok_key _ Hx (c_oid (it_conf i))) as Hkey. destruct (x_zbx_parse_item_key x _) as [ps|] eqn:Ek; [|runs F; by eapply Herr].
  pose proof (proj2 (proj2 (proj2 (proj2 Hc))) _ Ek) as Hgr.
  specialize (Hkey ps eq_refl). destruct ((zlen ps =? 0) || negb (Z.even (zlen ps))) eqn:En; [runs F; by eapply Herr|].
  destruct (list_find _ (macros ps)) as [[k m]|]; [runs F; by eapply Herr|].
  destruct (has_duplicate _); [runs F; by eapply Herr|]. run F. run F. run F. change (SUCCEED =? FAIL) with false. run F.
  apply orb_false_iff in En as [Hz%Z.eqb_neq Hev%negb_false_iff]. apply Z.even_spec in Hev as [k Hk]. pose proof (zlen_nonneg ps).
  eapply wp_start_next; [exact F|reflexivity|exact Hs| |exact Hgr|exact Hc|].
  - split; cbn [params num objects]; [done| |constructor|constructor]. unfold roots. cbn [params]. rewrite Hk. dlia.
  - intros r i' s' l' w1 Hw F'. run F'. eapply Hnext; [| | | | |exact Hw|exact F']; try done.
    split; cbn [params num objects]; [done| |constructor|constructor]. unfold roots. cbn [params]. rewrite Hk. dlia.
Qed.
End walk.
