(* ===== verification/SnmpSafe.v ===== *)
(** * What the SNMP poller guarantees

    The invariant of the poller, which ties the open sessions to the items
    that wait for an answer, and that every event the poller handles keeps it
    and ends without an invalid access; that polls end; what is sent for an
    item and what becomes of the answers. *)
From stdpp Require Import prelude list gmap strings.
From Stdlib Require Import ZArith Lia.
From S2P Require Import Prelude SessionTable JsonText JsonParser JsonBuild Asn1 Csnmp SnmpPoll SnmpRules SnmpWalk.
#[local] Open Scope Z_scope.

(** ** The invariant *)

Definition is_get (i : item) : Prop := c_req_type (it_conf i) = SNMP_CMD_GET.

(** An item waits for an answer exactly when it has a session.  A GET item
    that waits is being polled; a walk has data exactly while it waits. *)
Record item_inv (x : externals) (i : item) : Prop := {
  ii_conf : conf_ok x (it_conf i);
  ii_retries : 0 <= it_retries i <= SNMP_MAX_RETRIES;
  ii_timer : it_timer i = true <-> it_sessid i <> 0;
  ii_get : is_get i -> it_data i = None /\ (it_timer i = true -> it_state i = POLL_POLLING);
  ii_walk : ~ is_get i -> match it_data i with Some d => walking x d /\ it_timer i = true | None => it_timer i = false end }.

Record poller_inv {T I} `{SessionTable T I} (x : externals) (w : world T) : Prop := {
  pi_table : table_ok (w_sess w);
  pi_items id i : w_items w !! id = Some i -> id <> 0 /\ item_inv x i;
  pi_sessions sid id : open_sessions (w_sess w) !! sid = Some id <-> sid <> 0 /\ exists i, w_items w !! id = Some i /\ it_sessid i = sid }.

(** How many more callbacks a poll can take. *)
Definition measure (i : item) : Z :=
  if it_timer i then
    match it_data i with
    | Some d => 3 * ((roots d - num d) * (SNMP_WALK_MAX_OIDS + 3) - oids_looped d) + 3 - it_retries i
    | None => 3 - it_retries i
    end
  else 0.

(** [i'] is a good state of the item [i] with the session [s']. *)
Record settled (x : externals) (i i' : item) (s' : Z) : Prop := {
  se_inv : item_inv x i';
  se_sess : it_sessid i' = s';
  se_conf : it_conf i' = it_conf i;
  se_poll : it_poll i' = it_poll i }.

(** A callback of a poll: it is closer to its end, or over. *)
Definition closer (i i' : item) : Prop :=
  0 <= measure i' < measure i /\ (it_timer i' = false -> it_state i' = POLL_QUEUED).

Lemma off_inv x i : conf_ok x (it_conf i) -> 0 <= it_retries i <= SNMP_MAX_RETRIES -> it_timer i = false -> it_sessid i = 0 -> it_data i = None -> item_inv x i.
Proof. intros Hc Hr Ht Hs Hd. split; try done; rewrite ?Ht, ?Hs, ?Hd; naive_solver. Qed.

Lemma on_inv x i : conf_ok x (it_conf i) -> 0 <= it_retries i <= SNMP_MAX_RETRIES -> it_timer i = true -> it_sessid i <> 0 ->
  (is_get i -> it_data i = None /\ it_state i = POLL_POLLING) -> (~ is_get i -> exists d, it_data i = Some d /\ walking x d) -> item_inv x i.
Proof.
  intros Hc Hr Ht Hs Hg Hw. split; try done; rewrite ?Ht; [naive_solver|]. intros Hn. by destruct (Hw Hn) as (d & -> & ?).
Qed.

Section focus.
Context {T I : Type} `{SessionTable T I} {x : externals}.
Variable e : env I.

Lemma focus_start id (w : world T) i : poller_inv x w -> w_items w !! id = Some i -> input_ok (w_sess w) (e_input e) ->
  focus e id w true i (it_sessid i) [] w.
Proof.
  intros [] Hi Hin. split; try done.
  - by rewrite insert_id.
  - destruct (open_sessions (w_sess w) !! 0) eqn:E; [|done]. by apply pi_sessions0 in E as [? _].
  - intros sid. rewrite pi_sessions0. split; [intros (Hs & i' & Hi' & <-); by simplify_eq|]. intros [-> Hs]. split; [done|]. by exists i.
  - cbn. by rewrite app_nil_r.
Qed.

Lemma focus_end id (w0 w : world T) fr i0 i' s' l : poller_inv x w0 -> w_items w0 !! id = Some i0 -> focus e id w0 fr i' s' l w ->
  item_inv x i' -> it_sessid i' = s' -> poller_inv x w.
Proof.
  intros [] Hi [] Hinv Hsess. split; [done| |].
  - intros id' i. rewrite fo_items, lookup_insert_Some. intros [[<- <-]|[_ Hi']]; [|by apply pi_items0]. split; [|done]. by apply (pi_items0 id i0).
  - intros sid y. destruct (decide (y = id)) as [->|Hx].
    + rewrite fo_own, fo_items. setoid_rewrite lookup_insert_eq. split.
      * intros [-> Hs]. split; [done|]. by exists i'.
      * intros (Hs & i & Hi' & <-). simplify_eq. done.
    + rewrite fo_other, pi_sessions0 by done. rewrite fo_items. by setoid_rewrite lookup_insert_ne.
Qed.
End focus.

Section callbacks.
Context {T I : Type} `{SessionTable T I}.
Variable x : externals.
Hypothesis Hx : externals_ok x.
Variable e : env I.
Hypothesis garbage : e_garbage e <> FAIL.
Variable id : Z.
Variable w0 : world T.

#[local] Abbreviation focus := (focus e id w0).
Implicit Types (w : world T) (i : item) (l : list action).

(** What holds of the item when a callback can send: no session and no timer. *)
Record ready (i : item) : Prop := {
  re_conf : conf_ok x (it_conf i);
  re_retries : 0 <= it_retries i <= SNMP_MAX_RETRIES;
  re_timer : it_timer i = false;
  re_sess : it_sessid i = 0 }.

Lemma get_settled i l i' s' l' : ready i -> is_get i -> it_data i = None -> it_state i = POLL_POLLING -> asked x e i l i' s' l' ->
  settled x i i' s' /\ 0 <= measure i' <= 3 - it_retries i /\ (it_timer i' = false -> it_state i' = POLL_QUEUED).
Proof.
  intros [] Hg Hd Hst Ha. unfold SNMP_MAX_RETRIES in *.
  assert (Hq : settled x i (queued e i) 0) by (split; try done; by apply off_inv). unfold measure.
  destruct Ha as [Ht|Ht Hp|sid ids Ht Hp Hsid]; cbn [it_timer queued waiting set_state set_lastpolltime set_timer set_sessid it_retries it_data].
  1, 2: rewrite re_timer0; (split; [done|split; [lia|done]]).
  rewrite Hd. split; [|split; [lia|done]]. split; try done. apply on_inv; try done. cbn. lia.
Qed.

Lemma walk_settled i d l i' s' l' : ready i -> ~ is_get i -> it_data i = Some d -> walk_data d -> good_roots x (params d) -> walk_next x e i d l i' s' l' ->
  settled x i i' s' /\ 0 <= measure i' <= Z.max 0 (3 * ((roots d - num d - 1) * (SNMP_WALK_MAX_OIDS + 3)) + 3 - it_retries i) /\
  (it_timer i' = false -> it_state i' = POLL_QUEUED).
Proof.
  intros [] Hg Hd W Hgr Hw. assert (Hq : settled x i (idle e i) 0) by (split; try done; by apply off_inv). unfold measure.
  destruct Hw as [text Hn Ht|m Hn|sid root str num_text ids Hn Hr Hp Hids Hsid];
    cbn [it_timer idle queued waiting set_state set_lastpolltime set_timer set_sessid set_data it_retries it_data].
  1, 2: rewrite re_timer0; (split; [done|split; [lia|done]]).
  destruct W as [Hps Hnum Hobj Hnd]. unfold next_data. unfold roots in *. unfold SNMP_WALK_MAX_OIDS, SNMP_MAX_RETRIES in *.
  cbn [num oids_looped set_root set_lens set_num params].
  split; [|split; [lia|done]]. split; try done. apply on_inv; try done; [cbn; lia|]. intros _. eexists. split; [done|].
  split; cbn [num oids_looped set_root set_lens set_num params root_oid last_oid]; [split; cbn; try done; unfold roots; cbn; lia|lia|unfold SNMP_WALK_MAX_OIDS; lia| | |done].
  - exists ids. apply is_oid_self.
  - exists ids. split; [apply is_oid_self|done].
Qed.

Lemma req_type_cases i : conf_ok x (it_conf i) ->
  (is_get i /\ (c_req_type (it_conf i) =? SNMP_CMD_GET_NEXT) = false /\ (c_req_type (it_conf i) =? SNMP_CMD_GET) = true) \/
  (~ is_get i /\ (c_req_type (it_conf i) =? SNMP_CMD_GET_NEXT) = true /\ (c_req_type (it_conf i) =? SNMP_CMD_GET) = false).
Proof. unfold is_get. by intros (_ & _ & [-> | ->] & _); [left|right]. Qed.

(** The start of a poll. *)
Lemma wp_send_request i s l w (Q : unit -> world T -> Prop) :
  focus true i s l w -> item_inv x i -> it_sessid i = s -> (is_get i -> it_timer i = false /\ it_state i = POLL_POLLING) ->
  (forall fr i' s' l' w', settled x i i' s' -> focus fr i' s' l' w' -> Q tt w') ->
  wp (snmp_send_request x e id) Q w.
Proof.
  intros F [] Es Hg HQ. unfold snmp_send_request. run F. run F. run F.
  assert (Hr : 0 <= it_retries (set_retries 0 i) <= SNMP_MAX_RETRIES) by done.
  destruct (req_type_cases i ii_conf0) as [(Hget & E1 & E2)|(Hget & E1 & E2)]; cbn [it_conf set_retries]; rewrite E1; [rewrite E2|].
  - destruct (Hg Hget) as [Ht Hst]. destruct (ii_get0 Hget) as [Hd _].
    assert (Hs0 : it_sessid i = 0) by (destruct (decide (it_sessid i = 0)); [done|]; apply ii_timer0 in n; congruence).
    rewrite <- Es, Hs0 in F. eapply wp_get_request; [done|done|exact F|done|]. intros i' s' l' w1 Ha F'.
    assert (Hready : ready (set_retries 0 i)) by done. destruct (get_settled _ _ _ _ _ Hready Hget Hd Hst Ha) as ([] & _). by eapply HQ.
  - specialize (ii_walk0 Hget). run F. assert (Hnone : it_data i = None -> it_sessid i = 0).
    { intros Hd. rewrite Hd in ii_walk0. destruct (decide (it_sessid i = 0)); [done|]. apply ii_timer0 in n. congruence. }
    eapply wp_walk_first; [done|done|exact F|done|exact Es|cbn [it_data set_retries]; naive_solver| |].
    + intros r m w1 F1. run F1. eapply HQ; [|exact F1]. by split.
    + intros r d i' s' l' w1 W Hgr Hn Ho Hd Hw F1. run F1. cbn [it_data set_retries] in Hd. rewrite Hd in ii_walk0.
      assert (Hready : ready (set_data (Some d) (set_retries 0 i))) by (split; try done; by apply Hnone).
      destruct (walk_settled _ _ _ _ _ _ Hready Hget eq_refl W Hgr Hw) as ([] & _). by eapply HQ.
Qed.

Lemma measure_pos i : item_inv x i -> it_timer i = true -> 1 <= measure i.
Proof.
  intros [] Ht. unfold measure. rewrite Ht. unfold SNMP_MAX_RETRIES in *. destruct (it_data i) as [d|] eqn:Ed; [|lia].
  destruct (req_type_cases i ii_conf0) as [(Hget & _)|(Hget & _)]; [by destruct (ii_get0 Hget)|].
  destruct (ii_walk0 Hget) as [[[_ Hn _ _] _ Hl _ _] _]. unfold SNMP_WALK_MAX_OIDS in *. nia.
Qed.

(** The timer of an item that waits has expired. *)
Lemma wp_timeout i l w (Q : unit -> world T -> Prop) :
  focus true i (it_sessid i) l w -> item_inv x i -> it_timer i = true ->
  (forall fr i' s' l' w', settled x i i' s' -> closer i i' -> focus fr i' s' l' w' -> Q tt w') ->
  wp (timeout_event_cb x e id) Q w.
Proof.
  intros F Hinv Ht HQ. pose proof (measure_pos i Hinv Ht) as Hm. destruct Hinv as [].
  unfold timeout_event_cb. run F. run F. run F. run F. run F. run F. run F. clear w w' w'0. rename w'1 into w.
  set (j := set_sessid 0 (set_timer false i)) in F. change (it_conf (set_timer false i)) with (it_conf i). unfold SNMP_MAX_RETRIES in *.
  assert (Hready : forall r, 0 <= r <= 2 -> ready (set_retries r j)) by done.
  assert (Hover : settled x i (queued e (set_data None j)) 0) by (split; try done; by apply off_inv).
  assert (Hdone : closer i (queued e (set_data None j))) by (split; [change (measure (queued e (set_data None j))) with 0; lia|done]).
  assert (Hretry : gives_up j = false -> u8 (it_retries i + 1) = it_retries i + 1 /\ it_retries i <= 1).
  { unfold gives_up, SNMP_MAX_RETRIES. cbn [it_retries j set_sessid set_timer]. destruct (Z.geb_spec (it_retries i) 2); [done|]. intros _. split; [|lia]. apply u8_small. lia. }
  destruct (req_type_cases i ii_conf0) as [(Hget & E1 & E2)|(Hget & E1 & E2)]; rewrite E1, E2; run F.
  - destruct (ii_get0 Hget) as [Hd Hst]. run F. eapply wp_get_timeout; [done|done|exact F|done| |].
    + intros _ w1 F1. assert (Eq : queued e j = queued e (set_data None j)) by (unfold queued, set_state, set_lastpolltime, set_data; cbn; by rewrite Hd).
      rewrite Eq in F1. eapply HQ; [exact Hover|exact Hdone|exact F1].
    + intros Hno i' s' l' w1 Ha F1. destruct (Hretry Hno) as [Hu Hle]. cbn [it_retries j set_sessid set_timer] in Ha. rewrite Hu in Ha.
      destruct (get_settled _ _ _ _ _ (Hready (it_retries i + 1) ltac:(lia)) Hget Hd (Hst Ht) Ha) as ([] & Hme & Hq).
      eapply HQ; [by split| |exact F1]. split; [|done]. cbn [it_retries set_retries] in Hme. assert (measure i = 3 - it_retries i) by (unfold measure; by rewrite Ht, Hd). lia.
  - specialize (ii_walk0 Hget). destruct (it_data i) as [d|] eqn:Ed; [|congruence]. destruct ii_walk0 as [Hwk _].
    eapply wp_walk_timeout; [done|exact F|exact Ed|done|done| |].
    + intros _ w1 F1. run F1. eapply HQ; [exact Hover|exact Hdone|exact F1].
    + intros Hno ids sid w1 _ Hsid F1. run F1. destruct (Hretry Hno) as [Hu Hle]. cbn [it_retries j set_sessid set_timer] in F1. rewrite Hu in F1.
      eapply HQ; [| |exact F1].
      * split; try done. apply on_inv; try done; [unfold SNMP_MAX_RETRIES; cbn [it_retries set_retries]; lia|cbn [it_sessid set_retries waiting set_timer set_sessid]; lia|]. intros _. by exists d.
      * split; [|done]. unfold measure in *. cbn [it_timer it_data it_retries set_retries waiting set_timer set_sessid j]. rewrite Ed, Ht in *. lia.
Qed.

(** The item when the answer to its request is processed. *)
Definition answered (i : item) : item := set_sessid 0 (set_retries 0 (set_timer false i)).

Lemma same_roots d d' : same_walk d d' -> roots d' = roots d.
Proof. intros (_ & _ & Hp & _). unfold roots. by rewrite Hp. Qed.

(** What an answer does to a walk: all its variables proceed and are recorded,
    and the object after the last one is asked for; or the answer is empty or
    has a variable that stops the walk of the subtree, those before it are
    recorded and the next root follows. *)
Inductive walk_step (bs : list binding) (i : item) (d : snmp_ddata) (l : list action) : item -> Z -> list action -> Prop :=
  | step_more d' ids sid : bd_oid <$> last bs = Some ids -> walked x d bs d' -> same_walk d d' -> oids_looped d' = oids_looped d + zlen bs -> 0 < sid < 2 ^ 31 ->
      walking x (set_last_oid (Oid (Some ids) (zlen ids)) d') ->
      walk_step bs i d l (waiting sid (set_data (Some (set_last_oid (Oid (Some ids) (zlen ids)) d')) i)) sid (l ++ [sent_packet x i SNMP_CMD_GET_NEXT sid ids])
  | step_next d' acts i' s' l' : same_walk d d' -> (bs = [] /\ d' = d /\ acts = []) \/ ended x d bs d' acts ->
      walk_next x e (set_data (Some d') i) d' (l ++ acts) i' s' l' ->
      walk_step bs i d l i' s' l'.

Lemma step_settled bs i d l i' s' l' : item_inv x i -> it_timer i = true -> ~ is_get i -> it_data i = Some d ->
  walk_step bs (answered i) d l i' s' l' -> settled x i i' s' /\ closer i i'.
Proof.
  intros Hinv Ht Hget Ed Hs. pose proof (measure_pos i Hinv Ht) as Hm. destruct Hinv as []. specialize (ii_walk0 Hget). rewrite Ed in ii_walk0.
  destruct ii_walk0 as [[[_ Hn _ _] Hn0 Hl _ _] _]. assert (Em : measure i = 3 * ((roots d - num d) * (SNMP_WALK_MAX_OIDS + 3) - oids_looped d) + 3 - it_retries i) by (unfold measure; by rewrite Ht, Ed).
  unfold closer. rewrite Em in *. unfold SNMP_MAX_RETRIES in *.
  destruct Hs as [d' ids sid Hids _ Hsame Hlo Hsid Hwk|d' acts i' s' l' Hsame _ Hnext].
  - pose proof (same_roots _ _ Hsame) as Hro. assert (1 <= zlen bs) by (destruct bs; [done|lens]).
    split; [split; try done; apply on_inv; try done; [cbn [it_sessid waiting set_timer set_sessid]; lia|intros _; by eexists]|]. split; [|done].
    unfold measure. cbn [it_timer it_data it_retries waiting answered set_timer set_sessid set_data set_retries].
    change (roots (set_last_oid _ d')) with (roots d'). change (num (set_last_oid _ d')) with (num d'). change (oids_looped (set_last_oid _ d')) with (oids_looped d').
    destruct Hwk as [_ _ Hl' _ _ _]. change (oids_looped (set_last_oid _ d')) with (oids_looped d') in Hl'. destruct Hsame as (_ & En & _).
    rewrite Hro, En, Hlo in *. unfold SNMP_WALK_MAX_OIDS in *. nia.
  - assert (Hready : ready (set_data (Some d') (answered i))) by done.
    assert (Hgr : good_roots x (params d')) by (pose proof Hsame as (_ & _ & -> & _); done).
    destruct (walk_settled _ _ _ _ _ _ Hready Hget eq_refl (proj1 Hsame) Hgr Hnext) as ([] & Hme & Hq). split; [by split|]. split; [|done].
    pose proof (same_roots _ _ Hsame) as Hro. destruct Hsame as (_ & En & _). rewrite Hro, En in Hme. cbn [it_retries set_data answered set_sessid set_retries] in Hme.
    unfold SNMP_WALK_MAX_OIDS in *. nia.
Qed.

Lemma wp_answer p bs i l w (Q : unit -> world T -> Prop) :
  focus true i (it_sessid i) l w -> item_inv x i -> it_timer i = true -> u32 (p_req_id p) = it_sessid i -> id <> 0 -> good_answer x p bs ->
  (forall fr i' s' l' w', settled x i i' s' -> closer i i' ->
     (is_get i -> i' = queued e (set_lastpolled (u32 (e_now e)) (answered i)) /\ l' = l ++ shown_answer x p bs ++ [A_iface_succeed]) ->
     (forall d, ~ is_get i -> it_data i = Some d -> exists l'', walk_step bs (answered i) d l i' s' l'' /\ l' = l'' ++ [A_iface_succeed]) ->
     focus fr i' s' l' w' -> Q tt w') ->
  wp (process_result x e p) Q w.
Proof.
  intros F Hinv Ht Hreq Hid Ha HQ. pose proof (measure_pos i Hinv Ht) as Hm. pose proof Hinv as [].
  assert (Hs : it_sessid i <> 0) by (by apply ii_timer0).
  unfold process_result. run F. run F. rewrite Hreq. run F. run F. apply Z.eqb_neq in Hs as ->. apply Z.eqb_neq in Hid as ->. run F. run F. run F. run F. run F. run F. run F. run F.
  destruct (req_type_cases i ii_conf0) as [(Hget & E1 & E2)|(Hget & E1 & E2)]; rewrite E1; [rewrite E2|].
  - destruct (ii_get0 Hget) as [Hd _]. eapply wp_get_answer; [exact Ha|exact F|]. clear F. intros w1 F. run F. rewrite <- app_assoc in F.
    eapply HQ; [| | | |exact F]; [split; try done; by apply off_inv| |done|done]. split; [|done]. change (measure (queued e _)) with 0. lia.
  - specialize (ii_walk0 Hget). destruct (it_data i) as [d|] eqn:Ed; [|congruence]. destruct ii_walk0 as [Hwk _].
    assert (Hall : forall fr i' s' l' w1, walk_step bs (answered i) d l i' s' l' -> focus fr i' s' l' w1 -> wp (out id A_iface_succeed) Q w1).
    { intros fr i' s' l' w1 Hst F1. run F1. destruct (step_settled bs i d l i' s' l' Hinv Ht Hget Ed Hst) as [Hset Hcl].
      eapply HQ; [exact Hset|exact Hcl|done| |exact F1]. intros d0 _ [= <-]. by exists l'. }
    eapply wp_walk_answer; [done|done|exact Ha|exact F|exact Ed|done|done|done| |].
    + intros d' ids sid w1 Hids Hw Hsame Hlo Hsid d'' Hwk' F1. eapply Hall; [|exact F1]. by eapply step_more.
    + intros d' acts i' s' l' w1 Hsame Hl1 Hn F1. eapply Hall; [|exact F1]. by eapply step_next.
Qed.

Lemma wp_start_poll i l w (Q : Z -> world T -> Prop) :
  focus true i (it_sessid i) l w -> item_inv x i -> (is_get i -> it_timer i = false /\ it_state i = POLL_POLLING) ->
  (forall r fr i' s' l' w', settled x i i' s' -> r <> POLL_NEED_DELAY -> focus fr i' s' l' w' -> Q r w') ->
  wp (start_poll_item x e id) Q w.
Proof.
  intros F Hinv Hg HQ. assert (Hsame : settled x i i (it_sessid i)) by done. unfold start_poll_item. run F. destruct (negb (c_useip (it_conf i) =? 1)).
  - unfold poller_async_resolve. run F. run F. apply Z.eqb_neq in garbage.
    destruct (e_lookup e); runs F; rewrite garbage; run F; (eapply HQ; [exact Hsame|done|exact F]).
  - run F. run F. run F. destruct Hinv.
    eapply wp_send_request; [exact F|by split|done|done|]. intros fr i' s' l' w1 [] F1. run F1. eapply HQ; [|done|exact F1]. by split.
Qed.

Lemma wp_nextcheck base fr i s l w (Q : Z -> world T -> Prop) :
  focus fr i s l w ->
  (forall r l' w', (forall f, e_interval e = Some f -> r = f (base + 1)) -> focus fr i s l' w' -> Q r w') ->
  wp (poller_update_item_nextcheck e id base) Q w.
Proof.
  intros F HQ. unfold poller_update_item_nextcheck. destruct (e_interval e) as [f|]; runs F; (eapply HQ; [|exact F]); [|done]. by intros g [= <-].
Qed.

(** The delay of the item makes sense. *)
Definition schedules : Prop := exists f, e_interval e = Some f /\ forall t, f t <> FAIL.

(** The poll event: the item is polled again later. *)
Lemma wp_poll i l w (Q : unit -> world T -> Prop) :
  focus true i (it_sessid i) l w -> item_inv x i ->
  (forall fr i' s' l' w', item_inv x i' -> it_sessid i' = s' -> it_conf i' = it_conf i -> (schedules -> it_poll i' <> None) -> focus fr i' s' l' w' -> Q tt w') ->
  wp (item_poll_cb x e id) Q w.
Proof.
  intros F Hinv HQ. unfold item_poll_cb. run F. run F. apply wp_bind. unfold wp at 1, get_sessions. cbv beta iota.
  assert (Hp : forall p j, item_inv x j -> item_inv x (set_poll p j)) by (intros p j []; by split).
  assert (Hdelay : forall d, wp (modify id (set_poll (Some d))) Q w').
  { intros d. run F. eapply HQ; [| | | |exact F]; [by apply (Hp (Some d)), (Hp None)|done|done|done]. }
  destruct (_ || _); [apply Hdelay|]. run F. change (it_state (set_poll None i)) with (it_state i).
  destruct (it_state i) eqn:Est; [destruct (e_disabled_till e) as [t|]|apply Hdelay].
  - run F. eapply wp_nextcheck; [exact F|]. clear F Hdelay. intros r l' w1 Hr F. destruct (Z.eqb_spec r FAIL) as [->|Hne]; run F.
    + eapply HQ; [| | | |exact F]; [by apply (Hp None)|done|done|]. intros (f & Ef & Hf). by destruct (Hf (t + 1)); rewrite (Hr f Ef).
    + eapply HQ; [| | | |exact F]; [by apply Hp, (Hp None)|done|done|done].
  - run F. run F. clear Hdelay. set (j := set_state _ _) in F. run F. destruct Hinv as [].
    assert (Hj : item_inv x j) by (split; try done; intros Hget; by destruct (ii_get0 Hget)).
    eapply (wp_start_poll j); [exact F|done| |].
    { intros Hget. split; [|done]. destruct (ii_get0 Hget) as [_ Hst]. change (it_timer j) with (it_timer i). destruct (it_timer i); [|done]. by specialize (Hst eq_refl); congruence. }
    clear F. intros r fr i' s' l' w1 [] Hr F. apply Z.eqb_neq in Hr as ->. run F. eapply wp_nextcheck; [exact F|]. clear F. intros r' l1 w2 Hr' F.
    destruct (Z.eqb_spec r' FAIL) as [->|Hne]; run F.
    + eapply HQ; [| | | |exact F]; try done. intros (f & Ef & Hf). by destruct (Hf (e_now e + 1)); rewrite (Hr' f Ef).
    + eapply HQ; [| | | |exact F]; [by apply Hp|done|done|done].
Qed.

(** The resolver answers; nothing happens to an item that was deleted. *)
Lemma wp_resolved answer i l w (Q : unit -> world T -> Prop) :
  focus true i (it_sessid i) l w -> item_inv x i -> (is_get i -> it_timer i = false /\ it_state i = POLL_POLLING) ->
  (forall fr i' s' l' w', settled x i i' s' -> focus fr i' s' l' w' -> Q tt w') ->
  wp (poller_async_resolve_cb x e id answer) Q w.
Proof.
  intros F Hinv Hg HQ. unfold poller_async_resolve_cb. run F. run F. run F. pose proof Hinv as []. destruct answer as [[|addr addrs]|].
  - run F. eapply HQ; [|exact F]. by split.
  - unfold resolve_ready_cb. run F. run F. eapply wp_send_request; [exact F|by split|done|done|].
    intros fr i' s' l' w1 [] F1. eapply HQ; [|exact F1]. by split.
  - run F. run F. run F. eapply HQ; [|exact F]. split; try done. split; try done. intros Hget. destruct (ii_get0 Hget). split; [done|].
    intros Ht. change (it_timer i = true) in Ht. destruct (Hg Hget). congruence.
Qed.

(** An item is deleted: its session is closed. *)
Lemma wp_free i l w (Q : unit -> world T -> Prop) :
  focus true i (it_sessid i) l w -> item_inv x i -> (it_sessid i <> 0 -> open_sessions (w_sess w0) !! it_sessid i = Some id) ->
  (forall fr i' l' w', focus fr i' 0 l' w' -> Q tt w') -> wp (free_item e id) Q w.
Proof.
  intros F [] Ho HQ. unfold free_item. run F. run F. destruct (_ =? SNMP_CMD_GET_NEXT); [|runs F; by eapply HQ].
  eapply wp_stop; [exact F|done|]. clear F. intros w1 F. run F. run F. change (it_sessid (idle e i)) with (it_sessid i).
  destruct (decide (it_sessid i = 0)) as [E|Hne]; [rewrite E; runs F; by eapply HQ|].
  eapply wp_close_again; [exact F|by apply Ho|]. clear F. intros w2 F. runs F. by eapply HQ.
Qed.
End callbacks.

(** ** Events *)

Inductive event :=
  | Ev_poll (id : Z)
  | Ev_timeout (id : Z)
  | Ev_answer (p : csnmp_pdu)
  | Ev_resolved (id : Z) (answer : option (list (list Z)))
  | Ev_lost
  | Ev_create (id : Z) (dc : dc_item)
  | Ev_delete (id : Z).

Definition handle {T I} `{SessionTable T I} (x : externals) (e : env I) (ev : event) : M T unit :=
  match ev with
  | Ev_poll id => item_poll_cb x e id
  | Ev_timeout id => timeout_event_cb x e id
  | Ev_answer p => responce_arrived_cb x [(e, p)]
  | Ev_resolved id answer => poller_async_resolve_cb x e id answer
  | Ev_lost => lost_items_check_cb e
  | Ev_create id dc => _ ← glb_poller_create_item e id dc; mret tt
  | Ev_delete id => _ ← glb_poller_delete_item e id; mret tt
  end.

(** The events that are covered.  A poll or a timeout comes from a pending
    timer.  An answer is well formed ([good_answer]), whatever its request id;
    what the code does with others is shown by [long_identifier_overflows],
    [short_address_overread] and [unprintable_text].  The resolver answers an
    item that is gone, a walk in any state, or a GET item that is being polled
    and waits for nothing else ([late_resolver] shows the other case).  At a
    check for lost items no GET item that waits is older than
    [ITEMS_REINIT_INTERVAL], as its timer expires long before.  A new item has
    an id, a known version, a community of at most 5000 bytes and identifiers
    that can be encoded if they can be parsed.  The table of sessions gives an
    id, and a function that ends without a return statement does not leave
    [FAIL]. *)
Definition enabled {T I} `{SessionTable T I} (x : externals) (e : env I) (ev : event) (w : world T) : Prop :=
  input_ok (w_sess w) (e_input e) /\ e_garbage e <> FAIL /\
  match ev with
  | Ev_poll id => exists i, w_items w !! id = Some i /\ it_poll i <> None
  | Ev_timeout id => exists i, w_items w !! id = Some i /\ it_timer i = true
  | Ev_answer p => exists bs, good_answer x p bs /\ owned p
  | Ev_resolved id _ => forall i, w_items w !! id = Some i -> is_get i -> it_timer i = false /\ it_state i = POLL_POLLING
  | Ev_lost => forall id i, w_items w !! id = Some i -> is_get i -> it_timer i = true -> e_now e <= it_lastpolltime i + ITEMS_REINIT_INTERVAL
  | Ev_create id dc =>
      id <> 0 /\ (dc_version dc = ZBX_IF_SNMP_VERSION_1 \/ dc_version dc = ZBX_IF_SNMP_VERSION_2) /\ zlen (dc_community dc) <= 5000 /\
      forall oid, dc_snmp_oid dc = Some oid -> good_text x (zbx_snmp_translate oid (4 * MAX_OID_LEN))
  | Ev_delete _ => True
  end.

Section events.
Context {T I : Type} `{SessionTable T I}.
Variable x : externals.
Hypothesis Hx : externals_ok x.
Implicit Types (w : world T) (e : env I).

(** The invariant speaks of sessions and items only. *)
Lemma inv_same w w' : poller_inv x w -> table_ok (w_sess w') -> open_sessions (w_sess w') = open_sessions (w_sess w) -> w_items w' = w_items w -> poller_inv x w'.
Proof. intros [] Ht Ho Hi. split; [done| |]; rewrite ?Ho, ?Hi; done. Qed.

Lemma inv_close w e id fr i' l' w' w'' : poller_inv x w -> focus e id w fr i' 0 l' w' ->
  w_sess w'' = w_sess w' -> w_items w'' = delete id (w_items w') -> poller_inv x w''.
Proof.
  intros [] [] Es Ei. rewrite fo_items, delete_insert_eq in Ei. split; rewrite ?Es, ?Ei; [done| |].
  - intros y j [_ Hj]%lookup_delete_Some. by apply pi_items0.
  - intros sid y. destruct (decide (y = id)) as [->|Hy].
    + rewrite fo_own. split; [by intros [_ ?]|]. intros (_ & j & Hj & _). by rewrite lookup_delete_eq in Hj.
    + rewrite fo_other, pi_sessions0 by done. by setoid_rewrite lookup_delete_ne.
Qed.

Lemma inv_insert w w' id i : poller_inv x w -> w_items w !! id = None -> id <> 0 -> item_inv x i -> it_sessid i = 0 ->
  w_sess w' = w_sess w -> w_items w' = <[id := i]> (w_items w) -> poller_inv x w'.
Proof.
  intros [] Hn Hid Hi Hs Es Ei. split; rewrite ?Es, ?Ei; [done| |].
  - intros y j [[<- <-]|[_ Hj]]%lookup_insert_Some; [done|by apply pi_items0].
  - intros sid y. rewrite pi_sessions0. destruct (decide (y = id)) as [->|Hy]; [|by setoid_rewrite lookup_insert_ne].
    setoid_rewrite lookup_insert_eq. setoid_rewrite Hn. naive_solver.
Qed.

Lemma wp_delete w e id (Q : Z -> world T -> Prop) : poller_inv x w -> input_ok (w_sess w) (e_input e) ->
  (forall r w', poller_inv x w' -> w_items w' = delete id (w_items w) -> Q r w') -> wp (glb_poller_delete_item e id) Q w.
Proof.
  intros Hw Hin HQ. unfold glb_poller_delete_item. apply wp_bind. unfold wp at 1, poller_get_poller_item.
  destruct (w_items w !! id) as [i|] eqn:Ei; [|apply wp_ret, HQ; [done|by rewrite delete_id]].
  pose proof Hw as []. destruct (pi_items0 id i Ei) as [_ Hinv]. apply wp_bind.
  eapply (wp_free x e id w i); [by eapply focus_start|done| |].
  { intros Hs. apply pi_sessions0. split; [done|]. by exists i. }
  intros fr i' l' w' F. apply wp_bind. unfold wp at 1, put_item. cbv beta iota. apply wp_ret. apply HQ.
  - by eapply inv_close.
  - cbn [w_items]. rewrite (fo_items _ _ _ _ _ _ _ _ F). by rewrite <- (delete_insert_eq (w_items w) id i').
Qed.

(** An answer to no open session is ignored. *)
Lemma stale_answer w e p : poller_inv x w -> open_sessions (w_sess w) !! u32 (p_req_id p) = None ->
  exists w', process_result x e p w = Ret (tt, w') /\ poller_inv x w' /\ w_items w' = w_items w /\ w_log w' = w_log w.
Proof.
  intros Hw Hn. destruct (close_law (w_sess w) (u32 (p_req_id p)) (pi_table _ _ Hw)) as (t & Hc & Hok & Hm). rewrite Hn in Hc. cbn in Hc.
  rewrite delete_id in Hm by done. eexists. split; [|split_and!].
  - unfold process_result, poller_inc_responses, close, mbind, M_bind. cbn [w_sess]. rewrite Hc. reflexivity.
  - by eapply inv_same.
  - done.
  - done.
Qed.

Lemma session_item w sid id : poller_inv x w -> open_sessions (w_sess w) !! sid = Some id ->
  exists i, w_items w !! id = Some i /\ it_sessid i = sid /\ item_inv x i /\ it_timer i = true /\ id <> 0.
Proof.
  intros [] Ho. apply pi_sessions0 in Ho as (Hs & i & Hi & Es). destruct (pi_items0 id i Hi) as [Hid Hinv]. exists i. split_and!; try done.
  apply (ii_timer _ _ Hinv). by rewrite Es.
Qed.

Lemma wp_free_answer (p : csnmp_pdu) w (Q : unit -> world T -> Prop) : owned p -> Q tt w -> wp (_ ← lift (csnmp_free_pdu p); mret tt) Q w.
Proof. intros Hp HQ. unfold wp, mbind, M_bind, lift, csnmp_free_pdu. by rewrite free_pdu_vars_ok. Qed.

Lemma wp_arrived w e p bs : poller_inv x w -> input_ok (w_sess w) (e_input e) -> e_garbage e <> FAIL -> good_answer x p bs -> owned p ->
  wp (responce_arrived_cb x [(e, p)]) (fun _ w' => poller_inv x w') w.
Proof.
  intros Hw Hin Hg Ha Hp. cbn [responce_arrived_cb]. apply wp_bind. destruct (open_sessions (w_sess w) !! u32 (p_req_id p)) as [id|] eqn:Ho.
  - destruct (session_item w _ id Hw Ho) as (i & Hi & Es & Hinv & Ht & Hid).
    eapply (wp_answer x Hx e Hg id w p bs i []); try done; [by eapply focus_start|].
    intros fr i' s' l' w' [] _ _ _ F. apply wp_free_answer; [done|]. by eapply focus_end.
  - destruct (stale_answer w e p Hw Ho) as (w' & E & Hw' & _). unfold wp at 1. rewrite E. by apply wp_free_answer.
Qed.

Lemma inv_lost w e : poller_inv x w -> enabled x e Ev_lost w -> wp (lost_items_check_cb e) (fun _ w' => poller_inv x w') w.
Proof.
  intros [] (_ & _ & Hlost). unfold wp, lost_items_check_cb. split; cbn [w_sess w_items]; [done| |].
  - intros id i (j & <- & Hj)%lookup_fmap_Some. destruct (pi_items0 id j Hj) as [Hid []]. split; [done|]. unfold reset_lost.
    destruct (_ && _) eqn:E; [|by split]. apply andb_true_iff in E as [E%Z.ltb_lt _]. split; try done. intros Hget. split; [by apply ii_get0|].
    intros Ht. specialize (Hlost id j Hj Hget Ht). lia.
  - intros sid id. rewrite pi_sessions0. setoid_rewrite lookup_fmap_Some.
    assert (Hs : forall j, it_sessid (reset_lost e j) = it_sessid j) by (intros j; unfold reset_lost; by destruct (_ && _)).
    split; intros (Hne & i & Hi & Es); (split; [done|]).
    + exists (reset_lost e i). split; [by exists i|by rewrite Hs].
    + destruct Hi as (j & <- & Hj). exists j. split; [done|]. by rewrite <- Es, Hs.
Qed.

Lemma wp_create_item w e id dc : poller_inv x w -> enabled x e (Ev_create id dc) w -> wp (glb_poller_create_item e id dc) (fun _ w' => poller_inv x w') w.
Proof.
  intros Hw (Hin & _ & Hid & Hver & Hcom & Hoid). unfold glb_poller_create_item. apply wp_bind. eapply wp_delete; [done|done|]. intros _ w1 Hw1 Hi1.
  assert (Hnone : w_items w1 !! id = None) by (rewrite Hi1; apply lookup_delete_eq).
  assert (Hfail : forall w2 m, w_sess w2 = w_sess w1 -> w_items w2 = partial_alter (fun _ => Some m) id (w_items w1) ->
    wp (r ← (_ ← out id (A_error "Error: empty OID, item will not be polled until updated, fix config to start poll"); mret FAIL);
        if r =? FAIL then _ ← put_item id None; mret FAIL
        else _ ← modify id (set_poll (Some (POLLER_NEW_ITEM_DELAY_TIME * 1000))); _ ← out id (A_nextcheck (i32 (e_now e + POLLER_NEW_ITEM_DELAY_TIME))); mret SUCCEED)
      (fun _ w' => poller_inv x w') w2).
  { intros w2 m Es Ei. unfold wp, mbind, M_bind, out, put_item, mret, M_ret. cbn [Z.eqb Pos.eqb FAIL w_sess w_items]. eapply inv_same; [exact Hw1|..]; cbn [w_sess w_items]; rewrite ?Es; try done.
    - apply Hw1.
    - rewrite Ei. change (delete id (<[id := m]> (w_items w1)) = w_items w1). by apply delete_insert_id. }
  apply wp_bind. unfold wp at 1, put_item at 1. cbv beta iota. unfold init_item. destruct (dc_snmp_oid dc) as [[|c oid]|]; [by eapply Hfail| |by eapply Hfail]. clear Hfail.
  set (j := Item (ItemConf [] [] 0 0 0 [] 0) POLL_QUEUED 0 None false None 0 0 0 None). cbv zeta.
  set (conf := ItemConf _ _ _ _ _ _ (if contains _ _ then _ else _)).
  assert (Hconf : conf_ok x conf).
  { split; [|split; [done|split; [|by apply Hoid]]].
    - cbn [c_version conf]. destruct Hver as [-> | ->]; [by left|by right].
    - cbn [c_req_type conf]. destruct (contains _ _); [by right|by left]. }
  unfold wp, mbind, M_bind, modify, out, mret, M_ret. cbn [w_items w_sess]. change (partial_alter (fun _ => Some j) id (w_items w1)) with (<[id := j]> (w_items w1)). rewrite lookup_insert_eq.
  cbn [Z.eqb Pos.eqb SUCCEED FAIL w_sess w_items]. rewrite lookup_insert_eq. cbn [w_sess w_items].
  eapply (inv_insert w1 _ id); [done|done|done| | |done|cbn [w_items]; rewrite !insert_insert_eq; reflexivity].
  - by apply off_inv.
  - done.
Qed.

Lemma handle_ok w e ev : poller_inv x w -> enabled x e ev w -> wp (handle x e ev) (fun _ w' => poller_inv x w') w.
Proof.
  intros Hw He. pose proof He as (Hin & Hg & Hev). pose proof (fun id i Hi => proj2 (pi_items _ _ Hw id i Hi)) as Hinv.
  destruct ev as [id|id|p|id a| |id dc|id]; cbn [handle].
  - destruct Hev as (i & Hi & _). eapply (wp_poll x Hx e Hg id w i); [by eapply focus_start|by eapply Hinv|].
    intros fr i' s' l' w' Hi' Hs' _ _ F. by eapply focus_end.
  - destruct Hev as (i & Hi & Ht). eapply (wp_timeout x Hx e Hg id w i); [by eapply focus_start|by eapply Hinv|done|].
    intros fr i' s' l' w' [] _ F. by eapply focus_end.
  - destruct Hev as (bs & Ha & Ho). by eapply wp_arrived.
  - destruct (w_items w !! id) as [i|] eqn:Hi.
    + eapply (wp_resolved x Hx e Hg id w a i); [by eapply focus_start|by eapply Hinv|by apply Hev|]. intros fr i' s' l' w' [] F. by eapply focus_end.
    + unfold poller_async_resolve_cb, wp, mbind, M_bind, poller_get_poller_item, add_dns_requests. rewrite Hi. eapply inv_same; [exact Hw|..]; try done. apply Hw.
  - by apply inv_lost.
  - apply wp_bind. eapply wp_mono; [by apply wp_create_item|]. done.
  - apply wp_bind. by apply wp_delete.
Qed.
End events.

(** ** Properties *)

(** The poller starts without items and sessions. *)
Definition poller_start {T I} `{SessionTable T I} (w : world T) : Prop :=
  table_ok (w_sess w) /\ open_sessions (w_sess w) = ∅ /\ w_items w = ∅.

Definition poller_step {T I} `{SessionTable T I} (x : externals) (w w' : world T) : Prop :=
  exists (e : env I) (ev : event), enabled x e ev w /\ handle x e ev w = Ret (tt, w').

Lemma start_inv {T I} `{SessionTable T I} x (w : world T) : poller_start w -> poller_inv x w.
Proof.
  intros (Ht & Ho & Hi). split; [done| |].
  - intros id i. by rewrite Hi, lookup_empty.
  - intros sid id. rewrite Ho, Hi, lookup_empty. split; [done|]. intros (_ & i & E & _). by rewrite lookup_empty in E.
Qed.

Lemma reachable_inv {T I} `{SessionTable T I} x (w0 w : world T) : externals_ok x -> poller_inv x w0 -> rtc (poller_step x) w0 w -> poller_inv x w.
Proof.
  intros Hx H0 Hr. revert H0. induction Hr as [w|w w1 w2 (e & ev & He & Hh) _ IH]; [done|]. intros Hw. apply IH.
  pose proof (handle_ok x Hx w e ev Hw He) as Hok. unfold wp in Hok. by rewrite Hh in Hok.
Qed.

(** C1: Take any sequence of [enabled] events from the start of the poller, in
    any order: polls and timeouts of pending timers, well-formed answers to
    whatever request (identifiers that can be encoded, of at most 128
    components, at least 4 bytes in an address, strings below [MAX_BUFFER_LEN]
    that Net-SNMP can print, no floating-point values), answers of the resolver
    to walks, to deleted items and to GET items that wait for nothing else,
    checks for lost items before a waiting GET item is overdue, creation of
    items with a known version, a community of at most 5000 bytes and encodable
    identifiers, and deletion.  When allocation succeeds and Net-SNMP prints C
    strings ([externals_ok]), the poller handles the next enabled event without
    an invalid access; and then a session is open for an item exactly when the
    item waits for an answer with the id of this session, so that no session is
    left behind and none is missing. *)
Theorem snmp_poller_safe {T I} `{SessionTable T I} x (w0 w : world T) (e : env I) ev :
  externals_ok x -> poller_start w0 -> rtc (poller_step x) w0 w -> enabled x e ev w ->
  exists w', handle x e ev w = Ret (tt, w') /\
    forall sid id, open_sessions (w_sess w') !! sid = Some id <->
      exists i, w_items w' !! id = Some i /\ it_timer i = true /\ it_sessid i = sid.
Proof.
  intros Hx H0 Hr He. pose proof (reachable_inv x w0 w Hx (start_inv x w0 H0) Hr) as Hw.
  destruct (wp_elim _ _ _ (handle_ok x Hx w e ev Hw He)) as ([] & w' & Hh & []). exists w'. split; [done|].
  intros sid id. rewrite pi_sessions0. split.
  - intros (Hs & i & Hi & <-). exists i. split_and!; try done. destruct (pi_items0 id i Hi) as [_ []]. by apply ii_timer0.
  - intros (i & Hi & Ht & <-). destruct (pi_items0 id i Hi) as [_ []]. split; [by apply ii_timer0|]. by exists i.
Qed.

(** The callbacks of a poll: the timer expires or the answer comes. *)
Definition poll_event (id : Z) (i : item) (ev : event) : Prop :=
  ev = Ev_timeout id \/ exists p, ev = Ev_answer p /\ u32 (p_req_id p) = it_sessid i.

(** C3: A poll ends.  In a state that satisfies the invariant of the poller,
    with the conditions [enabled] and [externals_ok], each timeout of an item
    that waits and each well-formed answer with the id of its session brings
    the poll closer to its end: [measure] gets smaller and is never negative;
    when the item does not wait any more, it is back in the queue.  So a GET
    item waits at most three times, and a walk takes a bounded number of
    well-formed answers and timeouts, whatever objects the answers hold; other
    items stay as they are. *)
Theorem snmp_polls_end {T I} `{SessionTable T I} x (w : world T) (e : env I) id i ev :
  externals_ok x -> poller_inv x w -> w_items w !! id = Some i -> it_timer i = true -> poll_event id i ev -> enabled x e ev w ->
  exists w' i', handle x e ev w = Ret (tt, w') /\ w_items w' = <[id := i']> (w_items w) /\
    0 <= measure i' < measure i /\ (it_timer i' = false -> it_state i' = POLL_QUEUED) /\
    (is_get i -> measure i <= 3).
Proof.
  intros Hx Hw Hi Ht Hev (Hin & Hg & He). destruct (pi_items _ _ Hw id i Hi) as [Hid Hinv]. pose proof (focus_start e id w i Hw Hi Hin) as F.
  assert (Hget : is_get i -> measure i <= 3).
  { destruct Hinv as []. intros Hget. destruct (ii_get0 Hget) as [Hd _]. unfold measure. rewrite Ht, Hd. lia. }
  assert (Hall : wp (handle x e ev) (fun _ w' => exists i', w_items w' = <[id := i']> (w_items w) /\ closer i i') w).
  { destruct Hev as [->|(p & -> & Hreq)]; cbn [handle].
    - eapply (wp_timeout x Hx e Hg id w i); [exact F|done|done|]. intros fr i' s' l' w' _ Hc F'. exists i'. split; [apply F'|done].
    - destruct He as (bs & Ha & Ho). cbn [responce_arrived_cb]. apply wp_bind. eapply (wp_answer x Hx e Hg id w p bs i); [exact F|done..|].
      intros fr i' s' l' w' _ Hc _ _ F'. apply wp_free_answer; [done|]. exists i'. split; [apply F'|done]. }
  destruct (wp_elim _ _ _ Hall) as ([] & w' & Hh & i' & Hi' & Hm & Hq). by exists w', i'.
Qed.

Lemma focus_count {T I} `{SessionTable T I} (e : env I) id (w w1 w2 : world T) f1 f2 i1 i2 s l1 l2 :
  focus e id w f1 i1 s l1 w1 -> focus e id w f2 i2 s l2 w2 -> sessions_count (w_sess w1) = sessions_count (w_sess w2).
Proof.
  intros [] []. rewrite !count_law by done. do 2 f_equal. apply map_eq. intros sid. apply option_eq. intros y.
  destruct (decide (y = id)) as [->|Hy]; [by rewrite fo_own, fo_own0|by rewrite fo_other, fo_other0].
Qed.

(** The poll of a GET item whose interface has an address. *)
Lemma wp_poll_get {T I} `{SessionTable T I} x (Hx : externals_ok x) (e : env I) (Hg : e_garbage e <> FAIL) id (w : world T) i ids f (Q : unit -> world T -> Prop) :
  focus e id w true i 0 [] w -> item_inv x i -> is_get i -> it_state i = POLL_QUEUED -> it_sessid i = 0 -> c_useip (it_conf i) = 1 ->
  sessions_count (w_sess w) <= POLLER_MAX_SESSIONS -> e_contention e <= POLLER_MAX_SESSIONS -> e_disabled_till e = None -> e_interval e = Some f ->
  throttled e i = false -> x_snmp_parse_oid x (c_oid (it_conf i)) = Some ids ->
  (forall sid i' w', 0 < sid < 2 ^ 31 -> item_inv x i' -> it_conf i' = it_conf i -> it_timer i' = true -> it_sessid i' = sid ->
     focus e id w false i' sid
       [sent_packet x (set_ipaddr (Some (c_interface_addr (it_conf i))) i) SNMP_CMD_GET sid ids; A_nextcheck (f (e_now e + 1))] w' -> Q tt w') ->
  wp (item_poll_cb x e id) Q w.
Proof.
  intros F Hinv Hget Hst Hs Huse Hcnt Hcon Hdis Hint Hthr Hparse HQ. unfold item_poll_cb. pose proof F as F0. run F. run F. apply wp_bind. unfold wp at 1, get_sessions. cbv beta iota.
  rewrite (focus_count _ _ _ _ _ _ _ _ _ _ _ _ F F0). destruct (Z.gtb_spec (sessions_count (w_sess w)) POLLER_MAX_SESSIONS); [lia|].
  destruct (Z.gtb_spec (e_contention e) POLLER_MAX_SESSIONS); [lia|]. cbn [orb]. clear F0. run F. change (it_state (set_poll None i)) with (it_state i). rewrite Hst, Hdis.
  run F. run F. run F. unfold start_poll_item. run F. cbn [it_conf set_state set_lastpolltime set_poll]. rewrite Huse. change (negb (1 =? 1)) with false. run F. run F. run F.
  unfold snmp_send_request. run F. run F. run F. destruct Hinv as []. destruct (req_type_cases x i ii_conf0) as [(_ & E1 & E2)|(Hno & _)]; [|done].
  cbn [it_conf set_ipaddr set_retries set_state set_lastpolltime set_poll]. rewrite E1, E2. destruct (ii_get0 Hget) as [Hd _].
  assert (Ht : it_timer i = false) by (destruct (it_timer i); [by apply ii_timer0 in Hs|done]).
  eapply wp_get_request; [done|done|exact F|done|]. clear F. intros i' s' l' w1 Ha F. inversion Ha as [Ht'|Ht' Hp'|sid ids' Ht' Hp' Hsid]; subst.
  - by change (throttled e i = true) in Ht'; congruence.
  - by change (x_snmp_parse_oid x (c_oid (it_conf i)) = None) in Hp'; congruence.
  - change (x_snmp_parse_oid x (c_oid (it_conf i)) = Some ids') in Hp'. simplify_eq. rewrite bool_decide_eq_false_2 in F by lia.
    run F. change (POLL_STARTED_OK =? POLL_NEED_DELAY) with false. cbv iota. unfold poller_update_item_nextcheck. rewrite Hint. runs F.
    assert (Hdone : forall p, item_inv x (set_poll p (waiting s' (set_retries 0 (set_ipaddr (Some (c_interface_addr (it_conf i)))
      (set_state POLL_POLLING (set_lastpolltime (e_now e) (set_poll None i)))))))).
    { intros p. apply on_inv; try done. cbn [it_sessid set_poll waiting set_timer set_sessid]. lia. }
    destruct (f (e_now e + 1) =? FAIL); runs F; (eapply HQ; [exact Hsid| | | | |exact F]); try done. by apply (Hdone None).
Qed.

(** A session was opened for an item that had none. *)
Lemma focus_opened {T I} `{SessionTable T I} (e : env I) id (w w1 : world T) i i1 sid l :
  focus e id w true i 0 [] w -> focus e id w false i1 sid l w1 -> sid <> 0 ->
  open_sessions (w_sess w) !! sid = None /\
  forall s y, open_sessions (w_sess w1) !! s = Some y <-> s = sid /\ y = id \/ open_sessions (w_sess w) !! s = Some y.
Proof.
  intros F F1 Hsid. split.
  - destruct (open_sessions (w_sess w) !! sid) as [y|] eqn:E; [|done]. destruct (decide (y = id)) as [->|Hy].
    + by apply (fo_own _ _ _ _ _ _ _ _ F) in E as [-> ?].
    + pose proof E as E'. apply (fo_other _ _ _ _ _ _ _ _ F1) in E'; [|done]. rewrite (proj2 (fo_own _ _ _ _ _ _ _ _ F1 sid)) in E' by done. congruence.
  - intros s y. destruct (decide (y = id)) as [->|Hy].
    + rewrite (fo_own _ _ _ _ _ _ _ _ F1), (fo_own _ _ _ _ _ _ _ _ F). naive_solver.
    + rewrite (fo_other _ _ _ _ _ _ _ _ F1) by done. naive_solver.
Qed.

(** The session of an item was closed. *)
Lemma focus_closed {T I} `{SessionTable T I} (e : env I) id (w w1 : world T) fr i i1 sid l :
  focus e id w true i sid [] w -> sid <> 0 -> focus e id w fr i1 0 l w1 ->
  forall s y, open_sessions (w_sess w1) !! s = Some y <-> s <> sid /\ open_sessions (w_sess w) !! s = Some y.
Proof.
  intros F Hsid F1 s y. destruct (decide (y = id)) as [->|Hy].
  - rewrite (fo_own _ _ _ _ _ _ _ _ F1), (fo_own _ _ _ _ _ _ _ _ F). naive_solver.
  - rewrite (fo_other _ _ _ _ _ _ _ _ F1) by done. split; [|naive_solver]. intros E. split; [|done]. intros ->.
    rewrite (proj2 (fo_own _ _ _ _ _ _ _ _ F sid)) in E by done. congruence.
Qed.

(** The answer to a GET request. *)
Lemma get_answer_ok {T I} `{SessionTable T I} x (w : world T) (e : env I) id i p bs :
  externals_ok x -> poller_inv x w -> w_items w !! id = Some i -> is_get i -> it_timer i = true -> enabled x e (Ev_answer p) w ->
  good_answer x p bs -> u32 (p_req_id p) = it_sessid i ->
  exists w' i', handle x e (Ev_answer p) w = Ret (tt, w') /\
    (forall s y, open_sessions (w_sess w') !! s = Some y <-> s <> it_sessid i /\ open_sessions (w_sess w) !! s = Some y) /\
    w_items w' = <[id := i']> (w_items w) /\ it_state i' = POLL_QUEUED /\ it_timer i' = false /\
    w_log w' = w_log w ++ (pair id <$> shown_answer x p bs ++ [A_iface_succeed]).
Proof.
  intros Hx Hw Hi Hget Ht (Hin & Hg & _ & _ & Ho) Ha Hreq. destruct (pi_items _ _ Hw id i Hi) as [Hid Hinv]. pose proof (focus_start e id w i Hw Hi Hin) as F.
  assert (Hs : it_sessid i <> 0) by (by apply (ii_timer _ _ Hinv)).
  assert (Hwp : wp (handle x e (Ev_answer p)) (fun _ w' => exists fr, focus e id w fr (queued e (set_lastpolled (u32 (e_now e)) (answered i))) 0 (shown_answer x p bs ++ [A_iface_succeed]) w') w).
  { cbn [handle responce_arrived_cb]. apply wp_bind. eapply (wp_answer x Hx e Hg id w p bs i []); [exact F|done..|].
    intros fr i' s' l' w' [] _ Hgi _ F'. destruct (Hgi Hget) as [-> ->]. cbn [it_sessid queued set_state set_lastpolltime set_lastpolled answered set_sessid] in se_sess0. subst s'.
    apply wp_free_answer; [done|]. by exists fr. }
  destruct (wp_elim _ _ _ Hwp) as ([] & w' & Hh & fr & F'). exists w'. eexists. split; [done|].
  split; [by eapply focus_closed|]. split; [apply F'|]. split; [done|]. split; [done|]. apply F'.
Qed.

(** C2: A GET exchange.  Take a state that satisfies the invariant of the poller
    and, under the conditions [enabled] and [externals_ok], the poll of a GET
    item of the queue: its interface is given by address and is not disabled,
    its delay is valid, its identifier can be parsed, it was not polled a moment
    ago, and open sessions and contention are at most [POLLER_MAX_SESSIONS].
    The poll opens one session and sends one packet: the message that asks for
    the parsed identifier of the item, with its version and community and the id
    of the session, to the address of its interface; and it reports the next
    check.  A well-formed answer with this id ([good_answer]) closes the session
    and returns the item to the queue, and the results of exactly its variables
    (or one error when the agent reports one) are passed on for this item. *)
Theorem snmp_get_exchange {T I} `{SessionTable T I} x (w : world T) (e1 : env I) id i ids f :
  externals_ok x -> poller_inv x w -> enabled x e1 (Ev_poll id) w ->
  w_items w !! id = Some i -> is_get i -> it_state i = POLL_QUEUED -> c_useip (it_conf i) = 1 ->
  sessions_count (w_sess w) <= POLLER_MAX_SESSIONS -> e_contention e1 <= POLLER_MAX_SESSIONS ->
  e_disabled_till e1 = None -> e_interval e1 = Some f ->
  throttled e1 i = false -> x_snmp_parse_oid x (c_oid (it_conf i)) = Some ids ->
  exists sid w1, handle x e1 (Ev_poll id) w = Ret (tt, w1) /\
    (forall s y, open_sessions (w_sess w1) !! s = Some y <-> s = sid /\ y = id \/ open_sessions (w_sess w) !! s = Some y) /\
    open_sessions (w_sess w) !! sid = None /\
    w_log w1 = w_log w ++
      [(id, A_send (message_bytes (request (it_conf i) SNMP_CMD_GET sid ids)) (x_make_addr x (Some (c_interface_addr (it_conf i))) (c_port (it_conf i))));
       (id, A_nextcheck (f (e_now e1 + 1)))] /\
    forall (e2 : env I) p bs, enabled x e2 (Ev_answer p) w1 -> good_answer x p bs -> u32 (p_req_id p) = sid ->
      exists w2 i2, handle x e2 (Ev_answer p) w1 = Ret (tt, w2) /\
        (forall s y, open_sessions (w_sess w2) !! s = Some y <-> s <> sid /\ open_sessions (w_sess w1) !! s = Some y) /\
        w_items w2 = <[id := i2]> (w_items w1) /\ it_state i2 = POLL_QUEUED /\ it_timer i2 = false /\
        w_log w2 = w_log w1 ++ (pair id <$> shown_answer x p bs ++ [A_iface_succeed]).
Proof.
  intros Hx Hw (Hin & Hg & _) Hi Hget Hst Huse Hcnt Hcon Hdis Hint Hthr Hparse.
  destruct (pi_items _ _ Hw id i Hi) as [Hid Hinv]. pose proof (focus_start e1 id w i Hw Hi Hin) as F.
  assert (Hs : it_sessid i = 0).
  { destruct Hinv as []. destruct (decide (it_sessid i = 0)) as [|Hne]; [done|]. destruct (ii_get0 Hget) as [_ Hp]. by rewrite Hp in Hst by (by apply ii_timer0). }
  rewrite Hs in F.
  assert (Hwp : wp (handle x e1 (Ev_poll id)) (fun _ w1 => exists sid i1, 0 < sid < 2 ^ 31 /\ item_inv x i1 /\ it_conf i1 = it_conf i /\ it_timer i1 = true /\ it_sessid i1 = sid /\
    focus e1 id w false i1 sid [sent_packet x (set_ipaddr (Some (c_interface_addr (it_conf i))) i) SNMP_CMD_GET sid ids; A_nextcheck (f (e_now e1 + 1))] w1) w).
  { cbn [handle]. eapply wp_poll_get; try done. intros sid i1 w1 Hsid Hi1 Hc1 Ht1 Hs1 F1. by exists sid, i1. }
  destruct (wp_elim _ _ _ Hwp) as ([] & w1 & Hh & sid & i1 & Hsid & Hi1 & Hc1 & Ht1 & Hs1 & F1).
  destruct (focus_opened e1 id w w1 i i1 sid _ F F1 ltac:(lia)) as [Hfree Hopen]. exists sid, w1.
  split; [done|]. split; [done|]. split; [done|]. split; [apply F1|]. intros e2 p bs He Ha Hreq. rewrite <- Hs1 in Hreq |- *.
  apply (get_answer_ok x w1 e2 id i1); try done.
  - by eapply focus_end.
  - rewrite (fo_items _ _ _ _ _ _ _ _ F1). apply lookup_insert_eq.
  - unfold is_get. by rewrite Hc1.
Qed.

(** C4: The answer to a walk.  Under the conditions [enabled] and
    [externals_ok], when an item that is walked gets a well-formed answer to its
    request, one of two things happens.  Every variable [proceeds]: it has the
    root as a prefix, is not the end of the MIB nor a missing instance, is not
    the object that was asked for, and no more than [SNMP_WALK_MAX_OIDS] were
    seen; then each value is kept under the index chosen for its identifier, and
    the object after the last one is asked for.  Or the answer is empty or some
    variable [stops] the subtree, the ones before it having been recorded:
    silently when it is outside of the subtree, with the error that belongs to
    the reason otherwise; then the walk goes on with the next root, ends with
    the error of a root that cannot be parsed or printed, or after the last root
    passes on the array of all objects found.  The interface is reported
    alive. *)
Theorem snmp_walk_answer {T I} `{SessionTable T I} x (w : world T) (e : env I) id i d p bs :
  externals_ok x -> poller_inv x w -> w_items w !! id = Some i -> ~ is_get i -> it_data i = Some d -> enabled x e (Ev_answer p) w ->
  good_answer x p bs -> u32 (p_req_id p) = it_sessid i ->
  exists w' i' s' l, handle x e (Ev_answer p) w = Ret (tt, w') /\
    walk_step x e bs (answered i) d [] i' s' l /\
    w_items w' = <[id := i']> (w_items w) /\ it_sessid i' = s' /\
    w_log w' = w_log w ++ (pair id <$> l ++ [A_iface_succeed]).
Proof.
  intros Hx Hw Hi Hget Hd (Hin & Hg & _ & _ & Ho) Ha Hreq. destruct (pi_items _ _ Hw id i Hi) as [Hid Hinv]. pose proof (focus_start e id w i Hw Hi Hin) as F.
  assert (Ht : it_timer i = true) by (pose proof (ii_walk _ _ Hinv Hget) as Hwk; rewrite Hd in Hwk; apply Hwk).
  assert (Hwp : wp (handle x e (Ev_answer p)) (fun _ w' => exists fr i' s' l, walk_step x e bs (answered i) d [] i' s' l /\ it_sessid i' = s' /\
    focus e id w fr i' s' (l ++ [A_iface_succeed]) w') w).
  { cbn [handle responce_arrived_cb]. apply wp_bind. eapply (wp_answer x Hx e Hg id w p bs i []); [exact F|done..|].
    intros fr i' s' l' w' [] _ _ Hwk F'. destruct (Hwk d Hget Hd) as (l & Hst & ->). apply wp_free_answer; [done|]. by exists fr, i', s', l. }
  destruct (wp_elim _ _ _ Hwp) as ([] & w' & Hh & fr & i' & s' & l & Hst & Hs & F'). exists w', i', s', l. split_and!; try done; apply F'.
Qed.

(** C5: The result of a walk is read back.  The text that is passed on for the
    objects of a walk is one JSON text; the reader of JSON texts makes of it
    the array with one object for each index, in the order in which they were
    found, with the index and the values that were recorded under their
    macros. *)
Theorem snmp_walk_result {T} x (w : world T) id i d :
  externals_ok x -> w_items w !! id = Some i -> it_data i = Some d -> walk_data d ->
  exists w' text, snmp_walk_submit_result x id w = Ret (tt, w') /\
    w_log w' = w_log w ++ [(id, A_text text); (id, A_iface_succeed)] /\
    text_of (discovery_json d) text /\ zbx_jsonobj_open text = Ret (inl (obj_of (discovery_json d))).
Proof.
  intros Hx Hi Hd [Hps _ Hobj _]. destruct (submit_text x d Hps Hobj) as (js & js' & text & E1 & E2 & E3 & Ht).
  unfold snmp_walk_submit_result, mbind, M_bind, get_item, lift, out. rewrite Hi, Hd. cbn [of_opt]. rewrite E1, E2, E3. eexists _, text.
  split; [reflexivity|]. cbn [w_log]. rewrite <- app_assoc. split; [done|]. split; [done|]. by apply open_complete.
Qed.

(** ** Witnesses *)

Definition sample_x : externals :=
  Externals 0 (fun _ => true) (fun p _ => zlen p) (fun _ _ => [127; 0; 0; 1]) (fun _ => Some [1; 3; 6; 1]) (fun _ _ => Some [46; 49])
    (fun _ => false) (fun _ _ _ => Some []) (fun _ => Some [bytes "{#A}"; bytes ".1.3.6.1"]).

Lemma sample_x_ok : externals_ok sample_x.
Proof.
  split.
  - reflexivity.
  - cbn. lia.
  - intros b ids s [= <-]. split; [repeat constructor; lia|reflexivity].
  - intros n t v s [= <-]. constructor.
  - intros key ps [= <-]. repeat constructor; vm_compute; auto.
Qed.

Lemma sample_ids : good_ids [1; 3; 6; 1].
Proof. split; [|discriminate]. cbn. repeat split; try lia. repeat constructor; lia. Qed.

Lemma sample_oid s : good_oid sample_x s.
Proof. intros ids [= <-]. exact sample_ids. Qed.

Lemma sample_text s : good_text sample_x s.
Proof. split; [apply sample_oid|]. intros ps _ n root _. apply sample_oid. Qed.

(** The time and the id of the next session. *)
Definition sample_env (now sid : Z) : env Z := Env now 0 sid SUCCEED true None (Some (fun t => t + 59)) 0.
Definition sample_conf (type : Z) : item_conf := ItemConf (bytes ".1.3.6.1") (bytes "127.0.0.1") 2 1 161 (bytes "public") type.
Definition sample_world (sessions : gmap Z Z) (i : item) : world (gmap Z Z) := World sessions {[5 := i]} 0 0 0 [].

Lemma sample_inv sessions i : item_inv sample_x i -> (if it_sessid i =? 0 then sessions = ∅ else sessions = {[it_sessid i := 5]}) -> poller_inv sample_x (sample_world sessions i).
Proof.
  intros Hi Hs. split.
  - exact Logic.I.
  - intros id j Hj. cbn [w_items sample_world] in Hj. apply lookup_singleton_Some in Hj as [<- <-]. split; [discriminate|exact Hi].
  - intros sid id. cbn [w_sess w_items sample_world open_sessions map_sessions]. setoid_rewrite lookup_singleton_Some.
    destruct (Z.eqb_spec (it_sessid i) 0) as [E|E]; subst sessions.
    + rewrite lookup_empty. split; [discriminate|]. intros (Hne & j & [_ <-] & <-). contradiction.
    + rewrite lookup_singleton_Some. split; [intros [<- <-]; split; [exact E|]; exists i; auto|]. intros (_ & j & [<- <-] & <-). auto.
Qed.

(** A GET item in the queue and one that waits; an item that is walked. *)
Definition sample_get (state : poll_state) (sid : Z) : item :=
  Item (sample_conf SNMP_CMD_GET) state 100 (Some 1) (negb (sid =? 0)) (Some (bytes "127.0.0.1")) sid 0 0 None.
Definition sample_data : snmp_ddata :=
  Ddata (Oid (Some [1; 3; 6; 1]) 4) 2 2 (Oid (Some [1; 3; 6; 1]) 4) 0 0 [Dobject [46; 55] [Some [120]]] [bytes "{#A}"; bytes ".1.3.6.1"].
Definition sample_walk : item :=
  Item (sample_conf SNMP_CMD_GET_NEXT) POLL_POLLING 100 (Some 1) true (Some (bytes "127.0.0.1")) 7 0 0 (Some sample_data).

Lemma sample_conf_ok type : type = SNMP_CMD_GET \/ type = SNMP_CMD_GET_NEXT -> conf_ok sample_x (sample_conf type).
Proof. intros Ht. split; [right; reflexivity|]. split; [discriminate|]. split; [exact Ht|apply sample_text]. Qed.

Lemma sample_get_inv state sid : (sid <> 0 -> state = POLL_POLLING) -> item_inv sample_x (sample_get state sid).
Proof.
  intros Hs. destruct (Z.eqb_spec sid 0) as [->|Hne].
  - apply off_inv; try reflexivity; [apply sample_conf_ok; left; reflexivity|split; discriminate].
  - apply on_inv; cbn [sample_get it_conf it_retries it_timer it_sessid it_data it_state].
    + apply sample_conf_ok. left. reflexivity.
    + unfold SNMP_MAX_RETRIES. lia.
    + apply Z.eqb_neq in Hne as ->. reflexivity.
    + exact Hne.
    + intros _. split; [reflexivity|exact (Hs Hne)].
    + intros H. destruct H. reflexivity.
Qed.

Lemma sample_walk_data : walk_data sample_data.
Proof.
  split.
  - repeat constructor; vm_compute; auto.
  - vm_compute. split; [discriminate|reflexivity].
  - constructor; [|constructor]. split; [repeat constructor; lia|]. split; [reflexivity|]. repeat constructor. intros t [= <-]. repeat constructor; lia.
  - apply NoDup_singleton.
Qed.

Lemma sample_walk_inv : item_inv sample_x sample_walk.
Proof.
  apply on_inv; try reflexivity.
  - apply sample_conf_ok. right. reflexivity.
  - split; discriminate.
  - discriminate.
  - intros [=].
  - intros _. exists sample_data. split; [reflexivity|]. split; [exact sample_walk_data|discriminate|split; discriminate| | |intros n root _; apply sample_oid].
    + exists [1; 3; 6; 1]. apply (is_oid_self [1; 3; 6; 1]).
    + exists [1; 3; 6; 1]. split; [apply (is_oid_self [1; 3; 6; 1])|exact sample_ids].
Qed.

(** The answer 1.3.6.1.5 = 3 to the session 7. *)
Definition sample_answer : csnmp_pdu :=
  Pdu [127; 0; 0; 1] SNMP_VERSION_2c (Str (Some [112; 0]) 1) 0xa2 7 0 0 0 0
    (Some [Var (Oid (Some [1; 3; 6; 1; 5]) 5) SNMP_TP_INT (V_int 3) no_error]) 1 4 no_error.
Definition sample_bindings : list binding := [Binding [1; 3; 6; 1; 5] SNMP_TP_INT (W_int 3)].

Lemma sample_answer_ok : good_answer sample_x sample_answer sample_bindings /\ owned sample_answer.
Proof.
  assert (Hv : has_vars sample_answer [Var (Oid (Some [1; 3; 6; 1; 5]) 5) SNMP_TP_INT (V_int 3) no_error]) by (split; [reflexivity|left; reflexivity]).
  split; [split|].
  - eexists. split; [exact Hv|]. constructor; [|constructor]. split; [apply (is_oid_self [1; 3; 6; 1; 5])|]. split; reflexivity.
  - split; [|constructor; [exact Logic.I|constructor]].
    constructor; [|constructor]. split; [|vm_compute; split; [discriminate|reflexivity]]. split; [|discriminate]. cbn. repeat split; try lia. repeat constructor; lia.
  - eexists. split; [exact Hv|]. constructor; [exact Logic.I|constructor].
Qed.

Lemma snmp_poller_witness :
  exists w', handle sample_x (sample_env 1000 7) (Ev_create 5 (DcItem (Some (bytes ".1.3")) 2 1 [] 161 [])) (World (T := gmap Z Z) ∅ ∅ 0 0 0 []) = Ret (tt, w').
Proof.
  destruct (snmp_poller_safe sample_x (World (T := gmap Z Z) ∅ ∅ 0 0 0 []) (World (T := gmap Z Z) ∅ ∅ 0 0 0 []) (sample_env 1000 7)
    (Ev_create 5 (DcItem (Some (bytes ".1.3")) 2 1 [] 161 []))) as (w' & Hw & _).
  - exact sample_x_ok.
  - split; [exact Logic.I|split; reflexivity].
  - apply rtc_refl.
  - split; [split; [cbn; lia|reflexivity]|]. split; [discriminate|]. split; [discriminate|]. split; [right; reflexivity|]. split; [discriminate|]. intros oid _. apply sample_text.
  - exists w'. exact Hw.
Defined.

Lemma snmp_polls_end_witness :
  exists w' i', handle sample_x (sample_env 1000 9) (Ev_timeout 5) (sample_world {[7 := 5]} (sample_get POLL_POLLING 7)) = Ret (tt, w') /\
    w_items w' !! 5 = Some i' /\ 0 <= measure i' < 3.
Proof.
  destruct (snmp_polls_end sample_x (sample_world {[7 := 5]} (sample_get POLL_POLLING 7)) (sample_env 1000 9) 5 (sample_get POLL_POLLING 7) (Ev_timeout 5))
    as (w' & i' & Hh & Hi & Hm & _).
  - exact sample_x_ok.
  - apply sample_inv; [apply sample_get_inv; reflexivity|reflexivity].
  - reflexivity.
  - reflexivity.
  - left. reflexivity.
  - split; [split; [cbn; lia|reflexivity]|]. split; [discriminate|]. exists (sample_get POLL_POLLING 7). split; reflexivity.
  - exists w', i'. split; [exact Hh|]. split; [rewrite Hi; apply lookup_insert_eq|exact Hm].
Defined.

Lemma snmp_get_exchange_witness :
  exists sid w1, handle sample_x (sample_env 1000 7) (Ev_poll 5) (sample_world ∅ (sample_get POLL_QUEUED 0)) = Ret (tt, w1) /\
    open_sessions (w_sess w1) !! sid = Some 5.
Proof.
  destruct (snmp_get_exchange sample_x (sample_world ∅ (sample_get POLL_QUEUED 0)) (sample_env 1000 7) 5 (sample_get POLL_QUEUED 0) [1; 3; 6; 1] (fun t => t + 59))
    as (sid & w1 & Hh & Ho & _).
  - exact sample_x_ok.
  - apply sample_inv; [apply sample_get_inv; intros H; destruct H; reflexivity|reflexivity].
  - split; [split; [cbn; lia|reflexivity]|]. split; [discriminate|]. exists (sample_get POLL_QUEUED 0). split; [reflexivity|discriminate].
  - reflexivity.
  - reflexivity.
  - reflexivity.
  - reflexivity.
  - discriminate.
  - discriminate.
  - reflexivity.
  - reflexivity.
  - reflexivity.
  - reflexivity.
  - exists sid, w1. split; [exact Hh|]. apply Ho. left. split; reflexivity.
Defined.

Lemma snmp_walk_answer_witness :
  exists w' i' s' l, handle sample_x (sample_env 1000 9) (Ev_answer sample_answer) (sample_world {[7 := 5]} sample_walk) = Ret (tt, w') /\
    walk_step sample_x (sample_env 1000 9) sample_bindings (answered sample_walk) sample_data [] i' s' l.
Proof.
  destruct (snmp_walk_answer sample_x (sample_world {[7 := 5]} sample_walk) (sample_env 1000 9) 5 sample_walk sample_data sample_answer sample_bindings)
    as (w' & i' & s' & l & Hh & Hs & _).
  - exact sample_x_ok.
  - apply sample_inv; [exact sample_walk_inv|reflexivity].
  - reflexivity.
  - discriminate.
  - reflexivity.
  - split; [split; [cbn; lia|reflexivity]|]. split; [discriminate|]. exists sample_bindings. exact sample_answer_ok.
  - exact (proj1 sample_answer_ok).
  - reflexivity.
  - exists w', i', s', l. split; [exact Hh|exact Hs].
Defined.

Lemma snmp_walk_result_witness :
  exists w' text, snmp_walk_submit_result sample_x 5 (sample_world {[7 := 5]} sample_walk) = Ret (tt, w') /\
    zbx_jsonobj_open text = Ret (inl (obj_of (discovery_json sample_data))).
Proof.
  destruct (snmp_walk_result sample_x (sample_world {[7 := 5]} sample_walk) 5 sample_walk sample_data) as (w' & text & Hh & _ & _ & Ho).
  - exact sample_x_ok.
  - reflexivity.
  - reflexivity.
  - exact sample_walk_data.
  - exists w', text. split; [exact Hh|exact Ho].
Defined.

(** ** Behaviour at the limits *)

(** Some ids of sessions come back as other numbers, so that the answer is
    taken for one to no request. *)
Example some_answers_unmatched : u32 (wire_int 0x900000) <> 0x900000.
Proof. by vm_compute. Qed.

(** An identifier of 129 components is copied over the end of an array of
    128, and the end of a short address is read. *)
Example long_identifier_overflows :
  csnmp_oid_2_netsnmp (Oid (Some (replicate 129 1)) 129) (replicate (Z.to_nat MAX_OID_LEN) 0) = Halt BadAccess.
Proof. by vm_compute. Qed.

Example short_address_overread :
  snmp_set_result 0 (fun _ => false) (fun _ _ _ => Some []) (Var (Oid (Some [1; 3]) 2) SNMP_TP_IP_ADDR (V_str (Str (Some [10; 0; 0]) 2)) no_error) = Halt BadAccess.
Proof. by vm_compute. Qed.

(** The texts for the two kinds of missing objects are exchanged, and the
    value of an object that is an identifier is not supported. *)
Example missing_texts_exchanged :
  snmp_err_to_text SNMP_TP_NO_SUCH_OBJ = "No Such Instance currently exists at this OID"%string /\
  snmp_err_to_text SNMP_TP_NO_SUCH_INSTANCE = "No Such Object available on this agent at this OID"%string.
Proof. split; reflexivity. Qed.

Example identifiers_unsupported :
  snmp_set_result 0 (fun _ => false) (fun _ _ _ => Some []) (Var (Oid (Some [1; 3]) 2) SNMP_TP_OID (V_oid (Oid (Some [1; 3]) 2)) no_error)
  = Ret (NOTSUPPORTED, R_msg "Value has unknown type 0x06").
Proof. by vm_compute. Qed.

(** The end of the MIB, 0x82, is decoded as -126 and taken for an object: the
    walk reports that the identifier does not increase. *)
Definition end_of_mib : csnmp_pdu :=
  Pdu [127; 0; 0; 1] SNMP_VERSION_2c (Str (Some [112; 0]) 1) 0xa2 7 0 0 0 0
    (Some [Var (Oid (Some [1; 3; 6; 1]) 4) (-126) (V_str (Str (Some [0]) 0)) no_error]) 1 4 no_error.

Example end_of_mib_reported :
  match handle sample_x (sample_env 1000 9) (Ev_answer end_of_mib) (sample_world {[7 := 5]} sample_walk) with
  | Ret (_, w) => head (w_log w) = Some (5, A_error "Cannot walk item: oid is not increasing")
  | Halt _ => False
  end.
Proof. by vm_compute. Qed.

(** An item that is due in 31 days gets a delay of 584 million years. *)
Example monthly_item_never_polled :
  match handle sample_x (Env 1000 0 7 SUCCEED true None (Some (fun t => t - 1 + 31 * 86400)) 0) (Ev_poll 5) (sample_world ∅ (sample_get POLL_QUEUED 0)) with
  | Ret (_, w) => it_poll <$> w_items w !! 5 = Some (Some (2 ^ 64 - 1616567296))
  | Halt _ => False
  end.
Proof. by vm_compute. Qed.

(** A string that Net-SNMP cannot print is taken for a missing text. *)
Example unprintable_text :
  snmp_set_result 0 (fun _ => false) (fun _ _ _ => None) (Var (Oid (Some [1; 3]) 2) SNMP_TP_OCT_STR (V_str (Str (Some [65; 0]) 1)) no_error) = Halt BadAccess.
Proof. by vm_compute. Qed.

(** The resolver answers an item that waits already: its session is forgotten
    and stays open beside the new one. *)
Example late_resolver :
  match handle sample_x (sample_env 1000 9) (Ev_resolved 5 (Some [bytes "10.0.0.1"])) (sample_world {[7 := 5]} (sample_get POLL_POLLING 7)) with
  | Ret (_, w) => open_sessions (w_sess w) = {[7 := 5; 9 := 5]} /\ it_sessid <$> w_items w !! 5 = Some 9
  | Halt _ => False
  end.
Proof. by vm_compute. Qed.
