(* ===== verification/Calendar.v ===== *)
(** * Broken-down time (src/libs/zbxtime/time.c)

    Leap years, the length of months, the conversion of a date to seconds
    since the Epoch, and the arithmetic on [struct tm] that rounds and shifts
    times by units.  [localtime] and [mktime] belong to the C library: they
    are the argument [z : zone] of the definitions that call them.

    The theory counts seconds: [secs] is the formula of [zbx_utc_time] without
    the width of [int], [secs_inc] shows that it goes up by one from a second
    to the next one of the calendar, and [secs_lex] that it orders dates as
    the calendar does. *)
From stdpp Require Import prelude list.
From Stdlib Require Import ZArith Lia.
From S2P Require Import Prelude.
#[local] Open Scope Z_scope.

Abbreviation SEC_PER_MIN := 60.
Abbreviation SEC_PER_HOUR := 3600.
Abbreviation SEC_PER_DAY := 86400.
Abbreviation SEC_PER_WEEK := 604800.
Abbreviation SEC_PER_YEAR := 31536000.
Abbreviation ZBX_JAN_2038 := 2145916800.

(** [struct tm] *)
Record tm := Tm {
  tm_sec : Z; tm_min : Z; tm_hour : Z; tm_mday : Z; tm_mon : Z; tm_year : Z; tm_wday : Z; tm_yday : Z; tm_isdst : Z }.

#[export] Instance tm_eq_dec : EqDecision tm.
Proof. solve_decision. Defined.

Definition set_sec (t : tm) (v : Z) : tm :=
  Tm v (tm_min t) (tm_hour t) (tm_mday t) (tm_mon t) (tm_year t) (tm_wday t) (tm_yday t) (tm_isdst t).
Definition set_min (t : tm) (v : Z) : tm :=
  Tm (tm_sec t) v (tm_hour t) (tm_mday t) (tm_mon t) (tm_year t) (tm_wday t) (tm_yday t) (tm_isdst t).
Definition set_hour (t : tm) (v : Z) : tm :=
  Tm (tm_sec t) (tm_min t) v (tm_mday t) (tm_mon t) (tm_year t) (tm_wday t) (tm_yday t) (tm_isdst t).
Definition set_mday (t : tm) (v : Z) : tm :=
  Tm (tm_sec t) (tm_min t) (tm_hour t) v (tm_mon t) (tm_year t) (tm_wday t) (tm_yday t) (tm_isdst t).
Definition set_mon (t : tm) (v : Z) : tm :=
  Tm (tm_sec t) (tm_min t) (tm_hour t) (tm_mday t) v (tm_year t) (tm_wday t) (tm_yday t) (tm_isdst t).
Definition set_year (t : tm) (v : Z) : tm :=
  Tm (tm_sec t) (tm_min t) (tm_hour t) (tm_mday t) (tm_mon t) v (tm_wday t) (tm_yday t) (tm_isdst t).
Definition set_wday (t : tm) (v : Z) : tm :=
  Tm (tm_sec t) (tm_min t) (tm_hour t) (tm_mday t) (tm_mon t) (tm_year t) v (tm_yday t) (tm_isdst t).
Definition set_isdst (t : tm) (v : Z) : tm :=
  Tm (tm_sec t) (tm_min t) (tm_hour t) (tm_mday t) (tm_mon t) (tm_year t) (tm_wday t) (tm_yday t) v.

(** The C library: [localtime t], and [mktime tm], which returns the time
    (-1 for an error) and leaves the normalised fields in [tm]. *)
Record zone := Zone { localtime : Z -> tm; mktime : tm -> Z * tm }.

(** ** Dates *)

Definition zbx_is_leap_year (year : Z) : bool :=
  (Z.rem year 4 =? 0) && (negb (Z.rem year 100 =? 0) || (Z.rem year 400 =? 0)).

Definition month_length : list Z := [31; 28; 31; 30; 31; 30; 31; 31; 30; 31; 30; 31].

Definition zbx_day_in_month (year mon : Z) : Z :=
  if (1 <=? mon) && (mon <=? 12) then
    nth (Z.to_nat (mon - 1)) month_length 0 + (if (mon =? 2) && zbx_is_leap_year year then 1 else 0)
  else 30.

(** [ZBX_LEAP_YEARS(year)] *)
Definition leap_years (year : Z) : Z := Z.quot (year - 1) 4 - Z.quot (year - 1) 100 + Z.quot (year - 1) 400.

Definition month_day : list Z := [0; 31; 59; 90; 120; 151; 181; 212; 243; 273; 304; 334].

(** The value assigned to [*t], before it is reduced to an [int]. *)
Definition utc_seconds (year mon mday hour min sec : Z) : Z :=
  (year - 1970) * SEC_PER_YEAR
  + (leap_years (if 2 <? mon then year + 1 else year) - leap_years 1970) * SEC_PER_DAY
  + (nth (Z.to_nat (mon - 1)) month_day 0 + mday - 1) * SEC_PER_DAY + hour * SEC_PER_HOUR + min * SEC_PER_MIN + sec.

(** [*t] on SUCCEED.  The sum overflows from 2038-01-19 on, which the
    language leaves undefined; here it wraps around. *)
Definition zbx_utc_time (year mon mday hour min sec : Z) : option Z :=
  if (1970 <=? year) && (1 <=? mon) && (mon <=? 12) && (1 <=? mday) && (mday <=? zbx_day_in_month year mon)
     && (0 <=? hour) && (hour <=? 23) && (0 <=? min) && (min <=? 59) && (0 <=? sec) && (sec <=? 61) then
    let t := i32 (utc_seconds year mon mday hour min sec) in
    if 0 <=? t then Some t else None
  else None.

(** ** Arithmetic on broken-down times *)

Inductive zbx_time_unit_t :=
  | ZBX_TIME_UNIT_UNKNOWN | ZBX_TIME_UNIT_SECOND | ZBX_TIME_UNIT_MINUTE | ZBX_TIME_UNIT_HOUR | ZBX_TIME_UNIT_DAY
  | ZBX_TIME_UNIT_WEEK | ZBX_TIME_UNIT_MONTH | ZBX_TIME_UNIT_YEAR | ZBX_TIME_UNIT_ISOYEAR.

#[export] Instance time_unit_eq_dec : EqDecision zbx_time_unit_t.
Proof. solve_decision. Defined.

Definition time_unit_seconds (base : zbx_time_unit_t) : Z :=
  match base with
  | ZBX_TIME_UNIT_SECOND => 1
  | ZBX_TIME_UNIT_MINUTE => SEC_PER_MIN
  | ZBX_TIME_UNIT_HOUR => SEC_PER_HOUR
  | ZBX_TIME_UNIT_DAY => SEC_PER_DAY
  | ZBX_TIME_UNIT_WEEK => SEC_PER_WEEK
  | _ => 0
  end.

Definition zbx_tm_str_to_unit (c : Z) : zbx_time_unit_t :=
  if c =? 115 then ZBX_TIME_UNIT_SECOND
  else if c =? 109 then ZBX_TIME_UNIT_MINUTE
  else if c =? 104 then ZBX_TIME_UNIT_HOUR
  else if c =? 100 then ZBX_TIME_UNIT_DAY
  else if c =? 119 then ZBX_TIME_UNIT_WEEK
  else if c =? 77 then ZBX_TIME_UNIT_MONTH
  else if c =? 121 then ZBX_TIME_UNIT_YEAR
  else ZBX_TIME_UNIT_UNKNOWN.

Definition tm_days (t : tm) : Z := zbx_day_in_month (tm_year t + 1900) (tm_mon t + 1).

(** The cases of [tm_add]. *)
Definition tm_add_year (t : tm) (multiplier : Z) : tm := set_year t (tm_year t + multiplier).

Definition tm_add_month (t : tm) (multiplier : Z) : tm :=
  let t := set_mon t (tm_mon t + multiplier) in
  if 12 <=? tm_mon t then tm_add_year (set_mon t (Z.rem (tm_mon t) 12)) (Z.quot (tm_mon t) 12) else t.

(** [while (tm->tm_mday > (shift = zbx_day_in_month(...)))]; every turn takes
    off at least 28 days. *)
Fixpoint add_days_loop (fuel : nat) (t : tm) : res tm :=
  match fuel with
  | O => Halt OutOfFuel
  | S fuel =>
      let shift := tm_days t in
      if shift <? tm_mday t then add_days_loop fuel (tm_add_month (set_mday t (tm_mday t - shift)) 1) else Ret t
  end.

Definition tm_add_day (t : tm) (multiplier : Z) : res tm :=
  let t := set_mday t (tm_mday t + multiplier) in
  t ← add_days_loop (S (Z.to_nat (tm_mday t))) t;
  Ret (set_wday t (Z.rem (tm_wday t + multiplier) 7)).

Definition tm_add_hour (t : tm) (multiplier : Z) : res tm :=
  let t := set_hour t (tm_hour t + multiplier) in
  if 24 <=? tm_hour t then tm_add_day (set_hour t (Z.rem (tm_hour t) 24)) (Z.quot (tm_hour t) 24) else Ret t.

Definition tm_add (t : tm) (multiplier : Z) (base : zbx_time_unit_t) : res tm :=
  match base with
  | ZBX_TIME_UNIT_HOUR => tm_add_hour t multiplier
  | ZBX_TIME_UNIT_DAY => tm_add_day t multiplier
  | ZBX_TIME_UNIT_WEEK => tm_add_day t (multiplier * 7)
  | ZBX_TIME_UNIT_MONTH => Ret (tm_add_month t multiplier)
  | ZBX_TIME_UNIT_YEAR => Ret (tm_add_year t multiplier)
  | _ => Ret t
  end.

Definition neg_to_pos_wrap (value base : Z) : Z :=
  let reminder := Z.rem value base in if reminder =? 0 then 0 else base + reminder.

(** The cases of [tm_sub]. *)
Definition tm_sub_year (t : tm) (multiplier : Z) : tm := set_year t (tm_year t - multiplier).

Definition tm_sub_month (t : tm) (multiplier : Z) : tm :=
  let t := set_mon t (tm_mon t - multiplier) in
  if tm_mon t <? 0 then
    let shift := Z.quot (- tm_mon t) 12 in
    let t := set_mon t (neg_to_pos_wrap (tm_mon t) 12) in
    tm_sub_year t (if tm_mon t =? 0 then shift else shift + 1)
  else t.

(** [while (0 >= tm->tm_mday)]; every turn adds at least 28 days. *)
Fixpoint sub_days_loop (fuel : nat) (t : tm) : res tm :=
  match fuel with
  | O => Halt OutOfFuel
  | S fuel =>
      if tm_mday t <=? 0 then
        let prev_mon := (if tm_mon t - 1 <? 0 then 11 else tm_mon t - 1) + 1 in
        sub_days_loop fuel (tm_sub_month (set_mday t (tm_mday t + zbx_day_in_month (tm_year t + 1900) prev_mon)) 1)
      else Ret t
  end.

Definition tm_sub_day (t : tm) (multiplier : Z) : res tm :=
  let t := set_mday t (tm_mday t - multiplier) in
  t ← sub_days_loop (S (Z.to_nat (1 - tm_mday t))) t;
  let wday := tm_wday t - multiplier in
  Ret (set_wday t (if wday <? 0 then neg_to_pos_wrap wday 7 else wday)).

Definition tm_sub_hour (t : tm) (multiplier : Z) : res tm :=
  let t := set_hour t (tm_hour t - multiplier) in
  if tm_hour t <? 0 then
    let shift := Z.quot (- tm_hour t) 24 in
    let t := set_hour t (neg_to_pos_wrap (tm_hour t) 24) in
    tm_sub_day t (if tm_hour t =? 0 then shift else shift + 1)
  else Ret t.

Definition tm_sub (t : tm) (multiplier : Z) (base : zbx_time_unit_t) : res tm :=
  match base with
  | ZBX_TIME_UNIT_HOUR => tm_sub_hour t multiplier
  | ZBX_TIME_UNIT_DAY => tm_sub_day t multiplier
  | ZBX_TIME_UNIT_WEEK => tm_sub_day t (multiplier * 7)
  | ZBX_TIME_UNIT_MONTH => Ret (tm_sub_month t multiplier)
  | ZBX_TIME_UNIT_YEAR => Ret (tm_sub_year t multiplier)
  | _ => Ret t
  end.

Definition get_week_days (yday wday : Z) : Z := yday - Z.rem (yday - wday + 382) 7 + 3.

Definition zbx_get_week_number (t : tm) : Z :=
  let days := get_week_days (tm_yday t) (tm_wday t) in
  let days :=
    if days <? 0 then
      get_week_days (tm_yday t + 365 + (if zbx_is_leap_year (tm_year t + 1899) then 1 else 0)) (tm_wday t)
    else
      let d := tm_yday t - 365 - (if zbx_is_leap_year (tm_year t + 1900) then 1 else 0) in
      let days_next := get_week_days d (tm_wday t) in
      if 0 <=? days_next then days_next else days in
  Z.quot days 7 + 1.

Definition clamp_mday (t : tm) : tm := if tm_days t <? tm_mday t then set_mday t (tm_days t) else t.

Section zone.
Context (z : zone).

Definition tm_add_seconds (t : tm) (seconds : Z) : res tm :=
  let time_new := fst (mktime z t) in
  if time_new =? -1 then Ret t
  else
    let tm_new := localtime z (time_new + seconds) in
    if negb (tm_isdst t =? tm_isdst tm_new) && negb (tm_isdst t =? -1) && negb (tm_isdst tm_new =? -1) then
      if tm_isdst tm_new =? 0 then tm_add tm_new 1 ZBX_TIME_UNIT_HOUR else tm_sub tm_new 1 ZBX_TIME_UNIT_HOUR
    else Ret tm_new.

Definition zbx_tm_add (t : tm) (multiplier : Z) (base : zbx_time_unit_t) : res tm :=
  t ← (match base with
       | ZBX_TIME_UNIT_MONTH | ZBX_TIME_UNIT_YEAR => t ← tm_add t multiplier base; Ret (clamp_mday t)
       | _ => Ret t
       end);
  tm_add_seconds t (multiplier * time_unit_seconds base).

(** [zbx_tm_sub] for all units but the last. *)
Definition tm_sub_unit (t : tm) (multiplier : Z) (base : zbx_time_unit_t) : res tm :=
  t ← (match base with
       | ZBX_TIME_UNIT_MONTH | ZBX_TIME_UNIT_YEAR => t ← tm_sub t multiplier base; Ret (clamp_mday t)
       | _ => Ret t
       end);
  tm_add_seconds t (- multiplier * time_unit_seconds base).

Definition zbx_tm_sub (t : tm) (multiplier : Z) (base : zbx_time_unit_t) : res tm :=
  match base with
  | ZBX_TIME_UNIT_ISOYEAR =>
      let week_num := zbx_get_week_number t in
      t ← tm_sub_unit t week_num ZBX_TIME_UNIT_WEEK;
      let total_weeks := zbx_get_week_number t in
      let week_num := if total_weeks <? week_num then week_num - 1 else week_num in
      t ← tm_sub t (zbx_get_week_number t - week_num) ZBX_TIME_UNIT_WEEK;
      tm_add_seconds t (- multiplier * time_unit_seconds base)
  | _ => tm_sub_unit t multiplier base
  end.

(** The units a time is rounded by, in the order of the early returns. *)
Definition zbx_tm_round_up (t : tm) (base : zbx_time_unit_t) : res tm :=
  t ← (if tm_sec t =? 0 then Ret t else zbx_tm_add (set_sec t 0) 1 ZBX_TIME_UNIT_MINUTE);
  if decide (base = ZBX_TIME_UNIT_MINUTE) then Ret t else
  t ← (if tm_min t =? 0 then Ret t else zbx_tm_add (set_min t 0) 1 ZBX_TIME_UNIT_HOUR);
  if decide (base = ZBX_TIME_UNIT_HOUR) then Ret t else
  t ← (if tm_hour t =? 0 then Ret t else zbx_tm_add (set_hour t 0) 1 ZBX_TIME_UNIT_DAY);
  if decide (base = ZBX_TIME_UNIT_DAY) then Ret t else
  if decide (base = ZBX_TIME_UNIT_WEEK) then
    if tm_wday t =? 1 then Ret t
    else t ← zbx_tm_add t (if tm_wday t =? 0 then 1 else 8 - tm_wday t) ZBX_TIME_UNIT_DAY; Ret (set_wday t 1)
  else
  t ← (if tm_mday t =? 1 then Ret t else zbx_tm_add (set_mday t 1) 1 ZBX_TIME_UNIT_MONTH);
  if decide (base = ZBX_TIME_UNIT_MONTH) then Ret t else
  if tm_mon t =? 0 then Ret t else zbx_tm_add (set_mon t 0) 1 ZBX_TIME_UNIT_YEAR.

Definition midnight (t : tm) : tm := set_sec (set_min (set_hour t 0) 0) 0.

(** The switch of [zbx_tm_round_down] but for ISO years. *)
Definition round_down_unit (t : tm) (base : zbx_time_unit_t) : res tm :=
  match base with
  | ZBX_TIME_UNIT_WEEK =>
      t ← (if tm_wday t =? 1 then Ret t
           else t ← zbx_tm_sub t (if tm_wday t =? 0 then 6 else tm_wday t - 1) ZBX_TIME_UNIT_DAY; Ret (set_wday t 1));
      Ret (midnight t)
  | ZBX_TIME_UNIT_YEAR => Ret (midnight (set_mday (set_mon t 0) 1))
  | ZBX_TIME_UNIT_MONTH => Ret (midnight (set_mday t 1))
  | ZBX_TIME_UNIT_DAY => Ret (midnight t)
  | ZBX_TIME_UNIT_HOUR => Ret (set_sec (set_min t 0) 0)
  | ZBX_TIME_UNIT_MINUTE => Ret (set_sec t 0)
  | _ => Ret t
  end.

Definition zbx_tm_round_down (t : tm) (base : zbx_time_unit_t) : res tm :=
  match base with
  | ZBX_TIME_UNIT_ISOYEAR =>
      t ← round_down_unit t ZBX_TIME_UNIT_WEEK;
      t ← tm_add_seconds t 0;
      t ← zbx_tm_sub t (zbx_get_week_number t - 1) ZBX_TIME_UNIT_WEEK;
      tm_add_seconds t 0
  | _ => t ← round_down_unit t base; tm_add_seconds t 0
  end.
End zone.

(** Fields of times whose fields have been set. *)
Ltac tm_cbn := cbn [set_sec set_min set_hour set_mday set_mon set_year set_wday set_isdst
  tm_sec tm_min tm_hour tm_mday tm_mon tm_year tm_wday tm_yday tm_isdst].
Tactic Notation "tm_cbn" "in" "*" := cbn [set_sec set_min set_hour set_mday set_mon set_year set_wday set_isdst
  tm_sec tm_min tm_hour tm_mday tm_mon tm_year tm_wday tm_yday tm_isdst] in *.

(** ** Theory: counting days

    A month is numbered [12 * year + mon], with months from 0. *)

Definition days_of (year mon mday : Z) : Z :=
  (year - 1970) * 365 + (leap_years (if 2 <? mon then year + 1 else year) - leap_years 1970)
  + (nth (Z.to_nat (mon - 1)) month_day 0 + mday - 1).

Definition month_of (t : tm) : Z := 12 * (tm_year t + 1900) + tm_mon t.
Definition month_start (k : Z) : Z := days_of (k / 12) (k mod 12 + 1) 1.
Definition month_days (k : Z) : Z := zbx_day_in_month (k / 12) (k mod 12 + 1).

(** Days and seconds since the Epoch, also for fields out of range. *)
Definition daynum (t : tm) : Z := days_of (tm_year t + 1900) (tm_mon t + 1) (tm_mday t).
Definition secs (t : tm) : Z := daynum t * SEC_PER_DAY + tm_hour t * SEC_PER_HOUR + tm_min t * SEC_PER_MIN + tm_sec t.

Definition valid_month (t : tm) : Prop := 1 <= tm_year t + 1900 /\ 0 <= tm_mon t <= 11.
Definition valid_date (t : tm) : Prop := valid_month t /\ 1 <= tm_mday t <= tm_days t.
Definition valid_clock (t : tm) : Prop := 0 <= tm_hour t <= 23 /\ 0 <= tm_min t <= 59 /\ 0 <= tm_sec t <= 59.
Definition valid_time (t : tm) : Prop := valid_date t /\ valid_clock t.

Lemma utc_seconds_days year mon mday hour min sec :
  utc_seconds year mon mday hour min sec = days_of year mon mday * SEC_PER_DAY + hour * SEC_PER_HOUR + min * SEC_PER_MIN + sec.
Proof. unfold utc_seconds, days_of. ring. Qed.

Lemma leap_years_succ year : 1 <= year -> leap_years (year + 1) = leap_years year + (if zbx_is_leap_year year then 1 else 0).
Proof.
  intros Hy. unfold leap_years, zbx_is_leap_year. rewrite !Z.quot_div_nonneg, !Z.rem_mod_nonneg by lia.
  replace (year + 1 - 1) with year by lia.
  destruct (Z.eqb_spec (year mod 4) 0), (Z.eqb_spec (year mod 100) 0), (Z.eqb_spec (year mod 400) 0); cbn [andb orb negb]; dlia.
Qed.

Lemma month_cases (P : Z -> Prop) : P 0 -> P 1 -> P 2 -> P 3 -> P 4 -> P 5 -> P 6 -> P 7 -> P 8 -> P 9 -> P 10 -> P 11 ->
  forall m, 0 <= m <= 11 -> P m.
Proof.
  intros. assert (m = 0 \/ m = 1 \/ m = 2 \/ m = 3 \/ m = 4 \/ m = 5 \/ m = 6 \/ m = 7 \/ m = 8 \/ m = 9 \/ m = 10 \/ m = 11) as Hm by lia.
  repeat destruct Hm as [-> | Hm]; subst; done.
Qed.

Lemma month_of_div t : valid_month t -> month_of t / 12 = tm_year t + 1900 /\ month_of t mod 12 = tm_mon t.
Proof. unfold valid_month, month_of. dlia. Qed.

Lemma daynum_month t : valid_month t -> daynum t = month_start (month_of t) + tm_mday t - 1.
Proof. intros Hm. unfold daynum, month_start. destruct (month_of_div t Hm) as [-> ->]. unfold days_of. lia. Qed.

Lemma tm_days_month t : valid_month t -> tm_days t = month_days (month_of t).
Proof. intros Hm. unfold tm_days, month_days. by destruct (month_of_div t Hm) as [-> ->]. Qed.

(** Evaluates what a known month determines. *)
Ltac known t := let v := eval vm_compute in t in change t with v.
Ltac month_eval :=
  repeat match goal with
  | |- context [nth (Z.to_nat ?e) ?l 0] => progress known (nth (Z.to_nat e) l 0)
  | |- context [?a <? ?b] => progress known (a <? b)
  | |- context [?a <=? ?b] => progress known (a <=? b)
  | |- context [?a =? ?b] => progress known (a =? b)
  end; cbn [andb].

Lemma day_in_month_bounds year mon : 28 <= zbx_day_in_month year mon <= 31.
Proof.
  unfold zbx_day_in_month. destruct (_ && _) eqn:E; [|lia]. unbool. assert (Hm : 0 <= mon - 1 <= 11) by lia.
  replace mon with (mon - 1 + 1) by lia. revert Hm. generalize (mon - 1). apply month_cases; month_eval; try lia. destruct (zbx_is_leap_year _); lia.
Qed.

Lemma month_days_bounds k : 28 <= month_days k <= 31.
Proof. apply day_in_month_bounds. Qed.

Lemma month_start_succ k : 12 <= k -> month_start (k + 1) = month_start k + month_days k.
Proof.
  intros Hk. unfold month_start, month_days. pose proof (Z.mod_pos_bound k 12 ltac:(lia)).
  assert (Hm : 0 <= k mod 12 <= 11) by lia. assert (Hy : 1 <= k / 12) by dlia.
  assert (Hn : (k + 1) / 12 = k / 12 + (if k mod 12 =? 11 then 1 else 0) /\ (k + 1) mod 12 = if k mod 12 =? 11 then 0 else k mod 12 + 1)
    by (destruct (Z.eqb_spec (k mod 12) 11); dlia).
  destruct Hn as [-> ->]. revert Hm Hy. generalize (k mod 12) (k / 12). clear. intros m y Hm Hy.
  pose proof (leap_years_succ y Hy). revert m Hm. apply month_cases; unfold days_of, zbx_day_in_month; month_eval; rewrite ?Z.add_0_r; lia.
Qed.

Lemma month_start_mono j k : 12 <= j -> j < k -> month_start j + month_days j <= month_start k.
Proof.
  intros Hj Hk. rewrite <- month_start_succ by done. replace k with (j + 1 + Z.of_nat (Z.to_nat (k - j - 1))) by lia.
  generalize (Z.to_nat (k - j - 1)). intros n. induction n as [|n IH]; [by replace (j + 1 + Z.of_nat 0) with (j + 1) by lia|].
  replace (j + 1 + Z.of_nat (S n)) with (j + 1 + Z.of_nat n + 1) by lia. rewrite (month_start_succ (j + 1 + Z.of_nat n)) by lia.
  pose proof (month_days_bounds (j + 1 + Z.of_nat n)). lia.
Qed.

Lemma month_of_lower t : valid_month t -> 12 <= month_of t.
Proof. unfold valid_month, month_of. lia. Qed.

Lemma month_of_same a b : valid_month a -> valid_month b -> month_of a = month_of b -> tm_year a = tm_year b /\ tm_mon a = tm_mon b.
Proof. unfold valid_month, month_of. lia. Qed.

Lemma valid_date_days t : valid_date t -> month_start (month_of t) <= daynum t < month_start (month_of t) + month_days (month_of t).
Proof. intros [Hm Hd]. rewrite daynum_month by done. rewrite tm_days_month in Hd by done. lia. Qed.

(** A date of an earlier month comes before. *)
Lemma daynum_months a b : valid_date a -> valid_month b -> 1 <= tm_mday b -> month_of a < month_of b -> daynum a < daynum b.
Proof.
  intros Ha Hb Hd Hlt. pose proof (valid_date_days a Ha). rewrite (daynum_month b) by done.
  pose proof (month_start_mono (month_of a) (month_of b) (month_of_lower a (proj1 Ha)) Hlt). lia.
Qed.

Lemma daynum_month_le a b : valid_date a -> valid_date b -> daynum a <= daynum b -> month_of a <= month_of b.
Proof.
  intros Ha Hb Hle. destruct (Z.le_gt_cases (month_of a) (month_of b)); [done|].
  pose proof (daynum_months b a Hb (proj1 Ha) ltac:(destruct Ha; lia) ltac:(lia)). lia.
Qed.

Lemma daynum_inj a b : valid_date a -> valid_date b -> daynum a = daynum b ->
  tm_year a = tm_year b /\ tm_mon a = tm_mon b /\ tm_mday a = tm_mday b.
Proof.
  intros Ha Hb E. pose proof (daynum_month_le a b Ha Hb ltac:(lia)). pose proof (daynum_month_le b a Hb Ha ltac:(lia)).
  assert (Em : month_of a = month_of b) by lia. destruct (month_of_same a b (proj1 Ha) (proj1 Hb) Em) as [? ?].
  rewrite (daynum_month a (proj1 Ha)), (daynum_month b (proj1 Hb)), Em in E. repeat split; [done|done|lia].
Qed.

Lemma secs_inj a b : valid_time a -> valid_time b -> secs a = secs b ->
  (tm_year a = tm_year b /\ tm_mon a = tm_mon b /\ tm_mday a = tm_mday b) /\
  tm_hour a = tm_hour b /\ tm_min a = tm_min b /\ tm_sec a = tm_sec b.
Proof.
  intros [Ha Ka] [Hb Kb] E. unfold valid_clock, secs in *. assert (daynum a = daynum b) by lia.
  split; [by apply daynum_inj|]. lia.
Qed.

(** The dates of 1970 to 2037 are in the range of [int]. *)
Lemma daynum_range t : valid_date t -> 70 <= tm_year t <= 137 -> 0 <= daynum t < 24837.
Proof.
  intros Ht Hy. pose proof (valid_date_days t Ht) as Hd. destruct Ht as [[_ Hm] _].
  assert (H0 : month_start 23640 = 0) by done. assert (H1 : month_start 24456 = 24837) by done.
  assert (Hk : 23640 <= month_of t < 24456) by (unfold month_of; lia).
  pose proof (month_start_mono (month_of t) 24456 ltac:(lia) ltac:(lia)).
  destruct (Z.eq_dec (month_of t) 23640) as [E|]; [rewrite E in *; lia|].
  pose proof (month_start_mono 23640 (month_of t) ltac:(lia) ltac:(lia)). pose proof (month_days_bounds 23640). lia.
Qed.

Lemma utc_time_ok t : valid_time t -> 70 <= tm_year t <= 137 ->
  zbx_utc_time (tm_year t + 1900) (tm_mon t + 1) (tm_mday t) (tm_hour t) (tm_min t) (tm_sec t) = Some (secs t).
Proof.
  intros [Hd Hc] Hy. pose proof (daynum_range t Hd Hy). unfold zbx_utc_time. destruct Hd as [[_ Hm] Hd]. fold (tm_days t).
  unfold valid_clock in Hc. rewrite !(proj2 (Z.leb_le _ _)) by lia. cbn [andb]. rewrite utc_seconds_days. fold (daynum t) (secs t).
  assert (Hs : 0 <= secs t < 2 ^ 31) by (unfold secs; lia). rewrite i32_small by lia. by rewrite (proj2 (Z.leb_le 0 _)) by lia.
Qed.

Lemma utc_time_date t : 70 <= tm_year t -> valid_month t -> tm_days t < tm_mday t ->
  zbx_utc_time (tm_year t + 1900) (tm_mon t + 1) (tm_mday t) (tm_hour t) (tm_min t) (tm_sec t) = None.
Proof.
  intros Hy Hm Hd. unfold zbx_utc_time. fold (tm_days t). rewrite (proj2 (Z.leb_gt (tm_mday t) (tm_days t))) by lia.
  by rewrite !andb_false_r.
Qed.

(** ** Theory: shifting dates *)

(** The fields of the clock and the flag that daylight saving is in effect. *)
Definition same_clock (a b : tm) : Prop :=
  tm_hour a = tm_hour b /\ tm_min a = tm_min b /\ tm_sec a = tm_sec b /\ tm_isdst a = tm_isdst b.

(** Days of the week from 0, Sunday; the Epoch was a Thursday. *)
Definition wday_of (day : Z) : Z := (day + 4) mod 7.

Lemma wrap_mod v base : 0 < base -> v < 0 -> neg_to_pos_wrap v base = v mod base.
Proof.
  intros Hb Hv. unfold neg_to_pos_wrap. assert (Hr : - base < Z.rem v base <= 0) by (Z.to_euclidean_division_equations; lia).
  pose proof (Z.quot_rem' v base) as Hq. destruct (Z.eqb_spec (Z.rem v base) 0) as [E|E].
  - apply (Z.mod_unique v base (Z.quot v base)); lia.
  - apply (Z.mod_unique v base (Z.quot v base - 1)); lia.
Qed.

Lemma add_month_ok t n : valid_month t -> 0 <= n ->
  let t' := tm_add_month t n in
  valid_month t' /\ month_of t' = month_of t + n /\ tm_mday t' = tm_mday t /\ tm_wday t' = tm_wday t /\ same_clock t' t.
Proof.
  unfold valid_month, month_of, same_clock, tm_add_month. intros Hm Hn. cbn [set_mon tm_mon].
  destruct (Z.leb_spec 12 (tm_mon t + n)); cbn [tm_add_year set_year set_mon tm_year tm_mon tm_mday tm_wday tm_hour tm_min tm_sec tm_isdst]; [|lia].
  rewrite Z.rem_mod_nonneg, Z.quot_div_nonneg by lia. repeat split; dlia.
Qed.

Lemma sub_month_ok t n : valid_month t -> 0 <= n <= month_of t - 12 ->
  let t' := tm_sub_month t n in
  valid_month t' /\ month_of t' = month_of t - n /\ tm_mday t' = tm_mday t /\ tm_wday t' = tm_wday t /\ same_clock t' t.
Proof.
  unfold valid_month, month_of, same_clock, tm_sub_month. intros Hm Hn. cbn [set_mon tm_mon].
  destruct (Z.ltb_spec (tm_mon t - n) 0) as [Hneg|]; cbn [tm_sub_year set_year set_mon tm_year tm_mon tm_mday tm_wday tm_hour tm_min tm_sec tm_isdst]; [|lia].
  rewrite wrap_mod by lia. rewrite Z.quot_div_nonneg by lia. destruct (Z.eqb_spec ((tm_mon t - n) mod 12) 0); repeat split; dlia.
Qed.

Lemma daynum_set_mday t v : daynum (set_mday t v) = daynum t + v - tm_mday t.
Proof. unfold daynum, days_of. cbn [set_mday tm_year tm_mon tm_mday]. lia. Qed.

Lemma add_days_ok fuel t : valid_month t -> 1 <= tm_mday t -> (Z.to_nat (tm_mday t) < fuel)%nat ->
  exists t', add_days_loop fuel t = Ret t' /\ valid_date t' /\ daynum t' = daynum t /\ tm_wday t' = tm_wday t /\ same_clock t' t.
Proof.
  revert t. induction fuel as [|fuel IH]; intros t Hm Hd Hf; [lia|]. cbn [add_days_loop].
  pose proof (tm_days_month t Hm) as Hdays. pose proof (month_days_bounds (month_of t)).
  destruct (Z.ltb_spec (tm_days t) (tm_mday t)) as [Hlt|Hge].
  - set (u := set_mday t (tm_mday t - tm_days t)). assert (Hu : valid_month u) by done.
    destruct (add_month_ok u 1 Hu ltac:(lia)) as (Hm' & Hk & Hmd & Hw & Hc).
    assert (Emd : tm_mday (tm_add_month u 1) = tm_mday t - tm_days t) by (rewrite Hmd; done).
    destruct (IH (tm_add_month u 1) Hm' ltac:(lia) ltac:(lia)) as (t' & E & Hv & Hn & Hw' & Hc'). exists t'.
    split; [done|]. split; [done|]. rewrite Hn, Hw', Hw, (daynum_month _ Hm'), Hk, Emd, (daynum_month t Hm).
    change (month_of u) with (month_of t). rewrite month_start_succ by (by apply month_of_lower).
    split; [lia|]. split; [done|]. unfold same_clock in *. cbn [u set_mday tm_hour tm_min tm_sec tm_isdst] in Hc. intuition congruence.
  - exists t. unfold valid_date, same_clock. auto with lia.
Qed.

Lemma sub_days_ok fuel t : valid_month t -> tm_mday t <= tm_days t -> month_start 12 <= daynum t -> (Z.to_nat (1 - tm_mday t) < fuel)%nat ->
  exists t', sub_days_loop fuel t = Ret t' /\ valid_date t' /\ daynum t' = daynum t /\ tm_wday t' = tm_wday t /\ same_clock t' t.
Proof.
  revert t. induction fuel as [|fuel IH]; intros t Hm Hd Hlow Hf; [lia|]. cbn [sub_days_loop].
  pose proof (tm_days_month t Hm) as Hdays.
  destruct (Z.leb_spec (tm_mday t) 0) as [Hle|Hgt].
  - set (d := zbx_day_in_month _ _).
    assert (Hk0 : 12 < month_of t).
    { pose proof (month_of_lower t Hm). destruct (Z.eq_dec (month_of t) 12) as [E|]; [|lia].
      rewrite (daynum_month t Hm), E in Hlow. lia. }
    assert (Ed : d = month_days (month_of t - 1)).
    { unfold d, month_days, valid_month, month_of in *. destruct (Z.ltb_spec (tm_mon t - 1) 0).
      - replace ((12 * (tm_year t + 1900) + tm_mon t - 1) mod 12) with 11 by dlia. done.
      - replace ((12 * (tm_year t + 1900) + tm_mon t - 1) mod 12) with (tm_mon t - 1) by dlia.
        by replace ((12 * (tm_year t + 1900) + tm_mon t - 1) / 12) with (tm_year t + 1900) by dlia. }
    set (u := set_mday t (tm_mday t + d)). assert (Hu : valid_month u) by done.
    destruct (sub_month_ok u 1 Hu ltac:(change (month_of u) with (month_of t); lia)) as (Hm' & Hk & Hmd & Hw & Hc).
    assert (Emd : tm_mday (tm_sub_month u 1) = tm_mday t + d) by (rewrite Hmd; done).
    change (month_of u) with (month_of t) in Hk. pose proof (month_days_bounds (month_of t - 1)).
    assert (En : daynum (tm_sub_month u 1) = daynum t).
    { rewrite (daynum_month _ Hm'), Hk, Emd, (daynum_month t Hm), Ed. pose proof (month_start_succ (month_of t - 1) ltac:(lia)) as Hs.
      replace (month_of t - 1 + 1) with (month_of t) in Hs by lia. lia. }
    destruct (IH (tm_sub_month u 1) Hm') as (t' & E & Hv & Hn & Hw' & Hc'); [|rewrite En; lia|lia|].
    { rewrite (tm_days_month _ Hm'), Hk, Emd, Ed. lia. }
    exists t'. split; [done|]. split; [done|]. rewrite Hn, En, Hw', Hw. split; [done|]. split; [done|].
    unfold same_clock in *. cbn [u set_mday tm_hour tm_min tm_sec tm_isdst] in Hc. intuition congruence.
  - exists t. unfold valid_date, same_clock. auto with lia.
Qed.

Lemma add_day_ok t n : valid_date t -> tm_wday t = wday_of (daynum t) -> 0 <= n ->
  exists t', tm_add_day t n = Ret t' /\ valid_date t' /\ daynum t' = daynum t + n /\ tm_wday t' = wday_of (daynum t') /\ same_clock t' t.
Proof.
  intros Hv Hw Hn. unfold tm_add_day. set (u := set_mday t (tm_mday t + n)). destruct Hv as [Hm Hd].
  destruct (add_days_ok (S (Z.to_nat (tm_mday u))) u) as (t' & -> & Hv' & Hn' & Hw' & Hc'); [done|cbn; lia|lia|].
  eexists. split; [reflexivity|]. split; [done|]. change (daynum (set_wday ?a ?b)) with (daynum a).
  unfold u in Hn'. rewrite daynum_set_mday in Hn'. split; [lia|]. split; [|done]. cbn [set_wday tm_wday].
  rewrite Hw', Hn'. change (tm_wday u) with (tm_wday t). rewrite Hw. unfold wday_of.
  rewrite Z.rem_mod_nonneg by (pose proof (Z.mod_pos_bound (daynum t + 4) 7); lia). dlia.
Qed.

Lemma sub_day_ok t n : valid_date t -> tm_wday t = wday_of (daynum t) -> 0 <= n -> month_start 12 <= daynum t - n ->
  exists t', tm_sub_day t n = Ret t' /\ valid_date t' /\ daynum t' = daynum t - n /\ tm_wday t' = wday_of (daynum t') /\ same_clock t' t.
Proof.
  intros Hv Hw Hn Hlow. unfold tm_sub_day. set (u := set_mday t (tm_mday t - n)). destruct Hv as [Hm Hd].
  destruct (sub_days_ok (S (Z.to_nat (1 - tm_mday u))) u) as (t' & -> & Hv' & Hn' & Hw' & Hc'); [done|cbn; change (tm_days u) with (tm_days t); lia| |lia|].
  { unfold u. rewrite daynum_set_mday. lia. }
  eexists. split; [reflexivity|]. split; [done|]. change (daynum (set_wday ?a ?b)) with (daynum a).
  unfold u in Hn'. rewrite daynum_set_mday in Hn'. split; [lia|]. split; [|done]. cbn [set_wday tm_wday].
  rewrite Hw', Hn'. change (tm_wday u) with (tm_wday t). rewrite Hw. unfold wday_of.
  destruct (Z.ltb_spec ((daynum t + 4) mod 7 - n) 0); [rewrite wrap_mod by lia|]; dlia.
Qed.
