(* ===== verification/Macro.v ===== *)
(** * User macros (src/libs/zbxexpr/macro.c)

    [{$NAME}] and [{$NAME:context}]: the parser that finds the end of a macro
    and its context, the extraction of name and context, and the quoting of a
    context for output.  Texts are lists of bytes, a pointer into a text the
    list from there on; [i] is the index of the pointer. *)
From stdpp Require Import prelude list.
From Stdlib Require Import ZArith Lia.
From S2P Require Import Prelude JsonText.
#[local] Open Scope Z_scope.

Definition isupper (c : Z) : bool := (65 <=? c) && (c <=? 90).

Definition zbx_is_macro_char (c : Z) : bool := isupper c || (c =? 46) || (c =? 95) || isdigit c.

(** The loop of [zbx_is_discovery_macro], from the second character on. *)
Fixpoint discovery_name (name : list Z) : bool :=
  match name with
  | c :: rest => if c =? RBR then bool_decide (rest = []) else zbx_is_macro_char c && discovery_name rest
  | [] => false
  end.

Definition zbx_is_discovery_macro (name : list Z) : bool :=
  match name with
  | c0 :: c1 :: c2 :: rest => (c0 =? LBR) && (c1 =? 35) && zbx_is_macro_char c2 && discovery_name rest
  | _ => false
  end.

Inductive context_op_t := ZBX_CONDITION_OPERATOR_EQUAL | ZBX_CONDITION_OPERATOR_REGEXP.

#[export] Instance context_op_eq_dec : EqDecision context_op_t.
Proof. solve_decision. Defined.

(** The text "regex:". *)
Definition regex_prefix : list Z := [114; 101; 103; 101; 120; 58].

(** [while (p(macro[i])) i++;] *)
Fixpoint skip_chars (p : Z -> bool) (s : list Z) (i : Z) : list Z * Z :=
  match s with
  | c :: rest => if p c then skip_chars p rest (i + 1) else (s, i)
  | [] => (s, i)
  end.

(** The loop over a quoted context, up to the closing quote. *)
Fixpoint skip_quoted (s : list Z) (i : Z) : option (list Z * Z) :=
  match s with
  | [] => None
  | c :: rest =>
      if c =? QUOT then Some (s, i)
      else match rest with
           | q :: rest' => if (c =? BSL) && (q =? QUOT) then skip_quoted rest' (i + 2) else skip_quoted rest (i + 1)
           | [] => skip_quoted rest (i + 1)
           end
  end.

(** The loop over a context without quotes, up to the closing brace. *)
Fixpoint skip_unquoted (s : list Z) (i : Z) : option (list Z * Z) :=
  match s with
  | [] => None
  | c :: rest => if c =? RBR then Some (s, i) else skip_unquoted rest (i + 1)
  end.

Record macro_loc := MacroLoc { macro_r : Z; context_l : Z; context_r : Z; context_op : context_op_t }.

(** [want_op]: the caller passes a pointer for [context_op]. *)
Definition zbx_user_macro_parse (macro : list Z) (want_op : bool) : option macro_loc :=
  let '(s, i) := skip_chars zbx_is_macro_char (drop 2 macro) 2 in
  if i =? 2 then None
  else if deref s =? RBR then Some (MacroLoc i 0 0 ZBX_CONDITION_OPERATOR_EQUAL)
  else if negb (deref s =? COLON) then None
  else
    let '(s, i) := (tail s, i + 1) in
    let '(s, i, op) :=
      if want_op && bool_decide (take 6 s = regex_prefix) then (drop 6 s, i + 6, ZBX_CONDITION_OPERATOR_REGEXP)
      else (s, i, ZBX_CONDITION_OPERATOR_EQUAL) in
    let '(s, i) := skip_chars (Z.eqb 32) s i in
    let context_l := i in
    '(s, i, context_r) ← (
      if deref s =? QUOT then
        '(s, i) ← skip_quoted (tail s) (i + 1);
        let context_r := i in
        let '(s, i) := skip_chars (Z.eqb 32) (tail s) (i + 1) in
        Some (s, i, context_r)
      else '(s, i) ← skip_unquoted s i; Some (s, i, i - 1));
    if negb (deref s =? RBR) then None
    else Some (MacroLoc i context_l context_r op).

(** The loop of [zbx_user_macro_unquote_context_dyn] over [len] characters. *)
Fixpoint unquote_loop (quoted : bool) (context : list Z) (len : Z) : list Z :=
  match context with
  | [] => []
  | c :: rest =>
      if len <=? 0 then []
      else match rest with
           | q :: rest' =>
               if quoted && (c =? BSL) && (q =? QUOT) then q :: unquote_loop quoted rest' (len - 2)
               else c :: unquote_loop quoted rest (len - 1)
           | [] => [c]
           end
  end.

Definition zbx_user_macro_unquote_context_dyn (context : list Z) (len : Z) : list Z :=
  if deref context =? QUOT then
    let buffer := unquote_loop true (tail context) (len - 1) in
    take (length buffer - 1) buffer
  else unquote_loop false context len.

(** [while (' ' == *(--ptr))]: the index of the separator before [i]. *)
Fixpoint back_spaces (fuel : nat) (macro : list Z) (i : Z) : Z :=
  match fuel with
  | O => i
  | S fuel =>
      let i := i - 1 in
      match zget macro i with
      | Some c => if c =? 32 then back_spaces fuel macro i else i
      | None => i
      end
  end.

(** The name, the context (if any), the length and the operator. *)
Definition zbx_user_macro_parse_dyn (macro : list Z) (want_op : bool) : option (list Z * option (list Z) * Z * context_op_t) :=
  loc ← zbx_user_macro_parse macro want_op;
  let '(name, context) :=
    if negb (context_l loc =? 0) then
      let ptr := back_spaces (length macro) macro (context_l loc) in
      let ptr := if want_op && bool_decide (context_op loc = ZBX_CONDITION_OPERATOR_REGEXP) then ptr - zlen regex_prefix else ptr in
      (take (Z.to_nat ptr) macro ++ [RBR],
       Some (zbx_user_macro_unquote_context_dyn (drop (Z.to_nat (context_l loc)) macro) (context_r loc - context_l loc + 1)))
    else (take (Z.to_nat (macro_r loc + 1)) macro, None) in
  Some (name, context, macro_r loc + 1, context_op loc).

(** The loop that writes the quoted context. *)
Fixpoint quote_loop (context : list Z) : list Z :=
  match context with
  | [] => []
  | c :: rest => (if c =? QUOT then [BSL] else []) ++ c :: quote_loop rest
  end.

(** [None]: the quoted context would end with a backslash. *)
Definition zbx_user_macro_quote_context_dyn (context : list Z) (force_quote : bool) : option (list Z) :=
  let force_quote := force_quote || (deref context =? QUOT) || (deref context =? 32) || existsb (Z.eqb RBR) context in
  if negb force_quote then Some context
  else
    let buffer := QUOT :: quote_loop context in
    if default 0 (last buffer) =? BSL then None
    else Some (buffer ++ [QUOT]).

(** ** Theory *)

(** A text that can be a macro name. *)
Definition macro_name (name : list Z) : Prop := name <> [] /\ Forall (fun c => zbx_is_macro_char c = true) name.

Definition macro_text (name : list Z) (context : option (list Z)) : list Z :=
  LBR :: 36 :: name ++ (match context with Some q => COLON :: q | None => [] end) ++ [RBR].

Lemma skip_chars_all p a s i : Forall (fun c => p c = true) a -> (s = [] \/ p (deref s) = false) -> skip_chars p (a ++ s) i = (s, i + zlen a).
Proof.
  intros Ha Hs. revert i. induction Ha as [|c a Hc Ha IH]; intros i; cbn [skip_chars app].
  - rewrite zlen_nil, Z.add_0_r. destruct s as [|c s]; [done|]. destruct Hs as [?|Hs]; [done|]. cbn in Hs |- *. by rewrite Hs.
  - rewrite Hc, IH, zlen_cons. f_equal. lia.
Qed.

(** A quoted context never starts with a quote of its own. *)
Lemma quote_loop_head context s : context <> [] -> deref (quote_loop context ++ s) <> QUOT.
Proof. destruct context as [|c context]; [done|]. intros _. cbn. destruct (Z.eqb_spec c QUOT); cbn; lia. Qed.

Lemma skip_quoted_step c s i : c <> QUOT -> ~ (c = BSL /\ deref s = QUOT) -> s <> [] -> skip_quoted (c :: s) i = skip_quoted s (i + 1).
Proof.
  intros Hc Hq Hs. destruct s as [|q s]; [done|]. cbn [skip_quoted]. rewrite (proj2 (Z.eqb_neq c QUOT)) by done. cbn [deref] in Hq.
  destruct (Z.eqb_spec c BSL), (Z.eqb_spec q QUOT); cbn [andb]; try done. naive_solver.
Qed.

(** The scan of a quoted context stops at the closing quote. *)
Lemma skip_quoted_ok context s i : last context <> Some BSL ->
  skip_quoted (quote_loop context ++ QUOT :: s) i = Some (QUOT :: s, i + zlen (quote_loop context)).
Proof.
  revert i. induction context as [|c context IH]; intros i Hl.
  - cbn. by rewrite Z.add_0_r.
  - assert (Hl' : last context <> Some BSL) by (destruct context; [done|exact Hl]).
    cbn [quote_loop]. destruct (Z.eqb_spec c QUOT) as [->|Hc].
    + cbn [app]. change (skip_quoted (BSL :: QUOT :: ?t) i) with (skip_quoted t (i + 2)). rewrite IH by done. rewrite !zlen_cons. do 2 f_equal. lia.
    + cbn [app]. rewrite skip_quoted_step; [|done| |by destruct (quote_loop context)].
      * rewrite IH by done. rewrite zlen_cons. do 2 f_equal. lia.
      * intros [-> Hq]. destruct (decide (context = [])) as [->|Hn]; [done|]. by apply (quote_loop_head context (QUOT :: s) Hn).
Qed.

Lemma unquote_step c s len : c <> BSL \/ deref s <> QUOT -> s <> [] -> 0 < len -> unquote_loop true (c :: s) len = c :: unquote_loop true s (len - 1).
Proof.
  intros Hc Hs Hlen. destruct s as [|q s]; [done|]. cbn [unquote_loop]. rewrite (proj2 (Z.leb_gt len 0)) by lia. cbn [deref] in Hc.
  destruct (Z.eqb_spec c BSL), (Z.eqb_spec q QUOT); cbn [andb]; try done. naive_solver.
Qed.

Lemma unquote_quoted context s n : last context <> Some BSL -> n = zlen (quote_loop context) + 1 ->
  unquote_loop true (quote_loop context ++ QUOT :: s) n = context ++ [QUOT].
Proof.
  revert n. induction context as [|c context IH]; intros n Hl ->.
  - cbn. by destruct s.
  - assert (Hl' : last context <> Some BSL) by (destruct context; [done|exact Hl]).
    cbn [quote_loop]. pose proof (zlen_nonneg (quote_loop context)). destruct (Z.eqb_spec c QUOT) as [->|Hc].
    + cbn [app]. set (t := quote_loop context ++ QUOT :: s) in *. rewrite !zlen_cons.
      change (unquote_loop true (BSL :: QUOT :: t) ?k) with (if k <=? 0 then [] else QUOT :: unquote_loop true t (k - 2)).
      rewrite (proj2 (Z.leb_gt _ 0)) by lia. f_equal. apply IH; [done|lia].
    + cbn [app]. rewrite zlen_cons. rewrite unquote_step; [|..|lia].
      * f_equal. apply IH; [done|lia].
      * destruct (decide (context = [])) as [->|Hn]; [left; by intros ->|right; by apply quote_loop_head].
      * by destruct (quote_loop context).
Qed.

Lemma unquote_plain context s n : n = zlen context -> unquote_loop false (context ++ s) n = context.
Proof.
  revert n. induction context as [|c context IH]; intros n ->.
  - cbn. by destruct s.
  - cbn [app unquote_loop]. rewrite zlen_cons, (proj2 (Z.leb_gt _ 0)) by (pose proof (zlen_nonneg context); lia). cbn [andb].
    destruct (context ++ s) as [|q t] eqn:E.
    + apply app_eq_nil in E as [-> ->]. done.
    + f_equal. apply IH. lia.
Qed.

Lemma skip_unquoted_ok context s i : Forall (fun c => c <> RBR) context -> skip_unquoted (context ++ RBR :: s) i = Some (RBR :: s, i + zlen context).
Proof.
  intros H. revert i. induction H as [|c context Hc H IH]; intros i; cbn [app skip_unquoted]; [by rewrite zlen_nil, Z.add_0_r|].
  rewrite (proj2 (Z.eqb_neq _ _)) by done. rewrite IH, zlen_cons. do 2 f_equal. lia.
Qed.

Lemma existsb_not c l : existsb (Z.eqb c) l = false -> Forall (fun x => x <> c) l.
Proof. induction l as [|x l IH]; cbn; [by constructor|]. intros H. apply orb_false_iff in H as [Hx Hl]. unbool. constructor; [done|auto]. Qed.

Lemma quote_loop_nil context : context <> [] -> quote_loop context <> [].
Proof. destruct context as [|c context]; [done|]. cbn. by destruct (c =? QUOT). Qed.

Lemma last_quote_loop context : last (quote_loop context) = last context.
Proof.
  induction context as [|c context IH]; [done|]. destruct (decide (context = [])) as [->|Hn].
  - cbn. destruct (Z.eqb_spec c QUOT); by subst.
  - pose proof (quote_loop_nil context Hn). cbn [quote_loop].
    assert (Hl : forall x (l : list Z), l <> [] -> last (x :: l) = last l) by (intros x [|? ?]; done).
    rewrite Hl by done. rewrite <- IH. destruct (c =? QUOT); cbn [app]; rewrite ?Hl by done; done.
Qed.

Lemma macro_char_not c : zbx_is_macro_char c = true -> c <> COLON /\ c <> RBR.
Proof. unfold zbx_is_macro_char, isupper, isdigit. rewrite !orb_true_iff, !andb_true_iff, !Z.leb_le, !Z.eqb_eq. lia. Qed.

(** What is found at the start of the context. *)
Lemma macro_head name c s : macro_name name -> c = COLON \/ c = RBR ->
  skip_chars zbx_is_macro_char (drop 2 (LBR :: 36 :: name ++ c :: s)) 2 = (c :: s, 2 + zlen name) /\ (2 + zlen name =? 2) = false.
Proof.
  intros [Hn Hc] Hs. split; [|apply Z.eqb_neq; pose proof (zlen_pos name Hn); lia].
  change (drop 2 (LBR :: 36 :: name ++ c :: s)) with (name ++ c :: s). apply skip_chars_all; [done|right].
  cbn [deref]. destruct (zbx_is_macro_char c) eqn:E; [|done]. apply macro_char_not in E. lia.
Qed.

(** The parts of a context as it is written: in quotes or bare. *)
Lemma quote_cases context force q : zbx_user_macro_quote_context_dyn context force = Some q ->
  (q = QUOT :: quote_loop context ++ [QUOT] /\ last context <> Some BSL) \/
  (q = context /\ deref q <> QUOT /\ deref q <> 32 /\ Forall (fun c => c <> RBR) context).
Proof.
  unfold zbx_user_macro_quote_context_dyn. destruct (force || _ || _ || _) eqn:Ef; cbn [negb].
  - destruct (default 0 _ =? BSL) eqn:El; [done|]. intros [= <-]. left. split; [done|]. intros Hl. unbool. apply El. clear -Hl.
    destruct context as [|c context]; [done|]. pose proof (quote_loop_nil (c :: context) ltac:(done)).
    rewrite last_cons, last_quote_loop, Hl. done.
  - intros [= <-]. right. apply orb_false_iff in Ef as [Ef Ee]. apply orb_false_iff in Ef as [Ef E32]. apply orb_false_iff in Ef as [_ Eq].
    unbool. split; [done|]. split; [done|]. split; [done|]. by apply existsb_not.
Qed.

(** What the parser and the extraction find in a macro with a context. *)
Lemma macro_context_ok name context force q want rest :
  macro_name name -> zbx_user_macro_quote_context_dyn context force = Some q -> (want = true -> take 6 q <> regex_prefix) ->
  let macro := macro_text name (Some q) ++ rest in
  let l := 3 + zlen name in
  exists r, zbx_user_macro_parse macro want = Some (MacroLoc (l + zlen q) l r ZBX_CONDITION_OPERATOR_EQUAL) /\
    zbx_user_macro_unquote_context_dyn (q ++ RBR :: rest) (r - l + 1) = context.
Proof.
  intros Hn Hq Hr macro l. assert (Em : macro = LBR :: 36 :: name ++ COLON :: q ++ RBR :: rest).
  { unfold macro, macro_text. rewrite <- !app_comm_cons, <- !app_assoc. cbn [app]. by rewrite <- app_assoc. }
  unfold zbx_user_macro_parse. rewrite Em. destruct (macro_head name COLON (q ++ RBR :: rest) Hn ltac:(by left)) as [-> ->].
  change (deref (COLON :: ?s)) with COLON. cbn [Z.eqb Pos.eqb negb tail].
  assert (Hre : want && bool_decide (take 6 (q ++ RBR :: rest) = regex_prefix) = false).
  { destruct want; [|done]. cbn [andb]. apply bool_decide_eq_false. intros E. apply (Hr eq_refl).
    destruct (decide (6 <= length q)%nat) as [H6|H6]; [by rewrite take_app_le in E by done|].
    assert (Hx : regex_prefix !! length q = Some RBR).
    { rewrite <- E, lookup_take_lt by lia. by apply list_lookup_middle. }
    exfalso. revert Hx. generalize (length q). intros n. do 6 (destruct n as [|n]; [done|]). done. }
  rewrite Hre. replace (2 + zlen name + 1) with l by (unfold l; lia).
  destruct (quote_cases context force q Hq) as [[-> Hl]|(-> & Hq1 & Hq2 & Hb)].
  - rewrite <- app_comm_cons. change (skip_chars (Z.eqb 32) (QUOT :: ?s) l) with (QUOT :: s, l). cbn [deref tail].
    rewrite <- app_assoc. cbn [app]. change (QUOT =? QUOT) with true. cbn [negb]. rewrite skip_quoted_ok by done. cbn [mbind option_bind tail].
    change (skip_chars (Z.eqb 32) (RBR :: rest) ?i) with (RBR :: rest, i). cbn [mbind option_bind deref].
    change (negb (RBR =? RBR)) with false. cbn match. eexists. split; [do 2 f_equal; lens|]. unfold zbx_user_macro_unquote_context_dyn. rewrite <- ?app_comm_cons. cbn [deref tail].
    rewrite Z.eqb_refl, unquote_quoted; [|done|lia]. rewrite length_app, Nat.add_sub. apply take_app_length.
  - assert (Hd : deref (context ++ RBR :: rest) <> QUOT /\ deref (context ++ RBR :: rest) <> 32) by (destruct context; done || (cbn in *; lia)).
    assert (Hs : skip_chars (Z.eqb 32) (context ++ RBR :: rest) l = (context ++ RBR :: rest, l)).
    { rewrite <- (app_nil_l (context ++ _)) at 1. rewrite skip_chars_all; [by rewrite zlen_nil, Z.add_0_r|done|right]. apply Z.eqb_neq. lia. }
    rewrite Hs, (proj2 (Z.eqb_neq _ QUOT)) by apply Hd. rewrite skip_unquoted_ok by done. cbn [mbind option_bind deref].
    change (negb (RBR =? RBR)) with false. cbn match. eexists. split; [reflexivity|].
    unfold zbx_user_macro_unquote_context_dyn. rewrite (proj2 (Z.eqb_neq _ QUOT)) by apply Hd. apply unquote_plain. lia.
Qed.

Lemma back_spaces_colon macro i fuel : zget macro (i - 1) = Some COLON -> back_spaces (S fuel) macro i = i - 1.
Proof. intros E. cbn [back_spaces]. by rewrite E. Qed.

(** ** Property *)

(** A context survives quoting and parsing: for every macro name, every
    context that can be written and whatever text follows, the macro built
    from the name and the quoted context is parsed to the very same name and
    context, and its length is the length of what was built.  The context
    must not read as the prefix of a regular expression when the caller asks
    for the operator.  A macro without context gives its text back. *)
Theorem user_macro_roundtrip name context force q want rest :
  macro_name name -> zbx_user_macro_quote_context_dyn context force = Some q -> (want = true -> take 6 q <> regex_prefix) ->
  let with_context := macro_text name (Some q) in
  zbx_user_macro_parse_dyn (with_context ++ rest) want =
    Some (macro_text name None, Some context, zlen with_context, ZBX_CONDITION_OPERATOR_EQUAL) /\
  zbx_user_macro_parse_dyn (macro_text name None ++ rest) want =
    Some (macro_text name None, None, zlen (macro_text name None), ZBX_CONDITION_OPERATOR_EQUAL).
Proof.
  intros Hn Hq Hr m. pose proof (zlen_nonneg name). pose proof (zlen_nonneg q). split; unfold zbx_user_macro_parse_dyn.
  - destruct (macro_context_ok name context force q want rest Hn Hq Hr) as (r & Ep & Eu). fold m in Ep. rewrite Ep. cbn [mbind option_bind context_l].
    rewrite (proj2 (Z.eqb_neq _ 0)) by lia. cbn [negb context_r macro_r context_op].
    assert (Em : m ++ rest = (LBR :: 36 :: name) ++ COLON :: q ++ RBR :: rest).
    { unfold m, macro_text. rewrite <- !app_comm_cons, <- !app_assoc. cbn [app]. by rewrite <- app_assoc. }
    rewrite Em. cbn [length app]. rewrite back_spaces_colon.
    2: { apply zget_Some. split; [lia|]. change (LBR :: 36 :: name ++ ?t) with ((LBR :: 36 :: name) ++ t).
         apply list_lookup_middle. cbn [length]. unfold zlen. lia. }
    change (bool_decide (ZBX_CONDITION_OPERATOR_EQUAL = ZBX_CONDITION_OPERATOR_REGEXP)) with false. rewrite andb_false_r.
    change (LBR :: 36 :: name ++ ?t) with ((LBR :: 36 :: name) ++ t). set (h := LBR :: 36 :: name).
    assert (Hh : zlen h = 2 + zlen name) by (unfold h; lens). replace (Z.to_nat (3 + zlen name - 1)) with (length h) by (unfold zlen in *; lia).
    rewrite take_app_length. replace (Z.to_nat (3 + zlen name)) with (S (length h)) by (unfold zlen in *; lia).
    rewrite drop_app_ge by lia. replace (S (length h) - length h)%nat with 1%nat by lia. cbn [drop]. rewrite drop_0.
    rewrite Eu. unfold m, macro_text. do 3 f_equal. lens.
  - unfold zbx_user_macro_parse, macro_text. rewrite <- !app_comm_cons. cbn [app]. rewrite <- app_assoc. cbn [app].
    destruct (macro_head name RBR rest Hn ltac:(by right)) as [-> ->]. cbn [deref]. change (RBR =? RBR) with true. cbn [mbind option_bind context_l].
    change (negb (0 =? 0)) with false. cbn [macro_r context_op]. do 3 f_equal; [|lens].
    change (LBR :: 36 :: name ++ RBR :: rest) with ((LBR :: 36 :: name) ++ [RBR] ++ rest). rewrite app_assoc, take_app_length'; [done|].
    rewrite length_app. cbn [length]. unfold zlen. lia.
Qed.

(** A context with a brace and a quote. *)
Lemma user_macro_roundtrip_witness :
  zbx_user_macro_quote_context_dyn [98; RBR; QUOT] false = Some [QUOT; 98; RBR; BSL; QUOT; QUOT] /\
  zbx_user_macro_parse_dyn (macro_text [65] (Some [QUOT; 98; RBR; BSL; QUOT; QUOT]) ++ [59]) true =
    Some (macro_text [65] None, Some [98; RBR; QUOT], 11, ZBX_CONDITION_OPERATOR_EQUAL).
Proof.
  split; [reflexivity|].
  refine (proj1 (user_macro_roundtrip [65] [98; RBR; QUOT] false [QUOT; 98; RBR; BSL; QUOT; QUOT] true [59] _ _ _)).
  - split; [discriminate|repeat constructor].
  - reflexivity.
  - intros _. discriminate.
Defined.

(** A context that starts with the prefix of regular expressions is written
    without quotes, and is then read as a regular expression. *)
Example regex_context_changes :
  zbx_user_macro_quote_context_dyn (regex_prefix ++ [97]) false = Some (regex_prefix ++ [97]) /\
  zbx_user_macro_parse_dyn (macro_text [65] (Some (regex_prefix ++ [97]))) true =
    Some (macro_text [65] None, Some [97], 12, ZBX_CONDITION_OPERATOR_REGEXP).
Proof. done. Qed.
