(* ===== verification/Interval.v ===== *)
(** * Update intervals as texts (src/libs/zbxexpr/interval.c)

    The text of an update interval is a delay, then any number of flexible
    intervals [delay/period] and scheduling intervals [md..wd..h..m..s..],
    separated by semicolons.  The file has the parsers, [time_period_parse] to
    [zbx_interval_preproc], and the validation [zbx_validate_interval], which
    also accepts user macros (src/libs/zbxexpr/macro.c).

    Texts are lists of bytes as in the JSON files; [len] is the number of
    characters that belong to the part being parsed, after which the text
    goes on with a semicolon or ends.  A character is read only where the one
    before it is not the terminating NUL. *)
From stdpp Require Import prelude list.
From Stdlib Require Import ZArith Lia.
From S2P Require Import Prelude JsonText Num Calendar Macro.
#[local] Open Scope Z_scope.

Record zbx_time_period_t := Period { start_day : Z; end_day : Z; start_time : Z; end_time : Z }.

Record zbx_scheduler_filter_t := Filter { f_start : Z; f_end : Z; f_step : Z }.

(** A chain of filters is the list of its elements, [NULL] the empty list. *)
Record zbx_scheduler_interval_t := SchedInterval {
  mdays : list zbx_scheduler_filter_t; wdays : list zbx_scheduler_filter_t; hours : list zbx_scheduler_filter_t;
  minutes : list zbx_scheduler_filter_t; seconds : list zbx_scheduler_filter_t; filter_level : Z }.

Record zbx_flexible_interval_t := FlexInterval { period : zbx_time_period_t; delay : Z }.

Record zbx_custom_interval_t := CustomInterval {
  flexible : list zbx_flexible_interval_t; scheduling : list zbx_scheduler_interval_t }.

Abbreviation ZBX_SCHEDULER_FILTER_DAY := 1.
Abbreviation ZBX_SCHEDULER_FILTER_HOUR := 2.
Abbreviation ZBX_SCHEDULER_FILTER_MINUTE := 3.
Abbreviation ZBX_SCHEDULER_FILTER_SECOND := 4.
Abbreviation ZBX_LENGTH_UNLIMITED := 0x7fffffff.
Abbreviation SEMI := 59.
Abbreviation SLASH := 47.
Abbreviation DASH := 45.

(** [strchr(s, c)] as a pointer. *)
Fixpoint strchr_ptr (s : list Z) (c : Z) : option (list Z) :=
  match s with
  | [] => None
  | x :: rest => if x =? c then Some s else strchr_ptr rest c
  end.

(** [NULL == delim ? strlen(s) : delim - s] *)
Definition part_len (s : list Z) (delim : option (list Z)) : Z :=
  match delim with None => zlen s | Some d => ptr_diff d s end.

(** ** Delays (src/libs/zbxtime/time.c) *)

Fixpoint suffix_digits (str : list Z) (len value_tmp : Z) : option (list Z * Z * Z) :=
  match str with
  | [] => Some (str, len, value_tmp)
  | ch :: rest =>
      if (0 <? len) && isdigit ch then
        let c := ch - 48 in
        if Z.quot (0x7fffffff - c) 10 <? value_tmp then None else suffix_digits rest (len - 1) (value_tmp * 10 + c)
      else Some (str, len, value_tmp)
  end.

Definition suffix_factor (c : Z) : option Z :=
  if c =? 115 then Some 1
  else if c =? 109 then Some SEC_PER_MIN
  else if c =? 104 then Some SEC_PER_HOUR
  else if c =? 100 then Some SEC_PER_DAY
  else if c =? 119 then Some SEC_PER_WEEK
  else None.

Definition zbx_is_time_suffix (str : list Z) (length : Z) : option Z :=
  if (deref str =? 0) || (length <=? 0) || negb (isdigit (deref str)) then None
  else
    '(str, len, value_tmp) ← suffix_digits str length 0;
    '(str, len, factor) ← (if negb (deref str =? 0) && (0 <? len) then
                             factor ← suffix_factor (deref str); Some (tail str, len - 1, factor)
                           else Some (str, len, 1));
    if ((length =? ZBX_LENGTH_UNLIMITED) && negb (deref str =? 0)) || (negb (length =? ZBX_LENGTH_UNLIMITED) && negb (len =? 0))
    then None
    else if Z.quot 0x7fffffff factor <? value_tmp then None
    else Some (value_tmp * factor).

(** ** Time periods *)

(** [for (ptr = text; 0 < len && 0 != isdigit( *ptr) && 2 >= ptr - text; len--, ptr++)];
    [i] is [ptr - text]. *)
Fixpoint time_digits (ptr : list Z) (len i : Z) : list Z * Z :=
  match ptr with
  | c :: rest => if (0 <? len) && isdigit c && (i <=? 2) then time_digits rest (len - 1) (i + 1) else (ptr, len)
  | [] => (ptr, len)
  end.

(** The time and the number of characters. *)
Definition time_parse (text : list Z) (len : Z) : option (Z * Z) :=
  let old_len := len in
  let '(ptr, len) := time_digits text len 0 in
  hours ← zbx_is_uint_n_range text (ptr_diff ptr text) 4 0 24;
  if (len <=? 0) || negb (deref ptr =? COLON) then None
  else
    let text := tail ptr in
    let len := len - 1 in
    let '(ptr, len) := time_digits text len 0 in
    if negb (ptr_diff ptr text =? 2) then None
    else
      minutes ← zbx_is_uint_n_range text 2 4 0 59;
      if (hours =? 24) && negb (minutes =? 0) then None
      else Some (SEC_PER_HOUR * hours + SEC_PER_MIN * minutes, old_len - len).

Definition is_day (c : Z) : bool := (49 <=? c) && (c <=? 55).

Definition time_period_parse (text : list Z) (len : Z) : option zbx_time_period_t :=
  if (len <=? 0) || negb (is_day (deref text)) then None
  else
    let start_day := deref text - 48 in
    let text := tail text in
    let len := len - 1 in
    if len <=? 0 then None
    else
      '(end_day, text, len) ← (
        if deref text =? DASH then
          let text := tail text in
          let len := len - 1 in
          if (len <=? 0) || negb (is_day (deref text)) then None
          else if deref text - 48 <? start_day then None
          else Some (deref text - 48, tail text, len - 1)
        else Some (start_day, text, len));
      if (len <=? 0) || negb (deref text =? COMMA) then None
      else
        let text := tail text in
        let len := len - 1 in
        '(start_time, parsed_len) ← time_parse text len;
        let text := drop (Z.to_nat parsed_len) text in
        let len := len - parsed_len in
        if (len <=? 0) || negb (deref text =? DASH) then None
        else
          let text := tail text in
          let len := len - 1 in
          '(end_time, parsed_len) ← time_parse text len;
          if end_time <=? start_time then None
          else if negb (len - parsed_len =? 0) then None
          else Some (Period start_day end_day start_time end_time).

(** ** Scheduling intervals *)

(** [while (0 != isdigit( *pend) && 0 < *len) { pend++; ( *len)--; }]; a
    [do]-[while] loop on the same condition starts one character later. *)
Fixpoint span_digits (pend : list Z) (len : Z) : list Z * Z :=
  match pend with
  | c :: rest => if isdigit c && (0 <? len) then span_digits rest (len - 1) else (pend, len)
  | [] => (pend, len)
  end.

(** The part after [-] or [/]: a number of at most [var_len] digits. *)
Definition filter_number (pend : list Z) (len min max var_len : Z) : option (Z * list Z * Z) :=
  let pstart := tail pend in
  let '(pend, len) := span_digits pstart (len - 1) in
  let n := ptr_diff pend pstart in
  if (n =? 0) || (var_len <? n) then None
  else v ← zbx_is_uint_n_range pstart n 4 min max; Some (v, pend, len).

(** [start], [end], [pend] and [*len] after the range. *)
Definition filter_range (text : list Z) (len min max var_len : Z) : option (Z * Z * list Z * Z) :=
  let '(pend, len) := span_digits text len in
  let n := ptr_diff pend text in
  if n =? 0 then Some (min, max, pend, len)
  else if var_len <? n then None
  else
    start ← zbx_is_uint_n_range text n 4 min max;
    if deref pend =? DASH then
      '(end_, pend, len) ← filter_number pend len min max var_len;
      if end_ <? start then None else Some (start, end_, pend, len)
    else if deref pend =? SLASH then None
    else Some (start, start, pend, len).

(** [step], [pend] and [*len] after the step. *)
Definition filter_step (text pend : list Z) (len start end_ var_len : Z) : option (Z * list Z * Z) :=
  if deref pend =? SLASH then filter_number pend len 1 (end_ - start) var_len
  else if ptr_diff pend text =? 0 then None
  else Some (1, pend, len).

(** The chain and [*len]; a call looks at fewer characters than its caller. *)
Fixpoint scheduler_parse_filter_r (fuel : nat) (text : list Z) (len min max var_len : Z) : option (list zbx_scheduler_filter_t * Z) :=
  match fuel with
  | O => None
  | S fuel =>
      '(start, end_, pend, len) ← filter_range text len min max var_len;
      '(step, pend, len) ← filter_step text pend len start end_ var_len;
      '(next, len) ← (
        if deref pend =? COMMA then
          let len := len - 1 in
          if len =? 0 then None else scheduler_parse_filter_r fuel (tail pend) len min max var_len
        else Some ([], len));
      Some (Filter start end_ step :: next, len)
  end.

Definition scheduler_parse_filter (filter : list zbx_scheduler_filter_t) (text : list Z) (len min max var_len : Z)
    : option (list zbx_scheduler_filter_t * Z) :=
  match filter with
  | _ :: _ => None
  | [] => scheduler_parse_filter_r (S (length text)) text len min max var_len
  end.

Definition no_filters : zbx_scheduler_interval_t := SchedInterval [] [] [] [] [] 0.

(** The body of the loop of [scheduler_interval_parse]: the interval and
    [len] after the filter at [text], whose first character is not counted
    any more. *)
Definition parse_unit (iv : zbx_scheduler_interval_t) (text : list Z) (len : Z) : option (zbx_scheduler_interval_t * Z) :=
  let c := deref text in
  if c =? 104 then
    if ZBX_SCHEDULER_FILTER_HOUR <? filter_level iv then None
    else
      '(f, len) ← scheduler_parse_filter (hours iv) (tail text) len 0 23 2;
      Some (SchedInterval (mdays iv) (wdays iv) f (minutes iv) (seconds iv) ZBX_SCHEDULER_FILTER_HOUR, len)
  else if c =? 115 then
    if ZBX_SCHEDULER_FILTER_SECOND <? filter_level iv then None
    else
      '(f, len) ← scheduler_parse_filter (seconds iv) (tail text) len 0 59 2;
      Some (SchedInterval (mdays iv) (wdays iv) (hours iv) (minutes iv) f ZBX_SCHEDULER_FILTER_SECOND, len)
  else if c =? 119 then
    if negb (deref (tail text) =? 100) then None
    else if ZBX_SCHEDULER_FILTER_DAY <? filter_level iv then None
    else
      '(f, len) ← scheduler_parse_filter (wdays iv) (tail (tail text)) (len - 1) 1 7 1;
      Some (SchedInterval (mdays iv) f (hours iv) (minutes iv) (seconds iv) ZBX_SCHEDULER_FILTER_DAY, len)
  else if c =? 109 then
    if deref (tail text) =? 100 then
      if (ZBX_SCHEDULER_FILTER_DAY <? filter_level iv) || bool_decide (wdays iv <> []) then None
      else
        '(f, len) ← scheduler_parse_filter (mdays iv) (tail (tail text)) (len - 1) 1 31 2;
        Some (SchedInterval f (wdays iv) (hours iv) (minutes iv) (seconds iv) ZBX_SCHEDULER_FILTER_DAY, len)
    else if ZBX_SCHEDULER_FILTER_MINUTE <? filter_level iv then None
    else
      '(f, len) ← scheduler_parse_filter (minutes iv) (tail text) len 0 59 2;
      Some (SchedInterval (mdays iv) (wdays iv) (hours iv) f (seconds iv) ZBX_SCHEDULER_FILTER_MINUTE, len)
  else None.

(** [while (SUCCEED == ret && 0 != len)]; every turn advances [text]. *)
Fixpoint parse_units (fuel : nat) (iv : zbx_scheduler_interval_t) (text : list Z) (len : Z) : option zbx_scheduler_interval_t :=
  match fuel with
  | O => None
  | S fuel =>
      if len =? 0 then Some iv
      else
        let old_len := len in
        '(iv, len) ← parse_unit iv text (len - 1);
        parse_units fuel iv (drop (Z.to_nat (old_len - len)) text) len
  end.

Definition scheduler_interval_parse (iv : zbx_scheduler_interval_t) (text : list Z) (len : Z) : option zbx_scheduler_interval_t :=
  if len =? 0 then None else parse_units (S (S (length text))) iv text len.

(** ** Flexible intervals *)

(** [for (ptr = text; 0 < len && '\0' != *ptr && '/' != *ptr; len--, ptr++)] *)
Fixpoint span_delay (ptr : list Z) (len : Z) : list Z * Z :=
  match ptr with
  | c :: rest => if (0 <? len) && negb (c =? SLASH) then span_delay rest (len - 1) else (ptr, len)
  | [] => (ptr, len)
  end.

Definition flexible_interval_parse (text : list Z) (len : Z) : option zbx_flexible_interval_t :=
  let '(ptr, len) := span_delay text len in
  delay ← zbx_is_time_suffix text (ptr_diff ptr text);
  if (len <=? 0) || negb (deref ptr =? SLASH) then None
  else period ← time_period_parse (tail ptr) (len - 1); Some (FlexInterval period delay).

(** ** The whole text *)

Inductive interval_type_t := INTERVAL_UPDATE | INTERVAL_FLEXIBLE | INTERVAL_SCHEDULING.

(** The error message names the type of the interval and quotes a text. *)
Definition interval_error : Type := interval_type_t * list Z.

Definition quoted (interval_str : list Z) (delim : option (list Z)) : list Z :=
  take (Z.to_nat (part_len interval_str delim)) interval_str.

(** [while (NULL != delim)]; the last component is the text of the last
    interval.  Every turn starts after the semicolon found by the one before. *)
Fixpoint preproc_loop (fuel : nat) (simple_interval : Z) (interval_str : list Z) (delim : option (list Z))
    (flex : list zbx_flexible_interval_t) (sched : list zbx_scheduler_interval_t)
    : interval_error + (list zbx_flexible_interval_t * list zbx_scheduler_interval_t * list Z) :=
  match fuel, delim with
  | _, None => inr (flex, sched, interval_str)
  | O, Some _ => inr (flex, sched, interval_str)
  | S fuel, Some d =>
      let interval_str := tail d in
      let delim := strchr_ptr interval_str SEMI in
      if isdigit (deref interval_str) then
        match flexible_interval_parse interval_str (part_len interval_str delim) with
        | Some new_interval =>
            if (simple_interval =? 0) && (delay new_interval =? 0) then inl (INTERVAL_FLEXIBLE, quoted interval_str delim)
            else preproc_loop fuel simple_interval interval_str delim (new_interval :: flex) sched
        | None => inl (INTERVAL_FLEXIBLE, quoted interval_str delim)
        end
      else
        match scheduler_interval_parse no_filters interval_str (part_len interval_str delim) with
        | Some new_interval => preproc_loop fuel simple_interval interval_str delim flex (new_interval :: sched)
        | None => inl (INTERVAL_SCHEDULING, quoted interval_str delim)
        end
  end.

(** [custom]: the caller wants the custom intervals. *)
Definition zbx_interval_preproc (interval_str : list Z) (custom : bool) : interval_error + (Z * option zbx_custom_interval_t) :=
  let delim := strchr_ptr interval_str SEMI in
  match zbx_is_time_suffix interval_str (match delim with None => ZBX_LENGTH_UNLIMITED | Some d => ptr_diff d interval_str end) with
  | None => inl (INTERVAL_UPDATE, quoted interval_str delim)
  | Some simple_interval =>
      if negb custom then inr (simple_interval, None)
      else
        match preproc_loop (S (length interval_str)) simple_interval interval_str delim [] [] with
        | inl e => inl e
        | inr (flex, sched, last_str) =>
            if (bool_decide (flex = []) && bool_decide (sched = []) && (simple_interval =? 0)) || (SEC_PER_DAY <? simple_interval)
            then inl (INTERVAL_UPDATE, last_str)
            else inr (simple_interval, Some (CustomInterval flex sched))
        end
  end.

Definition zbx_custom_interval_is_scheduling (custom_intervals : zbx_custom_interval_t) : bool :=
  bool_decide (scheduling custom_intervals <> []).

(** ** Validation *)

Definition parse_simple_interval (str : list Z) (sep : Z) : option (Z * Z) :=
  let delim := strchr_ptr str sep in
  value ← zbx_is_time_suffix str (match delim with None => ZBX_LENGTH_UNLIMITED | Some d => ptr_diff d str end);
  Some (part_len str delim, value).

(** The length of the macro at the start of [str]. *)
Definition parse_user_macro (str : list Z) : option Z :=
  if negb (deref str =? LBR) || negb (deref (tail str) =? 36) then None
  else loc ← zbx_user_macro_parse str false; Some (macro_r loc + 1).

(** [str + len], if the text ends there or goes on with a semicolon: then
    what the code assigns to [delim]. *)
Definition macro_end (str : list Z) (len : option Z) : option (option (list Z)) :=
  match len with
  | Some len =>
      let d := drop (Z.to_nat len) str in
      if deref d =? 0 then Some None else if deref d =? SEMI then Some (Some d) else None
  | None => None
  end.

Inductive validate_error :=
  | InvalidUpdate (text : list Z) | InvalidFlexible (text : list Z) | InvalidPeriod (text : list Z)
  | InvalidCustom (text : list Z) | InvalidDelay (simple_interval : Z).

(** The delay of a flexible interval and [str + len], the slash after it. *)
Definition flexible_delay (str : list Z) (macro : option Z) : option (Z * Z * list Z) :=
  '(len, interval) ← (match macro with Some len => Some (len, 1) | None => parse_simple_interval str SLASH end);
  let d := drop (Z.to_nat len) str in
  if deref d =? SLASH then Some (len, interval, d) else None.

(** [while (NULL != delim)]; the result is [custom]. *)
Fixpoint validate_loop (fuel : nat) (simple_interval : Z) (delim : option (list Z)) (custom : bool) : validate_error + bool :=
  match fuel, delim with
  | _, None => inr custom
  | O, Some _ => inr custom
  | S fuel, Some d =>
      let str := tail d in
      let macro := parse_user_macro str in
      match flexible_delay str macro with
      | Some (len, interval, d) =>
          if (interval =? 0) && (simple_interval =? 0) then inl (InvalidFlexible (take (Z.to_nat len) str))
          else
            let str := tail d in
            match macro_end str (parse_user_macro str) with
            | Some delim => validate_loop fuel simple_interval delim true
            | None =>
                let delim := strchr_ptr str SEMI in
                match time_period_parse str (part_len str delim) with
                | Some _ => validate_loop fuel simple_interval delim true
                | None => inl (InvalidPeriod (quoted str delim))
                end
            end
      | None =>
          match macro_end str macro with
          | Some delim => validate_loop fuel simple_interval delim true
          | None =>
              let delim := strchr_ptr str SEMI in
              match scheduler_interval_parse no_filters str (part_len str delim) with
              | Some _ => validate_loop fuel simple_interval delim true
              | None => inl (InvalidCustom (quoted str delim))
              end
          end
      end
  end.

Definition zbx_validate_interval (str : list Z) : option validate_error :=
  let start :=
    match macro_end str (parse_user_macro str) with
    | Some delim => Some (1, delim)
    | None =>
        '(len, simple_interval) ← parse_simple_interval str SEMI;
        let d := drop (Z.to_nat len) str in
        Some (simple_interval, if deref d =? 0 then None else Some d)
    end in
  match start with
  | None => Some (InvalidUpdate (quoted str (strchr_ptr str SEMI)))
  | Some (simple_interval, delim) =>
      match validate_loop (S (length str)) simple_interval delim false with
      | inl e => Some e
      | inr custom =>
          if (negb custom && (simple_interval =? 0)) || (SEC_PER_DAY <? simple_interval) then Some (InvalidDelay simple_interval) else None
      end
  end.

(** ** Periods of a setting

    [zbx_check_time_period] on the broken-down time [t]: whether [t] is in one
    of the periods, or [None] for an invalid text. *)

Definition check_time_period (p : zbx_time_period_t) (t : tm) : bool :=
  let day := if tm_wday t =? 0 then 7 else tm_wday t in
  let time := SEC_PER_HOUR * tm_hour t + SEC_PER_MIN * tm_min t + tm_sec t in
  (start_day p <=? day) && (day <=? end_day p) && (start_time p <=? time) && (time <? end_time p).

(** Every turn starts after the semicolon found by the one before. *)
Fixpoint check_periods (fuel : nat) (text : list Z) (t : tm) (res_total : bool) : option bool :=
  match fuel with
  | O => None
  | S fuel =>
      let next := strchr_ptr text SEMI in
      tp ← time_period_parse text (part_len text next);
      let res_total := res_total || check_time_period tp t in
      match next with
      | None => Some res_total
      | Some d => check_periods fuel (tail d) t res_total
      end
  end.

Definition zbx_check_time_period (text : list Z) (t : tm) : option bool := check_periods (S (length text)) text t false.
