(* ===== verification/Scheduler.v ===== *)
(** * Next checks (src/libs/zbxexpr/interval.c)

    From the update interval of an item to the time of its next check: the
    search for the next time that satisfies a scheduling interval, the change
    of flexible delays, and [zbx_calculate_item_nextcheck], which combines
    them.  Times are broken down by the C library ([zone] of Calendar.v).

    A loop that may not end has fuel: [month_fuel] for the search of a day,
    which goes from month to month, and [tries] for the repetition when
    [mktime] fails. *)
From stdpp Require Import prelude list.
From Stdlib Require Import ZArith Lia.
From S2P Require Import Prelude Calendar Interval.
#[local] Open Scope Z_scope.

Abbreviation ITEM_TYPE_ZABBIX := 0.
Abbreviation ITEM_TYPE_ZABBIX_ACTIVE := 7.

(** ** Scheduling *)

Definition scheduler_tm_inc (t : tm) : tm :=
  let t := set_sec t (tm_sec t + 1) in
  if tm_sec t <? 60 then t
  else
    let t := set_min (set_sec t 0) (tm_min t + 1) in
    if tm_min t <? 60 then t
    else
      let t := set_hour (set_min t 0) (tm_hour t + 1) in
      if tm_hour t <? 24 then t
      else
        let t := set_mday (set_hour t 0) (tm_mday t + 1) in
        if tm_mday t <=? zbx_day_in_month (tm_year t + 1900) (tm_mon t + 1) then t
        else
          let t := set_mon (set_mday t 1) (tm_mon t + 1) in
          if tm_mon t <? 12 then t
          else set_year (set_mon t 0) (tm_year t + 1).

Definition mon_table : list Z := [0; 3; 2; 5; 0; 3; 5; 1; 4; 6; 2; 4].

Definition calculate_dayofweek (year mon mday : Z) : Z :=
  let year := if mon <? 3 then year - 1 else year in
  Z.rem (year + Z.quot year 4 - Z.quot year 100 + Z.quot year 400 + nth (Z.to_nat (mon - 1)) mon_table 0 + mday - 1) 7 + 1.

(** The value after the step is applied to one inside the range. *)
Definition apply_step (f : zbx_scheduler_filter_t) (value : Z) : Z :=
  let offset := Z.rem (value - f_start f) (f_step f) in
  if offset =? 0 then value else value + (f_step f - offset).

Definition in_range (f : zbx_scheduler_filter_t) (value : Z) : bool := (f_start f <=? value) && (value <=? f_end f).

Definition tm_dayofweek (t : tm) : Z := calculate_dayofweek (tm_year t + 1900) (tm_mon t + 1) (tm_mday t).

Definition scheduler_validate_wday_filter (iv : zbx_scheduler_interval_t) (t : tm) : bool :=
  match wdays iv with
  | [] => true
  | chain =>
      let value := tm_dayofweek t in
      existsb (fun f => in_range f value && (apply_step f value <=? f_end f)) chain
  end.

(** [filter_next]: the start of the next nearest filter. *)
Fixpoint nearest_loop (chain : list zbx_scheduler_filter_t) (value : Z) (filter_next : option Z) : option Z :=
  match chain with
  | [] => filter_next
  | f :: chain =>
      if in_range f value && (apply_step f value <=? f_end f) then Some (apply_step f value)
      else
        nearest_loop chain value
          (if (value <? f_start f) && (match filter_next with None => true | Some s => f_start f <? s end)
           then Some (f_start f) else filter_next)
  end.

Definition scheduler_get_nearest_filter_value (chain : list zbx_scheduler_filter_t) (value : Z) : option Z :=
  nearest_loop chain value None.

(** The result and the changed fields. *)
Definition scheduler_get_wday_nextcheck (iv : zbx_scheduler_interval_t) (t : tm) : bool * tm :=
  match wdays iv with
  | [] => (true, t)
  | chain =>
      let value_now := tm_dayofweek t in
      let finish (t : tm) (value_next value_now : Z) :=
        let t := set_mday t (tm_mday t + (value_next - value_now)) in
        (tm_mday t <=? zbx_day_in_month (tm_year t + 1970) (tm_mon t + 1), t) in
      match scheduler_get_nearest_filter_value chain value_now with
      | Some value_next => finish t value_next value_now
      | None =>
          let t := set_mday t (tm_mday t + (7 - value_now + 1)) in
          match scheduler_get_nearest_filter_value chain 1 with
          | Some value_next => finish t value_next 1
          | None => (false, t)
          end
      end
  end.

(** The loop over the days of a month; the day goes up with every turn. *)
Fixpoint mday_loop (fuel : nat) (iv : zbx_scheduler_interval_t) (t : tm) : bool * tm :=
  match fuel with
  | O => (false, t)
  | S fuel =>
      match scheduler_get_nearest_filter_value (mdays iv) (tm_mday t) with
      | None => (false, t)
      | Some mday =>
          let t := set_mday t mday in
          if zbx_day_in_month (tm_year t + 1970) (tm_mon t + 1) <? tm_mday t then (false, t)
          else if scheduler_validate_wday_filter iv t then (true, t)
          else
            let t := set_mday t (tm_mday t + 1) in
            if zbx_day_in_month (tm_year t + 1970) (tm_mon t + 1) <? tm_mday t then (false, t)
            else mday_loop fuel iv t
      end
  end.

Definition scheduler_get_day_nextcheck (iv : zbx_scheduler_interval_t) (t : tm) : bool * tm :=
  match zbx_utc_time (tm_year t + 1900) (tm_mon t + 1) (tm_mday t) (tm_hour t) (tm_min t) (tm_sec t) with
  | None => (false, t)
  | Some _ =>
      match mdays iv with
      | [] => scheduler_get_wday_nextcheck iv t
      | _ => mday_loop 32 iv t
      end
  end.

(** The part of [scheduler_get_filter_nextcheck] below the days, on one field. *)
Definition unit_nextcheck (chain : list zbx_scheduler_filter_t) (iv_level level max value : Z) : option Z :=
  if max <? value then None
  else match chain with
       | [] => if level <? iv_level then Some value else if value =? 0 then Some value else None
       | _ => scheduler_get_nearest_filter_value chain value
       end.

Definition on_field (t : tm) (set : tm -> Z -> tm) (v : option Z) : bool * tm :=
  match v with Some v => (true, set t v) | None => (false, t) end.

Definition scheduler_get_filter_nextcheck (iv : zbx_scheduler_interval_t) (level : Z) (t : tm) : bool * tm :=
  if level =? ZBX_SCHEDULER_FILTER_DAY then scheduler_get_day_nextcheck iv t
  else if level =? ZBX_SCHEDULER_FILTER_HOUR then
    on_field t set_hour (unit_nextcheck (hours iv) (filter_level iv) level 23 (tm_hour t))
  else if level =? ZBX_SCHEDULER_FILTER_MINUTE then
    on_field t set_min (unit_nextcheck (minutes iv) (filter_level iv) level 59 (tm_min t))
  else if level =? ZBX_SCHEDULER_FILTER_SECOND then
    on_field t set_sec (unit_nextcheck (seconds iv) (filter_level iv) level 59 (tm_sec t))
  else (false, t).

(** The months from 1970 to 2037, and one turn more. *)
Definition month_fuel : nat := 817.

Fixpoint day_loop (fuel : nat) (iv : zbx_scheduler_interval_t) (t : tm) : res tm :=
  match fuel with
  | O => Halt OutOfFuel
  | S fuel =>
      let '(ok, t) := scheduler_get_filter_nextcheck iv ZBX_SCHEDULER_FILTER_DAY t in
      if ok then Ret t
      else
        let t := set_mon t (tm_mon t + 1) in
        let t := if 11 <? tm_mon t then set_year (set_mon t 0) (tm_year t + 1) else t in
        day_loop fuel iv (set_mday t 1)
  end.

Definition scheduler_apply_day_filter (iv : zbx_scheduler_interval_t) (t : tm) : res tm :=
  r ← day_loop month_fuel iv t;
  Ret (if negb (tm_mday r =? tm_mday t) || negb (tm_mon r =? tm_mon t) || negb (tm_year r =? tm_year t)
       then set_sec (set_min (set_hour r 0) 0) 0 else r).

(** The loops below the days: a turn that fails moves to the next day, hour
    or minute and sets the field to 0, which the filter then accepts or moves
    on from; so the third test is never reached. *)
Fixpoint level_loop (fuel : nat) (iv : zbx_scheduler_interval_t) (level : Z) (next : tm -> res tm) (t : tm) : res tm :=
  match fuel with
  | O => Halt OutOfFuel
  | S fuel =>
      let '(ok, t) := scheduler_get_filter_nextcheck iv level t in
      if ok then Ret t else t ← next t; level_loop fuel iv level next t
  end.

Definition scheduler_apply_hour_filter (iv : zbx_scheduler_interval_t) (t : tm) : res tm :=
  r ← level_loop 3 iv ZBX_SCHEDULER_FILTER_HOUR
        (fun t => scheduler_apply_day_filter iv (set_hour (set_mday t (tm_mday t + 1)) 0)) t;
  Ret (if negb (tm_hour r =? tm_hour t) then set_sec (set_min r 0) 0 else r).

Definition scheduler_apply_minute_filter (iv : zbx_scheduler_interval_t) (t : tm) : res tm :=
  r ← level_loop 3 iv ZBX_SCHEDULER_FILTER_MINUTE
        (fun t => scheduler_apply_hour_filter iv (set_min (set_hour t (tm_hour t + 1)) 0)) t;
  Ret (if negb (tm_min r =? tm_min t) then set_sec r 0 else r).

Definition scheduler_apply_second_filter (iv : zbx_scheduler_interval_t) (t : tm) : res tm :=
  level_loop 3 iv ZBX_SCHEDULER_FILTER_SECOND
    (fun t => scheduler_apply_minute_filter iv (set_sec (set_min t (tm_min t + 1)) 0)) t.

(** The four calls [scheduler_get_nextcheck] makes for an interval. *)
Definition scheduler_apply_filters (iv : zbx_scheduler_interval_t) (t : tm) : res tm :=
  t ← scheduler_apply_day_filter iv t;
  t ← scheduler_apply_hour_filter iv t;
  t ← scheduler_apply_minute_filter iv t;
  scheduler_apply_second_filter iv t.

Section zone.
Context (z : zone).

(** [while (end > start + 1)]: the distance is halved, 32 turns are enough
    for [int] bounds. *)
Fixpoint dst_search (fuel : nat) (dst_start start end_ : Z) : Z :=
  match fuel with
  | O => end_
  | S fuel =>
      if start + 1 <? end_ then
        let mid := Z.quot (start + end_) 2 in
        let time_mid := i32 (mid * 60) in
        if tm_isdst (localtime z time_mid) =? dst_start then dst_search fuel dst_start mid end_
        else dst_search fuel dst_start start mid
      else end_
  end.

(** [time_dst]: the static variable before the call; the result is its value after it. *)
Definition scheduler_find_dst_change (time_dst time_start time_end : Z) : Z :=
  if (time_dst <? time_start) || (time_end <? time_dst) then
    let start := i32 (Z.quot time_start 60) in
    let end_ := i32 (Z.quot time_end 60) in
    i32 (dst_search 32 (tm_isdst (localtime z time_start)) start end_ * 60)
  else time_dst.

(** The [do]-[while] loop: the time and the number of turns left. *)
Fixpoint next_time (tries : nat) (iv : zbx_scheduler_interval_t) (isdst : Z) (t : tm) : res Z :=
  match tries with
  | O => Halt OutOfFuel
  | S tries =>
      t ← scheduler_apply_filters iv (scheduler_tm_inc t);
      let '(current_nextcheck, t) := mktime z (set_isdst t isdst) in
      if current_nextcheck =? -1 then next_time tries iv isdst t else Ret current_nextcheck
  end.

Fixpoint nextcheck_loop (tries : nat) (intervals : list zbx_scheduler_interval_t) (tm_start : tm) (now time_dst nextcheck : Z) : res (Z * Z) :=
  match intervals with
  | [] => Ret (nextcheck, time_dst)
  | iv :: intervals =>
      current_nextcheck ← next_time tries iv (tm_isdst tm_start) tm_start;
      let tm_dst := localtime z current_nextcheck in
      '(current_nextcheck, time_dst) ← (
        if negb (tm_isdst tm_dst =? tm_isdst tm_start) then
          let dst := tm_isdst tm_dst in
          let time_dst := scheduler_find_dst_change time_dst now current_nextcheck in
          t ← scheduler_apply_filters iv (localtime z time_dst);
          Ret (fst (mktime z (set_isdst t dst)), time_dst)
        else Ret (current_nextcheck, time_dst));
      nextcheck_loop tries intervals tm_start now time_dst
        (if (nextcheck =? 0) || (current_nextcheck <? nextcheck) then current_nextcheck else nextcheck)
  end.

(** The time and the static variable after the call. *)
Definition scheduler_get_nextcheck (tries : nat) (intervals : list zbx_scheduler_interval_t) (now time_dst : Z) : res (Z * Z) :=
  nextcheck_loop tries intervals (localtime z now) now time_dst 0.

(** ** Flexible delays *)

Fixpoint current_delay_loop (flex : list zbx_flexible_interval_t) (now current_delay : Z) : Z :=
  match flex with
  | [] => current_delay
  | f :: flex =>
      current_delay_loop flex now
        (if ((current_delay =? -1) || (delay f <? current_delay)) && check_time_period (period f) (localtime z now)
         then delay f else current_delay)
  end.

Definition get_current_delay (default_delay : Z) (flex : list zbx_flexible_interval_t) (now : Z) : Z :=
  let current_delay := current_delay_loop flex now (-1) in
  if current_delay =? -1 then default_delay else current_delay.

(** The seconds from the start of the day to the next change of a period. *)
Definition next_change (p : zbx_time_period_t) (day time : Z) : Z :=
  if (start_day p <=? day) && (day <=? end_day p) && (time <? end_time p) then
    if time <? start_time p then start_time p else end_time p
  else if day <? end_day p then
    if day <? start_day p then SEC_PER_DAY * (start_day p - day) + start_time p
    else SEC_PER_DAY + start_time p
  else SEC_PER_DAY * (start_day p + 7 - day) + start_time p.

Definition tm_day (t : tm) : Z := if tm_wday t =? 0 then 7 else tm_wday t.
Definition tm_time (t : tm) : Z := SEC_PER_HOUR * tm_hour t + SEC_PER_MIN * tm_min t + tm_sec t.

Fixpoint next_delay_loop (flex : list zbx_flexible_interval_t) (day time next : Z) : Z :=
  match flex with
  | [] => next
  | f :: flex =>
      let candidate := next_change (period f) day time in
      next_delay_loop flex day time (if (next =? 0) || (candidate <? next) then candidate else next)
  end.

Definition get_next_delay_interval (flex : list zbx_flexible_interval_t) (now : Z) : option Z :=
  match flex with
  | [] => None
  | _ =>
      let t := localtime z now in
      let next := next_delay_loop flex (tm_day t) (tm_time t) 0 in
      if next =? 0 then None else Some (now - tm_time t + next)
  end.

(** ** Next checks *)

(** [while (nextcheck <= limit) nextcheck += current_delay;], at most four
    turns, as the first value is less than a delay before the time and the
    limit at most a quarter of the delay after it. *)
Fixpoint catch_up (fuel : nat) (nextcheck limit current_delay : Z) : Z :=
  match fuel with
  | O => nextcheck
  | S fuel => if nextcheck <=? limit then catch_up fuel (i32 (nextcheck + current_delay)) limit current_delay else nextcheck
  end.

(** The check time for a delay; [first] is [0 == attempt]. *)
Definition delay_nextcheck (seed current_delay t : Z) (first : bool) : Z :=
  if current_delay =? 0 then ZBX_JAN_2038
  else
    let nextcheck := i32 (current_delay * i32 (Z.quot t current_delay) + i32 (seed mod u64 current_delay)) in
    let min_delay := Z.min (Z.quot current_delay 4) 30 in
    catch_up 4 nextcheck (if first then t + min_delay else t + min_delay - 1) current_delay.

(** One turn of [while (t < tmax)]: the loop ends with a value, or goes on. *)
Definition nextcheck_turn (seed simple_interval : Z) (custom : option zbx_custom_interval_t) (tmax : Z) (s : Z * Z * Z) : (Z * Z * Z) + Z :=
  let '(t, attempt, nextcheck) := s in
  if t <? tmax then
    let current_delay :=
      match custom with Some ci => get_current_delay simple_interval (flexible ci) t | None => simple_interval end in
    let nextcheck := delay_nextcheck seed current_delay t (attempt =? 0) in
    match custom with
    | None => inr nextcheck
    | Some ci =>
        match get_next_delay_interval (flexible ci) t with
        | Some next_interval => if next_interval <=? nextcheck then inl (next_interval, attempt + 1, nextcheck) else inr nextcheck
        | None => inr nextcheck
        end
    end
  else inr nextcheck.

(** [2 ^ 25] turns are more than the seconds of a year, and every turn moves
    [t] on.  The result and the static variable after the call. *)
Definition zbx_calculate_item_nextcheck (tries : nat) (seed item_type simple_interval : Z)
    (custom : option zbx_custom_interval_t) (now time_dst : Z) : res (Z * Z) :=
  if item_type =? ITEM_TYPE_ZABBIX_ACTIVE then
    Ret (if negb (simple_interval =? 0) then i32 (i32 now + simple_interval) else ZBX_JAN_2038, time_dst)
  else
    '(scheduled_check, time_dst) ← (
      match custom with Some ci => scheduler_get_nextcheck tries (scheduling ci) now time_dst | None => Ret (0, time_dst) end);
    nextcheck ← loop_until 25 (nextcheck_turn seed simple_interval custom (now + SEC_PER_YEAR)) (now, 0, 0);
    Ret (if negb (scheduled_check =? 0) && (scheduled_check <? nextcheck) then i32 scheduled_check else nextcheck, time_dst).

Definition unreachable_turn (simple_interval : Z) (ci : zbx_custom_interval_t) (tmax nextcheck : Z) : Z + Z :=
  if nextcheck <? tmax then
    if negb (get_current_delay simple_interval (flexible ci) nextcheck =? 0) then inr nextcheck
    else
      match get_next_delay_interval (flexible ci) nextcheck with
      | None => inr ZBX_JAN_2038
      | Some next_interval => inl (i32 next_interval)
      end
  else inr nextcheck.

Definition zbx_calculate_item_nextcheck_unreachable (tries : nat) (simple_interval : Z) (custom : option zbx_custom_interval_t)
    (disable_until time_dst : Z) : res (Z * Z) :=
  '(scheduled_check, time_dst) ← (
    match custom with Some ci => scheduler_get_nextcheck tries (scheduling ci) disable_until time_dst | None => Ret (0, time_dst) end);
  nextcheck ← (
    match custom with
    | Some ci => loop_until 25 (unreachable_turn simple_interval ci (disable_until + SEC_PER_YEAR)) (i32 disable_until)
    | None => Ret (i32 disable_until)
    end);
  Ret (if negb (scheduled_check =? 0) && (scheduled_check <? nextcheck) then i32 scheduled_check else nextcheck, time_dst).

(** The error, or whether the item has a scheduling interval, [*nextcheck]
    and the static variable. *)
Definition zbx_get_agent_item_nextcheck (tries : nat) (itemid : Z) (text : list Z) (now time_dst : Z)
    : res ((interval_error + bool) * Z * Z) :=
  match zbx_interval_preproc text true with
  | inl e => Ret (inl e, ZBX_JAN_2038, time_dst)
  | inr (simple_interval, custom) =>
      '(nextcheck, time_dst) ← zbx_calculate_item_nextcheck tries itemid ITEM_TYPE_ZABBIX simple_interval custom now time_dst;
      Ret (inr (match custom with Some ci => bool_decide (scheduling ci <> []) | None => false end), nextcheck, time_dst)
  end.

(** ** Reports *)

Inductive report_cycle := ZBX_REPORT_CYCLE_DAILY | ZBX_REPORT_CYCLE_WEEKLY | ZBX_REPORT_CYCLE_MONTHLY | ZBX_REPORT_CYCLE_YEARLY.

(** [while (0 == (weekdays & (1 << (tm->tm_wday + 6) % 7)))], at most a week. *)
Fixpoint weekday_loop (fuel : nat) (weekdays : Z) (t : tm) : res tm :=
  match fuel with
  | O => Halt OutOfFuel
  | S fuel =>
      if Z.land weekdays (Z.shiftl 1 (Z.rem (tm_wday t + 6) 7)) =? 0 then
        t ← zbx_tm_add z t 1 ZBX_TIME_UNIT_DAY; weekday_loop fuel weekdays t
      else Ret t
  end.

(** The switch over the cycle; [None] is the return of -1. *)
Definition report_round (cycle : report_cycle) (weekdays : Z) (t : tm) : res (option tm) :=
  match cycle with
  | ZBX_REPORT_CYCLE_YEARLY => t ← zbx_tm_round_up z t ZBX_TIME_UNIT_YEAR; Ret (Some t)
  | ZBX_REPORT_CYCLE_MONTHLY => t ← zbx_tm_round_up z t ZBX_TIME_UNIT_MONTH; Ret (Some t)
  | ZBX_REPORT_CYCLE_WEEKLY =>
      if weekdays =? 0 then Ret None
      else t ← zbx_tm_round_up z t ZBX_TIME_UNIT_DAY; t ← weekday_loop 8 weekdays t; Ret (Some t)
  | ZBX_REPORT_CYCLE_DAILY => t ← zbx_tm_round_up z t ZBX_TIME_UNIT_DAY; Ret (Some t)
  end.

(** The [do]-[while] loop, with the clock of the start time. *)
Fixpoint report_loop (fuel : nat) (now : Z) (cycle : report_cycle) (weekdays hour min sec : Z) (t : tm) : res Z :=
  match fuel with
  | O => Halt OutOfFuel
  | S fuel =>
      t ← (if (tm_sec t =? 0) && (tm_min t =? 0) && (tm_hour t =? 0) then zbx_tm_add z t 1 ZBX_TIME_UNIT_DAY else Ret t);
      r ← report_round cycle weekdays t;
      match r with
      | None => Ret (-1)
      | Some t =>
          let '(nextcheck, t) := mktime z (set_hour (set_min (set_sec t sec) min) hour) in
          let nextcheck := i32 nextcheck in
          if negb (nextcheck =? -1) && (nextcheck <=? now) then report_loop fuel now cycle weekdays hour min sec t else Ret nextcheck
      end
  end.

(** [None] for [yesterday]: the time zone cannot break the time down. *)
Definition zbx_get_report_nextcheck (fuel : nat) (now : Z) (cycle : report_cycle) (weekdays start_time : Z) (yesterday : option tm) : res Z :=
  match yesterday with
  | None => Ret (-1)
  | Some t =>
      report_loop fuel now cycle weekdays (Z.quot (Z.quot start_time 60) 60) (Z.rem (Z.quot start_time 60) 60) (Z.rem start_time 60) t
  end.
End zone.
