(* ===== verification/SchedSearch.v ===== *)
(** * The search for the next scheduled time

    What a scheduling interval means ([matches]) and the proof that the search
    of Scheduler.v finds the earliest second that matches: first for a chain
    of filters on one number, then for days, and then level by level with one
    lemma ([level_search]) for hours, minutes and seconds. *)
From stdpp Require Import prelude list.
From Stdlib Require Import ZArith Lia.
From S2P Require Import Prelude Calendar Interval Scheduler.
#[local] Open Scope Z_scope.

(** ** The calendar *)

(** The date is not touched. *)
Ltac same_date :=
  match goal with |- context [secs ?u = secs ?t + 1] => split; [split; [assumption|unfold valid_clock; tm_cbn; lia]|];
    unfold secs; change (daynum u) with (daynum t); tm_cbn; lia end.

Lemma tm_inc_ok t : valid_time t -> valid_time (scheduler_tm_inc t) /\ secs (scheduler_tm_inc t) = secs t + 1 /\
  tm_isdst (scheduler_tm_inc t) = tm_isdst t /\ tm_year t <= tm_year (scheduler_tm_inc t).
Proof.
  intros [Hd Hc]. pose proof (valid_date_days t Hd) as Hn. pose proof (tm_days_month t (proj1 Hd)) as Hdays.
  unfold scheduler_tm_inc. tm_cbn.
  unfold valid_clock in Hc. fold (tm_days t).
  destruct (Z.ltb_spec (tm_sec t + 1) 60).
  { same_date. }
  destruct (Z.ltb_spec (tm_min t + 1) 60).
  { same_date. }
  destruct (Z.ltb_spec (tm_hour t + 1) 24).
  { same_date. }
  destruct (Z.leb_spec (tm_mday t + 1) (tm_days t)).
  { unfold secs. match goal with |- valid_time ?u /\ _ => set (r := u) end.
    assert (En : daynum r = daynum t + 1).
    { change (daynum r) with (daynum (set_mday t (tm_mday t + 1))). rewrite daynum_set_mday. lia. }
    split; [split; [split; [apply Hd|change (tm_days r) with (tm_days t); change (tm_mday r) with (tm_mday t + 1); destruct Hd; lia]|
      unfold valid_clock, r; tm_cbn; lia]|].
    rewrite En. unfold r. tm_cbn. lia. }
  match goal with |- context [if ?b then ?u else ?v] => set (r := if b then u else v) end.
  assert (Hr : r = tm_add_month (Tm 0 0 0 1 (tm_mon t) (tm_year t) (tm_wday t) (tm_yday t) (tm_isdst t)) 1).
  { unfold r, tm_add_month. cbn [set_mon tm_mon]. destruct Hd as [[_ Hm] _].
    destruct (Z.ltb_spec (tm_mon t + 1) 12), (Z.leb_spec 12 (tm_mon t + 1)); try lia; [done|].
    replace (tm_mon t + 1) with 12 by lia. done. }
  set (u := Tm 0 0 0 1 _ _ _ _ _) in Hr. assert (Hu : valid_month u) by apply Hd.
  destruct (add_month_ok u 1 Hu ltac:(lia)) as (Hm' & Hk & Hmd & _ & Hh & Hmi & Hs & Hds). rewrite <- Hr in *.
  cbn [u tm_mday tm_hour tm_min tm_sec tm_isdst] in Hmd, Hh, Hmi, Hs, Hds. change (month_of u) with (month_of t) in Hk.
  assert (En : daynum r = daynum t + 1).
  { rewrite (daynum_month r Hm'), Hk, month_start_succ by (apply month_of_lower, Hd). rewrite (daynum_month t (proj1 Hd)). pose proof (proj2 Hd). lia. }
  pose proof (month_days_bounds (month_of t + 1)). split.
  { split; [split; [done|rewrite Hmd, (tm_days_month r Hm'), Hk; lia]|unfold valid_clock; lia]. }
  unfold secs. rewrite Hh, Hmi, Hs, En. destruct Hd as [[? ?] ?]. unfold valid_month, month_of in *. lia.
Qed.

(** Days of the week from 1, Monday. *)
Lemma dayofweek_ok t : valid_month t -> 1 <= tm_mday t -> tm_dayofweek t = (daynum t + 3) mod 7 + 1.
Proof.
  intros [Hy Hm] Hd. unfold tm_dayofweek, calculate_dayofweek, daynum, days_of.
  revert Hy Hm Hd. generalize (tm_year t + 1900) (tm_mon t) (tm_mday t). intros y m d Hy Hm Hd. f_equal.
  assert (Hl : leap_years (if 2 <? m + 1 then y + 1 else y) =
    let y' := if m + 1 <? 3 then y - 1 else y in y' / 4 - y' / 100 + y' / 400).
  { unfold leap_years. destruct (Z.ltb_spec 2 (m + 1)), (Z.ltb_spec (m + 1) 3); try lia; rewrite !Z.quot_div_nonneg by lia;
      [by replace (y + 1 - 1) with y by lia|done]. }
  rewrite Hl. set (y' := if m + 1 <? 3 then y - 1 else y). assert (Hy' : 0 <= y' /\ (m + 1 < 3 /\ y' = y - 1 \/ 3 <= m + 1 /\ y' = y)).
  { unfold y'. destruct (Z.ltb_spec (m + 1) 3); lia. }
  assert (Hq : 0 <= y' / 4 - y' / 100) by dlia. assert (0 <= y' / 400) by (apply Z.div_pos; lia).
  rewrite !Z.quot_div_nonneg by lia. change (leap_years 1970) with 477. cbn zeta. clearbody y'. clear Hl.
  revert Hq H. generalize (y' / 4) (y' / 100) (y' / 400). intros a b c Hq H.
  rewrite Z.rem_mod_nonneg; [| |lia].
  - revert m Hm Hy'. apply (month_cases (fun m => _ -> _)); month_eval; dlia.
  - assert (0 <= nth (Z.to_nat (m + 1 - 1)) mon_table 0); [|lia]. revert m Hm Hy'. apply (month_cases (fun m => _ -> _)); month_eval; lia.
Qed.

(** ** What an interval means *)

(** The numbers of a filter: from the start in steps up to the end. *)
Definition in_filter (f : zbx_scheduler_filter_t) (v : Z) : Prop :=
  f_start f <= v <= f_end f /\ (v - f_start f) mod f_step f = 0.

Definition in_chain (chain : list zbx_scheduler_filter_t) (v : Z) : Prop := Exists (fun f => in_filter f v) chain.

Definition wf_filter (min max : Z) (f : zbx_scheduler_filter_t) : Prop :=
  min <= f_start f <= f_end f /\ f_end f <= max /\ 1 <= f_step f.

Definition wf_chain (min max : Z) (chain : list zbx_scheduler_filter_t) : Prop := Forall (wf_filter min max) chain.

(** Filters of a chain that overlap have no steps. *)
Definition separate (f g : zbx_scheduler_filter_t) : Prop :=
  f = g \/ f_end f < f_start g \/ f_end g < f_start f \/ (f_step f = 1 /\ f_step g = 1).

Definition clean (chain : list zbx_scheduler_filter_t) : Prop := forall f g, f ∈ chain -> g ∈ chain -> separate f g.

(** A unit without filter is free above the finest unit that has one, and 0
    below it. *)
Definition unit_ok (chain : list zbx_scheduler_filter_t) (iv_level level v : Z) : Prop :=
  match chain with [] => level < iv_level \/ v = 0 | _ => in_chain chain v end.

Definition day_ok (iv : zbx_scheduler_interval_t) (t : tm) : Prop :=
  (mdays iv <> [] -> in_chain (mdays iv) (tm_mday t)) /\ (wdays iv <> [] -> in_chain (wdays iv) (tm_dayofweek t)).

Definition hour_ok (iv : zbx_scheduler_interval_t) (t : tm) : Prop := unit_ok (hours iv) (filter_level iv) ZBX_SCHEDULER_FILTER_HOUR (tm_hour t).
Definition min_ok (iv : zbx_scheduler_interval_t) (t : tm) : Prop := unit_ok (minutes iv) (filter_level iv) ZBX_SCHEDULER_FILTER_MINUTE (tm_min t).
Definition sec_ok (iv : zbx_scheduler_interval_t) (t : tm) : Prop := unit_ok (seconds iv) (filter_level iv) ZBX_SCHEDULER_FILTER_SECOND (tm_sec t).

Definition matches (iv : zbx_scheduler_interval_t) (t : tm) : Prop := day_ok iv t /\ hour_ok iv t /\ min_ok iv t /\ sec_ok iv t.

(** What the parser guarantees. *)
Definition wf_interval (iv : zbx_scheduler_interval_t) : Prop :=
  wf_chain 1 31 (mdays iv) /\ wf_chain 1 7 (wdays iv) /\ wf_chain 0 23 (hours iv) /\ wf_chain 0 59 (minutes iv) /\ wf_chain 0 59 (seconds iv).

(** What the search needs besides: chains whose nearest value is the first
    one found, and no steps of week days next to month days. *)
Definition searchable (iv : zbx_scheduler_interval_t) : Prop :=
  clean (mdays iv) /\ clean (wdays iv) /\ clean (hours iv) /\ clean (minutes iv) /\ clean (seconds iv) /\
  (mdays iv <> [] -> Forall (fun f => f_step f = 1) (wdays iv)).

(** ** Chains *)

(** The first number from [v] on with a property. *)
Definition least (P : Z -> Prop) (v r : Z) : Prop := P r /\ v <= r /\ forall w, P w -> v <= w -> r <= w.

Lemma apply_step_least f v : 1 <= f_step f -> f_start f <= v -> least (fun w => f_start f <= w /\ (w - f_start f) mod f_step f = 0) v (apply_step f v).
Proof.
  intros Hs Hv. unfold apply_step. rewrite Z.rem_mod_nonneg by lia. set (s := f_step f) in *. set (a := f_start f) in *.
  pose proof (Z.mod_pos_bound (v - a) s ltac:(lia)) as Hb. pose proof (Z.div_mod (v - a) s ltac:(lia)) as Hd.
  destruct (Z.eqb_spec ((v - a) mod s) 0) as [E|E].
  - split; [split; [done|done]|]. split; [lia|]. lia.
  - split; [split; [lia|]|split; [lia|]].
    + replace (v + (s - (v - a) mod s) - a) with (((v - a) / s + 1) * s) by lia. apply Z.mod_mul. lia.
    + intros w [Hw Em] Hle. pose proof (Z.div_mod (w - a) s ltac:(lia)) as Hw'. rewrite Em in Hw'.
      assert ((v - a) / s < (w - a) / s) by nia. nia.
Qed.

(** A filter that holds [v] in its range gives its next number, if any. *)
Lemma filter_hit min max f v : wf_filter min max f -> in_range f v = true ->
  (apply_step f v <= f_end f -> least (in_filter f) v (apply_step f v)) /\ (f_end f < apply_step f v -> forall w, in_filter f w -> ~ v <= w).
Proof.
  intros (Hr & Hmax & Hs) Hv. unfold in_range in Hv. unbool. destruct (apply_step_least f v Hs ltac:(lia)) as ([H1 H2] & H3 & H4).
  split; [intros He|intros He w [Hw Ew] Hle; pose proof (H4 w ltac:(split; [lia|done]) Hle); lia].
  split; [split; [lia|done]|]. split; [lia|]. intros w [Hw Ew] Hle. apply H4; [split; [lia|done]|lia].
Qed.

Lemma filter_start min max f : wf_filter min max f -> in_filter f (f_start f).
Proof. intros (? & ? & ?). split; [lia|]. by rewrite Z.sub_diag, Z.mod_0_l by lia. Qed.

(** The nearest filter: the hit of a filter around [v], or else the lowest
    start above [v], of the chain or remembered. *)
Lemma nearest_loop_ok min max chain v fn : wf_chain min max chain ->
  (exists f, f ∈ chain /\ in_range f v = true /\ apply_step f v <= f_end f /\ nearest_loop chain v fn = Some (apply_step f v)) \/
  ((forall f, f ∈ chain -> in_range f v = true -> f_end f < apply_step f v) /\
   match nearest_loop chain v fn with
   | Some r => ((exists f, f ∈ chain /\ f_start f = r /\ v < r) \/ fn = Some r) /\ (forall s, fn = Some s -> r <= s) /\
               (forall f, f ∈ chain -> v < f_start f -> r <= f_start f)
   | None => fn = None /\ forall f, f ∈ chain -> ~ v < f_start f
   end).
Proof.
  intros Hwf. revert fn. induction Hwf as [|f chain Hf Hwf IH]; intros fn; cbn [nearest_loop].
  - right. split; [by intros f ?%not_elem_of_nil|]. destruct fn as [s|]; [|split; [done|by intros ? ?%not_elem_of_nil]].
    split; [by right|]. split; [intros s' [= ->]; lia|by intros ? ?%not_elem_of_nil].
  - destruct (in_range f v && (apply_step f v <=? f_end f)) eqn:Eh.
    { unbool. left. exists f. split; [by left|]. auto. }
    assert (Hmiss : in_range f v = true -> f_end f < apply_step f v).
    { intros Hi. rewrite Hi in Eh. cbn [andb] in Eh. unbool. lia. }
    match goal with |- context [nearest_loop chain v ?e] => set (fn' := e) end. destruct (IH fn') as [(g & Hg & Hi & He & E)|[Hno Hr]].
    { left. exists g. split; [by right|auto]. }
    right. split. { intros g [->|Hg]%elem_of_cons; auto. }
    assert (Hfn' : (v < f_start f /\ fn' = Some (f_start f) /\ forall s, fn = Some s -> f_start f < s) \/
                   (fn' = fn /\ (v < f_start f -> exists s, fn = Some s /\ s <= f_start f))).
    { unfold fn'. destruct (Z.ltb_spec v (f_start f)); cbn [andb]; [|right; split; [done|lia]].
      destruct fn as [s|]; [|left; repeat split; [lia|done]].
      destruct (Z.ltb_spec (f_start f) s); [left; split; [done|]; split; [done|]; intros s' [= <-]; done|right; split; [done|intros _; exists s; split; [done|lia]]]. }
    destruct (nearest_loop chain v fn') as [r|].
    + destruct Hr as (Hsrc & Hle & Hall). split; [|split].
      * destruct Hsrc as [(g & Hg & Es)|Es]; [left; exists g; split; [by right|done]|].
        destruct Hfn' as [(Hv & Es' & _)|[Es' _]]; [|right; congruence]. left. exists f. rewrite Es' in Es. injection Es as <-. split; [by left|done].
      * intros s Es. destruct Hfn' as [(Hv & Es' & Hs)|[Es' _]]; [|apply Hle; congruence]. specialize (Hle _ Es'). specialize (Hs s Es). lia.
      * intros g [->|Hg]%elem_of_cons Hv; [|auto]. destruct Hfn' as [(_ & Es' & _)|[Es' Hs]]; [by apply Hle|].
        destruct (Hs Hv) as (s & Es & ?). specialize (Hle s ltac:(congruence)). lia.
    + destruct Hr as [E Hall]. destruct Hfn' as [(_ & Es' & _)|[Es' Hs]]; [congruence|]. split; [congruence|].
      intros g [->|Hg]%elem_of_cons; [|auto]. intros Hv. destruct (Hs Hv) as (s & ? & _). congruence.
Qed.

Definition finds_least (P : Z -> Prop) (v : Z) (r : option Z) : Prop :=
  match r with Some r => least P v r | None => forall w, P w -> ~ v <= w end.

(** In a clean chain the nearest value is the least one. *)
Lemma nearest_filter_ok min max chain v : wf_chain min max chain -> clean chain ->
  finds_least (in_chain chain) v (scheduler_get_nearest_filter_value chain v).
Proof.
  intros Hwf Hc. unfold scheduler_get_nearest_filter_value. pose proof (proj1 (Forall_forall _ _) Hwf) as Hf.
  destruct (nearest_loop_ok min max chain v None Hwf) as [(f & Hin & Hi & He & ->)|[Hno Hr]].
  - destruct (proj1 (filter_hit min max f v (Hf f Hin) Hi) He) as (Hp & Hle & Hleast). split; [apply Exists_exists; eauto|]. split; [done|].
    intros w (g & Hg & Hw)%Exists_exists Hvw. unfold in_range in Hi. unbool. destruct (Hc f g Hin Hg) as [->|[Hd|[Hd|[Hs _]]]].
    + by apply Hleast.
    + destruct Hw. lia.
    + destruct Hw. lia.
    + enough (apply_step f v = v) by lia. unfold apply_step. by rewrite Hs, Z.rem_1_r.
  - assert (Habove : forall w, in_chain chain w -> v <= w -> exists g, g ∈ chain /\ v < f_start g <= w).
    { intros w (g & Hg & Hw)%Exists_exists Hvw. exists g. split; [done|]. destruct (Z.lt_ge_cases v (f_start g)) as [?|Hge]; [destruct Hw; lia|].
      assert (Hi : in_range g v = true) by (unfold in_range; destruct Hw; rewrite andb_true_iff, !Z.leb_le; lia).
      destruct (proj2 (filter_hit min max g v (Hf g Hg) Hi) (Hno g Hg Hi) w Hw Hvw). }
    destruct (nearest_loop chain v None) as [r|].
    + destruct Hr as ([(f & Hin & <- & Hv)|?] & _ & Hall); [|done]. split; [apply Exists_exists; eauto using filter_start|]. split; [lia|].
      intros w Hw Hvw. destruct (Habove w Hw Hvw) as (g & Hg & ?). specialize (Hall g Hg ltac:(lia)). lia.
    + destruct Hr as [_ Hall]. intros w Hw Hvw. destruct (Habove w Hw Hvw) as (g & Hg & ?). apply (Hall g Hg). lia.
Qed.

Lemma in_chain_bounds min max chain v : wf_chain min max chain -> in_chain chain v -> min <= v <= max.
Proof. intros Hwf (f & Hf & [Hr _])%Exists_exists. destruct (proj1 (Forall_forall _ _) Hwf f Hf) as (? & ? & _). lia. Qed.

(** The check of one field. *)
Lemma unit_nextcheck_ok chain iv_level level max v : wf_chain 0 max chain -> clean chain -> 0 <= v -> 0 <= max ->
  finds_least (fun w => 0 <= w <= max /\ unit_ok chain iv_level level w) v (unit_nextcheck chain iv_level level max v).
Proof.
  intros Hwf Hc Hv Hmax. unfold unit_nextcheck. destruct (Z.ltb_spec max v); [intros w; lia|]. destruct chain as [|f chain'] eqn:E.
  - unfold unit_ok. destruct (Z.ltb_spec level iv_level); [refine (conj _ (conj _ _)); lia|].
    destruct (Z.eqb_spec v 0); [refine (conj _ (conj _ _)); lia|]. intros w. lia.
  - rewrite <- E in *. assert (Eu : forall w, unit_ok chain iv_level level w <-> in_chain chain w) by (intros w; by rewrite E).
    pose proof (nearest_filter_ok 0 max chain v Hwf Hc) as H'. destruct (scheduler_get_nearest_filter_value chain v) as [r|].
    + destruct H' as (Hr & Hle & Hl). pose proof (in_chain_bounds 0 max chain r Hwf Hr). split; [rewrite Eu; auto|]. split; [done|].
      intros w [_ Hw]. rewrite Eu in Hw. by apply Hl.
    + intros w [_ Hw]. rewrite Eu in Hw. by apply H'.
Qed.

(** ** Days *)

(** The length of the month that the day filters work with. *)
Definition month_proper (iv : zbx_scheduler_interval_t) (t : tm) : Prop :=
  (mdays iv = [] /\ wdays iv = []) \/ zbx_day_in_month (tm_year t + 1970) (tm_mon t + 1) = tm_days t.

(** The first day of the month from the present one on, or none. *)
Definition day_found (iv : zbx_scheduler_interval_t) (t : tm) (out : bool * tm) : Prop :=
  exists d, snd out = set_mday t d /\
    if fst out then
      tm_mday t <= d <= tm_days t /\ day_ok iv (set_mday t d) /\
      forall e, tm_mday t <= e <= tm_days t -> day_ok iv (set_mday t e) -> d <= e
    else forall e, tm_mday t <= e <= tm_days t -> ~ day_ok iv (set_mday t e).

Lemma dayofweek_set t e : valid_month t -> 1 <= tm_mday t -> tm_mday t <= e ->
  1 <= tm_dayofweek t <= 7 /\ tm_dayofweek (set_mday t e) = (tm_dayofweek t - 1 + (e - tm_mday t)) mod 7 + 1.
Proof.
  intros Hm Hd He. rewrite (dayofweek_ok t Hm Hd), (dayofweek_ok (set_mday t e) Hm ltac:(tm_cbn; lia)), daynum_set_mday.
  split; [pose proof (Z.mod_pos_bound (daynum t + 3) 7); lia|]. dlia.
Qed.

Lemma chain_first chain : wf_chain 1 7 chain -> chain <> [] -> exists v, in_chain chain v /\ 1 <= v.
Proof.
  intros Hwf Hn. destruct Hwf as [|f chain Hf _]; [done|]. exists (f_start f). split; [|destruct Hf; lia].
  constructor. by eapply filter_start.
Qed.

Lemma wday_nextcheck_ok iv t : wf_interval iv -> searchable iv -> valid_month t -> 1 <= tm_mday t <= tm_days t -> mdays iv = [] -> month_proper iv t ->
  day_found iv t (scheduler_get_wday_nextcheck iv t).
Proof.
  intros (_ & Hwf & _) (_ & Hc & _) Hm Hd Emd Hp. unfold scheduler_get_wday_nextcheck, day_found.
  destruct (wdays iv) as [|w0 ws] eqn:Ew.
  { exists (tm_mday t). cbn [fst snd]. split; [by destruct t|]. split; [lia|]. split; [|lia]. split; by rewrite ?Emd, ?Ew. }
  rewrite <- Ew in *. assert (Hne : wdays iv <> []) by (by rewrite Ew).
  assert (Hok : forall e, day_ok iv (set_mday t e) <-> in_chain (wdays iv) (tm_dayofweek (set_mday t e))) by (intros e; unfold day_ok; rewrite Emd; naive_solver).
  destruct Hp as [[_ ?]|Hp]; [done|]. set (n := tm_dayofweek t).
  assert (Hdow : forall e, tm_mday t <= e -> 1 <= n <= 7 /\ tm_dayofweek (set_mday t e) = (n - 1 + (e - tm_mday t)) mod 7 + 1)
    by (intros e He; apply dayofweek_set; [done|lia|done]).
  assert (Hfin : forall d, tm_mday t <= d -> in_chain (wdays iv) (tm_dayofweek (set_mday t d)) ->
    (forall e, tm_mday t <= e -> in_chain (wdays iv) (tm_dayofweek (set_mday t e)) -> d <= e) ->
    let out := (d <=? tm_days t, set_mday t d) in
    exists d, snd out = set_mday t d /\
      if fst out then tm_mday t <= d <= tm_days t /\ day_ok iv (set_mday t d) /\
        forall e, tm_mday t <= e <= tm_days t -> day_ok iv (set_mday t e) -> d <= e
      else forall e, tm_mday t <= e <= tm_days t -> ~ day_ok iv (set_mday t e)).
  { intros d Hle Hin Hl out. exists d. split; [done|]. cbn [out fst snd]. destruct (Z.leb_spec d (tm_days t)).
    - split; [lia|]. split; [exact (proj2 (Hok d) Hin)|]. intros e He Heok. apply Hl; [lia|exact (proj1 (Hok e) Heok)].
    - intros e He Heok%Hok. specialize (Hl e ltac:(lia) Heok). lia. }
  destruct (Hdow (tm_mday t) ltac:(lia)) as [Hn _]. pose proof (nearest_filter_ok 1 7 (wdays iv) n Hwf Hc) as Hnear.
  destruct (scheduler_get_nearest_filter_value (wdays iv) n) as [v|].
  - destruct Hnear as (Hv & Hge & Hl). pose proof (in_chain_bounds 1 7 _ v Hwf Hv). tm_cbn. rewrite Hp. apply Hfin; [lia| |].
    + rewrite (proj2 (Hdow (tm_mday t + (v - n)) ltac:(lia))). replace ((n - 1 + (tm_mday t + (v - n) - tm_mday t)) mod 7 + 1) with v by dlia. done.
    + intros e He Hin. rewrite (proj2 (Hdow e He)) in Hin. destruct (Z.lt_ge_cases (e - tm_mday t) (8 - n)); [|lia].
      specialize (Hl _ Hin ltac:(dlia)). replace ((n - 1 + (e - tm_mday t)) mod 7) with (n - 1 + (e - tm_mday t)) in Hl by dlia. lia.
  - pose proof (nearest_filter_ok 1 7 (wdays iv) 1 Hwf Hc) as Hnear1. destruct (scheduler_get_nearest_filter_value (wdays iv) 1) as [v|].
    2: { destruct (chain_first _ Hwf Hne) as (v & Hv & H1). by destruct (Hnear1 v Hv). }
    destruct Hnear1 as (Hv & Hge & Hl). pose proof (in_chain_bounds 1 7 _ v Hwf Hv). tm_cbn. rewrite Hp.
    change (set_mday ?a ?b) with (set_mday t b). apply Hfin; [lia| |].
    + rewrite (proj2 (Hdow (tm_mday t + (7 - n + 1) + (v - 1)) ltac:(lia))).
      replace ((n - 1 + (tm_mday t + (7 - n + 1) + (v - 1) - tm_mday t)) mod 7 + 1) with v by dlia. done.
    + intros e He Hin. rewrite (proj2 (Hdow e He)) in Hin. destruct (Z.lt_ge_cases (e - tm_mday t) (8 - n)).
      { destruct (Hnear _ Hin). dlia. }
      destruct (Z.lt_ge_cases (e - tm_mday t) (15 - n)); [|lia]. specialize (Hl _ Hin ltac:(dlia)).
      replace ((n - 1 + (e - tm_mday t)) mod 7) with (n - 1 + (e - tm_mday t) - 7) in Hl by dlia. lia.
Qed.

Lemma validate_wday_ok iv t : Forall (fun f => f_step f = 1) (wdays iv) -> scheduler_validate_wday_filter iv t = true <->
  (wdays iv <> [] -> in_chain (wdays iv) (tm_dayofweek t)).
Proof.
  intros Hs. unfold scheduler_validate_wday_filter. destruct (wdays iv) as [|w0 ws] eqn:E; [naive_solver|]. rewrite <- E in *.
  assert (Hne : wdays iv <> []) by (by rewrite E). rewrite existsb_exists. unfold in_chain. rewrite Exists_exists.
  assert (Hf : forall f, f ∈ wdays iv -> in_range f (tm_dayofweek t) && (apply_step f (tm_dayofweek t) <=? f_end f) = true <-> in_filter f (tm_dayofweek t)).
  { intros f Hf. rewrite Forall_forall in Hs. unfold apply_step, in_range, in_filter. rewrite (Hs f Hf), Z.rem_1_r, Z.mod_1_r. change (0 =? 0) with true. cbn match.
    rewrite !andb_true_iff, !Z.leb_le. lia. }
  split; [intros (f & Hin%list_elem_of_In & Hx) _|intros H; destruct (H Hne) as (f & Hin & Hx)]; exists f.
  - split; [done|]. by apply Hf.
  - split; [by apply list_elem_of_In|]. by apply Hf.
Qed.

Lemma mday_loop_ok fuel iv t : wf_interval iv -> searchable iv -> mdays iv <> [] -> month_proper iv t -> tm_mday t <= 31 ->
  (Z.to_nat (31 - tm_mday t) < fuel)%nat -> day_found iv t (mday_loop fuel iv t).
Proof.
  intros Hwf Hs Hne Hp. pose proof Hwf as (Hmd & _). pose proof Hs as (Hc & _ & _ & _ & _ & Hstep).
  destruct Hp as [[? _]|Hp]; [done|]. revert t Hp. induction fuel as [|fuel IH]; intros t Hp H31 Hf; [lia|]. cbn [mday_loop].
  pose proof (nearest_filter_ok 1 31 (mdays iv) (tm_mday t) Hmd Hc) as Hnear.
  destruct (scheduler_get_nearest_filter_value (mdays iv) (tm_mday t)) as [m|].
  2: { exists (tm_mday t). split; [by destruct t|]. cbn [fst]. intros e He [Hin _]. destruct (Hnear e (Hin Hne)). lia. }
  destruct Hnear as (Hm & Hge & Hl). pose proof (in_chain_bounds 1 31 _ m Hmd Hm). tm_cbn. rewrite Hp.
  assert (Hfirst : forall e, tm_mday t <= e -> day_ok iv (set_mday t e) -> m <= e) by (intros e He [Hin _]; apply Hl; [by apply Hin|done]).
  destruct (Z.ltb_spec (tm_days t) m).
  { exists m. split; [done|]. cbn [fst]. intros e He Hok. specialize (Hfirst e ltac:(lia) Hok). lia. }
  pose proof (validate_wday_ok iv (set_mday t m) (Hstep Hne)) as Hv. destruct (scheduler_validate_wday_filter iv (set_mday t m)).
  { exists m. split; [done|]. cbn [fst]. split; [lia|]. split; [|intros; apply Hfirst; [lia|done]]. split; [done|]. by apply Hv. }
  assert (Hnext : forall e, tm_mday t <= e -> day_ok iv (set_mday t e) -> m + 1 <= e).
  { intros e He Hok. specialize (Hfirst e He Hok). destruct (Z.eq_dec e m) as [->|]; [|lia]. destruct Hok as [_ Hok].
    apply Hv in Hok. done. }
  destruct (Z.ltb_spec (tm_days t) (m + 1)).
  { exists (m + 1). split; [done|]. cbn [fst]. intros e He Hok. specialize (Hnext e ltac:(lia) Hok). lia. }
  assert (tm_days t <= 31) by (apply day_in_month_bounds).
  destruct (IH (set_mday t (m + 1))) as (d & Ed & Hd); [done|tm_cbn; lia|tm_cbn; lia|].
  exists d. split; [exact Ed|]. change (set_mday (set_mday t (m + 1)) d) with (set_mday t d) in Hd.
  change (set_mday (set_mday t (m + 1)) (tm_mday t + 1)) with (set_mday t (tm_mday t + 1)) in *.
  change (tm_days (set_mday t (m + 1))) with (tm_days t) in Hd. change (tm_mday (set_mday t (m + 1))) with (m + 1) in Hd.
  destruct (fst _).
  - destruct Hd as (Hr & Hok & Hmin). split; [lia|]. split; [done|]. intros e He Heok. apply Hmin; [|done].
    specialize (Hnext e ltac:(lia) Heok). lia.
  - intros e He Heok. specialize (Hnext e ltac:(lia) Heok). apply (Hd e); [lia|done].
Qed.

Lemma day_nextcheck_ok iv t : wf_interval iv -> searchable iv -> valid_month t -> 70 <= tm_year t <= 137 -> 1 <= tm_mday t -> valid_clock t ->
  month_proper iv t -> day_found iv t (scheduler_get_day_nextcheck iv t).
Proof.
  intros Hwf Hs Hm Hy Hd Hc Hp. unfold scheduler_get_day_nextcheck. destruct (Z.lt_ge_cases (tm_days t) (tm_mday t)) as [Hlt|Hge].
  - rewrite utc_time_date by (done || lia). exists (tm_mday t). split; [by destruct t|]. cbn [fst]. intros e He. lia.
  - rewrite utc_time_ok by (done || lia). destruct (mdays iv) as [|m0 ms] eqn:E.
    + by apply wday_nextcheck_ok.
    + assert (tm_days t <= 31) by (apply day_in_month_bounds). apply mday_loop_ok; [done|done|by rewrite E|done|lia|lia].
Qed.

(** From month number [a] to [b] the day filters know the length of months:
    they take the length of February from the year 70 years later. *)
Definition months_agree (iv : zbx_scheduler_interval_t) (a b : Z) : Prop :=
  (mdays iv = [] /\ wdays iv = []) \/ forall k, a <= k <= b -> month_days (k + 12 * 70) = month_days k.

Lemma months_proper iv a b t : months_agree iv a b -> valid_month t -> a <= month_of t <= b -> month_proper iv t.
Proof.
  intros [Hn|Ha] Hm Hk; [by left|]. right. rewrite (tm_days_month t Hm), <- (Ha _ Hk). unfold month_days.
  destruct (month_of_div t Hm) as [E1 E2]. replace ((month_of t + 12 * 70) / 12) with (month_of t / 12 + 70) by dlia.
  replace ((month_of t + 12 * 70) mod 12) with (month_of t mod 12) by dlia. rewrite E1, E2. f_equal. lia.
Qed.

Definition next_month (t : tm) : tm :=
  let t := set_mon t (tm_mon t + 1) in
  set_mday (if 11 <? tm_mon t then set_year (set_mon t 0) (tm_year t + 1) else t) 1.

Lemma next_month_ok t d : valid_month t ->
  let u := next_month (set_mday t d) in
  valid_month u /\ month_of u = month_of t + 1 /\ tm_mday u = 1 /\ same_clock u t.
Proof.
  unfold valid_month, month_of, same_clock, next_month. intros Hm. tm_cbn. destruct (Z.ltb_spec 11 (tm_mon t + 1)); tm_cbn; lia.
Qed.

(** [r] is the first state from [t] on, in the order of the measure [C]. *)
Definition finds (C : tm -> Z) (good : tm -> Prop) (t r : tm) : Prop :=
  good r /\ C t <= C r /\ forall y, good y -> C t <= C y -> C r <= C y.

Definition good_day (iv : zbx_scheduler_interval_t) (t : tm) : Prop := valid_date t /\ day_ok iv t.

(** The same date as another time, but for the day of the month. *)
Lemma same_month a b : valid_month a -> valid_month b -> month_of a = month_of b -> tm_dayofweek a = tm_dayofweek (set_mday b (tm_mday a)) /\ tm_days a = tm_days b.
Proof.
  intros Ha Hb E. destruct (month_of_same a b Ha Hb E) as [Ey Em]. unfold tm_dayofweek, tm_days. tm_cbn. by rewrite Ey, Em.
Qed.

Lemma day_ok_same iv a b : valid_month a -> valid_month b -> month_of a = month_of b -> day_ok iv a -> day_ok iv (set_mday b (tm_mday a)).
Proof. intros Ha Hb E [H1 H2]. destruct (same_month a b Ha Hb E) as [Ew _]. split; [done|]. by rewrite <- Ew. Qed.

Section search.
Context (iv : zbx_scheduler_interval_t) (Hwf : wf_interval iv) (Hs : searchable iv).

(** A time that matches, and that the search can reach. *)
Context (x : tm) (Hx70 : tm_year x <= 137).

Definition start_ok (t : tm) : Prop := valid_month t /\ 70 <= tm_year t /\ 1 <= tm_mday t <= tm_days t + 1 /\ months_agree iv (month_of t) (month_of x).

Lemma start_month t : start_ok t -> valid_date x -> daynum t <= daynum x -> month_of t <= month_of x.
Proof.
  intros (Hm & _ & Hd & _) Hx Hle. destruct (Z.le_gt_cases (month_of t) (month_of x)) as [?|Hgt]; [done|].
  pose proof (daynum_months x t Hx Hm ltac:(lia) ltac:(lia)). lia.
Qed.

Lemma day_loop_ok fuel t : good_day iv x -> start_ok t -> valid_clock t -> daynum t <= daynum x ->
  (Z.to_nat (month_of x - month_of t) < fuel)%nat ->
  exists r, day_loop fuel iv t = Ret r /\ finds daynum (good_day iv) t r /\ same_clock r t /\ month_of t <= month_of r.
Proof.
  intros Hx. revert t. induction fuel as [|fuel IH]; intros t Ht Hc Hle Hf; [lia|].
  pose proof (start_month t Ht (proj1 Hx) Hle) as Hk. destruct Ht as (Hm & Hy & Hd & Ha).
  assert (Hy2 : tm_year t <= 137) by (destruct Hx as [[[_ ?] _] _], Hm; unfold month_of in Hk; lia).
  pose proof (day_nextcheck_ok iv t Hwf Hs Hm ltac:(lia) ltac:(lia) Hc (months_proper iv _ _ t Ha Hm ltac:(lia))) as (d & Ed & Hres).
  cbn [day_loop]. change (scheduler_get_filter_nextcheck iv ZBX_SCHEDULER_FILTER_DAY t) with (scheduler_get_day_nextcheck iv t).
  destruct (scheduler_get_day_nextcheck iv t) as [ok r0]. cbn [fst snd] in Ed, Hres. subst r0.
  assert (Hin : forall y, good_day iv y -> month_of y = month_of t -> daynum t <= daynum y ->
    tm_mday t <= tm_mday y <= tm_days t /\ day_ok iv (set_mday t (tm_mday y))).
  { intros y [[Hym Hyd] Hyok] E Hyle. rewrite (daynum_month t Hm), (daynum_month y Hym), E in Hyle.
    destruct (same_month y t Hym Hm E) as [_ Edays]. split; [lia|]. by apply day_ok_same. }
  assert (Hlow : forall y, good_day iv y -> daynum t <= daynum y -> month_of t <= month_of y).
  { intros y Hy' Hyle. destruct (Z.le_gt_cases (month_of t) (month_of y)) as [?|Hgt]; [done|].
    pose proof (daynum_months y t (proj1 Hy') Hm ltac:(lia) ltac:(lia)). lia. }
  destruct ok.
  - destruct Hres as (Hrange & Hok & Hmin). exists (set_mday t d). split; [done|]. split; [|split; [done|done]].
    split; [split; [split; [done|tm_cbn; change (tm_days (set_mday t d)) with (tm_days t); lia]|done]|].
    split; [rewrite daynum_set_mday; lia|]. intros y Hy' Hyle. pose proof (Hlow y Hy' Hyle) as Hyk. rewrite daynum_set_mday.
    destruct (Z.eq_dec (month_of y) (month_of t)) as [E|].
    + destruct (Hin y Hy' E Hyle) as [Hr Hyok]. specialize (Hmin _ Hr Hyok).
      rewrite (daynum_month y (proj1 (proj1 Hy'))), E. rewrite (daynum_month t Hm). lia.
    + pose proof (daynum_months (set_mday t d) y) as Hmon. rewrite daynum_set_mday in Hmon.
      destruct Hy' as [[Hym Hyd] _]. enough (daynum t + d - tm_mday t < daynum y) by lia. apply Hmon; [|done|lia|].
      * split; [done|]. tm_cbn. change (tm_days (set_mday t d)) with (tm_days t). lia.
      * change (month_of (set_mday t d)) with (month_of t). lia.
  - change (set_mday (if 11 <? _ then _ else _) 1) with (next_month (set_mday t d)).
    destruct (next_month_ok t d Hm) as (Hm' & Ek & Emd & Hc'). set (u := next_month (set_mday t d)) in *.
    assert (Enu : daynum u = month_start (month_of t) + month_days (month_of t)).
    { rewrite (daynum_month u Hm'), Ek, Emd, month_start_succ by (by apply month_of_lower). lia. }
    assert (Hskip : forall y, good_day iv y -> daynum t <= daynum y -> daynum u <= daynum y).
    { intros y Hy' Hyle. pose proof (Hlow y Hy' Hyle). destruct (Z.eq_dec (month_of y) (month_of t)) as [E|].
      - destruct (Hin y Hy' E Hyle) as [Hr Hyok]. destruct (Hres _ Hr Hyok).
      - rewrite Enu. pose proof (month_start_mono (month_of t) (month_of y) (month_of_lower t Hm) ltac:(lia)).
        pose proof (valid_date_days y (proj1 Hy')). lia. }
    pose proof (Hskip x Hx Hle) as Hxu.
    assert (Hku : month_of u <= month_of x).
    { destruct (Z.le_gt_cases (month_of u) (month_of x)) as [?|Hgt]; [done|].
      pose proof (daynum_months x u (proj1 Hx) Hm' ltac:(lia) ltac:(lia)). lia. }
    destruct (IH u) as (r & Er & (Hgr & Hler & Hminr) & Hcr & Hkr).
    + unfold start_ok. split; [done|]. pose proof (month_days_bounds (month_of u)). rewrite (tm_days_month u Hm').
      split; [unfold month_of, valid_month in *; lia|]. split; [lia|].
      destruct Ha as [?|Ha]; [by left|right]. intros k Hk'. apply Ha. lia.
    + unfold same_clock, valid_clock in *. lia.
    + done.
    + lia.
    + exists r. split; [done|]. split; [|split; [unfold same_clock in *; intuition congruence|lia]]. split; [done|].
      assert (daynum t <= daynum u) by (rewrite Enu, (daynum_month t Hm); rewrite (tm_days_month t Hm) in Hd; lia).
      split; [lia|]. intros y Hy' Hyle. apply Hminr; [done|]. by apply Hskip.
Qed.

Definition zero_clock (t : tm) : Prop := tm_hour t = 0 /\ tm_min t = 0 /\ tm_sec t = 0.
Definition same_date (a b : tm) : Prop := tm_year a = tm_year b /\ tm_mon a = tm_mon b /\ tm_mday a = tm_mday b.

Lemma apply_day_ok t : good_day iv x -> start_ok t -> valid_clock t -> daynum t <= daynum x ->
  exists r, scheduler_apply_day_filter iv t = Ret r /\ finds daynum (good_day iv) t r /\ tm_isdst r = tm_isdst t /\ month_of t <= month_of r /\
    ((same_date r t /\ same_clock r t) \/ (~ same_date r t /\ zero_clock r)).
Proof.
  intros Hx Ht Hc Hle. destruct (day_loop_ok month_fuel t Hx Ht Hc Hle) as (r & Er & Hf & Hcr & Hk).
  { pose proof (start_month t Ht (proj1 Hx) Hle). destruct Ht as ([_ Hmt] & Hy & _), Hx as [[[_ Hmx] _] _]. unfold month_fuel, month_of in *. lia. }
  unfold scheduler_apply_day_filter. rewrite Er. cbn [mbind res_mbind]. eexists. split; [reflexivity|].
  destruct (negb _ || negb _ || negb _) eqn:Ech.
  - split; [done|]. split; [apply Hcr|]. split; [done|]. right. split; [|done].
    intros (Ey & Em & Ed). tm_cbn in *. by rewrite Ey, Em, Ed, !Z.eqb_refl in Ech.
  - unbool. split; [done|]. split; [apply Hcr|]. split; [done|]. left. done.
Qed.

(** *** One level *)

Section level.
Context (level max : Z) (chain : list zbx_scheduler_filter_t) (get : tm -> Z) (set : tm -> Z -> tm) (C : tm -> Z) (good K : tm -> Prop).
Context (Hget : forall t v, get (set t v) = v) (HC : forall t v, C (set t v) = C t) (Hgood : forall t v, good t -> good (set t v)) (HK : forall t v, K t -> K (set t v)).
Context (Hcheck : forall t, scheduler_get_filter_nextcheck iv level t = on_field t set (unit_nextcheck chain (filter_level iv) level max (get t))).
Context (Hch : wf_chain 0 max chain) (Hcl : clean chain) (Hmax : 0 <= max).

Definition field_ok (t : tm) : Prop := 0 <= get t <= max /\ unit_ok chain (filter_level iv) level (get t).
Definition finer (t : tm) : Z := C t * (max + 1) + get t.
Definition good_field (t : tm) : Prop := good t /\ field_ok t.

Lemma finer_le a b : 0 <= get a <= max + 1 -> 0 <= get b <= max -> finer a <= finer b <-> C a < C b \/ (C a = C b /\ get a <= get b).
Proof. unfold finer. intros. nia. Qed.

(** The search of a level, given the one of the level above ([next]). *)
Lemma level_search next t : good t -> K t -> 0 <= get t <= max + 1 -> good_field x -> finer t <= finer x ->
  (C t + 1 <= C x -> exists r, next t = Ret r /\ good r /\ K r /\ get r = 0 /\ C t + 1 <= C r /\ forall y, good y -> C t + 1 <= C y -> C r <= C y) ->
  exists r, level_loop 3 iv level next t = Ret r /\ finds finer good_field t r /\ K r /\
    ((exists v, r = set t v) \/ (get r <> get t /\ C t < C r)).
Proof.
  intros Ht HKt Hr [Hx Hxok] Hle Hnext. cbn [level_loop]. rewrite Hcheck.
  pose proof (unit_nextcheck_ok chain (filter_level iv) level max (get t) Hch Hcl ltac:(lia) Hmax) as Hu.
  destruct (unit_nextcheck chain (filter_level iv) level max (get t)) as [v|]; cbn [on_field].
  - destruct Hu as (Hv & Hge & Hl). exists (set t v). split; [done|]. split; [|split; [by apply HK|left; eauto]].
    split; [split; [by apply Hgood|unfold field_ok; by rewrite Hget]|].
    split; [apply finer_le; rewrite ?Hget, ?HC; [lia|destruct Hv; lia|lia]|].
    intros y [Hy Hyok] Hyle. apply finer_le in Hyle; [|lia|apply Hyok]. apply finer_le; rewrite ?Hget, ?HC; [destruct Hv; lia|apply Hyok|].
    destruct Hyle as [?|[E Hyv]]; [by left|right]. split; [done|]. by apply Hl.
  - assert (Hup : forall y, good_field y -> finer t <= finer y -> C t + 1 <= C y).
    { intros y [Hy Hyok] Hyle. apply finer_le in Hyle; [|lia|apply Hyok]. destruct Hyle as [?|[_ Hyv]]; [lia|]. by destruct (Hu (get y) Hyok). }
    destruct (Hnext (Hup x (conj Hx Hxok) Hle)) as (r1 & En & Hg1 & HK1 & E0 & HC1 & Hmin). rewrite En. cbn [mbind res_mbind level_loop].
    rewrite Hcheck, E0. pose proof (unit_nextcheck_ok chain (filter_level iv) level max 0 Hch Hcl ltac:(lia) Hmax) as Hu0.
    destruct (unit_nextcheck chain (filter_level iv) level max 0) as [v|]; cbn [on_field].
    2: { destruct (Hu0 (get x) Hxok). apply Hxok. }
    destruct Hu0 as (Hv & Hge & Hl). exists (set r1 v). split; [done|]. split; [|split; [by apply HK|]].
    + split; [split; [by apply Hgood|unfold field_ok; by rewrite Hget]|].
      split; [apply finer_le; rewrite ?Hget, ?HC; [lia|destruct Hv; lia|lia]|].
      intros y Hy Hyle. pose proof (Hmin y (proj1 Hy) (Hup y Hy Hyle)). destruct Hy as [Hy Hyok].
      apply finer_le; rewrite ?Hget, ?HC; [destruct Hv; lia|apply Hyok|]. destruct (Z.eq_dec (C r1) (C y)) as [E|]; [right|left; lia].
      split; [done|]. apply Hl; [done|apply Hyok].
    + right. rewrite Hget, HC. split; [|lia]. intros ->. by destruct (Hu (get t) Hv).
Qed.
End level.

(** *** The levels *)

Definition good_hour : tm -> Prop := good_field 2 23 (hours iv) tm_hour (good_day iv).
Definition hournum : tm -> Z := finer 23 tm_hour daynum.
Definition good_min : tm -> Prop := good_field 3 59 (minutes iv) tm_min good_hour.
Definition minnum : tm -> Z := finer 59 tm_min hournum.
Definition good_sec : tm -> Prop := good_field 4 59 (seconds iv) tm_sec good_min.

Lemma secs_finer t : secs t = finer 59 tm_sec minnum t.
Proof. unfold secs, finer, minnum, finer, hournum, finer. lia. Qed.

Definition reach (t : tm) : Prop := 12 * 1970 <= month_of t /\ months_agree iv (month_of t) (month_of x).

Lemma reach_later a b : valid_date a -> valid_date b -> daynum a <= daynum b -> reach a -> reach b.
Proof.
  intros Ha Hb Hle [H1 H2]. pose proof (daynum_month_le a b Ha Hb Hle). split; [lia|]. destruct H2 as [?|H2]; [by left|right].
  intros k Hk. apply H2. lia.
Qed.

Lemma reach_start t : valid_date t -> reach t -> start_ok (set_hour (set_mday t (tm_mday t + 1)) 0).
Proof.
  intros [Hm Hd] [H1 H2]. unfold start_ok. split; [done|]. split; [unfold valid_month, month_of in *; tm_cbn; lia|]. split; [tm_cbn|done].
  change (tm_days (set_hour (set_mday t (tm_mday t + 1)) 0)) with (tm_days t). lia.
Qed.

Definition small (v : Z) : Prop := 0 <= v <= 59.

Lemma apply_hour_ok t : good_day iv t -> reach t -> 0 <= tm_hour t <= 24 -> small (tm_min t) -> small (tm_sec t) -> good_hour x -> hournum t <= hournum x ->
  exists r, scheduler_apply_hour_filter iv t = Ret r /\ finds hournum good_hour t r /\ tm_isdst r = tm_isdst t /\
    ((hournum r = hournum t /\ tm_min r = tm_min t /\ tm_sec r = tm_sec t) \/ ((tm_hour t <= 23 -> hournum t < hournum r) /\ tm_min r = 0 /\ tm_sec r = 0)).
Proof.
  intros Ht Hr Hh Hmi Hse Hx Hle. destruct Hwf as (_ & _ & Hw & _), Hs as (_ & _ & Hc & _).
  set (next := fun t => scheduler_apply_day_filter iv (set_hour (set_mday t (tm_mday t + 1)) 0)).
  destruct (level_search 2 23 (hours iv) tm_hour set_hour daynum (good_day iv) (fun r => tm_isdst r = tm_isdst t)) with (next := next) (t := t)
    as (r & Er & Hf & HK & Ho); try done; try lia.
  { intros Hlex. assert (En : daynum (set_hour (set_mday t (tm_mday t + 1)) 0) = daynum t + 1).
    { change (daynum (set_hour ?a 0)) with (daynum a). rewrite daynum_set_mday. lia. }
    destruct (apply_day_ok (set_hour (set_mday t (tm_mday t + 1)) 0)) as (r & Er & (Hg & Hge & Hmin) & Hds & _ & Hcl).
    - apply Hx.
    - by apply reach_start; [apply Ht|].
    - unfold valid_clock, small in *. tm_cbn. lia.
    - rewrite En. lia.
    - rewrite En in Hge, Hmin. exists r. split; [done|]. split; [done|]. split; [done|]. split; [|split; [lia|done]].
      destruct Hcl as [[_ (Hh' & _)]|[_ (Hh' & _)]]; [by rewrite Hh'|done]. }
  unfold scheduler_apply_hour_filter. fold next. rewrite Er. cbn [mbind res_mbind]. eexists. split; [reflexivity|].
  destruct (Z.eqb_spec (tm_hour r) (tm_hour t)) as [E|E]; cbn [negb].
  - split; [exact Hf|]. split; [done|]. left. destruct Ho as [[v ->]|[? _]]; [|done]. tm_cbn in *. subst v. done.
  - split; [exact Hf|]. split; [done|]. right. split; [|done]. intros H23. destruct Hf as ([_ [Hr' _]] & Hge & _). unfold hournum.
    change (finer 23 tm_hour daynum (set_sec (set_min r _) _)) with (finer 23 tm_hour daynum r).
    destruct Ho as [[v ->]|[_ HC]]; unfold finer in *; tm_cbn in *; change (daynum (set_hour t _)) with (daynum t) in *; lia.
Qed.

Lemma apply_minute_ok t : good_hour t -> reach t -> 0 <= tm_min t <= 60 -> small (tm_sec t) -> good_min x -> minnum t <= minnum x ->
  exists r, scheduler_apply_minute_filter iv t = Ret r /\ finds minnum good_min t r /\ tm_isdst r = tm_isdst t /\
    ((minnum r = minnum t /\ tm_sec r = tm_sec t) \/ ((tm_min t <= 59 -> minnum t < minnum r) /\ tm_sec r = 0)).
Proof.
  intros Ht Hr Hm Hse Hx Hle. destruct Hwf as (_ & _ & _ & Hw & _), Hs as (_ & _ & _ & Hc & _).
  set (next := fun t => scheduler_apply_hour_filter iv (set_min (set_hour t (tm_hour t + 1)) 0)).
  destruct (level_search 3 59 (minutes iv) tm_min set_min hournum good_hour (fun r => tm_isdst r = tm_isdst t)) with (next := next) (t := t)
    as (r & Er & Hf & HK & Ho); try done; try lia.
  { intros Hlex. assert (En : hournum (set_min (set_hour t (tm_hour t + 1)) 0) = hournum t + 1).
    { unfold hournum, finer. tm_cbn. change (daynum (set_min (set_hour t _) 0)) with (daynum t). lia. }
    destruct (apply_hour_ok (set_min (set_hour t (tm_hour t + 1)) 0)) as (r & Er & (Hg & Hge & Hmin) & Hds & Hcl).
    - apply Ht.
    - apply Hr.
    - destruct Ht as [_ [Hh _]]. tm_cbn. lia.
    - unfold small. tm_cbn. lia.
    - exact Hse.
    - apply Hx.
    - rewrite En. lia.
    - rewrite En in Hge, Hmin. exists r. split; [done|]. split; [done|]. split; [done|]. split; [|split; [lia|done]].
      destruct Hcl as [(_ & Hm' & _)|(_ & Hm' & _)]; [by rewrite Hm'|done]. }
  unfold scheduler_apply_minute_filter. fold next. rewrite Er. cbn [mbind res_mbind]. eexists. split; [reflexivity|].
  destruct (Z.eqb_spec (tm_min r) (tm_min t)) as [E|E]; cbn [negb].
  - split; [exact Hf|]. split; [done|]. left. destruct Ho as [[v ->]|[? _]]; [|done]. tm_cbn in *. subst v. done.
  - split; [exact Hf|]. split; [done|]. right. split; [|done]. intros H59. destruct Hf as ([_ [Hr' _]] & Hge & _). unfold minnum.
    change (finer 59 tm_min hournum (set_sec r _)) with (finer 59 tm_min hournum r).
    destruct Ho as [[v ->]|[_ HC]]; unfold finer in *; tm_cbn in *; change (hournum (set_min t _)) with (hournum t) in *; lia.
Qed.

Lemma apply_second_ok t : good_min t -> reach t -> small (tm_sec t) -> good_sec x -> secs t <= secs x ->
  exists r, scheduler_apply_second_filter iv t = Ret r /\ finds secs good_sec t r /\ tm_isdst r = tm_isdst t.
Proof.
  intros Ht Hr Hse Hx Hle. destruct Hwf as (_ & _ & _ & _ & Hw), Hs as (_ & _ & _ & _ & Hc & _). rewrite !secs_finer in Hle. unfold small in Hse.
  set (next := fun t => scheduler_apply_minute_filter iv (set_sec (set_min t (tm_min t + 1)) 0)).
  destruct (level_search 4 59 (seconds iv) tm_sec set_sec minnum good_min (fun r => tm_isdst r = tm_isdst t)) with (next := next) (t := t)
    as (r & Er & Hf & HK & _); try done; try lia.
  { intros Hlex. assert (En : minnum (set_sec (set_min t (tm_min t + 1)) 0) = minnum t + 1).
    { unfold minnum, finer at 1. tm_cbn. change (hournum (set_sec (set_min t _) 0)) with (hournum t). unfold finer. lia. }
    destruct (apply_minute_ok (set_sec (set_min t (tm_min t + 1)) 0)) as (r & Er & (Hg & Hge & Hmin) & Hds & Hcl).
    - apply Ht.
    - apply Hr.
    - destruct Ht as [_ [Hm _]]. tm_cbn. lia.
    - unfold small. tm_cbn. lia.
    - apply Hx.
    - rewrite En. lia.
    - rewrite En in Hge, Hmin. exists r. split; [done|]. split; [done|]. split; [done|]. split; [|split; [lia|done]].
      destruct Hcl as [(_ & Hs')|(_ & Hs')]; [by rewrite Hs'|done]. }
  exists r. split; [done|]. split; [|done]. destruct Hf as (H1 & H2 & H3). unfold finds. rewrite !secs_finer. split; [done|]. split; [done|].
  intros y. rewrite secs_finer. apply H3.
Qed.

(** A search for the coarse part is a lower bound for the whole, if what it
    resets is set to 0. *)
Lemma coarse_bound (C g : tm -> Z) (good good' : tm -> Prop) M t r :
  (forall y, good' y -> good y /\ 0 <= g y < M) -> 0 <= g t < M -> finds C good t r ->
  (C r = C t /\ g r = g t) \/ (C t < C r /\ g r = 0) -> 
  C t * M + g t <= C r * M + g r /\ forall y, good' y -> C t * M + g t <= C y * M + g y -> C r * M + g r <= C y * M + g y.
Proof.
  intros Hy Hg (_ & Hge & Hmin) Hcase. split; [destruct Hcase as [[-> ->]|[Hlt ->]]; nia|].
  intros y Hgy Hle. destruct (Hy y Hgy) as [Hgy' Hb]. assert (Hle' : C t <= C y) by nia. specialize (Hmin y Hgy' Hle').
  destruct Hcase as [[-> ->]|[_ ->]]; nia.
Qed.

Definition clock (t : tm) : Z := tm_hour t * SEC_PER_HOUR + tm_min t * SEC_PER_MIN + tm_sec t.

Lemma secs_day t : secs t = daynum t * SEC_PER_DAY + clock t.
Proof. unfold secs, clock. lia. Qed.
Lemma secs_hour t : secs t = hournum t * SEC_PER_HOUR + (tm_min t * SEC_PER_MIN + tm_sec t).
Proof. unfold secs, hournum, finer. lia. Qed.
Lemma secs_min t : secs t = minnum t * SEC_PER_MIN + tm_sec t.
Proof. unfold secs, minnum, finer, hournum, finer. lia. Qed.

Lemma good_sec_iff t : good_sec t <-> valid_time t /\ matches iv t.
Proof.
  unfold good_sec, good_min, good_hour, good_field, field_ok, good_day, valid_time, valid_clock, matches, hour_ok, min_ok, sec_ok. tauto.
Qed.

Definition sec_bound (t r : tm) : Prop := secs t <= secs r /\ forall y, good_sec y -> secs t <= secs y -> secs r <= secs y.

Lemma clock_bound t : valid_clock t -> 0 <= clock t < 86400.
Proof. unfold valid_clock, clock. lia. Qed.

Lemma good_sec_parts y : good_sec y -> valid_clock y /\ good_day iv y /\ good_hour y /\ good_min y.
Proof. intros Hy. split; [apply good_sec_iff, Hy|]. split; [apply Hy|]. split; apply Hy. Qed.

(** What a stage leaves to the next one. *)
Definition stage (good : tm -> Prop) (t : tm) (out : res tm) : Prop :=
  exists r, out = Ret r /\ good r /\ valid_clock r /\ reach r /\ tm_isdst r = tm_isdst t /\ sec_bound t r.

Lemma day_stage t : valid_time t -> reach t -> good_sec x -> secs t <= secs x -> stage (good_day iv) t (scheduler_apply_day_filter iv t).
Proof.
  intros [Hd Hc] Hr Hx Hle. pose proof (good_sec_parts x Hx) as (Hcx & Hdx & _).
  destruct (apply_day_ok t) as (r & E & Hf & Hds & _ & Ho); [done| |done| |].
  { split; [apply Hd|]. destruct Hr as [Hr ?]. split; [destruct Hd as [[_ ?] _]; unfold month_of in Hr; lia|]. destruct Hd. split; [lia|done]. }
  { pose proof (clock_bound x Hcx). pose proof (clock_bound t Hc). rewrite !secs_day in Hle. lia. }
  exists r. split; [done|]. split; [apply Hf|]. split.
  { unfold valid_clock, same_clock, zero_clock in *. destruct Ho as [[_ (-> & -> & -> & _)]|[_ (-> & -> & ->)]]; lia. }
  split; [apply (reach_later t); [done|apply Hf|apply Hf|done]|]. split; [done|].
  unfold sec_bound. rewrite !secs_day. destruct (coarse_bound daynum clock (good_day iv) good_sec 86400 t r) as [H1 H2]; [|by apply clock_bound|done| |].
  - intros y Hy. destruct (good_sec_parts y Hy) as (? & ? & _). auto using clock_bound.
  - destruct Ho as [[(E1 & E2 & E3) (C1 & C2 & C3 & _)]|[Hnd (C1 & C2 & C3)]].
    + left. unfold daynum, clock. by rewrite E1, E2, E3, C1, C2, C3.
    + right. split; [|unfold clock; by rewrite C1, C2, C3]. destruct Hf as ([Hv _] & Hge & _).
      destruct (Z.eq_dec (daynum t) (daynum r)) as [En|]; [|lia]. destruct Hnd. unfold same_date. by apply daynum_inj.
  - split; [done|]. intros y Hy. rewrite secs_day. by apply H2.
Qed.

Lemma hour_stage t : good_day iv t -> valid_clock t -> reach t -> good_sec x -> secs t <= secs x ->
  stage good_hour t (scheduler_apply_hour_filter iv t).
Proof.
  intros Ht Hc Hr Hx Hle. pose proof (good_sec_parts x Hx) as ((? & ? & ?) & _ & Hhx & _). pose proof Hc as (? & ? & ?).
  destruct (apply_hour_ok t) as (r & E & Hf & Hds & Ho); [done|done|lia|done|done|done|rewrite !secs_hour in Hle; lia|].
  exists r. split; [done|]. split; [apply Hf|]. pose proof Hf as ((Hgr & Hhr & _) & Hge & _). split.
  { split; [done|]. destruct Ho as [(_ & -> & ->)|(_ & -> & ->)]; lia. }
  split; [apply (reach_later t); [apply Ht|apply Hgr|unfold hournum, finer in Hge; lia|done]|]. split; [done|].
  unfold sec_bound. rewrite !secs_hour. destruct (coarse_bound hournum (fun t => tm_min t * 60 + tm_sec t) good_hour good_sec 3600 t r) as [H1' H2'].
  - intros y Hy. destruct (good_sec_parts y Hy) as ((? & ? & ?) & _ & ? & _). split; [done|lia].
  - lia.
  - done.
  - destruct Ho as [(? & -> & ->)|(Hlt & -> & ->)]; [by left|right]. split; [apply Hlt; lia|lia].
  - split; [done|]. intros y Hy. rewrite secs_hour. by apply H2'.
Qed.

Lemma minute_stage t : good_hour t -> valid_clock t -> reach t -> good_sec x -> secs t <= secs x ->
  stage good_min t (scheduler_apply_minute_filter iv t).
Proof.
  intros Ht Hc Hr Hx Hle. pose proof (good_sec_parts x Hx) as ((? & ? & ?) & _ & _ & Hmx). pose proof Hc as (? & ? & ?).
  destruct (apply_minute_ok t) as (r & E & Hf & Hds & Ho); [done|done|lia|done|done|rewrite !secs_min in Hle; lia|].
  exists r. split; [done|]. split; [apply Hf|]. pose proof Hf as ((Hgr & Hmr & _) & Hge & _). pose proof Hgr as (Hgd & Hhr & _). split.
  { split; [done|]. split; [done|]. destruct Ho as [(_ & ->)|(_ & ->)]; lia. }
  split; [apply (reach_later t); [apply Ht|apply Hgd|unfold minnum, finer, hournum, finer in Hge; lia|done]|]. split; [done|].
  unfold sec_bound. rewrite !secs_min. destruct (coarse_bound minnum tm_sec good_min good_sec 60 t r) as [H1' H2'].
  - intros y Hy. destruct (good_sec_parts y Hy) as ((? & ? & ?) & _ & _ & ?). split; [done|lia].
  - lia.
  - done.
  - destruct Ho as [(? & ->)|(Hlt & ->)]; [by left|right]. split; [apply Hlt; lia|done].
  - split; [done|]. intros y Hy. rewrite secs_min. by apply H2'.
Qed.

Lemma apply_filters_ok t : valid_time t -> reach t -> good_sec x -> secs t <= secs x ->
  exists r, scheduler_apply_filters iv t = Ret r /\ finds secs good_sec t r /\ tm_isdst r = tm_isdst t.
Proof.
  intros Ht Hr Hx Hle. unfold scheduler_apply_filters.
  destruct (day_stage t Ht Hr Hx Hle) as (r0 & -> & Hg0 & Hc0 & Hr0 & Hd0 & B0 & B0'). cbn [mbind res_mbind]. pose proof (B0' x Hx Hle) as Hle0.
  destruct (hour_stage r0 Hg0 Hc0 Hr0 Hx Hle0) as (r1 & -> & Hg1 & Hc1 & Hr1 & Hd1 & B1 & B1'). cbn [mbind res_mbind]. pose proof (B1' x Hx Hle0) as Hle1.
  destruct (minute_stage r1 Hg1 Hc1 Hr1 Hx Hle1) as (r2 & -> & Hg2 & Hc2 & Hr2 & Hd2 & B2 & B2'). cbn [mbind res_mbind]. pose proof (B2' x Hx Hle1) as Hle2.
  destruct (apply_second_ok r2 Hg2 Hr2 (proj2 (proj2 Hc2)) Hx Hle2) as (r3 & -> & (Hg3 & Hge3 & Hm3) & Hd3).
  exists r3. split; [done|]. split; [|congruence]. split; [done|]. split; [lia|]. intros y Hy Hyle. auto.
Qed.
End search.
