(* ===== verification/NextCheck.v ===== *)
(** * Next checks: what the results mean

    Theorems on Scheduler.v for a time zone whose offset does not change in
    the time looked at ([steady]): the scheduled time is the earliest second
    that matches one of the intervals, and the next check for a delay is the
    first one due.  Examples show what happens outside the assumptions. *)
From stdpp Require Import prelude list.
From Stdlib Require Import ZArith Lia.
From S2P Require Import Prelude Calendar Interval Scheduler SchedSearch.
#[local] Open Scope Z_scope.

(** From [a] to [b] the clocks are [off] seconds ahead of UTC: what
    [localtime] and [mktime] promise for such a time. *)
Definition steady (z : zone) (off dst a b : Z) : Prop :=
  (forall t, a <= t <= b -> valid_time (localtime z t) /\ secs (localtime z t) = t + off /\ tm_isdst (localtime z t) = dst /\
     tm_wday (localtime z t) = wday_of (daynum (localtime z t))) /\
  (forall u, valid_time u -> tm_isdst u = dst -> a <= secs u - off <= b -> fst (mktime z u) = secs u - off).

(** ** Scheduled checks *)

Lemma matches_same iv a b : valid_time a -> valid_time b -> secs a = secs b -> matches iv a -> matches iv b.
Proof.
  intros Ha Hb E. destruct (secs_inj a b Ha Hb E) as ((E1 & E2 & E3) & E4 & E5 & E6).
  unfold matches, day_ok, hour_ok, min_ok, sec_ok, tm_dayofweek. by rewrite E1, E2, E3, E4, E5, E6.
Qed.

Lemma secs_month a b : valid_time a -> valid_time b -> secs a <= secs b -> month_of a <= month_of b.
Proof.
  intros [Ha Ka] [Hb Kb] Hle. apply daynum_month_le; [done|done|]. pose proof (clock_bound a Ka). pose proof (clock_bound b Kb).
  rewrite !secs_day in Hle. lia.
Qed.

Section zone.
Context (z : zone) (off dst now last : Z) (Hz : steady z off dst now last).
Context (Hnow : 0 <= now) (Hy : 70 <= tm_year (localtime z now)) (Hlast : tm_year (localtime z last) <= 137).

Definition due_at (iv : zbx_scheduler_interval_t) (t : Z) : Prop := now < t <= last /\ matches iv (localtime z t).

(** What an interval must have: a match before [last], and no month on the
    way whose length the day filters mistake. *)
Definition schedulable (iv : zbx_scheduler_interval_t) : Prop :=
  wf_interval iv /\ searchable iv /\ months_agree iv (month_of (localtime z now)) (month_of (localtime z last)) /\ exists t, due_at iv t.

(** The first second that is due. *)
Definition earliest (P : Z -> Prop) (n : Z) : Prop := P n /\ forall t, P t -> n <= t.

Lemma next_time_ok tries iv : schedulable iv -> exists n, next_time z (S tries) iv dst (localtime z now) = Ret n /\ earliest (due_at iv) n.
Proof.
  intros (Hwf & Hs & Ha & tx & Htx & Hm). destruct Hz as [Hlt Hmk]. set (x := localtime z tx). set (t0 := localtime z now) in *.
  destruct (Hlt tx ltac:(lia)) as (Hvx & Hsx & _). fold x in Hvx, Hsx. destruct (Hlt now ltac:(lia)) as (Hv0 & Hs0 & Hd0 & _). fold t0 in Hv0, Hs0, Hd0.
  destruct (Hlt last ltac:(lia)) as (Hvl & Hsl & _). destruct (tm_inc_ok t0 Hv0) as (Hvi & Hsi & Hdi & Hyi).
  pose proof (secs_month x (localtime z last) Hvx Hvl ltac:(lia)) as Hkx. pose proof (secs_month t0 (scheduler_tm_inc t0) Hv0 Hvi ltac:(lia)) as Hki.
  assert (Hyx : tm_year x <= 137) by (destruct Hvx as [[[_ ?] _] _], Hvl as [[[_ ?] _] _]; unfold month_of in Hkx; lia).
  assert (Hreach : reach iv x (scheduler_tm_inc t0)).
  { split; [destruct Hv0 as [[[_ ?] _] _]; unfold month_of in Hki |- *; lia|]. destruct Ha as [?|Ha]; [by left|right]. intros k Hk. apply Ha. lia. }
  destruct (apply_filters_ok iv Hwf Hs x Hyx (scheduler_tm_inc t0) Hvi Hreach) as (r & Er & (Hgr & Hge & Hmin) & Hdr);
    [by apply good_sec_iff|lia|]. apply good_sec_iff in Hgr as [Hvr Hmr].
  pose proof (Hmin x (proj2 (good_sec_iff iv x) (conj Hvx Hm)) ltac:(lia)) as Hrx.
  cbn [next_time]. rewrite Er. cbn [mbind res_mbind]. pose proof (Hmk (set_isdst r dst) Hvr eq_refl) as Emk.
  change (secs (set_isdst r dst)) with (secs r) in Emk. specialize (Emk ltac:(lia)). destruct (mktime z (set_isdst r dst)) as [n u] eqn:Em. cbn [fst] in Emk.
  rewrite (proj2 (Z.eqb_neq n (-1))) by lia.
  exists n. split; [done|]. destruct (Hlt n ltac:(lia)) as (Hvn & Hsn & _). split.
  - split; [lia|]. apply (matches_same iv r); [done|done|lia|done].
  - intros t [Ht Hmt]. destruct (Hlt t ltac:(lia)) as (Hvt & Hst & _).
    specialize (Hmin (localtime z t) (proj2 (good_sec_iff iv _) (conj Hvt Hmt)) ltac:(lia)). lia.
Qed.

Definition due_any (ivs : list zbx_scheduler_interval_t) (t : Z) : Prop := exists iv, iv ∈ ivs /\ due_at iv t.

Lemma nextcheck_loop_ok tries ivs before time_dst nextcheck : Forall schedulable ivs ->
  (before = [] /\ nextcheck = 0) \/ earliest (due_any before) nextcheck ->
  exists n, nextcheck_loop z (S tries) ivs (localtime z now) now time_dst nextcheck = Ret (n, time_dst) /\
    ((before = [] /\ ivs = [] /\ n = 0) \/ earliest (due_any (before ++ ivs)) n).
Proof.
  intros Hivs. revert before nextcheck. induction Hivs as [|iv ivs Hiv Hivs IH]; intros before nextcheck Hb; cbn [nextcheck_loop].
  { exists nextcheck. split; [done|]. rewrite app_nil_r. naive_solver. }
  destruct Hz as [Hlt _]. assert (Hnl : now <= last) by (destruct Hiv as (_ & _ & _ & t & ? & _); lia). destruct (Hlt now ltac:(lia)) as (_ & _ & Ed & _).
  rewrite Ed. destruct (next_time_ok tries iv Hiv) as (n & -> & [[Hn Hmn] Hmin]). cbn [mbind res_mbind].
  destruct (Hlt n ltac:(lia)) as (_ & _ & -> & _). rewrite Z.eqb_refl. cbn [negb mbind res_mbind].
  set (n' := if (nextcheck =? 0) || (n <? nextcheck) then n else nextcheck). destruct (IH (before ++ [iv]) n') as (m & Em & Hm).
  - right. assert (Hn' : (n' = n /\ forall t, due_any before t -> n <= t) \/ (n' = nextcheck /\ nextcheck <= n /\ earliest (due_any before) nextcheck)).
    { unfold n'. destruct Hb as [[-> ->]|[Hd Hb]].
      - left. split; [done|]. by intros t (? & ?%not_elem_of_nil & _).
      - assert (nextcheck <> 0) by (destruct Hd as (? & _ & ? & _); lia). rewrite (proj2 (Z.eqb_neq nextcheck 0)) by done. cbn [orb].
        destruct (Z.ltb_spec n nextcheck); [left|right; by split; [|split]]. split; [done|]. intros t Ht. specialize (Hb t Ht). lia. }
    assert (Hin : forall t, due_any (before ++ [iv]) t <-> due_any before t \/ due_at iv t).
    { intros t. unfold due_any. split.
      - intros (i & [Hi|Hi%list_elem_of_singleton]%elem_of_app & Hd); [left; eauto|right; by subst].
      - intros [(i & Hi & Hd)|Hd]; [exists i|exists iv]; (split; [apply elem_of_app|done]); [by left|right; by apply list_elem_of_singleton]. }
    destruct Hn' as [[-> Hle]|(-> & Hle & [Hd Hb'])]; split.
    + apply Hin. by right.
    + intros t [Ht|Ht]%Hin; auto.
    + apply Hin. by left.
    + intros t [Ht|Ht]%Hin; [auto|]. specialize (Hmin t Ht). lia.
  - exists m. split; [exact Em|]. right. destruct Hm as [(E & _)|Hm]; [by destruct before|]. by rewrite <- app_assoc in Hm.
Qed.

(** The scheduled time of a list of intervals. *)
Lemma scheduled_ok tries ivs time_dst : ivs <> [] -> Forall schedulable ivs ->
  exists n, scheduler_get_nextcheck z (S tries) ivs now time_dst = Ret (n, time_dst) /\ earliest (due_any ivs) n.
Proof.
  intros Hne Hivs. unfold scheduler_get_nextcheck. destruct (nextcheck_loop_ok tries ivs [] time_dst 0 Hivs ltac:(by left)) as (n & E & [(_ & ? & _)|Hn]); [done|].
  exists n. split; [done|]. exact Hn.
Qed.
End zone.

(** The scheduled check is the earliest one: for any list of scheduling
    intervals (as the parser produces them, with overlapping filters only
    where they have no steps) that all match some second between [now] and
    [last], a time in which the offset of the time zone does not change and
    in which the February of no even year has to be searched,
    [scheduler_get_nextcheck] returns the first second after [now] whose
    local time matches one of the intervals; its loops end, and the remembered
    time of the daylight saving change is not touched. *)
Theorem scheduled_check_earliest z off dst now last tries ivs time_dst :
  steady z off dst now last -> 0 <= now -> 70 <= tm_year (localtime z now) -> tm_year (localtime z last) <= 137 ->
  ivs <> [] -> Forall (schedulable z now last) ivs ->
  exists n, scheduler_get_nextcheck z (S tries) ivs now time_dst = Ret (n, time_dst) /\
    (now < n <= last /\ exists iv, iv ∈ ivs /\ matches iv (localtime z n)) /\
    (forall t iv, now < t < n -> iv ∈ ivs -> ~ matches iv (localtime z t)).
Proof.
  intros Hz Hnow Hy Hl Hne Hivs. destruct (scheduled_ok z off dst now last Hz Hnow Hy Hl tries ivs time_dst Hne Hivs) as (n & E & (iv & Hiv & Hn & Hm) & Hmin).
  exists n. split; [done|]. split; [eauto|]. intros t i Ht Hi Hmt. specialize (Hmin t). enough (n <= t) by lia. apply Hmin. exists i. split; [done|]. split; [lia|done].
Qed.

(** ** Coordinated universal time, for examples *)

Definition utc_date (day : Z) : tm :=
  match add_days_loop (S (Z.to_nat (day + 1))) (Tm 0 0 0 (day + 1) 0 70 0 0 0) with
  | Ret d => d
  | Halt _ => Tm 0 0 0 1 0 70 0 0 0
  end.

Definition utc_zone : zone :=
  Zone (fun t => let d := utc_date (t / SEC_PER_DAY) in
          Tm (t mod 60) (t / 60 mod 60) (t / 3600 mod 24) (tm_mday d) (tm_mon d) (tm_year d) (wday_of (t / SEC_PER_DAY))
             (t / SEC_PER_DAY - days_of (tm_year d + 1900) 1 1) 0)
       (fun u => (secs u, u)).

Lemma utc_date_ok day : 0 <= day -> valid_date (utc_date day) /\ daynum (utc_date day) = day.
Proof.
  intros Hd. unfold utc_date. destruct (add_days_ok (S (Z.to_nat (day + 1))) (Tm 0 0 0 (day + 1) 0 70 0 0 0)) as (t & -> & Hv & Hn & _).
  - unfold valid_month. tm_cbn. lia.
  - tm_cbn. lia.
  - tm_cbn. lia.
  - split; [done|]. rewrite Hn. change (daynum (Tm 0 0 0 (day + 1) 0 70 0 0 0)) with (0 + 0 + (0 + (day + 1) - 1)). lia.
Qed.

Lemma utc_steady a b : 0 <= a -> steady utc_zone 0 0 a b.
Proof.
  intros Ha. split; [|intros u _ _ _; cbn [utc_zone mktime fst]; lia]. intros t Ht. cbn [utc_zone localtime].
  destruct (utc_date_ok (t / 86400) ltac:(apply Z.div_pos; lia)) as [Hv Hn]. set (d := utc_date (t / 86400)) in *.
  set (r := Tm _ _ _ _ _ _ _ _ _). change (daynum r) with (daynum d). unfold secs. change (daynum r) with (daynum d). rewrite Hn.
  split; [split; [exact Hv|unfold valid_clock, r; tm_cbn; dlia]|]. split; [unfold r; tm_cbn; dlia|done].
Qed.

(** Working days at nine o'clock. *)
Definition nine_o_clock : zbx_scheduler_interval_t := SchedInterval [] [Filter 1 5 1] [Filter 9 9 1] [] [] 2.

Lemma nine_schedulable : schedulable utc_zone 1737108000 1738108000 nine_o_clock.
Proof.
  split; [|split; [|split]].
  - repeat split; repeat constructor; cbn; lia.
  - split; [intros ? ? ?%not_elem_of_nil; contradiction|]. split; [intros f g Hf%list_elem_of_singleton Hg%list_elem_of_singleton; left; congruence|].
    split; [intros f g Hf%list_elem_of_singleton Hg%list_elem_of_singleton; left; congruence|].
    split; [intros ? ? ?%not_elem_of_nil; contradiction|]. split; [intros ? ? ?%not_elem_of_nil; contradiction|]. intros Hne. by destruct Hne.
  - right. intros k. change (month_of (localtime utc_zone 1737108000)) with 24300. change (month_of (localtime utc_zone 1738108000)) with 24300.
    intros Hk. assert (k = 24300) as -> by lia. reflexivity.
  - exists 1737363600. split; [lia|]. split; [split; [intros H; by destruct H|intros _]|split; [|split]].
  + constructor. split; [vm_compute; split; discriminate|reflexivity].
  + constructor. split; [vm_compute; split; discriminate|reflexivity].
  + right. reflexivity.
  + right. reflexivity.
Qed.

(** From Friday 2025-01-17 10:00:00 to the end of the month: the check is on
    Monday 2025-01-20. *)
Lemma scheduled_check_witness :
  exists n, scheduler_get_nextcheck utc_zone 1 [nine_o_clock] 1737108000 0 = Ret (n, 0) /\ 1737108000 < n <= 1738108000.
Proof.
  destruct (scheduled_check_earliest utc_zone 0 0 1737108000 1738108000 0 [nine_o_clock] 0) as (n & E & [Hn _] & _).
  - apply utc_steady. lia.
  - lia.
  - vm_compute. discriminate.
  - vm_compute. discriminate.
  - discriminate.
  - constructor; [exact nine_schedulable|constructor].
  - exists n. split; [exact E|exact Hn].
Defined.

(** The same by computation. *)
Example scheduled_check_monday : scheduler_get_nextcheck utc_zone 1 [nine_o_clock] 1737108000 0 = Ret (1737363600, 0).
Proof. vm_compute. reflexivity. Qed.

Definition monthly (day : Z) : zbx_scheduler_interval_t := SchedInterval [Filter day day 1] [] [] [] [] 1.

(** The day filters compare with the length of February 70 years later.  In
    2028 the 29th is passed over: from the 28th the search goes to March. *)
Example leap_day_skipped :
  let t := Tm 0 0 12 28 1 128 1 58 0 in
  (matches (monthly 29) (Tm 0 0 0 29 1 128 2 59 0) /\ valid_time (Tm 0 0 0 29 1 128 2 59 0)) /\
  scheduler_apply_filters (monthly 29) t = Ret (Tm 0 0 0 29 2 128 1 58 0).
Proof.
  split; [|vm_compute; reflexivity]. split.
  - split; [split; [intros _; constructor; split; [vm_compute; split; discriminate|reflexivity]|intros H; by destruct H]|].
    split; [right; reflexivity|]. split; right; reflexivity.
  - split; [split; [split; vm_compute; [discriminate|split; discriminate]|vm_compute; split; discriminate]|].
    vm_compute. repeat split; discriminate.
Qed.

(** In 2026 the search finds February the 29th, which is the first of March. *)
Example no_leap_day_found :
  scheduler_apply_filters (monthly 29) (Tm 0 0 12 3 1 126 2 33 0) = Ret (Tm 0 0 0 29 1 126 2 33 0) /\
  ~ valid_date (Tm 0 0 0 29 1 126 2 33 0) /\ secs (Tm 0 0 0 29 1 126 2 33 0) = secs (Tm 0 0 0 1 2 126 0 59 0).
Proof.
  split; [vm_compute; reflexivity|]. split; [|vm_compute; reflexivity]. intros [_ [_ H]]. revert H. vm_compute. intros H. by apply H.
Qed.

(** Where filters with steps overlap, the nearest value is not found: after
    hour 3 the chain [0-20/10,5] gives hour 10. *)
Example nearest_not_least :
  scheduler_get_nearest_filter_value [Filter 0 20 10; Filter 5 5 1] 3 = Some 10 /\ in_chain [Filter 0 20 10; Filter 5 5 1] 5.
Proof. split; [reflexivity|]. apply Exists_cons_tl, Exists_cons_hd. split; [cbn; lia|reflexivity]. Qed.

(** Next to month days the steps of week days are not kept: a Tuesday passes
    the filter for Monday, Wednesday and Friday. *)
Example wday_step_ignored :
  let iv := SchedInterval [Filter 1 31 1] [Filter 1 5 2] [] [] [] 1 in
  let t := Tm 0 0 0 14 0 125 2 13 0 in
  tm_dayofweek t = 2 /\ scheduler_validate_wday_filter iv t = true /\ ~ in_chain (wdays iv) (tm_dayofweek t).
Proof.
  split; [reflexivity|]. split; [reflexivity|]. intros H. apply Exists_cons in H as [[_ H]|H]; [|by apply Exists_nil in H].
  revert H. vm_compute. discriminate.
Qed.

(** From 2038-01-19 on [zbx_utc_time] overflows and takes every day for an
    invalid one: the search runs through all months. *)
Example search_after_2038 : scheduler_apply_filters (monthly 1) (Tm 0 0 0 20 0 138 3 19 0) = Halt OutOfFuel.
Proof. vm_compute. reflexivity. Qed.

(** ** Delays *)

(** [n] is the first second after [lim] that the delay [d] and the seed give. *)
Definition first_after (seed d lim n : Z) : Prop := (n - seed) mod d = 0 /\ lim < n /\ n - d <= lim.

Lemma first_after_least seed d lim n u : 0 < d -> first_after seed d lim n -> (u - seed) mod d = 0 -> lim < u -> n <= u.
Proof.
  intros Hd (Hn & Hlt & Hle) Hu Hlu. destruct (Z.le_gt_cases n u); [done|]. exfalso.
  pose proof (Z.div_mod (n - seed) d ltac:(lia)). pose proof (Z.div_mod (u - seed) d ltac:(lia)).
  assert ((u - seed) / d < (n - seed) / d) by nia. nia.
Qed.

Lemma catch_up_ok fuel seed d lim n : 0 < d -> (n - seed) mod d = 0 -> n - d <= lim -> lim < n + Z.of_nat fuel * d -> - 2 ^ 31 <= n -> lim + d < 2 ^ 31 ->
  first_after seed d lim (catch_up fuel n lim d).
Proof.
  intros Hd. revert n. induction fuel as [|fuel IH]; intros n Hn Hle Hf Hlow Hhigh; cbn [catch_up]; [split; [done|lia]|].
  destruct (Z.leb_spec n lim); [|split; [done|lia]]. rewrite i32_small by lia. apply IH; try lia.
  replace (n + d - seed) with (n - seed + 1 * d) by lia. by rewrite Z.mod_add by lia.
Qed.

Definition wait_of (d : Z) : Z := Z.min (Z.quot d 4) 30.

Lemma wait_bounds d : 0 <= d -> 0 <= wait_of d <= 30 /\ 4 * wait_of d <= d.
Proof. intros Hd. unfold wait_of. rewrite Z.quot_div_nonneg by lia. dlia. Qed.

Lemma delay_nextcheck_ok seed d t (first : bool) : 0 < d <= SEC_PER_DAY -> 0 <= seed -> 0 <= t -> t + 200000 < 2 ^ 31 ->
  first_after seed d (t + wait_of d - (if first then 0 else 1)) (delay_nextcheck seed d t first).
Proof.
  intros Hd Hs Ht Hb. unfold delay_nextcheck. rewrite (proj2 (Z.eqb_neq d 0)) by lia. pose proof (wait_bounds d ltac:(lia)).
  rewrite (Z.quot_div_nonneg t d) by lia. rewrite u64_small by lia. pose proof (Z.mod_pos_bound seed d ltac:(lia)).
  pose proof (Z.div_mod t d ltac:(lia)) as Et. pose proof (Z.mod_pos_bound t d ltac:(lia)). assert (0 <= t / d <= t) by (split; [apply Z.div_pos; lia|apply Z.div_le_upper_bound; nia]).
  rewrite (i32_small (t / d)), (i32_small (seed mod d)) by lia. rewrite i32_small by lia. fold (wait_of d).
  assert (Hl : (if first then t + wait_of d else t + wait_of d - 1) = t + wait_of d - (if first then 0 else 1)) by (destruct first; lia).
  rewrite Hl. apply catch_up_ok; [lia| |destruct first; lia|destruct first; lia|lia|destruct first; lia].
  pose proof (Z.div_mod seed d ltac:(lia)) as Es. replace (d * (t / d) + seed mod d - seed) with ((t / d - seed / d) * d) by lia. apply Z.mod_mul. lia.
Qed.

(** ** Flexible intervals *)

Definition wf_period (p : zbx_time_period_t) : Prop :=
  1 <= start_day p <= end_day p /\ end_day p <= 7 /\ 0 <= start_time p < end_time p /\ end_time p <= SEC_PER_DAY.

(** A day counted from the Epoch as a day of the week, from 1, Monday. *)
Definition dow (k : Z) : Z := (k + 3) mod 7 + 1.

(** A period in terms of local seconds since the Epoch. *)
Definition active (p : zbx_time_period_t) (s : Z) : bool :=
  (start_day p <=? dow (s / SEC_PER_DAY)) && (dow (s / SEC_PER_DAY) <=? end_day p) && (start_time p <=? s mod SEC_PER_DAY) && (s mod SEC_PER_DAY <? end_time p).

(** The start or the end of a period on one of its days. *)
Definition edge (p : zbx_time_period_t) (s : Z) : Prop :=
  exists k, start_day p <= dow k <= end_day p /\ (s = SEC_PER_DAY * k + start_time p \/ s = SEC_PER_DAY * k + end_time p).

Lemma active_iff p s : active p s = true <->
  start_day p <= dow (s / SEC_PER_DAY) <= end_day p /\ start_time p <= s mod SEC_PER_DAY < end_time p.
Proof. unfold active. rewrite !andb_true_iff, !Z.leb_le, Z.ltb_lt. lia. Qed.

(** The days after a day [D], as days of the week. *)
Lemma dow_add D k : 0 <= k <= 8 -> 1 <= dow D <= 7 /\
  ((dow D + k <= 7 /\ dow (D + k) = dow D + k) \/ (7 < dow D + k <= 14 /\ dow (D + k) = dow D + k - 7) \/ (14 < dow D + k /\ dow (D + k) = dow D + k - 14)).
Proof. intros Hk. unfold dow. dlia. Qed.

Lemma next_change_range p D time : wf_period p -> 0 <= time < SEC_PER_DAY -> time < next_change p (dow D) time <= 8 * SEC_PER_DAY.
Proof.
  intros (H1 & H2 & H3 & H4) Ht. pose proof (dow_add D 0 ltac:(lia)) as [Hd _]. unfold next_change.
  repeat case_match; unbool; try lia.
Qed.

Lemma next_change_edge p D time : wf_period p -> 0 <= time < SEC_PER_DAY -> edge p (SEC_PER_DAY * D + next_change p (dow D) time).
Proof.
  intros (H1 & H2 & H3 & H4) Ht. pose proof (dow_add D 0 ltac:(lia)) as [Hd _]. unfold next_change.
  destruct ((start_day p <=? dow D) && (dow D <=? end_day p) && (time <? end_time p)) eqn:E1.
  { exists D. unbool. split; [lia|]. case_match; lia. }
  assert (Hk : forall k, 0 <= k <= 8 -> start_day p <= dow (D + k) <= end_day p -> edge p (SEC_PER_DAY * D + (SEC_PER_DAY * k + start_time p))).
  { intros k Hk Hr. exists (D + k). split; [done|]. left. lia. }
  destruct (Z.ltb_spec (dow D) (end_day p)); [destruct (Z.ltb_spec (dow D) (start_day p))|].
  - apply Hk; [lia|]. pose proof (dow_add D (start_day p - dow D) ltac:(lia)). lia.
  - apply (Hk 1); [lia|]. pose proof (dow_add D 1 ltac:(lia)). lia.
  - apply Hk; [lia|]. pose proof (dow_add D (start_day p + 7 - dow D) ltac:(lia)). lia.
Qed.

(** Up to the next change a period is active or not, as it is now. *)
Lemma next_change_quiet p D time u : wf_period p -> 0 <= time < SEC_PER_DAY ->
  SEC_PER_DAY * D + time <= u < SEC_PER_DAY * D + next_change p (dow D) time -> active p u = active p (SEC_PER_DAY * D + time).
Proof.
  intros Hp Ht Hu. pose proof (next_change_range p D time Hp Ht). destruct Hp as (H1 & H2 & H3 & H4).
  set (k := u / 86400 - D). set (v := u mod 86400).
  assert (Hk : 0 <= k <= 8 /\ 0 <= v < 86400 /\ u = 86400 * (D + k) + v /\ u / 86400 = D + k) by (unfold k, v; dlia).
  destruct Hk as (Hk & Hv & Eu & Ed). pose proof (dow_add D k Hk) as [Hd Hdk]. apply eq_true_iff_eq. rewrite !active_iff. fold v. rewrite Ed.
  replace ((86400 * D + time) / 86400) with D by dlia. replace ((86400 * D + time) mod 86400) with time by dlia.
  clearbody k v. clear Ed. subst u. unfold next_change in *.
  destruct ((start_day p <=? dow D) && (dow D <=? end_day p) && (time <? end_time p)) eqn:E1.
  { unbool. destruct (Z.ltb_spec time (start_time p)); assert (k = 0) by lia; subst k; lia. }
  assert (Hn : ~ (start_day p <= dow D <= end_day p /\ time < end_time p)).
  { intros ([? ?] & ?). rewrite !(proj2 (Z.leb_le _ _)), (proj2 (Z.ltb_lt _ _)) in E1 by lia. done. }
  destruct (Z.ltb_spec (dow D) (end_day p)); [destruct (Z.ltb_spec (dow D) (start_day p))|].
  - assert (k <= start_day p - dow D) by lia. lia.
  - assert (k = 0 \/ k = 1) as [-> | ->] by lia; lia.
  - assert (k <= start_day p + 7 - dow D) by lia. destruct (Z.eq_dec k 0) as [->|]; lia.
Qed.

Definition wf_flexible (f : zbx_flexible_interval_t) : Prop := wf_period (period f) /\ 0 <= delay f <= SEC_PER_DAY.

Section delays.
Context (z : zone) (off dst now last : Z) (Hz : steady z off dst now last).
Context (simple : Z) (Hsimple : 0 <= simple <= SEC_PER_DAY) (flex : list zbx_flexible_interval_t) (Hflex : Forall wf_flexible flex).

Lemma local_day t : now <= t <= last -> tm_day (localtime z t) = dow ((t + off) / SEC_PER_DAY) /\ tm_time (localtime z t) = (t + off) mod SEC_PER_DAY.
Proof.
  intros Ht. destruct Hz as [Hl _]. destruct (Hl t Ht) as ([_ Hc] & Hs & _ & Hw). unfold valid_clock, secs in *.
  assert (Hd : (t + off) / 86400 = daynum (localtime z t) /\ (t + off) mod 86400 = tm_time (localtime z t)) by (unfold tm_time; dlia).
  destruct Hd as [-> ->]. split; [|done]. unfold tm_day. rewrite Hw. unfold wday_of, dow. case_match; unbool; dlia.
Qed.

Lemma local_active p t : now <= t <= last -> check_time_period p (localtime z t) = active p (t + off).
Proof.
  intros Ht. destruct (local_day t Ht) as [E1 E2]. unfold check_time_period. fold (tm_day (localtime z t)) (tm_time (localtime z t)). by rewrite E1, E2.
Qed.

(** The delay in force. *)
Definition delay_at (t : Z) : Z := get_current_delay z simple flex t.

Definition active_at (f : zbx_flexible_interval_t) (t : Z) : Prop := check_time_period (period f) (localtime z t) = true.

Lemma current_loop_ok l t cur : Forall wf_flexible l -> -1 <= cur ->
  let r := current_delay_loop z l t cur in
  (cur = -1 \/ r <= cur) /\ (forall f, f ∈ l -> active_at f t -> 0 <= r <= delay f) /\
  (r = cur \/ exists f, f ∈ l /\ active_at f t /\ r = delay f).
Proof.
  intros Hl. revert cur. induction Hl as [|f l [_ Hf] Hl IH]; intros cur Hc; cbn [current_delay_loop].
  { split; [lia|]. split; [by intros ? ?%not_elem_of_nil|by left]. }
  set (cur' := if ((cur =? -1) || (delay f <? cur)) && check_time_period (period f) (localtime z t) then delay f else cur).
  assert (Hc' : (cur' = cur /\ (active_at f t -> 0 <= cur <= delay f)) \/ (cur' = delay f /\ active_at f t /\ (cur = -1 \/ delay f < cur))).
  { unfold cur', active_at. destruct (Z.eqb_spec cur (-1)), (Z.ltb_spec (delay f) cur), (check_time_period (period f) (localtime z t)); cbn [orb andb];
      first [left; split; [reflexivity|intros; (done || lia)]|right; split; [reflexivity|split; [reflexivity|lia]]]. }
  destruct (IH cur' ltac:(lia)) as (H1 & H2 & H3). split; [lia|]. split.
  - intros g [->|Hg]%elem_of_cons Ha; [|auto]. destruct Hc' as [[E Hle]|(E & _)].
    + specialize (Hle Ha). destruct H3 as [E2|(g & Hg & Hga & E2)]; [lia|]. specialize (H2 g Hg Hga). lia.
    + destruct H3 as [E2|(g & Hg & Hga & E2)]; [lia|]. specialize (H2 g Hg Hga). lia.
  - destruct H3 as [->|(g & Hg & Hga & E)].
    + destruct Hc' as [[-> _]|(-> & Ha & _)]; [by left|right]. exists f. split; [by left|auto].
    + right. exists g. split; [by right|auto].
Qed.

(** The delay in force is the least of the flexible intervals that are
    active, or else the simple interval. *)
Lemma delay_at_ok t : (forall f, f ∈ flex -> active_at f t -> delay_at t <= delay f) /\ 0 <= delay_at t <= SEC_PER_DAY /\
  ((exists f, f ∈ flex /\ active_at f t /\ delay_at t = delay f) \/ ((forall f, f ∈ flex -> ~ active_at f t) /\ delay_at t = simple)).
Proof.
  unfold delay_at, get_current_delay. destruct (current_loop_ok flex t (-1) Hflex ltac:(lia)) as (_ & H2 & H3).
  set (r := current_delay_loop z flex t (-1)) in *. destruct (Z.eqb_spec r (-1)) as [E|E].
  - assert (Hno : forall f, f ∈ flex -> ~ active_at f t) by (intros f Hf Ha; specialize (H2 f Hf Ha); lia).
    split; [intros f Hf Ha; by destruct (Hno f Hf)|]. split; [lia|]. by right.
  - destruct H3 as [?|(f & Hf & Ha & E')]; [done|]. split; [intros g Hg Hga; apply (H2 g Hg Hga)|].
    pose proof (proj1 (Forall_forall _ _) Hflex f Hf) as [_ ?]. split; [lia|]. left. eauto.
Qed.

Lemma current_loop_same l a b cur : (forall f, f ∈ l -> check_time_period (period f) (localtime z a) = check_time_period (period f) (localtime z b)) ->
  current_delay_loop z l a cur = current_delay_loop z l b cur.
Proof.
  revert cur. induction l as [|f l IH]; intros cur H; [done|]. cbn [current_delay_loop]. rewrite (H f) by (by left). apply IH. intros g Hg. apply H. by right.
Qed.

Lemma next_delay_loop_ok l D time next : Forall wf_flexible l -> 0 <= time < SEC_PER_DAY -> next = 0 \/ time < next ->
  let r := next_delay_loop l (dow D) time next in
  (r = 0 \/ time < r) /\ (next = 0 \/ r <= next) /\ (forall f, f ∈ l -> 0 < r <= next_change (period f) (dow D) time) /\
  (r = next \/ exists f, f ∈ l /\ r = next_change (period f) (dow D) time).
Proof.
  intros Hl Ht. revert next. induction Hl as [|f l [Hf _] Hl IH]; intros next Hn; cbn [next_delay_loop].
  { split; [lia|]. split; [lia|]. split; [by intros ? ?%not_elem_of_nil|by left]. }
  pose proof (next_change_range (period f) D time Hf Ht) as Hc. set (c := next_change (period f) (dow D) time) in *.
  set (n' := if (next =? 0) || (c <? next) then c else next).
  assert (Hn' : (n' = c /\ (next = 0 \/ c < next)) \/ (n' = next /\ time < next <= c)).
  { unfold n'. destruct (Z.eqb_spec next 0), (Z.ltb_spec c next); cbn [orb]; lia. }
  destruct (IH n' ltac:(lia)) as (H1 & H2 & H3 & H4). split; [done|]. split; [lia|]. split.
  - intros g [->|Hg]%elem_of_cons; [|auto]. fold c. split; [|lia]. destruct H4 as [->|(g & Hg & _)]; [lia|]. specialize (H3 g Hg). lia.
  - destruct H4 as [->|(g & Hg & E)]; [|right; exists g; split; [by right|done]].
    destruct Hn' as [[-> _]|[-> _]]; [right; exists f; split; [by left|done]|by left].
Qed.

(** The next change of the flexible intervals. *)
Lemma next_delay_ok t : flex <> [] -> now <= t <= last -> exists c, get_next_delay_interval z flex t = Some c /\ t < c <= t + 8 * SEC_PER_DAY /\
  (exists f, f ∈ flex /\ edge (period f) (c + off)) /\ forall u, t <= u < c -> u <= last -> delay_at u = delay_at t.
Proof.
  intros Hne Ht. destruct (local_day t Ht) as [Ed Et]. set (D := (t + off) / 86400) in *. set (time := (t + off) mod 86400) in *.
  assert (Htime : 0 <= time < 86400 /\ t + off = 86400 * D + time) by (unfold time, D; dlia). destruct Htime as [Htime Eto].
  destruct (next_delay_loop_ok flex D time 0 Hflex Htime ltac:(by left)) as (H1 & _ & H3 & H4).
  unfold get_next_delay_interval. destruct flex as [|f0 l0] eqn:Ef; [done|]. rewrite <- Ef in *. rewrite Ed, Et.
  set (r := next_delay_loop flex (dow D) time 0) in *. destruct (H3 f0 ltac:(rewrite Ef; by left)) as [Hr _].
  rewrite (proj2 (Z.eqb_neq r 0)) by lia. exists (t - time + r). split; [done|]. destruct H4 as [?|(f & Hf & Er)]; [lia|].
  pose proof (proj1 (Forall_forall _ _) Hflex) as Hwf. pose proof (next_change_range (period f) D time (proj1 (Hwf f Hf)) Htime).
  split; [lia|]. split.
  - exists f. split; [done|]. replace (t - time + r + off) with (86400 * D + r) by lia. rewrite Er. by apply next_change_edge; [apply Hwf|].
  - intros u Hu Hul. unfold delay_at, get_current_delay. rewrite (current_loop_same flex u t); [done|]. intros g Hg.
    rewrite !local_active by lia. rewrite Eto. apply next_change_quiet; [apply Hwf, Hg|done|]. specialize (H3 g Hg). lia.
Qed.

(** *** The loop over the delays *)

Context (seed : Z) (Hseed : 0 <= seed) (Hnow : 0 <= now) (Hlast : last = now + SEC_PER_YEAR + 8 * SEC_PER_DAY) (H2038 : last <= ZBX_JAN_2038).
Context (sched : list zbx_scheduler_interval_t).

(** A check is due: the delay in force is not 0 and divides the distance to the seed. *)
Definition due (t : Z) : Prop := delay_at t <> 0 /\ (t - seed) mod delay_at t = 0.

(** The present time, or an edge of a flexible interval. *)
Definition delay_edge (w : Z) : Prop := w = now \/ exists f, f ∈ flex /\ edge (period f) (w + off).

(** At most 30 seconds after such a time. *)
Definition excused (u : Z) : Prop := exists w, now <= w <= u /\ u <= w + 30 /\ delay_edge w.

Definition loop_inv (s : Z * Z * Z) : Prop :=
  let '(t, attempt, nextcheck) := s in
  now <= t <= last /\ 0 <= attempt /\ (attempt = 0 -> t = now) /\ (0 < attempt -> now < t <= nextcheck) /\ delay_edge t /\
  forall u, now <= u < t -> due u -> excused u.

Definition ci : zbx_custom_interval_t := CustomInterval flex sched.

Definition segment_check (t attempt : Z) : Z := delay_nextcheck seed (delay_at t) t (attempt =? 0).

Lemma segment_ok t attempt nc : loop_inv (t, attempt, nc) -> delay_at t <> 0 ->
  first_after seed (delay_at t) (t + wait_of (delay_at t) - (if attempt =? 0 then 0 else 1)) (segment_check t attempt) /\ now < segment_check t attempt.
Proof.
  intros (Ht & Ha & Ha0 & Ha1 & _) Hd. destruct (delay_at_ok t) as (_ & Hr & _).
  pose proof (delay_nextcheck_ok seed (delay_at t) t (attempt =? 0) ltac:(lia) Hseed ltac:(lia) ltac:(lia)) as H. split; [exact H|].
  destruct H as (_ & H & _). pose proof (wait_bounds (delay_at t) ltac:(lia)). unfold segment_check.
  revert H. destruct (Z.eqb_spec attempt 0) as [E|E]; intros; [specialize (Ha0 E)|specialize (Ha1 ltac:(lia))]; lia.
Qed.

(** What is due before the check of a segment is excused. *)
Lemma segment_excused t attempt nc u : loop_inv (t, attempt, nc) -> t <= u < segment_check t attempt -> delay_at u = delay_at t -> due u -> excused u.
Proof.
  intros HI Hu Ed [Hnz Hm]. rewrite Ed in *. destruct (segment_ok t attempt nc HI Hnz) as [Hf _]. destruct HI as (Ht & Ha & _ & _ & He & _).
  destruct (delay_at_ok t) as (_ & Hr & _). pose proof (wait_bounds (delay_at t) ltac:(lia)). exists t. split; [lia|]. split; [|done].
  destruct (Z.le_gt_cases u (t + 30)) as [?|Hgt]; [done|]. exfalso.
  assert (segment_check t attempt <= u); [|lia]. eapply first_after_least; [|exact Hf|exact Hm|]; [lia|]. case_match; lia.
Qed.

Lemma turn_step s s' : loop_inv s -> nextcheck_turn z seed simple (Some ci) (now + SEC_PER_YEAR) s = inl s' ->
  loop_inv s' /\ 0 <= last - fst (fst s') < last - fst (fst s).
Proof.
  destruct s as [[t attempt] nc]. intros HI. pose proof HI as (Ht & Ha & _ & _ & _ & Hex). unfold nextcheck_turn.
  destruct (Z.ltb_spec t (now + 31536000)) as [Hlt|]; [|done]. change (flexible ci) with flex. fold (delay_at t) (segment_check t attempt).
  destruct (decide (flex = [])) as [Ef|Ef]; [by rewrite Ef|]. destruct (next_delay_ok t Ef Ht) as (c & -> & Hc & He & Hsame).
  destruct (Z.leb_spec c (segment_check t attempt)) as [Hle|]; [|done]. intros [= <-]. cbn [fst]. split; [|lia].
  split; [lia|]. split; [lia|]. split; [lia|]. split; [lia|]. split; [by right|]. intros u Hu Hdue. destruct (Z.lt_ge_cases u t); [by apply Hex; [lia|]|].
  apply (segment_excused t attempt nc); [done|lia|apply Hsame; lia|done].
Qed.

(** The result of the loop. *)
Definition loop_result (n : Z) : Prop :=
  (forall u, now <= u < n -> u < now + SEC_PER_YEAR -> due u -> excused u) /\ (n < now + SEC_PER_YEAR -> now < n /\ due n).

Lemma turn_end s n : loop_inv s -> nextcheck_turn z seed simple (Some ci) (now + SEC_PER_YEAR) s = inr n -> loop_result n.
Proof.
  destruct s as [[t attempt] nc]. intros HI. pose proof HI as (Ht & Ha & Ha0 & Ha1 & He & Hex). unfold nextcheck_turn.
  destruct (Z.ltb_spec t (now + 31536000)) as [Hlt|Hge].
  2: { intros [= <-]. assert (t <= nc) by (destruct (Z.eq_dec attempt 0); [specialize (Ha0 ltac:(done)); lia|apply Ha1; lia]).
       split; [|lia]. intros u Hu Hy. apply Hex. lia. }
  change (flexible ci) with flex. fold (delay_at t) (segment_check t attempt).
  assert (Hend : (forall u, t <= u <= segment_check t attempt -> u <= last -> delay_at u = delay_at t) -> inr (segment_check t attempt) = @inr (Z * Z * Z) Z n -> loop_result n).
  { intros Hsame [= <-]. split.
    - intros u Hu Hy Hdue. destruct (Z.lt_ge_cases u t); [by apply Hex; [lia|]|]. apply (segment_excused t attempt nc); [done|lia|apply Hsame; lia|done].
    - intros Hy. destruct (Z.eq_dec (delay_at t) 0) as [E|E].
      { unfold segment_check, delay_nextcheck in Hy. rewrite E in Hy. change (0 =? 0) with true in Hy. cbn match in Hy. lia. }
      destruct (segment_ok t attempt nc HI E) as [(Hm & Hl & _) Hn]. split; [done|]. destruct (delay_at_ok t) as (_ & Hr & _).
      pose proof (wait_bounds (delay_at t) ltac:(lia)).
      assert (Ed : delay_at (segment_check t attempt) = delay_at t) by (apply Hsame; [split; [case_match; lia|lia]|lia]). split; by rewrite Ed. }
  destruct (decide (flex = [])) as [Ef|Ef].
  { assert (Eg : get_next_delay_interval z flex t = None) by (by rewrite Ef). rewrite Eg. apply Hend. intros u _ _. unfold delay_at, get_current_delay. by rewrite Ef. }
  destruct (next_delay_ok t Ef Ht) as (c & -> & Hc & _ & Hsame). destruct (Z.leb_spec c (segment_check t attempt)) as [|Hgt]; [done|].
  apply Hend. intros u Hu Hul. apply Hsame; lia.
Qed.

Lemma delay_loop_ok : exists n, loop_until 25 (nextcheck_turn z seed simple (Some ci) (now + SEC_PER_YEAR)) (now, 0, 0) = Ret n /\ loop_result n.
Proof.
  destruct (loop_until_ok (nextcheck_turn z seed simple (Some ci) (now + 31536000)) loop_inv (fun s => last - fst (fst s)) 25 (now, 0, 0)) as (n & s & E & HI & Es).
  - intros s s' HI Es. by apply turn_step.
  - split; [lia|]. split; [lia|]. split; [done|]. split; [lia|]. split; [by left|]. intros u Hu. lia.
  - cbn [fst]. change (2 ^ Z.of_nat 25) with 33554432. lia.
  - exists n. split; [done|]. by apply (turn_end s).
Qed.
End delays.

Lemma steady_until z off dst a b c : steady z off dst a b -> c <= b -> steady z off dst a c.
Proof. intros [Hlt Hmk] Hc. split; [intros t Ht; apply Hlt; lia|]. intros u Hv Hd Hs. apply Hmk; [done|done|lia]. Qed.


(** Working hours: every ten seconds, otherwise every minute; and a check at
    nine o'clock. *)
Definition working_hours : zbx_custom_interval_t := CustomInterval [FlexInterval (Period 1 5 32400 64800) 10] [].
Definition with_nine_o_clock : zbx_custom_interval_t := CustomInterval (flexible working_hours) [nine_o_clock].


(** On a Friday at 17:46:40, seven seconds later; at 17:59:55 the check that is
    due seven seconds after the change of the delay is left out. *)
Example item_nextcheck_friday :
  zbx_calculate_item_nextcheck utc_zone 1 7 ITEM_TYPE_ZABBIX 60 (Some working_hours) 1737136000 0 = Ret (1737136007, 0) /\
  zbx_calculate_item_nextcheck utc_zone 1 7 ITEM_TYPE_ZABBIX 60 (Some working_hours) 1737136795 0 = Ret (1737136867, 0).
Proof. split; vm_compute; reflexivity. Qed.

(** *** Unreachable hosts *)

Section unreachable.
Context (z : zone) (off dst now last simple : Z) (flex : list zbx_flexible_interval_t) (sched : list zbx_scheduler_interval_t).
Context (Hz : steady z off dst now last) (Hsimple : 0 <= simple <= SEC_PER_DAY) (Hflex : Forall wf_flexible flex).
Context (Hnow : 0 <= now) (Hlast : last = now + SEC_PER_YEAR + 8 * SEC_PER_DAY) (H2038 : last <= ZBX_JAN_2038).

(** The check goes to the first second from [now] on in which the item is
    not suspended by a delay of 0, if there is one within a year. *)
Lemma unreachable_loop_ok :
  exists n, loop_until 25 (unreachable_turn z simple (CustomInterval flex sched) (now + SEC_PER_YEAR)) (i32 now) = Ret n /\
    (n < now + SEC_PER_YEAR -> delay_at z simple flex n <> 0) /\
    forall u, now <= u < n -> u < now + SEC_PER_YEAR -> delay_at z simple flex u = 0.
Proof.
  rewrite i32_small by lia. set (inv := fun t => now <= t <= last /\ forall u, now <= u < t -> delay_at z simple flex u = 0).
  assert (Hturn : forall t, inv t -> t < now + 31536000 ->
    (delay_at z simple flex t <> 0 /\ unreachable_turn z simple (CustomInterval flex sched) (now + 31536000) t = inr t) \/
    (delay_at z simple flex t = 0 /\ flex = [] /\ unreachable_turn z simple (CustomInterval flex sched) (now + 31536000) t = inr ZBX_JAN_2038) \/
    exists c, inv c /\ t < c /\ unreachable_turn z simple (CustomInterval flex sched) (now + 31536000) t = inl c).
  { intros t [Ht Hu] Hlt. unfold unreachable_turn. rewrite (proj2 (Z.ltb_lt _ _)) by done. cbn [flexible]. fold (delay_at z simple flex t).
    destruct (Z.eqb_spec (delay_at z simple flex t) 0) as [E|E]; cbn [negb]; [right|by left]. destruct (decide (flex = [])) as [Ef|Ef].
    - left. rewrite Ef in *. done.
    - right. destruct (next_delay_ok z off dst now last Hz simple flex Hflex t Ef Ht) as (c & -> & Hc & _ & Hsame). rewrite i32_small by lia.
      exists c. split; [|split; [lia|done]]. split; [lia|]. intros u Hu'. destruct (Z.lt_ge_cases u t); [apply Hu; lia|]. rewrite Hsame by lia. done. }
  assert (Hstop : forall t, ~ t < now + 31536000 -> unreachable_turn z simple (CustomInterval flex sched) (now + 31536000) t = inr t).
  { intros t Ht. unfold unreachable_turn. by rewrite (proj2 (Z.ltb_ge _ _)) by lia. }
  destruct (loop_until_ok (unreachable_turn z simple (CustomInterval flex sched) (now + 31536000)) inv (fun t => last - t) 25 now) as (n & t & E & Ht & Et).
  - intros t t' Ht Et. destruct (Z.lt_ge_cases t (now + 31536000)) as [Hlt|]; [|rewrite Hstop in Et by lia; done].
    destruct (Hturn t Ht Hlt) as [(_ & E)|[(_ & _ & E)|(c & Hc & Hlt' & E)]]; rewrite E in Et; try done. injection Et as <-. split; [done|]. destruct Hc. lia.
  - split; [lia|]. intros u Hu. lia.
  - change (2 ^ Z.of_nat 25) with 33554432. lia.
  - exists n. split; [done|]. destruct (Z.lt_ge_cases t (now + 31536000)) as [Hlt|].
    2: { rewrite Hstop in Et by lia. injection Et as <-. split; [lia|]. intros u Hu _. by apply Ht. }
    destruct (Hturn t Ht Hlt) as [(Hd & E')|[(Hd & Ef & E')|(c & _ & _ & E')]]; rewrite E' in Et; try done; injection Et as <-.
    + split; [done|]. intros u Hu _. by apply Ht.
    + split; [lia|]. intros u _ _. revert Hd. unfold delay_at, get_current_delay. by rewrite Ef.
Qed.
End unreachable.
