(* ===== verification/IntervalText.v ===== *)
(** * Update intervals: the texts accepted

    Theorems on the parsers of Interval.v: what a delay is ([delay_text]), that
    validation accepts the very texts the parser accepts, and that parsed
    intervals are well formed. *)
From stdpp Require Import prelude list.
From Stdlib Require Import ZArith Lia.
From S2P Require Import Prelude JsonText Num Calendar Macro Interval Scheduler SchedSearch NextCheck.
#[local] Open Scope Z_scope.

(** ** Delays *)

Abbreviation digits_of := (Forall (fun c => isdigit c = true)).

Definition decimal (ds : list Z) : Z := number 10 ((fun c => c - 48) <$> ds) 0.

(** Digits and at most one letter; the value in seconds fits an [int]. *)
Definition delay_text (a : list Z) (v : Z) : Prop :=
  exists ds us f, a = ds ++ us /\ ds <> [] /\ digits_of ds /\
    ((us = [] /\ f = 1) \/ exists c, us = [c] /\ suffix_factor c = Some f) /\ v = decimal ds * f /\ v <= 0x7fffffff.

Lemma suffix_factor_pos c f : suffix_factor c = Some f -> 1 <= f <= SEC_PER_WEEK /\ isdigit c = false /\ c <> 0 /\ c <> SEMI /\ c <> SLASH.
Proof. unfold suffix_factor, isdigit. repeat case_match; intros; simplify_eq; unbool; subst; cbn; lia. Qed.

Lemma decimal_nonneg v ds : 0 <= v -> digits_of ds -> v <= number 10 ((fun c => c - 48) <$> ds) v.
Proof.
  intros Hv Hd. apply number_ge; [lia|done|]. apply Forall_fmap. eapply Forall_impl; [exact Hd|]. unfold isdigit. intros c Hc. unbool. cbn. lia.
Qed.

Lemma suffix_digits_ok ds t len v : digits_of ds -> zlen ds <= len -> t = [] \/ isdigit (deref t) = false \/ len = zlen ds -> 0 <= v <= 0x7fffffff ->
  suffix_digits (ds ++ t) len v =
    let x := number 10 ((fun c => c - 48) <$> ds) v in if x <=? 0x7fffffff then Some (t, len - zlen ds, x) else None.
Proof.
  intros Hd. revert len v. induction Hd as [|c ds Hc Hd IH]; intros len v Hl Ht Hv.
  - cbn [app fmap list_fmap number foldl]. rewrite (proj2 (Z.leb_le v _)) by lia. rewrite zlen_nil, Z.sub_0_r. destruct t as [|c t]; [done|].
    cbn [suffix_digits]. destruct Ht as [?|[Ht|Ht]]; [done| |]; cbn [deref] in *.
    + by rewrite Ht, andb_false_r.
    + rewrite zlen_nil in Ht. subst len. done.
  - rewrite zlen_cons in *. pose proof (zlen_nonneg ds). cbn [app suffix_digits]. rewrite (proj2 (Z.ltb_lt 0 len)), Hc by lia. cbn [andb].
    rewrite fmap_cons. cbn [number foldl]. fold (number 10 ((fun c => c - 48) <$> ds) (v * 10 + (c - 48))).
    assert (0 <= c - 48 <= 9) by (unfold isdigit in Hc; unbool; lia). rewrite Z.quot_div_nonneg by lia.
    destruct (Z.ltb_spec ((2147483647 - (c - 48)) / 10) v).
    + pose proof (decimal_nonneg (v * 10 + (c - 48)) ds ltac:(lia) Hd). rewrite (proj2 (Z.leb_gt _ _)); [done|]. dlia.
    + rewrite IH; [|lia| |dlia]; [|destruct Ht as [?|[?|?]]; [by left|by right; left|right; right; lia]].
      cbn zeta. case_match; [|done]. do 3 f_equal. lia.
Qed.

Lemma digits_span a : exists ds us, a = ds ++ us /\ digits_of ds /\ (us = [] \/ isdigit (deref us) = false).
Proof.
  induction a as [|c a (ds & us & -> & Hd & Hu)]; [exists [], []; auto|]. destruct (isdigit c) eqn:E.
  - exists (c :: ds), us. split; [done|]. split; [by constructor|done].
  - exists [], (c :: ds ++ us). split; [done|]. split; [constructor|by right].
Qed.

Lemma digits_unique ds us ds' us' : digits_of ds -> digits_of ds' -> (us = [] \/ isdigit (deref us) = false) -> (us' = [] \/ isdigit (deref us') = false) ->
  ds ++ us = ds' ++ us' -> ds = ds' /\ us = us'.
Proof.
  intros Hd Hd' Hu Hu'. revert ds' Hd'. induction Hd as [|c ds Hc Hd IH]; intros ds' Hd' E.
  - destruct Hd' as [|c' ds' Hc' _]; [done|]. cbn [app] in E. subst us. destruct Hu as [?|Hu]; [done|]. cbn in Hu. congruence.
  - destruct Hd' as [|c' ds' _ Hd']; [cbn [app] in E; subst us'; destruct Hu' as [?|Hu']; [done|cbn in Hu'; congruence]|].
    injection E as <- E. by destruct (IH ds' Hd' E) as [-> ->].
Qed.

(** The letter after the digits. *)
Definition unit_text (us : list Z) (f : Z) : Prop := (us = [] /\ f = 1) \/ exists c, us = [c] /\ suffix_factor c = Some f.

Lemma unit_text_head us f : unit_text us f -> (us = [] \/ isdigit (deref us) = false) /\ 1 <= f.
Proof. intros [[-> ->]|(c & -> & Hc)]; [split; [by left|lia]|]. apply suffix_factor_pos in Hc as (? & ? & _). split; [by right|lia]. Qed.

Lemma suffix_unit_iff us t x v : 0 <= x -> Forall (fun c => c <> 0) us ->
  ('(str, len, factor) ← (if negb (deref (us ++ t) =? 0) && (0 <? zlen us) then
                            factor ← suffix_factor (deref (us ++ t)); Some (tail (us ++ t), zlen us - 1, factor)
                          else Some (us ++ t, zlen us, 1));
   if negb (len =? 0) then None else if Z.quot 0x7fffffff factor <? x then None else Some (x * factor)) = Some v <->
  exists f, unit_text us f /\ v = x * f /\ v <= 0x7fffffff.
Proof.
  intros Hx Hnz. assert (Hfit : forall f, 1 <= f -> (if Z.quot 2147483647 f <? x then None else Some (x * f)) = Some v <-> v = x * f /\ v <= 2147483647).
  { intros f Hf. rewrite Z.quot_div_nonneg by lia. destruct (Z.ltb_spec (2147483647 / f) x) as [Hlt|Hge].
    - split; [done|]. intros [-> Hle]. assert (x <= 2147483647 / f) by (apply Z.div_le_lower_bound; lia). lia.
    - pose proof (Z.mul_div_le 2147483647 f ltac:(lia)). split; [intros [= <-]; split; [done|nia]|intros [-> _]; done]. }
  unfold unit_text. destruct Hnz as [|c us Hc _].
  - change (zlen (@nil Z)) with 0. change (0 <? 0) with false. rewrite andb_false_r. cbn [mbind option_bind]. change (negb (0 =? 0)) with false.
    cbn [app]. rewrite Hfit by lia. naive_solver.
  - rewrite zlen_cons. pose proof (zlen_nonneg us). cbn [app deref tail]. rewrite (proj2 (Z.eqb_neq c 0)), (proj2 (Z.ltb_lt 0 _)) by (done || lia). cbn [negb andb].
    destruct (suffix_factor c) as [f|] eqn:Ef; cbn [mbind option_bind]; [|split; [done|naive_solver]].
    destruct us as [|c' us].
    + change (negb (1 + zlen (@nil Z) - 1 =? 0)) with false. cbn match. rewrite Hfit by (apply suffix_factor_pos in Ef; lia).
      split; [intros ?; exists f; eauto|]. intros (f' & [[? _]|(c' & [= <-] & E)] & ? & ?); [done|]. rewrite E in Ef. by injection Ef as ->.
    + rewrite zlen_cons, (proj2 (Z.eqb_neq _ 0)) by (pose proof (zlen_nonneg us); lia). cbn [negb]. split; [done|naive_solver].
Qed.

(** The value of a delay of known length. *)
Lemma time_suffix_iff a t v : Forall (fun c => c <> 0) a -> zlen a <> ZBX_LENGTH_UNLIMITED -> zbx_is_time_suffix (a ++ t) (zlen a) = Some v <-> delay_text a v.
Proof.
  intros Hnz Hu. destruct (digits_span a) as (ds & us & -> & Hd & Hus). unfold zbx_is_time_suffix. destruct (decide (ds = [])) as [->|Hne].
  { transitivity False.
    - split; [|done]. cbn [app]. destruct us as [|c us]; [change (zlen (@nil Z) <=? 0) with true; by rewrite orb_true_r|]. destruct Hus as [?|Hus]; [done|].
      cbn [app deref] in *. by rewrite Hus, orb_true_r.
    - split; [done|]. intros (ds & us' & f & E & Hn & Hdd & _). destruct ds as [|c ds]; [done|]. apply Forall_cons in Hdd as [Hc _].
      cbn [app] in E. subst us. destruct Hus as [?|Hus]; [done|]. cbn in Hus. congruence. }
  apply Forall_app in Hnz as [Hnzd Hnzu]. pose proof (zlen_pos ds Hne). pose proof (zlen_nonneg us).
  assert (Hh : deref ((ds ++ us) ++ t) <> 0 /\ isdigit (deref ((ds ++ us) ++ t)) = true).
  { destruct Hd as [|c ds Hc _]; [done|]. apply Forall_cons in Hnzd as [? _]. done. }
  destruct Hh as [Hh0 ->]. rewrite (proj2 (Z.eqb_neq _ 0)), (proj2 (Z.leb_gt _ 0)) by (done || rewrite zlen_app; lia). cbn [orb negb].
  rewrite <- app_assoc, suffix_digits_ok; [|done|rewrite zlen_app; lia|destruct us; [right; right; rewrite app_nil_r; done|right; left; by destruct Hus]|lia].
  fold (decimal ds). cbn zeta. pose proof (decimal_nonneg 0 ds ltac:(lia) Hd) as Hx. fold (decimal ds) in Hx.
  rewrite (proj2 (Z.eqb_neq (zlen _) _)) by done. cbn [andb orb negb]. replace (zlen (ds ++ us) - zlen ds) with (zlen us) by (rewrite zlen_app; lia).
  assert (Hr : delay_text (ds ++ us) v <-> exists f, unit_text us f /\ v = decimal ds * f /\ v <= 2147483647).
  { split.
    - intros (ds' & us' & f & E & _ & Hd' & Hf & Hv). destruct (digits_unique ds us ds' us' Hd Hd' Hus (proj1 (unit_text_head us' f Hf)) E) as [<- <-]. eauto.
    - intros (f & Hf & Hv). exists ds, us, f. auto. }
  rewrite Hr, <- (suffix_unit_iff us t (decimal ds) v Hx Hnzu).
  destruct (Z.leb_spec (decimal ds) 2147483647) as [Hle|Hgt]; cbn [mbind option_bind]; [done|]. split; [done|].
  rewrite suffix_unit_iff by done. intros (f & Hf & -> & Hle). apply unit_text_head in Hf as [_ Hf]. nia.
Qed.

Lemma suffix_digits_len a k x : 0 <= k -> Forall (fun c => c <> 0) a ->
  match suffix_digits a (zlen a) x with
  | Some (s, l, y) => l = zlen s /\ Forall (fun c => c <> 0) s /\ suffix_digits a (zlen a + k) x = Some (s, l + k, y)
  | None => suffix_digits a (zlen a + k) x = None
  end.
Proof.
  intros Hk Ha. revert x. induction Ha as [|c a Hc Ha IH]; intros x; [split; [done|split; [constructor|done]]|]. cbn [suffix_digits]. rewrite !zlen_cons. pose proof (zlen_nonneg a).
  rewrite !(proj2 (Z.ltb_lt 0 _)) by lia. destruct (isdigit c); cbn [andb].
  - destruct (_ <? x); [done|]. replace (1 + zlen a - 1) with (zlen a) by lia. replace (1 + zlen a + k - 1) with (zlen a + k) by lia. apply IH.
  - rewrite zlen_cons. split; [done|]. split; [by constructor|done].
Qed.

Lemma deref_nonzero s : Forall (fun c => c <> 0) s -> (deref s =? 0) = (zlen s =? 0).
Proof.
  intros Hs. destruct Hs as [|c s Hc _]; [done|]. rewrite zlen_cons. pose proof (zlen_nonneg s). cbn [deref].
  by rewrite !(proj2 (Z.eqb_neq _ _)) by (done || lia).
Qed.

(** A whole text gives the same as one of known length. *)
Lemma time_suffix_whole a : Forall (fun c => c <> 0) a -> zlen a < ZBX_LENGTH_UNLIMITED -> zbx_is_time_suffix a ZBX_LENGTH_UNLIMITED = zbx_is_time_suffix a (zlen a).
Proof.
  intros Ha Hl. unfold zbx_is_time_suffix. pose proof (zlen_nonneg a). rewrite (deref_nonzero a Ha).
  destruct (Z.eqb_spec (zlen a) 0) as [E|E]; [done|]. rewrite (proj2 (Z.leb_gt (zlen a) 0)) by lia. change (2147483647 <=? 0) with false. cbn [orb].
  destruct (isdigit (deref a)); cbn [negb]; [|done]. pose proof (suffix_digits_len a (2147483647 - zlen a) 0 ltac:(lia) Ha) as H'.
  replace (zlen a + (2147483647 - zlen a)) with 2147483647 in H' by lia. rewrite (proj2 (Z.eqb_neq (zlen a) _)) by lia. rewrite Z.eqb_refl. cbn [andb orb negb].
  destruct (suffix_digits a (zlen a) 0) as [[[s l] y]|]; [|by rewrite H']. destruct H' as (-> & Hs & ->). cbn [mbind option_bind].
  destruct Hs as [|c s Hc Hs]; [cbn [deref]; by rewrite andb_false_r|]. rewrite zlen_cons. pose proof (zlen_nonneg s). cbn [deref tail].
  rewrite (proj2 (Z.eqb_neq c 0)), !(proj2 (Z.ltb_lt 0 _)) by (done || lia). cbn [negb andb]. destruct (suffix_factor c); [|done]. cbn [mbind option_bind].
  rewrite (deref_nonzero s Hs). replace (1 + zlen s - 1) with (zlen s) by lia. by rewrite !orb_false_r.
Qed.

(** ** Parts of a text *)

Lemma strchr_ptr_spec s c :
  match strchr_ptr s c with
  | Some d => exists a r, s = a ++ d /\ d = c :: r /\ Forall (fun x => x <> c) a /\ ptr_diff d s = zlen a
  | None => Forall (fun x => x <> c) s
  end.
Proof.
  induction s as [|x s IH]; cbn [strchr_ptr]; [constructor|]. destruct (Z.eqb_spec x c) as [->|Hx].
  - exists [], s. unfold ptr_diff. split; [done|]. split; [done|]. split; [constructor|]. rewrite zlen_nil. lia.
  - destruct (strchr_ptr s c) as [d|]; [|by constructor]. destruct IH as (a & r & -> & -> & Ha & E). exists (x :: a), r.
    split; [done|]. split; [done|]. split; [by constructor|]. unfold ptr_diff in *. lens.
Qed.

Lemma strchr_app a s c : Forall (fun x => x <> c) a -> strchr_ptr (a ++ s) c = strchr_ptr s c.
Proof. intros Ha. induction Ha as [|x a Hx Ha IH]; [done|]. cbn [app strchr_ptr]. by rewrite (proj2 (Z.eqb_neq x c)). Qed.

Lemma part_len_app a s d : part_len (a ++ s) d = zlen a + part_len s d.
Proof. unfold part_len, ptr_diff. destruct d; rewrite zlen_app; lia. Qed.

Lemma part_len_nonneg s c : 0 <= part_len s (strchr_ptr s c) <= zlen s.
Proof.
  pose proof (strchr_ptr_spec s c) as H. pose proof (zlen_nonneg s). unfold part_len. destruct (strchr_ptr s c) as [d|]; [|lia].
  destruct H as (a & r & E & _ & _ & ->). rewrite E, zlen_app. pose proof (zlen_nonneg a). pose proof (zlen_nonneg d). lia.
Qed.

Lemma span_delay_ok a s len : Forall (fun x => x <> SLASH) a -> zlen a <= len -> (len = zlen a \/ s = [] \/ deref s = SLASH) ->
  span_delay (a ++ s) len = (s, len - zlen a).
Proof.
  intros Ha. revert len. induction Ha as [|x a Hx Ha IH]; intros len Hl Hs.
  - rewrite zlen_nil, Z.sub_0_r in *. destruct s as [|c s]; [done|]. cbn [app span_delay]. destruct Hs as [->|[?|Hs]]; [done|done|]. cbn in Hs. subst c.
    by rewrite andb_false_r.
  - rewrite zlen_cons in *. pose proof (zlen_nonneg a). cbn [app span_delay]. rewrite (proj2 (Z.ltb_lt 0 len)), (proj2 (Z.eqb_neq x SLASH)) by (done || lia).
    cbn [negb andb]. rewrite IH; [f_equal; lia|lia|]. destruct Hs as [?|Hs]; [left; lia|by right].
Qed.

Lemma delay_text_chars a v : delay_text a v -> Forall (fun c => c <> SEMI /\ c <> SLASH /\ c <> 0) a.
Proof.
  intros (ds & us & f & -> & _ & Hd & Hu & _). apply Forall_app. split.
  - eapply Forall_impl; [exact Hd|]. unfold isdigit. intros c Hc. cbn beta in Hc. unbool. lia.
  - destruct Hu as [[-> _]|(c & -> & Hc)]; [constructor|]. apply suffix_factor_pos in Hc. constructor; [tauto|constructor].
Qed.

(** ** Validation and parsing agree *)

Definition c_text (s : list Z) : Prop := Forall (fun c => c <> 0) s.

(** The flexible interval of a part, as the validation takes it apart. *)
Lemma flexible_agree str : c_text str -> zlen str < ZBX_LENGTH_UNLIMITED ->
  let delim := strchr_ptr str SEMI in
  match flexible_delay str None with
  | Some (_, interval, d) =>
      strchr_ptr (tail d) SEMI = delim /\
      flexible_interval_parse str (part_len str delim) =
        (p ← time_period_parse (tail d) (part_len (tail d) delim); Some (FlexInterval p interval))
  | None => flexible_interval_parse str (part_len str delim) = None
  end.
Proof.
  intros Hc Hlen delim. unfold flexible_delay, parse_simple_interval. pose proof (strchr_ptr_spec str SLASH) as Hsl.
  pose proof (part_len_nonneg str SEMI) as Hpl. fold delim in Hpl.
  destruct (strchr_ptr str SLASH) as [d|].
  - destruct Hsl as (a & t & E & -> & Ha & Ediff). rewrite Ediff. cbn [mbind option_bind part_len]. rewrite Ediff.
    assert (Hca : c_text a) by (rewrite E in Hc; by apply Forall_app in Hc as [? _]).
    assert (Hla : zlen a <> 2147483647) by (rewrite E, zlen_app in Hlen; pose proof (zlen_nonneg (SLASH :: t)); lia).
    destruct (decide (Forall (fun x => x <> SEMI) a)) as [Hs|Hs].
    + assert (Ed : delim = strchr_ptr t SEMI) by (unfold delim; rewrite E, strchr_app by done; done).
      assert (En : part_len str delim = zlen a + (1 + part_len t delim)).
      { rewrite E, part_len_app. f_equal. change (SLASH :: t) with ([SLASH] ++ t). by rewrite part_len_app. }
      pose proof (part_len_nonneg t SEMI) as Hpt. rewrite <- Ed in Hpt.
      assert (Esp : span_delay str (zlen a + (1 + part_len t delim)) = (SLASH :: t, zlen a + (1 + part_len t delim) - zlen a)).
      { rewrite E. apply span_delay_ok; [done|lia|by right; right]. }
      assert (Edr : drop (Z.to_nat (zlen a)) str = SLASH :: t) by (rewrite E, to_nat_zlen; apply drop_app_length).
      unfold flexible_interval_parse. rewrite En, Esp, Ediff. cbn [tail deref]. destruct (zbx_is_time_suffix str (zlen a)) as [v|] eqn:Ev; cbn [mbind option_bind]; [|done].
      rewrite Edr. cbn [deref tail]. change (SLASH =? SLASH) with true. cbn match. split; [done|].
      rewrite (proj2 (Z.leb_gt _ 0)) by lia. cbn [orb negb]. replace (zlen a + (1 + part_len t delim) - zlen a - 1) with (part_len t delim) by lia. done.
    + assert (Hno : zbx_is_time_suffix str (zlen a) = None).
      { destruct (zbx_is_time_suffix str (zlen a)) as [v|] eqn:Ev; [|done]. rewrite E in Ev. apply time_suffix_iff in Ev; [|done|done].
        apply delay_text_chars in Ev. destruct Hs. eapply Forall_impl; [exact Ev|]. tauto. }
      rewrite Hno. cbn [mbind option_bind]. pose proof (strchr_ptr_spec a SEMI) as Hsa. destruct (strchr_ptr a SEMI) as [da|]; [|done].
      destruct Hsa as (a1 & a2 & Ea & -> & Ha1 & _). assert (Est : str = a1 ++ SEMI :: a2 ++ SLASH :: t) by (rewrite E, Ea, <- app_assoc; done).
      assert (En : part_len str delim = zlen a1).
      { unfold delim. rewrite Est, part_len_app, strchr_app by done. cbn [strchr_ptr]. change (SEMI =? SEMI) with true. cbn match. unfold part_len, ptr_diff. lia. }
      assert (Esp : span_delay str (zlen a1) = (SEMI :: a2 ++ SLASH :: t, zlen a1 - zlen a1)).
      { rewrite Est. apply span_delay_ok; [by rewrite Ea in Ha; apply Forall_app in Ha as [? _]|lia|by left]. }
      unfold flexible_interval_parse. rewrite En, Esp, Z.sub_diag. destruct (zbx_is_time_suffix str (ptr_diff _ str)); reflexivity.
  - assert (Hnone : flexible_interval_parse str (part_len str delim) = None).
    { pose proof (strchr_ptr_spec str SEMI) as Hse. fold delim in Hse. unfold flexible_interval_parse, part_len in *. destruct delim as [d|].
      - destruct Hse as (a & t & E & -> & _ & ->).
        assert (Esp : span_delay str (zlen a) = (SEMI :: t, zlen a - zlen a)).
        { rewrite E. apply span_delay_ok; [by rewrite E in Hsl; apply Forall_app in Hsl as [? _]|lia|by left]. }
        rewrite Esp, Z.sub_diag. destruct (zbx_is_time_suffix str _); reflexivity.
      - pose proof (span_delay_ok str [] (zlen str) Hsl ltac:(lia) ltac:(by left)) as Esp. rewrite app_nil_r in Esp.
        rewrite Esp, Z.sub_diag. destruct (zbx_is_time_suffix str _); reflexivity. }
    destruct (zbx_is_time_suffix str 2147483647); cbn [mbind option_bind part_len]; [|done]. rewrite to_nat_zlen, drop_all. done.
Qed.

Lemma no_macro str : LBR ∉ str -> parse_user_macro str = None.
Proof.
  intros Hn. unfold parse_user_macro. destruct str as [|c str]; [done|]. cbn [deref]. destruct (Z.eqb_spec c LBR) as [->|]; [|done]. exfalso. apply Hn. by left.
Qed.

Lemma flexible_delay_digit str : isdigit (deref str) = false -> flexible_delay str None = None.
Proof. intros Hd. unfold flexible_delay, parse_simple_interval, zbx_is_time_suffix. by rewrite Hd, !orb_true_r. Qed.

(** A scheduling interval does not start with a digit. *)
Lemma scheduling_digit str len : isdigit (deref str) = true -> scheduler_interval_parse no_filters str len = None.
Proof.
  intros Hd. unfold scheduler_interval_parse. destruct (len =? 0) eqn:El; [done|]. cbn [parse_units]. rewrite El.
  assert (Hp : parse_unit no_filters str (len - 1) = None); [|by rewrite Hp].
  unfold parse_unit. unfold isdigit in Hd. unbool. by rewrite !(proj2 (Z.eqb_neq _ _)) by lia.
Qed.

Definition nonempty (flex : list zbx_flexible_interval_t) (sched : list zbx_scheduler_interval_t) : Prop := flex <> [] \/ sched <> [].

(** A text of C without macros. *)
Definition plain_text (s : list Z) : Prop := c_text s /\ (LBR ∉ s) /\ zlen s < ZBX_LENGTH_UNLIMITED.

Lemma plain_next s d : plain_text s -> strchr_ptr s SEMI = Some d -> plain_text (tail d).
Proof.
  intros (Hct & Hbr & Hlen) E. pose proof (strchr_ptr_spec s SEMI) as Hsp. rewrite E in Hsp. destruct Hsp as (a & r & -> & -> & _ & _). cbn [tail].
  apply Forall_app in Hct as [_ Hct]. apply Forall_cons in Hct as [_ Hct]. split; [done|]. split; [intros Hin; apply Hbr, elem_of_app; right; by right|].
  rewrite zlen_app, zlen_cons in Hlen. pose proof (zlen_nonneg a). lia.
Qed.

Lemma loops_agree fuel simple str0 delim flex sched custom :
  (forall d, delim = Some d -> plain_text (tail d)) -> (custom = true <-> nonempty flex sched) ->
  match preproc_loop fuel simple str0 delim flex sched, validate_loop fuel simple delim custom with
  | inr (flex', sched', _), inr custom' => custom' = true <-> nonempty flex' sched'
  | inl _, inl _ => True
  | _, _ => False
  end.
Proof.
  revert str0 delim flex sched custom. induction fuel as [|fuel IH]; intros str0 delim flex sched custom Hd Hc; [by destruct delim|].
  destruct delim as [d|]; [|done]. destruct (Hd d eq_refl) as (Hct & Hbr & Hlen). cbn [preproc_loop validate_loop]. set (str := tail d) in *.
  rewrite (no_macro str Hbr). set (delim := strchr_ptr str SEMI).
  assert (Hnext : forall d', delim = Some d' -> plain_text (tail d')) by (intros d' E; by apply (plain_next str)).
  pose proof (flexible_agree str Hct Hlen) as Hfa. cbn zeta in Hfa. fold delim in Hfa. destruct (isdigit (deref str)) eqn:Edig.
  - destruct (flexible_delay str None) as [[[len interval] sl]|] eqn:Efd.
    + destruct Hfa as [Esl ->]. assert (Hm : parse_user_macro (tail sl) = None).
      { apply no_macro. intros Hin. apply Hbr. revert Efd. unfold flexible_delay. destruct (parse_simple_interval str SLASH) as [[l v]|]; [|done]. cbn [mbind option_bind].
        case_match; [|done]. intros [= _ _ <-]. revert Hin. generalize (Z.to_nat l). intros n Hin. rewrite <- (take_drop n str). apply elem_of_app. right.
        revert Hin. destruct (drop n str); cbn [tail]; [by intros ?%not_elem_of_nil|by right]. }
      rewrite Hm. cbn [macro_end]. rewrite Esl. destruct (time_period_parse (tail sl) (part_len (tail sl) delim)) as [p|]; cbn [mbind option_bind delay].
      * rewrite (andb_comm (interval =? 0)). destruct ((simple =? 0) && (interval =? 0)); [done|]. apply IH; [done|]. split; [by left|done].
      * destruct ((interval =? 0) && (simple =? 0)); done.
    + rewrite Hfa. cbn [macro_end]. by rewrite scheduling_digit.
  - rewrite flexible_delay_digit by done. cbn [macro_end]. destruct (scheduler_interval_parse no_filters str (part_len str delim)) as [iv|]; [|done].
    apply IH; [done|]. split; [by right|done].
Qed.

Lemma drop_part str : drop (Z.to_nat (part_len str (strchr_ptr str SEMI))) str = default [] (strchr_ptr str SEMI).
Proof.
  pose proof (strchr_ptr_spec str SEMI) as H. unfold part_len. destruct (strchr_ptr str SEMI) as [d|]; cbn [default].
  - destruct H as (a & r & E & _ & _ & ->). rewrite E, to_nat_zlen. apply drop_app_length.
  - rewrite to_nat_zlen. apply drop_all.
Qed.

(** C19: Validation and parsing agree: for every text without user macros
    [zbx_validate_interval] accepts the update interval exactly when
    [zbx_interval_preproc] can parse it, so that an interval that was accepted
    when an item was created is not refused later. *)
Theorem validation_agrees text : plain_text text ->
  zbx_validate_interval text = None <-> exists r, zbx_interval_preproc text true = inr r.
Proof.
  intros Ht. unfold zbx_validate_interval, zbx_interval_preproc. rewrite (no_macro text (proj1 (proj2 Ht))). cbn [macro_end].
  unfold parse_simple_interval. pose proof (drop_part text) as Edr. pose proof (strchr_ptr_spec text SEMI) as Hsp. pose proof (plain_next text) as Hnext.
  destruct (zbx_is_time_suffix text _) as [simple|]; cbn [mbind option_bind negb]; [|split; [done|by intros [? ?]]].
  rewrite Edr. set (delim := strchr_ptr text SEMI) in *.
  assert (Ed : (if deref (default [] delim) =? 0 then None else Some (default [] delim)) = delim).
  { destruct delim as [d|]; [|done]. by destruct Hsp as (a & r & _ & -> & _). }
  rewrite Ed. pose proof (loops_agree (S (length text)) simple text delim [] [] false (fun d => Hnext d Ht)) as H.
  specialize (H ltac:(split; [done|by intros [?|?]])).
  destruct (preproc_loop (S (length text)) simple text delim [] []) as [e|[[flex sched] str]], (validate_loop (S (length text)) simple delim false) as [e'|custom];
    [split; [done|by intros [? ?]]|done|done|].
  assert (Eb : negb custom = bool_decide (flex = []) && bool_decide (sched = [])).
  { apply eq_true_iff_eq. rewrite negb_true_iff, andb_true_iff, !bool_decide_eq_true. unfold nonempty in H. destruct custom.
    - split; [done|]. intros [-> ->]. by destruct (proj1 H eq_refl).
    - split; [intros _|done]. destruct H as [_ H]. destruct flex as [|f flex]; [|discriminate H; by left]. destruct sched as [|i sched]; [done|].
      discriminate H. by right. }
  rewrite Eb. destruct (_ || _); [split; [done|by intros [? ?]]|]. split; [intros _; eauto|done].
Qed.

(** The interval of a minute with a flexible and a scheduling part:
    1m;10/1-5,9:00-18:00;h12 *)
Definition sample_text : list Z :=
  [49; 109; 59; 49; 48; 47; 49; 45; 53; 44; 57; 58; 48; 48; 45; 49; 56; 58; 48; 48; 59; 104; 49; 50].

Lemma validation_agrees_witness : zbx_validate_interval sample_text = None /\ exists r, zbx_interval_preproc sample_text true = inr r.
Proof.
  assert (H : exists r, zbx_interval_preproc sample_text true = inr r) by (eexists; vm_compute; reflexivity).
  split; [|exact H]. apply (validation_agrees sample_text); [|exact H]. split; [|split].
  - repeat constructor; discriminate.
  - vm_compute. intros Hin. repeat (apply elem_of_cons in Hin as [Hin|Hin]; [discriminate Hin|]). by apply not_elem_of_nil in Hin.
  - vm_compute. reflexivity.
Defined.

(** ** Parsed intervals are well formed *)

Lemma uint_range s n lo hi v : zbx_is_uint_n_range s n 4 lo hi = Some v -> 0 <= lo -> hi < 2 ^ 32 -> lo <= v <= hi.
Proof.
  unfold zbx_is_uint_n_range, n_range, store_value. intros H Hlo Hhi. destruct (_ || (8 <? 4)); [done|].
  destruct (uint_loop s n 0) as [x|]; [|done]. destruct ((x <? lo) || (hi <? x)) eqn:E; [done|]. injection H as <-. unbool. change (2 ^ (8 * 4)) with (2 ^ 32). rewrite Z.mod_small; lia.
Qed.

Ltac inv_opt :=
  repeat match goal with
  | H : mbind _ _ = Some _ |- _ => apply bind_Some in H as (? & ? & H)
  | H : (let '(_, _) := ?p in _) = Some _ |- _ => destruct p eqn:?
  | H : (if ?b then _ else _) = Some _ |- _ => destruct b eqn:?; try discriminate H
  | H : Some _ = Some _ |- _ => injection H as ?; subst
  end.

Lemma time_parse_range text len t n : time_parse text len = Some (t, n) -> 0 <= t <= SEC_PER_DAY.
Proof.
  unfold time_parse. intros H. inv_opt. repeat match goal with H : zbx_is_uint_n_range _ _ _ _ _ = Some _ |- _ => apply uint_range in H; [|lia|lia] end.
  match goal with H : (_ =? 24) && _ = false |- _ => apply andb_false_iff in H as [?|?] end; unbool; lia.
Qed.

Lemma time_period_wf text len p : time_period_parse text len = Some p -> wf_period p.
Proof.
  unfold time_period_parse, wf_period. intros H. inv_opt.
  all: repeat match goal with H : time_parse _ _ = Some _ |- _ => apply time_parse_range in H end.
  all: unfold is_day in *; unbool; cbn [start_day end_day start_time end_time]; lia.
Qed.

(** A filter of the parser: a step fits the range. *)
Definition parsed_filter (min max : Z) (f : zbx_scheduler_filter_t) : Prop := wf_filter min max f /\ (f_step f = 1 \/ f_step f <= f_end f - f_start f).

Lemma filter_number_range pend len lo hi vl v p l : filter_number pend len lo hi vl = Some (v, p, l) -> 0 <= lo -> hi < 2 ^ 32 -> lo <= v <= hi.
Proof. unfold filter_number. intros H Hlo Hhi. inv_opt. by apply uint_range in H0. Qed.

Lemma filter_range_wf text len lo hi vl s e p l : filter_range text len lo hi vl = Some (s, e, p, l) -> 0 <= lo <= hi -> hi < 2 ^ 32 -> lo <= s <= e /\ e <= hi.
Proof.
  unfold filter_range. intros H Hlo Hhi. inv_opt.
  all: repeat match goal with
    | H : zbx_is_uint_n_range _ _ _ _ _ = Some _ |- _ => apply uint_range in H; [|lia|lia]
    | H : filter_number _ _ _ _ _ = Some _ |- _ => apply filter_number_range in H; [|lia|lia]
    end; unbool; lia.
Qed.

Lemma parse_filter_wf fuel text len lo hi vl chain l : scheduler_parse_filter_r fuel text len lo hi vl = Some (chain, l) -> 0 <= lo <= hi -> hi < 2 ^ 32 ->
  chain <> [] /\ Forall (parsed_filter lo hi) chain.
Proof.
  intros H Hlo Hhi. revert text len chain l H. induction fuel as [|fuel IH]; intros text len chain l H; [done|]. cbn [scheduler_parse_filter_r] in H.
  apply bind_Some in H as ([[[s e] p] l1] & Hr & H). apply bind_Some in H as ([[st p'] l2] & Hs & H). apply bind_Some in H as ([next l3] & Hn & H). injection H as <- <-.
  split; [done|]. pose proof (filter_range_wf _ _ _ _ _ _ _ _ _ Hr Hlo Hhi) as Hse. constructor.
  - assert (Hst : st = 1 \/ 1 <= st <= e - s).
    { unfold filter_step in Hs. destruct (deref p =? SLASH); [right; apply filter_number_range in Hs; lia|].
      destruct (_ =? 0); [done|]. injection Hs as <- _ _. by left. }
    unfold parsed_filter, wf_filter. cbn [f_start f_end f_step]. lia.
  - destruct (deref p' =? COMMA); [|injection Hn as <- _; constructor]. destruct (l2 - 1 =? 0); [done|]. by apply IH in Hn as [_ ?].
Qed.

(** Finer units than the level have no filter, and the level has one. *)
Definition level_ok (iv : zbx_scheduler_interval_t) : Prop :=
  (hours iv <> [] -> 2 <= filter_level iv) /\ (minutes iv <> [] -> 3 <= filter_level iv) /\ (seconds iv <> [] -> 4 <= filter_level iv) /\
  (filter_level iv = 0 \/
   (filter_level iv = 1 /\ (mdays iv <> [] \/ wdays iv <> [])) \/ (filter_level iv = 2 /\ hours iv <> []) \/
   (filter_level iv = 3 /\ minutes iv <> []) \/ (filter_level iv = 4 /\ seconds iv <> [])).

Definition parsed_interval (iv : zbx_scheduler_interval_t) : Prop :=
  Forall (parsed_filter 1 31) (mdays iv) /\ Forall (parsed_filter 1 7) (wdays iv) /\ Forall (parsed_filter 0 23) (hours iv) /\
  Forall (parsed_filter 0 59) (minutes iv) /\ Forall (parsed_filter 0 59) (seconds iv) /\ level_ok iv.

Lemma parsed_interval_wf iv : parsed_interval iv -> wf_interval iv.
Proof.
  intros (H1 & H2 & H3 & H4 & H5 & _). unfold wf_interval, wf_chain.
  repeat match goal with |- _ /\ _ => split end; (eapply Forall_impl; [eassumption|by intros f [? _]]).
Qed.

Lemma parse_filter_ok f text len lo hi vl chain l : scheduler_parse_filter f text len lo hi vl = Some (chain, l) -> 0 <= lo <= hi -> hi < 2 ^ 32 ->
  chain <> [] /\ Forall (parsed_filter lo hi) chain.
Proof. unfold scheduler_parse_filter. destruct f; [|done]. apply parse_filter_wf. Qed.

(** A filter set by the parser keeps the levels in order. *)
Ltac level_solve := cbn [mdays wdays hours minutes seconds filter_level]; intuition (congruence || lia).

Lemma parse_unit_ok iv text len iv' len' : parse_unit iv text len = Some (iv', len') -> parsed_interval iv -> parsed_interval iv' /\ 1 <= filter_level iv'.
Proof.
  unfold parse_unit. intros H (H1 & H2 & H3 & H4 & H5 & Hl). unfold parsed_interval.
  destruct (deref text =? 104); [|destruct (deref text =? 115); [|destruct (deref text =? 119); [|destruct (deref text =? 109); [|done]]]].
  - destruct (Z.ltb_spec 2 (filter_level iv)); [done|]. apply bind_Some in H as ([f l] & Hf & H). injection H as <- _.
    apply parse_filter_ok in Hf as [Hne Hwf]; [|lia|lia]. split; [|cbn; lia]. repeat (split; [done|]). unfold level_ok in *. level_solve.
  - destruct (Z.ltb_spec 4 (filter_level iv)); [done|]. apply bind_Some in H as ([f l] & Hf & H). injection H as <- _.
    apply parse_filter_ok in Hf as [Hne Hwf]; [|lia|lia]. split; [|cbn; lia]. repeat (split; [done|]). unfold level_ok in *. level_solve.
  - destruct (negb _); [done|]. destruct (Z.ltb_spec 1 (filter_level iv)); [done|]. apply bind_Some in H as ([f l] & Hf & H). injection H as <- _.
    apply parse_filter_ok in Hf as [Hne Hwf]; [|lia|lia]. split; [|cbn; lia]. repeat (split; [done|]). unfold level_ok in *. level_solve.
  - destruct (_ =? 100).
    + destruct (Z.ltb_spec 1 (filter_level iv)); [done|]. cbn [orb] in H. destruct (bool_decide _); [done|]. apply bind_Some in H as ([f l] & Hf & H). injection H as <- _.
      apply parse_filter_ok in Hf as [Hne Hwf]; [|lia|lia]. split; [|cbn; lia]. repeat (split; [done|]). unfold level_ok in *. level_solve.
    + destruct (Z.ltb_spec 3 (filter_level iv)); [done|]. apply bind_Some in H as ([f l] & Hf & H). injection H as <- _.
      apply parse_filter_ok in Hf as [Hne Hwf]; [|lia|lia]. split; [|cbn; lia]. repeat (split; [done|]). unfold level_ok in *. level_solve.
Qed.

Lemma parse_units_ok fuel iv text len iv' : parse_units fuel iv text len = Some iv' -> parsed_interval iv ->
  parsed_interval iv' /\ (1 <= filter_level iv \/ len <> 0 -> 1 <= filter_level iv').
Proof.
  revert iv text len. induction fuel as [|fuel IH]; intros iv text len H Hiv; [done|]. cbn [parse_units] in H.
  destruct (Z.eqb_spec len 0); [injection H as <-; split; [done|lia]|]. apply bind_Some in H as ([iv1 len1] & Hu & H).
  destruct (parse_unit_ok _ _ _ _ _ Hu Hiv) as [Hiv1 Hl]. destruct (IH _ _ _ H Hiv1) as (Hiv' & Hle). split; [done|]. intros _. apply Hle. by left.
Qed.

Lemma no_filters_parsed : parsed_interval no_filters.
Proof. repeat split; cbn; try constructor; done. Qed.

Lemma scheduler_interval_ok text len iv : scheduler_interval_parse no_filters text len = Some iv -> parsed_interval iv /\ 1 <= filter_level iv.
Proof.
  unfold scheduler_interval_parse. destruct (Z.eqb_spec len 0); [done|]. intros H. destruct (parse_units_ok _ _ _ _ _ H no_filters_parsed) as [? Hl].
  split; [done|]. apply Hl. by right.
Qed.

Lemma suffix_digits_range str len x s l y : suffix_digits str len x = Some (s, l, y) -> 0 <= x -> 0 <= y.
Proof.
  revert len x. induction str as [|c str IH]; intros len x; cbn [suffix_digits]; [by intros [= _ _ <-]|].
  destruct ((0 <? len) && isdigit c) eqn:E; [|by intros [= _ _ <-]]. destruct (_ <? x); [done|]. intros H Hx. apply IH in H; [done|].
  unfold isdigit in E. unbool. lia.
Qed.

Lemma time_suffix_range str len v : zbx_is_time_suffix str len = Some v -> 0 <= v <= 0x7fffffff.
Proof.
  unfold zbx_is_time_suffix. intros H. destruct (_ || _ || _); [done|]. apply bind_Some in H as ([[s l] x] & Hd & H). apply suffix_digits_range in Hd; [|lia].
  apply bind_Some in H as ([[s' l'] f] & Hf & H). assert (Hf1 : 1 <= f).
  { destruct (negb (deref s =? 0) && (0 <? l)); [|by injection Hf as _ _ <-]. apply bind_Some in Hf as (f' & Hf & [= _ _ <-]). apply suffix_factor_pos in Hf. lia. }
  destruct (_ || _); [done|]. rewrite Z.quot_div_nonneg in H by lia. destruct (Z.ltb_spec (2147483647 / f) x); [done|]. injection H as <-.
  pose proof (Z.mul_div_le 2147483647 f ltac:(lia)). nia.
Qed.

Definition parsed_flexible (simple : Z) (f : zbx_flexible_interval_t) : Prop :=
  wf_period (period f) /\ 0 <= delay f <= 0x7fffffff /\ (simple = 0 -> delay f <> 0).

Definition parsed_scheduling (iv : zbx_scheduler_interval_t) : Prop := parsed_interval iv /\ 1 <= filter_level iv.

Lemma preproc_loop_ok fuel simple str delim flex sched flex' sched' s :
  preproc_loop fuel simple str delim flex sched = inr (flex', sched', s) -> Forall (parsed_flexible simple) flex -> Forall parsed_scheduling sched ->
  Forall (parsed_flexible simple) flex' /\ Forall parsed_scheduling sched'.
Proof.
  revert str delim flex sched. induction fuel as [|fuel IH]; intros str delim flex sched H Hf Hs.
  { destruct delim; injection H as <- <- _; done. }
  destruct delim as [d|]; [|injection H as <- <- _; done]. cbn [preproc_loop] in H. destruct (isdigit _).
  - destruct (flexible_interval_parse _ _) as [f|] eqn:Ef; [|done]. destruct ((simple =? 0) && (delay f =? 0)) eqn:E; [done|].
    apply IH in H; [done| |done]. constructor; [|done]. unfold flexible_interval_parse in Ef. destruct (span_delay _ _) as [p l].
    apply bind_Some in Ef as (v & Hv & Ef). destruct (_ || _); [done|]. apply bind_Some in Ef as (per & Hp & [= <-]).
    apply time_suffix_range in Hv. apply time_period_wf in Hp. split; [done|]. split; [done|]. cbn [delay] in *. intros -> ->. done.
  - destruct (scheduler_interval_parse _ _ _) as [iv|] eqn:Ei; [|done]. apply IH in H; [done|done|]. constructor; [|done]. by apply scheduler_interval_ok in Ei.
Qed.

(** C20: Whatever text [zbx_interval_preproc] accepts, the intervals it
    builds are well formed: the simple interval is at most a day; the days of
    a period are in order and between 1 and 7, its times in order and within
    the day; every filter of a scheduling interval has a range inside that of
    its unit and a step of 1 or one that fits the range, and the level is that
    of the finest unit given; and with a simple interval of 0 there is a
    flexible or a scheduling interval and no flexible delay is 0.  This does
    not promise that the item is ever checked: see [never_checked]. *)
Theorem interval_preproc_wf text simple ci : zbx_interval_preproc text true = inr (simple, Some ci) ->
  0 <= simple <= SEC_PER_DAY /\ Forall (parsed_flexible simple) (flexible ci) /\ Forall parsed_scheduling (scheduling ci) /\
  (simple = 0 -> flexible ci <> [] \/ scheduling ci <> []).
Proof.
  unfold zbx_interval_preproc. destruct (zbx_is_time_suffix _ _) as [v|] eqn:Ev; [|done]. cbn [negb]. destruct (preproc_loop _ _ _ _ _ _) as [e|[[flex sched] s]] eqn:El; [done|].
  destruct (_ || _) eqn:Eo; [done|]. intros [= -> <-]. apply time_suffix_range in Ev. apply preproc_loop_ok in El as [Hf Hs]; [|constructor|constructor].
  apply orb_false_iff in Eo as [E1 E2]. unbool. cbn [flexible scheduling]. split; [lia|]. split; [done|]. split; [done|]. intros ->.
  apply andb_false_iff in E1 as [E1|E1]; [|done]. apply andb_false_iff in E1 as [E1|E1]; apply bool_decide_eq_false in E1; auto.
Qed.

Lemma interval_preproc_wf_witness : exists simple ci, zbx_interval_preproc sample_text true = inr (simple, Some ci) /\ 0 <= simple <= SEC_PER_DAY.
Proof.
  eexists _, _. split; [vm_compute; reflexivity|].
  refine (proj1 (interval_preproc_wf sample_text 60 (CustomInterval [FlexInterval (Period 1 5 32400 64800) 10] [SchedInterval [] [] [Filter 12 12 1] [] [] 2]) _)).
  vm_compute. reflexivity.
Defined.

(** 1m;0/1-7,00:00-24:00 is accepted: the flexible interval of delay 0 is
    always in force, and the next check is the end of time, in 2038. *)
Definition never : zbx_custom_interval_t := CustomInterval [FlexInterval (Period 1 7 0 86400) 0] [].

Example never_checked :
  zbx_interval_preproc [49; 109; 59; 48; 47; 49; 45; 55; 44; 48; 48; 58; 48; 48; 45; 50; 52; 58; 48; 48] true = inr (60, Some never) /\
  zbx_calculate_item_nextcheck utc_zone 1 7 ITEM_TYPE_ZABBIX 60 (Some never) 1737136000 0 = Ret (ZBX_JAN_2038, 0).
Proof. split; vm_compute; reflexivity. Qed.

(** The message for a simple interval that is too long quotes the last
    custom interval: for 2d;h1 it says that the update interval [h1] is invalid. *)
Example wrong_interval_quoted : zbx_interval_preproc [50; 100; 59; 104; 49] true = inl (INTERVAL_UPDATE, [104; 49]).
Proof. vm_compute. reflexivity. Qed.

(** The delay of a flexible interval has no limit but the width of [int]. *)
Example long_flexible_delay : exists ci,
  zbx_interval_preproc [49; 59; 51; 48; 48; 48; 119; 47; 49; 44; 48; 58; 48; 48; 45; 49; 58; 48; 48] true = inr (1, Some ci) /\ (delay <$> flexible ci) = [1814400000].
Proof. eexists. split; vm_compute; reflexivity. Qed.
