(* ===== verification/IntervalPrint.v ===== *)
(** * Update intervals: the round trip of their texts

    Printers for scheduling filters, scheduling intervals and time periods, and
    the proof that [zbx_interval_preproc] (src/src/libs/zbxexpr/interval.c,
    modelled in Interval.v) reads back what they print: every update interval
    is parsed to the very intervals its text was made from. *)
From stdpp Require Import prelude list.
From Stdlib Require Import ZArith Lia.
From S2P Require Import Prelude JsonText Num Calendar Macro Interval Scheduler SchedSearch NextCheck IntervalText.
#[local] Open Scope Z_scope.

(** ** Texts of intervals *)

Definition dec (n : Z) : list Z := if n <? 10 then [48 + n] else [48 + n / 10; 48 + n mod 10].
Definition dec2 (n : Z) : list Z := [48 + n / 10; 48 + n mod 10].

Definition filter_text (f : zbx_scheduler_filter_t) : list Z :=
  if f_step f =? 1 then if f_start f =? f_end f then dec (f_start f) else dec (f_start f) ++ DASH :: dec (f_end f)
  else dec (f_start f) ++ DASH :: dec (f_end f) ++ SLASH :: dec (f_step f).

Fixpoint chain_text (chain : list zbx_scheduler_filter_t) : list Z :=
  match chain with
  | [] => []
  | [f] => filter_text f
  | f :: chain => filter_text f ++ COMMA :: chain_text chain
  end.

Definition unit_chain (letters : list Z) (chain : list zbx_scheduler_filter_t) : list Z :=
  match chain with [] => [] | _ => letters ++ chain_text chain end.

Definition interval_text (iv : zbx_scheduler_interval_t) : list Z :=
  unit_chain [109; 100] (mdays iv) ++ unit_chain [119; 100] (wdays iv) ++ unit_chain [104] (hours iv) ++
  unit_chain [109] (minutes iv) ++ unit_chain [115] (seconds iv).

Definition time_text (t : Z) : list Z := dec (t / SEC_PER_HOUR) ++ COLON :: dec2 (t mod SEC_PER_HOUR / SEC_PER_MIN).

Definition period_text (p : zbx_time_period_t) : list Z :=
  (if start_day p =? end_day p then [48 + start_day p] else [48 + start_day p; DASH; 48 + end_day p]) ++
  COMMA :: time_text (start_time p) ++ DASH :: time_text (end_time p).

(** The characters after which a number, a filter or a chain ends. *)
Definition stops (s : list Z) : Prop := isdigit (deref s) = false.

Lemma dec_digits_ok n : 0 <= n <= 99 -> dec n <> [] /\ digits_of (dec n) /\ decimal (dec n) = n /\ 1 <= zlen (dec n) <= 2 /\ (n <= 9 -> zlen (dec n) = 1).
Proof.
  intros Hn. unfold dec, decimal. destruct (Z.ltb_spec n 10).
  - split; [done|]. split; [repeat constructor; unfold isdigit; rewrite andb_true_iff, !Z.leb_le; lia|].
    unfold number, zlen. cbn [fmap list_fmap foldl length]. lia.
  - split; [done|]. split; [repeat constructor; unfold isdigit; rewrite andb_true_iff, !Z.leb_le; dlia|]. unfold number, zlen. cbn [fmap list_fmap foldl length]. dlia.
Qed.

Lemma dec2_ok n : 0 <= n <= 59 -> digits_of (dec2 n) /\ decimal (dec2 n) = n.
Proof.
  intros Hn. split; [repeat constructor; unfold isdigit; rewrite andb_true_iff, !Z.leb_le; dlia|]. unfold decimal, dec2, number. cbn [fmap list_fmap foldl]. dlia.
Qed.

Lemma field_digits ds s : digits_of ds -> field (ds ++ s) (zlen ds) = ds.
Proof.
  intros Hd. induction Hd as [|c ds Hc Hd IH]; [destruct s; [done|]; cbn; by rewrite orb_true_r|]. cbn [app field]. rewrite zlen_cons. pose proof (zlen_nonneg ds).
  assert (c <> 0) by (unfold isdigit in Hc; unbool; lia). rewrite (proj2 (Z.eqb_neq c 0)), (proj2 (Z.leb_gt _ 0)) by (done || lia). cbn [orb].
  replace (1 + zlen ds - 1) with (zlen ds) by lia. by rewrite IH.
Qed.

Lemma uint_digits ds s lo hi : digits_of ds -> ds <> [] -> 0 <= lo -> lo <= decimal ds <= hi -> hi < 2 ^ 32 ->
  zbx_is_uint_n_range (ds ++ s) (zlen ds) 4 lo hi = Some (decimal ds).
Proof.
  intros Hd Hne Hlo Hv Hhi. destruct (n_range_correct (ds ++ s) (zlen ds) 4 lo hi) as [-> _]; [by apply zlen_pos|lia|cbn; lia|].
  cbn beta zeta. rewrite field_digits by done. fold (decimal ds). rewrite bool_decide_eq_true_2 by done.
  assert (Hall : forallb is_digit ds = true).
  { apply forallb_forall. intros c Hc. rewrite Forall_forall in Hd. by apply Hd, list_elem_of_In. }
  rewrite Hall, !(proj2 (Z.leb_le _ _)) by lia. done.
Qed.

Lemma span_digits_ok ds s len : digits_of ds -> stops s -> zlen ds <= len -> span_digits (ds ++ s) len = (s, len - zlen ds).
Proof.
  intros Hd Hs. revert len. induction Hd as [|c ds Hc Hd IH]; intros len Hl.
  - rewrite zlen_nil, Z.sub_0_r. destruct s as [|c s]; [done|]. cbn [app span_digits]. unfold stops in Hs. cbn in Hs. by rewrite Hs.
  - rewrite zlen_cons in *. pose proof (zlen_nonneg ds). cbn [app span_digits]. rewrite Hc, (proj2 (Z.ltb_lt 0 len)) by lia. cbn [andb].
    rewrite IH by lia. f_equal. lia.
Qed.

Lemma ptr_diff_prefix (a s : list Z) : ptr_diff s (a ++ s) = zlen a.
Proof. unfold ptr_diff. rewrite zlen_app. lia. Qed.

(** A number after a dash or a slash. *)
Lemma filter_number_ok c n s len lo hi vl : 0 <= lo -> lo <= n <= hi -> hi <= 99 -> zlen (dec n) <= vl -> stops s -> 1 + zlen (dec n) <= len ->
  filter_number (c :: dec n ++ s) len lo hi vl = Some (n, s, len - 1 - zlen (dec n)).
Proof.
  intros Hlo Hn Hhi Hvl Hs Hlen. destruct (dec_digits_ok n ltac:(lia)) as (Hne & Hd & Ev & Hz & _). unfold filter_number. cbn [tail].
  rewrite span_digits_ok by (done || lia). rewrite ptr_diff_prefix. rewrite (proj2 (Z.eqb_neq _ 0)), (proj2 (Z.ltb_ge _ _)) by lia. cbn [orb].
  rewrite uint_digits by (done || lia). cbn [mbind option_bind]. by rewrite Ev.
Qed.

Definition fits (hi vl : Z) : Prop := hi <= 99 /\ forall n, 0 <= n <= hi -> zlen (dec n) <= vl.

Lemma fits_1 : fits 7 1.
Proof. split; [lia|]. intros n Hn. destruct (dec_digits_ok n ltac:(lia)) as (_ & _ & _ & _ & H). rewrite H; lia. Qed.
Lemma fits_2 hi : hi <= 99 -> fits hi 2.
Proof. intros Hh. split; [done|]. intros n Hn. by destruct (dec_digits_ok n ltac:(lia)) as (_ & _ & _ & ? & _); lia. Qed.

(** What follows a filter. *)
Definition ends_filter (s : list Z) : Prop := stops s /\ deref s <> DASH /\ deref s <> SLASH.

Lemma filter_parts f s len lo hi vl : parsed_filter lo hi f -> 0 <= lo -> fits hi vl -> ends_filter s -> zlen (filter_text f) <= len ->
  exists p l, filter_range (filter_text f ++ s) len lo hi vl = Some (f_start f, f_end f, p, l) /\
    filter_step (filter_text f ++ s) p l (f_start f) (f_end f) vl = Some (f_step f, s, len - zlen (filter_text f)).
Proof.
  intros [(H1 & H2 & H3) H4] Hlo [Hhi Hvl] (Hs & Hs1 & Hs2). unfold filter_text. destruct (dec_digits_ok (f_start f) ltac:(lia)) as (Hne & Hd & Ev & Hz & _).
  assert (Hst : forall t len, zlen (dec (f_start f)) <= len -> stops t -> span_digits (dec (f_start f) ++ t) len = (t, len - zlen (dec (f_start f)))) by (intros; by apply span_digits_ok).
  pose proof (Hvl (f_start f) ltac:(lia)) as Hv1. pose proof (Hvl (f_end f) ltac:(lia)) as Hv2.
  destruct (Z.eqb_spec (f_step f) 1) as [E1|E1]; [destruct (Z.eqb_spec (f_start f) (f_end f)) as [E2|E2]|]; intros Hlen.
  - exists s, (len - zlen (dec (f_start f))). unfold filter_range. rewrite Hst by done. rewrite ptr_diff_prefix, (proj2 (Z.eqb_neq _ 0)), (proj2 (Z.ltb_ge _ _)) by lia.
    rewrite uint_digits by (done || lia). cbn [mbind option_bind]. rewrite (proj2 (Z.eqb_neq _ DASH)), (proj2 (Z.eqb_neq _ SLASH)), Ev, <- E2 by done. split; [done|].
    unfold filter_step. rewrite (proj2 (Z.eqb_neq _ SLASH)), ptr_diff_prefix, (proj2 (Z.eqb_neq _ 0)), E1 by (done || lia). done.
  - rewrite zlen_app, zlen_cons in Hlen. rewrite <- app_assoc. cbn [app].
    exists s, (len - zlen (dec (f_start f)) - 1 - zlen (dec (f_end f))). pose proof (zlen_nonneg (dec (f_end f))). unfold filter_range. rewrite Hst by (done || lia).
    rewrite ptr_diff_prefix, (proj2 (Z.eqb_neq _ 0)), (proj2 (Z.ltb_ge _ _)) by lia. rewrite uint_digits by (done || lia). cbn [mbind option_bind deref].
    change (DASH =? DASH) with true. cbn match. rewrite filter_number_ok by (done || lia). cbn [mbind option_bind]. rewrite Ev, (proj2 (Z.ltb_ge _ _)) by lia.
    split; [done|]. unfold filter_step. rewrite (proj2 (Z.eqb_neq _ SLASH)) by done.
    rewrite app_comm_cons, app_assoc, ptr_diff_prefix, (proj2 (Z.eqb_neq _ 0)), E1 by (rewrite ?zlen_app, ?zlen_cons; lia). do 2 f_equal. lens.
  - assert (Hstep : f_step f <= f_end f - f_start f) by lia. pose proof (Hvl (f_step f) ltac:(lia)) as Hv3.
    rewrite !zlen_app, !zlen_cons, zlen_app, zlen_cons in Hlen. rewrite <- app_assoc. cbn [app]. rewrite <- app_assoc. cbn [app].
    pose proof (zlen_nonneg (dec (f_end f))). pose proof (zlen_nonneg (dec (f_step f))).
    eexists _, _. split.
    + unfold filter_range. rewrite Hst by (done || lia). rewrite ptr_diff_prefix, (proj2 (Z.eqb_neq _ 0)), (proj2 (Z.ltb_ge _ _)) by lia.
      rewrite uint_digits by (done || lia). cbn [mbind option_bind deref]. change (DASH =? DASH) with true. cbn match. rewrite filter_number_ok by (done || lia).
      cbn [mbind option_bind]. rewrite Ev, (proj2 (Z.ltb_ge _ _)) by lia. reflexivity.
    + unfold filter_step. cbn [deref]. change (SLASH =? SLASH) with true. cbn match. rewrite filter_number_ok by (done || lia). do 2 f_equal. lens.
Qed.

Definition ends_chain (s : list Z) : Prop := ends_filter s /\ deref s <> COMMA.

Lemma filter_text_ok f lo hi : parsed_filter lo hi f -> 0 <= lo -> hi <= 99 -> 1 <= zlen (filter_text f) /\ forall s, isdigit (deref (filter_text f ++ s)) = true.
Proof.
  intros [(H1 & H2 & H3) _] Hlo Hhi. destruct (dec_digits_ok (f_start f) ltac:(lia)) as (Hne & Hd & _). unfold filter_text.
  destruct Hd as [|c ds Hc Hd]; [done|]. split.
  - pose proof (zlen_nonneg (dec (f_end f))). pose proof (zlen_nonneg (dec (f_step f))). repeat case_match; lens.
  - intros s. repeat case_match; done.
Qed.

Lemma chain_text_ok chain lo hi : chain <> [] -> Forall (parsed_filter lo hi) chain -> 0 <= lo -> hi <= 99 ->
  Z.of_nat (length chain) <= zlen (chain_text chain) /\ forall s, isdigit (deref (chain_text chain ++ s)) = true.
Proof.
  intros Hne Hwf Hlo Hhi. induction Hwf as [|f chain Hf Hwf IH]; [done|]. destruct (filter_text_ok f lo hi Hf Hlo Hhi) as [Hz Hd].
  destruct chain as [|g chain]; [cbn [chain_text length]; split; [lia|done]|]. destruct (IH ltac:(done)) as [IH1 _].
  change (chain_text (f :: g :: chain)) with (filter_text f ++ COMMA :: chain_text (g :: chain)). split.
  - rewrite zlen_app, zlen_cons. cbn [length] in *. lia.
  - intros s. rewrite <- app_assoc. apply Hd.
Qed.

Lemma parse_filter_text fuel chain s len lo hi vl : chain <> [] -> Forall (parsed_filter lo hi) chain -> 0 <= lo -> fits hi vl -> ends_chain s ->
  zlen (chain_text chain) <= len -> (length chain <= fuel)%nat ->
  scheduler_parse_filter_r fuel (chain_text chain ++ s) len lo hi vl = Some (chain, len - zlen (chain_text chain)).
Proof.
  intros Hne Hwf Hlo Hfit [He Hcomma]. revert fuel len. induction Hwf as [|f chain Hf Hwf IH]; [done|]. intros fuel len Hlen Hfuel.
  destruct fuel as [|fuel]; [cbn [length] in Hfuel; lia|]. destruct (filter_text_ok f lo hi Hf Hlo (proj1 Hfit)) as [Hz _]. cbn [scheduler_parse_filter_r].
  assert (Eta : forall f : zbx_scheduler_filter_t, Filter (f_start f) (f_end f) (f_step f) = f) by (by intros []).
  destruct chain as [|g chain].
  - cbn [chain_text] in *. destruct (filter_parts f s len lo hi vl Hf Hlo Hfit He Hlen) as (p & l & -> & Es). cbn [mbind option_bind]. rewrite Es. cbn [mbind option_bind].
    rewrite (proj2 (Z.eqb_neq _ COMMA)) by done. cbn [mbind option_bind]. by rewrite Eta.
  - change (chain_text (f :: g :: chain)) with (filter_text f ++ COMMA :: chain_text (g :: chain)) in *. rewrite zlen_app, zlen_cons in Hlen |- *.
    pose proof (zlen_nonneg (chain_text (g :: chain))).
    destruct (filter_parts f (COMMA :: chain_text (g :: chain) ++ s) len lo hi vl Hf Hlo Hfit) as (p & l & Er & Es); [done|lia|].
    rewrite <- app_assoc. cbn [app]. rewrite Er. cbn [mbind option_bind]. rewrite Es. cbn [mbind option_bind deref tail]. change (COMMA =? COMMA) with true. cbn match.
    destruct (chain_text_ok (g :: chain) lo hi ltac:(done) Hwf Hlo (proj1 Hfit)) as [Hz2 _]. cbn [length] in *.
    rewrite (proj2 (Z.eqb_neq _ 0)) by lia. rewrite (IH ltac:(done)) by lia. cbn [mbind option_bind]. rewrite Eta. do 2 f_equal. lia.
Qed.

(** *** Units *)

Definition set_level (level : Z) (chain : list zbx_scheduler_filter_t) (new : Z) : Z := match chain with [] => level | _ => new end.

(** [n] turns are enough to parse the units to [r]. *)
Definition parses (n : nat) (iv : zbx_scheduler_interval_t) (text : list Z) (len : Z) (r : zbx_scheduler_interval_t) : Prop :=
  forall fuel, (n <= fuel)%nat -> parse_units fuel iv text len = Some r.

Lemma parses_end iv text : parses 1 iv text 0 iv.
Proof. intros fuel Hf. destruct fuel as [|fuel]; [lia|done]. Qed.

(** A unit with its filters, before the rest of the units. *)
Lemma parses_unit n iv iv' letters chain rest len r :
  (chain <> [] -> letters <> [] /\ parse_unit iv (letters ++ chain_text chain ++ rest) (len - 1) = Some (iv', len - zlen (letters ++ chain_text chain))) ->
  (chain = [] -> iv = iv') -> zlen (unit_chain letters chain) <= len -> parses n iv' rest (len - zlen (unit_chain letters chain)) r ->
  parses (n + length (unit_chain letters chain)) iv (unit_chain letters chain ++ rest) len r.
Proof.
  intros Hu He Hlen Hp. unfold unit_chain in *. destruct chain as [|f chain]; [rewrite He by done; cbn [app length] in *; rewrite Nat.add_0_r; change (zlen (@nil Z)) with 0 in Hp; by rewrite Z.sub_0_r in Hp|].
  destruct (Hu ltac:(done)) as [Hl Eu]. set (t := letters ++ chain_text (f :: chain)) in *. intros fuel Hf.
  assert (Ht : 1 <= zlen t) by (unfold t; rewrite zlen_app; pose proof (zlen_pos letters Hl); pose proof (zlen_nonneg (chain_text (f :: chain))); lia). destruct fuel as [|fuel]; [unfold zlen in Ht; lia|]. cbn [parse_units].
  rewrite (proj2 (Z.eqb_neq len 0)) by lia. unfold t in Eu |- *. rewrite <- app_assoc. rewrite Eu. cbn [mbind option_bind]. rewrite app_assoc. fold t.
  replace (Z.to_nat (len - (len - zlen t))) with (length t) by (unfold zlen; lia). rewrite drop_app_length. apply Hp. unfold zlen in Ht. lia.
Qed.

Lemma parse_filter_new chain s len lo hi vl : chain <> [] -> Forall (parsed_filter lo hi) chain -> 0 <= lo -> fits hi vl -> ends_chain s -> zlen (chain_text chain) <= len ->
  scheduler_parse_filter [] (chain_text chain ++ s) len lo hi vl = Some (chain, len - zlen (chain_text chain)).
Proof.
  intros Hne Hwf Hlo Hfit He Hlen. unfold scheduler_parse_filter. apply parse_filter_text; try done.
  destruct (chain_text_ok chain lo hi Hne Hwf Hlo (proj1 Hfit)) as [Hz _]. rewrite length_app. unfold zlen in Hz. lia.
Qed.

Lemma ends_unit letters chain rest : deref letters <> 0 -> ends_chain letters -> ends_chain rest -> ends_chain (unit_chain letters chain ++ rest).
Proof. intros Hl Hc Hr. unfold unit_chain. destruct chain; [done|]. destruct letters as [|c letters]; [done|exact Hc]. Qed.

Lemma ends_letter c letters : isdigit c = false -> c <> DASH -> c <> SLASH -> c <> COMMA -> ends_chain (c :: letters).
Proof. done. Qed.

Section units.
Context (md wd h m s : list zbx_scheduler_filter_t) (level : Z) (chain : list zbx_scheduler_filter_t) (rest : list Z) (len : Z).
Context (Hne : chain <> []) (Hend : ends_chain rest).

Lemma unit_seconds : Forall (parsed_filter 0 59) chain -> level <= 4 -> 1 + zlen (chain_text chain) <= len ->
  parse_unit (SchedInterval md wd h m [] level) ([115] ++ chain_text chain ++ rest) (len - 1) = Some (SchedInterval md wd h m chain 4, len - zlen ([115] ++ chain_text chain)).
Proof.
  intros Hwf Hl Hlen. unfold parse_unit. cbn [app deref tail filter_level seconds mdays wdays hours minutes]. change (115 =? 104) with false. change (115 =? 115) with true.
  cbn match. rewrite (proj2 (Z.ltb_ge 4 level)) by lia. rewrite parse_filter_new by (done || lia || (apply fits_2; lia)). cbn [mbind option_bind]. do 2 f_equal. rewrite zlen_cons. lia.
Qed.

Lemma unit_minutes : Forall (parsed_filter 0 59) chain -> level <= 3 -> 1 + zlen (chain_text chain) <= len ->
  parse_unit (SchedInterval md wd h [] s level) ([109] ++ chain_text chain ++ rest) (len - 1) = Some (SchedInterval md wd h chain s 3, len - zlen ([109] ++ chain_text chain)).
Proof.
  intros Hwf Hl Hlen. unfold parse_unit. cbn [app deref tail filter_level seconds mdays wdays hours minutes]. change (109 =? 104) with false. change (109 =? 115) with false.
  change (109 =? 119) with false. change (109 =? 109) with true. cbn match.
  assert (Hd : (deref (chain_text chain ++ rest) =? 100) = false).
  { apply Z.eqb_neq. destruct (chain_text_ok chain 0 59 Hne Hwf ltac:(lia) ltac:(lia)) as [_ Hd]. specialize (Hd rest). unfold isdigit in Hd. unbool. lia. }
  rewrite Hd, (proj2 (Z.ltb_ge 3 level)) by lia. rewrite parse_filter_new by (done || lia || (apply fits_2; lia)). cbn [mbind option_bind]. do 2 f_equal. rewrite zlen_cons. lia.
Qed.

Lemma unit_hours : Forall (parsed_filter 0 23) chain -> level <= 2 -> 1 + zlen (chain_text chain) <= len ->
  parse_unit (SchedInterval md wd [] m s level) ([104] ++ chain_text chain ++ rest) (len - 1) = Some (SchedInterval md wd chain m s 2, len - zlen ([104] ++ chain_text chain)).
Proof.
  intros Hwf Hl Hlen. unfold parse_unit. cbn [app deref tail filter_level seconds mdays wdays hours minutes]. change (104 =? 104) with true.
  cbn match. rewrite (proj2 (Z.ltb_ge 2 level)) by lia. rewrite parse_filter_new by (done || lia || (apply fits_2; lia)). cbn [mbind option_bind]. do 2 f_equal. rewrite zlen_cons. lia.
Qed.

Lemma unit_wdays : Forall (parsed_filter 1 7) chain -> level <= 1 -> 2 + zlen (chain_text chain) <= len ->
  parse_unit (SchedInterval md [] h m s level) ([119; 100] ++ chain_text chain ++ rest) (len - 1) = Some (SchedInterval md chain h m s 1, len - zlen ([119; 100] ++ chain_text chain)).
Proof.
  intros Hwf Hl Hlen. unfold parse_unit. cbn [app deref tail filter_level seconds mdays wdays hours minutes]. change (119 =? 104) with false. change (119 =? 115) with false.
  change (119 =? 119) with true. change (negb (100 =? 100)) with false. cbn match. rewrite (proj2 (Z.ltb_ge 1 level)) by lia.
  rewrite parse_filter_new by (done || lia || apply fits_1). cbn [mbind option_bind]. do 2 f_equal. rewrite !zlen_cons. lia.
Qed.

Lemma unit_mdays : Forall (parsed_filter 1 31) chain -> level <= 1 -> 2 + zlen (chain_text chain) <= len ->
  parse_unit (SchedInterval [] [] h m s level) ([109; 100] ++ chain_text chain ++ rest) (len - 1) = Some (SchedInterval chain [] h m s 1, len - zlen ([109; 100] ++ chain_text chain)).
Proof.
  intros Hwf Hl Hlen. unfold parse_unit. cbn [app deref tail filter_level seconds mdays wdays hours minutes]. change (109 =? 104) with false. change (109 =? 115) with false.
  change (109 =? 119) with false. change (109 =? 109) with true. change (100 =? 100) with true. cbn match. rewrite (proj2 (Z.ltb_ge 1 level)) by lia. cbn [orb].
  rewrite bool_decide_eq_false_2 by (intros H; by apply H). rewrite parse_filter_new by (done || lia || (apply fits_2; lia)). cbn [mbind option_bind]. do 2 f_equal. rewrite !zlen_cons. lia.
Qed.
End units.

Lemma unit_chain_len letters chain : chain <> [] -> zlen (unit_chain letters chain) = zlen letters + zlen (chain_text chain).
Proof. intros Hne. unfold unit_chain. destruct chain; [done|]. apply zlen_app. Qed.

Lemma unit_chain_nil letters chain t : t = unit_chain letters chain -> letters <> [] -> zlen t <= 0 -> chain = [].
Proof.
  intros -> Hl Hz. destruct chain as [|f chain]; [done|]. rewrite unit_chain_len in Hz by done. pose proof (zlen_pos letters Hl). pose proof (zlen_nonneg (chain_text (f :: chain))). lia.
Qed.

Lemma set_level_le level chain new bound : level <= bound -> new <= bound -> set_level level chain new <= bound.
Proof. by destruct chain. Qed.

(** The text of a scheduling interval is parsed to the interval. *)
Lemma interval_text_parse iv s : parsed_scheduling iv -> ends_chain s -> scheduler_interval_parse no_filters (interval_text iv ++ s) (zlen (interval_text iv)) = Some iv.
Proof.
  intros [(H1 & H2 & H3 & H4 & H5 & Hl) H0] Hs. destruct iv as [md wd h m sc level]. unfold interval_text. cbn [mdays wdays hours minutes seconds filter_level] in *.
  set (l1 := set_level 0 md 1). set (l2 := set_level l1 wd 1). set (l3 := set_level l2 h 2). set (l4 := set_level l3 m 3).
  assert (El : set_level l4 sc 4 = level).
  { unfold l4, l3, l2, l1, set_level, level_ok in *. cbn [mdays wdays hours minutes seconds filter_level] in Hl. destruct md, wd, h, m, sc; intuition (congruence || lia). }
  assert (Hb : l1 <= 1 /\ l2 <= 1 /\ l3 <= 2 /\ l4 <= 3) by (unfold l4, l3, l2, l1; repeat split; repeat apply set_level_le; lia).
  set (t1 := unit_chain [109; 100] md). set (t2 := unit_chain [119; 100] wd). set (t3 := unit_chain [104] h). set (t4 := unit_chain [109] m). set (t5 := unit_chain [115] sc).
  pose proof (zlen_nonneg t1). pose proof (zlen_nonneg t2). pose proof (zlen_nonneg t3). pose proof (zlen_nonneg t4). pose proof (zlen_nonneg t5).
  assert (P5 : parses (1 + length t5) (SchedInterval md wd h m [] l4) (t5 ++ s) (zlen t5) (SchedInterval md wd h m sc level)).
  { apply (parses_unit 1 _ (SchedInterval md wd h m sc level)); [intros Hne; split; [done|]|intros ->; by rewrite <- El|fold t5; lia|fold t5; rewrite Z.sub_diag; apply parses_end].
    rewrite <- El. unfold t5. rewrite unit_chain_len by done. destruct sc; [done|]. apply unit_seconds; try done; lens. }
  assert (E5 : ends_chain (t5 ++ s)) by (apply ends_unit; [done|by apply ends_letter|done]).
  assert (P4 : parses (1 + length t5 + length t4) (SchedInterval md wd h [] [] l3) (t4 ++ t5 ++ s) (zlen t4 + zlen t5) (SchedInterval md wd h m sc level)).
  { apply (parses_unit _ _ (SchedInterval md wd h m [] l4)); [intros Hne; split; [done|]|by intros ->|fold t4; lia|fold t4; by replace (zlen t4 + zlen t5 - zlen t4) with (zlen t5) by lia].
    unfold l4. unfold t4. rewrite unit_chain_len by done. destruct m; [done|]. apply unit_minutes; try done; lens. }
  assert (E4 : ends_chain (t4 ++ t5 ++ s)) by (apply ends_unit; [done|by apply ends_letter|done]).
  assert (P3 : parses (1 + length t5 + length t4 + length t3) (SchedInterval md wd [] [] [] l2) (t3 ++ t4 ++ t5 ++ s) (zlen t3 + (zlen t4 + zlen t5)) (SchedInterval md wd h m sc level)).
  { apply (parses_unit _ _ (SchedInterval md wd h [] [] l3)); [intros Hne; split; [done|]|by intros ->|fold t3; lia|fold t3; by rewrite Z.add_simpl_l].
    unfold l3. unfold t3. rewrite unit_chain_len by done. destruct h; [done|]. apply unit_hours; try done; lens. }
  assert (E3 : ends_chain (t3 ++ t4 ++ t5 ++ s)) by (apply ends_unit; [done|by apply ends_letter|done]).
  assert (P2 : parses (1 + length t5 + length t4 + length t3 + length t2) (SchedInterval md [] [] [] [] l1) (t2 ++ t3 ++ t4 ++ t5 ++ s) (zlen t2 + (zlen t3 + (zlen t4 + zlen t5))) (SchedInterval md wd h m sc level)).
  { apply (parses_unit _ _ (SchedInterval md wd [] [] [] l2)); [intros Hne; split; [done|]|by intros ->|fold t2; lia|fold t2; by rewrite Z.add_simpl_l].
    unfold l2. unfold t2. rewrite unit_chain_len by done. destruct wd; [done|]. apply unit_wdays; try done; lens. }
  assert (E2 : ends_chain (t2 ++ t3 ++ t4 ++ t5 ++ s)) by (apply ends_unit; [done|by apply ends_letter|done]).
  assert (P1 : parses (1 + length t5 + length t4 + length t3 + length t2 + length t1) no_filters (t1 ++ t2 ++ t3 ++ t4 ++ t5 ++ s) (zlen t1 + (zlen t2 + (zlen t3 + (zlen t4 + zlen t5)))) (SchedInterval md wd h m sc level)).
  { apply (parses_unit _ _ (SchedInterval md [] [] [] [] l1)); [intros Hne; split; [done|]|by intros ->|fold t1; lia|fold t1; by rewrite Z.add_simpl_l].
    unfold l1. unfold t1. rewrite unit_chain_len by done. destruct md; [done|]. apply unit_mdays; try done; lens. }
  assert (Hz : zlen t1 + (zlen t2 + (zlen t3 + (zlen t4 + zlen t5))) <> 0).
  { intros E. assert (Ez : md = [] /\ wd = [] /\ h = [] /\ m = [] /\ sc = []) .
    { repeat split; [apply (unit_chain_nil [109; 100] _ t1)|apply (unit_chain_nil [119; 100] _ t2)|apply (unit_chain_nil [104] _ t3)|apply (unit_chain_nil [109] _ t4)|apply (unit_chain_nil [115] _ t5)]; done || lia. }
    destruct Ez as (-> & -> & -> & -> & ->). unfold l4, l3, l2, l1, set_level in El. lia. }
  rewrite <- !app_assoc, !zlen_app. unfold scheduler_interval_parse. rewrite (proj2 (Z.eqb_neq _ 0) Hz). apply P1. rewrite !length_app. lia.
Qed.

(** *** Periods *)

Lemma time_digits_ok ds s len i : digits_of ds -> stops s -> zlen ds <= len -> 0 <= i -> i + zlen ds <= 3 -> time_digits (ds ++ s) len i = (s, len - zlen ds).
Proof.
  intros Hd Hs. revert len i. induction Hd as [|c ds Hc Hd IH]; intros len i Hl Hi Hk.
  - rewrite zlen_nil, Z.sub_0_r. destruct s as [|c s]; [done|]. cbn [app time_digits]. unfold stops in Hs. cbn in Hs. by rewrite Hs, andb_false_r.
  - rewrite zlen_cons in *. pose proof (zlen_nonneg ds). cbn [app time_digits]. rewrite Hc, (proj2 (Z.ltb_lt 0 len)), (proj2 (Z.leb_le i 2)) by lia. cbn [andb].
    rewrite IH by lia. f_equal. lia.
Qed.

(** A time of the day in whole minutes. *)
Definition minute_time (t : Z) : Prop := 0 <= t <= SEC_PER_DAY /\ t mod SEC_PER_MIN = 0.

Lemma time_text_parse t s len : minute_time t -> stops s -> zlen (time_text t) <= len -> time_parse (time_text t ++ s) len = Some (t, zlen (time_text t)).
Proof.
  intros [Ht Hm] Hs Hlen. unfold time_text in *.
  set (h := t / 3600) in *. set (m := t mod 3600 / 60) in *. assert (Hh : 0 <= h <= 24) by (unfold h; dlia). assert (Hmm : 0 <= m <= 59) by (unfold m; dlia).
  assert (Et : 3600 * h + 60 * m = t) by (unfold h, m; dlia).
  destruct (dec_digits_ok h ltac:(lia)) as (Hne & Hd & Ev & Hz & _). destruct (dec2_ok m Hmm) as [Hd2 Ev2]. assert (Hz2 : zlen (dec2 m) = 2) by done.
  rewrite zlen_app, zlen_cons, Hz2 in Hlen |- *. rewrite <- app_assoc. cbn [app]. unfold time_parse. rewrite time_digits_ok by (done || lia). rewrite ptr_diff_prefix.
  rewrite uint_digits by (done || lia). cbn [mbind option_bind deref tail]. rewrite (proj2 (Z.leb_gt _ 0)) by lia. change (negb (COLON =? COLON)) with false. cbn [orb].
  rewrite time_digits_ok by (done || lia). rewrite ptr_diff_prefix, Hz2. change (negb (2 =? 2)) with false. cbn match. rewrite <- Hz2 at 1. rewrite uint_digits by (done || lia).
  cbn [mbind option_bind]. rewrite Ev, Ev2. destruct ((h =? 24) && negb (m =? 0)) eqn:E; [apply andb_true_iff in E as [E1 E2]; unbool; lia|].
  do 2 f_equal; lia.
Qed.

Definition minute_period (p : zbx_time_period_t) : Prop := wf_period p /\ minute_time (start_time p) /\ minute_time (end_time p).

Lemma time_text_len t : 1 <= zlen (time_text t).
Proof. unfold time_text. rewrite zlen_app, zlen_cons. pose proof (zlen_nonneg (dec (t / SEC_PER_HOUR))). pose proof (zlen_nonneg (dec2 (t mod SEC_PER_HOUR / SEC_PER_MIN))). lia. Qed.

Lemma is_day_digit n : 1 <= n <= 7 -> is_day (48 + n) = true.
Proof. intros Hn. unfold is_day. rewrite andb_true_iff, !Z.leb_le. lia. Qed.

(** The times of a period, after its days. *)
Lemma period_text_parse p s : minute_period p -> stops s -> time_period_parse (period_text p ++ s) (zlen (period_text p)) = Some p.
Proof.
  intros [(Hd1 & Hd2 & Ht & _) [Hs1 Hs2]] Hs. destruct p as [d1 d2 t1 t2]. unfold period_text. cbn [start_day end_day start_time end_time] in *.
  pose proof (time_text_len t1). pose proof (time_text_len t2).
  assert (Hrest : forall len, len = 2 + zlen (time_text t1) + zlen (time_text t2) ->
    (if (len <=? 0) || negb (deref (COMMA :: time_text t1 ++ DASH :: time_text t2 ++ s) =? COMMA) then None
      else '(start_time, parsed_len) ← time_parse (time_text t1 ++ DASH :: time_text t2 ++ s) (len - 1);
        let text := drop (Z.to_nat parsed_len) (time_text t1 ++ DASH :: time_text t2 ++ s) in
        let len := len - 1 - parsed_len in
        if (len <=? 0) || negb (deref text =? DASH) then None
        else '(end_time, parsed_len) ← time_parse (tail text) (len - 1);
          if end_time <=? start_time then None
          else if negb (len - 1 - parsed_len =? 0) then None
          else Some (Period d1 d2 start_time end_time)) = Some (Period d1 d2 t1 t2)).
  { intros len ->. rewrite (proj2 (Z.leb_gt _ 0)) by lia. change (deref (COMMA :: _) =? COMMA) with true. cbn [orb negb]. rewrite time_text_parse by (done || lia).
    cbn [mbind option_bind]. cbn zeta. replace (Z.to_nat (zlen (time_text t1))) with (length (time_text t1)) by (unfold zlen; lia). rewrite drop_app_length.
    rewrite (proj2 (Z.leb_gt _ 0)) by lia. change (deref (DASH :: _) =? DASH) with true. cbn [orb negb tail]. rewrite time_text_parse by (done || lia). cbn [mbind option_bind].
    rewrite (proj2 (Z.leb_gt t2 t1)) by lia. rewrite (proj2 (Z.eqb_eq _ 0)) by lia. done. }
  unfold time_period_parse. destruct (Z.eqb_spec d1 d2) as [<-|Hne].
  - rewrite <- app_assoc. cbn [app]. rewrite <- app_assoc. cbn [app deref tail]. repeat rewrite ?zlen_app, ?zlen_cons, ?zlen_nil.
    rewrite is_day_digit, !(proj2 (Z.leb_gt _ 0)) by lia. cbn [orb negb]. change (COMMA =? DASH) with false. cbn [mbind option_bind]. replace (48 + d1 - 48) with d1 by lia.
    apply Hrest. lia.
  - rewrite <- app_assoc. cbn [app]. rewrite <- app_assoc. cbn [app deref tail]. repeat rewrite ?zlen_app, ?zlen_cons, ?zlen_nil.
    rewrite !is_day_digit, !(proj2 (Z.leb_gt _ 0)) by lia. cbn [orb negb]. change (DASH =? DASH) with true. cbn match. rewrite (proj2 (Z.ltb_ge (48 + d2 - 48) (48 + d1 - 48))) by lia.
    cbn [mbind option_bind]. replace (48 + d1 - 48) with d1 by lia. replace (48 + d2 - 48) with d2 by lia. apply Hrest. lia.
Qed.

(** *** The whole text *)

Abbreviation without c := (Forall (fun x => x <> c)).

Lemma digits_without ds c : digits_of ds -> isdigit c = false -> without c ds.
Proof. intros Hd Hc. eapply Forall_impl; [exact Hd|]. intros x Hx ->. cbn in Hx. congruence. Qed.

Lemma dec_semi n : 0 <= n <= 99 -> without SEMI (dec n).
Proof. intros Hn. apply digits_without; [by apply dec_digits_ok|done]. Qed.

Lemma chain_semi chain lo hi : Forall (parsed_filter lo hi) chain -> 0 <= lo -> hi <= 99 -> without SEMI (chain_text chain).
Proof.
  intros Hwf Hlo Hhi. induction Hwf as [|f chain [(H1 & H2 & H3) H4] _ IH]; [constructor|].
  assert (Hf : without SEMI (filter_text f)).
  { unfold filter_text. pose proof (dec_semi (f_start f) ltac:(lia)). pose proof (dec_semi (f_end f) ltac:(lia)).
    repeat case_match; unbool; rewrite ?Forall_app, ?Forall_cons, ?Forall_app, ?Forall_cons; repeat split; try done. apply dec_semi. lia. }
  destruct chain as [|g chain]; [done|]. change (chain_text (f :: g :: chain)) with (filter_text f ++ COMMA :: chain_text (g :: chain)).
  apply Forall_app. split; [done|]. by constructor.
Qed.

Lemma unit_semi letters chain lo hi : without SEMI letters -> Forall (parsed_filter lo hi) chain -> 0 <= lo -> hi <= 99 -> without SEMI (unit_chain letters chain).
Proof.
  intros Hl Hwf Hlo Hhi. pose proof (chain_semi chain lo hi Hwf Hlo Hhi) as Hc. unfold unit_chain. destruct chain; [constructor|]. by apply Forall_app.
Qed.

Lemma interval_semi iv : parsed_interval iv -> without SEMI (interval_text iv).
Proof.
  intros (H1 & H2 & H3 & H4 & H5 & _). unfold interval_text. repeat (apply Forall_app; split); (eapply unit_semi; [by repeat constructor|done|lia|lia]).
Qed.

Lemma time_semi t : minute_time t -> without SEMI (time_text t).
Proof.
  intros [Ht _]. unfold time_text. apply Forall_app. split; [apply dec_semi; dlia|]. constructor; [done|]. apply digits_without; [apply dec2_ok; dlia|done].
Qed.

Lemma period_semi p : minute_period p -> without SEMI (period_text p).
Proof.
  intros [(Hd1 & Hd2 & _) [H1 H2]]. unfold period_text. apply Forall_app. split.
  - case_match; repeat constructor; lia.
  - constructor; [done|]. apply Forall_app. split; [by apply time_semi|]. constructor; [done|by apply time_semi].
Qed.

Lemma delay_without d v c : delay_text d v -> c = 0 \/ c = SEMI \/ c = SLASH -> without c d.
Proof.
  intros (ds & us & f & -> & _ & Hd & Hu & _) Hc. apply Forall_app. split; [apply digits_without; [done|]; by destruct Hc as [->|[->| ->]]|].
  destruct Hu as [[-> _]|(x & -> & Hx)]; [constructor|]. apply suffix_factor_pos in Hx. repeat constructor. destruct Hc as [->|[->| ->]]; naive_solver.
Qed.

Lemma delay_head d v : delay_text d v -> forall s, isdigit (deref (d ++ s)) = true.
Proof. intros (ds & us & f & -> & Hne & Hd & _) s. by destruct Hd as [|c ds Hc Hd]. Qed.

Definition flexible_text (d : list Z) (p : zbx_time_period_t) : list Z := d ++ SLASH :: period_text p.

Lemma flexible_text_parse d f s : delay_text d (delay f) -> minute_period (period f) -> stops s -> zlen d < ZBX_LENGTH_UNLIMITED ->
  flexible_interval_parse (flexible_text d (period f) ++ s) (zlen (flexible_text d (period f))) = Some f.
Proof.
  intros Hd Hp Hs Hlen. unfold flexible_text. rewrite <- app_assoc. cbn [app]. unfold flexible_interval_parse. pose proof (zlen_nonneg (period_text (period f))).
  rewrite span_delay_ok; [|eapply delay_without; eauto|rewrite zlen_app, zlen_cons; lia|by right; right]. rewrite ptr_diff_prefix.
  rewrite (proj2 (time_suffix_iff d (SLASH :: period_text (period f) ++ s) (delay f) ltac:(eapply delay_without; eauto) ltac:(lia)) Hd). cbn [mbind option_bind deref tail].
  rewrite zlen_app, zlen_cons. rewrite (proj2 (Z.leb_gt _ 0)) by lia. change (negb (SLASH =? SLASH)) with false. cbn [orb].
  replace (zlen d + (1 + zlen (period_text (period f))) - zlen d - 1) with (zlen (period_text (period f))) by lia. rewrite period_text_parse by done. cbn. by destruct f.
Qed.

(** The texts of the custom intervals [fl] and [sc] of an item whose simple
    interval is [simple], each after a semicolon; a delay is in any spelling. *)
Inductive custom_text (simple : Z) : list Z -> list zbx_flexible_interval_t -> list zbx_scheduler_interval_t -> Prop :=
  | custom_none : custom_text simple [] [] []
  | custom_flexible d f text fl sc : delay_text d (delay f) -> minute_period (period f) -> (simple = 0 -> delay f <> 0) -> custom_text simple text fl sc ->
      custom_text simple (SEMI :: flexible_text d (period f) ++ text) (f :: fl) sc
  | custom_scheduling iv text fl sc : parsed_scheduling iv -> custom_text simple text fl sc -> custom_text simple (SEMI :: interval_text iv ++ text) fl (iv :: sc).

Lemma custom_head simple text fl sc : custom_text simple text fl sc -> ends_chain text /\ strchr_ptr text SEMI = match text with [] => None | _ => Some text end.
Proof. by intros []. Qed.

(** The next semicolon after a part without one. *)
Lemma part_ends simple text fl sc p : custom_text simple text fl sc -> without SEMI p ->
  strchr_ptr (p ++ text) SEMI = strchr_ptr text SEMI /\ part_len (p ++ text) (strchr_ptr text SEMI) = zlen p.
Proof.
  intros Ht Hp. split; [by apply strchr_app|]. rewrite part_len_app. destruct (custom_head _ _ _ _ Ht) as [_ ->]. destruct text; cbn [part_len]; [by rewrite Z.add_0_r|].
  unfold ptr_diff. lia.
Qed.

Lemma interval_head iv s : parsed_scheduling iv -> isdigit (deref (interval_text iv ++ s)) = false.
Proof.
  intros [(_ & _ & _ & _ & _ & Hl) H0]. destruct iv as [[|] [|] [|] [|] [|] level]; try done. exfalso. unfold level_ok in Hl. cbn [mdays wdays hours minutes seconds filter_level] in *.
  intuition (congruence || lia).
Qed.

Lemma preproc_custom simple text fl sc : custom_text simple text fl sc -> zlen text < ZBX_LENGTH_UNLIMITED -> forall fuel str flex sched, (length text <= fuel)%nat ->
  exists last, preproc_loop fuel simple str (strchr_ptr text SEMI) flex sched = inr (rev fl ++ flex, rev sc ++ sched, last).
Proof.
  induction 1 as [|d f text fl sc Hd Hp Hz Ht IH|iv text fl sc Hi Ht IH]; intros Hlen fuel str flex sched Hf.
  - exists str. by destruct fuel.
  - rewrite zlen_cons, zlen_app in Hlen. pose proof (zlen_nonneg (flexible_text d (period f))) as Hn. cbn [length] in Hf. rewrite length_app in Hf. destruct fuel as [|fuel]; [lia|].
    change (strchr_ptr (SEMI :: ?t) SEMI) with (Some (SEMI :: t)). cbn [preproc_loop tail].
    assert (Hs : without SEMI (flexible_text d (period f))).
    { unfold flexible_text. apply Forall_app. split; [eapply delay_without; eauto|]. constructor; [done|by apply period_semi]. }
    destruct (part_ends _ _ _ _ _ Ht Hs) as [-> ->]. assert (Hh : isdigit (deref (flexible_text d (period f) ++ text)) = true) by (unfold flexible_text; rewrite <- app_assoc; by eapply delay_head).
    rewrite Hh. rewrite flexible_text_parse; [|done|done|by apply (custom_head _ _ _ _ Ht)|unfold flexible_text in *; rewrite zlen_app, zlen_cons in *; pose proof (zlen_nonneg (period_text (period f))); pose proof (zlen_nonneg text); lia].
    destruct ((simple =? 0) && (delay f =? 0)) eqn:E; [apply andb_true_iff in E as [E1 E2]; unbool; by destruct Hz|].
    destruct (IH ltac:(lia) fuel (flexible_text d (period f) ++ text) (f :: flex) sched ltac:(lia)) as [last ->]. exists last. cbn [rev]. by rewrite <- app_assoc.
  - rewrite zlen_cons, zlen_app in Hlen. pose proof (zlen_nonneg (interval_text iv)) as Hn. cbn [length] in Hf. rewrite length_app in Hf. destruct fuel as [|fuel]; [lia|].
    change (strchr_ptr (SEMI :: ?t) SEMI) with (Some (SEMI :: t)). cbn [preproc_loop tail].
    destruct (part_ends _ _ _ _ _ Ht (interval_semi iv (proj1 Hi))) as [-> ->]. rewrite interval_head by done.
    rewrite interval_text_parse; [|done|by apply (custom_head _ _ _ _ Ht)].
    destruct (IH ltac:(lia) fuel (interval_text iv ++ text) flex (iv :: sched) ltac:(lia)) as [last ->]. exists last. cbn [rev]. by rewrite <- app_assoc.
Qed.

(** C18: The text of an update interval is parsed back to it.  A simple
    interval of at most a day in any of its spellings, followed by the texts of
    flexible and scheduling intervals in any order, each after a semicolon, is
    parsed to the number of seconds and to these very intervals, in the
    reverse of their order in the text; when the simple interval is 0, some
    custom interval has to follow. *)
Theorem interval_roundtrip d simple text fl sc : delay_text d simple -> simple <= SEC_PER_DAY -> custom_text simple text fl sc -> (simple = 0 -> fl <> [] \/ sc <> []) ->
  zlen (d ++ text) < ZBX_LENGTH_UNLIMITED -> zbx_interval_preproc (d ++ text) true = inr (simple, Some (CustomInterval (rev fl) (rev sc))).
Proof.
  intros Hd Hday Ht H0 Hlen. rewrite zlen_app in Hlen. pose proof (zlen_nonneg d). pose proof (zlen_nonneg text). unfold zbx_interval_preproc.
  assert (Hn : without 0 d) by (eapply delay_without; eauto). rewrite strchr_app by (eapply delay_without; eauto).
  assert (Hv : forall t, zbx_is_time_suffix (d ++ t) (zlen d) = Some simple) by (intros t; apply time_suffix_iff; [done|lia|done]).
  assert (Es : zbx_is_time_suffix (d ++ text) (match strchr_ptr text SEMI with None => ZBX_LENGTH_UNLIMITED | Some p => ptr_diff p (d ++ text) end) = Some simple).
  { destruct (custom_head _ _ _ _ Ht) as [_ ->]. destruct text; [|rewrite ptr_diff_prefix; apply Hv]. specialize (Hv []). rewrite app_nil_r in *. rewrite time_suffix_whole by (done || lia). done. }
  rewrite Es. cbn [negb].
  destruct (preproc_custom _ _ _ _ Ht ltac:(lia) (S (length (d ++ text))) (d ++ text) [] [] ltac:(rewrite length_app; lia)) as [last ->]. rewrite !app_nil_r.
  rewrite (proj2 (Z.ltb_ge SEC_PER_DAY simple)) by done. rewrite orb_false_r. destruct (Z.eqb_spec simple 0) as [E|E]; [|by rewrite andb_false_r].
  assert (Hb : bool_decide (rev fl = []) && bool_decide (rev sc = []) = false).
  { apply andb_false_iff. destruct (H0 E); [left|right]; apply bool_decide_eq_false_2; intros Hr; apply (f_equal (@rev _)) in Hr; rewrite rev_involutive in Hr; done. }
  by rewrite Hb.
Qed.

(** 1m;10s/1-5,9:00-18:00;md1-7/2wd1,3h12m0 *)
Definition working_hours : zbx_flexible_interval_t := FlexInterval (Period 1 5 32400 64800) 10.
Definition first_week : zbx_scheduler_interval_t := SchedInterval [Filter 1 7 2] [Filter 1 1 1; Filter 3 3 1] [Filter 12 12 1] [Filter 0 0 1] [] 3.
Definition printed_text : list Z :=
  [49; 109] ++ SEMI :: flexible_text [49; 48; 115] (period working_hours) ++ SEMI :: interval_text first_week ++ [].

Example printed_text_spelled : printed_text =
  [49; 109; 59; 49; 48; 115; 47; 49; 45; 53; 44; 57; 58; 48; 48; 45; 49; 56; 58; 48; 48;
   59; 109; 100; 49; 45; 55; 47; 50; 119; 100; 49; 44; 51; 104; 49; 50; 109; 48].
Proof. vm_compute. reflexivity. Qed.

Lemma interval_roundtrip_witness : zbx_interval_preproc printed_text true = inr (60, Some (CustomInterval [working_hours] [first_week])).
Proof.
  unfold printed_text. apply (interval_roundtrip [49; 109] 60 _ [working_hours] [first_week]).
  - exists [49], [109], 60. split; [reflexivity|]. split; [discriminate|]. split; [repeat constructor|]. split; [|split; [reflexivity|lia]]. right. exists 109. split; reflexivity.
  - lia.
  - apply custom_flexible.
    + exists [49; 48], [115], 1. split; [reflexivity|]. split; [discriminate|]. split; [repeat constructor|]. split; [|split; [reflexivity|cbn; lia]]. right. exists 115. split; reflexivity.
    + unfold minute_period, wf_period, minute_time. cbn [period working_hours start_day end_day start_time end_time]. repeat split; lia || reflexivity.
    + lia.
    + apply custom_scheduling; [|constructor]. unfold parsed_scheduling, parsed_interval, level_ok, parsed_filter, wf_filter. cbn [mdays wdays hours minutes seconds filter_level first_week].
      repeat split; rewrite ?Forall_cons, ?Forall_nil; cbn [f_start f_end f_step]; try lia; repeat split; try lia; [congruence|]. right. right. right. left. split; [reflexivity|discriminate].
  - lia.
  - vm_compute. reflexivity.
Defined.
