(* ===== verification/Scan.v ===== *)
(** * Scanners of expressions (src/libs/zbxexpr/expr.c, function.c, host.c, zbxnum/num.c)

    The character classes, numbers with a suffix, item keys and function calls
    with their parameters, as the parsers of expressions and macros recognise
    them, and the quoting of function parameters.  A pointer into a text is
    the rest of the text; the terminating 0 is the end of the list. *)
From stdpp Require Import prelude list.
From Stdlib Require Import ZArith Lia.
From S2P Require Import Prelude JsonText Macro Calendar.
#[local] Open Scope Z_scope.

Abbreviation SPACE := 32.
Abbreviation LPAR := 40.
Abbreviation RPAR := 41.
Abbreviation DOT := 46.
Abbreviation USCORE := 95.

(** The classes of ctype.h in the C locale. *)
Definition islower (c : Z) : bool := (97 <=? c) && (c <=? 122).
Definition isalpha (c : Z) : bool := isupper c || islower c.
Definition isalnum (c : Z) : bool := isalpha c || isdigit c.
Definition isspace (c : Z) : bool := (c =? 32) || ((9 <=? c) && (c <=? 13)).

Definition zbx_is_key_char (c : Z) : bool := isalnum c || (c =? DOT) || (c =? USCORE) || (c =? 45).
Definition zbx_is_hostname_char (c : Z) : bool := isalnum c || (c =? DOT) || (c =? SPACE) || (c =? USCORE) || (c =? 45).
Definition zbx_is_function_char (c : Z) : bool := islower c.

(** [while (p( *s)) s++;] *)
Fixpoint skip_while (p : Z -> bool) (s : list Z) : list Z :=
  match s with
  | c :: rest => if p c then skip_while p rest else s
  | [] => s
  end.

(** ** Host names *)

Abbreviation ZBX_MAX_HOSTNAME_LEN := 128.

Inductive hostname_error := InvalidCharacter (c : Z) | EmptyName | TooLongName.

Definition zbx_check_hostname (hostname : list Z) : option hostname_error :=
  match skip_while zbx_is_hostname_char hostname with
  | c :: _ => Some (InvalidCharacter c)
  | [] => if zlen hostname =? 0 then Some EmptyName else if ZBX_MAX_HOSTNAME_LEN <? zlen hostname then Some TooLongName else None
  end.

Definition zbx_make_hostname (host : list Z) : list Z := (fun c => if zbx_is_hostname_char c then c else USCORE) <$> host.

(** The host, if the text starts with one and a colon, and the key. *)
Definition zbx_parse_host_key (exp : list Z) : option (option (list Z) * list Z) :=
  match exp with
  | [] => None
  | _ =>
      let p := skip_while zbx_is_hostname_char exp in
      Some (if deref p =? COLON then (Some (take (Z.to_nat (ptr_diff p exp)) exp), tail p) else (None, exp))
  end.

(** ** Numbers *)

(** [while (0 != isdigit(number[++( *len)]))] *)
Definition digits_end (s : list Z) : list Z := skip_while isdigit s.

(** The exponent; [None] for FAIL. *)
Definition number_exponent (s : list Z) : option (list Z) :=
  if (deref s =? 101) || (deref s =? 69) then
    let s := tail s in
    let s := if (deref s =? 45) || (deref s =? 43) then tail s else s in
    if negb (isdigit (deref s)) then None
    else
      let s := digits_end s in
      if (deref s =? DOT) || (deref s =? 101) || (deref s =? 69) then None else Some s
  else Some s.

Fixpoint number_loop (s : list Z) (digits dots : Z) : option (list Z) :=
  let finish :=
    s ← number_exponent s;
    if (digits <? 1) || (1 <? dots) then None else Some s in
  match s with
  | c :: rest => if isdigit c then number_loop rest (digits + 1) dots else if c =? DOT then number_loop rest digits (dots + 1) else finish
  | [] => finish
  end.

(** The rest of the text after the number; its length is the difference. *)
Definition zbx_number_parse (number : list Z) : option (list Z) := number_loop number 0 0.

(** The units KMGTsmhdw. *)
Definition unit_symbols : list Z := [75; 77; 71; 84; 115; 109; 104; 100; 119].
Definition is_unit (c : Z) : bool := bool_decide (c ∈ unit_symbols).

Definition zbx_suffixed_number_parse (number : list Z) : option (list Z) :=
  s ← zbx_number_parse number; Some (if isalpha (deref s) && is_unit (deref s) then tail s else s).

Definition suffix2factor (c : Z) : Z :=
  if c =? 75 then 2 ^ 10 else if c =? 77 then 2 ^ 20 else if c =? 71 then 2 ^ 30 else if c =? 84 then 2 ^ 40
  else if c =? 115 then 1 else if c =? 109 then SEC_PER_MIN else if c =? 104 then SEC_PER_HOUR
  else if c =? 100 then SEC_PER_DAY else if c =? 119 then SEC_PER_WEEK else 1.

(** ** Item keys *)

(** 0 - init, 1 - inside quoted param, 2 - inside unquoted param *)
Inductive key_state := KInit | KQuoted | KUnquoted.

(** The loop over the parameters: the result and the pointer.  A turn consumes
    a character or leaves the unquoted state. *)
Fixpoint key_loop (fuel : nat) (state : key_state) (array : bool) (s : list Z) : bool * list Z :=
  match fuel, s with
  | O, _ | _, [] => (false, s)
  | S fuel, c :: rest =>
      match state with
      | KInit =>
          if c =? COMMA then key_loop fuel KInit array rest
          else if c =? QUOT then key_loop fuel KQuoted array rest
          else if c =? LSQ then if array then (false, s) else key_loop fuel KInit true rest
          else if (c =? RSQ) && array then
            let s := skip_while (Z.eqb SPACE) rest in
            if deref s =? RSQ then (true, tail s) else if negb (deref s =? COMMA) then (false, s) else key_loop fuel KInit false (tail s)
          else if c =? RSQ then (true, rest)
          else key_loop fuel (if negb (c =? SPACE) then KUnquoted else KInit) array rest
      | KQuoted =>
          if c =? QUOT then
            let s := skip_while (Z.eqb SPACE) rest in
            if negb array && (deref s =? RSQ) then (true, tail s)
            else if negb (deref s =? COMMA) && negb (array && (deref s =? RSQ)) then (false, s)
            else key_loop fuel KInit array s
          else if (c =? BSL) && (deref rest =? QUOT) then key_loop fuel KQuoted array (tail rest)
          else key_loop fuel KQuoted array rest
      | KUnquoted =>
          if (c =? COMMA) || ((c =? RSQ) && array) then key_loop fuel KInit array s
          else if c =? RSQ then (true, rest)
          else key_loop fuel KUnquoted array rest
      end
  end.

(** The result and the pointer, which is advanced also on failure. *)
Definition zbx_parse_key (exp : list Z) : bool * list Z :=
  let s := skip_while zbx_is_key_char exp in
  if ptr_diff s exp =? 0 then (false, exp)
  else if deref s =? LSQ then key_loop (2 * length s) KInit false (tail s)
  else (true, s).

(** ** Function calls *)

Inductive param_state := FUNC_PARAM_NEXT | FUNC_PARAM_QUOTED | FUNC_PARAM_UNQUOTED | FUNC_PARAM_POSTQUOTED.

Definition param_turn (state : param_state) (prev c : Z) : option param_state :=
  match state with
  | FUNC_PARAM_NEXT => Some (if c =? QUOT then FUNC_PARAM_QUOTED else if negb (c =? SPACE) && negb (c =? COMMA) then FUNC_PARAM_UNQUOTED else FUNC_PARAM_NEXT)
  | FUNC_PARAM_QUOTED => Some (if (c =? QUOT) && negb (prev =? BSL) then FUNC_PARAM_POSTQUOTED else FUNC_PARAM_QUOTED)
  | FUNC_PARAM_UNQUOTED => Some (if c =? COMMA then FUNC_PARAM_NEXT else FUNC_PARAM_UNQUOTED)
  | FUNC_PARAM_POSTQUOTED => if c =? COMMA then Some FUNC_PARAM_NEXT else if negb (c =? SPACE) then None else Some FUNC_PARAM_POSTQUOTED
  end.

Definition not_quoted (state : param_state) : bool := match state with FUNC_PARAM_QUOTED => false | _ => true end.

(** The index of the terminator. *)
Fixpoint params_loop (ptr : list Z) (i prev : Z) (state : param_state) (terminator : Z) : option Z :=
  match ptr with
  | [] => if (terminator =? 0) && not_quoted state then Some i else None
  | c :: rest =>
      if (terminator =? c) && not_quoted state then Some i
      else state ← param_turn state prev c; params_loop rest (i + 1) c state terminator
  end.

Definition function_validate_parameters (expr : list Z) (terminator : Z) : option Z := params_loop expr 0 0 FUNC_PARAM_NEXT terminator.

Definition zbx_function_validate_parameters (expr : list Z) : option Z := function_validate_parameters expr 0.

Definition function_match_parenthesis (expr : list Z) (par_l : Z) : option Z :=
  par_r ← function_validate_parameters (drop (Z.to_nat (par_l + 1)) expr) RPAR; Some (par_r + par_l + 1).

(** The length of the name. *)
Definition function_parse_name (expr : list Z) : option Z :=
  let ptr := skip_while zbx_is_function_char expr in
  if negb (ptr_diff ptr expr =? 0) && (deref ptr =? LPAR) then Some (ptr_diff ptr expr) else None.

(** The positions of the parentheses. *)
Definition zbx_function_validate (expr : list Z) : option (Z * Z) :=
  par_l ← function_parse_name expr; par_r ← function_match_parenthesis expr par_l; Some (par_l, par_r).

(** ** Function parameters *)

(** The loop to the closing quote, one that does not follow a backslash; the
    flag says that it was found. *)
Fixpoint param_quote_end (ptr : list Z) (prev : Z) : bool * list Z :=
  match ptr with
  | [] => (false, [])
  | c :: rest => if (c =? QUOT) && negb (prev =? BSL) then (true, ptr) else param_quote_end rest c
  end.

(** [param_pos], [length] and [sep_pos]. *)
Definition zbx_function_param_parse (expr : list Z) : Z * Z * Z :=
  let ptr := skip_while (Z.eqb SPACE) expr in
  let param_pos := ptr_diff ptr expr in
  if deref ptr =? QUOT then
    let '(found, ptr) := param_quote_end (tail ptr) QUOT in
    if found then
      let ptr := tail ptr in
      (param_pos, ptr_diff ptr expr - param_pos, ptr_diff (skip_while (Z.eqb SPACE) ptr) expr)
    else (param_pos, ptr_diff ptr expr - param_pos, ptr_diff ptr expr)
  else
    let ptr := skip_while (fun c => negb (c =? RPAR) && negb (c =? COMMA)) expr in
    (param_pos, ptr_diff ptr expr - param_pos, ptr_diff ptr expr).

(** The loop over [n] characters of a quoted parameter. *)
Fixpoint param_unquote_loop (pin : list Z) (n : Z) : list Z :=
  match pin with
  | [] => []
  | c :: rest =>
      if n <=? 0 then []
      else match rest with
           | q :: rest' => if (c =? BSL) && (q =? QUOT) then q :: param_unquote_loop rest' (n - 2) else c :: param_unquote_loop rest (n - 1)
           | [] => [c]
           end
  end.

(** The parameter and [quoted]. *)
Definition zbx_function_param_unquote_dyn (param : list Z) (len : Z) : list Z * bool :=
  if negb (len =? 0) && (deref param =? QUOT) then (param_unquote_loop (tail param) (len - 2), true)
  else (take (Z.to_nat len) param, false).

Definition ends_with_backslash (param : list Z) : bool := match last param with Some c => c =? BSL | None => false end.

(** [None]: the parameter needs to be quoted and ends with a backslash.  The
    quoted text is written from its end. *)
Definition zbx_function_param_quote (param : list Z) (forced : bool) : option (list Z) :=
  if negb forced && negb (deref param =? QUOT) && negb (deref param =? SPACE) && negb (existsb (Z.eqb COMMA) param) && negb (existsb (Z.eqb RPAR) param)
  then Some param
  else if ends_with_backslash param then None
  else Some (QUOT :: quote_loop param ++ [QUOT]).

(** [ptr < params + params_len], and the parameters are counted from 1. *)
Fixpoint get_param_loop (fuel : nat) (ptr : list Z) (Nparam : Z) : option (list Z) :=
  match fuel with
  | O => None
  | S fuel =>
      let '(param_pos, param_len, sep_pos) := zbx_function_param_parse ptr in
      if Nparam =? 1 then Some (zbx_function_param_unquote_dyn (drop (Z.to_nat param_pos) ptr) param_len).1
      else if zlen ptr <=? sep_pos then None
      else get_param_loop fuel (drop (Z.to_nat (sep_pos + 1)) ptr) (Nparam - 1)
  end.

Definition zbx_function_get_param_dyn (params : list Z) (Nparam : Z) : option (list Z) :=
  if Nparam <? 1 then None else get_param_loop (S (length params)) params Nparam.
