(* ===== verification/Double.v ===== *)
(** * Floating point numbers (src/libs/zbxnum/num.c and the C library)

    [double] is the binary64 format of the Standard Library's [SpecFloat], with
    rounding to nearest even: arithmetic, comparison, classification, and the
    conversions [strtod] and [printf] with [%G], computed from the exact
    value.  With them the comparison, recognition and printing of numbers of
    num.c. *)
From stdpp Require Import prelude list.
From Stdlib Require Import ZArith Lia SpecFloat.
From S2P Require Import Prelude JsonText Macro Scan.
#[local] Open Scope Z_scope.

Abbreviation double := spec_float.
Abbreviation prec := 53.
Abbreviation emax := 1024.

Definition dbl_add : double -> double -> double := SFadd prec emax.
Definition dbl_sub : double -> double -> double := SFsub prec emax.
Definition dbl_mul : double -> double -> double := SFmul prec emax.
Definition dbl_div : double -> double -> double := SFdiv prec emax.
Definition dbl_opp : double -> double := SFopp.
Definition fabs : double -> double := SFabs.
Definition dbl_le : double -> double -> bool := SFleb.
Definition dbl_lt : double -> double -> bool := SFltb.
Definition dbl_eq : double -> double -> bool := SFeqb.

(** The conversion of an integer. *)
Definition dbl_of_Z (n : Z) : double := binary_normalize prec emax n 0 false.

#[export] Instance double_eq_dec : EqDecision double.
Proof. solve_decision. Defined.

Definition dbl_zero : double := S754_zero false.
Definition dbl_one : double := dbl_of_Z 1.

Definition is_infinite (x : double) : bool := match x with S754_infinity _ => true | _ => false end.

(** [FP_ZERO == fpclassify(x) || FP_NORMAL == fpclassify(x)] *)
Definition zero_or_normal (x : double) : bool :=
  match x with
  | S754_zero _ => true
  | S754_finite _ m _ => Zpos (digits2_pos m) =? prec
  | _ => false
  end.

(** The conversion to an integer, towards zero. *)
Definition dbl_trunc (x : double) : Z :=
  match x with
  | S754_finite s m e => let n := if 0 <=? e then Zpos m * 2 ^ e else Zpos m / 2 ^ (- e) in if s then - n else n
  | _ => 0
  end.

(** ** strtod *)

Definition with_sign (s : bool) (x : double) : double := if s then SFopp x else x.

(** [m * 10 ^ e] for [0 < m], rounded.  Beyond the exponents of the format,
    where the powers need not be computed, the result is infinite or zero. *)
Definition dbl_of_decimal (m e : Z) : double :=
  let digits := Z.log2 m / 4 in
  match m with
  | Zpos p =>
      if 400 <? digits + e then S754_infinity false
      else if Z.log2 m + e <? -800 then S754_zero false
      else if 0 <=? e then dbl_of_Z (m * 10 ^ e)
      else match 10 ^ (- e) with
           | Zpos q => dbl_div (S754_finite false p 0) (S754_finite false q 0)
           | _ => S754_nan
           end
  | _ => S754_zero false
  end.

(** [m * 2 ^ e]. *)
Definition dbl_of_binary (m e : Z) : double :=
  if 2000 <? Z.log2 m + e then S754_infinity false
  else if Z.log2 m + e <? -2000 then S754_zero false
  else binary_normalize prec emax m e false.

Definition digit_value (c : Z) : Z := if isdigit c then c - 48 else if isupper c then c - 55 else c - 87.

(** The digits of a number with a point: the mantissa, the number of digits
    behind the point, whether there was a digit, and the rest. *)
Fixpoint mantissa (is_dig : Z -> bool) (base : Z) (s : list Z) (m frac : Z) (point some : bool) : Z * Z * bool * list Z :=
  match s with
  | c :: rest =>
      if is_dig c then mantissa is_dig base rest (m * base + digit_value c) (if point then frac + 1 else frac) point true
      else if (c =? DOT) && negb point then mantissa is_dig base rest m frac true some
      else (m, frac, some, s)
  | [] => (m, frac, some, s)
  end.

Fixpoint decimal_digits (s : list Z) (n : Z) : Z :=
  match s with
  | c :: rest => if isdigit c then decimal_digits rest (n * 10 + (c - 48)) else n
  | [] => n
  end.

(** The exponent after the letter [lower], 0 if there is none. *)
Definition exponent_value (lower : Z) (s : list Z) : Z :=
  if (deref s =? lower) || (deref s =? lower - 32) then
    let s := tail s in
    let '(neg, s) := if deref s =? 45 then (true, tail s) else if deref s =? 43 then (false, tail s) else (false, s) in
    let n := decimal_digits s 0 in if neg then - n else n
  else 0.

(** The value of the number at the start of the text, 0 if there is none.
    White space, infinities and NaN, which [strtod] reads too, do not occur at
    the start of the texts it is called for. *)
Definition strtod (s : list Z) : double :=
  let '(neg, s) := if deref s =? 45 then (true, tail s) else if deref s =? 43 then (false, tail s) else (false, s) in
  with_sign neg
    (if (deref s =? 48) && ((deref (tail s) =? 120) || (deref (tail s) =? 88)) then
       let '(m, frac, some, rest) := mantissa isxdigit 16 (drop 2 s) 0 0 false false in
       if some then dbl_of_binary m (exponent_value 112 rest - 4 * frac) else S754_zero false
     else
       let '(m, frac, some, rest) := mantissa isdigit 10 s 0 0 false false in
       if some then dbl_of_decimal m (exponent_value 101 rest - frac) else S754_zero false).

(** The value [num / den] is not that of [x]. *)
Definition inexact (num den : Z) (x : double) : bool :=
  match x with
  | S754_finite _ m e => negb (num * 2 ^ Z.max 0 (- e) =? Zpos m * 2 ^ Z.max 0 e * den)
  | _ => negb (num =? 0)
  end.

(** [strtod] sets [errno] to ERANGE: overflow, or an inexact result that is
    not normal. *)
Definition strtod_erange (s : list Z) : bool :=
  let s := if (deref s =? 45) || (deref s =? 43) then tail s else s in
  let of_parts (base : Z) (m e : Z) (x : double) :=
    if m =? 0 then false
    else if is_infinite x || (Z.log2 m + e <? -2000) then true
    else (negb (zero_or_normal x) || bool_decide (x = S754_zero false)) && inexact (m * base ^ Z.max 0 e) (base ^ Z.max 0 (- e)) x in
  if (deref s =? 48) && ((deref (tail s) =? 120) || (deref (tail s) =? 88)) then
    let '(m, frac, some, rest) := mantissa isxdigit 16 (drop 2 s) 0 0 false false in
    some && of_parts 2 m (exponent_value 112 rest - 4 * frac) (dbl_of_binary m (exponent_value 112 rest - 4 * frac))
  else
    let '(m, frac, some, rest) := mantissa isdigit 10 s 0 0 false false in
    some && of_parts 10 m (exponent_value 101 rest - frac) (dbl_of_decimal m (exponent_value 101 rest - frac)).

(** ** num.c *)

(** [ZBX_DOUBLE_EPSILON], and what it is set to for older databases and for
    tests: 2.22e-16, 0.000001 and 0.0001. *)
Definition double_epsilon : double := dbl_of_decimal 222 (-18).
Definition float_precision_epsilon : double := dbl_of_decimal 1 (-6).
Definition python_compatible_epsilon : double := dbl_of_decimal 1 (-4).

Definition zbx_double_compare (epsilon a b : double) : bool := dbl_le (fabs (dbl_sub a b)) epsilon.

Definition is_double_valid_syntax (str : list Z) : bool :=
  let str := if (deref str =? 45) || (deref str =? 43) then tail str else str in
  match zbx_number_parse str with
  | Some rest => bool_decide (rest = [])
  | None => false
  end.

Definition zbx_is_double (str : list Z) : option double :=
  if negb (is_double_valid_syntax str) then None
  else let tmp := strtod str in if is_infinite tmp then None else Some tmp.

(** ** printf *)

Fixpoint print_digits (fuel : nat) (n : Z) (acc : list Z) : list Z :=
  match fuel with
  | O => acc
  | S fuel => let acc := (48 + n mod 10) :: acc in if n <? 10 then acc else print_digits fuel (n / 10) acc
  end.

Definition print_Z (n : Z) : list Z := print_digits (S (Z.to_nat (Z.log2 n))) n [].

(** [num / den] rounded to the nearest integer, ties to even. *)
Definition round_div (num den : Z) : Z :=
  let q := num / den in let r := num mod den in
  if 2 * r <? den then q else if den <? 2 * r then q + 1 else if Z.even q then q else q + 1.

(** [num / den * 10 ^ k] as a quotient. *)
Definition scaled (num den k : Z) : Z * Z := if 0 <=? k then (num * 10 ^ k, den) else (num, den * 10 ^ (- k)).

(** The least [x] with [num / den < 10 ^ (x + 1)], searched upwards. *)
Fixpoint exponent10 (fuel : nat) (num den x : Z) : Z :=
  match fuel with
  | O => x
  | S fuel => let '(n, d) := scaled num den (- (x + 1)) in if n <? d then x else exponent10 fuel num den (x + 1)
  end.

Fixpoint drop_zeros (ds : list Z) : list Z :=
  match ds with
  | 48 :: rest => drop_zeros rest
  | _ => ds
  end.

Definition strip_zeros (ds : list Z) : list Z := rev (drop_zeros (rev ds)).

Definition with_point (int frac : list Z) : list Z := match frac with [] => int | _ => int ++ DOT :: frac end.

(** [%.<p>G]: [p] significant digits without trailing zeros, with an exponent
    when it is less than -4 or not less than [p]. *)
Definition print_G (p : Z) (x : double) : list Z :=
  let sign (s : bool) := if s then [45] else [] in
  match x with
  | S754_nan => [78; 65; 78]
  | S754_infinity s => sign s ++ [73; 78; 70]
  | S754_zero s => sign s ++ [48]
  | S754_finite s m e =>
      let '(num, den) := if 0 <=? e then (Zpos m * 2 ^ e, 1) else (Zpos m, 2 ^ (- e)) in
      let x0 := exponent10 700 num den (-330) in
      let '(a, b) := scaled num den (p - 1 - x0) in
      let n0 := round_div a b in
      let '(n, X) := if n0 =? 10 ^ p then (10 ^ (p - 1), x0 + 1) else (n0, x0) in
      let ds := print_Z n in
      sign s ++
      (if (-4 <=? X) && (X <? p) then
         if 0 <=? X then with_point (take (Z.to_nat (X + 1)) ds) (strip_zeros (drop (Z.to_nat (X + 1)) ds))
         else with_point [48] (replicate (Z.to_nat (- X - 1)) 48 ++ strip_zeros ds)
       else
         with_point (take 1 ds) (strip_zeros (drop 1 ds)) ++ [69; if X <? 0 then 45 else 43] ++
         (if Z.abs X <? 10 then [48] else []) ++ print_Z (Z.abs X))
  end.

(** The buffer has room for every [double]. *)
Definition zbx_print_double (val : double) : list Z :=
  let buffer := print_G 15 val in
  if negb (dbl_eq (strtod buffer) val) then print_G 17 val else buffer.

(** 0.1, 1e+22, 1/3 and the largest number. *)
Example print_tenth : zbx_print_double (dbl_of_decimal 1 (-1)) = [48; 46; 49].
Proof. vm_compute. reflexivity. Qed.
Example print_large : zbx_print_double (dbl_of_decimal 1 22) = [49; 69; 43; 50; 50].
Proof. vm_compute. reflexivity. Qed.
Example print_third : zbx_print_double (dbl_div dbl_one (dbl_of_Z 3)) =
  [48; 46; 51; 51; 51; 51; 51; 51; 51; 51; 51; 51; 51; 51; 51; 51; 51; 51; 49].
Proof. vm_compute. reflexivity. Qed.
Example strtod_largest : strtod [49; 46; 55; 57; 55; 54; 57; 51; 49; 51; 52; 56; 54; 50; 51; 49; 53; 55; 69; 43; 51; 48; 56] = SFmax_float prec emax.
Proof. vm_compute. reflexivity. Qed.
