(* ===== verification/Variant.v ===== *)
(** * Variants (src/libs/zbxvariant/variant.c)

    The values of expressions and of preprocessing: none, string, floating
    point number, unsigned number, binary data, vector of numbers, error; their
    conversion and comparison. *)
From stdpp Require Import prelude list.
From Stdlib Require Import ZArith Lia SpecFloat.
From S2P Require Import Prelude JsonText Macro Num Scan Double.
#[local] Open Scope Z_scope.

Inductive zbx_variant_t :=
  | VNone
  | VStr (str : list Z)
  | VDbl (dbl : double)
  | VUi64 (ui64 : Z)
  | VBin (bin : list Z)
  | VDblVector (dbl_vector : list double)
  | VErr (str : list Z).

#[export] Instance variant_eq_dec : EqDecision zbx_variant_t.
Proof. solve_decision. Defined.

Inductive zbx_variant_type_t :=
  | ZBX_VARIANT_NONE | ZBX_VARIANT_STR | ZBX_VARIANT_DBL | ZBX_VARIANT_UI64 | ZBX_VARIANT_BIN | ZBX_VARIANT_DBL_VECTOR | ZBX_VARIANT_ERR.

#[export] Instance variant_type_eq_dec : EqDecision zbx_variant_type_t.
Proof. solve_decision. Defined.

Definition variant_type (v : zbx_variant_t) : zbx_variant_type_t :=
  match v with
  | VNone => ZBX_VARIANT_NONE | VStr _ => ZBX_VARIANT_STR | VDbl _ => ZBX_VARIANT_DBL | VUi64 _ => ZBX_VARIANT_UI64
  | VBin _ => ZBX_VARIANT_BIN | VDblVector _ => ZBX_VARIANT_DBL_VECTOR | VErr _ => ZBX_VARIANT_ERR
  end.

(** ** Texts of numbers *)

Definition rtrim (p : Z -> bool) (s : list Z) : list Z := rev (skip_while p (rev s)).

(** [zbx_rtrim] with the newline and the carriage return. *)
Definition rtrim_newlines (s : list Z) : list Z := rtrim (fun c => (c =? 10) || (c =? 13)) s.

Definition zbx_trim_number (s : list Z) (strip_plus_sign : bool) : list Z :=
  let s := rtrim (Z.eqb SPACE) (skip_while (Z.eqb SPACE) s) in
  let s := if (2 <=? zlen s) && (deref s =? QUOT) && bool_decide (last s = Some QUOT) then take (length s - 2) (tail s) else s in
  if strip_plus_sign && (deref s =? 43) then tail s else s.

Definition zbx_trim_integer (s : list Z) : list Z := zbx_trim_number s true.
Definition zbx_trim_float (s : list Z) : list Z := zbx_trim_number s false.

(** The zeros behind the point, and the point. *)
Definition zbx_del_zeros (s : list Z) : list Z :=
  if existsb (fun c => (c =? 101) || (c =? 69)) s then s
  else if zlen (filter (fun c => c = DOT) s) =? 1 then
    let r := skip_while (Z.eqb 48) (rev s) in
    rev (if deref r =? DOT then tail r else r)
  else s.

Abbreviation MAX_STRING_LEN := 2048.
Abbreviation ZBX_SIZE_T_MAX := (2 ^ 64 - 1).

(** [zbx_strlcpy(buffer, str, sizeof(buffer))] *)
Definition to_buffer (s : list Z) : list Z := take (Z.to_nat (MAX_STRING_LEN - 1)) s.

(** The whole text, or [n] characters of it. *)
Definition zbx_is_uint64 (s : list Z) : option Z := zbx_is_uint_n_range s ZBX_SIZE_T_MAX 8 0 max_uint64.
Definition zbx_is_uint64_n (s : list Z) (n : Z) : option Z := zbx_is_uint_n_range s n 8 0 max_uint64.

(** ** Conversion *)

Definition variant_to_dbl (value : zbx_variant_t) : option zbx_variant_t :=
  match value with
  | VDbl _ => Some value
  | VUi64 n => Some (VDbl (dbl_of_Z n))
  | VStr s => VDbl <$> zbx_is_double (zbx_trim_float (rtrim_newlines (to_buffer s)))
  | _ => None
  end.

Definition variant_to_ui64 (value : zbx_variant_t) : option zbx_variant_t :=
  match value with
  | VUi64 _ => Some value
  | VDbl d =>
      if dbl_lt d dbl_zero then None
      else if dbl_le (dbl_of_Z max_uint64) d then None
      else Some (VUi64 (dbl_trunc d))
  | VStr s => VUi64 <$> zbx_is_uint64 (zbx_del_zeros (zbx_trim_integer (rtrim_newlines (to_buffer s))))
  | _ => None
  end.

Definition print_double_zeros (d : double) : list Z := zbx_del_zeros (zbx_print_double d).

Definition variant_to_str (value : zbx_variant_t) : option zbx_variant_t :=
  match value with
  | VStr _ => Some value
  | VDbl d => Some (VStr (print_double_zeros d))
  | VUi64 n => Some (VStr (print_Z n))
  | _ => None
  end.

(** [None]: FAIL, the value is left as it was. *)
Definition zbx_variant_convert (value : zbx_variant_t) (type : zbx_variant_type_t) : option zbx_variant_t :=
  match type with
  | ZBX_VARIANT_UI64 => variant_to_ui64 value
  | ZBX_VARIANT_DBL => variant_to_dbl value
  | ZBX_VARIANT_STR => variant_to_str value
  | ZBX_VARIANT_NONE => Some VNone
  | _ => None
  end.

Definition zbx_variant_set_numeric (text : list Z) : option zbx_variant_t :=
  let buffer := zbx_del_zeros (zbx_trim_integer (rtrim_newlines (to_buffer text))) in
  if deref buffer =? 43 then None
  else match zbx_is_uint64 buffer with
       | Some n => Some (VUi64 n)
       | None => VDbl <$> zbx_is_double buffer
       end.

(** [%02x] *)
Definition hex_digit_char (d : Z) : Z := if d <? 10 then 48 + d else 87 + d.
Definition hex_byte (c : Z) : list Z := [hex_digit_char (c / 16); hex_digit_char (c mod 16)].

Fixpoint hex_bytes (l : list Z) : list Z :=
  match l with
  | [] => []
  | [c] => hex_byte c
  | c :: l => hex_byte c ++ SPACE :: hex_bytes l
  end.

(** The text "double vector[0:". *)
Definition vector_prefix : list Z := [100; 111; 117; 98; 108; 101; 32; 118; 101; 99; 116; 111; 114; 91; 48; 58].

(** At most 21 bytes of binary data fit the buffer. *)
Definition zbx_variant_value_desc (value : zbx_variant_t) : list Z :=
  match value with
  | VDbl d => print_double_zeros d
  | VUi64 n => print_Z n
  | VStr s => s
  | VNone => []
  | VBin b => hex_bytes (take 21 b)
  | VErr s => s
  | VDblVector l => vector_prefix ++ print_Z (Z.of_nat (length l)) ++ [RSQ]
  end.

(** ** Comparison *)

(** [ZBX_RETURN_IF_NOT_EQUAL] on numbers: -1, 1 or equal. *)
Definition compare_Z (a b : Z) : Z := if a <? b then -1 else if b <? a then 1 else 0.
Definition compare_dbl (a b : double) : Z := if dbl_lt a b then -1 else if dbl_lt b a then 1 else 0.

(** The sign of [strcmp] and [memcmp]. *)
Fixpoint strcmp (a b : list Z) : Z :=
  match a, b with
  | [], [] => 0
  | [], _ => -1
  | _, [] => 1
  | x :: a, y :: b => if x <? y then -1 else if y <? x then 1 else strcmp a b
  end.

Definition variant_compare_empty (value1 value2 : zbx_variant_t) : Z :=
  match value1, value2 with VNone, VNone => 0 | VNone, _ => -1 | _, _ => 1 end.

Definition variant_compare_error (value1 value2 : zbx_variant_t) : Z :=
  match value1, value2 with VErr a, VErr b => strcmp a b | VErr _, _ => 1 | _, _ => -1 end.

Definition variant_compare_bin (value1 value2 : zbx_variant_t) : Z :=
  match value1, value2 with
  | VBin a, VBin b => if compare_Z (zlen a) (zlen b) =? 0 then strcmp a b else compare_Z (zlen a) (zlen b)
  | VBin _, _ => 1
  | _, _ => -1
  end.

Fixpoint compare_vectors (a b : list double) : Z :=
  match a, b with
  | x :: a, y :: b => if compare_dbl x y =? 0 then compare_vectors a b else compare_dbl x y
  | _, _ => 0
  end.

Definition variant_compare_dbl_vector (value1 value2 : zbx_variant_t) : Z :=
  match value1, value2 with
  | VDblVector a, VDblVector b => if compare_Z (zlen a) (zlen b) =? 0 then compare_vectors a b else compare_Z (zlen a) (zlen b)
  | VDblVector _, _ => 1
  | _, _ => -1
  end.

Definition variant_compare_str (value1 value2 : zbx_variant_t) : Z :=
  match value1 with
  | VStr a => strcmp a (zbx_variant_value_desc value2)
  | _ => strcmp (zbx_variant_value_desc value1) (match value2 with VStr b => b | _ => [] end)
  end.

Definition dbl_value (v : zbx_variant_t) : double :=
  match v with
  | VDbl d => d
  | VUi64 n => dbl_of_Z n
  | VStr s => strtod s
  | _ => S754_nan
  end.

Definition variant_compare_dbl (epsilon : double) (value1 value2 : zbx_variant_t) : Z :=
  let a := dbl_value value1 in
  let b := dbl_value value2 in
  if zbx_double_compare epsilon a b then 0 else compare_dbl a b.

Definition has_type (t : zbx_variant_type_t) (v1 v2 : zbx_variant_t) : bool :=
  bool_decide (variant_type v1 = t) || bool_decide (variant_type v2 = t).

Definition is_double_text (v : zbx_variant_t) : bool :=
  match v with VStr s => bool_decide (is_Some (zbx_is_double s)) | _ => true end.

Definition zbx_variant_compare (epsilon : double) (value1 value2 : zbx_variant_t) : Z :=
  if has_type ZBX_VARIANT_NONE value1 value2 then variant_compare_empty value1 value2
  else if has_type ZBX_VARIANT_ERR value1 value2 then variant_compare_error value1 value2
  else if has_type ZBX_VARIANT_BIN value1 value2 then variant_compare_bin value1 value2
  else if has_type ZBX_VARIANT_DBL_VECTOR value1 value2 then variant_compare_dbl_vector value1 value2
  else match value1, value2 with
       | VUi64 a, VUi64 b => compare_Z a b
       | _, _ => if is_double_text value1 && is_double_text value2 then variant_compare_dbl epsilon value1 value2 else variant_compare_str value1 value2
       end.

(** Equality up to the epsilon is not transitive: with the epsilon of tests,
    0.0001, 1.00008 is equal to 1 and to 1.00016. *)
Example compare_not_transitive :
  let d n := VDbl (dbl_of_decimal n (-5)) in
  let compare := zbx_variant_compare python_compatible_epsilon in
  compare (d 100000) (d 100008) = 0 /\ compare (d 100008) (d 100016) = 0 /\ compare (d 100000) (d 100016) = -1.
Proof. vm_compute. auto. Qed.
