(* ===== verification/Token.v ===== *)
(** * Macro tokens (src/libs/zbxexpr/token.c)

    The search for macros in a text: user macros, low-level discovery macros,
    function and simple macros, references to constants, object identifiers
    and expression macros.  A pointer is the rest of the expression, so that
    its offset is [ptr_diff ptr expression]. *)
From stdpp Require Import prelude list.
From Stdlib Require Import ZArith Lia.
From S2P Require Import Prelude JsonText Macro Scan.
#[local] Open Scope Z_scope.

Record zbx_strloc_t := Loc { loc_l : Z; loc_r : Z }.

Inductive zbx_token_kind_t :=
  | ZBX_TOKEN_OBJECTID | ZBX_TOKEN_MACRO | ZBX_TOKEN_LLD_MACRO | ZBX_TOKEN_USER_MACRO | ZBX_TOKEN_FUNC_MACRO
  | ZBX_TOKEN_SIMPLE_MACRO | ZBX_TOKEN_REFERENCE | ZBX_TOKEN_LLD_FUNC_MACRO | ZBX_TOKEN_EXPRESSION_MACRO.

Inductive zbx_token_data_t :=
  | DataName (name : zbx_strloc_t)
  | DataExpression (expression : zbx_strloc_t)
  | DataUserMacro (name context : zbx_strloc_t)
  | DataFuncMacro (macro func func_param : zbx_strloc_t)
  | DataSimpleMacro (host key func func_param : zbx_strloc_t)
  | DataReference (index : Z).

Record zbx_token_t := Token { token_kind : zbx_token_kind_t; token_loc : zbx_strloc_t; token_data : zbx_token_data_t }.

(** The flags of [zbx_token_search_t]. *)
Record zbx_token_search_t := Search { search_references : bool; search_expression_macro : bool; search_functionid : bool; search_simple_macro : bool }.

Definition ZBX_TOKEN_SEARCH_BASIC : zbx_token_search_t := Search false false false false.

Section token.
Context (expression : list Z).

Abbreviation off ptr := (ptr_diff ptr expression).

Definition token_parse_user_macro (macro : list Z) : option zbx_token_t :=
  m ← zbx_user_macro_parse macro false;
  let offset := off macro in
  let loc := Loc offset (offset + macro_r m) in
  Some (Token ZBX_TOKEN_USER_MACRO loc
    (if negb (context_l m =? 0) then
       DataUserMacro (Loc (offset + 2) (offset + back_spaces (length macro) macro (context_l m) - 1)) (Loc (offset + context_l m) (offset + context_r m))
     else DataUserMacro (Loc (offset + 2) (loc_r loc - 1)) (Loc 0 0))).

(** [{#NAME}] and the object id [{123}] differ in the start of the name and
    in its characters. *)
Definition token_parse_lld_macro (macro : list Z) : option zbx_token_t :=
  let ptr := skip_while zbx_is_macro_char (drop 2 macro) in
  if negb (deref ptr =? RBR) then None
  else if ptr_diff ptr macro =? 2 then None
  else Some (Token ZBX_TOKEN_LLD_MACRO (Loc (off macro) (off ptr)) (DataName (Loc (off macro + 2) (off ptr - 1)))).

Definition token_parse_objectid (macro : list Z) : option zbx_token_t :=
  let ptr := skip_while isdigit (drop 1 macro) in
  if negb (deref ptr =? RBR) then None
  else if ptr_diff ptr macro =? 1 then None
  else Some (Token ZBX_TOKEN_OBJECTID (Loc (off macro) (off ptr)) (DataName (Loc (off macro + 1) (off ptr - 1)))).

(** The unquoted segment: [strict] and the rest. *)
Fixpoint segment_loop (ptr : list Z) (strict : bool) : bool * list Z :=
  match ptr with
  | c :: rest =>
      if isalpha c then segment_loop rest (if isupper c then strict else false)
      else if isdigit c || (c =? USCORE) then segment_loop rest strict
      else (strict, ptr)
  | [] => (strict, ptr)
  end.

(** The quoted segment, up to the closing quote. *)
Fixpoint quoted_segment (ptr : list Z) : option (list Z) :=
  match ptr with
  | [] => None
  | c :: rest =>
      if c =? QUOT then Some ptr
      else if c =? BSL then
        match rest with
        | q :: rest => if (q =? BSL) || (q =? QUOT) then quoted_segment rest else None
        | [] => None
        end
      else quoted_segment rest
  end.

Definition token_parse_macro_segment (segment : list Z) : option (bool * list Z) :=
  if negb (deref segment =? QUOT) then
    let '(strict, ptr) := segment_loop segment true in
    if ptr_diff ptr segment =? 0 then None else Some (strict, ptr)
  else
    ptr ← quoted_segment (tail segment);
    if ptr_diff ptr segment =? 1 then None else Some (false, tail ptr).

(** The pointer after the name; every segment has a character. *)
Fixpoint name_loop (fuel : nat) (first : bool) (ptr : list Z) : option (list Z) :=
  match fuel with
  | O => None
  | S fuel =>
      '(strict, ptr) ← token_parse_macro_segment ptr;
      if negb strict && first then None
      else if negb (deref ptr =? DOT) || negb strict then Some ptr
      else name_loop fuel false (tail ptr)
  end.

Definition token_parse_macro_name (ptr : list Z) : option (list Z) := name_loop (S (length ptr)) true ptr.

Definition token_parse_macro (macro : list Z) : option zbx_token_t :=
  ptr ← token_parse_macro_name (tail macro);
  if negb (deref ptr =? RBR) then None
  else Some (Token ZBX_TOKEN_MACRO (Loc (off macro) (off ptr)) (DataName (Loc (off macro + 1) (off ptr - 1)))).

(** [func_loc] and [func_param]. *)
Definition token_parse_function (func : list Z) : option (zbx_strloc_t * zbx_strloc_t) :=
  '(par_l, par_r) ← zbx_function_validate func;
  Some (Loc (off func) (off func + par_r), Loc (off func + par_l) (off func + par_r)).

(** The closing brace after the function, behind spaces. *)
Definition token_close (func_loc : zbx_strloc_t) : option (list Z) :=
  let ptr := skip_while (Z.eqb SPACE) (drop (Z.to_nat (loc_r func_loc + 1)) expression) in
  if negb (deref ptr =? RBR) then None else Some ptr.

Definition token_parse_func_macro (macro func : list Z) (kind : zbx_token_kind_t) : option zbx_token_t :=
  if deref func =? 0 then None
  else
    '(func_loc, func_param) ← token_parse_function func;
    ptr ← token_close func_loc;
    Some (Token kind (Loc (off macro) (off ptr)) (DataFuncMacro (Loc (off macro + 1) (loc_l func_loc - 2)) func_loc func_param)).

(** [while ('.' != *(--ptr))]: the index of the dot before [i]. *)
Fixpoint back_to_dot (fuel : nat) (i : Z) : res Z :=
  match fuel with
  | O => Halt BadAccess
  | S fuel =>
      let i := i - 1 in
      match zget expression i with
      | None => Halt BadAccess
      | Some c => if c =? DOT then Ret i else back_to_dot fuel i
      end
  end.

Definition token_parse_simple_macro_key (macro key : list Z) : res (option zbx_token_t) :=
  let after_key :=
    match zbx_parse_key key with
    | (true, ptr) => Some ptr
    | (false, _) => key_token ← token_parse_macro key; Some (drop (Z.to_nat (loc_r (token_loc key_token) + 1)) expression)
    end in
  match after_key with
  | None => Ret None
  | Some ptr =>
      i ← (if deref ptr =? LPAR then back_to_dot (S (length expression)) (off ptr) else Ret (off ptr));
      if i - off key =? 0 then Ret None
      else if zlen expression <? i + 1 then Halt BadAccess
      else
        Ret ('(func_loc, func_param) ← token_parse_function (drop (Z.to_nat (i + 1)) expression);
             ptr ← token_close func_loc;
             Some (Token ZBX_TOKEN_SIMPLE_MACRO (Loc (off macro) (off ptr))
               (DataSimpleMacro (Loc (off macro + 1) (off macro + ptr_diff key macro - 2)) (Loc (off key) (i - 1)) func_loc func_param)))
  end.

Definition token_parse_simple_macro (macro : list Z) : res (option zbx_token_t) :=
  let ptr := skip_while zbx_is_hostname_char (tail macro) in
  if negb (deref ptr =? COLON) then Ret None
  else if ptr_diff ptr macro =? 1 then Ret None
  else token_parse_simple_macro_key macro (tail ptr).

(** Expression macros are parsed by [expression_macro]. *)
Section find.
Context (expression_macro : zbx_token_search_t -> list Z -> res (option zbx_token_t)).

(** The pointer to the closing brace of the inner macro. *)
Definition nested_end (token_search : zbx_token_search_t) (macro : list Z) : res (option (list Z)) :=
  let c := deref (drop 2 macro) in
  if c =? 35 then
    let ptr := skip_while zbx_is_macro_char (drop 3 macro) in
    Ret (if negb (deref ptr =? RBR) then None else if ptr_diff ptr macro =? 3 then None else Some ptr)
  else if c =? 63 then
    if negb (search_expression_macro token_search) then Ret None
    else t ← expression_macro token_search (tail macro); Ret (t ← t; Some (drop (Z.to_nat (loc_r (token_loc t))) expression))
  else Ret (ptr ← token_parse_macro_name (drop 2 macro); if negb (deref ptr =? RBR) then None else Some ptr).

Definition nested_macro (token_search : zbx_token_search_t) (macro : list Z) : res (option zbx_token_t) :=
  ptr ← nested_end token_search macro;
  match ptr with
  | None => Ret None
  | Some ptr =>
      let lld := deref (drop 2 macro) =? 35 in
      if deref (tail ptr) =? DOT then
        Ret (token_parse_func_macro macro (drop 2 ptr) (if lld then ZBX_TOKEN_LLD_FUNC_MACRO else ZBX_TOKEN_FUNC_MACRO))
      else if search_simple_macro token_search && negb lld && (deref (tail ptr) =? COLON) then token_parse_simple_macro_key macro (drop 2 ptr)
      else Ret None
  end.

(** The loop to the next opening brace; [None] when the text ends after a
    backslash in quotes. *)
Fixpoint skip_to_brace (ptr : list Z) (functionid quoted : bool) : option (list Z) :=
  match ptr with
  | [] => Some ptr
  | c :: rest =>
      if (c =? LBR) && negb quoted then Some ptr
      else if functionid && (c =? BSL) && quoted then
        match rest with
        | [] => None
        | _ :: rest => skip_to_brace rest functionid quoted
        end
      else if functionid && (c =? QUOT) then skip_to_brace rest functionid (negb quoted)
      else skip_to_brace rest functionid quoted
  end.

(** The loop over the dollars before [ptr]: a reference, or the pointer
    [dollar], [None] for NULL. *)
Fixpoint reference_loop (dollar ptr : list Z) : zbx_token_t + option (list Z) :=
  match dollar with
  | [] => inr None
  | c :: rest =>
      if c =? 36 then
        if zlen ptr <? zlen dollar then
          if isdigit (deref rest) then inl (Token ZBX_TOKEN_REFERENCE (Loc (off dollar) (off dollar + 1)) (DataReference (deref rest - 48)))
          else reference_loop rest ptr
        else inr (Some dollar)
      else reference_loop rest ptr
  end.

(** The switch on the character after the brace at [ptr]. *)
Definition token_at (token_search : zbx_token_search_t) (ptr : list Z) : res (option zbx_token_t) :=
  let c := deref (tail ptr) in
  let by_name :=
    match token_parse_macro ptr with
    | Some t => Ret (Some t)
    | None => if search_simple_macro token_search then token_parse_simple_macro ptr else Ret None
    end in
  if c =? 36 then Ret (token_parse_user_macro ptr)
  else if c =? 35 then Ret (token_parse_lld_macro ptr)
  else if c =? 63 then if search_expression_macro token_search then expression_macro token_search ptr else Ret None
  else if c =? LBR then nested_macro token_search ptr
  else if isdigit c then match token_parse_objectid ptr with Some t => Ret (Some t) | None => by_name end
  else by_name.

(** Every turn starts behind the brace of the one before; [dollar] is [None]
    when the references are not searched any more. *)
Fixpoint find_loop (fuel : nat) (token_search : zbx_token_search_t) (ptr : list Z) (dollar : option (list Z)) : res (option zbx_token_t) :=
  match fuel with
  | O => Ret None
  | S fuel =>
      match skip_to_brace ptr (search_functionid token_search) false with
      | None => Ret None
      | Some ptr =>
          match match dollar with Some d => reference_loop d ptr | None => inr None end with
          | inl t => Ret (Some t)
          | inr dollar =>
              if (deref ptr =? 0) || (deref (tail ptr) =? 0) then Ret None
              else
                t ← token_at token_search ptr;
                match t with
                | Some t => Ret (Some t)
                | None => find_loop fuel token_search (tail ptr) dollar
                end
          end
      end
  end.

Definition token_find (token_search : zbx_token_search_t) (ptr : list Z) : res (option zbx_token_t) :=
  find_loop (S (length ptr)) token_search ptr (if search_references token_search then Some ptr else None).
End find.
End token.

(** The search inside an expression macro, without expression macros. *)
Definition no_expression_macro (s : zbx_token_search_t) : zbx_token_search_t :=
  Search (search_references s) false (search_functionid s) (search_simple_macro s).

Definition find_inside (token_search : zbx_token_search_t) (ptr : list Z) : res (option zbx_token_t) :=
  token_find ptr (fun _ _ => Ret None) (no_expression_macro token_search) ptr.

(** The macros after which the scan goes on behind their end. *)
Definition skipped_kind (k : zbx_token_kind_t) : bool :=
  match k with
  | ZBX_TOKEN_MACRO | ZBX_TOKEN_LLD_MACRO | ZBX_TOKEN_LLD_FUNC_MACRO | ZBX_TOKEN_USER_MACRO | ZBX_TOKEN_SIMPLE_MACRO => true
  | _ => false
  end.

(** The pointer to the closing brace.  Every turn consumes a character. *)
Fixpoint expression_loop (fuel : nat) (token_search : zbx_token_search_t) (ptr : list Z) (quoted : bool) : res (option (list Z)) :=
  match fuel, ptr with
  | O, _ | _, [] => Ret None
  | S fuel, c :: rest =>
      if quoted then
        if c =? BSL then match rest with [] => Ret None | _ :: rest => expression_loop fuel token_search rest quoted end
        else expression_loop fuel token_search rest (negb (c =? QUOT))
      else if c =? LBR then
        if deref rest =? 63 then expression_loop fuel token_search rest quoted
        else
          tmp ← find_inside token_search ptr;
          let skip := match tmp with Some t => if skipped_kind (token_kind t) then loc_r (token_loc t) else 0 | None => 0 end in
          expression_loop fuel token_search (drop (Z.to_nat (skip + 1)) ptr) quoted
      else if c =? RBR then Ret (Some ptr)
      else expression_loop fuel token_search rest (c =? QUOT)
  end.

Definition token_parse_expression_macro (expression : list Z) (token_search : zbx_token_search_t) (macro : list Z) : res (option zbx_token_t) :=
  ptr ← expression_loop (S (length macro)) token_search (drop 2 macro) false;
  Ret (ptr ← ptr;
       if ptr_diff ptr macro =? 2 then None
       else Some (Token ZBX_TOKEN_EXPRESSION_MACRO (Loc (ptr_diff macro expression) (ptr_diff ptr expression))
                    (DataExpression (Loc (ptr_diff macro expression + 2) (ptr_diff ptr expression - 1))))).

Definition zbx_token_find (expression : list Z) (pos : Z) (token_search : zbx_token_search_t) : res (option zbx_token_t) :=
  token_find expression (token_parse_expression_macro expression) token_search (drop (Z.to_nat pos) expression).

Definition zbx_token_parse_nested_macro (expression macro : list Z) (token_search : zbx_token_search_t) : res (option zbx_token_t) :=
  nested_macro expression (token_parse_expression_macro expression) token_search macro.
