(* ===== verification/Utf8.v ===== *)
(** * Texts of UTF-8 characters (src/libs/zbxstr/str.c)

    A text is the list of its bytes, 0 to 255, before the NUL.  A byte
    [10xxxxxx] continues a character; lengths and positions of the string
    functions are counted in characters. *)
From stdpp Require Import prelude list.
From Stdlib Require Import ZArith Lia.
From S2P Require Import Prelude JsonText.
#[local] Open Scope Z_scope.

(** [0x80 == (0xc0 & c)] *)
Definition is_cont (c : Z) : bool := Z.land 0xc0 c =? 0x80.

Definition zbx_utf8_char_len (text : list Z) : Z :=
  let c := deref text in
  if Z.land c 0x80 =? 0 then 1
  else if Z.land c 0xe0 =? 0xc0 then 2
  else if Z.land c 0xf0 =? 0xe0 then 3
  else if Z.land c 0xf8 =? 0xf0 then 4
  else 0.

Fixpoint zbx_strlen_utf8 (text : list Z) : Z :=
  match text with
  | [] => 0
  | c :: text => (if is_cont c then 0 else 1) + zbx_strlen_utf8 text
  end.

Fixpoint zbx_strshift_utf8 (text : list Z) (num : Z) : list Z :=
  match text with
  | [] => []
  | _ :: rest => if 0 <? num then zbx_strshift_utf8 rest (if is_cont (deref rest) then num else num - 1) else text
  end.

(** A character that the text ends within is not counted. *)
Fixpoint nchars_loop (fuel : nat) (text : list Z) (maxlen sz : Z) : Z :=
  match fuel, text with
  | O, _ | _, [] => sz
  | S fuel, _ =>
      let csz := zbx_utf8_char_len text in
      if (0 <? maxlen) && negb (csz =? 0) then
        if zlen text <? csz then sz else nchars_loop fuel (drop (Z.to_nat csz) text) (maxlen - 1) (sz + csz)
      else sz
  end.

Definition zbx_strlen_utf8_nchars (text : list Z) (utf8_maxlen : Z) : Z := nchars_loop (length text) text utf8_maxlen 0.

(** The string is not cut within a character. *)
Fixpoint cut_back (text : list Z) (sz : nat) : nat :=
  match sz with
  | O => O
  | S n => if is_cont (deref (drop sz text)) then cut_back text n else sz
  end.

Definition strlen_utf8_nbytes (text : list Z) (maxlen : Z) : Z :=
  if maxlen <? zlen text then Z.of_nat (cut_back text (Z.to_nat maxlen)) else zlen text.

(** What is in the buffer of [size] bytes. *)
Definition zbx_strlcpy_utf8 (src : list Z) (size : Z) : list Z := take (Z.to_nat (strlen_utf8_nbytes src (size - 1))) src.

(** ** Trimming *)

Fixpoint skip_cont (s : list Z) : list Z :=
  match s with
  | c :: rest => if is_cont c then skip_cont rest else s
  | [] => []
  end.

(** The next character of a text that is not at its end. *)
Definition utf8_chr_next (str : list Z) : list Z := skip_cont (tail str).

(** The characters of [seq] one after the other. *)
Fixpoint find_chr (fuel : nat) (seq c : list Z) (c_len : Z) : bool :=
  match fuel, seq with
  | O, _ | _, [] => false
  | S fuel, _ =>
      let next := utf8_chr_next seq in
      let len := zlen seq - zlen next in
      ((len =? c_len) && bool_decide (take (Z.to_nat len) seq = take (Z.to_nat len) c)) || find_chr fuel next c c_len
  end.

(** [strchr] finds the NUL too. *)
Definition strchr_utf8 (seq c : list Z) : bool :=
  let c_len := zbx_utf8_char_len c in
  if c_len =? 0 then false
  else if c_len =? 1 then (deref c =? 0) || existsb (Z.eqb (deref c)) seq
  else if negb (zlen c - zlen (utf8_chr_next c) =? c_len) then false
  else find_chr (length seq) seq c c_len.

Fixpoint ltrim_loop (fuel : nat) (next charlist : list Z) : list Z :=
  match fuel, next with
  | O, _ | _, [] => next
  | S fuel, _ => if strchr_utf8 charlist next then ltrim_loop fuel (utf8_chr_next next) charlist else next
  end.

Definition zbx_ltrim_utf8 (str charlist : list Z) : list Z := ltrim_loop (length str) str charlist.

(** The position of the character before [pos], [None] before the start. *)
Fixpoint utf8_chr_prev (str : list Z) (pos : nat) : option nat :=
  match pos with
  | O => None
  | S pos => if is_cont (deref (drop pos str)) then utf8_chr_prev str pos else Some pos
  end.

(** The loop from the character at [prev] back; [last] is where the text ends. *)
Fixpoint rtrim_loop (fuel : nat) (str charlist : list Z) (prev last : nat) : nat :=
  match fuel with
  | O => last
  | S fuel =>
      if negb (strchr_utf8 charlist (drop prev str)) then last
      else match prev with
           | O => O
           | _ => match utf8_chr_prev str prev with Some p => rtrim_loop fuel str charlist p prev | None => prev end
           end
  end.

Definition zbx_rtrim_utf8 (str charlist : list Z) : list Z :=
  take (rtrim_loop (S (length str)) str charlist (length str) (length str)) str.

(** ** Replacement *)

Definition starts_with (s prefix : list Z) : bool := bool_decide (take (length prefix) s = prefix).

(** Every occurrence of [sub_str1], which is not empty, from the left. *)
Fixpoint replace_loop (fuel : nat) (s sub_str1 sub_str2 : list Z) : list Z :=
  match fuel, s with
  | O, _ | _, [] => s
  | S fuel, c :: rest =>
      if starts_with s sub_str1 then sub_str2 ++ replace_loop fuel (drop (length sub_str1) s) sub_str1 sub_str2
      else c :: replace_loop fuel rest sub_str1 sub_str2
  end.

Definition zbx_string_replace (str sub_str1 sub_str2 : list Z) : list Z := replace_loop (length str) str sub_str1 sub_str2.

(** [sz_to] bytes at [offset] are replaced; the buffer grows when needed. *)
Definition zbx_replace_mem_dyn (data : list Z) (offset sz_to : Z) (from : list Z) : list Z :=
  take (Z.to_nat offset) data ++ from ++ drop (Z.to_nat (offset + sz_to)) data.

(** An a, an a with diaeresis, and a b. *)
Example utf8_lengths : zbx_strlen_utf8 [97; 195; 164; 98] = 3 /\ zbx_strlen_utf8_nchars [97; 195; 164; 98] 2 = 3 /\
  zbx_strshift_utf8 [97; 195; 164; 98] 1 = [195; 164; 98].
Proof. vm_compute. auto. Qed.
Example utf8_trimmed : zbx_rtrim_utf8 [97; 195; 164; 32; 195; 164] [195; 164; 32] = [97] /\ zbx_ltrim_utf8 [195; 164; 98] [195; 164] = [98].
Proof. vm_compute. auto. Qed.
Example replaced_twice : zbx_string_replace [97; 98; 97; 98; 97] [97; 98] [120] = [120; 120; 97].
Proof. vm_compute. auto. Qed.
