(* ===== verification/EvalCalc.v ===== *)
(** * Statistics over vectors of numbers (src/libs/zbxeval/calc.c)

    The calculations behind the aggregate functions of expressions, on the
    floating point numbers of [Double], in the order of the operations of
    the code.  A result is an error message or a number. *)
From Stdlib Require Import String Ascii.
From stdpp Require Import prelude list.
From Stdlib Require Import ZArith Lia SpecFloat.
From S2P Require Import Prelude JsonText Double Variant.
#[local] Open Scope Z_scope.

(** The bytes of a literal. *)
Fixpoint txt (s : string) : list Z :=
  match s with
  | EmptyString => []
  | String a s => Z.of_N (N_of_ascii a) :: txt s
  end.

Definition dbl_sqrt : double -> double := SFsqrt prec emax.
Definition dbl_inf : double := S754_infinity false.

(** [FP_NORMAL == fpclassify(x)] *)
Definition is_normal (x : double) : bool := match x with S754_finite _ _ _ => zero_or_normal x | _ => false end.

Definition zbx_is_normal_double (dbl : double) : bool := zero_or_normal dbl.

Definition num_of (values : list double) : double := dbl_of_Z (Z.of_nat (length values)).
Definition sum_from (start : double) (values : list double) : double := foldl dbl_add start values.

Definition calc_arithmetic_mean (v : list double) : double := dbl_div (sum_from dbl_zero v) (num_of v).

(** [Some] a normal number or zero, or the message. *)
Definition checked (msg : string) (res : double) : list Z + double := if zbx_is_normal_double res then inr res else inl (txt msg).

(** The sum of the squares of the differences to the mean. *)
Definition sum_squares (mean : double) (values : list double) : double :=
  foldl (fun acc x => let diff := dbl_sub x mean in dbl_add acc (dbl_mul diff diff)) dbl_zero values.

Definition zbx_eval_calc_kurtosis (values : list double) : list Z + double :=
  let err := inl (txt "cannot calculate kurtosis() value") in
  let mean := calc_arithmetic_mean values in
  if negb (zbx_is_normal_double mean) then err
  else
    let second_moment := dbl_div (sum_squares mean values) (num_of values) in
    let fourth_moment := dbl_div
      (foldl (fun acc x => let diff := dbl_sub x mean in dbl_add acc (dbl_mul (dbl_mul (dbl_mul diff diff) diff) diff)) dbl_zero values)
      (num_of values) in
    let second_moment2 := dbl_mul second_moment second_moment in
    if negb (is_normal second_moment2) || negb (zbx_is_normal_double fourth_moment) then err
    else checked "cannot calculate kurtosis() value" (dbl_div fourth_moment second_moment2).

(** ** Sorting *)

(** [ZBX_DEFAULT_DBL_COMPARE_FUNC]: numbers within the epsilon are equal. *)
Definition zbx_default_dbl_compare_func (epsilon d1 d2 : double) : Z :=
  if zbx_double_compare epsilon d1 d2 then 0 else if dbl_lt d1 d2 then -1 else 1.

Section sort.
Context {A : Type} (key : A -> double) (epsilon : double).

Fixpoint insert_by (x : A) (l : list A) : list A :=
  match l with
  | [] => [x]
  | y :: rest => if zbx_default_dbl_compare_func epsilon (key y) (key x) <=? 0 then y :: insert_by x rest else x :: l
  end.

(** [qsort]; elements that compare equal keep their order. *)
Definition sort_by (l : list A) : list A := foldl (fun acc x => insert_by x acc) [] l.
End sort.

Section calc.
Context (epsilon : double).

(** The median and the vector, which is sorted. *)
Definition find_median (v : list double) : res (double * list double) :=
  let v := sort_by id epsilon v in
  let n := zlen v in
  if n mod 2 =? 0 then
    a ← of_opt BadAccess (zget v (n / 2 - 1));
    b ← of_opt BadAccess (zget v (n / 2));
    Ret (dbl_div (dbl_add a b) (dbl_of_Z 2), v)
  else a ← of_opt BadAccess (zget v (n / 2)); Ret (a, v).

Definition zbx_eval_calc_mad (values : list double) : res (list Z + double) :=
  '(median, values) ← find_median values;
  if negb (zbx_is_normal_double median) then Ret (inl (txt "cannot calculate mad() value"))
  else
    '(median, _) ← find_median ((fun x => fabs (dbl_sub x median)) <$> values);
    Ret (checked "cannot calculate mad() value" median).

(** The quotient is not checked. *)
Definition zbx_eval_calc_skewness (values : list double) : list Z + double :=
  let err := inl (txt "cannot calculate skewness() value") in
  let mean := calc_arithmetic_mean values in
  if negb (zbx_is_normal_double mean) then err
  else
    let sum_diff3 := foldl (fun acc x => let diff := dbl_sub x mean in dbl_add acc (dbl_mul (dbl_mul diff diff) diff)) dbl_zero values in
    let std_dev := dbl_sqrt (dbl_div (sum_squares mean values) (num_of values)) in
    let divisor := dbl_mul (dbl_mul (dbl_mul (num_of values) std_dev) std_dev) std_dev in
    if negb (is_normal divisor) || negb (zbx_is_normal_double sum_diff3) then err else inr (dbl_div sum_diff3 divisor).

Definition zbx_eval_calc_stddevpop (values : list double) : list Z + double :=
  let mean := calc_arithmetic_mean values in
  if negb (zbx_is_normal_double mean) then inl (txt "cannot calculate stddevpop() value")
  else checked "cannot calculate stddevpop() value" (dbl_sqrt (dbl_div (sum_squares mean values) (num_of values))).

Definition zbx_eval_calc_stddevsamp (values : list double) : list Z + double :=
  if zlen values <? 2 then inl (txt "not enough data")
  else
    let mean := calc_arithmetic_mean values in
    if negb (zbx_is_normal_double mean) then inl (txt "cannot calculate stddevsamp() value")
    else checked "cannot calculate stddevsamp() value" (dbl_sqrt (dbl_div (sum_squares mean values) (dbl_of_Z (zlen values - 1)))).

Definition zbx_eval_calc_sumofsquares (values : list double) : list Z + double :=
  checked "cannot calculate sumofsquares() value" (foldl (fun acc x => dbl_add acc (dbl_mul x x)) dbl_zero values).

Definition zbx_eval_calc_varpop (values : list double) : list Z + double :=
  let mean := calc_arithmetic_mean values in
  if negb (zbx_is_normal_double mean) then inl (txt "cannot calculate varpop() value")
  else checked "cannot calculate varpop() value" (dbl_div (sum_squares mean values) (num_of values)).

Definition zbx_eval_calc_varsamp (values : list double) : list Z + double :=
  if zlen values <? 2 then inl (txt "not enough data")
  else
    let mean := calc_arithmetic_mean values in
    if negb (zbx_is_normal_double mean) then inl (txt "cannot calculate varsamp() value")
    else checked "cannot calculate varsamp() value" (dbl_div (sum_squares mean values) (dbl_of_Z (zlen values - 1))).

(** ** Histograms *)

Record zbx_histogram_t := Bucket { upper : double; count : double }.

(** The loop that joins the buckets of the same bound; [last] is not stored yet. *)
Fixpoint merge_buckets (last : zbx_histogram_t) (h : list zbx_histogram_t) : list zbx_histogram_t :=
  match h with
  | [] => [last]
  | b :: h =>
      if zbx_double_compare epsilon (upper b) (upper last) then merge_buckets (Bucket (upper last) (dbl_add (count last) (count b))) h
      else last :: merge_buckets b h
  end.

Definition remove_duplicate_backet (h : list zbx_histogram_t) : list zbx_histogram_t :=
  match h with
  | [] => []
  | last :: h => merge_buckets last h
  end.

Fixpoint monotonic_from (max : double) (h : list zbx_histogram_t) : list zbx_histogram_t :=
  match h with
  | [] => []
  | b :: h =>
      if dbl_lt max (count b) then b :: monotonic_from (count b) h
      else if dbl_lt (count b) max then Bucket (upper b) max :: monotonic_from max h
      else b :: monotonic_from max h
  end.

Definition ensure_histogram_monotonic (h : list zbx_histogram_t) : list zbx_histogram_t :=
  match h with
  | [] => []
  | b :: h => b :: monotonic_from (count b) h
  end.

(** [values->values[i++]] twice a turn. *)
Fixpoint buckets (values : list double) : res (list zbx_histogram_t) :=
  match values with
  | [] => Ret []
  | u :: c :: values => h ← buckets values; Ret (Bucket u c :: h)
  | [_] => Halt BadAccess
  end.

(** The first bucket that reaches the rank, without the last one: its
    predecessor and itself. *)
Fixpoint find_bucket (rank : double) (prev : option zbx_histogram_t) (h : list zbx_histogram_t)
    : option (option zbx_histogram_t * zbx_histogram_t) :=
  match h with
  | [] | [_] => None
  | b :: h => if dbl_le rank (count b) then Some (prev, b) else find_bucket rank (Some b) h
  end.

(** The position of the rank in its bucket. *)
Definition quantile_in (rank : double) (prev : option zbx_histogram_t) (b : zbx_histogram_t) : double :=
  let start := match prev with Some p => upper p | None => dbl_zero end in
  let before x := match prev with Some p => dbl_sub x (count p) | None => x end in
  dbl_add start (dbl_mul (dbl_sub (upper b) start) (dbl_div (before rank) (before (count b)))).

(** [at_] is the message with the place in the expression. *)
Definition zbx_eval_calc_histogram_quantile (q : double) (values : list double) (at_ : string -> list Z) : res (list Z + double) :=
  match values with
  | [] => Ret (inl (at_ "invalid parameter: number of histogram buckets must not be zero for function"%string))
  | _ =>
      histogram ← buckets values;
      if zlen histogram <? 2 then Ret (inl (at_ "invalid number of rate buckets for function"%string))
      else
        let histogram := sort_by upper epsilon histogram in
        if negb (match last histogram with Some b => is_infinite (upper b) | None => false end)
        then Ret (inl (at_ "invalid last infinity rate buckets for function"%string))
        else
          let histogram := remove_duplicate_backet histogram in
          if zlen histogram <? 2 then Ret (inl (at_ "invalid number of rate buckets with duplicates for function"%string))
          else
            let histogram := ensure_histogram_monotonic histogram in
            total ← of_opt BadAccess (count <$> last histogram);
            res ← (
              if bool_decide (total = S754_zero false) || bool_decide (total = S754_zero true) then Ret (dbl_opp dbl_one)
              else
                let rank := dbl_mul q total in
                match find_bucket rank None histogram with
                | None => b ← of_opt BadAccess (zget histogram (zlen histogram - 2)); Ret (upper b)
                | Some (None, b) => Ret (if dbl_le (upper b) dbl_zero then upper b else quantile_in rank None b)
                | Some (prev, b) => Ret (quantile_in rank prev b)
                end);
            Ret (if zbx_is_normal_double res then inr res else inl (at_ "cannot calculate value for function"%string))
  end.

(** ** Aggregates *)

Definition no_data : list Z := txt "no data (at least one value is required)".

Definition min_from (values : list double) (v : double) : double := foldl (fun m x => if dbl_lt x m then x else m) v values.
Definition max_from (values : list double) (v : double) : double := foldl (fun m x => if dbl_lt m x then x else m) v values.

Definition zbx_eval_calc_avg (values : list double) : list Z + double :=
  match values with [] => inl no_data | _ => inr (calc_arithmetic_mean values) end.

Definition zbx_eval_calc_min (values : list double) : list Z + double :=
  match values with [] => inl no_data | v :: values => inr (min_from values v) end.

Definition zbx_eval_calc_max (values : list double) : list Z + double :=
  match values with [] => inl no_data | v :: values => inr (max_from values v) end.

Definition zbx_eval_calc_sum (values : list double) : list Z + double :=
  match values with [] => inl no_data | _ => inr (sum_from dbl_zero values) end.
End calc.

(** ** Examples *)

Definition ints : list Z -> list double := fmap dbl_of_Z.
Definition no_place (s : string) : list Z := txt s.

(** 2, 4, 4, 4, 5, 5, 7, 9 *)
Example stddev_sample : zbx_eval_calc_stddevpop (ints [2; 4; 4; 4; 5; 5; 7; 9]) = inr (dbl_of_Z 2).
Proof. vm_compute. reflexivity. Qed.
Example mad_sample : zbx_eval_calc_mad double_epsilon (ints [1; 1; 2; 2; 4; 6; 9]) = Ret (inr (dbl_of_Z 1)).
Proof. vm_compute. reflexivity. Qed.

(** Half of the ten values are below 2, the median of this histogram. *)
Example quantile_sample :
  zbx_eval_calc_histogram_quantile double_epsilon (dbl_of_decimal 5 (-1)) (ints [4; 10; 2; 5] ++ [dbl_inf; dbl_of_Z 10]) no_place = Ret (inr (dbl_of_Z 2)).
Proof. vm_compute. reflexivity. Qed.

(** The buckets of two hosts: five values up to 1 and ten in all for each.  The
    buckets without a limit are not merged, as the difference of infinities is
    no number, and 0.9 comes out where the merged ones give 1. *)
Example infinite_buckets :
  zbx_eval_calc_histogram_quantile double_epsilon (dbl_of_decimal 9 (-1)) (ints [1; 5; 1; 5] ++ [dbl_inf; dbl_of_Z 10; dbl_inf; dbl_of_Z 10]) no_place =
    Ret (inr (dbl_of_decimal 9 (-1))) /\
  zbx_eval_calc_histogram_quantile double_epsilon (dbl_of_decimal 9 (-1)) (ints [1; 10] ++ [dbl_inf; dbl_of_Z 20]) no_place = Ret (inr (dbl_of_Z 1)).
Proof. by vm_compute. Qed.
