(* ===== verification/EvalParse.v ===== *)
(** * Parsing of expressions (src/libs/zbxeval/parse.c)

    Trigger expressions, calculated items, expression macros and the filters
    of item queries are parsed into the sequence of their tokens in postfix
    order.  [eval_parse_token] recognises one token, which depends on the rules,
    on the last token and on the stacks; [eval_parse_expression] sorts operands
    and operators with a stack of operators.  Positions are offsets in the
    expression; every access outside of a stack is [Halt BadAccess]. *)
From stdpp Require Import prelude list.
From Stdlib Require Import ZArith Lia SpecFloat.
From S2P Require Import Prelude JsonText Macro Num Scan Double Variant Token Utf8.
#[local] Open Scope Z_scope.

(** ** Token types *)

Inductive zbx_token_type_t :=
  | TOKEN_NOP
  | OP_ADD | OP_SUB | OP_MUL | OP_DIV | OP_MINUS | OP_EQ | OP_LT | OP_GT | OP_LE | OP_GE | OP_NE | OP_AND | OP_OR | OP_NOT
  | VAR_NUM | VAR_STR | VAR_MACRO | VAR_USERMACRO | VAR_LLDMACRO | TOKEN_FUNCTIONID | TOKEN_FUNCTION | HIST_FUNCTION
  | GROUP_OPEN | GROUP_CLOSE | TOKEN_COMMA | ARG_QUERY | ARG_PERIOD | ARG_NULL | PROP_TAG | PROP_GROUP | TOKEN_EXCEPTION
  | START_OF_TEXT.

#[export] Instance token_type_eq_dec : EqDecision zbx_token_type_t.
Proof. solve_decision. Defined.

Abbreviation CLASS_OPERAND := 0x4000000.
Abbreviation CLASS_OPERATOR1 := 0x8000000.
Abbreviation CLASS_OPERATOR2 := 0x10000000.
Abbreviation CLASS_FUNCTION := 0x20000000.
Abbreviation CLASS_SEPARATOR := 0x40000000.
Abbreviation CLASS_PROPERTY := 0x80000000.
Abbreviation CLASS_OPERATOR := 0x18000000.
Abbreviation BEFORE_OPERAND := 0x58000000.
Abbreviation BEFORE_OPERATOR := 0x84000000.
Abbreviation OP_PRIORITY := 0x3c00000.

(** | 6 bits token class | 4 bits operator precedence | 22 bits token type |.
    [START_OF_TEXT] is the class of separators alone, which [last_token_type]
    has before the first token. *)
Definition type_code (t : zbx_token_type_t) : Z :=
  let op2 n p := n + CLASS_OPERATOR2 + p * 0x400000 in
  let op1 n p := n + CLASS_OPERATOR1 + p * 0x400000 in
  match t with
  | TOKEN_NOP => 0
  | OP_ADD => op2 1 4 | OP_SUB => op2 2 4 | OP_MUL => op2 3 3 | OP_DIV => op2 4 3 | OP_MINUS => op1 5 2
  | OP_EQ => op2 6 7 | OP_LT => op2 7 6 | OP_GT => op2 8 6 | OP_LE => op2 9 6 | OP_GE => op2 10 6 | OP_NE => op2 11 7
  | OP_AND => op2 12 11 | OP_OR => op2 13 12 | OP_NOT => op1 14 2
  | VAR_NUM => 15 + CLASS_OPERAND | VAR_STR => 16 + CLASS_OPERAND | VAR_MACRO => 17 + CLASS_OPERAND
  | VAR_USERMACRO => 18 + CLASS_OPERAND | VAR_LLDMACRO => 19 + CLASS_OPERAND | TOKEN_FUNCTIONID => 20 + CLASS_OPERAND
  | TOKEN_FUNCTION => 21 + CLASS_FUNCTION | HIST_FUNCTION => 22 + CLASS_FUNCTION
  | GROUP_OPEN => 23 + CLASS_SEPARATOR | GROUP_CLOSE => 24 + CLASS_OPERAND | TOKEN_COMMA => 25 + CLASS_SEPARATOR
  | ARG_QUERY => 26 + CLASS_OPERAND | ARG_PERIOD => 27 + CLASS_OPERAND | ARG_NULL => 28 + CLASS_OPERAND
  | PROP_TAG => 29 + CLASS_PROPERTY | PROP_GROUP => 30 + CLASS_PROPERTY | TOKEN_EXCEPTION => 31 + CLASS_FUNCTION
  | START_OF_TEXT => CLASS_SEPARATOR
  end.

(** [0 != (type & class)] *)
Definition is_class (class : Z) (t : zbx_token_type_t) : bool := negb (Z.land (type_code t) class =? 0).
Definition priority (t : zbx_token_type_t) : Z := Z.land (type_code t) OP_PRIORITY.
Definition is_type (a b : zbx_token_type_t) : bool := bool_decide (a = b).

Record zbx_eval_token_t := EToken { et_type : zbx_token_type_t; et_opt : Z; et_l : Z; et_r : Z; et_value : zbx_variant_t }.

Definition set_opt (t : zbx_eval_token_t) (opt : Z) : zbx_eval_token_t := EToken (et_type t) opt (et_l t) (et_r t) (et_value t).
Definition set_type (t : zbx_eval_token_t) (type : zbx_token_type_t) : zbx_eval_token_t := EToken type (et_opt t) (et_l t) (et_r t) (et_value t).

(** ** Rules *)

Abbreviation PARSE_MACRO := 0x1.
Abbreviation PARSE_USERMACRO := 0x2.
Abbreviation PARSE_LLDMACRO := 0x4.
Abbreviation PARSE_FUNCTIONID := 0x8.
Abbreviation PARSE_ITEM_QUERY := 0x10.
Abbreviation PARSE_CONST_INDEX := 0x20.
Abbreviation PARSE_COMPOUND_CONST := 0x40.
Abbreviation PARSE_MATH := 0x80.
Abbreviation PARSE_COMPARE_EQ := 0x100.
Abbreviation PARSE_COMPARE_SORT := 0x200.
Abbreviation PARSE_LOGIC := 0x400.
Abbreviation PARSE_VAR_NUM := 0x800.
Abbreviation PARSE_VAR_STR := 0x1000.
Abbreviation PARSE_GROUP := 0x2000.
Abbreviation PARSE_FUNCTION_ARGS := 0x4000.
Abbreviation PARSE_FUNCTION_NAME := 0x8000.
Abbreviation PARSE_PROP_TAG := 0x10000.
Abbreviation PARSE_PROP_GROUP := 0x20000.
Abbreviation PARSE_COMPARE := 0x300.
Abbreviation PARSE_VAR := 0x1800.
Abbreviation PARSE_PROPERTY := 0x30000.

(** Macros, user macros, function ids, functions, arithmetic, comparison,
    logic, constants; and with indexes of constants for triggers. *)
Definition ZBX_EVAL_PARSE_TRIGGER_EXPRESSION : Z := 0xff8b.
Definition ZBX_EVAL_PARSE_CALC_EXPRESSION : Z := 0xffd3.
Definition ZBX_EVAL_PARSE_QUERY_EXPRESSION : Z := 0x33502.
Definition ZBX_EVAL_PARSE_EXPRESSION_MACRO : Z := 0xffd3.
Definition ZBX_EVAL_TRIGGER_EXPRESSION : Z := 0x10000ffab.

(** ** Errors and results *)

(** The messages, with the position of the text they quote. *)
Inductive parse_error :=
  | InvalidTokenAt (pos : Z) | InvalidEscape (pos : Z) | UnterminatedString (pos : Z) | UnterminatedFunction (pos : Z)
  | InvalidQuery (pos : Z) | QueryNotFirst (pos : Z) | TooLong | AfterQuery (pos : Z) | GroupAfterOperand (pos : Z)
  | FunctionAfterOperand (pos : Z) | CommaAfterOperator (pos : Z) | CommaOutside (pos : Z) | CloseAfterOperator (pos : Z)
  | MissingOpen (pos : Z) | EmptyGroup (pos : Z) | OperandAfterOperand (pos : Z) | BinaryAfterOperator (pos : Z)
  | UnaryAfterOperand (pos : Z) | EndsWithOperator | EndsWithComma | MismatchedGroup | EmptyExpression
  | MissingComparison (pos : Z) | PropertyNotCompared (pos : Z) | PropertyValueType (pos : Z) | PropertyOperator (pos : Z).

(** FAIL with a message, or a result. *)
Definition P (A : Type) : Type := res (parse_error + A).

#[export] Instance P_ret : MRet P := fun A a => Ret (inr a).
#[export] Instance P_bind : MBind P := fun A B f m =>
  match m with
  | Halt h => Halt h
  | Ret (inl e) => Ret (inl e)
  | Ret (inr a) => f a
  end.

Definition fail {A} (e : parse_error) : P A := Ret (inl e).
Definition lift {A} (m : res A) : P A := match m with Ret a => Ret (inr a) | Halt h => Halt h end.

(** The context; [ops] has its last element first.  [edom] says that [errno]
    is EDOM, which the functions that parse numbers do not reset. *)
Record zbx_eval_context_t := Ctx {
  last_token_type : zbx_token_type_t; const_index : Z; functionid_index : Z;
  stack : list zbx_eval_token_t; ops : list zbx_eval_token_t; edom : bool }.

Definition set_last (c : zbx_eval_context_t) t := Ctx t (const_index c) (functionid_index c) (stack c) (ops c) (edom c).
Definition set_stack (c : zbx_eval_context_t) s := Ctx (last_token_type c) (const_index c) (functionid_index c) s (ops c) (edom c).
Definition set_ops (c : zbx_eval_context_t) o := Ctx (last_token_type c) (const_index c) (functionid_index c) (stack c) o (edom c).
Definition set_edom (c : zbx_eval_context_t) e := Ctx (last_token_type c) (const_index c) (functionid_index c) (stack c) (ops c) e.

Definition push (c : zbx_eval_context_t) (t : zbx_eval_token_t) : zbx_eval_context_t := set_stack c (stack c ++ [t]).

(** [ctx->stack.values[ctx->stack.values_num - i]] *)
Definition from_top (c : zbx_eval_context_t) (i : Z) : P zbx_eval_token_t := lift (of_opt BadAccess (zget (stack c) (zlen (stack c) - i))).

Section parse.
Context (expression : list Z) (rules : Z).

Definition rule (r : Z) : bool := negb (Z.land rules r =? 0).
Definition text (pos : Z) : list Z := drop (Z.to_nat pos) expression.
Definition ch (pos : Z) : Z := deref (text pos).

(** The position of a pointer. *)
Abbreviation at_ptr p := (ptr_diff p expression).

(** ** Tokens *)

Definition eval_get_whitespace_len (pos : Z) : Z := ptr_diff (skip_while isspace (text pos)) (text pos).

(** The context and [token->opt] afterwards. *)
Definition eval_update_const_variable (c : zbx_eval_context_t) : zbx_eval_context_t * Z :=
  if rule PARSE_CONST_INDEX && negb (existsb (fun t => is_class CLASS_FUNCTION (et_type t)) (ops c)) then
    (Ctx (last_token_type c) (u32 (const_index c + 1)) (functionid_index c) (stack c) (ops c) (edom c), const_index c)
  else (c, 0).

Definition eval_is_compound_number_char (c pos : Z) : bool :=
  isdigit c || (c =? DOT) || (c =? LBR) || (((c =? 101) || (c =? 69)) && negb (pos =? 0)).

Definition eval_parse_functionid (c : zbx_eval_context_t) (pos : Z) : option (zbx_eval_context_t * zbx_eval_token_t) :=
  tok ← token_parse_objectid expression (text pos);
  Some (Ctx (last_token_type c) (const_index c) (u32 (functionid_index c + 1)) (stack c) (ops c) (edom c),
        EToken TOKEN_FUNCTIONID (functionid_index c) (loc_l (token_loc tok)) (loc_r (token_loc tok)) VNone).

Definition eval_parse_macro (pos : Z) : res (option zbx_token_t) :=
  let macro := text pos in
  let nested := if ch (pos + 1) =? LBR then zbx_token_parse_nested_macro expression macro ZBX_TOKEN_SEARCH_BASIC else Ret None in
  let lld := if rule PARSE_LLDMACRO && (ch (pos + 1) =? 35) then
               match token_parse_lld_macro expression macro with Some t => Ret (Some t) | None => nested end else nested in
  let user := if rule PARSE_USERMACRO && (ch (pos + 1) =? 36) then
                match token_parse_user_macro expression macro with Some t => Ret (Some t) | None => lld end else lld in
  if rule PARSE_MACRO then match token_parse_macro expression macro with Some t => Ret (Some t) | None => user end else user.

(** The position of the last character of the number, and whether [errno] is
    EDOM afterwards. *)
Definition eval_parse_number (edom : bool) (pos : Z) : option Z * bool :=
  let offset := if ch pos =? 45 then 1 else 0 in
  match zbx_suffixed_number_parse (text (pos + offset)) with
  | None => (None, edom)
  | Some rest =>
      let pos_r := at_ptr rest - 1 in
      let tmp := dbl_mul (strtod (text pos)) (dbl_of_Z (suffix2factor (ch pos_r))) in
      let edom := edom && negb (strtod_erange (text pos)) in
      (if is_infinite tmp || edom then None else Some pos_r, edom)
  end.

(** [type], 0 when nothing was recognised yet. *)
Inductive last_part := LNone | LMacro | LNumber.

Definition macro_type (k : zbx_token_kind_t) (type : zbx_token_type_t) : zbx_token_type_t :=
  match k with
  | ZBX_TOKEN_MACRO | ZBX_TOKEN_FUNC_MACRO | ZBX_TOKEN_SIMPLE_MACRO => VAR_MACRO
  | ZBX_TOKEN_USER_MACRO => VAR_USERMACRO
  | ZBX_TOKEN_LLD_MACRO | ZBX_TOKEN_LLD_FUNC_MACRO => VAR_LLDMACRO
  | _ => type
  end.

(** The loop over the parts of a constant: the type, the offset after it and
    [errno]. Every turn but the last one advances [offset]. *)
Fixpoint constant_loop (fuel : nat) (edom : bool) (pos offset : Z) (type : zbx_token_type_t) (last : last_part)
    : res (zbx_token_type_t * Z * bool) :=
  match fuel with
  | O => Halt OutOfFuel
  | S fuel =>
      let next edom offset type last := if rule PARSE_COMPOUND_CONST then constant_loop fuel edom pos offset type last else Ret (type, offset, edom) in
      if ch offset =? LBR then
        tok ← eval_parse_macro offset;
        match tok with
        | None => Ret (type, offset, edom)
        | Some tok =>
            let type := if pos =? offset then macro_type (token_kind tok) type else VAR_NUM in
            let offset := loc_r (token_loc tok) + 1 in
            if is_unit (ch offset) then Ret (VAR_NUM, offset + 1, edom) else next edom offset type LMacro
        end
      else
        let '(number, edom) :=
          match last with LNumber => (None, edom) | _ => eval_parse_number edom offset end in
        match number with
        | Some pos_r => next edom (pos_r + 1) VAR_NUM LNumber
        | None => if eval_is_compound_number_char (ch offset) (offset - pos) then next edom (offset + 1) type last else Ret (type, offset, edom)
        end
  end.

Definition eval_parse_constant (c : zbx_eval_context_t) (pos : Z) : P (zbx_eval_context_t * zbx_eval_token_t) :=
  '(type, offset, edom) ← lift (constant_loop (S (length expression)) (edom c) pos pos TOKEN_NOP LNone);
  let c := set_edom c edom in
  if is_type type TOKEN_NOP then fail (InvalidTokenAt pos)
  else if is_type type VAR_NUM && negb (rule PARSE_VAR_NUM) then fail (InvalidTokenAt pos)
  else
    let '(c, opt) := if is_type type VAR_NUM || is_type type VAR_USERMACRO then eval_update_const_variable c else (c, 0) in
    mret (c, EToken type opt pos (offset - 1) VNone).

Definition eval_parse_character_token (pos : Z) (type : zbx_token_type_t) : zbx_eval_token_t := EToken type 0 pos pos VNone.

Definition eval_parse_less_character_token (pos : Z) : option zbx_eval_token_t :=
  if rule PARSE_COMPARE_EQ && (ch (pos + 1) =? 62) then Some (EToken OP_NE 0 pos (pos + 1) VNone)
  else if negb (rule PARSE_COMPARE_SORT) then None
  else if negb (ch (pos + 1) =? 61) then Some (eval_parse_character_token pos OP_LT)
  else Some (EToken OP_LE 0 pos (pos + 1) VNone).

Definition eval_parse_greater_character_token (pos : Z) : zbx_eval_token_t :=
  if ch (pos + 1) =? 61 then EToken OP_GE 0 pos (pos + 1) VNone else eval_parse_character_token pos OP_GT.

(** The pointer to the closing quote, or the error. *)
Fixpoint string_loop (ptr : list Z) (pos : Z) : parse_error + list Z :=
  match ptr with
  | [] => inl (UnterminatedString pos)
  | c :: rest =>
      if c =? QUOT then inr ptr
      else if c =? BSL then
        match rest with
        | q :: rest => if (q =? QUOT) || (q =? BSL) then string_loop rest pos else inl (InvalidEscape (at_ptr ptr))
        | [] => inl (InvalidEscape (at_ptr ptr))
        end
      else string_loop rest pos
  end.

Definition eval_parse_string_token (c : zbx_eval_context_t) (pos : Z) : P (zbx_eval_context_t * zbx_eval_token_t) :=
  match string_loop (text (pos + 1)) pos with
  | inl e => fail e
  | inr ptr => let '(c, opt) := eval_update_const_variable c in mret (c, EToken VAR_STR opt pos (at_ptr ptr) VNone)
  end.

(** On failure only [errno] may have changed. *)
Definition eval_parse_number_token (c : zbx_eval_context_t) (pos : Z) : zbx_eval_context_t * option zbx_eval_token_t :=
  let '(number, edom) := eval_parse_number (edom c) pos in
  let c := set_edom c edom in
  match number with
  | None => (c, None)
  | Some pos_r => let '(c, opt) := eval_update_const_variable c in (c, Some (EToken VAR_NUM opt pos pos_r VNone))
  end.

(** and, or, not *)
Definition eval_parse_logic_token (pos : Z) : option zbx_eval_token_t :=
  '(type, r) ← (
    if starts_with (text pos) [97; 110; 100] then Some (OP_AND, pos + 2)
    else if starts_with (text pos) [111; 114] then Some (OP_OR, pos + 1)
    else if starts_with (text pos) [110; 111; 116] then Some (OP_NOT, pos + 2)
    else None);
  if negb (ch (r + 1) =? LPAR) && negb (isspace (ch (r + 1))) then None else Some (EToken type 0 pos r VNone).

Definition eval_parse_function_token (c : zbx_eval_context_t) (pos : Z) : option zbx_eval_token_t :=
  let ptr := skip_while (fun c => isalpha c || (c =? USCORE) || isdigit c) (text pos) in
  if deref ptr =? LPAR then Some (EToken TOKEN_FUNCTION (zlen (stack c)) pos (at_ptr ptr - 1) VNone) else None.

(** The part in quotes of a filter, up to the closing quote. *)
Fixpoint filter_quoted (s : list Z) : option (list Z) :=
  match s with
  | [] => None
  | c :: rest =>
      if c =? QUOT then Some s
      else if c =? BSL then match rest with [] => None | _ :: rest => filter_quoted rest end
      else filter_quoted rest
  end.

(** The loop to the closing bracket, which is consumed. *)
Fixpoint filter_loop (fuel : nat) (s : list Z) : option (list Z) :=
  match fuel, s with
  | O, _ | _, [] => None
  | S fuel, c :: rest =>
      if c =? RSQ then Some rest
      else if c =? QUOT then s ← filter_quoted rest; filter_loop fuel (tail s)
      else filter_loop fuel rest
  end.

Definition eval_parse_query_filter (ptr : list Z) : option (list Z) :=
  if negb (deref (tail ptr) =? LSQ) then None else filter_loop (S (length ptr)) (drop 2 ptr).

(** {HOST.HOST and {ITEM.KEY, with an optional digit before the brace. *)
Definition MVAR_HOST_HOST : list Z := [123; 72; 79; 83; 84; 46; 72; 79; 83; 84].
Definition MVAR_ITEM_KEY : list Z := [123; 73; 84; 69; 77; 46; 75; 69; 89].

Definition skip_mvar (key mvar : list Z) : list Z :=
  if starts_with key mvar then
    let rest := drop (length mvar) key in
    if deref rest =? RBR then tail rest
    else if isdigit (deref rest) && (deref (tail rest) =? RBR) then drop 2 rest
    else key
  else key.

(** The rest of the text after the query, the host, the key and the filter. *)
Definition eval_parse_query (str : list Z) : option (list Z * list Z * list Z * option (list Z)) :=
  let host := tail str in
  let key :=
    if deref host =? 42 then tail host
    else if deref host =? LBR then skip_mvar host MVAR_HOST_HOST
    else if negb (deref host =? 47) then skip_while zbx_is_hostname_char host
    else host in
  if negb (deref key =? 47) then None
  else
    let key := tail key in
    end_ ← (
      if deref key =? 42 then Some (tail key)
      else if deref key =? LBR then Some (skip_mvar key MVAR_ITEM_KEY)
      else match zbx_parse_key key with (true, s) => Some s | (false, _) => None end);
    if deref end_ =? 63 then rest ← eval_parse_query_filter end_; Some (rest, host, key, Some (drop 2 end_))
    else Some (end_, host, key, None).

Definition eval_parse_query_token (pos : Z) : P zbx_eval_token_t :=
  match eval_parse_query (text pos) with
  | None => fail (InvalidQuery pos)
  | Some (rest, _, _, _) => mret (EToken ARG_QUERY 0 pos (at_ptr rest - 1) VNone)
  end.

(** The position of the first character after the period. *)
Fixpoint period_loop (fuel : nat) (offset : Z) : res (option Z) :=
  match fuel with
  | O => Halt OutOfFuel
  | S fuel =>
      let c := ch offset in
      if c =? 0 then Ret None
      else if (c =? LBR) && rule PARSE_COMPOUND_CONST then
        tok ← eval_parse_macro offset;
        period_loop fuel (match tok with Some t => loc_r (token_loc t) | None => offset end + 1)
      else if (c =? COMMA) || (c =? RPAR) || isspace c then Ret (Some offset)
      else period_loop fuel (offset + 1)
  end.

Definition eval_parse_period_token (pos : Z) : P zbx_eval_token_t :=
  r ← lift (period_loop (S (length expression)) pos);
  match r with
  | Some offset => mret (EToken ARG_PERIOD 0 pos (offset - 1) VNone)
  | None => fail (UnterminatedFunction pos)
  end.

(** tag, group *)
Definition eval_parse_property_token (pos : Z) : option zbx_eval_token_t :=
  if rule PARSE_PROP_TAG && starts_with (text pos) [116; 97; 103] then Some (EToken PROP_TAG 0 pos (pos + 2) VNone)
  else if rule PARSE_PROP_GROUP && starts_with (text pos) [103; 114; 111; 117; 112] then Some (EToken PROP_GROUP 0 pos (pos + 4) VNone)
  else None.

(** The last token was a comma and the last value is an item query: a period
    follows. *)
Definition after_query (c : zbx_eval_context_t) : P bool :=
  if is_type (last_token_type c) TOKEN_COMMA then t ← from_top c 1; mret (is_type (et_type t) ARG_QUERY) else mret false.

(** The token before the parenthesis becomes a function over history. *)
Definition mark_history (c : zbx_eval_context_t) : option zbx_eval_context_t :=
  match ops c with
  | group :: func :: rest => if is_class CLASS_FUNCTION (et_type func) then Some (set_ops c (group :: set_type func HIST_FUNCTION :: rest)) else None
  | _ => None
  end.

(** The token at [pos], behind [skip] characters of white space. *)
Definition token_at (c : zbx_eval_context_t) (skip pos : Z) : P (zbx_eval_context_t * zbx_eval_token_t) :=
  let invalid : P (zbx_eval_context_t * zbx_eval_token_t) := fail (InvalidTokenAt pos) in
  let single type : P (zbx_eval_context_t * zbx_eval_token_t) := mret (c, eval_parse_character_token pos type) in
  let k := ch pos in
  if k =? LBR then
    period ← after_query c;
    if (period : bool) then t ← eval_parse_period_token pos; mret (c, t)
    else match (if rule PARSE_FUNCTIONID then eval_parse_functionid c pos else None) with
         | Some r => mret r
         | None => eval_parse_constant c pos
         end
  else if k =? 43 then if rule PARSE_MATH then single OP_ADD else invalid
  else if k =? 45 then
    let after_operand := is_class CLASS_OPERAND (last_token_type c) in
    let '(c, number) := if rule PARSE_VAR && negb after_operand then eval_parse_number_token c pos else (c, None) in
    match number with
    | Some t => mret (c, t)
    | None =>
        if rule PARSE_MATH then mret (c, eval_parse_character_token pos (if negb after_operand then OP_MINUS else OP_SUB))
        else invalid
    end
  else if k =? 47 then
    if is_type (last_token_type c) GROUP_OPEN && rule PARSE_ITEM_QUERY then
      match mark_history c with
      | None => fail (QueryNotFirst pos)
      | Some c => t ← eval_parse_query_token pos; mret (c, t)
      end
    else if rule PARSE_MATH then single OP_DIV else invalid
  else if k =? 42 then if rule PARSE_MATH then single OP_MUL else invalid
  else if k =? 60 then
    match (if rule PARSE_COMPARE then eval_parse_less_character_token pos else None) with
    | Some t => mret (c, t)
    | None => invalid
    end
  else if k =? 62 then if rule PARSE_COMPARE_SORT then mret (c, eval_parse_greater_character_token pos) else invalid
  else if k =? 61 then if rule PARSE_COMPARE_EQ then single OP_EQ else invalid
  else if k =? LPAR then if rule PARSE_GROUP then single GROUP_OPEN else invalid
  else if k =? RPAR then if rule PARSE_GROUP then single GROUP_CLOSE else invalid
  else if k =? QUOT then if rule PARSE_VAR_STR then eval_parse_string_token c pos else invalid
  else if isdigit k then
    period ← (if zlen (stack c) =? 0 then mret false else after_query c);
    if (period : bool) then t ← eval_parse_period_token pos; mret (c, t)
    else if rule PARSE_VAR_NUM then eval_parse_constant c pos else invalid
  else if k =? DOT then if rule PARSE_VAR_NUM then eval_parse_constant c pos else invalid
  else if k =? 35 then
    period ← after_query c;
    if (period : bool) then t ← eval_parse_period_token pos; mret (c, t) else invalid
  else if k =? COMMA then if rule PARSE_FUNCTION_ARGS then single TOKEN_COMMA else invalid
  else if k =? 0 then mret (c, EToken TOKEN_NOP 0 0 0 VNone)
  else if isalpha k then
    let separated := negb (skip =? 0) || is_class CLASS_SEPARATOR (last_token_type c) || is_type (last_token_type c) GROUP_CLOSE in
    match (if rule PARSE_LOGIC && separated then eval_parse_logic_token pos else None) with
    | Some t => mret (c, t)
    | None =>
        match (if rule PARSE_FUNCTION_NAME then eval_parse_function_token c pos else None) with
        | Some t => mret (c, t)
        | None =>
            match (if rule PARSE_PROPERTY then eval_parse_property_token pos else None) with
            | Some t => mret (c, t)
            | None => invalid
            end
        end
    end
  else invalid.

Definition eval_parse_token (c : zbx_eval_context_t) (pos : Z) : P (zbx_eval_context_t * zbx_eval_token_t) :=
  let skip := eval_get_whitespace_len pos in token_at c skip (pos + skip).

(** ** Sorting of operands and operators *)

(** The change of the number of values by a token of the stack. *)
Definition param_count (t : zbx_eval_token_t) : Z :=
  if is_class CLASS_FUNCTION (et_type t) then - (i32 (et_opt t) - 1)
  else if is_class CLASS_OPERAND (et_type t) then 1
  else if is_class CLASS_OPERATOR2 (et_type t) then -1
  else 0.

Definition count_params (tokens : list zbx_eval_token_t) : Z := foldl (fun params t => params + param_count t) 0 tokens.

(** The checks of [eval_append_operator] for item query filters. *)
Definition check_property (c : zbx_eval_context_t) (token : zbx_eval_token_t) : P unit :=
  top ← from_top c 1;
  found ← (
    if is_class CLASS_PROPERTY (et_type top) then
      if zlen (stack c) <? 2 then fail (MissingComparison (et_l top))
      else
        value ← from_top c 2;
        if negb (is_class CLASS_OPERAND (et_type value)) then fail (PropertyNotCompared (et_l top)) else mret (Some (top, value))
    else if is_class CLASS_OPERAND (et_type top) && is_class CLASS_OPERATOR2 (et_type token) then
      prop ← from_top c 2; mret (if is_class CLASS_PROPERTY (et_type prop) then Some (prop, top) else None)
    else mret None);
  match found with
  | None => mret ()
  | Some (prop, value) =>
      if negb (is_type (et_type value) VAR_STR) && negb (is_type (et_type value) VAR_USERMACRO) && negb (is_type (et_type value) VAR_LLDMACRO)
      then fail (PropertyValueType (et_l prop))
      else if negb (is_type (et_type token) OP_EQ) && negb (is_type (et_type token) OP_NE) then fail (PropertyOperator (et_l prop))
      else mret ()
  end.

Definition eval_append_operator (c : zbx_eval_context_t) (token : zbx_eval_token_t) : P zbx_eval_context_t :=
  let token :=
    if is_class CLASS_FUNCTION (et_type token) then set_opt token (u32 (count_params (drop (Z.to_nat (et_opt token)) (stack c)))) else token in
  _ ← (if rule PARSE_PROPERTY then check_property c token else mret ());
  mret (push c token).

(** The values above the last operator, the last one first. *)
Fixpoint operand_run (top_first : list zbx_eval_token_t) : list zbx_eval_token_t :=
  match top_first with
  | t :: rest => if is_class CLASS_PROPERTY (et_type t) || is_class CLASS_OPERAND (et_type t) then t :: operand_run rest else []
  | [] => []
  end.

Definition eval_append_operand (c : zbx_eval_context_t) (token : zbx_eval_token_t) : P zbx_eval_context_t :=
  if negb (is_class BEFORE_OPERAND (last_token_type c)) then fail (OperandAfterOperand (et_l token))
  else
    _ ← (
      if rule PARSE_PROPERTY then
        let run := operand_run (rev (stack c)) in
        let prop := last (filter (fun t => is_class CLASS_PROPERTY (et_type t) = true) run) in
        match is_class CLASS_PROPERTY (et_type token), prop with
        | true, Some prop => fail (PropertyNotCompared (et_l prop))
        | true, None => if 1 <? zlen run then fail (PropertyNotCompared (et_l token)) else mret ()
        | false, Some prop => if 1 <? zlen run then fail (PropertyNotCompared (et_l prop)) else mret ()
        | false, None => mret ()
        end
      else mret ());
    mret (push c token).

Definition eval_append_arg_null (c : zbx_eval_context_t) : zbx_eval_context_t := push c (EToken ARG_NULL 0 0 0 VNone).

(** Operators are moved to the output while [stop] does not hold for the last one. *)
Fixpoint pop_ops (stop : zbx_eval_token_t -> bool) (l : list zbx_eval_token_t) (c : zbx_eval_context_t) : P zbx_eval_context_t :=
  match l with
  | [] => mret (set_ops c [])
  | t :: rest => if stop t then mret (set_ops c l) else c ← eval_append_operator c t; pop_ops stop rest c
  end.

Definition is_group_open (t : zbx_eval_token_t) : bool := is_type (et_type t) GROUP_OPEN.

Definition parse_group_open (c : zbx_eval_context_t) (pos : Z) (token : zbx_eval_token_t) : P zbx_eval_context_t :=
  if negb (is_class (BEFORE_OPERAND + CLASS_FUNCTION) (last_token_type c)) then fail (GroupAfterOperand pos)
  else mret (set_ops c (token :: ops c)).

Definition parse_function (c : zbx_eval_context_t) (pos : Z) (token : zbx_eval_token_t) : P zbx_eval_context_t :=
  if negb (is_class BEFORE_OPERAND (last_token_type c)) then fail (FunctionAfterOperand pos)
  else mret (set_ops c (token :: ops c)).

Definition parse_comma (c : zbx_eval_context_t) (pos : Z) : P zbx_eval_context_t :=
  if negb (is_class CLASS_OPERAND (last_token_type c)) && negb (is_class CLASS_SEPARATOR (last_token_type c)) then fail (CommaAfterOperator pos)
  else
    let c := if is_class CLASS_SEPARATOR (last_token_type c) then eval_append_arg_null c else c in
    let none := bool_decide (ops c = []) in
    c ← pop_ops is_group_open (ops c) c;
    if none then fail (CommaOutside pos) else mret c.

Definition parse_group_close (c : zbx_eval_context_t) (pos : Z) : P zbx_eval_context_t :=
  if negb (is_class (CLASS_OPERAND + CLASS_PROPERTY + CLASS_SEPARATOR) (last_token_type c)) &&
     negb (match ops c with _ :: f :: _ => is_type (et_type f) TOKEN_FUNCTION | _ => false end)
  then fail (CloseAfterOperator pos)
  else
    let none := bool_decide (ops c = []) in
    c ← pop_ops is_group_open (ops c) c;
    let c := set_ops c (tail (ops c)) in
    if none then fail (MissingOpen pos)
    else
      match ops c with
      | [] => mret c
      | t :: rest =>
          if is_class CLASS_FUNCTION (et_type t) then c ← eval_append_operator c t; mret (set_ops c rest)
          else if is_type (last_token_type c) GROUP_OPEN then fail (EmptyGroup pos)
          else mret c
      end.

Definition parse_operator (c : zbx_eval_context_t) (pos : Z) (token : zbx_eval_token_t) : P zbx_eval_context_t :=
  if is_class CLASS_OPERATOR2 (et_type token) && negb (is_class BEFORE_OPERATOR (last_token_type c)) then fail (BinaryAfterOperator pos)
  else if is_class CLASS_OPERATOR1 (et_type token) && negb (is_class BEFORE_OPERAND (last_token_type c)) then fail (UnaryAfterOperand pos)
  else
    c ← pop_ops (fun t => (priority (et_type token) <? priority (et_type t)) || is_class CLASS_OPERATOR1 (et_type token) || is_group_open t) (ops c) c;
    mret (set_ops c (token :: ops c)).

(** The body of the loop over the tokens, after the token was recognised. *)
Definition parse_turn (c : zbx_eval_context_t) (pos : Z) (token : zbx_eval_token_t) : P zbx_eval_context_t :=
  if 0x7fffffff <? et_r token then fail TooLong
  else if is_type (last_token_type c) ARG_QUERY && negb (is_type (et_type token) TOKEN_COMMA) && negb (is_type (et_type token) GROUP_CLOSE)
  then fail (AfterQuery pos)
  else
    let c := if is_type (et_type token) GROUP_CLOSE && is_type (last_token_type c) TOKEN_COMMA then eval_append_arg_null c else c in
    c ← (
      if is_type (et_type token) GROUP_OPEN then parse_group_open c pos token
      else if is_class CLASS_FUNCTION (et_type token) then parse_function c pos token
      else if is_type (et_type token) TOKEN_COMMA then parse_comma c pos
      else if is_type (et_type token) GROUP_CLOSE then parse_group_close c pos
      else if is_class (CLASS_OPERAND + CLASS_PROPERTY) (et_type token) then eval_append_operand c token
      else if is_class CLASS_OPERATOR (et_type token) then parse_operator c pos token
      else mret c);
    mret (set_last c (et_type token)).

(** The loop over the tokens; a token has a character. *)
Fixpoint parse_loop (fuel : nat) (c : zbx_eval_context_t) (pos : Z) : P zbx_eval_context_t :=
  match fuel with
  | O => Halt OutOfFuel
  | S fuel =>
      if ch pos =? 0 then mret c
      else
        '(c, token) ← eval_parse_token c pos;
        if is_type (et_type token) TOKEN_NOP then mret c
        else c ← parse_turn c pos token; parse_loop fuel c (et_r token + 1)
  end.

(** What is left after the last token. *)
Definition parse_end (c : zbx_eval_context_t) : P (list zbx_eval_token_t) :=
  if is_class CLASS_OPERATOR (last_token_type c) then fail EndsWithOperator
  else if is_type (last_token_type c) TOKEN_COMMA then fail EndsWithComma
  else
    c ← pop_ops is_group_open (ops c) c;
    if negb (bool_decide (ops c = [])) then fail MismatchedGroup
    else match stack c with
         | [] => fail EmptyExpression
         | [t] => if rule PARSE_PROPERTY && is_class CLASS_PROPERTY (et_type t) then fail (MissingComparison (et_l t)) else mret (stack c)
         | _ => mret (stack c)
         end.

(** [errno_edom]: [errno] is EDOM when the function is called. *)
Definition zbx_eval_parse_expression (errno_edom : bool) : P (list zbx_eval_token_t) :=
  c ← parse_loop (S (length expression)) (Ctx START_OF_TEXT 0 0 [] [] errno_edom) 0;
  parse_end c.
End parse.

(** ** Examples *)

Definition types (r : P (list zbx_eval_token_t)) : P (list zbx_token_type_t) := l ← r; mret (et_type <$> l).

(** {1}+2*{2}>5 and not {3} *)
Definition sample_trigger : list Z :=
  [123; 49; 125; 43; 50; 42; 123; 50; 125; 62; 53; 32; 97; 110; 100; 32; 110; 111; 116; 32; 123; 51; 125].

Example sample_trigger_parsed : types (zbx_eval_parse_expression sample_trigger ZBX_EVAL_TRIGGER_EXPRESSION false) =
  mret [TOKEN_FUNCTIONID; VAR_NUM; TOKEN_FUNCTIONID; OP_MUL; OP_ADD; VAR_NUM; OP_GT; TOKEN_FUNCTIONID; OP_NOT; OP_AND].
Proof. vm_compute. reflexivity. Qed.
