(* ===== verification/EvalFunc.v ===== *)
(** * The functions of expressions (src/libs/zbxeval/execute.c)

    One definition for each function that an expression may call.  A function
    gets its arguments, the topmost [token->opt] values of the output stack,
    and gives the value that replaces them, or an error message.  The functions
    of the mathematical library, the time zone and the random numbers are
    parameters. *)
From Stdlib Require Import String Ascii.
From stdpp Require Import prelude list.
From Stdlib Require Import ZArith Lia SpecFloat.
From S2P Require Import Prelude JsonText Calendar Num Scan Double Variant Utf8 EvalCalc EvalParse.
#[local] Open Scope Z_scope.

(** FAIL with a message, or a result. *)
Definition X (A : Type) : Type := res (list Z + A).

#[export] Instance X_ret : MRet X := fun A a => Ret (inr a).
#[export] Instance X_bind : MBind X := fun A B f m =>
  match m with
  | Halt h => Halt h
  | Ret (inl e) => Ret (inl e)
  | Ret (inr a) => f a
  end.

Definition throw {A} (e : list Z) : X A := Ret (inl e).
Definition run {A} (m : res A) : X A := match m with Ret a => Ret (inr a) | Halt h => Halt h end.
Definition of_sum {A} (r : list Z + A) : X A := Ret r.

(** ** Numbers with a suffix *)

(** The suffix: the last character of the text. *)
Definition eval_suffixed_number_parse (value : list Z) : option Z :=
  let value := if deref value =? 45 then tail value else value in
  match zbx_suffixed_number_parse value with
  | Some [] => Some (default 0 (last value))
  | _ => None
  end.

Definition variant_convert_suffixed_num (value_num : zbx_variant_t) : option zbx_variant_t :=
  match value_num with
  | VStr str =>
      suffix ← eval_suffixed_number_parse str;
      let result := dbl_mul (strtod str) (dbl_of_Z (suffix2factor suffix)) in
      if zero_or_normal result then Some (VDbl result) else None
  | _ => None
  end.

Definition eval_variant_compare (epsilon : double) (left right : zbx_variant_t) : Z :=
  zbx_variant_compare epsilon (default left (variant_convert_suffixed_num left)) (default right (variant_convert_suffixed_num right)).

(** ** The mathematical library *)

(** The functions that are called, as their pointers are compared. *)
Inductive math1 :=
  | f_cbrt | f_ceil | f_exp | f_expm1 | f_floor | f_signum | f_degrees | f_radians | f_acos | f_asin | f_atan | f_cos | f_cosh
  | f_cot | f_sin | f_sinh | f_tan | f_log | f_log10 | f_sqrt | f_round1.
Inductive math2 := f_pow | f_round | f_fmod | f_truncate | f_atan2.

#[export] Instance math1_eq_dec : EqDecision math1.
Proof. solve_decision. Defined.
#[export] Instance math2_eq_dec : EqDecision math2.
Proof. solve_decision. Defined.

Record environment := Env {
  libm1 : math1 -> double -> double;
  libm2 : math2 -> double -> double -> double;
  time_zone : zone;
  ts_sec : Z;
  epsilon : double;
  random : option Z }.

Section functions.
Context (env : environment) (expression : list Z).

(** The message with the rest of the expression from [pos] on in quotes. *)
Definition at_pos (msg : list Z) (pos : Z) : list Z := msg ++ txt " at " ++ QUOT :: drop (Z.to_nat pos) expression ++ [QUOT].
Definition fail_at {A} (msg : string) (token : zbx_eval_token_t) : X A := throw (at_pos (txt msg) (et_l token)).
Definition quoted (s : list Z) : list Z := QUOT :: s ++ [QUOT].

Definition wrong_count {A} (token : zbx_eval_token_t) : X A := fail_at "invalid number of arguments for function" token.

Definition ZBX_MATH_CONST_PI : double := dbl_of_decimal 3141592653589793238463 (-21).
Definition ZBX_MATH_CONST_E : double := dbl_of_decimal 27182818284590452354 (-19).

Definition eval_math_func_degrees (radians : double) : double := dbl_mul radians (dbl_div (dbl_of_Z 180) ZBX_MATH_CONST_PI).
Definition eval_math_func_radians (degrees : double) : double := dbl_mul degrees (dbl_div ZBX_MATH_CONST_PI (dbl_of_Z 180)).
Definition eval_math_func_cot (x : double) : double := dbl_div (libm1 env f_cos x) (libm1 env f_sin x).
Definition eval_math_func_signum (x : double) : double :=
  if dbl_lt x dbl_zero then dbl_of_Z (-1) else if dbl_eq dbl_zero x then dbl_zero else dbl_one.

Definition eval_math_func_round (n decimal_points : double) : double :=
  let multiplier := libm2 env f_pow (dbl_of_Z 10) decimal_points in
  dbl_div (libm1 env f_round1 (dbl_mul n multiplier)) multiplier.

Definition eval_math_func_truncate (n decimal_points : double) : double :=
  let multiplier := if dbl_lt dbl_zero decimal_points then libm2 env f_pow (dbl_of_Z 10) decimal_points else dbl_one in
  let multiplier := if dbl_lt n dbl_zero then dbl_opp multiplier else multiplier in
  dbl_div (libm1 env f_floor (dbl_mul multiplier n)) multiplier.

Definition apply1 (f : math1) (x : double) : double :=
  match f with
  | f_signum => eval_math_func_signum x
  | f_degrees => eval_math_func_degrees x
  | f_radians => eval_math_func_radians x
  | f_cot => eval_math_func_cot x
  | f_sqrt => dbl_sqrt x
  | _ => libm1 env f x
  end.

Definition apply2 (f : math2) (x y : double) : double :=
  match f with
  | f_round => eval_math_func_round x y
  | f_truncate => eval_math_func_truncate x y
  | _ => libm2 env f x y
  end.

(** ** Arguments *)

Definition is_err (v : zbx_variant_t) : bool := match v with VErr _ => true | _ => false end.

(** SUCCEED with the first error argument as the value, or UNKNOWN with the
    arguments. *)
Definition eval_validate_function_args (args : list zbx_variant_t) : zbx_variant_t + list zbx_variant_t :=
  match list_find (fun v => is_err v = true) args with
  | Some (_, v) => inl v
  | None => inr args
  end.

(** The function that is evaluated when the result is UNKNOWN. *)
Definition when_unknown (r : zbx_variant_t + list zbx_variant_t) (f : list zbx_variant_t -> X zbx_variant_t) : X zbx_variant_t :=
  match r with
  | inl v => mret v
  | inr args => f args
  end.

Definition zbx_get_variant_type_desc (type : zbx_variant_type_t) : list Z :=
  match type with
  | ZBX_VARIANT_DBL => txt "double"
  | ZBX_VARIANT_UI64 => txt "uint64"
  | ZBX_VARIANT_STR => txt "string"
  | ZBX_VARIANT_NONE => txt "none"
  | ZBX_VARIANT_BIN => txt "binary"
  | ZBX_VARIANT_DBL_VECTOR => txt "double vector"
  | ZBX_VARIANT_ERR => txt "error"
  end.

Definition eval_type_desc (type : zbx_variant_type_t) : list Z :=
  match type with
  | ZBX_VARIANT_DBL => txt "a numeric"
  | ZBX_VARIANT_UI64 => txt "an unsigned integer"
  | ZBX_VARIANT_STR => txt "a string"
  | _ => zbx_get_variant_type_desc type
  end.

Definition eval_convert_function_arg (token : zbx_eval_token_t) (type : zbx_variant_type_t) (arg : zbx_variant_t) : X zbx_variant_t :=
  match (if bool_decide (type = ZBX_VARIANT_DBL) then variant_convert_suffixed_num arg else None) with
  | Some value => mret value
  | None =>
      match zbx_variant_convert arg type with
      | Some value => mret value
      | None => throw (at_pos (txt "function argument " ++ quoted (zbx_variant_value_desc arg) ++ txt " is not " ++ eval_type_desc type ++ txt " value") (et_l token))
      end
  end.

Fixpoint convert_args (token : zbx_eval_token_t) (type : zbx_variant_type_t) (args : list zbx_variant_t) : X (list zbx_variant_t) :=
  match args with
  | [] => mret []
  | a :: args => a ← eval_convert_function_arg token type a; args ← convert_args token type args; mret (a :: args)
  end.

(** [data.dbl], [data.ui64] and [data.str] of a value of that type; another
    member of the union is not a value of the type. *)
Definition data_dbl (v : zbx_variant_t) : X double := match v with VDbl d => mret d | _ => Halt Undefined end.
Definition data_ui64 (v : zbx_variant_t) : X Z := match v with VUi64 n => mret n | _ => Halt Undefined end.
Definition data_str (v : zbx_variant_t) : X (list Z) := match v with VStr s => mret s | _ => Halt Undefined end.

Fixpoint data_dbls (l : list zbx_variant_t) : X (list double) :=
  match l with
  | [] => mret []
  | v :: l => d ← data_dbl v; l ← data_dbls l; mret (d :: l)
  end.

(** [&output->values[output->values_num - opt + i]] *)
Definition arg_at (args : list zbx_variant_t) (i : Z) : X zbx_variant_t := run (of_opt BadAccess (zget args i)).

(** An argument converted to a number or a text. *)
Definition ui64_arg (token : zbx_eval_token_t) (arg : zbx_variant_t) : X Z := v ← eval_convert_function_arg token ZBX_VARIANT_UI64 arg; data_ui64 v.
Definition str_arg (token : zbx_eval_token_t) (arg : zbx_variant_t) : X (list Z) := v ← eval_convert_function_arg token ZBX_VARIANT_STR arg; data_str v.

Definition eval_prepare_math_function_args (token : zbx_eval_token_t) (args : list zbx_variant_t) : X (zbx_variant_t + list zbx_variant_t) :=
  if et_opt token =? 0 then fail_at "no arguments for function" token
  else
    match eval_validate_function_args args with
    | inl v => mret (inl v)
    | inr args =>
        first ← arg_at args 0;
        match first with
        | VDblVector l =>
            if negb (et_opt token =? 1) then fail_at "too many arguments for function" token
            else if bool_decide (l = []) then fail_at "no input data for function" token
            else mret (inr args)
        | _ => args ← convert_args token ZBX_VARIANT_DBL args; mret (inr args)
        end
    end.

(** The numbers of a vector argument or of the arguments. *)
Definition numbers_of (args : list zbx_variant_t) : X (list double) :=
  match args with
  | VDblVector l :: _ => mret l
  | _ => data_dbls args
  end.

Definition prepared (token : zbx_eval_token_t) (args : list zbx_variant_t) (f : list zbx_variant_t -> X zbx_variant_t) : X zbx_variant_t :=
  r ← eval_prepare_math_function_args token args; when_unknown r f.
Definition validated (args : list zbx_variant_t) (f : list zbx_variant_t -> X zbx_variant_t) : X zbx_variant_t :=
  when_unknown (eval_validate_function_args args) f.

(** ** Aggregates *)

Definition eval_execute_function_min (token : zbx_eval_token_t) (args : list zbx_variant_t) : X zbx_variant_t :=
  prepared token args (fun args =>
    l ← numbers_of args;
    match l with
    | v :: l => mret (VDbl (foldl (fun m x => if dbl_lt x m then x else m) v l))
    | [] => Halt BadAccess
    end).

Definition eval_execute_function_max (token : zbx_eval_token_t) (args : list zbx_variant_t) : X zbx_variant_t :=
  prepared token args (fun args =>
    l ← numbers_of args;
    match l with
    | v :: l => mret (VDbl (foldl (fun m x => if dbl_lt m x then x else m) v l))
    | [] => Halt BadAccess
    end).

Definition eval_execute_function_sum (token : zbx_eval_token_t) (args : list zbx_variant_t) : X zbx_variant_t :=
  prepared token args (fun args => l ← numbers_of args; mret (VDbl (sum_from dbl_zero l))).

(** Divided by the number of arguments, or by that of the vector. *)
Definition eval_execute_function_avg (token : zbx_eval_token_t) (args : list zbx_variant_t) : X zbx_variant_t :=
  prepared token args (fun args =>
    l ← numbers_of args;
    let n := match args with VDblVector l :: _ => Z.of_nat (length l) | _ => et_opt token end in
    mret (VDbl (dbl_div (sum_from dbl_zero l) (dbl_of_Z n)))).

Definition eval_execute_function_abs (token : zbx_eval_token_t) (args : list zbx_variant_t) : X zbx_variant_t :=
  if negb (et_opt token =? 1) then wrong_count token
  else prepared token args (fun args => arg ← arg_at args 0; d ← data_dbl arg; mret (VDbl (fabs d))).

Definition eval_execute_function_length (token : zbx_eval_token_t) (args : list zbx_variant_t) : X zbx_variant_t :=
  if negb (et_opt token =? 1) then wrong_count token
  else validated args (fun args => arg ← arg_at args 0; s ← str_arg token arg; mret (VDbl (dbl_of_Z (zbx_strlen_utf8 s)))).

(** ** Date and time *)

(** [%.<n>d] of a number that is not negative, and [%d]. *)
Definition print_padded (n : Z) (x : Z) : list Z := replicate (Z.to_nat n - length (print_Z x)) 48 ++ print_Z x.
Definition print_int (x : Z) : list Z := if x <? 0 then 45 :: print_Z (- x) else print_Z x.

Definition now_tm : tm := localtime (time_zone env) (ts_sec env).
Definition no_args (token : zbx_eval_token_t) (s : list Z) : X zbx_variant_t :=
  if negb (et_opt token =? 0) then wrong_count token else mret (VStr s).

Definition eval_execute_function_date (token : zbx_eval_token_t) : X zbx_variant_t :=
  no_args token (print_padded 4 (tm_year now_tm + 1900) ++ print_padded 2 (tm_mon now_tm + 1) ++ print_padded 2 (tm_mday now_tm)).
Definition eval_execute_function_time (token : zbx_eval_token_t) : X zbx_variant_t :=
  no_args token (print_padded 2 (tm_hour now_tm) ++ print_padded 2 (tm_min now_tm) ++ print_padded 2 (tm_sec now_tm)).
Definition eval_execute_function_now (token : zbx_eval_token_t) : X zbx_variant_t := no_args token (print_int (ts_sec env)).
Definition eval_execute_function_dayofweek (token : zbx_eval_token_t) : X zbx_variant_t :=
  no_args token (print_int (if tm_wday now_tm =? 0 then 7 else tm_wday now_tm)).
Definition eval_execute_function_dayofmonth (token : zbx_eval_token_t) : X zbx_variant_t := no_args token (print_int (tm_mday now_tm)).

(** ** Bits *)

Inductive zbx_function_bit_optype_t :=
  | FUNCTION_OPTYPE_BIT_AND | FUNCTION_OPTYPE_BIT_OR | FUNCTION_OPTYPE_BIT_XOR | FUNCTION_OPTYPE_BIT_LSHIFT | FUNCTION_OPTYPE_BIT_RSHIFT.

(** A shift by 64 bits or more is not defined. *)
Definition bit_value (type : zbx_function_bit_optype_t) (left right : Z) : X Z :=
  match type with
  | FUNCTION_OPTYPE_BIT_AND => mret (Z.land left right)
  | FUNCTION_OPTYPE_BIT_OR => mret (Z.lor left right)
  | FUNCTION_OPTYPE_BIT_XOR => mret (Z.lxor left right)
  | FUNCTION_OPTYPE_BIT_LSHIFT => if right <? 64 then mret (u64 (Z.shiftl left right)) else Halt Undefined
  | FUNCTION_OPTYPE_BIT_RSHIFT => if right <? 64 then mret (Z.shiftr left right) else Halt Undefined
  end.

Definition eval_execute_function_bitwise (type : zbx_function_bit_optype_t) (token : zbx_eval_token_t) (args : list zbx_variant_t) : X zbx_variant_t :=
  if negb (et_opt token =? 2) then wrong_count token
  else validated args (fun args =>
    left ← arg_at args 0; right ← arg_at args 1;
    left ← ui64_arg token left; right ← ui64_arg token right;
    value ← bit_value type left right; mret (VUi64 value)).

Definition eval_execute_function_bitnot (token : zbx_eval_token_t) (args : list zbx_variant_t) : X zbx_variant_t :=
  if negb (et_opt token =? 1) then wrong_count token
  else validated args (fun args => arg ← arg_at args 0; n ← ui64_arg token arg; mret (VUi64 (max_uint64 - n))).

(** The loop from the highest byte down. *)
Fixpoint bytelength_loop (i : nat) (byte n : Z) : Z :=
  match i with
  | O => 0
  | S j => if negb (Z.land byte n =? 0) then Z.of_nat i else bytelength_loop j (Z.shiftr byte 8) n
  end.

Fixpoint bitlength_loop (i : nat) (n : Z) : Z :=
  match i with
  | O => 0
  | S j => if Z.testbit n (Z.of_nat j) then Z.of_nat i else bitlength_loop j n
  end.

Definition length_function (token : zbx_eval_token_t) (args : list zbx_variant_t) (of_ui64 : Z -> Z) (unit : Z) : X zbx_variant_t :=
  if negb (et_opt token =? 1) then wrong_count token
  else validated args (fun args =>
    arg ← arg_at args 0;
    match zbx_variant_convert arg ZBX_VARIANT_UI64 with
    | Some v => n ← data_ui64 v; mret (VDbl (dbl_of_Z (of_ui64 n)))
    | None =>
        match zbx_variant_convert arg ZBX_VARIANT_STR with
        | None => fail_at "invalid function argument" token
        | Some v => s ← data_str v; mret (VDbl (dbl_of_Z (zlen s * unit)))
        end
    end).

Definition eval_execute_function_bytelength (token : zbx_eval_token_t) (args : list zbx_variant_t) : X zbx_variant_t :=
  length_function token args (bytelength_loop 8 0xFF00000000000000) 1.
Definition eval_execute_function_bitlength (token : zbx_eval_token_t) (args : list zbx_variant_t) : X zbx_variant_t :=
  length_function token args (bitlength_loop 64) 8.

(** ** Texts *)

Definition eval_execute_function_left (token : zbx_eval_token_t) (args : list zbx_variant_t) : X zbx_variant_t :=
  if negb (et_opt token =? 2) then wrong_count token
  else validated args (fun args =>
    arg ← arg_at args 0; len ← arg_at args 1;
    arg ← str_arg token arg; len ← ui64_arg token len;
    mret (VStr (zbx_strlcpy_utf8 arg (zbx_strlen_utf8_nchars arg len + 1)))).

Definition eval_execute_function_right (token : zbx_eval_token_t) (args : list zbx_variant_t) : X zbx_variant_t :=
  if negb (et_opt token =? 2) then wrong_count token
  else validated args (fun args =>
    arg ← arg_at args 0; len ← arg_at args 1;
    arg ← str_arg token arg; len ← ui64_arg token len;
    let srclen := zbx_strlen_utf8 arg in
    mret (VStr (if len <? srclen then
                  let p := zbx_strshift_utf8 arg (srclen - len) in zbx_strlcpy_utf8 p (zbx_strlen_utf8_nchars p len + 1)
                else arg))).

(** The sum of start and length wraps around. *)
Definition eval_execute_function_mid (token : zbx_eval_token_t) (args : list zbx_variant_t) : X zbx_variant_t :=
  if negb (et_opt token =? 3) then wrong_count token
  else validated args (fun args =>
    arg ← arg_at args 0; start ← arg_at args 1; len ← arg_at args 2;
    arg ← str_arg token arg; start ← ui64_arg token start; len ← ui64_arg token len;
    let srclen := zbx_strlen_utf8 arg in
    if (start =? 0) || (srclen <? start) then fail_at "invalid function second argument" token
    else
      let p := zbx_strshift_utf8 arg (start - 1) in
      mret (VStr (if u64 (start + len) <=? srclen then zbx_strlcpy_utf8 p (zbx_strlen_utf8_nchars p len + 1) else p))).

Inductive zbx_function_trim_optype_t := FUNCTION_OPTYPE_TRIM_ALL | FUNCTION_OPTYPE_TRIM_LEFT | FUNCTION_OPTYPE_TRIM_RIGHT.

Definition ZBX_WHITESPACE : list Z := [32; 9; 13; 10].

Definition eval_execute_function_trim (type : zbx_function_trim_optype_t) (token : zbx_eval_token_t) (args : list zbx_variant_t) : X zbx_variant_t :=
  if (et_opt token <? 1) || (2 <? et_opt token) then wrong_count token
  else validated args (fun args =>
    arg ← arg_at args 0;
    sym ← (if et_opt token =? 2 then sym ← arg_at args 1; str_arg token sym else mret ZBX_WHITESPACE);
    arg ← str_arg token arg;
    mret (VStr (match type with
                | FUNCTION_OPTYPE_TRIM_ALL => zbx_rtrim_utf8 (zbx_ltrim_utf8 arg sym) sym
                | FUNCTION_OPTYPE_TRIM_RIGHT => zbx_rtrim_utf8 arg sym
                | FUNCTION_OPTYPE_TRIM_LEFT => zbx_ltrim_utf8 arg sym
                end))).

Definition eval_execute_function_concat (token : zbx_eval_token_t) (args : list zbx_variant_t) : X zbx_variant_t :=
  if et_opt token <? 2 then wrong_count token
  else validated args (fun args => args ← convert_args token ZBX_VARIANT_STR args; mret (VStr (concat (zbx_variant_value_desc <$> args)))).

Definition eval_execute_function_insert (token : zbx_eval_token_t) (args : list zbx_variant_t) : X zbx_variant_t :=
  if negb (et_opt token =? 4) then wrong_count token
  else validated args (fun args =>
    arg ← arg_at args 0; start ← arg_at args 1; len ← arg_at args 2; replacement ← arg_at args 3;
    arg ← str_arg token arg; start ← ui64_arg token start; len ← ui64_arg token len; replacement ← str_arg token replacement;
    let src_len := zbx_strlen_utf8 arg in
    if (start =? 0) || (src_len <? start) then fail_at "invalid function second argument" token
    else if src_len <? u64 (start - 1 + len) then fail_at "invalid function third argument" token
    else
      let p := zbx_strshift_utf8 arg (start - 1) in
      mret (VStr (zbx_replace_mem_dyn arg (ptr_diff p arg) (zbx_strlen_utf8_nchars p len) replacement))).

Definition eval_execute_function_replace (token : zbx_eval_token_t) (args : list zbx_variant_t) : X zbx_variant_t :=
  if negb (et_opt token =? 3) then wrong_count token
  else validated args (fun args =>
    arg ← arg_at args 0; pattern ← arg_at args 1; replacement ← arg_at args 2;
    arg ← str_arg token arg; pattern ← str_arg token pattern; replacement ← str_arg token replacement;
    mret (VStr (if bool_decide (pattern = []) then arg else zbx_string_replace arg pattern replacement))).

(** The product of the number and the length wraps around, which the check of
    the length uses; the loop has [num] turns. *)
Definition eval_execute_function_repeat (token : zbx_eval_token_t) (args : list zbx_variant_t) : X zbx_variant_t :=
  if negb (et_opt token =? 2) then wrong_count token
  else validated args (fun args =>
    str ← arg_at args 0; num ← arg_at args 1;
    str ← str_arg token str; num ← ui64_arg token num;
    let len_utf8 := zbx_strlen_utf8 str in
    if len_utf8 =? 0 then mret (VStr [])
    else if MAX_STRING_LEN <=? u64 (num * len_utf8) then
      throw (txt "maximum allowed string length (2048) exceeded: " ++ print_Z (u64 (num * len_utf8)))
    else mret (VStr (concat (replicate (Z.to_nat num) str)))).

Definition eval_execute_function_char (token : zbx_eval_token_t) (args : list zbx_variant_t) : X zbx_variant_t :=
  if negb (et_opt token =? 1) then wrong_count token
  else validated args (fun args =>
    arg ← arg_at args 0; n ← ui64_arg token arg;
    if 127 <? n then throw (at_pos (txt "function argument " ++ quoted (print_Z n) ++ txt " is out of allowed range") (et_l token))
    else mret (VStr (if n =? 0 then [] else [n]))).

Definition eval_execute_function_ascii (token : zbx_eval_token_t) (args : list zbx_variant_t) : X zbx_variant_t :=
  if negb (et_opt token =? 1) then wrong_count token
  else validated args (fun args =>
    arg ← arg_at args 0;
    match zbx_variant_convert arg ZBX_VARIANT_STR with
    | Some (VStr s) => if zbx_utf8_char_len s =? 1 then mret (VUi64 (deref s)) else fail_at "invalid function argument" token
    | _ => fail_at "invalid function argument" token
    end).

(** ** Comparison *)

Definition eval_execute_function_between (token : zbx_eval_token_t) (args : list zbx_variant_t) : X zbx_variant_t :=
  if negb (et_opt token =? 3) then wrong_count token
  else prepared token args (fun args =>
    between ← arg_at args 0; low ← arg_at args 1; high ← arg_at args 2;
    between ← data_dbl between; low ← data_dbl low; high ← data_dbl high;
    mret (VDbl (if dbl_le low between && dbl_le between high then dbl_one else dbl_zero))).

(** A number, if all are numbers. *)
Definition number_arg (v : zbx_variant_t) : option double :=
  match variant_convert_suffixed_num v with
  | Some (VDbl d) => Some d
  | _ => match zbx_variant_convert v ZBX_VARIANT_DBL with Some (VDbl d) => Some d | _ => None end
  end.

(** The loop over the texts after the first one. *)
Fixpoint in_texts (token : zbx_eval_token_t) (ref : list Z) (args : list zbx_variant_t) : X double :=
  match args with
  | [] => mret dbl_zero
  | arg :: args => s ← str_arg token arg; if bool_decide (ref = s) then mret dbl_one else in_texts token ref args
  end.

Definition eval_execute_function_in (token : zbx_eval_token_t) (args : list zbx_variant_t) : X zbx_variant_t :=
  if et_opt token <? 2 then wrong_count token
  else validated args (fun args =>
    match mapM number_arg args with
    | Some (ref :: l) => mret (VDbl (if existsb (zbx_double_compare (epsilon env) ref) l then dbl_one else dbl_zero))
    | _ =>
        match args with
        | ref :: args => ref ← str_arg token ref; d ← in_texts token ref args; mret (VDbl d)
        | [] => Halt BadAccess
        end
    end).

(** ** Vectors *)

Definition eval_validate_statistical_function_args (token : zbx_eval_token_t) (args : list zbx_variant_t) : X (zbx_variant_t + list double) :=
  match eval_validate_function_args args with
  | inl v => mret (inl v)
  | inr args =>
      if negb (et_opt token =? 1) then wrong_count token
      else
        arg ← arg_at args 0;
        match arg with
        | VDblVector l => if bool_decide (l = []) then fail_at "empty vector argument for function" token else mret (inr l)
        | _ => throw (at_pos (txt "invalid argument type " ++ quoted (zbx_get_variant_type_desc (variant_type arg)) ++ txt " for function") (et_l token))
        end
  end.

Definition eval_execute_statistical_function (stat_func : list double -> res (list Z + double)) (token : zbx_eval_token_t) (args : list zbx_variant_t) : X zbx_variant_t :=
  r ← eval_validate_statistical_function_args token args;
  match r with
  | inl v => mret v
  | inr l => result ← (stat_func l : X double); mret (VDbl result)
  end.

Definition eval_execute_function_count (token : zbx_eval_token_t) (args : list zbx_variant_t) : X zbx_variant_t :=
  if negb (et_opt token =? 1) then wrong_count token
  else
    arg ← arg_at args 0;
    match arg with
    | VDblVector l => mret (VUi64 (Z.of_nat (length l)))
    | _ => fail_at "invalid type of argument for function" token
    end.

Definition zbx_strupper (s : list Z) : list Z := (fun c => if islower c then c - 32 else c) <$> s.

(** The bounds and counts of the buckets: INF in any case, or numbers. *)
Definition histogram_arg (token : zbx_eval_token_t) (v : zbx_variant_t) : X double :=
  match v with
  | VStr s =>
      if bool_decide (zbx_strupper s = txt "+INF") || bool_decide (zbx_strupper s = txt "INF") then mret dbl_inf
      else fail_at "invalid string values of backet for function" token
  | _ => v ← eval_convert_function_arg token ZBX_VARIANT_DBL v; data_dbl v
  end.

Fixpoint histogram_args (token : zbx_eval_token_t) (l : list zbx_variant_t) : X (list double) :=
  match l with
  | [] => mret []
  | v :: l => d ← histogram_arg token v; l ← histogram_args token l; mret (d :: l)
  end.

Definition eval_execute_function_histogram_quantile (token : zbx_eval_token_t) (args : list zbx_variant_t) : X zbx_variant_t :=
  if (et_opt token <? 2) || ((2 <? et_opt token) && (et_opt token mod 2 =? 0)) then wrong_count token
  else validated args (fun args =>
    values ← (
      if et_opt token =? 2 then
        arg ← arg_at args 1;
        match arg with
        | VDblVector l =>
            if negb (zlen l mod 2 =? 0) then fail_at "invalid values number of second argument for function" token else mret l
        | _ => fail_at "invalid type of second argument for function" token
        end
      else if negb (zlen (tail args) mod 2 =? 0) then fail_at "invalid number of histogram arguments for function" token
      else histogram_args token (tail args));
    q ← arg_at args 0;
    q ← (match q with VDbl d => mret d | _ => v ← eval_convert_function_arg token ZBX_VARIANT_DBL q; data_dbl v end);
    if dbl_lt q dbl_zero || dbl_lt dbl_one q then fail_at "invalid value of quantile for function" token
    else
      result ← (zbx_eval_calc_histogram_quantile (epsilon env) q values (fun msg => at_pos (txt msg) (et_l token)) : X double);
      mret (VDbl result)).

(** ** Mathematical functions *)

Definition eval_execute_math_function_single_param (func : math1) (token : zbx_eval_token_t) (args : list zbx_variant_t) : X zbx_variant_t :=
  if negb (et_opt token =? 1) then wrong_count token
  else prepared token args (fun args =>
    arg ← arg_at args 0; x ← data_dbl arg;
    if ((bool_decide (func = f_log) || bool_decide (func = f_log10)) && dbl_le x dbl_zero) ||
       (bool_decide (func = f_sqrt) && dbl_lt x dbl_zero) || (bool_decide (func = f_cot) && dbl_eq dbl_zero x)
    then fail_at "invalid argument for function" token
    else
      let result := apply1 func x in
      if zero_or_normal result then mret (VDbl result) else fail_at "calculation resulted in NaN or Infinity" token).

Definition eval_execute_math_function_double_param (func : math2) (token : zbx_eval_token_t) (args : list zbx_variant_t) : X zbx_variant_t :=
  if negb (et_opt token =? 2) then wrong_count token
  else prepared token args (fun args =>
    arg1 ← arg_at args 0; arg2 ← arg_at args 1; x ← data_dbl arg1; y ← data_dbl arg2;
    if ((bool_decide (func = f_round) || bool_decide (func = f_truncate)) &&
        (dbl_lt y dbl_zero || negb (dbl_eq dbl_zero (libm2 env f_fmod y dbl_one)))) || (bool_decide (func = f_fmod) && dbl_eq dbl_zero y)
    then fail_at "invalid second argument for function" token
    else if bool_decide (func = f_atan2) && dbl_eq dbl_zero x && dbl_eq dbl_zero y
    then fail_at "undefined result for arguments (0,0) for function 'atan2'" token
    else
      let result := apply2 func x y in
      if zero_or_normal result then mret (VDbl result) else fail_at "calculation resulted in NaN or Infinity" token).

(** [None] asks for a random number. *)
Definition eval_execute_math_return_value (value : option double) (token : zbx_eval_token_t) : X zbx_variant_t :=
  if negb (et_opt token =? 0) then wrong_count token
  else match value with
       | Some d => mret (VDbl d)
       | None => match random env with Some n => mret (VDbl (dbl_of_Z n)) | None => throw (txt "failed to generate seed for random number generator") end
       end.
End functions.
