(* ===== verification/EvalExec.v ===== *)
(** * Evaluation of expressions (src/libs/zbxeval/execute.c)

    The tokens of a parsed expression are executed on a stack of values, the
    last element of the list [output] being its top.  Error values are operands
    too: a logical operator may have a result without them. *)
From Stdlib Require Import String Ascii.
From stdpp Require Import prelude list.
From Stdlib Require Import ZArith Lia SpecFloat.
From S2P Require Import Prelude JsonText Calendar Num Scan Double Variant Utf8 EvalCalc EvalParse EvalFunc.
#[local] Open Scope Z_scope.

Abbreviation ZBX_EVAL_PROCESS_ERROR := 0x100000000.

(** A callback for functions: the name, the arguments, and a message or the value. *)
Definition function_cb : Type := list Z -> list zbx_variant_t -> list Z + zbx_variant_t.

Section execute.
Context (env : environment) (expression : list Z) (rules : Z) (common_func_cb history_func_cb : option function_cb).

Abbreviation fail_at := (fail_at expression).
Abbreviation at_pos := (at_pos expression).

Definition process_error : bool := negb (Z.land rules ZBX_EVAL_PROCESS_ERROR =? 0).

(** ** Operators *)

Definition to_dbl (v : zbx_variant_t) : option double :=
  match zbx_variant_convert v ZBX_VARIANT_DBL with Some (VDbl d) => Some d | _ => None end.

Definition is_zero (x : double) : bool := zbx_double_compare (epsilon env) x dbl_zero.
Definition of_bool (b : bool) : double := if b then dbl_one else dbl_zero.

(** [value], if it is zero or normal. *)
Definition dbl_result (token : zbx_eval_token_t) (value : double) : X zbx_variant_t :=
  if zero_or_normal value then mret (VDbl value) else fail_at "calculation resulted in NaN or Infinity" token.

(** The value that replaces the operand. *)
Definition unary_value (token : zbx_eval_token_t) (right : zbx_variant_t) : X zbx_variant_t :=
  if is_err right then mret right
  else match to_dbl right with
       | None => throw (at_pos (txt "unary operator operand " ++ quoted (zbx_variant_value_desc right) ++ txt " is not a numeric value") (et_l token))
       | Some d =>
           match et_type token with
           | OP_MINUS => dbl_result token (dbl_opp d)
           | OP_NOT => dbl_result token (of_bool (is_zero d))
           | _ => fail_at "unknown unary operator" token
           end
       end.

Definition eval_execute_op_unary (token : zbx_eval_token_t) (output : list zbx_variant_t) : X (list zbx_variant_t) :=
  match last output with
  | None => fail_at "unary operator requires one operand" token
  | Some v => v ← unary_value token v; mret (take (length output - 1) output ++ [v])
  end.

(** The result when the other operand is an error. *)
Definition eval_execute_op_logic_err (token : zbx_eval_token_t) (value : zbx_variant_t) : option double :=
  if is_err value then None
  else
    d ← to_dbl value;
    match et_type token with
    | OP_AND => if is_zero d then Some dbl_zero else None
    | OP_OR => if is_zero d then None else Some dbl_one
    | _ => None
    end.

Definition compare_doubles (left right : double) : Z := zbx_variant_compare (epsilon env) (VDbl left) (VDbl right).

(** The arithmetic operators on two numbers. *)
Definition arithmetic_value (token : zbx_eval_token_t) (left right : double) : X zbx_variant_t :=
  match et_type token with
  | OP_AND => mret (VDbl (of_bool (negb (is_zero left || is_zero right))))
  | OP_OR => mret (VDbl (of_bool (negb (is_zero left) || negb (is_zero right))))
  | OP_LT => dbl_result token (of_bool (compare_doubles left right <? 0))
  | OP_LE => dbl_result token (of_bool (compare_doubles left right <=? 0))
  | OP_GT => dbl_result token (of_bool (0 <? compare_doubles left right))
  | OP_GE => dbl_result token (of_bool (0 <=? compare_doubles left right))
  | OP_ADD => dbl_result token (dbl_add left right)
  | OP_SUB => dbl_result token (dbl_sub left right)
  | OP_MUL => dbl_result token (dbl_mul left right)
  | OP_DIV => if is_zero right then fail_at "division by zero" token else dbl_result token (dbl_div left right)
  | _ => Halt Undefined
  end.

Definition is_vector (v : zbx_variant_t) : bool := match v with VDblVector _ => true | _ => false end.

Definition not_numeric {A} (token : zbx_eval_token_t) (side : string) (v : zbx_variant_t) : X A :=
  throw (at_pos (txt side ++ txt " operand " ++ quoted (zbx_variant_value_desc v) ++ txt " is not a numeric value for operator") (et_l token)).

(** The value that replaces the operands. *)
Definition binary_value (token : zbx_eval_token_t) (left right : zbx_variant_t) : X zbx_variant_t :=
  let logic := is_type (et_type token) OP_AND || is_type (et_type token) OP_OR in
  let with_error err other :=
    match (if logic then eval_execute_op_logic_err token other else None) with
    | Some d => mret (VDbl d)
    | None => mret err
    end in
  if is_err left then with_error left right
  else if is_err right then with_error right left
  else if is_type (et_type token) OP_EQ || is_type (et_type token) OP_NE then
    if is_vector left || is_vector right then fail_at "vector cannot be used with comparison operator" token
    else
      let equal := eval_variant_compare (epsilon env) left right =? 0 in
      mret (VDbl (of_bool (if is_type (et_type token) OP_EQ then equal else negb equal)))
  else match to_dbl left with
       | None => not_numeric token "left" left
       | Some l =>
           match to_dbl right with
           | None => not_numeric token "right" right
           | Some r => arithmetic_value token l r
           end
       end.

Definition eval_execute_op_binary (token : zbx_eval_token_t) (output : list zbx_variant_t) : X (list zbx_variant_t) :=
  let n := zlen output in
  if n <? 2 then fail_at "binary operator requires two operands" token
  else
    left ← run (of_opt BadAccess (zget output (n - 2)));
    right ← run (of_opt BadAccess (zget output (n - 1)));
    v ← binary_value token left right;
    mret (take (length output - 2) output ++ [v]).

(** ** Operands *)

(** [n] characters of a text in quotes; a backslash stands before the character it protects. *)
Fixpoint unescape (fuel : nat) (src : list Z) (n : Z) : list Z :=
  match fuel with
  | O => []
  | S fuel =>
      if n <=? 0 then []
      else if deref src =? BSL then deref (tail src) :: unescape fuel (drop 2 src) (n - 2)
      else deref src :: unescape fuel (tail src) (n - 1)
  end.

Definition token_len (token : zbx_eval_token_t) : Z := et_r token - et_l token + 1.
Definition token_text (token : zbx_eval_token_t) : list Z := take (Z.to_nat (token_len token)) (drop (Z.to_nat (et_l token)) expression).

(** The value of a token without a value of its own. *)
Definition literal_value (token : zbx_eval_token_t) : zbx_variant_t :=
  let s := drop (Z.to_nat (et_l token)) expression in
  match et_type token with
  | VAR_NUM =>
      match zbx_is_uint64_n s (token_len token) with
      | Some n => VUi64 n
      | None => VDbl (dbl_mul (strtod s) (dbl_of_Z (suffix2factor (deref (drop (Z.to_nat (et_r token)) expression)))))
      end
  | VAR_STR => VStr (unescape (length s) (tail s) (et_r token - et_l token - 1))
  | _ => VStr (token_text token)
  end.

Definition token_value (token : zbx_eval_token_t) : X zbx_variant_t :=
  match et_value token with
  | VNone => mret (literal_value token)
  | VErr s => if process_error then mret (VErr s) else throw s
  | v => mret (if is_type (et_type token) VAR_USERMACRO then default v (variant_convert_suffixed_num v) else v)
  end.

Definition eval_execute_push_value (token : zbx_eval_token_t) (output : list zbx_variant_t) : X (list zbx_variant_t) :=
  v ← token_value token; mret (output ++ [v]).

Definition eval_execute_push_null (output : list zbx_variant_t) : list zbx_variant_t := output ++ [VNone].

(** ** Functions *)

Definition eval_compare_token (token : zbx_eval_token_t) (name : string) : bool := bool_decide (token_text token = txt name).

(** The arguments on the stack are replaced. *)
Definition eval_function_return (args_num : Z) (value : zbx_variant_t) (output : list zbx_variant_t) : list zbx_variant_t :=
  take (length output - Z.to_nat args_num) output ++ [value].

Definition cb_value (cb : function_cb) (token : zbx_eval_token_t) (args : list zbx_variant_t) : X zbx_variant_t :=
  match cb (token_text token) args with
  | inr value => mret value
  | inl errmsg =>
      let error := at_pos errmsg (et_l token) ++ [DOT] in
      if process_error then mret (VErr error) else throw error
  end.

Definition stat (f : list double -> list Z + double) : list double -> res (list Z + double) := fun l => Ret (f l).

(** The functions by name, in the order they are compared. *)
Definition function_table : list (string * (zbx_eval_token_t -> list zbx_variant_t -> X zbx_variant_t)) :=
  let e := expression in
  let m1 f := eval_execute_math_function_single_param env e f in
  let m2 f := eval_execute_math_function_double_param env e f in
  let st f := eval_execute_statistical_function e f in
  [("min"%string, eval_execute_function_min e); ("max"%string, eval_execute_function_max e); ("sum"%string, eval_execute_function_sum e);
   ("avg"%string, eval_execute_function_avg e); ("abs"%string, eval_execute_function_abs e); ("length"%string, eval_execute_function_length e);
   ("date"%string, fun t _ => eval_execute_function_date env e t); ("time"%string, fun t _ => eval_execute_function_time env e t);
   ("now"%string, fun t _ => eval_execute_function_now env e t); ("dayofweek"%string, fun t _ => eval_execute_function_dayofweek env e t);
   ("dayofmonth"%string, fun t _ => eval_execute_function_dayofmonth env e t);
   ("bitand"%string, eval_execute_function_bitwise e FUNCTION_OPTYPE_BIT_AND); ("bitor"%string, eval_execute_function_bitwise e FUNCTION_OPTYPE_BIT_OR);
   ("bitxor"%string, eval_execute_function_bitwise e FUNCTION_OPTYPE_BIT_XOR);
   ("bitlshift"%string, eval_execute_function_bitwise e FUNCTION_OPTYPE_BIT_LSHIFT);
   ("bitrshift"%string, eval_execute_function_bitwise e FUNCTION_OPTYPE_BIT_RSHIFT); ("bitnot"%string, eval_execute_function_bitnot e);
   ("between"%string, eval_execute_function_between e); ("in"%string, eval_execute_function_in env e);
   ("ascii"%string, eval_execute_function_ascii e); ("char"%string, eval_execute_function_char e); ("left"%string, eval_execute_function_left e);
   ("right"%string, eval_execute_function_right e); ("mid"%string, eval_execute_function_mid e);
   ("bitlength"%string, eval_execute_function_bitlength e); ("bytelength"%string, eval_execute_function_bytelength e);
   ("concat"%string, eval_execute_function_concat e); ("insert"%string, eval_execute_function_insert e);
   ("replace"%string, eval_execute_function_replace e); ("repeat"%string, eval_execute_function_repeat e);
   ("ltrim"%string, eval_execute_function_trim e FUNCTION_OPTYPE_TRIM_LEFT); ("rtrim"%string, eval_execute_function_trim e FUNCTION_OPTYPE_TRIM_RIGHT);
   ("trim"%string, eval_execute_function_trim e FUNCTION_OPTYPE_TRIM_ALL);
   ("cbrt"%string, m1 f_cbrt); ("ceil"%string, m1 f_ceil); ("exp"%string, m1 f_exp); ("expm1"%string, m1 f_expm1); ("floor"%string, m1 f_floor);
   ("signum"%string, m1 f_signum); ("degrees"%string, m1 f_degrees); ("radians"%string, m1 f_radians); ("acos"%string, m1 f_acos);
   ("asin"%string, m1 f_asin); ("atan"%string, m1 f_atan); ("cos"%string, m1 f_cos); ("cosh"%string, m1 f_cosh); ("cot"%string, m1 f_cot);
   ("sin"%string, m1 f_sin); ("sinh"%string, m1 f_sinh); ("tan"%string, m1 f_tan); ("log"%string, m1 f_log); ("log10"%string, m1 f_log10);
   ("sqrt"%string, m1 f_sqrt); ("power"%string, m2 f_pow); ("round"%string, m2 f_round); ("mod"%string, m2 f_fmod);
   ("truncate"%string, m2 f_truncate); ("atan2"%string, m2 f_atan2);
   ("pi"%string, fun t _ => eval_execute_math_return_value env e (Some ZBX_MATH_CONST_PI) t);
   ("e"%string, fun t _ => eval_execute_math_return_value env e (Some ZBX_MATH_CONST_E) t);
   ("rand"%string, fun t _ => eval_execute_math_return_value env e None t);
   ("kurtosis"%string, st (stat zbx_eval_calc_kurtosis)); ("mad"%string, st (zbx_eval_calc_mad (epsilon env)));
   ("skewness"%string, st (stat zbx_eval_calc_skewness)); ("stddevpop"%string, st (stat zbx_eval_calc_stddevpop));
   ("stddevsamp"%string, st (stat zbx_eval_calc_stddevsamp)); ("sumofsquares"%string, st (stat zbx_eval_calc_sumofsquares));
   ("varpop"%string, st (stat zbx_eval_calc_varpop)); ("varsamp"%string, st (stat zbx_eval_calc_varsamp));
   ("count"%string, eval_execute_function_count e); ("histogram_quantile"%string, eval_execute_function_histogram_quantile env e)].

Definition common_value (token : zbx_eval_token_t) (args : list zbx_variant_t) : X zbx_variant_t :=
  match list_find (fun f => eval_compare_token token f.1 = true) function_table with
  | Some (_, (_, f)) => f token args
  | None =>
      match common_func_cb with
      | Some cb => cb_value cb token args
      | None => throw (at_pos (txt "Unknown function") (et_l token) ++ [DOT])
      end
  end.

Definition history_value (token : zbx_eval_token_t) (args : list zbx_variant_t) : X zbx_variant_t :=
  match history_func_cb with
  | Some cb => cb_value cb token args
  | None => throw (at_pos (txt "Unknown function") (et_l token) ++ [DOT])
  end.

Definition call (f : zbx_eval_token_t -> list zbx_variant_t -> X zbx_variant_t) (token : zbx_eval_token_t) (output : list zbx_variant_t) : X (list zbx_variant_t) :=
  if zlen output <? et_opt token then fail_at "not enough arguments for function" token
  else v ← f token (drop (length output - Z.to_nat (et_opt token)) output); mret (eval_function_return (et_opt token) v output).

Definition eval_execute_common_function : zbx_eval_token_t -> list zbx_variant_t -> X (list zbx_variant_t) := call common_value.
Definition eval_execute_history_function : zbx_eval_token_t -> list zbx_variant_t -> X (list zbx_variant_t) := call history_value.

Definition eval_throw_exception (output : list zbx_variant_t) : X (list zbx_variant_t) :=
  match last output with
  | None => throw (txt "exception must have one argument")
  | Some arg =>
      match default arg (zbx_variant_convert arg ZBX_VARIANT_STR) with
      | VStr s | VErr s => throw s
      | _ => Halt Undefined
      end
  end.

(** ** Execution *)

Definition execute_token (token : zbx_eval_token_t) (output : list zbx_variant_t) : X (list zbx_variant_t) :=
  if is_class CLASS_OPERATOR1 (et_type token) then eval_execute_op_unary token output
  else if is_class CLASS_OPERATOR2 (et_type token) then eval_execute_op_binary token output
  else match et_type token with
       | TOKEN_NOP => mret output
       | VAR_NUM | VAR_STR | VAR_MACRO | VAR_USERMACRO | ARG_QUERY | ARG_PERIOD => eval_execute_push_value token output
       | ARG_NULL => mret (eval_execute_push_null output)
       | TOKEN_FUNCTION => eval_execute_common_function token output
       | HIST_FUNCTION => eval_execute_history_function token output
       | TOKEN_FUNCTIONID =>
           match et_value token with
           | VNone => throw (txt "trigger history functions must be pre-calculated")
           | _ => eval_execute_push_value token output
           end
       | TOKEN_EXCEPTION => eval_throw_exception output
       | _ => fail_at "unknown token" token
       end.

Fixpoint execute_loop (tokens : list zbx_eval_token_t) (output : list zbx_variant_t) : X (list zbx_variant_t) :=
  match tokens with
  | [] => mret output
  | token :: tokens => output ← execute_token token output; execute_loop tokens output
  end.

(** What is left on the stack. *)
Definition execute_result (output : list zbx_variant_t) : X zbx_variant_t :=
  match output with
  | [VErr s] => throw s
  | [v] => mret v
  | _ => throw (txt "output stack after expression execution must contain one value")
  end.

Definition final_error (errmsg : list Z) : list Z :=
  if islower (deref errmsg) then txt "Cannot evaluate expression: " ++ errmsg else errmsg.

Definition eval_execute (tokens : list zbx_eval_token_t) : X zbx_variant_t :=
  match (output ← execute_loop tokens []; execute_result output) with
  | Ret (inl errmsg) => Ret (inl (final_error errmsg))
  | r => r
  end.
End execute.

Definition zbx_eval_execute_ext (env : environment) (expression : list Z) (rules : Z) (common_func_cb history_func_cb : option function_cb)
    (tokens : list zbx_eval_token_t) : X zbx_variant_t := eval_execute env expression rules common_func_cb history_func_cb tokens.

Definition zbx_eval_execute (env : environment) (expression : list Z) (rules : Z) (tokens : list zbx_eval_token_t) : X zbx_variant_t :=
  eval_execute env expression rules None None tokens.
