(* ===== verification/EvalTree.v ===== *)
(** * Expressions as trees

    The abstract syntax of an expression over its tokens: what the postfix
    code of zbxeval/parse.c stands for, and its value by recursion over the
    tree.  The stack machine of execute.c computes that value. *)
From Stdlib Require Import String Ascii.
From stdpp Require Import prelude list.
From Stdlib Require Import ZArith Lia SpecFloat.
From S2P Require Import Prelude JsonText NextCheck Double Variant EvalCalc EvalParse EvalFunc EvalExec.
#[local] Open Scope Z_scope.

Inductive tree :=
  | Operand (t : zbx_eval_token_t)
  | Unary (t : zbx_eval_token_t) (right : tree)
  | Binary (t : zbx_eval_token_t) (left right : tree)
  | Call (t : zbx_eval_token_t) (args : list tree).

(** Induction with the property for each argument of a function. *)
Fixpoint tree_induction (P : tree -> Prop) (Ho : forall t, P (Operand t)) (Hu : forall t r, P r -> P (Unary t r))
    (Hb : forall t l r, P l -> P r -> P (Binary t l r)) (Hc : forall t args, Forall P args -> P (Call t args)) (x : tree) : P x :=
  let ind := tree_induction P Ho Hu Hb Hc in
  match x with
  | Operand t => Ho t
  | Unary t r => Hu t r (ind r)
  | Binary t l r => Hb t l r (ind l) (ind r)
  | Call t args => Hc t args ((fix all l : Forall P l := match l with [] => Forall_nil_2 P | a :: l => Forall_cons_2 P a l (ind a) (all l) end) args)
  end.

Fixpoint postfix (x : tree) : list zbx_eval_token_t :=
  match x with
  | Operand t => [t]
  | Unary t r => postfix r ++ [t]
  | Binary t l r => postfix l ++ postfix r ++ [t]
  | Call t args => concat (map postfix args) ++ [t]
  end.

(** The tokens stand where their classes belong. *)
Definition is_operand (t : zbx_token_type_t) : bool :=
  match t with VAR_NUM | VAR_STR | VAR_MACRO | VAR_USERMACRO | ARG_QUERY | ARG_PERIOD | ARG_NULL | TOKEN_FUNCTIONID => true | _ => false end.

Definition is_function (t : zbx_token_type_t) : bool := match t with TOKEN_FUNCTION | HIST_FUNCTION => true | _ => false end.

Fixpoint well_formed (x : tree) : bool :=
  match x with
  | Operand t => is_operand (et_type t)
  | Unary t r => is_class CLASS_OPERATOR1 (et_type t) && well_formed r
  | Binary t l r => is_class CLASS_OPERATOR2 (et_type t) && well_formed l && well_formed r
  | Call t args => is_function (et_type t) && (et_opt t =? Z.of_nat (length args)) && forallb well_formed args
  end.

Section value.
Context (env : environment) (expression : list Z) (rules : Z) (common_func_cb history_func_cb : option function_cb).

Abbreviation execute_token := (execute_token env expression rules common_func_cb history_func_cb).
Abbreviation execute_loop := (execute_loop env expression rules common_func_cb history_func_cb).

Definition operand_value (t : zbx_eval_token_t) : X zbx_variant_t :=
  match et_type t, et_value t with
  | ARG_NULL, _ => mret VNone
  | TOKEN_FUNCTIONID, VNone => throw (txt "trigger history functions must be pre-calculated")
  | _, _ => token_value expression rules t
  end.

Definition function_value (t : zbx_eval_token_t) (args : list zbx_variant_t) : X zbx_variant_t :=
  if is_type (et_type t) HIST_FUNCTION then history_value expression rules history_func_cb t args
  else common_value env expression rules common_func_cb t args.

(** Arguments are evaluated from the left, all of them before the operator:
    there is no short cut. *)
Fixpoint value (x : tree) : X zbx_variant_t :=
  match x with
  | Operand t => operand_value t
  | Unary t r => v ← value r; unary_value env expression t v
  | Binary t l r => a ← value l; b ← value r; binary_value env expression t a b
  | Call t args =>
      args ← (fix values (l : list tree) : X (list zbx_variant_t) :=
        match l with
        | [] => mret []
        | x :: l => v ← value x; vs ← values l; mret (v :: vs)
        end) args;
      function_value t args
  end.

Fixpoint values (l : list tree) : X (list zbx_variant_t) :=
  match l with
  | [] => mret []
  | x :: l => v ← value x; vs ← values l; mret (v :: vs)
  end.

Lemma value_call t args : value (Call t args) = (l ← values args; function_value t l).
Proof. reflexivity. Qed.

(** ** The monad *)

Lemma X_bind_assoc {A B C} (m : X A) (f : A -> X B) (g : B -> X C) : (y ← (x ← m; f x); g y) = (x ← m; y ← f x; g y).
Proof. by destruct m as [[e | a] |]. Qed.

Lemma X_bind_ret {A B} (a : A) (f : A -> X B) : (x ← (mret a : X A); f x) = f a.
Proof. reflexivity. Qed.

Lemma X_bind_ext {A B} (m : X A) (f g : A -> X B) : (forall a, m = mret a -> f a = g a) -> (x ← m; f x) = (x ← m; g x).
Proof. intros Hfg. destruct m as [[e | a] |]; [done | apply Hfg; done | done]. Qed.

(** ** The stack machine *)

Lemma values_length l vs : values l = mret vs -> length vs = length l.
Proof.
  revert vs. induction l as [| x l IH]; intros vs Hl; [by injection Hl as <- |].
  simpl in Hl. destruct (value x) as [[e | v] |]; [done | | done]. cbn in Hl.
  destruct (values l) as [[e | vs'] |]; [done | | done]. cbn in Hl. injection Hl as <-. cbn. f_equal. by apply IH.
Qed.

Lemma loop_app p q output : execute_loop (p ++ q) output = (o ← execute_loop p output; execute_loop q o).
Proof.
  revert output. induction p as [| t p IH]; intros output; [done |]. cbn [app EvalExec.execute_loop].
  rewrite X_bind_assoc. apply X_bind_ext. intros. apply IH.
Qed.

Lemma loop_one t output : execute_loop [t] output = execute_token t output.
Proof. cbn [EvalExec.execute_loop]. by destruct (execute_token t output) as [[e | o] |]. Qed.

Lemma execute_operand t output : is_operand (et_type t) = true -> execute_token t output = (v ← operand_value t; mret (output ++ [v])).
Proof.
  unfold EvalExec.execute_token, operand_value. intros Ht. destruct t as [type opt l r v]. cbn [et_type et_value] in *.
  destruct type; try discriminate Ht; try reflexivity. by destruct v.
Qed.

Lemma execute_unary t output v : is_class CLASS_OPERATOR1 (et_type t) = true ->
  execute_token t (output ++ [v]) = (w ← unary_value env expression t v; mret (output ++ [w])).
Proof.
  unfold EvalExec.execute_token. intros ->. unfold eval_execute_op_unary. rewrite last_snoc, length_app. cbn [length].
  by rewrite Nat.add_sub, take_app_length.
Qed.

Lemma operator2_not_1 t : is_class CLASS_OPERATOR2 t = true -> is_class CLASS_OPERATOR1 t = false.
Proof. by destruct t. Qed.

Lemma execute_binary t output a b : is_class CLASS_OPERATOR2 (et_type t) = true ->
  execute_token t ((output ++ [a]) ++ [b]) = (w ← binary_value env expression t a b; mret (output ++ [w])).
Proof.
  intros Ht. unfold EvalExec.execute_token. rewrite (operator2_not_1 _ Ht), Ht. unfold eval_execute_op_binary. lens.
  rewrite (proj2 (Z.ltb_ge _ _)) by (pose proof (zlen_nonneg output); lia).
  replace (zlen output + (1 + 0) + (1 + 0) - 2) with (zlen output) by lia.
  replace (zlen output + (1 + 0) + (1 + 0) - 1) with (zlen (output ++ [a])) by (lens; lia).
  rewrite (zget_middle (output ++ [a]) b []), <- app_assoc. cbn [app]. rewrite (zget_middle output a [b]). cbn [of_opt run].
  cbn [mbind X_bind]. rewrite length_app. cbn [length]. by rewrite Nat.add_sub, take_app_length.
Qed.

Lemma execute_call t output args : is_function (et_type t) = true -> et_opt t = Z.of_nat (length args) ->
  execute_token t (output ++ args) = (w ← function_value t args; mret (output ++ [w])).
Proof.
  intros Ht Hopt. unfold EvalExec.execute_token, function_value.
  assert (Hcall : forall f, call expression f t (output ++ args) = (w ← f t args; mret (output ++ [w]))).
  { intros f. unfold call, eval_function_return. rewrite Hopt, Nat2Z.id. lens. rewrite (proj2 (Z.ltb_ge _ _)) by (unfold zlen; lia).
    rewrite length_app, Nat.add_sub, drop_app_length. apply X_bind_ext. intros w _. by rewrite take_app_length. }
  destruct (et_type t); try discriminate Ht; cbn -[call]; apply Hcall.
Qed.

Definition runs (x : tree) : Prop := forall output, execute_loop (postfix x) output = (v ← value x; mret (output ++ [v])).

Lemma runs_all l output : Forall runs l -> execute_loop (concat (map postfix l)) output = (vs ← values l; mret (output ++ vs)).
Proof.
  intros Hl. revert output. induction Hl as [| x l Hx _ IH]; intros output; cbn [map concat values].
  - cbn. by rewrite app_nil_r.
  - rewrite loop_app, Hx, !X_bind_assoc. apply X_bind_ext. intros v _. rewrite X_bind_ret, IH, X_bind_assoc.
    apply X_bind_ext. intros vs _. rewrite X_bind_ret. by rewrite <- app_assoc.
Qed.

(** The postfix code leaves the value of the tree on the stack. *)
Lemma postfix_runs x : well_formed x = true -> runs x.
Proof.
  induction x as [t | t r IHr | t l r IHl IHr | t args IH] using tree_induction; intros Hwf output; cbn [postfix well_formed] in *; unbool.
  - by rewrite loop_one, execute_operand.
  - cbn [value]. rewrite loop_app, IHr, !X_bind_assoc by done. apply X_bind_ext. intros v _.
    by rewrite X_bind_ret, loop_one, execute_unary.
  - cbn [value]. rewrite loop_app, IHl, !X_bind_assoc by done. apply X_bind_ext. intros a _.
    rewrite X_bind_ret, loop_app, IHr, !X_bind_assoc by done. apply X_bind_ext. intros b _. by rewrite X_bind_ret, loop_one, execute_binary.
  - rewrite value_call, loop_app, runs_all, !X_bind_assoc.
    + apply X_bind_ext. intros vs Hvs. rewrite X_bind_ret, loop_one. apply execute_call; [done |]. by rewrite (values_length args).
    + apply Forall_forall. intros x Hx. rewrite Forall_forall in IH. apply IH; [done |].
      match goal with H : forallb _ _ = true |- _ => rewrite forallb_forall in H; apply H end. by apply list_elem_of_In.
Qed.

(** An error value is reported as an error. *)
Definition tree_result (x : tree) : X zbx_variant_t :=
  match (v ← value x; execute_result [v]) with
  | Ret (inl errmsg) => Ret (inl (final_error errmsg))
  | r => r
  end.

Lemma execute_tree x : well_formed x = true ->
  zbx_eval_execute_ext env expression rules common_func_cb history_func_cb (postfix x) = tree_result x.
Proof.
  intros Hwf. unfold zbx_eval_execute_ext, eval_execute, tree_result. rewrite (postfix_runs x Hwf), X_bind_assoc.
  by destruct (value x) as [[e | v] |].
Qed.
End value.

(** C8: The stack machine of zbxeval/execute.c computes the value of the
    expression: for every tree whose tokens stand where their classes belong,
    running its postfix code over any stack ends with the first error of the
    evaluation from the left or leaves the value of the tree on that stack and
    nothing else, and the execution of the whole code is the result of the
    tree, with an error value reported as the error. *)
Theorem stack_machine_value env expression rules common_func_cb history_func_cb x : well_formed x = true ->
  (forall output, execute_loop env expression rules common_func_cb history_func_cb (postfix x) output =
     (v ← value env expression rules common_func_cb history_func_cb x; mret (output ++ [v]))) /\
  zbx_eval_execute_ext env expression rules common_func_cb history_func_cb (postfix x) =
    tree_result env expression rules common_func_cb history_func_cb x.
Proof. intros Hwf. split; [by apply postfix_runs | by apply execute_tree]. Qed.

(** An environment of the zone UTC; the mathematical functions are not used. *)
Definition sample_env : environment := Env (fun _ x => x) (fun _ x _ => x) utc_zone 0 double_epsilon None.

(** The text 1+2*3. *)
Definition sample_sum : list Z := [49; 43; 50; 42; 51].
Definition sample_sum_tree : tree :=
  let num p := Operand (EToken VAR_NUM 0 p p VNone) in Binary (EToken OP_ADD 0 1 1 VNone) (num 0) (Binary (EToken OP_MUL 0 3 3 VNone) (num 2) (num 4)).

Lemma stack_machine_witness : well_formed sample_sum_tree = true /\
  zbx_eval_execute_ext sample_env sample_sum 0 None None (postfix sample_sum_tree) = mret (VDbl (dbl_of_Z 7)).
Proof.
  split; [reflexivity |]. destruct (stack_machine_value sample_env sample_sum 0 None None sample_sum_tree) as [_ ->].
  - reflexivity.
  - vm_compute. reflexivity.
Defined.
