(* ===== verification/EvalText.v ===== *)
(** * Texts of expressions

    Expressions as they are written: numbers, texts, function ids, operators
    with their precedence, parentheses and function calls, with white space
    between the tokens.  The parser of zbxeval/parse.c turns such a text into
    the postfix code of the tree that it stands for. *)
From stdpp Require Import prelude list.
From Stdlib Require Import ZArith Lia SpecFloat.
From S2P Require Import Prelude JsonText Macro Num Scan Double Variant Token Utf8 EvalParse EvalTree.
#[local] Open Scope Z_scope.

(** ** Syntax *)

(** A sign, digits, digits behind a point, a unit. *)
Record number := Number { n_neg : bool; n_int : list Z; n_frac : option (list Z); n_unit : option Z }.

Inductive expr :=
  | ENum (ws : list Z) (n : number)
  | EStr (ws s : list Z)
  | EFid (ws ds : list Z)
  | EUn (ws : list Z) (op : zbx_token_type_t) (e : expr)
  | EBin (l : expr) (ws : list Z) (op : zbx_token_type_t) (r : expr)
  | EParen (ws : list Z) (e : expr) (ws2 : list Z)
  | ECall (ws name : list Z) (args : list (expr * list Z)).

Definition unsigned_text (n : number) : list Z :=
  n_int n ++ match n_frac n with Some ds => DOT :: ds | None => [] end ++ match n_unit n with Some u => [u] | None => [] end.
Definition number_text (n : number) : list Z := (if n_neg n then [45] else []) ++ unsigned_text n.

(** A backslash before quotes and backslashes. *)
Fixpoint escaped (s : list Z) : list Z :=
  match s with
  | [] => []
  | c :: s => if (c =? QUOT) || (c =? BSL) then BSL :: c :: escaped s else c :: escaped s
  end.

Definition op_text (op : zbx_token_type_t) : list Z :=
  match op with
  | OP_ADD => [43] | OP_SUB | OP_MINUS => [45] | OP_MUL => [42] | OP_DIV => [47]
  | OP_EQ => [61] | OP_LT => [60] | OP_GT => [62] | OP_LE => [60; 61] | OP_GE => [62; 61] | OP_NE => [60; 62]
  | OP_AND => [97; 110; 100] | OP_OR => [111; 114] | OP_NOT => [110; 111; 116]
  | _ => []
  end.

(** Arguments are separated by commas; each has white space behind it. *)
Fixpoint join_args (l : list (list Z)) : list Z :=
  match l with
  | [] => []
  | [a] => a
  | a :: l => a ++ COMMA :: join_args l
  end.

Fixpoint print (e : expr) : list Z :=
  match e with
  | ENum ws n => ws ++ number_text n
  | EStr ws s => ws ++ QUOT :: escaped s ++ [QUOT]
  | EFid ws ds => ws ++ LBR :: ds ++ [RBR]
  | EUn ws op e => ws ++ op_text op ++ print e
  | EBin l ws op r => print l ++ ws ++ op_text op ++ print r
  | EParen ws e ws2 => ws ++ LPAR :: print e ++ ws2 ++ [RPAR]
  | ECall ws name args => ws ++ name ++ LPAR :: join_args (map (fun a => print a.1 ++ a.2) args) ++ [RPAR]
  end.

(** ** What an expression stands for *)

(** The priority of the operator that is evaluated last; 0 for an operand. *)
Definition level (e : expr) : Z :=
  match e with
  | EUn _ op _ | EBin _ _ op _ => priority op
  | _ => 0
  end.

Section tree_of.
Context (indexed : bool).

Definition op_token (op : zbx_token_type_t) (pos : Z) : zbx_eval_token_t := EToken op 0 pos (pos + zlen (op_text op) - 1) VNone.

(** A constant outside of functions has the next index. *)
Definition constant (infun : bool) (type : zbx_token_type_t) (pos len k f : Z) : tree * Z * Z :=
  if indexed && negb infun then (Operand (EToken type k pos (pos + len - 1) VNone), k + 1, f)
  else (Operand (EToken type 0 pos (pos + len - 1) VNone), k, f).

(** The tree of the expression that starts at [pos], with the numbers of
    constants and function ids before it, and those behind it. *)
Fixpoint tree_of (infun : bool) (pos k f : Z) (e : expr) : tree * Z * Z :=
  match e with
  | ENum ws n => constant infun VAR_NUM (pos + zlen ws) (zlen (number_text n)) k f
  | EStr ws s => constant infun VAR_STR (pos + zlen ws) (zlen (escaped s) + 2) k f
  | EFid ws ds => (Operand (EToken TOKEN_FUNCTIONID f (pos + zlen ws) (pos + zlen ws + zlen ds + 1) VNone), k, f + 1)
  | EUn ws op e => let '(x, k, f) := tree_of infun (pos + zlen ws + zlen (op_text op)) k f e in (Unary (op_token op (pos + zlen ws)) x, k, f)
  | EBin l ws op r =>
      let '(x, k, f) := tree_of infun pos k f l in
      let p := pos + zlen (print l) + zlen ws in
      let '(y, k, f) := tree_of infun (p + zlen (op_text op)) k f r in (Binary (op_token op p) x y, k, f)
  | EParen ws e ws2 => tree_of infun (pos + zlen ws + 1) k f e
  | ECall ws name args =>
      let p := pos + zlen ws in
      let '(xs, k, f) := (fix trees (pos k f : Z) (l : list (expr * list Z)) : list tree * Z * Z :=
        match l with
        | [] => ([], k, f)
        | a :: l =>
            let '(x, k, f) := tree_of true pos k f a.1 in
            let '(xs, k, f) := trees (pos + zlen (print a.1) + zlen a.2 + 1) k f l in (x :: xs, k, f)
        end) (p + zlen name + 1) k f args in
      (Call (EToken TOKEN_FUNCTION (Z.of_nat (length args)) p (p + zlen name - 1) VNone) xs, k, f)
  end.

Fixpoint trees_of (pos k f : Z) (l : list (expr * list Z)) : list tree * Z * Z :=
  match l with
  | [] => ([], k, f)
  | a :: l =>
      let '(x, k, f) := tree_of true pos k f a.1 in
      let '(xs, k, f) := trees_of (pos + zlen (print a.1) + zlen a.2 + 1) k f l in (x :: xs, k, f)
  end.

Lemma tree_of_call infun pos k f ws name args :
  tree_of infun pos k f (ECall ws name args) =
  let p := pos + zlen ws in
  let '(xs, k, f) := trees_of (p + zlen name + 1) k f args in
  (Call (EToken TOKEN_FUNCTION (Z.of_nat (length args)) p (p + zlen name - 1) VNone) xs, k, f).
Proof. reflexivity. Qed.
End tree_of.

(** ** Texts without ambiguity *)

Definition all_space (ws : list Z) : bool := forallb isspace ws.
Definition digits (ds : list Z) : bool := forallb isdigit ds.
Definition starts_sep (s : list Z) : bool := isspace (deref s) || (deref s =? LPAR).

Definition number_ok (n : number) : bool :=
  negb (bool_decide (n_int n = [])) && digits (n_int n) && match n_frac n with Some ds => digits ds | None => true end &&
  match n_unit n with Some u => is_unit u | None => true end &&
  negb (is_infinite (dbl_mul (strtod (number_text n)) (dbl_of_Z (match n_unit n with Some u => suffix2factor u | None => 1 end)))).

(** The last token is a closing parenthesis. *)
Fixpoint ends_close (e : expr) : bool :=
  match e with
  | EParen _ _ _ | ECall _ _ _ => true
  | EUn _ _ e => ends_close e
  | EBin _ _ _ r => ends_close r
  | _ => false
  end.

Definition is_word (op : zbx_token_type_t) : bool := match op with OP_AND | OP_OR | OP_NOT => true | _ => false end.

Definition name_char (c : Z) : bool := isalpha c || (c =? USCORE) || isdigit c.
Definition name_ok (name : list Z) : bool :=
  isalpha (deref name) && forallb name_char name &&
  negb (bool_decide (name = op_text OP_AND)) && negb (bool_decide (name = op_text OP_OR)) && negb (bool_decide (name = op_text OP_NOT)).

(** [start]: the token before is a separator.  Operators apply to operands of
    a lower level, binary ones from the left; a word is separated from its
    neighbours, and a minus is not followed by a number. *)
Fixpoint ok (start : bool) (e : expr) : bool :=
  match e with
  | ENum ws n => all_space ws && number_ok n
  | EStr ws s => all_space ws && forallb (fun c => negb (c =? 0)) s
  | EFid ws ds => all_space ws && negb (bool_decide (ds = [])) && digits ds
  | EUn ws op e =>
      all_space ws && is_class CLASS_OPERATOR1 op && (level e <=? priority op) && ok false e &&
      (if is_word op then (start || negb (bool_decide (ws = []))) && starts_sep (print e)
       else negb (isdigit (deref (print e))) && negb (deref (print e) =? DOT))
  | EBin l ws op r =>
      ok start l && all_space ws && is_class CLASS_OPERATOR2 op && (level l <=? priority op) && (level r <? priority op) && ok false r &&
      (if is_word op then (ends_close l || negb (bool_decide (ws = []))) && starts_sep (print r) else true)
  | EParen ws e ws2 => all_space ws && ok true e && all_space ws2
  | ECall ws name args => all_space ws && name_ok name && forallb (fun a => ok true a.1 && all_space a.2) args
  end.

(** What may follow a number. *)
Definition ends_char (c : Z) : bool := isspace c || bool_decide (c ∈ [RPAR; COMMA; 43; 45; 42; 47; 60; 62; 61]).
Definition ends (rest : list Z) : bool := match rest with [] => true | c :: _ => ends_char c end.

(** ** Pieces of the text *)

Lemma skip_while_app p a s : forallb p a = true -> p (deref s) = false -> skip_while p (a ++ s) = s.
Proof.
  intros Ha Hs. induction a as [| c a IH]; cbn [app skip_while forallb] in *; unbool.
  - destruct s as [| c s]; [done |]. cbn in *. by rewrite Hs.
  - match goal with H : p c = true |- _ => rewrite H end. auto.
Qed.

Lemma isspace_nul : isspace 0 = false.
Proof. done. Qed.

Lemma scan_digits ds s d o : digits ds = true -> number_loop (ds ++ s) d o = number_loop s (d + zlen ds) o.
Proof.
  revert d. induction ds as [| c ds IH]; intros d Hd; cbn [app digits forallb] in *; unbool.
  - lens. by rewrite Z.add_0_r.
  - cbn [number_loop]. match goal with H : isdigit c = true |- _ => rewrite H end. rewrite IH by done. lens. f_equal. lia.
Qed.

Lemma ends_char_facts c : ends_char c = true ->
  isdigit c = false /\ (c =? DOT) = false /\ (c =? 101) = false /\ (c =? 69) = false /\ is_unit c = false /\ (c =? 120) = false /\ (c =? 88) = false.
Proof.
  unfold ends_char, isspace. intros Hc. assert (Hin : c ∈ [32; 9; 10; 11; 12; 13; RPAR; COMMA; 43; 45; 42; 47; 60; 62; 61]).
  { apply orb_true_iff in Hc as [[Hc | Hc]%orb_true_iff | Hc%bool_decide_eq_true]; [| | set_solver].
    - apply Z.eqb_eq in Hc. set_solver.
    - assert (c = 9 \/ c = 10 \/ c = 11 \/ c = 12 \/ c = 13) as Hcs by lia. set_solver. }
  repeat (apply elem_of_cons in Hin as [-> | Hin]; [by vm_compute |]). by apply elem_of_nil in Hin.
Qed.

Lemma ends_facts rest : ends rest = true ->
  isdigit (deref rest) = false /\ (deref rest =? DOT) = false /\ (deref rest =? 101) = false /\ (deref rest =? 69) = false /\
  is_unit (deref rest) = false /\ (deref rest =? 120) = false /\ (deref rest =? 88) = false.
Proof. destruct rest as [| c rest]; [by vm_compute | apply ends_char_facts]. Qed.

(** ** Numbers *)

Definition suffix (n : number) : list Z := match n_unit n with Some u => [u] | None => [] end.
Definition fraction (n : number) : list Z := match n_frac n with Some ds => DOT :: ds | None => [] end.

Lemma unsigned_parts n : unsigned_text n = n_int n ++ fraction n ++ suffix n.
Proof. reflexivity. Qed.

Lemma unit_facts u : is_unit u = true ->
  isdigit u = false /\ (u =? DOT) = false /\ (u =? 101) = false /\ (u =? 69) = false /\ isalpha u = true /\ (u =? 120) = false /\ (u =? 88) = false.
Proof.
  unfold is_unit. intros Hin%bool_decide_eq_true. unfold unit_symbols in Hin.
  repeat (apply elem_of_cons in Hin as [-> | Hin]; [by vm_compute |]). by apply elem_of_nil in Hin.
Qed.

Lemma number_ok_parts n : number_ok n = true ->
  n_int n <> [] /\ digits (n_int n) = true /\ (match n_frac n with Some ds => digits ds = true | None => True end) /\
  (match n_unit n with Some u => is_unit u = true | None => True end) /\
  is_infinite (dbl_mul (strtod (number_text n)) (dbl_of_Z (match n_unit n with Some u => suffix2factor u | None => 1 end))) = false.
Proof.
  unfold number_ok. intros Hn. repeat apply andb_true_iff in Hn as [Hn ?].
  apply negb_true_iff, bool_decide_eq_false in Hn. repeat split; try done; [by destruct (n_frac n) | by destruct (n_unit n) |].
  by apply negb_true_iff.
Qed.

(** The first character behind the digits. *)
Lemma suffix_facts n rest : number_ok n = true -> ends rest = true ->
  isdigit (deref (suffix n ++ rest)) = false /\ (deref (suffix n ++ rest) =? DOT) = false /\ (deref (suffix n ++ rest) =? 101) = false /\
  (deref (suffix n ++ rest) =? 69) = false /\ (deref (suffix n ++ rest) =? 120) = false /\ (deref (suffix n ++ rest) =? 88) = false.
Proof.
  intros (_ & _ & _ & Hu & _)%number_ok_parts Hr. unfold suffix. destruct (n_unit n) as [u |]; cbn [app deref].
  - by apply unit_facts in Hu as (? & ? & ? & ? & _ & ? & ?).
  - by apply ends_facts in Hr as (? & ? & ? & ? & _ & ? & ?).
Qed.

Lemma number_loop_end s d o : isdigit (deref s) = false -> (deref s =? DOT) = false -> (deref s =? 101) = false -> (deref s =? 69) = false ->
  1 <= d -> o <= 1 -> number_loop s d o = Some s.
Proof.
  intros Hd Hdot He HE Hd1 Ho. destruct s as [| c s]; cbn [number_loop deref] in *.
  - cbn. by rewrite (proj2 (Z.ltb_ge _ _) Hd1), (proj2 (Z.ltb_ge _ _) Ho).
  - rewrite Hd, Hdot. unfold number_exponent. cbn [deref]. rewrite He, HE. cbn.
    by rewrite (proj2 (Z.ltb_ge _ _) Hd1), (proj2 (Z.ltb_ge _ _) Ho).
Qed.

Lemma number_parsed n rest : number_ok n = true -> ends rest = true -> zbx_suffixed_number_parse (unsigned_text n ++ rest) = Some rest.
Proof.
  intros Hn Hr. pose proof (suffix_facts n rest Hn Hr) as (Hd & Hdot & He & HE & _). pose proof (number_ok_parts n Hn) as (Hi & Hint & Hf & Hu & _).
  assert (Hlen : 1 <= zlen (n_int n)) by (pose proof (zlen_pos _ Hi); lia).
  unfold zbx_suffixed_number_parse, zbx_number_parse.
  assert (Hl : number_loop (unsigned_text n ++ rest) 0 0 = Some (suffix n ++ rest)).
  { rewrite unsigned_parts, <- !app_assoc, scan_digits by done. unfold fraction. destruct (n_frac n) as [ds |]; cbn [app].
    - cbn [number_loop]. change (isdigit DOT) with false. change (DOT =? DOT) with true. cbn iota.
      rewrite scan_digits by done. pose proof (zlen_nonneg ds). apply number_loop_end; try done; lia.
    - apply number_loop_end; try done; lia. }
  rewrite Hl. cbn [mbind option_bind]. f_equal. unfold suffix in *. destruct (n_unit n) as [u |]; cbn [app deref].
  - apply unit_facts in Hu as Hus. destruct Hus as (_ & _ & _ & _ & Ha & _). by rewrite Ha, Hu.
  - apply ends_facts in Hr as (_ & _ & _ & _ & Hun & _). cbn [app] in *. by rewrite Hun, andb_false_r.
Qed.

(** The mantissa of the digits that were read. *)
Definition digits_value (m : Z) (ds : list Z) : Z := foldl (fun m c => m * 10 + digit_value c) m ds.

Lemma mantissa_digits ds s m frac point some : digits ds = true ->
  mantissa isdigit 10 (ds ++ s) m frac point some =
  mantissa isdigit 10 s (digits_value m ds) (if point : bool then frac + zlen ds else frac) point (some || negb (bool_decide (ds = []))).
Proof.
  revert m frac some. induction ds as [| c ds IH]; intros m frac some Hd; cbn [app digits forallb] in *; unbool.
  - change (zlen (@nil Z)) with 0. rewrite Z.add_0_r, orb_false_r. by destruct point.
  - cbn [mantissa]. match goal with H : isdigit c = true |- _ => rewrite H end. rewrite IH by done. lens. cbn [digits_value foldl].
    rewrite orb_true_l, orb_true_r. destruct point; [f_equal; lia | done].
Qed.

Lemma mantissa_end s m frac point some : isdigit (deref s) = false -> (deref s =? DOT) = false ->
  mantissa isdigit 10 s m frac point some = (m, frac, some, s).
Proof. intros Hd Hdot. destruct s as [| c s]; [done |]. cbn [mantissa deref] in *. by rewrite Hd, Hdot. Qed.

Definition number_value (n : number) : double :=
  with_sign (n_neg n) (dbl_of_decimal (digits_value (digits_value 0 (n_int n)) (default [] (n_frac n))) (0 - zlen (default [] (n_frac n)))).

Lemma unsigned_mantissa n rest : number_ok n = true -> ends rest = true ->
  mantissa isdigit 10 (unsigned_text n ++ rest) 0 0 false false =
  (digits_value (digits_value 0 (n_int n)) (default [] (n_frac n)), zlen (default [] (n_frac n)), true, suffix n ++ rest).
Proof.
  intros Hn Hr. pose proof (suffix_facts n rest Hn Hr) as (Hd & Hdot & _). pose proof (number_ok_parts n Hn) as (Hi & Hint & Hf & _).
  rewrite unsigned_parts, <- !app_assoc, mantissa_digits by done. rewrite (bool_decide_eq_false_2 (n_int n = [])) by done. cbn [negb orb].
  unfold fraction. destruct (n_frac n) as [ds |]; cbn [app default].
  - cbn [mantissa]. change (isdigit DOT) with false. change ((DOT =? DOT) && negb false) with true. cbn iota.
    rewrite mantissa_digits, mantissa_end by done. cbn [orb]. by rewrite Z.add_0_l.
  - by rewrite mantissa_end.
Qed.

Lemma unsigned_no_hex n rest : number_ok n = true -> ends rest = true ->
  (deref (tail (unsigned_text n ++ rest)) =? 120) = false /\ (deref (tail (unsigned_text n ++ rest)) =? 88) = false.
Proof.
  intros Hn Hr. pose proof (suffix_facts n rest Hn Hr) as (_ & _ & _ & _ & Hx & HX). pose proof (number_ok_parts n Hn) as (Hi & Hint & _).
  rewrite unsigned_parts, <- !app_assoc. destruct (n_int n) as [| c [| c2 ds]]; [done | |]; cbn [app tail].
  - unfold fraction. by destruct (n_frac n).
  - cbn [digits forallb] in Hint. unbool. cbn [deref]. assert (Hc : isdigit c2 = true) by done. unfold isdigit in Hc. lia.
Qed.

Lemma digit_no_sign c : isdigit c = true -> (c =? 45) = false /\ (c =? 43) = false.
Proof. unfold isdigit. lia. Qed.

Lemma unsigned_first n rest : number_ok n = true -> isdigit (deref (unsigned_text n ++ rest)) = true.
Proof.
  intros (Hi & Hint & _)%number_ok_parts. rewrite unsigned_parts, <- !app_assoc. destruct (n_int n) as [| c ds]; [done |].
  cbn in *. by apply andb_true_iff in Hint as [? _].
Qed.

Lemma number_strtod n rest : number_ok n = true -> ends rest = true -> strtod (number_text n ++ rest) = number_value n.
Proof.
  intros Hn Hr. pose proof (unsigned_first n rest Hn) as Hd. pose proof (digit_no_sign _ Hd) as [H45 H43].
  pose proof (suffix_facts n rest Hn Hr) as (_ & _ & He & HE & _). pose proof (unsigned_no_hex n rest Hn Hr) as [Hx HX].
  unfold strtod, number_text, number_value. rewrite <- app_assoc. destruct (n_neg n); cbn [app].
  - cbn [deref tail]. change (45 =? 45) with true. cbn iota. rewrite Hx, HX, andb_false_r, unsigned_mantissa by done.
    unfold exponent_value. change (101 - 32) with 69. by rewrite He, HE.
  - rewrite H45, H43, Hx, HX, andb_false_r, unsigned_mantissa by done. unfold exponent_value. change (101 - 32) with 69. by rewrite He, HE.
Qed.
