(* ===== verification/EvalLex.v ===== *)
(** * The tokens of expressions

    [eval_parse_token] of zbxeval/parse.c recognises each token of a written
    expression ([EvalText]) where it stands. *)
From stdpp Require Import prelude list.
From Stdlib Require Import ZArith Lia SpecFloat.
From S2P Require Import Prelude JsonText Macro Num Scan Double Variant Token Utf8 EvalParse EvalTree EvalText.
#[local] Open Scope Z_scope.

Section lex.
Context (expression : list Z) (rules : Z).

Abbreviation text := (text expression).
Abbreviation ch := (ch expression).
Abbreviation rule := (rule rules).

(** What triggers allow, and what they do not. *)
Definition trigger_rules : bool :=
  rule PARSE_FUNCTIONID && rule PARSE_MATH && rule PARSE_COMPARE && rule PARSE_COMPARE_EQ && rule PARSE_COMPARE_SORT && rule PARSE_LOGIC &&
  rule PARSE_VAR && rule PARSE_VAR_NUM && rule PARSE_VAR_STR && rule PARSE_GROUP && rule PARSE_FUNCTION_ARGS && rule PARSE_FUNCTION_NAME &&
  negb (rule PARSE_ITEM_QUERY) && negb (rule PARSE_COMPOUND_CONST) && negb (rule PARSE_PROPERTY).

Hypothesis Hrules : trigger_rules = true.

Lemma rules_parts :
  (rule PARSE_FUNCTIONID = true /\ rule PARSE_MATH = true /\ rule PARSE_COMPARE = true /\ rule PARSE_COMPARE_EQ = true /\ rule PARSE_COMPARE_SORT = true) /\
  (rule PARSE_LOGIC = true /\ rule PARSE_VAR = true /\ rule PARSE_VAR_NUM = true /\ rule PARSE_VAR_STR = true /\ rule PARSE_GROUP = true) /\
  (rule PARSE_FUNCTION_ARGS = true /\ rule PARSE_FUNCTION_NAME = true /\ rule PARSE_ITEM_QUERY = false /\ rule PARSE_COMPOUND_CONST = false /\ rule PARSE_PROPERTY = false).
Proof. unfold trigger_rules in Hrules. repeat apply andb_true_iff in Hrules as [Hrules ?]. repeat split; try done; by apply negb_true_iff. Qed.

(** ** Positions *)

Lemma text_tail pos a b : 0 <= pos -> text pos = a ++ b -> text (pos + zlen a) = b.
Proof.
  intros Hpos Ht. unfold EvalParse.text in *. unfold zlen. rewrite Z2Nat.inj_add, Nat2Z.id by lia.
  rewrite <- drop_drop, Ht. by apply drop_app_length.
Qed.

Lemma text_tail1 pos c b : 0 <= pos -> text pos = c :: b -> text (pos + 1) = b.
Proof. intros Hpos Ht. by apply (text_tail pos [c] b). Qed.

Lemma text_bound pos s : 0 <= pos -> text pos = s -> s <> [] -> zlen expression = pos + zlen s.
Proof.
  intros Hpos <- Hs. unfold EvalParse.text in *. unfold zlen. rewrite length_drop.
  assert (length (drop (Z.to_nat pos) expression) <> 0)%nat by (by intros ?%nil_length_inv). rewrite length_drop in *. lia.
Qed.

Lemma ptr_at pos a b : 0 <= pos -> text pos = a ++ b -> a <> [] -> ptr_diff b expression = pos + zlen a.
Proof.
  intros Hpos Ht Ha. unfold ptr_diff. rewrite (text_bound pos _ Hpos Ht); [lens; lia |]. by destruct a.
Qed.

Lemma whitespace_at c pos ws s : 0 <= pos -> text pos = ws ++ s -> all_space ws = true -> isspace (deref s) = false ->
  eval_parse_token expression rules c pos = token_at expression rules c (zlen ws) (pos + zlen ws) /\ text (pos + zlen ws) = s.
Proof.
  intros Hpos Ht Hws Hs. split; [| by apply text_tail]. unfold eval_parse_token, eval_get_whitespace_len. rewrite Ht, skip_while_app by done.
  unfold ptr_diff. rewrite zlen_app. by replace (zlen ws + zlen s - zlen s) with (zlen ws) by lia.
Qed.

(** ** Operators *)

Definition separated (c : zbx_eval_context_t) (skip : Z) : bool :=
  negb (skip =? 0) || is_class CLASS_SEPARATOR (last_token_type c) || is_type (last_token_type c) GROUP_CLOSE.

(** What may follow an operator. *)
Definition op_follow (op : zbx_token_type_t) (rest : list Z) : bool :=
  match op with
  | OP_LT | OP_GT => negb (deref rest =? 61) && negb (deref rest =? 62)
  | OP_AND | OP_OR | OP_NOT => starts_sep rest
  | OP_MINUS => negb (isdigit (deref rest)) && negb (deref rest =? DOT)
  | _ => true
  end.

Lemma starts_with_app a b : starts_with (a ++ b) a = true.
Proof. unfold starts_with. apply bool_decide_eq_true. apply take_app_length. Qed.

Lemma word_lexed op p rest : is_word op = true -> 0 <= p -> text p = op_text op ++ rest -> starts_sep rest = true ->
  eval_parse_logic_token expression p = Some (op_token op p).
Proof.
  intros Hw Hp Ht Hr. assert (Hch : ch (p + zlen (op_text op)) = deref rest) by (unfold EvalParse.ch; by rewrite (text_tail p _ _ Hp Ht)).
  assert (Hstop : negb (deref rest =? LPAR) && negb (isspace (deref rest)) = false)
    by (unfold starts_sep in Hr; destruct (isspace (deref rest)), (deref rest =? LPAR); done).
  unfold eval_parse_logic_token. rewrite Ht. destruct op; try discriminate Hw; cbn [op_text] in *.
  - rewrite starts_with_app. cbn [mbind option_bind]. replace (p + 2 + 1) with (p + zlen [97; 110; 100]) by (lens; lia). rewrite Hch, Hstop.
    unfold op_token. cbn [op_text]. lens. do 2 f_equal. lia.
  - change (starts_with ([111; 114] ++ rest) [97; 110; 100]) with false. rewrite starts_with_app. cbn [mbind option_bind].
    replace (p + 1 + 1) with (p + zlen [111; 114]) by (lens; lia). rewrite Hch, Hstop. unfold op_token. cbn [op_text]. lens. do 2 f_equal. lia.
  - change (starts_with ([110; 111; 116] ++ rest) [97; 110; 100]) with false. change (starts_with ([110; 111; 116] ++ rest) [111; 114]) with false.
    rewrite starts_with_app. cbn [mbind option_bind]. replace (p + 2 + 1) with (p + zlen [110; 111; 116]) by (lens; lia). rewrite Hch, Hstop.
    unfold op_token. cbn [op_text]. lens. do 2 f_equal. lia.
Qed.

Lemma ch_at p c rest : text p = c :: rest -> ch p = c.
Proof. unfold EvalParse.ch. by intros ->. Qed.

Lemma ch_next p c rest : 0 <= p -> text p = c :: rest -> ch (p + 1) = deref rest.
Proof. intros Hp Ht. unfold EvalParse.ch. by rewrite (text_tail1 p c rest Hp Ht). Qed.

Lemma op_token_1 op c p : op_text op = [c] -> op_token op p = eval_parse_character_token p op.
Proof. intros Hop. unfold op_token, eval_parse_character_token. rewrite Hop. f_equal; lens; lia. Qed.

Lemma op_token_2 op c d p : op_text op = [c; d] -> op_token op p = EToken op 0 p (p + 1) VNone.
Proof. intros Hop. unfold op_token. rewrite Hop. f_equal; lens; lia. Qed.

Lemma operand_not_open t : is_class CLASS_OPERAND t = true -> is_type t GROUP_OPEN = false.
Proof. by destruct t. Qed.

(** A word operator after white space or a separator. *)
Lemma word_token c skip p op rest : is_word op = true -> 0 <= p -> text p = op_text op ++ rest -> starts_sep rest = true -> separated c skip = true ->
  token_at expression rules c skip p = mret (c, op_token op p).
Proof.
  intros Hw Hp Ht Hr Hsep. pose proof (word_lexed op p rest Hw Hp Ht Hr) as Hl. unfold token_at.
  pose proof rules_parts as (_ & (Hlogic & _) & _). unfold separated in Hsep.
  destruct op; try discriminate Hw; rewrite (ch_at p _ _ Ht); cbn -[rule is_class is_type]; by rewrite Hlogic, Hsep, Hl.
Qed.

Lemma binary_token c skip p op rest : is_class CLASS_OPERATOR2 op = true -> 0 <= p -> text p = op_text op ++ rest -> op_follow op rest = true ->
  is_class CLASS_OPERAND (last_token_type c) = true -> (is_word op = true -> separated c skip = true) ->
  token_at expression rules c skip p = mret (c, op_token op p).
Proof.
  intros Hop Hp Ht Hr Hlast Hsep. destruct (is_word op) eqn:Hw.
  { apply (word_token c skip p op rest); auto. by destruct op. }
  pose proof rules_parts as ((_ & Hm & Hc & Hce & Hcs) & (_ & Hv & _) & (_ & _ & Hq & _)). unfold token_at.
  destruct op; try discriminate Hop; try discriminate Hw; cbn [op_text app op_follow] in *; rewrite (ch_at p _ _ Ht);
    cbn -[rule is_class is_type mret]; rewrite ?Hm, ?Hc, ?Hce, ?Hcs, ?Hv, ?Hq, ?Hlast, ?(operand_not_open _ Hlast); cbn -[rule mret].
  - by rewrite (op_token_1 OP_ADD 43).
  - by rewrite (op_token_1 OP_SUB 45).
  - by rewrite (op_token_1 OP_MUL 42).
  - by rewrite (op_token_1 OP_DIV 47).
  - by rewrite (op_token_1 OP_EQ 61).
  - apply andb_true_iff in Hr as [H61%negb_true_iff H62%negb_true_iff]. unfold eval_parse_less_character_token.
    rewrite Hce, Hcs, (ch_next p _ _ Hp Ht), H61, H62. cbn. by rewrite (op_token_1 OP_LT 60).
  - apply andb_true_iff in Hr as [H61%negb_true_iff H62%negb_true_iff]. unfold eval_parse_greater_character_token.
    rewrite (ch_next p _ _ Hp Ht), H61. by rewrite (op_token_1 OP_GT 62).
  - unfold eval_parse_less_character_token. rewrite Hce, Hcs, (ch_next p _ _ Hp Ht). cbn. by rewrite (op_token_2 OP_LE 60 61).
  - unfold eval_parse_greater_character_token. rewrite (ch_next p _ _ Hp Ht). cbn. by rewrite (op_token_2 OP_GE 62 61).
  - unfold eval_parse_less_character_token. rewrite Hce, (ch_next p _ _ Hp Ht). cbn. by rewrite (op_token_2 OP_NE 60 62).
Qed.

Lemma set_edom_same c : set_edom c (edom c) = c.
Proof. by destruct c. Qed.

Lemma no_number s : isdigit (deref s) = false -> (deref s =? DOT) = false -> zbx_suffixed_number_parse s = None.
Proof.
  intros Hd Hdot. unfold zbx_suffixed_number_parse, zbx_number_parse. destruct s as [| c s]; [done |]. cbn [deref] in *. cbn [number_loop].
  rewrite Hd, Hdot. by destruct (number_exponent (c :: s)).
Qed.

Lemma unary_token c skip p op rest : is_class CLASS_OPERATOR1 op = true -> 0 <= p -> text p = op_text op ++ rest -> op_follow op rest = true ->
  is_class CLASS_OPERAND (last_token_type c) = false -> (is_word op = true -> separated c skip = true) ->
  token_at expression rules c skip p = mret (c, op_token op p).
Proof.
  intros Hop Hp Ht Hr Hlast Hsep. destruct op; try discriminate Hop; [| by apply (word_token c skip p OP_NOT rest); auto].
  pose proof rules_parts as ((_ & Hm & _) & (_ & Hv & _) & _). unfold token_at. cbn [op_text app op_follow] in *. rewrite (ch_at p _ _ Ht).
  cbn -[rule is_class mret]. rewrite Hv, Hlast, Hm. cbn [negb andb]. apply andb_true_iff in Hr as [Hd%negb_true_iff Hdot%negb_true_iff].
  unfold eval_parse_number_token, eval_parse_number. rewrite (ch_at p _ _ Ht). change (45 =? 45) with true. cbn iota.
  rewrite (text_tail1 p _ _ Hp Ht), (no_number rest Hd Hdot), set_edom_same. by rewrite (op_token_1 OP_MINUS 45).
Qed.

(** ** Separators *)

Lemma open_token c skip p rest : text p = LPAR :: rest -> token_at expression rules c skip p = mret (c, EToken GROUP_OPEN 0 p p VNone).
Proof.
  intros Ht. pose proof rules_parts as (_ & (_ & _ & _ & _ & Hg) & _). unfold token_at. rewrite (ch_at p _ _ Ht). cbn -[rule mret]. by rewrite Hg.
Qed.

Lemma close_token c skip p rest : text p = RPAR :: rest -> token_at expression rules c skip p = mret (c, EToken GROUP_CLOSE 0 p p VNone).
Proof.
  intros Ht. pose proof rules_parts as (_ & (_ & _ & _ & _ & Hg) & _). unfold token_at. rewrite (ch_at p _ _ Ht). cbn -[rule mret]. by rewrite Hg.
Qed.

Lemma comma_token c skip p rest : text p = COMMA :: rest -> token_at expression rules c skip p = mret (c, EToken TOKEN_COMMA 0 p p VNone).
Proof.
  intros Ht. pose proof rules_parts as (_ & _ & (Ha & _)). unfold token_at. rewrite (ch_at p _ _ Ht). cbn -[rule mret]. by rewrite Ha.
Qed.

(** ** Operands *)

(** No period of an item query is expected. *)
Definition quiet (c : zbx_eval_context_t) : bool :=
  negb (is_type (last_token_type c) TOKEN_COMMA) || match last (stack c) with Some t => negb (is_type (et_type t) ARG_QUERY) | None => false end.

Lemma from_top_last c t : last (stack c) = Some t -> from_top c 1 = mret t.
Proof.
  intros (l & Hl)%last_Some. unfold from_top. rewrite Hl. lens. replace (zlen l + (1 + 0) - 1) with (zlen l) by lia.
  by rewrite (zget_middle l t []).
Qed.

Lemma quiet_after_query c : quiet c = true -> after_query c = mret false.
Proof.
  unfold quiet, after_query. destruct (is_type (last_token_type c) TOKEN_COMMA); [| done]. cbn [negb orb].
  destruct (last (stack c)) as [t |] eqn:Hl; [| done]. intros Ht%negb_true_iff. rewrite (from_top_last c t Hl). cbn. by rewrite Ht.
Qed.

Lemma quiet_period c : quiet c = true -> (if zlen (stack c) =? 0 then mret false else after_query c) = mret false.
Proof. intros Hq. rewrite (quiet_after_query c Hq). by destruct (zlen (stack c) =? 0). Qed.

Lemma digit_factor c : isdigit c || (c =? DOT) = true -> suffix2factor c = 1.
Proof.
  intros Hc. assert (Hd : c = DOT \/ 48 <= c <= 57) by (unfold isdigit in Hc; lia). unfold suffix2factor.
  repeat (rewrite (proj2 (Z.eqb_neq _ _)) by lia). done.
Qed.

Lemma number_last n : number_ok n = true -> exists init lc, unsigned_text n = init ++ [lc] /\
  suffix2factor lc = match n_unit n with Some u => suffix2factor u | None => 1 end.
Proof.
  intros (Hi & Hint & Hf & _)%number_ok_parts. rewrite unsigned_parts. unfold suffix. destruct (n_unit n) as [u |].
  - exists (n_int n ++ fraction n), u. by rewrite app_assoc.
  - rewrite app_nil_r. assert (Hne : n_int n ++ fraction n <> []) by (by destruct (n_int n)).
    destruct (exists_last Hne) as (init & lc & Hl). exists init, lc. split; [done |]. apply digit_factor.
    assert (Hall : forallb (fun c => isdigit c || (c =? DOT)) (n_int n ++ fraction n) = true).
    { rewrite forallb_app, andb_true_iff. unfold fraction, digits in *. split.
      - apply forallb_forall. intros x Hx. rewrite forallb_forall in Hint. by rewrite Hint.
      - destruct (n_frac n) as [ds |]; [| done]. cbn. apply forallb_forall. intros x Hx. rewrite forallb_forall in Hf. by rewrite Hf. }
    rewrite Hl, forallb_app in Hall. cbn in Hall. rewrite andb_true_r in Hall. by apply andb_true_iff in Hall as [_ ?].
Qed.

Lemma unsigned_nonempty n : number_ok n = true -> unsigned_text n <> [].
Proof. intros (Hi & _)%number_ok_parts. rewrite unsigned_parts. by destruct (n_int n). Qed.

Lemma number_parsed_at p n rest : 0 <= p -> number_ok n = true -> ends rest = true -> text p = number_text n ++ rest ->
  eval_parse_number expression false p = (Some (p + zlen (number_text n) - 1), false).
Proof.
  intros Hp Hn Hr Ht. pose proof (unsigned_first n rest Hn) as Hd. pose proof (digit_no_sign _ Hd) as [H45 _].
  pose proof (number_last n Hn) as (init & lc & Hlc & Hfac). pose proof (number_ok_parts n Hn) as (_ & _ & _ & _ & Hinf).
  set (sign := if n_neg n then [45] else []) in *.
  assert (Hne : number_text n <> []) by (unfold number_text; pose proof (unsigned_nonempty n Hn); by destruct (n_neg n), (unsigned_text n)).
  assert (Hu : text (p + (if ch p =? 45 then 1 else 0)) = unsigned_text n ++ rest).
  { unfold EvalParse.ch. rewrite Ht. unfold number_text. rewrite <- app_assoc. destruct (n_neg n) eqn:Hneg; cbn [app deref].
    - change (45 =? 45) with true. cbn iota. apply (text_tail1 p 45); [done |]. rewrite Ht. unfold number_text. by rewrite Hneg.
    - rewrite H45, Z.add_0_r, Ht. unfold number_text. by rewrite Hneg. }
  unfold eval_parse_number. rewrite Hu, number_parsed, (ptr_at p _ _ Hp Ht Hne) by done. cbn [andb].
  assert (Hch : ch (p + zlen (number_text n) - 1) = lc).
  { replace (p + zlen (number_text n) - 1) with (p + zlen (sign ++ init)) by (unfold number_text; fold sign; rewrite Hlc; lens; lia).
    apply (ch_at _ lc rest). apply text_tail; [done |]. rewrite Ht. unfold number_text. fold sign. rewrite Hlc. by rewrite <- !app_assoc. }
  rewrite Hch, Hfac, Ht, (number_strtod n rest Hn Hr). rewrite <- (number_strtod n [] Hn eq_refl), app_nil_r. by rewrite Hinf.
Qed.

Definition const_token (c : zbx_eval_context_t) (type : zbx_token_type_t) (p len : Z) : zbx_eval_context_t * zbx_eval_token_t :=
  let '(c, opt) := eval_update_const_variable rules c in (c, EToken type opt p (p + len - 1) VNone).

Lemma number_token c skip p n rest : 0 <= p -> number_ok n = true -> ends rest = true -> text p = number_text n ++ rest ->
  quiet c = true -> edom c = false -> is_class CLASS_OPERAND (last_token_type c) = false ->
  token_at expression rules c skip p = mret (const_token c VAR_NUM p (zlen (number_text n))).
Proof.
  intros Hp Hn Hr Ht Hq He Hlast. pose proof (number_parsed_at p n rest Hp Hn Hr Ht) as Hpn. pose proof (unsigned_first n rest Hn) as Hd.
  pose proof rules_parts as (_ & (_ & Hv & Hvn & _) & (_ & _ & _ & Hcc & _)).
  assert (Hsame : set_edom c false = c) by (rewrite <- He; apply set_edom_same). unfold token_at.
  destruct (n_neg n) eqn:Hneg.
  - assert (Hch : ch p = 45) by (apply (ch_at p 45 (unsigned_text n ++ rest)); rewrite Ht; unfold number_text; by rewrite Hneg).
    rewrite Hch. cbn -[rule is_class mret]. rewrite Hv, Hlast. cbn [negb andb]. unfold eval_parse_number_token. rewrite He, Hpn, Hsame.
    unfold const_token. by destruct (eval_update_const_variable rules c).
  - assert (Hch : isdigit (ch p) = true) by (unfold EvalParse.ch; rewrite Ht; unfold number_text; by rewrite Hneg).
    rewrite Hch. assert (Hk : 48 <= ch p <= 57) by (unfold isdigit in Hch; lia).
    repeat (rewrite (proj2 (Z.eqb_neq (ch p) _)) by lia). rewrite (quiet_period c Hq). cbn [mbind P_bind mret P_ret]. rewrite Hvn.
    unfold eval_parse_constant. cbn [constant_loop]. rewrite (proj2 (Z.eqb_neq (ch p) _)) by lia. rewrite He, Hpn, Hcc. cbn [lift mbind P_bind].
    rewrite Hsame. change (is_type VAR_NUM TOKEN_NOP) with false. rewrite Hvn. cbn.
    unfold const_token. destruct (eval_update_const_variable rules c). unfold mret, P_ret. do 4 f_equal. lia.
Qed.

(** The closing quote of an escaped text. *)
Lemma string_end s rest pos : forallb (fun c => negb (c =? 0)) s = true -> string_loop expression (escaped s ++ QUOT :: rest) pos = inr (QUOT :: rest).
Proof.
  induction s as [| c s IH]; intros Hs; [done |]. cbn [forallb] in Hs. apply andb_true_iff in Hs as [_ Hs]. cbn [escaped].
  destruct (c =? QUOT) eqn:Hq.
  - apply Z.eqb_eq in Hq. subst c. cbn. by apply IH.
  - destruct (c =? BSL) eqn:Hb; cbn [orb].
    + apply Z.eqb_eq in Hb. subst c. cbn. by apply IH.
    + cbn [app string_loop]. rewrite Hq, Hb. by apply IH.
Qed.

Lemma string_token c skip p s rest : 0 <= p -> forallb (fun c => negb (c =? 0)) s = true -> text p = QUOT :: escaped s ++ QUOT :: rest ->
  token_at expression rules c skip p = mret (const_token c VAR_STR p (zlen (escaped s) + 2)).
Proof.
  intros Hp Hs Ht. pose proof rules_parts as (_ & (_ & _ & _ & Hv & _) & _). unfold token_at. rewrite (ch_at p _ _ Ht). cbn -[rule mret].
  rewrite Hv. unfold eval_parse_string_token. rewrite (text_tail1 p _ _ Hp Ht), string_end by done. unfold const_token.
  destruct (eval_update_const_variable rules c) as [c' opt]. rewrite (ptr_at p (QUOT :: escaped s) (QUOT :: rest)) by done.
  unfold mret, P_ret. do 4 f_equal; lens; lia.
Qed.

Definition fid_token (c : zbx_eval_context_t) (p len : Z) : zbx_eval_context_t * zbx_eval_token_t :=
  (Ctx (last_token_type c) (const_index c) (u32 (functionid_index c + 1)) (stack c) (ops c) (edom c),
   EToken TOKEN_FUNCTIONID (functionid_index c) p (p + len + 1) VNone).

Lemma functionid_token c skip p ds rest : 0 <= p -> digits ds = true -> ds <> [] -> text p = LBR :: ds ++ RBR :: rest -> quiet c = true ->
  token_at expression rules c skip p = mret (fid_token c p (zlen ds)).
Proof.
  intros Hp Hd Hne Ht Hq. pose proof rules_parts as ((Hf & _) & _ & _). unfold token_at. rewrite (ch_at p _ _ Ht). cbn -[rule mret after_query].
  rewrite (quiet_after_query c Hq). cbn [mbind P_bind mret P_ret]. rewrite Hf. unfold eval_parse_functionid, token_parse_objectid. rewrite Ht.
  change (drop 1 (LBR :: ds ++ RBR :: rest)) with (ds ++ RBR :: rest). rewrite skip_while_app by done. cbn [deref]. change (RBR =? RBR) with true. cbn [negb].
  replace (ptr_diff (RBR :: rest) (LBR :: ds ++ RBR :: rest) =? 1) with false.
  2:{ symmetry. apply Z.eqb_neq. unfold ptr_diff. lens. pose proof (zlen_pos ds Hne). lia. }
  cbn [mbind option_bind token_loc loc_l loc_r]. unfold fid_token.
  rewrite (ptr_at p (LBR :: ds) (RBR :: rest)) by done.
  assert (Hp0 : ptr_diff (LBR :: ds ++ RBR :: rest) expression = p).
  { unfold ptr_diff. rewrite (text_bound p _ Hp Ht) by done. lia. }
  rewrite Hp0. unfold mret, P_ret. do 4 f_equal; lens; lia.
Qed.

Definition name_token (c : zbx_eval_context_t) (p len : Z) : zbx_eval_token_t := EToken TOKEN_FUNCTION (zlen (stack c)) p (p + len - 1) VNone.

Lemma name_facts name : name_ok name = true -> name <> [] /\ isalpha (deref name) = true /\ forallb name_char name = true /\
  name <> op_text OP_AND /\ name <> op_text OP_OR /\ name <> op_text OP_NOT.
Proof.
  unfold name_ok. intros Hn. repeat apply andb_true_iff in Hn as [Hn ?].
  repeat match goal with H : negb (bool_decide _) = true |- _ => apply negb_true_iff, bool_decide_eq_false in H end.
  repeat split; try done. by intros ->.
Qed.

Lemma name_char_sep c : starts_sep [c] = true -> name_char c = false.
Proof.
  unfold starts_sep, name_char, isspace, isalpha, isupper, islower, isdigit. cbn [deref]. lia.
Qed.

(** A name that starts with a word is longer than it. *)
Lemma name_not_word op p name rest : is_word op = true -> 0 <= p -> text p = name ++ LPAR :: rest -> forallb name_char name = true -> name <> op_text op ->
  starts_with (name ++ LPAR :: rest) (op_text op) = true -> name_char (ch (p + zlen (op_text op))) = true.
Proof.
  intros Hw Hp Ht Hc Hne Hs. unfold starts_with in Hs. apply bool_decide_eq_true in Hs.
  assert (Hlen : (length (op_text op) < length name)%nat).
  { destruct (decide (length (op_text op) < length name)%nat) as [? | Hlen]; [done |]. exfalso.
    destruct (decide (length (op_text op) = length name)) as [He | He].
    - rewrite He, take_app_length in Hs. done.
    - assert (Hin : LPAR ∈ op_text op).
      { rewrite <- Hs, take_app_ge by lia. destruct (length (op_text op) - length name)%nat eqn:Hd; [lia |]. cbn. set_solver. }
      by destruct op; try discriminate Hw; vm_compute in Hin; repeat (apply elem_of_cons in Hin as [? | Hin]; [done |]); apply elem_of_nil in Hin. }
  unfold EvalParse.ch, EvalParse.text. unfold zlen. rewrite Z2Nat.inj_add, Nat2Z.id by lia. rewrite <- drop_drop.
  change (drop (Z.to_nat p) expression) with (text p). rewrite Ht, drop_app_le by lia.
  destruct (drop (length (op_text op)) name) as [| x tl] eqn:Hd.
  { apply (f_equal length) in Hd. rewrite length_drop in Hd. cbn in Hd. lia. }
  cbn. rewrite forallb_forall in Hc. apply Hc. rewrite <- (take_drop (length (op_text op)) name), Hd. apply in_or_app. right. by left.
Qed.

Lemma name_no_logic p name rest : 0 <= p -> text p = name ++ LPAR :: rest -> name_ok name = true -> eval_parse_logic_token expression p = None.
Proof.
  intros Hp Ht (_ & _ & Hc & Ha & Ho & Hn)%name_facts. unfold eval_parse_logic_token. rewrite Ht.
  assert (Hstop : forall op, is_word op = true -> name <> op_text op -> starts_with (name ++ LPAR :: rest) (op_text op) = true ->
    negb (ch (p + zlen (op_text op)) =? LPAR) && negb (isspace (ch (p + zlen (op_text op)))) = true).
  { intros op Hw Hne Hs. pose proof (name_not_word op p name rest Hw Hp Ht Hc Hne Hs) as Hx.
    destruct (negb (ch (p + zlen (op_text op)) =? LPAR) && negb (isspace (ch (p + zlen (op_text op))))) eqn:E; [done |].
    rewrite (name_char_sep (ch (p + zlen (op_text op)))) in Hx; [done |]. unfold starts_sep. cbn [deref]. destruct (isspace _), (_ =? LPAR); done. }
  change [97; 110; 100] with (op_text OP_AND). change [111; 114] with (op_text OP_OR). change [110; 111; 116] with (op_text OP_NOT).
  destruct (starts_with _ (op_text OP_AND)) eqn:Hs1; [| destruct (starts_with _ (op_text OP_OR)) eqn:Hs2; [| destruct (starts_with _ (op_text OP_NOT)) eqn:Hs3]];
    cbn [mbind option_bind]; [| | | done].
  - specialize (Hstop OP_AND eq_refl Ha Hs1). change (zlen (op_text OP_AND)) with 3 in Hstop. replace (p + 2 + 1) with (p + 3) by lia. by rewrite Hstop.
  - specialize (Hstop OP_OR eq_refl Ho Hs2). change (zlen (op_text OP_OR)) with 2 in Hstop. replace (p + 1 + 1) with (p + 2) by lia. by rewrite Hstop.
  - specialize (Hstop OP_NOT eq_refl Hn Hs3). change (zlen (op_text OP_NOT)) with 3 in Hstop. replace (p + 2 + 1) with (p + 3) by lia. by rewrite Hstop.
Qed.

Lemma function_token c skip p name rest : 0 <= p -> name_ok name = true -> text p = name ++ LPAR :: rest ->
  token_at expression rules c skip p = mret (c, name_token c p (zlen name)).
Proof.
  intros Hp Hn Ht. pose proof (name_no_logic p name rest Hp Ht Hn) as Hl. apply name_facts in Hn as (Hne & Ha & Hc & _).
  pose proof rules_parts as (_ & _ & (_ & Hf & _)). assert (Hch : ch p = deref name) by (unfold EvalParse.ch; rewrite Ht; by destruct name).
  unfold token_at. rewrite Hch, Ha, Hl. assert (Hk : 65 <= deref name <= 90 \/ 97 <= deref name <= 122).
  { unfold isalpha, isupper, islower in Ha. lia. }
  assert (Hd : isdigit (deref name) = false) by (unfold isdigit; lia).
  repeat (rewrite (proj2 (Z.eqb_neq (deref name) _)) by lia). rewrite Hd, Hf. unfold eval_parse_function_token. rewrite Ht, skip_while_app by done.
  cbn [deref]. change (LPAR =? LPAR) with true. cbn iota. rewrite (ptr_at p name (LPAR :: rest)) by done.
  by destruct (rule PARSE_LOGIC && _).
Qed.
End lex.
