(* ===== verification/EvalShunt.v ===== *)
(** * The parser on written expressions

    [eval_parse_expression] of zbxeval/parse.c sorts the tokens of a written
    expression ([EvalText], [EvalLex]) into the postfix code of its tree. *)
From stdpp Require Import prelude list.
From Stdlib Require Import ZArith Lia SpecFloat.
From S2P Require Import Prelude JsonText Macro Num Scan Double Variant Token Utf8 EvalParse EvalTree EvalText EvalLex.
#[local] Open Scope Z_scope.

(** Tests of token types that are known. *)
Ltac known_types :=
  repeat match goal with
  | |- context [is_type ?a ?b] => is_constructor a; is_constructor b; let v := eval vm_compute in (is_type a b) in change (is_type a b) with v
  | |- context [is_class ?m ?t] => is_constructor t; let v := eval vm_compute in (is_class m t) in change (is_class m t) with v
  end; cbn iota; cbn [andb orb negb].

Section shunt.
Context (expression : list Z) (rules : Z) (Hrules : trigger_rules rules = true).

Abbreviation text := (text expression).
Abbreviation parse_loop := (parse_loop expression rules).
Abbreviation parse_turn := (parse_turn rules).
Abbreviation indexed := (rule rules PARSE_CONST_INDEX).

(** ** One turn *)

Lemma loop_step c pos ws s c1 t c2 fuel : 0 <= pos -> text pos = ws ++ s -> all_space ws = true -> isspace (deref s) = false -> deref s <> 0 ->
  token_at expression rules c (zlen ws) (pos + zlen ws) = mret (c1, t) -> is_type (et_type t) TOKEN_NOP = false -> parse_turn c1 pos t = mret c2 ->
  parse_loop (S fuel) c pos = parse_loop fuel c2 (et_r t + 1).
Proof.
  intros Hpos Ht Hws Hs Hs0 Htok Hnop Hturn. cbn [EvalParse.parse_loop].
  assert (Hch : (ch expression pos =? 0) = false).
  { apply Z.eqb_neq. unfold ch. rewrite Ht. destruct ws as [| w ws]; [done |]. cbn in *. apply andb_true_iff in Hws as [Hw _]. intros ->. done. }
  rewrite Hch. destruct (whitespace_at expression rules c pos ws s Hpos Ht Hws Hs) as [Hw _]. rewrite Hw, Htok. cbn [mbind P_bind mret P_ret].
  rewrite Hnop, Hturn. done.
Qed.

(** The last token of an operand. *)
Definition closed (t : zbx_token_type_t) : bool := match t with VAR_NUM | VAR_STR | TOKEN_FUNCTIONID | GROUP_CLOSE => true | _ => false end.

(** A separator or an operator: an operand is expected. *)
Definition before (t : zbx_token_type_t) : bool := is_class BEFORE_OPERAND t.

Definition fun_in (l : list zbx_eval_token_t) : bool := existsb (fun t => is_class CLASS_FUNCTION (et_type t)) l.

Lemma closed_facts t : closed t = true ->
  is_class CLASS_OPERAND t = true /\ is_type t ARG_QUERY = false /\ is_class BEFORE_OPERATOR t = true /\ is_type t TOKEN_COMMA = false /\
  is_class CLASS_SEPARATOR t = false /\ is_type t GROUP_OPEN = false /\ is_class (CLASS_OPERAND + CLASS_PROPERTY + CLASS_SEPARATOR) t = true.
Proof. by destruct t. Qed.

Lemma before_facts t : before t = true -> is_class CLASS_OPERAND t = false /\ is_type t ARG_QUERY = false /\ is_type t GROUP_CLOSE = false.
Proof. by destruct t. Qed.

Lemma no_property c : rule rules PARSE_PROPERTY = false -> forall t, is_class CLASS_FUNCTION (et_type t) = false -> eval_append_operator rules c t = mret (push c t).
Proof. intros Hp t Ht. unfold eval_append_operator. by rewrite Ht, Hp. Qed.

Lemma rule_property : rule rules PARSE_PROPERTY = false.
Proof. by pose proof (rules_parts rules Hrules) as (_ & _ & (_ & _ & _ & _ & ?)). Qed.

(** Operators of at most level [lv] wait for their operands. *)
Definition pending (lv : Z) (t : zbx_eval_token_t) : Prop :=
  is_class CLASS_OPERATOR (et_type t) = true /\ priority (et_type t) <= lv.

Lemma operator_facts t : is_class CLASS_OPERATOR t = true -> is_class CLASS_FUNCTION t = false /\ is_type t GROUP_OPEN = false.
Proof. by destruct t. Qed.

Lemma pop_all stop pend O c : (forall t, t ∈ pend -> is_class CLASS_FUNCTION (et_type t) = false /\ stop t = false) ->
  match O with [] => True | t :: _ => stop t = true end ->
  pop_ops rules stop (pend ++ O) c = mret (set_ops (set_stack c (stack c ++ pend)) O).
Proof.
  revert c. induction pend as [| t pend IH]; intros c Hp HO; cbn [app].
  - rewrite app_nil_r. destruct O as [| t O]; cbn [pop_ops]; [| rewrite HO]; by destruct c.
  - destruct (Hp t) as [Hf Hs]; [by left |]. cbn [pop_ops]. rewrite Hs, (no_property c rule_property t Hf). cbn [mbind P_bind mret P_ret].
    rewrite IH; [| intros; apply Hp; by right | done]. unfold push. destruct c. cbn. by rewrite <- app_assoc.
Qed.

Section turns.
Context (k f : Z) (st : list zbx_eval_token_t) (pos : Z).

Lemma operand_turn last O t : before last = true -> closed (et_type t) = true -> et_type t <> GROUP_CLOSE -> et_r t <= 0x7fffffff ->
  parse_turn (Ctx last k f st O false) pos t = mret (Ctx (et_type t) k f (st ++ [t]) O false).
Proof.
  intros Hl Ht Hc Hr. pose proof (before_facts _ Hl) as (_ & Hq & _). unfold EvalParse.parse_turn.
  rewrite (proj2 (Z.ltb_ge _ _) Hr). cbn [last_token_type]. rewrite Hq. cbn [andb].
  destruct (et_type t) eqn:He; try discriminate Ht; try done; known_types; unfold eval_append_operand; cbn [last_token_type];
    unfold before in Hl; rewrite Hl, rule_property; done.
Qed.

Lemma binary_turn last pend O op p : closed last = true -> is_class CLASS_OPERATOR2 op = true -> p + zlen (op_text op) - 1 <= 0x7fffffff ->
  Forall (pending (priority op)) pend -> match O with [] => True | t :: _ => is_group_open t = true \/ priority op < priority (et_type t) end ->
  parse_turn (Ctx last k f st (pend ++ O) false) pos (op_token op p) = mret (Ctx op k f (st ++ pend) (op_token op p :: O) false).
Proof.
  intros Hl Hop Hr Hpend HO. pose proof (closed_facts _ Hl) as (_ & Hq & Hbo & Hcomma & _). unfold EvalParse.parse_turn.
  cbn [et_r op_token]. rewrite (proj2 (Z.ltb_ge _ _) Hr). cbn [last_token_type et_type op_token]. rewrite Hq, Hcomma, andb_false_r. cbn [andb].
  assert (Hp : parse_operator rules (Ctx last k f st (pend ++ O) false) pos (op_token op p) =
               mret (Ctx last k f (st ++ pend) (op_token op p :: O) false)).
  { unfold parse_operator. cbn [et_type op_token last_token_type ops]. rewrite Hbo, andb_false_r, (operator2_not_1 _ Hop). cbn [andb].
    rewrite pop_all; [done | |].
    - intros t Ht. rewrite Forall_forall in Hpend. destruct (Hpend t Ht) as [Ho Hpr]. destruct (operator_facts _ Ho) as [Hf Hg]. split; [done |].
      unfold is_group_open. rewrite Hg, (proj2 (Z.ltb_ge _ _) Hpr). done.
    - destruct O as [| t O]; [done |]. destruct HO as [-> | Hlt]; [by rewrite orb_true_r |]. by rewrite (proj2 (Z.ltb_lt _ _) Hlt). }
  destruct op; try discriminate Hop; known_types; rewrite Hp; done.
Qed.

Lemma unary_turn last O op p : before last = true -> is_class CLASS_OPERATOR1 op = true -> p + zlen (op_text op) - 1 <= 0x7fffffff ->
  parse_turn (Ctx last k f st O false) pos (op_token op p) = mret (Ctx op k f st (op_token op p :: O) false).
Proof.
  intros Hl Hop Hr. pose proof (before_facts _ Hl) as (_ & Hq & _). unfold EvalParse.parse_turn.
  cbn [et_r op_token]. rewrite (proj2 (Z.ltb_ge _ _) Hr). cbn [last_token_type et_type op_token]. rewrite Hq. cbn [andb].
  assert (Hp : parse_operator rules (Ctx last k f st O false) pos (op_token op p) = mret (Ctx last k f st (op_token op p :: O) false)).
  { unfold parse_operator. cbn [et_type op_token last_token_type ops]. unfold before in Hl. rewrite Hl, andb_false_r, Hop.
    destruct op; try discriminate Hop; known_types; (destruct O as [| t O]; cbn [pop_ops]; [done | by rewrite orb_true_r]). }
  destruct op; try discriminate Hop; known_types; rewrite Hp; done.
Qed.

Lemma open_turn last O p : is_class (BEFORE_OPERAND + CLASS_FUNCTION) last = true -> p <= 0x7fffffff ->
  parse_turn (Ctx last k f st O false) pos (EToken GROUP_OPEN 0 p p VNone) =
  mret (Ctx GROUP_OPEN k f st (EToken GROUP_OPEN 0 p p VNone :: O) false).
Proof.
  intros Hl Hr. unfold EvalParse.parse_turn. cbn [et_r et_type]. rewrite (proj2 (Z.ltb_ge _ _) Hr). cbn [last_token_type].
  assert (Hq : is_type last ARG_QUERY = false) by (by destruct last). rewrite Hq. known_types. unfold parse_group_open. cbn [last_token_type]. by rewrite Hl.
Qed.

Lemma function_turn last O t : before last = true -> et_type t = TOKEN_FUNCTION -> et_r t <= 0x7fffffff ->
  parse_turn (Ctx last k f st O false) pos t = mret (Ctx TOKEN_FUNCTION k f st (t :: O) false).
Proof.
  intros Hl Ht Hr. pose proof (before_facts _ Hl) as (_ & Hq & _). unfold EvalParse.parse_turn.
  rewrite (proj2 (Z.ltb_ge _ _) Hr), Ht. cbn [last_token_type]. rewrite Hq. known_types. unfold parse_function. cbn [last_token_type].
  unfold before in Hl. by rewrite Hl.
Qed.

Lemma pending_pops lv pend t : Forall (pending lv) pend -> t ∈ pend -> is_class CLASS_FUNCTION (et_type t) = false /\ is_group_open t = false.
Proof. rewrite Forall_forall. intros Hp Ht. destruct (Hp t Ht) as [Ho _]. apply (operator_facts _ Ho). Qed.

Lemma comma_turn last lv pend g O p : closed last = true -> Forall (pending lv) pend -> is_group_open g = true -> p <= 0x7fffffff ->
  parse_turn (Ctx last k f st (pend ++ g :: O) false) pos (EToken TOKEN_COMMA 0 p p VNone) = mret (Ctx TOKEN_COMMA k f (st ++ pend) (g :: O) false).
Proof.
  intros Hl Hpend Hg Hr. pose proof (closed_facts _ Hl) as (Ho & Hq & _ & Hcomma & Hsep & _). unfold EvalParse.parse_turn. cbn [et_r et_type].
  rewrite (proj2 (Z.ltb_ge _ _) Hr). cbn [last_token_type]. rewrite Hq, Hcomma. known_types. unfold parse_comma. cbn [last_token_type].
  rewrite Ho, Hsep. cbn [negb andb ops]. rewrite pop_all; [| intros t Ht; by apply (pending_pops lv pend) | done].
  rewrite bool_decide_eq_false_2 by (by destruct pend). done.
Qed.

(** What is left after the closing parenthesis. *)
Lemma close_pops last lv pend g O p : is_class (CLASS_OPERAND + CLASS_PROPERTY + CLASS_SEPARATOR) last = true -> is_type last ARG_QUERY = false ->
  is_type last TOKEN_COMMA = false -> Forall (pending lv) pend -> is_group_open g = true -> p <= 0x7fffffff ->
  parse_turn (Ctx last k f st (pend ++ g :: O) false) pos (EToken GROUP_CLOSE 0 p p VNone) =
  (c ← (match O with
        | [] => mret (Ctx last k f (st ++ pend) O false)
        | t :: rest =>
            if is_class CLASS_FUNCTION (et_type t) then c ← eval_append_operator rules (Ctx last k f (st ++ pend) O false) t; mret (set_ops c rest)
            else if is_type last GROUP_OPEN then fail (EmptyGroup pos) else mret (Ctx last k f (st ++ pend) O false)
        end : P zbx_eval_context_t); mret (set_last c GROUP_CLOSE)).
Proof.
  intros Hl Hq Hcomma Hpend Hg Hr. unfold EvalParse.parse_turn. cbn [et_r et_type].
  rewrite (proj2 (Z.ltb_ge _ _) Hr). cbn [last_token_type]. rewrite Hq, Hcomma. known_types. unfold parse_group_close. cbn [last_token_type].
  rewrite Hl. cbn [negb andb ops]. rewrite pop_all; [| intros t Ht; by apply (pending_pops lv pend) | done].
  rewrite bool_decide_eq_false_2 by (by destruct pend). by destruct O.
Qed.
End turns.

(** ** Texts *)

Definition good_first (s : list Z) : bool := negb (bool_decide (deref s ∈ [0; 61; 62])).

Lemma good_ws ws s : all_space ws = true -> good_first s = true -> good_first (ws ++ s) = true.
Proof.
  intros Hws Hs. destruct ws as [| w ws]; [done |]. cbn in *. apply andb_true_iff in Hws as [Hw _]. unfold good_first. cbn [deref].
  apply negb_true_iff, bool_decide_eq_false. intros Hin. unfold isspace in Hw.
  repeat (apply elem_of_cons in Hin as [-> | Hin]; [by vm_compute in Hw |]). by apply elem_of_nil in Hin.
Qed.

Lemma good_lit c s : bool_decide (c ∈ [0; 61; 62]) = false -> good_first (c :: s) = true.
Proof. unfold good_first. cbn [deref]. by intros ->. Qed.

Lemma good_range c s : 63 <= c \/ 1 <= c <= 60 -> good_first (c :: s) = true.
Proof. intros Hc. apply good_lit, bool_decide_eq_false. intros Hin. repeat (apply elem_of_cons in Hin as [-> | Hin]; [lia |]). by apply elem_of_nil in Hin. Qed.

Lemma good_app s t : good_first s = true -> good_first (s ++ t) = true.
Proof. destruct s; [by vm_compute | done]. Qed.

Lemma good_number n : number_ok n = true -> good_first (number_text n) = true.
Proof.
  intros Hn. pose proof (unsigned_first n [] Hn) as Hd. rewrite app_nil_r in Hd. unfold number_text. destruct (n_neg n); [by vm_compute |]. cbn [app].
  destruct (unsigned_text n) as [| c s]; [by vm_compute in Hd |]. apply good_range. cbn in Hd. unfold isdigit in Hd. lia.
Qed.

Lemma good_name name s : name_ok name = true -> good_first (name ++ s) = true.
Proof.
  intros (Hne & Ha & _)%name_facts. destruct name as [| c name]; [done |]. apply good_range. cbn in Ha. unfold isalpha, isupper, islower in Ha. lia.
Qed.

Lemma print_first start e : ok start e = true -> good_first (print e) = true.
Proof.
  revert start. induction e as [ws n | ws s | ws ds | ws op e IH | l IHl ws op r IHr | ws e IH ws2 | ws name args]; intros start Hok; cbn [ok print] in *;
    repeat match goal with H : _ && _ = true |- _ => apply andb_true_iff in H as [H ?] end.
  - by apply good_ws, good_number.
  - by apply good_ws.
  - by apply good_ws.
  - apply good_ws; [done |]. by destruct op.
  - apply good_app. eauto.
  - by apply good_ws.
  - apply good_ws; [done |]. by apply good_name.
Qed.

Lemma good_facts s rest : good_first s = true ->
  (0 < zlen s) /\ deref (s ++ rest) = deref s /\ (deref s =? 0) = false /\ (deref s =? 61) = false /\ (deref s =? 62) = false.
Proof.
  unfold good_first. intros Hs%negb_true_iff%bool_decide_eq_false. destruct s as [| c s]; [exfalso; apply Hs; cbn; set_solver |].
  cbn [deref app] in *. split; [by apply zlen_pos | split; [done |]]. repeat split; apply Z.eqb_neq; intros ->; set_solver.
Qed.

(** ** Operands *)

Lemma count_params_app a b : count_params (a ++ b) = count_params a + count_params b.
Proof.
  unfold count_params. assert (Hs : forall l n, foldl (fun params t => params + param_count t) n l = n + foldl (fun params t => params + param_count t) 0 l).
  { induction l as [| t l IH]; intros n; cbn [foldl]; [lia |]. rewrite IH, (IH (0 + param_count t)). lia. }
  rewrite foldl_app, Hs. done.
Qed.

Lemma count_params_one t : count_params [t] = param_count t.
Proof. done. Qed.

(** Everything about the parsing of [e] at [pos]. *)
Definition reads (e : expr) (infun : bool) (last : zbx_token_type_t) (k f : Z) (st O : list zbx_eval_token_t) (pos : Z) : Prop :=
  exists n out pend last' x k' f',
    tree_of indexed infun pos k f e = (x, k', f') /\ (n <= length (print e))%nat /\
    (forall fuel, parse_loop (n + fuel) (Ctx last k f st O false) pos =
                  parse_loop fuel (Ctx last' k' f' (st ++ out) (pend ++ O) false) (pos + zlen (print e))) /\
    closed last' = true /\ (ends_close e = true -> last' = GROUP_CLOSE) /\ Forall (pending (level e)) pend /\ out ++ pend = postfix x /\
    count_params (postfix x) = 1 /\ 0 <= k' <= pos + zlen (print e) /\ 0 <= f' <= pos + zlen (print e) /\
    (exists l t, postfix x = l ++ [t] /\ is_type (et_type t) ARG_QUERY = false).

(** There is no operator in the operand, or the one that waits is evaluated later. *)
Definition room (O : list zbx_eval_token_t) (lv : Z) : Prop :=
  match O with
  | [] => True
  | t :: _ => is_class CLASS_FUNCTION (et_type t) = false /\ (is_group_open t = true \/ lv < priority (et_type t) \/ lv <= priority OP_MINUS)
  end.

Definition parses (e : expr) : Prop := forall start infun last k f st O pos rest,
  ok start e = true -> 0 <= pos -> pos + zlen (print e) <= 0x80000000 -> text pos = print e ++ rest -> ends rest || ends_close e = true ->
  before last = true -> (start = true -> is_class CLASS_SEPARATOR last = true) -> quiet (Ctx last k f st O false) = true -> fun_in O = infun ->
  0 <= k <= pos -> 0 <= f <= pos -> room O (level e) -> reads e infun last k f st O pos.

Lemma operand_reads e infun last k f st O pos ws s rest t k' f' :
  print e = ws ++ s -> level e = 0 -> ends_close e = false -> tree_of indexed infun pos k f e = (Operand t, k', f') ->
  all_space ws = true -> isspace (deref s) = false -> good_first s = true -> 0 <= pos -> pos + zlen (print e) <= 0x80000000 ->
  text pos = print e ++ rest -> before last = true ->
  token_at expression rules (Ctx last k f st O false) (zlen ws) (pos + zlen ws) = mret (Ctx last k' f' st O false, t) ->
  closed (et_type t) = true -> et_type t <> GROUP_CLOSE -> et_r t + 1 = pos + zlen (print e) ->
  0 <= k' <= k + 1 -> 0 <= f' <= f + 1 -> k <= pos -> f <= pos -> reads e infun last k f st O pos.
Proof.
  intros Hpr Hlv Hec Htree Hws Hs Hg Hpos Hlen Ht Hb Htok Hc Hnc Hr Hk Hf Hkp Hfp. pose proof (good_facts s rest Hg) as (Hl & Hd & H0 & _).
  assert (Hge : 1 <= zlen (print e)) by (rewrite Hpr; lens; pose proof (zlen_nonneg ws); lia).
  exists 1%nat, [t], [], (et_type t), (Operand t), k', f'. repeat split; try done; try lia.
  - unfold zlen in Hge. lia.
  - intros fuel. rewrite <- Hr. apply (loop_step _ pos ws (s ++ rest) (Ctx last k' f' st O false)); try done.
    + rewrite Ht, Hpr. by rewrite <- app_assoc.
    + by rewrite Hd.
    + rewrite Hd. by apply Z.eqb_neq.
    + by destruct (et_type t).
    + apply operand_turn; try done. lia.
  - by rewrite Hec.
  - cbn. unfold count_params, param_count. cbn. by destruct (et_type t).
  - exists [], t. split; [done |]. by destruct (et_type t).
Qed.

(** ** Induction over the expression *)

Ltac split_ok := repeat match goal with H : _ && _ = true |- _ => apply andb_true_iff in H as [H ?] end.

Lemma const_token_read infun last k f st O p type len : fun_in O = infun -> 0 <= k <= 0x80000000 ->
  exists t k', const_token rules (Ctx last k f st O false) type p len = (Ctx last k' f st O false, t) /\
    constant indexed infun type p len k f = (Operand t, k', f) /\ et_type t = type /\ et_r t = p + len - 1 /\ 0 <= k' <= k + 1.
Proof.
  intros Hf Hk. unfold const_token, eval_update_const_variable, constant. cbn [ops const_index]. fold (fun_in O). rewrite Hf.
  rewrite u32_small by lia.
  destruct (indexed && negb infun); do 2 eexists; (split; [reflexivity | split; [reflexivity | cbn; repeat split; lia]]).
Qed.

Lemma ENum_parses ws n : parses (ENum ws n).
Proof.
  intros start infun last k f st O pos rest Hok Hpos Hlen Ht Hends Hb Hst Hq Hf Hk Hfi Hroom. cbn [ok] in Hok. split_ok.
  cbn [ends_close] in Hends. rewrite orb_false_r in Hends. pose proof (zlen_nonneg (print (ENum ws n))) as Hnn.
  destruct (const_token_read infun last k f st O (pos + zlen ws) VAR_NUM (zlen (number_text n))) as (t & k' & Htok & Htree & Hty & Hr & Hk'); [done | lia |].
  assert (Hd : isspace (deref (number_text n)) = false).
  { pose proof (unsigned_first n [] ltac:(done)) as Hd. rewrite app_nil_r in Hd. unfold number_text. destruct (n_neg n); [done |]. cbn [app].
    unfold isdigit in Hd. unfold isspace. lia. }
  apply (operand_reads _ infun last k f st O pos ws (number_text n) rest t k' f); try done; try lia.
  - by apply good_number.
  - rewrite (number_token expression rules Hrules _ _ _ n rest); try done; [by rewrite Htok | pose proof (zlen_nonneg ws); lia | |].
    + apply (text_tail expression pos ws); [done |]. rewrite Ht. cbn [print]. by rewrite <- app_assoc.
    + by apply before_facts.
  - by rewrite Hty.
  - by rewrite Hty.
  - rewrite Hr. cbn [print]. lens; lia.
Qed.

Lemma EStr_parses ws s : parses (EStr ws s).
Proof.
  intros start infun last k f st O pos rest Hok Hpos Hlen Ht Hends Hb Hst Hq Hf Hk Hfi Hroom. cbn [ok] in Hok. split_ok.
  pose proof (zlen_nonneg (print (EStr ws s))) as Hnn.
  destruct (const_token_read infun last k f st O (pos + zlen ws) VAR_STR (zlen (escaped s) + 2)) as (t & k' & Htok & Htree & Hty & Hr & Hk'); [done | lia |].
  apply (operand_reads _ infun last k f st O pos ws (QUOT :: escaped s ++ [QUOT]) rest t k' f); try done; try lia.
  - rewrite (string_token expression rules Hrules _ _ _ s rest); try done; [by rewrite Htok | pose proof (zlen_nonneg ws); lia |].
    apply (text_tail expression pos ws); [done |]. rewrite Ht. cbn [print]. rewrite <- app_assoc. cbn [app]. by rewrite <- app_assoc.
  - by rewrite Hty.
  - by rewrite Hty.
  - rewrite Hr. cbn [print]. lens; lia.
Qed.

Lemma EFid_parses ws ds : parses (EFid ws ds).
Proof.
  intros start infun last k f st O pos rest Hok Hpos Hlen Ht Hends Hb Hst Hq Hf Hk Hfi Hroom. cbn [ok] in Hok. split_ok.
  pose proof (zlen_nonneg (print (EFid ws ds))) as Hnn. match goal with H : negb (bool_decide _) = true |- _ => apply negb_true_iff, bool_decide_eq_false in H end.
  apply (operand_reads _ infun last k f st O pos ws (LBR :: ds ++ [RBR]) rest
    (EToken TOKEN_FUNCTIONID f (pos + zlen ws) (pos + zlen ws + zlen ds + 1) VNone) k (f + 1)); try done; try lia.
  - rewrite (functionid_token expression rules Hrules _ _ _ ds rest); try done; [| pose proof (zlen_nonneg ws); lia |].
    + unfold fid_token. cbn [functionid_index last_token_type const_index stack ops edom]. by rewrite u32_small by lia.
    + apply (text_tail expression pos ws); [done |]. rewrite Ht. cbn [print]. rewrite <- app_assoc. cbn [app]. by rewrite <- app_assoc.
  - cbn [print et_r]. lens; lia.
Qed.

Lemma op_length op : is_class CLASS_OPERATOR op = true -> 1 <= zlen (op_text op).
Proof. by destruct op. Qed.

Lemma op_good op s : is_class CLASS_OPERATOR op = true -> isspace (deref (op_text op ++ s)) = false /\ deref (op_text op ++ s) <> 0.
Proof. by destruct op. Qed.

Lemma class1 op : is_class CLASS_OPERATOR1 op = true -> is_class CLASS_OPERATOR op = true /\ before op = true /\ priority op = priority OP_MINUS /\ is_type op TOKEN_NOP = false /\ is_type op TOKEN_COMMA = false.
Proof. by destruct op. Qed.

Lemma class2 op : is_class CLASS_OPERATOR2 op = true -> is_class CLASS_OPERATOR op = true /\ before op = true /\ priority OP_MINUS < priority op /\ is_type op TOKEN_NOP = false /\ is_type op TOKEN_COMMA = false.
Proof. by destruct op. Qed.

Lemma quiet_no_comma last k f st O : is_type last TOKEN_COMMA = false -> quiet (Ctx last k f st O false) = true.
Proof. unfold quiet. cbn [last_token_type]. by intros ->. Qed.

Lemma sep_deref s rest : good_first s = true -> starts_sep s = true -> starts_sep (s ++ rest) = true.
Proof. intros Hg. unfold starts_sep. by destruct (good_facts s rest Hg) as (_ & -> & _). Qed.

Lemma op_follow_unary op e rest : is_class CLASS_OPERATOR1 op = true -> good_first (print e) = true ->
  (if is_word op then starts_sep (print e) else negb (isdigit (deref (print e))) && negb (deref (print e) =? DOT)) = true -> op_follow op (print e ++ rest) = true.
Proof.
  intros Hop Hg Hw. destruct (good_facts (print e) rest Hg) as (_ & Hd & _). destruct op; try discriminate Hop; cbn [is_word op_follow] in *.
  - by rewrite Hd.
  - by apply sep_deref.
Qed.

Lemma op_follow_binary op e rest : is_class CLASS_OPERATOR2 op = true -> good_first (print e) = true ->
  (is_word op = true -> starts_sep (print e) = true) -> op_follow op (print e ++ rest) = true.
Proof.
  intros Hop Hg Hw. destruct (good_facts (print e) rest Hg) as (_ & Hd & _ & H61 & H62).
  destruct op; try discriminate Hop; cbn [is_word op_follow] in *; rewrite ?Hd, ?H61, ?H62; try done; by apply sep_deref, Hw.
Qed.

Lemma EUn_parses ws op e : parses e -> parses (EUn ws op e).
Proof.
  intros IH start infun last k f st O pos rest Hok Hpos Hlen Ht Hends Hb Hst Hq Hf Hk Hfi Hroom. cbn [ok] in Hok. split_ok.
  destruct (class1 op) as (Hcl & Hbop & Hprio & Hnop & Hcomma); [done |]. pose proof (op_length op Hcl) as Hol. pose proof (zlen_nonneg ws) as Hwl.
  pose proof (print_first false e ltac:(done)) as Hg. cbn [print] in *. rewrite <- !app_assoc in Ht.
  pose proof (text_tail expression pos ws _ Hpos Ht) as Ht1. pose proof (text_tail expression (pos + zlen ws) (op_text op) _ ltac:(lia) Ht1) as Ht2.
  assert (Hlens : zlen (ws ++ op_text op ++ print e) = zlen ws + zlen (op_text op) + zlen (print e)) by (lens; lia). rewrite Hlens in Hlen.
  pose proof (zlen_nonneg (print e)) as Hel.
  destruct (IH false infun op k f st (op_token op (pos + zlen ws) :: O) (pos + zlen ws + zlen (op_text op)) rest)
    as (n & out & pend & last' & x & k' & f' & Htree & Hn & Hrun & Hcl' & Hec & Hpend & Hpost & Hcount & Hk' & Hf' & (l0 & t0 & Hl0 & Hq0)); try done; try lia.
  - by apply quiet_no_comma.
  - cbn. by destruct op.
  - split; [by destruct op |]. right. right. rewrite <- Hprio. by apply Z.leb_le.
  - exists (S n), out, (pend ++ [op_token op (pos + zlen ws)]), last', (Unary (op_token op (pos + zlen ws)) x), k', f'. cbn [tree_of print]. rewrite Htree. cbn [postfix].
    repeat split; try done; try lia.
    + rewrite !length_app. unfold zlen in Hol. lia.
    + intros fuel. cbn [Nat.add]. rewrite (loop_step _ pos ws (op_text op ++ print e ++ rest) (Ctx last k f st O false) (op_token op (pos + zlen ws))
        (Ctx op k f st (op_token op (pos + zlen ws) :: O) false)); try done.
      * replace (et_r (op_token op (pos + zlen ws)) + 1) with (pos + zlen ws + zlen (op_text op)) by (cbn [et_r op_token]; lia).
        rewrite Hrun, Hlens, <- app_assoc. f_equal. lia.
      * by apply op_good.
      * by apply op_good.
      * apply (unary_token expression rules Hrules _ _ _ op (print e ++ rest)); try done; [lia | | by apply before_facts |].
        -- apply op_follow_unary; [done | done |]. destruct (is_word op); [| done]. by split_ok.
        -- intros Hw. match goal with H : (if is_word op then _ else _) = true |- _ => rewrite Hw in H end. split_ok.
           unfold separated. cbn [last_token_type]. destruct start; [rewrite Hst by done; by rewrite orb_true_r |].
           destruct ws as [| w ws]; [done |]. rewrite (proj2 (Z.eqb_neq _ 0)) by (lens; pose proof (zlen_nonneg ws); lia). done.
      * apply unary_turn; try done. lia.
    + apply Forall_app. split.
      * apply (Forall_impl _ _ _ Hpend). intros t [? ?]. split; [done |]. cbn [level]. etransitivity; [done |]. by apply Z.leb_le.
      * constructor; [| done]. split; [done |]. cbn. lia.
    + by rewrite app_assoc, Hpost.
    + rewrite count_params_app, Hcount, count_params_one. unfold param_count. cbn [et_type op_token]. by destruct op.
    + exists (postfix x), (op_token op (pos + zlen ws)). split; [done |]. by destruct op.
Qed.

Lemma ws_ends ws s : all_space ws = true -> ends s = true \/ ws <> [] -> ends (ws ++ s) = true.
Proof.
  intros Hws [Hs | Hne].
  - destruct ws as [| w ws]; [done |]. cbn in *. apply andb_true_iff in Hws as [Hw _]. unfold ends_char. by rewrite Hw.
  - destruct ws as [| w ws]; [done |]. cbn in *. apply andb_true_iff in Hws as [Hw _]. unfold ends_char. by rewrite Hw.
Qed.

Lemma op_ends op s : is_class CLASS_OPERATOR2 op = true -> is_word op = false -> ends (op_text op ++ s) = true.
Proof. by destruct op. Qed.

(** What follows the left operand. *)
Lemma left_ends l ws op s rest : is_class CLASS_OPERATOR2 op = true -> all_space ws = true ->
  (if is_word op then (ends_close l || negb (bool_decide (ws = []))) && starts_sep s else true) = true ->
  ends (ws ++ op_text op ++ rest) || ends_close l = true.
Proof.
  intros Hop Hws Hword. destruct (is_word op) eqn:Hw.
  - apply andb_true_iff in Hword as [[-> | Hne%negb_true_iff%bool_decide_eq_false]%orb_true_iff _]; [by rewrite orb_true_r |].
    rewrite ws_ends; [done | done | by right].
  - rewrite ws_ends; [done | done | left; by apply op_ends].
Qed.

Lemma room_left O op lv : is_class CLASS_OPERATOR2 op = true -> lv <= priority op -> room O (priority op) ->
  room O lv /\ match O with [] => True | t :: _ => is_group_open t = true \/ priority op < priority (et_type t) end.
Proof. intros (_ & _ & Hp & _)%class2 Hlv. destruct O as [| t O]; [done |]. cbn [room]. intros [Hc [H | [H | H]]]; [auto | split; [split; [done | right; lia] | right; lia] | lia]. Qed.

Lemma pending_le a b l : a <= b -> Forall (pending a) l -> Forall (pending b) l.
Proof. intros Hab Hl. apply (Forall_impl _ _ _ Hl). intros t [? ?]. split; [done | lia]. Qed.

Lemma EBin_parses l ws op r : parses l -> parses r -> parses (EBin l ws op r).
Proof.
  intros IHl IHr start infun last k f st O pos rest Hok Hpos Hlen Ht Hends Hb Hst Hq Hf Hk Hfi Hroom. cbn [ok] in Hok. split_ok.
  match goal with H : (if is_word op then _ else true) = true |- _ => rename H into Hword end.
  match goal with H : (level l <=? _) = true |- _ => apply Z.leb_le in H; rename H into Hll end.
  match goal with H : (level r <? _) = true |- _ => apply Z.ltb_lt in H; rename H into Hlr end.
  destruct (class2 op) as (Hcl & Hbop & Hprio & Hnop & Hcomma); [done |]. pose proof (op_length op Hcl) as Hol. pose proof (zlen_nonneg ws) as Hwl.
  pose proof (print_first false r ltac:(done)) as Hg. cbn [print level ends_close] in *. rewrite <- !app_assoc in Ht.
  destruct (room_left O op (level l)) as [Hrl Htop]; [done | done | done |].
  pose proof (text_tail expression pos (print l) _ Hpos Ht) as Ht0. pose proof (zlen_nonneg (print l)) as Hlle. pose proof (zlen_nonneg (print r)) as Hrle.
  pose proof (text_tail expression (pos + zlen (print l)) ws _ ltac:(lia) Ht0) as Ht1.
  pose proof (text_tail expression (pos + zlen (print l) + zlen ws) (op_text op) _ ltac:(lia) Ht1) as Ht2.
  assert (Hlens : zlen (print l ++ ws ++ op_text op ++ print r) = zlen (print l) + zlen ws + zlen (op_text op) + zlen (print r)) by (lens; lia).
  rewrite Hlens in Hlen.
  assert (Hsep : is_word op = true -> ends_close l = true \/ ws <> []).
  { intros Hw. rewrite Hw in Hword. split_ok. apply orb_true_iff in Hword as [? | Hne%negb_true_iff%bool_decide_eq_false]; auto. }
  destruct (IHl start infun last k f st O pos (ws ++ op_text op ++ print r ++ rest))
    as (n1 & out1 & pend1 & last1 & x & k1 & f1 & Htree1 & Hn1 & Hrun1 & Hcl1 & Hec1 & Hpend1 & Hpost1 & Hcount1 & Hk1 & Hf1 & _); try done; try lia.
  { by apply (left_ends l ws op (print r)). }
  set (p := pos + zlen (print l) + zlen ws) in *.
  destruct (IHr false infun op k1 f1 (st ++ out1 ++ pend1) (op_token op p :: O) (p + zlen (op_text op)) rest)
    as (n2 & out2 & pend2 & last2 & y & k2 & f2 & Htree2 & Hn2 & Hrun2 & Hcl2 & Hec2 & Hpend2 & Hpost2 & Hcount2 & Hk2 & Hf2 & _); try done; try lia.
  { by apply quiet_no_comma. }
  { cbn. by destruct op. }
  { split; [by destruct op |]. right. by left. }
  exists (n1 + S n2)%nat, ((out1 ++ pend1) ++ out2), (pend2 ++ [op_token op p]), last2, (Binary (op_token op p) x y), k2, f2.
  cbn [tree_of print postfix]. rewrite Htree1. fold p. rewrite Htree2. repeat split; try done; try lia.
  - rewrite !length_app. unfold zlen in Hol. lia.
  - intros fuel. replace (n1 + S n2 + fuel)%nat with (n1 + S (n2 + fuel))%nat by lia. rewrite Hrun1.
    rewrite (loop_step _ (pos + zlen (print l)) ws (op_text op ++ print r ++ rest) (Ctx last1 k1 f1 (st ++ out1) (pend1 ++ O) false) (op_token op p)
        (Ctx op k1 f1 ((st ++ out1) ++ pend1) (op_token op p :: O) false)); try done; try lia.
    + replace (et_r (op_token op p) + 1) with (p + zlen (op_text op)) by (cbn [et_r op_token]; lia).
      rewrite <- (app_assoc st), Hrun2, Hlens, <- !app_assoc. f_equal. lia.
    + by apply op_good.
    + by apply op_good.
    + apply (binary_token expression rules Hrules _ _ _ op (print r ++ rest)); try done; [lia | | by apply closed_facts |].
      * apply op_follow_binary; [done | done |]. intros Hw. rewrite Hw in Hword. by split_ok.
      * intros Hw. unfold separated. cbn [last_token_type]. destruct (Hsep Hw) as [Hec | Hne].
        -- rewrite (Hec1 Hec). by rewrite orb_true_r.
        -- rewrite (proj2 (Z.eqb_neq _ 0)); [done |]. pose proof (zlen_pos ws Hne). lia.
    + apply binary_turn; try done; [lia | by apply (pending_le (level l))].
  - cbn [level]. apply Forall_app. split; [apply (pending_le (level r)); [lia | done] |]. constructor; [| done]. split; [done |]. cbn. lia.
  - rewrite <- Hpost1, <- Hpost2, <- !app_assoc. done.
  - rewrite !count_params_app, Hcount1, Hcount2, count_params_one. unfold param_count. cbn [et_type op_token]. by destruct op.
  - exists (postfix x ++ postfix y), (op_token op p). split; [by rewrite <- app_assoc |]. by destruct op.
Qed.

Definition open_at (p : Z) : zbx_eval_token_t := EToken GROUP_OPEN 0 p p VNone.

Lemma before_open last : before last = true -> is_class (BEFORE_OPERAND + CLASS_FUNCTION) last = true.
Proof. by destruct last. Qed.

(** The step over a closing parenthesis behind white space. *)
Lemma close_step last k f st lv pend g O pos ws rest c fuel :
  0 <= pos -> text pos = ws ++ RPAR :: rest -> all_space ws = true -> pos + zlen ws <= 0x7fffffff ->
  is_class (CLASS_OPERAND + CLASS_PROPERTY + CLASS_SEPARATOR) last = true -> is_type last ARG_QUERY = false -> is_type last TOKEN_COMMA = false ->
  Forall (pending lv) pend -> is_group_open g = true ->
  (match O with
   | [] => mret (Ctx last k f (st ++ pend) O false)
   | t :: rest =>
       if is_class CLASS_FUNCTION (et_type t) then c ← eval_append_operator rules (Ctx last k f (st ++ pend) O false) t; mret (set_ops c rest)
       else if is_type last GROUP_OPEN then fail (EmptyGroup pos) else mret (Ctx last k f (st ++ pend) O false)
   end : P zbx_eval_context_t) = mret c ->
  parse_loop (S fuel) (Ctx last k f st (pend ++ g :: O) false) pos = parse_loop fuel (set_last c GROUP_CLOSE) (pos + zlen ws + 1).
Proof.
  intros Hpos Ht Hws Hr Hl Hq Hcomma Hpend Hg Hc.
  rewrite (loop_step _ pos ws (RPAR :: rest) (Ctx last k f st (pend ++ g :: O) false) (EToken GROUP_CLOSE 0 (pos + zlen ws) (pos + zlen ws) VNone)
    (set_last c GROUP_CLOSE)); try done.
  - apply (close_token expression rules Hrules _ _ _ rest). by apply text_tail.
  - rewrite (close_pops k f st pos last lv pend g O (pos + zlen ws)) by done. rewrite Hc. done.
Qed.

Lemma EParen_parses ws e ws2 : parses e -> parses (EParen ws e ws2).
Proof.
  intros IH start infun last k f st O pos rest Hok Hpos Hlen Ht Hends Hb Hst Hq Hf Hk Hfi Hroom. cbn [ok] in Hok. split_ok. cbn [print] in *.
  pose proof (zlen_nonneg ws) as Hwl. pose proof (zlen_nonneg ws2) as Hwl2. pose proof (zlen_nonneg (print e)) as Hel.
  assert (Hlens : zlen (ws ++ LPAR :: print e ++ ws2 ++ [RPAR]) = zlen ws + 1 + zlen (print e) + zlen ws2 + 1) by (lens; lia). rewrite Hlens in Hlen.
  assert (Ht' : text pos = ws ++ LPAR :: print e ++ ws2 ++ RPAR :: rest) by (rewrite Ht, <- app_assoc; cbn [app]; by rewrite <- !app_assoc).
  pose proof (text_tail expression pos ws _ Hpos Ht') as Ht1. pose proof (text_tail1 expression (pos + zlen ws) LPAR _ ltac:(lia) Ht1) as Ht2.
  pose proof (text_tail expression (pos + zlen ws + 1) (print e) _ ltac:(lia) Ht2) as Ht3.
  destruct (IH true infun GROUP_OPEN k f st (open_at (pos + zlen ws) :: O) (pos + zlen ws + 1) (ws2 ++ RPAR :: rest))
    as (n & out & pend & last' & x & k' & f' & Htree & Hn & Hrun & Hcl & _ & Hpend & Hpost & Hcount & Hk' & Hf' & Hlast); try done; try lia.
  { rewrite ws_ends; [done | done | by left]. }
  { split; [done | by left]. }
  exists (S (n + 1)), (out ++ pend), [], GROUP_CLOSE, x, k', f'. cbn [tree_of print]. rewrite Hlens. repeat split; try done; try lia.
  - rewrite length_app. cbn [length]. rewrite !length_app. cbn [length]. lia.
  - intros fuel. cbn [Nat.add]. rewrite (loop_step _ pos ws (LPAR :: print e ++ ws2 ++ RPAR :: rest) (Ctx last k f st O false) (open_at (pos + zlen ws))
      (Ctx GROUP_OPEN k f st (open_at (pos + zlen ws) :: O) false)); try done.
    + cbn [et_r open_at]. rewrite <- Nat.add_assoc, Hrun. cbn [Nat.add].
      rewrite (close_step _ _ _ _ (level e) _ _ _ _ ws2 rest (Ctx last' k' f' ((st ++ out) ++ pend) O false)); try done; try lia; try by apply closed_facts.
      * rewrite <- app_assoc. unfold set_last. cbn. f_equal. lia.
      * destruct O as [| t O]; [done |]. destruct Hroom as [-> _]. pose proof (closed_facts _ Hcl) as (_ & _ & _ & _ & _ & -> & _). done.
    + apply (open_token expression rules Hrules _ _ _ _ Ht1).
    + apply open_turn; [by apply before_open | lia].
  - by rewrite app_nil_r.
Qed.

(** ** Function calls *)

Definition args_text (args : list (expr * list Z)) : list Z := join_args (map (fun a => print a.1 ++ a.2) args).
Definition arg_ok (a : expr * list Z) : bool := ok true a.1 && all_space a.2.

Lemma join_cons a b args : args_text (a :: b :: args) = print a.1 ++ a.2 ++ COMMA :: args_text (b :: args).
Proof. unfold args_text. cbn [map join_args]. by rewrite <- app_assoc. Qed.

(** The call token with the number of its arguments. *)
Definition counted (ft : zbx_eval_token_t) (st : list zbx_eval_token_t) : zbx_eval_token_t :=
  set_opt ft (u32 (count_params (drop (Z.to_nat (et_opt ft)) st))).

Lemma append_function last k f st O ft : et_type ft = TOKEN_FUNCTION ->
  eval_append_operator rules (Ctx last k f st O false) ft = mret (Ctx last k f (st ++ [counted ft st]) O false).
Proof. intros Ht. unfold eval_append_operator. rewrite Ht, rule_property. done. Qed.

(** The arguments and the closing parenthesis. *)
Definition reads_args (args : list (expr * list Z)) (last : zbx_token_type_t) (k f : Z) (st : list zbx_eval_token_t) (g ft : zbx_eval_token_t)
    (O : list zbx_eval_token_t) (pos : Z) : Prop :=
  exists n xs k' f', trees_of indexed pos k f args = (xs, k', f') /\ (n <= length (args_text args) + 1)%nat /\
    (forall fuel, parse_loop (n + fuel) (Ctx last k f st (g :: ft :: O) false) pos =
      parse_loop fuel (Ctx GROUP_CLOSE k' f' (st ++ concat (map postfix xs) ++ [counted ft (st ++ concat (map postfix xs))]) O false) (pos + zlen (args_text args) + 1)) /\
    count_params (concat (map postfix xs)) = Z.of_nat (length args) /\ Z.of_nat (length args) <= zlen (args_text args) /\
    0 <= k' <= pos + zlen (args_text args) /\ 0 <= f' <= pos + zlen (args_text args).

Lemma args_parse args : args <> [] -> Forall (fun a => parses a.1) args -> forall last k f st g ft O pos rest,
  forallb arg_ok args = true -> 0 <= pos -> pos + zlen (args_text args) <= 0x7fffffff -> text pos = args_text args ++ RPAR :: rest ->
  last = GROUP_OPEN \/ last = TOKEN_COMMA -> quiet (Ctx last k f st (g :: ft :: O) false) = true -> is_group_open g = true ->
  et_type g = GROUP_OPEN -> et_type ft = TOKEN_FUNCTION -> 0 <= k <= pos -> 0 <= f <= pos -> reads_args args last k f st g ft O pos.
Proof.
  intros Hne Hall. induction Hall as [| a args Ha Hall IH]; [done |]. clear Hne.
  intros last k f st g ft O pos rest Hok Hpos Hlen Ht Hlast Hq Hg Hgt Hft Hk Hf. cbn [forallb] in Hok. unfold arg_ok at 1 in Hok. split_ok.
  pose proof (zlen_nonneg (print a.1)) as Hpl. pose proof (zlen_nonneg a.2) as Hwl.
  pose proof (good_facts (print a.1) [] (print_first _ _ ltac:(done))) as (Hpos1 & _).
  assert (Hb : before last = true /\ is_class CLASS_SEPARATOR last = true) by (by destruct Hlast as [-> | ->]). destruct Hb as [Hb Hsep].
  assert (Hfun : fun_in (g :: ft :: O) = true) by (cbn; by rewrite Hft, orb_true_r).
  assert (Hroom : room (g :: ft :: O) (level a.1)) by (split; [by rewrite Hgt | by left]).
  destruct args as [| b args].
  - unfold args_text in *. cbn [map join_args] in *. rewrite zlen_app in Hlen.
    assert (Ht' : text pos = print a.1 ++ a.2 ++ RPAR :: rest) by (rewrite Ht; by rewrite <- app_assoc).
    destruct (Ha true true last k f st (g :: ft :: O) pos (a.2 ++ RPAR :: rest))
      as (n & out & pend & last' & x & k' & f' & Htree & Hn & Hrun & Hcl & _ & Hpend & Hpost & Hcount & Hk' & Hf' & _); try done; try lia.
    { rewrite ws_ends; [done | done | by left]. }
    exists (n + 1)%nat, [x], k', f'. cbn [trees_of map concat]. unfold args_text. cbn [map join_args]. rewrite Htree, app_nil_r. repeat split; try done; try (lens; lia).
    + rewrite length_app. lia.
    + intros fuel. rewrite <- Nat.add_assoc, Hrun. cbn [Nat.add].
      rewrite (close_step last' k' f' (st ++ out) (level a.1) pend g (ft :: O) _ a.2 rest
        (Ctx last' k' f' (st ++ postfix x ++ [counted ft (st ++ postfix x)]) O false)); try done; try lia; try by apply closed_facts.
      * unfold set_last. cbn. f_equal. lens; lia.
      * apply text_tail; [done |]. by rewrite Ht'.
      * rewrite Hft. known_types. rewrite append_function by done. cbn [mbind P_bind mret P_ret set_ops]. rewrite <- !(app_assoc st), Hpost. done.
    + cbn [length]. lens; lia.
  - rewrite join_cons in *.
    assert (Hlens : zlen (print a.1 ++ a.2 ++ COMMA :: args_text (b :: args)) = zlen (print a.1) + zlen a.2 + 1 + zlen (args_text (b :: args))) by (lens; lia).
    rewrite Hlens in Hlen. pose proof (zlen_nonneg (args_text (b :: args))) as Hal.
    assert (Ht' : text pos = print a.1 ++ a.2 ++ COMMA :: args_text (b :: args) ++ RPAR :: rest) by (rewrite Ht, <- !app_assoc; done).
    pose proof (text_tail expression pos (print a.1) _ Hpos Ht') as Ht1.
    pose proof (text_tail expression (pos + zlen (print a.1)) a.2 _ ltac:(lia) Ht1) as Ht2.
    pose proof (text_tail1 expression (pos + zlen (print a.1) + zlen a.2) COMMA _ ltac:(lia) Ht2) as Ht3.
    destruct (Ha true true last k f st (g :: ft :: O) pos (a.2 ++ COMMA :: args_text (b :: args) ++ RPAR :: rest))
      as (n & out & pend & last' & x & k' & f' & Htree & Hn & Hrun & Hcl & _ & Hpend & Hpost & Hcount & Hk' & Hf' & (l0 & t0 & Hl0 & Hq0)); try done; try lia.
    { rewrite ws_ends; [done | done | by left]. }
    destruct (IH ltac:(done) TOKEN_COMMA k' f' (st ++ postfix x) g ft O (pos + zlen (print a.1) + zlen a.2 + 1) rest)
      as (n2 & xs & k2 & f2 & Htree2 & Hn2 & Hrun2 & Hcount2 & Hcnt2 & Hk2 & Hf2); try done; try lia; try by right.
    { unfold quiet. cbn [stack]. rewrite Hl0, app_assoc, last_snoc, Hq0. by rewrite orb_true_r. }
    exists (n + S n2)%nat, (x :: xs), k2, f2. cbn [trees_of map concat] in *. rewrite Htree. rewrite Htree2, join_cons, Hlens. repeat split; try done; try lia.
    + rewrite !length_app. cbn [length]. lia.
    + intros fuel. replace (n + S n2 + fuel)%nat with (n + S (n2 + fuel))%nat by lia. rewrite Hrun.
      rewrite (loop_step _ (pos + zlen (print a.1)) a.2 (COMMA :: args_text (b :: args) ++ RPAR :: rest) (Ctx last' k' f' (st ++ out) (pend ++ g :: ft :: O) false)
        (EToken TOKEN_COMMA 0 (pos + zlen (print a.1) + zlen a.2) (pos + zlen (print a.1) + zlen a.2) VNone)
        (Ctx TOKEN_COMMA k' f' ((st ++ out) ++ pend) (g :: ft :: O) false)); try done; try lia.
      * cbn [et_r]. rewrite <- (app_assoc st out), Hpost, Hrun2, <- !app_assoc. f_equal. lia.
      * apply (comma_token expression rules Hrules _ _ _ _ Ht2).
      * apply (comma_turn k' f' _ _ _ (level a.1)); try done. lia.
    + rewrite count_params_app, Hcount, Hcount2. cbn [length]. lia.
    + cbn [length] in *. lia.
Qed.

(** No arguments. *)
Lemma no_args_parse last k f st g ft O pos rest : last = GROUP_OPEN -> 0 <= pos <= 0x7fffffff -> text pos = RPAR :: rest -> is_group_open g = true ->
  et_type ft = TOKEN_FUNCTION -> 0 <= k <= pos -> 0 <= f <= pos -> reads_args [] last k f st g ft O pos.
Proof.
  intros -> Hpos Ht Hg Hft Hk Hf. exists 1%nat, [], k, f. cbn [trees_of]. change (args_text []) with (@nil Z). change (zlen (@nil Z)) with 0.
  repeat split; try done; try lia. intros fuel. cbn [Nat.add].
  rewrite (close_step GROUP_OPEN k f st 0 [] g (ft :: O) pos [] rest (Ctx GROUP_OPEN k f (st ++ [counted ft (st ++ [])]) O false)); try done; try (change (zlen (@nil Z)) with 0; lia).
  rewrite Hft. known_types. rewrite append_function by done. cbn [mbind P_bind mret P_ret set_ops]. by rewrite app_nil_r.
Qed.

Lemma i32_small_nat n : 0 <= n <= 0x7fffffff -> i32 n = n.
Proof. intros. apply i32_small. lia. Qed.

Lemma ECall_parses ws name args : Forall (fun a => parses a.1) args -> parses (ECall ws name args).
Proof.
  intros IH start infun last k f st O pos rest Hok Hpos Hlen Ht Hends Hb Hst Hq Hf Hk Hfi Hroom. cbn [ok] in Hok. split_ok. cbn [print] in *.
  change (join_args (map (fun a => print a.1 ++ a.2) args)) with (args_text args) in *.
  match goal with H : name_ok name = true |- _ => pose proof (name_facts name H) as (Hnne & _) end. pose proof (zlen_pos name Hnne) as Hnl.
  pose proof (zlen_nonneg ws) as Hwl. pose proof (zlen_nonneg (args_text args)) as Hal.
  assert (Hlens : zlen (ws ++ name ++ LPAR :: args_text args ++ [RPAR]) = zlen ws + zlen name + 1 + zlen (args_text args) + 1) by (lens; lia). rewrite Hlens in Hlen.
  assert (Ht' : text pos = ws ++ name ++ LPAR :: args_text args ++ RPAR :: rest).
  { rewrite Ht, <- !app_assoc. cbn [app]. by rewrite <- !app_assoc. }
  pose proof (text_tail expression pos ws _ Hpos Ht') as Ht1. set (p := pos + zlen ws) in *.
  pose proof (text_tail expression p name _ ltac:(lia) Ht1) as Ht2. pose proof (text_tail1 expression (p + zlen name) LPAR _ ltac:(lia) Ht2) as Ht3.
  set (ft := EToken TOKEN_FUNCTION (zlen st) p (p + zlen name - 1) VNone).
  assert (Hargs : reads_args args GROUP_OPEN k f st (open_at (p + zlen name)) ft O (p + zlen name + 1)).
  { destruct args as [| a args]; [apply (no_args_parse _ _ _ _ _ _ _ _ rest); try done; lia |].
    apply (args_parse (a :: args)) with rest; try done; try lia. by left. }
  destruct Hargs as (n & xs & k' & f' & Htree & Hn & Hrun & Hcount & Hcnt & Hk' & Hf').
  exists (S (S n)), (concat (map postfix xs) ++ [EToken TOKEN_FUNCTION (Z.of_nat (length args)) p (p + zlen name - 1) VNone]), [], GROUP_CLOSE,
    (Call (EToken TOKEN_FUNCTION (Z.of_nat (length args)) p (p + zlen name - 1) VNone) xs), k', f'.
  rewrite tree_of_call. fold p. cbn zeta. rewrite Htree. cbn [print]. change (join_args (map (fun a => print a.1 ++ a.2) args)) with (args_text args).
  rewrite Hlens. cbn [postfix]. repeat split; try done; try lia.
  - rewrite !length_app. cbn [length]. rewrite length_app. cbn [length]. unfold zlen in Hnl. lia.
  - intros fuel. cbn [Nat.add]. assert (Hname : exists ch0 tl, name = ch0 :: tl /\ isspace ch0 = false /\ ch0 <> 0).
    { match goal with H : name_ok name = true |- _ => pose proof (name_facts name H) as (_ & Ha & _) end.
      destruct name as [| ch0 tl]; [done |]. exists ch0, tl. split; [done |]. cbn in Ha. unfold isalpha, isupper, islower in Ha. unfold isspace. lia. }
    destruct Hname as (ch0 & tl & Hname & Hsp & Hnz).
    rewrite (loop_step _ pos ws (name ++ LPAR :: args_text args ++ RPAR :: rest) (Ctx last k f st O false) ft (Ctx TOKEN_FUNCTION k f st (ft :: O) false));
      try done; try (rewrite Hname; done).
    + replace (et_r ft + 1) with (p + zlen name) by (cbn [et_r ft]; lia).
      rewrite (loop_step _ (p + zlen name) [] (LPAR :: args_text args ++ RPAR :: rest) (Ctx TOKEN_FUNCTION k f st (ft :: O) false) (open_at (p + zlen name))
        (Ctx GROUP_OPEN k f st (open_at (p + zlen name) :: ft :: O) false)); try done; try lia.
      * cbn [et_r open_at]. rewrite Hrun. unfold counted. cbn [et_opt ft]. rewrite to_nat_zlen, drop_app_length, Hcount, u32_small by lia.
        unfold set_opt. cbn [et_type et_l et_r et_value ft app]. f_equal. lia.
      * change (zlen (@nil Z)) with 0. rewrite Z.add_0_r. apply (open_token expression rules Hrules _ _ _ _ Ht2).
      * apply open_turn; [done | lia].
    + apply (function_token expression rules Hrules (Ctx last k f st O false) (zlen ws) p name _ ltac:(lia) ltac:(done) Ht1).
    + apply function_turn; try done. cbn [et_r ft]. lia.
  - by rewrite app_nil_r.
  - rewrite count_params_app, Hcount, count_params_one. unfold param_count. cbn [et_type et_opt]. change (is_class CLASS_FUNCTION TOKEN_FUNCTION) with true. cbn iota.
    rewrite i32_small_nat by lia. lia.
  - by exists (concat (map postfix xs)), (EToken TOKEN_FUNCTION (Z.of_nat (length args)) p (p + zlen name - 1) VNone).
Qed.

Fixpoint expr_parses (e : expr) : parses e :=
  match e with
  | ENum ws n => ENum_parses ws n
  | EStr ws s => EStr_parses ws s
  | EFid ws ds => EFid_parses ws ds
  | EUn ws op e => EUn_parses ws op e (expr_parses e)
  | EBin l ws op r => EBin_parses l ws op r (expr_parses l) (expr_parses r)
  | EParen ws e ws2 => EParen_parses ws e ws2 (expr_parses e)
  | ECall ws name args => ECall_parses ws name args
      ((fix all l : Forall (fun a => parses a.1) l :=
        match l with [] => Forall_nil_2 _ | a :: l => Forall_cons_2 _ a l (expr_parses a.1) (all l) end) args)
  end.
End shunt.

(** ** Whole expressions *)

(** The white space behind the expression. *)
Lemma parse_loop_end expression rules c pos ws fuel : 0 <= pos -> text expression pos = ws -> all_space ws = true ->
  parse_loop expression rules (S fuel) c pos = mret c.
Proof.
  intros Hpos Ht Hws. cbn [parse_loop]. destruct ws as [| w ws].
  - unfold ch. rewrite Ht. done.
  - assert (Hw : (w =? 0) = false) by (apply Z.eqb_neq; intros ->; done).
    destruct (whitespace_at expression rules c pos (w :: ws) [] Hpos) as [-> Ht']; [by rewrite app_nil_r | done | done |].
    unfold ch at 1. rewrite Ht. cbn [deref]. rewrite Hw. unfold token_at, ch. rewrite Ht'. done.
Qed.

Definition tree_of_text (rules : Z) (e : expr) : tree := (tree_of (rule rules PARSE_CONST_INDEX) false 0 0 0 e).1.1.

Lemma written_parsed rules e ws : trigger_rules rules = true -> ok true e = true -> all_space ws = true -> zlen (print e) <= 0x80000000 ->
  zbx_eval_parse_expression (print e ++ ws) rules false = mret (postfix (tree_of_text rules e)).
Proof.
  intros Hrules Hok Hws Hlen. assert (Hends : ends ws = true) by (rewrite <- (app_nil_r ws); apply ws_ends; [done | by left]).
  destruct (expr_parses (print e ++ ws) rules Hrules e true false START_OF_TEXT 0 0 [] [] 0 ws)
    as (n & out & pend & last & x & k & f & Htree & Hn & Hrun & Hcl & _ & Hpend & Hpost & _ & _ & _ & (l0 & t0 & Hl0 & _)); try done; try lia.
  { by rewrite Hends. }
  unfold zbx_eval_parse_expression, tree_of_text. rewrite Htree. cbn [fst].
  assert (Hfuel : exists m, S (length (print e ++ ws)) = (n + S m)%nat) by (rewrite length_app; exists (length (print e) + length ws - n)%nat; lia).
  destruct Hfuel as [m ->]. rewrite Hrun, (parse_loop_end _ _ _ _ ws); [| pose proof (zlen_nonneg (print e)); lia | | done].
  - cbn [mbind P_bind mret P_ret]. unfold parse_end. cbn [last_token_type]. pose proof (closed_facts _ Hcl) as (Ho & _ & _ & Hcomma & _).
    assert (Hop : is_class CLASS_OPERATOR last = false) by (by destruct last). rewrite Hop, Hcomma. cbn [ops].
    rewrite (pop_all rules Hrules is_group_open pend []); [| intros t Ht; by apply (pending_pops (level e) pend) | done].
    cbn [mbind P_bind mret P_ret set_ops set_stack stack ops app]. rewrite Hpost. rewrite bool_decide_eq_true_2 by done. cbn [negb].
    rewrite (rule_property rules Hrules). rewrite Hl0. destruct l0 as [| a [| b l0]]; done.
  - unfold text. replace (Z.to_nat (0 + zlen (print e))) with (length (print e)) by (unfold zlen; lia). apply drop_app_length.
Qed.

(** ** The tree is well formed *)

Lemma constant_wf indexed infun type p len k f : is_operand type = true -> well_formed (constant indexed infun type p len k f).1.1 = true.
Proof. intros Ht. unfold constant. by destruct (indexed && negb infun). Qed.

Definition wf_of (e : expr) : Prop := forall start indexed infun pos k f, ok start e = true -> well_formed (tree_of indexed infun pos k f e).1.1 = true.

Lemma trees_wf args : Forall (fun a => wf_of a.1) args -> forall indexed pos k f, forallb arg_ok args = true ->
  forallb well_formed (trees_of indexed pos k f args).1.1 = true /\ length (trees_of indexed pos k f args).1.1 = length args.
Proof.
  induction 1 as [| a args Ha _ IH]; intros indexed pos k f Hok; [done |]. cbn [forallb] in Hok. unfold arg_ok at 1 in Hok.
  apply andb_true_iff in Hok as [[Hok _]%andb_true_iff Hrest]. cbn [trees_of]. specialize (Ha true indexed true pos k f Hok).
  destruct (tree_of indexed true pos k f a.1) as [[x k1] f1]. cbn [fst] in Ha.
  specialize (IH indexed (pos + zlen (print a.1) + zlen a.2 + 1) k1 f1 Hrest).
  destruct (trees_of indexed (pos + zlen (print a.1) + zlen a.2 + 1) k1 f1 args) as [[xs k2] f2]. cbn in *. rewrite Ha. destruct IH as [-> ->]. done.
Qed.

Lemma ECall_wf ws name args : Forall (fun a => wf_of a.1) args -> wf_of (ECall ws name args).
Proof.
  intros IH start indexed infun pos k f Hok. cbn [ok] in Hok. apply andb_true_iff in Hok as [_ Hargs].
  rewrite tree_of_call. cbn zeta.
  destruct (trees_wf args IH indexed (pos + zlen ws + zlen name + 1) k f Hargs) as [Hw Hl].
  destruct (trees_of indexed (pos + zlen ws + zlen name + 1) k f args) as [[xs k1] f1]. cbn in *. by rewrite Hl, Z.eqb_refl, Hw.
Qed.

Lemma EUn_wf ws op e : wf_of e -> wf_of (EUn ws op e).
Proof.
  intros IH start indexed infun pos k f Hok. cbn [ok tree_of] in *. repeat apply andb_true_iff in Hok as [Hok ?].
  specialize (IH false indexed infun (pos + zlen ws + zlen (op_text op)) k f ltac:(done)).
  destruct (tree_of indexed infun (pos + zlen ws + zlen (op_text op)) k f e) as [[x k1] f1]. cbn [fst well_formed et_type op_token] in *. by rewrite IH, andb_true_r.
Qed.

Lemma EBin_wf l ws op r : wf_of l -> wf_of r -> wf_of (EBin l ws op r).
Proof.
  intros IHl IHr start indexed infun pos k f Hok. cbn [ok tree_of] in *. repeat apply andb_true_iff in Hok as [Hok ?].
  specialize (IHl start indexed infun pos k f ltac:(done)). destruct (tree_of indexed infun pos k f l) as [[x k1] f1].
  specialize (IHr false indexed infun (pos + zlen (print l) + zlen ws + zlen (op_text op)) k1 f1 ltac:(done)).
  destruct (tree_of indexed infun (pos + zlen (print l) + zlen ws + zlen (op_text op)) k1 f1 r) as [[y k2] f2]. cbn [fst well_formed et_type op_token] in *.
  by rewrite IHl, IHr, !andb_true_r.
Qed.

Lemma EParen_wf ws e ws2 : wf_of e -> wf_of (EParen ws e ws2).
Proof. intros IH start indexed infun pos k f Hok. cbn [ok tree_of] in *. repeat apply andb_true_iff in Hok as [Hok ?]. by apply (IH true). Qed.

Fixpoint tree_wf (e : expr) : wf_of e :=
  match e with
  | ENum ws n => fun _ indexed infun pos k f _ => constant_wf indexed infun VAR_NUM (pos + zlen ws) (zlen (number_text n)) k f eq_refl
  | EStr ws s => fun _ indexed infun pos k f _ => constant_wf indexed infun VAR_STR (pos + zlen ws) (zlen (escaped s) + 2) k f eq_refl
  | EFid ws ds => fun _ _ _ _ _ _ _ => eq_refl
  | EUn ws op e => EUn_wf ws op e (tree_wf e)
  | EBin l ws op r => EBin_wf l ws op r (tree_wf l) (tree_wf r)
  | EParen ws e ws2 => EParen_wf ws e ws2 (tree_wf e)
  | ECall ws name args => ECall_wf ws name args
      ((fix all l : Forall (fun a => wf_of a.1) l := match l with [] => Forall_nil_2 _ | a :: l => Forall_cons_2 _ a l (tree_wf a.1) (all l) end) args)
  end.

(** C7: A written expression is parsed to what it stands for.  Take an
    expression of numbers with units, quoted texts, function ids, unary and
    binary operators, parentheses and function calls, written with any white
    space in front of its tokens, the operands of an operator of a lower level
    and binary operators from the left.  With rules that allow these tokens the
    parser returns, for a text of up to 2^31 characters and white space behind
    it, the postfix code of the tree of the expression, with the places of the
    tokens, the numbers of constants and function ids and the counts of
    arguments; the tree is well formed. *)
Theorem written_expression_parsed rules e ws :
  trigger_rules rules = true -> ok true e = true -> all_space ws = true -> zlen (print e) <= 0x80000000 ->
  zbx_eval_parse_expression (print e ++ ws) rules false = mret (postfix (tree_of_text rules e)) /\ well_formed (tree_of_text rules e) = true.
Proof. intros Hrules Hok Hws Hlen. split; [by apply written_parsed | by apply (tree_wf e true)]. Qed.

(** The text [max( 1,{7}) - -2K * 3 > 0]. *)
Definition sample_written : expr :=
  let num ws neg ds u := ENum ws (Number neg ds None u) in
  EBin (EBin (ECall [] [109; 97; 120] [(num [32] false [49] None, []); (EFid [] [55], [])]) [32] OP_SUB
     (EBin (num [32] true [50] (Some 75)) [32] OP_MUL (num [32] false [51] None))) [32] OP_GT (num [32] false [48] None).

Lemma written_expression_witness :
  zbx_eval_parse_expression (print sample_written ++ [32]) ZBX_EVAL_TRIGGER_EXPRESSION false = mret (postfix (tree_of_text ZBX_EVAL_TRIGGER_EXPRESSION sample_written)) /\
  map et_type (postfix (tree_of_text ZBX_EVAL_TRIGGER_EXPRESSION sample_written)) =
    [VAR_NUM; TOKEN_FUNCTIONID; TOKEN_FUNCTION; VAR_NUM; VAR_NUM; OP_MUL; OP_SUB; VAR_NUM; OP_GT].
Proof.
  destruct (written_expression_parsed ZBX_EVAL_TRIGGER_EXPRESSION sample_written [32]) as [Hp _].
  - reflexivity.
  - vm_compute. reflexivity.
  - reflexivity.
  - vm_compute. discriminate.
  - split; [exact Hp |]. vm_compute. reflexivity.
Defined.
