(* ===== verification/EvalSerial.v ===== *)
(** * Serialisation of parsed expressions

    (src/libs/zbxserialize/serialize.c, src/libs/zbxeval/misc.c)

    Parsed expressions are kept in the configuration cache as bytes: numbers of
    31 bits in a form like UTF-8, the types of tokens and the values as they are
    in memory.  The buffer that is written to grows; a write behind its end is
    [Halt BadAccess]. *)
From stdpp Require Import prelude list.
From Stdlib Require Import ZArith Lia SpecFloat.
From S2P Require Import Prelude JsonText Num Scan Double Variant Utf8 EvalParse EvalFunc EvalExec.
#[local] Open Scope Z_scope.

(** ** Numbers *)

(** The loop from the last byte of [buf] to the first one. *)
Fixpoint compact_loop (fuel : nat) (value pos : Z) (acc : list Z) : res (list Z) :=
  match fuel with
  | O => Halt OutOfFuel
  | S fuel =>
      if pos <? 0 then Halt BadAccess
      else if Z.shiftr 0x7f (6 - pos) <? value then compact_loop fuel (Z.shiftr value 6) (pos - 1) (Z.lor 0x80 (Z.land value 0x3f) :: acc)
      else Ret (u8 (Z.lor value (Z.shiftl 0xfe (pos + 1))) :: acc)
  end.

Definition zbx_serialize_uint31_compact (value : Z) : res (list Z) := if value <=? 0x7f then Ret [value] else compact_loop 8 value 5 [].

(** [while (0 != ( *ptr & (0x80 >> pos))) pos++;] ends when the mask is 0. *)
Fixpoint compact_len (fuel : nat) (b pos : Z) : Z :=
  match fuel with
  | O => pos
  | S fuel => if Z.land b (Z.shiftr 0x80 pos) =? 0 then pos else compact_len fuel b (pos + 1)
  end.

Fixpoint compact_rest (n : nat) (value : Z) (ptr : list Z) : res (Z * list Z) :=
  match n with
  | O => Ret (value, ptr)
  | S n =>
      match ptr with
      | [] => Halt BadAccess
      | b :: ptr => compact_rest n (Z.lor (u32 (Z.shiftl value 6)) (Z.land b 0x3f)) ptr
      end
  end.

(** The value and what is behind it. *)
Definition zbx_deserialize_uint31_compact (ptr : list Z) : res (Z * list Z) :=
  match ptr with
  | [] => Halt BadAccess
  | b :: ptr =>
      if Z.land b 0x80 =? 0 then Ret (b, ptr)
      else let pos := compact_len 8 b 2 in compact_rest (Z.to_nat (pos - 1)) (Z.land b (Z.shiftr 0xff (pos + 1))) ptr
  end.

(** [memcpy] of a number of [n] bytes. *)
Fixpoint le_bytes (n : nat) (x : Z) : list Z :=
  match n with
  | O => []
  | S n => x mod 256 :: le_bytes n (x / 256)
  end.

Fixpoint of_le (l : list Z) : Z :=
  match l with
  | [] => 0
  | b :: l => b + 256 * of_le l
  end.

Definition read_le (n : nat) (ptr : list Z) : res (Z * list Z) :=
  if (length ptr <? n)%nat then Halt BadAccess else Ret (of_le (take n ptr), drop n ptr).

(** The bits of a floating point number. *)
Definition dbl_bits (x : double) : Z :=
  let sign (s : bool) := if s then 2 ^ 63 else 0 in
  match x with
  | S754_zero s => sign s
  | S754_infinity s => sign s + 2047 * 2 ^ 52
  | S754_nan => 2047 * 2 ^ 52 + 2 ^ 51
  | S754_finite s m e => sign s + (if Zpos m <? 2 ^ 52 then Zpos m else (e + 1075) * 2 ^ 52 + (Zpos m - 2 ^ 52))
  end.

Definition bits_dbl (n : Z) : double :=
  let s := 2 ^ 63 <=? n in
  let n := n mod 2 ^ 63 in
  let e := n / 2 ^ 52 in
  let m := n mod 2 ^ 52 in
  if e =? 2047 then if m =? 0 then S754_infinity s else S754_nan
  else if e =? 0 then match m with Zpos p => S754_finite s p (-1074) | _ => S754_zero s end
  else match m + 2 ^ 52 with Zpos p => S754_finite s p (e - 1075) | _ => S754_nan end.

(** ** The buffer *)

Abbreviation ZBX_EVAL_STATIC_BUFFER_SIZE := 4096.

(** It grows by a half, once. *)
Definition reserve_buffer (buffer_size offset reserve : Z) : Z :=
  if offset + reserve <=? buffer_size then buffer_size else buffer_size * 3 / 2.

Definition write (buffer_size : Z) (buffer bytes : list Z) : res (list Z) :=
  if zlen buffer + zlen bytes <=? buffer_size then Ret (buffer ++ bytes) else Halt BadAccess.

Definition variant_code (v : zbx_variant_t) : Z :=
  match v with VNone => 0 | VStr _ => 1 | VDbl _ => 2 | VUi64 _ => 3 | VBin _ => 4 | VDblVector _ => 5 | VErr _ => 6 end.

(** The bytes behind the type; a value that is not serialised has the type NONE. *)
Definition variant_bytes (value : zbx_variant_t) : list Z :=
  match value with
  | VUi64 n => le_bytes 8 n
  | VDbl d => le_bytes 8 (dbl_bits d)
  | VStr s => s ++ [0]
  | _ => []
  end.

Definition stored_code (value : zbx_variant_t) : Z := match value with VUi64 _ | VDbl _ | VStr _ => variant_code value | _ => 0 end.

Definition serialize_variant (size : Z) (buffer : list Z) (value : zbx_variant_t) : res (Z * list Z) :=
  let size := reserve_buffer size (zlen buffer) 1 in
  buffer ← write size buffer [stored_code value];
  match value with
  | VUi64 _ | VDbl _ | VStr _ =>
      let size := reserve_buffer size (zlen buffer) (zlen (variant_bytes value)) in
      buffer ← write size buffer (variant_bytes value);
      Ret (size, buffer)
  | _ => Ret (size, buffer)
  end.

(** [strlen]: the text and what is behind its NUL. *)
Fixpoint read_str (ptr : list Z) : res (list Z * list Z) :=
  match ptr with
  | [] => Halt BadAccess
  | c :: ptr => if c =? 0 then Ret ([], ptr) else '(s, rest) ← read_str ptr; Ret (c :: s, rest)
  end.

Definition deserialize_variant (ptr : list Z) : res (zbx_variant_t * list Z) :=
  match ptr with
  | [] => Halt BadAccess
  | type :: ptr =>
      if type =? 3 then '(n, ptr) ← read_le 8 ptr; Ret (VUi64 n, ptr)
      else if type =? 2 then '(n, ptr) ← read_le 8 ptr; Ret (VDbl (bits_dbl n), ptr)
      else if type =? 1 then '(s, ptr) ← read_str ptr; Ret (VStr s, ptr)
      else Ret (VNone, ptr)
  end.

(** ** Expressions *)

Definition write_compact (size : Z) (buffer : list Z) (value : Z) : res (list Z) := bytes ← zbx_serialize_uint31_compact value; write size buffer bytes.

Definition serialize_token (size : Z) (buffer : list Z) (token : zbx_eval_token_t) : res (Z * list Z) :=
  let size := reserve_buffer size (zlen buffer) 23 in
  buffer ← write size buffer (le_bytes 4 (type_code (et_type token)));
  buffer ← write_compact size buffer (et_opt token);
  buffer ← write_compact size buffer (et_l token);
  buffer ← write_compact size buffer (et_r token);
  serialize_variant size buffer (et_value token).

Fixpoint serialize_loop (size : Z) (buffer : list Z) (tokens : list zbx_eval_token_t) : res (list Z) :=
  match tokens with
  | [] => Ret buffer
  | t :: tokens => '(size, buffer) ← serialize_token size buffer t; serialize_loop size buffer tokens
  end.

Definition zbx_eval_serialize (tokens : list zbx_eval_token_t) : res (list Z) :=
  buffer ← write_compact ZBX_EVAL_STATIC_BUFFER_SIZE [] (zlen tokens);
  buffer ← serialize_loop ZBX_EVAL_STATIC_BUFFER_SIZE buffer tokens;
  len_buff ← zbx_serialize_uint31_compact (u32 (zlen buffer));
  Ret (len_buff ++ buffer).

Definition all_types : list zbx_token_type_t :=
  [TOKEN_NOP; OP_ADD; OP_SUB; OP_MUL; OP_DIV; OP_MINUS; OP_EQ; OP_LT; OP_GT; OP_LE; OP_GE; OP_NE; OP_AND; OP_OR; OP_NOT; VAR_NUM; VAR_STR; VAR_MACRO;
   VAR_USERMACRO; VAR_LLDMACRO; TOKEN_FUNCTIONID; TOKEN_FUNCTION; HIST_FUNCTION; GROUP_OPEN; GROUP_CLOSE; TOKEN_COMMA; ARG_QUERY; ARG_PERIOD; ARG_NULL;
   PROP_TAG; PROP_GROUP; TOKEN_EXCEPTION; START_OF_TEXT].

(** The type of a code; other codes are not written. *)
Definition type_of_code (n : Z) : res zbx_token_type_t := of_opt Undefined (snd <$> list_find (fun t => type_code t = n) all_types).

Definition deserialize_token (data : list Z) : res (zbx_eval_token_t * list Z) :=
  '(code, data) ← read_le 4 data;
  type ← type_of_code code;
  '(opt, data) ← zbx_deserialize_uint31_compact data;
  '(l, data) ← zbx_deserialize_uint31_compact data;
  '(r, data) ← zbx_deserialize_uint31_compact data;
  '(value, data) ← deserialize_variant data;
  Ret (EToken type opt l r value, data).

Fixpoint deserialize_loop (n : nat) (data : list Z) : res (list zbx_eval_token_t) :=
  match n with
  | O => Ret []
  | S n => '(t, data) ← deserialize_token data; l ← deserialize_loop n data; Ret (t :: l)
  end.

Definition zbx_eval_deserialize (data : list Z) : res (list zbx_eval_token_t) :=
  '(_, data) ← zbx_deserialize_uint31_compact data;
  '(tokens_num, data) ← zbx_deserialize_uint31_compact data;
  deserialize_loop (Z.to_nat tokens_num) data.

(** ** Round trips *)

Definition byte (b : Z) : Prop := 0 <= b < 256.

Lemma compact_step fuel v pos acc : 0 <= pos -> Z.shiftr 0x7f (6 - pos) < v ->
  compact_loop (S fuel) v pos acc = compact_loop fuel (v / 64) (pos - 1) (128 + v mod 64 :: acc).
Proof.
  intros Hp Hv. cbn [compact_loop]. rewrite (proj2 (Z.ltb_ge _ _) Hp), (proj2 (Z.ltb_lt _ _) Hv), cont_byte, Z.shiftr_div_pow2 by lia. done.
Qed.

(** The first byte of a number of [6 - pos] bytes, checked for each value. *)
Definition head_byte (pos v : Z) : Z := u8 (Z.lor v (Z.shiftl 0xfe (pos + 1))).
Definition head_ok (pos v : Z) : bool :=
  let b := head_byte pos v in
  negb (Z.land b 0x80 =? 0) && (compact_len 8 b 2 =? 6 - pos) && (Z.land b (Z.shiftr 0xff (6 - pos + 1)) =? v) && (0 <=? b) && (b <? 256).

Lemma heads_ok : forallb (fun pos => forallb (head_ok pos) (seqZ 0 (Z.shiftr 0x7f (6 - pos) + 1))) [0; 1; 2; 3; 4] = true.
Proof. vm_compute. reflexivity. Qed.

Lemma head_facts pos v : 0 <= pos <= 4 -> 0 <= v <= Z.shiftr 0x7f (6 - pos) ->
  (Z.land (head_byte pos v) 0x80 =? 0) = false /\ compact_len 8 (head_byte pos v) 2 = 6 - pos /\
  Z.land (head_byte pos v) (Z.shiftr 0xff (6 - pos + 1)) = v /\ byte (head_byte pos v).
Proof.
  intros Hp Hv. pose proof heads_ok as H. rewrite forallb_forall in H. specialize (H pos). rewrite forallb_forall in H.
  assert (Hin : In pos [0; 1; 2; 3; 4]) by (assert (pos = 0 \/ pos = 1 \/ pos = 2 \/ pos = 3 \/ pos = 4) as Hcs by lia; cbn; lia).
  specialize (H Hin v). unfold head_ok in H. cbv zeta in H.
  assert (Hv' : In v (seqZ 0 (Z.shiftr 0x7f (6 - pos) + 1))) by (apply list_elem_of_In, elem_of_seqZ; lia). specialize (H Hv').
  repeat apply andb_true_iff in H as [H ?]. apply negb_true_iff in H. unfold byte. repeat split; try done; lia.
Qed.

Lemma rest_step n value x ptr : 0 <= value < 2 ^ 25 + 1 ->
  compact_rest (S n) value (128 + x mod 64 :: ptr) = compact_rest n (value * 64 + x mod 64) ptr.
Proof.
  intros Hv. cbn [compact_rest]. assert (Hb : 0 <= x mod 64 < 64) by (apply Z.mod_pos_bound; lia). f_equal.
  rewrite Z.shiftl_mul_pow2 by lia. rewrite u32_small by lia. change 0x3f with (Z.ones 6). rewrite Z.land_ones by lia.
  replace ((128 + x mod 64) mod 2 ^ 6) with (x mod 64) by (rewrite <- (Z.mod_small (x mod 64) 64) at 1 by lia; rewrite Z.add_mod by lia;
    change (128 mod 2 ^ 6) with 0; rewrite Z.add_0_l; by rewrite !Z.mod_mod).
  rewrite Z.lor_comm. rewrite (lor_add 6); [lia | lia | lia | by exists value].
Qed.

Definition compact_ok (v : Z) (bytes : list Z) : Prop :=
  zbx_serialize_uint31_compact v = Ret bytes /\ 1 <= zlen bytes <= 6 /\ Forall byte bytes /\
  forall rest, zbx_deserialize_uint31_compact (bytes ++ rest) = Ret (v, rest).

Lemma compact_stop fuel v pos acc : 0 <= pos -> v <= Z.shiftr 0x7f (6 - pos) -> compact_loop (S fuel) v pos acc = Ret (head_byte pos v :: acc).
Proof. intros Hp Hv. cbn [compact_loop]. by rewrite (proj2 (Z.ltb_ge _ _) Hp), (proj2 (Z.ltb_ge _ _) Hv). Qed.

Lemma cont_is_byte x : byte (128 + x mod 64).
Proof. unfold byte. pose proof (Z.mod_pos_bound x 64). lia. Qed.

(** What is read back from the first byte and the bytes that follow it. *)
Lemma compact_head pos h tl : 0 <= pos <= 4 -> 0 <= h <= Z.shiftr 0x7f (6 - pos) ->
  zbx_deserialize_uint31_compact (head_byte pos h :: tl) = compact_rest (Z.to_nat (5 - pos)) h tl.
Proof.
  intros Hp Hh. destruct (head_facts pos h Hp Hh) as (H80 & Hlen & Hv & _). unfold zbx_deserialize_uint31_compact. rewrite H80, Hlen. cbv zeta.
  rewrite Hv. by replace (6 - pos - 1) with (5 - pos) by lia.
Qed.

Lemma low_head v : 0 <= v <= 127 -> (Z.land v 0x80 =? 0) = true.
Proof.
  intros Hv. assert (H : forallb (fun v => Z.land v 0x80 =? 0) (seqZ 0 128) = true) by (vm_compute; reflexivity).
  rewrite forallb_forall in H. apply H. apply list_elem_of_In, elem_of_seqZ. lia.
Qed.

(** The bytes from position [n] back to the first one; what is read back from
    them before the bytes behind. *)
Lemma compact_loop_ok n : (n <= 4)%nat -> forall v fuel acc, 0 <= v < 2 ^ (6 * Z.of_nat n + 1) ->
  exists bytes, compact_loop (S n + fuel) v (Z.of_nat n) acc = Ret (bytes ++ acc) /\ Forall byte bytes /\ 1 <= zlen bytes <= Z.of_nat n + 1 /\
    forall tl, zbx_deserialize_uint31_compact (bytes ++ tl) = compact_rest (5 - n) v tl.
Proof.
  induction n as [| n IH]; intros Hn v fuel acc Hv.
  - exists [head_byte 0 v]. cbn [Nat.add]. change (Z.shiftr 0x7f (6 - 0)) with 1 in *. change (2 ^ (6 * Z.of_nat 0 + 1)) with 2 in Hv.
    change (Z.of_nat 0) with 0. rewrite compact_stop by (change (Z.shiftr 0x7f (6 - 0)) with 1; lia).
    split; [done |]. split; [constructor; [apply head_facts; [lia | change (Z.shiftr 0x7f (6 - 0)) with 1; lia] | done] |]. split; [done |].
    intros tl. cbn [app]. rewrite compact_head by (change (Z.shiftr 0x7f (6 - 0)) with 1; lia). done.
  - destruct (Z.leb_spec v (Z.shiftr 0x7f (6 - Z.of_nat (S n)))) as [Hs | Hs].
    + exists [head_byte (Z.of_nat (S n)) v]. cbn [Nat.add]. rewrite compact_stop by lia. split; [done |].
      split; [constructor; [apply head_facts; lia | done] |]. split; [rewrite zlen_cons; change (zlen (@nil Z)) with 0; lia |]. intros tl. cbn [app]. rewrite compact_head by lia. f_equal. lia.
    + assert (Hdiv : 0 <= v / 64 < 2 ^ (6 * Z.of_nat n + 1)).
      { split; [apply Z.div_pos; lia |]. apply Z.div_lt_upper_bound; [lia |]. replace (6 * Z.of_nat (S n) + 1) with (6 + (6 * Z.of_nat n + 1)) in Hv by lia.
        rewrite Z.pow_add_r in Hv by lia. lia. }
      destruct (IH ltac:(lia) (v / 64) fuel (128 + v mod 64 :: acc) Hdiv) as (bytes & Hloop & Hb & Hlen & Hread).
      exists (bytes ++ [128 + v mod 64]). change (S (S n) + fuel)%nat with (S (S n + fuel)). rewrite compact_step by lia.
      replace (Z.of_nat (S n) - 1) with (Z.of_nat n) by lia. rewrite Hloop, <- app_assoc. split; [done |].
      split; [apply Forall_app; split; [done |]; constructor; [apply cont_is_byte | done] |]. split; [lens; lia |].
      intros tl. rewrite <- app_assoc. cbn [app]. rewrite Hread. replace (5 - n)%nat with (S (5 - S n)) by lia.
      assert (Hp : 2 ^ (6 * Z.of_nat n + 1) <= 2 ^ 25) by (apply Z.pow_le_mono_r; lia).
      rewrite rest_step by lia. f_equal. pose proof (Z.div_mod v 64). lia.
Qed.

Lemma compact_roundtrip v : 0 <= v < 2 ^ 31 -> exists bytes, compact_ok v bytes.
Proof.
  intros Hv. unfold compact_ok, zbx_serialize_uint31_compact. destruct (Z.leb_spec v 0x7f) as [Hs | Hs].
  { exists [v]. split; [done |]. split; [done |]. split; [constructor; [unfold byte; lia | done] |].
    intros rest. unfold zbx_deserialize_uint31_compact. cbn [app]. by rewrite low_head by lia. }
  assert (Hdiv : 0 <= v / 64 < 2 ^ 25) by (split; [apply Z.div_pos; lia | apply Z.div_lt_upper_bound; lia]).
  destruct (compact_loop_ok 4 ltac:(lia) (v / 64) 2 [128 + v mod 64] Hdiv) as (bytes & Hloop & Hb & Hlen & Hread).
  exists (bytes ++ [128 + v mod 64]). rewrite compact_step by (change (Z.shiftr 0x7f (6 - 5)) with 63; lia). split; [exact Hloop |].
  split; [lens; lia |]. split; [apply Forall_app; split; [done |]; constructor; [apply cont_is_byte | done] |].
  intros rest. rewrite <- app_assoc. cbn [app]. rewrite Hread. change (5 - 4)%nat with 1%nat. rewrite rest_step by lia. cbn [compact_rest].
  do 2 f_equal. pose proof (Z.div_mod v 64). lia.
Qed.

Lemma le_bytes_len n x : length (le_bytes n x) = n.
Proof. revert x. induction n as [| n IH]; intros x; cbn; [done |]. by rewrite IH. Qed.

Lemma le_bytes_byte n x : Forall byte (le_bytes n x).
Proof. revert x. induction n as [| n IH]; intros x; cbn [le_bytes]; constructor; [| done]. unfold byte. apply Z.mod_pos_bound. lia. Qed.

Lemma of_le_bytes n x : 0 <= x < 256 ^ Z.of_nat n -> of_le (le_bytes n x) = x.
Proof.
  revert x. induction n as [| n IH]; intros x Hx; cbn [le_bytes of_le].
  - change (256 ^ Z.of_nat 0) with 1 in Hx. lia.
  - rewrite Nat2Z.inj_succ, Z.pow_succ_r in Hx by lia. rewrite IH; [pose proof (Z.div_mod x 256); lia |].
    split; [apply Z.div_pos; lia | apply Z.div_lt_upper_bound; lia].
Qed.

Lemma read_le_bytes n x rest : 0 <= x < 256 ^ Z.of_nat n -> read_le n (le_bytes n x ++ rest) = Ret (x, rest).
Proof.
  intros Hx. unfold read_le. rewrite length_app, le_bytes_len, (proj2 (Nat.ltb_ge _ _)) by lia.
  pose proof (le_bytes_len n x) as Hl. rewrite <- Hl at 1. rewrite take_app_length, of_le_bytes by done. rewrite <- Hl at 1. by rewrite drop_app_length.
Qed.

Lemma read_str_app s rest : Forall (fun c => c <> 0) s -> read_str (s ++ 0 :: rest) = Ret (s, rest).
Proof. induction 1 as [| c s Hc _ IH]; [done |]. cbn [app read_str]. rewrite (proj2 (Z.eqb_neq _ _) Hc), IH. done. Qed.

(** The numbers of the format. *)
Definition dbl_ok (d : double) : Prop :=
  match d with
  | S754_finite _ m e => Zpos m < 2 ^ 53 /\ (Zpos m < 2 ^ 52 -> e = -1074) /\ -1074 <= e <= 971
  | _ => True
  end.

Lemma sign_split (s : bool) n : 0 <= n < 2 ^ 63 ->
  (2 ^ 63 <=? (if s then 2 ^ 63 else 0) + n) = s /\ ((if s then 2 ^ 63 else 0) + n) mod 2 ^ 63 = n.
Proof.
  intros Hn. destruct s.
  - split; [apply Z.leb_le; lia |]. rewrite <- (Z.mod_unique (2 ^ 63 + n) (2 ^ 63) 1 n); lia.
  - split; [apply Z.leb_gt; lia |]. rewrite Z.add_0_l. by apply Z.mod_small.
Qed.

Lemma field_split e m : 0 <= m < 2 ^ 52 -> (e * 2 ^ 52 + m) / 2 ^ 52 = e /\ (e * 2 ^ 52 + m) mod 2 ^ 52 = m.
Proof.
  intros Hm. split.
  - rewrite Z.add_comm, Z.div_add, Z.div_small by lia. lia.
  - rewrite Z.add_comm, Z.mod_add by lia. by apply Z.mod_small.
Qed.

Lemma dbl_bits_ok d : dbl_ok d -> 0 <= dbl_bits d < 2 ^ 64 /\ bits_dbl (dbl_bits d) = d.
Proof.
  intros Hd. destruct d as [s | s | | s m e]; [by destruct s | by destruct s | done |]. cbn [dbl_ok] in Hd. destruct Hd as (Hm & Hsub & He).
  unfold dbl_bits, bits_dbl. destruct (Z.ltb_spec (Zpos m) (2 ^ 52)) as [Hlt | Hge].
  - split; [destruct s; lia |]. destruct (sign_split s (Zpos m)) as [-> ->]; [lia |]. destruct (field_split 0 (Zpos m)) as [Hq Hr]; [lia |].
    rewrite Z.add_0_l in Hq, Hr. rewrite Hq, Hr. cbn. by rewrite Hsub by lia.
  - set (n := (e + 1075) * 2 ^ 52 + (Zpos m - 2 ^ 52)). assert (Hn : 0 <= n < 2 ^ 63) by (unfold n; lia). split; [destruct s; lia |].
    destruct (sign_split s n Hn) as [-> ->]. destruct (field_split (e + 1075) (Zpos m - 2 ^ 52)) as [Hq Hr]; [lia |]. fold n in Hq, Hr. rewrite Hq, Hr.
    rewrite (proj2 (Z.eqb_neq _ _)) by lia. rewrite (proj2 (Z.eqb_neq _ _)) by lia. replace (Zpos m - 2 ^ 52 + 2 ^ 52) with (Zpos m) by lia.
    f_equal. lia.
Qed.

(** ** Tokens *)

Definition storable (v : zbx_variant_t) : Prop :=
  match v with
  | VNone => True
  | VUi64 n => 0 <= n < 2 ^ 64
  | VDbl d => dbl_ok d
  | VStr s => Forall (fun c => byte c /\ c <> 0) s /\ zlen s < 2048
  | _ => False
  end.

Definition token_ok (t : zbx_eval_token_t) : Prop :=
  0 <= et_opt t < 2 ^ 31 /\ 0 <= et_l t < 2 ^ 31 /\ 0 <= et_r t < 2 ^ 31 /\ storable (et_value t).

Lemma reserve_grows size off n : 4096 <= size -> off <= size -> n <= 2048 -> size <= reserve_buffer size off n /\ off + n <= reserve_buffer size off n.
Proof.
  intros Hs Ho Hn. unfold reserve_buffer. destruct (Z.leb_spec (off + n) size); [lia |].
  assert (Hh : size + 2048 <= size * 3 / 2) by (apply Z.div_le_lower_bound; lia). lia.
Qed.

Lemma write_ok size buffer bytes : zlen buffer + zlen bytes <= size -> write size buffer bytes = Ret (buffer ++ bytes).
Proof. intros H. unfold write. by rewrite (proj2 (Z.leb_le _ _) H). Qed.

(** The type and the bytes of a value are read back. *)
Lemma variant_read v rest : storable v ->
  deserialize_variant (stored_code v :: variant_bytes v ++ rest) = Ret (v, rest) /\ Forall byte (stored_code v :: variant_bytes v) /\ zlen (variant_bytes v) <= 2048.
Proof.
  destruct v as [| s | d | n | | |]; cbn [storable stored_code variant_code variant_bytes]; intros Hv; try done; unfold deserialize_variant.
  - split; [done |]. split; [by repeat constructor | done].
  - destruct Hv as [Hs Hl]. cbn. rewrite <- app_assoc. cbn [app]. rewrite read_str_app by (apply (Forall_impl _ _ _ Hs); tauto).
    split; [done |]. split; [| lens; lia]. constructor; [done |]. apply Forall_app. split; [apply (Forall_impl _ _ _ Hs); tauto | by repeat constructor].
  - destruct (dbl_bits_ok d Hv) as [Hb Hd]. cbn -[read_le le_bytes bits_dbl dbl_bits]. rewrite read_le_bytes by done. cbn [mbind res_mbind]. rewrite Hd. split; [done |].
    split; [constructor; [done | apply le_bytes_byte] |]. unfold zlen. rewrite le_bytes_len. lia.
  - cbn -[read_le le_bytes]. rewrite read_le_bytes by done. split; [done |]. split; [constructor; [done | apply le_bytes_byte] |]. unfold zlen. rewrite le_bytes_len. lia.
Qed.

Lemma serialize_variant_ok size buffer v : 4096 <= size -> zlen buffer <= size -> storable v ->
  exists size', serialize_variant size buffer v = Ret (size', buffer ++ stored_code v :: variant_bytes v) /\ size <= size' /\
    zlen (buffer ++ stored_code v :: variant_bytes v) <= size'.
Proof.
  intros Hs Hb Hv. destruct (variant_read v [] Hv) as (_ & _ & Hl). destruct (reserve_grows size (zlen buffer) 1) as [H1 H2]; [lia | lia | lia |].
  unfold serialize_variant. set (size1 := reserve_buffer size (zlen buffer) 1) in *.
  assert (Hb1 : zlen (buffer ++ [stored_code v]) = zlen buffer + 1) by (lens; lia).
  rewrite write_ok by (lens; lia). cbn [mbind res_mbind]. destruct (reserve_grows size1 (zlen (buffer ++ [stored_code v])) (zlen (variant_bytes v))) as [H3 H4]; [lia | lia | lia |].
  assert (Hlen : zlen (buffer ++ stored_code v :: variant_bytes v) = zlen buffer + 1 + zlen (variant_bytes v)) by (rewrite zlen_app, zlen_cons; lia).
  assert (Hgrow : exists size', (buffer0 ← write (reserve_buffer size1 (zlen (buffer ++ [stored_code v])) (zlen (variant_bytes v))) (buffer ++ [stored_code v]) (variant_bytes v);
    Ret (reserve_buffer size1 (zlen (buffer ++ [stored_code v])) (zlen (variant_bytes v)), buffer0)) = Ret (size', buffer ++ stored_code v :: variant_bytes v) /\
    size <= size' /\ zlen (buffer ++ stored_code v :: variant_bytes v) <= size').
  { rewrite write_ok by lia. eexists. split; [cbn [mbind res_mbind]; by rewrite <- app_assoc |]. lia. }
  destruct v; try done. exists size1. split; [done |]. change (variant_bytes VNone) with (@nil Z) in *. change (zlen (@nil Z)) with 0 in *. lia.
Qed.

Lemma type_code_back t : type_of_code (type_code t) = Ret t.
Proof. by destruct t. Qed.

Lemma type_code_range t : 0 <= type_code t < 256 ^ Z.of_nat 4.
Proof. by destruct t. Qed.

Lemma write_compact_ok size buffer v bytes : compact_ok v bytes -> zlen buffer + zlen bytes <= size -> write_compact size buffer v = Ret (buffer ++ bytes).
Proof. intros (Hs & _) Hl. unfold write_compact. rewrite Hs. cbn [mbind res_mbind]. by apply write_ok. Qed.

(** The bytes of a token, whatever they are appended to. *)
Definition token_bytes_ok (t : zbx_eval_token_t) (bytes : list Z) : Prop :=
  zlen bytes <= 2100 /\ Forall byte bytes /\ (forall rest, deserialize_token (bytes ++ rest) = Ret (t, rest)) /\
  forall size buffer, 4096 <= size -> zlen buffer <= size ->
    exists size', serialize_token size buffer t = Ret (size', buffer ++ bytes) /\ 4096 <= size' /\ zlen (buffer ++ bytes) <= size'.

Lemma token_bytes t : token_ok t -> exists bytes, token_bytes_ok t bytes.
Proof.
  intros (Ho & Hl & Hr & Hv). destruct (compact_roundtrip _ Ho) as [bo Hbo]. destruct (compact_roundtrip _ Hl) as [bl Hbl]. destruct (compact_roundtrip _ Hr) as [br Hbr].
  pose proof Hbo as (_ & Hbo1 & Hbo2 & Hbo3). pose proof Hbl as (_ & Hbl1 & Hbl2 & Hbl3). pose proof Hbr as (_ & Hbr1 & Hbr2 & Hbr3).
  set (ty := le_bytes 4 (type_code (et_type t))). assert (Hty : zlen ty = 4) by (unfold zlen, ty; by rewrite le_bytes_len).
  destruct (variant_read (et_value t) [] Hv) as (_ & Hvb & Hvl).
  exists (ty ++ bo ++ bl ++ br ++ stored_code (et_value t) :: variant_bytes (et_value t)). split; [| split; [| split]].
  - lens; lia.
  - repeat (apply Forall_app; split); try done. apply le_bytes_byte.
  - intros rest. unfold deserialize_token. rewrite <- !app_assoc. unfold ty. rewrite read_le_bytes by apply type_code_range. cbn [mbind res_mbind].
    rewrite type_code_back. cbn [mbind res_mbind]. rewrite Hbo3. cbn [mbind res_mbind]. rewrite Hbl3. cbn [mbind res_mbind]. rewrite Hbr3. cbn [mbind res_mbind].
    cbn [app]. rewrite (proj1 (variant_read (et_value t) rest Hv)). by destruct t.
  - intros size buffer Hs Hb. destruct (reserve_grows size (zlen buffer) 23) as [H1 H2]; [lia | lia | lia |]. unfold serialize_token.
    set (size1 := reserve_buffer size (zlen buffer) 23) in *. fold ty. rewrite write_ok by lia. cbn [mbind res_mbind].
    rewrite (write_compact_ok _ _ _ bo Hbo) by (lens; lia). cbn [mbind res_mbind]. rewrite (write_compact_ok _ _ _ bl Hbl) by (lens; lia). cbn [mbind res_mbind].
    rewrite (write_compact_ok _ _ _ br Hbr) by (lens; lia). cbn [mbind res_mbind].
    destruct (serialize_variant_ok size1 ((((buffer ++ ty) ++ bo) ++ bl) ++ br) (et_value t)) as (size2 & He & Hs2 & Hl2); [lia | lens; lia | done |].
    exists size2. rewrite He. rewrite <- !app_assoc in *. split; [done | lia].
Qed.

Definition tokens_bytes_ok (tokens : list zbx_eval_token_t) (bytes : list Z) : Prop :=
  zlen bytes <= 2100 * zlen tokens /\ Forall byte bytes /\ (forall rest, deserialize_loop (length tokens) (bytes ++ rest) = Ret tokens) /\
  forall size buffer, 4096 <= size -> zlen buffer <= size -> serialize_loop size buffer tokens = Ret (buffer ++ bytes).

Lemma tokens_bytes tokens : Forall token_ok tokens -> exists bytes, tokens_bytes_ok tokens bytes.
Proof.
  induction 1 as [| t tokens Ht _ (bytes & Hl & Hb & Hread & Hwrite)].
  - exists []. split; [done |]. split; [done |]. split; [done |]. intros size buffer _ _. cbn. by rewrite app_nil_r.
  - destruct (token_bytes t Ht) as (bt & Hlt & Hbt & Hrt & Hwt). exists (bt ++ bytes). split; [lens; lia |]. split; [by apply Forall_app |]. split.
    + intros rest. cbn [length deserialize_loop]. rewrite <- app_assoc, Hrt. cbn [mbind res_mbind]. by rewrite Hread.
    + intros size buffer Hs Hbuf. cbn [serialize_loop]. destruct (Hwt size buffer Hs Hbuf) as (size' & -> & Hs' & Hl'). cbn [mbind res_mbind].
      rewrite Hwrite by done. by rewrite <- app_assoc.
Qed.

(** The bytes of an expression of at most a million tokens. *)
Lemma expression_bytes tokens : Forall token_ok tokens -> zlen tokens <= 1000000 ->
  exists data, zbx_eval_serialize tokens = Ret data /\ Forall byte data /\ 0 < zlen data < 2 ^ 32 /\
    forall rest, zbx_eval_deserialize (data ++ rest) = Ret tokens.
Proof.
  intros Ht Hn. destruct (tokens_bytes tokens Ht) as (bytes & Hl & Hb & Hread & Hwrite). pose proof (zlen_nonneg tokens) as Hnn. pose proof (zlen_nonneg bytes) as Hbn.
  destruct (compact_roundtrip (zlen tokens)) as (bn & Hbn0); [lia |]. pose proof Hbn0 as (_ & Hbn1 & Hbn2 & Hbn3).
  assert (Hlen : zlen (bn ++ bytes) = zlen bn + zlen bytes) by (lens; lia).
  destruct (compact_roundtrip (zlen (bn ++ bytes))) as (bs & Hbs0); [lia |]. pose proof Hbs0 as (Hbs & Hbs1 & Hbs2 & Hbs3).
  exists (bs ++ bn ++ bytes). unfold zbx_eval_serialize. rewrite (write_compact_ok _ _ _ bn Hbn0) by (change (zlen (@nil Z)) with 0; lia).
  cbn [mbind res_mbind app]. rewrite Hwrite by lia. cbn [mbind res_mbind]. rewrite u32_small by lia. rewrite Hbs. cbn [mbind res_mbind].
  split; [done |]. split; [by repeat (apply Forall_app; split) |]. split; [rewrite zlen_app, Hlen; lia |].
  intros rest. unfold zbx_eval_deserialize. rewrite <- !app_assoc, Hbs3. cbn [mbind res_mbind]. rewrite Hbn3. cbn [mbind res_mbind].
  rewrite to_nat_zlen. apply Hread.
Qed.

(** C10: Round trip of serialised expressions.  An expression of at most a
    million tokens, each with numbers of 31 bits and no value, a 64-bit
    integer, a double or a text of less than 2048 bytes without NUL, is
    serialised without a write behind the end of the growing buffer, in bytes
    and less than 2^32 of them; deserialising them, with anything behind them,
    gives back the tokens. *)
Theorem expression_roundtrip tokens : Forall token_ok tokens -> zlen tokens <= 1000000 ->
  exists data, zbx_eval_serialize tokens = Ret data /\ Forall byte data /\ 0 < zlen data < 2 ^ 32 /\
    forall rest, zbx_eval_deserialize (data ++ rest) = Ret tokens.
Proof. apply expression_bytes. Qed.

Definition sample_tokens : list zbx_eval_token_t :=
  [EToken TOKEN_FUNCTIONID 0 0 6 (VUi64 12345); EToken VAR_STR 1 8 300 (VStr [97; 98]); EToken OP_GT 0 7 7 VNone].

Lemma expression_roundtrip_witness : exists data, zbx_eval_serialize sample_tokens = Ret data /\ zlen data = 38 /\
  zbx_eval_deserialize (data ++ [1; 2]) = Ret sample_tokens.
Proof.
  destruct (expression_roundtrip sample_tokens) as (data & Hs & _ & _ & Hd).
  - repeat constructor; unfold token_ok, byte; cbn; lia.
  - vm_compute. discriminate.
  - exists data. split; [exact Hs |]. split; [| apply Hd]. vm_compute in Hs. injection Hs as <-. reflexivity.
Defined.
