(* ===== verification/EvalMisc.v ===== *)
(** * Operations on parsed expressions (src/libs/zbxeval/misc.c)

    The values of tokens: function ids and constants taken from the text, the
    replacement of function ids, the text of an expression with the values of
    its tokens. *)
From Stdlib Require Import String Ascii.
From stdpp Require Import prelude list.
From Stdlib Require Import ZArith Lia SpecFloat.
From S2P Require Import Prelude JsonText Num Scan Double Variant Utf8 EvalCalc EvalParse EvalFunc EvalExec EvalSerial.
#[local] Open Scope Z_scope.

Definition set_value (t : zbx_eval_token_t) (v : zbx_variant_t) : zbx_eval_token_t := EToken (et_type t) (et_opt t) (et_l t) (et_r t) v.

(** ** Texts of tokens (src/libs/zbxstr/str.c) *)

(** From the character behind the opening quote; the loop ends at a quote
    only.  A backslash before another character is dropped with it. *)
Fixpoint unquote_loop (src : list Z) : res (list Z) :=
  match src with
  | [] => Halt BadAccess
  | c :: src =>
      if c =? QUOT then Ret []
      else if c =? BSL then
        match src with
        | [] => Ret []
        | d :: src => s ← unquote_loop src; Ret (if (d =? BSL) || (d =? QUOT) then d :: s else s)
        end
      else s ← unquote_loop src; Ret (c :: s)
  end.

Definition zbx_substr (src : list Z) (left right : Z) : list Z := take (Z.to_nat (right - left + 1)) (drop (Z.to_nat left) src).

Definition zbx_substr_unquote (src : list Z) (left right : Z) : res (list Z) :=
  let s := drop (Z.to_nat left) src in
  if deref s =? QUOT then unquote_loop (tail s) else Ret (zbx_substr src left right).

Fixpoint strquote_loop (src : list Z) : list Z :=
  match src with
  | [] => []
  | c :: src => if (c =? BSL) || (c =? QUOT) then BSL :: c :: strquote_loop src else c :: strquote_loop src
  end.

Definition zbx_strquote (value_str : list Z) : list Z := QUOT :: strquote_loop value_str ++ [QUOT].

(** ** Extraction of values *)

Abbreviation ZBX_EVAL_EXTRACT_FUNCTIONID := 1.
Abbreviation ZBX_EVAL_EXTRACT_VAR_STR := 2.
Abbreviation ZBX_EVAL_EXTRACT_VAR_MACRO := 4.
Abbreviation ZBX_EVAL_EXTRACT_VAR_USERMACRO := 8.
Definition ZBX_EVAL_EXTRACT_ALL : Z := 15.

(** The token afterwards and the function id. *)
Definition expression_extract_functionid (expression : list Z) (token : zbx_eval_token_t) : zbx_eval_token_t * option Z :=
  if negb (is_type (et_type token) TOKEN_FUNCTIONID) then (token, None)
  else match et_value token with
       | VUi64 n => (token, Some n)
       | VNone =>
           match zbx_is_uint64_n (drop (Z.to_nat (et_l token + 1)) expression) (et_r token - et_l token - 1) with
           | Some n => (set_value token (VUi64 n), Some n)
           | None => (token, None)
           end
       | _ => (token, None)
       end.

Definition masked (mask bit : Z) : bool := negb (Z.land mask bit =? 0).

Definition extract_text (expression : list Z) (token : zbx_eval_token_t) (wanted : bool) : res zbx_eval_token_t :=
  match et_value token with
  | VNone => if wanted then s ← zbx_substr_unquote expression (et_l token) (et_r token); Ret (set_value token (VStr s)) else Ret token
  | _ => Ret token
  end.

Definition extract_token (expression : list Z) (mask : Z) (token : zbx_eval_token_t) : res zbx_eval_token_t :=
  match et_type token with
  | TOKEN_FUNCTIONID => Ret (if masked mask ZBX_EVAL_EXTRACT_FUNCTIONID then (expression_extract_functionid expression token).1 else token)
  | VAR_STR => extract_text expression token (masked mask ZBX_EVAL_EXTRACT_VAR_STR)
  | VAR_MACRO => extract_text expression token (masked mask ZBX_EVAL_EXTRACT_VAR_MACRO)
  | VAR_USERMACRO => extract_text expression token (masked mask ZBX_EVAL_EXTRACT_VAR_USERMACRO)
  | _ => Ret token
  end.

Fixpoint extract_tokens (expression : list Z) (mask : Z) (tokens : list zbx_eval_token_t) : res (list zbx_eval_token_t) :=
  match tokens with
  | [] => Ret []
  | t :: tokens => t ← extract_token expression mask t; l ← extract_tokens expression mask tokens; Ret (t :: l)
  end.

Definition zbx_eval_deserialize_dyn (data expression : list Z) (mask : Z) : res (list zbx_eval_token_t) :=
  tokens ← zbx_eval_deserialize data; extract_tokens expression mask tokens.

(** ** Function ids *)

(** The ids in the order of the tokens; the tokens get their values. *)
Definition zbx_eval_get_functionids (expression : list Z) (tokens : list zbx_eval_token_t) : list Z * list zbx_eval_token_t :=
  (omap (fun t => (expression_extract_functionid expression t).2) tokens, (fun t => (expression_extract_functionid expression t).1) <$> tokens).

Definition timer_function (expression : list Z) (t : zbx_eval_token_t) : bool :=
  is_type (et_type t) TOKEN_FUNCTION &&
  (eval_compare_token expression t "date" || eval_compare_token expression t "time" || eval_compare_token expression t "now" ||
   eval_compare_token expression t "dayofmonth" || eval_compare_token expression t "dayofweek").

Definition zbx_eval_check_timer_functions (expression : list Z) (tokens : list zbx_eval_token_t) : bool := existsb (timer_function expression) tokens.

Abbreviation ZBX_MAX_UINT31_1 := 0x7ffffffe.

Definition replace_functionid (expression : list Z) (old_functionid new_functionid : Z) (token : zbx_eval_token_t) : zbx_eval_token_t :=
  let '(token, id) := expression_extract_functionid expression token in
  match id with
  | Some n => if n =? old_functionid then set_opt (set_value token (VUi64 new_functionid)) ZBX_MAX_UINT31_1 else token
  | None => token
  end.

Definition zbx_eval_replace_functionid (expression : list Z) (old_functionid new_functionid : Z) (tokens : list zbx_eval_token_t) : list zbx_eval_token_t :=
  replace_functionid expression old_functionid new_functionid <$> tokens.

Definition zbx_eval_validate_replaced_functionids (tokens : list zbx_eval_token_t) : bool :=
  forallb (fun t => negb (is_type (et_type t) TOKEN_FUNCTIONID) || (et_opt t =? ZBX_MAX_UINT31_1)) tokens.

(** ** Constants *)

(** The first constant with the index, in the order of the tokens. *)
Fixpoint zbx_eval_get_constant (expression : list Z) (index : Z) (tokens : list zbx_eval_token_t) : res (option (list Z)) :=
  match tokens with
  | [] => Ret None
  | t :: tokens =>
      match et_type t with
      | VAR_STR | VAR_NUM | VAR_USERMACRO =>
          if index =? i32 (et_opt t) + 1 then
            match et_value t with
            | VNone => s ← zbx_substr_unquote expression (et_l t) (et_r t); Ret (Some s)
            | v => Ret (Some (zbx_variant_value_desc v))
            end
          else zbx_eval_get_constant expression index tokens
      | _ => zbx_eval_get_constant expression index tokens
      end
  end.

(** ** User macros in texts *)

(** [n] characters are left before the end minus 3. *)
Fixpoint usermacro_loop (fuel : nat) (ptr : list Z) (n : Z) : bool :=
  match fuel with
  | O => false
  | S fuel =>
      if n <=? 0 then false
      else if deref ptr =? LBR then if deref (tail ptr) =? 36 then true else usermacro_loop fuel (drop 2 ptr) (n - 2)
      else usermacro_loop fuel (tail ptr) (n - 1)
  end.

Definition eval_has_usermacro (str : list Z) (len : Z) : bool := if len <? 4 then false else usermacro_loop (Z.to_nat len) str (len - 3).

(** ** The text of an expression *)

Abbreviation ZBX_EVAL_COMPOSE_LLD := 0x01000000.
Abbreviation ZBX_EVAL_COMPOSE_FUNCTIONID := 0x02000000.
Abbreviation ZBX_EVAL_COMPOSE_QUOTE := 0x04000000.
Abbreviation ZBX_EVAL_COMPOSE_MASK_ERROR := 0x08000000.

Definition eval_token_print (rules : Z) (token : zbx_eval_token_t) : list Z :=
  let has bit := negb (Z.land rules bit =? 0) in
  let check := match et_value token with VStr s => bool_decide (eval_suffixed_number_parse s = None) | _ => false end in
  let quoted :=
    match et_type token with
    | VAR_STR => true
    | VAR_MACRO => negb (has ZBX_EVAL_COMPOSE_LLD) && check
    | VAR_USERMACRO => if has ZBX_EVAL_COMPOSE_QUOTE then true else negb (has ZBX_EVAL_COMPOSE_LLD) && check
    | VAR_LLDMACRO => if has ZBX_EVAL_COMPOSE_QUOTE then true else has ZBX_EVAL_COMPOSE_LLD && check
    | _ => false
    end in
  let plain := if quoted then zbx_strquote (zbx_variant_value_desc (et_value token)) else zbx_variant_value_desc (et_value token) in
  match et_value token with
  | VNone => []
  | VErr s => if has ZBX_EVAL_COMPOSE_MASK_ERROR then txt "*ERROR*" else txt "ERROR(" ++ s ++ [RPAR]
  | v =>
      if is_type (et_type token) TOKEN_FUNCTIONID && has ZBX_EVAL_COMPOSE_FUNCTIONID then
        match zbx_variant_convert v ZBX_VARIANT_UI64 with Some (VUi64 n) => LBR :: print_Z n ++ [RBR] | _ => plain end
      else plain
  end.

(** The tokens with values in the order of their places. *)
Fixpoint insert_token (t : zbx_eval_token_t) (l : list zbx_eval_token_t) : list zbx_eval_token_t :=
  match l with
  | [] => [t]
  | u :: l' => if et_l u <=? et_l t then u :: insert_token t l' else t :: l
  end.

Definition sort_tokens (l : list zbx_eval_token_t) : list zbx_eval_token_t := foldl (fun acc t => insert_token t acc) [] l.

Definition has_value (t : zbx_eval_token_t) : bool := match et_value t with VNone => false | _ => true end.

(** The text between the tokens is copied. *)
Fixpoint compose_loop (expression : list Z) (rules : Z) (tokens : list zbx_eval_token_t) (pos : Z) : list Z :=
  match tokens with
  | [] => drop (Z.to_nat pos) expression
  | t :: tokens =>
      take (Z.to_nat (et_l t - pos)) (drop (Z.to_nat pos) expression) ++ eval_token_print rules t ++ compose_loop expression rules tokens (et_r t + 1)
  end.

Definition zbx_eval_compose_expression (expression : list Z) (rules : Z) (tokens : list zbx_eval_token_t) : list Z :=
  match tokens with
  | [t; e] =>
      if is_type (et_type e) TOKEN_EXCEPTION then txt "throw(" ++ eval_token_print rules t ++ [RPAR]
      else compose_loop expression rules (sort_tokens (filter (fun t => has_value t = true) tokens)) 0
  | _ => compose_loop expression rules (sort_tokens (filter (fun t => has_value t = true) tokens)) 0
  end.

Definition zbx_eval_set_exception (message : list Z) : list zbx_eval_token_t :=
  [EToken VAR_STR 0 0 0 (VStr message); EToken TOKEN_EXCEPTION 0 0 0 VNone].

(** ** Examples *)

Definition parse_trigger (s : string) : P (list zbx_eval_token_t) := zbx_eval_parse_expression (txt s) ZBX_EVAL_TRIGGER_EXPRESSION false.

(** A constant inside of a function has index 0 as the first constant outside
    has: the reference to constant 1 gets the argument. *)
Example constant_of_function :
  (t ← (match parse_trigger "min(5,{1})>3" with Ret (inr t) => Ret t | _ => Halt Undefined end); zbx_eval_get_constant (txt "min(5,{1})>3") 1 t) = Ret (Some (txt "5")).
Proof. vm_compute. reflexivity. Qed.

(** A macro behind a brace is not seen. *)
Example usermacro_missed : eval_has_usermacro (txt "{{$A}}") 6 = false /\ eval_has_usermacro (txt "x{$A}}") 6 = true.
Proof. by vm_compute. Qed.

(** The exception message is the error of the evaluation. *)
Example exception_thrown env : zbx_eval_execute env [] 0 (zbx_eval_set_exception (txt "No data")) = Ret (inl (txt "No data")).
Proof. reflexivity. Qed.

(** A closing parenthesis and a comma without an opening one. *)
Example stray_close_accepted : types (parse_trigger "1+2)") = types (parse_trigger "1+2").
Proof. vm_compute. reflexivity. Qed.
Example stray_comma_accepted : types (parse_trigger "1+2,3") = Ret (inr [VAR_NUM; VAR_NUM; OP_ADD; VAR_NUM]).
Proof. vm_compute. reflexivity. Qed.

(** A difference in the formula of a calculated item is one token. *)
Example compound_minus : types (zbx_eval_parse_expression (txt "{$A}-5") ZBX_EVAL_PARSE_CALC_EXPRESSION false) = Ret (inr [VAR_NUM]).
Proof. vm_compute. reflexivity. Qed.
