(* ===== verification/EvalTrigger.v ===== *)
(** * Trigger expressions from text to value

    (src/libs/zbxcacheconfig/dbsync.c, dbconfig.c, src/libs/zbxserver/expression.c)

    An expression of the database is parsed, serialised, encoded, kept in the
    configuration cache, decoded, given the values of its functions and executed;
    the result decides about the new value of the trigger. *)
From Stdlib Require Import String Ascii.
From stdpp Require Import prelude list.
From Stdlib Require Import ZArith Lia SpecFloat.
From S2P Require Import Prelude JsonText Base64 Num Scan Double Variant Utf8 EvalCalc EvalParse EvalFunc EvalExec EvalSerial EvalMisc.
#[local] Open Scope Z_scope.

(** ** Parsing errors *)

Definition parse_error_text (expression : list Z) (e : parse_error) : list Z :=
  let at_ msg pos := at_pos expression (txt msg) pos in
  let quote msg pos := txt msg ++ QUOT :: drop (Z.to_nat pos) expression ++ [QUOT] in
  match e with
  | InvalidTokenAt pos => quote "invalid token starting with "%string pos
  | InvalidEscape pos => quote "invalid escape sequence in string starting with "%string pos
  | UnterminatedString pos => at_ "unterminated string"%string pos
  | UnterminatedFunction pos => at_ "unterminated function"%string pos
  | InvalidQuery pos => quote "invalid item query starting at "%string pos
  | QueryNotFirst pos => at_ "item query must be first argument of a historical function"%string pos
  | TooLong => txt "too long expression"
  | AfterQuery pos => at_ "invalid expression following query token"%string pos
  | GroupAfterOperand pos => at_ "opening parenthesis must follow operator or function"%string pos
  | FunctionAfterOperand pos => at_ "function must follow operand or unary operator"%string pos
  | CommaAfterOperator pos => at_ "comma must follow an operand or separator"%string pos
  | CommaOutside pos => quote "missing function argument separator for comma at"%string pos
  | CloseAfterOperator pos => at_ "right parenthesis must follow an operand or left parenthesis"%string pos
  | MissingOpen pos => at_ "missing left parenthesis for right parenthesis"%string pos
  | EmptyGroup pos => at_ "parenthesis cannot close empty group"%string pos
  | OperandAfterOperand pos => at_ "operand following another operand"%string pos
  | BinaryAfterOperator pos => at_ "binary operator must be used after operand"%string pos
  | UnaryAfterOperand pos => at_ "unary operator cannot follow an operand"%string pos
  | EndsWithOperator => txt "expression ends with operator"
  | EndsWithComma => txt "expression ends with comma"
  | MismatchedGroup => txt "mismatched () brackets in expression: " ++ expression
  | EmptyExpression => txt "empty expression"
  | MissingComparison pos => at_ "missing comparison string for property"%string pos
  | PropertyNotCompared pos => at_ "property must be compared with a constant value"%string pos
  | PropertyValueType pos => at_ "invalid value type compared with property"%string pos
  | PropertyOperator pos => at_ "invalid operator used with property"%string pos
  end.

(** ** The configuration cache *)

(** The tokens of an expression: an exception when it is not valid. *)
Definition parse_or_exception (rules : Z) (prefix : string) (errno_edom : bool) (expression : list Z) : res (list zbx_eval_token_t) :=
  match zbx_eval_parse_expression expression rules errno_edom with
  | Halt h => Halt h
  | Ret (inr tokens) => Ret tokens
  | Ret (inl e) => Ret (zbx_eval_set_exception (txt prefix ++ parse_error_text expression e))
  end.

Definition encode_expression (tokens : list zbx_eval_token_t) : res (list Z) :=
  data ← zbx_eval_serialize tokens;
  '(str, _) ← str_base64_encode_dyn data (zlen data);
  Ret str.

(** [from0]: what is in the array of the decoder before. *)
Definition config_decode_serialized_expression (from0 src : list Z) : res (option (list Z)) :=
  match src with
  | [] => Ret None
  | _ => dst ← str_base64_decode from0 src (zlen src * 3 / 4); Ret (Some dst)
  end.

(** The column of the trigger row with the encoded expression. *)
Definition trigger_column (errno_edom : bool) (expression : list Z) : res (list Z) :=
  tokens ← parse_or_exception ZBX_EVAL_TRIGGER_EXPRESSION "cannot parse trigger expression: " errno_edom expression;
  encode_expression tokens.

(** [zbx_prepare_triggers] *)
Definition prepare_expression (from0 column expression : list Z) : res (list zbx_eval_token_t) :=
  bin ← config_decode_serialized_expression from0 column;
  match bin with
  | Some data => zbx_eval_deserialize_dyn data expression ZBX_EVAL_EXTRACT_ALL
  | None => Halt BadAccess
  end.

(** ** The values of functions *)

Record zbx_func_t := Func { func_error : option (list Z); func_value : zbx_variant_t }.

Definition substitute_token (expression : list Z) (ifuncs : Z -> option zbx_func_t) (token : zbx_eval_token_t) : list Z + zbx_eval_token_t :=
  if negb (is_type (et_type token) TOKEN_FUNCTIONID) then inr token
  else match et_value token with
       | VUi64 functionid =>
           match ifuncs functionid with
           | None => inl (txt "Cannot obtain function and item for functionid: " ++ print_Z functionid)
           | Some func =>
               match func_error func, func_value func with
               | Some e, _ => inl e
               | None, VNone => inl (txt "Unexpected error while processing a trigger expression")
               | None, v => inr (set_value token v)
               end
           end
       | _ => inl (txt "Cannot parse function at: " ++ QUOT :: drop (Z.to_nat (et_l token)) expression ++ [QUOT])
       end.

Fixpoint substitute_expression_functions_results (expression : list Z) (ifuncs : Z -> option zbx_func_t) (tokens : list zbx_eval_token_t)
    : list Z + list zbx_eval_token_t :=
  match tokens with
  | [] => inr []
  | t :: tokens =>
      match substitute_token expression ifuncs t with
      | inl e => inl e
      | inr t => match substitute_expression_functions_results expression ifuncs tokens with inl e => inl e | inr l => inr (t :: l) end
      end
  end.

(** ** The value of the trigger *)

Definition evaluate_expression (env : environment) (expression : list Z) (tokens : list zbx_eval_token_t) : X double :=
  value ← zbx_eval_execute env expression ZBX_EVAL_TRIGGER_EXPRESSION tokens;
  match zbx_variant_convert value ZBX_VARIANT_DBL with
  | Some v => data_dbl v
  | None => throw (txt "Cannot convert expression result of type " ++ quoted (zbx_get_variant_type_desc (variant_type value)) ++ txt " to floating point value")
  end.

Inductive recovery_mode := TRIGGER_RECOVERY_MODE_EXPRESSION | TRIGGER_RECOVERY_MODE_RECOVERY_EXPRESSION | TRIGGER_RECOVERY_MODE_NONE.

Abbreviation TRIGGER_VALUE_OK := 0.
Abbreviation TRIGGER_VALUE_PROBLEM := 1.
Abbreviation TRIGGER_VALUE_UNKNOWN := 2.

(** The new value and the error of a trigger without an error so far; [result]
    and [result_r] are the results of the problem and recovery expressions. *)
Definition new_trigger_value (epsilon : double) (value : Z) (mode : recovery_mode) (result result_r : X double) : res (Z * option (list Z)) :=
  match result with
  | Halt h => Halt h
  | Ret (inl e) => Ret (TRIGGER_VALUE_UNKNOWN, Some e)
  | Ret (inr d) =>
      if negb (zbx_double_compare epsilon d dbl_zero) then Ret (TRIGGER_VALUE_PROBLEM, None)
      else match mode with
           | TRIGGER_RECOVERY_MODE_NONE => Ret (value, None)
           | TRIGGER_RECOVERY_MODE_EXPRESSION => Ret (TRIGGER_VALUE_OK, None)
           | TRIGGER_RECOVERY_MODE_RECOVERY_EXPRESSION =>
               match result_r with
               | Halt h => Halt h
               | Ret (inl e) => Ret (TRIGGER_VALUE_UNKNOWN, Some e)
               | Ret (inr d) => if negb (zbx_double_compare epsilon d dbl_zero) then Ret (TRIGGER_VALUE_OK, None) else Ret (value, None)
               end
           end
  end.

(** From the text to the result, without macros. *)
Definition trigger_expression (env : environment) (ifuncs : Z -> option zbx_func_t) (from0 expression : list Z) : X double :=
  column ← run (trigger_column false expression);
  tokens ← run (prepare_expression from0 column expression);
  tokens ← of_sum (substitute_expression_functions_results expression ifuncs tokens);
  evaluate_expression env expression tokens.
