(* ===== verification/EvalMeaning.v ===== *)
(** * What trigger expressions mean

    The value of a written expression by recursion over its syntax, with the
    values of its functions, and that the way of the expression through the
    program (parsed, serialised, encoded, decoded, deserialised, given the
    values of its functions, executed) ends with that value. *)
From Stdlib Require Import String Ascii.
From stdpp Require Import prelude list.
From Stdlib Require Import ZArith Lia SpecFloat.
From S2P Require Import Prelude JsonText Base64 Num Scan Double Variant Utf8 EvalCalc EvalParse EvalFunc EvalExec EvalTree EvalText EvalLex EvalShunt EvalSerial EvalMisc EvalTrigger.
#[local] Open Scope Z_scope.

(** ** Meaning *)

Section meaning.
Context (env : environment) (expression : list Z) (ifuncs : Z -> option zbx_func_t).

Definition decimal_value (ds : list Z) : Z := Num.number 10 ((fun c => c - 48) <$> ds) 0.

(** An integer of 64 bits, or a number with its unit. *)
Definition number_meaning (n : EvalText.number) : zbx_variant_t :=
  if forallb is_digit (number_text n) && (decimal_value (number_text n) <=? max_uint64) then VUi64 (decimal_value (number_text n))
  else VDbl (dbl_mul (number_value n) (dbl_of_Z (match n_unit n with Some u => suffix2factor u | None => 1 end))).

Definition function_meaning (ds : list Z) : zbx_variant_t := match ifuncs (decimal_value ds) with Some func => func_value func | None => VNone end.

Fixpoint meaning (pos : Z) (e : expr) : X zbx_variant_t :=
  match e with
  | ENum _ n => mret (number_meaning n)
  | EStr _ s => mret (VStr s)
  | EFid _ ds => mret (function_meaning ds)
  | EUn ws op e => v ← meaning (pos + zlen ws + zlen (op_text op)) e; unary_value env expression (op_token op (pos + zlen ws)) v
  | EBin l ws op r =>
      let p := pos + zlen (print l) + zlen ws in
      a ← meaning pos l; b ← meaning (p + zlen (op_text op)) r; binary_value env expression (op_token op p) a b
  | EParen ws e _ => meaning (pos + zlen ws + 1) e
  | ECall ws name args =>
      let p := pos + zlen ws in
      vs ← (fix meanings (pos : Z) (l : list (expr * list Z)) : X (list zbx_variant_t) :=
        match l with
        | [] => mret []
        | a :: l => v ← meaning pos a.1; vs ← meanings (pos + zlen (print a.1) + zlen a.2 + 1) l; mret (v :: vs)
        end) (p + zlen name + 1) args;
      common_value env expression ZBX_EVAL_TRIGGER_EXPRESSION None (EToken TOKEN_FUNCTION (Z.of_nat (length args)) p (p + zlen name - 1) VNone) vs
  end.

Fixpoint meanings (pos : Z) (l : list (expr * list Z)) : X (list zbx_variant_t) :=
  match l with
  | [] => mret []
  | a :: l => v ← meaning pos a.1; vs ← meanings (pos + zlen (print a.1) + zlen a.2 + 1) l; mret (v :: vs)
  end.

(** Every function id is a number of 64 bits with a value. *)
Fixpoint known (e : expr) : Prop :=
  match e with
  | ENum _ _ | EStr _ _ => True
  | EFid _ ds => decimal_value ds <= max_uint64 /\ match ifuncs (decimal_value ds) with Some (Func None v) => v <> VNone | _ => False end
  | EUn _ _ e | EParen _ e _ => known e
  | EBin l _ _ r => known l /\ known r
  | ECall _ _ args => (fix all l := match l with [] => True | a :: l => known a.1 /\ all l end) args
  end.

Fixpoint known_args (l : list (expr * list Z)) : Prop :=
  match l with
  | [] => True
  | a :: l => known a.1 /\ known_args l
  end.

(** The result of the trigger expression. *)
Definition expression_result (e : expr) : X double :=
  match (v ← meaning 0 e; execute_result [v]) with
  | Ret (inl errmsg) => Ret (inl (final_error errmsg))
  | Halt h => Halt h
  | Ret (inr value) =>
      match zbx_variant_convert value ZBX_VARIANT_DBL with
      | Some v => data_dbl v
      | None => throw (txt "Cannot convert expression result of type " ++ quoted (zbx_get_variant_type_desc (variant_type value)) ++ txt " to floating point value")
      end
  end.

(** ** Operands *)

Abbreviation text := (text expression).

Lemma field_app s rest : forallb (fun c => negb (c =? 0)) s = true -> field (s ++ rest) (zlen s) = s.
Proof.
  induction s as [| c s IH]; intros Hs; cbn [app forallb] in *.
  - destruct rest as [| c rest]; [done |]. cbn [field]. change (zlen (@nil Z)) with 0. by rewrite orb_true_r.
  - apply andb_true_iff in Hs as [Hc Hs]. apply negb_true_iff in Hc. cbn [field]. lens. pose proof (zlen_nonneg s). rewrite Hc.
    rewrite (proj2 (Z.leb_gt _ _)) by lia. cbn [orb]. f_equal. replace (1 + zlen s - 1) with (zlen s) by lia. by apply IH.
Qed.

Lemma number_range ds v : forallb is_digit ds = true -> 0 <= v -> 0 <= Num.number 10 ((fun c => c - 48) <$> ds) v.
Proof.
  intros Hd Hv. etrans; [exact Hv |]. apply number_ge; [lia | done |]. apply Forall_fmap, Forall_forall. intros c Hc%list_elem_of_In.
  rewrite forallb_forall in Hd. specialize (Hd c Hc). unfold is_digit in Hd. unbool. cbn. lia.
Qed.

(** The number of a field of digits. *)
Lemma uint64_field s rest : s <> [] -> forallb (fun c => negb (c =? 0)) s = true ->
  zbx_is_uint64_n (s ++ rest) (zlen s) = if forallb is_digit s && (decimal_value s <=? max_uint64) then Some (decimal_value s) else None.
Proof.
  intros Hne Hs. unfold zbx_is_uint64_n, zbx_is_uint_n_range, n_range. rewrite uint_loop_ok, field_app by (unfold max_uint64; done || lia).
  destruct s as [| c s]; [done |]. cbn [app]. pose proof (zlen_pos (c :: s) Hne) as Hl. rewrite (proj2 (Z.eqb_neq (zlen _) 0)) by lia.
  cbn [forallb] in Hs. apply andb_true_iff in Hs as [Hc _]. apply negb_true_iff in Hc. rewrite Hc. cbn [orb]. fold (decimal_value (c :: s)).
  destruct (forallb is_digit (c :: s)) eqn:Hd; [| done]. cbn zeta. cbn [andb]. pose proof (number_range (c :: s) 0 Hd ltac:(lia)) as Hge.
  fold (decimal_value (c :: s)) in Hge. destruct (Z.leb_spec (decimal_value (c :: s)) max_uint64) as [Hle | Hgt]; [| done].
  rewrite (proj2 (Z.ltb_ge _ 0)), (proj2 (Z.ltb_ge max_uint64 _)) by lia. cbn [orb]. f_equal. unfold store_value. apply Z.mod_small. unfold max_uint64 in Hle. lia.
Qed.

Lemma digits_nonzero ds : digits ds = true -> forallb (fun c => negb (c =? 0)) ds = true.
Proof. unfold digits. rewrite !forallb_forall. intros Hd c Hc. specialize (Hd c Hc). unfold isdigit in Hd. lia. Qed.

Lemma number_nonzero n : number_ok n = true -> forallb (fun c => negb (c =? 0)) (number_text n) = true.
Proof.
  intros (_ & Hi & Hf & Hu & _)%number_ok_parts. unfold number_text. rewrite unsigned_parts, !forallb_app, (digits_nonzero _ Hi).
  unfold fraction, suffix. destruct (n_neg n), (n_frac n) as [ds |], (n_unit n) as [u |]; cbn [forallb];
    rewrite ?(digits_nonzero ds Hf); repeat (apply andb_true_iff; split); try done;
    apply unit_facts in Hu as (_ & _ & _ & _ & Ha & _); apply negb_true_iff, Z.eqb_neq; by intros ->.
Qed.

Lemma number_literal opt p n rest : 0 <= p -> number_ok n = true -> ends rest = true -> text p = number_text n ++ rest ->
  literal_value expression (EToken VAR_NUM opt p (p + zlen (number_text n) - 1) VNone) = number_meaning n.
Proof.
  intros Hp Hn Hr Ht. pose proof (number_last n Hn) as (init & lc & Hlc & Hfac).
  assert (Hne : number_text n <> []) by (unfold number_text; pose proof (unsigned_nonempty n Hn); by destruct (n_neg n), (unsigned_text n)).
  unfold literal_value, number_meaning, token_len. cbn [et_type et_l et_r]. change (drop (Z.to_nat p) expression) with (text p).
  change (drop (Z.to_nat (p + zlen (number_text n) - 1)) expression) with (text (p + zlen (number_text n) - 1)).
  replace (p + zlen (number_text n) - 1 - p + 1) with (zlen (number_text n)) by lia. rewrite Ht, uint64_field by (done || by apply number_nonzero).
  destruct (forallb is_digit (number_text n) && (decimal_value (number_text n) <=? max_uint64)); [done |].
  rewrite number_strtod by done. do 3 f_equal. rewrite <- Hfac. f_equal.
  set (sign := if n_neg n then [45] else []) in *.
  replace (p + zlen (number_text n) - 1) with (p + zlen (sign ++ init)) by (unfold number_text; fold sign; rewrite Hlc; lens; lia).
  apply (f_equal deref (y := lc :: rest)). apply text_tail; [done |]. rewrite Ht. unfold number_text. fold sign. rewrite Hlc. by rewrite <- !app_assoc.
Qed.

Lemma unquote_escaped s rest : unquote_loop (escaped s ++ QUOT :: rest) = Ret s.
Proof.
  induction s as [| c s IH]; [done |]. cbn [escaped]. destruct ((c =? QUOT) || (c =? BSL)) eqn:Hc; cbn [app unquote_loop].
  - change (BSL =? QUOT) with false. change (BSL =? BSL) with true. cbn iota. rewrite IH. cbn [mbind res_mbind]. by rewrite orb_comm, Hc.
  - apply orb_false_iff in Hc as [-> ->]. by rewrite IH.
Qed.

(** ** The tokens with their values *)

(** What a token is executed with. *)
Definition fill (t : zbx_eval_token_t) : zbx_eval_token_t :=
  match extract_token expression ZBX_EVAL_EXTRACT_ALL t with
  | Ret t1 => match substitute_token expression ifuncs t1 with inr t2 => t2 | inl _ => t1 end
  | Halt _ => t
  end.

Definition fillable (t : zbx_eval_token_t) : Prop :=
  exists t1, extract_token expression ZBX_EVAL_EXTRACT_ALL t = Ret t1 /\ substitute_token expression ifuncs t1 = inr (fill t).

Lemma fill_all tokens : Forall fillable tokens ->
  exists l, extract_tokens expression ZBX_EVAL_EXTRACT_ALL tokens = Ret l /\ substitute_expression_functions_results expression ifuncs l = inr (map fill tokens).
Proof.
  induction 1 as [| t tokens (t1 & He & Hs) _ (l & Hl & Hsub)]; [by exists [] |]. exists (t1 :: l).
  cbn [extract_tokens substitute_expression_functions_results map]. rewrite He, Hl, Hs, Hsub. done.
Qed.

Lemma string_filled opt p s rest : 0 <= p -> text p = QUOT :: escaped s ++ QUOT :: rest ->
  let t := EToken VAR_STR opt p (p + (zlen (escaped s) + 2) - 1) VNone in fillable t /\ fill t = set_value t (VStr s).
Proof.
  intros Hp Ht t. assert (He : extract_token expression ZBX_EVAL_EXTRACT_ALL t = Ret (set_value t (VStr s))).
  { unfold extract_token, extract_text, t. cbn [et_type et_value et_l et_r]. change (masked ZBX_EVAL_EXTRACT_ALL ZBX_EVAL_EXTRACT_VAR_STR) with true.
    cbn iota. unfold zbx_substr_unquote. change (drop (Z.to_nat p) expression) with (text p). rewrite Ht. cbn [deref tail].
    change (QUOT =? QUOT) with true. cbn iota. by rewrite unquote_escaped. }
  unfold fillable, fill. rewrite He. split; [by exists (set_value t (VStr s)) | done].
Qed.

Lemma function_filled opt p ds rest v : 0 <= p -> ds <> [] -> digits ds = true -> text p = LBR :: ds ++ RBR :: rest -> decimal_value ds <= max_uint64 ->
  ifuncs (decimal_value ds) = Some (Func None v) -> v <> VNone ->
  let t := EToken TOKEN_FUNCTIONID opt p (p + zlen ds + 1) VNone in fillable t /\ fill t = set_value t v.
Proof.
  intros Hp Hne Hd Ht Hmax Hf Hv t.
  assert (He : extract_token expression ZBX_EVAL_EXTRACT_ALL t = Ret (set_value t (VUi64 (decimal_value ds)))).
  { unfold extract_token, t. cbn [et_type]. change (masked ZBX_EVAL_EXTRACT_ALL ZBX_EVAL_EXTRACT_FUNCTIONID) with true. cbn iota.
    unfold expression_extract_functionid. cbn [et_type et_value et_l et_r]. change (is_type TOKEN_FUNCTIONID TOKEN_FUNCTIONID) with true. cbn [negb].
    change (drop (Z.to_nat (p + 1)) expression) with (text (p + 1)). rewrite (text_tail1 expression p LBR _ Hp Ht).
    replace (p + zlen ds + 1 - p - 1) with (zlen ds) by lia. rewrite uint64_field by (done || by apply digits_nonzero).
    change is_digit with isdigit. unfold digits in Hd. rewrite Hd. rewrite (proj2 (Z.leb_le _ _)) by done. done. }
  assert (Hs : substitute_token expression ifuncs (set_value t (VUi64 (decimal_value ds))) = inr (set_value t v)).
  { unfold substitute_token, set_value, t. cbn [et_type et_value]. change (is_type TOKEN_FUNCTIONID TOKEN_FUNCTIONID) with true. cbn [negb]. rewrite Hf.
    cbn [func_error func_value]. by destruct v. }
  unfold fillable, fill. rewrite He, Hs. split; [by exists (set_value t (VUi64 (decimal_value ds))) | done].
Qed.

(** Other tokens stay. *)
Lemma plain_filled t : match et_type t with TOKEN_FUNCTIONID | VAR_STR | VAR_MACRO | VAR_USERMACRO => False | _ => True end -> fillable t /\ fill t = t.
Proof.
  intros Ht. assert (He : extract_token expression ZBX_EVAL_EXTRACT_ALL t = Ret t) by (unfold extract_token; by destruct (et_type t)).
  assert (Hs : substitute_token expression ifuncs t = inr t) by (unfold substitute_token; by destruct (et_type t)).
  unfold fillable, fill. rewrite He, Hs. split; [by exists t | done].
Qed.

Lemma fill_type t : et_type (fill t) = et_type t /\ et_opt (fill t) = et_opt t.
Proof.
  assert (He : forall t1, extract_token expression ZBX_EVAL_EXTRACT_ALL t = Ret t1 -> et_type t1 = et_type t /\ et_opt t1 = et_opt t).
  { intros t1. unfold extract_token, extract_text, expression_extract_functionid, mbind, res_mbind.
    repeat case_match; intros; simplify_eq; done. }
  assert (Hs : forall t1 t2, substitute_token expression ifuncs t1 = inr t2 -> et_type t2 = et_type t1 /\ et_opt t2 = et_opt t1).
  { intros t1 t2. unfold substitute_token. repeat case_match; intros; simplify_eq; done. }
  unfold fill. destruct (extract_token expression ZBX_EVAL_EXTRACT_ALL t) as [t1 | h]; [| done]. destruct (He t1 eq_refl) as [<- <-].
  destruct (substitute_token expression ifuncs t1) as [e | t2] eqn:Ht2; [done | by apply Hs].
Qed.

Fixpoint map_tree (x : tree) : tree :=
  match x with
  | Operand t => Operand (fill t)
  | Unary t r => Unary (fill t) (map_tree r)
  | Binary t l r => Binary (fill t) (map_tree l) (map_tree r)
  | Call t args => Call (fill t) (map map_tree args)
  end.

Lemma map_postfix x : postfix (map_tree x) = map fill (postfix x).
Proof.
  induction x as [t | t r IHr | t l r IHl IHr | t args IH] using tree_induction; cbn [map_tree postfix]; rewrite ?map_app; [done | by rewrite IHr | by rewrite IHl, IHr |].
  f_equal. rewrite concat_map, !map_map. f_equal. apply map_ext_in. intros a Ha%list_elem_of_In. rewrite Forall_forall in IH. by apply IH.
Qed.

Lemma map_well_formed x : well_formed (map_tree x) = well_formed x.
Proof.
  induction x as [t | t r IHr | t l r IHl IHr | t args IH] using tree_induction; cbn [map_tree well_formed];
    destruct (fill_type t) as [-> Hopt]; [done | by rewrite IHr | by rewrite IHl, IHr |]. rewrite Hopt, length_map. f_equal.
  induction IH as [| a args Ha _ IHl]; [done |]. cbn [map forallb]. by rewrite Ha, IHl.
Qed.

(** ** Values *)

Abbreviation rules := ZBX_EVAL_TRIGGER_EXPRESSION.
Abbreviation value := (value env expression rules None None).
Abbreviation values := (values env expression rules None None).

(** What there is to know about the tokens of [x], which [e] at [pos] stands for. *)
Definition tokens_good (x : tree) (len : Z) : Prop := Forall (fun t => token_ok t /\ fillable t) (postfix x) /\ zlen (postfix x) <= len.

Definition means (e : expr) : Prop := forall start indexed infun pos k f rest x k' f',
  ok start e = true -> known e -> 0 <= pos -> pos + zlen (print e) <= 0x80000000 -> text pos = print e ++ rest -> ends rest || ends_close e = true ->
  0 <= k <= pos -> 0 <= f <= pos -> tree_of indexed infun pos k f e = (x, k', f') ->
  0 <= k' <= pos + zlen (print e) /\ 0 <= f' <= pos + zlen (print e) /\ tokens_good x (zlen (print e)) /\ value (map_tree x) = meaning pos e.

(** An operand behind white space. *)
Lemma operand_means t len v : token_ok t -> fillable t -> 1 <= len -> operand_value expression rules (fill t) = mret v ->
  tokens_good (Operand t) len /\ value (map_tree (Operand t)) = mret v.
Proof. intros Ht Hf Hlen Hv. split; [| done]. split; [by apply Forall_singleton | done]. Qed.

Lemma constant_means indexed infun type p len k f x k' f' v : constant indexed infun type p len k f = (x, k', f') ->
  0 <= k <= p -> 0 <= p -> 1 <= len -> p + len <= 0x80000000 ->
  (forall opt, let t := EToken type opt p (p + len - 1) VNone in fillable t /\ operand_value expression rules (fill t) = mret v) ->
  0 <= k' <= p + len /\ f' = f /\ (forall m, 1 <= m -> tokens_good x m) /\ value (map_tree x) = mret v.
Proof.
  intros Hc Hk Hp Hl Hlen Hv. unfold constant in Hc. destruct (indexed && negb infun).
  - injection Hc as <- <- <-. destruct (Hv k) as [Hf Ho]. split; [lia |]. split; [done |]. split; [| done]. intros m Hm. apply (operand_means _ m v); try done.
    unfold token_ok. cbn. lia.
  - injection Hc as <- <- <-. destruct (Hv 0) as [Hf Ho]. split; [lia |]. split; [done |]. split; [| done]. intros m Hm. apply (operand_means _ m v); try done.
    unfold token_ok. cbn. lia.
Qed.

Lemma ENum_means ws n : means (ENum ws n).
Proof.
  intros start indexed infun pos k f rest x k' f' Hok _ Hpos Hlen Ht Hends Hk Hf Htree. cbn [ok print ends_close tree_of meaning] in *.
  apply andb_true_iff in Hok as [Hws Hn]. rewrite orb_false_r in Hends. rewrite <- app_assoc in Ht. rewrite zlen_app in *. pose proof (zlen_nonneg ws).
  assert (Hne : number_text n <> []) by (unfold number_text; pose proof (unsigned_nonempty n Hn); by destruct (n_neg n), (unsigned_text n)).
  pose proof (zlen_pos _ Hne) as Hpl. apply (text_tail expression) in Ht; [| done].
  destruct (constant_means _ _ _ _ _ _ _ _ _ _ (number_meaning n) Htree) as (Hk' & -> & Hg & Hv); try lia.
  - intros opt t. destruct (plain_filled t I) as [Hfill ->]. split; [done |]. unfold operand_value, t. cbn [et_type et_value]. unfold token_value. cbn [et_value].
    f_equal. f_equal. apply (number_literal _ _ _ rest); [lia | done | done | done].
  - split; [lia |]. split; [lia |]. split; [apply Hg; lia | done].
Qed.

Lemma EStr_means ws s : means (EStr ws s).
Proof.
  intros start indexed infun pos k f rest x k' f' Hok _ Hpos Hlen Ht Hends Hk Hf Htree. cbn [ok print ends_close tree_of meaning] in *.
  assert (Ht' : text pos = ws ++ QUOT :: escaped s ++ QUOT :: rest) by (rewrite Ht, <- app_assoc; cbn; by rewrite <- app_assoc).
  assert (Hlens : zlen (ws ++ QUOT :: escaped s ++ [QUOT]) = zlen ws + (zlen (escaped s) + 2)) by (lens; lia). rewrite Hlens in *.
  pose proof (zlen_nonneg ws). pose proof (zlen_nonneg (escaped s)). apply (text_tail expression) in Ht'; [| done].
  destruct (constant_means _ _ _ _ _ _ _ _ _ _ (VStr s) Htree) as (Hk' & -> & Hg & Hv); try lia.
  - intros opt t. destruct (string_filled opt (pos + zlen ws) s rest) as [Hfill Hval]; [lia | done |]. split; [done |]. unfold t. by rewrite Hval.
  - split; [lia |]. split; [lia |]. split; [apply Hg; lia | done].
Qed.

Lemma EFid_means ws ds : means (EFid ws ds).
Proof.
  intros start indexed infun pos k f rest x k' f' Hok Hknown Hpos Hlen Ht Hends Hk Hf Htree. cbn [ok print ends_close tree_of meaning known] in *.
  assert (Ht' : text pos = ws ++ LBR :: ds ++ RBR :: rest) by (rewrite Ht, <- app_assoc; cbn; by rewrite <- app_assoc).
  assert (Hlens : zlen (ws ++ LBR :: ds ++ [RBR]) = zlen ws + (zlen ds + 2)) by (lens; lia). rewrite Hlens in *.
  pose proof (zlen_nonneg ws). pose proof (zlen_nonneg ds). apply (text_tail expression) in Ht'; [| done].
  repeat apply andb_true_iff in Hok as [Hok ?]. match goal with H : negb _ = true |- _ => apply negb_true_iff, bool_decide_eq_false in H end.
  destruct Hknown as [Hmax Hfun]. unfold function_meaning. destruct (ifuncs (decimal_value ds)) as [[[e |] v] |] eqn:Hif; [done | | done]. cbn [func_value].
  injection Htree as <- <- <-. destruct (function_filled f (pos + zlen ws) ds rest v) as [Hfill Hval]; try done; [lia |].
  destruct (operand_means (EToken TOKEN_FUNCTIONID f (pos + zlen ws) (pos + zlen ws + zlen ds + 1) VNone) (zlen ws + (zlen ds + 2)) v) as [Hg Hv]; try done; try lia.
  - unfold token_ok. cbn. lia.
  - rewrite Hval. unfold operand_value, set_value. cbn [et_type et_value]. by destruct v.
  - split; [lia |]. split; [lia |]. by split.
Qed.

(** Operators are executed as they are. *)
Lemma op_filled op p : is_class CLASS_OPERATOR op = true -> fillable (op_token op p) /\ fill (op_token op p) = op_token op p.
Proof. intros Hop. apply plain_filled. by destruct op. Qed.

Lemma op_token_ok op p : 0 <= p -> 1 <= zlen (op_text op) -> p + zlen (op_text op) <= 0x80000000 -> token_ok (op_token op p).
Proof. intros. unfold token_ok, op_token. cbn. lia. Qed.

Lemma good_snoc t l len m : Forall (fun t => token_ok t /\ fillable t) l -> zlen l <= len -> token_ok t -> fillable t -> len + 1 <= m ->
  Forall (fun t => token_ok t /\ fillable t) (l ++ [t]) /\ zlen (l ++ [t]) <= m.
Proof. intros Hl Hlen Ht Hf Hm. split; [apply Forall_app; split; [done | by apply Forall_singleton] | lens; lia]. Qed.

Lemma EUn_means ws op e : means e -> means (EUn ws op e).
Proof.
  intros IH start indexed infun pos k f rest x k' f' Hok Hknown Hpos Hlen Ht Hends Hk Hf Htree. cbn [ok print ends_close tree_of meaning known] in *.
  repeat apply andb_true_iff in Hok as [Hok ?]. pose proof (zlen_nonneg ws). pose proof (zlen_nonneg (print e)).
  assert (Hop : is_class CLASS_OPERATOR op = true) by (by destruct op). assert (Hol : 1 <= zlen (op_text op)) by (by destruct op).
  rewrite <- !app_assoc in Ht. apply (text_tail expression) in Ht; [| done]. apply (text_tail expression) in Ht; [| lia].
  assert (Hlens : zlen (ws ++ op_text op ++ print e) = zlen ws + zlen (op_text op) + zlen (print e)) by (lens; lia). rewrite Hlens in *.
  destruct (tree_of indexed infun (pos + zlen ws + zlen (op_text op)) k f e) as [[y k1] f1] eqn:Htree1. injection Htree as <- <- <-.
  destruct (IH false indexed infun (pos + zlen ws + zlen (op_text op)) k f rest y k1 f1) as (Hk1 & Hf1 & [Hg1 Hn1] & Hv1); try done; try lia.
  destruct (op_filled op (pos + zlen ws) Hop) as [Hfop Heq]. split; [lia |]. split; [lia |]. split.
  - apply (good_snoc _ _ (zlen (print e))); try done; [apply op_token_ok; lia | lia].
  - cbn [map_tree EvalTree.value]. by rewrite Heq, Hv1.
Qed.

Lemma EBin_means l ws op r : means l -> means r -> means (EBin l ws op r).
Proof.
  intros IHl IHr start indexed infun pos k f rest x k' f' Hok [Hkl Hkr] Hpos Hlen Ht Hends Hk Hf Htree. cbn [ok print ends_close tree_of meaning] in *.
  repeat apply andb_true_iff in Hok as [Hok ?]. match goal with H : (if is_word op then _ else true) = true |- _ => rename H into Hword end.
  pose proof (zlen_nonneg ws). pose proof (zlen_nonneg (print l)). pose proof (zlen_nonneg (print r)).
  assert (Hop : is_class CLASS_OPERATOR op = true) by (by destruct op). assert (Hol : 1 <= zlen (op_text op)) by (by destruct op).
  rewrite <- !app_assoc in Ht. pose proof Ht as Ht0. apply (text_tail expression) in Ht; [| done]. apply (text_tail expression) in Ht; [| lia].
  apply (text_tail expression) in Ht; [| lia].
  assert (Hlens : zlen (print l ++ ws ++ op_text op ++ print r) = zlen (print l) + zlen ws + zlen (op_text op) + zlen (print r)) by (lens; lia). rewrite Hlens in *.
  destruct (tree_of indexed infun pos k f l) as [[x1 k1] f1] eqn:Htree1.
  destruct (IHl start indexed infun pos k f (ws ++ op_text op ++ print r ++ rest) x1 k1 f1) as (Hk1 & Hf1 & [Hg1 Hn1] & Hv1); try done; try lia.
  { by apply (left_ends l ws op (print r)). }
  destruct (tree_of indexed infun (pos + zlen (print l) + zlen ws + zlen (op_text op)) k1 f1 r) as [[y k2] f2] eqn:Htree2. injection Htree as <- <- <-.
  destruct (IHr false indexed infun (pos + zlen (print l) + zlen ws + zlen (op_text op)) k1 f1 rest y k2 f2) as (Hk2 & Hf2 & [Hg2 Hn2] & Hv2); try done; try lia.
  destruct (op_filled op (pos + zlen (print l) + zlen ws) Hop) as [Hfop Heq]. split; [lia |]. split; [lia |]. split.
  - unfold tokens_good. cbn [postfix]. rewrite app_assoc.
    apply (good_snoc _ _ (zlen (print l) + zlen (print r))); try done; [by apply Forall_app | lens; lia | apply op_token_ok; lia | lia].
  - cbn [map_tree EvalTree.value]. by rewrite Heq, Hv1, Hv2.
Qed.

Lemma EParen_means ws e ws2 : means e -> means (EParen ws e ws2).
Proof.
  intros IH start indexed infun pos k f rest x k' f' Hok Hknown Hpos Hlen Ht Hends Hk Hf Htree. cbn [ok print ends_close tree_of meaning known] in *.
  repeat apply andb_true_iff in Hok as [Hok ?]. pose proof (zlen_nonneg ws). pose proof (zlen_nonneg ws2).
  assert (Ht' : text pos = ws ++ LPAR :: print e ++ ws2 ++ RPAR :: rest) by (rewrite Ht, <- app_assoc; cbn [app]; by rewrite <- !app_assoc).
  assert (Hlens : zlen (ws ++ LPAR :: print e ++ ws2 ++ [RPAR]) = zlen ws + 1 + zlen (print e) + zlen ws2 + 1) by (lens; lia). rewrite Hlens in *.
  apply (text_tail expression) in Ht'; [| done]. apply text_tail1 in Ht'; [| lia].
  destruct (IH true indexed infun (pos + zlen ws + 1) k f (ws2 ++ RPAR :: rest) x k' f') as (Hk1 & Hf1 & [Hg1 Hn1] & Hv1); try done; try lia.
  { rewrite ws_ends; [done | done | by left]. }
  split; [lia |]. split; [lia |]. split; [split; [done | lia] | done].
Qed.

Definition args_mean (args : list (expr * list Z)) : Prop := forall indexed pos k f rest xs k' f',
  forallb arg_ok args = true -> known_args args -> 0 <= pos -> pos + zlen (args_text args) <= 0x80000000 -> text pos = args_text args ++ RPAR :: rest ->
  0 <= k <= pos -> 0 <= f <= pos -> trees_of indexed pos k f args = (xs, k', f') ->
  0 <= k' <= pos + zlen (args_text args) /\ 0 <= f' <= pos + zlen (args_text args) /\ Z.of_nat (length args) <= zlen (args_text args) /\
  Forall (fun t => token_ok t /\ fillable t) (concat (map postfix xs)) /\ zlen (concat (map postfix xs)) <= zlen (args_text args) /\
  values (map map_tree xs) = meanings pos args.

Lemma args_mean_all args : Forall (fun a => means a.1) args -> args_mean args.
Proof.
  intros Hall. induction Hall as [| a args Ha Hall IH]; intros indexed pos k f rest xs k' f' Hok Hknown Hpos Hlen Ht Hk Hf Htree.
  { injection Htree as <- <- <-. change (zlen (args_text [])) with 0. split; [lia |]. split; [lia |]. by split. }
  cbn [forallb known_args] in *. unfold arg_ok at 1 in Hok. apply andb_true_iff in Hok as [[Hoa Hwa]%andb_true_iff Hok]. destruct Hknown as [Hka Hknown].
  pose proof (zlen_nonneg (print a.1)). pose proof (zlen_nonneg a.2). pose proof (good_facts rules eq_refl (print a.1) [] (print_first _ _ Hoa)) as (Hpos1 & _).
  cbn [trees_of] in Htree. destruct (tree_of indexed true pos k f a.1) as [[x k1] f1] eqn:Htree1.
  destruct (trees_of indexed (pos + zlen (print a.1) + zlen a.2 + 1) k1 f1 args) as [[ys k2] f2] eqn:Htree2. injection Htree as <- <- <-.
  destruct args as [| b args].
  - injection Htree2 as <- <- <-. unfold args_text in *. cbn [map join_args concat] in *. rewrite zlen_app in Hlen. rewrite <- app_assoc in Ht. rewrite zlen_app, app_nil_r.
    destruct (Ha true indexed true pos k f (a.2 ++ RPAR :: rest) x k1 f1) as (Hk1 & Hf1 & [Hg1 Hn1] & Hv1); try done; try lia.
    { rewrite ws_ends; [done | done | by left]. }
    cbn [EvalTree.values meanings length]. rewrite Hv1. repeat split; try done; lia.
  - rewrite join_cons in *.
    assert (Hlens : zlen (print a.1 ++ a.2 ++ COMMA :: args_text (b :: args)) = zlen (print a.1) + zlen a.2 + 1 + zlen (args_text (b :: args))) by (lens; lia).
    rewrite Hlens in *. pose proof (zlen_nonneg (args_text (b :: args))) as Hal.
    assert (Ht' : text pos = print a.1 ++ a.2 ++ COMMA :: args_text (b :: args) ++ RPAR :: rest) by (rewrite Ht, <- !app_assoc; done).
    pose proof Ht' as Ht1. apply (text_tail expression) in Ht1; [| done]. apply (text_tail expression) in Ht1; [| lia]. apply text_tail1 in Ht1; [| lia].
    destruct (Ha true indexed true pos k f (a.2 ++ COMMA :: args_text (b :: args) ++ RPAR :: rest) x k1 f1) as (Hk1 & Hf1 & [Hg1 Hn1] & Hv1); try done; try lia.
    { rewrite ws_ends; [done | done | by left]. }
    destruct (IH indexed (pos + zlen (print a.1) + zlen a.2 + 1) k1 f1 rest ys k2 f2) as (Hk2 & Hf2 & Hl2 & Hg2 & Hn2 & Hv2); try done; try lia.
    cbn [map concat EvalTree.values]. rewrite Hv1, Hv2. cbn [meanings length] in *. repeat split; try done; try lia; [by apply Forall_app | lens; lia].
Qed.

Lemma ECall_means ws name args : Forall (fun a => means a.1) args -> means (ECall ws name args).
Proof.
  intros IH start indexed infun pos k f rest x k' f' Hok Hknown Hpos Hlen Ht Hends Hk Hf Htree. cbn [ok print] in *. rewrite tree_of_call in Htree.
  apply andb_true_iff in Hok as [[Hws Hname]%andb_true_iff Hargs]. change (join_args (map (fun a => print a.1 ++ a.2) args)) with (args_text args) in *.
  pose proof (name_facts name Hname) as (Hnne & _). pose proof (zlen_pos name Hnne). pose proof (zlen_nonneg ws). pose proof (zlen_nonneg (args_text args)).
  assert (Hlens : zlen (ws ++ name ++ LPAR :: args_text args ++ [RPAR]) = zlen ws + zlen name + 1 + zlen (args_text args) + 1) by (lens; lia). rewrite Hlens in *.
  assert (Ht' : text pos = ws ++ name ++ LPAR :: args_text args ++ RPAR :: rest).
  { rewrite Ht, <- !app_assoc. cbn [app]. by rewrite <- !app_assoc. }
  apply (text_tail expression) in Ht'; [| done]. apply (text_tail expression) in Ht'; [| lia]. apply text_tail1 in Ht'; [| lia].
  cbn zeta in Htree. destruct (trees_of indexed (pos + zlen ws + zlen name + 1) k f args) as [[xs k1] f1] eqn:Htree1. injection Htree as <- <- <-.
  destruct (args_mean_all args IH indexed (pos + zlen ws + zlen name + 1) k f rest xs k1 f1) as (Hk1 & Hf1 & Hl1 & Hg1 & Hn1 & Hv1); try done; try lia.
  set (t := EToken TOKEN_FUNCTION (Z.of_nat (length args)) (pos + zlen ws) (pos + zlen ws + zlen name - 1) VNone) in *.
  destruct (plain_filled t I) as [Hft Heq]. split; [lia |]. split; [lia |]. split.
  - apply (good_snoc _ _ (zlen (args_text args))); try done; [| lia]. unfold token_ok, t. cbn. lia.
  - cbn [map_tree]. rewrite Heq, value_call, Hv1. done.
Qed.

Fixpoint expr_means (e : expr) : means e :=
  match e with
  | ENum ws n => ENum_means ws n
  | EStr ws s => EStr_means ws s
  | EFid ws ds => EFid_means ws ds
  | EUn ws op e => EUn_means ws op e (expr_means e)
  | EBin l ws op r => EBin_means l ws op r (expr_means l) (expr_means r)
  | EParen ws e ws2 => EParen_means ws e ws2 (expr_means e)
  | ECall ws name args => ECall_means ws name args
      ((fix all l : Forall (fun a => means a.1) l := match l with [] => Forall_nil_2 _ | a :: l => Forall_cons_2 _ a l (expr_means a.1) (all l) end) args)
  end.
End meaning.

(** ** From the text to the result *)

(** The column of the trigger row and what is read from it. *)
Lemma column_roundtrip from0 data : length from0 = 4%nat -> Forall byte data -> 0 < zlen data ->
  exists str, str_base64_encode_dyn data (zlen data) = Ret (str, zlen str + 1) /\ config_decode_serialized_expression from0 str = Ret (Some data).
Proof.
  intros Hf Hb Hl. assert (Hbytes : Forall is_byte data) by (apply (Forall_impl _ _ _ Hb); unfold byte, is_byte; lia).
  exists (b64 data). rewrite encode_dyn_ok, b64_length by done. split; [done |]. unfold config_decode_serialized_expression.
  assert (Hlen : zlen data <= b64_len (zlen data) * 3 / 4) by (unfold b64_len; dlia).
  destruct (b64 data) as [| c s] eqn:Hs; [pose proof (b64_length data) as H0; rewrite Hs in H0; change (zlen (@nil Z)) with 0 in H0; unfold b64_len in *; dlia |].
  rewrite <- Hs, b64_length. unfold str_base64_decode. rewrite (proj2 (Z.ltb_lt _ _)) by lia. rewrite decode_b64; [| done | done | change (zlen (@nil Z)) with 0; lia].
  cbn [mbind res_mbind app]. rewrite take_ge; [done |]. unfold zlen in *. lia.
Qed.

Lemma trigger_ok env ifuncs from0 e ws : length from0 = 4%nat -> ok true e = true -> all_space ws = true -> known ifuncs e -> zlen (print e) <= 1000000 ->
  trigger_expression env ifuncs from0 (print e ++ ws) = expression_result env (print e ++ ws) ifuncs e.
Proof.
  intros Hf Hok Hws Hknown Hlen. set (expression := print e ++ ws). set (x := tree_of_text ZBX_EVAL_TRIGGER_EXPRESSION e).
  assert (Hends : ends ws = true) by (rewrite <- (app_nil_r ws); apply ws_ends; [done | by left]).
  destruct (tree_of (rule ZBX_EVAL_TRIGGER_EXPRESSION PARSE_CONST_INDEX) false 0 0 0 e) as [[y k'] f'] eqn:Htree.
  assert (Hx : y = x) by (unfold x, tree_of_text; by rewrite Htree). subst y.
  destruct (expr_means env expression ifuncs e true (rule ZBX_EVAL_TRIGGER_EXPRESSION PARSE_CONST_INDEX) false 0 0 0 ws x k' f' Hok Hknown) as (_ & _ & [Hgood Hn] & Hvalue); try done; try lia.
  { by rewrite Hends. }
  assert (Htok : Forall token_ok (postfix x)) by (apply (Forall_impl _ _ _ Hgood); tauto).
  assert (Hfill : Forall (fillable expression ifuncs) (postfix x)) by (apply (Forall_impl _ _ _ Hgood); tauto).
  destruct (expression_bytes (postfix x) Htok ltac:(lia)) as (data & Hser & Hbytes & Hdl & Hdes). specialize (Hdes []). rewrite app_nil_r in Hdes.
  destruct (column_roundtrip from0 data Hf Hbytes ltac:(lia)) as (str & Henc & Hdec).
  destruct (fill_all expression ifuncs (postfix x) Hfill) as (l & Hext & Hsub).
  unfold trigger_expression, trigger_column, parse_or_exception, encode_expression, prepare_expression, zbx_eval_deserialize_dyn, evaluate_expression, zbx_eval_execute.
  unfold expression. rewrite written_parsed by (done || lia). fold expression x. unfold mret at 1, P_ret. cbn [mbind res_mbind]. rewrite Hser. cbn [mbind res_mbind].
  rewrite Henc. cbn [mbind res_mbind run X_bind]. rewrite Hdec. cbn [mbind res_mbind]. rewrite Hdes. cbn [mbind res_mbind]. rewrite Hext. cbn [run].
  cbn [mbind X_bind]. rewrite Hsub. cbn [of_sum mbind X_bind]. rewrite <- map_postfix, execute_tree.
  - unfold tree_result, expression_result. rewrite Hvalue. by destruct (v ← meaning env expression ifuncs 0 e; execute_result [v]) as [[? | ?] |].
  - rewrite map_well_formed. unfold x, tree_of_text. by apply (tree_wf e true).
Qed.

(** C6: The evaluation of a trigger expression, from its text in the database
    to its result.  A written expression whose function ids have values is
    parsed, serialised, encoded in base64, stored in the configuration cache,
    decoded, deserialised, given the values of its functions and executed; for
    every environment and every text of up to a million characters this ends
    with the result of the meaning of the expression, which is defined by
    recursion over its syntax alone: the numbers, the texts without their
    escapes, the values of the functions, and the operators and functions
    applied to them. *)
Theorem trigger_expression_means env ifuncs from0 e ws :
  length from0 = 4%nat -> ok true e = true -> all_space ws = true -> known ifuncs e -> zlen (print e) <= 1000000 ->
  trigger_expression env ifuncs from0 (print e ++ ws) = expression_result env (print e ++ ws) ifuncs e.
Proof. apply trigger_ok. Qed.

Definition sample_ifuncs (id : Z) : option zbx_func_t := if id =? 7 then Some (Func None (VUi64 7000)) else None.

Lemma trigger_expression_witness :
  trigger_expression sample_env sample_ifuncs [0; 0; 0; 0] (print sample_written ++ [32]) = Ret (inr dbl_one) /\
  expression_result sample_env (print sample_written ++ [32]) sample_ifuncs sample_written = Ret (inr dbl_one).
Proof.
  assert (Hr : expression_result sample_env (print sample_written ++ [32]) sample_ifuncs sample_written = Ret (inr dbl_one)) by (vm_compute; reflexivity).
  split; [| exact Hr]. rewrite <- Hr. apply trigger_expression_means.
  - reflexivity.
  - vm_compute. reflexivity.
  - reflexivity.
  - cbn. split; [split; [split; [exact I | split; [split; [vm_compute; discriminate | vm_compute; discriminate] | exact I]] | split; exact I] | exact I].
  - vm_compute. discriminate.
Defined.
