(* ===== verification/EvalError.v ===== *)
(** * Trigger expressions that cannot be parsed

    The message of the parser is kept in the place of the expression and is
    the error of every evaluation, as long as the serialisation has room for
    it. *)
From Stdlib Require Import String Ascii.
From stdpp Require Import prelude list.
From Stdlib Require Import ZArith Lia SpecFloat.
From S2P Require Import Prelude JsonText Base64 Num Scan Double Variant Utf8 EvalCalc EvalParse EvalFunc EvalExec EvalTree EvalText EvalLex EvalShunt EvalSerial EvalMisc EvalTrigger EvalMeaning.
#[local] Open Scope Z_scope.

Definition char_ok (c : Z) : Prop := byte c /\ c <> 0.

(** ** The bytes of an exception *)

Definition head_bytes : list Z := 2 :: le_bytes 4 (type_code VAR_STR) ++ [0; 0; 0; 1].
Definition exception_bytes (s : list Z) : list Z := head_bytes ++ (s ++ [0]) ++ le_bytes 4 (type_code TOKEN_EXCEPTION) ++ [0; 0; 0; 0].

(** The size of the buffer when the text is written. *)
Definition text_size (s : list Z) : Z := reserve_buffer 4096 9 (zlen (s ++ [0])).

Lemma head_written s : serialize_token 4096 [2] (EToken VAR_STR 0 0 0 (VStr s)) = (buffer ← write (text_size s) head_bytes (s ++ [0]); Ret (text_size s, buffer)).
Proof. reflexivity. Qed.

Lemma text_fits s : zlen s <= 6134 -> zlen (s ++ [0]) + 9 <= text_size s /\ 4096 <= text_size s.
Proof. intros Hs. unfold text_size, reserve_buffer. lens. destruct (Z.leb_spec (9 + (zlen s + (1 + 0))) 4096); [lia |]. change (4096 * 3 / 2) with 6144. lia. Qed.

Lemma serialize_loop_exception s : zlen s <= 6134 -> serialize_loop 4096 [2] (zbx_eval_set_exception s) = Ret (exception_bytes s).
Proof.
  intros Hs. unfold zbx_eval_set_exception. cbn [serialize_loop]. rewrite head_written. destruct (text_fits s Hs) as [Hfit Hsize].
  rewrite write_ok by (change (zlen head_bytes) with 9; lia). cbn [mbind res_mbind].
  destruct (token_bytes (EToken TOKEN_EXCEPTION 0 0 0 VNone)) as (bytes & _ & _ & _ & Hw); [by unfold token_ok; cbn; lia |].
  destruct (Hw 4096 [] ltac:(lia) ltac:(done)) as (size0 & H0 & _). injection H0 as _ Hbytes. cbn [app] in Hbytes.
  destruct (Hw (text_size s) (head_bytes ++ s ++ [0]) Hsize) as (size' & -> & _); [change (head_bytes ++ s ++ [0]) with (head_bytes ++ (s ++ [0])); rewrite zlen_app; change (zlen head_bytes) with 9; lia |].
  cbn [mbind res_mbind]. rewrite <- Hbytes. unfold exception_bytes. by rewrite <- !app_assoc.
Qed.

Lemma exception_read s rest : Forall char_ok s -> deserialize_loop 2 (tail (exception_bytes s) ++ rest) = Ret (zbx_eval_set_exception s).
Proof.
  intros Hs. unfold exception_bytes, head_bytes. cbn [tail app]. rewrite <- !app_assoc. cbn [app].
  assert (Hstr : forall tl, read_str (s ++ 0 :: tl) = Ret (s, tl)) by (intros tl; apply read_str_app, (Forall_impl _ _ _ Hs); unfold char_ok; tauto).
  assert (Hhead : forall tl, deserialize_token (le_bytes 4 (type_code VAR_STR) ++ 0 :: 0 :: 0 :: 1 :: s ++ 0 :: tl) = Ret (EToken VAR_STR 0 0 0 (VStr s), tl)).
  { intros tl. unfold deserialize_token. rewrite read_le_bytes by apply type_code_range. cbn [mbind res_mbind]. rewrite type_code_back. cbn [mbind res_mbind].
    change (zbx_deserialize_uint31_compact (0 :: 0 :: 0 :: 1 :: s ++ 0 :: tl)) with (Ret (0, 0 :: 0 :: 1 :: s ++ 0 :: tl)). cbn [mbind res_mbind].
    change (zbx_deserialize_uint31_compact (0 :: 0 :: 1 :: s ++ 0 :: tl)) with (Ret (0, 0 :: 1 :: s ++ 0 :: tl)). cbn [mbind res_mbind].
    change (zbx_deserialize_uint31_compact (0 :: 1 :: s ++ 0 :: tl)) with (Ret (0, 1 :: s ++ 0 :: tl)). cbn [mbind res_mbind deserialize_variant].
    change (1 =? 3) with false. change (1 =? 2) with false. change (1 =? 1) with true. cbn iota. by rewrite Hstr. }
  cbn [deserialize_loop]. rewrite Hhead. reflexivity.
Qed.

Lemma exception_bytes_ok s : Forall char_ok s -> Forall byte (exception_bytes s) /\ zlen (exception_bytes s) = zlen s + 18.
Proof.
  intros Hs. unfold exception_bytes, head_bytes. split.
  - assert (Hbytes : Forall byte s) by (apply (Forall_impl _ _ _ Hs); unfold char_ok; tauto).
    constructor; [unfold byte; lia |]. repeat (apply Forall_app; split); try done; try apply le_bytes_byte; by repeat constructor.
  - lens. change (zlen (le_bytes 4 (type_code VAR_STR))) with 4. change (zlen (le_bytes 4 (type_code TOKEN_EXCEPTION))) with 4. lia.
Qed.

(** An exception is written and read back up to 6134 bytes of text; a longer
    text is written behind the end of the buffer. *)
Lemma exception_serialized s : Forall char_ok s ->
  (zlen s <= 6134 -> exists data, zbx_eval_serialize (zbx_eval_set_exception s) = Ret data /\ Forall byte data /\ 0 < zlen data /\
     zbx_eval_deserialize data = Ret (zbx_eval_set_exception s)) /\
  (6134 < zlen s -> zbx_eval_serialize (zbx_eval_set_exception s) = Halt BadAccess).
Proof.
  intros Hs. unfold zbx_eval_serialize. change (write_compact 4096 [] (zlen (zbx_eval_set_exception s))) with (Ret [2]). cbn [mbind res_mbind]. split; intros Hl.
  - rewrite serialize_loop_exception by done. cbn [mbind res_mbind]. destruct (exception_bytes_ok s Hs) as [Hb Hlen]. pose proof (zlen_nonneg s).
    rewrite u32_small, Hlen by lia. destruct (compact_roundtrip (zlen s + 18)) as (bs & Hbs & Hbl & Hbb & Hbr); [lia |]. rewrite Hbs. cbn [mbind res_mbind].
    exists (bs ++ exception_bytes s). split; [done |]. split; [by apply Forall_app |]. split; [lens; lia |].
    unfold zbx_eval_deserialize. rewrite Hbr. cbn [mbind res_mbind]. change (exception_bytes s) with ([2] ++ tail (exception_bytes s)).
    pose proof (exception_read s [] Hs) as Hr. rewrite app_nil_r in Hr. cbn -[deserialize_loop exception_bytes]. exact Hr.
  - unfold zbx_eval_set_exception. cbn [serialize_loop]. rewrite head_written. unfold write, text_size, reserve_buffer. change (zlen head_bytes) with 9. lens.
    rewrite (proj2 (Z.leb_gt (9 + (zlen s + (1 + 0))) 4096)) by lia. change (4096 * 3 / 2) with 6144. by rewrite (proj2 (Z.leb_gt _ _)) by lia.
Qed.

(** ** The message *)

Lemma txt_char_ok (s : string) : forallb (fun c => (0 <? c) && (c <? 256)) (txt s) = true -> Forall char_ok (txt s).
Proof. intros Hs. apply Forall_forall. intros c Hc%list_elem_of_In. rewrite forallb_forall in Hs. specialize (Hs c Hc). unfold char_ok, byte. lia. Qed.

Lemma message_char_ok expression e : Forall char_ok expression -> Forall char_ok (parse_error_text expression e).
Proof.
  intros He. assert (Hq : char_ok QUOT) by (unfold char_ok, byte; lia).
  assert (Hquote : forall l pos, Forall char_ok l -> Forall char_ok (l ++ QUOT :: drop (Z.to_nat pos) expression ++ [QUOT])).
  { intros l pos Hl. apply Forall_app. split; [done |]. constructor; [done |]. apply Forall_app. split; [by apply Forall_drop | by constructor]. }
  destruct e; cbn [parse_error_text]; unfold at_pos; rewrite ?(app_assoc (txt _) (txt " at ")); try apply Hquote;
    repeat (apply Forall_app; split); try done; by apply txt_char_ok.
Qed.

Definition parse_message (expression : list Z) (e : parse_error) : list Z := txt "cannot parse trigger expression: " ++ parse_error_text expression e.

(** Every evaluation of the trigger ends with the message. *)
Lemma unparsable_ok env ifuncs from0 expression e : length from0 = 4%nat -> Forall char_ok expression ->
  zbx_eval_parse_expression expression ZBX_EVAL_TRIGGER_EXPRESSION false = Ret (inl e) ->
  (zlen (parse_message expression e) <= 6134 ->
     trigger_expression env ifuncs from0 expression = throw (txt "Cannot evaluate expression: " ++ parse_message expression e)) /\
  (6134 < zlen (parse_message expression e) -> trigger_expression env ifuncs from0 expression = Halt BadAccess).
Proof.
  intros Hf Hbytes Hparse. set (m := parse_message expression e).
  assert (Hm : Forall char_ok m) by (apply Forall_app; split; [by apply txt_char_ok | by apply message_char_ok]).
  destruct (exception_serialized m Hm) as [Hshort Hlong].
  unfold trigger_expression, trigger_column, parse_or_exception, encode_expression. rewrite Hparse. fold (parse_message expression e). fold m. cbn [mbind res_mbind].
  split; intros Hlen.
  - destruct (Hshort Hlen) as (data & -> & Hb & Hl & Hdes). cbn [mbind res_mbind]. destruct (column_roundtrip from0 data Hf Hb Hl) as (str & -> & Hdec).
    cbn [mbind res_mbind run X_bind]. unfold prepare_expression, zbx_eval_deserialize_dyn. rewrite Hdec. cbn [mbind res_mbind]. rewrite Hdes. reflexivity.
  - by rewrite (Hlong Hlen).
Qed.

(** C9: A trigger expression that cannot be parsed.  When the parser rejects
    the text, the message about it takes the place of the expression: it is
    serialised, encoded and stored, and every evaluation ends with it as the
    error, so that the trigger becomes unknown with the reason.  This holds up
    to 6134 bytes of message: the buffer of the serialisation grows only once
    by a half, and a longer message is written behind its end. *)
Theorem unparsable_expression env ifuncs from0 expression e :
  length from0 = 4%nat -> Forall char_ok expression ->
  zbx_eval_parse_expression expression ZBX_EVAL_TRIGGER_EXPRESSION false = Ret (inl e) ->
  (zlen (parse_message expression e) <= 6134 ->
     trigger_expression env ifuncs from0 expression = throw (txt "Cannot evaluate expression: " ++ parse_message expression e)) /\
  (6134 < zlen (parse_message expression e) -> trigger_expression env ifuncs from0 expression = Halt BadAccess).
Proof. apply unparsable_ok. Qed.

Lemma unparsable_expression_witness :
  trigger_expression sample_env (fun _ => None) [0; 0; 0; 0] (txt "(1") =
    throw (txt "Cannot evaluate expression: cannot parse trigger expression: mismatched () brackets in expression: (1") /\
  trigger_expression sample_env (fun _ => None) [0; 0; 0; 0] (repeat 97 (Z.to_nat 6200)) = Halt BadAccess.
Proof.
  split.
  - refine (proj1 (unparsable_expression sample_env (fun _ => None) [0; 0; 0; 0] (txt "(1") MismatchedGroup _ _ _) _).
    + reflexivity.
    + apply txt_char_ok. reflexivity.
    + vm_compute. reflexivity.
    + vm_compute. discriminate.
  - refine (proj2 (unparsable_expression sample_env (fun _ => None) [0; 0; 0; 0] (repeat 97 (Z.to_nat 6200)) (InvalidTokenAt 0) _ _ _) _).
    + reflexivity.
    + apply Forall_forall. intros c Hc%list_elem_of_In%repeat_spec. unfold char_ok, byte. lia.
    + vm_compute. reflexivity.
    + vm_compute. reflexivity.
Defined.
