(* ===== verification/PreprocItem.v ===== *)
(** * Preprocessing steps (src/libs/zbxpreproc/item_preproc.c)

    What the steps of preprocessing do to a value: multiplication, trimming,
    changes, conversion from other bases, validation and throttling.  A step
    with a history gets the value and the time that it left the last time.  The
    value is given back also with an error, as the code changes it in place. *)
From Stdlib Require Import String Ascii.
From stdpp Require Import prelude list.
From Stdlib Require Import ZArith Lia SpecFloat.
From S2P Require Import Prelude JsonText Macro Interval Num Scan Double Variant Utf8 EvalCalc EvalFunc EvalSerial.
#[local] Open Scope Z_scope.

Record zbx_timespec_t := Timespec { ts_s : Z; ts_ns : Z }.

#[export] Instance timespec_eq_dec : EqDecision zbx_timespec_t.
Proof. solve_decision. Defined.

Definition zbx_timespec_compare (t1 t2 : zbx_timespec_t) : Z := if ts_s t1 =? ts_s t2 then ts_ns t1 - ts_ns t2 else ts_s t1 - ts_s t2.

(** The value, and the message when the step failed. *)
Definition outcome : Type := zbx_variant_t * option (list Z).

Inductive item_value_type := ITEM_VALUE_TYPE_FLOAT | ITEM_VALUE_TYPE_UINT64 | ITEM_VALUE_TYPE_OTHER.

(** ** Strings (src/libs/zbxstr/str.c) *)

Definition in_chars (charlist : list Z) (c : Z) : bool := bool_decide (c ∈ charlist).
Definition zbx_ltrim (charlist s : list Z) : list Z := skip_while (in_chars charlist) s.
Definition zbx_rtrim (charlist s : list Z) : list Z := rtrim (in_chars charlist) s.
Definition zbx_lrtrim (charlist s : list Z) : list Z := zbx_ltrim charlist (zbx_rtrim charlist s).
Definition zbx_remove_chars (charlist s : list Z) : list Z := filter (fun c => in_chars charlist c = false) s.
Definition zbx_strlower (s : list Z) : list Z := (fun c => if isupper c then c + 32 else c) <$> s.

Fixpoint zbx_str_printable_dyn (text : list Z) : list Z :=
  match text with
  | [] => []
  | c :: text =>
      (if c =? 10 then [BSL; 110] else if c =? 9 then [BSL; 116] else if c =? 13 then [BSL; 114] else [c]) ++ zbx_str_printable_dyn text
  end.

Definition isxdigit (c : Z) : bool := is_hex c.

(** Pairs of digits, with a space or a newline between them. *)
Fixpoint zbx_is_hex_string (s : list Z) : bool :=
  match s with
  | a :: b :: rest =>
      isxdigit a && isxdigit b && match rest with [] => true | c :: rest => ((c =? SPACE) || (c =? 10)) && match rest with [] => true | _ => zbx_is_hex_string rest end end
  | _ => false
  end.

(** ** Numbers *)

Definition item_preproc_convert_value (value : zbx_variant_t) (type : zbx_variant_type_t) : outcome :=
  match zbx_variant_convert value type with
  | Some v => (v, None)
  | None => (value, Some (txt "cannot convert value to " ++ zbx_get_variant_type_desc type))
  end.

Definition item_preproc_numeric_type_hint (value_type : item_value_type) : zbx_variant_type_t :=
  match value_type with
  | ITEM_VALUE_TYPE_FLOAT => ZBX_VARIANT_DBL
  | ITEM_VALUE_TYPE_UINT64 => ZBX_VARIANT_UI64
  | ITEM_VALUE_TYPE_OTHER => ZBX_VARIANT_NONE
  end.

(** The number stays as it is when it has no value of the hinted type. *)
Definition zbx_item_preproc_convert_value_to_numeric (value : zbx_variant_t) (value_type : item_value_type) : list Z + zbx_variant_t :=
  match (match value with
         | VDbl _ | VUi64 _ => Some value
         | VStr s => zbx_variant_set_numeric s
         | _ => None
         end) with
  | None => inl (txt "cannot convert value to numeric type")
  | Some v =>
      inr (match item_preproc_numeric_type_hint value_type with
           | ZBX_VARIANT_NONE => v
           | hint => default v (zbx_variant_convert v hint)
           end)
  end.

(** The conversion of a double to [zbx_uint64_t] is undefined outside of its range. *)
Definition to_uint64 (d : double) : res Z :=
  if is_infinite d || bool_decide (d = S754_nan) then Halt Undefined
  else if (dbl_trunc d <? 0) || (max_uint64 <? dbl_trunc d) then Halt Undefined else Ret (dbl_trunc d).

Definition item_preproc_multiplier_variant (value_type : item_value_type) (value : zbx_variant_t) (params : list Z) : res outcome :=
  match zbx_item_preproc_convert_value_to_numeric value value_type with
  | inl e => Ret (value, Some e)
  | inr (VDbl d) => Ret (VDbl (dbl_mul d (strtod params)), None)
  | inr (VUi64 n) =>
      match zbx_is_uint64 params with
      | Some m => Ret (VUi64 (u64 (n * m)), None)
      | None => v ← to_uint64 (dbl_mul (dbl_of_Z n) (strtod params)); Ret (VUi64 v, None)
      end
  | inr _ => Ret (value, None)
  end.

(** ** Changes *)

Inductive delta_type := DELTA_VALUE | DELTA_SPEED.

Definition elapsed (ts history_ts : zbx_timespec_t) : double :=
  dbl_add (dbl_of_Z (ts_s ts - ts_s history_ts)) (dbl_div (dbl_of_Z (ts_ns ts - ts_ns history_ts)) (dbl_of_Z 1000000000)).

(** [None]: there is no change to report. *)
Definition item_preproc_delta_float (value : double) (ts : zbx_timespec_t) (op : delta_type) (history_value : double) (history_ts : zbx_timespec_t) : option double :=
  if (ts_s history_ts =? 0) || dbl_lt value history_value then None
  else match op with
       | DELTA_SPEED =>
           if 0 <=? zbx_timespec_compare history_ts ts then None
           else Some (dbl_div (dbl_sub value history_value) (elapsed ts history_ts))
       | DELTA_VALUE => Some (dbl_sub value history_value)
       end.

Definition item_preproc_delta_uint64 (value : Z) (ts : zbx_timespec_t) (op : delta_type) (history_value : Z) (history_ts : zbx_timespec_t) : res (option Z) :=
  if (ts_s history_ts =? 0) || (value <? history_value) then Ret None
  else match op with
       | DELTA_SPEED =>
           if 0 <=? zbx_timespec_compare history_ts ts then Ret None
           else v ← to_uint64 (dbl_div (dbl_of_Z (value - history_value)) (elapsed ts history_ts)); Ret (Some v)
       | DELTA_VALUE => Ret (Some (value - history_value))
       end.

Definition is_dbl (v : zbx_variant_t) : bool := match v with VDbl _ => true | _ => false end.
Definition the_dbl (v : zbx_variant_t) : double := match zbx_variant_convert v ZBX_VARIANT_DBL with Some (VDbl d) => d | _ => S754_nan end.

(** The value, the new history and its time; the histories of the step are numbers. *)
Definition item_preproc_delta (value_type : item_value_type) (value : zbx_variant_t) (ts : zbx_timespec_t) (op : delta_type)
    (history_value : zbx_variant_t) (history_ts : zbx_timespec_t) : res (outcome * zbx_variant_t * zbx_timespec_t) :=
  match zbx_item_preproc_convert_value_to_numeric value value_type with
  | inl e => Ret (value, Some e, history_value, history_ts)
  | inr value_num =>
      v ← match history_value with
          | VNone => Ret VNone
          | _ =>
              if is_dbl value_num || is_dbl history_value then
                Ret (match item_preproc_delta_float (the_dbl value_num) ts op (the_dbl history_value) history_ts with Some d => VDbl d | None => VNone end)
              else match value_num, history_value with
                   | VUi64 n, VUi64 h => d ← item_preproc_delta_uint64 n ts op h history_ts; Ret (match d with Some d => VUi64 d | None => VNone end)
                   | _, _ => Halt Undefined
                   end
          end;
      Ret (v, None, value_num, ts)
  end.

(** ** Trimming *)

(** [replace]: the step is the replacement of texts, which knows the escaped backslash. *)
Fixpoint unescape_param (replace : bool) (s : list Z) : list Z :=
  match s with
  | [] => []
  | c :: r =>
      if c =? BSL then
        match r with
        | [] => [BSL]
        | d :: r' =>
            if d =? 115 then 32 :: unescape_param replace r'
            else if d =? 114 then 13 :: unescape_param replace r'
            else if d =? 110 then 10 :: unescape_param replace r'
            else if d =? 116 then 9 :: unescape_param replace r'
            else if (d =? BSL) && replace then BSL :: unescape_param replace r'
            else BSL :: unescape_param replace r
        end
      else c :: unescape_param replace r
  end.

Inductive trim_type := RTRIM | LTRIM | TRIM.

(** The text, when the value has one. *)
Definition with_text (value : zbx_variant_t) (f : list Z -> outcome) : outcome :=
  match item_preproc_convert_value value ZBX_VARIANT_STR with
  | (VStr s, None) => f s
  | r => r
  end.

Definition item_preproc_trim (value : zbx_variant_t) (op : trim_type) (params : list Z) : outcome :=
  with_text value (fun s =>
    let chars := unescape_param false params in
    let s := match op with LTRIM | TRIM => zbx_ltrim chars s | RTRIM => s end in
    (VStr (match op with RTRIM | TRIM => zbx_rtrim chars s | LTRIM => s end), None)).

(** ** Other bases *)

Definition true_words : list (list Z) := txt <$> ["true"; "t"; "yes"; "y"; "on"; "up"; "running"; "enabled"; "available"; "ok"; "master"]%string.
Definition false_words : list (list Z) := txt <$> ["false"; "f"; "no"; "n"; "off"; "down"; "unused"; "disabled"; "unavailable"; "err"; "slave"]%string.

(** The words are compared with the first 15 characters. *)
Definition is_boolean (s : list Z) : option Z :=
  match zbx_is_double s with
  | Some d => Some (if dbl_eq d dbl_zero then 0 else 1)
  | None =>
      let tmp := zbx_strlower (take 15 s) in
      if bool_decide (tmp ∈ true_words) then Some 1 else if bool_decide (tmp ∈ false_words) then Some 0 else None
  end.

(** Spaces, digits and spaces, with at least one digit. *)
Definition spaced_digits (dig : Z -> bool) (s : list Z) : bool :=
  let s := skip_while (Z.eqb SPACE) s in
  dig (deref s) && match skip_while (Z.eqb SPACE) (skip_while dig s) with [] => true | _ => false end.

Definition is_uoct (s : list Z) : bool := spaced_digits (fun c => (48 <=? c) && (c <=? 55)) s.
Definition is_uhex (s : list Z) : bool := spaced_digits isxdigit s.

(** [sscanf] of an unsigned number: the largest one when it is out of range. *)
Fixpoint scan_digits_in (dig : Z -> bool) (base : Z) (s : list Z) (n : Z) : Z :=
  match s with
  | c :: s => if dig c then scan_digits_in dig base s (n * base + hex_value c) else n
  | [] => n
  end.
Definition sscanf_unsigned (dig : Z -> bool) (base : Z) (s : list Z) : Z := Z.min max_uint64 (scan_digits_in dig base (skip_while isspace s) 0).

Inductive base_type := BOOL2DEC | OCT2DEC | HEX2DEC.

Definition item_preproc_2dec (value : zbx_variant_t) (op : base_type) : outcome :=
  with_text value (fun s =>
    let s := zbx_rtrim [SPACE; QUOT; 10; 13] (zbx_ltrim [SPACE; QUOT] s) in
    let invalid := (VStr s, Some (txt "invalid value format")) in
    match op with
    | BOOL2DEC => match is_boolean s with Some n => (VUi64 n, None) | None => invalid end
    | OCT2DEC => if is_uoct s then (VUi64 (sscanf_unsigned (fun c => (48 <=? c) && (c <=? 55)) 8 s), None) else invalid
    | HEX2DEC =>
        if is_uhex s then (VUi64 (sscanf_unsigned isxdigit 16 s), None)
        else if zbx_is_hex_string s then (VUi64 (sscanf_unsigned isxdigit 16 (zbx_remove_chars [SPACE; 10] s)), None)
        else invalid
    end).

(** ** Parameters *)

(** [strchr(params, '\n')]: what is before and behind the first newline. *)
Fixpoint split_newline (s : list Z) : option (list Z * list Z) :=
  match s with
  | [] => None
  | c :: s => if c =? 10 then Some ([], s) else '(a, b) ← split_newline s; Some (c :: a, b)
  end.

Section steps.
Context (epsilon : double).

(** The message when the value is not in the range. *)
Definition item_preproc_validate_range (value_type : item_value_type) (value : zbx_variant_t) (params : list Z) : option (list Z) :=
  match zbx_item_preproc_convert_value_to_numeric value value_type with
  | inl e => Some e
  | inr value_num =>
      match split_newline params with
      | None => Some (txt "validation range is not specified")
      | Some (min, max) =>
          let limit s := match s with [] => Some VNone | _ => zbx_variant_set_numeric s end in
          match limit min, limit max with
          | None, _ => Some (txt "validation range minimum value is invalid: " ++ min)
          | _, None => Some (txt "validation range maximum value is invalid: " ++ max)
          | Some range_min, Some range_max =>
              if (negb (bool_decide (range_min = VNone)) && (zbx_variant_compare epsilon value_num range_min <? 0)) ||
                 (negb (bool_decide (range_max = VNone)) && (zbx_variant_compare epsilon range_max value_num <? 0))
              then
                let less := match min with [] => [] | _ => txt " less than " ++ min ++ match max with [] => [] | _ => txt " or" end end in
                let greater := match max with [] => [] | _ => txt " greater than " ++ max end in
                Some (txt "value is" ++ less ++ greater)
              else None
          end
      end
  end.

(** ** Throttling *)

(** The value, the history and its time. *)
Definition item_preproc_throttle_value (value : zbx_variant_t) (ts : zbx_timespec_t) (history_value : zbx_variant_t) (history_ts : zbx_timespec_t)
    : zbx_variant_t * zbx_variant_t * zbx_timespec_t :=
  if zbx_variant_compare epsilon value history_value =? 0 then (VNone, value, history_ts) else (value, value, ts).

Definition item_preproc_throttle_timed_value (value : zbx_variant_t) (ts : zbx_timespec_t) (params : list Z)
    (history_value : zbx_variant_t) (history_ts : zbx_timespec_t) : outcome * zbx_variant_t * zbx_timespec_t :=
  match zbx_is_time_suffix params (zlen params) with
  | None => (value, Some (txt "invalid time period: " ++ params), VNone, history_ts)
  | Some timeout =>
      let period := match value with VNone => 0 | _ => ts_s ts - ts_s history_ts end in
      if (zbx_variant_compare epsilon value history_value =? 0) && (period <? timeout) then (VNone, None, value, history_ts)
      else (value, None, value, ts)
  end.
End steps.

(** ** Replacement *)

Definition item_preproc_str_replace (value : zbx_variant_t) (params : list Z) : outcome :=
  match split_newline params with
  | None => (value, Some (txt "cannot find second parameter"))
  | Some ([], _) => (value, Some (txt "first parameter is expected"))
  | Some (search, replace) =>
      with_text value (fun s => (VStr (zbx_string_replace s (unescape_param true search) (unescape_param true replace)), None))
  end.
