(* ===== verification/Preproc.v ===== *)
(** * Preprocessing of values (src/libs/zbxpreproc and
    src/zabbix_server/preprocessor/glb_preproc_worker.c)

    A value of an item goes through the steps of the item ([pp_execute]); a
    step may fail and has a handler of the failure; the steps that compare a
    value with the one before keep it in the history of the item.  The result
    goes to the processing and is the input of the dependent items, which share
    a cache of the parsed value ([preprocess_metric_execute_steps]).

    What calls other libraries is an argument ([engines]): regular expressions,
    XML, scripts, JSON path, Prometheus, CSV, SNMP texts, the configuration and
    the accounting of discovered entities. *)
From Stdlib Require Import String Ascii.
From stdpp Require Import prelude list gmap.
From Stdlib Require Import ZArith Lia SpecFloat.
From S2P Require Import Prelude JsonText Macro Interval Num Scan Double Variant Utf8 JsonParser JsonRead EvalCalc EvalFunc EvalSerial PreprocItem.
#[local] Open Scope Z_scope.

Inductive step_type :=
  | ZBX_PREPROC_NONE | ZBX_PREPROC_MULTIPLIER | ZBX_PREPROC_RTRIM | ZBX_PREPROC_LTRIM | ZBX_PREPROC_TRIM | ZBX_PREPROC_REGSUB
  | ZBX_PREPROC_BOOL2DEC | ZBX_PREPROC_OCT2DEC | ZBX_PREPROC_HEX2DEC | ZBX_PREPROC_DELTA_VALUE | ZBX_PREPROC_DELTA_SPEED
  | ZBX_PREPROC_XPATH | ZBX_PREPROC_JSONPATH | ZBX_PREPROC_VALIDATE_RANGE | ZBX_PREPROC_VALIDATE_REGEX | ZBX_PREPROC_VALIDATE_NOT_REGEX
  | ZBX_PREPROC_ERROR_FIELD_JSON | ZBX_PREPROC_ERROR_FIELD_XML | ZBX_PREPROC_ERROR_FIELD_REGEX
  | ZBX_PREPROC_THROTTLE_VALUE | ZBX_PREPROC_THROTTLE_TIMED_VALUE | ZBX_PREPROC_SCRIPT
  | ZBX_PREPROC_PROMETHEUS_PATTERN | ZBX_PREPROC_PROMETHEUS_TO_JSON | ZBX_PREPROC_CSV_TO_JSON | ZBX_PREPROC_STR_REPLACE
  | ZBX_PREPROC_VALIDATE_NOT_SUPPORTED | ZBX_PREPROC_XML_TO_JSON | ZBX_PREPROC_SNMP_WALK_TO_VALUE | ZBX_PREPROC_SNMP_WALK_TO_JSON
  | GLB_PREPROC_DISPATCH_ITEM_BY_IP | GLB_PREPROC_THROTTLE_TIMED_VALUE_AGG | GLB_PREPROC_DISPATCH_ITEM
  | GLB_PREPROC_JSON_FILTER | GLB_PREPROC_DISCOVERY_PREPARE
  | PREPROC_UNKNOWN (type : Z).

#[export] Instance step_type_eq_dec : EqDecision step_type.
Proof. solve_decision. Defined.

Inductive error_handler_t := ZBX_PREPROC_FAIL_DEFAULT | ZBX_PREPROC_FAIL_DISCARD_VALUE | ZBX_PREPROC_FAIL_SET_VALUE | ZBX_PREPROC_FAIL_SET_ERROR.

#[export] Instance error_handler_eq_dec : EqDecision error_handler_t.
Proof. solve_decision. Defined.

Record zbx_pp_step_t := Step { sp_type : step_type; sp_params : list Z; sp_error_handler : error_handler_t; sp_error_handler_params : list Z }.

Record metric_t := Metric { m_hostid : Z; m_itemid : Z; m_flags : Z; m_ts : zbx_timespec_t; m_value : zbx_variant_t }.

(** ** The history of the steps (pp_history.c, pp_item.c) *)

Record zbx_pp_step_history_t := StepHistory { sh_index : Z; sh_value : zbx_variant_t; sh_ts : zbx_timespec_t }.
Definition zbx_pp_history_t : Type := list zbx_pp_step_history_t.

Definition zbx_pp_history_create : zbx_pp_history_t := [].
Definition zbx_pp_history_add (history : zbx_pp_history_t) (index : Z) (value : zbx_variant_t) (ts : zbx_timespec_t) : zbx_pp_history_t :=
  history ++ [StepHistory index value ts].

(** [zbx_vector_remove_noorder]: the last element takes the place. *)
Definition remove_noorder {A} (l : list A) (i : nat) : list A :=
  match last l with
  | Some x => take (length l - 1) (<[i := x]> l)
  | None => []
  end.

Definition no_ts : zbx_timespec_t := Timespec 0 0.

Definition pp_history_pop (history : option zbx_pp_history_t) (index : Z) : option zbx_pp_history_t * zbx_variant_t * zbx_timespec_t :=
  match history with
  | Some h =>
      match list_find (fun e => sh_index e = index) h with
      | Some (i, e) => (Some (remove_noorder h i), sh_value e, sh_ts e)
      | None => (history, VNone, no_ts)
      end
  | None => (None, VNone, no_ts)
  end.

Definition zbx_pp_preproc_has_history (type : step_type) : bool :=
  match type with
  | ZBX_PREPROC_DELTA_VALUE | ZBX_PREPROC_DELTA_SPEED | ZBX_PREPROC_THROTTLE_VALUE | ZBX_PREPROC_THROTTLE_TIMED_VALUE
  | ZBX_PREPROC_SCRIPT | GLB_PREPROC_DISCOVERY_PREPARE | GLB_PREPROC_THROTTLE_TIMED_VALUE_AGG => true
  | _ => false
  end.

(** Without the counter of references, the type of the item and the mode of
    processing, which the steps do not use; of the flags, whether the item is a
    discovery rule. *)
Record zbx_pp_item_preproc_t := ItemPreproc {
  pp_value_type : item_value_type;
  pp_discovery_rule : bool;
  pp_steps : list zbx_pp_step_t;
  pp_dep_itemids : list Z;
  pp_history : option zbx_pp_history_t }.

(** As the synchronisation of the configuration counts the steps. *)
Definition history_num (preproc : zbx_pp_item_preproc_t) : nat :=
  length (filter (fun s => zbx_pp_preproc_has_history (sp_type s) = true) (pp_steps preproc)).

Definition set_history (preproc : zbx_pp_item_preproc_t) (history : option zbx_pp_history_t) : zbx_pp_item_preproc_t :=
  ItemPreproc (pp_value_type preproc) (pp_discovery_rule preproc) (pp_steps preproc) (pp_dep_itemids preproc) history.

(** ** The messages of failed values (pp_error.c) *)

Record zbx_pp_result_t := PpResult { rs_value : zbx_variant_t; rs_value_raw : zbx_variant_t; rs_action : error_handler_t }.
Definition pp_result_set (value : zbx_variant_t) (action : error_handler_t) (value_raw : zbx_variant_t) : zbx_pp_result_t := PpResult value value_raw action.

Record zbx_db_mock_field_t := MockField { mf_bytes_num : Z; mf_chars_num : Z }.
Definition zbx_db_mock_field_init (field_len : Z) : zbx_db_mock_field_t := MockField (-1) field_len.

(** [None]: there is no space for the text. *)
Definition zbx_db_mock_field_append (field : zbx_db_mock_field_t) (text : list Z) : option zbx_db_mock_field_t :=
  let bytes_num := if mf_bytes_num field =? -1 then 0 else zlen text in
  let chars_num := if mf_chars_num field =? -1 then 0 else zbx_strlen_utf8 text in
  if (negb (mf_bytes_num field =? -1) && (mf_bytes_num field <? bytes_num)) || (negb (mf_chars_num field =? -1) && (mf_chars_num field <? chars_num)) then None
  else Some (MockField (mf_bytes_num field - bytes_num) (mf_chars_num field - chars_num)).

Definition ZBX_PP_VALUE_PREVIEW_LEN : Z := 100.
Definition ZBX_ITEM_ERROR_LEN : Z := 2048.
Definition iscntrl (c : Z) : bool := (c <? 32) || (c =? 127).

Definition pp_error_format_value (value : zbx_variant_t) : list Z :=
  let value_desc := zbx_variant_value_desc value in
  let printable := fmap (fun c => if iscntrl c then 46 else c) in
  if ZBX_PP_VALUE_PREVIEW_LEN <? zbx_strlen_utf8 value_desc then
    printable (take (Z.to_nat (zbx_strlen_utf8_nchars value_desc (ZBX_PP_VALUE_PREVIEW_LEN - 3))) value_desc) ++ txt "..."
  else printable value_desc.

Definition action_text (action : error_handler_t) : list Z :=
  match action with
  | ZBX_PREPROC_FAIL_DEFAULT => []
  | ZBX_PREPROC_FAIL_DISCARD_VALUE => txt " (discard value)"
  | ZBX_PREPROC_FAIL_SET_VALUE => txt " (set value)"
  | ZBX_PREPROC_FAIL_SET_ERROR => txt " (set error)"
  end.

Definition pp_error_format_result (step : Z) (result : zbx_pp_result_t) : list Z :=
  match rs_value result with
  | VErr error => print_Z step ++ txt ". Failed" ++ action_text (rs_action result) ++ txt ": " ++ error ++ [10]
  | value => print_Z step ++ txt ". Result" ++ action_text (rs_action result) ++ txt ": " ++ pp_error_format_value value ++ [10]
  end.

(** The steps before the failed one, from the last: as many as there is space for. *)
Fixpoint format_first (field : zbx_db_mock_field_t) (results : list (Z * zbx_pp_result_t)) : list (list Z) :=
  match results with
  | [] => []
  | (step, result) :: results =>
      let err_step := pp_error_format_result step result in
      match zbx_db_mock_field_append field err_step with
      | Some field => err_step :: format_first field results
      | None => []
      end
  end.

Definition append_or_same (field : zbx_db_mock_field_t) (text : list Z) : zbx_db_mock_field_t := default field (zbx_db_mock_field_append field text).

Definition numbered (results : list zbx_pp_result_t) : list (Z * zbx_pp_result_t) := imap (fun i r => (Z.of_nat i + 1, r)) results.

Definition pp_format_error (value : zbx_variant_t) (results : list zbx_pp_result_t) : list Z :=
  let header := txt "Preprocessing failed for: " ++ pp_error_format_value value ++ [10] in
  let dots := txt "..." ++ [10] in
  let field := append_or_same (append_or_same (zbx_db_mock_field_init ZBX_ITEM_ERROR_LEN) header) dots in
  let results_str :=
    match rev (numbered results) with
    | [] => []
    | (n, failed) :: first =>
        let err_step := pp_error_format_result n failed in
        err_step :: match zbx_db_mock_field_append field err_step with Some field => format_first field first | None => [] end
    end in
  let omitted := if (length results_str <? length results)%nat then dots else [] in
  let error := zbx_rtrim ZBX_WHITESPACE (header ++ omitted ++ mjoin (rev results_str)) in
  if ZBX_ITEM_ERROR_LEN <? zbx_strlen_utf8 error then
    take (Z.to_nat (zbx_strlen_utf8_nchars error (ZBX_ITEM_ERROR_LEN - 3))) error ++ txt "..."
  else error.

Definition pp_error_on_fail (value : zbx_variant_t) (step : zbx_pp_step_t) : zbx_variant_t * error_handler_t :=
  (match sp_error_handler step with
   | ZBX_PREPROC_FAIL_DISCARD_VALUE => VNone
   | ZBX_PREPROC_FAIL_SET_VALUE => VStr (sp_error_handler_params step)
   | ZBX_PREPROC_FAIL_SET_ERROR => VErr (sp_error_handler_params step)
   | ZBX_PREPROC_FAIL_DEFAULT => value
   end, sp_error_handler step).

(** ** The libraries *)

(** The state of a JSON object that queries of JSON path change: the number of
    indexes of the root, -1 when there may be none, and the index. *)
Record jsonobj_index (D : Type) := JsonobjIndex { ji_index_num : Z; ji_index : option D }.
Arguments JsonobjIndex {D} _ _.
Arguments ji_index_num {D} _.
Arguments ji_index {D} _.

(** [jsonobj_init]: the state of an object that was opened. *)
Definition no_index {D} : jsonobj_index D := JsonobjIndex 0 None.

Definition zbx_jsonobj_disable_indexing {D} (ix : jsonobj_index D) : jsonobj_index D :=
  if ji_index_num ix =? 0 then JsonobjIndex (-1) (ji_index ix) else ix.

(** An error message on the left.  A query of JSON path goes through an object
    with its index and may change the index; a query of a cache of Prometheus
    rows may add an index to it. *)
Record engines := Engines {
  epsilon : double;
  regexp_t : Type;
  zbx_regexp_compile : list Z -> list Z + regexp_t;
  zbx_regexp_compile_ext : list Z -> list Z + regexp_t;
  zbx_regexp_match_precompiled : list Z -> regexp_t -> bool;
  zbx_mregexp_sub_precompiled : list Z -> regexp_t -> list Z -> option (list Z);
  zbx_mregexp_sub : list Z -> list Z -> list Z -> option (option (list Z));
  zbx_json_strerror : parse_error -> list Z;
  jsonobj_index_t : Type;
  zbx_jsonobj_query : zbx_jsonobj -> jsonobj_index jsonobj_index_t -> list Z -> (list Z + option (list Z)) * jsonobj_index jsonobj_index_t;
  zbx_jsonpath_query : zbx_json_parse -> list Z -> list Z + option (list Z);
  zbx_query_xpath : list Z -> list Z -> list Z + zbx_variant_t;
  item_preproc_get_error_from_xml : zbx_variant_t -> list Z -> bool * option (list Z);
  item_preproc_xml_to_json : zbx_variant_t -> outcome;
  item_preproc_script : zbx_variant_t -> list Z -> zbx_variant_t -> outcome * zbx_variant_t;
  prometheus_t : Type;
  zbx_prometheus_init : list Z -> list Z + prometheus_t;
  zbx_prometheus_pattern : list Z -> list Z -> list Z -> list Z -> list Z + list Z;
  zbx_prometheus_pattern_ex : prometheus_t -> list Z -> list Z -> list Z -> (list Z + list Z) * prometheus_t;
  item_preproc_prometheus_to_json : zbx_variant_t -> list Z -> outcome;
  item_preproc_csv_to_json : zbx_variant_t -> list Z -> outcome;
  snmp_value_cache_t : Type;
  zbx_snmp_value_cache_init : list Z -> list Z + snmp_value_cache_t;
  preproc_snmp_value_from_walk : list Z -> list Z -> list Z + list Z;
  snmp_value_from_cached_walk : snmp_value_cache_t -> list Z -> list Z + list Z;
  item_preproc_snmp_walk_to_json : zbx_variant_t -> list Z -> outcome;
  get_param_name_from_json : list Z -> list Z -> option (list Z);
  DCconfig_get_itemid_by_key : list Z -> list Z -> option (Z * Z);
  glb_state_host_find_by_ip : list Z -> Z;
  DCconfig_get_itemid_by_item_key_hostid : Z -> list Z -> option Z;
  json_filter_fields : list Z -> list Z -> option (list Z);
  discovery_t : Type;
  preproc_discovery_account_json : discovery_t -> Z -> list Z -> list Z -> discovery_t * option (list Z) }.

Section preproc.
Context (E : engines).

(** ** The cache of dependent items (pp_cache.c) *)

Inductive cached_data :=
  | CachedJson (obj : zbx_jsonobj) (index : jsonobj_index (jsonobj_index_t E))
  | CachedPrometheus (prom : prometheus_t E)
  | CachedSnmp (snmp : snmp_value_cache_t E).

Record zbx_pp_cache_t := PpCache { pc_type : step_type; pc_value : zbx_variant_t; pc_data : option cached_data }.

Definition pp_cache_create (preproc : zbx_pp_item_preproc_t) (value : zbx_variant_t) : zbx_pp_cache_t :=
  PpCache (match pp_steps preproc with s :: _ => sp_type s | [] => ZBX_PREPROC_NONE end) value None.

(** The value is not copied when the parsed one is there. *)
Definition pp_cache_prepare_output_value (cache : zbx_pp_cache_t) (step_type : step_type) (value : zbx_variant_t) : zbx_variant_t :=
  match pc_data cache with
  | Some _ => if decide (step_type = pc_type cache) then value else pc_value cache
  | None => pc_value cache
  end.

Definition cached_as (cache : option zbx_pp_cache_t) (type : step_type) : option zbx_pp_cache_t :=
  c ← cache; if decide (pc_type c = type) then Some c else None.

(** ** The steps that use the cache *)

(** The text of the value, or a message. *)
Definition to_text (value : zbx_variant_t) : list Z + list Z :=
  match item_preproc_convert_value value ZBX_VARIANT_STR with
  | (VStr s, None) => inr s
  | (_, Some e) => inl e
  | (_, None) => inl []
  end.

Definition no_match : list Z := txt "no data matches the specified path".

Definition matched (r : list Z + option (list Z)) : list Z + list Z :=
  match r with
  | inl e => inl e
  | inr None => inl no_match
  | inr (Some data) => inr data
  end.

(** A query of the cached object; a query that fails leaves the index as it is. *)
Definition query_cached (c : zbx_pp_cache_t) (obj : zbx_jsonobj) (index : jsonobj_index (jsonobj_index_t E)) (params : list Z) : (list Z + list Z) * option zbx_pp_cache_t :=
  let '(r, index) := zbx_jsonobj_query E obj index params in
  (matched r, Some (PpCache (pc_type c) (pc_value c) (Some (CachedJson obj (match r with inl _ => index | inr _ => zbx_jsonobj_disable_indexing index end))))).

(** The new text or a message, and the cache as it is left. *)
Definition pp_excute_jsonpath_query (cache : option zbx_pp_cache_t) (value : zbx_variant_t) (params : list Z) : res ((list Z + list Z) * option zbx_pp_cache_t) :=
  match cached_as cache ZBX_PREPROC_JSONPATH with
  | None =>
      match to_text value with
      | inl e => Ret (inl e, cache)
      | inr s =>
          o ← zbx_jsonobj_open s;
          Ret (match o with inr e => inl (zbx_json_strerror E e) | inl obj => matched (zbx_jsonobj_query E obj no_index params).1 end, cache)
      end
  | Some c =>
      match pc_data c with
      | None =>
          match to_text value with
          | inl e => Ret (inl e, cache)
          | inr s =>
              o ← zbx_jsonobj_open s;
              Ret (match o with
                   | inr e => (inl (zbx_json_strerror E e), Some (PpCache ZBX_PREPROC_NONE (pc_value c) (pc_data c)))
                   | inl obj => query_cached c obj no_index params
                   end)
          end
      | Some (CachedJson obj index) => Ret (query_cached c obj index params)
      | Some _ => Halt BadAccess
      end
  end.

Definition pp_execute_jsonpath (cache : option zbx_pp_cache_t) (value : zbx_variant_t) (params : list Z) : res (bool * zbx_variant_t * option zbx_pp_cache_t) :=
  '(r, cache) ← pp_excute_jsonpath_query cache value params;
  Ret (match r with
       | inr data => (true, VStr data, cache)
       | inl e => (false, VErr (txt "cannot extract value from json by path " ++ quoted params ++ txt ": " ++ e), cache)
       end).

Definition prometheus_error (e : list Z) : list Z := txt "cannot apply Prometheus pattern: " ++ e.

Definition pp_execute_prometheus_query (cache : option zbx_pp_cache_t) (value : zbx_variant_t) (params : list Z) : res ((list Z + list Z) * option zbx_pp_cache_t) :=
  match split_newline params with
  | None => Ret (inl (txt "cannot find second parameter"), cache)
  | Some (pattern, rest) =>
      match split_newline rest with
      | None => Ret (inl (txt "cannot find third parameter"), cache)
      | Some (request, output) =>
          let answer r := match r with inl e => inl (prometheus_error e) | inr v => inr v end in
          let query c prom :=
            let '(r, prom) := zbx_prometheus_pattern_ex E prom pattern request output in
            (answer r, Some (PpCache (pc_type c) (pc_value c) (Some (CachedPrometheus prom)))) in
          match cached_as cache ZBX_PREPROC_PROMETHEUS_PATTERN with
          | None =>
              Ret (match to_text value with inl e => inl e | inr s => answer (zbx_prometheus_pattern E s pattern request output) end, cache)
          | Some c =>
              match pc_data c with
              | None =>
                  Ret (match to_text value with
                       | inl e => (inl e, cache)
                       | inr s =>
                           match zbx_prometheus_init E s with
                           | inl e => (inl (prometheus_error e), Some (PpCache ZBX_PREPROC_NONE (pc_value c) (pc_data c)))
                           | inr prom => query c prom
                           end
                       end)
              | Some (CachedPrometheus prom) => Ret (query c prom)
              | Some _ => Halt BadAccess
              end
          end
      end
  end.

Definition item_preproc_snmp_walk_to_value (cache : option zbx_pp_cache_t) (value : zbx_variant_t) (params : list Z) : res ((list Z + list Z) * option zbx_pp_cache_t) :=
  match params with
  | [] => Ret (inl (txt "parameter should be set"), cache)
  | _ =>
      let failed e := inl (txt "unable to extract value for given OID: " ++ e) in
      let answer r := match r with inl e => failed e | inr v => inr v end in
      match cached_as cache ZBX_PREPROC_SNMP_WALK_TO_VALUE with
      | None => Ret (match to_text value with inl e => inl e | inr s => answer (preproc_snmp_value_from_walk E s params) end, cache)
      | Some c =>
          match pc_data c with
          | None =>
              Ret (match to_text value with
                   | inl e => (inl e, cache)
                   | inr s =>
                       match zbx_snmp_value_cache_init E s with
                       | inl e => (failed e, Some (PpCache ZBX_PREPROC_NONE (pc_value c) (pc_data c)))
                       | inr snmp => (answer (snmp_value_from_cached_walk E snmp params), Some (PpCache (pc_type c) (pc_value c) (Some (CachedSnmp snmp))))
                       end
                   end)
          | Some (CachedSnmp snmp) => Ret (answer (snmp_value_from_cached_walk E snmp params), cache)
          | Some _ => Halt BadAccess
          end
      end
  end.

(** ** The other steps (pp_execute.c, item_preproc.c): whether the step did its
    work, and the value *)

Definition type_desc (value : zbx_variant_t) : list Z := zbx_get_variant_type_desc (variant_type value).

(** The type in some messages is that of the value already cleared. *)
Definition cleared_type : list Z := quoted (type_desc VNone).

Definition or_error (o : outcome) (message : list Z -> list Z) : bool * zbx_variant_t :=
  match o with
  | (value, None) => (true, value)
  | (_, Some e) => (false, VErr (message e))
  end.

Definition text_or_error (r : list Z + list Z) (message : list Z -> list Z) : bool * zbx_variant_t :=
  match r with
  | inr s => (true, VStr s)
  | inl e => (false, VErr (message e))
  end.

Definition pp_execute_multiply (value_type : item_value_type) (value : zbx_variant_t) (params : list Z) : res (bool * zbx_variant_t) :=
  let buffer := zbx_trim_float (to_buffer params) in
  match zbx_is_double buffer with
  | None => Ret (false, VErr (txt "a numerical value is expected or the value is out of range"))
  | Some _ =>
      o ← item_preproc_multiplier_variant value_type value buffer;
      Ret (or_error o (fun e => txt "cannot apply multiplier " ++ quoted params ++ txt " to value of type " ++ quoted (type_desc value) ++ txt ": " ++ e))
  end.

Definition pp_trim_desc (op : trim_type) : list Z := match op with RTRIM => txt "right " | LTRIM => txt "left " | TRIM => [] end.

Definition pp_execute_trim (op : trim_type) (value : zbx_variant_t) (params : list Z) : bool * zbx_variant_t :=
  or_error (item_preproc_trim value op params)
    (fun e => txt "cannot perform " ++ pp_trim_desc op ++ txt "trim of " ++ quoted (zbx_str_printable_dyn params) ++ txt " for value of type " ++ cleared_type ++ txt ": " ++ e).

Definition pp_check_not_error (value : zbx_variant_t) : bool := match value with VErr _ => false | _ => true end.

Definition pp_delta_desc (op : delta_type) : list Z := match op with DELTA_VALUE => txt "simple change" | DELTA_SPEED => txt "speed per second" end.

Definition pp_execute_delta (op : delta_type) (value_type : item_value_type) (value : zbx_variant_t) (ts : zbx_timespec_t)
    (history_value : zbx_variant_t) (history_ts : zbx_timespec_t) : res (bool * zbx_variant_t * zbx_variant_t * zbx_timespec_t) :=
  '(o, history_value, history_ts) ← item_preproc_delta value_type value ts op history_value history_ts;
  let '(ok, value) := or_error o (fun e => txt "cannot calculate delta (" ++ pp_delta_desc op ++ txt ") for value of type " ++ cleared_type ++ txt ": " ++ e) in
  Ret (ok, value, history_value, history_ts).

Definition item_preproc_regsub_op (value : zbx_variant_t) (params : list Z) : list Z + list Z :=
  match to_text value with
  | inl e => inl e
  | inr s =>
      match split_newline params with
      | None => inl (txt "cannot find second parameter")
      | Some (pattern, output) =>
          match zbx_regexp_compile_ext E pattern with
          | inl e => inl (txt "invalid regular expression: " ++ e)
          | inr regex =>
              match zbx_mregexp_sub_precompiled E s regex output with
              | None => inl (txt "pattern does not match")
              | Some new_value => inr new_value
              end
          end
      end
  end.

Definition first_line (params : list Z) : list Z := match split_newline params with Some (a, _) => a | None => params end.

Definition pp_execute_regsub (value : zbx_variant_t) (params : list Z) : bool * zbx_variant_t :=
  text_or_error (item_preproc_regsub_op value params)
    (fun e => txt "cannot perform regular expression " ++ quoted (first_line params) ++ txt " match for value of type " ++ cleared_type ++ txt ": " ++ e).

Definition pp_2dec_desc (op : base_type) : list Z := match op with BOOL2DEC => txt "boolean" | OCT2DEC => txt "octal" | HEX2DEC => txt "hexadecimal" end.

Definition pp_execute_2dec (op : base_type) (value : zbx_variant_t) : bool * zbx_variant_t :=
  let o := item_preproc_2dec value op in
  or_error o (fun e => txt "cannot convert value  " ++ quoted (zbx_variant_value_desc (fst o)) ++ txt " from " ++ pp_2dec_desc op ++ txt " to decimal format: " ++ e).

Definition pp_execute_xpath_query (value : zbx_variant_t) (params : list Z) : outcome :=
  match to_text value with
  | inl e => (value, Some e)
  | inr s =>
      match zbx_query_xpath E s params with
      | inr v => (v, None)
      | inl e => (value, Some (txt "cannot extract XML value with xpath " ++ quoted params ++ txt ": " ++ e))
      end
  end.

Definition pp_execute_xpath (value : zbx_variant_t) (params : list Z) : bool * zbx_variant_t := or_error (pp_execute_xpath_query value params) id.

Definition valid_or_error (value : zbx_variant_t) (error : option (list Z)) : bool * zbx_variant_t :=
  match error with None => (true, value) | Some e => (false, VErr e) end.

Definition pp_validate_range (value_type : item_value_type) (value : zbx_variant_t) (params : list Z) : bool * zbx_variant_t :=
  valid_or_error value (item_preproc_validate_range (epsilon E) value_type value params).

(** [wanted]: the value has to match, or not to match. *)
Definition validate_regex (wanted : bool) (value : zbx_variant_t) (params : list Z) (unlike : list Z) : option (list Z) :=
  let message e := Some (txt "cannot perform regular expression " ++ quoted params ++ txt " validation for value of type " ++ quoted (type_desc value) ++ txt ": " ++ e) in
  match zbx_variant_convert value ZBX_VARIANT_STR with
  | Some (VStr s) =>
      match zbx_regexp_compile E params with
      | inl e => message (txt "invalid regular expression pattern: " ++ e)
      | inr regex => if eqb (zbx_regexp_match_precompiled E s regex) wanted then None else message unlike
      end
  | _ => message (txt "cannot convert value to string")
  end.

Definition item_preproc_validate_regex (value : zbx_variant_t) (params : list Z) : option (list Z) :=
  validate_regex true value params (txt "value does not match regular expression").
Definition item_preproc_validate_not_regex (value : zbx_variant_t) (params : list Z) : option (list Z) :=
  validate_regex false value params (txt "value matches regular expression").

Definition pp_validate_regex (value : zbx_variant_t) (params : list Z) : bool * zbx_variant_t := valid_or_error value (item_preproc_validate_regex value params).
Definition pp_validate_not_regex (value : zbx_variant_t) (params : list Z) : bool * zbx_variant_t := valid_or_error value (item_preproc_validate_not_regex value params).

(** A message of spaces is none. *)
Definition trimmed_error (error : option (list Z)) : option (list Z) :=
  match error with
  | Some e => match zbx_lrtrim ZBX_WHITESPACE e with [] => None | e => Some e end
  | None => None
  end.

(** The text is read from the value itself, not from its conversion. *)
Definition item_preproc_get_error_from_json (value : zbx_variant_t) (params : list Z) : res (bool * option (list Z)) :=
  match to_text value with
  | inl e => Ret (false, Some e)
  | inr _ =>
      match value with
      | VStr s =>
          jp ← zbx_json_open s;
          Ret (match jp with
               | None => (true, None)
               | Some jp =>
                   match zbx_jsonpath_query E jp params with
                   | inl e => (false, Some e)
                   | inr error => (true, trimmed_error error)
                   end
               end)
      | _ => Halt BadAccess
      end
  end.

Definition item_preproc_get_error_from_regex (value : zbx_variant_t) (params : list Z) : bool * option (list Z) :=
  match to_text value with
  | inl e => (false, Some e)
  | inr s =>
      match split_newline params with
      | None => (false, Some (txt "cannot find second parameter"))
      | Some (pattern, output) =>
          match zbx_mregexp_sub E s pattern output with
          | None => (false, Some (txt "invalid regular expression " ++ quoted pattern))
          | Some error => (true, trimmed_error error)
          end
      end
  end.

(** A message that was found makes the step fail. *)
Definition found_error (value : zbx_variant_t) (r : bool * option (list Z)) : bool * zbx_variant_t :=
  match r with
  | (_, Some e) => (false, VErr e)
  | (ok, None) => (ok, value)
  end.

Definition pp_error_from_json (value : zbx_variant_t) (params : list Z) : res (bool * zbx_variant_t) :=
  r ← item_preproc_get_error_from_json value params; Ret (found_error value r).
Definition pp_error_from_xml (value : zbx_variant_t) (params : list Z) : bool * zbx_variant_t := found_error value (item_preproc_get_error_from_xml E value params).
Definition pp_error_from_regex (value : zbx_variant_t) (params : list Z) : bool * zbx_variant_t := found_error value (item_preproc_get_error_from_regex value params).

Definition pp_throttle_timed_value (value : zbx_variant_t) (ts : zbx_timespec_t) (params : list Z) (history_value : zbx_variant_t) (history_ts : zbx_timespec_t)
    : bool * zbx_variant_t * zbx_variant_t * zbx_timespec_t :=
  let '(o, history_value, history_ts) := item_preproc_throttle_timed_value (epsilon E) value ts params history_value history_ts in
  let '(ok, value) := or_error o id in (ok, value, history_value, history_ts).

Definition pp_execute_script (value : zbx_variant_t) (params : list Z) (history_value : zbx_variant_t) : bool * zbx_variant_t * zbx_variant_t :=
  let '(o, history_value) := item_preproc_script E value params history_value in
  let '(ok, value) := or_error o id in (ok, value, history_value).

Definition pp_execute_prometheus_pattern (cache : option zbx_pp_cache_t) (value : zbx_variant_t) (params : list Z) : res (bool * zbx_variant_t * option zbx_pp_cache_t) :=
  '(r, cache) ← pp_execute_prometheus_query cache value params; Ret (text_or_error r id, cache).
Definition pp_execute_prometheus_to_json (value : zbx_variant_t) (params : list Z) : bool * zbx_variant_t := or_error (item_preproc_prometheus_to_json E value params) id.
Definition pp_execute_csv_to_json (value : zbx_variant_t) (params : list Z) : bool * zbx_variant_t := or_error (item_preproc_csv_to_json E value params) id.
Definition pp_execute_xml_to_json (value : zbx_variant_t) : bool * zbx_variant_t := or_error (item_preproc_xml_to_json E value) id.
Definition pp_execute_str_replace (value : zbx_variant_t) (params : list Z) : bool * zbx_variant_t := or_error (item_preproc_str_replace value params) id.
Definition pp_execute_snmp_to_value (cache : option zbx_pp_cache_t) (value : zbx_variant_t) (params : list Z) : res (bool * zbx_variant_t * option zbx_pp_cache_t) :=
  '(r, cache) ← item_preproc_snmp_walk_to_value cache value params; Ret (text_or_error r id, cache).
Definition pp_execute_snmp_to_json (value : zbx_variant_t) (params : list Z) : bool * zbx_variant_t := or_error (item_preproc_snmp_walk_to_json E value params) id.

(** ** Aggregation over a period (pp_execute_throttle.c) *)

Inductive agg_func := GLB_FUNC_SUM | GLB_FUNC_COUNT | GLB_FUNC_AVG | GLB_FUNC_MAX | GLB_FUNC_MIN.

Definition get_agg_func (func_name : list Z) : option agg_func :=
  if bool_decide (func_name = txt "sum") then Some GLB_FUNC_SUM
  else if bool_decide (func_name = txt "count") then Some GLB_FUNC_COUNT
  else if bool_decide (func_name = txt "avg") then Some GLB_FUNC_AVG
  else if bool_decide (func_name = txt "max") then Some GLB_FUNC_MAX
  else if bool_decide (func_name = txt "min") then Some GLB_FUNC_MIN
  else None.

(** [data.dbl] whatever the value is: the bits of an unsigned number, the address of a text. *)
Definition data_dbl (v : zbx_variant_t) : res double :=
  match v with
  | VDbl d => Ret d
  | VUi64 n => Ret (bits_dbl n)
  | _ => Halt Undefined
  end.

Definition int_add (a b : Z) : res Z := if Z.abs (a + b) <=? 2147483647 then Ret (a + b) else Halt Undefined.

(** The value for [func], once it has been found to be usable. *)
Definition agg_value (func : agg_func) (value : zbx_variant_t) : option zbx_variant_t :=
  match func, value with
  | GLB_FUNC_COUNT, _ | _, (VDbl _ | VUi64 _) => Some value
  | _, VStr _ => Some (default value (zbx_variant_convert value ZBX_VARIANT_DBL))
  | _, _ => None
  end.

(** The start of a period. *)
Definition agg_start (func : agg_func) (value : zbx_variant_t) (ts : zbx_timespec_t) : res (zbx_variant_t * zbx_timespec_t) :=
  h ← match func with GLB_FUNC_COUNT => Ret (VUi64 0) | _ => d ← data_dbl value; Ret (VDbl d) end;
  Ret (h, Timespec (ts_s ts) 0).

(** The history with the value. *)
Definition agg_add (func : agg_func) (value history_value : zbx_variant_t) (history_ts : zbx_timespec_t) : res zbx_variant_t :=
  let combine f := h ← data_dbl history_value; d ← data_dbl value; Ret (VDbl (f h d)) in
  match func with
  | GLB_FUNC_MIN => combine (fun h d => if dbl_lt h d then h else d)
  | GLB_FUNC_MAX => combine (fun h d => if dbl_lt d h then h else d)
  | GLB_FUNC_AVG | GLB_FUNC_SUM => if ts_ns history_ts =? 0 then Ret history_value else combine dbl_add
  | GLB_FUNC_COUNT => Ret history_value
  end.

Definition agg_result (func : agg_func) (history_value : zbx_variant_t) (n : Z) : res zbx_variant_t :=
  match func with
  | GLB_FUNC_MIN | GLB_FUNC_MAX | GLB_FUNC_SUM => Ret history_value
  | GLB_FUNC_AVG => h ← data_dbl history_value; Ret (VDbl (dbl_div h (dbl_of_Z n)))
  | GLB_FUNC_COUNT => Ret (VUi64 n)
  end.

(** The nanoseconds of the history are the number of the values. *)
Definition pp_execute_throttle_value_agg (value : zbx_variant_t) (ts : zbx_timespec_t) (params : list Z) (history_value : zbx_variant_t) (history_ts : zbx_timespec_t)
    : res (bool * zbx_variant_t * zbx_variant_t * zbx_timespec_t) :=
  let fail e := Ret (false, VErr e, history_value, history_ts) in
  if bool_decide (value = VStr (txt "NaN")) then Ret (true, VNone, history_value, history_ts)
  else match split_newline params with
       | None => fail (txt "cannot find second parameter")
       | Some ([], _) => fail (txt "first parameter must be defined")
       | Some (time, aggf_name) =>
           match get_agg_func aggf_name with
           | None => fail (txt "invalid function name: " ++ aggf_name)
           | Some func =>
               match zbx_is_time_suffix params (zlen time) with
               | None => fail (txt "invalid time period: " ++ params)
               | Some timeout =>
                   match agg_value func value with
                   | None => Ret (false, VNone, VNone, history_ts)
                   | Some value =>
                       '(h, hts) ← match history_value with VNone => agg_start func value ts | _ => Ret (history_value, history_ts) end;
                       h ← agg_add func value h hts;
                       n ← int_add (ts_ns hts) 1;
                       over ← int_add (ts_s hts) timeout;
                       let hts := Timespec (ts_s hts) n in
                       if over <? ts_s ts then v ← agg_result func h n; Ret (true, v, VNone, hts) else Ret (true, VNone, h, hts)
                   end
               end
           end
       end.

(** ** Dispatching (pp_execute_dispatch.c, pp_execute_json_discovery.c) *)

(** [strtok] with newlines: the lines that are not empty; there is space for 16. *)
Fixpoint strtok_newline (s token : list Z) : list (list Z) :=
  let flush := match token with [] => [] | _ => [token] end in
  match s with
  | [] => flush
  | c :: s => if c =? 10 then flush ++ strtok_newline s [] else strtok_newline s (token ++ [c])
  end.

Definition item_preproc_parse_params (params_str : list Z) : res (list (list Z)) :=
  let params := strtok_newline params_str [] in
  if (16 <? length params)%nat then Halt BadAccess else Ret params.

(** The value as it goes on, and the metric that is sent. *)
Definition pp_execute_dispatch (orig_metric : metric_t) (value : zbx_variant_t) (params_in : list Z) : res (zbx_variant_t * list metric_t) :=
  match to_text value with
  | inl _ => Ret (value, [])
  | inr s =>
      params ← item_preproc_parse_params (to_buffer params_in);
      Ret (match params with
           | [name; key] =>
               match (hostname ← get_param_name_from_json E s name; DCconfig_get_itemid_by_key E hostname key) with
               | Some (hostid, itemid) => (VNone, [Metric hostid itemid 0 (m_ts orig_metric) (VStr s)])
               | None => (VStr s, [])
               end
           | _ => (VStr s, [])
           end)
  end.

Fixpoint until_colon (s : list Z) : list Z :=
  match s with
  | [] => []
  | c :: s => if c =? COLON then [] else c :: until_colon s
  end.

Definition pp_execute_dispatch_by_ip (orig_metric : metric_t) (value : zbx_variant_t) (params_in : list Z) : res (zbx_variant_t * list metric_t) :=
  match to_text value with
  | inl _ => Ret (value, [])
  | inr s =>
      params ← item_preproc_parse_params (to_buffer params_in);
      Ret (match params with
           | [name; key] =>
               match get_param_name_from_json E s name with
               | Some ip =>
                   let hostid := glb_state_host_find_by_ip E (until_colon ip) in
                   match (if hostid =? 0 then None else DCconfig_get_itemid_by_item_key_hostid E hostid key) with
                   | Some itemid => (VNone, [Metric hostid itemid 0 (m_ts orig_metric) (VStr s)])
                   | None => (VStr s, [])
                   end
               | None => (VStr s, [])
               end
           | _ => (VStr s, [])
           end)
  end.

Definition pp_execute_json_filter (value : zbx_variant_t) (params : list Z) : bool * zbx_variant_t :=
  match to_text value with
  | inl _ => (false, value)
  | inr s => (true, VStr (default s (json_filter_fields E s params)))
  end.

(** The value is taken for a text. *)
Definition pp_execute_json_discovery_prepare (disc : discovery_t E) (itemid : Z) (value : zbx_variant_t) (params : list Z) : res (zbx_variant_t * discovery_t E) :=
  match value with
  | VStr s =>
      jp ← zbx_json_open s;
      Ret (match jp with
           | None => (VNone, disc)
           | Some _ => let '(disc, response) := preproc_discovery_account_json E disc itemid params s in (match response with Some r => VStr r | None => VNone end, disc)
           end)
  | _ => Halt BadAccess
  end.

(** ** One step, and all of them (pp_execute.c) *)

(** What a step changes: the value, the history of the step, the cache, the
    metrics sent to other items, the discovered entities. *)
Record step_state := StepState {
  st_value : zbx_variant_t;
  st_history_value : zbx_variant_t;
  st_history_ts : zbx_timespec_t;
  st_cache : option zbx_pp_cache_t;
  st_sent : list metric_t;
  st_disc : discovery_t E }.

Definition pp_execute_step (metric_in : metric_t) (value_type : item_value_type) (step : zbx_pp_step_t) (st : step_state) : res (bool * step_state) :=
  let params := sp_params step in
  let value := st_value st in
  let hv := st_history_value st in
  let hts := st_history_ts st in
  let full '(ok, value, hv, hts) := (ok, StepState value hv hts (st_cache st) (st_sent st) (st_disc st)) in
  let plain '(ok, value) := full (ok, value, hv, hts) in
  let caching '(ok, value, cache) := (ok, StepState value hv hts cache (st_sent st) (st_disc st)) in
  let sending '(value, sent) := (true, StepState value hv hts (st_cache st) (st_sent st ++ sent) (st_disc st)) in
  match sp_type step with
  | ZBX_PREPROC_MULTIPLIER => r ← pp_execute_multiply value_type value params; Ret (plain r)
  | ZBX_PREPROC_RTRIM => Ret (plain (pp_execute_trim RTRIM value params))
  | ZBX_PREPROC_LTRIM => Ret (plain (pp_execute_trim LTRIM value params))
  | ZBX_PREPROC_TRIM => Ret (plain (pp_execute_trim TRIM value params))
  | ZBX_PREPROC_REGSUB => Ret (plain (pp_execute_regsub value params))
  | ZBX_PREPROC_BOOL2DEC => Ret (plain (pp_execute_2dec BOOL2DEC value))
  | ZBX_PREPROC_OCT2DEC => Ret (plain (pp_execute_2dec OCT2DEC value))
  | ZBX_PREPROC_HEX2DEC => Ret (plain (pp_execute_2dec HEX2DEC value))
  | ZBX_PREPROC_DELTA_VALUE => r ← pp_execute_delta DELTA_VALUE value_type value (m_ts metric_in) hv hts; Ret (full r)
  | ZBX_PREPROC_DELTA_SPEED => r ← pp_execute_delta DELTA_SPEED value_type value (m_ts metric_in) hv hts; Ret (full r)
  | ZBX_PREPROC_XPATH => Ret (plain (pp_execute_xpath value params))
  | ZBX_PREPROC_JSONPATH => r ← pp_execute_jsonpath (st_cache st) value params; Ret (caching r)
  | ZBX_PREPROC_VALIDATE_RANGE => Ret (plain (pp_validate_range value_type value params))
  | ZBX_PREPROC_VALIDATE_REGEX => Ret (plain (pp_validate_regex value params))
  | ZBX_PREPROC_VALIDATE_NOT_REGEX => Ret (plain (pp_validate_not_regex value params))
  | ZBX_PREPROC_VALIDATE_NOT_SUPPORTED => Ret (plain (pp_check_not_error value, value))
  | ZBX_PREPROC_ERROR_FIELD_JSON => r ← pp_error_from_json value params; Ret (plain r)
  | ZBX_PREPROC_ERROR_FIELD_XML => Ret (plain (pp_error_from_xml value params))
  | ZBX_PREPROC_ERROR_FIELD_REGEX => Ret (plain (pp_error_from_regex value params))
  | ZBX_PREPROC_THROTTLE_VALUE =>
      let '(value, hv, hts) := item_preproc_throttle_value (epsilon E) value (m_ts metric_in) hv hts in Ret (full (true, value, hv, hts))
  | ZBX_PREPROC_THROTTLE_TIMED_VALUE => Ret (full (pp_throttle_timed_value value (m_ts metric_in) params hv hts))
  | ZBX_PREPROC_SCRIPT => let '(ok, value, hv) := pp_execute_script value params hv in Ret (full (ok, value, hv, hts))
  | ZBX_PREPROC_PROMETHEUS_PATTERN => r ← pp_execute_prometheus_pattern (st_cache st) value params; Ret (caching r)
  | ZBX_PREPROC_PROMETHEUS_TO_JSON => Ret (plain (pp_execute_prometheus_to_json value params))
  | ZBX_PREPROC_CSV_TO_JSON => Ret (plain (pp_execute_csv_to_json value params))
  | ZBX_PREPROC_XML_TO_JSON => Ret (plain (pp_execute_xml_to_json value))
  | ZBX_PREPROC_STR_REPLACE => Ret (plain (pp_execute_str_replace value params))
  | ZBX_PREPROC_SNMP_WALK_TO_VALUE => r ← pp_execute_snmp_to_value (st_cache st) value params; Ret (caching r)
  | ZBX_PREPROC_SNMP_WALK_TO_JSON => Ret (plain (pp_execute_snmp_to_json value params))
  | GLB_PREPROC_THROTTLE_TIMED_VALUE_AGG => r ← pp_execute_throttle_value_agg value (m_ts metric_in) params hv hts; Ret (full r)
  | GLB_PREPROC_DISPATCH_ITEM => r ← pp_execute_dispatch metric_in value params; Ret (sending r)
  | GLB_PREPROC_DISPATCH_ITEM_BY_IP => r ← pp_execute_dispatch_by_ip metric_in value params; Ret (sending r)
  | GLB_PREPROC_JSON_FILTER => Ret (plain (pp_execute_json_filter value params))
  | GLB_PREPROC_DISCOVERY_PREPARE =>
      '(value, disc) ← pp_execute_json_discovery_prepare (st_disc st) (m_itemid metric_in) value params;
      Ret (true, StepState value hv hts (st_cache st) (st_sent st) disc)
  | ZBX_PREPROC_NONE => Ret (plain (false, VErr (txt "unknown preprocessing step " ++ print_Z 0)))
  | PREPROC_UNKNOWN type => Ret (plain (false, VErr (txt "unknown preprocessing step " ++ print_Z type)))
  end.

(** The state of the loop: the cache that the next step gets and the one that
    the dependent items share; the old and the new history. *)
Record exec_state := ExecState {
  ex_value : zbx_variant_t;
  ex_cache : option zbx_pp_cache_t;
  ex_shared : option zbx_pp_cache_t;
  ex_old : option zbx_pp_history_t;
  ex_history : option zbx_pp_history_t;
  ex_results : list zbx_pp_result_t;
  ex_action : error_handler_t;
  ex_quote_error : bool;
  ex_sent : list metric_t;
  ex_disc : discovery_t E }.

Definition is_err (v : zbx_variant_t) : bool := bool_decide (variant_type v = ZBX_VARIANT_ERR).
Definition is_none (v : zbx_variant_t) : bool := bool_decide (variant_type v = ZBX_VARIANT_NONE).

(** Whether the loop goes on, and its state. *)
Definition execute_one (metric_in : metric_t) (value_type : item_value_type) (i : Z) (step : zbx_pp_step_t) (ex : exec_state) : res (bool * exec_state) :=
  if is_err (ex_value ex) && negb (bool_decide (sp_type step = ZBX_PREPROC_VALIDATE_NOT_SUPPORTED)) then Ret (false, ex)
  else
    let '(old, hv, hts) := pp_history_pop (ex_old ex) i in
    '(ok, st) ← pp_execute_step metric_in value_type step (StepState (ex_value ex) hv hts (ex_cache ex) (ex_sent ex) (ex_disc ex));
    let '(value, action) := if ok : bool then (st_value st, ZBX_PREPROC_FAIL_DEFAULT) else pp_error_on_fail (st_value st) step in
    let quote_error := (ok : bool) && is_err value in
    let value_raw := if ok || bool_decide (action = ZBX_PREPROC_FAIL_DEFAULT) then VNone else st_value st in
    let history :=
      h ← ex_history ex;
      Some (if negb (is_none (st_history_value st)) && negb (is_err value) && zbx_pp_preproc_has_history (sp_type step)
            then zbx_pp_history_add h i (st_history_value st) (st_history_ts st) else h) in
    Ret (negb (is_none value),
         ExecState value None (match ex_cache ex with Some _ => st_cache st | None => ex_shared ex end) old history
           (ex_results ex ++ [pp_result_set value action value_raw]) action quote_error (st_sent st) (st_disc st)).

Fixpoint execute_steps (metric_in : metric_t) (value_type : item_value_type) (i : Z) (steps : list zbx_pp_step_t) (ex : exec_state) : res exec_state :=
  match steps with
  | [] => Ret ex
  | step :: steps =>
      '(go, ex) ← execute_one metric_in value_type i step ex;
      if go : bool then execute_steps metric_in value_type (i + 1) steps ex else Ret ex
  end.

Record exec_result := ExecResult {
  er_value : zbx_variant_t;
  er_history : option zbx_pp_history_t;
  er_cache : option zbx_pp_cache_t;
  er_sent : list metric_t;
  er_disc : discovery_t E }.

Definition pp_execute (preproc : zbx_pp_item_preproc_t) (cache : option zbx_pp_cache_t) (metric_in : metric_t) (disc : discovery_t E) : res exec_result :=
  match pp_steps preproc, pp_dep_itemids preproc with
  | [], [] => Ret (ExecResult (match cache with Some c => pc_value c | None => m_value metric_in end) (pp_history preproc) cache [] disc)
  | steps, _ =>
      value ← match cache with
              | None => Ret (m_value metric_in)
              | Some c => match steps with s :: _ => Ret (pp_cache_prepare_output_value c (sp_type s) VNone) | [] => Halt BadAccess end
              end;
      let history := if (history_num preproc =? 0)%nat then None else Some zbx_pp_history_create in
      ex ← execute_steps metric_in (pp_value_type preproc) 0 steps
             (ExecState value cache cache (pp_history preproc) history [] ZBX_PREPROC_FAIL_DEFAULT false [] disc);
      let history := if is_err (ex_value ex) then None else ex_history ex in
      let value :=
        if is_err (ex_value ex) && negb (bool_decide (ex_results ex = [])) && negb (bool_decide (ex_action ex = ZBX_PREPROC_FAIL_SET_ERROR)) && negb (ex_quote_error ex)
        then VErr (pp_format_error (m_value metric_in) (ex_results ex)) else ex_value ex in
      Ret (ExecResult value history (ex_shared ex) (ex_sent ex) (ex_disc ex))
  end.

(** ** The worker (glb_preproc_worker.c) *)

(** The items with their histories, what the worker has sent: to the
    processing, to discovery, and to the preprocessing of other items. *)
Record worker := Worker {
  w_items : gmap Z zbx_pp_item_preproc_t;
  w_processing : list metric_t;
  w_lld : list metric_t;
  w_sent : list metric_t;
  w_disc : discovery_t E }.

Definition processing_send_metric (w : worker) (metric : metric_t) : worker :=
  Worker (w_items w) (w_processing w ++ [metric]) (w_lld w) (w_sent w) (w_disc w).
Definition zbx_lld_process_value (w : worker) (metric : metric_t) : worker :=
  Worker (w_items w) (w_processing w) (w_lld w ++ [metric]) (w_sent w) (w_disc w).

Context (is_proxy : bool).

Definition send_preprocessed_metric (w : worker) (metric : metric_t) (preproc : option zbx_pp_item_preproc_t) : worker :=
  if is_proxy then processing_send_metric w metric
  else match preproc with
       | Some p =>
           if pp_discovery_rule p then match m_value metric with VStr _ => zbx_lld_process_value w metric | _ => w end
           else processing_send_metric w metric
       | None => processing_send_metric w metric
       end.

(** The worker after the steps of an item. *)
Definition executed (w : worker) (metric : metric_t) (preproc : zbx_pp_item_preproc_t) (r : exec_result) : worker :=
  send_preprocessed_metric
    (Worker (<[m_itemid metric := set_history preproc (er_history r)]> (w_items w)) (w_processing w) (w_lld w) (w_sent w ++ er_sent r) (er_disc r))
    (Metric (m_hostid metric) (m_itemid metric) 0 (m_ts metric) (er_value r)) (Some preproc).

Definition dep_metric (metric : metric_t) (value : zbx_variant_t) (itemid : Z) : metric_t := Metric (m_hostid metric) itemid (m_flags metric) (m_ts metric) value.

Section dependent.
Context (execute : metric_t -> option zbx_pp_cache_t -> worker -> res (option zbx_pp_cache_t * worker)).

Fixpoint process_dependent_metrics (metric : metric_t) (dep_itemids : list Z) (cache : option zbx_pp_cache_t) (w : worker) : res worker :=
  match dep_itemids with
  | [] => Ret w
  | itemid :: dep_itemids =>
      '(cache, w) ← execute (dep_metric metric (m_value metric) itemid) cache w;
      process_dependent_metrics metric dep_itemids cache w
  end.
End dependent.

(** The levels of dependency are counted down. *)
Fixpoint preprocess_metric_execute_steps (dep_level : nat) (metric : metric_t) (cache : option zbx_pp_cache_t) (w : worker) : res (option zbx_pp_cache_t * worker) :=
  match (if is_none (m_value metric) then None else w_items w !! m_itemid metric) with
  | None => Ret (cache, send_preprocessed_metric w metric None)
  | Some preproc =>
      r ← pp_execute preproc cache metric (w_disc w);
      let new_metric := Metric (m_hostid metric) (m_itemid metric) 0 (m_ts metric) (er_value r) in
      w ← match dep_level with
          | O => Ret (executed w metric preproc r)
          | S level =>
              process_dependent_metrics (preprocess_metric_execute_steps level) new_metric (pp_dep_itemids preproc)
                (Some (pp_cache_create preproc (er_value r))) (executed w metric preproc r)
          end;
      Ret (er_cache r, w)
  end.

Definition MAX_DEPENDENCY_LEVEL : nat := 16.

Definition metrics_proc_cb (metric : metric_t) (w : worker) : res worker :=
  '(_, w) ← preprocess_metric_execute_steps MAX_DEPENDENCY_LEVEL metric None w; Ret w.

(** [process_incoming_metrics]: the metrics in the order they came. *)
Fixpoint process_incoming_metrics (metrics : list metric_t) (w : worker) : res worker :=
  match metrics with
  | [] => Ret w
  | metric :: metrics => w ← metrics_proc_cb metric w; process_incoming_metrics metrics w
  end.
End preproc.

(** ** A worker for examples: a JSON path is the name of a member, the other
    libraries refuse *)

Fixpoint member (name : list Z) (members : list (list Z * zbx_jsonobj)) : option (list Z) :=
  match members with
  | (n, Jo_number v) :: members | (n, Jo_string v) :: members => if bool_decide (n = name) then Some v else member name members
  | _ :: members => member name members
  | [] => None
  end.

Definition sample_engines : engines :=
  Engines python_compatible_epsilon
    unit (fun _ => inl []) (fun _ => inl []) (fun _ _ => false) (fun _ _ _ => None) (fun _ _ _ => None)
    (fun _ => txt "invalid JSON") unit (fun o ix path => (inr (match o with Jo_object ms => member path ms | _ => None end), ix)) (fun _ _ => inr None)
    (fun _ _ => inl []) (fun _ _ => (true, None)) (fun v => (v, Some [])) (fun v _ h => ((v, Some []), h))
    unit (fun _ => inl []) (fun _ _ _ _ => inl []) (fun p _ _ _ => (inl [], p)) (fun v _ => (v, Some [])) (fun v _ => (v, Some []))
    unit (fun _ => inl []) (fun _ _ => inl []) (fun _ _ => inl []) (fun v _ => (v, Some []))
    (fun _ _ => None) (fun _ _ => None) (fun _ => 0) (fun _ _ => None) (fun _ _ => None) unit (fun d _ _ _ => (d, None)).

Definition sample_worker (items : list (Z * zbx_pp_item_preproc_t)) : worker sample_engines := Worker sample_engines (list_to_map items) [] [] [] tt.
Definition sample_step (t : step_type) (params : list Z) : zbx_pp_step_t := Step t params ZBX_PREPROC_FAIL_DEFAULT [].
Definition sample_metric (itemid sec : Z) (v : zbx_variant_t) : metric_t := Metric 1 itemid 0 (Timespec sec 0) v.

Definition run_values (items : list (Z * zbx_pp_item_preproc_t)) (metrics : list metric_t) : res (list (Z * zbx_variant_t)) :=
  w ← process_incoming_metrics sample_engines false metrics (sample_worker items);
  Ret ((fun m => (m_itemid m, m_value m)) <$> w_processing sample_engines w).

(** A dependent item without steps that has a dependent item of its own: the
    first step of nothing is read. *)
Example dependent_without_steps :
  run_values [(1, ItemPreproc ITEM_VALUE_TYPE_OTHER false [] [2] None); (2, ItemPreproc ITEM_VALUE_TYPE_OTHER false [] [3] None)]
    [sample_metric 1 100 (VUi64 5)] = Halt BadAccess.
Proof. by vm_compute. Qed.

(** A value that an earlier step drops does not reach the step of the changes,
    and the value that this one kept is lost with the old history. *)
Example change_after_drop :
  run_values [(1, ItemPreproc ITEM_VALUE_TYPE_UINT64 false [sample_step ZBX_PREPROC_THROTTLE_VALUE []; sample_step ZBX_PREPROC_DELTA_VALUE []] [] None)]
    [sample_metric 1 100 (VUi64 5); sample_metric 1 101 (VUi64 7); sample_metric 1 102 (VUi64 7); sample_metric 1 103 (VUi64 9)] =
  Ret [(1, VNone); (1, VUi64 2); (1, VNone); (1, VNone)].
Proof. by vm_compute. Qed.

(** The sum of whole numbers: the bits of 1 are those of the smallest number there is. *)
Example sum_of_integers :
  run_values [(1, ItemPreproc ITEM_VALUE_TYPE_UINT64 false [sample_step GLB_PREPROC_THROTTLE_TIMED_VALUE_AGG (txt "1" ++ [10] ++ txt "sum")] [] None)]
    [sample_metric 1 100 (VUi64 1); sample_metric 1 102 (VUi64 1)] =
  Ret [(1, VNone); (1, VDbl (bits_dbl 2))].
Proof. by vm_compute. Qed.

(** Seventeen lines of parameters do not fit the array. *)
Example dispatch_params :
  run_values [(1, ItemPreproc ITEM_VALUE_TYPE_OTHER false [sample_step GLB_PREPROC_DISPATCH_ITEM (mjoin (replicate 17 [97; 10]))] [] None)]
    [sample_metric 1 100 (VUi64 1)] = Halt BadAccess.
Proof. by vm_compute. Qed.

(** A negative multiplier of an unsigned number. *)
Example negative_multiplier :
  run_values [(1, ItemPreproc ITEM_VALUE_TYPE_UINT64 false [sample_step ZBX_PREPROC_MULTIPLIER (txt "-1")] [] None)]
    [sample_metric 1 100 (VUi64 1)] = Halt Undefined.
Proof. by vm_compute. Qed.

(** The message of a failed value. *)
Example failed_value :
  run_values [(1, ItemPreproc ITEM_VALUE_TYPE_UINT64 false [sample_step ZBX_PREPROC_TRIM (txt "x"); sample_step ZBX_PREPROC_MULTIPLIER (txt "2")] [] None)]
    [sample_metric 1 100 (VStr (txt "xyx"))] =
  Ret [(1, VErr (txt "Preprocessing failed for: xyx" ++ [10] ++ txt "1. Result: y" ++ [10] ++
                 txt "2. Failed: cannot apply multiplier " ++ quoted (txt "2") ++ txt " to value of type " ++ quoted (txt "string") ++
                 txt ": cannot convert value to numeric type"))].
Proof. by vm_compute. Qed.
