(* ===== verification/PreprocCache.v ===== *)
(** * The cache of preprocessing changes nothing

    The dependent items of a master item share a cache: the first one parses
    the value of the master, the others query what it parsed.  The values that
    the worker sends, the histories it keeps and the accesses it makes are those
    of a worker that gives every item the value itself. *)
From Stdlib Require Import String Ascii.
From stdpp Require Import prelude list gmap.
From Stdlib Require Import ZArith Lia SpecFloat.
From S2P Require Import Prelude JsonText Macro Interval Num Scan Double Variant Utf8 JsonParser JsonRead EvalCalc EvalFunc EvalSerial PreprocItem Preproc.
#[local] Open Scope Z_scope.

Section cache.
Context (E : engines) (is_proxy : bool).

(** The paths with a filter that [jsonpath_expression_prepare_index] finds an
    index for.  Only these look at the index of an object. *)
Context (indexed : list Z -> bool).

Definition index_unused : Prop :=
  forall obj ix path, indexed path = false -> (zbx_jsonobj_query E obj ix path).1 = (zbx_jsonobj_query E obj no_index path).1.

Hypothesis unused : index_unused.

(** ** The worker without a cache *)

Section dependent.
Context (execute : metric_t -> worker E -> res (worker E)).

Fixpoint plain_dependent (metric : metric_t) (dep_itemids : list Z) (w : worker E) : res (worker E) :=
  match dep_itemids with
  | [] => Ret w
  | itemid :: dep_itemids => w ← execute (dep_metric metric (m_value metric) itemid) w; plain_dependent metric dep_itemids w
  end.
End dependent.

Fixpoint plain_execute (dep_level : nat) (metric : metric_t) (w : worker E) : res (worker E) :=
  match (if is_none (m_value metric) then None else w_items E w !! m_itemid metric) with
  | None => Ret (send_preprocessed_metric E is_proxy w metric None)
  | Some preproc =>
      r ← pp_execute E preproc None metric (w_disc E w);
      let new_metric := Metric (m_hostid metric) (m_itemid metric) 0 (m_ts metric) (er_value E r) in
      match dep_level with
      | O => Ret (executed E is_proxy w metric preproc r)
      | S level => plain_dependent (plain_execute level) new_metric (pp_dep_itemids preproc) (executed E is_proxy w metric preproc r)
      end
  end.

Fixpoint plain_incoming (metrics : list metric_t) (w : worker E) : res (worker E) :=
  match metrics with
  | [] => Ret w
  | metric :: metrics => w ← plain_execute MAX_DEPENDENCY_LEVEL metric w; plain_incoming metrics w
  end.

(** ** What is in the cache *)

Definition cached_type (t : step_type) : bool :=
  match t with ZBX_PREPROC_PROMETHEUS_PATTERN | ZBX_PREPROC_SNMP_WALK_TO_VALUE => true | _ => false end.

(** The cache of the value [v]: nothing, or what the value is when it is parsed. *)
Definition cache_ok (v : zbx_variant_t) (c : zbx_pp_cache_t E) : Prop :=
  pc_value E c = v /\ cached_type (pc_type E c) = false /\
  match pc_data E c with
  | None => True
  | Some d =>
      pc_type E c = ZBX_PREPROC_JSONPATH /\
      exists s obj ix, to_text v = inr s /\ zbx_jsonobj_open s = Ret (inl obj) /\ d = CachedJson E obj ix
  end.

Lemma cache_create_ok p v : cached_type (match pp_steps p with s :: _ => sp_type s | [] => ZBX_PREPROC_NONE end) = false -> cache_ok v (pp_cache_create E p v).
Proof. by intros. Qed.

Definition set_cache (st : step_state E) (c : option (zbx_pp_cache_t E)) : step_state E :=
  StepState E (st_value E st) (st_history_value E st) (st_history_ts E st) c (st_sent E st) (st_disc E st).

Lemma jsonpath_same v c params : cache_ok v c -> indexed params = false ->
  match pp_excute_jsonpath_query E None v params with
  | Ret (r, c0) => c0 = None /\ exists c', cache_ok v c' /\
      pp_excute_jsonpath_query E (Some c) (pp_cache_prepare_output_value E c ZBX_PREPROC_JSONPATH VNone) params = Ret (r, Some c')
  | Halt h => pp_excute_jsonpath_query E (Some c) (pp_cache_prepare_output_value E c ZBX_PREPROC_JSONPATH VNone) params = Halt h
  end.
Proof.
  destruct c as [t v' d]; unfold cache_ok; cbn. intros (-> & Ht & Hd) Hpath.
  assert (Hq : forall obj ix, exists ix', query_cached E (PpCache E ZBX_PREPROC_JSONPATH v d) obj ix params =
    (matched (zbx_jsonobj_query E obj no_index params).1, Some (PpCache E ZBX_PREPROC_JSONPATH v (Some (CachedJson E obj ix'))))).
  { intros obj ix. unfold query_cached. rewrite <-(unused obj ix params Hpath). destruct (zbx_jsonobj_query E obj ix params) as [r ix1]. by eexists. }
  unfold pp_excute_jsonpath_query, pp_cache_prepare_output_value, cached_as; cbn [mbind option_bind pc_data pc_type pc_value].
  destruct d as [d|].
  - destruct Hd as (-> & s & obj & ix & Es & Eo & ->). rewrite Es, Eo, !decide_True by done. cbn. destruct (Hq obj ix) as [ix' ->].
    split; [done|]. eexists (PpCache E _ _ (Some _)). split; [|done]. split; [done|]. split; [done|]. split; [done|]. by eexists _, _, _.
  - destruct (to_text v) as [e|s] eqn:Es.
    + split; [done|]. exists (PpCache E t v None). split; [done|]. by case_decide.
    + destruct (zbx_jsonobj_open s) as [[obj|e]|h] eqn:Eo; cbn.
      * split; [done|]. case_decide as Et; cbn; [|eexists; split; [|done]; done]. subst t. destruct (Hq obj no_index) as [ix' ->]. eexists. split; [|done].
        split; [done|]. split; [done|]. split; [done|]. by eexists _, _, _.
      * split; [done|]. case_decide as Et; cbn; (eexists; split; [|done]); done.
      * by case_decide.
Qed.

Definition caching_step (t : step_type) : bool :=
  match t with ZBX_PREPROC_JSONPATH | ZBX_PREPROC_PROMETHEUS_PATTERN | ZBX_PREPROC_SNMP_WALK_TO_VALUE => true | _ => false end.

Lemma other_step m t s v hv hts c sent disc : caching_step (sp_type s) = false ->
  pp_execute_step E m t s (StepState E v hv hts c sent disc) =
  ('(ok, st) ← pp_execute_step E m t s (StepState E v hv hts None sent disc); Ret (ok, set_cache st c)).
Proof.
  intros H. unfold pp_execute_step. cbv zeta. destruct (sp_type s); try discriminate H; cbn [st_value st_history_value st_history_ts st_cache st_sent st_disc].
  all: try reflexivity.
  all: try (match goal with |- Ret (match ?y with _ => _ end) = _ => destruct y; reflexivity end).
  all: try (match goal with |- (?x ≫= _) = _ => first [destruct x as [[]|?]; reflexivity | destruct x as [[[[]]]|?]; reflexivity] end).
  - by destruct (item_preproc_throttle_value _ _ _ _ _) as [[]].
  - by destruct (pp_throttle_timed_value _ _ _ _ _ _) as [[[]]].
  - by destruct (pp_execute_script _ _ _ _) as [[]].
Qed.

(** The step does not look at the index. *)
Definition path_ok (s : zbx_pp_step_t) : Prop := sp_type s = ZBX_PREPROC_JSONPATH -> indexed (sp_params s) = false.

(** The cache gives the step what the value gives it. *)
Lemma first_step_same m t s v hv hts c sent disc : cache_ok v c -> path_ok s ->
  match pp_execute_step E m t s (StepState E v hv hts None sent disc) with
  | Ret (ok, st) => exists c', cache_ok v c' /\
      pp_execute_step E m t s (StepState E (pp_cache_prepare_output_value E c (sp_type s) VNone) hv hts (Some c) sent disc) = Ret (ok, set_cache st (Some c'))
  | Halt h => pp_execute_step E m t s (StepState E (pp_cache_prepare_output_value E c (sp_type s) VNone) hv hts (Some c) sent disc) = Halt h
  end.
Proof.
  intros Hc Hpath. assert (Hn : cached_as E (Some c) ZBX_PREPROC_PROMETHEUS_PATTERN = None /\ cached_as E (Some c) ZBX_PREPROC_SNMP_WALK_TO_VALUE = None).
  { destruct c as [ct cv cd], Hc as (_ & Ht & _). cbn in *. unfold cached_as; cbn. rewrite !decide_False by (by intros ->). done. }
  assert (Hv : sp_type s <> ZBX_PREPROC_JSONPATH -> pp_cache_prepare_output_value E c (sp_type s) VNone = v).
  { intros Hs. destruct Hc as (Hv & _ & Hd). unfold pp_cache_prepare_output_value. destruct (pc_data E c); [|done].
    destruct Hd as [-> _]. by rewrite decide_False. }
  destruct (caching_step (sp_type s)) eqn:Es.
  - destruct (decide (sp_type s = ZBX_PREPROC_JSONPATH)) as [Ej|Ej].
    + pose proof (jsonpath_same v c (sp_params s) Hc (Hpath Ej)) as Hj. unfold pp_execute_step. rewrite Ej. cbn [st_value st_cache]. unfold pp_execute_jsonpath.
      destruct (pp_excute_jsonpath_query E None v (sp_params s)) as [[r c0]|h]; cbn; [|by rewrite Hj].
      destruct Hj as (-> & c' & Hc' & ->). cbn. destruct r; (eexists; split; [exact Hc'|done]).
    + rewrite (Hv Ej). unfold pp_execute_step. destruct (sp_type s); try discriminate Es; try congruence; cbn [st_value st_cache].
      * unfold pp_execute_prometheus_pattern, pp_execute_prometheus_query. rewrite (proj1 Hn). cbn [cached_as mbind option_bind].
        destruct (split_newline _) as [[? rest]|]; [destruct (split_newline rest) as [[]|]|]; cbn; try (eexists; split; [exact Hc|done]).
        destruct (text_or_error _ _). eexists; split; [exact Hc|done].
      * unfold pp_execute_snmp_to_value, item_preproc_snmp_walk_to_value. rewrite (proj2 Hn). cbn [cached_as mbind option_bind].
        destruct (sp_params s); cbn; [by eexists; split; [exact Hc|]|]. destruct (text_or_error _ _). eexists; split; [exact Hc|done].
  - rewrite Hv by (by intros E0; rewrite E0 in Es). rewrite (other_step _ _ _ _ _ _ (Some c)) by done.
    destruct (pp_execute_step E m t s (StepState E v hv hts None sent disc)) as [[ok st]|h]; cbn; [|done]. by exists c.
Qed.

(** ** All the steps *)

Definition set_shared (ex : exec_state E) (c : option (zbx_pp_cache_t E)) : exec_state E :=
  ExecState E (ex_value E ex) (ex_cache E ex) c (ex_old E ex) (ex_history E ex) (ex_results E ex) (ex_action E ex) (ex_quote_error E ex) (ex_sent E ex) (ex_disc E ex).

Lemma one_shared m t i s ex c : ex_cache E ex = None ->
  execute_one E m t i s (set_shared ex c) = ('(go, ex) ← execute_one E m t i s ex; Ret (go, set_shared ex c)).
Proof.
  destruct ex as [v ca sh old h rs a q sent d]. cbn. intros ->. unfold execute_one, set_shared; cbn.
  destruct (is_err v && _); [done|]. destruct (pp_history_pop old i) as [[old' hv] hts].
  destruct (pp_execute_step _ _ _ _ _) as [[ok st]|]; cbn; [|done]. by destruct (if ok then _ else _).
Qed.

Lemma one_no_cache m t i s ex go ex' : execute_one E m t i s ex = Ret (go, ex') -> go = true -> ex_cache E ex' = None.
Proof.
  unfold execute_one. destruct (is_err _ && _); [by intros [= <- _]|]. destruct (pp_history_pop _ _) as [[old' hv] hts].
  destruct (pp_execute_step _ _ _ _ _) as [[ok st]|]; cbn; [|done].
  destruct (if ok then _ else _) as [value action]. by intros [= _ <-].
Qed.

Lemma steps_shared m t steps c : forall i ex, ex_cache E ex = None ->
  execute_steps E m t i steps (set_shared ex c) = (ex ← execute_steps E m t i steps ex; Ret (set_shared ex c)).
Proof.
  induction steps as [|s steps IH]; intros i ex Hex; [done|]. cbn [execute_steps]. rewrite one_shared by done.
  destruct (execute_one E m t i s ex) as [[go ex']|h] eqn:E1; cbn; [|done].
  destruct go; [|done]. apply IH. by eapply one_no_cache.
Qed.

(** What is left of the execution but the cache. *)
Definition forget (r : exec_result E) := (er_value E r, er_history E r, er_sent E r, er_disc E r).

Lemma one_first m t i s v c old h rs a q sent d : cache_ok v c -> path_ok s ->
  match execute_one E m t i s (ExecState E v None None old h rs a q sent d) with
  | Ret (go, ex) => exists c' ca, cache_ok v c' /\ (go = true -> ca = None) /\
      execute_one E m t i s (ExecState E (pp_cache_prepare_output_value E c (sp_type s) VNone) (Some c) (Some c) old h rs a q sent d) =
      Ret (go, set_shared (ExecState E (ex_value E ex) ca None (ex_old E ex) (ex_history E ex) (ex_results E ex) (ex_action E ex) (ex_quote_error E ex) (ex_sent E ex) (ex_disc E ex)) (Some c'))
  | Halt e =>
      execute_one E m t i s (ExecState E (pp_cache_prepare_output_value E c (sp_type s) VNone) (Some c) (Some c) old h rs a q sent d) = Halt e
  end.
Proof.
  intros Hc Hpath. unfold execute_one; cbn [ex_value ex_cache ex_shared ex_old ex_history ex_results ex_action ex_quote_error ex_sent ex_disc].
  assert (Hv : is_err v && negb (bool_decide (sp_type s = ZBX_PREPROC_VALIDATE_NOT_SUPPORTED)) = true -> pp_cache_prepare_output_value E c (sp_type s) VNone = v).
  { intros He. destruct Hc as (Hv & _ & Hd). unfold pp_cache_prepare_output_value. destruct (pc_data E c); [|done].
    destruct Hd as (_ & x & obj & ix & Ht & _). destruct v; done. }
  destruct (is_err v && _) eqn:Ee.
  - rewrite (Hv eq_refl), Ee. exists c, (Some c). done.
  - assert (He : is_err (pp_cache_prepare_output_value E c (sp_type s) VNone) && negb (bool_decide (sp_type s = ZBX_PREPROC_VALIDATE_NOT_SUPPORTED)) = false).
    { destruct Hc as (<- & _ & _). unfold pp_cache_prepare_output_value. destruct (pc_data E c); [|exact Ee]. by destruct (decide (sp_type s = pc_type E c)). }
    rewrite He. destruct (pp_history_pop old i) as [[old' hv] hts].
    pose proof (first_step_same m t s v hv hts c sent d Hc Hpath) as Hs.
    destruct (pp_execute_step E m t s (StepState E v hv hts None sent d)) as [[ok st]|e]; cbn; [|by rewrite Hs].
    destruct Hs as (c' & Hc' & ->). cbn. destruct (if ok then _ else _) as [value action].
    exists c', None. done.
Qed.

(** An item that depends on another one: it has no dependent items when it has
    no steps, and its first step does not look at an index. *)
Definition dependent_ok (p : zbx_pp_item_preproc_t) : Prop :=
  match pp_steps p with [] => pp_dep_itemids p = [] | s :: _ => path_ok s end.

Lemma execute_same p c m d : dependent_ok p -> cache_ok (m_value m) c ->
  match pp_execute E p None m d with
  | Ret r => exists c' r', cache_ok (m_value m) c' /\ pp_execute E p (Some c) m d = Ret r' /\ forget r' = forget r /\ er_cache E r' = Some c'
  | Halt e => pp_execute E p (Some c) m d = Halt e
  end.
Proof.
  intros Hp Hc. unfold dependent_ok in Hp. unfold pp_execute. destruct (pp_steps p) as [|s steps].
  - rewrite Hp. eexists c, _. split; [done|]. split; [done|]. split; [|done]. by destruct Hc as (<- & _).
  - cbn [mbind res_mbind execute_steps].
    pose proof (one_first m (pp_value_type p) 0 s (m_value m) c (pp_history p) (if (history_num p =? 0)%nat then None else Some zbx_pp_history_create)
      [] ZBX_PREPROC_FAIL_DEFAULT false [] d Hc Hp) as H1.
    destruct (execute_one E m _ 0 s (ExecState E (m_value m) None None _ _ _ _ _ _ _)) as [[go ex]|e] eqn:E1; cbn; [|by rewrite H1].
    destruct H1 as (c' & ca & Hc' & Hca & ->). cbn. destruct go.
    + rewrite (Hca eq_refl), steps_shared by done.
      assert (Ex : ExecState E (ex_value E ex) None None (ex_old E ex) (ex_history E ex) (ex_results E ex) (ex_action E ex) (ex_quote_error E ex) (ex_sent E ex) (ex_disc E ex) = set_shared ex None).
      { pose proof (one_no_cache _ _ _ _ _ _ _ E1 eq_refl) as Hn. destruct ex; cbn in *. by subst. }
      rewrite Ex, steps_shared by (by eapply one_no_cache). destruct (execute_steps E m _ _ steps ex) as [ex'|e]; cbn; [|done].
      eexists c', _. done.
    + cbn. eexists c', _. done.
Qed.

(** ** The whole worker *)

(** The items that a worker may have: a master item does not begin with a
    Prometheus or an SNMP step; an item that depends on another one has no
    dependent items when it has no steps, and does not begin with a JSON path
    that looks at an index. *)
Definition config_ok (items : gmap Z zbx_pp_item_preproc_t) : Prop :=
  forall i p, items !! i = Some p -> pp_dep_itemids p <> [] ->
    cached_type (match pp_steps p with s :: _ => sp_type s | [] => ZBX_PREPROC_NONE end) = false /\
    forall j q, j ∈ pp_dep_itemids p -> items !! j = Some q -> dependent_ok q.

Definition leaf_ok (items : gmap Z zbx_pp_item_preproc_t) (j : Z) : Prop :=
  forall q, items !! j = Some q -> dependent_ok q.

(** The configuration of an item without its history. *)
Definition same_config (items items' : gmap Z zbx_pp_item_preproc_t) : Prop :=
  forall i, (fun p => set_history p None) <$> items !! i = (fun p => set_history p None) <$> items' !! i.

#[local] Instance same_config_equiv : Equivalence same_config.
Proof. split; [by intros x i|by intros x y H i|intros x y z H1 H2 i; by rewrite H1, H2]. Qed.

Lemma same_config_lookup items items' i q : same_config items items' -> items' !! i = Some q ->
  exists p, items !! i = Some p /\ pp_steps p = pp_steps q /\ pp_dep_itemids p = pp_dep_itemids q.
Proof.
  intros H Hq. specialize (H i). rewrite Hq in H. destruct (items !! i) as [p|]; [|done]. exists p. cbn in H. injection H as _ _ -> ->. done.
Qed.

#[local] Instance config_ok_proper : Proper (same_config ==> impl) config_ok.
Proof.
  intros x y H Hx i q Hq Hne. destruct (same_config_lookup _ _ _ _ H Hq) as (p & Hp & Es & Ed). destruct (Hx i p Hp) as [H1 H2]; [by rewrite Ed|].
  rewrite Es in H1. split; [done|]. intros j r Hj Hr. destruct (same_config_lookup _ _ _ _ H Hr) as (r0 & Hr0 & Es0 & Ed0).
  unfold dependent_ok. rewrite <-Es0, <-Ed0. apply (H2 j r0); [by rewrite Ed|done].
Qed.

#[local] Instance leaf_ok_proper : Proper (same_config ==> eq ==> impl) leaf_ok.
Proof. intros x y H j _ <- Hx q Hq. destruct (same_config_lookup _ _ _ _ H Hq) as (p & Hp & Es & Ed). unfold dependent_ok. rewrite <-Es, <-Ed. by apply (Hx p Hp). Qed.

Lemma send_items w m o : w_items E (send_preprocessed_metric E is_proxy w m o) = w_items E w.
Proof. unfold send_preprocessed_metric. destruct is_proxy, o as [p|]; try done. destruct (pp_discovery_rule p); [|done]. by destruct (m_value m). Qed.

Lemma executed_config w m p r : w_items E w !! m_itemid m = Some p -> same_config (w_items E w) (w_items E (executed E is_proxy w m p r)).
Proof.
  intros Hp i. unfold executed. rewrite send_items. cbn. destruct (decide (m_itemid m = i)) as [<-|]; [|by rewrite lookup_insert_ne].
  rewrite Hp, lookup_insert_eq. done.
Qed.

Lemma executed_forget w m p r r' : forget r' = forget r -> executed E is_proxy w m p r' = executed E is_proxy w m p r.
Proof. destruct r, r'. cbn. by intros [= -> -> -> ->]. Qed.

(** The cache, when there is one. *)
Definition shared_ok (v : zbx_variant_t) (o : option (zbx_pp_cache_t E)) : Prop := match o with Some c => cache_ok v c | None => True end.

Lemma execute_shared p o m d : (is_Some o -> dependent_ok p) -> shared_ok (m_value m) o ->
  match pp_execute E p None m d with
  | Ret r => exists r', pp_execute E p o m d = Ret r' /\ forget r' = forget r /\ shared_ok (m_value m) (er_cache E r')
  | Halt e => pp_execute E p o m d = Halt e
  end.
Proof.
  intros Hp Ho. destruct o as [c|].
  - pose proof (execute_same p c m d (Hp (mk_is_Some _ c eq_refl)) Ho) as H. destruct (pp_execute E p None m d) as [r|e]; [|done].
    destruct H as (c' & r' & Hc' & -> & Hf & Er). exists r'. split; [done|]. split; [done|]. by rewrite Er.
  - destruct (pp_execute E p None m d) as [r|e] eqn:Er; [|done]. exists r. split; [done|]. split; [done|].
    enough (er_cache E r = None) as -> by done. revert Er. unfold pp_execute.
    destruct (pp_steps p) as [|s steps], (pp_dep_itemids p); [by intros [= <-]|by intros [= <-]| |];
      (cbn [mbind res_mbind]; match goal with |- context [execute_steps E m ?t 0 ?l ?ex] => change ex with (set_shared ex None) end;
       rewrite steps_shared by done; destruct (execute_steps _ _ _ _ _ _); cbn; [by intros [= <-]|done]).
Qed.

(** What the two workers do with a metric, when the items are [items]. *)
Definition agrees (o : option (zbx_pp_cache_t E)) (v : zbx_variant_t) (w : worker E) (plain : res (worker E)) (cached : res (option (zbx_pp_cache_t E) * worker E)) : Prop :=
  match plain with
  | Ret w' => same_config (w_items E w) (w_items E w') /\ exists o', shared_ok v o' /\ cached = Ret (o', w')
  | Halt e => cached = Halt e
  end.

Lemma dependent_same f g m deps : (forall j w o, j ∈ deps -> config_ok (w_items E w) -> leaf_ok (w_items E w) j -> shared_ok (m_value m) o ->
    agrees o (m_value m) w (f (dep_metric m (m_value m) j) w) (g (dep_metric m (m_value m) j) o w)) ->
  forall w o, config_ok (w_items E w) -> Forall (leaf_ok (w_items E w)) deps -> shared_ok (m_value m) o ->
  process_dependent_metrics E g m deps o w = plain_dependent f m deps w /\
  (forall w', plain_dependent f m deps w = Ret w' -> same_config (w_items E w) (w_items E w')).
Proof.
  induction deps as [|j deps IH]; intros Hf w o Hw Hd Ho; [by split; [|intros w' [= <-]]|]. cbn [process_dependent_metrics plain_dependent].
  inversion_clear Hd as [|?? Hj Hd']. pose proof (Hf j w o ltac:(set_solver) Hw Hj Ho) as H. unfold agrees in H.
  destruct (f _ w) as [w'|e]; cbn; [|by rewrite H]. destruct H as (Hs & o' & Ho' & ->). cbn.
  destruct (IH ltac:(intros; apply Hf; set_solver) w' o') as [-> H2]; [by rewrite <-Hs| |done|].
  { eapply Forall_impl; [exact Hd'|]. intros k Hk. by rewrite <-Hs. }
  split; [done|]. intros w'' Hw''. rewrite Hs. by apply H2.
Qed.

Lemma worker_same level : forall m o w, config_ok (w_items E w) -> (is_Some o -> leaf_ok (w_items E w) (m_itemid m)) -> shared_ok (m_value m) o ->
  agrees o (m_value m) w (plain_execute level m w) (preprocess_metric_execute_steps E is_proxy level m o w).
Proof.
  induction level as [|level IH]; intros m o w Hw Hl Ho.
  all: assert (Hsend : agrees o (m_value m) w (Ret (send_preprocessed_metric E is_proxy w m None)) (Ret (o, send_preprocessed_metric E is_proxy w m None)))
    by (split; [by rewrite send_items|by exists o]).
  all: cbn [plain_execute preprocess_metric_execute_steps]; destruct (is_none (m_value m)); [done|];
    destruct (w_items E w !! m_itemid m) as [p|] eqn:Ep; [|done];
    pose proof (execute_shared p o m (w_disc E w) (fun Hs => Hl Hs p Ep) Ho) as Hx;
    destruct (pp_execute E p None m (w_disc E w)) as [r|e]; cbn [mbind res_mbind]; [|by rewrite Hx];
    destruct Hx as (r' & -> & Hf & Hr'); cbn [mbind res_mbind]; rewrite (executed_forget _ _ _ _ _ Hf).
  - split; [by apply executed_config|]. by exists (er_cache E r').
  - assert (Ev : er_value E r' = er_value E r) by (by destruct r, r'; injection Hf as ->). rewrite Ev.
    set (w1 := executed E is_proxy w m p r). assert (Hs : same_config (w_items E w) (w_items E w1)) by (by apply executed_config).
    destruct (decide (pp_dep_itemids p = [])) as [->|Hne].
    { split; [exact Hs|]. by exists (er_cache E r'). }
    destruct (Hw _ _ Ep Hne) as [Ht Hd].
    set (m1 := Metric (m_hostid m) (m_itemid m) 0 (m_ts m) (er_value E r)).
    destruct (dependent_same (plain_execute level) (preprocess_metric_execute_steps E is_proxy level) m1 (pp_dep_itemids p)
      ltac:(intros j w2 o2 _ Hw2 Hj Ho2; apply (IH (dep_metric m1 (m_value m1) j)); [done|by intros _|done]) w1 (Some (pp_cache_create E p (er_value E r)))) as [-> Hsame].
    + by rewrite <-Hs.
    + apply Forall_forall. intros j Hj. eapply leaf_ok_proper; [exact Hs|reflexivity|]. intros q Hq. by apply (Hd j q).
    + by apply cache_create_ok.
    + destruct (plain_dependent _ _ _ _) as [w2|e]; cbn; [|done]. split; [rewrite Hs; by apply Hsame|]. by exists (er_cache E r').
Qed.

Lemma incoming_same metrics : forall w, config_ok (w_items E w) -> process_incoming_metrics E is_proxy metrics w = plain_incoming metrics w.
Proof.
  induction metrics as [|m metrics IH]; intros w Hw; [done|]. cbn [process_incoming_metrics plain_incoming]. unfold metrics_proc_cb.
  pose proof (worker_same MAX_DEPENDENCY_LEVEL m None w Hw ltac:(by intros [? ?]) I) as H. unfold agrees in H.
  destruct (plain_execute _ m w) as [w'|e]; cbn [mbind res_mbind]; [|by rewrite H]. destruct H as (Hs & o' & _ & ->). apply IH. by rewrite <-Hs.
Qed.
End cache.

(** C11: when the cache of preprocessing changes nothing.  Let the results of
    the JSON paths that are not [indexed] not depend on the index of the object;
    let no master item begin with a Prometheus or an SNMP step, and no dependent
    item with an [indexed] JSON path; let a dependent item without steps have no
    dependent items.  Then the worker does for any metrics what one without the
    cache does: the same values are sent for every item and in the same order,
    the same histories are kept, and it stops at an access that is not allowed
    exactly when the other one does.  (A path with a filter like
    [?(@.a == 1.0)] is indexed: it is looked up as a text in an index that only
    the first query of the cached object may build.) *)
Theorem cache_transparent E indexed is_proxy metrics w : index_unused E indexed -> config_ok indexed (w_items E w) ->
  process_incoming_metrics E is_proxy metrics w = plain_incoming E is_proxy metrics w.
Proof. intros Hu. by apply (incoming_same E is_proxy indexed). Qed.

(** A master item that takes a text of JSON out of its value, and two dependent
    items that look for members of this text. *)
Definition sample_path (name : list Z) (deps : list Z) : zbx_pp_item_preproc_t := ItemPreproc ITEM_VALUE_TYPE_OTHER false [sample_step ZBX_PREPROC_JSONPATH name] deps None.
Definition sample_items : list (Z * zbx_pp_item_preproc_t) := [(1, sample_path (txt "a") [2; 3]); (2, sample_path (txt "b") []); (3, sample_path (txt "c") [])].
Definition escaped (s : list Z) : list Z := BSL :: QUOT :: s ++ [BSL; QUOT].
Definition sample_text : list Z := [LBR] ++ quoted (txt "a") ++ [COLON; QUOT; LBR] ++ escaped (txt "b") ++ txt ":1," ++ escaped (txt "c") ++ txt ":2}" ++ [QUOT; RBR].

Lemma cache_transparent_witness :
  process_incoming_metrics sample_engines false [sample_metric 1 100 (VStr sample_text)] (sample_worker sample_items) =
  plain_incoming sample_engines false [sample_metric 1 100 (VStr sample_text)] (sample_worker sample_items).
Proof.
  apply (cache_transparent _ (fun _ => false)); [intros obj ix path _; reflexivity|]. intros i p Hp Hne. apply elem_of_list_to_map_2 in Hp.
  unfold sample_items in Hp. rewrite !elem_of_cons, elem_of_nil in Hp. destruct Hp as [Hp|[Hp|[Hp|[]]]].
  - injection Hp as -> ->. split; [reflexivity|]. intros j q Hj Hq. apply elem_of_list_to_map_2 in Hq.
    unfold sample_items in Hq. rewrite !elem_of_cons, elem_of_nil in Hq. destruct Hq as [Hq|[Hq|[Hq|[]]]].
    + injection Hq as -> ->. intros _. reflexivity.
    + injection Hq as -> ->. intros _. reflexivity.
    + injection Hq as -> ->. intros _. reflexivity.
  - injection Hp as -> ->. contradiction Hne. reflexivity.
  - injection Hp as -> ->. contradiction Hne. reflexivity.
Defined.

Example cache_sample :
  run_values sample_items [sample_metric 1 100 (VStr sample_text)] =
  Ret [(1, VStr ([LBR] ++ quoted (txt "b") ++ txt ":1," ++ quoted (txt "c") ++ txt ":2}")); (2, VStr (txt "1")); (3, VStr (txt "2"))].
Proof. by vm_compute. Qed.
