(* ===== verification/PreprocRun.v ===== *)
(** * What the steps with a history do to the values of an item

    The values of one item, in the order they come, as the worker processes
    them: the step that drops repeated values with a heartbeat, the change
    between values and the aggregation over a period, each against a machine
    that says in a few lines what the step is for. *)
From Stdlib Require Import String Ascii.
From stdpp Require Import prelude list gmap.
From Stdlib Require Import ZArith Lia SpecFloat.
From S2P Require Import Prelude JsonText Macro Interval Num Scan Double Variant Utf8 JsonParser JsonRead EvalCalc EvalFunc EvalSerial PreprocItem Preproc.
#[local] Open Scope Z_scope.

(** ** An item with one step that keeps a history *)

Definition one_history (hv : zbx_variant_t) (hts : zbx_timespec_t) : zbx_pp_history_t := if is_none hv then [] else [StepHistory 0 hv hts].

Lemma pop_one hv hts : exists old, pp_history_pop (Some (one_history hv hts)) 0 = (old, hv, if is_none hv then no_ts else hts).
Proof. unfold one_history. destruct (is_none hv) eqn:Eh; [|by eexists]. destruct hv; try discriminate Eh. by eexists. Qed.

Section run.
Context (E : engines) (is_proxy : bool).

Lemma single_step p s m d old hv hts v' hv' hts' : pp_steps p = [s] -> zbx_pp_preproc_has_history (sp_type s) = true ->
  pp_history_pop (pp_history p) 0 = (old, hv, hts) -> is_err (m_value m) = false ->
  pp_execute_step E m (pp_value_type p) s (StepState E (m_value m) hv hts None [] d) = Ret (true, StepState E v' hv' hts' None [] d) -> is_err v' = false ->
  pp_execute E p None m d = Ret (ExecResult E v' (Some (one_history hv' hts')) None [] d).
Proof.
  intros Hs Hh Hp Hm Hx Hv. unfold pp_execute, history_num. rewrite Hs. rewrite filter_cons, decide_True, filter_nil by done. cbn -[is_err is_none].
  unfold execute_one; cbn -[is_err is_none]. rewrite Hm; cbn -[is_err is_none]. rewrite Hp, Hx; cbn -[is_err is_none]. rewrite Hv, Hh.
  unfold one_history. by destruct (is_none v'), (is_none hv'); cbn -[is_err]; rewrite ?Hv.
Qed.

Lemma error_step p s m d e : pp_steps p = [s] -> sp_type s <> ZBX_PREPROC_VALIDATE_NOT_SUPPORTED -> m_value m = VErr e ->
  pp_execute E p None m d = Ret (ExecResult E (VErr e) None None [] d).
Proof.
  intros Hs Ht Hm. unfold pp_execute. rewrite Hs, Hm. cbn [mbind res_mbind execute_steps]. unfold execute_one at 1; cbn. by rewrite bool_decide_eq_false_2.
Qed.

(** ** The worker on the values of one item *)

Context {S : Type} (spec : S -> metric_t -> S * zbx_variant_t) (R : nat -> option zbx_pp_history_t -> S -> Prop) (ok : metric_t -> Prop).

Fixpoint spec_run (st : S) (metrics : list metric_t) : list metric_t :=
  match metrics with
  | [] => []
  | m :: metrics => let '(st, v) := spec st m in Metric (m_hostid m) (m_itemid m) 0 (m_ts m) v :: spec_run st metrics
  end.

(** [R n]: the history and the machine agree, with [n] values to come. *)
Definition simulates (p : zbx_pp_item_preproc_t) : Prop :=
  forall n m d h st, ok m -> R (1 + n) h st -> exists h', R n h' (fst (spec st m)) /\
    pp_execute E (set_history p h) None m d = Ret (ExecResult E (snd (spec st m)) h' None [] d).

(** The worker sends what the machine says. *)
Lemma incoming_item p i metrics : pp_dep_itemids p = [] -> pp_discovery_rule p = false -> simulates p ->
  Forall (fun m => ok m /\ m_itemid m = i /\ is_none (m_value m) = false) metrics ->
  forall st h w, R (length metrics) h st -> w_items E w !! i = Some (set_history p h) ->
  exists w', process_incoming_metrics E is_proxy metrics w = Ret w' /\ w_processing E w' = w_processing E w ++ spec_run st metrics /\ w_lld E w' = w_lld E w /\ w_sent E w' = w_sent E w.
Proof.
  intros Hd Hr Hp Hm. induction Hm as [|m metrics (Hok & Hi & Hn) _ IH]; intros st h w HR Hw.
  { exists w. cbn. by rewrite app_nil_r. }
  subst i. destruct (Hp (length metrics) m (w_disc E w) h st Hok HR) as (h' & HR' & Hx). cbn [process_incoming_metrics spec_run]. unfold metrics_proc_cb, MAX_DEPENDENCY_LEVEL.
  cbn [preprocess_metric_execute_steps]. rewrite Hn, Hw, Hx. cbn [mbind res_mbind pp_dep_itemids set_history]. rewrite Hd. cbn [process_dependent_metrics mbind res_mbind].
  destruct (spec st m) as [st' v]. cbn [fst snd] in *.
  assert (Ex : executed E is_proxy w m (set_history p h) (ExecResult E v h' None [] (w_disc E w)) =
    Worker E (<[m_itemid m := set_history p h']> (w_items E w)) (w_processing E w ++ [Metric (m_hostid m) (m_itemid m) 0 (m_ts m) v]) (w_lld E w) (w_sent E w) (w_disc E w)).
  { unfold executed, send_preprocessed_metric. cbn. rewrite Hr, app_nil_r. by destruct is_proxy. }
  rewrite Ex. destruct (IH st' h' (Worker E (<[m_itemid m := set_history p h']> (w_items E w)) (w_processing E w ++ [Metric (m_hostid m) (m_itemid m) 0 (m_ts m) v]) (w_lld E w) (w_sent E w) (w_disc E w)))
    as (w' & Hrun & Hproc & Hl & Hs); [done|exact (lookup_insert_eq _ _ _)|].
  exists w'. split; [exact Hrun|]. rewrite Hproc. cbn [w_processing]. rewrite <-app_assoc. done.
Qed.

Fixpoint spec_state (st : S) (metrics : list metric_t) : S :=
  match metrics with
  | [] => st
  | m :: metrics => spec_state (fst (spec st m)) metrics
  end.

Lemma spec_state_snoc metrics m st : spec_state st (metrics ++ [m]) = fst (spec (spec_state st metrics) m).
Proof. revert st. induction metrics as [|x l IH]; intros st; [done|]. apply IH. Qed.

Lemma spec_state_S metrics k m st : metrics !! k = Some m -> spec_state st (take (1 + k) metrics) = fst (spec (spec_state st (take k metrics)) m).
Proof. intros Hk. cbn [Nat.add]. rewrite (take_S_r _ _ _ Hk). apply spec_state_snoc. Qed.

Lemma spec_run_length metrics st : length (spec_run st metrics) = length metrics.
Proof. revert st. induction metrics as [|m l IH]; intros st; [done|]. cbn. destruct (spec st m). cbn. by rewrite IH. Qed.

Lemma spec_run_lookup metrics k m st : metrics !! k = Some m ->
  spec_run st metrics !! k = Some (Metric (m_hostid m) (m_itemid m) 0 (m_ts m) (snd (spec (spec_state st (take k metrics)) m))).
Proof.
  revert k st. induction metrics as [|x l IH]; intros [|k] st Hk; cbn in *; [done|done| |]; destruct (spec st x) as [st' v] eqn:Ex.
  - injection Hk as ->. cbn. by rewrite Ex.
  - cbn. by apply IH.
Qed.
End run.

(** ** Repeated values with a heartbeat *)

Section heartbeat.
Context (E : engines) (is_proxy : bool) (timeout : Z).

(** The value that came last and the second when a value was last sent. *)
Definition heartbeat (st : option (zbx_variant_t * Z)) (m : metric_t) : option (zbx_variant_t * Z) * zbx_variant_t :=
  let v := m_value m in
  match v, st with
  | VErr _, _ => (None, v)
  | _, Some (last, sent) =>
      if (zbx_variant_compare (epsilon E) v last =? 0) && (ts_s (m_ts m) - sent <? timeout) then (Some (v, sent), VNone) else (Some (v, ts_s (m_ts m)), v)
  | _, None => (Some (v, ts_s (m_ts m)), v)
  end.

Definition heartbeat_history (h : option zbx_pp_history_t) (st : option (zbx_variant_t * Z)) : Prop :=
  match st with
  | None => h = None
  | Some (last, sent) => is_none last = false /\ exists ns, h = Some [StepHistory 0 last (Timespec sent ns)]
  end.

Lemma compare_nothing v : is_none v = false -> zbx_variant_compare (epsilon E) v VNone = 1.
Proof. by destruct v. Qed.

Lemma timed_step m s hv hts d : sp_type s = ZBX_PREPROC_THROTTLE_TIMED_VALUE -> zbx_is_time_suffix (sp_params s) (zlen (sp_params s)) = Some timeout ->
  is_none (m_value m) = false -> forall vt,
  pp_execute_step E m vt s (StepState E (m_value m) hv hts None [] d) =
  Ret (true, if (zbx_variant_compare (epsilon E) (m_value m) hv =? 0) && (ts_s (m_ts m) - ts_s hts <? timeout)
             then StepState E VNone (m_value m) hts None [] d else StepState E (m_value m) (m_value m) (m_ts m) None [] d).
Proof.
  intros Hs Hp Hn vt. unfold pp_execute_step. rewrite Hs. cbn [st_value st_history_value st_history_ts st_cache st_sent st_disc].
  unfold pp_throttle_timed_value, item_preproc_throttle_timed_value. rewrite Hp.
  assert (Ep : match m_value m with VNone => 0 | _ => ts_s (m_ts m) - ts_s hts end = ts_s (m_ts m) - ts_s hts) by (by destruct (m_value m)).
  rewrite Ep. by destruct (_ && _).
Qed.

Lemma heartbeat_simulates p s : pp_steps p = [s] -> sp_type s = ZBX_PREPROC_THROTTLE_TIMED_VALUE ->
  zbx_is_time_suffix (sp_params s) (zlen (sp_params s)) = Some timeout ->
  simulates E heartbeat (fun _ => heartbeat_history) (fun m => is_none (m_value m) = false) p.
Proof.
  intros Hs Ht Hp n m d h st Hm HR.
  destruct (is_err (m_value m)) eqn:Ee.
  { destruct (m_value m) as [| | | | | |e] eqn:Ev; try discriminate Ee. exists None. unfold heartbeat. rewrite Ev. split; [done|].
    apply (error_step E (set_history p h) s); [done|by rewrite Ht|done]. }
  assert (Hst : exists old hv hts, pp_history_pop h 0 = (old, hv, hts) /\
    heartbeat st m = (if (zbx_variant_compare (epsilon E) (m_value m) hv =? 0) && (ts_s (m_ts m) - ts_s hts <? timeout) then (Some (m_value m, ts_s hts), VNone)
                      else (Some (m_value m, ts_s (m_ts m)), m_value m))).
  { destruct st as [[last sent]|]; cbn in HR.
    - destruct HR as (Hl & ns & ->). eexists _, _, _. split; [done|]. cbn. unfold heartbeat. by destruct (m_value m).
    - subst h. eexists _, _, _. split; [done|]. rewrite compare_nothing by done. unfold heartbeat. by destruct (m_value m). }
  destruct Hst as (old & hv & hts & Hpop & ->).
  pose proof (timed_step m s hv hts d Ht Hp Hm (pp_value_type p)) as Hx.
  destruct (_ && _); cbn [fst snd]; (eexists; split; [|eapply (single_step E (set_history p h)); [exact Hs|by rewrite Ht|exact Hpop|exact Ee|exact Hx|done]]);
    unfold one_history; rewrite Hm; (split; [done|]).
  - by destruct hts; eexists.
  - by destruct (m_ts m); eexists.
Qed.

(** ** Which values are dropped *)

(** The value at [k] repeats one sent less than [timeout] seconds before: all
    the values since then are equal to the one before them and were dropped. *)
Definition repeats (metrics outs : list metric_t) (k : nat) : Prop :=
  exists j mj mk oj, (j < k)%nat /\ metrics !! j = Some mj /\ metrics !! k = Some mk /\ is_err (m_value mj) = false /\
    outs !! j = Some oj /\ is_none (m_value oj) = false /\ ts_s (m_ts mk) - ts_s (m_ts mj) < timeout /\
    forall l, (j < l <= k)%nat -> exists a b o, metrics !! (l - 1)%nat = Some a /\ metrics !! l = Some b /\ outs !! l = Some o /\
      zbx_variant_compare (epsilon E) (m_value b) (m_value a) = 0 /\ ((l < k)%nat -> is_none (m_value o) = true).

Section dropped.
Context (metrics : list metric_t) (Hmetrics : Forall (fun m => is_none (m_value m) = false) metrics).
Let state (k : nat) := spec_state heartbeat None (take k metrics).
Let out (k : nat) (m : metric_t) : zbx_variant_t := snd (heartbeat (state k) m).

(** The last value that was sent. *)
Definition last_sent (k : nat) (last : zbx_variant_t) (sent : Z) : Prop :=
  exists j mj, (j < k)%nat /\ metrics !! j = Some mj /\ is_err (m_value mj) = false /\ out j mj = m_value mj /\ ts_s (m_ts mj) = sent /\
    (exists b, metrics !! (k - 1)%nat = Some b /\ last = m_value b) /\
    forall l, (j < l < k)%nat -> exists a b, metrics !! (l - 1)%nat = Some a /\ metrics !! l = Some b /\
      zbx_variant_compare (epsilon E) (m_value b) (m_value a) = 0 /\ out l b = VNone.

Lemma metric_value k m : metrics !! k = Some m -> is_none (m_value m) = false.
Proof. intros Hk. exact (Forall_lookup_1 _ _ _ _ Hmetrics Hk). Qed.

Lemma heartbeat_cases st m : is_none (m_value m) = false -> is_err (m_value m) = false ->
  match st with
  | Some (last, sent) =>
      zbx_variant_compare (epsilon E) (m_value m) last = 0 /\ ts_s (m_ts m) - sent < timeout /\ heartbeat st m = (Some (m_value m, sent), VNone) \/
      (zbx_variant_compare (epsilon E) (m_value m) last <> 0 \/ timeout <= ts_s (m_ts m) - sent) /\ heartbeat st m = (Some (m_value m, ts_s (m_ts m)), m_value m)
  | None => heartbeat st m = (Some (m_value m, ts_s (m_ts m)), m_value m)
  end.
Proof.
  intros Hn He. unfold heartbeat. destruct st as [[last sent]|]; [|by destruct (m_value m)].
  destruct (_ && _) eqn:Hb; unbool; [left|right]; (split; [lia|]) || (split; [lia|split; [lia|]]); by destruct (m_value m).
Qed.

Lemma last_sent_state k : (k <= length metrics)%nat ->
  match state k with
  | Some (last, sent) => last_sent k last sent
  | None => k = O \/ exists m, metrics !! (k - 1)%nat = Some m /\ is_err (m_value m) = true
  end.
Proof.
  induction k as [|k IH]; intros Hk; [by left|]. destruct (lookup_lt_is_Some_2 metrics k) as [m Hm]; [lia|].
  specialize (IH ltac:(lia)). unfold state. rewrite (spec_state_S _ _ _ _ _ Hm). fold (state k).
  destruct (is_err (m_value m)) eqn:Ee.
  { destruct (m_value m) as [| | | | | |e] eqn:Ev; try discriminate Ee. unfold heartbeat. rewrite Ev. right. exists m. split; [|by rewrite Ev]. by rewrite Nat.sub_1_r. }
  assert (Hsent : out k m = m_value m -> last_sent (S k) (m_value m) (ts_s (m_ts m))).
  { intros Ho. exists k, m. repeat (split; [done || lia|]). split; [exists m; by rewrite Nat.sub_1_r|]. intros l Hl. lia. }
  pose proof (heartbeat_cases (state k) m (metric_value _ _ Hm) Ee) as Hc. unfold out in Hsent.
  destruct (state k) as [[last sent]|] eqn:Est; [|by rewrite Hc in *; apply Hsent].
  destruct Hc as [(Hcmp & Ht & Hc)|(_ & Hc)]; [|by rewrite Hc in *; apply Hsent]. rewrite Hc. cbn [fst].
  destruct IH as (j & mj & Hj & Hmj & He & Ho & Hs & (b & Hb & ->) & Hall). exists j, mj. repeat (split; [done || lia|]).
  split; [exists m; by rewrite Nat.sub_1_r|]. intros l Hl. destruct (decide (l = k)) as [->|]; [|apply Hall; lia].
  exists b, m. repeat (split; [done|]). unfold out. by rewrite Est, Hc.
Qed.

Lemma out_lookup k m : metrics !! k = Some m -> spec_run heartbeat None metrics !! k = Some (Metric (m_hostid m) (m_itemid m) 0 (m_ts m) (out k m)).
Proof. apply spec_run_lookup. Qed.

Lemma dropped_not_err k m : metrics !! k = Some m -> out k m = VNone -> is_err (m_value m) = false.
Proof. intros Hm Ho. pose proof (metric_value _ _ Hm). unfold out, heartbeat in Ho. by destruct (m_value m). Qed.

(** The value before a repeated one is not an error. *)
Lemma repeats_before k : repeats metrics (spec_run heartbeat None metrics) k ->
  exists a, metrics !! (k - 1)%nat = Some a /\ is_err (m_value a) = false /\ (0 < k)%nat.
Proof.
  intros (j & mj & mk & oj & Hj & Hmj & Hmk & Hej & _ & _ & _ & Hall).
  destruct (decide (k - 1 = j)%nat) as [Ekj|]; [exists mj; rewrite Ekj; split; [done|split; [done|lia]]|].
  destruct (Hall (k - 1)%nat ltac:(lia)) as (_ & b & o & _ & Hb & Hlo & _ & Hd). exists b. split; [done|]. split; [|lia].
  rewrite (out_lookup _ _ Hb) in Hlo. injection Hlo as <-. specialize (Hd ltac:(lia)). apply (dropped_not_err _ _ Hb).
  cbn in Hd. by destruct (out (k - 1) b).
Qed.

(** A repeated value repeats the last one that was sent. *)
Lemma repeats_last k m last sent : metrics !! k = Some m -> last_sent k last sent -> repeats metrics (spec_run heartbeat None metrics) k ->
  zbx_variant_compare (epsilon E) (m_value m) last = 0 /\ ts_s (m_ts m) - sent < timeout.
Proof.
  intros Hm (j & mj & Hj & Hmj & He & Ho & Hs & (b & Hb & ->) & Hall) (j' & mj' & mk & oj & Hj' & Hmj' & Hmk & _ & Hoj & Hne & Htk & Hall').
  rewrite Hm in Hmk. injection Hmk as <-.
  assert (j' = j) as ->.
  { destruct (lt_eq_lt_dec j' j) as [[H|H]|H]; [|done|].
    - destruct (Hall' j ltac:(lia)) as (_ & b' & o & _ & Hb' & Hlo & _ & Hd). rewrite (out_lookup _ _ Hmj) in Hlo. injection Hlo as <-.
      specialize (Hd Hj). cbn in Hd. rewrite Ho, (metric_value _ _ Hmj) in Hd. done.
    - destruct (Hall j' ltac:(lia)) as (a & b' & _ & Hb' & _ & Hob). rewrite (out_lookup _ _ Hb') in Hoj. injection Hoj as <-. cbn in Hne. by rewrite Hob in Hne. }
  rewrite Hmj in Hmj'. injection Hmj' as <-. destruct (Hall' k ltac:(lia)) as (a & b' & _ & Ha & Hb' & _ & Hcmp & _).
  rewrite Hb in Ha. injection Ha as <-. rewrite Hm in Hb'. injection Hb' as <-. lia.
Qed.

Lemma last_repeats k m last sent : metrics !! k = Some m -> last_sent k last sent ->
  zbx_variant_compare (epsilon E) (m_value m) last = 0 -> ts_s (m_ts m) - sent < timeout -> repeats metrics (spec_run heartbeat None metrics) k.
Proof.
  intros Hm (j & mj & Hj & Hmj & He & Ho & Hs & (b & Hb & ->) & Hall) Hcmp Ht. eexists j, mj, m, _. repeat (split; [done|]). split; [exact (out_lookup _ _ Hmj)|].
  cbn [m_value]. rewrite Ho. split; [exact (metric_value _ _ Hmj)|]. split; [lia|]. intros l Hl. destruct (decide (l = k)) as [->|].
  - eexists b, m, _. split; [done|]. split; [done|]. split; [exact (out_lookup _ _ Hm)|]. split; [done|lia].
  - destruct (Hall l ltac:(lia)) as (a & b' & Ha & Hb' & Hc' & Ho'). eexists a, b', _. repeat (split; [done|]).
    split; [exact (out_lookup _ _ Hb')|]. split; [done|]. intros _. cbn. by rewrite Ho'.
Qed.

Lemma out_dropped k m : metrics !! k = Some m -> (out k m = m_value m \/ out k m = VNone) /\ (out k m = VNone <-> repeats metrics (spec_run heartbeat None metrics) k).
Proof.
  intros Hm. pose proof (metric_value _ _ Hm) as Hn. pose proof (lookup_lt_Some _ _ _ Hm) as Hk. pose proof (last_sent_state k ltac:(lia)) as Hlast.
  assert (Hsent : out k m = m_value m -> ~ repeats metrics (spec_run heartbeat None metrics) k ->
    (out k m = m_value m \/ out k m = VNone) /\ (out k m = VNone <-> repeats metrics (spec_run heartbeat None metrics) k)).
  { intros Ho Hr. split; [by left|]. split; [|done]. rewrite Ho. intros E0. by rewrite E0 in Hn. }
  destruct (is_err (m_value m)) eqn:Ee.
  { apply Hsent; [unfold out, heartbeat; by destruct (m_value m)|]. intros Hr. destruct (repeats_before k Hr) as (a & Ha & Hea & _).
    destruct Hr as (j & mj & mk & oj & Hj & _ & _ & _ & _ & _ & _ & Hall). destruct (Hall k ltac:(lia)) as (a' & b & o & Ha' & Hb & _ & Hcmp & _).
    rewrite Hm in Hb. injection Hb as <-. rewrite Ha in Ha'. injection Ha' as <-. pose proof (metric_value _ _ Ha).
    destruct (m_value m); try discriminate Ee. by destruct (m_value a). }
  pose proof (heartbeat_cases (state k) m Hn Ee) as Hc. unfold out in *. destruct (state k) as [[last sent]|].
  - destruct Hc as [(Hcmp & Ht & Hc)|(Hor & Hc)]; rewrite Hc in *; cbn [snd] in *.
    + split; [by right|]. split; [intros _; by eapply last_repeats|done].
    + apply Hsent; [done|]. intros Hr. destruct (repeats_last k m last sent Hm Hlast Hr). lia.
  - rewrite Hc in *. apply Hsent; [done|]. intros Hr. destruct (repeats_before k Hr) as (a & Ha & Hea & H0).
    destruct Hlast as [->|(a' & Ha' & Hea')]; [lia|]. congruence.
Qed.
End dropped.
End heartbeat.

(** C12: dropping repeated values with a heartbeat.  The worker sends one metric
    for each value of an item that has this step, in their order: the value
    itself, or nothing.  A value is dropped if and only if it repeats: another
    one was sent less than the period before, and every value since then is
    equal to the one before it and was dropped.  An error is always sent. *)
Theorem throttled_values E is_proxy p s timeout i metrics w :
  pp_steps p = [s] -> sp_type s = ZBX_PREPROC_THROTTLE_TIMED_VALUE -> zbx_is_time_suffix (sp_params s) (zlen (sp_params s)) = Some timeout ->
  pp_dep_itemids p = [] -> pp_discovery_rule p = false -> pp_history p = None -> w_items E w !! i = Some p ->
  Forall (fun m => m_itemid m = i /\ is_none (m_value m) = false) metrics ->
  exists w' outs, process_incoming_metrics E is_proxy metrics w = Ret w' /\ w_processing E w' = w_processing E w ++ outs /\ length outs = length metrics /\
    forall k m, metrics !! k = Some m -> exists v, outs !! k = Some (Metric (m_hostid m) i 0 (m_ts m) v) /\
      (v = m_value m \/ v = VNone) /\ (v = VNone <-> repeats E timeout metrics outs k).
Proof.
  intros Hs Ht Hp Hd Hr Hh Hw Hm.
  destruct (incoming_item E is_proxy (heartbeat E timeout) (fun _ => heartbeat_history) (fun m => is_none (m_value m) = false) p i metrics Hd Hr
    (heartbeat_simulates E timeout p s Hs Ht Hp)) with (st := @None (zbx_variant_t * Z)) (h := @None zbx_pp_history_t) (w := w) as (w' & Hrun & Hproc & _ & _); [|done|by rewrite Hw; destruct p; cbn in *; subst|].
  { eapply Forall_impl; [exact Hm|]. naive_solver. }
  exists w', (spec_run (heartbeat E timeout) None metrics). split; [done|]. split; [done|]. split; [apply spec_run_length|].
  intros k m Hk. eexists. split; [|eapply out_dropped; [|exact Hk]].
  - destruct (Forall_lookup_1 _ _ _ _ Hm Hk) as [<- _]. by apply out_lookup.
  - eapply Forall_impl; [exact Hm|]. naive_solver.
Qed.

Definition sample_throttle : zbx_pp_item_preproc_t := ItemPreproc ITEM_VALUE_TYPE_UINT64 false [sample_step ZBX_PREPROC_THROTTLE_TIMED_VALUE (txt "10")] [] None.
Definition sample_repeated : list metric_t := [sample_metric 1 100 (VUi64 5); sample_metric 1 105 (VUi64 5); sample_metric 1 110 (VUi64 5); sample_metric 1 112 (VUi64 6)].

Lemma throttled_values_witness :
  exists w' outs, process_incoming_metrics sample_engines false sample_repeated (sample_worker [(1, sample_throttle)]) = Ret w' /\
    w_processing sample_engines w' = outs /\ length outs = 4%nat /\
    forall k m, sample_repeated !! k = Some m -> exists v, outs !! k = Some (Metric (m_hostid m) 1 0 (m_ts m) v) /\
      (v = m_value m \/ v = VNone) /\ (v = VNone <-> repeats sample_engines 10 sample_repeated outs k).
Proof.
  apply (throttled_values sample_engines false sample_throttle (sample_step ZBX_PREPROC_THROTTLE_TIMED_VALUE (txt "10")) 10 1 sample_repeated (sample_worker [(1, sample_throttle)])).
  - reflexivity.
  - reflexivity.
  - vm_compute. reflexivity.
  - reflexivity.
  - reflexivity.
  - reflexivity.
  - reflexivity.
  - repeat constructor.
Defined.

Example throttled_sample : run_values [(1, sample_throttle)] sample_repeated = Ret [(1, VUi64 5); (1, VNone); (1, VUi64 5); (1, VUi64 6)].
Proof. by vm_compute. Qed.

(** ** Changes of a counter *)

Section change.
Context (E : engines).

Definition change (st : option Z) (m : metric_t) : option Z * zbx_variant_t :=
  match m_value m with
  | VUi64 n => (Some n, match st with Some h => if n <? h then VNone else VUi64 (n - h) | None => VNone end)
  | v => (st, v)
  end.

Definition counter_value (m : metric_t) : Prop := (exists n, m_value m = VUi64 n) /\ ts_s (m_ts m) <> 0.

Definition change_history (h : option zbx_pp_history_t) (st : option Z) : Prop :=
  match st with
  | None => h = None
  | Some n => exists ts, ts_s ts <> 0 /\ h = Some [StepHistory 0 (VUi64 n) ts]
  end.

Lemma change_simulates p s : pp_steps p = [s] -> sp_type s = ZBX_PREPROC_DELTA_VALUE -> pp_value_type p = ITEM_VALUE_TYPE_UINT64 ->
  simulates E change (fun _ => change_history) counter_value p.
Proof.
  intros Hs Ht Hv k0 m d h st [[n Hn] Hts] HR.
  assert (Hst : exists old hv hts, pp_history_pop h 0 = (old, hv, hts) /\ match st with Some k => hv = VUi64 k /\ ts_s hts <> 0 | None => hv = VNone end).
  { destruct st as [k|]; cbn in HR; [destruct HR as (ts & Hz & ->)|subst h]; by eexists _, _, _. }
  destruct Hst as (old & hv & hts & Hpop & Hhv). unfold change. rewrite Hn. cbn [fst snd].
  eexists; split; [|eapply (single_step E (set_history p h)); [exact Hs|by rewrite Ht|exact Hpop|by rewrite Hn| |]].
  2: { unfold pp_execute_step. rewrite Ht, Hn. cbn [set_history pp_value_type]. rewrite Hv. cbn [st_value st_history_value st_history_ts st_cache st_sent st_disc].
       unfold pp_execute_delta, item_preproc_delta. cbn -[Z.ltb].
       destruct st as [k|]; [destruct Hhv as [-> Hz]|subst hv]; [|reflexivity]. cbn -[Z.ltb]. unfold item_preproc_delta_uint64.
       replace (ts_s hts =? 0) with false by lia. cbn [orb]. by destruct (n <? k). }
  - exists (m_ts m). done.
  - destruct st as [k|]; [|done]. by destruct (n <? k).
Qed.

(** The number that was sent, nothing for no value. *)
Definition sent_number (o : metric_t) : Z := match m_value o with VUi64 n => n | _ => 0 end.
Definition total (l : list metric_t) : Z := foldr (fun o t => sent_number o + t) 0 l.

Lemma total_app l1 l2 : total (l1 ++ l2) = total l1 + total l2.
Proof. induction l1 as [|o l1 IH]; cbn; [done|]. fold (total (l1 ++ l2)) (total l1). lia. Qed.

(** What is sent for the value [n] that comes after [before]. *)
Definition change_of (before : option metric_t) (n : Z) : zbx_variant_t :=
  match m_value <$> before with
  | Some (VUi64 b) => if n <? b then VNone else VUi64 (n - b)
  | _ => VNone
  end.

Definition before {A} (l : list A) (k : nat) : option A := match k with O => None | S k => l !! k end.

Lemma change_state metrics k : Forall counter_value metrics -> (k <= length metrics)%nat ->
  spec_state change None (take k metrics) = match m_value <$> before metrics k with Some (VUi64 b) => Some b | _ => None end.
Proof.
  intros Hm Hk. destruct k as [|k]; [done|]. destruct (lookup_lt_is_Some_2 metrics k) as [m Em]; [lia|].
  pose proof (spec_state_S change metrics k m None Em) as Es. cbn [Nat.add] in Es. rewrite Es. cbn [before]. rewrite Em.
  destruct (Forall_lookup_1 _ _ _ _ Hm Em) as [[n Hn] _]. unfold change. cbn. by rewrite Hn.
Qed.

Lemma change_out metrics k m n : Forall counter_value metrics -> metrics !! k = Some m -> m_value m = VUi64 n ->
  spec_run change None metrics !! k = Some (Metric (m_hostid m) (m_itemid m) 0 (m_ts m) (change_of (before metrics k) n)).
Proof.
  intros Hm Hk Hn. rewrite (spec_run_lookup change _ _ _ _ Hk). rewrite change_state; [|done|apply lookup_lt_Some in Hk; lia].
  unfold change, change_of. rewrite Hn. cbn [snd]. by destruct (m_value <$> before metrics k) as [[]|].
Qed.

(** A counter that does not fall between [j] and [k]. *)
Definition counts_up (metrics : list metric_t) (j k : nat) : Prop :=
  forall l a b x y, (j <= l < k)%nat -> metrics !! l = Some a -> metrics !! (l + 1)%nat = Some b -> m_value a = VUi64 x -> m_value b = VUi64 y -> x <= y.

Lemma change_total metrics j mj nj : Forall counter_value metrics -> metrics !! j = Some mj -> m_value mj = VUi64 nj ->
  forall n mk nk, metrics !! (j + n)%nat = Some mk -> m_value mk = VUi64 nk -> counts_up metrics j (j + n) ->
  total (take n (drop (j + 1) (spec_run change None metrics))) = nk - nj.
Proof.
  intros Hm Hj Hnj n. induction n as [|n IH]; intros mk nk Hk Hnk Hup.
  - rewrite Nat.add_0_r in Hk. rewrite take_0. change (total []) with 0. replace mk with mj in Hnk by congruence. rewrite Hnk in Hnj. injection Hnj as ->. lia.
  - destruct (lookup_lt_is_Some_2 metrics (j + n)%nat) as [b Hb]; [apply lookup_lt_Some in Hk; lia|].
    destruct (Forall_lookup_1 _ _ _ _ Hm Hb) as [[nb Hnb] _].
    pose proof (change_out metrics _ mk nk Hm Hk Hnk) as Ho. rewrite Nat.add_succ_r in Ho. cbn [before] in Ho. rewrite Hb in Ho. unfold change_of in Ho. cbn in Ho. rewrite Hnb in Ho.
    assert (Hle : nb <= nk) by (apply (Hup (j + n)%nat b mk nb nk); [lia|exact Hb|by replace (j + n + 1)%nat with (j + S n)%nat by lia|exact Hnb|exact Hnk]).
    replace (nk <? nb) with false in Ho by lia. erewrite take_S_r; [|rewrite lookup_drop; replace (j + 1 + n)%nat with (S (j + n)) by lia; exact Ho].
    rewrite total_app. cbn [total foldr sent_number m_value]. rewrite (IH b nb Hb Hnb); [lia|]. intros l x y ?? Hl. apply Hup. lia.
Qed.
End change.

(** C13: changes of a counter.  For each value of an item with this step the
    worker sends one metric: the difference from the value before, nothing for
    the first value and for one that is less than the value before; so what is
    sent between two values is in total their difference, as long as the counter
    does not fall. *)
Theorem counter_changes E is_proxy p s i metrics w :
  pp_steps p = [s] -> sp_type s = ZBX_PREPROC_DELTA_VALUE -> pp_value_type p = ITEM_VALUE_TYPE_UINT64 ->
  pp_dep_itemids p = [] -> pp_discovery_rule p = false -> pp_history p = None -> w_items E w !! i = Some p ->
  Forall (fun m => m_itemid m = i /\ counter_value m) metrics ->
  exists w' outs, process_incoming_metrics E is_proxy metrics w = Ret w' /\ w_processing E w' = w_processing E w ++ outs /\ length outs = length metrics /\
    (forall k m n, metrics !! k = Some m -> m_value m = VUi64 n -> outs !! k = Some (Metric (m_hostid m) i 0 (m_ts m) (change_of (before metrics k) n))) /\
    (forall j n mj mk nj nk, metrics !! j = Some mj -> metrics !! (j + n)%nat = Some mk -> m_value mj = VUi64 nj -> m_value mk = VUi64 nk ->
      counts_up metrics j (j + n) -> total (take n (drop (j + 1) outs)) = nk - nj).
Proof.
  intros Hs Ht Hv Hd Hr Hh Hw Hm. assert (Hc : Forall counter_value metrics) by (eapply Forall_impl; [exact Hm|]; naive_solver).
  destruct (incoming_item E is_proxy change (fun _ => change_history) counter_value p i metrics Hd Hr (change_simulates E p s Hs Ht Hv))
    with (st := @None Z) (h := @None zbx_pp_history_t) (w := w) as (w' & Hrun & Hproc & _ & _); [|done|by rewrite Hw; destruct p; cbn in *; subst|].
  { eapply Forall_impl; [exact Hm|]. intros m (Hi & Hcv). split; [done|]. split; [done|]. destruct Hcv as [[n ->] _]. done. }
  exists w', (spec_run change None metrics). split; [done|]. split; [done|]. split; [apply spec_run_length|]. split.
  - intros k m n Hk Hn. destruct (Forall_lookup_1 _ _ _ _ Hm Hk) as [<- _]. by apply change_out.
  - intros j n mj mk nj nk Hj Hk Hnj Hnk Hup. by eapply change_total.
Qed.

Definition sample_delta : zbx_pp_item_preproc_t := ItemPreproc ITEM_VALUE_TYPE_UINT64 false [sample_step ZBX_PREPROC_DELTA_VALUE []] [] None.
Definition sample_counter : list metric_t := [sample_metric 1 100 (VUi64 5); sample_metric 1 160 (VUi64 9); sample_metric 1 220 (VUi64 3); sample_metric 1 280 (VUi64 10)].

Lemma counter_changes_witness :
  exists w' outs, process_incoming_metrics sample_engines false sample_counter (sample_worker [(1, sample_delta)]) = Ret w' /\
    w_processing sample_engines w' = [] ++ outs /\ length outs = 4%nat /\
    (forall k m n, sample_counter !! k = Some m -> m_value m = VUi64 n -> outs !! k = Some (Metric (m_hostid m) 1 0 (m_ts m) (change_of (before sample_counter k) n))) /\
    (forall j n mj mk nj nk, sample_counter !! j = Some mj -> sample_counter !! (j + n)%nat = Some mk -> m_value mj = VUi64 nj -> m_value mk = VUi64 nk ->
      counts_up sample_counter j (j + n) -> total (take n (drop (j + 1) outs)) = nk - nj).
Proof.
  apply (counter_changes sample_engines false sample_delta (sample_step ZBX_PREPROC_DELTA_VALUE []) 1 sample_counter (sample_worker [(1, sample_delta)])).
  - reflexivity.
  - reflexivity.
  - reflexivity.
  - reflexivity.
  - reflexivity.
  - reflexivity.
  - reflexivity.
  - repeat constructor; try (eexists; reflexivity); discriminate.
Defined.

Example counter_sample : run_values [(1, sample_delta)] sample_counter = Ret [(1, VNone); (1, VUi64 4); (1, VNone); (1, VUi64 7)].
Proof. by vm_compute. Qed.

(** ** Aggregation over a period *)

Section aggregate.
Context (E : engines) (func : agg_func) (timeout : Z).

(** The values of a period together. *)
Definition agg_op (h d : double) : double :=
  match func with
  | GLB_FUNC_MIN => if dbl_lt h d then h else d
  | GLB_FUNC_MAX => if dbl_lt d h then h else d
  | _ => dbl_add h d
  end.

Definition folded (ds : list double) : double := match ds with d :: ds => foldl agg_op d ds | [] => dbl_zero end.

Definition aggregate (ds : list double) : zbx_variant_t :=
  match func with
  | GLB_FUNC_COUNT => VUi64 (zlen ds)
  | GLB_FUNC_AVG => VDbl (dbl_div (folded ds) (dbl_of_Z (zlen ds)))
  | _ => VDbl (folded ds)
  end.

(** The second when the period began and its values. *)
Definition window (st : option (Z * list double)) (m : metric_t) : option (Z * list double) * zbx_variant_t :=
  match m_value m with
  | VDbl d =>
      let '(start, ds) := default (ts_s (m_ts m), []) st in
      let ds := ds ++ [d] in
      if start + timeout <? ts_s (m_ts m) then (None, aggregate ds) else (Some (start, ds), VNone)
  | v => (st, v)
  end.

(** What the history keeps of the values. *)
Definition kept (ds : list double) : zbx_variant_t := match func with GLB_FUNC_COUNT => VUi64 0 | _ => VDbl (folded ds) end.

Definition window_history (n : nat) (h : option zbx_pp_history_t) (st : option (Z * list double)) : Prop :=
  Z.of_nat n <= 2147483647 /\
  match st with
  | None => h = None \/ h = Some []
  | Some (start, ds) => ds <> [] /\ zlen ds + Z.of_nat n <= 2147483647 /\ 0 <= start /\ start + timeout <= 2147483647 /\
      h = Some [StepHistory 0 (kept ds) (Timespec start (zlen ds))]
  end.

Definition number_value (m : metric_t) : Prop := (exists d, m_value m = VDbl d) /\ 0 <= ts_s (m_ts m) /\ ts_s (m_ts m) + timeout <= 2147483647.

Lemma agg_value_dbl d : agg_value func (VDbl d) = Some (VDbl d).
Proof. by destruct func. Qed.

Lemma agg_start_dbl d ts : agg_start func (VDbl d) ts = Ret (match func with GLB_FUNC_COUNT => VUi64 0 | _ => VDbl d end, Timespec (ts_s ts) 0).
Proof. by destruct func. Qed.

Lemma folded_snoc ds d : ds <> [] -> folded (ds ++ [d]) = agg_op (folded ds) d.
Proof. destruct ds as [|x ds]; [done|]. intros _. cbn. by rewrite foldl_app. Qed.

(** The first value of a period is counted as the others. *)
Lemma agg_add_first d start : agg_add func (VDbl d) (match func with GLB_FUNC_COUNT => VUi64 0 | _ => VDbl d end) (Timespec start 0) = Ret (kept [d]).
Proof. unfold kept. destruct func; cbn; try done; by destruct (dbl_lt d d). Qed.

Lemma agg_add_next ds d start : ds <> [] -> agg_add func (VDbl d) (kept ds) (Timespec start (zlen ds)) = Ret (kept (ds ++ [d])).
Proof.
  intros Hds. assert (Hl : (zlen ds =? 0) = false) by (destruct ds; [done|]; lens; lia).
  unfold agg_add, kept. rewrite folded_snoc by done. unfold agg_op. destruct func; cbn [ts_ns]; rewrite ?Hl; done.
Qed.

Lemma agg_result_kept ds : agg_result func (kept ds) (zlen ds) = Ret (aggregate ds).
Proof. unfold agg_result, kept, aggregate. by destruct func. Qed.

(** The step on a value, with the history that it gets. *)
Lemma agg_step params time name start ds d ts hv hts : split_newline params = Some (time, name) -> time <> [] -> get_agg_func name = Some func ->
  zbx_is_time_suffix params (zlen time) = Some timeout -> 0 <= timeout -> 0 <= start -> start + timeout <= 2147483647 -> zlen ds + 1 <= 2147483647 ->
  (ds = [] /\ hv = VNone /\ start = ts_s ts \/ ds <> [] /\ hv = kept ds /\ hts = Timespec start (zlen ds)) ->
  pp_execute_throttle_value_agg (VDbl d) ts params hv hts =
  Ret (if start + timeout <? ts_s ts then (true, aggregate (ds ++ [d]), VNone, Timespec start (zlen ds + 1)) else (true, VNone, kept (ds ++ [d]), Timespec start (zlen ds + 1))).
Proof.
  intros Hp Ht Hf Hs H0 Hst Hov Hn Hh. unfold pp_execute_throttle_value_agg. rewrite bool_decide_eq_false_2 by done. rewrite Hp.
  destruct time as [|c time]; [done|]. rewrite Hf, Hs, agg_value_dbl.
  assert (Hadd : match hv with VNone => agg_start func (VDbl d) ts | _ => Ret (hv, hts) end ≫= (fun '(h, hts) => h ← agg_add func (VDbl d) h hts; Ret (h, hts)) =
    Ret (kept (ds ++ [d]), Timespec start (zlen ds))).
  { destruct Hh as [(-> & -> & ->)|(Hne & -> & ->)].
    - rewrite agg_start_dbl. cbn [mbind res_mbind]. by rewrite agg_add_first.
    - replace (match kept ds with VNone => _ | _ => Ret (kept ds, _) end) with (Ret (kept ds, Timespec start (zlen ds))) by (unfold kept; by destruct func).
      cbn [mbind res_mbind]. by rewrite agg_add_next. }
  destruct (match hv with VNone => _ | _ => _ end) as [[h1 hts1]|]; [|done]. cbn [mbind res_mbind] in *.
  destruct (agg_add func (VDbl d) h1 hts1) as [h2|]; [|done]. cbn [mbind res_mbind] in *. injection Hadd as -> ->. cbn [ts_s ts_ns].
  unfold int_add. replace (Z.abs (zlen ds + 1) <=? 2147483647) with true by (pose proof (zlen_nonneg ds); lia).
  replace (Z.abs (start + timeout) <=? 2147483647) with true by lia. cbn [mbind res_mbind].
  destruct (start + timeout <? ts_s ts); [|done].
  replace (zlen ds + 1) with (zlen (ds ++ [d])) by (lens; lia). by rewrite agg_result_kept.
Qed.

Lemma window_simulates p s time name : pp_steps p = [s] -> sp_type s = GLB_PREPROC_THROTTLE_TIMED_VALUE_AGG ->
  split_newline (sp_params s) = Some (time, name) -> time <> [] -> get_agg_func name = Some func ->
  zbx_is_time_suffix (sp_params s) (zlen time) = Some timeout -> 0 <= timeout ->
  simulates E window window_history number_value p.
Proof.
  intros Hs Ht Hp Hne Hf Hsuf H0 n m d h st [[x Hx] [Hts Hov]] [Hcount HR].
  set (sd := default (ts_s (m_ts m), []) st).
  assert (Hst : exists old hv hts, pp_history_pop h 0 = (old, hv, hts) /\ 0 <= fst sd /\ fst sd + timeout <= 2147483647 /\ zlen (snd sd) + 1 + Z.of_nat n <= 2147483647 /\
    (snd sd = [] /\ hv = VNone /\ fst sd = ts_s (m_ts m) \/ snd sd <> [] /\ hv = kept (snd sd) /\ hts = Timespec (fst sd) (zlen (snd sd)))).
  { destruct st as [[start ds]|].
    - destruct HR as (Hd & Hl & Hst & Ho & ->). unfold sd; cbn [default from_option id fst snd]. eexists _, _, _. split; [done|]. split; [done|]. split; [done|]. split; [lia|]. by right.
    - unfold sd; cbn [default from_option id fst snd]. assert (exists old, pp_history_pop h 0 = (old, VNone, no_ts)) as [old Hpop] by (by destruct HR as [->| ->]; eexists).
      eexists old, VNone, no_ts. split; [done|]. split; [done|]. split; [done|]. split; [change (zlen (@nil double)) with 0; lia|]. by left. }
  destruct Hst as (old & hv & hts & Hpop & Hst0 & Hst1 & Hl & Hh).
  assert (Hw : window st m = (let '(start, ds) := sd in if start + timeout <? ts_s (m_ts m) then (None, aggregate (ds ++ [x])) else (Some (start, ds ++ [x]), VNone))) by (unfold window; by rewrite Hx).
  pose proof (agg_step (sp_params s) time name (fst sd) (snd sd) x (m_ts m) hv hts Hp Hne Hf Hsuf H0 Hst0 Hst1 ltac:(lia) Hh) as Ha.
  rewrite Hw. destruct sd as [start ds]. cbn [fst snd] in *.
  assert (Hagg : is_err (aggregate (ds ++ [x])) = false) by (unfold aggregate; by destruct func).
  assert (Hkept : is_none (kept (ds ++ [x])) = false) by (unfold kept; by destruct func).
  destruct (start + timeout <? ts_s (m_ts m)); cbn [fst snd];
    (eexists; split; [|eapply (single_step E (set_history p h)); [exact Hs|by rewrite Ht|exact Hpop|by rewrite Hx| |]];
     [|unfold pp_execute_step; rewrite Ht; cbn [st_value st_history_value st_history_ts st_cache st_sent st_disc]; rewrite Hx, Ha; reflexivity|done]).
  - split; [lia|]. by right.
  - unfold one_history. rewrite Hkept. split; [lia|]. split; [by destruct ds|].
    replace (zlen (ds ++ [x])) with (zlen ds + 1) by (lens; lia). split; [lia|]. done.
Qed.

(** The numbers of the metrics, and the values that were sent. *)
Definition numbers (metrics : list metric_t) : list double := omap (fun m => match m_value m with VDbl d => Some d | _ => None end) metrics.
Definition sent_values (outs : list metric_t) : list zbx_variant_t := filter (fun v => is_none v = false) (m_value <$> outs).

Definition pending (st : option (Z * list double)) : list double := match st with Some (_, ds) => ds | None => [] end.

(** The values of a run are the periods one after the other. *)
Lemma window_partition metrics : Forall number_value metrics -> forall st, exists periods rest,
  pending st ++ numbers metrics = mjoin periods ++ rest /\ rest = pending (spec_state window st metrics) /\
  sent_values (spec_run window st metrics) = aggregate <$> periods.
Proof.
  intros Hm. induction Hm as [|m metrics [[x Hx] _] _ IH]; intros st.
  { exists [], (pending st). cbn. by rewrite app_nil_r. }
  assert (Hagg : forall ds, is_none (aggregate ds) = false) by (intros ds; unfold aggregate; by destruct func).
  cbn [spec_run spec_state numbers omap list_omap]. rewrite Hx. fold (numbers metrics). destruct (window st m) as [st' v] eqn:Ew. unfold window in Ew. rewrite Hx in Ew.
  assert (Hp : pending st = snd (default (ts_s (m_ts m), []) st)) by (by destruct st as [[]|]). rewrite Hp. destruct (default _ st) as [start ds]. cbn [snd fst].
  destruct (IH st') as (periods & rest & H1 & H2 & H3). unfold sent_values in *. cbn [fmap list_fmap m_value fst].
  destruct (start + timeout <? ts_s (m_ts m)); injection Ew as <- <-; rewrite filter_cons.
  - rewrite decide_True by apply Hagg. exists ((ds ++ [x]) :: periods), rest. split; [|split; [done|by cbn; rewrite H3]].
    change (mjoin ((ds ++ [x]) :: periods)) with ((ds ++ [x]) ++ mjoin periods). cbn [pending app] in H1. by rewrite <-!app_assoc, <-H1.
  - rewrite decide_False by done. exists periods, rest. split; [|done]. cbn [pending] in H1. by rewrite <-H1, <-app_assoc.
Qed.
End aggregate.

(** C14: aggregation over a period.  Take an item whose only step aggregates over
    a period, with parameters that can be parsed, without dependent items and
    history, and values of it that are doubles (unsigned values are read as if
    they were doubles and are left out), with times that are not negative and
    end with the period before 2^31, at most 2^31 - 1 of them.  The worker sends
    for each number of the item nothing, or, with the first number that comes when the
    period is over, the aggregate of the numbers since the period began, that
    number too: what is sent is what the machine of periods says, and the numbers
    are, in their order, those of the periods that were sent and of the one that
    is not over; no number is lost and none is counted twice. *)
Theorem aggregated_values E is_proxy p s time name func timeout i metrics w :
  pp_steps p = [s] -> sp_type s = GLB_PREPROC_THROTTLE_TIMED_VALUE_AGG ->
  split_newline (sp_params s) = Some (time, name) -> time <> [] -> get_agg_func name = Some func ->
  zbx_is_time_suffix (sp_params s) (zlen time) = Some timeout -> 0 <= timeout ->
  pp_dep_itemids p = [] -> pp_discovery_rule p = false -> pp_history p = None -> w_items E w !! i = Some p ->
  zlen metrics <= 2147483647 -> Forall (fun m => m_itemid m = i /\ number_value timeout m) metrics ->
  exists w' outs periods, process_incoming_metrics E is_proxy metrics w = Ret w' /\ w_processing E w' = w_processing E w ++ outs /\
    outs = spec_run (window func timeout) None metrics /\
    numbers metrics = mjoin periods ++ pending (spec_state (window func timeout) None metrics) /\ sent_values outs = aggregate func <$> periods.
Proof.
  intros Hs Ht Hp Hne Hf Hsuf H0 Hd Hr Hh Hw Hlen Hm. assert (Hc : Forall (number_value timeout) metrics) by (eapply Forall_impl; [exact Hm|]; naive_solver).
  destruct (incoming_item E is_proxy (window func timeout) (window_history func timeout) (number_value timeout) p i metrics Hd Hr (window_simulates E func timeout p s time name Hs Ht Hp Hne Hf Hsuf H0))
    with (st := @None (Z * list double)) (h := @None zbx_pp_history_t) (w := w) as (w' & Hrun & Hproc & _ & _); [|split; [exact Hlen|by left]|by rewrite Hw; destruct p; cbn in *; subst|].
  { eapply Forall_impl; [exact Hm|]. intros m (Hi & Hcv). split; [done|]. split; [done|]. destruct Hcv as [[x ->] _]. done. }
  destruct (window_partition func timeout metrics Hc None) as (periods & rest & H1 & -> & H3).
  exists w', (spec_run (window func timeout) None metrics), periods. done.
Qed.

Definition sample_agg : zbx_pp_step_t := sample_step GLB_PREPROC_THROTTLE_TIMED_VALUE_AGG (txt "60" ++ [10] ++ txt "avg").
Definition sample_periods : zbx_pp_item_preproc_t := ItemPreproc ITEM_VALUE_TYPE_FLOAT false [sample_agg] [] None.
Definition sample_numbers : list metric_t :=
  [sample_metric 1 100 (VDbl (dbl_of_Z 1)); sample_metric 1 130 (VDbl (dbl_of_Z 2)); sample_metric 1 161 (VDbl (dbl_of_Z 6)); sample_metric 1 170 (VDbl (dbl_of_Z 7))].

Lemma aggregated_values_witness :
  exists w' outs periods, process_incoming_metrics sample_engines false sample_numbers (sample_worker [(1, sample_periods)]) = Ret w' /\ w_processing sample_engines w' = [] ++ outs /\
    outs = spec_run (window GLB_FUNC_AVG 60) None sample_numbers /\
    numbers sample_numbers = mjoin periods ++ pending (spec_state (window GLB_FUNC_AVG 60) None sample_numbers) /\ sent_values outs = aggregate GLB_FUNC_AVG <$> periods.
Proof.
  apply (aggregated_values sample_engines false sample_periods sample_agg (txt "60") (txt "avg") GLB_FUNC_AVG 60 1 sample_numbers (sample_worker [(1, sample_periods)])).
  - reflexivity.
  - reflexivity.
  - vm_compute. reflexivity.
  - discriminate.
  - vm_compute. reflexivity.
  - vm_compute. reflexivity.
  - lia.
  - reflexivity.
  - reflexivity.
  - reflexivity.
  - reflexivity.
  - vm_compute. discriminate.
  - repeat constructor; try (eexists; reflexivity); discriminate.
Defined.

Example aggregated_sample :
  run_values [(1, sample_periods)] sample_numbers = Ret [(1, VNone); (1, VNone); (1, VDbl (dbl_of_Z 3)); (1, VNone)].
Proof. by vm_compute. Qed.
