(* ===== verification/Prometheus.v ===== *)
(** * Prometheus texts (src/libs/zbxprometheus/zbxprometheus.c)

    The rows of a text in the exposition format of Prometheus (a metric with
    labels and a value), the filters that select rows, the requests for a value,
    a label or an aggregate of the selected rows, the cache of parsed rows with
    its index over a label, and the conversion to JSON.

    A position in the text is the text behind it.  The match with a regular
    expression and the epsilon of comparisons are parameters. *)
From Stdlib Require Import String Ascii.
From stdpp Require Import prelude list gmap.
From Stdlib Require Import ZArith Lia SpecFloat.
From S2P Require Import Prelude JsonText JsonParser JsonBuild Macro Interval Num Scan Double Variant Utf8 EvalCalc EvalFunc PreprocItem.
#[local] Open Scope Z_scope.

Inductive zbx_prometheus_condition_op_t :=
  | ZBX_PROMETHEUS_CONDITION_OP_EQUAL
  | ZBX_PROMETHEUS_CONDITION_OP_REGEX
  | ZBX_PROMETHEUS_CONDITION_OP_EQUAL_VALUE
  | ZBX_PROMETHEUS_CONDITION_OP_NOT_EQUAL
  | ZBX_PROMETHEUS_CONDITION_OP_REGEX_NOT_MATCHED.

#[export] Instance condition_op_eq_dec : EqDecision zbx_prometheus_condition_op_t.
Proof. solve_decision. Defined.

Record zbx_prometheus_condition_t := Condition { cd_key : option (list Z); cd_pattern : list Z; cd_op : zbx_prometheus_condition_op_t }.

Record zbx_prometheus_filter_t := PromFilter {
  fl_metric : option zbx_prometheus_condition_t;
  fl_value : option zbx_prometheus_condition_t;
  fl_labels : list zbx_prometheus_condition_t }.

Record zbx_prometheus_label_t := PromLabel { lb_name : list Z; lb_value : list Z }.

Record zbx_prometheus_row_t := PromRow { rw_metric : list Z; rw_value : list Z; rw_labels : list zbx_prometheus_label_t; rw_raw : list Z }.

Record zbx_prometheus_hint_t := PromHint { hn_type : option (list Z); hn_help : option (list Z) }.

(** An error message, or a result. *)
Definition attempt (A : Type) : Type := list Z + A.
#[export] Instance attempt_bind : MBind attempt := fun A B f r => match r with inl e => inl e | inr a => f a end.

(** The message for a part that was not found. *)
Definition or_fail {A} (o : option A) (message : list Z) : attempt A := match o with Some a => inr a | None => inl message end.

(** ** Scanning *)

Definition blank (c : Z) : bool := (c =? SPACE) || (c =? 9).
Definition skip_spaces (s : list Z) : list Z := skip_while blank s.

(** The end of the row, and what is behind it. *)
Definition row_end (s : list Z) : list Z := skip_while (fun c => negb (c =? 10)) s.
Definition skip_row (s : list Z) : list Z := tail (row_end s).

Fixpoint take_while (p : Z -> bool) (s : list Z) : list Z :=
  match s with
  | c :: s => if p c then c :: take_while p s else []
  | [] => []
  end.

(** [str_loc_dup] of what is between two positions. *)
Definition between (start stop : list Z) : list Z := take (length start - length stop) start.

Definition metric_char (c : Z) : bool := isalnum c || (c =? COLON) || (c =? USCORE).
Definition label_char (c : Z) : bool := isalnum c || (c =? USCORE).

(** The name and what is behind it. *)
Definition parse_metric (s : list Z) : option (list Z * list Z) :=
  if isalpha (deref s) || (deref s =? COLON) || (deref s =? USCORE) then Some (take_while metric_char s, skip_while metric_char s) else None.

Definition parse_label (s : list Z) : option (list Z * list Z) :=
  if isalpha (deref s) || (deref s =? USCORE) then Some (take_while label_char s, skip_while label_char s) else None.

(** With [str_loc_op]. *)
Definition parse_label_op (s : list Z) : option (zbx_prometheus_condition_op_t * list Z) :=
  if deref s =? 61 then
    if deref (tail s) =? 126 then Some (ZBX_PROMETHEUS_CONDITION_OP_REGEX, drop 2 s) else Some (ZBX_PROMETHEUS_CONDITION_OP_EQUAL, tail s)
  else if (deref s =? 33) && (deref (tail s) =? 126) then Some (ZBX_PROMETHEUS_CONDITION_OP_REGEX_NOT_MATCHED, drop 2 s)
  else if (deref s =? 33) && (deref (tail s) =? 61) then Some (ZBX_PROMETHEUS_CONDITION_OP_NOT_EQUAL, drop 2 s)
  else None.

(** What is between the quotes, and what is behind the second one. *)
Fixpoint label_value (s : list Z) : option (list Z * list Z) :=
  match s with
  | [] => None
  | c :: r =>
      if c =? QUOT then Some ([], r)
      else if c =? BSL then
        match r with
        | d :: r => if (d =? BSL) || (d =? 110) || (d =? QUOT) then '(v, rest) ← label_value r; Some (c :: d :: v, rest) else None
        | [] => None
        end
      else '(v, rest) ← label_value r; Some (c :: v, rest)
  end.

Definition parse_label_value (s : list Z) : option (list Z * list Z) := if deref s =? QUOT then label_value (tail s) else None.

Fixpoint str_loc_unquote_dyn (s : list Z) : list Z :=
  match s with
  | [] => []
  | c :: r =>
      if c =? BSL then
        match r with
        | d :: r => (if d =? BSL then [BSL] else if d =? 110 then [10] else if d =? QUOT then [QUOT] else []) ++ str_loc_unquote_dyn r
        | [] => []
        end
      else c :: str_loc_unquote_dyn r
  end.

(** A backslash is followed by another one or by [n]. *)
Fixpoint str_loc_unescape_hint_dyn (s : list Z) : list Z :=
  match s with
  | [] => []
  | c :: r =>
      if c =? BSL then
        match r with
        | d :: r => (if d =? BSL then BSL else if d =? 110 then 10 else 63) :: str_loc_unescape_hint_dyn r
        | [] => [63]
        end
      else c :: str_loc_unescape_hint_dyn r
  end.

Definition parse_metric_op (s : list Z) : option (list Z) := if (deref s =? 61) && (deref (tail s) =? 61) then Some (drop 2 s) else None.

Definition lower (s : list Z) : list Z := PreprocItem.zbx_strlower s.

(** What is behind the value. *)
Definition parse_metric_value (s : list Z) : option (list Z) :=
  if bool_decide (lower (take 3 s) = txt "nan") then Some (drop 3 s)
  else
    let s := if (deref s =? 45) || (deref s =? 43) then tail s else s in
    if bool_decide (lower (take 3 s) = txt "inf") then Some (drop 3 s) else zbx_number_parse s.

Definition parse_condition (s : list Z) : option (list Z * zbx_prometheus_condition_op_t * list Z * list Z) :=
  '(key, s) ← parse_label s;
  '(op, s) ← parse_label_op (skip_spaces s);
  '(pattern, s) ← parse_label_value (skip_spaces s);
  Some (key, op, pattern, s).

(** ** Filters *)

Definition empty_filter : zbx_prometheus_filter_t := PromFilter None None [].

Definition metric_name : list Z := txt "__name__".

(** A condition on the name of the metric, or on a label. *)
Definition add_condition (filter : zbx_prometheus_filter_t) (key : list Z) (op : zbx_prometheus_condition_op_t) (pattern : list Z) : attempt zbx_prometheus_filter_t :=
  if bool_decide (key = metric_name) then
    match fl_metric filter with
    | Some _ => inl (txt "duplicate metric condition specified")
    | None => inr (PromFilter (Some (Condition None pattern op)) (fl_value filter) (fl_labels filter))
    end
  else inr (PromFilter (fl_metric filter) (fl_value filter) (fl_labels filter ++ [Condition (Some key) pattern op])).

(** [s] is behind the opening brace and spaces; the result is behind the closing one. *)
Fixpoint filter_labels (fuel : nat) (filter : zbx_prometheus_filter_t) (s : list Z) : attempt (zbx_prometheus_filter_t * list Z) :=
  match fuel with
  | O => inl []
  | S fuel =>
      if deref s =? RBR then inr (filter, tail s)
      else
        '(key, op, pattern, r) ← or_fail (parse_condition s) (txt "cannot parse label condition at " ++ quoted s);
        filter ← add_condition filter key op (str_loc_unquote_dyn pattern);
        let r := skip_spaces r in
        if deref r =? COMMA then filter_labels fuel filter (skip_spaces (tail r))
        else if deref r =? RBR then inr (filter, tail r)
        else inl (txt "missing label condition list terminating character " ++ quoted [RBR])
  end.

Definition prometheus_filter_parse_labels (filter : zbx_prometheus_filter_t) (s : list Z) : attempt (zbx_prometheus_filter_t * list Z) :=
  filter_labels (S (length s)) filter (skip_spaces (tail s)).

(** [None]: no data, an empty filter. *)
Definition prometheus_filter_init (data : option (list Z)) : attempt zbx_prometheus_filter_t :=
  match data with
  | None => inr empty_filter
  | Some data =>
      let s := skip_spaces data in
      let '(filter, s) :=
        match parse_metric s with
        | Some (metric, rest) => (PromFilter (Some (Condition None metric ZBX_PROMETHEUS_CONDITION_OP_EQUAL)) None [], skip_spaces rest)
        | None => (empty_filter, s)
        end in
      '(filter, s) ← (if deref s =? LBR then prometheus_filter_parse_labels filter s else inr (filter, s));
      let s := skip_spaces s in
      match s with
      | [] => inr filter
      | _ =>
          v ← or_fail (parse_metric_op s) (txt "cannot parse metric comparison operator at " ++ quoted s);
          let v := skip_spaces v in
          rest ← or_fail (parse_metric_value v) (txt "cannot parse metric comparison value at " ++ quoted v);
          match skip_spaces rest with
          | [] => inr (PromFilter (fl_metric filter) (Some (Condition None (lower (between v rest)) ZBX_PROMETHEUS_CONDITION_OP_EQUAL_VALUE)) (fl_labels filter))
          | more => inl (txt "unexpected data after metric comparison value at " ++ quoted more)
          end
      end
  end.

Definition zbx_prometheus_validate_filter (pattern : list Z) : attempt unit := _ ← prometheus_filter_init (Some pattern); inr tt.

Definition zbx_prometheus_validate_label (label : list Z) : bool :=
  match label with
  | [] => true
  | _ => match parse_label label with Some (_, rest) => bool_decide (skip_spaces rest = []) | None => false end
  end.

(** ** Rows *)

Section prometheus.
Context (zbx_regexp_match : list Z -> list Z -> bool) (epsilon : double).

Definition condition_match_key_value (condition : zbx_prometheus_condition_t) (key : option (list Z)) (value : list Z) : bool :=
  match cd_key condition with Some k => bool_decide (key = Some k) | None => true end &&
  match cd_op condition with
  | ZBX_PROMETHEUS_CONDITION_OP_EQUAL | ZBX_PROMETHEUS_CONDITION_OP_EQUAL_VALUE => bool_decide (value = cd_pattern condition)
  | ZBX_PROMETHEUS_CONDITION_OP_REGEX => zbx_regexp_match value (cd_pattern condition)
  | ZBX_PROMETHEUS_CONDITION_OP_NOT_EQUAL => negb (bool_decide (value = cd_pattern condition))
  | ZBX_PROMETHEUS_CONDITION_OP_REGEX_NOT_MATCHED => negb (zbx_regexp_match value (cd_pattern condition))
  end.

Definition skip_plus (s : list Z) : list Z := if deref s =? 43 then tail s else s.

(** The first four characters of a text are compared. *)
Definition condition_match_metric_value (pattern value : list Z) : bool :=
  match zbx_is_double pattern with
  | None => bool_decide (skip_plus pattern = lower (take 4 (skip_plus value)))
  | Some pattern_dbl =>
      match zbx_is_double value with
      | None => false
      | Some value_dbl => negb (dbl_le epsilon (fabs (dbl_sub pattern_dbl value_dbl)))
      end
  end.

Definition metric_matches (filter : zbx_prometheus_filter_t) (metric : list Z) : bool :=
  match fl_metric filter with Some c => condition_match_key_value c None metric | None => true end.

(** A label that matches, for each condition. *)
Definition labels_match (filter : zbx_prometheus_filter_t) (labels : list zbx_prometheus_label_t) : bool :=
  forallb (fun c => existsb (fun l => condition_match_key_value c (Some (lb_name l)) (lb_value l)) labels) (fl_labels filter).

Definition value_matches (filter : zbx_prometheus_filter_t) (value : list Z) : bool :=
  match fl_value filter with Some c => condition_match_metric_value (cd_pattern c) value | None => true end.

(** [s] is behind the opening brace and spaces; the result is behind the closing one. *)
Fixpoint metric_labels (fuel : nat) (s : list Z) : attempt (list zbx_prometheus_label_t * list Z) :=
  match fuel with
  | O => inl []
  | S fuel =>
      if deref s =? RBR then inr ([], tail s)
      else
        '(key, op, value, r) ← or_fail (parse_condition s) (txt "cannot parse label");
        if negb (bool_decide (op = ZBX_PROMETHEUS_CONDITION_OP_EQUAL)) then inl (txt "invalid label assignment operator")
        else
          let label := PromLabel key (str_loc_unquote_dyn value) in
          let r := skip_spaces r in
          if deref r =? COMMA then '(labels, rest) ← metric_labels fuel (skip_spaces (tail r)); inr (label :: labels, rest)
          else if deref r =? RBR then inr ([label], tail r)
          else inl (txt "missing label list terminating character " ++ quoted [RBR])
  end.

Definition prometheus_metric_parse_labels (s : list Z) : attempt (list zbx_prometheus_label_t * list Z) := metric_labels (S (length s)) (skip_spaces (tail s)).

(** The row, when it matches, without its text; and the position up to which it
    has been read. *)
Definition prometheus_parse_row (filter : zbx_prometheus_filter_t) (s : list Z) : attempt (option zbx_prometheus_row_t * list Z) :=
  '(metric, r) ← or_fail (parse_metric s) (txt "cannot parse metric name");
  if negb (metric_matches filter metric) then inr (None, s)
  else
    let p := skip_spaces r in
    '(labels, after, r) ← (if deref p =? LBR then '(labels, r) ← prometheus_metric_parse_labels p; inr (labels, r, p) else inr ([], r, p));
    if negb (labels_match filter labels) then inr (None, r)
    else
      let p := skip_spaces after in
      if (length p =? length after)%nat then inl (txt "no space before metric value")
      else
        rest ← or_fail (parse_metric_value p) (txt "cannot parse metric value");
        let value := between p rest in
        if negb (value_matches filter value) then inr (None, p)
        else
          let c := deref rest in
          if negb (blank c || (c =? 10) || (c =? 0)) then inl (txt "invalid character '" ++ [c] ++ txt "' following metric value")
          else inr (Some (PromRow metric value labels []), rest).

(** ** Comments *)

Definition is_help_char (c : Z) : bool := (c =? BSL) || (c =? 110).

(** The end of the help text, [None] for a wrong escape. *)
Fixpoint help_end (s : list Z) : option (list Z) :=
  match s with
  | [] => Some []
  | c :: r =>
      if c =? 10 then Some s
      else if c =? BSL then match r with d :: r => if is_help_char d then help_end r else None | [] => None end
      else help_end r
  end.

(** The metric, the start and the end of the hint. *)
Definition parse_help (s : list Z) : option (list Z * list Z * list Z) :=
  '(metric, r) ← parse_metric s;
  let help := skip_spaces r in
  stop ← help_end help;
  Some (metric, help, stop).

Definition parse_type (s : list Z) : option (list Z * list Z * list Z) :=
  '(metric, r) ← parse_metric s;
  let type := skip_spaces r in
  let stop := skip_while isalpha type in
  if (length type =? length stop)%nat then None else Some (metric, type, stop).

Definition prometheus_hints : Type := gmap (list Z) zbx_prometheus_hint_t.

Definition prometheus_register_hint (hints : prometheus_hints) (metric text : list Z) (help : bool) : attempt prometheus_hints :=
  let hint := default (PromHint None None) (hints !! metric) in
  let text := rtrim blank text in
  if help then
    match hn_help hint with
    | Some _ => inl (txt "multiple HELP comments found for metric " ++ quoted metric)
    | None => inr (<[metric := PromHint (hn_type hint) (Some (str_loc_unescape_hint_dyn text))]> hints)
    end
  else
    match hn_type hint with
    | Some _ => inl (txt "multiple TYPE comments found for metric " ++ quoted metric)
    | None => inr (<[metric := PromHint (Some text) (hn_help hint)]> hints)
    end.

(** The hints, and the position behind the comment or its hint. *)
Definition prometheus_parse_hint (filter : zbx_prometheus_filter_t) (s : list Z) (hints : prometheus_hints) : attempt (prometheus_hints * list Z) :=
  let s := skip_spaces (tail s) in
  let register (help : bool) (r : option (list Z * list Z * list Z)) : attempt (prometheus_hints * list Z) :=
    '(metric, start, stop) ← or_fail r (txt "cannot parse comment");
    if negb (metric_matches filter metric) then inr (hints, stop)
    else hints ← prometheus_register_hint hints metric (between start stop) help; inr (hints, stop) in
  if bool_decide (take 4 s = txt "HELP") then register true (parse_help (skip_spaces (drop 4 s)))
  else if bool_decide (take 4 s = txt "TYPE") then register false (parse_type (skip_spaces (drop 4 s)))
  else inr (hints, row_end s).

(** ** All the rows *)

Definition ZBX_PROMEHTEUS_ERROR_MAX_ROW_LENGTH : nat := 50.

Definition row_error (row_num : Z) (s message : list Z) : list Z :=
  let row := between s (row_end s) in
  txt "data parsing error at row " ++ print_Z row_num ++ [SPACE] ++
  quoted (take ZBX_PROMEHTEUS_ERROR_MAX_ROW_LENGTH row ++ (if (ZBX_PROMEHTEUS_ERROR_MAX_ROW_LENGTH <? length row)%nat then txt "..." else [])) ++ txt ": " ++ message.

Definition with_raw (row : zbx_prometheus_row_t) (raw : list Z) : zbx_prometheus_row_t := PromRow (rw_metric row) (rw_value row) (rw_labels row) raw.

(** One turn: the rows found (at most one), the hints and the position where the
    search for the next row begins. *)
Definition parse_line (filter : zbx_prometheus_filter_t) (hints : option prometheus_hints) (row_num : Z) (s : list Z) : attempt (list zbx_prometheus_row_t * option prometheus_hints * list Z) :=
  let s := skip_spaces s in
  let named {A} (r : attempt A) : attempt A := match r with inl e => inl (row_error row_num s e) | inr a => inr a end in
  if deref s =? 10 then inr ([], hints, s)
  else if deref s =? 35 then
    match hints with
    | Some h => '(h, r) ← named (prometheus_parse_hint filter s h); inr ([], Some h, r)
    | None => inr ([], None, s)
    end
  else
    '(row, r) ← named (prometheus_parse_row filter s);
    inr (match row with Some row => [with_raw row (between s (row_end r))] | None => [] end, hints, row_end r).

Fixpoint parse_rows_loop (fuel : nat) (filter : zbx_prometheus_filter_t) (hints : option prometheus_hints) (row_num : Z) (s : list Z)
    : attempt (list zbx_prometheus_row_t * option prometheus_hints) :=
  match s, fuel with
  | [], _ => inr ([], hints)
  | _, O => inl []
  | _, S fuel =>
      '(rows, hints, r) ← parse_line filter hints row_num s;
      '(more, hints) ← parse_rows_loop fuel filter hints (row_num + 1) (skip_row r);
      inr (rows ++ more, hints)
  end.

Definition prometheus_parse_rows (filter : zbx_prometheus_filter_t) (data : list Z) (hints : option prometheus_hints)
    : attempt (list zbx_prometheus_row_t * option prometheus_hints) :=
  parse_rows_loop (length data) filter hints 1 data.

(** ** Requests *)

Definition ZBX_PROMETHEUS_ERROR_ROW_NUM : nat := 10.

Definition prometheus_extract_value (rows : list zbx_prometheus_row_t) (output : list Z) : attempt (list Z) :=
  match rows with
  | [] => inl (txt "no matching metrics found")
  | [row] =>
      match output with
      | [] => inr (rw_value row)
      | _ =>
          match list_find (fun l => lb_name l = output) (rw_labels row) with
          | Some (_, l) => inr (lb_value l)
          | None => inl (txt "no label matches the specified output")
          end
      end
  | _ =>
      let shown := mjoin ((fun r => rw_raw r ++ [10]) <$> take ZBX_PROMETHEUS_ERROR_ROW_NUM rows) in
      inl (txt "multiple matching metrics found:" ++ [10; 10] ++
           (if (ZBX_PROMETHEUS_ERROR_ROW_NUM <? length rows)%nat then shown ++ txt "..." else take (length shown - 1) shown))
  end.

(** [atof] of the value of a row: NaN, an infinity or a number. *)
Definition row_number (value : list Z) : double :=
  let '(neg, s) := if deref value =? 45 then (true, tail value) else if deref value =? 43 then (false, tail value) else (false, value) in
  if bool_decide (lower s = txt "nan") then S754_nan else if bool_decide (lower s = txt "inf") then S754_infinity neg else strtod value.

Definition prometheus_aggregate_values (rows : list zbx_prometheus_row_t) (function : list Z) : attempt (list Z) :=
  let values := filter (fun d => d <> S754_nan) ((fun r => row_number (rw_value r)) <$> rows) in
  d ← (if bool_decide (function = txt "avg") then zbx_eval_calc_avg values
       else if bool_decide (function = txt "min") then zbx_eval_calc_min values
       else if bool_decide (function = txt "max") then zbx_eval_calc_max values
       else if bool_decide (function = txt "sum") then zbx_eval_calc_sum values
       else if bool_decide (function = txt "count") then inr (dbl_of_Z (zlen values))
       else inl (txt "unsupported aggregation function " ++ quoted function)) : attempt double;
  inr (zbx_print_double d).

Definition prometheus_query_rows (rows : list zbx_prometheus_row_t) (request output : list Z) : attempt (list Z) :=
  if bool_decide (request = txt "function") then prometheus_aggregate_values rows output else prometheus_extract_value rows output.

Definition row_matches (filter : zbx_prometheus_filter_t) (row : zbx_prometheus_row_t) : bool :=
  metric_matches filter (rw_metric row) && labels_match filter (rw_labels row) && value_matches filter (rw_value row).

Definition prometheus_filter_rows (rows : list zbx_prometheus_row_t) (f : zbx_prometheus_filter_t) : list zbx_prometheus_row_t :=
  filter (fun row => row_matches f row = true) rows.

Definition prometheus_validate_request (request output : list Z) : option (list Z) :=
  if bool_decide (request = txt "value") then match output with [] => None | _ => Some (txt "invalid third parameter") end
  else match output with [] => Some (txt "missing third parameter") | _ => None end.

Definition prefixed {A} (prefix : list Z) (r : attempt A) : attempt A := match r with inl e => inl (prefix ++ e) | inr a => inr a end.

Definition zbx_prometheus_pattern (data filter_data request output : list Z) : attempt (list Z) :=
  filter ← prefixed (txt "pattern error: ") (prometheus_filter_init (Some filter_data));
  match prometheus_validate_request request output with
  | Some e => inl e
  | None =>
      '(rows, _) ← prometheus_parse_rows filter data None;
      prefixed (txt "data extraction error: ") (prometheus_query_rows rows request output)
  end.

(** ** The cache *)

(** The rows for each value of a label. *)
Record zbx_prometheus_label_index_t := LabelIndex { ix_label : list Z; ix_index : gmap (list Z) (list zbx_prometheus_row_t) }.

Record zbx_prometheus_t := PromCache { pm_rows : list zbx_prometheus_row_t; pm_indexes : list zbx_prometheus_label_index_t }.

Definition zbx_prometheus_init (data : list Z) : attempt zbx_prometheus_t :=
  filter ← prometheus_filter_init None;
  '(rows, _) ← prometheus_parse_rows filter data None;
  inr (PromCache rows []).

Definition prometheus_get_index (prom : zbx_prometheus_t) (label : list Z) : option zbx_prometheus_label_index_t :=
  snd <$> list_find (fun i => ix_label i = label) (pm_indexes prom).

Definition prometheus_get_row_label (row : zbx_prometheus_row_t) (name : list Z) : option zbx_prometheus_label_t :=
  snd <$> list_find (fun l => lb_name l = name) (rw_labels row).

Fixpoint index_rows (label : list Z) (rows : list zbx_prometheus_row_t) (index : gmap (list Z) (list zbx_prometheus_row_t)) : gmap (list Z) (list zbx_prometheus_row_t) :=
  match rows with
  | [] => index
  | row :: rows =>
      index_rows label rows
        (match prometheus_get_row_label row label with
         | Some l => <[lb_value l := default [] (index !! lb_value l) ++ [row]]> index
         | None => index
         end)
  end.

(** The first condition that a label is equal to a value. *)
Definition equal_condition (filter : zbx_prometheus_filter_t) : option zbx_prometheus_condition_t :=
  snd <$> list_find (fun c => cd_op c = ZBX_PROMETHEUS_CONDITION_OP_EQUAL) (fl_labels filter).

(** [None]: there is no index for the filter, or no rows with the value. *)
Definition prometheus_get_indexed_rows_by_label (prom : zbx_prometheus_t) (filter : zbx_prometheus_filter_t) : option (list zbx_prometheus_row_t) * zbx_prometheus_t :=
  match equal_condition filter with
  | None => (None, prom)
  | Some condition =>
      let key := default [] (cd_key condition) in
      let '(index, prom) :=
        match prometheus_get_index prom key with
        | Some i => (i, prom)
        | None => let i := LabelIndex key (index_rows key (pm_rows prom) ∅) in (i, PromCache (pm_rows prom) (pm_indexes prom ++ [i]))
        end in
      (ix_index index !! cd_pattern condition, prom)
  end.

Definition zbx_prometheus_pattern_ex (prom : zbx_prometheus_t) (filter_data request output : list Z) : attempt (list Z) * zbx_prometheus_t :=
  match prefixed (txt "pattern error: ") (prometheus_filter_init (Some filter_data)) with
  | inl e => (inl e, prom)
  | inr filter =>
      match prometheus_validate_request request output with
      | Some e => (inl e, prom)
      | None =>
          let '(prows, prom) := prometheus_get_indexed_rows_by_label prom filter in
          (prefixed (txt "data extraction error: ") (prometheus_query_rows (prometheus_filter_rows (default (pm_rows prom) prows) filter) request output), prom)
      end
  end.

(** ** JSON *)

Definition json_str (name value : list Z) : json_op := Op_addstring (Some name) (Some value) ZBX_JSON_TYPE_STRING.

(** The calls of the builder for a row. *)
Definition row_ops (hints : prometheus_hints) (row : zbx_prometheus_row_t) : list json_op :=
  let hint := hints !! rw_metric row in
  [Op_addobject None; json_str (txt "name") (rw_metric row); json_str (txt "value") (rw_value row); json_str (txt "line_raw") (rw_raw row)] ++
  match rw_labels row with
  | [] => []
  | labels => Op_addobject (Some (txt "labels")) :: ((fun l => json_str (lb_name l) (lb_value l)) <$> labels) ++ [Op_close]
  end ++
  [json_str (txt "type") (default (txt "untyped") (hint ≫= hn_type))] ++
  match hint ≫= hn_help with Some help => [json_str (txt "help") help] | None => [] end ++
  [Op_close].

Definition zbx_prometheus_to_json (junk : Z) (data filter_data : list Z) : res (attempt (list Z)) :=
  match (filter ← prefixed (txt "pattern error: ") (prometheus_filter_init (Some filter_data)); prometheus_parse_rows filter data (Some ∅)) with
  | inl e => Ret (inl e)
  | inr (rows, hints) =>
      json ← zbx_json_initarray junk (zlen rows * 100);
      json ← run_ops junk json (mjoin (row_ops (default ∅ hints) <$> rows));
      Ret (inr (json_text json))
  end.
End prometheus.
