(* ===== verification/PromCache.v ===== *)
(** * Queries of Prometheus texts with and without the cache

    A query without the cache parses the text under its filter; one with the
    cache selects from the rows parsed once, through an index over a label.
    Both give the same result when every row of the text can be parsed, is on
    one line and names a label once. *)
From Stdlib Require Import String Ascii.
From stdpp Require Import prelude list gmap.
From Stdlib Require Import ZArith Lia SpecFloat.
From S2P Require Import Prelude JsonText JsonParser JsonBuild Macro Interval Num Scan Double Variant Utf8 EvalCalc EvalFunc PreprocItem Prometheus.
#[local] Open Scope Z_scope.

(** ** Positions *)

(** [r] is a position behind [s]. *)
Definition reaches (s r : list Z) : Prop := exists t, s = t ++ r.

#[export] Instance reaches_preorder : PreOrder reaches.
Proof. split; [intros s; by exists []|]. intros a b c [t ->] [u ->]. exists (t ++ u). by rewrite app_assoc. Qed.

Lemma skip_while_reaches p s : reaches s (skip_while p s).
Proof. induction s as [|c s [t IH]]; cbn; [by exists []|]. destruct (p c); [|by exists []]. exists (c :: t). cbn. by rewrite <-IH. Qed.

Lemma tail_reaches s : reaches s (tail s).
Proof. destruct s as [|c s]; [by exists []|by exists [c]]. Qed.

Lemma drop_reaches n s : reaches s (drop n s).
Proof. exists (take n s). by rewrite take_drop. Qed.

Lemma between_app t r : between (t ++ r) r = t.
Proof. unfold between. rewrite length_app. replace (length t + length r - length r)%nat with (length t) by lia. apply take_app_length. Qed.

Lemma row_end_app t r : 10 ∉ t -> row_end (t ++ r) = row_end r.
Proof.
  induction t as [|c t IH]; intros H; [done|]. apply not_elem_of_cons in H as [Hc Ht]. unfold row_end in *. cbn.
  replace (c =? 10) with false by lia. cbn. by apply IH.
Qed.

Lemma row_end_split r : exists u, r = u ++ row_end r /\ 10 ∉ u.
Proof.
  induction r as [|c r (u & E & Hu)]; [by exists []; split; [|set_solver]|]. unfold row_end in *. cbn. destruct (Z.eqb_spec c 10) as [->|]; cbn.
  - exists []. split; [done|set_solver].
  - exists (c :: u). cbn. rewrite <-E. split; [done|]. set_solver.
Qed.

(** The text of a row on one line. *)
Lemma one_line s r p : reaches s p -> reaches p r -> 10 ∉ between s (row_end r) -> row_end p = row_end r.
Proof.
  intros [t ->] [v ->] H. destruct (row_end_split r) as (u & E & Hu).
  assert (Hb : between (t ++ v ++ r) (row_end r) = t ++ v ++ u).
  { rewrite E at 1. rewrite !app_assoc, between_app. done. }
  rewrite Hb in H. apply row_end_app. set_solver.
Qed.

(** ** What is read of a row *)

Lemma attempt_inr {A B} (r : attempt A) (f : A -> attempt B) b : (r ≫= f) = inr b -> exists a, r = inr a /\ f a = inr b.
Proof. destruct r; [done|]. by exists a. Qed.

Lemma or_fail_inr {A} (o : option A) e a : or_fail o e = inr a -> o = Some a.
Proof. destruct o; [|done]. cbn. congruence. Qed.

Lemma parse_metric_reaches s m r : parse_metric s = Some (m, r) -> reaches s r.
Proof. unfold parse_metric. destruct (_ || _); [|done]. intros [= _ <-]. apply skip_while_reaches. Qed.

Lemma label_value_reaches : forall n s v r, (length s <= n)%nat -> label_value s = Some (v, r) -> reaches s r.
Proof.
  induction n as [|n IH]; intros [|c s] v r Hl H; cbn in *; try done; [lia|].
  destruct (c =? QUOT); [injection H as <- <-; by exists [c]|]. destruct (c =? BSL).
  - destruct s as [|d s]; [done|]. destruct (_ || _); [|done]. destruct (label_value s) as [[v' r']|] eqn:E; [|done]. cbn in H. injection H as <- <-.
    destruct (IH s v' r') as [t ->]; [cbn in *; lia|done|]. by exists (c :: d :: t).
  - destruct (label_value s) as [[v' r']|] eqn:E; [|done]. cbn in H. injection H as <- <-. destruct (IH s v' r') as [t ->]; [lia|done|]. by exists (c :: t).
Qed.

Lemma parse_condition_reaches s k o v r : parse_condition s = Some (k, o, v, r) -> reaches s r.
Proof.
  unfold parse_condition. destruct (parse_label s) as [[k' s1]|] eqn:E1; [|done]. cbn.
  destruct (parse_label_op (skip_spaces s1)) as [[o' s2]|] eqn:E2; [|done]. cbn.
  destruct (parse_label_value (skip_spaces s2)) as [[v' s3]|] eqn:E3; [|done]. cbn. intros [= _ _ _ <-].
  assert (H1 : reaches s s1) by (unfold parse_label in E1; destruct (_ || _); [|done]; injection E1 as _ <-; apply skip_while_reaches).
  assert (H2 : reaches (skip_spaces s1) s2).
  { unfold parse_label_op in E2. repeat case_match; try done; injection E2 as _ <-; (apply drop_reaches || apply tail_reaches). }
  assert (H3 : reaches (skip_spaces s2) s3).
  { unfold parse_label_value in E3. destruct (_ =? _); [|done]. etrans; [apply tail_reaches|]. by eapply label_value_reaches. }
  etrans; [exact H1|]. etrans; [apply skip_while_reaches|]. etrans; [exact H2|]. etrans; [apply skip_while_reaches|]. exact H3.
Qed.

Lemma metric_labels_reaches fuel : forall s ls r, metric_labels fuel s = inr (ls, r) -> reaches s r.
Proof.
  induction fuel as [|fuel IH]; intros s ls r H; [done|]. cbn in H. destruct (deref s =? RBR); [injection H as <- <-; apply tail_reaches|].
  destruct (parse_condition s) as [[[[k o] v] s1]|] eqn:E; [|done]. cbn in H. destruct (negb _); [done|].
  assert (H1 : reaches s (skip_spaces s1)) by (etrans; [by eapply parse_condition_reaches|apply skip_while_reaches]).
  destruct (_ =? COMMA).
  - apply attempt_inr in H as ([ls' r'] & H & [= <- <-]). etrans; [exact H1|]. etrans; [apply tail_reaches|]. etrans; [apply skip_while_reaches|]. by eapply IH.
  - destruct (_ =? RBR); [|done]. injection H as <- <-. etrans; [exact H1|]. apply tail_reaches.
Qed.

Lemma number_loop_reaches s : forall d n r, number_loop s d n = Some r -> reaches s r.
Proof.
  assert (Hf : forall (s : list Z) (d n : Z) r, (r0 ← number_exponent s; if (d <? 1) || (1 <? n) then None else Some r0) = Some r -> reaches s r).
  { intros s0 d n r. destruct (number_exponent s0) as [r0|] eqn:E; [|done]. cbn. destruct (_ || _); [done|]. intros [= <-].
    unfold number_exponent in E. repeat case_match; try done; injection E as <-; try reflexivity;
      repeat (first [apply skip_while_reaches | apply tail_reaches | etrans; [apply tail_reaches|]]). }
  induction s as [|c s IH]; intros d n r H; [by eapply (Hf [])|]. cbn [number_loop] in H. destruct (isdigit c).
  - destruct (IH _ _ _ H) as [t ->]. by exists (c :: t).
  - destruct (c =? DOT); [destruct (IH _ _ _ H) as [t ->]; by exists (c :: t)|]. by eapply Hf.
Qed.

Lemma parse_metric_value_reaches s r : parse_metric_value s = Some r -> reaches s r.
Proof.
  unfold parse_metric_value. destruct (bool_decide _); [intros [= <-]; apply drop_reaches|].
  destruct (_ || _); (destruct (bool_decide _); [intros [= <-]|intros H%number_loop_reaches]);
    first [exact H | apply drop_reaches | (etrans; [apply tail_reaches|]; (exact H || apply drop_reaches))].
Qed.

Section queries.
Context (regexp : list Z -> list Z -> bool) (eps : double).
Abbreviation matches := (row_matches regexp eps).

(** ** Parsing under a filter *)

(** A row that can be parsed is kept or skipped; the position that is left may
    be any one in the row. *)
Lemma parse_row_filter f s row rest : prometheus_parse_row regexp eps empty_filter s = inr (row, rest) ->
  exists r0 p, row = Some r0 /\ reaches s p /\ reaches p rest /\ rw_raw r0 = [] /\
    prometheus_parse_row regexp eps f s = inr (if matches f r0 then Some r0 else None, p).
Proof.
  unfold prometheus_parse_row. destruct (parse_metric s) as [[m r1]|] eqn:Em; [|done]. cbn -[skip_spaces].
  pose proof (parse_metric_reaches _ _ _ Em) as R1. assert (R2 : reaches r1 (skip_spaces r1)) by apply skip_while_reaches.
  assert (RP : forall ls after p1, (if deref (skip_spaces r1) =? LBR then '(ls, r) ← prometheus_metric_parse_labels (skip_spaces r1); inr (ls, r, skip_spaces r1) else inr ([], r1, skip_spaces r1)) = inr (ls, after, p1) ->
    p1 = skip_spaces r1 /\ reaches p1 (skip_spaces after)).
  { intros ls after p1. destruct (deref _ =? LBR).
    - intros ([ls' r'] & Hl & [= -> -> <-])%attempt_inr. split; [done|]. apply metric_labels_reaches in Hl. etrans; [apply tail_reaches|].
      etrans; [apply skip_while_reaches|]. etrans; [exact Hl|]. apply skip_while_reaches.
    - intros [= <- <- <-]. done. }
  intros ([[ls after] p1] & EP & H)%attempt_inr. rewrite EP. destruct (RP _ _ _ EP) as [-> R3]. clear RP EP.
  change (labels_match regexp empty_filter ls) with true in H. cbn [negb] in H. set (v0 := skip_spaces after) in *.
  destruct (length v0 =? length after)%nat eqn:El; [done|]. apply attempt_inr in H as (v1 & Ev%or_fail_inr & H).
  change (value_matches eps empty_filter _) with true in H. cbn [negb] in H. destruct (negb _) eqn:Ec in H; [done|]. injection H as <- <-.
  pose proof (parse_metric_value_reaches _ _ Ev) as R4.
  exists (PromRow m (between v0 v1) ls []). unfold row_matches; cbn [rw_metric rw_labels rw_value rw_raw].
  assert (Rv : reaches s v0) by (etrans; [exact R1|]; etrans; [exact R2|exact R3]).
  destruct (metric_matches regexp f m); cbn [negb andb].
  2: { exists s. split; [done|]. split; [reflexivity|]. split; [etrans; [exact Rv|exact R4]|done]. }
  cbn [mbind attempt_bind]. destruct (labels_match regexp f ls); cbn [negb andb].
  2: { exists (skip_spaces r1). split; [done|]. split; [etrans; [exact R1|exact R2]|]. split; [etrans; [exact R3|exact R4]|done]. }
  fold v0. rewrite El, Ev. cbn [or_fail mbind attempt_bind]. destruct (value_matches eps f (between v0 v1)); cbn [negb andb].
  2: { exists v0. done. }
  exists v1. rewrite Ec. split; [done|]. split; [etrans; [exact Rv|exact R4]|done].
Qed.

Definition raw_line (row : zbx_prometheus_row_t) : Prop := 10 ∉ rw_raw row.

Lemma parse_line_filter f n s rows hints r : parse_line regexp eps empty_filter None n s = inr (rows, hints, r) -> Forall raw_line rows ->
  hints = None /\ exists p, skip_row p = skip_row r /\ parse_line regexp eps f None n s = inr (prometheus_filter_rows regexp eps rows f, None, p).
Proof.
  unfold parse_line. set (x := skip_spaces s). destruct (deref x =? 10); [intros [= <- <- <-] _; split; [done|]; by exists x|].
  destruct (deref x =? 35); [intros [= <- <- <-] _; split; [done|]; by exists x|].
  destruct (prometheus_parse_row regexp eps empty_filter x) as [e|[row rest]] eqn:E; [done|]. cbn.
  destruct (parse_row_filter f x row rest E) as (r0 & p & -> & Rx & Rp & _ & ->). cbn. intros [= <- <- <-] Hl. split; [done|].
  inversion_clear Hl as [|?? Hraw _]. unfold raw_line in Hraw. cbn in Hraw. pose proof (one_line x rest p Rx Rp Hraw) as Hend.
  exists (row_end p). rewrite Hend. split; [done|]. unfold prometheus_filter_rows. rewrite filter_cons. cbn.
  assert (Hm : matches f (with_raw r0 (between x (row_end rest))) = matches f r0) by done. rewrite Hm. by destruct (matches f r0).
Qed.

Lemma parse_rows_filter f fuel : forall n s rows hints, parse_rows_loop regexp eps fuel empty_filter None n s = inr (rows, hints) -> Forall raw_line rows ->
  parse_rows_loop regexp eps fuel f None n s = inr (prometheus_filter_rows regexp eps rows f, None).
Proof.
  induction fuel as [|fuel IH]; intros n s rows hints; [destruct s; [|done]; by intros [= <- <-]|]. destruct s as [|c s]; [by intros [= <- <-]|].
  cbn [parse_rows_loop]. destruct (parse_line regexp eps empty_filter None n (c :: s)) as [e|[[rs hs] r]] eqn:E; [done|]. cbn [mbind attempt_bind].
  intros ([more hs'] & Hm & [= <- <-])%attempt_inr [Hl Hl']%Forall_app.
  destruct (parse_line_filter f _ _ _ _ _ E Hl) as (-> & p & Hp & ->). cbn [mbind attempt_bind]. rewrite Hp.
  rewrite (IH _ _ _ _ Hm Hl'). cbn. unfold prometheus_filter_rows. by rewrite filter_app.
Qed.

(** ** The index *)

Lemma filter_of_filter {A} (P Q : A -> Prop) `{!forall x, Decision (P x), !forall x, Decision (Q x)} (l : list A) :
  (forall x, x ∈ l -> P x -> Q x) -> filter P (filter Q l) = filter P l.
Proof.
  induction l as [|x l IH]; intros HPQ; [done|]. rewrite !filter_cons. destruct (decide (Q x)) as [Hq|Hq].
  - rewrite filter_cons, IH; [done|]. intros y Hy. apply HPQ. by right.
  - rewrite decide_False by (intros Hp; apply Hq, HPQ; [by left|done]). apply IH. intros y Hy. apply HPQ. by right.
Qed.

(** The value of a label, the first one with the name. *)
Definition label_of (label : list Z) (row : zbx_prometheus_row_t) : option (list Z) := lb_value <$> prometheus_get_row_label row label.

Lemma index_rows_lookup label v rows : forall index,
  index_rows label rows index !! v =
  match filter (fun row => label_of label row = Some v) rows with [] => index !! v | l => Some (default [] (index !! v) ++ l) end.
Proof.
  induction rows as [|row rows IH]; intros index; [done|]. cbn [index_rows]. rewrite IH, filter_cons.
  assert (Hl : label_of label row = lb_value <$> prometheus_get_row_label row label) by done. rewrite Hl.
  destruct (prometheus_get_row_label row label) as [l|]; cbn [fmap option_fmap option_map].
  - destruct (decide (lb_value l = v)) as [<-|Hne].
    + rewrite decide_True by done. rewrite lookup_insert_eq. cbn [default from_option id].
      destruct (filter _ rows); [done|]. by rewrite <-app_assoc.
    + rewrite decide_False by congruence. by rewrite lookup_insert_ne.
  - by rewrite decide_False.
Qed.

Definition names_once (row : zbx_prometheus_row_t) : Prop := NoDup (lb_name <$> rw_labels row).

(** The indexes of the cache are those of its rows. *)
Definition cache_wf (prom : zbx_prometheus_t) : Prop := Forall (fun i => ix_index i = index_rows (ix_label i) (pm_rows prom) ∅) (pm_indexes prom).

Lemma label_found row name value : names_once row -> PromLabel name value ∈ rw_labels row -> label_of name row = Some value.
Proof.
  unfold names_once, label_of, prometheus_get_row_label. induction (rw_labels row) as [|l ls IH]; [by intros _ ?%elem_of_nil|].
  intros [Hn Hd]%NoDup_cons [<-|Hin]%elem_of_cons; cbn [list_find].
  - by rewrite decide_True.
  - rewrite decide_False.
    + specialize (IH Hd Hin). destruct (list_find _ ls) as [[]|]; done.
    + intros E. apply Hn. rewrite E. apply list_elem_of_fmap. by exists (PromLabel name value).
Qed.

(** A row that matches a filter has the label of any of its conditions. *)
Lemma matching_label f row c key : matches f row = true -> c ∈ fl_labels f -> cd_op c = ZBX_PROMETHEUS_CONDITION_OP_EQUAL -> cd_key c = Some key ->
  names_once row -> label_of key row = Some (cd_pattern c).
Proof.
  unfold row_matches, labels_match. intros H Hc Ho Hk Hn. apply andb_prop in H as [[_ H]%andb_prop _].
  rewrite forallb_forall in H. specialize (H c ltac:(by apply list_elem_of_In)). apply existsb_exists in H as (l & Hl%list_elem_of_In & Hm).
  unfold condition_match_key_value in Hm. rewrite Hk, Ho in Hm. apply andb_prop in Hm as [[= <-]%bool_decide_eq_true <-%bool_decide_eq_true]. destruct l. by apply label_found.
Qed.

(** The conditions on labels have keys. *)
Definition keys_ok (f : zbx_prometheus_filter_t) : Prop := Forall (fun c => is_Some (cd_key c)) (fl_labels f).

Lemma indexed_rows prom f rows prom' : cache_wf prom -> keys_ok f -> Forall names_once (pm_rows prom) ->
  prometheus_get_indexed_rows_by_label prom f = (rows, prom') ->
  cache_wf prom' /\ pm_rows prom' = pm_rows prom /\
  prometheus_filter_rows regexp eps (default (pm_rows prom) rows) f = prometheus_filter_rows regexp eps (pm_rows prom) f.
Proof.
  intros Hw Hk Hn. unfold prometheus_get_indexed_rows_by_label, equal_condition.
  destruct (list_find _ (fl_labels f)) as [[i c]|] eqn:Ec; cbn [fmap option_fmap option_map snd]; [|by intros [= <- <-]].
  apply list_find_Some in Ec as (Hi & Ho & _). assert (Hc : c ∈ fl_labels f) by (by eapply list_elem_of_lookup_2).
  destruct (Forall_lookup_1 _ _ _ _ Hk Hi) as [key Hkey]. rewrite Hkey. cbn [default from_option id].
  assert (Hlook : prometheus_filter_rows regexp eps (default (pm_rows prom) (index_rows key (pm_rows prom) ∅ !! cd_pattern c)) f = prometheus_filter_rows regexp eps (pm_rows prom) f).
  { rewrite index_rows_lookup, lookup_empty. cbn [default from_option app]. unfold prometheus_filter_rows.
    assert (Hsub : filter (fun row => matches f row = true) (filter (fun row => label_of key row = Some (cd_pattern c)) (pm_rows prom)) =
      filter (fun row => matches f row = true) (pm_rows prom)).
    { apply filter_of_filter. intros row Hrow Hm. eapply matching_label; try done. by eapply Forall_forall in Hn. }
    destruct (filter (fun row => label_of key row = Some (cd_pattern c)) (pm_rows prom)) as [|r0 rs]; [done|]. exact Hsub. }
  unfold prometheus_get_index. destruct (list_find _ (pm_indexes prom)) as [[j ix]|] eqn:Ei; cbn; intros [= <- <-].
  - apply list_find_Some in Ei as (Hj & <- & _). pose proof (Forall_lookup_1 _ _ _ _ Hw Hj) as Hix. cbn in Hix. rewrite Hix. done.
  - split; [|done]. apply Forall_app. split; [done|]. by constructor.
Qed.

(** ** Queries *)

Lemma add_condition_keys f key op pattern f' : keys_ok f -> add_condition f key op pattern = inr f' -> keys_ok f'.
Proof.
  unfold add_condition. intros Hf. destruct (bool_decide _); [destruct (fl_metric f); [done|]; by intros [= <-]|].
  intros [= <-]. apply Forall_app. split; [done|]. constructor; [|done]. by eexists.
Qed.

Lemma filter_labels_keys fuel : forall f s f' r, keys_ok f -> filter_labels fuel f s = inr (f', r) -> keys_ok f'.
Proof.
  induction fuel as [|fuel IH]; intros f s f' r Hf H; [done|]. cbn in H. destruct (deref s =? RBR); [by injection H as <- _|].
  destruct (parse_condition s) as [[[[k o] v] s1]|]; [|done]. cbn in H. apply attempt_inr in H as (f1 & H1 & H).
  pose proof (add_condition_keys _ _ _ _ _ Hf H1). destruct (_ =? COMMA); [by eapply IH|]. destruct (_ =? RBR); [|done]. by injection H as <- _.
Qed.

Lemma filter_init_keys data f : prometheus_filter_init (Some data) = inr f -> keys_ok f.
Proof.
  unfold prometheus_filter_init. destruct (match parse_metric _ with Some _ => _ | None => _ end) as [f0 s0] eqn:E0.
  assert (H0 : keys_ok f0) by (destruct (parse_metric _) as [[]|]; injection E0 as <- _; apply Forall_nil_2).
  intros ([f1 s1] & H1 & H)%attempt_inr.
  assert (Hk : keys_ok f1) by (destruct (_ =? LBR); [by eapply filter_labels_keys|]; by injection H1 as <- _).
  destruct (skip_spaces s1); [by injection H as <-|]. apply attempt_inr in H as (v & _ & H). apply attempt_inr in H as (rest & _ & H).
  destruct (skip_spaces rest); [|done]. by injection H as <-.
Qed.

Record query := Query { q_filter : list Z; q_request : list Z; q_output : list Z }.

(** The query of the rows of a text. *)
Definition query_of_rows (rows : list zbx_prometheus_row_t) (q : query) : attempt (list Z) :=
  f ← prefixed (txt "pattern error: ") (prometheus_filter_init (Some (q_filter q)));
  match prometheus_validate_request (q_request q) (q_output q) with
  | Some e => inl e
  | None => prefixed (txt "data extraction error: ") (prometheus_query_rows (prometheus_filter_rows regexp eps rows f) (q_request q) (q_output q))
  end.

(** The queries that one cache answers. *)
Fixpoint run_queries (prom : zbx_prometheus_t) (qs : list query) : list (attempt (list Z)) :=
  match qs with
  | [] => []
  | q :: qs => let '(r, prom) := zbx_prometheus_pattern_ex regexp eps prom (q_filter q) (q_request q) (q_output q) in r :: run_queries prom qs
  end.

Lemma cached_queries qs : forall prom, cache_wf prom -> Forall names_once (pm_rows prom) -> run_queries prom qs = query_of_rows (pm_rows prom) <$> qs.
Proof.
  induction qs as [|q qs IH]; intros prom Hw Hn; [done|]. cbn [run_queries fmap list_fmap]. unfold zbx_prometheus_pattern_ex, query_of_rows at 1.
  destruct (prometheus_filter_init (Some (q_filter q))) as [e|f] eqn:Ef; cbn [prefixed mbind attempt_bind]; [by rewrite IH|].
  destruct (prometheus_validate_request _ _); [by rewrite IH|].
  destruct (prometheus_get_indexed_rows_by_label prom f) as [rows prom'] eqn:Ei.
  destruct (indexed_rows prom f rows prom' Hw (filter_init_keys _ _ Ef) Hn Ei) as (Hw' & Hr & Hf).
  rewrite IH; [|done|by rewrite Hr]. by rewrite Hr, Hf.
Qed.

Lemma plain_query data rows hints q : prometheus_parse_rows regexp eps empty_filter data None = inr (rows, hints) -> Forall raw_line rows ->
  zbx_prometheus_pattern regexp eps data (q_filter q) (q_request q) (q_output q) = query_of_rows rows q.
Proof.
  intros Hp Hl. unfold zbx_prometheus_pattern, query_of_rows. destruct (prometheus_filter_init _) as [e|f]; cbn [prefixed mbind attempt_bind]; [done|].
  destruct (prometheus_validate_request _ _); [done|]. unfold prometheus_parse_rows in *. by rewrite (parse_rows_filter f _ _ _ _ _ Hp Hl).
Qed.
End queries.
