(* ===== verification/PromText.v ===== *)
(** * Prometheus texts that are written

    The exposition format as a relation between rows and texts, with free
    spaces, comments and empty lines, and what the queries of such a text give:
    those of its rows. *)
From Stdlib Require Import String Ascii.
From stdpp Require Import prelude list gmap.
From Stdlib Require Import ZArith Lia SpecFloat.
From S2P Require Import Prelude JsonText JsonParser JsonBuild Macro Interval Num Scan Double Variant Utf8 EvalCalc EvalFunc PreprocItem Prometheus PromCache.
#[local] Open Scope Z_scope.

(** ** The grammar *)

Definition blanks (b : list Z) : Prop := forallb blank b = true.

Definition metric_ok (m : list Z) : Prop := forallb metric_char m = true /\ isdigit (deref m) = false /\ m <> [].
Definition label_ok (l : list Z) : Prop := forallb label_char l = true /\ isdigit (deref l) = false /\ l <> [].

Fixpoint prom_escape (v : list Z) : list Z :=
  match v with
  | [] => []
  | c :: v => (if c =? BSL then [BSL; BSL] else if c =? QUOT then [BSL; QUOT] else if c =? 10 then [BSL; 110] else [c]) ++ prom_escape v
  end.

Inductive label_text : zbx_prometheus_label_t -> list Z -> Prop :=
  | label_text_intro name value b1 b2 : label_ok name -> blanks b1 -> blanks b2 ->
      label_text (PromLabel name value) (name ++ b1 ++ 61 :: b2 ++ QUOT :: prom_escape value ++ [QUOT]).

(** The text between the braces, with the second one; a comma may end the list. *)
Inductive labels_text : list zbx_prometheus_label_t -> list Z -> Prop :=
  | labels_nil b : blanks b -> labels_text [] (b ++ [RBR])
  | labels_one b b' l t : blanks b -> blanks b' -> label_text l t -> labels_text [l] (b ++ t ++ b' ++ [RBR])
  | labels_cons b b' l t ls ts : blanks b -> blanks b' -> label_text l t -> labels_text ls ts -> labels_text (l :: ls) (b ++ t ++ b' ++ COMMA :: ts).

(** A value that is read up to its end: a number, an infinity or NaN. *)
Definition value_ok (v : list Z) : Prop := parse_metric_value v = Some [] /\ forallb (fun c => negb (blank c || (c =? 10))) v = true.

(** A time stamp or anything else may follow a space behind the value. *)
Definition row_tail (t : list Z) : Prop := t = [] \/ (blank (deref t) = true /\ 10 ∉ t).

Inductive row_text : zbx_prometheus_row_t -> Prop :=
  | row_plain m b v t : metric_ok m -> blanks b -> b <> [] -> value_ok v -> row_tail t -> row_text (PromRow m v [] (m ++ b ++ v ++ t))
  | row_labels m b0 ls ts b v t : metric_ok m -> blanks b0 -> labels_text ls ts -> blanks b -> b <> [] -> value_ok v -> row_tail t ->
      row_text (PromRow m v ls (m ++ b0 ++ LBR :: ts ++ b ++ v ++ t)).

Inductive doc_text : list zbx_prometheus_row_t -> list Z -> Prop :=
  | doc_nil : doc_text [] []
  | doc_blank b rows t : blanks b -> doc_text rows t -> doc_text rows (b ++ 10 :: t)
  | doc_comment b c rows t : blanks b -> 10 ∉ c -> doc_text rows t -> doc_text rows (b ++ 35 :: c ++ 10 :: t)
  | doc_last_comment b c : blanks b -> 10 ∉ c -> doc_text [] (b ++ 35 :: c)
  | doc_row b row rows t : blanks b -> row_text row -> doc_text rows t -> doc_text (row :: rows) (b ++ rw_raw row ++ 10 :: t)
  | doc_last_row b row : blanks b -> row_text row -> doc_text [row] (b ++ rw_raw row).

(** ** Scanning *)

Lemma scan_app p a s : forallb p a = true -> p (deref s) = false -> take_while p (a ++ s) = a /\ skip_while p (a ++ s) = s.
Proof.
  intros Ha Hs. induction a as [|c a IH]; cbn.
  - destruct s as [|c s]; [done|]. cbn in *. by rewrite Hs.
  - cbn in Ha. apply andb_prop in Ha as [Hc Ha]. rewrite Hc. destruct (IH Ha) as [-> ->]. done.
Qed.

Lemma spaces_app b s : blanks b -> blank (deref s) = false -> skip_spaces (b ++ s) = s.
Proof. intros Hb Hs. by apply scan_app. Qed.

(** The first character behind spaces. *)
Lemma blanks_deref (p : Z -> bool) b s : (forall c, blank c = true -> p c = false) -> blanks b -> p (deref s) = false -> p (deref (b ++ s)) = false.
Proof. intros Hp Hb Hs. destruct b as [|c b]; [done|]. cbn in *. apply andb_prop in Hb as [Hc _]. by apply Hp. Qed.

Lemma deref_app a s : a <> [] -> deref (a ++ s) = deref a.
Proof. by destruct a. Qed.

Lemma blank_cases c : blank c = true -> c = 32 \/ c = 9.
Proof. unfold blank. change SPACE with 32. lia. Qed.

Lemma metric_deref m : metric_ok m -> isalpha (deref m) || (deref m =? COLON) || (deref m =? USCORE) = true /\ blank (deref m) = false /\ deref m <> 10 /\ deref m <> 35.
Proof.
  intros (Hm & Hd & Hne). destruct m as [|c m]; [done|]. cbn in *. apply andb_prop in Hm as [Hc _]. unfold metric_char, isalnum in Hc. rewrite Hd in Hc.
  change COLON with 58 in *. change USCORE with 95 in *. unfold blank, isalpha, isupper, islower in *. change SPACE with 32. lia.
Qed.

Lemma label_deref l : label_ok l -> isalpha (deref l) || (deref l =? USCORE) = true /\ blank (deref l) = false /\ deref l <> RBR.
Proof.
  intros (Hm & Hd & Hne). destruct l as [|c l]; [done|]. cbn in *. apply andb_prop in Hm as [Hc _]. unfold label_char, isalnum in Hc. rewrite Hd in Hc.
  change USCORE with 95 in *. change RBR with 125. unfold blank, isalpha, isupper, islower in *. change SPACE with 32. lia.
Qed.

Lemma blank_not_char c : blank c = true -> metric_char c = false /\ label_char c = false.
Proof. intros [-> | ->]%blank_cases; done. Qed.

(** ** Labels *)

Lemma label_value_escape v rest : label_value (prom_escape v ++ QUOT :: rest) = Some (prom_escape v, rest).
Proof.
  induction v as [|c v IH]; [done|]. cbn [prom_escape]. rewrite <-app_assoc.
  destruct (Z.eqb_spec c BSL) as [->|Hb]; [cbn; by rewrite IH|]. destruct (Z.eqb_spec c QUOT) as [->|Hq]; [cbn; by rewrite IH|].
  destruct (Z.eqb_spec c 10) as [->|Hn]; [cbn; by rewrite IH|]. cbn [app label_value].
  apply Z.eqb_neq in Hb, Hq. rewrite Hb, Hq. cbn. by rewrite IH.
Qed.

Lemma unquote_escape v : str_loc_unquote_dyn (prom_escape v) = v.
Proof.
  induction v as [|c v IH]; [done|]. cbn [prom_escape].
  destruct (Z.eqb_spec c BSL) as [->|Hb]; [cbn; by rewrite IH|]. destruct (Z.eqb_spec c QUOT) as [->|Hq]; [cbn; by rewrite IH|].
  destruct (Z.eqb_spec c 10) as [->|Hn]; [cbn; by rewrite IH|]. cbn. apply Z.eqb_neq in Hb. by rewrite Hb, IH.
Qed.

Lemma escape_no_newline v : 10 ∉ prom_escape v.
Proof.
  induction v as [|c v IH]; [set_solver|]. cbn [prom_escape]. apply not_elem_of_app. split; [|done].
  destruct (c =? BSL); [change BSL with 92; set_solver|]. destruct (c =? QUOT); [change BSL with 92; change QUOT with 34; set_solver|].
  destruct (Z.eqb_spec c 10); [change BSL with 92; set_solver|]. set_solver.
Qed.

Lemma label_text_parse name value t rest : label_text (PromLabel name value) t ->
  parse_condition (t ++ rest) = Some (name, ZBX_PROMETHEUS_CONDITION_OP_EQUAL, prom_escape value, rest) /\ blank (deref t) = false /\ deref t <> RBR /\ t <> [].
Proof.
  inversion_clear 1 as [? ? b1 b2 Hn Hb1 Hb2]. destruct (label_deref name Hn) as (Ha & Hbl & Hr).
  assert (Hne : name <> []) by apply Hn. rewrite !(deref_app name) by done. split; [|split; [done|split; [done|by destruct name]]].
  assert (Hc : label_char (deref (b1 ++ (61 :: b2 ++ QUOT :: prom_escape value ++ [QUOT]) ++ rest)) = false).
  { apply blanks_deref; [apply blank_not_char|done|done]. }
  unfold parse_condition, parse_label. rewrite <-!app_assoc, deref_app by done. rewrite Ha.
  destruct (scan_app label_char name _ (proj1 Hn) Hc) as [-> ->]. cbn [mbind option_bind].
  rewrite spaces_app by done. cbn [app]. unfold parse_label_op. cbn [deref tail]. change (61 =? 61) with true. cbv iota.
  assert (H126 : (deref ((b2 ++ QUOT :: prom_escape value ++ [QUOT]) ++ rest) =? 126) = false).
  { rewrite <-app_assoc. apply (blanks_deref (fun c => c =? 126)); [by intros c [-> | ->]%blank_cases|done|done]. }
  rewrite H126. cbn [mbind option_bind]. rewrite <-app_assoc, spaces_app by done. unfold parse_label_value. cbn [app deref tail].
  change (QUOT =? QUOT) with true. cbv iota. rewrite <-app_assoc. cbn [app]. by rewrite label_value_escape.
Qed.

Lemma labels_text_parse ls t : labels_text ls t -> forall fuel rest, (length t <= fuel)%nat -> metric_labels fuel (skip_spaces (t ++ rest)) = inr (ls, rest).
Proof.
  induction 1 as [b Hb|b b' l t Hb Hb' Hl|b b' l t ls ts Hb Hb' Hl _ IH]; intros fuel rest Hf.
  - rewrite <-app_assoc, spaces_app by done. rewrite length_app in Hf. destruct fuel; [cbn in Hf; lia|]. done.
  - rewrite <-!app_assoc. destruct l as [name value]. destruct (label_text_parse name value t (b' ++ [RBR] ++ rest) Hl) as (Hp & Hbl & Hr & Hne).
    rewrite spaces_app by (done || by rewrite deref_app). rewrite !length_app in Hf. destruct fuel; [cbn in Hf; lia|]. cbn [metric_labels].
    rewrite deref_app by done. replace (deref t =? RBR) with false by lia. rewrite Hp. cbn [or_fail mbind attempt_bind].
    rewrite bool_decide_eq_true_2 by done. cbn [negb]. rewrite spaces_app by done. by rewrite unquote_escape.
  - rewrite <-!app_assoc. destruct l as [name value]. destruct (label_text_parse name value t (b' ++ (COMMA :: ts) ++ rest) Hl) as (Hp & Hbl & Hr & Hne).
    rewrite spaces_app by (done || by rewrite deref_app). rewrite !length_app in Hf. cbn [length] in Hf. destruct fuel; [lia|]. cbn [metric_labels].
    rewrite deref_app by done. replace (deref t =? RBR) with false by lia. rewrite Hp. cbn [or_fail mbind attempt_bind].
    rewrite bool_decide_eq_true_2 by done. cbn [negb]. rewrite spaces_app by done. cbn [app deref tail]. change (COMMA =? COMMA) with true. cbv iota.
    rewrite IH by lia. cbn [mbind attempt_bind]. by rewrite unquote_escape.
Qed.

(** ** Values *)

(** What may follow a value: nothing, a space or the end of the row. *)
Definition stops (rest : list Z) : Prop := rest = [] \/ blank (deref rest) = true \/ deref rest = 10.

Lemma stops_deref rest : stops rest -> deref rest = 0 \/ deref rest = 32 \/ deref rest = 9 \/ deref rest = 10.
Proof. intros [-> | [[-> | ->]%blank_cases | ->]]; auto. Qed.

Lemma digits_end_app s rest : digits_end s = [] -> isdigit (deref rest) = false -> digits_end (s ++ rest) = rest.
Proof.
  unfold digits_end. induction s as [|c s IH]; cbn; intros H Hr; [destruct rest as [|c r]; [done|]; cbn in *; by rewrite Hr|].
  destruct (isdigit c); [by apply IH|done].
Qed.

Lemma exponent_app s rest : number_exponent s = Some [] -> stops rest -> number_exponent (s ++ rest) = Some rest.
Proof.
  intros H Hr. assert (Hd : isdigit (deref rest) = false /\ (deref rest =? DOT) = false /\ (deref rest =? 101) = false /\ (deref rest =? 69) = false).
  { change DOT with 46. destruct (stops_deref rest Hr) as [-> |[-> |[-> | ->]]]; done. }
  destruct Hd as (Hd & Hdot & He & HE). unfold number_exponent in *.
  destruct s as [|c s]; [cbn [app]; by rewrite He, HE|]. cbn [app deref tail] in *. destruct ((c =? 101) || (c =? 69)); [|done].
  assert (Hs : forall s0, (if negb (isdigit (deref s0)) then None else if (deref (digits_end s0) =? DOT) || (deref (digits_end s0) =? 101) || (deref (digits_end s0) =? 69) then None else Some (digits_end s0)) = Some [] ->
    (if negb (isdigit (deref (s0 ++ rest))) then None else if (deref (digits_end (s0 ++ rest)) =? DOT) || (deref (digits_end (s0 ++ rest)) =? 101) || (deref (digits_end (s0 ++ rest)) =? 69) then None else Some (digits_end (s0 ++ rest))) = Some rest).
  { intros s0 H0. destruct s0 as [|d s0]; [done|]. cbn [app deref] in *. destruct (isdigit d) eqn:Ed; [|done]. cbn [negb] in *.
    destruct (_ || _) in H0; [done|]. injection H0 as H0. change (d :: s0 ++ rest) with ((d :: s0) ++ rest). rewrite digits_end_app by done.
    by rewrite Hdot, He, HE. }
  destruct s as [|d s]; [by destruct rest; cbn in *|]. cbn [app deref tail] in *. destruct ((d =? 45) || (d =? 43)); [by apply Hs|].
  change (d :: s ++ rest) with ((d :: s) ++ rest). by apply (Hs (d :: s)).
Qed.

Lemma number_loop_app s rest : stops rest -> forall d n, number_loop s d n = Some [] -> number_loop (s ++ rest) d n = Some rest.
Proof.
  intros Hr. assert (Hfin : forall s0 (d n : Z), (r ← number_exponent s0; if (d <? 1) || (1 <? n) then None else Some r) = Some [] ->
    (r ← number_exponent (s0 ++ rest); if (d <? 1) || (1 <? n) then None else Some r) = Some rest).
  { intros s0 d n. destruct (number_exponent s0) as [r|] eqn:E; [|done]. cbn. destruct (_ || _); [done|]. intros [= ->]. by rewrite (exponent_app s0 rest E Hr). }
  induction s as [|c s IH]; intros d n H.
  - assert (Hd : isdigit (deref rest) = false /\ (deref rest =? DOT) = false) by (change DOT with 46; destruct (stops_deref rest Hr) as [-> |[-> |[-> | ->]]]; done).
    pose proof (Hfin [] d n H) as Hf. cbn [app] in *. destruct rest as [|c r]; [done|]. cbn [number_loop deref] in *. by rewrite (proj1 Hd), (proj2 Hd).
  - cbn [app number_loop] in *. destruct (isdigit c); [by apply IH|]. destruct (c =? DOT); [by apply IH|]. by apply (Hfin (c :: s)).
Qed.

(** Three letters do not reach into what follows the value. *)
Lemma word_app w v rest : stops rest -> length w = 3%nat -> Forall (fun c => islower c = true) w ->
  bool_decide (lower (take 3 (v ++ rest)) = w) = bool_decide (lower (take 3 v) = w).
Proof.
  intros Hr Hl Hw. destruct (decide (3 <= length v)%nat) as [Hv|Hv]; [by rewrite take_app_le by done|].
  assert (Hshort : forall u, (length u < 3)%nat -> lower u <> w).
  { intros u Hu E. apply (f_equal length) in E. unfold lower, PreprocItem.zbx_strlower in E. rewrite length_fmap in E. lia. }
  rewrite (bool_decide_eq_false_2 (lower (take 3 v) = w)) by (apply Hshort; rewrite length_take; lia). apply bool_decide_eq_false_2.
  destruct rest as [|c r]; [rewrite app_nil_r; apply Hshort; rewrite length_take; lia|].
  intros E. rewrite take_app_ge in E by lia. unfold lower, PreprocItem.zbx_strlower in E. rewrite fmap_app in E.
  assert (Hc : c ∈ [0; 32; 9; 10]) by (destruct (stops_deref _ Hr) as [H|[H|[H|H]]]; cbn in H; subst c; set_solver).
  assert (Hin : (if isupper c then c + 32 else c) ∈ w).
  { rewrite <-E. apply elem_of_app. right. destruct (3 - length v)%nat eqn:E3; [lia|]. cbn. left. }
  rewrite Forall_forall in Hw. specialize (Hw _ Hin). set_unfold in Hc. destruct Hc as [-> |[-> |[-> |[-> |[]]]]]; done.
Qed.

Lemma value_app v rest : value_ok v -> stops rest -> parse_metric_value (v ++ rest) = Some rest.
Proof.
  intros [Hv _] Hr. unfold parse_metric_value in *. rewrite word_app by (done || by repeat constructor).
  assert (Hw : forall u w, bool_decide (lower (take 3 u) = w) = true -> length w = 3%nat -> drop 3 u = [] -> drop 3 (u ++ rest) = rest).
  { intros u w Hu%bool_decide_eq_true Hl Hd. apply (f_equal length) in Hu. unfold lower, PreprocItem.zbx_strlower in Hu. rewrite length_fmap, length_take in Hu.
    apply (f_equal length) in Hd. rewrite length_drop in Hd. cbn in Hd. rewrite drop_app_length'; [done|lia]. }
  destruct (bool_decide (lower (take 3 v) = txt "nan")) eqn:En; [injection Hv as Hv; f_equal; by eapply Hw|].
  destruct v as [|c v]; [done|]. cbn [app deref tail] in *.
  assert (Hrest : forall u, (if bool_decide (lower (take 3 u) = txt "inf") then Some (drop 3 u) else zbx_number_parse u) = Some [] ->
    (if bool_decide (lower (take 3 (u ++ rest)) = txt "inf") then Some (drop 3 (u ++ rest)) else zbx_number_parse (u ++ rest)) = Some rest).
  { intros u Hu. rewrite word_app by (done || by repeat constructor). destruct (bool_decide (lower (take 3 u) = txt "inf")) eqn:Ei.
    - injection Hu as Hu. f_equal. by eapply Hw.
    - by apply number_loop_app. }
  destruct ((c =? 45) || (c =? 43)); [by apply Hrest|]. change (c :: v ++ rest) with ((c :: v) ++ rest). by apply Hrest.
Qed.

Lemma value_deref v : value_ok v -> blank (deref v) = false /\ v <> [] /\ 10 ∉ v.
Proof.
  intros [Hp Hv]. destruct v as [|c v]; [done|]. split; [|split; [done|]].
  - cbn in *. apply andb_prop in Hv as [Hc _]. by destruct (blank c).
  - intros Hin. rewrite forallb_forall in Hv. specialize (Hv 10 ltac:(by apply list_elem_of_In)). done.
Qed.

(** ** Rows *)

Lemma tail_stops t rest : row_tail t -> (rest = [] \/ deref rest = 10) -> stops (t ++ rest).
Proof.
  intros [->|[Hb _]] Hr; [destruct Hr as [->|Hr]; [by left|by right; right]|].
  right. left. destruct t; [done|]. done.
Qed.

Lemma tail_no_newline t : row_tail t -> 10 ∉ t.
Proof. intros [->|[_ H]]; [set_solver|done]. Qed.

Section parse.
Context (regexp : list Z -> list Z -> bool) (eps : double).

(** The value and what follows. *)
Lemma parse_row_value m b v t rest ls after r : blanks b -> b <> [] -> value_ok v -> row_tail t -> (rest = [] \/ deref rest = 10) -> after = b ++ v ++ t ++ rest ->
  (if negb (labels_match regexp empty_filter ls) then inr (None, r)
   else let p := skip_spaces after in
        if (length p =? length after)%nat then inl (txt "no space before metric value")
        else rest ← or_fail (parse_metric_value p) (txt "cannot parse metric value");
             let value := between p rest in
             if negb (value_matches eps empty_filter value) then inr (None, p)
             else let c := deref rest in
                  if negb (blank c || (c =? 10) || (c =? 0)) then inl (txt "invalid character '" ++ [c] ++ txt "' following metric value")
                  else inr (Some (PromRow m value ls []), rest)) = (inr (Some (PromRow m v ls []), t ++ rest) : attempt _).
Proof.
  intros Hb Hne Hv Ht Hr ->. change (labels_match regexp empty_filter ls) with true. cbn [negb]. cbv zeta.
  destruct (value_deref v Hv) as (Hbl & Hvne & _). rewrite spaces_app by (done || by rewrite deref_app).
  replace (length (v ++ t ++ rest) =? length (b ++ v ++ t ++ rest))%nat with false.
  2: { symmetry. apply Nat.eqb_neq. rewrite (length_app b). destruct b; [done|]. cbn. lia. }
  rewrite value_app by (done || by apply tail_stops). cbn [or_fail mbind attempt_bind]. change (value_matches eps empty_filter _) with true. cbn [negb].
  rewrite between_app. destruct (stops_deref _ (tail_stops t rest Ht Hr)) as [-> |[-> |[-> | ->]]]; done.
Qed.

Lemma row_text_parse row rest : row_text row -> (rest = [] \/ deref rest = 10) ->
  exists t, prometheus_parse_row regexp eps empty_filter (rw_raw row ++ rest) = inr (Some (PromRow (rw_metric row) (rw_value row) (rw_labels row) []), t ++ rest) /\
    (10 ∉ t) /\ reaches (rw_raw row) t /\ metric_ok (rw_metric row) /\ deref (rw_raw row) = deref (rw_metric row) /\ rw_raw row <> [].
Proof.
  intros Hrow Hr. destruct Hrow as [m b v t Hm Hb Hbne Hv Ht|m b0 ls ts b v t Hm Hb0 Hls Hb Hbne Hv Ht]; exists t; cbn [rw_raw rw_metric rw_value rw_labels].
  all: assert (Hmne : m <> []) by apply Hm; destruct (metric_deref m Hm) as (Ha & _); rewrite (deref_app m) by done.
  all: split; [|split; [by apply tail_no_newline|split; [|split; [done|split; [done|by destruct m]]]]].
  - destruct (value_deref v Hv) as (Hbl & Hvne & _). unfold prometheus_parse_row, parse_metric. rewrite <-!app_assoc, deref_app by done. rewrite Ha.
    destruct (scan_app metric_char m (b ++ v ++ t ++ rest) (proj1 Hm)) as [-> ->].
    { destruct b as [|c b]; [done|]. cbn in *. apply andb_prop in Hb as [Hc _]. by apply blank_not_char. }
    cbn [or_fail mbind attempt_bind]. change (metric_matches regexp empty_filter m) with true. cbn [negb].
    rewrite (spaces_app b) by (done || by rewrite deref_app). rewrite deref_app by done.
    assert (Hbr : (deref v =? LBR) = false).
    { apply Z.eqb_neq. intros E. destruct v as [|c v]; [done|]. cbn in E. subst c. by destruct Hv as [Hp _]. }
    rewrite Hbr. cbn [mbind attempt_bind]. by apply parse_row_value with (b := b).
  - exists (m ++ b ++ v). by rewrite <-!app_assoc.
  - unfold prometheus_parse_row, parse_metric. rewrite <-!app_assoc, deref_app by done. rewrite Ha.
    destruct (scan_app metric_char m (b0 ++ (LBR :: ts ++ b ++ v ++ t) ++ rest) (proj1 Hm)) as [-> ->].
    { apply blanks_deref; [apply blank_not_char|done|done]. }
    cbn [or_fail mbind attempt_bind]. change (metric_matches regexp empty_filter m) with true. cbn [negb].
    rewrite (spaces_app b0) by done. cbn [app deref]. change (LBR =? LBR) with true. cbv iota. unfold prometheus_metric_parse_labels. cbn [tail].
    rewrite <-app_assoc, (labels_text_parse ls ts Hls); [|cbn; rewrite !length_app; lia]. cbn [mbind attempt_bind].
    apply parse_row_value with (b := b); try done. by rewrite <-!app_assoc.
  - exists (m ++ b0 ++ LBR :: ts ++ b ++ v). rewrite <-!app_assoc. cbn. by rewrite <-!app_assoc.
Qed.

Lemma raw_no_newline row : row_text row -> raw_line row.
Proof.
  assert (Hblank : forall b, blanks b -> 10 ∉ b).
  { intros b Hb Hin. unfold blanks in Hb. rewrite forallb_forall in Hb. specialize (Hb 10 ltac:(by apply list_elem_of_In)). done. }
  assert (Hname : forall p m, (forall c, p c = true -> c <> 10) -> forallb p m = true -> 10 ∉ m).
  { intros p m Hp Hm Hin. rewrite forallb_forall in Hm. by apply (Hp 10); [apply Hm, list_elem_of_In|]. }
  assert (Hmetric : forall m, metric_ok m -> 10 ∉ m) by (intros m [Hm _]; apply (Hname metric_char m); [by intros c Hc ->|done]).
  assert (Hlabel : forall l t, label_text l t -> 10 ∉ t).
  { intros l t Hl. inversion_clear Hl as [name value b1 b2 [Hn _] Hb1 Hb2]. assert (10 ∉ name) by (apply (Hname label_char name); [by intros c Hc ->|done]).
    pose proof (escape_no_newline value). pose proof (Hblank b1 Hb1). pose proof (Hblank b2 Hb2). change QUOT with 34. set_solver. }
  assert (Hlabels : forall ls t, labels_text ls t -> 10 ∉ t).
  { intros ls t Hls. change RBR with 125 in *. induction Hls as [b Hb|b b' l t Hb Hb' Hl|b b' l t ls ts Hb Hb' Hl _ IH].
    - pose proof (Hblank b Hb). change RBR with 125. set_solver.
    - pose proof (Hblank b Hb). pose proof (Hblank b' Hb'). pose proof (Hlabel l t Hl). change RBR with 125. set_solver.
    - pose proof (Hblank b Hb). pose proof (Hblank b' Hb'). pose proof (Hlabel l t Hl). change COMMA with 44. set_solver. }
  unfold raw_line. intros [m b v t Hm Hb _ Hv Ht|m b0 ls ts b v t Hm Hb0 Hls Hb _ Hv Ht]; cbn [rw_raw];
    pose proof (Hmetric m Hm); pose proof (Hblank b Hb); pose proof (proj2 (proj2 (value_deref v Hv))); pose proof (tail_no_newline t Ht); [set_solver|].
  pose proof (Hlabels ls ts Hls). pose proof (Hblank b0 Hb0). change LBR with 123. set_solver.
Qed.

(** ** Lines *)

Lemma row_end_at rest : rest = [] \/ deref rest = 10 -> row_end rest = rest.
Proof. intros [->|H]; [done|]. destruct rest as [|c r]; [done|]. cbn in H. subst c. done. Qed.

Lemma row_line n b row rest : blanks b -> row_text row -> (rest = [] \/ deref rest = 10) ->
  parse_line regexp eps empty_filter None n (b ++ rw_raw row ++ rest) = inr ([row], None, rest).
Proof.
  intros Hb Hrow Hr. destruct (row_text_parse row rest Hrow Hr) as (t & Hp & Ht & _ & Hm & Hd & Hne).
  destruct (metric_deref _ Hm) as (_ & Hbl & H10 & H35). unfold parse_line. rewrite spaces_app by (done || by rewrite deref_app, Hd).
  rewrite deref_app, Hd by done. replace (deref (rw_metric row) =? 10) with false by lia. replace (deref (rw_metric row) =? 35) with false by lia.
  rewrite Hp. cbn [mbind attempt_bind]. rewrite row_end_app, row_end_at by done. rewrite between_app. unfold with_raw. cbn. by destruct row.
Qed.

Lemma doc_text_parse rows t : doc_text rows t -> forall fuel n, (length t <= fuel)%nat -> parse_rows_loop regexp eps fuel empty_filter None n t = inr (rows, None).
Proof.
  (* a line and what follows *)
  assert (Hstep : forall fuel n s rows r, s <> [] -> (length s <= S fuel)%nat -> parse_line regexp eps empty_filter None n s = inr (rows, None, r) ->
    parse_rows_loop regexp eps (S fuel) empty_filter None n s = ('(more, hints) ← parse_rows_loop regexp eps fuel empty_filter None (n + 1) (skip_row r); inr (rows ++ more, hints))).
  { intros fuel n s rs r Hs _ Hl. destruct s as [|c s]; [done|]. cbn [parse_rows_loop]. by rewrite Hl. }
  assert (Hnil : forall fuel n, parse_rows_loop regexp eps fuel empty_filter None n [] = inr ([], None)) by (by intros []).
  induction 1 as [|b rows t Hb _ IH|b c rows t Hb Hc _ IH|b c Hb Hc|b row rows t Hb Hrow _ IH|b row Hb Hrow]; intros fuel n Hf; [done| | | | |].
  - destruct fuel; [rewrite length_app in Hf; cbn in Hf; lia|]. rewrite (Hstep fuel n _ [] (10 :: t)); [|by destruct b|done|].
    + unfold skip_row. rewrite row_end_at by (by right). cbn [tail]. rewrite IH; [done|]. rewrite length_app in Hf. cbn in Hf. lia.
    + unfold parse_line. by rewrite spaces_app.
  - destruct fuel; [rewrite length_app in Hf; cbn in Hf; lia|]. rewrite (Hstep fuel n _ [] (35 :: c ++ 10 :: t)); [|by destruct b|done|].
    + unfold skip_row. change (35 :: c ++ 10 :: t) with ((35 :: c) ++ 10 :: t). rewrite row_end_app by set_solver. rewrite row_end_at by (by right). cbn [tail].
      rewrite IH; [done|]. rewrite length_app in Hf. cbn in Hf. rewrite length_app in Hf. cbn in Hf. lia.
    + unfold parse_line. by rewrite spaces_app.
  - destruct fuel; [rewrite length_app in Hf; cbn in Hf; lia|]. rewrite (Hstep fuel n _ [] (35 :: c)); [|by destruct b|done|].
    + unfold skip_row. rewrite <-(app_nil_r (35 :: c)), row_end_app by set_solver. cbn. by rewrite Hnil.
    + unfold parse_line. by rewrite spaces_app.
  - assert (Hne : rw_raw row <> []) by (destruct (row_text_parse row [] Hrow (or_introl eq_refl)) as (? & ? & ? & ? & ? & ? & ?); done).
    assert (Hl : (length t < length (b ++ rw_raw row ++ 10%Z :: t))%nat) by (rewrite !length_app; cbn; lia).
    destruct fuel; [lia|]. rewrite (Hstep fuel n _ [row] (10 :: t)); [|by destruct b, (rw_raw row)|done|by apply row_line; [..|right]].
    unfold skip_row. rewrite row_end_at by (by right). cbn [tail]. rewrite IH; [done|lia].
  - assert (Hne : rw_raw row <> []) by (destruct (row_text_parse row [] Hrow (or_introl eq_refl)) as (? & ? & ? & ? & ? & ? & ?); done).
    assert (Hl : (0 < length (b ++ rw_raw row))%nat) by (rewrite length_app; destruct (rw_raw row); [done|cbn; lia]).
    destruct fuel; [lia|]. rewrite (Hstep fuel n _ [row] []); [by cbn; rewrite Hnil|by destruct b, (rw_raw row)|done|].
    rewrite <-(app_nil_r (rw_raw row)). apply row_line; [done|done|by left].
Qed.

Lemma doc_lines rows t : doc_text rows t -> Forall raw_line rows.
Proof. induction 1; try done; [by constructor; [apply raw_no_newline|]|by constructor; [apply raw_no_newline|]]. Qed.
End parse.

(** ** Queries of a text *)

(** C15: queries of Prometheus texts.  A text written from rows, with any
    spaces, comments and empty lines and any characters in the values of labels,
    is parsed into these rows; each request by itself gives what it says of the
    rows that match its filter: the value or a label of the only one, an
    aggregate of all, or the message of the error.  When no row names a label
    twice, any sequence of requests to one cache, which builds its indexes on the
    way, gives the same. *)
Theorem prometheus_queries regexp eps rows t qs : doc_text rows t ->
  exists prom, zbx_prometheus_init regexp eps t = inr prom /\ pm_rows prom = rows /\
    (fun q => zbx_prometheus_pattern regexp eps t (q_filter q) (q_request q) (q_output q)) <$> qs = query_of_rows regexp eps rows <$> qs /\
    (Forall names_once rows -> run_queries regexp eps prom qs = query_of_rows regexp eps rows <$> qs).
Proof.
  intros Hd. pose proof (doc_text_parse regexp eps rows t Hd (length t) 1 (le_n _)) as Hp. exists (PromCache rows []).
  split; [unfold zbx_prometheus_init, prometheus_parse_rows; cbn [prometheus_filter_init mbind attempt_bind]; by rewrite Hp|]. split; [done|]. split.
  - apply list_fmap_ext. intros i q _. by apply (plain_query regexp eps t rows None q); [|by eapply doc_lines].
  - intros Hn. apply (cached_queries regexp eps qs (PromCache rows [])); [constructor|done].
Qed.

Definition sample_labels (id : Z) : list zbx_prometheus_label_t := [PromLabel (txt "cpu") [id; 34]].
Definition sample_braces (id : Z) : list Z := [] ++ (txt "cpu" ++ [] ++ 61 :: [] ++ QUOT :: prom_escape [id; 34] ++ [QUOT]) ++ [] ++ [RBR].
Definition sample_row (id : Z) (v : list Z) : zbx_prometheus_row_t := PromRow (txt "load") v (sample_labels id) (txt "load" ++ [] ++ LBR :: sample_braces id ++ [32] ++ v ++ []).
Definition sample_rows : list zbx_prometheus_row_t := [sample_row 48 (txt "1.5"); sample_row 49 (txt "-2e1")].
Definition sample_doc : list Z := [] ++ 35 :: txt " loads" ++ 10 :: [] ++ rw_raw (sample_row 48 (txt "1.5")) ++ 10 :: [32] ++ rw_raw (sample_row 49 (txt "-2e1")).
Definition sample_queries : list query :=
  [Query (txt "load{cpu=" ++ [QUOT; 49; BSL; QUOT; QUOT; RBR]) (txt "value") []; Query (txt "load") (txt "function") (txt "sum"); Query (txt "load == -20") (txt "label") (txt "cpu")].

Lemma sample_row_text id v : label_ok (txt "cpu") -> value_ok v -> row_text (sample_row id v).
Proof.
  intros Hl Hv. unfold sample_row. apply row_labels; [done|done| |done|done|done|by left].
  unfold sample_labels, sample_braces. apply labels_one; [done|done|]. by apply label_text_intro.
Qed.

Lemma sample_names_once : Forall names_once sample_rows.
Proof. repeat constructor; set_solver. Qed.

Lemma prometheus_queries_witness :
  exists prom, zbx_prometheus_init (fun _ _ => false) double_epsilon sample_doc = inr prom /\ pm_rows prom = sample_rows /\
    (fun q => zbx_prometheus_pattern (fun _ _ => false) double_epsilon sample_doc (q_filter q) (q_request q) (q_output q)) <$> sample_queries =
    query_of_rows (fun _ _ => false) double_epsilon sample_rows <$> sample_queries /\
    run_queries (fun _ _ => false) double_epsilon prom sample_queries = query_of_rows (fun _ _ => false) double_epsilon sample_rows <$> sample_queries.
Proof.
  destruct (prometheus_queries (fun _ _ => false) double_epsilon sample_rows sample_doc sample_queries) as (prom & H1 & H2 & H3 & H4).
  - assert (Hl : label_ok (txt "cpu")) by (split; [reflexivity|split; [reflexivity|discriminate]]).
    assert (Hv : forall id v, value_ok v -> row_text (sample_row id v)) by (intros id v; apply sample_row_text; exact Hl).
    unfold sample_doc. apply doc_comment.
    + reflexivity.
    + set_solver.
    + apply doc_row; [reflexivity|apply Hv; split; vm_compute; reflexivity|]. apply doc_last_row; [reflexivity|apply Hv; split; vm_compute; reflexivity].
  - exists prom. split; [exact H1|]. split; [exact H2|]. split; [exact H3|]. exact (H4 sample_names_once).
Defined.

Example prometheus_sample : query_of_rows (fun _ _ => false) double_epsilon sample_rows <$> sample_queries = [inr (txt "-2e1"); inr (txt "-18.5"); inr [49; 34]].
Proof. by vm_compute. Qed.

(** A row that cannot be parsed and does not match: the cache fails, the query
    without it does not. *)
Example malformed_row :
  let t := txt "a 1" ++ [10] ++ txt "b x" in
  zbx_prometheus_pattern (fun _ _ => false) double_epsilon t (txt "a") (txt "value") [] = inr (txt "1") /\
  exists e, zbx_prometheus_init (fun _ _ => false) double_epsilon t = inl e.
Proof. vm_compute. eauto. Qed.

(** A line break in the value of a label: the rest of a row that does not match
    is taken for a row. *)
Example label_line_break :
  let t := txt "b{x=" ++ [QUOT; 10] ++ txt "a 2 " ++ [QUOT; RBR] ++ txt " 3" in
  prometheus_parse_rows (fun _ _ => false) double_epsilon empty_filter t None = inr ([PromRow (txt "b") (txt "3") [PromLabel (txt "x") (10 :: txt "a 2 ")] t], None) /\
  zbx_prometheus_pattern (fun _ _ => false) double_epsilon t (txt "a") (txt "value") [] = inr (txt "2").
Proof. by vm_compute. Qed.

(** A label named twice: the second value is found without the index only. *)
Example label_twice :
  let label v := txt "l=" ++ [QUOT] ++ v ++ [QUOT] in
  let t := txt "a{" ++ label (txt "x") ++ txt "," ++ label (txt "y") ++ [RBR] ++ txt " 1" ++ [10] ++ txt "a{" ++ label (txt "y") ++ [RBR] ++ txt " 2" in
  let q := Query (txt "a{" ++ label (txt "y") ++ [RBR]) (txt "function") (txt "count") in
  (prom ← zbx_prometheus_init (fun _ _ => false) double_epsilon t; inr (run_queries (fun _ _ => false) double_epsilon prom [q])) = inr [inr (txt "1")] /\
  zbx_prometheus_pattern (fun _ _ => false) double_epsilon t (q_filter q) (q_request q) (q_output q) = inr (txt "2").
Proof. by vm_compute. Qed.

(** Spaces behind the last line: the whole text is rejected. *)
Example trailing_blanks : exists e,
  zbx_prometheus_pattern (fun _ _ => false) double_epsilon (txt "a 1" ++ [10; 32]) (txt "a") (txt "value") [] = inl e.
Proof. vm_compute. eauto. Qed.
