(* ===== verification/PromJson.v ===== *)
(** * Prometheus texts as JSON

    [zbx_prometheus_to_json]: the array it builds has an object for each row that
    the filter selects, with the labels of the row and the hints for its metric. *)
From Stdlib Require Import String Ascii.
From stdpp Require Import prelude list gmap.
From Stdlib Require Import ZArith Lia SpecFloat.
From S2P Require Import Prelude JsonText JsonParser JsonBuild Macro Interval Num Scan Double Variant Utf8 EvalCalc EvalFunc PreprocItem Prometheus PromCache PromText.
#[local] Open Scope Z_scope.

(** ** The object of a row *)


(** The object of a row. *)
Definition row_json (hints : prometheus_hints) (row : zbx_prometheus_row_t) : json :=
  let hint := hints !! rw_metric row in
  JObject ([(txt "name", JString (rw_metric row)); (txt "value", JString (rw_value row)); (txt "line_raw", JString (rw_raw row))] ++
    match rw_labels row with [] => [] | labels => [(txt "labels", JObject ((fun l => (lb_name l, JString (lb_value l))) <$> labels))] end ++
    [(txt "type", JString (default (txt "untyped") (hint ≫= hn_type)))] ++
    match hint ≫= hn_help with Some help => [(txt "help", JString help)] | None => [] end).

Definition label_bytes (l : zbx_prometheus_label_t) : Prop := c_string (lb_name l) /\ c_string (lb_value l).
Definition row_bytes (row : zbx_prometheus_row_t) : Prop := c_string (rw_metric row) /\ c_string (rw_value row) /\ c_string (rw_raw row) /\ Forall label_bytes (rw_labels row).
Definition hint_bytes (h : zbx_prometheus_hint_t) : Prop := (forall t, hn_type h = Some t -> c_string t) /\ (forall t, hn_help h = Some t -> c_string t).

Lemma build_app st ops1 st1 ops2 st2 : build st ops1 st1 -> build st1 ops2 st2 -> build st (ops1 ++ ops2) st2.
Proof. induction 1; cbn; [done|]. intros H'. eapply build_cons; [done|]. by apply IHbuild. Qed.

(** Members of an object that are strings. *)
Definition string_items (members : list (list Z * list Z)) : list (list Z * json * list Z) := (fun m => (m.1, JString m.2, JsonBuild.quoted m.2)) <$> members.

Lemma build_strings members : forall name items fs, Forall (fun m => c_string m.1 /\ c_string m.2) members ->
  build (Frame true name items, fs) ((fun m => json_str m.1 m.2) <$> members) (Frame true name (items ++ string_items members), fs).
Proof.
  induction members as [|[n v] members IH]; intros name items fs Hm; [cbn; rewrite app_nil_r; constructor|].
  inversion_clear Hm as [|?? [Hn Hv] Hm']. cbn. eapply build_cons; [apply step_value with (name := Some n) (n := n); [by apply adds_string|done|done]|].
  unfold add_item. cbn. specialize (IH name (items ++ [(n, JString v, JsonBuild.quoted v)]) fs Hm'). by rewrite <-app_assoc in IH.
Qed.

Lemma lit_bytes (s : list Z) : forallb (fun c => (0 <? c) && (c <? 256)) s = true -> c_string s.
Proof. intros H. apply Forall_forall. intros c Hc. rewrite forallb_forall in H. specialize (H c ltac:(by apply list_elem_of_In)). lia. Qed.

Lemma row_build hints row items : row_bytes row -> (forall h, hints !! rw_metric row = Some h -> hint_bytes h) ->
  exists t, build (Frame false [] items, []) (row_ops hints row) (Frame false [] (items ++ [([], row_json hints row, t)]), []).
Proof.
  intros (Hm & Hv & Hr & Hl) Hh. set (hint := hints !! rw_metric row) in *.
  assert (Htype : c_string (default (txt "untyped") (hint ≫= hn_type))).
  { destruct hint as [h|] eqn:Eh; cbn; [|by apply lit_bytes]. destruct (Hh h eq_refl) as [Ht _]. destruct (hn_type h) eqn:Et; [by apply Ht|by apply lit_bytes]. }
  assert (Hhelp : forall t, hint ≫= hn_help = Some t -> c_string t) by (intros t; destruct hint as [h|] eqn:Eh; [|done]; cbn; by apply (Hh h)).
  (* the first members *)
  set (i1 := string_items [(txt "name", rw_metric row); (txt "value", rw_value row); (txt "line_raw", rw_raw row)]).
  assert (H1 : build (Frame false [] items, []) [Op_addobject None; json_str (txt "name") (rw_metric row); json_str (txt "value") (rw_value row); json_str (txt "line_raw") (rw_raw row)]
    (Frame true [] i1, [Frame false [] items])).
  { eapply build_cons; [by apply step_object|]. apply (build_strings [(txt "name", rw_metric row); (txt "value", rw_value row); (txt "line_raw", rw_raw row)] [] []).
    repeat constructor; try done; by apply lit_bytes. }
  (* the labels *)
  set (Lops := match rw_labels row with [] => [] | labels => Op_addobject (Some (txt "labels")) :: ((fun l => json_str (lb_name l) (lb_value l)) <$> labels) ++ [Op_close] end).
  set (Lmembers := match rw_labels row with [] => [] | labels => [(txt "labels", JObject ((fun l => (lb_name l, JString (lb_value l))) <$> labels))] end).
  assert (H2 : exists i2, build (Frame true [] i1, [Frame false [] items]) Lops (Frame true [] (i1 ++ i2), [Frame false [] items]) /\ (fun i => (i.1.1, i.1.2)) <$> i2 = Lmembers).
  { unfold Lops, Lmembers. destruct (rw_labels row) as [|l ls]; [exists []; rewrite app_nil_r; split; [constructor|done]|].
    set (pairs := (fun l => (lb_name l, lb_value l)) <$> l :: ls). set (lf := Frame true (txt "labels") (string_items pairs)). exists [(f_name lf, frame_value lf, frame_text lf)]. split.
    - eapply build_cons; [apply step_object with (n := txt "labels"); [done|by apply lit_bytes]|]. eapply build_app; [|eapply build_cons; [apply (step_close lf (Frame true [] i1))|apply build_nil]].
      pose proof (build_strings pairs (txt "labels") [] [Frame true [] i1; Frame false [] items]) as Hb. unfold pairs in Hb. rewrite <-list_fmap_compose in Hb. apply Hb.
      apply Forall_fmap. eapply Forall_impl; [exact Hl|]. by intros x [? ?].
    - cbn. do 2 f_equal. unfold frame_value. cbn. do 2 f_equal. unfold string_items. rewrite <-!list_fmap_compose. done. }
  destruct H2 as (i2 & H2 & E2).
  (* the hints *)
  set (pairs := (txt "type", default (txt "untyped") (hint ≫= hn_type)) :: match hint ≫= hn_help with Some help => [(txt "help", help)] | None => [] end).
  assert (H3 : build (Frame true [] (i1 ++ i2), [Frame false [] items]) ((fun m => json_str m.1 m.2) <$> pairs) (Frame true [] ((i1 ++ i2) ++ string_items pairs), [Frame false [] items])).
  { apply build_strings. unfold pairs. constructor; [split; [by apply lit_bytes|done]|]. destruct (hint ≫= hn_help) as [help|] eqn:Eh; [|done].
    constructor; [split; [by apply lit_bytes|by apply Hhelp]|done]. }
  eexists. replace (row_ops hints row) with
    ([Op_addobject None; json_str (txt "name") (rw_metric row); json_str (txt "value") (rw_value row); json_str (txt "line_raw") (rw_raw row)] ++ Lops ++ ((fun m => json_str m.1 m.2) <$> pairs) ++ [Op_close]).
  - eapply build_app; [exact H1|]. eapply build_app; [exact H2|]. eapply build_app; [exact H3|]. eapply build_cons; [apply (step_close _ (Frame false [] items))|].
    unfold add_item. cbn [f_object f_name f_items]. replace (row_json hints row) with (frame_value (Frame true [] ((i1 ++ i2) ++ string_items pairs))); [apply build_nil|].
    unfold frame_value, row_json. cbn [f_object f_items]. fold hint Lmembers. rewrite !fmap_app, E2, <-app_assoc. f_equal. cbn. f_equal. unfold pairs. cbn. by destruct (hint ≫= hn_help).
  - unfold row_ops. fold hint Lops. unfold pairs. cbn [fmap list_fmap]. by destruct (hint ≫= hn_help).
Qed.

Lemma rows_build hints rows : forall items, Forall row_bytes rows -> map_Forall (fun _ => hint_bytes) hints ->
  exists more, build (Frame false [] items, []) (mjoin (row_ops hints <$> rows)) (Frame false [] (items ++ more), []) /\
    (fun i => i.1.2) <$> more = row_json hints <$> rows.
Proof.
  induction rows as [|row rows IH]; intros items Hr Hh; [exists []; rewrite app_nil_r; split; [constructor|done]|].
  inversion_clear Hr as [|?? Hrow Hrest]. destruct (row_build hints row items Hrow) as (t & Ht); [intros h; apply Hh|].
  destruct (IH (items ++ [([], row_json hints row, t)]) Hrest Hh) as (more & Hm & E).
  exists (([], row_json hints row, t) :: more). split; [|cbn; by rewrite E]. change (mjoin (row_ops hints <$> row :: rows)) with (row_ops hints row ++ mjoin (row_ops hints <$> rows)).
  eapply build_app; [exact Ht|]. by rewrite <-app_assoc in Hm.
Qed.

(** ** The bytes of what is parsed *)

Lemma reaches_bytes s r : c_string s -> reaches s r -> c_string r.
Proof. intros Hs [t ->]. by apply Forall_app in Hs as [_ H]. Qed.

Lemma take_while_bytes p s : c_string s -> c_string (take_while p s).
Proof. induction 1; cbn; [constructor|]. destruct (p _); by constructor. Qed.

Lemma between_bytes s r : c_string s -> c_string (between s r).
Proof. apply Forall_take. Qed.

Lemma label_value_bytes : forall n s v r, (length s <= n)%nat -> c_string s -> label_value s = Some (v, r) -> c_string v.
Proof.
  induction n as [|n IH]; intros [|c s] v r Hl Hs H; cbn in *; try done; [lia|]. inversion_clear Hs as [|?? Hc Hs'].
  destruct (c =? QUOT); [injection H as <- <-; constructor|]. destruct (c =? BSL).
  - destruct s as [|d s]; [done|]. destruct (_ || _); [|done]. destruct (label_value s) as [[v' r']|] eqn:E; [|done]. cbn in H. injection H as <- <-.
    inversion_clear Hs' as [|?? Hd Hs]. constructor; [done|]. constructor; [done|]. eapply IH; [|exact Hs|exact E]. cbn in Hl. lia.
  - destruct (label_value s) as [[v' r']|] eqn:E; [|done]. cbn in H. injection H as <- <-. constructor; [done|]. eapply IH; [|exact Hs'|exact E]. lia.
Qed.

Lemma unquote_bytes : forall n s, (length s <= n)%nat -> c_string s -> c_string (str_loc_unquote_dyn s).
Proof.
  induction n as [|n IH]; intros [|c s] Hl Hs; cbn in *; try done; try lia. inversion_clear Hs as [|?? Hc Hs'].
  destruct (c =? BSL); [|constructor; [done|apply IH; [lia|done]]]. destruct s as [|d s]; [constructor|]. inversion_clear Hs' as [|?? Hd Hs].
  apply Forall_app. split; [|apply IH; [cbn in *; lia|done]]. by repeat case_match; repeat constructor.
Qed.

Lemma unescape_bytes : forall n s, (length s <= n)%nat -> c_string s -> c_string (str_loc_unescape_hint_dyn s).
Proof.
  induction n as [|n IH]; intros [|c s] Hl Hs; cbn in *; try done; try lia. inversion_clear Hs as [|?? Hc Hs'].
  destruct (c =? BSL); [|constructor; [done|apply IH; [lia|done]]]. destruct s as [|d s]; [by repeat constructor|]. inversion_clear Hs' as [|?? Hd Hs].
  constructor; [by repeat case_match|apply IH; [cbn in *; lia|done]].
Qed.

Lemma parse_metric_bytes s m r : c_string s -> parse_metric s = Some (m, r) -> c_string m /\ c_string r.
Proof.
  intros Hs H. split; [|by eapply reaches_bytes, parse_metric_reaches]. unfold parse_metric in H. destruct (_ || _); [|done]. injection H as <- _. by apply take_while_bytes.
Qed.

Lemma parse_condition_bytes s k o v r : c_string s -> parse_condition s = Some (k, o, v, r) -> c_string k /\ c_string v /\ c_string r.
Proof.
  intros Hs H. split_and!; [..|by eapply reaches_bytes, parse_condition_reaches].
  - unfold parse_condition, parse_label in H. destruct (_ || _); [|done]. cbn -[skip_spaces] in H.
    destruct (parse_label_op _) as [[]|]; [|done]. cbn -[skip_spaces] in H. destruct (parse_label_value _) as [[]|]; [|done]. injection H as <- _ _ _. by apply take_while_bytes.
  - unfold parse_condition in H. destruct (parse_label s) as [[k' s1]|] eqn:E1; [|done]. cbn -[skip_spaces] in H.
    assert (H1 : reaches s s1) by (unfold parse_label in E1; destruct (_ || _); [|done]; injection E1 as _ <-; apply skip_while_reaches).
    destruct (parse_label_op (skip_spaces s1)) as [[o' s2]|] eqn:E2; [|done]. cbn -[skip_spaces] in H.
    assert (H2 : reaches (skip_spaces s1) s2) by (unfold parse_label_op in E2; repeat case_match; try done; injection E2 as _ <-; (apply drop_reaches || apply tail_reaches)).
    destruct (parse_label_value (skip_spaces s2)) as [[v' s3]|] eqn:E3; [|done]. cbn in H. injection H as _ _ <- _.
    unfold parse_label_value in E3. destruct (_ =? QUOT); [|done]. eapply label_value_bytes; [done| |exact E3]. eapply reaches_bytes; [exact Hs|].
    etrans; [exact H1|]. etrans; [apply skip_while_reaches|]. etrans; [exact H2|]. etrans; [apply skip_while_reaches|]. apply tail_reaches.
Qed.

Lemma metric_labels_bytes fuel : forall s ls r, c_string s -> metric_labels fuel s = inr (ls, r) -> Forall label_bytes ls.
Proof.
  induction fuel as [|fuel IH]; intros s ls r Hs H; [done|]. cbn in H. destruct (deref s =? RBR); [injection H as <- <-; constructor|].
  destruct (parse_condition s) as [[[[k o] v] s1]|] eqn:E; [|done]. cbn in H. destruct (negb _); [done|].
  destruct (parse_condition_bytes _ _ _ _ _ Hs E) as (Hk & Hv & Hr).
  assert (Hl : label_bytes (PromLabel k (str_loc_unquote_dyn v))) by (split; [done|by eapply unquote_bytes]).
  destruct (_ =? COMMA); [|destruct (_ =? RBR); [injection H as <- <-; by apply Forall_singleton|done]].
  apply attempt_inr in H as ([ls' r'] & H & [= <- <-]). constructor; [done|]. eapply IH; [|exact H]. eapply reaches_bytes; [exact Hr|].
  etrans; [apply skip_while_reaches|]. etrans; [apply tail_reaches|]. apply skip_while_reaches.
Qed.

Section bytes.
Context (regexp : list Z -> list Z -> bool) (eps : double).

Lemma parse_row_bytes f s row rest : c_string s -> prometheus_parse_row regexp eps f s = inr (row, rest) ->
  (forall r, row = Some r -> row_bytes r) /\ reaches s rest.
Proof.
  unfold prometheus_parse_row. intros Hs ([m r1] & Em%or_fail_inr & H)%attempt_inr. destruct (parse_metric_bytes _ _ _ Hs Em) as [Hm Hr1].
  destruct (negb _); [injection H as <- <-; by split|].
  assert (R1 : reaches s (skip_spaces r1)) by (etrans; [by eapply parse_metric_reaches|apply skip_while_reaches]).
  assert (Hp : c_string (skip_spaces r1)) by exact (reaches_bytes _ _ Hs R1).
  apply attempt_inr in H as ([[ls after] p1] & EP & H).
  assert (HP : p1 = skip_spaces r1 /\ reaches s after /\ Forall label_bytes ls).
  { destruct (deref _ =? LBR).
    - apply attempt_inr in EP as ([ls' r'] & Hl & [= -> -> <-]). split; [done|]. unfold prometheus_metric_parse_labels in Hl. split.
      + etrans; [exact R1|]. etrans; [apply tail_reaches|]. etrans; [apply skip_while_reaches|]. by eapply metric_labels_reaches.
      + eapply metric_labels_bytes; [|exact Hl]. eapply reaches_bytes; [exact Hp|]. etrans; [apply tail_reaches|apply skip_while_reaches].
    - injection EP as <- <- <-. split; [done|]. split; [by eapply parse_metric_reaches|constructor]. }
  destruct HP as (-> & Ra & Hl). destruct (negb _); [injection H as <- <-; by split|]. destruct (_ =? _)%nat; [done|].
  assert (Rv : reaches s (skip_spaces after)) by (etrans; [exact Ra|apply skip_while_reaches]).
  apply attempt_inr in H as (v1 & Ev%or_fail_inr & H). destruct (negb _); [injection H as <- <-; by split|]. destruct (negb _); [done|]. injection H as <- <-.
  split; [|etrans; [exact Rv|by eapply parse_metric_value_reaches]]. intros r [= <-]. split_and!; cbn; [done| |constructor|done].
  apply between_bytes. exact (reaches_bytes _ _ Hs Rv).
Qed.

Lemma help_end_reaches : forall n s r, (length s <= n)%nat -> help_end s = Some r -> reaches s r.
Proof.
  induction n as [|n IH]; intros [|c s] r Hl H; cbn in *; try (by injection H as <-); [lia|]. destruct (c =? 10); [by injection H as <-|]. destruct (c =? BSL).
  - destruct s as [|d s]; [done|]. destruct (is_help_char d); [|done]. destruct (IH s r) as [t ->]; [cbn in *; lia|done|]. by exists (c :: d :: t).
  - destruct (IH s r) as [t ->]; [lia|done|]. by exists (c :: t).
Qed.

Lemma register_bytes hints m text help hints' : map_Forall (fun _ => hint_bytes) hints -> c_string text ->
  prometheus_register_hint hints m text help = inr hints' -> map_Forall (fun _ => hint_bytes) hints'.
Proof.
  intros Hh Ht. unfold prometheus_register_hint. set (hint := default _ (hints !! m)).
  assert (Hb : hint_bytes hint) by (subst hint; destruct (hints !! m) eqn:E; cbn; [by eapply Hh|by split]).
  assert (Htr : c_string (rtrim blank text)).
  { unfold rtrim. apply Forall_rev, (reaches_bytes (rev text)); [by apply Forall_rev|apply skip_while_reaches]. }
  destruct Hb as [H1 H2]. destruct help; [destruct (hn_help hint) eqn:E|destruct (hn_type hint) eqn:E]; try done; intros [= <-];
    (apply map_Forall_insert_2; [|done]); (split; cbn; [..]); try done; intros t [= <-]; [by eapply unescape_bytes|done].
Qed.

Lemma parse_hint_bytes f s hints hints' r : c_string s -> map_Forall (fun _ => hint_bytes) hints ->
  prometheus_parse_hint regexp f s hints = inr (hints', r) -> map_Forall (fun _ => hint_bytes) hints' /\ reaches s r.
Proof.
  unfold prometheus_parse_hint. intros Hs Hh. set (x := skip_spaces (tail s)).
  assert (Rx : reaches s x) by (etrans; [apply tail_reaches|apply skip_while_reaches]).
  assert (R4 : reaches s (skip_spaces (drop 4 x))) by (etrans; [exact Rx|]; etrans; [apply drop_reaches|apply skip_while_reaches]).
  assert (Hreg : forall help o, (forall m start stop, o = Some (m, start, stop) -> reaches s start /\ reaches start stop) ->
    ('(metric, start, stop) ← or_fail o (txt "cannot parse comment"); if negb (metric_matches regexp f metric) then inr (hints, stop)
     else hints ← prometheus_register_hint hints metric (between start stop) help; inr (hints, stop)) = inr (hints', r) ->
    map_Forall (fun _ => hint_bytes) hints' /\ reaches s r).
  { intros help o Ho ([[m start] stop] & ->%or_fail_inr & H)%attempt_inr. destruct (Ho _ _ _ eq_refl) as [Ra Rb].
    assert (Rc : reaches s stop) by (by etrans). destruct (negb _); [by injection H as <- <-|].
    apply attempt_inr in H as (h & H & [= <- <-]). split; [|done]. eapply register_bytes; [exact Hh| |exact H]. apply between_bytes. exact (reaches_bytes _ _ Hs Ra). }
  destruct (bool_decide _); [|destruct (bool_decide _)].
  - apply Hreg. intros m start stop. unfold parse_help. destruct (parse_metric _) as [[m' r1]|] eqn:Em; [|done]. cbn -[skip_spaces].
    destruct (help_end _) as [e|] eqn:Eh; [|done]. intros [= <- <- <-]. split; [|by eapply help_end_reaches].
    etrans; [exact R4|]. etrans; [by eapply parse_metric_reaches|apply skip_while_reaches].
  - apply Hreg. intros m start stop. unfold parse_type. destruct (parse_metric _) as [[m' r1]|] eqn:Em; [|done]. cbn -[skip_spaces].
    destruct (_ =? _)%nat; [done|]. intros [= <- <- <-]. split; [|apply skip_while_reaches].
    etrans; [exact R4|]. etrans; [by eapply parse_metric_reaches|apply skip_while_reaches].
  - intros [= <- <-]. split; [done|]. etrans; [exact Rx|apply skip_while_reaches].
Qed.

Definition hints_bytes (hints : option prometheus_hints) : Prop := map_Forall (fun _ => hint_bytes) (default ∅ hints).

Lemma parse_line_bytes f hints n s rows hints' r : c_string s -> hints_bytes hints -> parse_line regexp eps f hints n s = inr (rows, hints', r) ->
  Forall row_bytes rows /\ hints_bytes hints' /\ reaches s r.
Proof.
  unfold parse_line. intros Hs Hh. set (x := skip_spaces s). assert (Rx : reaches s x) by apply skip_while_reaches.
  assert (Hx : c_string x) by exact (reaches_bytes _ _ Hs Rx). 
  assert (Hnone : Forall row_bytes []) by constructor. destruct (deref x =? 10); [by intros [= <- <- <-]|]. destruct (deref x =? 35).
  - destruct hints as [h|]; [|by intros [= <- <- <-]]. destruct (prometheus_parse_hint regexp f x h) as [e|[h' r']] eqn:E; [done|]. cbn.
    intros [= <- <- <-]. destruct (parse_hint_bytes _ _ _ _ _ Hx Hh E) as [Hh' Rr]. split; [constructor|]. split; [done|by etrans].
  - destruct (prometheus_parse_row regexp eps f x) as [e|[row r']] eqn:E; [done|]. cbn. intros [= <- <- <-].
    destruct (parse_row_bytes _ _ _ _ Hx E) as [Hrow Rr]. split; [|split; [done|]].
    + destruct row as [row|]; [|constructor]. destruct (Hrow row eq_refl) as (H1 & H2 & _ & H4). constructor; [|constructor]. split_and!; try done. cbn. by apply between_bytes.
    + etrans; [exact Rx|]. etrans; [exact Rr|apply skip_while_reaches].
Qed.

Lemma parse_rows_bytes f fuel : forall hints n s rows hints', c_string s -> hints_bytes hints ->
  parse_rows_loop regexp eps fuel f hints n s = inr (rows, hints') -> Forall row_bytes rows /\ hints_bytes hints'.
Proof.
  induction fuel as [|fuel IH]; intros hints n s rows hints' Hs Hh; [destruct s; [|done]; intros [= <- <-]; split; [constructor|done]|].
  destruct s as [|c s]; [intros [= <- <-]; split; [constructor|done]|].
  cbn [parse_rows_loop]. intros ([[rs hs] r] & E & H)%attempt_inr. destruct (parse_line_bytes _ _ _ _ _ _ _ Hs Hh E) as (Hr & Hh1 & Rr).
  apply attempt_inr in H as ([more hs'] & H & [= <- <-]). destruct (IH hs (n + 1) (skip_row r) more hs') as [Hm Hh2]; [|done|done|].
  - eapply reaches_bytes; [exact Hs|]. etrans; [exact Rr|]. etrans; [apply skip_while_reaches|apply tail_reaches].
  - split; [by apply Forall_app|done].
Qed.
End bytes.

(** ** Texts with comments *)

(** The lines of a text that say something. *)
Inductive line :=
  | L_row (row : zbx_prometheus_row_t)
  | L_help (metric help : list Z)
  | L_type (metric type : list Z)
  | L_comment.

Fixpoint help_escape (h : list Z) : list Z :=
  match h with
  | [] => []
  | c :: h => (if c =? BSL then [BSL; BSL] else if c =? 10 then [BSL; 110] else [c]) ++ help_escape h
  end.

(** A help text does not begin or end with a space. *)
Definition help_ok (h : list Z) : Prop := exists h0 c, h = h0 ++ [c] /\ blank (deref h) = false /\ blank c = false.
Definition type_ok (ty : list Z) : Prop := forallb isalpha ty = true /\ ty <> [].

(** A comment that is none of the two kinds. *)
Definition comment_ok (c : list Z) : Prop := (10 ∉ c) /\ take 4 (skip_spaces c) <> txt "HELP" /\ take 4 (skip_spaces c) <> txt "TYPE".

Inductive line_text : line -> list Z -> Prop :=
  | text_row b row : blanks b -> row_text row -> line_text (L_row row) (b ++ rw_raw row)
  | text_help b b1 b2 b3 b4 m h : blanks b -> blanks b1 -> blanks b2 -> blanks b3 -> b3 <> [] -> blanks b4 -> metric_ok m -> help_ok h ->
      line_text (L_help m h) (b ++ 35 :: b1 ++ txt "HELP" ++ b2 ++ m ++ b3 ++ help_escape h ++ b4)
  | text_type b b1 b2 b3 m ty more : blanks b -> blanks b1 -> blanks b2 -> blanks b3 -> b3 <> [] -> metric_ok m -> type_ok ty ->
      isalpha (deref more) = false -> 10 ∉ more ->
      line_text (L_type m ty) (b ++ 35 :: b1 ++ txt "TYPE" ++ b2 ++ m ++ b3 ++ ty ++ more)
  | text_comment b c : blanks b -> comment_ok c -> line_text L_comment (b ++ 35 :: c).

(** The lines and the text; empty lines may be anywhere. *)
Inductive lines_text : list line -> list Z -> Prop :=
  | lines_nil : lines_text [] []
  | lines_blank b ls t : blanks b -> lines_text ls t -> lines_text ls (b ++ 10 :: t)
  | lines_cons l u ls t : line_text l u -> lines_text ls t -> lines_text (l :: ls) (u ++ 10 :: t)
  | lines_last l u : line_text l u -> lines_text [l] u.

Fixpoint rows_of (ls : list line) : list zbx_prometheus_row_t :=
  match ls with L_row row :: ls => row :: rows_of ls | _ :: ls => rows_of ls | [] => [] end.
Fixpoint help_of (m : list Z) (ls : list line) : option (list Z) :=
  match ls with L_help m' h :: ls => if decide (m' = m) then Some h else help_of m ls | _ :: ls => help_of m ls | [] => None end.
Fixpoint type_of (m : list Z) (ls : list line) : option (list Z) :=
  match ls with L_type m' ty :: ls => if decide (m' = m) then Some ty else type_of m ls | _ :: ls => type_of m ls | [] => None end.

(** No metric has two help or two type comments. *)
Definition help_metrics (ls : list line) : list (list Z) := omap (fun l => match l with L_help m _ => Some m | _ => None end) ls.
Definition type_metrics (ls : list line) : list (list Z) := omap (fun l => match l with L_type m _ => Some m | _ => None end) ls.
Definition hints_once (ls : list line) : Prop := NoDup (help_metrics ls) /\ NoDup (type_metrics ls).

Lemma help_of_app m ls ls' : help_of m (ls ++ ls') = match help_of m ls with Some h => Some h | None => help_of m ls' end.
Proof. induction ls as [|[row|m' h|m' h|] ls IH]; cbn; try done. by destruct (decide _). Qed.
Lemma type_of_app m ls ls' : type_of m (ls ++ ls') = match type_of m ls with Some h => Some h | None => type_of m ls' end.
Proof. induction ls as [|[row|m' h|m' h|] ls IH]; cbn; try done. by destruct (decide _). Qed.
Lemma help_of_in m ls h : help_of m ls = Some h -> m ∈ help_metrics ls.
Proof. induction ls as [|[row|m' h'|m' h'|] ls IH]; cbn; try done. destruct (decide (m' = m)) as [->|]; [intros _; left|]. intros H. right. by apply IH. Qed.
Lemma type_of_in m ls h : type_of m ls = Some h -> m ∈ type_metrics ls.
Proof. induction ls as [|[row|m' h'|m' h'|] ls IH]; cbn; try done. destruct (decide (m' = m)) as [->|]; [intros _; left|]. intros H. right. by apply IH. Qed.

(** ** Parsing of comments *)

Lemma help_end_escape h b rest : (forall c, c ∈ b -> blank c = true) -> (rest = [] \/ deref rest = 10) -> help_end (help_escape h ++ b ++ rest) = Some rest.
Proof.
  intros Hb Hr. induction h as [|c h IH].
  - cbn [help_escape app]. induction b as [|c b IHb]; [destruct Hr as [->|Hr]; [done|]; destruct rest as [|d rest]; [done|]; cbn in Hr; by subst d|].
    destruct (blank_cases c (Hb c ltac:(left))) as [-> | ->]; cbn; apply IHb; intros d Hd; apply Hb; by right.
  - cbn [help_escape]. rewrite <-app_assoc. destruct (Z.eqb_spec c BSL) as [->|Hc]; [cbn; exact IH|].
    destruct (Z.eqb_spec c 10) as [->|Hn]; [cbn; exact IH|]. cbn [app help_end]. apply Z.eqb_neq in Hc, Hn. by rewrite Hc, Hn.
Qed.

Lemma unescape_escape h : str_loc_unescape_hint_dyn (help_escape h) = h.
Proof.
  induction h as [|c h IH]; [done|]. cbn [help_escape]. destruct (Z.eqb_spec c BSL) as [->|Hc]; [cbn; by rewrite IH|].
  destruct (Z.eqb_spec c 10) as [->|Hn]; [cbn; by rewrite IH|]. cbn. apply Z.eqb_neq in Hc. by rewrite Hc, IH.
Qed.

Lemma help_escape_app a b : help_escape (a ++ b) = help_escape a ++ help_escape b.
Proof. induction a as [|c a IH]; cbn [help_escape app]; [done|]. by rewrite IH, app_assoc. Qed.

Lemma rtrim_app u c b : blank c = false -> blanks b -> rtrim blank ((u ++ [c]) ++ b) = u ++ [c].
Proof.
  intros Hc Hb. unfold rtrim. rewrite rev_app_distr.
  destruct (scan_app blank (rev b) (rev (u ++ [c]))) as [_ ->].
  - rewrite forallb_forall. intros d Hd. apply in_rev in Hd. unfold blanks in Hb. rewrite forallb_forall in Hb. by apply Hb.
  - by rewrite rev_app_distr.
  - apply rev_involutive.
Qed.

Lemma help_trimmed h b : help_ok h -> blanks b -> rtrim blank (help_escape h ++ b) = help_escape h /\ blank (deref (help_escape h)) = false /\ help_escape h <> [].
Proof.
  intros (h0 & c & -> & Hd & Hc) Hb. split; [|split].
  - rewrite help_escape_app. cbn [help_escape]. rewrite app_nil_r. 
    assert (Htwo : forall e, blank e = false -> rtrim blank ((help_escape h0 ++ [BSL; e]) ++ b) = help_escape h0 ++ [BSL; e]).
    { intros e He. pose proof (rtrim_app (help_escape h0 ++ [BSL]) e b He Hb) as H. by rewrite <-(app_assoc (help_escape h0) [BSL] [e]) in H. }
    destruct (c =? BSL); [by apply Htwo|]. destruct (c =? 10); [by apply Htwo|by apply rtrim_app].
  - destruct h0 as [|d h0]; cbn [app help_escape deref] in *; repeat case_match; done.
  - rewrite help_escape_app. cbn [help_escape]. by repeat case_match; destruct (help_escape h0).
Qed.

Lemma metric_parsed m s : metric_ok m -> metric_char (deref s) = false -> parse_metric (m ++ s) = Some (m, s).
Proof.
  intros Hm Hs. unfold parse_metric. destruct (metric_deref m Hm) as (Ha & _). rewrite deref_app by apply Hm. rewrite Ha.
  by destruct (scan_app metric_char m s (proj1 Hm) Hs) as [-> ->].
Qed.

Lemma blanks_metric b s : blanks b -> b <> [] -> metric_char (deref (b ++ s)) = false.
Proof. destruct b as [|c b]; [done|]. cbn. intros [Hc _]%andb_prop _. by apply blank_not_char. Qed.

Section lines.
Context (regexp : list Z -> list Z -> bool) (eps : double) (f : zbx_prometheus_filter_t).
Abbreviation chosen := (metric_matches regexp f).

(** The hints of the metrics that the filter accepts are those of the lines. *)
Definition hints_say (hints : prometheus_hints) (ls : list line) : Prop :=
  forall m, chosen m = true -> hints !! m ≫= hn_help = help_of m ls /\ hints !! m ≫= hn_type = type_of m ls.

Lemma say_other hints ls l : hints_say hints ls -> (forall m, chosen m = true -> help_of m [l] = None /\ type_of m [l] = None) -> hints_say hints (ls ++ [l]).
Proof.
  intros Hs Hl m Hm. destruct (Hs m Hm) as [-> ->]. destruct (Hl m Hm) as [Hh Ht]. rewrite help_of_app, type_of_app, Hh, Ht.
  by destruct (help_of m ls), (type_of m ls).
Qed.

(** The registration of a comment. *)
Lemma register_help hints ls m h b : hints_say hints ls -> hints_once (ls ++ [L_help m h]) -> chosen m = true -> help_ok h -> blanks b ->
  exists hints', prometheus_register_hint hints m (help_escape h ++ b) true = inr hints' /\ hints_say hints' (ls ++ [L_help m h]).
Proof.
  intros Hs [Hn _] Hm Hh Hb. unfold help_metrics in Hn. rewrite omap_app in Hn. apply NoDup_app in Hn as (_ & Hn & _).
  assert (E : help_of m ls = None) by (destruct (help_of m ls) eqn:E; [|done]; apply help_of_in in E; by destruct (Hn m E); left).
  destruct (Hs m Hm) as [H1 H2]. unfold prometheus_register_hint. destruct (help_trimmed h b Hh Hb) as [-> _]. rewrite unescape_escape.
  assert (Ed : hn_help (default (PromHint None None) (hints !! m)) = None /\ hn_type (default (PromHint None None) (hints !! m)) = type_of m ls).
  { rewrite E in H1. destruct (hints !! m) as [hint|]; done. }
  destruct Ed as [-> ->]. eexists. split; [done|]. intros m' Hm'. rewrite help_of_app, type_of_app. cbn [help_of type_of].
  destruct (decide (m = m')) as [<-|Hne].
  - unfold prometheus_hints in *. rewrite lookup_insert_eq, E. cbn. by destruct (type_of m ls).
  - destruct (Hs m' Hm') as [<- <-]. unfold prometheus_hints in *. rewrite lookup_insert_ne by done. split; by case_match.
Qed.

Lemma register_type hints ls m ty : hints_say hints ls -> hints_once (ls ++ [L_type m ty]) -> chosen m = true -> type_ok ty ->
  exists hints', prometheus_register_hint hints m ty false = inr hints' /\ hints_say hints' (ls ++ [L_type m ty]).
Proof.
  intros Hs [_ Hn] Hm [Ht Hne]. unfold type_metrics in Hn. rewrite omap_app in Hn. apply NoDup_app in Hn as (_ & Hn & _).
  assert (E : type_of m ls = None) by (destruct (type_of m ls) eqn:E; [|done]; apply type_of_in in E; by destruct (Hn m E); left).
  destruct (Hs m Hm) as [H1 H2]. unfold prometheus_register_hint.
  assert (Etr : rtrim blank ty = ty).
  { destruct (exists_last Hne) as (u & c & ->). rewrite <-(app_nil_r (u ++ [c])) at 1. apply rtrim_app; [|done].
    rewrite forallb_app in Ht. apply andb_prop in Ht as [_ Ht]. cbn in Ht. destruct (blank c) eqn:Eb; [|done]. by destruct (blank_cases c Eb) as [-> | ->]. }
  rewrite Etr. assert (Ed : hn_type (default (PromHint None None) (hints !! m)) = None /\ hn_help (default (PromHint None None) (hints !! m)) = help_of m ls).
  { rewrite E in H2. destruct (hints !! m) as [hint|]; done. }
  destruct Ed as [-> ->]. eexists. split; [done|]. intros m' Hm'. rewrite help_of_app, type_of_app. cbn [help_of type_of].
  destruct (decide (m = m')) as [<-|Hne'].
  - unfold prometheus_hints in *. rewrite lookup_insert_eq, E. cbn. by destruct (help_of m ls).
  - destruct (Hs m' Hm') as [<- <-]. unfold prometheus_hints in *. rewrite lookup_insert_ne by done. split; by case_match.
Qed.

(** A comment is read up to a position in its line. *)
Lemma comment_line hints n b s hints' r : blanks b -> prometheus_parse_hint regexp f (35 :: s) hints = inr (hints', r) ->
  parse_line regexp eps f (Some hints) n (b ++ 35 :: s) = inr ([], Some hints', r).
Proof. intros Hb H. unfold parse_line. rewrite spaces_app by done. cbn [deref]. change (35 =? 10) with false. change (35 =? 35) with true. cbv iota. by rewrite H. Qed.

Lemma keyword (w b s : list Z) : blanks b -> blank (deref w) = false -> length w = 4%nat ->
  skip_spaces (b ++ w ++ s) = w ++ s /\ take 4 (w ++ s) = w /\ drop 4 (w ++ s) = s.
Proof.
  intros Hb Hw Hl. split; [apply spaces_app; [done|rewrite deref_app; [done|by destruct w]]|]. rewrite <-Hl. split; [apply take_app_length|apply drop_app_length].
Qed.

Lemma help_line hints ls n b b1 b2 b3 b4 m h rest : blanks b -> blanks b1 -> blanks b2 -> blanks b3 -> b3 <> [] -> blanks b4 -> metric_ok m -> help_ok h ->
  (rest = [] \/ deref rest = 10) -> hints_say hints ls -> hints_once (ls ++ [L_help m h]) ->
  exists hints', parse_line regexp eps f (Some hints) n ((b ++ 35 :: b1 ++ txt "HELP" ++ b2 ++ m ++ b3 ++ help_escape h ++ b4) ++ rest) = inr ([], Some hints', rest) /\
    hints_say hints' (ls ++ [L_help m h]).
Proof.
  intros Hb H1 H2 H3 Hne H4 Hm Hh Hr Hs Ho. destruct (metric_deref m Hm) as (_ & Hbl & _). destruct (help_trimmed h b4 Hh H4) as (_ & Hbe & Hhe).
  assert (Hparse : parse_help (skip_spaces (b2 ++ m ++ b3 ++ help_escape h ++ b4 ++ rest)) = Some (m, help_escape h ++ b4 ++ rest, rest)).
  { rewrite spaces_app by (done || (rewrite deref_app; [done|apply Hm])). unfold parse_help. rewrite metric_parsed by (done || by apply blanks_metric). cbn [mbind option_bind].
    rewrite spaces_app by (done || by rewrite deref_app). rewrite help_end_escape; [done| |done]. intros c Hc. unfold blanks in H4. rewrite forallb_forall in H4. by apply H4, list_elem_of_In. }
  destruct (keyword (txt "HELP") b1 (b2 ++ m ++ b3 ++ help_escape h ++ b4 ++ rest) H1 eq_refl eq_refl) as (K1 & K2 & K3).
  assert (Hline : forall hints', (if negb (chosen m) then inr (hints, rest) else hints ← prometheus_register_hint hints m (help_escape h ++ b4) true; inr (hints, rest)) = (inr (hints', rest) : attempt _) ->
    parse_line regexp eps f (Some hints) n ((b ++ 35 :: b1 ++ txt "HELP" ++ b2 ++ m ++ b3 ++ help_escape h ++ b4) ++ rest) = inr ([], Some hints', rest)).
  { intros hints' Hreg. rewrite <-app_assoc. cbn [app]. apply comment_line; [done|]. unfold prometheus_parse_hint. cbn [tail].
    rewrite <-!app_assoc, K1, K2, bool_decide_eq_true_2 by done. rewrite K3, Hparse. cbn [or_fail mbind attempt_bind].
    rewrite (app_assoc (help_escape h)), between_app. exact Hreg. }
  destruct (chosen m) eqn:Ec.
  - destruct (register_help hints ls m h b4 Hs Ho Ec Hh H4) as (hints' & Hreg & Hs'). exists hints'. split; [|done]. apply Hline. cbn [negb]. by rewrite Hreg.
  - exists hints. split; [by apply Hline|]. apply say_other; [done|]. intros m' Hm'. cbn. by rewrite decide_False by congruence.
Qed.

Lemma type_line hints ls n b b1 b2 b3 m ty more rest : blanks b -> blanks b1 -> blanks b2 -> blanks b3 -> b3 <> [] -> metric_ok m -> type_ok ty ->
  isalpha (deref more) = false -> (rest = [] \/ deref rest = 10) -> hints_say hints ls -> hints_once (ls ++ [L_type m ty]) ->
  exists hints', parse_line regexp eps f (Some hints) n ((b ++ 35 :: b1 ++ txt "TYPE" ++ b2 ++ m ++ b3 ++ ty ++ more) ++ rest) = inr ([], Some hints', more ++ rest) /\
    hints_say hints' (ls ++ [L_type m ty]).
Proof.
  intros Hb H1 H2 H3 Hne Hm [Hta Htn] Hmore Hr Hs Ho. destruct (metric_deref m Hm) as (_ & Hbl & _).
  assert (Hal : isalpha (deref (more ++ rest)) = false) by (destruct more; [destruct Hr as [->|Hr]; cbn; [done|by rewrite Hr]|done]).
  assert (Hbt : blank (deref ty) = false).
  { destruct ty as [|c ty]; [done|]. cbn in *. apply andb_prop in Hta as [Hc _]. destruct (blank c) eqn:Eb; [|done]. by destruct (blank_cases c Eb) as [-> | ->]. }
  assert (Hparse : parse_type (skip_spaces (b2 ++ m ++ b3 ++ ty ++ more ++ rest)) = Some (m, ty ++ more ++ rest, more ++ rest)).
  { rewrite spaces_app by (done || (rewrite deref_app; [done|apply Hm])). unfold parse_type. rewrite metric_parsed by (done || by apply blanks_metric). cbn [mbind option_bind].
    rewrite spaces_app by (done || by rewrite deref_app). destruct (scan_app isalpha ty (more ++ rest) Hta Hal) as [_ ->].
    replace (_ =? _)%nat with false; [done|]. symmetry. apply Nat.eqb_neq. rewrite length_app. destruct ty; [done|]. cbn. lia. }
  destruct (keyword (txt "TYPE") b1 (b2 ++ m ++ b3 ++ ty ++ more ++ rest) H1 eq_refl eq_refl) as (K1 & K2 & K3).
  assert (Hline : forall hints', (if negb (chosen m) then inr (hints, more ++ rest) else hints ← prometheus_register_hint hints m ty false; inr (hints, more ++ rest)) = (inr (hints', more ++ rest) : attempt _) ->
    parse_line regexp eps f (Some hints) n ((b ++ 35 :: b1 ++ txt "TYPE" ++ b2 ++ m ++ b3 ++ ty ++ more) ++ rest) = inr ([], Some hints', more ++ rest)).
  { intros hints' Hreg. rewrite <-app_assoc. cbn [app]. apply comment_line; [done|]. unfold prometheus_parse_hint. cbn [tail].
    rewrite <-!app_assoc, K1, K2, bool_decide_eq_false_2, bool_decide_eq_true_2 by done. rewrite K3, Hparse. cbn [or_fail mbind attempt_bind].
    rewrite between_app. exact Hreg. }
  destruct (chosen m) eqn:Ec.
  - destruct (register_type hints ls m ty Hs Ho Ec (conj Hta Htn)) as (hints' & Hreg & Hs'). exists hints'. split; [|done]. apply Hline. cbn [negb]. by rewrite Hreg.
  - exists hints. split; [by apply Hline|]. apply say_other; [done|]. intros m' Hm'. cbn. by rewrite decide_False by congruence.
Qed.

Lemma blank_no_newline b : blanks b -> 10 ∉ b.
Proof. intros Hb Hin. unfold blanks in Hb. rewrite forallb_forall in Hb. specialize (Hb 10 ltac:(by apply list_elem_of_In)). done. Qed.

Lemma other_comment hints n b c rest : blanks b -> comment_ok c -> (rest = [] \/ deref rest = 10) ->
  parse_line regexp eps f (Some hints) n ((b ++ 35 :: c) ++ rest) = inr ([], Some hints, rest).
Proof.
  intros Hb (Hc & Hh & Ht) Hr. rewrite <-app_assoc. change ((35 :: c) ++ rest) with (35 :: c ++ rest). apply comment_line; [done|]. unfold prometheus_parse_hint. cbn [tail].
  assert (Hskip : skip_spaces (c ++ rest) = skip_spaces c ++ rest /\ (10 ∉ skip_spaces c)).
  { clear Hh Ht. unfold skip_spaces. induction c as [|d c IH]; cbn.
    - split; [|set_solver]. destruct Hr as [->|Hr]; [done|]. destruct rest as [|e rest]; [done|]. cbn in *. by subst e.
    - destruct (blank d); [apply IH; set_solver|]. by split. }
  destruct Hskip as [-> Hn].
  assert (Hword : forall w, (10 ∉ w) -> length w = 4%nat -> take 4 (skip_spaces c) <> w -> take 4 (skip_spaces c ++ rest) <> w).
  { intros w Hw Hl Hne E. destruct (decide (4 <= length (skip_spaces c))%nat) as [Hge|Hlt]; [by rewrite take_app_le in E|].
    rewrite take_app_ge in E by lia. destruct Hr as [->|Hr]; [rewrite take_nil, app_nil_r in E; subst w; rewrite take_ge in Hne by lia; by rewrite <-Hl in Hlt; lia|].
    destruct rest as [|e rest]; [by rewrite take_nil, app_nil_r in E; subst w; lia|]. cbn in Hr. subst e. apply Hw. rewrite <-E. apply elem_of_app. right.
    destruct (4 - length (skip_spaces c))%nat eqn:E4; [lia|]. cbn. left. }
  rewrite !bool_decide_eq_false_2 by (by apply Hword; [set_solver|..]). rewrite row_end_app by done. by rewrite row_end_at.
Qed.

Lemma line_step l u n rest hints ls : line_text l u -> (rest = [] \/ deref rest = 10) -> hints_say hints ls -> hints_once (ls ++ [l]) ->
  u <> [] /\ exists hints' r, parse_line regexp eps f (Some hints) n (u ++ rest) = inr (prometheus_filter_rows regexp eps (rows_of [l]) f, Some hints', r) /\
    skip_row r = tail rest /\ hints_say hints' (ls ++ [l]).
Proof.
  intros Hl Hr Hs Ho. assert (Hend : skip_row rest = tail rest) by (unfold skip_row; by rewrite row_end_at).
  destruct Hl as [b row Hb Hrow|b b1 b2 b3 b4 m h Hb H1 H2 H3 Hne H4 Hm Hh|b b1 b2 b3 m ty more Hb H1 H2 H3 Hne Hm Hty Hal Hmore|b c Hb Hc].
  - destruct (row_text_parse regexp eps row rest Hrow Hr) as (t & _ & _ & _ & Hmet & Hd & Hrne). split; [by destruct b, (rw_raw row)|].
    destruct (metric_deref _ Hmet) as (_ & Hbl & H10 & H35). pose proof (row_line regexp eps n b row rest Hb Hrow Hr) as Hp.
    destruct (parse_line_filter regexp eps f n _ _ _ _ Hp) as (_ & p & Hskip & Hpf); [constructor; [by apply raw_no_newline|constructor]|].
    exists hints, p. split; [|split; [by rewrite Hskip|by apply say_other]]. rewrite <-app_assoc. revert Hpf. unfold parse_line.
    rewrite spaces_app by (done || by rewrite deref_app, Hd). rewrite deref_app, Hd by done.
    replace (deref (rw_metric row) =? 10) with false by lia. replace (deref (rw_metric row) =? 35) with false by lia.
    destruct (prometheus_parse_row regexp eps f (rw_raw row ++ rest)) as [e|[o r]]; cbn; [done|]. by intros [= <- <-].
  - split; [by destruct b|]. destruct (help_line hints ls n b b1 b2 b3 b4 m h rest) as (hints' & Hp & Hs'); try done. by exists hints', rest.
  - split; [by destruct b|]. destruct (type_line hints ls n b b1 b2 b3 m ty more rest) as (hints' & Hp & Hs'); try done. exists hints', (more ++ rest).
    split; [done|]. split; [|done]. unfold skip_row in *. by rewrite row_end_app.
  - split; [by destruct b|]. exists hints, rest. split; [by apply other_comment|]. split; [done|]. by apply say_other.
Qed.

Lemma once_app ls ls' : hints_once (ls ++ ls') -> hints_once ls.
Proof. unfold hints_once, help_metrics, type_metrics. rewrite !omap_app. by intros [[? _]%NoDup_app [? _]%NoDup_app]. Qed.

Lemma rows_of_cons l ls : rows_of (l :: ls) = rows_of [l] ++ rows_of ls.
Proof. by destruct l. Qed.

Lemma lines_parse ls t : lines_text ls t -> forall fuel n hints before, (length t <= fuel)%nat -> hints_say hints before -> hints_once (before ++ ls) ->
  exists hints', parse_rows_loop regexp eps fuel f (Some hints) n t = inr (prometheus_filter_rows regexp eps (rows_of ls) f, Some hints') /\
    hints_say hints' (before ++ ls).
Proof.
  assert (Hstep : forall fuel n s hints rows hints' r, s <> [] -> parse_line regexp eps f (Some hints) n s = inr (rows, hints', r) ->
    parse_rows_loop regexp eps (S fuel) f (Some hints) n s = ('(more, hints) ← parse_rows_loop regexp eps fuel f hints' (n + 1) (skip_row r); inr (rows ++ more, hints))).
  { intros fuel n s hints rows hints' r Hs Hl. destruct s as [|c s]; [done|]. cbn [parse_rows_loop]. by rewrite Hl. }
  induction 1 as [|b ls t Hb _ IH|l u ls t Hl _ IH|l u Hl]; intros fuel n hints before Hf Hs Ho.
  - exists hints. rewrite app_nil_r. split; [by destruct fuel|done].
  - rewrite length_app in Hf. cbn in Hf. destruct fuel; [lia|]. rewrite (Hstep _ _ _ _ [] (Some hints) (10 :: t)); [|by destruct b|].
    + unfold skip_row. rewrite row_end_at by (by right). cbn [tail]. destruct (IH fuel (n + 1) hints before ltac:(lia) Hs Ho) as (hints' & -> & Hs'). by exists hints'.
    + unfold parse_line. by rewrite spaces_app.
  - rewrite length_app in Hf. cbn in Hf. destruct fuel; [lia|].
    replace (before ++ l :: ls) with ((before ++ [l]) ++ ls) in * by (by rewrite <-app_assoc).
    destruct (line_step l u n (10 :: t) hints before Hl ltac:(by right) Hs (once_app _ _ Ho)) as (Hne & hints1 & r & Hp & Hr & Hs1).
    assert (Hune : u ++ 10 :: t <> []) by (by destruct u). rewrite (Hstep _ _ _ _ _ _ _ Hune Hp), Hr. cbn [tail].
    destruct (IH fuel (n + 1) hints1 (before ++ [l]) ltac:(lia) Hs1 Ho) as (hints' & -> & Hs'). exists hints'. split; [|done].
    cbn [mbind attempt_bind]. rewrite (rows_of_cons l ls). unfold prometheus_filter_rows. by rewrite filter_app.
  - destruct (line_step l u n [] hints before Hl ltac:(by left) Hs Ho) as (Hne & hints1 & r & Hp & Hr & Hs1). rewrite app_nil_r in Hp.
    destruct fuel; [destruct u; [done|cbn in Hf; lia]|]. exists hints1. split; [|done]. rewrite (Hstep _ _ _ _ _ _ _ Hne Hp), Hr. cbn [tail].
    replace (parse_rows_loop _ _ fuel f _ _ []) with (inr ([], Some hints1) : attempt (list zbx_prometheus_row_t * option prometheus_hints)) by (by destruct fuel).
    cbn [mbind attempt_bind]. by rewrite app_nil_r.
Qed.

(** The object of a row among the lines of a text. *)
Definition row_object (ls : list line) (row : zbx_prometheus_row_t) : json :=
  JObject ([(txt "name", JString (rw_metric row)); (txt "value", JString (rw_value row)); (txt "line_raw", JString (rw_raw row))] ++
    match rw_labels row with [] => [] | labels => [(txt "labels", JObject ((fun l => (lb_name l, JString (lb_value l))) <$> labels))] end ++
    [(txt "type", JString (default (txt "untyped") (type_of (rw_metric row) ls)))] ++
    match help_of (rw_metric row) ls with Some help => [(txt "help", JString help)] | None => [] end).

Lemma row_json_object hints ls row : hints_say hints ls -> row_matches regexp eps f row = true -> row_json hints row = row_object ls row.
Proof.
  intros Hs Hm. unfold row_matches in Hm. apply andb_prop in Hm as [[Hm _]%andb_prop _]. destruct (Hs _ Hm) as [Hh Ht].
  unfold row_json, row_object. cbv zeta. by rewrite Hh, Ht.
Qed.
End lines.

(** ** The array *)

(** C16: Prometheus texts as JSON.  Let a text be written from rows, HELP and
    TYPE comments, other comments and empty lines, with free spaces, no metric
    having two HELP or two TYPE comments.  With a valid filter the conversion
    returns, without leaving the buffer of the builder, a JSON text of the array
    that has an object for each row that matches the filter, in the order of the
    text: its metric, value and line, its labels when it has any, the type that
    the TYPE comment of its metric says, untyped when there is none, and the
    help text that its HELP comment says, when there is one.  With an invalid
    filter it returns the error. *)
Theorem prometheus_json regexp eps junk ls t filter_data : c_string t -> lines_text ls t -> hints_once ls ->
  match prometheus_filter_init (Some filter_data) with
  | inl e => zbx_prometheus_to_json regexp eps junk t filter_data = Ret (inl (txt "pattern error: " ++ e))
  | inr f => exists out, zbx_prometheus_to_json regexp eps junk t filter_data = Ret (inr out) /\
      text_of (JArray (row_object ls <$> filter (fun row => row_matches regexp eps f row = true) (rows_of ls))) out
  end.
Proof.
  intros Hd Hls Ho. unfold zbx_prometheus_to_json. destruct (prometheus_filter_init (Some filter_data)) as [e|f]; [done|]. cbn [prefixed mbind attempt_bind].
  destruct (lines_parse regexp eps f ls t Hls (length t) 1 ∅ [] (le_n _)) as (hints & Hp & Hs); [by intros m _|done|]. cbn [app] in Hs.
  unfold prometheus_parse_rows. rewrite Hp. destruct (parse_rows_bytes _ _ _ _ (Some ∅) _ _ _ _ Hd (map_Forall_empty _) Hp) as [Hr Hh].
  set (rows := prometheus_filter_rows regexp eps (rows_of ls) f) in *. destruct (rows_build hints rows [] Hr Hh) as (more & Hb & Em).
  destruct (json_init_ok junk false (zlen rows * 100)) as (j0 & E0 & H0); [unfold zlen; lia|]. unfold init in E0. rewrite E0. cbn [mbind res_mbind].
  destruct (build_ok junk _ _ _ Hb j0 H0) as (j & Ej & Hj). cbn [default from_option id]. rewrite Ej. cbn [mbind res_mbind]. eexists. split; [done|].
  destruct (built_text j _ _ Hj) as (_ & _ & Ht & _). cbn in Ht. unfold root_value in Ht. cbn in Ht. fold rows.
  replace (row_object ls <$> rows) with (row_json hints <$> rows); [by rewrite <-Em|]. apply list_fmap_ext. intros k row Hk.
  apply (row_json_object regexp eps f); [done|]. apply list_elem_of_lookup_2 in Hk. by apply list_elem_of_filter in Hk as [? _].
Qed.

(** ** Witness *)

Definition json_row : zbx_prometheus_row_t :=
  PromRow (txt "up") (txt "1") [PromLabel (txt "a") [QUOT]]
    (txt "up" ++ [] ++ LBR :: ([] ++ (txt "a" ++ [] ++ 61 :: [] ++ QUOT :: prom_escape [QUOT] ++ [QUOT]) ++ [] ++ [RBR]) ++ [32] ++ txt "1" ++ []).
Definition json_other : zbx_prometheus_row_t := PromRow (txt "down") (txt "0") [] (txt "down" ++ [32] ++ txt "0" ++ []).

Definition json_lines : list line := [L_help (txt "up") (txt "is it up"); L_type (txt "up") (txt "gauge"); L_row json_row; L_row json_other].
Definition json_sample : list Z :=
  ([] ++ 35 :: [32] ++ txt "HELP" ++ [32] ++ txt "up" ++ [32] ++ help_escape (txt "is it up") ++ []) ++ 10 ::
  ([] ++ 35 :: [32] ++ txt "TYPE" ++ [32] ++ txt "up" ++ [32] ++ txt "gauge" ++ []) ++ 10 ::
  ([] ++ rw_raw json_row) ++ 10 :: ([] ++ rw_raw json_other).

Lemma json_sample_lines : lines_text json_lines json_sample.
Proof.
  assert (Hm : metric_ok (txt "up")) by done.
  apply lines_cons; [apply text_help; try done; by exists (txt "is it u"), 112|]. apply lines_cons; [apply text_type; try done; set_solver|].
  apply lines_cons; [apply text_row; [done|]|apply lines_last, text_row; [done|]].
  - apply row_labels; try done; [|by left]. apply labels_one; [done|done|]. by apply label_text_intro.
  - apply row_plain; try done. by left.
Qed.

Lemma prometheus_json_witness : exists out,
  zbx_prometheus_to_json (fun _ _ => false) double_epsilon 0 json_sample (txt "up") = Ret (inr out) /\
  text_of (JArray [JObject [(txt "name", JString (txt "up")); (txt "value", JString (txt "1")); (txt "line_raw", JString (rw_raw json_row));
    (txt "labels", JObject [(txt "a", JString [QUOT])]); (txt "type", JString (txt "gauge")); (txt "help", JString (txt "is it up"))]]) out.
Proof.
  apply (prometheus_json (fun _ _ => false) double_epsilon 0 json_lines json_sample (txt "up")).
  - apply lit_bytes. vm_compute. reflexivity.
  - exact json_sample_lines.
  - split.
    + apply NoDup_singleton.
    + apply NoDup_singleton.
Defined.
